(* ===== verification/_CoqProject ===== *)
-Q . S2P
Prelude.v
Ids.v
Wire.v
ReplayWindow.v
FrameMac.v
QkcTypes.v
SecretStore.v
FrameAuth.v
OtpCrypto.v
Routing.v
PeerOut.v
KeyStore.v
Relay.v
Refill.v
Security.v
TransportPool.v
PendingStore.v
TokenBucket.v
Delivery.v
Text.v
Primitives.v
E2e.v
Peers.v
Drain.v
Emission.v
EmissionFlow.v
Signing.v
Handshake.v
EpochAgreement.v
Onion.v
OrrPeers.v
OrrRotation.v
OrrService.v
Float64.v
SdnTopology.v
SdnStore.v
SdnGraph.v
SdnRegistry.v
SdnHeartbeat.v
SdnPaths.v
SdnWcmp.v
ForwardingPush.v
SdnControl.v
SdnHttp.v
SdnRates.v
SdnDebounce.v
PeerAdmission.v
DemandTracker.v
RateLoop.v
EtsiBinary.v
Utf8.v
EtsiAuth.v
QkcLinks.v
QkcSdn.v
Quditto.v
KmeClient.v
SaeBinding.v
Arith.v
RateAlloc.v
AllocFair.v
RateLp.v
RateEstimator.v
SaeList.v
OrrLink.v
