(* ===== verification/Prelude.v ===== *)
(** * A verification library for dkms_rust

    The repository is a key-distribution stack in Rust.  Applications (SAEs) ask a
    DKMS for keys over ETSI 014; two DKMS share a session key by sending it, under
    a one-time pad, over ETSI 020; the pads ("transport keys") are pumped between
    DKMS through onion routers (ORR) over a network of relays (QKC), which carry
    every frame hop by hop under one-time pads of their own links, taken from QKD
    devices or derived from post-quantum secrets; a controller (SDN) computes the
    routes.  This library models the relay (crate [qkc], with the frame format of
    [wire] and the frame MAC of [common]), the DKMS (crate [dkms]): key delivery,
    the end-to-end layer and the pump of transport keys, the onion router
    (crate [orr]) between them, and the controller (crate [sdn]): its topology,
    the tables it derives and pushes to the relays, who may change what, and the
    rates it computes and tells the DKMS.

    ** The parts, the files and the code

    - [Prelude] (this file): results with panics as a third outcome, machine
      integers, bytes, list lemmas, the hint databases [rust] and [zlen], tactics.
    - [Ids] (common/src/ids.rs): which identifiers are admitted.
    - [Wire] (wire/src/lib.rs): the frame, its encoder and its reader on a byte
      stream, the authentication trailer, the NOTIFY payload.
    - [ReplayWindow] (common/src/crypto/frame_mac.rs): the anti-replay bitmap as
      words of 64 bits, the previous window, retired sessions, three policies to
      adopt a session.
    - [FrameMac] (same file): the canonical bytes a tag covers, key derivation,
      tag and verification, over the class [MacCrypto] (HKDF and HMAC-SHA256).
    - [QkcTypes] (qkc/src/kme.rs, error.rs): keys and errors shared below.
    - [SecretStore] (qkc/src/pqc_source.rs): the window of epoch secrets, resync
      requests, the rekey clock, derivation of ENC and DEC keys.
    - [FrameAuth] (qkc/src/frame_auth.rs): sealing and opening frames on a link,
      with both key caches, and the policy for frames without a tag.
    - [OtpCrypto] (qkc/src/crypto.rs): the one-time pad over chunks.
    - [Routing] (qkc/src/routing.rs): the forwarding tables and weighted choice.
    - [PeerOut] (qkc/src/transport/peer_client.rs): the outgoing queue of a peer
      and its writer task, as a step relation.
    - [KeyStore] (qkc/src/keystore.rs): the ENC ring, the DEC map, announcements,
      waits, and the decisions of the refill workers; the interleavings of
      handlers and workers are the step relation [ks_step].
    - [Relay] (qkc/src/relay.rs, service.rs, transport/peer_server.rs, local.rs):
      the node: links, local delivery, both relay handlers, ingress and dispatch.
    - [Refill] (qkc/src/keystore.rs, both workers): one refill across a link.
    - [Security] (common/src/security.rs, dkms/src/security_level.rs): grades,
      levels, the policy table, the level a request asks for.
    - [TransportPool] (dkms/src/state/buffer.rs, pool.rs, control/ack_pending.rs,
      [on_ack] of control/generator.rs): transport keys from emission to use; the
      interleavings are the step relation [gen_step].
    - [PendingStore] (dkms/src/state/pending.rs): session keys waiting for SAEs.
    - [TokenBucket] (dkms/src/token_bucket.rs): admission of requests.
    - [Delivery] (dkms/src/service.rs): the ETSI handlers of
      both nodes and one exchange between them.
    - [Text] (the standard library): numbers as decimal and hexadecimal text and
      back, and the class [TextCodecs] of the hex and base64 crates.
    - [Primitives] (common/src/crypto/aead.rs, pqc.rs): the wrappers of AES-GCM and
      ML-KEM with their length checks, over the classes [AesGcm] and [MlKem].
    - [E2e] (dkms/src/e2e.rs): epochs agreed between two DKMS, sealing and opening
      of transport keys, the limits on who may ask for an epoch and how often.
    - [Peers] (dkms/src/peers.rs): the registry of peers fed by the controller, and
      the detector of restarted peers.
    - [Drain] (dkms/src/admission.rs, etsi_http/admission_layer.rs, [drain] of
      grpc_server.rs): controlled shutdown under concurrent requests, as the step
      relation [drain_step].
    - [Emission] (dkms/src/control/generator.rs, control/ack_socket.rs, the delivery
      handlers of service.rs): a transport key from its emission to its ACK.
    - [EmissionFlow]: two nodes with any number of emissions, deliveries and ACKs
      under way, as the step relation [flow_step].
    - [Signing] (common/src/crypto/pqc_sign.rs, link_mac.rs, cert_identity.rs):
      signatures, link MACs and node certificates, over [MlDsa] and [X509].
    - [Handshake] (qkc/src/pqc_handshake.rs): both ends of the handshake that fills
      [SecretStore]; the rotation task of the initiator is the machine
      [rotation_do].
    - [EpochAgreement]: both ends of [Handshake] and the network between them, as
      the transitions [link_do].
    - [Onion] (orr/src/onion.rs, header.rs, dkms_header.rs, onion_replay.rs): layers
      and headers, over the classes [Sha256] and [MsgPack], and the window per
      origin.
    - [OrrPeers] (orr/src/peers.rs, identity.rs, handshake.rs, sdn_announce.rs): the
      peers of a router, its identity, and whose public keys it takes.
    - [OrrRotation] (orr/src/macs.rs, rotation.rs, bootstrap.rs, the calls of
      grpc_server.rs): how two routers agree on their secrets; both of them, and what
      the network loses between them, are the step relation [rstep].
    - [OrrService] (orr/src/service.rs): sending, forwarding and delivering, and a
      message followed from router to router ([carry]).
    - [Float64]: binary64 numbers of the standard library's [SpecFloat] as the
      code uses them.
    - [SdnTopology], [SdnStore] (sdn/src/topology.rs): the entities and the graph;
      the store and every operation on it.
    - [SdnGraph], [SdnRegistry], [SdnHeartbeat]: what holds of the store after any
      sequence of operations ([sdn_run]): the edges, the indexes and bindings, and
      repeated announcements.
    - [SdnPaths] (topology.rs, routing.rs, [get_orr_path] of grpc_server.rs): paths
      and the components of the QKD graph.
    - [SdnWcmp] (sdn/src/mcmcf.rs, [wcmp_from_topology]): the forwarding tables.
    - [ForwardingPush] (the push loop of sdn/src/service.rs, qkc/src/http_admin.rs):
      the tables on their way from the controller into [Routing].
    - [SdnControl] (sdn/src/presence.rs, demand.rs, push.rs, the sweeper of
      service.rs): who is alive, what is asked for, who listens.
    - [SdnHttp] (sdn/src/http_api.rs): the routes that change state and who may; the
      snapshot a route tests ownership on is apart from the state it then changes.
    - [SdnRates] (sdn/src/mcmcf.rs, mcf.rs, [get_rate] of http_api.rs): what the
      solver is asked and how its answer reaches the DKMS.
    - [SdnDebounce] (sdn/src/debounce.rs): when the solver runs; its flags are the
      steps [Fire.spawn_fire_step].
    - [PeerAdmission] (dkms/src/control/sae_buffer_bucket.rs): the buckets per peer
      and SAE, an instance of the interface [Delivery] asks for.
    - [DemandTracker] (dkms/src/demand_tracker.rs): how much is asked of a peer.
    - [RateLoop] (the rate loop, the tick and the demand report of
      dkms/src/control/generator.rs): rates from the controller, reports back to it.
    - [EtsiBinary] (etsi/src/binary.rs): keys and ids as bytes.
    - [Utf8] (the standard library): text as bytes.
    - [EtsiAuth] (dkms/src/etsi_http/): who a caller is, and the routes to [Delivery]
      and [E2e].
    - [QkcLinks] (qkc/src/config.rs, service.rs, sdn_client.rs): the configuration of
      a relay, links built from it, and the links its controller asks for.
    - [QkcSdn]: two relays and the controller that makes them neighbours.
    - [Quditto] (crate quditto): the simulated KME, its buffer, minter and routes.
    - [KmeClient] (qkc/src/kme.rs): the client of a KME, over the class [KmeServer],
      of which [Quditto] is an instance; a QKD link with its KME.
    - [SaeBinding] (dkms/src/sae_binding.rs, [get_sae_binding] of
      sdn/src/grpc_server.rs): where a SAE is, asked of the controller through a
      cache; several calls interleave where the code awaits.
    - [Arith]: the arithmetic of numerical code, as floats and as rationals.
    - [RateAlloc] (sdn/src/rates_num.rs, [recompute_mcf_inner] of sdn/src/service.rs):
      two rate allocators; [AllocFair] is what they compute in exact arithmetic, and
      where doubles do not.
    - [RateLp] (sdn/src/mcmcf.rs): the third allocator, a chain of linear programs, and
      the flow problems their points are.
    - [RateEstimator] (qkc/src/rate_estimator.rs, [stock_rate_loop] of
      qkc/src/keystore.rs): the rate of a QKD link measured from the stock of its KME.
    - [SaeList] (etsi/src/v014/key_request.rs): the further SAEs of a key request.
    - [OrrLink] (orr/src/qkc_link.rs): the connection of a router to its QKC.

    A struct is a record with the same fields, an enum an inductive type, a method
    a function from the state to the state and its answer.  [DashMap] and
    [HashMap] are [gmap], a [VecDeque] a list with its front first.  A call that
    can fail answers a [res]; an arithmetic overflow, a division by zero or an
    index out of range is [Panic], which the release profile turns into the end of
    the process.

    ** What is shown

    - Frames: reading inverts writing and stops at the end of the frame; reading
      is safe on arbitrary bytes.
    - Authentication: the canonical bytes determine the frame; a frame that opens
      was sealed by the peer, unless a tag was forged; a stream of sealed frames
      opens whatever is lost; no frame opens twice, whatever is replayed; a frame
      that does not verify moves nothing; where the policy asks for tags nothing
      else passes.  The replay window accepts exactly the new counters in reach.
    - Link keys: both ends derive the same keys from the ids alone; secrets
      outlive the keys that may still be buffered; a pad is used once in every
      interleaving; refills fit the ring; a refill leaves both ends with the same
      keys.
    - Forwarding: shares are exact; QKD-grade frames stay on QKD links; queues
      keep order; and, end to end, a payload crosses any path of ready hops
      unchanged ([Relay.path_delivers]).
    - Delivery: master and slave get the same session keys
      ([Delivery.session_key_delivered]); a request that cannot be sent spends
      nothing; a session key is handed out once per SAE; a transport key is filed
      once; the policy table decides the grade; buckets bound what is granted.
    - End-to-end layer: an agreement leaves both ends with the same secret, also
      when both ask at once; sealed keys open; a key id is sealed at most once per
      epoch and a sealed key opens at most once; what opens was sealed; the state
      stays well formed; one responder grants a bounded number of epochs.
    - Handshake: what is sent is accepted, nothing unauthenticated is where the
      policy says so; both ends hold the same secret for every epoch they share,
      whatever is lost, repeated or reordered ([EpochAgreement.handshake_agreement]);
      an exchange establishes an epoch, waiting for one ends, a forged epoch moves
      a link by a bounded step.
    - Pump: however many keys are emitted, delivered, lost and acknowledged at a time
      and in whatever order, what one side of the pair holds to send with the other
      side holds to open with ([EmissionFlow.emission_keeps_nodes_paired]); a tick
      fits the capacity; acknowledgements are neither lost nor doubled.
    - Onion routing: a message sent along any path of routers arrives, at its
      destination only, as it was sent ([OrrService.onion_message_delivered]); the
      epoch either of two routers sends with is known to the other, through
      rotations that fail anywhere, but for the two windows the theorem names
      ([OrrRotation.rotation_epochs_known]); a rotation from a common bootstrap, on a
      network that loses nothing, succeeds and one with a peer that lost its secrets
      makes them again; no onion is taken twice; under strict trust only signed keys
      are taken; pending keys are bounded.
    - Registry and shutdown: SDN updates are idempotent and keep the peers of the
      configuration; the drain never sleeps with nothing to wait for.
    - Controller: after any operations an edge stands exactly where an end declares
      it; the indexes are consistent and a SAE is moved by its own calls only; a
      repeated announcement changes nothing, of a QKC, a router or a manager; paths are shortest and QKD components
      exact; every table pushed carries a frame to its destination, in a number of
      hops that is the distance, through the forwarding tables of [Routing]
      ([ForwardingPush.pushed_tables_carry_frames]); a node with a certificate
      changes only what is its own, but for a binding that moved since its ownership
      was tested ([SdnHttp.caller_changes_only_its_own]); a sweep
      removes exactly what lapsed; a demand that survives was renewed; commodities
      match the graph and both ends of a pair are told the same rate; a request to
      recompute is followed by a call for a run within the cap, one window and what
      the worker is late, and there is one run at a time.
    - The edge of a DKMS: a SAE is given the keys its certificate names and no other
      ([EtsiAuth.keys_go_to_the_certified_sae]), a caller that is not a peer of the
      registry changes nothing, refusals look alike, a certificate the proxy passes
      on is read back, and the binary format round-trips and is safe to read.
    - Rates: a request that is admitted finds its transport keys, or others took them
      in between ([PeerAdmission.admitted_request_finds_keys]); the demand of a
      peer is the moving average of its windows; a tick fits the buffers; the report
      of a DKMS is filed by the controller as it was meant; strict QKD is refused
      exactly where the controller sees no QKD path.
    - Bindings: what the cache answers was so within its time to live, a failing SAE
      is asked for rarely, and every SAE of a request is put with the one DKMS the
      controller has it bound to ([SaeBinding.request_goes_where_the_sae_is_bound]).
    - Requests name their SAEs: every name once, trimmed, in order, whatever form the
      list came in.  The connection of a router to its QKC never panics and keeps the
      order of the frames.
    - Allocators, in exact arithmetic: a commodity has a route exactly where usable
      links join its ends; the rates of the price method fit every edge and leave no
      flow with demand and a route at zero ([AllocFair.published_rates_fit]);
      progressive filling ends and is max-min fair ([AllocFair.maxmin_is_fair]), which
      in doubles it need not do ([AllocFair.float_round_settles_nobody]); the points of
      the linear programs are exactly the flows that fit every edge
      ([RateLp.programs_are_flow_problems]).
    - Measured rates, in exact arithmetic: the estimate is never above what the KME
      makes by more than the keys under way at a poll account for, and not below it by
      more once there is one, through overflows, failed polls and blocks
      ([RateEstimator.report_is_the_rate]).
    - Neighbours: a controller cannot touch the links of the configuration, and
      what it adds is a PQC link without the secrets of any pair
      ([QkcLinks.controller_cannot_touch_own_links]); two relays the controller joins
      hear each other exactly where suite and key size agree ([QkcSdn.controller_links_authenticate]).
    - QKD keys: the KME hands a key out once to either end; both ends of a QKD link
      get the same keys of it ([KmeClient.qkd_refill_shares_keys]); a client asks for
      no more than the KME allows.
    - Some theorems state behaviour that looks unintended: a key size below eight
      bits panics, an announced key can be missed, key caches outlive a replaced
      secret, a key the peer did not accept is still given to the master, a request
      can outlive a drain that reports a clean end, a second restart of a peer
      within thirty seconds is missed, a handshake answer or request from before a
      restart can leave a link with two secrets, an epoch missed at the start is not
      retried, the first rotation between two routers sends with an epoch the other
      does not have yet, a lost confirmation leaves a router sending with an epoch
      the other dropped, an onion passes again when its origin is written in another
      case, one unauthenticated frame makes a router drop its secrets with a peer,
      the controller can move a configured peer to another QKC, an expired or moved
      manager keeps its place, an identifier with a leading zero misroutes, a table
      answered with an error is half taken, a SAE can be bound to a manager that
      did not ask for it, a strict request can be admitted on keys it may not use and
      two applications on the same keys, a round of the filling settles nobody where
      a sum is rounded,
      two first samples of a peer can leave one, a request for several keys that
      fails loses those it had taken, the cap of the links of a controller counts
      declared links that are down, a neighbour declared twice is sent to as QKD, a
      short link secret still keys the frames, the key size of a link is not
      announced, a client of a KME forgets keys it was given or adopts a size
      the relay does not cut with, an event of the controller misses a binding that
      is being looked up, a late failure hides a binding, a link that delivers
      nothing is promised a rate, full buffers are promised their drain whatever the
      links carry, a pair no link joins stops the common fill, invented keys raise the
      measured rate, an overflow before the first estimate is not seen, and a router throws away what it
      had queued for its QKC when the connection breaks.

    ** Time, concurrency, randomness and bounds

    Instants are numbers and an argument of the operation that reads the clock.  A
    wait ([wait_enc_batch], [wait_dec]) takes a schedule: the list of what the
    other tasks do to the shared state each time it sleeps; the end of the list is
    the timeout, so every wait terminates and a theorem holds for every schedule
    of every length.  Tasks that share state are step relations, with theorems
    about every reachable state.  Random ids and keys are arguments, with
    freshness as a hypothesis where it matters.  No other function needs fuel but
    [chunks_loop], whose fuel is the number of bytes, [read_body_loop], whose
    fuel covers the declared length in chunks, and [pop_while], whose fuel is the
    size of the map, and the searches of the controller ([search], [flood],
    [dist_loop]), whose fuel is the number of nodes; all are proved to be enough.
    The loop of requests of a [KmeClient] has one step per key asked
    for; the loop of the minter, which pays for floating-point debt, takes its fuel
    as an argument and its theorems hold for all of it.  The loop over the windows of a [DemandTracker] has the
    number of windows passed as its fuel, with the same proof.  The loop of [commodity_edge_fractions] has the
    bound of the code, enough where the tables are smaller; progressive filling has
    one round a flow, and the reader of SAE lists a step a level of nesting, both
    proved to be enough.  Floating-point numbers are those of [Float64];
    in [TokenBucket] alone the tokens a refill is worth are an argument.  The
    admission control per peer is the class [PeerBuckets] in [Delivery], and
    [PeerAdmission] is its instance.

    Code outside the repository is a class: [MacCrypto] (hkdf, hmac), [RelayEnv]
    (uuid text and the hash of a flow), [KeyDigest] (sha2), [AesGcm], [MlKem],
    [MlDsa], [X509], [CertParser], [Sha256], [MsgPack], [TextCodecs], [NetText] (addresses as text)
    [MokaCache] (moka), [JsonText] (serde_json), [LpCrates] (good_lp and its back ends) and [Libm] (powers of ten), each with a concrete instance on which the theorems
    are exercised; [HashOrder] and [MapOrder] are the unspecified order of a map.

    ** What is not modelled

    The crates that solve the linear programs of the controller, TLS, the read
    side of the HTTP and gRPC planes, configuration files, logging, metrics and
    statistics and test tools are left out. *)

From Stdlib Require Import ZArith Lia.
From stdpp Require Export base list gmap strings.

#[global] Open Scope Z_scope.

(** ** Results of Rust code

    A Rust call returns a [Result], or it panics.  The release profile of the
    workspace sets [overflow-checks = true] and [panic = "abort"], so a panic
    (an out-of-range slice, an arithmetic overflow, a failed [assert!]) is an
    observable outcome of its own: the process dies.  It is kept apart from
    [Err], so that "this never panics" can be stated and proved. *)

Inductive res (E A : Type) : Type :=
  | Ok (a : A)
  | Err (e : E)
  | Panic.
Arguments Ok {E A} a.
Arguments Err {E A} e.
Arguments Panic {E A}.

Definition res_bind {E A B} (c : res E A) (k : A -> res E B) : res E B :=
  match c with
  | Ok a => k a
  | Err e => Err e
  | Panic => Panic
  end.

(** [map_err]: the error conversion of the [?] operator. *)
Definition res_map_err {E F A} (f : E -> F) (c : res E A) : res F A :=
  match c with
  | Ok a => Ok a
  | Err e => Err (f e)
  | Panic => Panic
  end.

Definition is_ok {E A} (c : res E A) : bool :=
  match c with Ok _ => true | _ => false end.

Declare Scope rust_scope.
Delimit Scope rust_scope with rust.
Notation "'let*' x ':=' c 'in' k" :=
  (res_bind c (fun x => k))
    (at level 10, x pattern, c at level 200, k at level 200)
    : rust_scope.
#[global] Open Scope rust_scope.

Lemma res_bind_ok {E A B} (c : res E A) (k : A -> res E B) b :
  res_bind c k = Ok b <-> exists a, c = Ok a /\ k a = Ok b.
Proof.
  split.
  - destruct c; simpl; intros; try discriminate; eauto.
  - intros (a & -> & Hk). exact Hk.
Qed.

(** ** Machine integers: a [w]-bit unsigned integer is a [Z] in [0, 2^w). *)

Definition is_u (w z : Z) : Prop := 0 <= z < 2 ^ w.
Definition u_max (w : Z) : Z := 2 ^ w - 1.

(** The [as uN] cast: truncation to the low [w] bits. *)
Definition as_u (w z : Z) : Z := z mod 2 ^ w.

Definition sat_sub (a b : Z) : Z := Z.max 0 (a - b).
Definition sat_add (w a b : Z) : Z := Z.min (a + b) (u_max w).
Definition sat_mul (w a b : Z) : Z := Z.min (a * b) (u_max w).

Definition zlen {A} (l : list A) : Z := Z.of_nat (length l).

#[export] Instance is_u_dec w z : Decision (is_u w z).
Proof. unfold is_u. apply _. Defined.

Lemma as_u_small w z : is_u w z -> as_u w z = z.
Proof. intros H. apply Z.mod_small. exact H. Qed.

Lemma as_u_range w z : 0 <= w -> is_u w (as_u w z).
Proof. intros Hw. apply Z.mod_pos_bound. lia. Qed.

Lemma zlen_nonneg {A} (l : list A) : 0 <= zlen l.
Proof. unfold zlen. lia. Qed.

Lemma zlen_app {A} (l1 l2 : list A) : zlen (l1 ++ l2) = zlen l1 + zlen l2.
Proof. unfold zlen. rewrite length_app. lia. Qed.

Lemma zlen_cons {A} (x : A) l : zlen (x :: l) = 1 + zlen l.
Proof. unfold zlen. simpl. lia. Qed.

Lemma zlen_nil {A} : zlen (@nil A) = 0.
Proof. reflexivity. Qed.

(** ** Bytes and byte strings *)

Abbreviation bytes := (list Z).
Definition is_u8 (b : Z) : Prop := 0 <= b < 256.
Definition wf_bytes (l : bytes) : Prop := Forall is_u8 l.

#[export] Instance is_u8_dec b : Decision (is_u8 b).
Proof. unfold is_u8. apply _. Defined.
#[export] Instance wf_bytes_dec l : Decision (wf_bytes l).
Proof. unfold wf_bytes. apply _. Defined.

Fixpoint le_bytes (n : nat) (z : Z) : bytes :=
  match n with
  | O => []
  | S n => z mod 256 :: le_bytes n (z / 256)
  end.

Fixpoint le_val (l : bytes) : Z :=
  match l with
  | [] => 0
  | b :: l => b + 256 * le_val l
  end.

Definition be_bytes (n : nat) (z : Z) : bytes := rev (le_bytes n z).
Definition be_val (l : bytes) : Z := le_val (rev l).

Lemma length_le_bytes n z : length (le_bytes n z) = n.
Proof. revert z; induction n; intros; simpl; auto. Qed.

Lemma length_be_bytes n z : length (be_bytes n z) = n.
Proof. unfold be_bytes. rewrite length_rev. apply length_le_bytes. Qed.

Lemma zlen_le_bytes n z : zlen (le_bytes n z) = Z.of_nat n.
Proof. unfold zlen. by rewrite length_le_bytes. Qed.

Lemma zlen_be_bytes n z : zlen (be_bytes n z) = Z.of_nat n.
Proof. unfold zlen. by rewrite length_be_bytes. Qed.

Lemma le_val_le_bytes n z :
  0 <= z < 256 ^ Z.of_nat n -> le_val (le_bytes n z) = z.
Proof.
  revert z; induction n as [|n IH]; intros z Hz; simpl.
  - simpl in Hz. lia.
  - rewrite IH.
    + pose proof (Z.div_mod z 256). lia.
    + rewrite Nat2Z.inj_succ, Z.pow_succ_r in Hz by lia.
      split; [apply Z.div_pos; lia | apply Z.div_lt_upper_bound; lia].
Qed.

Lemma be_val_be_bytes n z :
  0 <= z < 256 ^ Z.of_nat n -> be_val (be_bytes n z) = z.
Proof. intros. unfold be_val, be_bytes. rewrite rev_involutive. by apply le_val_le_bytes. Qed.

Lemma le_bytes_wf n z : wf_bytes (le_bytes n z).
Proof.
  revert z; induction n as [|n IH]; intros; simpl; constructor.
  - apply Z.mod_pos_bound. lia.
  - apply IH.
Qed.

Lemma wf_bytes_rev l : wf_bytes l -> wf_bytes (rev l).
Proof. unfold wf_bytes. rewrite !Forall_forall. intros H x Hx. apply H. by apply list_elem_of_In, in_rev, list_elem_of_In. Qed.

Lemma be_bytes_wf n z : wf_bytes (be_bytes n z).
Proof. apply wf_bytes_rev, le_bytes_wf. Qed.

Lemma le_val_range l : wf_bytes l -> 0 <= le_val l < 256 ^ zlen l.
Proof.
  unfold zlen. induction 1 as [|b l Hb Hl IH]; simpl le_val.
  - simpl. lia.
  - simpl length. rewrite Nat2Z.inj_succ, Z.pow_succ_r by lia.
    unfold is_u8 in Hb. lia.
Qed.

Lemma be_val_range l : wf_bytes l -> 0 <= be_val l < 256 ^ zlen l.
Proof.
  intros H. unfold be_val. replace (zlen l) with (zlen (rev l)).
  - apply le_val_range. by apply wf_bytes_rev.
  - unfold zlen. by rewrite length_rev.
Qed.

Lemma le_bytes_le_val l : wf_bytes l -> le_bytes (length l) (le_val l) = l.
Proof.
  induction 1 as [|b l Hb Hl IH]; [done|].
  cbn [length le_val le_bytes]. unfold is_u8 in Hb. f_equal.
  - rewrite Z.mul_comm, Z.mod_add by lia. by apply Z.mod_small.
  - rewrite Z.mul_comm, Z.div_add, Z.div_small by lia. exact IH.
Qed.

Lemma be_bytes_be_val l : wf_bytes l -> be_bytes (length l) (be_val l) = l.
Proof.
  intros H. unfold be_bytes, be_val.
  rewrite <- (length_rev l), le_bytes_le_val by (by apply wf_bytes_rev).
  apply rev_involutive.
Qed.

Lemma le_bytes_inj n x y :
  0 <= x < 256 ^ Z.of_nat n -> 0 <= y < 256 ^ Z.of_nat n ->
  le_bytes n x = le_bytes n y -> x = y.
Proof.
  intros Hx Hy H. rewrite <- (le_val_le_bytes n x Hx), <- (le_val_le_bytes n y Hy). by rewrite H.
Qed.

Lemma be_bytes_inj n x y :
  0 <= x < 256 ^ Z.of_nat n -> 0 <= y < 256 ^ Z.of_nat n ->
  be_bytes n x = be_bytes n y -> x = y.
Proof.
  intros Hx Hy H. rewrite <- (be_val_be_bytes n x Hx), <- (be_val_be_bytes n y Hy). by rewrite H.
Qed.

(** Splitting a concatenation at a known length: the step of every
    "two encodings agree, so the fields agree" argument. *)
Lemma app_inj_length {A} (a b c d : list A) :
  length a = length c -> a ++ b = c ++ d -> a = c /\ b = d.
Proof. intros Hl H. by apply app_inj_1. Qed.

Lemma elem_of_drop {A} (x : A) n l : x ∈ drop n l -> x ∈ l.
Proof. intros H. rewrite <- (take_drop n l). apply elem_of_app. by right. Qed.

Lemma filter_all {A} (P : A -> Prop) `{!forall x, Decision (P x)} (l : list A) :
  (forall x, x ∈ l -> P x) -> filter P l = l.
Proof.
  induction l as [|x l IH]; intros Hall; [done|].
  rewrite filter_cons_True by (apply Hall; by left). f_equal. apply IH. intros y Hy. apply Hall. by right.
Qed.

Lemma concat_elem {B} (ls : list (list B)) x : x ∈ concat ls <-> exists l, l ∈ ls /\ x ∈ l.
Proof. rewrite list_elem_of_In, in_concat. setoid_rewrite list_elem_of_In. done. Qed.

(** ** XOR of byte strings *)

Definition xor_bytes (a b : bytes) : bytes := zip_with Z.lxor a b.

Lemma xor_bytes_involutive a k :
  (length a <= length k)%nat -> xor_bytes (xor_bytes a k) k = a.
Proof.
  revert k. induction a as [|x a IH]; intros [|y k] Hl; simpl in *; try lia; [done..|].
  rewrite Z.lxor_assoc, Z.lxor_nilpotent, Z.lxor_0_r. f_equal. apply IH. lia.
Qed.

Lemma length_xor_bytes a k :
  length (xor_bytes a k) = Nat.min (length a) (length k).
Proof. apply length_zip_with. Qed.

Lemma lxor_u8 a b : is_u8 a -> is_u8 b -> is_u8 (Z.lxor a b).
Proof.
  unfold is_u8. intros Ha Hb. assert (0 <= Z.lxor a b) by (apply Z.lxor_nonneg; lia). split; [done|].
  destruct (Z.eq_dec (Z.lxor a b) 0) as [->|Hne]; [lia|].
  apply (Z.log2_lt_pow2 (Z.lxor a b) 8); [lia|].
  pose proof (Z.log2_lxor a b ltac:(lia) ltac:(lia)).
  pose proof (Z.log2_le_mono a 255 ltac:(lia)). pose proof (Z.log2_le_mono b 255 ltac:(lia)).
  change (Z.log2 255) with 7 in *. lia.
Qed.

Lemma xor_bytes_wf a b : wf_bytes a -> wf_bytes b -> wf_bytes (xor_bytes a b).
Proof.
  intros Ha. revert b. induction Ha as [|x a Hx Ha IH]; intros b Hb; [constructor|].
  destruct Hb as [|y b Hy Hb]; constructor; [by apply lxor_u8|by apply IH].
Qed.

(** ** Automation

    [rust] holds the length and range facts every codec proof needs;
    [zsimp] normalises lengths, [ufold] opens the machine-integer predicates. *)

Create HintDb rust.
Create Rewrite HintDb zlen.
#[export] Hint Resolve le_bytes_wf be_bytes_wf zlen_nonneg : rust.
#[export] Hint Rewrite @zlen_app @zlen_cons @zlen_nil zlen_le_bytes zlen_be_bytes
  @length_app length_le_bytes length_be_bytes : zlen.

Ltac zsimp := autorewrite with zlen in *.
Ltac ufold := unfold is_u, is_u8, u_max in *.

(** Case analysis on the [if] or [match] that blocks evaluation, in the goal
    or in a hypothesis, closing the impossible branches. *)
Ltac split_match :=
  match goal with
  | |- context [match ?x with _ => _ end] => destruct x eqn:?
  | H : context [match ?x with _ => _ end] |- _ => destruct x eqn:?
  end.
Ltac bool_cases :=
  repeat (split_match; simplify_eq/=; try done).
Ltac b2p :=
  repeat match goal with
  | H : (_ =? _)%Z = true |- _ => apply Z.eqb_eq in H
  | H : (_ =? _)%Z = false |- _ => apply Z.eqb_neq in H
  | H : (_ <? _)%Z = true |- _ => apply Z.ltb_lt in H
  | H : (_ <? _)%Z = false |- _ => apply Z.ltb_ge in H
  | H : (_ <=? _)%Z = true |- _ => apply Z.leb_le in H
  | H : (_ <=? _)%Z = false |- _ => apply Z.leb_gt in H
  | H : (_ >=? _)%Z = true |- _ => rewrite Z.geb_leb in H
  | H : (_ >=? _)%Z = false |- _ => rewrite Z.geb_leb in H
  | H : (_ >? _)%Z = true |- _ => rewrite Z.gtb_ltb in H
  | H : (_ >? _)%Z = false |- _ => rewrite Z.gtb_ltb in H
  | H : _ && _ = true |- _ => apply andb_true_iff in H; destruct H
  | H : _ || _ = false |- _ => apply orb_false_iff in H; destruct H
  | H : negb _ = true |- _ => apply negb_true_iff in H
  | H : negb _ = false |- _ => apply negb_false_iff in H
  | H : bool_decide _ = true |- _ => apply bool_decide_eq_true in H
  | H : bool_decide _ = false |- _ => apply bool_decide_eq_false in H
  end.
