(* ===== verification/Ids.v ===== *)
(** * Identifiers that come from outside (common/src/ids.rs)

    [is_valid_id] admits 1 to 64 bytes of letters, digits and six signs; it is
    the test every identifier of a request passes before it becomes a key of
    a map. *)
From Stdlib Require Import ZArith String Ascii.
From S2P Require Import Prelude.

Definition MAX_ID_LEN : nat := 64.

Definition is_id_char (c : Ascii.ascii) : bool :=
  let n := Z.of_N (Ascii.N_of_ascii c) in
  (48 <=? n) && (n <=? 57) || (65 <=? n) && (n <=? 90) || (97 <=? n) && (n <=? 122)
  || existsb (Z.eqb n) [46; 95; 58; 64; 43; 45].

Fixpoint all_chars (p : Ascii.ascii -> bool) (s : string) : bool :=
  match s with
  | String.EmptyString => true
  | String.String c s => p c && all_chars p s
  end.

Definition is_valid_id (s : string) : bool :=
  negb (String.length s =? 0)%nat && (String.length s <=? MAX_ID_LEN)%nat && all_chars is_id_char s.

