(* ===== verification/Wire.v ===== *)
(** * The binary wire format (wire/src/lib.rs)

    The frame exchanged by QKC and QKC, and by ORR and QKC: its record, the
    producer-side validation, the encoder, the decoder, the stream reader and
    writer, and the two payload sub-formats (the authentication trailer and the
    key-id notification).

    - [Frame] is the struct [Frame]; a Rust [String] in [key_ids] is its UTF-8
      byte string.
    - [encode], [decode_body], [read_lp16], [read_frame], [write_frame] are the
      functions of those names.  A [bytes::Buf] getter panics on a short buffer,
      which the model keeps as [Panic].
    - A socket is the list of the bytes it still delivers before it is closed.

    The theorems: what a producer may write is exactly read back
    ([read_frame_encode]), decoding never panics and yields a well-formed frame,
    every strict prefix of a frame is an I/O error, other wire versions are
    refused, and the payload sub-formats round-trip. *)

From Stdlib Require Import ZArith Lia.
From S2P Require Import Prelude.

Definition MAGIC : bytes := [0x51; 0x4B; 0x43; 0x03].

Definition FRAME_RECV : Z := 0x01.
Definition FRAME_RELAY : Z := 0x02.
Definition FRAME_ACK : Z := 0x03.
Definition FRAME_RECV_AUTH : Z := 0x04.
Definition FRAME_RELAY_AUTH : Z := 0x05.
Definition FRAME_LOCAL_SEND : Z := 0x10.
Definition FRAME_LOCAL_DELIVER : Z := 0x11.
Definition FRAME_KEY_IDS_NOTIFY : Z := 0x20.
Definition FRAME_PQC_KEM_INIT : Z := 0x21.
Definition FRAME_PQC_KEM_RESP : Z := 0x22.
Definition FRAME_PQC_KEM_INIT_AUTH : Z := 0x23.
Definition FRAME_PQC_KEM_RESP_AUTH : Z := 0x24.
Definition FRAME_KEY_IDS_NOTIFY_AUTH : Z := 0x25.
Definition FRAME_PQC_KEM_INIT_SIGNED : Z := 0x26.
Definition FRAME_PQC_KEM_RESP_SIGNED : Z := 0x27.
Definition FRAME_PQC_RESYNC_REQ : Z := 0x28.
Definition FRAME_PQC_RESYNC_REQ_AUTH : Z := 0x29.
Definition FRAME_PQC_RESYNC_REQ_SIGNED : Z := 0x2A.

Definition GRADE_QKD : Z := 0.
Definition GRADE_PQC : Z := 1.

Definition FIXED_PREFIX : Z := 4 + 1 + 1 + 4.
Definition MAX_TOTAL_LEN : Z := 1024 * 1024.

(** The two I/O errors the reader can produce: the peer closed the stream, and
    the body deadline of [read_frame_body_timeout]. *)
Inductive io_error := UnexpectedEof | TimedOut.

Inductive WireError :=
  | Io (e : io_error)
  | BadMagic
  | TooLarge (n : Z)
  | Truncated (what : string)
  | FieldTooLong (what : string).

Record Frame := mkFrame {
  kind : Z;
  grade : Z;
  sender_id : Z;
  receiver_id : Z;
  dest_final : Z;
  key_size_bits : Z;
  epoch_id : Z;
  key_ids : list bytes;
  header_orr_mp : bytes;
  header_dkms_mp : bytes;
  payload : bytes;
}.

Definition Frame_empty (k : Z) : Frame := mkFrame k 0 0 0 0 0 0 [] [] [] [].

(** ** Well-formedness: the ranges the Rust types guarantee *)

Definition is_cont (b : Z) : bool := (0x80 <=? b) && (b <=? 0xBF).

(** [String::from_utf8]: the well-formed UTF-8 byte sequences (no overlong
    forms, no surrogates, nothing above U+10FFFF). *)
Fixpoint utf8_valid (l : bytes) : bool :=
  match l with
  | [] => true
  | b0 :: l1 =>
      if b0 <=? 0x7F then utf8_valid l1 else
      match l1 with
      | [] => false
      | b1 :: l2 =>
          if (0xC2 <=? b0) && (b0 <=? 0xDF) then is_cont b1 && utf8_valid l2 else
          match l2 with
          | [] => false
          | b2 :: l3 =>
              if b0 =? 0xE0 then
                (0xA0 <=? b1) && (b1 <=? 0xBF) && is_cont b2 && utf8_valid l3
              else if b0 =? 0xED then
                (0x80 <=? b1) && (b1 <=? 0x9F) && is_cont b2 && utf8_valid l3
              else if (0xE1 <=? b0) && (b0 <=? 0xEF) then
                is_cont b1 && is_cont b2 && utf8_valid l3
              else
              match l3 with
              | [] => false
              | b3 :: l4 =>
                  if b0 =? 0xF0 then
                    (0x90 <=? b1) && (b1 <=? 0xBF) && is_cont b2 && is_cont b3 && utf8_valid l4
                  else if b0 =? 0xF4 then
                    (0x80 <=? b1) && (b1 <=? 0x8F) && is_cont b2 && is_cont b3 && utf8_valid l4
                  else if (0xF1 <=? b0) && (b0 <=? 0xF3) then
                    is_cont b1 && is_cont b2 && is_cont b3 && utf8_valid l4
                  else false
              end
          end
      end
  end.

Definition wf_string (s : bytes) : Prop := wf_bytes s /\ utf8_valid s = true.

Record wf_frame (f : Frame) : Prop := {
  wf_kind : is_u8 (kind f);
  wf_grade : is_u8 (grade f);
  wf_sender : is_u 32 (sender_id f);
  wf_receiver : is_u 32 (receiver_id f);
  wf_dest : is_u 32 (dest_final f);
  wf_bits : is_u 16 (key_size_bits f);
  wf_epoch : is_u 32 (epoch_id f);
  wf_ids : Forall wf_string (key_ids f);
  wf_orr : wf_bytes (header_orr_mp f);
  wf_dkms : wf_bytes (header_dkms_mp f);
  wf_payload : wf_bytes (payload f);
}.

(** ** Encoding *)

Definition first_len (ids : list bytes) : Z :=
  match ids with [] => 0 | s :: _ => zlen s end.

(** [Frame::validate_for_encode].  The sum is over [usize] and every summand is
    the length of an allocated buffer, so it does not overflow. *)
Definition validate_for_encode (f : Frame) : res WireError unit :=
  if zlen (key_ids f) >? 255 then Err (FieldTooLong "key_ids count") else
  let key_id_len := first_len (key_ids f) in
  if key_id_len >? 255 then Err (FieldTooLong "key_id length") else
  if existsb (fun k => negb (zlen k =? key_id_len)) (key_ids f)
  then Err (FieldTooLong "non-uniform key_id length") else
  if zlen (header_orr_mp f) >? 65535 then Err (FieldTooLong "header_orr_mp") else
  if zlen (header_dkms_mp f) >? 65535 then Err (FieldTooLong "header_dkms_mp") else
  let total := FIXED_PREFIX + 4 + 4 + 4 + 2 + 4 + 1 + 1
    + key_id_len * zlen (key_ids f) + 2 + zlen (header_orr_mp f) + 2
    + zlen (header_dkms_mp f) + 4 + zlen (payload f) in
  if total >? MAX_TOTAL_LEN then Err (TooLarge (as_u 32 total)) else
  Ok tt.

(** [Frame::encode], release build: the [debug_assert_eq!] on uniform key-id
    lengths is compiled out and the [as] casts truncate. *)
Definition encode (f : Frame) : bytes :=
  let key_id_len := as_u 8 (first_len (key_ids f)) in
  let body_len := 4 + 4 + 4 + 2 + 4 + 1 + 1
    + key_id_len * zlen (key_ids f) + 2 + zlen (header_orr_mp f) + 2
    + zlen (header_dkms_mp f) + 4 + zlen (payload f) in
  MAGIC ++ [kind f] ++ [grade f] ++ le_bytes 4 (as_u 32 body_len)
  ++ le_bytes 4 (sender_id f)
  ++ le_bytes 4 (receiver_id f)
  ++ le_bytes 4 (dest_final f)
  ++ le_bytes 2 (key_size_bits f)
  ++ be_bytes 4 (epoch_id f)
  ++ [as_u 8 (zlen (key_ids f))]
  ++ [key_id_len]
  ++ concat (key_ids f)
  ++ le_bytes 2 (as_u 16 (zlen (header_orr_mp f)))
  ++ header_orr_mp f
  ++ le_bytes 2 (as_u 16 (zlen (header_dkms_mp f)))
  ++ header_dkms_mp f
  ++ le_bytes 4 (as_u 32 (zlen (payload f)))
  ++ payload f.

(** ** Decoding *)

(** [Buf::get_*] and [Buf::copy_to_slice]: panic when the buffer is short. *)
Definition get_bytes (n : Z) (body : bytes) : res WireError (bytes * bytes) :=
  if zlen body <? n then Panic
  else Ok (take (Z.to_nat n) body, drop (Z.to_nat n) body).

Definition get_le (n : Z) (body : bytes) : res WireError (Z * bytes) :=
  let* (b, body) := get_bytes n body in Ok (le_val b, body).

Definition get_be (n : Z) (body : bytes) : res WireError (Z * bytes) :=
  let* (b, body) := get_bytes n body in Ok (be_val b, body).

Definition read_lp16 (body : bytes) (what : string) : res WireError (bytes * bytes) :=
  if zlen body <? 2 then Err (Truncated what) else
  let* (len, body) := get_le 2 body in
  if zlen body <? len then Err (Truncated what) else
  Ok (take (Z.to_nat len) body, drop (Z.to_nat len) body).

(** The [for _ in 0..n_key_ids] loop of [decode_body]. *)
Fixpoint read_key_ids (n : nat) (key_id_len : Z) (body : bytes)
  : res WireError (list bytes * bytes) :=
  match n with
  | O => Ok ([], body)
  | S n =>
      let* (buf, body) := get_bytes key_id_len body in
      if utf8_valid buf then
        let* (ids, body) := read_key_ids n key_id_len body in
        Ok (buf :: ids, body)
      else Err (Truncated "key_id utf-8")
  end.

Definition decode_body (body : bytes) : res WireError Frame :=
  if zlen body <? 4 + 4 + 4 + 2 + 4 + 1 + 1 then Err (Truncated "header") else
  let* (sender_id, body) := get_le 4 body in
  let* (receiver_id, body) := get_le 4 body in
  let* (dest_final, body) := get_le 4 body in
  let* (key_size_bits, body) := get_le 2 body in
  let* (epoch_id, body) := get_be 4 body in
  let* (n_key_ids, body) := get_le 1 body in
  let* (key_id_len, body) := get_le 1 body in
  if zlen body <? n_key_ids * key_id_len + 2 then Err (Truncated "key_ids") else
  let* (key_ids, body) := read_key_ids (Z.to_nat n_key_ids) key_id_len body in
  let* (header_orr_mp, body) := read_lp16 body "header_orr" in
  let* (header_dkms_mp, body) := read_lp16 body "header_dkms" in
  if zlen body <? 4 then Err (Truncated "payload_len") else
  let* (payload_len, body) := get_le 4 body in
  if zlen body <? payload_len then Err (Truncated "payload") else
  Ok (mkFrame 0 0 sender_id receiver_id dest_final key_size_bits epoch_id
        key_ids header_orr_mp header_dkms_mp (take (Z.to_nat payload_len) body)).

(** ** Streams *)

(** [AsyncReadExt::read_exact] on a stream that delivers [s] and closes. *)
Definition read_exact (n : Z) (s : bytes) : res WireError (bytes * bytes) :=
  if zlen s <? n then Err (Io UnexpectedEof)
  else Ok (take (Z.to_nat n) s, drop (Z.to_nat n) s).

Definition CHUNK : Z := 16 * 1024.

(** The loop of [read_body]: one chunk of at most [CHUNK] bytes per turn. *)
Fixpoint read_body_loop (fuel : nat) (remaining : Z) (acc s : bytes)
  : res WireError (bytes * bytes) :=
  if 0 <? remaining then
    match fuel with
    | O => Panic
    | S fuel =>
        let n := Z.min remaining CHUNK in
        let* (chunk, s) := read_exact n s in
        read_body_loop fuel (remaining - n) (acc ++ chunk) s
    end
  else Ok (acc, s).

(** [read_body]: [total / CHUNK + 1] turns are always enough (see
    [read_body_exact]). *)
Definition read_body (total : Z) (s : bytes) : res WireError (bytes * bytes) :=
  read_body_loop (Z.to_nat (total / CHUNK + 1)) total [] s.

Definition with_prefix (f : Frame) (k g : Z) : Frame :=
  mkFrame k g (sender_id f) (receiver_id f) (dest_final f) (key_size_bits f)
    (epoch_id f) (key_ids f) (header_orr_mp f) (header_dkms_mp f) (payload f).

(** The part of both readers before the body: the fixed prefix, its magic and
    its announced length.  Returns [(kind, grade, total_len, rest)]. *)
Definition read_prefix (s : bytes) : res WireError (Z * Z * Z * bytes) :=
  let* (prefix, s) := read_exact FIXED_PREFIX s in
  if bool_decide (take 4 prefix = MAGIC) then
    let k := default 0 (prefix !! 4%nat) in
    let g := default 0 (prefix !! 5%nat) in
    let total_len := le_val (drop 6 prefix) in
    if total_len >? MAX_TOTAL_LEN then Err (TooLarge total_len) else
    Ok (k, g, total_len, s)
  else Err BadMagic.

(** [read_frame]: the frame and what is left in the stream. *)
Definition read_frame (s : bytes) : res WireError (Frame * bytes) :=
  let* (k, g, total_len, s) := read_prefix s in
  let* (body, s) := read_body total_len s in
  let* f := decode_body body in
  Ok (with_prefix f k g, s).

(** [read_frame_body_timeout]: [expired] is the outcome of the race between the
    body and the deadline, decided by the runtime's timer. *)
Definition read_frame_body_timeout (expired : bool) (s : bytes)
  : res WireError (Frame * bytes) :=
  let* (k, g, total_len, s) := read_prefix s in
  let* (body, s) := (if expired then Err (Io TimedOut) else read_body total_len s) in
  let* f := decode_body body in
  Ok (with_prefix f k g, s).

(** [write_frame]: what the call appends to the stream. *)
Definition write_frame (f : Frame) : res WireError bytes :=
  let* _ := validate_for_encode f in Ok (encode f).

(** ** Authentication trailer and key-id notification *)

Definition AUTH_TRAILER_LEN : Z := 8 + 8 + 32.

Definition is_auth_kind (k : Z) : bool :=
  (k =? FRAME_RECV_AUTH) || (k =? FRAME_RELAY_AUTH) || (k =? FRAME_KEY_IDS_NOTIFY_AUTH).

Definition auth_kind_for (k : Z) : option Z :=
  if k =? FRAME_RECV then Some FRAME_RECV_AUTH
  else if k =? FRAME_RELAY then Some FRAME_RELAY_AUTH
  else if k =? FRAME_KEY_IDS_NOTIFY then Some FRAME_KEY_IDS_NOTIFY_AUTH
  else None.

Definition base_kind_of (k : Z) : Z :=
  if k =? FRAME_RECV_AUTH then FRAME_RECV
  else if k =? FRAME_RELAY_AUTH then FRAME_RELAY
  else if k =? FRAME_KEY_IDS_NOTIFY_AUTH then FRAME_KEY_IDS_NOTIFY
  else k.

Definition append_auth_trailer (p : bytes) (session counter : Z) (tag : bytes) : bytes :=
  p ++ le_bytes 8 session ++ le_bytes 8 counter ++ tag.

Definition split_auth_trailer (p : bytes) : res WireError (bytes * Z * Z * bytes) :=
  if zlen p <? AUTH_TRAILER_LEN then Err (Truncated "auth trailer") else
  let cut := Z.to_nat (zlen p - AUTH_TRAILER_LEN) in
  let body := take cut p in
  let tr := drop cut p in
  Ok (body, le_val (take 8 tr), le_val (take 8 (drop 8 tr)), drop 16 tr).

Definition encode_notify_payload (ids : list bytes) : bytes :=
  le_bytes 4 (as_u 32 (zlen ids)) ++ concat ids.

Fixpoint read_notify_ids (n : nat) (buf : bytes) : list bytes :=
  match n with
  | O => []
  | S n => take 16 buf :: read_notify_ids n (drop 16 buf)
  end.

Definition decode_notify_payload (buf : bytes) : res WireError (list bytes) :=
  if zlen buf <? 4 then Err (Truncated "notify count") else
  let count := le_val (take 4 buf) in
  let expected := 4 + count * 16 in
  if zlen buf <? expected then Err (Truncated "notify ids") else
  Ok (read_notify_ids (Z.to_nat count) (drop 4 buf)).

(** ** Lemmas on the readers *)

Lemma get_bytes_app n a s : zlen a = n -> get_bytes n (a ++ s) = Ok (a, s).
Proof.
  intros <-. unfold get_bytes. rewrite zlen_app.
  destruct (Z.ltb_spec (zlen a + zlen s) (zlen a)); [pose proof (zlen_nonneg s); lia|].
  unfold zlen. rewrite Nat2Z.id, take_app_length, drop_app_length. done.
Qed.

Lemma get_le_app n z s :
  0 <= z < 256 ^ Z.of_nat n -> get_le (Z.of_nat n) (le_bytes n z ++ s) = Ok (z, s).
Proof.
  intros Hz. unfold get_le. rewrite get_bytes_app by apply zlen_le_bytes.
  simpl. by rewrite le_val_le_bytes.
Qed.

Lemma get_be_app n z s :
  0 <= z < 256 ^ Z.of_nat n -> get_be (Z.of_nat n) (be_bytes n z ++ s) = Ok (z, s).
Proof.
  intros Hz. unfold get_be. rewrite get_bytes_app by apply zlen_be_bytes.
  simpl. by rewrite be_val_be_bytes.
Qed.

Lemma get_u8_app b s : is_u8 b -> get_le 1 ([b] ++ s) = Ok (b, s).
Proof.
  intros Hb. unfold get_le. rewrite get_bytes_app by done. simpl. f_equal. f_equal. lia.
Qed.

Lemma get_bytes_inv n body b rest :
  get_bytes n body = Ok (b, rest) ->
  body = b ++ rest /\ (0 <= n -> zlen b = n).
Proof.
  unfold get_bytes. destruct (Z.ltb_spec (zlen body) n); intros [= <- <-].
  rewrite take_drop. split; [done|]. intros Hn.
  unfold zlen in *. rewrite length_take. lia.
Qed.

Lemma get_bytes_enough n body :
  n <= zlen body -> exists b rest, get_bytes n body = Ok (b, rest).
Proof. intros H. unfold get_bytes. destruct (Z.ltb_spec (zlen body) n); [lia|eauto]. Qed.

Lemma get_bytes_wf n body b rest :
  get_bytes n body = Ok (b, rest) -> wf_bytes body -> wf_bytes b /\ wf_bytes rest.
Proof. intros [-> _]%get_bytes_inv H. by apply Forall_app. Qed.

Lemma read_lp16_app l s what :
  zlen l <= 65535 ->
  read_lp16 (le_bytes 2 (as_u 16 (zlen l)) ++ l ++ s) what = Ok (l, s).
Proof.
  intros Hl. pose proof (zlen_nonneg l). pose proof (zlen_nonneg s). unfold read_lp16.
  rewrite zlen_app, zlen_le_bytes, zlen_app.
  destruct (Z.ltb_spec (Z.of_nat 2 + (zlen l + zlen s)) 2); [lia|].
  rewrite as_u_small by (ufold; lia).
  rewrite (get_le_app 2) by (simpl; lia). simpl res_bind.
  rewrite zlen_app. destruct (Z.ltb_spec (zlen l + zlen s) (zlen l)); [lia|].
  unfold zlen. by rewrite Nat2Z.id, take_app_length, drop_app_length.
Qed.

Lemma read_key_ids_app ids n s :
  Forall (fun k => zlen k = n /\ utf8_valid k = true) ids ->
  read_key_ids (length ids) n (concat ids ++ s) = Ok (ids, s).
Proof.
  induction 1 as [|k ids [Hk Hu] _ IH]; [done|].
  simpl. rewrite <- app_assoc, get_bytes_app by done. simpl. rewrite Hu, IH. done.
Qed.

Lemma read_body_loop_exact fuel remaining acc s :
  remaining <= Z.of_nat fuel * CHUNK ->
  0 <= remaining ->
  read_body_loop fuel remaining acc s =
    let* (c, s') := read_exact remaining s in Ok (acc ++ c, s').
Proof.
  revert remaining acc s. induction fuel as [|fuel IH]; intros remaining acc s Hf Hr.
  - replace remaining with 0 by lia. simpl. unfold read_exact.
    destruct (Z.ltb_spec (zlen s) 0); [pose proof (zlen_nonneg s); lia|].
    simpl. by rewrite app_nil_r.
  - cbn [read_body_loop]. destruct (Z.ltb_spec 0 remaining).
    2:{ replace remaining with 0 by lia. unfold read_exact.
        destruct (Z.ltb_spec (zlen s) 0); [pose proof (zlen_nonneg s); lia|].
        simpl. by rewrite app_nil_r. }
    assert (HC : CHUNK = 16384) by done.
    set (n := Z.min remaining CHUNK). assert (Hn : 0 < n <= remaining) by lia.
    assert (Hs : zlen (drop (Z.to_nat n) s) = Z.max 0 (zlen s - n)).
    { unfold zlen. rewrite length_drop. lia. }
    unfold read_exact at 1. destruct (Z.ltb_spec (zlen s) n) as [Hlt|Hge].
    + unfold read_exact. destruct (Z.ltb_spec (zlen s) remaining); [done|lia].
    + simpl res_bind at 1. rewrite IH by lia. unfold read_exact. rewrite Hs.
      destruct (Z.ltb_spec (zlen s) remaining);
        destruct (Z.ltb_spec (Z.max 0 (zlen s - n)) (remaining - n)); try lia; [done|].
      simpl. rewrite <- app_assoc. f_equal. f_equal.
      * f_equal. rewrite (take_take_drop s (Z.to_nat n) (Z.to_nat (remaining - n))).
        f_equal. f_equal. lia.
      * rewrite drop_drop. f_equal. lia.
Qed.

(** Reading the body by 16 KiB chunks is reading it at once: the loop always
    has enough turns, and returns the same bytes or the same error. *)
Lemma read_body_exact total s :
  0 <= total -> read_body total s = read_exact total s.
Proof.
  intros Ht. unfold read_body. rewrite read_body_loop_exact.
  2:{ change CHUNK with 16384. pose proof (Z.div_mod total 16384).
      pose proof (Z.mod_pos_bound total 16384). pose proof (Z.div_pos total 16384). lia. }
  2: done.
  unfold read_exact. by destruct (zlen s <? total).
Qed.

Lemma read_exact_app n a s : zlen a = n -> read_exact n (a ++ s) = Ok (a, s).
Proof.
  intros <-. unfold read_exact. rewrite zlen_app.
  destruct (Z.ltb_spec (zlen a + zlen s) (zlen a)); [pose proof (zlen_nonneg s); lia|].
  unfold zlen. rewrite Nat2Z.id, take_app_length, drop_app_length. done.
Qed.

(** ** The shape of an encoded frame *)

Definition encode_body (f : Frame) : bytes :=
  le_bytes 4 (sender_id f) ++ le_bytes 4 (receiver_id f) ++ le_bytes 4 (dest_final f)
  ++ le_bytes 2 (key_size_bits f) ++ be_bytes 4 (epoch_id f)
  ++ [zlen (key_ids f)] ++ [first_len (key_ids f)] ++ concat (key_ids f)
  ++ (le_bytes 2 (as_u 16 (zlen (header_orr_mp f))) ++ header_orr_mp f
  ++ (le_bytes 2 (as_u 16 (zlen (header_dkms_mp f))) ++ header_dkms_mp f
  ++ (le_bytes 4 (zlen (payload f)) ++ payload f))).

(** What [validate_for_encode] checks, as a proposition. *)
Record encodable (f : Frame) : Prop := {
  enc_count : zlen (key_ids f) <= 255;
  enc_id_len : first_len (key_ids f) <= 255;
  enc_uniform : Forall (fun k => zlen k = first_len (key_ids f)) (key_ids f);
  enc_orr : zlen (header_orr_mp f) <= 65535;
  enc_dkms : zlen (header_dkms_mp f) <= 65535;
  enc_total : FIXED_PREFIX + 20 + first_len (key_ids f) * zlen (key_ids f)
    + 2 + zlen (header_orr_mp f) + 2 + zlen (header_dkms_mp f) + 4 + zlen (payload f)
    <= MAX_TOTAL_LEN;
}.

Lemma existsb_uniform ids n :
  existsb (fun k : bytes => negb (zlen k =? n)) ids = false <-> Forall (fun k => zlen k = n) ids.
Proof.
  rewrite <- not_true_iff_false, existsb_exists, Forall_forall. split.
  - intros H k Hk. destruct (Z.eqb_spec (zlen k) n); [done|].
    exfalso. apply H. exists k. split; [by apply list_elem_of_In|]. by rewrite (proj2 (Z.eqb_neq _ _)).
  - intros H (k & Hk%list_elem_of_In & Hb). rewrite H in Hb by done. by rewrite Z.eqb_refl in Hb.
Qed.

Lemma validate_iff f : validate_for_encode f = Ok tt <-> encodable f.
Proof.
  unfold validate_for_encode. split.
  - destruct (existsb _ _) eqn:Hu; bool_cases. all: b2p.
    constructor; try (apply existsb_uniform; done); unfold FIXED_PREFIX, MAX_TOTAL_LEN in *; lia.
  - intros [H1 H2 H3 H4 H5 H6]. unfold FIXED_PREFIX, MAX_TOTAL_LEN in H6.
    rewrite (proj2 (existsb_uniform _ _) H3).
    repeat match goal with
    | |- context [?a >? ?b] => destruct (Z.gtb_spec a b);
        [unfold FIXED_PREFIX, MAX_TOTAL_LEN in *; lia|]
    end. done.
Qed.

Lemma zlen_concat_uniform (ids : list bytes) n :
  Forall (fun k => zlen k = n) ids -> zlen (concat ids) = n * zlen ids.
Proof.
  induction 1 as [|k ids Hk _ IH]; [unfold zlen; simpl; lia|].
  simpl. rewrite zlen_app, zlen_cons, IH, Hk. lia.
Qed.

Lemma first_len_nonneg ids : 0 <= first_len ids.
Proof. destruct ids; simpl; [lia|apply zlen_nonneg]. Qed.

Lemma zlen_encode_body f :
  encodable f ->
  zlen (encode_body f) = 20 + first_len (key_ids f) * zlen (key_ids f)
    + 2 + zlen (header_orr_mp f) + 2 + zlen (header_dkms_mp f) + 4 + zlen (payload f).
Proof.
  intros H. unfold encode_body. autorewrite with zlen.
  rewrite (zlen_concat_uniform _ (first_len (key_ids f))) by apply H. lia.
Qed.

Lemma encode_shape f :
  encodable f ->
  encode f = MAGIC ++ [kind f; grade f] ++ le_bytes 4 (zlen (encode_body f)) ++ encode_body f
  /\ zlen (encode_body f) + FIXED_PREFIX <= MAX_TOTAL_LEN.
Proof.
  intros He. pose proof (zlen_encode_body f He) as Hl. destruct He as [H1 H2 H3 H4 H5 H6].
  pose proof (zlen_nonneg (key_ids f)). pose proof (first_len_nonneg (key_ids f)).
  pose proof (zlen_nonneg (payload f)). pose proof (zlen_nonneg (header_orr_mp f)).
  pose proof (zlen_nonneg (header_dkms_mp f)).
  unfold FIXED_PREFIX, MAX_TOTAL_LEN in *. split; [|lia].
  assert (0 <= first_len (key_ids f) * zlen (key_ids f)) by (apply Z.mul_nonneg_nonneg; lia).
  unfold encode. cbv zeta.
  rewrite !(as_u_small 8) by (ufold; lia).
  rewrite !(as_u_small 32) by (ufold; lia).
  replace (4 + 4 + 4 + 2 + 4 + 1 + 1 + first_len (key_ids f) * zlen (key_ids f) + 2
    + zlen (header_orr_mp f) + 2 + zlen (header_dkms_mp f) + 4 + zlen (payload f))
    with (zlen (encode_body f)) by lia.
  done.
Qed.

Lemma decode_body_encode f junk :
  wf_frame f -> encodable f ->
  decode_body (encode_body f ++ junk) = Ok (with_prefix f 0 0).
Proof.
  intros Hwf He. pose proof (zlen_encode_body f He) as Hl. destruct He as [H1 H2 H3 H4 H5 H6].
  pose proof (wf_ids f Hwf) as Hids. destruct Hwf.
  pose proof (zlen_nonneg (key_ids f)). pose proof (first_len_nonneg (key_ids f)).
  pose proof (zlen_nonneg (payload f)). pose proof (zlen_nonneg (header_orr_mp f)).
  pose proof (zlen_nonneg (header_dkms_mp f)). pose proof (zlen_nonneg junk).
  unfold FIXED_PREFIX, MAX_TOTAL_LEN in *. ufold.
  assert (0 <= first_len (key_ids f) * zlen (key_ids f)) by (apply Z.mul_nonneg_nonneg; lia).
  unfold decode_body. rewrite zlen_app, Hl.
  match goal with |- context [?a <? ?b] => destruct (Z.ltb_spec a b); [lia|] end.
  unfold encode_body. rewrite <- !app_assoc.
  rewrite (get_le_app 4) by (simpl; lia). cbn [res_bind].
  rewrite (get_le_app 4) by (simpl; lia). cbn [res_bind].
  rewrite (get_le_app 4) by (simpl; lia). cbn [res_bind].
  rewrite (get_le_app 2) by (simpl; lia). cbn [res_bind].
  rewrite (get_be_app 4) by (simpl; lia). cbn [res_bind].
  rewrite get_u8_app by (ufold; lia). cbn [res_bind].
  rewrite get_u8_app by (ufold; lia). cbn [res_bind].
  autorewrite with zlen. rewrite (zlen_concat_uniform _ (first_len (key_ids f))) by done.
  match goal with |- context [?a <? ?b] => destruct (Z.ltb_spec a b); [lia|] end.
  replace (Z.to_nat (zlen (key_ids f))) with (length (key_ids f)) by (unfold zlen; lia).
  rewrite read_key_ids_app.
  2:{ apply Forall_and. split; [done|]. eapply Forall_impl; [exact Hids|]. by intros k []. }
  cbn [res_bind].
  rewrite read_lp16_app by done. cbn [res_bind].
  rewrite read_lp16_app by done. cbn [res_bind].
  autorewrite with zlen.
  match goal with |- context [?a <? ?b] => destruct (Z.ltb_spec a b); [lia|] end.
  rewrite (get_le_app 4) by (simpl; lia). cbn [res_bind]. autorewrite with zlen.
  match goal with |- context [?a <? ?b] => destruct (Z.ltb_spec a b); [lia|] end.
  unfold zlen. by rewrite Nat2Z.id, take_app_length.
Qed.

Lemma read_prefix_app k g n s :
  is_u8 k -> is_u8 g -> 0 <= n <= MAX_TOTAL_LEN ->
  read_prefix (MAGIC ++ [k; g] ++ le_bytes 4 n ++ s) = Ok (k, g, n, s).
Proof.
  intros Hk Hg Hn. unfold read_prefix.
  replace (MAGIC ++ [k; g] ++ le_bytes 4 n ++ s)
    with ((MAGIC ++ [k; g] ++ le_bytes 4 n) ++ s) by (by rewrite <- !app_assoc).
  rewrite read_exact_app by done. cbn [res_bind].
  change (take 4 (MAGIC ++ [k; g] ++ le_bytes 4 n)) with MAGIC.
  rewrite bool_decide_eq_true_2 by done.
  change (drop 6 (MAGIC ++ [k; g] ++ le_bytes 4 n)) with (le_bytes 4 n).
  unfold MAX_TOTAL_LEN in *. rewrite le_val_le_bytes by (simpl; lia).
  destruct (Z.gtb_spec n (1024 * 1024)); [lia|done].
Qed.

Lemma read_write_frame (f : Frame) (bs rest : bytes) :
  wf_frame f -> write_frame f = Ok bs -> read_frame (bs ++ rest) = Ok (f, rest).
Proof.
  intros Hwf Hw. unfold write_frame in Hw.
  apply res_bind_ok in Hw as ([] & He%validate_iff & [= <-]).
  destruct (encode_shape f He) as [-> Hlen].
  unfold read_frame. rewrite <- !app_assoc.
  rewrite read_prefix_app.
  2-3: apply Hwf.
  2:{ pose proof (zlen_nonneg (encode_body f)). unfold FIXED_PREFIX in *. lia. }
  cbn [res_bind].
  rewrite read_body_exact, read_exact_app by auto with rust. cbn [res_bind].
  rewrite <- (app_nil_r (encode_body f)), decode_body_encode by done.
  by destruct f.
Qed.

(** C35: whatever a producer can put on the wire is read back unchanged, and the
    reader stops exactly at the end of the frame: for every well-formed frame
    that [write_frame] accepts, [read_frame] on its bytes followed by any other
    bytes returns the same frame and leaves those other bytes. *)
Theorem read_frame_encode (f : Frame) (bs rest : bytes) :
  wf_frame f -> write_frame f = Ok bs -> read_frame (bs ++ rest) = Ok (f, rest).
Proof. apply read_write_frame. Qed.

(** ** Decoding arbitrary bytes *)

Lemma get_bytes_spec n body :
  wf_bytes body -> 0 <= n <= zlen body ->
  exists b rest, get_bytes n body = Ok (b, rest)
    /\ wf_bytes b /\ zlen b = n /\ wf_bytes rest /\ zlen rest = zlen body - n.
Proof.
  intros Hwf Hn. destruct (get_bytes_enough n body) as (b & rest & Hg); [lia|].
  exists b, rest. split; [done|].
  destruct (get_bytes_wf _ _ _ _ Hg Hwf). apply get_bytes_inv in Hg as [-> Hlen].
  rewrite zlen_app. specialize (Hlen ltac:(lia)). repeat split; auto; lia.
Qed.

Lemma get_le_spec n body :
  wf_bytes body -> 0 <= n <= zlen body ->
  exists z rest, get_le n body = Ok (z, rest)
    /\ 0 <= z < 256 ^ n /\ wf_bytes rest /\ zlen rest = zlen body - n.
Proof.
  intros Hwf Hn. destruct (get_bytes_spec n body Hwf Hn) as (b & rest & Hg & Hb & <- & Hr & Hl).
  exists (le_val b), rest. unfold get_le. rewrite Hg. eauto using le_val_range.
Qed.

Lemma get_be_spec n body :
  wf_bytes body -> 0 <= n <= zlen body ->
  exists z rest, get_be n body = Ok (z, rest)
    /\ 0 <= z < 256 ^ n /\ wf_bytes rest /\ zlen rest = zlen body - n.
Proof.
  intros Hwf Hn. destruct (get_bytes_spec n body Hwf Hn) as (b & rest & Hg & Hb & <- & Hr & Hl).
  exists (be_val b), rest. unfold get_be. rewrite Hg. eauto using be_val_range.
Qed.

Lemma read_lp16_spec body what :
  wf_bytes body ->
  (exists e, read_lp16 body what = Err e) \/
  (exists l rest, read_lp16 body what = Ok (l, rest)
     /\ wf_bytes l /\ zlen l <= 65535 /\ wf_bytes rest /\ zlen rest + zlen l + 2 = zlen body).
Proof.
  intros Hwf. unfold read_lp16. destruct (Z.ltb_spec (zlen body) 2); [eauto|].
  destruct (get_le_spec 2 body Hwf) as (len & rest & -> & Hlen & Hr & Hl); [lia|].
  cbn [res_bind]. destruct (Z.ltb_spec (zlen rest) len); [eauto|]. right.
  exists (take (Z.to_nat len) rest), (drop (Z.to_nat len) rest).
  rewrite <- (take_drop (Z.to_nat len) rest) in Hr. apply Forall_app in Hr as [Ht Hd].
  change (256 ^ 2) with 65536 in Hlen. unfold zlen in *.
  rewrite length_take, length_drop. repeat split; auto; lia.
Qed.

Lemma read_key_ids_spec n len body :
  wf_bytes body -> 0 <= len -> Z.of_nat n * len <= zlen body ->
  (exists e, read_key_ids n len body = Err e) \/
  (exists ids rest, read_key_ids n len body = Ok (ids, rest)
     /\ length ids = n /\ Forall wf_string ids /\ Forall (fun k => zlen k = len) ids
     /\ wf_bytes rest /\ zlen rest + Z.of_nat n * len = zlen body).
Proof.
  revert body. induction n as [|n IH]; intros body Hwf Hlen Hle.
  { right. exists [], body. repeat split; auto. lia. }
  cbn [read_key_ids].
  destruct (get_bytes_spec len body Hwf) as (b & rest & -> & Hb & Hbl & Hr & Hrl); [lia|].
  cbn [res_bind]. destruct (utf8_valid b) eqn:Hu; [|eauto].
  destruct (IH rest) as [[e ->]|(ids & rest' & -> & Hn & Hs & Hul & Hr' & Hl')]; [done..|lia| |].
  { left. eauto. }
  right. exists (b :: ids), rest'. cbn [res_bind length].
  repeat split; auto; try lia. constructor; [|done]. by split.
Qed.

Ltac read_step spec z r :=
  match goal with
  | H : wf_bytes ?b |- context [res_bind _ _] =>
      destruct (spec b H) as (z & r & -> & ? & ? & ?); [lia|]; cbn [res_bind]; clear H
  end.

(** Decoding is total on bytes: it never panics, and a decoded frame has every
    field in the range of its Rust type, at most 255 key ids of one common
    length, headers under 64 KiB and no more content than the body had. *)
Lemma decode_body_spec body :
  wf_bytes body ->
  (exists e, decode_body body = Err e) \/
  (exists f, decode_body body = Ok f /\ wf_frame f /\ kind f = 0 /\ grade f = 0
     /\ zlen (key_ids f) <= 255 /\ first_len (key_ids f) <= 255
     /\ Forall (fun k => zlen k = first_len (key_ids f)) (key_ids f)
     /\ zlen (header_orr_mp f) <= 65535 /\ zlen (header_dkms_mp f) <= 65535
     /\ 20 + first_len (key_ids f) * zlen (key_ids f) + 2 + zlen (header_orr_mp f)
        + 2 + zlen (header_dkms_mp f) + 4 + zlen (payload f) <= zlen body).
Proof.
  intros Hwf. unfold decode_body.
  destruct (Z.ltb_spec (zlen body) (4 + 4 + 4 + 2 + 4 + 1 + 1)); [eauto|].
  read_step (get_le_spec 4) snd_ b1. read_step (get_le_spec 4) rcv b2.
  read_step (get_le_spec 4) dst b3. read_step (get_le_spec 2) bits b4.
  read_step (get_be_spec 4) epoch b5. read_step (get_le_spec 1) n_ids b6.
  read_step (get_le_spec 1) id_len b7.
  match goal with |- context [?a <? ?b] => destruct (Z.ltb_spec a b); [eauto|] end.
  match goal with |- context [read_key_ids (Z.to_nat ?n) ?l ?b] =>
    destruct (read_key_ids_spec (Z.to_nat n) l b)
      as [[e ->]|(ids & rest & -> & Hn & Hs & Hul & Hr & Hrl)]; [done|lia|lia|by eauto|] end.
  cbn [res_bind].
  destruct (read_lp16_spec rest "header_orr") as [[e ->]|(ho & r1 & -> & ? & ? & ? & ?)];
    [done|by eauto|]. cbn [res_bind].
  destruct (read_lp16_spec r1 "header_dkms") as [[e ->]|(hd & r2 & -> & ? & ? & ? & ?)];
    [done|by eauto|]. cbn [res_bind].
  destruct (Z.ltb_spec (zlen r2) 4); [eauto|].
  destruct (get_le_spec 4 r2) as (plen & r3 & -> & ? & Hw3 & ?); [done|lia|]. cbn [res_bind].
  destruct (Z.ltb_spec (zlen r3) plen); [eauto|].
  right. eexists; split; [reflexivity|]. cbn.
  rewrite <- (take_drop (Z.to_nat plen) r3) in Hw3. apply Forall_app in Hw3 as [Hp _].
  change (256 ^ 4) with 4294967296 in *. change (256 ^ 2) with 65536 in *. change (256 ^ 1) with 256 in *.
  assert (Hfl : first_len ids = id_len \/ ids = []).
  { destruct ids; [by right|]. left. simpl. by inversion Hul. }
  assert (zlen (take (Z.to_nat plen) r3) = plen) by (unfold zlen; rewrite length_take; unfold zlen in *; lia).
  assert (Hni : zlen ids = n_ids) by (unfold zlen; lia).
  split; [constructor; cbn; ufold; auto; lia|].
  destruct Hfl as [Hfl| ->].
  - rewrite Hfl. repeat split; auto; lia.
  - change (zlen []) with 0 in *. subst n_ids. cbn in *. repeat split; auto; lia.
Qed.

Lemma read_exact_spec n s :
  wf_bytes s -> 0 <= n ->
  read_exact n s = Err (Io UnexpectedEof) /\ zlen s < n \/
  (exists b rest, read_exact n s = Ok (b, rest) /\ s = b ++ rest /\ zlen b = n
     /\ wf_bytes b /\ wf_bytes rest).
Proof.
  intros Hwf Hn. unfold read_exact. destruct (Z.ltb_spec (zlen s) n); [by left|right].
  exists (take (Z.to_nat n) s), (drop (Z.to_nat n) s).
  rewrite take_drop. rewrite <- (take_drop (Z.to_nat n) s) in Hwf.
  apply Forall_app in Hwf as [Ht Hd]. repeat split; auto.
  unfold zlen in *. rewrite length_take. lia.
Qed.

Lemma wf_with_prefix f k g : wf_frame f -> is_u8 k -> is_u8 g -> wf_frame (with_prefix f k g).
Proof. intros [] Hk Hg. by constructor. Qed.

Lemma wf_bytes_lookup (l : bytes) i : wf_bytes l -> is_u8 (default 0 (l !! i)).
Proof.
  intros H. destruct (l !! i) eqn:E; simpl; [|ufold; lia].
  by apply (Forall_lookup_1 _ _ _ _ H E).
Qed.

Lemma read_prefix_spec s :
  wf_bytes s ->
  (exists e, read_prefix s = Err e) \/
  (exists k g n rest, read_prefix s = Ok (k, g, n, rest) /\ is_u8 k /\ is_u8 g
     /\ 0 <= n <= MAX_TOTAL_LEN /\ wf_bytes rest /\ zlen s = FIXED_PREFIX + zlen rest).
Proof.
  intros Hwf. unfold read_prefix.
  destruct (read_exact_spec FIXED_PREFIX s Hwf) as [[-> _]|(p & rest & -> & -> & Hp & Hwp & Hwr)];
    [done|by eauto|]. cbn [res_bind].
  destruct (bool_decide _); [|eauto]. destruct (Z.gtb_spec (le_val (drop 6 p)) MAX_TOTAL_LEN); [eauto|].
  right. do 4 eexists. split; [reflexivity|]. rewrite zlen_app, Hp.
  repeat split; auto using wf_bytes_lookup.
  1-4: by apply wf_bytes_lookup. apply le_val_range.
  rewrite <- (take_drop 6 p) in Hwp. by apply Forall_app in Hwp as [_ ?].
Qed.

(** Reading is safe on every input.  On any byte stream, [read_frame]
    never panics; and a frame it returns is well formed, has respected the
    1 MiB cap, and can itself be written back ([validate_for_encode] accepts it)
    unless its body exceeds the cap minus the 10-byte prefix. *)
Theorem read_frame_safe (s : bytes) (Hs : wf_bytes s) :
  (exists e, read_frame s = Err e) \/
  (exists f rest, read_frame s = Ok (f, rest) /\ wf_frame f
     /\ zlen (payload f) + 30 <= zlen s
     /\ zlen (encode_body f) <= MAX_TOTAL_LEN
     /\ (zlen (encode_body f) + FIXED_PREFIX <= MAX_TOTAL_LEN -> write_frame f = Ok (encode f))).
Proof.
  unfold read_frame.
  destruct (read_prefix_spec s Hs) as [[e ->]|(k & g & n & rest & -> & Hk & Hg & Hn & Hw & Hl)];
    [by eauto|]. cbn [res_bind].
  rewrite read_body_exact by lia.
  destruct (read_exact_spec n rest Hw) as [[-> _]|(b & r & -> & -> & Hb & Hwb & Hwr)];
    [lia|by eauto|]. cbn [res_bind].
  destruct (decode_body_spec b Hwb)
    as [[e ->]|(f & -> & Hf & _ & _ & H1 & H2 & H3 & H4 & H5 & H6)]; [by eauto|].
  right. cbn [res_bind]. do 2 eexists. split; [reflexivity|].
  assert (Hlen : zlen (encode_body (with_prefix f k g))
    = 20 + first_len (key_ids f) * zlen (key_ids f) + 2 + zlen (header_orr_mp f)
        + 2 + zlen (header_dkms_mp f) + 4 + zlen (payload f)).
  { unfold encode_body, with_prefix. cbn. autorewrite with zlen.
    rewrite (zlen_concat_uniform _ (first_len (key_ids f))) by done. lia. }
  rewrite Hlen. unfold FIXED_PREFIX in *. autorewrite with zlen in *.
  pose proof (zlen_nonneg (header_orr_mp f)). pose proof (zlen_nonneg (header_dkms_mp f)).
  pose proof (zlen_nonneg (key_ids f)). pose proof (first_len_nonneg (key_ids f)).
  pose proof (Z.mul_nonneg_nonneg _ _ (first_len_nonneg (key_ids f)) (zlen_nonneg (key_ids f))).
  pose proof (zlen_nonneg r).
  split_and!; [by apply wf_with_prefix|cbn; lia|lia|].
  intros Hcap. unfold write_frame.
  rewrite (proj2 (validate_iff _)); [done|]. constructor; cbn; auto.
  unfold FIXED_PREFIX. lia.
Qed.

(** A connection cut inside a frame is reported as an I/O error, never as a
    frame: on every strict prefix of the bytes [write_frame] produces,
    [read_frame] returns [UnexpectedEof]. *)
Theorem read_frame_truncated (f : Frame) (bs : bytes) (n : nat) :
  wf_frame f -> write_frame f = Ok bs -> (n < length bs)%nat ->
  read_frame (take n bs) = Err (Io UnexpectedEof).
Proof.
  intros Hwf Hw Hn. unfold write_frame in Hw.
  apply res_bind_ok in Hw as ([] & He%validate_iff & [= <-]).
  destruct (encode_shape f He) as [Hshape Hlen]. rewrite Hshape in *.
  unfold read_frame. destruct (Nat.lt_ge_cases n 10).
  - unfold read_prefix, read_exact, FIXED_PREFIX.
    match goal with |- context [?a <? ?b] => destruct (Z.ltb_spec a b) as [_|Hge]; [done|] end.
    unfold zlen in Hge. rewrite length_take in Hge. lia.
  - set (P := MAGIC ++ [kind f; grade f] ++ le_bytes 4 (zlen (encode_body f))).
    assert (HP : length P = 10%nat) by (unfold P; by rewrite !length_app, length_le_bytes).
    replace (MAGIC ++ [kind f; grade f] ++ le_bytes 4 (zlen (encode_body f)) ++ encode_body f)
      with (P ++ encode_body f) in * by (unfold P; by rewrite <- !app_assoc).
    replace n with (length P + (n - 10))%nat by lia.
    rewrite take_app_add. unfold P. rewrite <- !app_assoc.
    pose proof (zlen_nonneg (encode_body f)). unfold FIXED_PREFIX in *.
    rewrite read_prefix_app; [|apply Hwf|apply Hwf|lia]. cbn [res_bind].
    rewrite read_body_exact by lia. unfold read_exact.
    match goal with |- context [?a <? ?b] => destruct (Z.ltb_spec a b) as [_|Hge]; [done|] end.
    rewrite length_app in Hn. unfold zlen in Hge. rewrite length_take in Hge. lia.
Qed.

(** A frame of another wire version (or not a frame at all) is refused before
    its announced length is looked at. *)
Lemma read_frame_bad_magic s :
  FIXED_PREFIX <= zlen s -> take 4 s <> MAGIC -> read_frame s = Err BadMagic.
Proof.
  intros Hl Hm. unfold read_frame, read_prefix, read_exact.
  destruct (Z.ltb_spec (zlen s) FIXED_PREFIX); [lia|]. cbn [res_bind].
  rewrite take_take, bool_decide_eq_false_2; done.
Qed.

(** ** Trailer and notification *)

Lemma split_append_trailer p session counter tag :
  is_u 64 session -> is_u 64 counter -> zlen tag = 32 ->
  split_auth_trailer (append_auth_trailer p session counter tag) = Ok (p, session, counter, tag).
Proof.
  rename session into s, counter into c, tag into t. intros Hs Hc Ht. unfold split_auth_trailer, append_auth_trailer, AUTH_TRAILER_LEN.
  autorewrite with zlen. pose proof (zlen_nonneg p).
  match goal with |- context [?a <? ?b] => destruct (Z.ltb_spec a b); [lia|] end.
  replace (Z.to_nat _) with (length p) by (unfold zlen in *; lia).
  rewrite take_app_length, drop_app_length.
  rewrite (take_app_length' (le_bytes 8 s)), (drop_app_length' (le_bytes 8 s)),
    (take_app_length' (le_bytes 8 c)) by (by rewrite length_le_bytes).
  rewrite app_assoc, (drop_app_length' _ t) by (by rewrite length_app, !length_le_bytes).
  ufold. by rewrite !le_val_le_bytes by (simpl; lia).
Qed.

Lemma append_split_trailer p body session counter tag :
  wf_bytes p -> split_auth_trailer p = Ok (body, session, counter, tag) ->
  append_auth_trailer body session counter tag = p
  /\ is_u 64 session /\ is_u 64 counter /\ zlen tag = 32.
Proof.
  intros Hwf. unfold split_auth_trailer, append_auth_trailer, AUTH_TRAILER_LEN.
  destruct (Z.ltb_spec (zlen p) (8 + 8 + 32)) as [|Hl]; [done|]. intros [= <- <- <- <-].
  set (cut := Z.to_nat _). set (tr := drop cut p).
  assert (Htr : length tr = 48%nat) by (unfold tr, cut, zlen in *; rewrite length_drop; lia).
  assert (Hw : wf_bytes tr) by (by apply Forall_drop).
  assert (H8 : wf_bytes (take 8 tr)) by (by apply Forall_take).
  assert (H16 : wf_bytes (take 8 (drop 8 tr))) by (by apply Forall_take, Forall_drop).
  assert (L8 : length (take 8 tr) = 8%nat) by (rewrite length_take; lia).
  assert (L16 : length (take 8 (drop 8 tr)) = 8%nat) by (rewrite length_take, length_drop; lia).
  pose proof (le_val_range _ H8) as R8. pose proof (le_val_range _ H16) as R16.
  unfold zlen in R8, R16. rewrite L8 in R8. rewrite L16 in R16.
  split_and!; [|exact R8|exact R16|unfold zlen; rewrite length_drop; lia].
  pose proof (le_bytes_le_val _ H8) as E8. pose proof (le_bytes_le_val _ H16) as E16.
  rewrite L8 in E8. rewrite L16 in E16. rewrite E8, E16.
  change 16%nat with (8 + 8)%nat. rewrite <- (drop_drop tr 8 8), (take_drop 8 (drop 8 tr)), take_drop.
  apply take_drop.
Qed.

(** The authentication trailer is a bijection with its fields: splitting
    what [append_auth_trailer] built gives back body, session, counter and tag,
    and any payload [split_auth_trailer] accepts is the re-assembly of the four
    parts it returns. *)
Theorem auth_trailer_roundtrip :
  (forall p session counter tag,
     is_u 64 session -> is_u 64 counter -> zlen tag = 32 ->
     split_auth_trailer (append_auth_trailer p session counter tag)
       = Ok (p, session, counter, tag)) /\
  (forall p body session counter tag,
     wf_bytes p -> split_auth_trailer p = Ok (body, session, counter, tag) ->
     append_auth_trailer body session counter tag = p
     /\ is_u 64 session /\ is_u 64 counter /\ zlen tag = 32).
Proof. split; [exact split_append_trailer|exact append_split_trailer]. Qed.

Lemma read_notify_ids_concat ids rest :
  Forall (fun i => length i = 16%nat) ids ->
  read_notify_ids (length ids) (concat ids ++ rest) = ids.
Proof.
  induction 1 as [|i ids Hi _ IH]; [done|]. cbn [length concat read_notify_ids].
  rewrite <- app_assoc, take_app_length', drop_app_length' by done. by rewrite IH.
Qed.

Lemma notify_decode_encode (ids : list bytes) (rest : bytes)
  (Hids : Forall (fun i => length i = 16%nat) ids) (Hn : zlen ids < 2 ^ 32) :
  decode_notify_payload (encode_notify_payload ids ++ rest) = Ok ids.
Proof.
  pose proof (zlen_nonneg ids). pose proof (zlen_nonneg rest).
  unfold decode_notify_payload, encode_notify_payload.
  rewrite as_u_small by (ufold; lia). rewrite <- app_assoc.
  autorewrite with zlen. rewrite (zlen_concat_uniform ids 16).
  2:{ eapply Forall_impl; [exact Hids|]. unfold zlen. intros; simpl in *; lia. }
  destruct (Z.ltb_spec (Z.of_nat 4 + (16 * zlen ids + zlen rest)) 4); [lia|].
  rewrite take_app_length', drop_app_length' by (by rewrite length_le_bytes).
  rewrite le_val_le_bytes by (simpl; lia).
  match goal with |- context [?a <? ?b] => destruct (Z.ltb_spec a b); [lia|] end.
  unfold zlen. rewrite Nat2Z.id. by rewrite read_notify_ids_concat.
Qed.

(** The key ids announced by a NOTIFY payload are exactly the ids its
    sender listed, in order, whatever follows them in the payload. *)
Theorem notify_roundtrip (ids : list bytes) (rest : bytes)
  (Hids : Forall (fun i => length i = 16%nat) ids) (Hn : zlen ids < 2 ^ 32) :
  decode_notify_payload (encode_notify_payload ids ++ rest) = Ok ids.
Proof. by apply notify_decode_encode. Qed.

Lemma base_of_auth k a : auth_kind_for k = Some a -> base_kind_of a = k /\ is_auth_kind a = true.
Proof.
  unfold auth_kind_for.
  destruct (Z.eqb_spec k FRAME_RECV); [by intros [= <-]; subst|].
  destruct (Z.eqb_spec k FRAME_RELAY); [by intros [= <-]; subst|].
  destruct (Z.eqb_spec k FRAME_KEY_IDS_NOTIFY); [by intros [= <-]; subst|done].
Qed.

Lemma auth_kind_of_base a : is_auth_kind a = true -> auth_kind_for (base_kind_of a) = Some a.
Proof.
  unfold is_auth_kind.
  by intros [[->%Z.eqb_eq| ->%Z.eqb_eq]%orb_true_iff| ->%Z.eqb_eq]%orb_true_iff.
Qed.

(** ** Witnesses *)

(** A QKC-to-QKC relay frame as the relay builds it. *)
Definition sample_frame : Frame :=
  mkFrame FRAME_RELAY GRADE_PQC 7 9 11 256 3
    [[0x61; 0x62]; [0xC3; 0xB1]] [1; 2; 3] [0xFF] [10; 20; 30; 40].

Lemma sample_frame_wf : wf_frame sample_frame.
Proof.
  constructor; cbn; try (vm_compute; intuition discriminate);
    repeat constructor; vm_compute; intuition discriminate.
Qed.

Lemma read_frame_encode_witness :
  read_frame (encode sample_frame ++ [0; 1]) = Ok (sample_frame, [0; 1]).
Proof. apply read_frame_encode; [exact sample_frame_wf|vm_compute; reflexivity]. Defined.

Lemma read_frame_safe_witness :
  exists f rest, read_frame (encode sample_frame) = Ok (f, rest) /\ wf_frame f
    /\ write_frame f = Ok (encode f).
Proof.
  destruct (read_frame_safe (encode sample_frame)) as [[e He]|(f & rest & Hr & Hf & _ & _ & Hw)].
  - apply (bool_decide_unpack _). vm_compute. exact I.
  - vm_compute in He. discriminate.
  - exists f, rest. split; [exact Hr|]. split; [exact Hf|]. apply Hw.
    vm_compute in Hr. injection Hr as <- <-. vm_compute. discriminate.
Defined.

Lemma read_frame_truncated_witness :
  read_frame (take 20 (encode sample_frame)) = Err (Io UnexpectedEof).
Proof.
  apply (read_frame_truncated sample_frame (encode sample_frame));
    [exact sample_frame_wf|vm_compute; reflexivity|vm_compute; lia].
Defined.

Lemma auth_trailer_roundtrip_witness :
  split_auth_trailer (append_auth_trailer [1; 2] 5 6 (replicate 32 9))
    = Ok ([1; 2], 5, 6, replicate 32 9).
Proof. apply (proj1 auth_trailer_roundtrip); vm_compute; intuition discriminate. Defined.

Lemma notify_roundtrip_witness :
  decode_notify_payload (encode_notify_payload [replicate 16 1; replicate 16 2] ++ [7])
    = Ok [replicate 16 1; replicate 16 2].
Proof. apply notify_roundtrip; [repeat constructor|vm_compute; reflexivity]. Defined.
