(* ===== verification/ReplayWindow.v ===== *)
(** * The anti-replay window (common/src/crypto/frame_mac.rs, [ReplayWindow])

    A sliding bitmap over the last [width] counters of the current session, one
    saved window for the previous session, and a short list of retired sessions.
    The same structure protects the QKC link frames, the end-to-end seal of the
    DKMS and the onion layer of the ORR.

    - [ReplayWindow] is the struct; the bitmap is the list of its [u64] words.
    - [shift_bits] is the two in-place loops of the function of that name.
    - [check_and_set] returns the new window together with the verdict, because
      the Rust method mutates the window on error paths too.  Its [now] is the
      monotonic clock in nanoseconds ([Instant::now]).

    The refinement: the bitmap represents exactly the set of counters accepted
    so far inside the window ([shift_bits_spec], [slide_spec]).  From it, the
    safety theorem: no (session, counter) pair is ever accepted twice. *)

From Stdlib Require Import ZArith Lia.
From S2P Require Import Prelude.

Inductive ReplayError :=
  | Replayed (session counter : Z)
  | TooOld (session counter floor : Z)
  | RetiredSession (session : Z)
  | ZeroCounter.

Inductive SessionAdopt := AdoptAny | AdoptMonotonic | AdoptAfterQuiet.

Record ReplayWindow := mkWin {
  w_width : Z;
  w_session : option Z;
  w_highest : Z;
  w_bits : list Z;
  w_retired : list Z;
  w_prev : option (Z * Z * list Z);
  w_adopt : SessionAdopt;
  w_last_accept : option Z;
  w_quiet : Z;
}.

Definition DEFAULT_WINDOW : Z := 1024.
Definition RETIRED_KEPT : Z := 8.
(** 10 s, in nanoseconds. *)
Definition ADOPT_AFTER_QUIET : Z := 10 * 1000000000.

Definition n_words (width : Z) : nat := Z.to_nat ((width + 63) / 64).

Definition win_new (width : Z) : ReplayWindow :=
  let width := Z.max width 64 in
  mkWin width None 0 (replicate (n_words width) 0) [] None AdoptAny None ADOPT_AFTER_QUIET.

Definition win_with_adopt (a : SessionAdopt) (w : ReplayWindow) : ReplayWindow :=
  mkWin (w_width w) (w_session w) (w_highest w) (w_bits w) (w_retired w) (w_prev w) a
    (w_last_accept w) (w_quiet w).

Definition new_monotonic (width : Z) : ReplayWindow := win_with_adopt AdoptMonotonic (win_new width).
Definition new_quiet_gated (width : Z) : ReplayWindow := win_with_adopt AdoptAfterQuiet (win_new width).

(** ** The bitmap *)

(** The descending word loop: [bits[i] = if i >= words { bits[i - words] } else { 0 }]. *)
Fixpoint shift_words (i : nat) (words : nat) (bits : list Z) : list Z :=
  match i with
  | O => bits
  | S j =>
      shift_words j words
        (<[j := if (words <=? j)%nat then nth (j - words) bits 0 else 0]> bits)
  end.

(** The ascending carry loop. *)
Fixpoint shift_carry (rem carry : Z) (bits : list Z) : list Z :=
  match bits with
  | [] => []
  | w :: ws =>
      let next := Z.shiftr w (64 - rem) in
      Z.lor (as_u 64 (Z.shiftl w rem)) carry :: shift_carry rem next ws
  end.

Definition shift_bits (bits : list Z) (by_ : Z) : list Z :=
  let words := Z.to_nat (by_ / 64) in
  let rem := by_ mod 64 in
  let n := length bits in
  let bits := if (0 <? words)%nat then shift_words n words bits else bits in
  if 0 <? rem then shift_carry rem 0 bits else bits.

(** [ReplayWindow::shift], and the same test inlined in [check_and_set_prev]. *)
Definition win_shift (width : Z) (bits : list Z) (by_ : Z) : list Z :=
  if by_ >=? width then map (fun _ => 0) bits else shift_bits bits by_.

(** [ReplayWindow::is_set]; indexing past the bitmap panics. *)
Definition win_is_set (bits : list Z) (back : Z) : res ReplayError bool :=
  match bits !! Z.to_nat (back / 64) with
  | Some w => Ok (negb (Z.land w (Z.shiftl 1 (back mod 64)) =? 0))
  | None => Panic
  end.

Definition win_set (bits : list Z) (back : Z) : res ReplayError (list Z) :=
  match bits !! Z.to_nat (back / 64) with
  | Some w => Ok (<[Z.to_nat (back / 64) := Z.lor w (Z.shiftl 1 (back mod 64))]> bits)
  | None => Panic
  end.

(** The counter test on one bitmap: the tail of [check_and_set] for the current
    session, and the body of [check_and_set_prev] for the previous one. *)
Definition slide (width highest : Z) (bits : list Z) (session counter : Z)
  : res ReplayError (Z * list Z) :=
  if counter >? highest then
    let by_ := counter - highest in
    let* bits := win_set (win_shift width bits by_) 0 in
    Ok (counter, bits)
  else
    let back := highest - counter in
    if back >=? width then
      Err (TooOld session counter (sat_sub highest (width - 1)))
    else
      let* seen := win_is_set bits back in
      if seen then Err (Replayed session counter)
      else let* bits := win_set bits back in Ok (highest, bits).

(** ** The window *)

Definition reset_to (w : ReplayWindow) (session : Z) : ReplayWindow :=
  let '(retired, prev) :=
    match w_session w with
    | Some old =>
        if old =? session then (w_retired w, w_prev w)
        else
          let retired :=
            match w_prev w with
            | Some (p, _, _) =>
                let r := w_retired w ++ [p] in
                if zlen r >? RETIRED_KEPT then drop 1 r else r
            | None => w_retired w
            end in
          (retired, Some (old, w_highest w, w_bits w))
    | None => (w_retired w, w_prev w)
    end in
  mkWin (w_width w) (Some session) 0 (map (fun _ => 0) (w_bits w)) retired prev
    (w_adopt w) (w_last_accept w) (w_quiet w).

Definition check_and_set_prev (w : ReplayWindow) (session counter : Z)
  : ReplayWindow * res ReplayError unit :=
  match w_prev w with
  | None => (w, Err (RetiredSession session))
  | Some (p, highest, bits) =>
      match slide (w_width w) highest bits session counter with
      | Ok (h, b) =>
          (mkWin (w_width w) (w_session w) (w_highest w) (w_bits w) (w_retired w)
             (Some (p, h, b)) (w_adopt w) (w_last_accept w) (w_quiet w), Ok tt)
      | Err e => (w, Err e)
      | Panic => (w, Panic)
      end
  end.

(** Whether a verified frame of another session makes it the current one. *)
Definition adopts (w : ReplayWindow) (now cur session : Z) : bool :=
  match w_adopt w with
  | AdoptAny => true
  | AdoptMonotonic => session >? cur
  | AdoptAfterQuiet =>
      match w_last_accept w with
      | None => true
      | Some t => sat_sub now t >=? w_quiet w
      end
  end.

(** The session part of [check_and_set]: the window positioned on [session], or
    [None] when the session is not adopted. *)
Definition select_session (w : ReplayWindow) (now session : Z) : option ReplayWindow :=
  match w_session w with
  | Some cur =>
      if cur =? session then Some w
      else if adopts w now cur session then Some (reset_to w session) else None
  | None => Some (reset_to w session)
  end.

Definition touch (w : ReplayWindow) (now : Z) : ReplayWindow :=
  mkWin (w_width w) (w_session w) (w_highest w) (w_bits w) (w_retired w) (w_prev w)
    (w_adopt w) (Some now) (w_quiet w).

Definition with_bits (w : ReplayWindow) (h : Z) (b : list Z) : ReplayWindow :=
  mkWin (w_width w) (w_session w) h b (w_retired w) (w_prev w)
    (w_adopt w) (w_last_accept w) (w_quiet w).

Definition is_prev (w : ReplayWindow) (session : Z) : bool :=
  match w_prev w with Some (p, _, _) => p =? session | None => false end.

Definition check_and_set (now : Z) (w : ReplayWindow) (session counter : Z)
  : ReplayWindow * res ReplayError unit :=
  if counter =? 0 then (w, Err ZeroCounter) else
  if bool_decide (session ∈ w_retired w) then (w, Err (RetiredSession session)) else
  if is_prev w session then check_and_set_prev w session counter else
  match select_session w now session with
  | None => (w, Err (RetiredSession session))
  | Some w =>
      let w := touch w now in
      match slide (w_width w) (w_highest w) (w_bits w) session counter with
      | Ok (h, b) => (with_bits w h b, Ok tt)
      | Err e => (w, Err e)
      | Panic => (w, Panic)
      end
  end.

(** A run of verified frames [(now, session, counter)], in arrival order: the
    final window and the accepted pairs, most recent first. *)
Fixpoint win_run (w : ReplayWindow) (evs : list (Z * Z * Z)) (acc : list (Z * Z))
  : ReplayWindow * list (Z * Z) :=
  match evs with
  | [] => (w, acc)
  | (now, s, c) :: evs =>
      match check_and_set now w s c with
      | (w, Ok _) => win_run w evs ((s, c) :: acc)
      | (w, _) => win_run w evs acc
      end
  end.

(** ** The bitmap as a number *)

Fixpoint big (l : list Z) : Z :=
  match l with
  | [] => 0
  | w :: l => w + 2 ^ 64 * big l
  end.

Definition words_ok (l : list Z) : Prop := Forall (is_u 64) l.

(** Bit [i] of the bitmap: whether the counter [highest - i] is marked. *)
Definition bit (l : list Z) (i : Z) : bool :=
  Z.testbit (nth (Z.to_nat (i / 64)) l 0) (i mod 64).

Lemma big_range l : words_ok l -> 0 <= big l < 2 ^ (64 * zlen l).
Proof.
  induction 1 as [|w l Hw _ IH]; [simpl; unfold zlen; simpl; lia|].
  cbn [big]. rewrite zlen_cons. pose proof (zlen_nonneg l).
  replace (64 * (1 + zlen l)) with (64 + 64 * zlen l) by lia.
  rewrite Z.pow_add_r by lia. ufold. nia.
Qed.

Lemma big_testbit l i : words_ok l -> 0 <= i -> Z.testbit (big l) i = bit l i.
Proof.
  intros Hl. revert i. induction Hl as [|w l Hw _ IH]; intros i Hi.
  - unfold bit. replace (nth (Z.to_nat (i / 64)) [] 0) with 0 by (by destruct (Z.to_nat (i / 64))).
    cbn [big]. by rewrite !Z.testbit_0_l.
  - cbn [big]. unfold bit. ufold. destruct (Z.lt_ge_cases i 64).
    + rewrite Z.div_small, Z.mod_small by lia. simpl nth.
      rewrite <- (Z.mod_pow2_bits_low (w + 2 ^ 64 * big l) 64 i) by lia.
      rewrite Z.mul_comm, Z.mod_add, Z.mod_small by lia. done.
    + replace i with ((i - 64) + 64) at 1 by lia.
      rewrite <- (Z.div_pow2_bits _ 64 (i - 64)) by lia.
      rewrite Z.mul_comm, Z.div_add, Z.div_small, Z.add_0_l by lia.
      rewrite IH by lia. unfold bit.
      replace i with ((i - 64) + 1 * 64) at 3 4 by lia.
      rewrite Z.div_add, Z.mod_add by lia.
      replace (Z.to_nat ((i - 64) / 64 + 1)) with (S (Z.to_nat ((i - 64) / 64))); [done|].
      pose proof (Z.div_pos (i - 64) 64). lia.
Qed.

Lemma lor_add_disjoint a b k :
  0 <= k -> 0 <= b < 2 ^ k -> a mod 2 ^ k = 0 -> Z.lor a b = a + b.
Proof.
  intros Hk Hb Ha.
  assert (Hl : Z.land a b = 0).
  { apply Z.bits_inj'. intros n Hn. rewrite Z.land_spec, Z.testbit_0_l.
    destruct (Z.lt_ge_cases n k).
    - rewrite <- (Z.mod_pow2_bits_low a k n), Ha, Z.testbit_0_l by lia. done.
    - rewrite <- (Z.mod_small b (2 ^ k)), Z.mod_pow2_bits_high by lia. apply andb_false_r. }
  rewrite <- Z.lxor_lor, Z.add_nocarry_lxor by done. done.
Qed.

Lemma shift_carry_big rem carry l :
  words_ok l -> 0 < rem < 64 -> 0 <= carry < 2 ^ rem ->
  words_ok (shift_carry rem carry l) /\ length (shift_carry rem carry l) = length l /\
  big (shift_carry rem carry l) = (big l * 2 ^ rem + carry) mod 2 ^ (64 * zlen l).
Proof.
  intros Hl Hrem. revert carry. induction Hl as [|w l Hw Hl IH]; intros carry Hc.
  { unfold zlen. simpl. rewrite Z.mod_1_r. repeat split; auto. constructor. }
  cbn [shift_carry length big]. rewrite Z.shiftr_div_pow2, Z.shiftl_mul_pow2 by lia.
  set (hi := w / 2 ^ (64 - rem)). set (lo := as_u 64 (w * 2 ^ rem)).
  ufold.
  assert (Hpow : 2 ^ 64 = 2 ^ rem * 2 ^ (64 - rem)) by (rewrite <- Z.pow_add_r by lia; f_equal; lia).
  assert (0 < 2 ^ rem) by lia. assert (0 < 2 ^ (64 - rem)) by lia.
  assert (Hhi : 0 <= hi < 2 ^ rem).
  { unfold hi. split; [apply Z.div_pos; lia|apply Z.div_lt_upper_bound; lia]. }
  assert (Hsplit : w * 2 ^ rem = lo + 2 ^ 64 * hi).
  { assert (Hq : w * 2 ^ rem / 2 ^ 64 = hi).
    { rewrite Hpow, (Z.mul_comm w), Z.div_mul_cancel_l by lia. done. }
    pose proof (Z.div_mod (w * 2 ^ rem) (2 ^ 64)). unfold lo, as_u. rewrite Hq in *. lia. }
  assert (Hlo : 0 <= lo < 2 ^ 64) by (apply Z.mod_pos_bound; lia).
  assert (Hlom : lo mod 2 ^ rem = 0).
  { replace lo with ((w - 2 ^ (64 - rem) * hi) * 2 ^ rem) by nia. apply Z.mod_mul. lia. }
  assert (Hlor : Z.lor lo carry = lo + carry) by (apply (lor_add_disjoint lo carry rem); lia).
  assert (Hloc : lo + carry < 2 ^ 64).
  { pose proof (Z.div_mod lo (2 ^ rem)). assert (lo / 2 ^ rem < 2 ^ (64 - rem)); [|nia].
    apply Z.div_lt_upper_bound; lia. }
  destruct (IH hi Hhi) as (Hok & Hlen & Hbig). rewrite Hlor.
  split; [constructor; [ufold; lia|done]|]. split; [by rewrite Hlen|].
  rewrite Hbig, zlen_cons.
  replace (64 * (1 + zlen l)) with (64 + 64 * zlen l) by lia.
  pose proof (zlen_nonneg l). rewrite Z.pow_add_r by lia.
  replace ((w + 2 ^ 64 * big l) * 2 ^ rem + carry)
    with ((lo + carry) + 2 ^ 64 * (big l * 2 ^ rem + hi)) by lia.
  rewrite Z.rem_mul_r by lia.
  rewrite (Z.mul_comm (2 ^ 64) (big l * 2 ^ rem + hi)), Z.mod_add, Z.div_add by lia.
  rewrite (Z.mod_small (lo + carry)), (Z.div_small (lo + carry)), Z.add_0_l by lia. done.
Qed.

Lemma nth_insert_list (l : list Z) j k v :
  (j < length l)%nat -> nth k (<[j := v]> l) 0 = if (k =? j)%nat then v else nth k l 0.
Proof.
  intros Hj. rewrite !nth_lookup. destruct (Nat.eqb_spec k j) as [->|Hne].
  - by rewrite list_lookup_insert_eq.
  - by rewrite list_lookup_insert_ne.
Qed.

Lemma shift_words_nth i words l k :
  (0 < words)%nat -> (i <= length l)%nat ->
  nth k (shift_words i words l) 0 =
    if (k <? i)%nat then (if (words <=? k)%nat then nth (k - words) l 0 else 0) else nth k l 0.
Proof.
  intros Hw. revert l. induction i as [|j IH]; intros l Hi; [done|].
  cbn [shift_words]. rewrite IH by (rewrite length_insert; lia).
  destruct (Nat.ltb_spec k j), (Nat.ltb_spec k (S j)); try lia.
  - destruct (Nat.leb_spec words k); [|done].
    rewrite nth_insert_list by lia. destruct (Nat.eqb_spec (k - words) j); [lia|done].
  - rewrite nth_insert_list by lia. assert (k = j) as -> by lia. by rewrite Nat.eqb_refl.
  - rewrite nth_insert_list by lia. destruct (Nat.eqb_spec k j); [lia|done].
Qed.

Lemma nth_words_ok l k : words_ok l -> is_u 64 (nth k l 0).
Proof.
  intros Hl. rewrite nth_lookup. destruct (l !! k) eqn:E; simpl; [|ufold; lia].
  by apply (Forall_lookup_1 _ _ _ _ Hl E).
Qed.

Lemma shift_words_ok i words l :
  words_ok l -> words_ok (shift_words i words l) /\ length (shift_words i words l) = length l.
Proof.
  revert l. induction i as [|j IH]; intros l Hl; [done|]. cbn [shift_words].
  set (l' := <[j := _]> l).
  assert (Hl' : words_ok l').
  { apply Forall_insert; [done|]. destruct (words <=? j)%nat; [by apply nth_words_ok|ufold; lia]. }
  destruct (IH l' Hl') as [Hok Hlen]. split; [done|]. rewrite Hlen. apply length_insert.
Qed.

(** The two loops implement a left shift of the whole bitmap: after
    [shift_bits l by], bit [i] is the old bit [i - by], and the [by] lowest bits
    are clear. *)
Lemma shift_bits_spec l by_ :
  words_ok l -> 0 <= by_ ->
  words_ok (shift_bits l by_) /\ length (shift_bits l by_) = length l /\
  forall i, 0 <= i < 64 * zlen l -> bit (shift_bits l by_) i = (by_ <=? i) && bit l (i - by_).
Proof.
  intros Hl Hby. unfold shift_bits.
  pose proof (Z.div_mod by_ 64). pose proof (Z.mod_pos_bound by_ 64).
  pose proof (Z.div_pos by_ 64).
  set (words := Z.to_nat (by_ / 64)). set (rem := by_ mod 64) in *.
  set (l1 := if (0 <? words)%nat then shift_words (length l) words l else l).
  assert (HL1 : words_ok l1 /\ length l1 = length l /\
    forall i, 0 <= i < 64 * zlen l -> bit l1 i = (64 * (by_ / 64) <=? i) && bit l (i - 64 * (by_ / 64))).
  { unfold l1. destruct (Nat.ltb_spec 0 words) as [Hw|Hw].
    - destruct (shift_words_ok (length l) words l Hl) as [Hok Hlen]. split_and!; [done..|].
      intros i Hi. unfold bit. unfold zlen in Hi.
      rewrite shift_words_nth by lia.
      pose proof (Z.div_mod i 64). pose proof (Z.mod_pos_bound i 64). pose proof (Z.div_pos i 64).
      assert (i / 64 < Z.of_nat (length l)) by (apply Z.div_lt_upper_bound; lia).
      destruct (Nat.ltb_spec (Z.to_nat (i / 64)) (length l)); [|lia].
      replace (i - 64 * (by_ / 64)) with (i + (- (by_ / 64)) * 64) by lia.
      rewrite Z.mod_add, Z.div_add by lia.
      destruct (Nat.leb_spec words (Z.to_nat (i / 64))), (Z.leb_spec (64 * (by_ / 64)) i);
        try (unfold words in *; lia).
      + simpl. f_equal. f_equal. unfold words. lia.
      + rewrite Z.testbit_0_l. done.
    - split_and!; [done..|]. intros i Hi. replace (by_ / 64) with 0 by (unfold words in Hw; lia).
      rewrite Z.mul_0_r, Z.sub_0_r. by destruct (Z.leb_spec 0 i); [|lia]. }
  destruct HL1 as (Hok1 & Hlen1 & Hbit1).
  destruct (Z.ltb_spec 0 rem) as [Hrem|Hrem].
  - destruct (shift_carry_big rem 0 l1) as (Hok & Hlen & Hbig); [done|lia|lia|].
    split_and!; [done|by rewrite Hlen|]. intros i Hi.
    assert (Hz : zlen l1 = zlen l) by (unfold zlen; lia).
    rewrite <- big_testbit, Hbig, Z.add_0_r by (done || lia).
    rewrite Z.mod_pow2_bits_low by lia.
    rewrite Z.mul_pow2_bits by lia.
    destruct (Z.lt_ge_cases i rem).
    + rewrite Z.testbit_neg_r by lia. destruct (Z.leb_spec by_ i); [lia|done].
    + rewrite big_testbit, Hbit1 by (done || lia).
      replace (i - rem - 64 * (by_ / 64)) with (i - by_) by lia.
      destruct (Z.leb_spec (64 * (by_ / 64)) (i - rem)), (Z.leb_spec by_ i); done || lia.
  - split_and!; [done..|]. intros i Hi. rewrite Hbit1 by done.
    replace (64 * (by_ / 64)) with by_ by lia. done.
Qed.

(** ** The bitmap represents the accepted counters *)

(** [H] is the set of counters accepted so far in a session. *)
Record win_ok (H : Z -> Prop) (width highest : Z) (bits : list Z) : Prop := {
  ok_words : words_ok bits;
  ok_len : length bits = n_words width;
  ok_highest : 0 <= highest;
  ok_range : forall c, H c -> 1 <= c <= highest;
  ok_bits : forall i, 0 <= i < width -> (bit bits i = true <-> H (highest - i));
}.

Lemma n_words_bound width : 0 <= width -> width <= 64 * Z.of_nat (n_words width).
Proof.
  intros Hw. unfold n_words. pose proof (Z.div_mod (width + 63) 64).
  pose proof (Z.mod_pos_bound (width + 63) 64). pose proof (Z.div_pos (width + 63) 64). lia.
Qed.

Lemma word_index_lt (bits : list Z) i :
  0 <= i < 64 * zlen bits -> (Z.to_nat (i / 64) < length bits)%nat.
Proof.
  intros Hi. unfold zlen in Hi. pose proof (Z.div_pos i 64).
  assert (i / 64 < Z.of_nat (length bits)) by (apply Z.div_lt_upper_bound; lia). lia.
Qed.

Lemma land_bit_testbit w k : 0 <= k -> negb (Z.land w (Z.shiftl 1 k) =? 0) = Z.testbit w k.
Proof.
  intros Hk. rewrite Z.shiftl_1_l. destruct (Z.testbit w k) eqn:E.
  - apply negb_true_iff, Z.eqb_neq. intros H0.
    apply (f_equal (fun z => Z.testbit z k)) in H0.
    rewrite Z.land_spec, E, Z.pow2_bits_true, Z.testbit_0_l in H0 by lia. done.
  - apply negb_false_iff, Z.eqb_eq, Z.bits_inj'. intros n Hn.
    rewrite Z.land_spec, Z.testbit_0_l, Z.pow2_bits_eqb by lia.
    destruct (Z.eqb_spec k n) as [<-|]; [by rewrite E|apply andb_false_r].
Qed.

Lemma win_is_set_spec bits i :
  0 <= i < 64 * zlen bits -> win_is_set bits i = Ok (bit bits i).
Proof.
  intros Hi. unfold win_is_set, bit. pose proof (word_index_lt bits i Hi) as Hlt.
  destruct (lookup_lt_is_Some_2 bits _ Hlt) as [w Hw]. rewrite Hw, nth_lookup, Hw. simpl.
  rewrite land_bit_testbit by (apply Z.mod_pos_bound; lia). done.
Qed.

Lemma win_set_spec bits i :
  words_ok bits -> 0 <= i < 64 * zlen bits ->
  exists b, win_set bits i = Ok b /\ words_ok b /\ length b = length bits /\
    forall j, 0 <= j < 64 * zlen bits -> bit b j = (j =? i) || bit bits j.
Proof.
  intros Hok Hi. unfold win_set. pose proof (word_index_lt bits i Hi) as Hlt.
  destruct (lookup_lt_is_Some_2 bits _ Hlt) as [w Hw]. rewrite Hw.
  pose proof (Z.mod_pos_bound i 64). pose proof (Z.div_mod i 64).
  eexists; split; [reflexivity|]. split; [|split; [apply length_insert|]].
  - apply Forall_insert; [done|].
    pose proof (Forall_lookup_1 _ _ _ _ Hok Hw) as Hr. ufold.
    rewrite Z.shiftl_1_l.
    assert (Hr2 : 0 <= 2 ^ (i mod 64) < 2 ^ 64) by (split; [lia|apply Z.pow_lt_mono_r; lia]).
    assert (0 <= Z.lor w (2 ^ (i mod 64))) by (apply Z.lor_nonneg; lia).
    split; [done|]. destruct (Z.eq_dec (Z.lor w (2 ^ (i mod 64))) 0) as [->|Hnz]; [lia|].
    apply Z.log2_lt_pow2; [lia|]. rewrite Z.log2_lor by lia.
    apply Z.max_lub_lt; [|rewrite Z.log2_pow2; lia].
    destruct (Z.eq_dec w 0) as [->|]; [simpl; lia|]. apply Z.log2_lt_pow2; lia.
  - intros j Hj. unfold bit. rewrite nth_insert_list by done.
    pose proof (Z.mod_pos_bound j 64). pose proof (Z.div_mod j 64).
    pose proof (Z.div_pos i 64). pose proof (Z.div_pos j 64).
    destruct (Nat.eqb_spec (Z.to_nat (j / 64)) (Z.to_nat (i / 64))) as [He|He].
    + rewrite Z.lor_spec, Z.shiftl_1_l, Z.pow2_bits_eqb, He, nth_lookup, Hw by lia. simpl.
      rewrite orb_comm. f_equal.
      destruct (Z.eqb_spec (i mod 64) (j mod 64)), (Z.eqb_spec j i); done || (subst; lia) || lia.
    + destruct (Z.eqb_spec j i); [subst; done|done].
Qed.

Lemma nth_map_zero (l : list Z) k : nth k (map (fun _ => 0) l) 0 = 0.
Proof.
  rewrite nth_lookup, list_lookup_fmap. by destruct (l !! k).
Qed.

Lemma map_zero_ok (l : list Z) :
  words_ok (map (fun _ => 0) l) /\ length (map (fun _ : Z => 0) l) = length l
  /\ forall i, bit (map (fun _ => 0) l) i = false.
Proof.
  split_and!.
  - apply Forall_fmap, Forall_true. intros; ufold; simpl; lia.
  - apply length_fmap.
  - intros i. unfold bit. rewrite nth_map_zero. apply Z.testbit_0_l.
Qed.

Lemma win_shift_spec width bits by_ :
  words_ok bits -> length bits = n_words width -> 0 < width -> 0 <= by_ ->
  words_ok (win_shift width bits by_) /\ length (win_shift width bits by_) = length bits /\
  forall i, 0 <= i < width -> bit (win_shift width bits by_) i = (by_ <=? i) && bit bits (i - by_).
Proof.
  intros Hok Hlen Hw Hby. unfold win_shift. destruct (Z.geb_spec by_ width).
  - destruct (map_zero_ok bits) as (H1 & H2 & H3). split_and!; [done..|].
    intros i Hi. rewrite H3. destruct (Z.leb_spec by_ i); [lia|done].
  - destruct (shift_bits_spec bits by_ Hok Hby) as (H1 & H2 & H3). split_and!; [done..|].
    intros i Hi. apply H3. unfold zlen. rewrite Hlen. pose proof (n_words_bound width). lia.
Qed.

(** The verdict of one bitmap, against the set [H] of counters it has accepted:
    accepted exactly when the counter is new and not older than the window, and
    then the new bitmap represents [H] with the counter added. *)
Lemma slide_spec (H : Z -> Prop) width highest bits s c :
  64 <= width -> win_ok H width highest bits -> 1 <= c ->
  match slide width highest bits s c with
  | Ok (h, b) => ~ H c /\ highest - c < width /\ h = Z.max highest c
                 /\ win_ok (fun x => x = c \/ H x) width h b
  | Err (Replayed s' c') => H c /\ highest - c < width /\ s' = s /\ c' = c
  | Err (TooOld s' c' f) => width <= highest - c /\ s' = s /\ c' = c
  | Err _ | Panic => False
  end.
Proof.
  intros Hw [Hok Hlen Hh Hr Hb] Hc. unfold slide.
  pose proof (n_words_bound width) as Hnw.
  destruct (Z.gtb_spec c highest) as [Hgt|Hle].
  - destruct (win_shift_spec width bits (c - highest)) as (H1 & H2 & H3); [done..|lia|lia|].
    destruct (win_set_spec (win_shift width bits (c - highest)) 0) as (b & -> & Hbok & Hbl & Hbb).
    { done. } { unfold zlen. lia. }
    cbn [res_bind]. split; [intros HH; apply Hr in HH; lia|]. split; [lia|]. split; [lia|].
    constructor; [done|lia|lia|intros x [->|Hx%Hr]; lia|].
    intros i Hi. rewrite Hbb by (unfold zlen; lia). rewrite H3 by done.
    destruct (Z.eqb_spec i 0) as [->|Hi0]; simpl.
    + rewrite Z.sub_0_r. intuition.
    + destruct (Z.leb_spec (c - highest) i); simpl.
      * rewrite Hb by lia. replace (highest - (i - (c - highest))) with (c - i) by lia.
        split; [by right|]. intros [|]; [lia|done].
      * split; [done|]. intros [|Hx%Hr]; lia.
  - destruct (Z.geb_spec (highest - c) width); [by split|].
    rewrite win_is_set_spec by (unfold zlen; lia). cbn [res_bind].
    pose proof (Hb (highest - c)) as Hbit. replace (highest - (highest - c)) with c in Hbit by lia.
    destruct (bit bits (highest - c)) eqn:Eb.
    + split_and!; [|lia|done|done]. apply Hbit; [lia|done].
    + destruct (win_set_spec bits (highest - c)) as (b & -> & Hbok & Hbl & Hbb).
      { done. } { unfold zlen. lia. }
      cbn [res_bind]. split; [intros HH; apply Hbit in HH; [done|lia]|].
      split; [lia|]. split; [lia|].
      constructor; [done|lia|lia|intros x [->|Hx%Hr]; lia|].
      intros i Hi. rewrite Hbb by (unfold zlen; lia).
      destruct (Z.eqb_spec i (highest - c)) as [->|Hne]; simpl.
      * split; [intros _; left; lia|done].
      * rewrite Hb by done. split; [by right|]. intros [|]; [lia|done].
Qed.

(** ** The window invariant

    [acc] is the list of accepted pairs, [G] the sessions the bounded [retired]
    list has already forgotten. *)

Definition seen_in (acc : list (Z * Z)) (s : Z) : Z -> Prop := fun c => (s, c) ∈ acc.

Definition tracked (G : Z -> Prop) (w : ReplayWindow) (s : Z) : Prop :=
  w_session w = Some s \/ (exists h b, w_prev w = Some (s, h, b)) \/ s ∈ w_retired w \/ G s.

Record win_inv (G : Z -> Prop) (w : ReplayWindow) (acc : list (Z * Z)) : Prop := {
  inv_width : 64 <= w_width w;
  inv_words : words_ok (w_bits w) /\ length (w_bits w) = n_words (w_width w);
  inv_cur : forall s, w_session w = Some s ->
    win_ok (seen_in acc s) (w_width w) (w_highest w) (w_bits w);
  inv_prev : forall s h b, w_prev w = Some (s, h, b) ->
    win_ok (seen_in acc s) (w_width w) h b /\ w_session w <> Some s /\ is_Some (w_session w);
  inv_tracked : forall s c, (s, c) ∈ acc -> tracked G w s;
}.

Lemma win_ok_ext (H H' : Z -> Prop) width h b :
  (forall c, H c <-> H' c) -> win_ok H width h b -> win_ok H' width h b.
Proof.
  intros He [H1 H2 H3 H4 H5]. constructor; [done..| |].
  - intros c Hc%He. by apply H4.
  - intros i Hi. rewrite <- He. by apply H5.
Qed.

Lemma win_ok_fresh acc s width b :
  words_ok b -> length b = n_words width ->
  (forall c, (s, c) ∉ acc) -> win_ok (seen_in acc s) width 0 (map (fun _ => 0) b).
Proof.
  intros Hok Hl Hn. destruct (map_zero_ok b) as (H1 & H2 & H3).
  constructor; [done|by rewrite H2|lia| |].
  - intros c Hc. by destruct (Hn c).
  - intros i _. rewrite H3. split; [done|]. intros Hc. by destruct (Hn (0 - i)).
Qed.

Lemma seen_in_other acc s s' c :
  s <> s' -> forall x, seen_in acc s x <-> seen_in ((s', c) :: acc) s x.
Proof. intros Hne x. unfold seen_in. rewrite elem_of_cons. intuition congruence. Qed.

Lemma seen_in_same acc s c x : (x = c \/ seen_in acc s x) <-> seen_in ((s, c) :: acc) s x.
Proof. unfold seen_in. rewrite elem_of_cons. intuition congruence. Qed.

Definition dropped (G : Z -> Prop) (w w' : ReplayWindow) : Z -> Prop :=
  fun x => G x \/ (x ∈ w_retired w /\ ~ x ∈ w_retired w').

Lemma win_inv_weaken (G G' : Z -> Prop) w acc :
  (forall x, G x -> G' x) -> win_inv G w acc -> win_inv G' w acc.
Proof.
  intros HG [H1 H2 H3 H4 H5]. constructor; [done..|].
  intros s c Hs%H5. unfold tracked in *. intuition.
Qed.

Lemma elem_of_drop1_last (l : list Z) p : (1 <= length l)%nat -> p ∈ drop 1 (l ++ [p]).
Proof. destruct l; simpl; [lia|]. intros _. apply elem_of_app. right. by apply list_elem_of_singleton. Qed.

Lemma reset_to_inv G w acc s :
  win_inv G w acc -> w_session w <> Some s -> is_prev w s = false ->
  s ∉ w_retired w -> ~ G s ->
  win_inv (dropped G w (reset_to w s)) (reset_to w s) acc.
Proof.
  intros [Hw [Hok Hlen] Hcur Hprev Htr] Hs Hp Hr HG.
  assert (Hnew : forall c, (s, c) ∉ acc).
  { intros c Hc. destruct (Htr _ _ Hc) as [|[(h & b & E)|[|]]]; [done| |done..].
    unfold is_prev in Hp. rewrite E in Hp. by rewrite Z.eqb_refl in Hp. }
  set (w' := reset_to w s).
  assert (Hbits : w_bits w' = map (fun _ => 0) (w_bits w) /\ w_highest w' = 0
    /\ w_width w' = w_width w /\ w_session w' = Some s).
  { unfold w', reset_to. destruct (w_session w) as [old|]; [|done]. by destruct (old =? s). }
  destruct Hbits as (Hb' & Hh' & Hw' & Hs').
  destruct (map_zero_ok (w_bits w)) as (Z1 & Z2 & Z3).
  constructor.
  - by rewrite Hw'.
  - rewrite Hb', Hw'. split; [done|]. by rewrite Z2.
  - intros x Hx. rewrite Hs' in Hx. injection Hx as <-. rewrite Hb', Hh', Hw'.
    by apply win_ok_fresh.
  - intros x h b Hx. rewrite Hs', Hw'. unfold w', reset_to in Hx.
    destruct (w_session w) as [old|] eqn:Ew.
    + destruct (Z.eqb_spec old s) as [->|Hne]; [done|]. simpl in Hx. injection Hx as <- <- <-.
      split_and!; [by apply Hcur|congruence|by eexists].
    + simpl in Hx. destruct (Hprev _ _ _ Hx) as (_ & _ & [? ?]). done.
  - intros x c Hx. unfold tracked. destruct (Htr _ _ Hx) as [Hc|[(h & b & E)|[Hret|HGx]]].
    + right; left. unfold w', reset_to. rewrite Hc.
      destruct (Z.eqb_spec x s) as [->|]; [done|]. simpl. eauto.
    + right; right; left. destruct (Hprev _ _ _ E) as (_ & _ & [old Eo]).
      unfold w', reset_to. rewrite Eo, E.
      destruct (Z.eqb_spec old s) as [->|]; [done|]. cbn [w_retired].
      destruct (Z.gtb_spec (zlen (w_retired w ++ [x])) RETIRED_KEPT) as [Hl|_].
      * apply elem_of_drop1_last. rewrite zlen_app in Hl. unfold zlen, RETIRED_KEPT in Hl. simpl in Hl. lia.
      * apply elem_of_app. right. by apply list_elem_of_singleton.
    + right; right. destruct (decide (x ∈ w_retired w')); [by left|]. right. by right.
    + do 3 right. by left.
Qed.

Lemma touch_inv G w acc now : win_inv G w acc -> win_inv G (touch w now) acc.
Proof. intros [H1 H2 H3 H4 H5]. by constructor. Qed.

Lemma with_bits_inv G w acc s c h b :
  win_inv G w acc -> w_session w = Some s ->
  win_ok (fun x => x = c \/ seen_in acc s x) (w_width w) h b ->
  win_inv G (with_bits w h b) ((s, c) :: acc).
Proof.
  intros [Hw [Hok Hlen] Hcur Hprev Htr] Hs Hwin. constructor; cbn.
  - done.
  - split; apply Hwin.
  - intros x Hx. rewrite Hs in Hx. injection Hx as <-.
    eapply win_ok_ext; [|exact Hwin]. intros; apply seen_in_same.
  - intros x h' b' Hx. destruct (Hprev _ _ _ Hx) as (H1 & H2 & H3). split_and!; [|done..].
    eapply win_ok_ext; [|exact H1]. apply seen_in_other. congruence.
  - intros x y [[= -> ->]|Hx]%elem_of_cons; [by left|]. by apply (Htr x y).
Qed.

Lemma dropped_refl G w w' x : w_retired w' = w_retired w -> dropped G w w' x -> G x.
Proof. intros He [|[H1 H2]]; [done|]. rewrite He in H2. done. Qed.

Lemma select_session_inv G w acc now s w0 :
  win_inv G w acc -> is_prev w s = false -> s ∉ w_retired w ->
  (w_session w <> Some s -> ~ G s) ->
  select_session w now s = Some w0 ->
  win_inv (dropped G w w0) w0 acc /\ w_session w0 = Some s.
Proof.
  intros Hinv Hp Hr HG Hsel. unfold select_session in Hsel.
  assert (Hreset : w_session w <> Some s -> w0 = reset_to w s ->
    win_inv (dropped G w w0) w0 acc /\ w_session w0 = Some s).
  { intros Hne ->. split; [by apply reset_to_inv; auto|].
    unfold reset_to. destruct (w_session w) as [old|]; [|done]. by destruct (old =? s). }
  destruct (w_session w) as [cur|] eqn:Ew.
  - destruct (Z.eqb_spec cur s) as [->|Hne].
    + injection Hsel as <-. split; [|done]. eapply win_inv_weaken; [|exact Hinv]. by left.
    + destruct (adopts w now cur s); [|done]. injection Hsel as <-. apply Hreset; [congruence|done].
  - injection Hsel as <-. by apply Hreset.
Qed.

(** One call of [check_and_set] against the accepted history. *)
Lemma check_and_set_step G w acc now s c :
  win_inv G w acc -> 0 <= c ->
  (w_session w <> Some s -> is_prev w s = false -> s ∉ w_retired w ->
   is_Some (select_session w now s) -> ~ G s) ->
  let '(w', r) := check_and_set now w s c in
  match r with
  | Ok _ => ~ (s, c) ∈ acc /\ win_inv (dropped G w w') w' ((s, c) :: acc)
  | Err _ => win_inv (dropped G w w') w' acc
  | Panic => False
  end.
Proof.
  intros Hinv Hc HG. unfold check_and_set.
  assert (Hid : win_inv (dropped G w w) w acc) by (eapply win_inv_weaken; [|exact Hinv]; by left).
  destruct (Z.eqb_spec c 0); [done|].
  case_bool_decide as Hret; [done|].
  destruct (is_prev w s) eqn:Hp.
  - unfold check_and_set_prev. unfold is_prev in Hp.
    destruct (w_prev w) as [[[p h] b]|] eqn:Epr; [|done]. apply Z.eqb_eq in Hp as ->.
    destruct (inv_prev _ _ _ Hinv _ _ _ Epr) as (Hwin & Hne & Hsome).
    pose proof (slide_spec _ _ _ _ s c (inv_width _ _ _ Hinv) Hwin ltac:(lia)) as Hsl.
    destruct (slide _ _ _ _ _) as [[h' b']|e|]; [|done|done].
    destruct Hsl as (Hn & _ & _ & Hwin'). split; [exact Hn|].
    destruct Hinv as [Hw [Hok Hlen] Hcur Hprev Htr]. constructor; cbn; [done|done| | |].
    + intros x Hx. eapply win_ok_ext; [|by apply Hcur]. apply seen_in_other. congruence.
    + intros x h'' b'' [= <- <- <-]. split_and!; [|done|done].
      eapply win_ok_ext; [|exact Hwin']. intros; apply seen_in_same.
    + intros x y [[= -> ->]|Hx]%elem_of_cons; [right; left; eauto|].
      destruct (Htr _ _ Hx) as [?|[(? & ? & E)|[?|?]]]; unfold tracked; cbn;
        [by left|right; left|by do 2 right; left|by do 3 right; left].
      rewrite E in Epr. injection Epr as -> -> ->. eauto.
  - destruct (select_session w now s) as [w0|] eqn:Esel; [|done].
    destruct (select_session_inv G w acc now s w0) as [Hinv0 Hs0]; [done..| |done|].
    { intros Hne. apply HG; [done..|]. by eexists. }
    pose proof (slide_spec _ _ _ _ s c (inv_width _ _ _ Hinv0) (inv_cur _ _ _ Hinv0 _ Hs0)
      ltac:(lia)) as Hsl.
    cbn [w_width w_highest w_bits touch].
    destruct (slide _ _ _ _ _) as [[h b]|e|]; [| |done].
    + destruct Hsl as (Hn & _ & _ & Hwin). split; [exact Hn|].
      apply with_bits_inv; [by apply touch_inv|done|done].
    + by apply touch_inv.
Qed.

(** ** Which sessions the window remembers *)

Definition sessions_of (w : ReplayWindow) : list Z :=
  option_list (w_session w) ++ option_list (fst ∘ fst <$> w_prev w) ++ w_retired w.

(** The sessions the window holds are pairwise distinct, and there are at most
    ten of them: the current one, the previous one and [RETIRED_KEPT] retired. *)
Record sess_inv (w : ReplayWindow) : Prop := {
  sess_nodup : NoDup (sessions_of w);
  sess_kept : zlen (w_retired w) <= RETIRED_KEPT;
  sess_start : w_session w = None -> w_prev w = None /\ w_retired w = [];
}.

Lemma sess_inv_same w w' :
  w_session w' = w_session w -> fst ∘ fst <$> w_prev w' = fst ∘ fst <$> w_prev w ->
  w_retired w' = w_retired w -> sess_inv w -> sess_inv w'.
Proof.
  intros Hs Hp Hr [H1 H2 H3]. constructor; unfold sessions_of; rewrite ?Hs, ?Hp, ?Hr; auto.
  intros Hn. destruct (H3 Hn) as [Hp0 ->]. rewrite Hp0 in Hp. by destruct (w_prev w').
Qed.

Lemma not_in_sessions w s :
  w_session w <> Some s -> is_prev w s = false -> s ∉ w_retired w -> s ∉ sessions_of w.
Proof.
  intros Hs Hp Hr. unfold sessions_of. rewrite !elem_of_app. unfold is_prev in Hp.
  intros [H|[H|H]]; [|destruct (w_prev w) as [[[p h] b]|]|done].
  - destruct (w_session w); simpl in H; [|by apply not_elem_of_nil in H].
    apply list_elem_of_singleton in H. congruence.
  - simpl in H. apply list_elem_of_singleton in H. subst. by rewrite Z.eqb_refl in Hp.
  - by apply not_elem_of_nil in H.
Qed.

(** Adopting a session either keeps every remembered session, or ten are
    already remembered besides the new one. *)
Lemma reset_to_sessions w s :
  sess_inv w -> s ∉ sessions_of w ->
  sess_inv (reset_to w s) /\
  (forall x, x ∈ sessions_of (reset_to w s) -> x = s \/ x ∈ sessions_of w) /\
  ((forall x, x ∈ w_retired w -> x ∈ w_retired (reset_to w s)) \/ length (sessions_of w) = 10%nat).
Proof.
  intros [Hnd Hk Hst] Hs. unfold reset_to, sessions_of in *.
  destruct (w_session w) as [cur|]; simpl in *.
  2:{ destruct (Hst eq_refl) as [-> ->]. simpl. split; [|split].
      - constructor; simpl; [by apply NoDup_singleton|unfold RETIRED_KEPT, zlen; simpl; lia|done].
      - intros x Hx. left. by apply list_elem_of_singleton in Hx.
      - by left. }
  assert (Hne : cur <> s) by (intros ->; apply Hs; by left).
  destruct (Z.eqb_spec cur s); [done|]. clear n Hst.
  destruct (w_prev w) as [[[p h] b]|]; simpl in *.
  2:{ split; [|split].
      - constructor; simpl; [by constructor|done|done].
      - intros x Hx. by apply elem_of_cons in Hx.
      - by left. }
  assert (Hnd' : NoDup (s :: cur :: w_retired w ++ [p])).
  { constructor; [set_solver|]. rewrite NoDup_cons in Hnd. destruct Hnd as [Hc Hnd].
    rewrite NoDup_cons in Hnd. destruct Hnd as [Hp Hnd]. constructor; [set_solver|].
    apply NoDup_app. split_and!; [done|set_solver|by apply NoDup_singleton]. }
  destruct (Z.gtb_spec (zlen (w_retired w ++ [p])) RETIRED_KEPT) as [Hgt|Hle].
  - split; [|split].
    + constructor; simpl; [|rewrite zlen_app in Hgt; unfold zlen, RETIRED_KEPT in *|done].
      * eapply sublist_NoDup; [exact Hnd'|].
        do 2 apply sublist_skip. apply sublist_drop.
      * rewrite length_drop, length_app. simpl in *. lia.
    + intros x Hx. rewrite !elem_of_cons in Hx.
      destruct Hx as [?|[?|Hx%elem_of_drop]]; set_solver.
    + right. rewrite zlen_app in Hgt. unfold zlen, RETIRED_KEPT in *. simpl in *. lia.
  - split; [|split].
    + constructor; simpl; [done|lia|done].
    + intros x Hx. set_solver.
    + left. intros x Hx. set_solver.
Qed.

(** Everything of a window but its bitmaps and its clock. *)
Definition same_skel (w w' : ReplayWindow) : Prop :=
  w_session w' = w_session w /\ fst ∘ fst <$> w_prev w' = fst ∘ fst <$> w_prev w /\
  w_retired w' = w_retired w /\ w_adopt w' = w_adopt w.

Lemma same_skel_prev w w' x : same_skel w w' -> is_prev w' x = is_prev w x.
Proof.
  intros (_ & Hp & _). unfold is_prev.
  destruct (w_prev w) as [[[? ?] ?]|], (w_prev w') as [[[? ?] ?]|]; simpl in Hp; congruence.
Qed.

(** One call either stays on the same sessions, or moves to [select_session]. *)
Lemma check_and_set_skel now w s c :
  same_skel w (fst (check_and_set now w s c)) \/
  (is_prev w s = false /\ ~ s ∈ w_retired w /\
   exists w0, select_session w now s = Some w0 /\ same_skel w0 (fst (check_and_set now w s c))).
Proof.
  unfold check_and_set. destruct (c =? 0); [by left|]. case_bool_decide as Hret; [by left|].
  destruct (is_prev w s) eqn:Hp.
  - left. unfold check_and_set_prev, same_skel. destruct (w_prev w) as [[[p h] b]|] eqn:Ep.
    + destruct (slide _ _ _ _ _) as [[h' b']|e|]; simpl; by rewrite ?Ep.
    + simpl. by rewrite Ep.
  - destruct (select_session w now s) as [w0|]; [|by left]. right. split_and!; [done..|].
    exists w0. split; [done|]. cbn [touch w_width w_highest w_bits].
    by destruct (slide _ _ _ _ _) as [[h b]|e|].
Qed.

Lemma select_session_cases w now s w0 :
  select_session w now s = Some w0 ->
  w0 = w /\ w_session w = Some s \/
  w0 = reset_to w s /\ w_session w <> Some s /\
    (forall cur, w_session w = Some cur -> adopts w now cur s = true).
Proof.
  unfold select_session. destruct (w_session w) as [cur|] eqn:Ew.
  - destruct (Z.eqb_spec cur s) as [->|Hne]; [intros [= <-]; by left|].
    destruct (adopts w now cur s) eqn:Ea; [intros [= <-]|done]. right.
    split_and!; [done|congruence|]. by intros ? [= <-].
  - intros [= <-]. right. by split_and!.
Qed.

(** How one call moves the remembered sessions: it adds at most [s], and it
    forgets one only when ten others are remembered. *)
Lemma check_and_set_sessions now w s c :
  sess_inv w ->
  let w' := fst (check_and_set now w s c) in
  sess_inv w' /\
  (forall x, x ∈ sessions_of w' -> x = s \/ x ∈ sessions_of w) /\
  ((forall x, x ∈ w_retired w -> x ∈ w_retired w') \/
   (length (sessions_of w) = 10%nat /\ ~ s ∈ sessions_of w)).
Proof.
  intros Hs. cbv zeta. set (w' := fst (check_and_set now w s c)).
  assert (Hsame : forall w0, same_skel w0 w' -> sess_inv w0 ->
    sess_inv w' /\ sessions_of w' = sessions_of w0 /\ w_retired w' = w_retired w0).
  { intros w0 (E1 & E2 & E3 & _) H0. split; [by eapply sess_inv_same|].
    unfold sessions_of. by rewrite E1, E2, E3. }
  destruct (check_and_set_skel now w s c) as [Hsk|(Hp & Hr & w0 & Hsel & Hsk)].
  - destruct (Hsame w Hsk Hs) as (H1 & -> & ->). split; [done|]. split; [by right|by left].
  - destruct (select_session_cases _ _ _ _ Hsel) as [[-> _]|(-> & Hne & _)].
    + destruct (Hsame w Hsk Hs) as (H1 & -> & ->). split; [done|]. split; [by right|by left].
    + pose proof (not_in_sessions w s Hne Hp Hr) as Hnot.
      destruct (reset_to_sessions w s Hs Hnot) as (H1 & H2 & H3).
      destruct (Hsame _ Hsk H1) as (H4 & -> & ->). split; [done|]. split; [done|].
      destruct H3; [by left|by right].
Qed.

Lemma win_new_inv a width G : win_inv G (win_with_adopt a (win_new width)) [].
Proof.
  constructor; cbn.
  - lia.
  - split; [apply Forall_replicate; ufold; lia|apply length_replicate].
  - done.
  - done.
  - intros s c Hc. by apply not_elem_of_nil in Hc.
Qed.

Lemma win_new_sess a width : sess_inv (win_with_adopt a (win_new width)).
Proof.
  constructor; cbn; [apply NoDup_nil_2|unfold RETIRED_KEPT, zlen; simpl; lia|done].
Qed.

(** ** At most once, monotonic sessions *)

Definition below (w : ReplayWindow) (x : Z) : Prop :=
  match w_session w with Some cur => x < cur | None => False end.

Definition mono (w : ReplayWindow) : Prop :=
  w_adopt w = AdoptMonotonic /\
  forall x, x ∈ w_retired w \/ is_prev w x = true -> below w x.

Lemma reset_to_mono w s :
  mono w -> (forall cur, w_session w = Some cur -> cur < s) ->
  mono (reset_to w s) /\ (forall x, below w x -> below (reset_to w s) x).
Proof.
  intros [Ha Hb] Hlt. unfold mono, below, reset_to, is_prev in *.
  destruct (w_session w) as [cur|] eqn:Ew; simpl.
  - specialize (Hlt cur eq_refl). destruct (Z.eqb_spec cur s); [lia|]. simpl.
    split; [split; [done|]|intros; lia].
    intros x [Hx|Hx%Z.eqb_eq]; [|lia].
    destruct (w_prev w) as [[[p h] b]|]; [|specialize (Hb x (or_introl Hx)); lia].
    assert (Hx' : x ∈ w_retired w ++ [p]) by (destruct (_ >? _); [by eapply elem_of_drop|done]).
    apply elem_of_app in Hx' as [Hx'|Hx'%list_elem_of_singleton].
    + specialize (Hb x (or_introl Hx')). lia.
    + subst. assert (p < cur) by (apply Hb; right; apply Z.eqb_refl). lia.
  - split; [split; [done|]|done]. intros x Hx. by destruct (Hb x Hx).
Qed.

Lemma mono_same w w' :
  same_skel w w' -> mono w -> mono w' /\ (forall x, below w x -> below w' x).
Proof.
  intros Hsk [Ha Hb]. pose proof Hsk as (E1 & _ & E3 & E4). unfold mono, below.
  rewrite E1, E3, E4. split; [|done]. split; [done|]. intros x Hx. apply Hb.
  by rewrite <- (same_skel_prev w w').
Qed.

Lemma check_and_set_mono now w s c :
  mono w ->
  mono (fst (check_and_set now w s c)) /\
  (forall x, below w x -> below (fst (check_and_set now w s c)) x) /\
  (w_session w <> Some s -> is_Some (select_session w now s) -> ~ below w s).
Proof.
  intros Hm.
  assert (Hlt : forall cur, w_session w = Some cur -> adopts w now cur s = true -> cur < s).
  { intros cur _. unfold adopts. rewrite (proj1 Hm). destruct (Z.gtb_spec s cur); [lia|done]. }
  match goal with |- ?A /\ ?B /\ ?C => cut ((A /\ B) /\ C); [tauto|] end. split.
  - destruct (check_and_set_skel now w s c) as [Hsk|(_ & _ & w0 & Hsel & Hsk)].
    + by apply mono_same.
    + destruct (select_session_cases _ _ _ _ Hsel) as [[-> _]|(-> & Hne & Had)].
      * by apply mono_same.
      * destruct (reset_to_mono w s Hm) as [Hm0 Hb0]; [eauto|].
        destruct (mono_same _ _ Hsk Hm0) as [H1 H2]. eauto.
  - intros Hne [w0 Hsel]. unfold below.
    destruct (select_session_cases _ _ _ _ Hsel) as [[_ ?]|(_ & _ & Had)]; [done|].
    destruct (w_session w) as [cur|]; [|tauto]. specialize (Hlt cur eq_refl (Had _ eq_refl)). lia.
Qed.

Lemma monotonic_run_inv (width : Z) (evs : list (Z * Z * Z)) :
  Forall (fun '(_, _, c) => 0 <= c) evs ->
  let '(w, acc) := win_run (new_monotonic width) evs [] in
  mono w /\ sess_inv w /\ win_inv (below w) w acc /\ NoDup acc.
Proof.
  intros Hc.
  cut (forall w acc, mono w -> sess_inv w -> win_inv (below w) w acc -> NoDup acc ->
    let '(w', acc') := win_run w evs acc in
    mono w' /\ sess_inv w' /\ win_inv (below w') w' acc' /\ NoDup acc').
  { intros H. apply H.
    - split; [done|]. intros x [Hx%not_elem_of_nil|Hx]; done.
    - apply win_new_sess.
    - apply win_new_inv.
    - apply NoDup_nil_2. }
  induction Hc as [|[[now s] c] evs Hc _ IH]; intros w acc Hm Hs Hinv Hnd; [done|].
  cbn [win_run].
  destruct (check_and_set_mono now w s c Hm) as (Hm' & Hbel & Hfresh).
  destruct (check_and_set_sessions now w s c Hs) as (Hs' & _ & _).
  pose proof (check_and_set_step (below w) w acc now s c Hinv Hc ltac:(eauto)) as Hstep.
  assert (Hdrop : forall x, dropped (below w) w (fst (check_and_set now w s c)) x ->
    below (fst (check_and_set now w s c)) x).
  { intros x [Hx|[Hx _]]; [by apply Hbel|]. apply Hbel. apply Hm. by left. }
  destruct (check_and_set now w s c) as [w' [a|e|]]; simpl in *.
  - destruct Hstep as [Hn Hinv']. apply IH; [done|done| |by constructor].
    by eapply win_inv_weaken.
  - apply IH; [done|done| |done]. by eapply win_inv_weaken.
  - done.
Qed.

(** On a window whose sessions are epochs ([new_monotonic], the one the
    QKC link MAC uses), no (session, counter) pair is ever accepted twice, over
    any sequence of frames, any interleaving of old and new epochs, any loss and
    any reordering, for the whole life of the window. *)
Theorem monotonic_accepts_at_most_once (width : Z) (evs : list (Z * Z * Z))
  (Hc : Forall (fun '(_, _, c) => 0 <= c) evs) :
  NoDup (snd (win_run (new_monotonic width) evs [])).
Proof.
  pose proof (monotonic_run_inv width evs Hc) as H.
  destruct (win_run (new_monotonic width) evs []). apply H.
Qed.

Lemma current_not_retired w s :
  sess_inv w -> w_session w = Some s -> ~ s ∈ w_retired w /\ is_prev w s = false.
Proof.
  intros [Hnd _ _] Hs. unfold sessions_of in Hnd. rewrite Hs in Hnd. simpl in Hnd.
  apply NoDup_cons in Hnd as [Hn _]. unfold is_prev. split; [set_solver|].
  destruct (w_prev w) as [[[p h] b]|]; [|done]. apply Z.eqb_neq. intros ->. simpl in Hn. set_solver.
Qed.

Lemma check_current G w acc now s c :
  win_inv G w acc -> sess_inv w -> w_session w = Some s -> 1 <= c ->
  (snd (check_and_set now w s c) = Ok tt <-> ~ (s, c) ∈ acc /\ w_highest w - c < w_width w).
Proof.
  intros Hinv Hsess Hs Hc. destruct (current_not_retired w s Hsess Hs) as [Hr Hp].
  unfold check_and_set. destruct (Z.eqb_spec c 0); [lia|].
  rewrite bool_decide_eq_false_2, Hp by done. unfold select_session. rewrite Hs, Z.eqb_refl.
  cbn [touch w_width w_highest w_bits].
  pose proof (slide_spec _ _ _ _ s c (inv_width _ _ _ Hinv) (inv_cur _ _ _ Hinv _ Hs) Hc) as Hsl.
  destruct (slide _ _ _ _ _) as [[h b]|[]|]; simpl; unfold seen_in in Hsl; intuition (done || lia).
Qed.

(** The verdict of an epoch window is exact.  After any traffic, a frame of
    the current epoch is accepted if and only if its counter was not accepted
    before and is within [width] of the highest one (so reordering inside the
    window never loses a legitimate frame), and a frame of any newer epoch is
    always accepted. *)
Theorem monotonic_window_exact (width now s c : Z) (evs : list (Z * Z * Z))
  (Hc : Forall (fun '(_, _, c) => 0 <= c) evs) (Hc1 : 1 <= c)
  (Hs : w_session (fst (win_run (new_monotonic width) evs [])) = Some s) :
  let '(w, acc) := win_run (new_monotonic width) evs [] in
  (snd (check_and_set now w s c) = Ok tt <-> ~ (s, c) ∈ acc /\ w_highest w - c < w_width w)
  /\ (forall c', (s, c') ∈ acc -> c' <= w_highest w)
  /\ (forall s', s < s' -> snd (check_and_set now w s' c) = Ok tt).
Proof.
  pose proof (monotonic_run_inv width evs Hc) as H.
  destruct (win_run (new_monotonic width) evs []) as [w acc]. simpl in Hs.
  destruct H as (Hm & Hsess & Hinv & _). split; [|split].
  - by eapply check_current.
  - intros c' Hin. by apply (ok_range _ _ _ _ (inv_cur _ _ _ Hinv _ Hs) c').
  - intros s' Hlt. destruct Hm as [Ha Hb]. unfold below in Hb. rewrite Hs in Hb.
    unfold check_and_set. destruct (Z.eqb_spec c 0); [lia|].
    rewrite bool_decide_eq_false_2 by (intros Hin; specialize (Hb s' (or_introl Hin)); lia).
    destruct (is_prev w s') eqn:Hp; [specialize (Hb s' (or_intror Hp)); lia|].
    unfold select_session, adopts. rewrite Hs, Ha.
    destruct (Z.eqb_spec s s'); [lia|]. destruct (Z.gtb_spec s' s); [|lia].
    assert (Hno : ~ below w s') by (unfold below; rewrite Hs; lia).
    assert (Hr : s' ∉ w_retired w) by (intros Hin; specialize (Hb s' (or_introl Hin)); lia).
    assert (Hinv0 := reset_to_inv (below w) w acc s' Hinv ltac:(congruence) Hp Hr Hno).
    assert (Hs0 : w_session (reset_to w s') = Some s' /\ w_highest (reset_to w s') = 0).
    { unfold reset_to. rewrite Hs. by destruct (s =? s'). }
    destruct Hs0 as [Hs0 Hh0]. cbn [touch w_width w_highest w_bits].
    pose proof (slide_spec _ _ _ _ s' c (inv_width _ _ _ Hinv0) (inv_cur _ _ _ Hinv0 _ Hs0) Hc1) as Hsl.
    pose proof (inv_width _ _ _ Hinv0) as Hw0.
    pose proof (ok_range _ _ _ _ (inv_cur _ _ _ Hinv0 _ Hs0) c) as Hrange. rewrite Hh0 in *.
    destruct (slide _ _ _ _ _) as [[h b]|[]|]; simpl; unfold seen_in in *; intuition (done || lia).
Qed.

(** ** A stream of increasing counters in one session

    The state a receiver is in while its peer keeps one session: nothing retired,
    nothing previous, [h] the highest counter so far. *)
Record stream_at (s h : Z) (w : ReplayWindow) : Prop := {
  sa_width : 64 <= w_width w;
  sa_words : words_ok (w_bits w) /\ length (w_bits w) = n_words (w_width w);
  sa_retired : w_retired w = [];
  sa_prev : w_prev w = None;
  sa_cur : match w_session w with
           | None => 0 <= h
           | Some s' => s' = s /\ w_highest w = h
                        /\ exists H, win_ok H (w_width w) (w_highest w) (w_bits w)
           end;
}.

Lemma stream_at_new a width s : stream_at s 0 (win_with_adopt a (win_new width)).
Proof.
  destruct (win_new_inv a width (fun _ => False)) as [H1 H2 _ _ _]. by constructor.
Qed.

(** A counter above the highest one is accepted, gaps included. *)
Lemma stream_step s h w now c :
  stream_at s h w -> h < c -> 1 <= c ->
  exists w', check_and_set now w s c = (w', Ok tt) /\ stream_at s c w'.
Proof.
  intros [Hw [Hok Hlen] Hr Hp Hcur] Hlt Hc. unfold check_and_set, is_prev. rewrite Hr, Hp.
  destruct (Z.eqb_spec c 0); [lia|]. rewrite bool_decide_eq_false_2 by apply not_elem_of_nil.
  assert (Hsel : exists w0 H, select_session w now s = Some w0 /\ w_width w0 = w_width w
    /\ w_retired w0 = [] /\ w_prev w0 = None /\ w_session w0 = Some s /\ w_highest w0 < c
    /\ win_ok H (w_width w0) (w_highest w0) (w_bits w0)).
  { unfold select_session. destruct (w_session w) as [s'|] eqn:Es.
    - destruct Hcur as (-> & Hh & H & Hwin). rewrite Z.eqb_refl. exists w, H. rewrite Hh in *.
      split_and!; done.
    - eexists _, (seen_in [] s). split; [done|]. unfold reset_to. rewrite Es, Hr, Hp. cbn.
      split_and!; try done; [lia|]. apply win_ok_fresh; [done..|]. intros x. apply not_elem_of_nil. }
  destruct Hsel as (w0 & H & -> & Ew & Er & Ep & Es & Eh & Hwin).
  cbn [touch w_width w_highest w_bits].
  assert (Hw0 : 64 <= w_width w0) by lia.
  pose proof (slide_spec _ _ _ _ s c Hw0 Hwin Hc) as Hsl.
  pose proof (ok_range _ _ _ _ Hwin c) as Hrange.
  destruct (slide _ _ _ _ _) as [[h' b]|[]|]; try (exfalso; intuition lia).
  destruct Hsl as (_ & _ & -> & Hwin'). eexists. split; [done|].
  rewrite Z.max_r in * by lia.
  constructor; cbn; [lia|split; apply Hwin'|done|done|].
  rewrite Es. split_and!; eauto.
Qed.

(** ** At most once, any session policy *)

Lemma nodup_size (l : list Z) (X : gset Z) :
  NoDup l -> (forall x, x ∈ l -> x ∈ X) -> (length l <= size X)%nat.
Proof.
  intros Hnd Hsub. rewrite <- (size_list_to_set (C := gset Z) l) by done.
  apply subseteq_size. intros x Hx%elem_of_list_to_set. by apply Hsub.
Qed.

(** No pair is accepted twice while the window has seen at most ten sessions. *)
Lemma win_run_nodup (a : SessionAdopt) (width : Z) (evs : list (Z * Z * Z))
  (Hc : Forall (fun '(_, _, c) => 0 <= c) evs)
  (Hten : (size (list_to_set (map (fun '(_, s, _) => s) evs) : gset Z) <= 10)%nat) :
  NoDup (snd (win_run (win_with_adopt a (win_new width)) evs [])).
Proof.
  set (X := list_to_set (map (fun '(_, s, _) => s) evs) : gset Z) in *.
  assert (HX : Forall (fun '(_, s, _) => s ∈ X) evs).
  { apply Forall_forall. intros [[now s] c] Hin. unfold X.
    apply elem_of_list_to_set, list_elem_of_fmap. by exists (now, s, c). }
  clearbody X.
  cut (forall w acc, sess_inv w -> (forall x, x ∈ sessions_of w -> x ∈ X) ->
    win_inv (fun _ => False) w acc -> NoDup acc -> NoDup (snd (win_run w evs acc))).
  { intros H. apply H; [apply win_new_sess| |apply win_new_inv|apply NoDup_nil_2].
    intros x Hx. by apply not_elem_of_nil in Hx. }
  induction evs as [|[[now s] c] evs IH]; intros w acc Hs HsX Hinv Hnd; [done|].
  cbn [win_run]. inversion_clear Hc as [|? ? Hc0 Hcs]. inversion_clear HX as [|? ? Hx0 HXs].
  destruct (check_and_set_sessions now w s c Hs) as (Hs' & Hsub & Hkeep).
  pose proof (check_and_set_step (fun _ => False) w acc now s c Hinv Hc0 ltac:(tauto)) as Hstep.
  assert (Hnodrop : forall x, x ∈ w_retired w -> x ∈ w_retired (fst (check_and_set now w s c))).
  { destruct Hkeep as [|[Hlen Hnot]]; [done|]. exfalso.
    assert (Hnd11 : NoDup (s :: sessions_of w)) by (constructor; [done|apply Hs]).
    pose proof (nodup_size _ X Hnd11 ltac:(set_solver)) as Hsz. simpl in Hsz. lia. }
  assert (HsX' : forall x, x ∈ sessions_of (fst (check_and_set now w s c)) -> x ∈ X).
  { intros x Hx. destruct (Hsub x Hx) as [->|]; auto. }
  assert (Hweak : forall acc', win_inv (dropped (fun _ => False) w (fst (check_and_set now w s c)))
      (fst (check_and_set now w s c)) acc' ->
    win_inv (fun _ => False) (fst (check_and_set now w s c)) acc').
  { intros acc'. apply win_inv_weaken. intros x [[]|[Hx Hx']]. auto. }
  destruct (check_and_set now w s c) as [w' [u|e|]]; simpl in *.
  - destruct Hstep as [Hn Hinv']. apply IH; auto. by constructor.
  - apply IH; auto.
  - done.
Qed.

(** Whatever the session policy, no (session, counter) pair is accepted
    twice as long as the link has seen at most ten sessions ([RETIRED_KEPT]
    retired ones, the previous and the current). *)
Theorem accepts_at_most_once (a : SessionAdopt) (width : Z) (evs : list (Z * Z * Z))
  (Hc : Forall (fun '(_, _, c) => 0 <= c) evs)
  (Hten : (size (list_to_set (map (fun '(_, s, _) => s) evs) : gset Z) <= 10)%nat) :
  NoDup (snd (win_run (win_with_adopt a (win_new width)) evs [])).
Proof. by apply win_run_nodup. Qed.

(** ** The clock of a quiet-gated window

    [last_accept] is documented as the last frame accepted in the current
    session; the code sets it before the counter test, so a frame that is then
    refused as a replay moves it too. *)

(** On a quiet-gated window (fixed PSK root) a refused replay of the current
    session still restarts the quiet period: until [quiet] has passed since that
    refused frame, a restarted peer's new session is turned away. *)
Theorem refused_replay_delays_adoption (w w' : ReplayWindow) (now now' cur s' c c' : Z)
  (e : ReplayError) (Ha : w_adopt w = AdoptAfterQuiet) (Hcur : w_session w = Some cur)
  (Hsess : sess_inv w) (Hc : c <> 0) (Hc' : c' <> 0)
  (Hrej : check_and_set now w cur c = (w', Err e))
  (Hnew : ~ s' ∈ sessions_of w) (Ht : now <= now' < now + w_quiet w) :
  w_last_accept w' = Some now /\
  check_and_set now' w' s' c' = (w', Err (RetiredSession s')).
Proof.
  destruct (current_not_retired w cur Hsess Hcur) as [Hr Hp].
  unfold check_and_set in Hrej. destruct (Z.eqb_spec c 0); [done|].
  rewrite bool_decide_eq_false_2, Hp in Hrej by done.
  unfold select_session in Hrej. rewrite Hcur, Z.eqb_refl in Hrej.
  destruct (slide _ _ _ _ _) as [[h b]|e'|]; [done| |done]. injection Hrej as <- <-.
  split; [done|]. unfold sessions_of in Hnew. rewrite Hcur in Hnew. simpl in Hnew.
  unfold check_and_set, select_session, adopts, is_prev. cbn.
  destruct (Z.eqb_spec c' 0); [done|]. rewrite bool_decide_eq_false_2 by set_solver.
  replace (match w_prev w with Some (p, _, _) => p =? s' | None => false end) with false.
  2:{ destruct (w_prev w) as [[[p h] b]|]; [|done]. symmetry. apply Z.eqb_neq.
      intros ->. simpl in Hnew. set_solver. }
  rewrite Hcur, Ha. destruct (Z.eqb_spec cur s') as [->|]; [set_solver|].
  unfold sat_sub. destruct (Z.geb_spec (Z.max 0 (now' - now)) (w_quiet w)); [lia|done].
Qed.

(** ** Witnesses *)

Definition sample_traffic : list (Z * Z * Z) :=
  [(0, 3, 1); (1, 3, 5); (2, 3, 2); (3, 3, 5); (4, 4, 1); (5, 3, 6); (6, 3, 2); (7, 2, 9)].

Example sample_run :
  snd (win_run (new_monotonic 64) sample_traffic []) = [(3, 6); (4, 1); (3, 2); (3, 5); (3, 1)].
Proof. reflexivity. Qed.

Lemma monotonic_accepts_at_most_once_witness :
  NoDup (snd (win_run (new_monotonic 64) sample_traffic [])).
Proof. apply monotonic_accepts_at_most_once. repeat constructor; lia. Defined.

Lemma accepts_at_most_once_witness :
  NoDup (snd (win_run (win_with_adopt AdoptAny (win_new 64)) sample_traffic [])).
Proof. apply accepts_at_most_once; [repeat constructor; lia|vm_compute; lia]. Defined.

Lemma monotonic_window_exact_witness :
  snd (check_and_set 9 (fst (win_run (new_monotonic 64) sample_traffic [])) 7 1) = Ok tt.
Proof.
  pose proof (monotonic_window_exact 64 9 4 1 sample_traffic) as H.
  destruct (win_run (new_monotonic 64) sample_traffic []) as [w acc] eqn:E.
  assert (Hw : w_session w = Some 4) by (vm_compute in E; injection E as <- <-; reflexivity).
  apply H; [repeat constructor; lia|lia|exact Hw|lia].
Defined.

(** Ten sessions is the exact bound: with an eleventh, the first one is
    forgotten and a captured frame of it is accepted again. *)
Example eleventh_session_readmits_the_first :
  snd (win_run (win_with_adopt AdoptAny (win_new 64))
    (map (fun s => (0, s, 1)) [1; 2; 3; 4; 5; 6; 7; 8; 9; 10; 11; 1]) [])
  = map (fun s => (s, 1)) [1; 11; 10; 9; 8; 7; 6; 5; 4; 3; 2; 1].
Proof. reflexivity. Qed.

Definition quiet_sample : ReplayWindow := fst (check_and_set 0 (new_quiet_gated 64) 5 1).

Lemma refused_replay_delays_adoption_witness :
  check_and_set 10000000000 (fst (check_and_set 9000000000 quiet_sample 5 1)) 6 1
    = (fst (check_and_set 9000000000 quiet_sample 5 1), Err (RetiredSession 6))
  /\ snd (check_and_set 10000000000 quiet_sample 6 1) = Ok tt.
Proof.
  split; [|vm_compute; reflexivity].
  apply (refused_replay_delays_adoption quiet_sample _ 9000000000 10000000000 5 6 1 1 (Replayed 5 1));
    try (vm_compute; reflexivity || discriminate || intuition discriminate).
  - constructor; [|vm_compute; discriminate|discriminate].
    vm_compute. apply NoDup_singleton.
  - vm_compute. intros H. inversion H as [|? ? ? H']. inversion H'.
Defined.
