(* ===== verification/FrameMac.v ===== *)
(** * The MAC of link frames (common/src/crypto/frame_mac.rs, first half)

    The bytes a frame MAC covers, its tag and its verification.

    - [FrameAad] is the struct of the authenticated fields.
    - [canonical] is the message [build] feeds to HMAC-SHA256, field by field;
      [None] is the panic of the [assert!] in [write_lp16].
    - [MacCrypto] is the interface to the cryptographic crates ([hmac], [hkdf],
      [sha2]), which are not part of this repository: functions, with their
      documented output length.

    The theorem: the canonical message is injective, so a tag binds every field
    of the frame and no boundary between two fields can move. *)

From Stdlib Require Import ZArith Lia.
From S2P Require Import Prelude Wire.

Class MacCrypto := {
  hmac_sha256 : bytes -> bytes -> bytes;
  (** [hkdf_sha256 salt ikm info len]. *)
  hkdf_sha256 : bytes -> bytes -> bytes -> nat -> bytes;
  hmac_length : forall k m, zlen (hmac_sha256 k m) = 32;
  hmac_wf : forall k m, wf_bytes (hmac_sha256 k m);
  (** One [expand] yields the requested length up to 255 blocks of 32 bytes (RFC 5869). *)
  hkdf_length : forall salt ikm info n, (n <= 255 * 32)%nat ->
    length (hkdf_sha256 salt ikm info n) = n;
}.

(** b"QKCFRAME" and b"dkms/link-mac/frame/v1". *)
Definition TAG_FRAME : bytes := [0x51; 0x4B; 0x43; 0x46; 0x52; 0x41; 0x4D; 0x45].
Definition HKDF_INFO : bytes :=
  [0x64; 0x6B; 0x6D; 0x73; 0x2F; 0x6C; 0x69; 0x6E; 0x6B; 0x2D; 0x6D; 0x61; 0x63; 0x2F;
   0x66; 0x72; 0x61; 0x6D; 0x65; 0x2F; 0x76; 0x31].
Definition TAG_LEN : Z := 32.

Inductive MacError := MacInvalid.

Record FrameAad := mkAad {
  a_kind : Z;
  a_grade : Z;
  a_session : Z;
  a_counter : Z;
  a_sender_id : Z;
  a_receiver_id : Z;
  a_dest_final : Z;
  a_key_size_bits : Z;
  a_epoch_id : Z;
  a_key_ids : list bytes;
  a_header_orr_mp : bytes;
  a_header_dkms_mp : bytes;
  a_body : bytes;
}.

Definition write_lp16 (x : bytes) : option bytes :=
  if zlen x <=? 65535 then Some (be_bytes 2 (as_u 16 (zlen x)) ++ x) else None.

Fixpoint write_lp16s (xs : list bytes) : option bytes :=
  match xs with
  | [] => Some []
  | x :: xs => h ← write_lp16 x; t ← write_lp16s xs; Some (h ++ t)
  end.

(** The message of [build]. *)
Definition canonical (a : FrameAad) : option bytes :=
  ids ← write_lp16s (a_key_ids a);
  ho ← write_lp16 (a_header_orr_mp a);
  hd ← write_lp16 (a_header_dkms_mp a);
  Some (TAG_FRAME ++ [a_kind a; a_grade a]
    ++ be_bytes 8 (a_session a) ++ be_bytes 8 (a_counter a)
    ++ be_bytes 4 (a_sender_id a) ++ be_bytes 4 (a_receiver_id a)
    ++ be_bytes 4 (a_dest_final a) ++ be_bytes 2 (a_key_size_bits a)
    ++ be_bytes 4 (a_epoch_id a)
    ++ be_bytes 4 (as_u 32 (zlen (a_key_ids a))) ++ ids ++ ho ++ hd
    ++ be_bytes 4 (as_u 32 (zlen (a_body a))) ++ a_body a).

Section Mac.
Context `{MacCrypto}.

Definition derive_key (root : bytes) (session : Z) : bytes :=
  hkdf_sha256 (be_bytes 8 session) root HKDF_INFO 32.

Definition mac_tag (key : bytes) (a : FrameAad) : option bytes :=
  hmac_sha256 key <$> canonical a.

(** [Mac::verify_slice]: the constant-time comparison with the expected tag. *)
Definition mac_verify (key : bytes) (a : FrameAad) (mac : bytes) : res MacError unit :=
  match canonical a with
  | None => Panic
  | Some m => if bool_decide (hmac_sha256 key m = mac) then Ok tt else Err MacInvalid
  end.
End Mac.

(** The ranges of the Rust types, and the [u32] counts exact (a frame is capped
    at 1 MiB by the wire). *)
Record wf_aad (a : FrameAad) : Prop := {
  wa_session : is_u 64 (a_session a);
  wa_counter : is_u 64 (a_counter a);
  wa_sender : is_u 32 (a_sender_id a);
  wa_receiver : is_u 32 (a_receiver_id a);
  wa_dest : is_u 32 (a_dest_final a);
  wa_bits : is_u 16 (a_key_size_bits a);
  wa_epoch : is_u 32 (a_epoch_id a);
  wa_ids : zlen (a_key_ids a) < 2 ^ 32;
  wa_body : zlen (a_body a) < 2 ^ 32;
}.

(** ** Injectivity *)

Lemma be_app_inj n x y s t :
  0 <= x < 256 ^ Z.of_nat n -> 0 <= y < 256 ^ Z.of_nat n ->
  be_bytes n x ++ s = be_bytes n y ++ t -> x = y /\ s = t.
Proof.
  intros Hx Hy He. apply app_inj_length in He as [He ->]; [|by rewrite !length_be_bytes].
  split; [|done]. by eapply be_bytes_inj.
Qed.

Lemma write_lp16_inv x e : write_lp16 x = Some e -> zlen x <= 65535 /\ e = be_bytes 2 (zlen x) ++ x.
Proof.
  unfold write_lp16. destruct (Z.leb_spec (zlen x) 65535); intros [= <-].
  split; [done|]. rewrite as_u_small; [done|]. pose proof (zlen_nonneg x). ufold. lia.
Qed.

Lemma lp16_app_inj x y ex ey s t :
  write_lp16 x = Some ex -> write_lp16 y = Some ey -> ex ++ s = ey ++ t -> x = y /\ s = t.
Proof.
  intros [Hx ->]%write_lp16_inv [Hy ->]%write_lp16_inv He. rewrite <- !app_assoc in He.
  pose proof (zlen_nonneg x). pose proof (zlen_nonneg y).
  apply be_app_inj in He as [Hl He]; [|simpl; lia..].
  apply app_inj_length in He; [done|]. unfold zlen in Hl. lia.
Qed.

Lemma lp16s_app_inj xs ys ex ey s t :
  length xs = length ys ->
  write_lp16s xs = Some ex -> write_lp16s ys = Some ey -> ex ++ s = ey ++ t -> xs = ys /\ s = t.
Proof.
  revert ys ex ey. induction xs as [|x xs IH]; intros [|y ys] ex ey Hl Hx Hy He;
    simpl in *; simplify_eq; [done|].
  destruct (write_lp16 x) as [hx|] eqn:Ehx; [|done].
  destruct (write_lp16s xs) as [tx|] eqn:Etx; [|done].
  destruct (write_lp16 y) as [hy|] eqn:Ehy; [|done].
  destruct (write_lp16s ys) as [ty|] eqn:Ety; [|done]. simpl in *. simplify_eq.
  rewrite <- !app_assoc in He.
  destruct (lp16_app_inj _ _ _ _ _ _ Ehx Ehy He) as [-> He'].
  destruct (IH ys tx ty Hl eq_refl Ety He') as [-> ->]. done.
Qed.

Lemma canonical_inj (a b : FrameAad) (m : bytes) :
  wf_aad a -> wf_aad b -> canonical a = Some m -> canonical b = Some m -> a = b.
Proof.
  intros Ha Hb Hma Hmb.
  destruct a as [k1 g1 s1 c1 sn1 rc1 ds1 kb1 ep1 ids1 ho1 hd1 bd1],
    b as [k2 g2 s2 c2 sn2 rc2 ds2 kb2 ep2 ids2 ho2 hd2 bd2].
  unfold canonical in *. cbn [a_kind a_grade a_session a_counter a_sender_id a_receiver_id a_dest_final a_key_size_bits
    a_epoch_id a_key_ids a_header_orr_mp a_header_dkms_mp a_body] in *.
  destruct (write_lp16s ids1) as [e1|] eqn:E1; [|done].
  destruct (write_lp16 ho1) as [o1|] eqn:O1; [|done].
  destruct (write_lp16 hd1) as [d1|] eqn:D1; [|done].
  destruct (write_lp16s ids2) as [e2|] eqn:E2; [|done].
  destruct (write_lp16 ho2) as [o2|] eqn:O2; [|done].
  destruct (write_lp16 hd2) as [d2|] eqn:D2; [|done].
  rewrite <- Hmb in Hma. clear Hmb. cbn [mbind option_bind] in Hma. apply (inj Some) in Hma.
  apply app_inj_length in Hma as [_ Hma]; [|done].
  apply app_inj_length in Hma as [Hkg He]; [|done]. injection Hkg as -> ->.
  destruct Ha, Hb. cbn [a_kind a_grade a_session a_counter a_sender_id a_receiver_id a_dest_final a_key_size_bits
    a_epoch_id a_key_ids a_header_orr_mp a_header_dkms_mp a_body] in *. ufold.
  rewrite (as_u_small 32 (zlen ids1)), (as_u_small 32 (zlen bd1)),
    (as_u_small 32 (zlen ids2)), (as_u_small 32 (zlen bd2)) in He
    by (ufold; split; auto with rust; lia).
  pose proof (zlen_nonneg ids1). pose proof (zlen_nonneg ids2).
  pose proof (zlen_nonneg bd1). pose proof (zlen_nonneg bd2).
  do 7 (apply be_app_inj in He as [-> He]; [|simpl; lia..]).
  apply be_app_inj in He as [Hn He]; [|simpl; lia..].
  apply (lp16s_app_inj ids1 ids2 e1 e2) in He as [-> He]; [|unfold zlen in Hn; lia|done|done].
  apply (lp16_app_inj _ _ _ _ _ _ O1 O2) in He as [-> He].
  apply (lp16_app_inj _ _ _ _ _ _ D1 D2) in He as [-> He].
  apply be_app_inj in He as [_ ->]; [|simpl; lia..]. done.
Qed.

(** The authenticated message determines the frame.  Two well-formed sets
    of fields whose canonical encodings are equal are equal field by field: no
    identity, header, key id, length or ciphertext byte is outside the MAC, and
    no boundary between neighbouring fields can be moved. *)
Theorem canonical_injective (a b : FrameAad) (m : bytes)
  (Ha : wf_aad a) (Hb : wf_aad b) (Hma : canonical a = Some m) (Hmb : canonical b = Some m) :
  a = b.
Proof. by eapply canonical_inj. Qed.

(** [canonical] does not panic on a frame the wire can carry. *)
Lemma canonical_total a :
  Forall (fun k => zlen k <= 65535) (a_key_ids a) ->
  zlen (a_header_orr_mp a) <= 65535 -> zlen (a_header_dkms_mp a) <= 65535 ->
  exists m, canonical a = Some m.
Proof.
  intros Hids Ho Hd. unfold canonical.
  assert (Hw : exists e, write_lp16s (a_key_ids a) = Some e).
  { induction Hids as [|k ks Hk _ [e IH]]; [by eexists|]. simpl. unfold write_lp16.
    destruct (Z.leb_spec (zlen k) 65535); [|lia]. simpl. rewrite IH. simpl. eauto. }
  destruct Hw as [e ->]. unfold write_lp16.
  destruct (Z.leb_spec (zlen (a_header_orr_mp a)) 65535); [|lia].
  destruct (Z.leb_spec (zlen (a_header_dkms_mp a)) 65535); [|lia]. simpl. eauto.
Qed.

(** ** A concrete instance of the interface *)

(** A keyed checksum with the interface's output length; it stands for no
    cryptography, it only makes the interface executable. *)
Definition toy_mac (k m : bytes) : bytes :=
  replicate 32 ((le_val (k ++ m) + 31 * zlen m) mod 251).

#[export] Instance toy_crypto : MacCrypto.
Proof.
  refine {| hmac_sha256 := toy_mac; hkdf_sha256 salt ikm info n := le_bytes n (le_val (salt ++ ikm ++ info)) |}.
  - intros k m. unfold zlen, toy_mac. by rewrite length_replicate.
  - intros k m. unfold wf_bytes, toy_mac. apply Forall_replicate. unfold is_u8.
    pose proof (Z.mod_pos_bound (le_val (k ++ m) + 31 * zlen m) 251). lia.
  - intros. apply length_le_bytes.
Defined.

Definition sample_aad : FrameAad :=
  mkAad FRAME_RELAY_AUTH 1 5 6 7 9 11 256 3 [[0x61]; [0x62; 0x63]] [1; 2] [] [9; 9].

Lemma canonical_injective_witness :
  sample_aad = mkAad 5 1 5 6 (3 + 4) 9 11 256 3 [[0x61]; take 2 [0x62; 0x63; 0]] [1; 2] [] [9; 9].
Proof.
  apply (canonical_injective _ _ (default [] (canonical sample_aad))); try reflexivity;
    constructor; vm_compute; intuition discriminate.
Defined.
