(* ===== verification/QkcTypes.v ===== *)
(** * Types the QKC components share

    [OtpKey] (qkc/src/kme.rs), the crate's error type [QkcError]
    (qkc/src/error.rs) with the [FrameAuthError] it wraps
    (qkc/src/frame_auth.rs), and the buffer constant two components use.  The
    variants of [QkcError] that carry a third-party error (io, http, etsi,
    anyhow) are raised by the network code only and are left out; the text of a
    message is left out, the payload a caller can branch on is kept. *)

From Stdlib Require Import ZArith.
From S2P Require Import Prelude Wire ReplayWindow.

Record OtpKey := mkKey { key_id : bytes; material : bytes }.

Inductive FrameAuthError :=
  | AuthTruncated
  | BadMac
  | AuthReplay (e : ReplayError)
  | PlaintextRejected.

(** What a [KeyWaitTimeout] was waiting for. *)
Inductive wait_what := WaitPqcSecret | WaitEnc | WaitDec | WaitDecUnannounced.

Inductive QkcError :=
  | BadRequest
  | NoRoute (dest : Z)
  | UnknownNeighbor (n : Z)
  | FrameAuthErr (e : FrameAuthError)
  | NotEnoughKeys (requested received : Z)
  | KeyWaitTimeout (what : wait_what) (missing ms : Z)
  | Quditto
  | WireErr (e : WireError).

(** [keystore::BUFFER_TARGET]. *)
Definition BUFFER_TARGET : Z := 2048.

#[export] Instance OtpKey_eq_dec : EqDecision OtpKey.
Proof. solve_decision. Defined.
