(* ===== verification/SecretStore.v ===== *)
(** * The PQC key source of a link (qkc/src/pqc_source.rs)

    A [pqc] link has no KME: both ends hold one ML-KEM secret per epoch and
    derive every OTP key from the secret of the epoch written in the first four
    bytes of the key id.

    - [SecretStore] is the struct: the ordered map of epoch secrets (a [gmap],
      with [lowest] and [highest] for the ends of the [BTreeMap]), the window
      size and the pending resync epoch.
    - [ss_insert], [ss_replace], [prune_below], [request_resync],
      [resync_requested] are its operations; [enc_keys] and [dec_keys] those of
      [PqcKeySource].
    - An [await_epoch] on an absent epoch ends with the secret that arrived in
      time or with a timeout; [wait] is that outcome, decided by the handshake.

    The theorems: the window keeps the highest epochs and never overwrites one,
    it covers every epoch the ENC ring can still hold, the two ends of a link
    derive the same keys, and one undecipherable id never costs the others. *)

From Stdlib Require Import ZArith Lia.
From S2P Require Import Prelude Wire FrameMac ReplayWindow QkcTypes.

(** b"qkc.pqc.v1" *)
Definition QKC_PQC_SALT : bytes := [0x71; 0x6B; 0x63; 0x2E; 0x70; 0x71; 0x63; 0x2E; 0x76; 0x31].
Definition HKDF_MAX_OUTPUT : nat := 255 * 32.
Definition SECRET_WAIT_MS : Z := 10000.

(** ** Derivation *)

Section Derive.
Context `{MacCrypto}.

(** The chunk loop of [derive_material]: [off] bytes done, chunk [idx] next.
    The [while] runs at most [len] times. *)
Fixpoint derive_loop (fuel : nat) (secret key_id : bytes) (len off : nat) (idx : Z) : bytes :=
  match fuel with
  | O => []
  | S fuel =>
      if (off <? len)%nat then
        let take_ := Nat.min (len - off) HKDF_MAX_OUTPUT in
        let info := key_id ++ be_bytes 4 (as_u 32 (Z.of_nat len)) ++ be_bytes 4 idx in
        hkdf_sha256 QKC_PQC_SALT secret info take_
          ++ derive_loop fuel secret key_id len (off + take_) (idx + 1)
      else []
  end.

Definition derive_material (secret key_id : bytes) (len : nat) : bytes :=
  derive_loop len secret key_id len 0 0.
End Derive.

Definition epoch_of (key_id : bytes) : Z := be_val (take 4 key_id).

(** [make_key_id]: [r] is the fresh UUID v4. *)
Definition make_key_id (epoch : Z) (r : bytes) : bytes := be_bytes 4 epoch ++ drop 4 r.

(** ** SecretStore *)

Record SecretStore := mkStore {
  ss_inner : gmap Z bytes;
  ss_keep : nat;
  ss_resync_epoch : Z;
}.

Definition map_lowest (m : gmap Z bytes) : option Z :=
  map_fold (fun k _ acc => Some (match acc with Some a => Z.min a k | None => k end)) None m.
Definition map_highest (m : gmap Z bytes) : option Z :=
  map_fold (fun k _ acc => Some (match acc with Some a => Z.max a k | None => k end)) None m.

Definition ss_new (lookahead rekey_keys : Z) : SecretStore :=
  let enc_cap := BUFFER_TARGET * 2 in
  let span := if rekey_keys =? 0 then 1 else (enc_cap + rekey_keys - 1) / rekey_keys + 2 in
  mkStore ∅ (Z.to_nat (lookahead + 1 + span)) 0.

(** [while m.len() > self.keep { remove the lowest }]: at most [size m] turns. *)
Fixpoint evict (fuel keep : nat) (m : gmap Z bytes) : gmap Z bytes :=
  match fuel with
  | O => m
  | S fuel =>
      if (keep <? size m)%nat then
        match map_lowest m with
        | Some lo => evict fuel keep (delete lo m)
        | None => m
        end
      else m
  end.

Definition with_inner (st : SecretStore) (m : gmap Z bytes) : SecretStore :=
  mkStore m (ss_keep st) (ss_resync_epoch st).

Definition ss_insert (st : SecretStore) (epoch : Z) (secret : bytes) : SecretStore :=
  match ss_inner st !! epoch with
  | Some _ => st
  | None =>
      let m := <[epoch := secret]> (ss_inner st) in
      with_inner st (evict (size m) (ss_keep st) m)
  end.

Definition ss_replace (st : SecretStore) (epoch : Z) (secret : bytes) : SecretStore :=
  let m := <[epoch := secret]> (ss_inner st) in
  with_inner st (evict (size m) (ss_keep st) m).

(** [prune_below]: the store and how many epochs were dropped. *)
Definition prune_below (st : SecretStore) (epoch : Z) : SecretStore * nat :=
  let kept := filter (fun '(e, _) => epoch <= e) (ss_inner st) in
  (with_inner st kept, size (ss_inner st) - size kept)%nat.

Definition ss_get (st : SecretStore) (epoch : Z) : option bytes := ss_inner st !! epoch.
Definition ss_contains (st : SecretStore) (epoch : Z) : bool :=
  match ss_inner st !! epoch with Some _ => true | None => false end.
Definition ss_highest (st : SecretStore) : option Z := map_highest (ss_inner st).
Definition ss_lowest (st : SecretStore) : option Z := map_lowest (ss_inner st).

Definition request_resync (st : SecretStore) (epoch : Z) : SecretStore :=
  mkStore (ss_inner st) (ss_keep st) (Z.max (ss_resync_epoch st) epoch).

(** One poll of [resync_requested]: the pending epoch is taken, or the future
    keeps waiting ([None]). *)
Definition resync_requested (st : SecretStore) : SecretStore * option Z :=
  let pending := ss_resync_epoch st in
  (mkStore (ss_inner st) (ss_keep st) 0, if pending >? 0 then Some pending else None).

(** ** RekeyClock *)

(** [ck_permit] is the permit [Notify::notify_one] stores until the rotation
    loop takes it. *)
Record RekeyClock := mkClock { ck_n : Z; ck_counter : Z; ck_permit : bool }.

Definition clock_new (rekey_keys : Z) : RekeyClock := mkClock rekey_keys 0 false.
Definition is_volume_disabled (ck : RekeyClock) : bool := ck_n ck =? 0.

(** [tick]: the counter is a wrapping [AtomicU64], the addition in the test is
    checked. *)
Definition clock_tick (ck : RekeyClock) (num : Z) : res QkcError RekeyClock :=
  if ck_n ck =? 0 then Ok ck else
  let before := ck_counter ck in
  if before + num >? u_max 64 then Panic else
  Ok (mkClock (ck_n ck) (as_u 64 (before + num))
        (if negb (before / ck_n ck =? (before + num) / ck_n ck) then true else ck_permit ck)).

(** ** PqcKeySource *)

Record PqcKeySource := mkSource {
  ps_key_bytes : nat;
  ps_lookahead : Z;
  ps_clock : option RekeyClock;
}.

Definition source_new (key_size_bits lookahead : Z) (clock : option RekeyClock) : PqcKeySource :=
  mkSource (Z.to_nat (key_size_bits / 8)) lookahead clock.

Definition active_epoch (ps : PqcKeySource) (st : SecretStore) (highest : Z) : Z :=
  let target := sat_sub highest (ps_lookahead ps) in
  match ss_lowest st with
  | Some lo => if lo >? target then lo else target
  | None => target
  end.

Definition timeout_err : QkcError := KeyWaitTimeout WaitPqcSecret 1 SECRET_WAIT_MS.

(** The tail of [enc_keys]: the clock of the initiator counts the keys. *)
Definition source_tick (ps : PqcKeySource) (num : Z) : res QkcError PqcKeySource :=
  match ps_clock ps with
  | None => Ok ps
  | Some c =>
      let* c' := clock_tick c num in
      Ok (mkSource (ps_key_bytes ps) (ps_lookahead ps) (Some c'))
  end.

Definition set_max (X : gset Z) : option Z :=
  set_fold (fun k acc => Some (match acc with Some a => Z.max a k | None => k end)) None X.

Section Source.
Context `{MacCrypto}.

(** [await_epoch]: at once when the epoch is there; else [wait e] is the
    secret the handshake installed before the deadline, or [None]. *)
Definition await_epoch (st : SecretStore) (wait : Z -> option bytes) (e : Z)
    : res QkcError bytes :=
  match ss_get st e with
  | Some s => Ok s
  | None => match wait e with Some s => Ok s | None => Err timeout_err end
  end.

(** [await_any], with [any] the highest epoch that arrives in time. *)
Definition await_any (st : SecretStore) (any : option Z) : res QkcError Z :=
  match ss_highest st with
  | Some h => Ok h
  | None => match any with Some h => Ok h | None => Err timeout_err end
  end.

Definition otp_key (ps : PqcKeySource) (secret id : bytes) : OtpKey :=
  mkKey id (derive_material secret id (ps_key_bytes ps)).

(** [enc_keys]: [rs] are the fresh UUIDs, one per requested key. *)
Definition enc_keys (ps : PqcKeySource) (st : SecretStore) (any : option Z)
    (wait : Z -> option bytes) (rs : list bytes)
    : res QkcError (list OtpKey * PqcKeySource) :=
  if zlen rs =? 0 then Ok ([], ps) else
  let* highest := match ss_highest st with Some h => Ok h | None => await_any st any end in
  let epoch := active_epoch ps st highest in
  let* secret := await_epoch st wait epoch in
  let out := map (fun r => otp_key ps secret (make_key_id epoch r)) rs in
  let* ps' := source_tick ps (zlen rs) in
  Ok (out, ps').

(** The loop of [dec_keys]: the derived keys and the epochs that timed out in
    this batch. *)
Fixpoint dec_loop (ps : PqcKeySource) (st : SecretStore) (wait : Z -> option bytes)
    (floor : option Z) (ids : list bytes) (dead : gset Z) : list OtpKey * gset Z :=
  match ids with
  | [] => ([], dead)
  | id :: ids =>
      let epoch := epoch_of id in
      let stale := match floor with Some lo => epoch <? lo | None => false end in
      if stale then dec_loop ps st wait floor ids dead
      else if bool_decide (epoch ∈ dead) then dec_loop ps st wait floor ids dead
      else
        match await_epoch st wait epoch with
        | Ok secret =>
            let '(out, dead) := dec_loop ps st wait floor ids dead in
            (otp_key ps secret id :: out, dead)
        | _ => dec_loop ps st wait floor ids ({[epoch]} ∪ dead)
        end
  end.

(** [dec_keys]: never an error; the store carries the resync request. *)
Definition dec_keys (ps : PqcKeySource) (st : SecretStore) (wait : Z -> option bytes)
    (ids : list bytes) : list OtpKey * SecretStore :=
  if zlen ids =? 0 then ([], st) else
  let '(out, dead) := dec_loop ps st wait (ss_lowest st) ids ∅ in
  (out, match set_max dead with Some e => request_resync st e | None => st end).
End Source.

(** ** The ends of the map *)

Lemma map_lowest_spec m :
  match map_lowest m with
  | Some k => is_Some (m !! k) /\ forall e, is_Some (m !! e) -> k <= e
  | None => m = ∅
  end.
Proof.
  unfold map_lowest. apply (map_fold_weak_ind (fun r m => match r with
    | Some k => is_Some (m !! k) /\ forall e, is_Some (m !! e) -> k <= e
    | None => m = ∅ end)); [done|].
  intros i x m' [a|] Hi IH; simpl.
  - destruct IH as [Ha Hmin]. split.
    + destruct (Z.min_spec a i) as [[_ ->]|[_ ->]].
      * apply lookup_insert_is_Some. by destruct (decide (i = a)); [left|right].
      * rewrite lookup_insert_eq. by eexists.
    + intros e [->|[_ He]]%lookup_insert_is_Some; [lia|]. apply Hmin in He. lia.
  - subst m'. split; [rewrite lookup_insert_eq; by eexists|].
    intros e [->|[_ He]]%lookup_insert_is_Some; [lia|]. rewrite lookup_empty in He. by destruct He.
Qed.

Lemma map_highest_spec m :
  match map_highest m with
  | Some k => is_Some (m !! k) /\ forall e, is_Some (m !! e) -> e <= k
  | None => m = ∅
  end.
Proof.
  unfold map_highest. apply (map_fold_weak_ind (fun r m => match r with
    | Some k => is_Some (m !! k) /\ forall e, is_Some (m !! e) -> e <= k
    | None => m = ∅ end)); [done|].
  intros i x m' [a|] Hi IH; simpl.
  - destruct IH as [Ha Hmin]. split.
    + destruct (Z.max_spec a i) as [[_ ->]|[_ ->]].
      * rewrite lookup_insert_eq. by eexists.
      * apply lookup_insert_is_Some. by destruct (decide (i = a)); [left|right].
    + intros e [->|[_ He]]%lookup_insert_is_Some; [lia|]. apply Hmin in He. lia.
  - subst m'. split; [rewrite lookup_insert_eq; by eexists|].
    intros e [->|[_ He]]%lookup_insert_is_Some; [lia|]. rewrite lookup_empty in He. by destruct He.
Qed.

Lemma map_lowest_unique m k :
  is_Some (m !! k) -> (forall e, is_Some (m !! e) -> k <= e) -> map_lowest m = Some k.
Proof.
  intros Hk Hmin. pose proof (map_lowest_spec m) as H. destruct (map_lowest m) as [a|].
  - destruct H as [Ha Hl]. f_equal. apply Hmin in Ha. apply Hl in Hk. lia.
  - subst m. rewrite lookup_empty in Hk. by destruct Hk.
Qed.

Lemma map_highest_unique m k :
  is_Some (m !! k) -> (forall e, is_Some (m !! e) -> e <= k) -> map_highest m = Some k.
Proof.
  intros Hk Hmax. pose proof (map_highest_spec m) as H. destruct (map_highest m) as [a|].
  - destruct H as [Ha Hl]. f_equal. apply Hmax in Ha. apply Hl in Hk. lia.
  - subst m. rewrite lookup_empty in Hk. by destruct Hk.
Qed.

(** ** Eviction *)

(** What [while m.len() > keep { remove the lowest }] leaves. *)
Record top_of (keep : nat) (m r : gmap Z bytes) : Prop := {
  to_sub : r ⊆ m;
  to_size : size r = Nat.min keep (size m);
  to_above : forall e e', is_Some (m !! e) -> r !! e = None -> is_Some (r !! e') -> e < e';
}.

Lemma evict_top fuel keep m : (size m <= fuel)%nat -> top_of keep m (evict fuel keep m).
Proof.
  revert m. induction fuel as [|fuel IH]; intros m Hf; simpl.
  - split; [done|lia|]. intros e e' [x Hx] Hn. congruence.
  - destruct (Nat.ltb_spec keep (size m)) as [Hlt|Hge].
    2:{ split; [done|lia|]. intros e e' [x Hx] Hn. congruence. }
    pose proof (map_lowest_spec m) as Hlo. destruct (map_lowest m) as [lo|].
    2:{ subst m. rewrite map_size_empty in Hlt. lia. }
    destruct Hlo as [Hin Hmin]. pose proof (map_size_delete_Some lo m Hin) as Hsz.
    destruct (IH (delete lo m)) as [Hsub Hs Hab]; [lia|]. split.
    + etrans; [exact Hsub|apply delete_subseteq].
    + rewrite Hs, Hsz. lia.
    + intros e e' He Hn [x' He']. destruct (decide (e = lo)) as [->|Hne].
      * pose proof (lookup_weaken _ _ _ _ He' Hsub) as Hd.
        apply lookup_delete_Some in Hd as [Hne Hd].
        assert (lo <= e') by (apply Hmin; by eexists). lia.
      * apply (Hab e e'); [by rewrite lookup_delete_ne by done|done|by eexists].
Qed.

(** [insert] and [replace] keep the [keep] highest epochs. *)
Lemma ss_replace_top st e s :
  top_of (ss_keep st) (<[e := s]> (ss_inner st)) (ss_inner (ss_replace st e s)).
Proof. apply evict_top. done. Qed.

(** Replacing the highest epoch leaves it the highest, with the new secret. *)
Lemma ss_replace_highest st e s :
  (0 < ss_keep st)%nat -> ss_highest st = Some e ->
  ss_get (ss_replace st e s) e = Some s /\ ss_highest (ss_replace st e s) = Some e.
Proof.
  intros Hkeep Hhigh. destruct (ss_replace_top st e s) as [Hsub Hsize Habove].
  pose proof (map_highest_spec (ss_inner st)) as Hs. unfold ss_highest in Hhigh. rewrite Hhigh in Hs.
  destruct Hs as [Hin Hmax]. set (m := <[e := s]> (ss_inner st)) in *.
  assert (Hle : forall x v, ss_inner (ss_replace st e s) !! x = Some v -> x <= e).
  { intros x v Hx. apply (lookup_weaken _ m) in Hx; [|done].
    apply lookup_insert_Some in Hx as [[-> _]|[_ Hx]]; [lia|]. apply Hmax. by eexists. }
  assert (Hget : ss_inner (ss_replace st e s) !! e = Some s).
  { destruct (ss_inner (ss_replace st e s) !! e) as [x|] eqn:Ex.
    - apply (lookup_weaken _ m) in Ex; [|done]. unfold m in Ex. by rewrite lookup_insert_eq in Ex.
    - exfalso. assert (Hne : ss_inner (ss_replace st e s) <> ∅).
      { apply map_size_non_empty_iff. rewrite Hsize. unfold m. rewrite map_size_insert_Some by done.
        assert (size (ss_inner st) <> 0%nat); [|lia]. apply map_size_non_empty_iff. intros E0.
        rewrite E0, lookup_empty in Hin. by destruct Hin. }
      apply map_choose in Hne as (x & v & Hx).
      assert (e < x) by (apply Habove; [unfold m; rewrite lookup_insert_eq; by eexists|done|by eexists]).
      specialize (Hle _ _ Hx). lia. }
  split; [done|]. apply map_highest_unique; [by eexists|]. intros x [v Hx]. by eapply Hle.
Qed.

(** The sliding window of epoch secrets.  [insert] never changes the secret
    of an epoch already there; otherwise what survives is a part of the old
    window plus the new epoch, with every secret unchanged, of size
    [min(keep, n + 1)], and every epoch that was dropped is older than every
    epoch that was kept. *)
Theorem insert_keeps_highest (st : SecretStore) (e : Z) (s : bytes) :
  match ss_get st e with
  | Some _ => ss_insert st e s = st
  | None => top_of (ss_keep st) (<[e := s]> (ss_inner st)) (ss_inner (ss_insert st e s))
            /\ ss_keep (ss_insert st e s) = ss_keep st
            /\ ss_resync_epoch (ss_insert st e s) = ss_resync_epoch st
  end.
Proof.
  unfold ss_get, ss_insert. destruct (ss_inner st !! e) as [x|] eqn:E; [done|].
  split; [|done]. apply evict_top. done.
Qed.

(** [prune_below] keeps exactly the epochs from [epoch] on and counts the rest. *)
Lemma prune_below_get st epoch e :
  ss_get (fst (prune_below st epoch)) e = if bool_decide (epoch <= e) then ss_get st e else None.
Proof.
  unfold ss_get, prune_below. simpl. case_bool_decide as Hd.
  - destruct (ss_inner st !! e) as [x|] eqn:E.
    + by apply map_lookup_filter_Some.
    + apply map_lookup_filter_None. by left.
  - apply map_lookup_filter_None. right. by intros x _ Hx.
Qed.

(** ** Consecutive epochs: the window the initiator builds *)

Definition interval (a b : Z) : gset Z := list_to_set (seqZ a (b - a)).

Lemma elem_of_interval a b e : e ∈ interval a b <-> a <= e < b.
Proof. unfold interval. rewrite elem_of_list_to_set, elem_of_seqZ. lia. Qed.

Lemma size_interval a b : size (interval a b) = Z.to_nat (b - a).
Proof. unfold interval. rewrite size_list_to_set by apply NoDup_seqZ. by rewrite length_seqZ. Qed.

Lemma is_Some_interval (m : gmap Z bytes) a b e :
  dom m = interval a b -> is_Some (m !! e) <-> a <= e < b.
Proof. intros Hd. by rewrite <- elem_of_dom, Hd, elem_of_interval. Qed.

Lemma map_size_interval (m : gmap Z bytes) a b : dom m = interval a b -> size m = Z.to_nat (b - a).
Proof. intros Hd. by rewrite <- size_dom, Hd, size_interval. Qed.

Lemma evict_interval fuel keep m a b :
  (size m <= fuel)%nat -> dom m = interval a b ->
  dom (evict fuel keep m) = interval (Z.max a (b - Z.of_nat keep)) b.
Proof.
  revert m a. induction fuel as [|fuel IH]; intros m a Hf Hd; simpl;
    pose proof (map_size_interval _ _ _ Hd) as Hs.
  - rewrite Hd. apply set_eq. intros e. rewrite !elem_of_interval. lia.
  - destruct (Nat.ltb_spec keep (size m)) as [Hlt|Hge].
    2:{ rewrite Hd. apply set_eq. intros e. rewrite !elem_of_interval. lia. }
    assert (Hlo : map_lowest m = Some a).
    { apply map_lowest_unique; [apply (is_Some_interval _ _ _ _ Hd); lia|].
      intros e He. apply (is_Some_interval _ _ _ _ Hd) in He. lia. }
    rewrite Hlo, (IH (delete a m) (a + 1)).
    + f_equal. lia.
    + rewrite map_size_delete_Some; [lia|]. apply (is_Some_interval _ _ _ _ Hd). lia.
    + rewrite dom_delete_L, Hd. apply set_eq. intros e.
      rewrite elem_of_difference, elem_of_singleton, !elem_of_interval. lia.
Qed.

(** The epochs [0 .. n-1] negotiated one after the other. *)
Fixpoint insert_epochs (secrets : Z -> bytes) (n : nat) (st : SecretStore) : SecretStore :=
  match n with
  | O => st
  | S n => ss_insert (insert_epochs secrets n st) (Z.of_nat n) (secrets (Z.of_nat n))
  end.

Lemma insert_epochs_keep secrets n st : ss_keep (insert_epochs secrets n st) = ss_keep st.
Proof.
  induction n as [|n IH]; [done|]. simpl. unfold ss_insert. split_match; simpl; exact IH.
Qed.

Lemma insert_epochs_window secrets n st :
  ss_inner st = ∅ ->
  dom (ss_inner (insert_epochs secrets n st)) = interval (Z.max 0 (Z.of_nat n - Z.of_nat (ss_keep st))) (Z.of_nat n)
  /\ forall e s, ss_get (insert_epochs secrets n st) e = Some s -> s = secrets e.
Proof.
  intros He. induction n as [|n [Hd Hg]].
  - simpl. unfold ss_get. rewrite He. split; [|by intros e s; rewrite lookup_empty].
    rewrite dom_empty_L. apply set_eq. intros e. rewrite elem_of_interval. set_solver by lia.
  - cbn [insert_epochs]. set (st1 := insert_epochs secrets n st) in *.
    assert (Hnone : ss_inner st1 !! Z.of_nat n = None).
    { apply eq_None_not_Some. rewrite (is_Some_interval _ _ _ _ Hd). lia. }
    unfold ss_insert. rewrite Hnone. unfold ss_get. cbn [ss_inner with_inner].
    set (m := <[_ := _]> _). assert (Hdm : dom m = interval (Z.max 0 (Z.of_nat n - Z.of_nat (ss_keep st))) (Z.of_nat (S n))).
    { subst m. rewrite dom_insert_L, Hd. apply set_eq. intros e.
      rewrite elem_of_union, elem_of_singleton, !elem_of_interval. lia. }
    split.
    + rewrite (evict_interval _ _ _ _ _ (Nat.le_refl _) Hdm).
      unfold st1. rewrite insert_epochs_keep. f_equal. lia.
    + intros e s Hs. apply (lookup_weaken _ m) in Hs; [|apply (evict_top _ (ss_keep st1) m); lia].
      subst m. apply lookup_insert_Some in Hs as [[<- <-]|[_ Hs]]; [done|by apply Hg].
Qed.

Lemma insert_epochs_get secrets n st e :
  ss_inner st = ∅ -> 0 <= e < Z.of_nat n -> Z.of_nat n - Z.of_nat (ss_keep st) <= e ->
  ss_get (insert_epochs secrets n st) e = Some (secrets e).
Proof.
  intros He Hr Hk. destruct (insert_epochs_window secrets n st He) as [Hd Hg].
  assert (Hin : is_Some (ss_get (insert_epochs secrets n st) e)).
  { apply (is_Some_interval _ _ _ _ Hd). lia. }
  destruct Hin as [s Hs]. rewrite Hs. f_equal. by apply Hg.
Qed.

Lemma insert_epochs_lowest secrets n st :
  ss_inner st = ∅ -> (0 < n)%nat -> (0 < ss_keep st)%nat ->
  ss_lowest (insert_epochs secrets n st) = Some (Z.max 0 (Z.of_nat n - Z.of_nat (ss_keep st)))
  /\ ss_highest (insert_epochs secrets n st) = Some (Z.of_nat n - 1).
Proof.
  intros He Hn Hk. destruct (insert_epochs_window secrets n st He) as [Hd _].
  split; [apply map_lowest_unique|apply map_highest_unique];
    try (intros e Hx; apply (is_Some_interval _ _ _ _ Hd) in Hx; lia);
    apply (is_Some_interval _ _ _ _ Hd); lia.
Qed.

Lemma ss_new_keep l n :
  0 <= l -> 0 < n ->
  Z.of_nat (ss_keep (ss_new l n)) = l + 1 + ((2 * BUFFER_TARGET + n - 1) / n + 2).
Proof.
  intros Hl Hn. unfold ss_new, BUFFER_TARGET. cbn [ss_keep].
  destruct (Z.eqb_spec n 0); [lia|]. pose proof (Z.div_pos (2048 * 2 + n - 1) n).
  rewrite Z2Nat.id by lia. replace (2048 * 2) with (2 * 2048) by lia. done.
Qed.

(** Keys at most [cap] apart are at most [⌈cap / n⌉] epochs apart. *)
Lemma epoch_span n cap i j :
  0 < n -> 0 <= i <= j -> j - i <= cap -> j / n - i / n <= (cap + n - 1) / n.
Proof.
  intros Hn Hij Hc. pose proof (Z.div_add (cap + n - 1) (i / n) n).
  enough (j / n <= (cap + n - 1 + i / n * n) / n) by lia.
  apply Z.div_le_mono; [done|]. pose proof (Z.div_mod i n). pose proof (Z.mod_pos_bound i n). lia.
Qed.

(** The window covers the ENC ring.  With a rotation every [N] keys, key
    number [i] is made in epoch [i / N] (the active epoch when the initiator has
    pre-loaded [lookahead] epochs).  As long as at most [2 * BUFFER_TARGET] keys
    were made after it, the capacity of the ring, and even after two more
    rotations, its secret is still in the store. *)
Theorem buffered_keys_decryptable (lookahead N produced i late : Z) (secrets : Z -> bytes)
  (clock : option RekeyClock)
  (Hl : 0 <= lookahead) (HN : 0 < N) (Hi : 0 <= i < produced)
  (Hring : produced - i <= 2 * BUFFER_TARGET) (Hlate : 0 <= late <= 2) :
  let made := insert_epochs secrets (Z.to_nat (i / N + lookahead + 1)) (ss_new lookahead N) in
  let now := insert_epochs secrets (Z.to_nat ((produced - 1) / N + lookahead + 1 + late))
               (ss_new lookahead N) in
  (exists h, ss_highest made = Some h
     /\ active_epoch (source_new 256 lookahead clock) made h = i / N)
  /\ ss_get made (i / N) = Some (secrets (i / N))
  /\ ss_get now (i / N) = Some (secrets (i / N)).
Proof.
  intros made now. pose proof (ss_new_keep lookahead N Hl HN) as Hk.
  pose proof (Z.div_pos i N). pose proof (Z.div_pos (2 * BUFFER_TARGET + N - 1) N).
  assert (Hs : (produced - 1) / N - i / N <= (2 * BUFFER_TARGET + N - 1) / N)
    by (apply epoch_span; lia).
  pose proof (Z.div_le_mono i (produced - 1) N). unfold BUFFER_TARGET in *.
  destruct (insert_epochs_lowest secrets (Z.to_nat (i / N + lookahead + 1)) (ss_new lookahead N))
    as [Hlo Hhi]; [done|lia..|].
  split_and!.
  - eexists. split; [exact Hhi|]. unfold active_epoch. fold made in Hlo. rewrite Hlo.
    cbn [source_new ps_lookahead]. unfold sat_sub. rewrite Z2Nat.id by lia.
    destruct (Z.gtb_spec (Z.max 0 (i / N + lookahead + 1 - Z.of_nat (ss_keep (ss_new lookahead N))))
      (Z.max 0 (i / N + lookahead + 1 - 1 - lookahead))); lia.
  - apply insert_epochs_get; [done|lia..].
  - apply insert_epochs_get; [done|lia..].
Qed.

(** ** Derivation: length, and the same keys at both ends *)

Section DeriveLemmas.
Context `{MacCrypto}.

Lemma derive_loop_length fuel secret kid len off idx :
  (len - off <= fuel)%nat -> length (derive_loop fuel secret kid len off idx) = (len - off)%nat.
Proof.
  revert off idx. induction fuel as [|fuel IH]; intros off idx Hf; simpl; [lia|].
  destruct (Nat.ltb_spec off len); [|simpl; lia].
  rewrite length_app, hkdf_length, IH by (unfold HKDF_MAX_OUTPUT; lia).
  unfold HKDF_MAX_OUTPUT. lia.
Qed.

Lemma derive_material_length secret kid len : length (derive_material secret kid len) = len.
Proof. unfold derive_material. rewrite derive_loop_length; lia. Qed.

Lemma epoch_of_make epoch r : is_u 32 epoch -> epoch_of (make_key_id epoch r) = epoch.
Proof.
  intros He. unfold epoch_of, make_key_id.
  rewrite take_app_length' by (by rewrite length_be_bytes). apply be_val_be_bytes. exact He.
Qed.

Lemma length_make_key_id epoch r : length r = 16%nat -> length (make_key_id epoch r) = 16%nat.
Proof. intros Hr. unfold make_key_id. rewrite length_app, length_be_bytes, length_drop. lia. Qed.

(** *** The batch of [dec_keys] *)

(** What an id is worth on its own: [None] when its epoch is below the live
    window or its secret never arrives. *)
Definition dec_one (ps : PqcKeySource) (st : SecretStore) (wait : Z -> option bytes)
    (floor : option Z) (id : bytes) : option OtpKey :=
  if match floor with Some lo => epoch_of id <? lo | None => false end then None
  else match await_epoch st wait (epoch_of id) with
       | Ok s => Some (otp_key ps s id)
       | _ => None
       end.

(** The epoch an id is reported dead for. *)
Definition dead_one (st : SecretStore) (wait : Z -> option bytes) (floor : option Z) (id : bytes)
    : option Z :=
  if match floor with Some lo => epoch_of id <? lo | None => false end then None
  else match await_epoch st wait (epoch_of id) with
       | Ok _ => None
       | _ => Some (epoch_of id)
       end.

Lemma dec_loop_ref ps st wait floor ids dead :
  (forall e, e ∈ dead -> is_ok (await_epoch st wait e) = false) ->
  dec_loop ps st wait floor ids dead
  = (omap (dec_one ps st wait floor) ids,
     list_to_set (omap (dead_one st wait floor) ids) ∪ dead).
Proof.
  revert dead. induction ids as [|id ids IH]; intros dead Hdead; simpl.
  - f_equal. set_solver.
  - unfold dec_one at 1, dead_one at 1.
    destruct (match floor with Some lo => _ | None => _ end); [by apply IH|].
    case_bool_decide as Hin.
    + rewrite IH by done. specialize (Hdead _ Hin).
      destruct (await_epoch st wait (epoch_of id)); [done|..]; f_equal; set_solver.
    + destruct (await_epoch st wait (epoch_of id)) eqn:Ea.
      * by rewrite IH by done.
      * rewrite IH; [f_equal; simpl; set_solver|].
        intros e' [->%elem_of_singleton|He']%elem_of_union; [by rewrite Ea|by apply Hdead].
      * rewrite IH; [f_equal; simpl; set_solver|].
        intros e' [->%elem_of_singleton|He']%elem_of_union; [by rewrite Ea|by apply Hdead].
Qed.

Lemma set_max_spec (X : gset Z) :
  match set_max X with
  | Some k => k ∈ X /\ forall e, e ∈ X -> e <= k
  | None => X = ∅
  end.
Proof.
  unfold set_max. apply (set_fold_ind (fun r X => match r with
    | Some k => k ∈ X /\ forall e, e ∈ X -> e <= k
    | None => X = ∅ end)).
  - intros r X1 X2 HX%leibniz_equiv. by subst.
  - done.
  - intros x X' [a|] Hx IH; simpl; [|set_solver by lia].
    destruct IH as [Ha Hmax]. split; [|intros e; set_unfold; intros [->|He%Hmax]; lia].
    destruct (Z.max_spec a x) as [[_ ->]|[_ ->]]; set_solver.
Qed.
End DeriveLemmas.

(** One undecipherable id never costs the others.  [dec_keys] derives exactly
    the ids that can be derived one by one, in order; the cache of epochs that
    timed out in the batch only saves waiting.  A resync is requested for an
    epoch of the peer iff some id of the batch was of an epoch that never
    arrived, and then for the highest such epoch. *)
Theorem dec_keys_best_effort `{MacCrypto} (ps : PqcKeySource) (st : SecretStore)
  (wait : Z -> option bytes) (ids : list bytes) :
  let '(out, st') := dec_keys ps st wait ids in
  let dead := omap (dead_one st wait (ss_lowest st)) ids in
  out = omap (dec_one ps st wait (ss_lowest st)) ids
  /\ ss_inner st' = ss_inner st
  /\ match dead with
     | [] => st' = st
     | _ => exists e, e ∈ dead /\ (forall e', e' ∈ dead -> e' <= e)
              /\ ss_resync_epoch st' = Z.max (ss_resync_epoch st) e
     end.
Proof.
  unfold dec_keys. destruct (Z.eqb_spec (zlen ids) 0) as [Hz|Hz].
  { destruct ids; [done|]. unfold zlen in Hz. simpl in Hz. lia. }
  rewrite dec_loop_ref by set_solver.
  set (dl := omap (dead_one st wait (ss_lowest st)) ids).
  pose proof (set_max_spec (list_to_set dl ∪ ∅)) as Hm.
  destruct (set_max (list_to_set dl ∪ ∅)) as [k|].
  - destruct Hm as [Hk Hmax]. split_and!; [done|done|].
    destruct dl as [|d ds] eqn:Edl; [set_solver|]. exists k.
    split_and!; [set_solver|set_solver|done].
  - split_and!; [done|done|]. destruct dl; [done|set_solver].
Qed.

(** The ids of a batch all carry its epoch. *)
Lemma enc_keys_ids `{MacCrypto} ps st any wait rs keys ps' :
  enc_keys ps st any wait rs = Ok (keys, ps') -> exists e, map key_id keys = map (make_key_id e) rs.
Proof.
  unfold enc_keys. destruct (Z.eqb_spec (zlen rs) 0) as [Hz|Hz].
  - intros [= <- _]. exists 0. destruct rs; [done|]. unfold zlen in Hz. simpl in Hz. lia.
  - intros (h & _ & Hr)%res_bind_ok. apply res_bind_ok in Hr as (s & _ & Hr).
    apply res_bind_ok in Hr as (ps1 & _ & [= <- _]). exists (active_epoch ps st h). by rewrite map_map.
Qed.

Lemma enc_dec_agree `{MacCrypto} (psA psB : PqcKeySource) (stA stB : SecretStore)
  (any : option Z) (waitA waitB : Z -> option bytes) (rs : list bytes) (h : Z) (secret : bytes)
  (Hh : ss_highest stA = Some h)
  (Hu : is_u 32 (active_epoch psA stA h))
  (HA : ss_get stA (active_epoch psA stA h) = Some secret)
  (HB : ss_get stB (active_epoch psA stA h) = Some secret)
  (Hlen : ps_key_bytes psB = ps_key_bytes psA)
  (Hclock : match ps_clock psA with Some c => ck_counter c + zlen rs <= u_max 64 | None => True end) :
  exists ks psA',
    enc_keys psA stA any waitA rs = Ok (ks, psA')
    /\ length ks = length rs
    /\ Forall (fun k => length (material k) = ps_key_bytes psA) ks
    /\ dec_keys psB stB waitB (map key_id ks) = (ks, stB).
Proof.
  set (e := active_epoch psA stA h) in *.
  assert (Htick : exists ps', source_tick psA (zlen rs) = Ok ps').
  { unfold source_tick. destruct (ps_clock psA) as [c|]; [|by eexists]. unfold clock_tick.
    destruct (ck_n c =? 0); [by eexists|].
    destruct (Z.gtb_spec (ck_counter c + zlen rs) (u_max 64)); [lia|]. by eexists. }
  destruct Htick as [ps' Htick]. unfold enc_keys, await_epoch.
  destruct (Z.eqb_spec (zlen rs) 0) as [Hz|Hz].
  { exists [], psA. destruct rs; [done|]. unfold zlen in Hz. simpl in Hz. lia. }
  rewrite Hh. cbn [res_bind]. fold e. rewrite HA. cbn [res_bind]. rewrite Htick. cbn [res_bind].
  eexists _, ps'. split_and!; [done|by rewrite length_map|..].
  { apply Forall_forall. intros k (r & -> & _)%list_elem_of_fmap. apply derive_material_length. }
  rewrite map_map. change (fun x => key_id _) with (fun r => make_key_id e r).
  assert (Hlo : match ss_lowest stB with Some lo => e <? lo | None => false end = false).
  { pose proof (map_lowest_spec (ss_inner stB)) as Hs. unfold ss_lowest.
    destruct (map_lowest (ss_inner stB)) as [lo|]; [|done]. apply Z.ltb_ge, Hs. by eexists. }
  assert (Hone : forall r, dec_one psB stB waitB (ss_lowest stB) (make_key_id e r)
                          = Some (otp_key psA secret (make_key_id e r))
                   /\ dead_one stB waitB (ss_lowest stB) (make_key_id e r) = None).
  { intros r. unfold dec_one, dead_one. rewrite epoch_of_make by done. rewrite Hlo.
    unfold await_epoch. rewrite HB. unfold otp_key. by rewrite Hlen. }
  unfold dec_keys. rewrite dec_loop_ref by set_solver.
  assert (Hnz : (zlen (map (fun r => make_key_id e r) rs) =? 0) = false).
  { apply Z.eqb_neq. unfold zlen in *. by rewrite length_map. }
  rewrite Hnz. clear - Hone. f_equal.
  - induction rs as [|r rs IH]; [done|]. simpl. destruct (Hone r) as [-> _]. by f_equal.
  - replace (omap _ _) with (@nil Z); [done|].
    induction rs as [|r rs IH]; [done|]. simpl. destruct (Hone r) as [_ ->]. done.
Qed.

(** Both ends of a link derive the same keys.  When the secret of the active
    epoch is in the store, [enc_keys] answers (no wait), with one key per request,
    each of the configured length; and the peer, holding the same secret for that
    epoch, derives from the announced ids alone exactly the same keys, with no
    resync request. *)
Theorem enc_dec_same_keys `{MacCrypto} (psA psB : PqcKeySource) (stA stB : SecretStore)
  (any : option Z) (waitA waitB : Z -> option bytes) (rs : list bytes) (h : Z) (secret : bytes)
  (Hh : ss_highest stA = Some h)
  (Hu : is_u 32 (active_epoch psA stA h))
  (HA : ss_get stA (active_epoch psA stA h) = Some secret)
  (HB : ss_get stB (active_epoch psA stA h) = Some secret)
  (Hlen : ps_key_bytes psB = ps_key_bytes psA)
  (Hclock : match ps_clock psA with Some c => ck_counter c + zlen rs <= u_max 64 | None => True end) :
  exists ks psA',
    enc_keys psA stA any waitA rs = Ok (ks, psA')
    /\ length ks = length rs
    /\ Forall (fun k => length (material k) = ps_key_bytes psA) ks
    /\ dec_keys psB stB waitB (map key_id ks) = (ks, stB).
Proof. by eapply enc_dec_agree. Qed.

(** The volume trigger of the rotation.  A batch of [num] keys raises the
    rotation permit exactly when the running count crosses a multiple of [n]
    within the batch; a permit that is already up stays up. *)
Theorem clock_tick_crosses (ck : RekeyClock) (num : Z)
  (Hn : 0 < ck_n ck) (Hnum : 0 <= num) (Hc : 0 <= ck_counter ck)
  (Hmax : ck_counter ck + num <= u_max 64) :
  exists ck', clock_tick ck num = Ok ck'
    /\ ck_counter ck' = ck_counter ck + num
    /\ (ck_permit ck' = true <->
        ck_permit ck = true
        \/ exists k, ck_counter ck < k * ck_n ck <= ck_counter ck + num).
Proof.
  unfold clock_tick. destruct (Z.eqb_spec (ck_n ck) 0) as [|_]; [lia|].
  destruct (Z.gtb_spec (ck_counter ck + num) (u_max 64)); [lia|].
  eexists. split; [done|]. cbn [ck_counter ck_permit].
  split; [apply as_u_small; ufold; lia|].
  set (b := ck_counter ck) in *. set (n := ck_n ck) in *.
  pose proof (Z.div_mod b n). pose proof (Z.mod_pos_bound b n).
  pose proof (Z.div_mod (b + num) n). pose proof (Z.mod_pos_bound (b + num) n).
  destruct (Z.eqb_spec (b / n) ((b + num) / n)) as [Heq|Hne]; simpl.
  - split; [by left|]. intros [Hp|(k & Hk)]; [done|].
    assert (k = b / n + 1 \/ k <= b / n \/ b / n + 2 <= k) as [->|[]] by lia; nia.
  - split; [intros _; right|done]. exists ((b + num) / n).
    pose proof (Z.div_le_mono b (b + num) n). split; nia.
Qed.

(** A resync for epoch 0 is never delivered.  [request_resync] stores the
    highest epoch asked for and 0 means "nothing pending", so a request for epoch
    0 leaves the state as it was, and [resync_requested] does not return; every
    other request is delivered, with the highest epoch asked. *)
Theorem resync_zero_is_lost (st : SecretStore) (e : Z) (Hst : 0 <= ss_resync_epoch st) (He : is_u 32 e) :
  snd (resync_requested (request_resync st e))
  = (if Z.max (ss_resync_epoch st) e =? 0 then None else Some (Z.max (ss_resync_epoch st) e))
  /\ request_resync st 0 = st.
Proof.
  ufold. unfold resync_requested, request_resync. destruct st as [i k r]; simpl in *. split.
  - destruct (Z.gtb_spec (Z.max r e) 0), (Z.eqb_spec (Z.max r e) 0); try lia; done.
  - f_equal. lia.
Qed.

(** ** Witnesses *)

Definition sample_secrets (e : Z) : bytes := replicate 32 (e mod 256).
Definition sample_store : SecretStore := insert_epochs sample_secrets 5 (ss_new 2 2048).

Lemma buffered_keys_decryptable_witness :
  ss_get (insert_epochs sample_secrets (Z.to_nat ((5000 - 1) / 2048 + 2 + 1 + 1)) (ss_new 2 2048))
    (1000 / 2048) = Some (sample_secrets (1000 / 2048)).
Proof. apply (buffered_keys_decryptable 2 2048 5000 1000 1 sample_secrets None); vm_compute; intuition discriminate. Defined.

Lemma enc_dec_same_keys_witness :
  exists ks ps', enc_keys (source_new 256 2 None) sample_store None (fun _ => None)
                   [replicate 16 7; replicate 16 9] = Ok (ks, ps')
    /\ length ks = 2%nat
    /\ Forall (fun k => length (material k) = 32%nat) ks
    /\ dec_keys (source_new 256 5 None) sample_store (fun _ => None) (map key_id ks)
       = (ks, sample_store).
Proof.
  apply (enc_dec_same_keys (source_new 256 2 None) (source_new 256 5 None) sample_store sample_store
    None (fun _ => None) (fun _ => None) [replicate 16 7; replicate 16 9] 4 (sample_secrets 2));
    try reflexivity; try exact I.
  vm_compute. intuition discriminate.
Defined.

Lemma clock_tick_crosses_witness :
  exists ck', clock_tick (mkClock 100 95 false) 10 = Ok ck'
    /\ ck_counter ck' = 105
    /\ (ck_permit ck' = true <-> false = true \/ exists k, 95 < k * 100 <= 105).
Proof. apply (clock_tick_crosses (mkClock 100 95 false) 10); vm_compute; intuition discriminate. Defined.

Lemma resync_zero_is_lost_witness :
  snd (resync_requested (request_resync sample_store 9)) = Some 9
  /\ request_resync sample_store 0 = sample_store.
Proof. apply (resync_zero_is_lost sample_store 9); vm_compute; intuition discriminate. Defined.
