(* ===== verification/FrameAuth.v ===== *)
(** * Authentication of link frames (qkc/src/frame_auth.rs)

    One [LinkFrameAuth] per link seals what leaves and opens what arrives.

    - [LinkFrameAuth] is the struct.  Its [PerEpoch] root reads the secret store
      of the link, which the handshake fills through the same [Arc]: the store is
      an argument of every operation and comes back when it is written, so a
      caller may change it between two calls.
    - [send_material], [seals], [seal], [peer_key], [open_frame],
      [accept_plaintext], [authenticate] are the operations, in the order of
      checks of the code; [now] is the monotonic clock in nanoseconds.
    - [seal_all], [link_run] and [open_run] run them over a sequence of frames.

    The theorems: what one end seals the other opens unchanged, over any loss;
    what opens was sealed (short of a forged HMAC); a frame that is not
    authentic cannot move the anti-replay window; no frame opens twice; what
    arrives in the clear is refused where the policy says so. *)

From Stdlib Require Import ZArith Lia.
From S2P Require Import Prelude Wire ReplayWindow FrameMac QkcTypes SecretStore.

(** ** State *)

(** [config::FrameAuth]. *)
Inductive FrameAuthMode := Off | Prefer | Require.

Definition signs (m : FrameAuthMode) : bool :=
  match m with Prefer | Require => true | Off => false end.
Definition rejects_plaintext (m : FrameAuthMode) : bool :=
  match m with Require => true | _ => false end.

Definition RESYNC_SUPPRESS_AFTER_VERIFIED : Z := 10 * 1000000000.

Record FrameAuthStats := mkStats {
  st_signed : Z;
  st_verified : Z;
  st_bad_mac : Z;
  st_replayed : Z;
  st_resync_suppressed : Z;
  st_plaintext_accepted : Z;
  st_plaintext_rejected : Z;
}.

Inductive RootSource :=
  | Fixed (root : bytes) (session : Z) (send_key : bytes)
  | PerEpoch (send_cache : option (Z * bytes)).

Record RecvState := mkRecv {
  rv_window : ReplayWindow;
  rv_cached : option (Z * bytes);
  rv_last_verified : option Z;
}.

Record LinkFrameAuth := mkAuth {
  fa_mode : FrameAuthMode;
  fa_src : RootSource;
  fa_counter : Z;
  fa_recv : RecvState;
  fa_stats : FrameAuthStats;
}.

Definition with_stats (f : FrameAuthStats -> FrameAuthStats) (fa : LinkFrameAuth) : LinkFrameAuth :=
  mkAuth (fa_mode fa) (fa_src fa) (fa_counter fa) (fa_recv fa) (f (fa_stats fa)).
Definition with_recv (r : RecvState) (fa : LinkFrameAuth) : LinkFrameAuth :=
  mkAuth (fa_mode fa) (fa_src fa) (fa_counter fa) r (fa_stats fa).
Definition with_src (src : RootSource) (fa : LinkFrameAuth) : LinkFrameAuth :=
  mkAuth (fa_mode fa) src (fa_counter fa) (fa_recv fa) (fa_stats fa).

(** [fetch_add(1)] on an [AtomicU64]: it wraps. *)
Definition inc64 (x : Z) : Z := as_u 64 (x + 1).

Definition inc_signed (s : FrameAuthStats) : FrameAuthStats :=
  mkStats (inc64 (st_signed s)) (st_verified s) (st_bad_mac s) (st_replayed s)
    (st_resync_suppressed s) (st_plaintext_accepted s) (st_plaintext_rejected s).
Definition inc_verified (s : FrameAuthStats) : FrameAuthStats :=
  mkStats (st_signed s) (inc64 (st_verified s)) (st_bad_mac s) (st_replayed s)
    (st_resync_suppressed s) (st_plaintext_accepted s) (st_plaintext_rejected s).
Definition inc_bad_mac (s : FrameAuthStats) : FrameAuthStats :=
  mkStats (st_signed s) (st_verified s) (inc64 (st_bad_mac s)) (st_replayed s)
    (st_resync_suppressed s) (st_plaintext_accepted s) (st_plaintext_rejected s).
Definition inc_replayed (s : FrameAuthStats) : FrameAuthStats :=
  mkStats (st_signed s) (st_verified s) (st_bad_mac s) (inc64 (st_replayed s))
    (st_resync_suppressed s) (st_plaintext_accepted s) (st_plaintext_rejected s).
Definition inc_suppressed (s : FrameAuthStats) : FrameAuthStats :=
  mkStats (st_signed s) (st_verified s) (st_bad_mac s) (st_replayed s)
    (inc64 (st_resync_suppressed s)) (st_plaintext_accepted s) (st_plaintext_rejected s).
Definition inc_plain_accepted (s : FrameAuthStats) : FrameAuthStats :=
  mkStats (st_signed s) (st_verified s) (st_bad_mac s) (st_replayed s)
    (st_resync_suppressed s) (inc64 (st_plaintext_accepted s)) (st_plaintext_rejected s).
Definition inc_plain_rejected (s : FrameAuthStats) : FrameAuthStats :=
  mkStats (st_signed s) (st_verified s) (st_bad_mac s) (st_replayed s)
    (st_resync_suppressed s) (st_plaintext_accepted s) (inc64 (st_plaintext_rejected s)).

Definition with_source (mode : FrameAuthMode) (src : RootSource) : LinkFrameAuth :=
  let window := match src with
                | PerEpoch _ => new_monotonic DEFAULT_WINDOW
                | Fixed _ _ _ => new_quiet_gated DEFAULT_WINDOW
                end in
  mkAuth mode src 0 (mkRecv window None None) (mkStats 0 0 0 0 0 0 0).

Definition per_epoch (mode : FrameAuthMode) : LinkFrameAuth := with_source mode (PerEpoch None).

(** ** Operations *)

Section Ops.
Context `{MacCrypto}.

(** [LinkFrameAuth::new]: [session_bytes] are the eight random bytes. *)
Definition auth_new (mode : FrameAuthMode) (root : option bytes) (session_bytes : bytes)
    : option LinkFrameAuth :=
  root ← root;
  let session := Z.max (be_val session_bytes) 1 in
  Some (with_source mode (Fixed root session (derive_key root session))).

Definition auth_session (fa : LinkFrameAuth) (st : SecretStore) : Z :=
  match fa_src fa with
  | Fixed _ session _ => session
  | PerEpoch _ => default 0 (ss_highest st)
  end.

(** The session, the key, and the source with its cache filled. *)
Definition send_material (src : RootSource) (st : SecretStore) : option (Z * bytes * RootSource) :=
  match src with
  | Fixed _ session send_key => Some (session, send_key, src)
  | PerEpoch cache =>
      epoch ← ss_highest st;
      match cache with
      | Some (e, k) =>
          if e =? epoch then Some (epoch, k, src)
          else
            secret ← ss_get st epoch;
            let k := derive_key secret epoch in
            Some (epoch, k, PerEpoch (Some (epoch, k)))
      | None =>
          secret ← ss_get st epoch;
          let k := derive_key secret epoch in
          Some (epoch, k, PerEpoch (Some (epoch, k)))
      end
  end.

Definition seals (fa : LinkFrameAuth) (k : Z) : bool :=
  if k =? FRAME_KEY_IDS_NOTIFY then true else signs (fa_mode fa).

(** The authenticated fields of a frame whose MAC is over [body]. *)
Definition aad_of (f : Frame) (k session counter : Z) (body : bytes) : FrameAad :=
  mkAad k (grade f) session counter (sender_id f) (receiver_id f) (dest_final f)
    (key_size_bits f) (epoch_id f) (key_ids f) (header_orr_mp f) (header_dkms_mp f) body.

Definition with_payload (f : Frame) (k : Z) (p : bytes) : Frame :=
  mkFrame k (grade f) (sender_id f) (receiver_id f) (dest_final f) (key_size_bits f)
    (epoch_id f) (key_ids f) (header_orr_mp f) (header_dkms_mp f) p.

(** [seal]: the panics are the checked [+ 1] on the counter and the
    [assert!]s of the canonical encoding. *)
Definition seal (fa : LinkFrameAuth) (st : SecretStore) (f : Frame)
    : res FrameAuthError (LinkFrameAuth * Frame) :=
  match auth_kind_for (kind f) with
  | None => Ok (fa, f)
  | Some auth_kind =>
      if negb (seals fa (kind f)) then Ok (fa, f) else
      match send_material (fa_src fa) st with
      | None => Ok (fa, f)
      | Some (session, send_key, src) =>
          let old := fa_counter fa in
          if old + 1 >? u_max 64 then Panic else
          let counter := old + 1 in
          match mac_tag send_key (aad_of f auth_kind session counter (payload f)) with
          | None => Panic
          | Some tag =>
              Ok (with_stats inc_signed
                    (mkAuth (fa_mode fa) src (as_u 64 (old + 1)) (fa_recv fa) (fa_stats fa)),
                  with_payload f auth_kind (append_auth_trailer (payload f) session counter tag))
          end
      end
  end.

(** [if let Some(fa) = &link.frame_auth { fa.seal(&mut out) }], as the relay and
    the key buffers write it. *)
Definition seal_opt (fa : option LinkFrameAuth) (st : SecretStore) (f : Frame)
    : res FrameAuthError (option LinkFrameAuth * Frame) :=
  match fa with
  | None => Ok (None, f)
  | Some fa => let* (fa, f) := seal fa st f in Ok (Some fa, f)
  end.

(** [peer_key]: the key of the peer's session and the new cache. *)
Definition peer_key (src : RootSource) (st : SecretStore) (cached : option (Z * bytes))
    (session : Z) : option (bytes * option (Z * bytes)) :=
  let derive :=
    match src with
    | Fixed root _ _ => Some (derive_key root session)
    | PerEpoch _ => secret ← ss_get st (as_u 32 session); Some (derive_key secret session)
    end in
  match cached with
  | Some (s, k) =>
      if s =? session then Some (k, cached)
      else k ← derive; Some (k, Some (session, k))
  | None => k ← derive; Some (k, Some (session, k))
  end.

Definition recently_verified (r : RecvState) (now : Z) : bool :=
  match rv_last_verified r with
  | Some t => sat_sub now t <? RESYNC_SUPPRESS_AFTER_VERIFIED
  | None => false
  end.

(** [open]: the link, the store it shares, and the base frame or the error. *)
Definition open_frame (now : Z) (fa : LinkFrameAuth) (st : SecretStore) (f : Frame)
    : LinkFrameAuth * SecretStore * res FrameAuthError Frame :=
  match split_auth_trailer (payload f) with
  | Err _ => (fa, st, Err AuthTruncated)
  | Panic => (fa, st, Panic)
  | Ok (body, session, counter, tag) =>
      let r := fa_recv fa in
      match peer_key (fa_src fa) st (rv_cached r) session with
      | None =>
          let '(fa, st) :=
            if recently_verified r now then (with_stats inc_suppressed fa, st)
            else match fa_src fa with
                 | PerEpoch _ => (fa, request_resync st (Z.min session (u_max 32)))
                 | Fixed _ _ _ => (fa, st)
                 end in
          (with_stats inc_bad_mac fa, st, Err BadMac)
      | Some (key, cached) =>
          let fa := with_recv (mkRecv (rv_window r) cached (rv_last_verified r)) fa in
          match mac_verify key (aad_of f (kind f) session counter body) tag with
          | Panic => (fa, st, Panic)
          | Err _ => (with_stats inc_bad_mac fa, st, Err BadMac)
          | Ok _ =>
              let '(w, v) := check_and_set now (rv_window r) session counter in
              match v with
              | Panic => (fa, st, Panic)
              | Err e =>
                  (with_stats inc_replayed (with_recv (mkRecv w cached (rv_last_verified r)) fa),
                   st, Err (AuthReplay e))
              | Ok _ =>
                  let cut := Z.to_nat (zlen (payload f) - AUTH_TRAILER_LEN) in
                  (with_stats inc_verified (with_recv (mkRecv w cached (Some now)) fa), st,
                   Ok (with_payload f (base_kind_of (kind f)) (take cut (payload f))))
              end
          end
      end
  end.

Definition accept_plaintext (fa : LinkFrameAuth) (k : Z) : LinkFrameAuth * res FrameAuthError unit :=
  let reject := if k =? FRAME_KEY_IDS_NOTIFY then true else rejects_plaintext (fa_mode fa) in
  if reject then (with_stats inc_plain_rejected fa, Err PlaintextRejected)
  else (with_stats inc_plain_accepted fa, Ok tt).

(** [authenticate]: the single entry point for whatever the peer sends. *)
Definition authenticate (now : Z) (fa : option LinkFrameAuth) (st : SecretStore) (f : Frame)
    : option LinkFrameAuth * SecretStore * res FrameAuthError Frame :=
  match fa, is_auth_kind (kind f) with
  | Some fa, true => let '(fa, st, r) := open_frame now fa st f in (Some fa, st, r)
  | Some fa, false =>
      let '(fa, r) := accept_plaintext fa (kind f) in
      (Some fa, st, let* _ := r in Ok f)
  | None, true =>
      if zlen (payload f) <? AUTH_TRAILER_LEN then (None, st, Err AuthTruncated) else
      let cut := Z.to_nat (zlen (payload f) - AUTH_TRAILER_LEN) in
      (None, st, Ok (with_payload f (base_kind_of (kind f)) (take cut (payload f))))
  | None, false => (None, st, Ok f)
  end.

(** ** Runs *)

(** The frames a sender puts on the link, in order. *)
Fixpoint seal_all (fa : LinkFrameAuth) (st : SecretStore) (fs : list Frame) : list Frame :=
  match fs with
  | [] => []
  | f :: fs =>
      match seal fa st f with
      | Ok (fa, g) => g :: seal_all fa st fs
      | _ => []
      end
  end.

(** A sender and a receiver over a link that loses some frames ([false]): the
    verdict of every frame that arrives. *)
Fixpoint link_run (a b : LinkFrameAuth) (stA stB : SecretStore) (now : Z)
    (fs : list (Frame * bool)) : list (res FrameAuthError Frame) :=
  match fs with
  | [] => []
  | (f, arrives) :: fs =>
      match seal a stA f with
      | Ok (a, g) =>
          if (arrives : bool) then
            let '(b, stB, r) := open_frame now b stB g in
            r :: link_run a b stA stB (now + 1) fs
          else link_run a b stA stB (now + 1) fs
      | _ => []
      end
  end.

(** A receiver over arbitrary frames; the store may be changed by the
    handshake before each of them.  The result lists the (session, counter) of
    the frames that opened, most recent first. *)
Fixpoint open_run (fa : LinkFrameAuth) (evs : list (Z * SecretStore * Frame)) (acc : list (Z * Z))
    : LinkFrameAuth * list (Z * Z) :=
  match evs with
  | [] => (fa, acc)
  | (now, st, f) :: evs =>
      match open_frame now fa st f with
      | (fa, _, Ok _) =>
          match split_auth_trailer (payload f) with
          | Ok (_, s, c, _) => open_run fa evs ((s, c) :: acc)
          | _ => open_run fa evs acc
          end
      | (fa, _, _) => open_run fa evs acc
      end
  end.
End Ops.

(** ** What a successful [open_frame] implies *)

Lemma split_body p body s c t :
  split_auth_trailer p = Ok (body, s, c, t) ->
  body = take (Z.to_nat (zlen p - AUTH_TRAILER_LEN)) p /\ AUTH_TRAILER_LEN <= zlen p.
Proof.
  unfold split_auth_trailer. destruct (Z.ltb_spec (zlen p) AUTH_TRAILER_LEN); [done|].
  by intros [= <- _ _ _].
Qed.

Section Facts.
Context `{MacCrypto}.

(** The message a sealed frame carries a tag for. *)
Definition msg_of (g : Frame) : option bytes :=
  match split_auth_trailer (payload g) with
  | Ok (body, s, c, _) => canonical (aad_of g (kind g) s c body)
  | _ => None
  end.

Definition tag_of (g : Frame) : bytes :=
  match split_auth_trailer (payload g) with Ok (_, _, _, t) => t | _ => [] end.

Lemma open_ok_inv now fa st f fa' st' f' :
  open_frame now fa st f = (fa', st', Ok f') ->
  exists body s c m key cached w,
    split_auth_trailer (payload f) = Ok (body, s, c, tag_of f)
    /\ peer_key (fa_src fa) st (rv_cached (fa_recv fa)) s = Some (key, cached)
    /\ canonical (aad_of f (kind f) s c body) = Some m
    /\ hmac_sha256 key m = tag_of f
    /\ check_and_set now (rv_window (fa_recv fa)) s c = (w, Ok tt)
    /\ f' = with_payload f (base_kind_of (kind f)) body
    /\ fa' = with_stats inc_verified (with_recv (mkRecv w cached (Some now)) fa)
    /\ st' = st.
Proof.
  unfold open_frame, tag_of.
  destruct (split_auth_trailer (payload f)) as [[[[body s] c] t]| |] eqn:Es; [|done..].
  destruct (split_body _ _ _ _ _ Es) as [Hb _].
  destruct (peer_key _ _ _ _) as [[key cached]|] eqn:Ek.
  2:{ destruct (recently_verified _ _); [|destruct (fa_src fa)]; done. }
  unfold mac_verify. destruct (canonical _) as [m|] eqn:Em; [|done].
  case_bool_decide as Ht; [|done]. cbv zeta.
  destruct (check_and_set _ _ _ _) as [w v] eqn:Ew. destruct v as [[]|e|]; [|done..].
  intros [= <- <- <-]. do 7 eexists. split_and!; try done. by rewrite <- Hb.
Qed.

(** A frame the window never sees leaves it, and the time of the last verified
    frame, as they were. *)
Lemma open_untouched now fa st f fa' st' r :
  open_frame now fa st f = (fa', st', r) ->
  (r = Err AuthTruncated \/ r = Err BadMac) ->
  rv_window (fa_recv fa') = rv_window (fa_recv fa)
  /\ rv_last_verified (fa_recv fa') = rv_last_verified (fa_recv fa)
  /\ fa_counter fa' = fa_counter fa /\ ss_inner st' = ss_inner st.
Proof.
  unfold open_frame. destruct (split_auth_trailer (payload f)) as [[[[body s] c] t]| |].
  2-3: by intros [= <- <- <-].
  destruct (peer_key _ _ _ _) as [[key cached]|].
  2:{ destruct (recently_verified _ _); [|destruct (fa_src fa)]; by intros [= <- <- <-]. }
  destruct (mac_verify _ _ _) as [[]| |]; cbv zeta.
  2-3: by intros [= <- <- <-].
  destruct (check_and_set _ _ _ _) as [w v]. destruct v as [[]|e|]; intros [= <- <- <-]; try done.
  all: by intros [|].
Qed.

(** Every verdict other than "refused before the window" is the window's. *)
Lemma open_window now fa st f :
  let '(fa', _, r) := open_frame now fa st f in
  rv_window (fa_recv fa') = rv_window (fa_recv fa) /\ is_ok r = false
  \/ exists body s c t, split_auth_trailer (payload f) = Ok (body, s, c, t)
       /\ match check_and_set now (rv_window (fa_recv fa)) s c with
          | (w, Ok _) => rv_window (fa_recv fa') = w /\ is_ok r = true
          | (w, Err _) => rv_window (fa_recv fa') = w /\ is_ok r = false
          | (_, Panic) => rv_window (fa_recv fa') = rv_window (fa_recv fa) /\ is_ok r = false
          end.
Proof.
  unfold open_frame. destruct (split_auth_trailer (payload f)) as [[[[body s] c] t]| |] eqn:Es.
  2-3: by left.
  destruct (peer_key _ _ _ _) as [[key cached]|].
  2:{ destruct (recently_verified _ _); [|destruct (fa_src fa)]; by left. }
  destruct (mac_verify _ _ _) as [[]| |]; cbv zeta; [|by left..].
  destruct (check_and_set _ _ _ _) as [w v] eqn:Ew.
  destruct v as [[]|e|]; right; do 4 eexists; (split; [done|]); rewrite Ew; done.
Qed.

(** ** The keys of the two ends *)

Definition send_ready (src : RootSource) (st : SecretStore) (s : Z) (k : bytes) : Prop :=
  match src with
  | Fixed _ session send_key => session = s /\ send_key = k
  | PerEpoch cache =>
      ss_highest st = Some s
      /\ (exists secret, ss_get st s = Some secret /\ k = derive_key secret s)
      /\ (forall k', cache = Some (s, k') -> k' = k)
  end.

Definition recv_ready (src : RootSource) (cached : option (Z * bytes)) (st : SecretStore)
    (s : Z) (k : bytes) : Prop :=
  (forall k', cached = Some (s, k') -> k' = k)
  /\ match src with
     | Fixed root _ _ => k = derive_key root s
     | PerEpoch _ => exists secret, ss_get st (as_u 32 s) = Some secret /\ k = derive_key secret s
     end.

Lemma send_material_ready src st s k :
  send_ready src st s k ->
  exists src', send_material src st = Some (s, k, src') /\ send_ready src' st s k.
Proof.
  destruct src as [root s' k'|cache]; simpl.
  - intros [-> ->]. by eexists.
  - intros (Hh & (sec & Hg & Hk) & Hc). rewrite Hh. simpl.
    assert (Hnew : send_ready (PerEpoch (Some (s, derive_key sec s))) st s k).
    { simpl. split_and!; [done|by exists sec|]. intros k' [= <-]. done. }
    destruct cache as [[e k']|].
    + destruct (Z.eqb_spec e s) as [->|].
      * specialize (Hc k' eq_refl) as ->. eexists. split; [done|]. simpl. split_and!; eauto.
        intros k'' [= <-]. done.
      * rewrite Hg. simpl. rewrite <- Hk in *. eauto.
    + rewrite Hg. simpl. rewrite <- Hk in *. eauto.
Qed.

Lemma peer_key_ready src cached st s k :
  recv_ready src cached st s k ->
  exists cached', peer_key src st cached s = Some (k, cached') /\ recv_ready src cached' st s k.
Proof.
  intros [Hc Hs]. unfold peer_key.
  assert (Hd : (match src with
                | Fixed root _ _ => Some (derive_key root s)
                | PerEpoch _ => secret ← ss_get st (as_u 32 s); Some (derive_key secret s)
                end) = Some k).
  { destruct src; [by rewrite Hs|]. destruct Hs as (sec & -> & ->). done. }
  assert (Hnew : recv_ready src (Some (s, k)) st s k) by (split; [by intros k' [= <-]|done]).
  rewrite Hd. destruct cached as [[s' k']|]; [|simpl; eauto].
  destruct (Z.eqb_spec s' s) as [->|]; [|simpl; eauto].
  rewrite (Hc k' eq_refl) in *. eauto.
Qed.

Lemma peer_key_det src cached st s k key c' :
  recv_ready src cached st s k -> peer_key src st cached s = Some (key, c') -> key = k.
Proof. intros Hr Hk. destruct (peer_key_ready _ _ _ _ _ Hr) as (? & Hk' & _). congruence. Qed.

(** ** Sealing *)

(** A frame the link MAC applies to, with headers the wire can carry. *)
Definition sealable (fa : LinkFrameAuth) (f : Frame) : Prop :=
  is_Some (auth_kind_for (kind f)) /\ seals fa (kind f) = true
  /\ Forall (fun k => zlen k <= 65535) (key_ids f)
  /\ zlen (header_orr_mp f) <= 65535 /\ zlen (header_dkms_mp f) <= 65535.

Lemma seal_ready fa st f s k :
  send_ready (fa_src fa) st s k -> sealable fa f -> 0 <= fa_counter fa < u_max 64 -> is_u 64 s ->
  exists fa' a m, let c := fa_counter fa + 1 in
    auth_kind_for (kind f) = Some a
    /\ canonical (aad_of f a s c (payload f)) = Some m
    /\ seal fa st f
       = Ok (fa', with_payload f a (append_auth_trailer (payload f) s c (hmac_sha256 k m)))
    /\ fa_counter fa' = c /\ fa_mode fa' = fa_mode fa
    /\ send_ready (fa_src fa') st s k /\ fa_recv fa' = fa_recv fa.
Proof.
  intros Hr ([a Ha] & Hs & Hids & Ho & Hd) Hc Hu.
  destruct (send_material_ready _ _ _ _ Hr) as (src' & Hm & Hr').
  destruct (canonical_total (aad_of f a s (fa_counter fa + 1) (payload f))) as [m Em]; [done..|].
  eexists (with_stats inc_signed _), a, m. cbv zeta. split_and!; [done|done|..].
  - unfold seal. rewrite Ha, Hs, Hm. cbn [negb].
    destruct (Z.gtb_spec (fa_counter fa + 1) (u_max 64)); [lia|].
    unfold mac_tag. rewrite Em. done.
  - cbn. apply as_u_small. ufold. lia.
  - done.
  - done.
  - done.
Qed.

Lemma sealed_split f a s c t :
  is_u 64 s -> is_u 64 c -> zlen t = 32 ->
  split_auth_trailer (payload (with_payload f a (append_auth_trailer (payload f) s c t)))
  = Ok (payload f, s, c, t).
Proof. intros. by apply split_append_trailer. Qed.

Lemma unseal_frame f a p : auth_kind_for (kind f) = Some a ->
  with_payload (with_payload f a p) (base_kind_of a) (payload f) = f.
Proof. intros Ha. destruct (base_of_auth _ _ Ha) as [Hb _]. destruct f; simpl in *. by rewrite Hb. Qed.
End Facts.

Section Theorems.
  Context `{MacCrypto}.

(** The two ends of a link agree on a session. *)
Record in_session (s : Z) (k : bytes) (a b : LinkFrameAuth) (stA stB : SecretStore) : Prop := {
  is_send : send_ready (fa_src a) stA s k;
  is_recv : recv_ready (fa_src b) (rv_cached (fa_recv b)) stB s k;
  is_u64 : is_u 64 s;
  is_count : 0 <= fa_counter a;
  is_window : exists h, stream_at s h (rv_window (fa_recv b)) /\ h <= fa_counter a;
}.

(** One frame through [seal]. *)
Lemma seal_one s k a b stA stB f :
  in_session s k a b stA stB -> sealable a f -> fa_counter a < u_max 64 ->
  exists a' ak tag, let g := with_payload f ak (append_auth_trailer (payload f) s (fa_counter a + 1) tag) in
    auth_kind_for (kind f) = Some ak /\ zlen tag = 32 /\ wf_bytes tag
    /\ seal a stA f = Ok (a', g)
    /\ fa_counter a' = fa_counter a + 1 /\ fa_mode a' = fa_mode a
    /\ in_session s k a' b stA stB
    /\ forall now, exists b', open_frame now b stB g = (b', stB, Ok f)
         /\ in_session s k a' b' stA stB.
Proof.
  intros [Hsend Hrecv Hs Hc (h & Hwin & Hh)] Hf Hmax.
  destruct (seal_ready a stA f s k Hsend Hf) as (a' & ak & m & Ha & Hm & Hseq & Hc' & Hmode & Hsend' & _);
    [lia|done|].
  exists a', ak, (hmac_sha256 k m). cbv zeta.
  split_and!; [done|apply hmac_length|apply hmac_wf|done|done|done| |].
  { constructor; [done..|lia|]. exists h. split; [done|lia]. }
  intros now. destruct (peer_key_ready _ _ _ _ _ Hrecv) as (cached & Hk & Hrecv').
  destruct (stream_step s h (rv_window (fa_recv b)) now (fa_counter a + 1) Hwin) as (w & Hcs & Hwin');
    [lia..|].
  exists (with_stats inc_verified (with_recv (mkRecv w cached (Some now)) b)). split.
  2:{ constructor; [done..|lia|]. exists (fa_counter a + 1). split; [done|lia]. }
  assert (Hu : is_u 64 (fa_counter a + 1)) by (ufold; lia).
  unfold open_frame. rewrite sealed_split by (done || apply hmac_length). rewrite Hk. cbv zeta.
  unfold mac_verify. change (canonical _) with (canonical (aad_of f ak s (fa_counter a + 1) (payload f))).
  rewrite Hm, bool_decide_eq_true_2, Hcs by done. do 2 f_equal. cbn [payload with_payload kind].
  rewrite <- (proj1 (split_body _ _ _ _ _ (split_append_trailer (payload f) s (fa_counter a + 1)
    (hmac_sha256 k m) Hs Hu (hmac_length k m)))). by apply unseal_frame.
Qed.

(** A link delivers.  While both ends hold the same root for the session (the
    PSK, or the secret of the epoch), every frame of a sequence that reaches the
    receiver opens to the very frame that was sealed, whatever was lost in
    between: sealing and opening are inverse, the counters never repeat and the
    window never refuses a frame of an in-order stream. *)
Theorem sealed_stream_opens (a b : LinkFrameAuth) (stA stB : SecretStore) (now s : Z) (k : bytes)
  (fs : list (Frame * bool))
  (Hsess : in_session s k a b stA stB)
  (Hseal : Forall (fun p => sealable a (fst p)) fs)
  (Hmax : fa_counter a + zlen fs <= u_max 64) :
  link_run a b stA stB now fs = map (fun p => Ok (fst p)) (List.filter snd fs).
Proof.
  revert a b now Hsess Hseal Hmax.
  induction fs as [|[f arrives] fs IH]; intros a b now Hsess Hseal Hmax; [done|].
  apply Forall_cons in Hseal as [Hf Hseal]. autorewrite with zlen in Hmax. pose proof (zlen_nonneg fs).
  destruct (seal_one s k a b stA stB f Hsess Hf)
    as (a' & ak & tag & _ & _ & _ & Hseq & Hc & Hmode & Hsess' & Hopen); [lia|].
  assert (Hseal' : Forall (fun p => sealable a' (fst p)) fs).
  { eapply Forall_impl; [exact Hseal|]. intros p. unfold sealable, seals. by rewrite Hmode. }
  cbn [link_run]. rewrite Hseq. destruct arrives; cbn [List.filter snd map fst].
  - destruct (Hopen now) as (b' & -> & Hsess''). f_equal. apply IH; [done|done|lia].
  - apply IH; [done|done|lia].
Qed.

Lemma seal_all_elem (a : LinkFrameAuth) (st : SecretStore) (s : Z) (k : bytes) fs g :
  send_ready (fa_src a) st s k -> is_u 64 s -> Forall (sealable a) fs ->
  0 <= fa_counter a -> fa_counter a + zlen fs <= u_max 64 ->
  g ∈ seal_all a st fs ->
  exists f c ak m, f ∈ fs /\ is_u 64 c /\ auth_kind_for (kind f) = Some ak
    /\ canonical (aad_of f ak s c (payload f)) = Some m
    /\ g = with_payload f ak (append_auth_trailer (payload f) s c (hmac_sha256 k m)).
Proof.
  intros Hsend Hs. revert a Hsend.
  induction fs as [|f fs IH]; intros a Hsend Hseal Hc Hmax Hg; [by apply not_elem_of_nil in Hg|].
  apply Forall_cons in Hseal as [Hf Hseal]. autorewrite with zlen in Hmax. pose proof (zlen_nonneg fs).
  destruct (seal_ready a st f s k Hsend Hf) as (a' & ak & m & Ha & Hm & Hseq & Hc' & Hmode & Hsend' & _);
    [lia|done|].
  cbn [seal_all] in Hg. rewrite Hseq in Hg. apply elem_of_cons in Hg as [->|Hg].
  - exists f, (fa_counter a + 1), ak, m. split_and!; [by left|ufold; lia|done..].
  - destruct (IH a') as (f0 & c0 & ak0 & m0 & Hin & Hrest); try done; try lia.
    + eapply Forall_impl; [exact Hseal|]. intros p. unfold sealable, seals. by rewrite Hmode.
    + exists f0, c0, ak0, m0. split; [by right|done].
Qed.

Lemma wf_aad_of f ak s c body :
  wf_frame f -> is_u 64 s -> is_u 64 c -> zlen (key_ids f) < 2 ^ 32 -> zlen body < 2 ^ 32 ->
  wf_aad (aad_of f ak s c body).
Proof. intros Hwf Hs Hc Hi Hb. constructor; try done; apply Hwf. Qed.

(** C30: only what was sealed opens.  If no tag was forged, that is, a tag that
    verifies under the key of the session belongs to a message the sender
    authenticated, then a frame that opens is, bit for bit, one of the sender's
    sealed frames, and what it opens to is one of the frames the sender sealed.
    An attacker who changes any field, header, key id, length or ciphertext byte,
    moves a boundary between fields or swaps a trailer gets no frame through. *)
Theorem opened_was_sealed (a b b' : LinkFrameAuth) (stA stB stB' : SecretStore) (now s : Z)
  (k : bytes) (fs : list Frame) (g f : Frame)
  (Hsend : send_ready (fa_src a) stA s k)
  (Hrecv : recv_ready (fa_src b) (rv_cached (fa_recv b)) stB s k)
  (Hs : is_u 64 s) (Hseal : Forall (sealable a) fs)
  (Hc : 0 <= fa_counter a) (Hmax : fa_counter a + zlen fs <= u_max 64)
  (Hwfs : Forall (fun f => wf_frame f /\ zlen (key_ids f) < 2 ^ 32 /\ zlen (payload f) < 2 ^ 32) fs)
  (Hwfg : wf_frame g /\ zlen (key_ids g) < 2 ^ 32 /\ zlen (payload g) < 2 ^ 32)
  (Hsess : exists body c t, split_auth_trailer (payload g) = Ok (body, s, c, t))
  (Hunforged : forall m, msg_of g = Some m -> hmac_sha256 k m = tag_of g ->
     Some m ∈ map msg_of (seal_all a stA fs))
  (Hopen : open_frame now b stB g = (b', stB', Ok f)) :
  g ∈ seal_all a stA fs /\ f ∈ fs.
Proof.
  destruct (open_ok_inv _ _ _ _ _ _ _ Hopen)
    as (body & s' & c & m & key & cached & w & Hsp & Hk & Hm & Ht & _ & -> & _ & _).
  destruct Hsess as (body' & c' & t' & Hsp'). rewrite Hsp in Hsp'. injection Hsp' as <- -> <- <-.
  apply (peer_key_det _ _ _ _ _ _ _ Hrecv) in Hk as ->.
  assert (Hmsg : msg_of g = Some m) by (unfold msg_of; by rewrite Hsp).
  destruct (proj1 (list_elem_of_fmap _ _ _) (Hunforged m Hmsg Ht)) as (g0 & Hm0 & Hg0).
  destruct (seal_all_elem a stA s k fs g0) as (f0 & c0 & ak & m0 & Hin & Hc0 & Hak & Hcan & ->); try done.
  destruct (proj1 (Forall_forall _ _) Hwfs f0 Hin) as (Hwf0 & Hi0 & Hp0).
  destruct Hwfg as (Hwfg & Hig & Hpg).
  destruct (append_split_trailer (payload g) body s c (tag_of g)) as (Happ & _ & Hcu & _);
    [apply Hwfg|done|].
  unfold msg_of in Hm0. rewrite sealed_split in Hm0 by (done || apply hmac_length).
  change (canonical (aad_of (with_payload f0 ak _) _ s c0 (payload f0)))
    with (canonical (aad_of f0 ak s c0 (payload f0))) in Hm0. rewrite Hcan in Hm0. injection Hm0 as <-.
  assert (Haad : aad_of g (kind g) s c body = aad_of f0 ak s c0 (payload f0)).
  { eapply canonical_inj; [..|exact Hm|exact Hcan]; apply wf_aad_of; try done.
    apply (f_equal zlen) in Happ. unfold append_auth_trailer in Happ. autorewrite with zlen in Happ.
    pose proof (zlen_nonneg (tag_of g)). lia. }
  destruct g as [gk gg gs gr gd gb ge gi go gh gp], f0 as [fk fg fs0 fr fd fb fe fi fo fh fp].
  unfold aad_of in Haad. cbn [kind grade sender_id receiver_id dest_final key_size_bits epoch_id key_ids
    header_orr_mp header_dkms_mp payload with_payload] in *. injection Haad; intros; subst.
  rewrite <- Ht in Happ. rewrite <- Happ in *. split; [exact Hg0|].
  destruct (base_of_auth _ _ Hak) as [-> _]. exact Hin.
Qed.

(** A frame that is not authentic moves nothing.  Whatever session and counter
    it claims, a frame whose tag does not verify under the peer's key (or whose
    key is unknown) is refused with [AuthTruncated] or [BadMac], and the
    anti-replay window, the time of the last verified frame, the outgoing counter
    and every epoch secret are as before. *)
Theorem unauthentic_frame_moves_nothing (now : Z) (fa : LinkFrameAuth) (st : SecretStore) (f : Frame)
  (Hwire : Forall (fun k => zlen k <= 65535) (key_ids f)
           /\ zlen (header_orr_mp f) <= 65535 /\ zlen (header_dkms_mp f) <= 65535)
  (Hbad : forall body s c t key cached m,
     split_auth_trailer (payload f) = Ok (body, s, c, t) ->
     peer_key (fa_src fa) st (rv_cached (fa_recv fa)) s = Some (key, cached) ->
     msg_of f = Some m -> hmac_sha256 key m <> t) :
  let '(fa', st', r) := open_frame now fa st f in
  (r = Err AuthTruncated \/ r = Err BadMac)
  /\ rv_window (fa_recv fa') = rv_window (fa_recv fa)
  /\ rv_last_verified (fa_recv fa') = rv_last_verified (fa_recv fa)
  /\ fa_counter fa' = fa_counter fa /\ ss_inner st' = ss_inner st.
Proof.
  destruct (open_frame now fa st f) as [[fa' st'] r] eqn:Eo.
  assert (Hr : r = Err AuthTruncated \/ r = Err BadMac).
  2:{ split; [exact Hr|]. by eapply open_untouched. }
  unfold open_frame in Eo. unfold msg_of in Hbad.
  destruct (split_auth_trailer (payload f)) as [[[[body s] c] t]|e|] eqn:Es.
  2:{ injection Eo as <- <- <-. by left. }
  2:{ unfold split_auth_trailer in Es. by destruct (_ <? _). }
  right. destruct (peer_key _ _ _ _) as [[key cached]|] eqn:Ek.
  2:{ destruct (recently_verified _ _) in Eo; [|destruct (fa_src fa) in Eo]; by injection Eo as <- <- <-. }
  destruct (canonical_total (aad_of f (kind f) s c body)) as [m Hm]; [apply Hwire..|].
  unfold mac_verify in Eo. rewrite Hm in Eo.
  rewrite bool_decide_eq_false_2 in Eo by eauto. by injection Eo as <- <- <-.
Qed.

Lemma open_run_win fa evs acc :
  Forall (fun '(_, _, f) => wf_bytes (payload f)) evs ->
  let '(fa', acc') := open_run fa evs acc in
  exists evs', Forall (fun '(_, _, c) => 0 <= c) evs'
    /\ win_run (rv_window (fa_recv fa)) evs' acc = (rv_window (fa_recv fa'), acc').
Proof.
  intros Hwf. revert fa acc. induction Hwf as [|[[now st] f] evs Hf _ IH]; intros fa acc.
  { by exists []. }
  cbn [open_run]. pose proof (open_window now fa st f) as Ho.
  destruct (open_frame now fa st f) as [[fa' st'] r]. destruct Ho as [[Hw Hr]|(body & s & c & t & Hs & Ho)].
  - destruct r as [?|?|]; [done|..]; specialize (IH fa' acc); destruct (open_run fa' evs acc);
      rewrite Hw in IH; exact IH.
  - assert (Hc : 0 <= c) by (apply append_split_trailer in Hs; [ufold; lia|done]).
    destruct (check_and_set now (rv_window (fa_recv fa)) s c) as [w v] eqn:Ec.
    assert (Hrun : forall acc', (match v with Ok _ => acc' = (s, c) :: acc | _ => acc' = acc end) ->
      rv_window (fa_recv fa') = (match v with Panic => rv_window (fa_recv fa) | _ => w end) ->
      let '(fa2, acc2) := open_run fa' evs acc' in
      exists evs', Forall (fun '(_, _, c) => 0 <= c) evs'
        /\ win_run (rv_window (fa_recv fa)) evs' acc = (rv_window (fa_recv fa2), acc2)).
    { intros acc' Ha Hw. specialize (IH fa' acc'). destruct (open_run fa' evs acc') as [fa2 acc2].
      destruct IH as (evs' & Hc' & Hrun). rewrite Hw in Hrun.
      destruct v as [[]|e|]; subst acc';
        [exists ((now, s, c) :: evs')|exists ((now, s, c) :: evs')|by exists evs'];
        (split; [by constructor|]); cbn [win_run]; by rewrite Ec. }
    rewrite Hs. destruct v as [[]|e|]; destruct Ho as [Hw Hr]; destruct r; try done; by apply Hrun.
Qed.

(** No frame opens twice.  Over any sequence of incoming frames, replayed,
    reordered, forged or of any epoch, and whatever the handshake does to the
    store in between, the (session, counter) pairs of the frames that open on an
    epoch-keyed link are pairwise distinct. *)
Theorem opens_at_most_once (mode : FrameAuthMode) (evs : list (Z * SecretStore * Frame))
  (Hwf : Forall (fun '(_, _, f) => wf_bytes (payload f)) evs) :
  NoDup (snd (open_run (per_epoch mode) evs [])).
Proof.
  pose proof (open_run_win (per_epoch mode) evs [] Hwf) as Hrun.
  destruct (open_run (per_epoch mode) evs []) as [fa' acc']. destruct Hrun as (evs' & Hc & Hrun).
  change (rv_window (fa_recv (per_epoch mode))) with (new_monotonic DEFAULT_WINDOW) in Hrun.
  pose proof (monotonic_run_inv DEFAULT_WINDOW evs' Hc) as Hinv. rewrite Hrun in Hinv. apply Hinv.
Qed.

(** Nothing unverified is accepted where the policy forbids it.  On a link
    with a root, a frame that [authenticate] lets through in [Require] mode, or
    that is a key-id notification in any mode, carried a tag that verifies under
    the peer's key over all its fields. *)
Theorem authenticate_fail_closed (now : Z) (fa fa' : LinkFrameAuth) (st st' : SecretStore) (f f' : Frame)
  (Hok : authenticate now (Some fa) st f = (Some fa', st', Ok f'))
  (Hpol : fa_mode fa = Require \/ kind f' = FRAME_KEY_IDS_NOTIFY) :
  is_auth_kind (kind f) = true
  /\ exists s key cached m,
       peer_key (fa_src fa) st (rv_cached (fa_recv fa)) s = Some (key, cached)
       /\ msg_of f = Some m /\ hmac_sha256 key m = tag_of f.
Proof.
  unfold authenticate in Hok. destruct (is_auth_kind (kind f)).
  - destruct (open_frame now fa st f) as [[fa1 st1] r] eqn:Eo. injection Hok as -> -> ->.
    destruct (open_ok_inv _ _ _ _ _ _ _ Eo) as (body & s & c & m & key & cached & w & Hs & Hk & Hm & Ht & _).
    split; [done|]. exists s, key, cached, m. split_and!; [done| |done]. unfold msg_of. by rewrite Hs.
  - exfalso. unfold accept_plaintext in Hok.
    destruct (Z.eqb_spec (kind f) FRAME_KEY_IDS_NOTIFY) as [|Hk]; cbn [res_bind] in Hok; [done|].
    destruct (rejects_plaintext (fa_mode fa)) eqn:Er; [done|]. injection Hok as <- <- <-.
    destruct Hpol as [Hm|]; [|done]. by rewrite Hm in Er.
Qed.

(** The key caches outlive the secret.  [SecretStore::replace] gives an epoch
    a new secret (the initiator restarted and renegotiated it), but the two
    caches of the link are keyed by the epoch number alone: a receiver that had
    cached the key of that epoch refuses every frame sealed with the new secret,
    although a link without the cache opens it; and a sender that had cached it
    keeps sealing with the old one. *)
Theorem replace_leaves_stale_key (now e : Z) (old new m : bytes) (fa : LinkFrameAuth)
  (cache : option (Z * bytes)) (st : SecretStore) (g : Frame) (body : bytes) (c : Z)
  (Hsrc : fa_src fa = PerEpoch cache) (He : is_u 32 e) (Hkeep : (0 < ss_keep st)%nat)
  (Hhigh : ss_highest st = Some e)
  (Hcached : rv_cached (fa_recv fa) = Some (e, derive_key old e))
  (Hg : split_auth_trailer (payload g) = Ok (body, e, c, hmac_sha256 (derive_key new e) m))
  (Hm : canonical (aad_of g (kind g) e c body) = Some m)
  (Hwin : snd (check_and_set now (rv_window (fa_recv fa)) e c) = Ok tt)
  (Hdiff : hmac_sha256 (derive_key old e) m <> hmac_sha256 (derive_key new e) m) :
  let st' := ss_replace st e new in
  let fresh := with_recv (mkRecv (rv_window (fa_recv fa)) None (rv_last_verified (fa_recv fa))) fa in
  snd (open_frame now fa st' g) = Err BadMac
  /\ is_ok (snd (open_frame now fresh st' g)) = true
  /\ fst <$> send_material (PerEpoch (Some (e, derive_key old e))) st' = Some (e, derive_key old e).
Proof.
  intros st' fresh. destruct (ss_replace_highest st e new Hkeep Hhigh) as [Hget Hhi].
  fold st' in Hget, Hhi.
  split_and!.
  - unfold open_frame. rewrite Hg, Hcached. unfold peer_key. rewrite Z.eqb_refl.
    unfold mac_verify. by rewrite Hm, bool_decide_eq_false_2.
  - unfold open_frame, fresh. rewrite Hg. cbn [fa_recv with_recv fa_src rv_cached rv_window]. rewrite Hsrc.
    unfold peer_key. rewrite (as_u_small 32 e) by done. rewrite Hget. simpl.
    unfold mac_verify. rewrite Hm, bool_decide_eq_true_2 by done.
    destruct (check_and_set _ _ _ _) as [w v]. simpl in Hwin. by subst v.
  - simpl. rewrite Hhi. simpl. by rewrite Z.eqb_refl.
Qed.
End Theorems.

(** ** Witnesses *)

Definition sample_auth : LinkFrameAuth := per_epoch Require.
Definition sample_data (n : Z) : Frame :=
  mkFrame FRAME_RELAY GRADE_PQC 1 2 9 256 3 [] [1; 2] [n] [n; 7; 7].
Definition sample_key : bytes := derive_key (sample_secrets 4) 4.

Lemma sample_send_ready : send_ready (fa_src sample_auth) sample_store 4 sample_key.
Proof.
  split_and!; [reflexivity| |done]. exists (sample_secrets 4). split; reflexivity.
Qed.

Lemma sample_recv_ready :
  recv_ready (fa_src sample_auth) (rv_cached (fa_recv sample_auth)) sample_store 4 sample_key.
Proof. split; [done|]. exists (sample_secrets 4). split; reflexivity. Qed.

Lemma sample_sealable n : sealable sample_auth (sample_data n).
Proof. split_and!; [by eexists|done|constructor|vm_compute; done..]. Qed.

Lemma sample_session : in_session 4 sample_key sample_auth sample_auth sample_store sample_store.
Proof.
  constructor; [apply sample_send_ready|apply sample_recv_ready|..].
  - vm_compute. intuition discriminate.
  - vm_compute. discriminate.
  - exists 0. split; [apply stream_at_new|vm_compute; discriminate].
Qed.

Lemma sealed_stream_opens_witness :
  link_run sample_auth sample_auth sample_store sample_store 0
    [(sample_data 1, true); (sample_data 2, false); (sample_data 3, true)]
  = [Ok (sample_data 1); Ok (sample_data 3)].
Proof.
  apply (sealed_stream_opens sample_auth sample_auth sample_store sample_store 0 4 sample_key
    [(sample_data 1, true); (sample_data 2, false); (sample_data 3, true)]).
  - apply sample_session.
  - repeat constructor; apply sample_sealable.
  - vm_compute. discriminate.
Defined.

Definition sample_sealed : list Frame := seal_all sample_auth sample_store [sample_data 1; sample_data 2].
Definition sample_second : Frame := nth 1 sample_sealed (Frame_empty 0).

Lemma sample_second_wf : wf_frame sample_second.
Proof.
  constructor; first
    [ apply (@bool_decide_unpack _ (is_u8_dec _)); vm_compute; exact I
    | apply (@bool_decide_unpack _ (is_u_dec _ _)); vm_compute; exact I
    | apply (@bool_decide_unpack _ (wf_bytes_dec _)); vm_compute; exact I
    | change (key_ids sample_second) with (@nil bytes); constructor ].
Qed.

Lemma sample_data_wf n : is_u8 n -> wf_frame (sample_data n).
Proof.
  intros Hn. constructor; unfold sample_data; cbn; unfold wf_bytes; repeat constructor;
    unfold FRAME_RELAY, GRADE_PQC; ufold; lia.
Qed.

Lemma opened_was_sealed_witness :
  sample_second ∈ seal_all sample_auth sample_store [sample_data 1; sample_data 2]
  /\ sample_data 2 ∈ [sample_data 1; sample_data 2].
Proof.
  apply (opened_was_sealed sample_auth sample_auth
    (fst (fst (open_frame 0 sample_auth sample_store sample_second)))
    sample_store sample_store sample_store 0 4 sample_key [sample_data 1; sample_data 2]
    sample_second (sample_data 2)).
  - apply sample_send_ready.
  - apply sample_recv_ready.
  - vm_compute. intuition discriminate.
  - repeat constructor; apply sample_sealable.
  - vm_compute. discriminate.
  - vm_compute. discriminate.
  - repeat constructor; try apply sample_data_wf; vm_compute; intuition discriminate.
  - split; [apply sample_second_wf|vm_compute; done].
  - do 3 eexists. reflexivity.
  - intros m Hm _. rewrite <- Hm. apply (list_elem_of_fmap_2 msg_of). right. left.
  - reflexivity.
Defined.

Lemma unauthentic_frame_moves_nothing_witness :
  let bad := with_payload sample_second FRAME_RECV_AUTH (payload sample_second) in
  rv_window (fa_recv (fst (fst (open_frame 0 sample_auth sample_store bad))))
  = rv_window (fa_recv sample_auth).
Proof.
  pose proof (unauthentic_frame_moves_nothing 0 sample_auth sample_store
    (with_payload sample_second FRAME_RECV_AUTH (payload sample_second))) as Hw.
  cbv zeta. destruct (open_frame _ _ _ _) as [[fa' st'] r]. apply Hw.
  - split_and!; [constructor|vm_compute; done..].
  - intros body s c t key cached m Hs Hk Hm.
    vm_compute in Hs. injection Hs as <- <- <- <-.
    vm_compute in Hm. injection Hm as <-.
    vm_compute in Hk. injection Hk as <- _. vm_compute. discriminate.
Defined.

Lemma opens_at_most_once_witness :
  NoDup (snd (open_run (per_epoch Require)
    [(0, sample_store, sample_second); (1, sample_store, sample_second)] [])).
Proof.
  apply (opens_at_most_once Require [(0, sample_store, sample_second); (1, sample_store, sample_second)]).
  repeat (apply Forall_cons_2; [apply sample_second_wf|]). apply Forall_nil_2.
Defined.

Lemma authenticate_fail_closed_witness :
  is_auth_kind (kind sample_second) = true
  /\ exists s key cached m,
       peer_key (fa_src sample_auth) sample_store (rv_cached (fa_recv sample_auth)) s = Some (key, cached)
       /\ msg_of sample_second = Some m /\ hmac_sha256 key m = tag_of sample_second.
Proof.
  apply (authenticate_fail_closed 0 sample_auth
    (fst (fst (open_frame 0 sample_auth sample_store sample_second))) sample_store sample_store
    sample_second (sample_data 2)); [reflexivity|by left].
Defined.

(** The receiver had verified a frame of epoch 4; the peer renegotiates epoch 4
    and seals with its new secret. *)
Definition stale_receiver : LinkFrameAuth :=
  fst (fst (open_frame 0 sample_auth sample_store sample_second)).
Definition renewed_store : SecretStore := ss_replace sample_store 4 (replicate 32 99).
Definition renewed_frame : Frame :=
  nth 2 (seal_all sample_auth renewed_store [sample_data 1; sample_data 2; sample_data 3]) (Frame_empty 0).

Lemma replace_leaves_stale_key_witness :
  snd (open_frame 5 stale_receiver renewed_store renewed_frame) = Err BadMac.
Proof.
  apply (replace_leaves_stale_key 5 4 (sample_secrets 4) (replicate 32 99)
    (default [] (msg_of renewed_frame)) stale_receiver None sample_store renewed_frame [3; 7; 7] 3).
  all: try reflexivity.
  - vm_compute. intuition discriminate.
  - vm_compute. lia.
  - vm_compute. discriminate.
Defined.
