(* ===== verification/OtpCrypto.v ===== *)
(** * The one-time pad of a hop (qkc/src/crypto.rs)

    A payload is cut in chunks of one key each; every chunk is XORed with the
    material of its own key and the ids travel in the frame.

    - [chunks] is [slice::chunks]; [num_chunks] the key count;
    - [encrypt] and [decrypt] are the two functions, errors included; an index out
      of range is a panic;
    - [find_key] is the closure of [decrypt]: a [HashMap] above eight keys (the
      last of two keys with one id wins), a linear scan otherwise (the first
      wins).

    The theorems: decryption inverts encryption for the keys in any order and for
    both lookup strategies, neither function ever panics, and what [encrypt]
    returns when a key is shorter than the first one. *)

From Stdlib Require Import ZArith Lia.
From S2P Require Import Prelude Wire ReplayWindow QkcTypes.

Definition chunk_count (n_bytes chunk_bytes : nat) : nat :=
  if (n_bytes =? 0)%nat then 0 else ((n_bytes + chunk_bytes - 1) / chunk_bytes)%nat.

(** [num_chunks]: [div_ceil] by zero panics. *)
Definition num_chunks (n_bytes chunk_bytes : nat) : res QkcError nat :=
  if (n_bytes =? 0)%nat then Ok 0%nat
  else if (chunk_bytes =? 0)%nat then Panic else Ok (chunk_count n_bytes chunk_bytes).

(** At most [length l] chunks. *)
Fixpoint chunks_loop (fuel n : nat) (l : bytes) : list bytes :=
  match fuel, l with
  | S fuel, _ :: _ => take n l :: chunks_loop fuel n (drop n l)
  | _, _ => []
  end.
Definition chunks (n : nat) (l : bytes) : list bytes := chunks_loop (length l) n l.

(** The loop of [encrypt]; [keys] are the keys from index [i] on. *)
Fixpoint encrypt_loop (cs : list bytes) (keys : list OtpKey) : res QkcError (bytes * list bytes) :=
  match cs with
  | [] => Ok ([], [])
  | chunk :: cs =>
      match keys with
      | [] => Panic
      | k :: keys =>
          let* (out, ids) := encrypt_loop cs keys in
          Ok (xor_bytes chunk (material k) ++ out, key_id k :: ids)
      end
  end.

Definition encrypt (plaintext : bytes) (keys : list OtpKey) : res QkcError (bytes * list bytes) :=
  match plaintext, keys with
  | [], _ => Ok ([], [])
  | _, [] => Err BadRequest
  | _, k0 :: _ =>
      let chunk_bytes := length (material k0) in
      if (chunk_bytes =? 0)%nat then Err BadRequest else
      let* needed := num_chunks (length plaintext) chunk_bytes in
      if (length keys <? needed)%nat
      then Err (NotEnoughKeys (as_u 32 (Z.of_nat needed)) (as_u 32 (zlen keys)))
      else encrypt_loop (chunks chunk_bytes plaintext) keys
  end.

Definition find_key (keys : list OtpKey) (id : bytes) : option bytes :=
  if (8 <? length keys)%nat then
    (fold_left (fun m k => <[key_id k := material k]> m) keys (∅ : gmap bytes bytes)) !! id
  else material ∘ snd <$> list_find (fun k => key_id k = id) keys.

Fixpoint decrypt_loop (keys : list OtpKey) (cs : list bytes) (ids : list bytes) : res QkcError bytes :=
  match cs with
  | [] => Ok []
  | chunk :: cs =>
      match ids with
      | [] => Panic
      | id :: ids =>
          match find_key keys id with
          | None => Err Quditto
          | Some mat =>
              if (length mat <? length chunk)%nat then Err Quditto else
              let* out := decrypt_loop keys cs ids in
              Ok (xor_bytes chunk mat ++ out)
          end
      end
  end.

Definition decrypt (ciphertext : bytes) (key_ids_order : list bytes) (keys : list OtpKey)
    (chunk_bytes : nat) : res QkcError bytes :=
  match ciphertext with
  | [] => Ok []
  | _ =>
      match key_ids_order with
      | [] => Err BadRequest
      | _ =>
          if (chunk_bytes =? 0)%nat then Err BadRequest else
          let* needed := num_chunks (length ciphertext) chunk_bytes in
          if (length key_ids_order <? needed)%nat then Err BadRequest
          else decrypt_loop keys (chunks chunk_bytes ciphertext) key_ids_order
      end
  end.

(** ** Chunks *)

Lemma num_chunks_ok n c : (c <> 0)%nat -> num_chunks n c = Ok (chunk_count n c).
Proof.
  intros Hc. unfold num_chunks, chunk_count. destruct (n =? 0)%nat; [done|].
  by destruct (Nat.eqb_spec c 0).
Qed.

Lemma chunks_loop_enough fuel fuel' n l :
  (0 < n)%nat -> (length l <= fuel)%nat -> (length l <= fuel')%nat ->
  chunks_loop fuel n l = chunks_loop fuel' n l.
Proof.
  intros Hn. revert fuel' l. induction fuel as [|fuel IH]; intros [|fuel'] [|x l] H1 H2;
    simpl in *; try lia; try done.
  f_equal. apply IH; rewrite length_drop; simpl; lia.
Qed.

Lemma chunks_step n l :
  (0 < n)%nat -> l <> [] -> chunks n l = take n l :: chunks n (drop n l).
Proof.
  intros Hn Hl. unfold chunks. destruct l as [|x l]; [done|]. cbn [chunks_loop length]. f_equal.
  apply chunks_loop_enough; rewrite ?length_drop; simpl; lia.
Qed.

Lemma chunk_count_step n (l : bytes) :
  (0 < n)%nat -> l <> [] -> chunk_count (length l) n = S (chunk_count (length (drop n l)) n).
Proof.
  intros Hn Hl. unfold chunk_count. rewrite length_drop.
  destruct (Nat.eqb_spec (length l) 0) as [H0|H0]; [destruct l; done|].
  destruct (Nat.eqb_spec (length l - n) 0) as [H1|H1].
  - symmetry. apply Nat.div_unique with (r := (length l - 1)%nat); lia.
  - replace (length l + n - 1)%nat with (length l - n + n - 1 + 1 * n)%nat by lia.
    rewrite Nat.div_add by lia. lia.
Qed.

(** Induction along the chunks of a byte string. *)
Lemma chunks_ind (P : bytes -> Prop) n :
  (0 < n)%nat -> P [] -> (forall l, l <> [] -> P (drop n l) -> P l) -> forall l, P l.
Proof.
  intros Hn H0 HS l. induction l as [l IH] using (induction_ltof1 _ (@length Z)).
  destruct l as [|x l]; [done|]. apply HS; [done|]. apply IH. unfold ltof. rewrite length_drop.
  simpl. lia.
Qed.

Lemma length_chunks n l : (0 < n)%nat -> length (chunks n l) = chunk_count (length l) n.
Proof.
  intros Hn. revert l. apply (chunks_ind _ n Hn); [done|]. intros l Hl IH.
  rewrite chunks_step, chunk_count_step by done. simpl. by rewrite IH.
Qed.

(** ** Key lookup *)

Lemma fold_insert_find (keys : list OtpKey) (m : gmap bytes bytes) id :
  NoDup (map key_id keys) ->
  fold_left (fun m k => <[key_id k := material k]> m) keys m !! id
  = match material ∘ snd <$> list_find (fun k => key_id k = id) keys with
    | Some x => Some x
    | None => m !! id
    end.
Proof.
  revert m. induction keys as [|k keys IH]; intros m Hnd; [done|]. simpl in *.
  apply NoDup_cons in Hnd as [Hk Hnd]. rewrite IH by done. rewrite decide_bool_decide.
  destruct (decide (key_id k = id)) as [<-|Hne].
  - rewrite bool_decide_eq_true_2 by done. simpl.
    destruct (list_find (fun k0 => key_id k0 = key_id k) keys) as [[i k']|] eqn:Ef; simpl.
    + apply list_find_Some in Ef as (Hi & He & _). destruct Hk. rewrite <- He.
      apply list_elem_of_fmap. exists k'. split; [done|]. by eapply list_elem_of_lookup_2.
    + by rewrite lookup_insert_eq.
  - rewrite bool_decide_eq_false_2 by done. simpl.
    destruct (list_find (fun k0 => key_id k0 = id) keys) as [[i k']|]; simpl; [done|].
    by rewrite lookup_insert_ne.
Qed.

(** With distinct ids both strategies find the key. *)
Lemma find_key_elem keys k :
  NoDup (map key_id keys) -> k ∈ keys -> find_key keys (key_id k) = Some (material k).
Proof.
  intros Hnd Hin.
  assert (Hf : material ∘ snd <$> list_find (fun k' => key_id k' = key_id k) keys = Some (material k)).
  { destruct (list_find (fun k' => key_id k' = key_id k) keys) as [[i k']|] eqn:Ef.
    - apply list_find_Some in Ef as (Hi & He & _). simpl. do 2 f_equal.
      apply list_elem_of_lookup in Hin as [j Hj].
      assert (Hij : i = j).
      { eapply (NoDup_lookup (map key_id keys)); [done|..]; rewrite list_lookup_fmap;
          [by rewrite Hi|]. rewrite Hj. simpl. by rewrite He. }
      subst j. congruence.
    - apply list_find_None in Ef. rewrite Forall_forall in Ef. by destruct (Ef k Hin). }
  unfold find_key. destruct (8 <? length keys)%nat; [|done].
  rewrite fold_insert_find by done. by rewrite Hf.
Qed.

(** ** Encryption and decryption *)

Lemma encrypt_loop_ok n l keys :
  (0 < n)%nat -> Forall (fun k => length (material k) = n) keys ->
  (chunk_count (length l) n <= length keys)%nat ->
  exists ct, encrypt_loop (chunks n l) keys
             = Ok (ct, map key_id (take (chunk_count (length l) n) keys))
    /\ length ct = length l
    /\ forall keys', (forall k, k ∈ keys -> find_key keys' (key_id k) = Some (material k)) ->
         decrypt_loop keys' (chunks n ct) (map key_id (take (chunk_count (length l) n) keys)) = Ok l.
Proof.
  intros Hn. revert l keys. apply (chunks_ind (fun l => forall keys, _ -> _ -> _) n Hn).
  { by exists []. }
  intros l Hl IH keys Hk Hlen.
  rewrite chunk_count_step in * by done. rewrite chunks_step by done.
  destruct keys as [|k keys]; [simpl in Hlen; lia|]. apply Forall_cons in Hk as [Hkn Hk].
  destruct (IH keys Hk) as (ct & Henc & Hct & Hdec); [simpl in Hlen; lia|].
  cbn [encrypt_loop take map]. rewrite Henc. cbn [res_bind]. eexists. split; [done|].
  assert (Hx : length (xor_bytes (take n l) (material k)) = length (take n l))
    by (rewrite length_xor_bytes, length_take; lia).
  split.
  - rewrite length_app, Hct, Hx, length_take, length_drop. lia.
  - intros keys' Hfind.
    assert (Hne : xor_bytes (take n l) (material k) ++ ct <> []).
    { intros E. apply (f_equal length) in E. rewrite length_app, Hx, length_take in E.
      destruct l; [done|]. simpl in E. lia. }
    rewrite chunks_step by done.
    assert (Hsplit : take n (xor_bytes (take n l) (material k) ++ ct) = xor_bytes (take n l) (material k)
      /\ drop n (xor_bytes (take n l) (material k) ++ ct) = ct).
    { destruct (decide (length l <= n)%nat) as [Hle|Hgt].
      - assert (ct = []) as ->.
        { apply length_zero_iff_nil. rewrite Hct, length_drop. lia. }
        rewrite app_nil_r. split; [apply take_ge|apply drop_ge]; rewrite Hx, length_take; lia.
      - split; [apply take_app_length'|apply drop_app_length']; rewrite Hx, length_take; lia. }
    destruct Hsplit as [-> ->]. cbn [decrypt_loop]. rewrite Hfind by (by left).
    destruct (Nat.ltb_spec (length (material k)) (length (xor_bytes (take n l) (material k)))) as [Hlt|_].
    { rewrite Hx, length_take in Hlt. lia. }
    rewrite Hdec by (intros k' Hk'; apply Hfind; by right). cbn [res_bind]. f_equal.
    rewrite xor_bytes_involutive by (rewrite length_take; lia). apply take_drop.
Qed.

Lemma encrypt_ok (plaintext : bytes) (keys keys' : list OtpKey) (n : nat)
  (Hn : (0 < n)%nat) (Hlen : Forall (fun k => length (material k) = n) keys)
  (Hids : NoDup (map key_id keys)) (Hperm : keys' ≡ₚ keys)
  (Henough : (chunk_count (length plaintext) n <= length keys)%nat) :
  exists ct ids,
    encrypt plaintext keys = Ok (ct, ids)
    /\ length ct = length plaintext
    /\ ids = map key_id (take (chunk_count (length plaintext) n) keys)
    /\ decrypt ct ids keys' n = Ok plaintext.
Proof.
  destruct (encrypt_loop_ok n plaintext keys Hn Hlen Henough) as (ct & Henc & Hct & Hdec).
  destruct plaintext as [|b pt]; [by eexists [], []|].
  destruct keys as [|k0 keys]; [rewrite chunk_count_step in Henough by done; simpl in Henough; lia|].
  pose proof Hlen as Hlen0. apply Forall_cons in Hlen0 as [Hk0 _].
  eexists ct, _. split; [|split; [exact Hct|split; [reflexivity|]]].
  - unfold encrypt. cbv zeta. rewrite Hk0. destruct (Nat.eqb_spec n 0); [lia|].
    rewrite num_chunks_ok by lia. cbn [res_bind].
    destruct (Nat.ltb_spec (length (k0 :: keys)) (chunk_count (length (b :: pt)) n)); [lia|]. exact Henc.
  - set (ids := map key_id (take _ _)) in *.
    assert (Hl : length ids = chunk_count (length (b :: pt)) n)
      by (unfold ids; rewrite length_map, length_take; lia).
    unfold decrypt. rewrite Hct. destruct ct as [|c ct]; [done|].
    destruct ids as [|i0 ids']; [rewrite chunk_count_step in Hl by done; done|].
    destruct (Nat.eqb_spec n 0); [lia|].
    rewrite num_chunks_ok by lia. cbn [res_bind]. rewrite <- Hl, Nat.ltb_irrefl.
    apply Hdec. intros k Hk. apply find_key_elem; [by rewrite Hperm|by rewrite Hperm].
Qed.

(** The pad is undone at the other end.  With keys of one length and distinct
    ids, enough of them for the payload, [encrypt] succeeds with a ciphertext of
    the payload's length and one id per chunk in order; and [decrypt] with those
    ids gives the payload back, whatever the order the keys are in and whichever
    lookup their number selects. *)
Theorem encrypt_decrypt (plaintext : bytes) (keys keys' : list OtpKey) (n : nat)
  (Hn : (0 < n)%nat) (Hlen : Forall (fun k => length (material k) = n) keys)
  (Hids : NoDup (map key_id keys)) (Hperm : keys' ≡ₚ keys)
  (Henough : (chunk_count (length plaintext) n <= length keys)%nat) :
  exists ct ids,
    encrypt plaintext keys = Ok (ct, ids)
    /\ length ct = length plaintext
    /\ ids = map key_id (take (chunk_count (length plaintext) n) keys)
    /\ decrypt ct ids keys' n = Ok plaintext.
Proof. by apply encrypt_ok. Qed.

Lemma encrypt_wf pt keys ct ids :
  encrypt pt keys = Ok (ct, ids) -> wf_bytes pt -> Forall (fun k => wf_bytes (material k)) keys -> wf_bytes ct.
Proof.
  assert (Hloop : forall cs ks ct ids, encrypt_loop cs ks = Ok (ct, ids) ->
    Forall wf_bytes cs -> Forall (fun k => wf_bytes (material k)) ks -> wf_bytes ct).
  { induction cs as [|c cs IH]; intros [|k ks] ct' ids'; cbn [encrypt_loop];
      [by intros [= <- _] _ _; apply Forall_nil_2|by intros [= <- _] _ _; apply Forall_nil_2|done|].
    intros (r & Hr & Heq)%res_bind_ok [Hc Hcs]%Forall_cons [Hk Hks]%Forall_cons. destruct r as [o i].
    injection Heq as <- _. apply Forall_app. split; [by apply xor_bytes_wf|by eapply IH]. }
  assert (Hch : forall fuel n l, wf_bytes l -> Forall wf_bytes (chunks_loop fuel n l)).
  { induction fuel as [|fuel IH]; intros n [|x l] Hl; simpl; try constructor;
      [by apply Forall_take|apply IH; by apply Forall_drop]. }
  unfold encrypt. destruct pt as [|b pt]; [intros [= <- _] _ _; apply Forall_nil_2|].
  destruct keys as [|k0 keys]; [done|]. cbv zeta. destruct (_ =? _)%nat; [done|].
  intros (needed & _ & He)%res_bind_ok. destruct (_ <? _)%nat; [done|].
  intros Hwf Hk. eapply Hloop; [exact He| |done]. by apply Hch.
Qed.

(** The pad never panics.  For every payload, ids, keys and chunk size,
    [encrypt] and [decrypt] return a value or an error: the index accesses of
    their loops are in range. *)
Theorem otp_never_panics :
  (forall plaintext keys, encrypt plaintext keys <> Panic)
  /\ (forall ct ids keys n, decrypt ct ids keys n <> Panic).
Proof.
  split.
  - intros pt keys. unfold encrypt. destruct pt as [|b pt]; [done|]. destruct keys as [|k0 keys]; [done|].
    cbv zeta. set (n := length (material k0)). destruct (Nat.eqb_spec n 0); [done|].
    rewrite num_chunks_ok by lia. cbn [res_bind].
    destruct (Nat.ltb_spec (length (k0 :: keys)) (chunk_count (length (b :: pt)) n)) as [|Hle]; [done|].
    rewrite <- length_chunks in Hle by lia. generalize dependent (k0 :: keys).
    induction (chunks n (b :: pt)) as [|c cs IH]; intros [|k ks] Hle; simpl in *; try done; [lia|].
    specialize (IH ks ltac:(lia)). by destruct (encrypt_loop cs ks) as [[]| |].
  - intros ct ids keys n. unfold decrypt. destruct ct as [|b ct]; [done|]. destruct ids as [|i0 ids]; [done|].
    destruct (Nat.eqb_spec n 0); [done|].
    rewrite num_chunks_ok by lia. cbn [res_bind].
    destruct (Nat.ltb_spec (length (i0 :: ids)) (chunk_count (length (b :: ct)) n)) as [|Hle]; [done|].
    rewrite <- length_chunks in Hle by lia. generalize dependent (i0 :: ids).
    induction (chunks n (b :: ct)) as [|c cs IH]; intros [|k ks] Hle; simpl in *; try done; [lia|].
    destruct (find_key keys k); [|done]. destruct (_ <? _)%nat; [done|].
    specialize (IH ks ltac:(lia)). by destruct (decrypt_loop keys cs ks).
Qed.

(** A short key silently shortens the ciphertext.  The chunk size is the
    length of the first key only; when a later key of a two-chunk payload is
    shorter than its chunk, [encrypt] still answers [Ok], with a ciphertext that
    lost the bytes the key could not cover. *)
Theorem encrypt_short_key_loses_bytes (a b : bytes) (k1 k2 : OtpKey)
  (Ha : length a = length (material k1)) (Ha0 : (0 < length a)%nat)
  (Hb : (0 < length b <= length a)%nat) (Hshort : (length (material k2) < length b)%nat) :
  exists ct, encrypt (a ++ b) [k1; k2] = Ok (ct, [key_id k1; key_id k2])
    /\ (length ct < length (a ++ b))%nat.
Proof.
  assert (Hab : a ++ b <> []) by (destruct a; [simpl in Ha0; lia|done]).
  assert (Hbn : b <> []) by (destruct b; [simpl in Hb; lia|done]).
  assert (Hdrop : drop (length (material k1)) (a ++ b) = b) by (apply drop_app_length'; lia).
  assert (Hch : chunks (length (material k1)) (a ++ b) = [a; b]).
  { rewrite chunks_step by (done || lia). rewrite (take_app_length' a b) by lia. rewrite Hdrop.
    rewrite chunks_step by (done || lia). rewrite take_ge, drop_ge by lia. done. }
  exists (xor_bytes a (material k1) ++ xor_bytes b (material k2) ++ []). split.
  - unfold encrypt. destruct (a ++ b) as [|x l] eqn:E; [done|]. rewrite <- E in *.
    destruct (Nat.eqb_spec (length (material k1)) 0); [lia|].
    rewrite num_chunks_ok by lia. cbn [res_bind].
    rewrite <- length_chunks by lia. rewrite Hch. simpl. done.
  - rewrite !length_app, !length_xor_bytes. simpl. lia.
Qed.

(** ** Witnesses *)

Definition sample_otp (i : Z) : OtpKey := mkKey (be_bytes 16 i) (replicate 4 (i * 3 mod 256)).

Lemma encrypt_decrypt_witness :
  exists ct ids, encrypt [1; 2; 3; 4; 5; 6] [sample_otp 1; sample_otp 2] = Ok (ct, ids)
    /\ length ct = 6%nat
    /\ ids = [be_bytes 16 1; be_bytes 16 2]
    /\ decrypt ct ids [sample_otp 2; sample_otp 1] 4 = Ok [1; 2; 3; 4; 5; 6].
Proof.
  apply (encrypt_decrypt [1; 2; 3; 4; 5; 6] [sample_otp 1; sample_otp 2] [sample_otp 2; sample_otp 1] 4).
  - lia.
  - repeat constructor.
  - apply (bool_decide_unpack _). vm_compute. exact I.
  - apply Permutation_swap.
  - vm_compute. lia.
Defined.

Lemma encrypt_short_key_loses_bytes_witness :
  exists ct, encrypt ([1; 2; 3; 4] ++ [5; 6]) [sample_otp 1; mkKey (be_bytes 16 2) [9]]
             = Ok (ct, [be_bytes 16 1; be_bytes 16 2])
    /\ (length ct < length ([1; 2; 3; 4] ++ [5; 6]))%nat.
Proof.
  apply (encrypt_short_key_loses_bytes [1; 2; 3; 4] [5; 6] (sample_otp 1) (mkKey (be_bytes 16 2) [9]));
    vm_compute; lia.
Defined.
