(* ===== verification/Routing.v ===== *)
(** * The weighted forwarding table (qkc/src/routing.rs)

    - [ForwardingTable] is the struct: two destination tables (full graph and
      QKD-only), the direct neighbours and the QKD ones among them.  Each field is
      swapped whole ([ArcSwap]), so an operation is a function of the table.
    - [sanitise], [pick], [next_hop], [next_hop_graded], [ft_replace],
      [ft_replace_qkd], [ft_update], [add_direct], [remove_direct] are the
      functions.  A sum of [u32] weights fits the [u64] of the code for any table
      of fewer than 2^32 hops, so the sums carry no overflow branch.

    The theorems: weights are exact shares of the hash space, tables stay
    sanitised under every operation so that a known destination always has a
    hop, and a QKD-grade frame only ever leaves through a QKD neighbour. *)

From Stdlib Require Import ZArith Lia.
From S2P Require Import Prelude.

Record NextHop := mkHop { qkc_id : Z; weight : Z }.

Definition single (id : Z) : NextHop := mkHop id 1.

Abbreviation Table := (gmap Z (list NextHop)).

Record ForwardingTable := mkFt {
  ft_table : Table;
  ft_qkd_table : Table;
  ft_direct : gset Z;
  ft_direct_qkd : gset Z;
}.

Definition ft_new_with_grades (direct direct_qkd : gset Z) : ForwardingTable :=
  mkFt ∅ ∅ direct direct_qkd.
Definition ft_new (direct : gset Z) : ForwardingTable := ft_new_with_grades direct ∅.

Definition sanitise (t : Table) : Table :=
  omap (fun hops =>
          match List.filter (fun h => weight h >? 0) hops with
          | [] => None
          | hops => Some hops
          end) t.

Definition total_weight (entries : list NextHop) : Z := foldr (fun h acc => weight h + acc) 0 entries.

(** The loop of [pick]: the first hop whose cumulative weight exceeds [bucket]. *)
Fixpoint pick_loop (entries : list NextHop) (bucket acc : Z) : option Z :=
  match entries with
  | [] => None
  | h :: entries =>
      let acc := acc + weight h in
      if bucket <? acc then Some (qkc_id h) else pick_loop entries bucket acc
  end.

Definition pick (entries : list NextHop) (hash : Z) : option Z :=
  match entries with
  | [] => None
  | [h] => Some (qkc_id h)
  | h0 :: _ =>
      let total := total_weight entries in
      if total =? 0 then Some (qkc_id h0) else
      let bucket := hash mod total in
      match pick_loop entries bucket 0 with
      | Some q => Some q
      | None => qkc_id <$> last entries
      end
  end.

Definition next_hop (ft : ForwardingTable) (dest hash : Z) : option Z :=
  if bool_decide (dest ∈ ft_direct ft) then Some dest else
  entries ← ft_table ft !! dest;
  pick entries hash.

Definition next_hop_graded (ft : ForwardingTable) (dest hash : Z) (qkd_only : bool) : option Z :=
  if qkd_only && negb (bool_decide (ft_qkd_table ft = ∅)) then
    if bool_decide (dest ∈ ft_direct_qkd ft) then Some dest else
    entries ← ft_qkd_table ft !! dest;
    pick entries hash
  else next_hop ft dest hash.

Definition ft_replace (ft : ForwardingTable) (new : Table) : ForwardingTable :=
  mkFt (sanitise new) (ft_qkd_table ft) (ft_direct ft) (ft_direct_qkd ft).

Definition ft_replace_qkd (ft : ForwardingTable) (new : Table) : ForwardingTable :=
  mkFt (ft_table ft) (sanitise new) (ft_direct ft) (ft_direct_qkd ft).

(** Insert the sanitised updates, then drop the removed destinations. *)
Definition ft_update (ft : ForwardingTable) (updates : Table) (removes : list Z) : ForwardingTable :=
  let next := sanitise updates ∪ ft_table ft in
  mkFt (foldr delete next removes) (ft_qkd_table ft) (ft_direct ft) (ft_direct_qkd ft).

Definition add_direct (ft : ForwardingTable) (peer : Z) (is_qkd : bool) : ForwardingTable :=
  mkFt (ft_table ft) (ft_qkd_table ft) ({[peer]} ∪ ft_direct ft)
    (if is_qkd then {[peer]} ∪ ft_direct_qkd ft else ft_direct_qkd ft).

Definition remove_direct (ft : ForwardingTable) (peer : Z) : ForwardingTable :=
  mkFt (ft_table ft) (ft_qkd_table ft) (ft_direct ft ∖ {[peer]}) (ft_direct_qkd ft ∖ {[peer]}).

Definition is_direct_neighbor (ft : ForwardingTable) (peer : Z) : bool :=
  bool_decide (peer ∈ ft_direct ft).

(** ** Sanitised tables *)

Definition wf_hops (hops : list NextHop) : Prop := hops <> [] /\ Forall (fun h => 0 < weight h) hops.
Definition wf_table (t : Table) : Prop := map_Forall (fun _ hops => wf_hops hops) t.

Record wf_ft (ft : ForwardingTable) : Prop := {
  wf_full : wf_table (ft_table ft);
  wf_qkd : wf_table (ft_qkd_table ft);
  wf_direct : ft_direct_qkd ft ⊆ ft_direct ft;
}.

Lemma sanitise_wf t : wf_table (sanitise t).
Proof.
  intros d hops. unfold sanitise. rewrite lookup_omap. intros Hl.
  destruct (t !! d) as [hs|]; [|done]. simpl in Hl.
  assert (Hall : Forall (fun h => 0 < weight h) (List.filter (fun h => weight h >? 0) hs)).
  { apply List.Forall_forall. intros h [_ Hh]%List.filter_In. apply Z.gtb_lt in Hh. lia. }
  destruct (List.filter _ hs) as [|h l]; [done|]. injection Hl as <-. by split.
Qed.

Lemma wf_table_delete t ds : wf_table t -> wf_table (foldr delete t ds).
Proof.
  intros Ht. induction ds as [|d ds IH]; [done|]. simpl. by apply map_Forall_delete.
Qed.

Lemma wf_table_union t1 t2 : wf_table t1 -> wf_table t2 -> wf_table (t1 ∪ t2).
Proof. intros H1 H2 d hops [Hl|[_ Hl]]%lookup_union_Some_raw; [by eapply H1|by eapply H2]. Qed.

(** ** The bucket selection *)

Lemma pick_loop_some entries bucket acc :
  Forall (fun h => 0 < weight h) entries -> acc <= bucket < acc + total_weight entries ->
  exists q, pick_loop entries bucket acc = Some q.
Proof.
  intros Hw. revert acc. induction Hw as [|h hs Hh Hw IH]; intros acc Hb; simpl in *; [lia|].
  destruct (Z.ltb_spec bucket (acc + weight h)); [by eexists|]. apply IH. lia.
Qed.

Lemma total_pos entries : wf_hops entries -> 0 < total_weight entries.
Proof.
  intros [Hne Hw]. destruct Hw as [|h hs Hh Hw]; [done|]. simpl.
  assert (0 <= total_weight hs) by (clear Hne; induction Hw; simpl; lia). lia.
Qed.

Lemma pick_wf entries hash : wf_hops entries ->
  pick entries hash = match entries with [h] => Some (qkc_id h)
                      | _ => pick_loop entries (hash mod total_weight entries) 0 end
  /\ exists q, pick entries hash = Some q.
Proof.
  intros Hwf. pose proof (total_pos entries Hwf) as Ht. destruct Hwf as [Hne Hw].
  destruct entries as [|h0 [|h1 hs]]; [done|split; [done|by eexists]|].
  destruct (pick_loop_some (h0 :: h1 :: hs) (hash mod total_weight (h0 :: h1 :: hs)) 0) as [q Hq];
    [done|pose proof (Z.mod_pos_bound hash _ Ht); lia|].
  unfold pick. destruct (Z.eqb_spec (total_weight (h0 :: h1 :: hs)) 0); [lia|].
  rewrite Hq. split; [done|by eexists].
Qed.

Lemma pick_elem entries hash q : pick entries hash = Some q -> exists h, h ∈ entries /\ qkc_id h = q.
Proof.
  assert (Hloop : forall hs b acc q, pick_loop hs b acc = Some q -> exists h, h ∈ hs /\ qkc_id h = q).
  { induction hs as [|h hs IH]; intros b acc q0; simpl; [done|].
    destruct (_ <? _); [intros [= <-]; exists h; split; [by left|done]|].
    intros (h' & Hin & Hq)%IH. exists h'. split; [by right|done]. }
  unfold pick. destruct entries as [|h0 [|h1 hs]]; [done|intros [= <-]; exists h0; split; [by left|done]|].
  destruct (_ =? _); [intros [= <-]; exists h0; split; [by left|done]|].
  destruct (pick_loop _ _ _) as [q'|] eqn:Ep; [intros [= <-]; by eapply Hloop|].
  intros Hl. apply fmap_Some in Hl as (h & Hl & ->). exists h. split; [|done].
  apply last_Some in Hl as [l' ->]. apply elem_of_app. right. by left.
Qed.

(** ** Shares *)

Definition share (entries : list NextHop) (q : Z) : Z :=
  total_weight (List.filter (fun h => qkc_id h =? q) entries).

(** How many of the [n] buckets from [b] on select [q]. *)
Definition bucket_count (f : Z -> option Z) (q b : Z) (n : nat) : Z :=
  zlen (List.filter (fun i => bool_decide (f i = Some q)) (seqZ b (Z.of_nat n))).

Lemma bucket_count_app f q b n m :
  bucket_count f q b (n + m) = bucket_count f q b n + bucket_count f q (b + Z.of_nat n) m.
Proof.
  unfold bucket_count. replace (Z.of_nat (n + m)) with (Z.of_nat n + Z.of_nat m) by lia.
  rewrite seqZ_app by lia. rewrite List.filter_app, zlen_app. done.
Qed.

Lemma bucket_count_const f q b n (x : bool) :
  (forall i, b <= i < b + Z.of_nat n -> bool_decide (f i = Some q) = x) ->
  bucket_count f q b n = if x then Z.of_nat n else 0.
Proof.
  revert b. induction n as [|n IH]; intros b Hf; [by destruct x|].
  change (S n) with (1 + n)%nat. rewrite bucket_count_app, (IH (b + Z.of_nat 1)) by (intros; apply Hf; lia).
  unfold bucket_count. rewrite seqZ_cons, seqZ_nil by lia. simpl List.filter. rewrite Hf by lia.
  destruct x; unfold zlen; simpl length; lia.
Qed.

Lemma bucket_count_ext f g q b n :
  (forall i, b <= i < b + Z.of_nat n -> f i = g i) -> bucket_count f q b n = bucket_count g q b n.
Proof.
  intros Hfg. unfold bucket_count. f_equal. apply List.filter_ext_in. intros i Hi.
  apply list_elem_of_In, elem_of_seqZ in Hi. by rewrite Hfg by lia.
Qed.

Lemma pick_loop_share entries q acc :
  Forall (fun h => 0 < weight h) entries ->
  bucket_count (fun b => pick_loop entries b acc) q acc (Z.to_nat (total_weight entries))
  = share entries q.
Proof.
  intros Hw. revert acc. induction Hw as [|h hs Hh Hw IH]; intros acc; [done|].
  assert (Hpos : 0 <= total_weight hs) by (clear IH; induction Hw; simpl; lia).
  change (total_weight (h :: hs)) with (weight h + total_weight hs).
  rewrite Z2Nat.inj_add by lia. rewrite bucket_count_app.
  rewrite (bucket_count_const _ _ _ (Z.to_nat (weight h)) (qkc_id h =? q)).
  - rewrite (bucket_count_ext _ (fun b => pick_loop hs b (acc + weight h))).
    + rewrite Z2Nat.id by lia. rewrite IH. unfold share. simpl List.filter.
      destruct (qkc_id h =? q); simpl; lia.
    + intros i Hi. simpl. rewrite Z2Nat.id in Hi by lia.
      destruct (Z.ltb_spec i (acc + weight h)); [lia|done].
  - intros i Hi. rewrite Z2Nat.id in Hi by lia. simpl.
    destruct (Z.ltb_spec i (acc + weight h)); [|lia].
    destruct (Z.eqb_spec (qkc_id h) q) as [->|Hne]; case_bool_decide; congruence.
Qed.

(** Weights are exact shares of the hash space.  For a sanitised entry list,
    the choice depends on the hash modulo the total weight only, and of the
    [total] hash classes exactly [weight] select each next hop (its entries
    added up): [(A, 3), (B, 1)] sends three classes in four to [A]. *)
Theorem pick_exact_share (entries : list NextHop) (q hash : Z) (Hwf : wf_hops entries) :
  bucket_count (pick entries) q 0 (Z.to_nat (total_weight entries)) = share entries q
  /\ pick entries hash = pick entries (hash mod total_weight entries).
Proof.
  pose proof (total_pos entries Hwf) as Ht.
  assert (Hmod : forall i, pick entries i = pick entries (i mod total_weight entries)).
  { intros i. rewrite (proj1 (pick_wf entries i Hwf)), (proj1 (pick_wf entries (i mod _) Hwf)).
    by rewrite Z.mod_mod by lia. }
  split; [|apply Hmod]. destruct Hwf as [Hne Hw]. rewrite <- (pick_loop_share entries q 0 Hw).
  apply bucket_count_ext. intros i Hi. rewrite Z2Nat.id in Hi by lia.
  rewrite (proj1 (pick_wf entries i (conj Hne Hw))), Z.mod_small by lia.
  destruct entries as [|h0 [|h1 hs]]; [done| |done]. simpl in *.
  destruct (Z.ltb_spec i (0 + weight h0)); [done|lia].
Qed.

(** The table stays usable.  Every operation keeps the tables sanitised (no
    empty entry, no zero weight) and the QKD neighbours a subset of the
    neighbours; and on such a table a destination has a next hop exactly when it
    is a neighbour or has an entry. *)
Theorem forwarding_invariant (ft : ForwardingTable) (t : Table) (ds : list Z) (p : Z) (q : bool)
  (Hwf : wf_ft ft) :
  wf_ft (ft_replace ft t) /\ wf_ft (ft_replace_qkd ft t) /\ wf_ft (ft_update ft t ds)
  /\ wf_ft (add_direct ft p q) /\ wf_ft (remove_direct ft p)
  /\ (forall dest hash, is_Some (next_hop ft dest hash) <->
        dest ∈ ft_direct ft \/ is_Some (ft_table ft !! dest)).
Proof.
  destruct Hwf as [Hf Hq Hd]. split_and!.
  1-5: constructor; cbn; try done; try apply sanitise_wf; try set_solver.
  - apply wf_table_delete, wf_table_union; [apply sanitise_wf|done].
  - destruct q; set_solver.
  - intros dest hash. unfold next_hop. case_bool_decide as Hin; [by split; eauto|].
    destruct (ft_table ft !! dest) as [hops|] eqn:El; simpl.
    + destruct (pick_wf hops hash (Hf _ _ El)) as [_ [x ->]]. split; eauto.
    + split; [by intros []|]. by intros [|[]].
Qed.

(** What [update] leaves for a destination: removed, replaced by the sanitised
    entry, or as it was. *)
Lemma update_lookup ft t ds d :
  ft_table (ft_update ft t ds) !! d
  = if bool_decide (d ∈ ds) then None
    else match sanitise t !! d with Some h => Some h | None => ft_table ft !! d end.
Proof.
  cbn [ft_update ft_table]. induction ds as [|x ds IH].
  - rewrite bool_decide_eq_false_2 by apply not_elem_of_nil. cbn [foldr].
    destruct (sanitise t !! d) as [h|] eqn:E.
    + by apply lookup_union_Some_l.
    + by rewrite lookup_union_r.
  - cbn [foldr]. destruct (decide (x = d)) as [->|Hne].
    + rewrite lookup_delete_eq. by rewrite bool_decide_eq_true_2 by (by left).
    + rewrite lookup_delete_ne by done. rewrite IH.
      by rewrite (bool_decide_ext (d ∈ ds) (d ∈ x :: ds)) by set_solver.
Qed.

Lemma qkd_next_hop (ft : ForwardingTable) (dest hash h : Z)
  (Hpushed : ft_qkd_table ft <> ∅)
  (Hroutes : map_Forall (fun _ hops => Forall (fun x => qkc_id x ∈ ft_direct_qkd ft) hops) (ft_qkd_table ft))
  (Hnext : next_hop_graded ft dest hash true = Some h) :
  h ∈ ft_direct_qkd ft.
Proof.
  unfold next_hop_graded in Hnext. rewrite bool_decide_eq_false_2 in Hnext by done. cbn [negb andb] in Hnext.
  case_bool_decide as Hd; [by injection Hnext as <-|].
  destruct (ft_qkd_table ft !! dest) as [hops|] eqn:El; [|done]. simpl in Hnext.
  apply pick_elem in Hnext as (x & Hx & <-).
  by apply (proj1 (Forall_forall _ _) (Hroutes _ _ El)).
Qed.

(** QKD-grade traffic stays on QKD links.  Once the controller has pushed a
    QKD table whose hops are QKD neighbours, the next hop of a QKD-grade frame, to
    any destination and for any hash, is a QKD neighbour; in particular a
    destination that is a neighbour over a PQC link is never short-circuited. *)
Theorem qkd_grade_stays_on_qkd (ft : ForwardingTable) (dest hash h : Z)
  (Hpushed : ft_qkd_table ft <> ∅)
  (Hroutes : map_Forall (fun _ hops => Forall (fun x => qkc_id x ∈ ft_direct_qkd ft) hops) (ft_qkd_table ft))
  (Hnext : next_hop_graded ft dest hash true = Some h) :
  h ∈ ft_direct_qkd ft.
Proof. by eapply qkd_next_hop. Qed.

(** ** Witnesses *)

Definition sample_hops : list NextHop := [mkHop 10 3; mkHop 11 1].
Definition sample_ft : ForwardingTable :=
  ft_replace_qkd (ft_new_with_grades {[ 10; 11; 12 ]} {[ 10; 11 ]}) {[ 22 := sample_hops ]}.

Lemma pick_exact_share_witness :
  bucket_count (pick sample_hops) 10 0 (Z.to_nat 4) = 3 /\ pick sample_hops 7 = pick sample_hops (7 mod 4).
Proof. apply (pick_exact_share sample_hops 10 7). split; [done|]. repeat constructor. Defined.

Lemma forwarding_invariant_witness :
  wf_ft (ft_update sample_ft {[ 5 := [mkHop 10 0] ]} [22]).
Proof.
  apply (forwarding_invariant sample_ft {[ 5 := [mkHop 10 0] ]} [22] 9 false).
  constructor; [apply map_Forall_empty|apply sanitise_wf|set_solver].
Defined.

Lemma qkd_grade_stays_on_qkd_witness : 11 ∈ ft_direct_qkd sample_ft.
Proof.
  apply (qkd_grade_stays_on_qkd sample_ft 22 7 11).
  - intros E. apply (f_equal (fun t : Table => t !! 22)) in E. discriminate E.
  - apply (bool_decide_unpack _). vm_compute. exact I.
  - reflexivity.
Defined.
