(* ===== verification/PeerOut.v ===== *)
(** * The outgoing queue of a peer (qkc/src/transport/peer_client.rs)

    One bounded queue and one writer task per peer.

    - [PeerSlot] is the struct ([sl_notify] and [sl_reconnect] are the permits of
      its two [Notify]); the log throttle is left out.
    - [slot_send] is the body of [PeerOut::send]; [po_send] adds
      [get_or_create].
    - [slot_connect], [slot_connect_failed], [slot_write] and [slot_hung_up] are
      the steps of [writer_loop]; [slot_step] is the relation between them and
      the callers of [send], in any interleaving.

    The theorem: whatever the interleaving of sends, connections and failures,
    the frames written are a subsequence, in order, of the frames accepted, and
    only a failed write or a full queue loses one. *)

From Stdlib Require Import ZArith Lia.
From S2P Require Import Prelude Wire.

Definition QUEUE_CAPACITY : Z := 32768.

Record PeerSlot := mkSlot {
  sl_queue : list Frame;
  sl_sent : Z;
  sl_dropped : Z;
  sl_connected : bool;
  sl_connects : Z;
  sl_notify : bool;
  sl_reconnect : bool;
}.

Definition slot_new : PeerSlot := mkSlot [] 0 0 false 0 false false.

(** [send] on the slot: the frame is queued, or dropped when the queue is full. *)
Definition slot_send (s : PeerSlot) (f : Frame) : PeerSlot * bool :=
  if zlen (sl_queue s) <? QUEUE_CAPACITY then
    (mkSlot (sl_queue s ++ [f]) (as_u 64 (sl_sent s + 1)) (sl_dropped s) (sl_connected s)
       (sl_connects s) true (sl_reconnect s), true)
  else
    (mkSlot (sl_queue s) (sl_sent s) (as_u 64 (sl_dropped s + 1)) (sl_connected s)
       (sl_connects s) (sl_notify s) (sl_reconnect s), false).

Abbreviation PeerOut := (gmap Z PeerSlot).

Definition get_or_create (po : PeerOut) (peer : Z) : PeerSlot := default slot_new (po !! peer).

Definition po_send (po : PeerOut) (peer : Z) (f : Frame) : PeerOut * bool :=
  let '(s, ok) := slot_send (get_or_create po peer) f in
  (<[peer := s]> po, ok).

(** [writer_loop]: a connection succeeded. *)
Definition slot_connect (s : PeerSlot) : PeerSlot :=
  mkSlot (sl_queue s) (sl_sent s) (sl_dropped s) true (as_u 64 (sl_connects s + 1)) (sl_notify s)
    (if sl_connects s >? 0 then true else sl_reconnect s).

(** A frame is popped and written ([ok]) or the write fails and the socket is
    given up; the frame is gone in both cases. *)
Definition slot_write (s : PeerSlot) (ok : bool) : PeerSlot * option Frame :=
  match sl_queue s with
  | [] => (s, None)
  | f :: q =>
      (mkSlot q (sl_sent s) (sl_dropped s) (if ok then sl_connected s else false)
         (sl_connects s) (sl_notify s) (sl_reconnect s),
       if ok then Some f else None)
  end.

Definition slot_hung_up (s : PeerSlot) : PeerSlot :=
  mkSlot (sl_queue s) (sl_sent s) (sl_dropped s) false (sl_connects s) (sl_notify s) (sl_reconnect s).

(** ** Interleavings

    The state of a run: the slot, the frames accepted by [send], the frames
    written to the socket and the frames lost to a failed write. *)

Record out_state := mkOut {
  os_slot : PeerSlot;
  os_accepted : list Frame;
  os_written : list Frame;
  os_lost : nat;
}.

Inductive slot_step : out_state -> out_state -> Prop :=
  | step_send s acc wr n f s' :
      slot_send s f = (s', true) -> slot_step (mkOut s acc wr n) (mkOut s' (acc ++ [f]) wr n)
  | step_send_full s acc wr n f s' :
      slot_send s f = (s', false) -> slot_step (mkOut s acc wr n) (mkOut s' acc wr n)
  | step_connect s acc wr n :
      sl_connected s = false -> slot_step (mkOut s acc wr n) (mkOut (slot_connect s) acc wr n)
  | step_write s acc wr n s' f :
      sl_connected s = true -> slot_write s true = (s', Some f) ->
      slot_step (mkOut s acc wr n) (mkOut s' acc (wr ++ [f]) n)
  | step_write_err s acc wr n s' :
      sl_connected s = true -> sl_queue s <> [] -> slot_write s false = (s', None) ->
      slot_step (mkOut s acc wr n) (mkOut s' acc wr (S n))
  | step_hung_up s acc wr n :
      sl_connected s = true -> slot_step (mkOut s acc wr n) (mkOut (slot_hung_up s) acc wr n).

Inductive slot_reach : out_state -> Prop :=
  | reach_init : slot_reach (mkOut slot_new [] [] 0)
  | reach_step o o' : slot_reach o -> slot_step o o' -> slot_reach o'.

Record out_inv (o : out_state) : Prop := {
  oi_order : exists done, os_accepted o = done ++ sl_queue (os_slot o) /\ sublist (os_written o) done
                          /\ length done = (length (os_written o) + os_lost o)%nat;
  oi_bound : zlen (sl_queue (os_slot o)) <= QUEUE_CAPACITY;
}.

Lemma out_inv_step o o' : out_inv o -> slot_step o o' -> out_inv o'.
Proof.
  intros [(done & Ha & Hsub & Hlen) Hb] Hstep.
  destruct Hstep as [s acc wr n f s' Hs|s acc wr n f s' Hs|s acc wr n Hc|s acc wr n s' f Hc Hw
    |s acc wr n s' Hc Hq Hw|s acc wr n Hc]; simpl in *; subst.
  - unfold slot_send in Hs. destruct (Z.ltb_spec (zlen (sl_queue s)) QUEUE_CAPACITY); [|done].
    injection Hs as <-. constructor; simpl.
    + exists done. by rewrite app_assoc.
    + rewrite zlen_app, zlen_cons, zlen_nil. lia.
  - unfold slot_send in Hs. destruct (_ <? _); [done|]. injection Hs as <-.
    constructor; simpl; [by exists done|done].
  - constructor; simpl; [by exists done|done].
  - unfold slot_write in Hw. destruct (sl_queue s) as [|f0 q] eqn:Eq; [done|]. injection Hw as <- <-.
    constructor; simpl.
    + exists (done ++ [f0]). rewrite <- app_assoc. split_and!; [done|by apply sublist_app|].
      rewrite !length_app. simpl. lia.
    + rewrite zlen_cons in Hb. lia.
  - unfold slot_write in Hw. destruct (sl_queue s) as [|f0 q] eqn:Eq; [done|]. injection Hw as <-.
    constructor; simpl.
    + exists (done ++ [f0]). rewrite <- app_assoc. split_and!; [done|by apply sublist_inserts_r|].
      rewrite length_app. simpl. lia.
    + rewrite zlen_cons in Hb. lia.
  - constructor; simpl; [by exists done|done].
Qed.

(** The link preserves order and loses only what the code says it loses.  In
    every reachable state of a peer queue, over any interleaving of senders and
    the writer task, connections and disconnections included, the frames written
    are in the order they were accepted; every accepted frame is written, still
    queued, or the one a failed write was holding.  The queue never exceeds its
    capacity. *)
Theorem peer_queue_order (o : out_state) (Hreach : slot_reach o) :
  (exists done, os_accepted o = done ++ sl_queue (os_slot o) /\ sublist (os_written o) done)
  /\ length (os_accepted o) = (length (os_written o) + os_lost o + length (sl_queue (os_slot o)))%nat
  /\ zlen (sl_queue (os_slot o)) <= QUEUE_CAPACITY.
Proof.
  assert (Hinv : out_inv o).
  { induction Hreach as [|o o' _ IH Hstep]; [|by eapply out_inv_step].
    constructor; simpl; [by exists []|vm_compute; discriminate]. }
  destruct Hinv as [(done & Ha & Hsub & Hlen) Hb]. split_and!; [eauto| |done].
  rewrite Ha, length_app. lia.
Qed.

(** Frames queued while the link is down are kept.  A frame sent while the
    socket is closed waits in the queue and is the next one written after the
    reconnection. *)
Theorem queued_while_down_is_sent (s : PeerSlot) (f : Frame)
  (Hdown : sl_connected s = false) (Hempty : sl_queue s = []) :
  let '(s1, ok) := slot_send s f in
  ok = true /\ snd (slot_write (slot_connect s1) true) = Some f.
Proof. unfold slot_send. rewrite Hempty. done. Qed.

(** ** Witnesses *)

Lemma peer_queue_order_witness :
  length [Frame_empty 1] = (length (@nil Frame) + 0 + 1)%nat.
Proof.
  apply (peer_queue_order (mkOut (fst (slot_send slot_new (Frame_empty 1))) [Frame_empty 1] [] 0)).
  eapply reach_step; [apply reach_init|]. by apply (step_send slot_new [] [] 0 (Frame_empty 1)).
Defined.

Lemma queued_while_down_is_sent_witness :
  let '(s1, ok) := slot_send slot_new (Frame_empty 1) in
  ok = true /\ snd (slot_write (slot_connect s1) true) = Some (Frame_empty 1).
Proof. by apply (queued_while_down_is_sent slot_new (Frame_empty 1)). Defined.
