(* ===== verification/KeyStore.v ===== *)
(** * The key buffers of a link (qkc/src/keystore.rs)

    - [KeyStore] is the struct: the ENC ring, the DEC map, the ids announced by
      the peer and not yet fetched, and the counters ([ks_count]).  A [Notify] is
      its stored permit; the sequence counters are kept.
    - [take_enc], [take_enc_batch], [lookup_dec], [notify_remote_enc],
      [is_dec_announced], [absorb_enc_keys], [send_notify], [bank_batch_size] are
      the methods.  [dec_drain], [dec_unannounce] and [dec_store] are the three
      critical sections of one turn of [dec_refill_loop]; [dec_refill_failed] its
      error branch.
    - [wait_enc_batch] and [wait_dec] take a schedule: what the rest of the
      process does to the store each time the caller goes to sleep; the end of the
      schedule is the deadline.
    - The rate estimator and the outgoing queue are other components: the store
      keeps the calls it makes to the first ([ks_est]) and returns the frame for
      the second. *)

From Stdlib Require Import ZArith Lia.
From S2P Require Import Prelude Wire ReplayWindow FrameMac QkcTypes SecretStore FrameAuth.

Definition REFILL_THRESHOLD : Z := 256.
Definition REFILL_BATCH : Z := 128.
Definition DEC_BATCH_MAX : Z := 128.
Definition DEC_PENDING_MAX : Z := 65536.
Definition BANK_HIGH_WATER_NUM : Z := 3.
Definition BANK_HIGH_WATER_DEN : Z := 4.
Definition BANK_RING_HEADROOM : Z := 512.

(** The counters of the struct. *)
Inductive ks_counter :=
  | n_enc_taken | n_dec_lookups | n_dec_misses | n_refills_enc | n_enc_dropped_full
  | n_notify_dropped | n_refills_dec
  | n_wait_enc_called | n_wait_enc_succeeded | n_wait_enc_timeouts
  | n_wait_dec_called | n_wait_dec_succeeded | n_wait_dec_timeouts.

#[export] Instance ks_counter_eq_dec : EqDecision ks_counter.
Proof. solve_decision. Defined.

(** The calls to the rate estimator. *)
Inductive est_call :=
  | OnDelivered (n : Z)
  | OnPeerDrained (n : Z)
  | OnPeerDrainedShortfall (n : Z).

Record KeyStore := mkKs {
  ks_enc : list OtpKey;
  ks_dec : gmap bytes bytes;
  ks_enc_low : bool;
  ks_dec_pending : list bytes;
  ks_dec_announced : gset bytes;
  ks_dec_request : bool;
  ks_dec_inserted_seq : Z;
  ks_enc_inserted_seq : Z;
  ks_est : list est_call;
  ks_count : ks_counter -> Z;
  ks_my_id : Z;
  ks_peer_id : Z;
  ks_key_size_bits : Z;
}.

Definition ENC_CAP : Z := BUFFER_TARGET * 2.

Definition ks_new (my_id peer_id bits : Z) : KeyStore :=
  mkKs [] ∅ false [] ∅ false 0 0 [] (fun _ => 0) my_id peer_id (as_u 16 bits).

Definition bump (c : ks_counter) (n : Z) (ks : KeyStore) : KeyStore :=
  mkKs (ks_enc ks) (ks_dec ks) (ks_enc_low ks) (ks_dec_pending ks) (ks_dec_announced ks)
    (ks_dec_request ks) (ks_dec_inserted_seq ks) (ks_enc_inserted_seq ks) (ks_est ks)
    (fun c' => if decide (c' = c) then as_u 64 (ks_count ks c' + n) else ks_count ks c')
    (ks_my_id ks) (ks_peer_id ks) (ks_key_size_bits ks).

Definition with_enc (q : list OtpKey) (low : bool) (ks : KeyStore) : KeyStore :=
  mkKs q (ks_dec ks) low (ks_dec_pending ks) (ks_dec_announced ks) (ks_dec_request ks)
    (ks_dec_inserted_seq ks) (ks_enc_inserted_seq ks) (ks_est ks) (ks_count ks)
    (ks_my_id ks) (ks_peer_id ks) (ks_key_size_bits ks).

Definition with_dec (m : gmap bytes bytes) (seq : Z) (ks : KeyStore) : KeyStore :=
  mkKs (ks_enc ks) m (ks_enc_low ks) (ks_dec_pending ks) (ks_dec_announced ks)
    (ks_dec_request ks) seq (ks_enc_inserted_seq ks) (ks_est ks) (ks_count ks)
    (ks_my_id ks) (ks_peer_id ks) (ks_key_size_bits ks).

Definition with_pending (p : list bytes) (a : gset bytes) (req : bool) (ks : KeyStore) : KeyStore :=
  mkKs (ks_enc ks) (ks_dec ks) (ks_enc_low ks) p a req (ks_dec_inserted_seq ks)
    (ks_enc_inserted_seq ks) (ks_est ks) (ks_count ks)
    (ks_my_id ks) (ks_peer_id ks) (ks_key_size_bits ks).

Definition with_est (e : est_call) (ks : KeyStore) : KeyStore :=
  mkKs (ks_enc ks) (ks_dec ks) (ks_enc_low ks) (ks_dec_pending ks) (ks_dec_announced ks)
    (ks_dec_request ks) (ks_dec_inserted_seq ks) (ks_enc_inserted_seq ks) (ks_est ks ++ [e])
    (ks_count ks) (ks_my_id ks) (ks_peer_id ks) (ks_key_size_bits ks).

Definition with_enc_seq (s : Z) (ks : KeyStore) : KeyStore :=
  mkKs (ks_enc ks) (ks_dec ks) (ks_enc_low ks) (ks_dec_pending ks) (ks_dec_announced ks)
    (ks_dec_request ks) (ks_dec_inserted_seq ks) s (ks_est ks)
    (ks_count ks) (ks_my_id ks) (ks_peer_id ks) (ks_key_size_bits ks).

(** ** The ENC ring *)

Definition take_enc (ks : KeyStore) : KeyStore * option OtpKey :=
  match ks_enc ks with
  | [] => (ks, None)
  | k :: q =>
      let ks := bump n_enc_taken 1 ks in
      (with_enc q (if zlen q <? REFILL_THRESHOLD then true else ks_enc_low ks) ks, Some k)
  end.

Definition take_enc_batch (ks : KeyStore) (n : nat) : KeyStore * list OtpKey :=
  let out := take n (ks_enc ks) in
  let q := drop n (ks_enc ks) in
  let ks := if (length out =? 0)%nat then ks else bump n_enc_taken (zlen out) ks in
  (with_enc q (if zlen q <? REFILL_THRESHOLD then true else ks_enc_low ks) ks, out).

(** The loop of [wait_enc_batch], [out] already taken. *)
Fixpoint wait_enc_loop (sched : list (KeyStore -> KeyStore)) (ks : KeyStore) (n : nat)
    (out : list OtpKey) : KeyStore * res QkcError (list OtpKey) :=
  if (length out <? n)%nat then
    let '(ks, extra) := take_enc_batch ks (n - length out) in
    let out := out ++ extra in
    if (length out =? n)%nat then (bump n_wait_enc_succeeded 1 ks, Ok out)
    else
      match sched with
      | [] => (bump n_wait_enc_timeouts 1 ks, Err (KeyWaitTimeout WaitEnc (Z.of_nat (n - length out)) 30000))
      | step :: sched => wait_enc_loop sched (step (with_enc (ks_enc ks) true ks)) n out
      end
  else (bump n_wait_enc_succeeded 1 ks, Ok out).

Definition wait_enc_batch (sched : list (KeyStore -> KeyStore)) (ks : KeyStore) (n : nat)
    : KeyStore * res QkcError (list OtpKey) :=
  let ks := bump n_wait_enc_called 1 ks in
  let '(ks, out) := take_enc_batch ks n in
  wait_enc_loop sched ks n out.

(** ** The DEC map *)

Definition lookup_dec (ks : KeyStore) (id : bytes) : KeyStore * option bytes :=
  let ks := bump n_dec_lookups 1 ks in
  match ks_dec ks !! id with
  | Some v => (with_dec (delete id (ks_dec ks)) (ks_dec_inserted_seq ks) ks, Some v)
  | None => (bump n_dec_misses 1 ks, None)
  end.

Fixpoint wait_dec_loop (sched : list (KeyStore -> KeyStore)) (ks : KeyStore) (id : bytes)
    : KeyStore * res QkcError bytes :=
  match lookup_dec ks id with
  | (ks, Some v) => (bump n_wait_dec_succeeded 1 ks, Ok v)
  | (ks, None) =>
      match sched with
      | [] => (bump n_wait_dec_timeouts 1 ks, Err (KeyWaitTimeout WaitDec 1 2000))
      | step :: sched => wait_dec_loop sched (step ks) id
      end
  end.

Definition wait_dec (sched : list (KeyStore -> KeyStore)) (ks : KeyStore) (id : bytes)
    : KeyStore * res QkcError bytes :=
  wait_dec_loop sched (bump n_wait_dec_called 1 ks) id.

Definition notify_remote_enc (ks : KeyStore) (ids : list bytes) : KeyStore :=
  let room := Z.to_nat (sat_sub DEC_PENDING_MAX (zlen (ks_dec_pending ks))) in
  let ks := if (room <? length ids)%nat
            then bump n_notify_dropped (Z.of_nat (length ids - room)) ks else ks in
  let ids := take room ids in
  let ks := with_pending (ks_dec_pending ks ++ ids) (ks_dec_announced ks) (ks_dec_request ks) ks in
  let ks := with_est (OnPeerDrained (zlen ids)) ks in
  with_pending (ks_dec_pending ks) (list_to_set ids ∪ ks_dec_announced ks) true ks.

Definition is_dec_announced (ks : KeyStore) (id : bytes) : bool :=
  bool_decide (id ∈ ks_dec_announced ks).

(** One turn of [dec_refill_loop]: the batch is drained, the source asked, ... *)
Definition dec_drain (ks : KeyStore) : KeyStore * list bytes :=
  let n := Z.to_nat (Z.min (zlen (ks_dec_pending ks)) DEC_BATCH_MAX) in
  (with_pending (drop n (ks_dec_pending ks)) (ks_dec_announced ks) (ks_dec_request ks) ks,
   take n (ks_dec_pending ks)).

(** ... its answer counted and the ids forgotten, ... *)
Definition dec_unannounce (ks : KeyStore) (ids : list bytes) (received : nat) : KeyStore :=
  let ks := bump n_refills_dec 1 ks in
  let ks := if (received <? length ids)%nat
            then with_est (OnPeerDrainedShortfall (Z.of_nat (length ids - received))) ks else ks in
  with_pending (ks_dec_pending ks) (ks_dec_announced ks ∖ list_to_set ids) (ks_dec_request ks) ks.

(** ... and the keys stored for the frames that wait. *)
Definition dec_store (ks : KeyStore) (keys : list OtpKey) : KeyStore :=
  with_dec (fold_left (fun m k => <[key_id k := material k]> m) keys (ks_dec ks))
    (as_u 64 (ks_dec_inserted_seq ks + 1)) ks.

Definition dec_refill_ok (ks : KeyStore) (ids : list bytes) (keys : list OtpKey) : KeyStore :=
  dec_store (dec_unannounce ks ids (length keys)) keys.

Definition dec_refill_failed (ks : KeyStore) (ids : list bytes) : KeyStore :=
  let ks := with_est (OnPeerDrainedShortfall (zlen ids)) ks in
  with_pending (ks_dec_pending ks) (ks_dec_announced ks ∖ list_to_set ids) (ks_dec_request ks) ks.

(** ** Refill and notification *)

(** [ArrayQueue::push] for every key of a batch. *)
Fixpoint enc_push (ks : KeyStore) (keys : list OtpKey) : KeyStore :=
  match keys with
  | [] => ks
  | k :: keys =>
      enc_push (if zlen (ks_enc ks) <? ENC_CAP then with_enc (ks_enc ks ++ [k]) (ks_enc_low ks) ks
                else bump n_enc_dropped_full 1 ks) keys
  end.

Definition bank_batch_size (stored max ring_len ring_cap : Z) : option Z :=
  if (max =? 0) || (stored <? max / BANK_HIGH_WATER_DEN * BANK_HIGH_WATER_NUM) then None else
  let space := sat_sub ring_cap ring_len in
  if space <=? BANK_RING_HEADROOM then None else
  let batch := Z.min (Z.min (space - BANK_RING_HEADROOM) REFILL_BATCH) stored in
  if (batch <=? u_max 32) && (batch >? 0) then Some batch else None.

(** The batch [enc_refill_loop] asks for while the ring is low; [None] when it
    goes back to sleep. *)
Definition refill_batch (ks : KeyStore) : option Z :=
  if zlen (ks_enc ks) <? REFILL_THRESHOLD
  then Some (Z.max 1 (Z.min (as_u 32 (ENC_CAP - zlen (ks_enc ks))) REFILL_BATCH))
  else None.

Definition notify_frame (ks : KeyStore) (ids : list bytes) : Frame :=
  mkFrame FRAME_KEY_IDS_NOTIFY 0 (ks_my_id ks) (ks_peer_id ks) (ks_peer_id ks)
    (ks_key_size_bits ks) 0 [] [] [] (encode_notify_payload ids).

Section Notify.
Context `{MacCrypto}.

(** [send_notify]: the sealed frame for the outgoing queue. *)
Definition send_notify (ks : KeyStore) (fa : option LinkFrameAuth) (st : SecretStore) (ids : list bytes)
    : res FrameAuthError (option LinkFrameAuth * Frame) :=
  seal_opt fa st (notify_frame ks ids).

(** [absorb_enc_keys]: push, count, and announce the ids to the peer.  The frame
    is for the outgoing queue; [notify_queued] counts one it refuses. *)
Definition absorb_enc_keys (ks : KeyStore) (fa : option LinkFrameAuth) (st : SecretStore)
    (keys : list OtpKey) : res FrameAuthError (KeyStore * option LinkFrameAuth * Frame) :=
  let ks := with_est (OnDelivered (zlen keys)) ks in
  let ks := bump n_refills_enc 1 ks in
  let ks := enc_push ks keys in
  let ks := with_enc_seq (as_u 64 (ks_enc_inserted_seq ks + 1)) ks in
  let* (fa, f) := send_notify ks fa st (map key_id keys) in
  Ok (ks, fa, f).

End Notify.

Definition notify_queued (ks : KeyStore) (queued : bool) : KeyStore :=
  if queued then ks else bump n_notify_dropped 1 ks.

(** ** Runs of the store

    Handlers, the DEC worker and the refill workers interleave; a run records
    what was accepted into the ring, taken from it, stored in the DEC map and
    served from it.  The worker is between two of its critical sections. *)

Inductive dec_worker :=
  | WIdle
  | WFetching (ids : list bytes)
  | WStoring (keys : list OtpKey).

Record ks_run := mkRun {
  kr_ks : KeyStore;
  kr_worker : dec_worker;
  kr_accepted : list OtpKey;
  kr_taken : list OtpKey;
  kr_stored : list OtpKey;
  kr_served : list OtpKey;
}.

Inductive ks_step : ks_run -> ks_run -> Prop :=
  | do_push ks w acc tk sd sv keys :
      ks_step (mkRun ks w acc tk sd sv)
        (mkRun (enc_push ks keys) w (acc ++ drop (length (ks_enc ks)) (ks_enc (enc_push ks keys))) tk sd sv)
  | do_take ks w acc tk sd sv ks' k :
      take_enc ks = (ks', Some k) -> ks_step (mkRun ks w acc tk sd sv) (mkRun ks' w acc (tk ++ [k]) sd sv)
  | do_take_batch ks w acc tk sd sv n ks' out :
      take_enc_batch ks n = (ks', out) ->
      ks_step (mkRun ks w acc tk sd sv) (mkRun ks' w acc (tk ++ out) sd sv)
  | do_notify ks w acc tk sd sv ids :
      ks_step (mkRun ks w acc tk sd sv) (mkRun (notify_remote_enc ks ids) w acc tk sd sv)
  | do_drain ks acc tk sd sv ks' ids :
      dec_drain ks = (ks', ids) ->
      ks_step (mkRun ks WIdle acc tk sd sv) (mkRun ks' (WFetching ids) acc tk sd sv)
  | do_unannounce ks acc tk sd sv ids keys :
      ks_step (mkRun ks (WFetching ids) acc tk sd sv)
        (mkRun (dec_unannounce ks ids (length keys)) (WStoring keys) acc tk sd sv)
  | do_store ks acc tk sd sv keys :
      ks_step (mkRun ks (WStoring keys) acc tk sd sv)
        (mkRun (dec_store ks keys) WIdle acc tk (sd ++ keys) sv)
  | do_failed ks acc tk sd sv ids :
      ks_step (mkRun ks (WFetching ids) acc tk sd sv) (mkRun (dec_refill_failed ks ids) WIdle acc tk sd sv)
  | do_lookup ks w acc tk sd sv id ks' v :
      lookup_dec ks id = (ks', Some v) ->
      ks_step (mkRun ks w acc tk sd sv) (mkRun ks' w acc tk sd (sv ++ [mkKey id v]))
  | do_miss ks w acc tk sd sv id ks' :
      lookup_dec ks id = (ks', None) -> ks_step (mkRun ks w acc tk sd sv) (mkRun ks' w acc tk sd sv).

Inductive ks_reach (ks0 : KeyStore) : ks_run -> Prop :=
  | ks_reach_init : ks_reach ks0 (mkRun ks0 WIdle [] [] [] [])
  | ks_reach_step r r' : ks_reach ks0 r -> ks_step r r' -> ks_reach ks0 r'.

(** *** The ring *)

Lemma enc_push_app ks keys :
  exists l, ks_enc (enc_push ks keys) = ks_enc ks ++ l /\ sublist l keys
    /\ ks_dec (enc_push ks keys) = ks_dec ks
    /\ ks_dec_pending (enc_push ks keys) = ks_dec_pending ks
    /\ ks_dec_announced (enc_push ks keys) = ks_dec_announced ks
    /\ (zlen (ks_enc ks) <= ENC_CAP -> zlen (ks_enc (enc_push ks keys)) <= ENC_CAP)
    /\ (zlen (ks_enc ks) + zlen keys <= ENC_CAP -> l = keys
        /\ ks_count (enc_push ks keys) n_enc_dropped_full = ks_count ks n_enc_dropped_full).
Proof.
  revert ks. induction keys as [|k keys IH]; intros ks; simpl.
  { exists []. rewrite app_nil_r. split_and!; done. }
  destruct (Z.ltb_spec (zlen (ks_enc ks)) ENC_CAP) as [Hlt|Hge].
  - destruct (IH (with_enc (ks_enc ks ++ [k]) (ks_enc_low ks) ks))
      as (l & Hl & Hsub & Hd & Hp & Ha & Hb & Hf). cbn in *.
    exists (k :: l). rewrite <- app_assoc in Hl. rewrite zlen_app, zlen_cons, zlen_nil in *.
    split_and!; try done; [by constructor|lia|].
    intros Hle. rewrite ?zlen_cons in Hle. destruct Hf as [-> Hc]; [lia|]. done.
  - destruct (IH (bump n_enc_dropped_full 1 ks)) as (l & Hl & Hsub & Hd & Hp & Ha & Hb & Hf). cbn in *.
    exists l. split_and!; try done; [by constructor|]. rewrite zlen_cons. pose proof (zlen_nonneg keys). lia.
Qed.

Lemma enc_push_ids ks keys :
  ks_my_id (enc_push ks keys) = ks_my_id ks /\ ks_peer_id (enc_push ks keys) = ks_peer_id ks
  /\ ks_key_size_bits (enc_push ks keys) = ks_key_size_bits ks.
Proof.
  revert ks. induction keys as [|k keys IH]; intros ks; [done|]. cbn [enc_push].
  destruct (_ <? _); [apply (IH (with_enc _ _ _))|apply (IH (bump _ _ _))].
Qed.

(** *** The DEC map *)

Definition id_count (id : bytes) (l : list OtpKey) : nat := length (List.filter (fun k => bool_decide (key_id k = id)) l).

Lemma id_count_app id l1 l2 : id_count id (l1 ++ l2) = (id_count id l1 + id_count id l2)%nat.
Proof. unfold id_count. by rewrite List.filter_app, length_app. Qed.

Definition in_dec (m : gmap bytes bytes) (id : bytes) : nat := if decide (is_Some (m !! id)) then 1 else 0.

Arguments id_count : simpl never.
Arguments in_dec : simpl never.

Lemma fold_insert_in_dec (keys : list OtpKey) (m : gmap bytes bytes) (id : bytes) :
  (in_dec (fold_left (fun m k => <[key_id k := material k]> m) keys m) id
   <= in_dec m id + id_count id keys)%nat.
Proof.
  revert m. induction keys as [|k keys IH]; intros m; simpl; [unfold id_count; simpl; lia|].
  specialize (IH (<[key_id k := material k]> m)). unfold id_count in *. simpl.
  assert (in_dec (<[key_id k := material k]> m) id
          <= in_dec m id + if bool_decide (key_id k = id) then 1 else 0)%nat.
  { unfold in_dec. case_bool_decide as Hk.
    - destruct (decide _), (decide _); lia.
    - rewrite lookup_insert_ne by done. lia. }
  case_bool_decide; simpl; lia.
Qed.

Lemma fold_insert_elem (keys : list OtpKey) (m : gmap bytes bytes) (id v : bytes) :
  fold_left (fun m k => <[key_id k := material k]> m) keys m !! id = Some v ->
  m !! id = Some v \/ mkKey id v ∈ keys.
Proof.
  revert m. induction keys as [|k keys IH]; intros m; simpl; [by left|].
  intros [Hl|Hin]%IH; [|right; by right].
  apply lookup_insert_Some in Hl as [[<- <-]|[_ Hl]]; [|by left]. right.
  replace (mkKey (key_id k) (material k)) with k by (by destruct k). by left.
Qed.

Record run_inv (r : ks_run) : Prop := {
  ri_fifo : kr_accepted r = kr_taken r ++ ks_enc (kr_ks r);
  ri_cap : zlen (ks_enc (kr_ks r)) <= ENC_CAP;
  ri_pending : zlen (ks_dec_pending (kr_ks r)) <= DEC_PENDING_MAX;
  ri_once : forall id, (id_count id (kr_served r) + in_dec (ks_dec (kr_ks r)) id
                        <= id_count id (kr_stored r))%nat;
  ri_dec : forall id v, ks_dec (kr_ks r) !! id = Some v -> mkKey id v ∈ kr_stored r;
  ri_served : forall k, k ∈ kr_served r -> k ∈ kr_stored r;
}.

Lemma in_dec_delete m id x : (in_dec (delete id m) x = if decide (x = id) then 0 else in_dec m x)%nat.
Proof.
  unfold in_dec. destruct (decide (x = id)) as [->|Hne].
  - rewrite lookup_delete_eq. by destruct (decide (is_Some None)) as [[]|].
  - by rewrite lookup_delete_ne.
Qed.

Lemma run_inv_step r r' : run_inv r -> ks_step r r' -> run_inv r'.
Proof.
  intros [Hf Hc Hp Ho Hd Hs] Hstep.
  destruct Hstep as [ks w acc tk sd sv keys|ks w acc tk sd sv ks' k Ht|ks w acc tk sd sv n ks' out Ht
    |ks w acc tk sd sv ids|ks acc tk sd sv ks' ids Hdr|ks acc tk sd sv ids keys|ks acc tk sd sv keys
    |ks acc tk sd sv ids|ks w acc tk sd sv id ks' v Hl|ks w acc tk sd sv id ks' Hl];
    cbn [kr_ks kr_accepted kr_taken kr_stored kr_served kr_worker] in *.
  - destruct (enc_push_app ks keys) as (l & Hl & _ & Hd' & Hp' & _ & Hb & _).
    constructor; cbn; rewrite ?Hd', ?Hp'; try done; [|by apply Hb].
    rewrite Hl, drop_app_length, Hf. by rewrite app_assoc.
  - unfold take_enc in Ht. destruct (ks_enc ks) as [|k0 q] eqn:Eq; [done|]. injection Ht as <- <-.
    constructor; cbn; try done; [by rewrite <- app_assoc|]. rewrite zlen_cons in Hc. lia.
  - unfold take_enc_batch in Ht. injection Ht as <- <-.
    assert (Hsame : forall c, ks_dec c = ks_dec ks -> ks_dec_pending c = ks_dec_pending ks ->
      run_inv (mkRun (with_enc (drop n (ks_enc ks)) (if zlen (drop n (ks_enc ks)) <? REFILL_THRESHOLD
        then true else ks_enc_low c) c) w acc (tk ++ take n (ks_enc ks)) sd sv)).
    { intros c E1 E2. constructor; cbn; rewrite ?E1, ?E2; try done.
      - rewrite <- app_assoc, take_drop. done.
      - unfold zlen in *. rewrite length_drop. lia. }
    destruct (length (take n (ks_enc ks)) =? 0)%nat; by apply Hsame.
  - unfold notify_remote_enc. set (room := Z.to_nat _).
    assert (Hpend : zlen (ks_dec_pending ks ++ take room ids) <= DEC_PENDING_MAX).
    { rewrite zlen_app. unfold zlen in *. rewrite length_take. unfold room, sat_sub. lia. }
    destruct (room <? length ids)%nat; constructor; cbn; done.
  - unfold dec_drain in Hdr. injection Hdr as <- <-. constructor; cbn; try done.
    unfold zlen in *. rewrite length_drop. lia.
  - unfold dec_unannounce. destruct (length keys <? length ids)%nat; constructor; cbn; done.
  - constructor; cbn; try done.
    + intros id. rewrite id_count_app. specialize (Ho id).
      pose proof (fold_insert_in_dec keys (ks_dec ks) id). lia.
    + intros id v [Hv|Hv]%fold_insert_elem; apply elem_of_app; [left; by apply Hd|by right].
    + intros k Hk. apply elem_of_app. left. by apply Hs.
  - constructor; cbn; done.
  - unfold lookup_dec in Hl. cbn in Hl. destruct (ks_dec ks !! id) as [v'|] eqn:El; [|done].
    injection Hl as <- <-. constructor; cbn; try done.
    + intros x. rewrite id_count_app, in_dec_delete. specialize (Ho x). unfold id_count at 2. cbn.
      destruct (decide (x = id)) as [->|Hne].
      * rewrite bool_decide_eq_true_2 by done. unfold in_dec in Ho. rewrite El in Ho.
        destruct (decide (is_Some (Some v'))) as [|Hn]; [simpl; lia|destruct Hn; by eexists].
      * rewrite bool_decide_eq_false_2 by done. simpl. lia.
    + intros x u Hx. apply lookup_delete_Some in Hx as [_ Hx]. by apply Hd.
    + intros k [Hk| ->%list_elem_of_singleton]%elem_of_app; [by apply Hs|by apply Hd].
  - unfold lookup_dec in Hl. cbn in Hl. destruct (ks_dec ks !! id) as [v'|]; [done|].
    injection Hl as <-. constructor; cbn; done.
Qed.

Lemma id_count_NoDup l :
  (forall id, (id_count id l <= 1)%nat) -> NoDup (map key_id l).
Proof.
  intros Hc. induction l as [|k l IH]; [apply NoDup_nil_2|]. simpl. apply NoDup_cons. split.
  - intros (k' & He & Hin)%list_elem_of_fmap. specialize (Hc (key_id k)). unfold id_count in Hc. simpl in Hc.
    rewrite bool_decide_eq_true_2 in Hc by done. simpl in Hc.
    assert (Hk' : In k' (List.filter (fun x => bool_decide (key_id x = key_id k)) l)).
    { apply List.filter_In. split; [by apply list_elem_of_In|]. by apply bool_decide_eq_true_2. }
    destruct (List.filter _ l); [done|simpl in Hc; lia].
  - apply IH. intros id. specialize (Hc id). unfold id_count in *. simpl in Hc.
    case_bool_decide; simpl in Hc; lia.
Qed.

Lemma NoDup_id_count l id : NoDup (map key_id l) -> (id_count id l <= 1)%nat.
Proof.
  induction l as [|k l IH]; intros Hnd; [simpl; unfold id_count; simpl; lia|]. simpl in Hnd.
  apply NoDup_cons in Hnd as [Hk Hnd]. specialize (IH Hnd). unfold id_count in *. simpl.
  case_bool_decide as He; [|done]. simpl.
  destruct (List.filter _ l) as [|k' l'] eqn:Ef; [simpl; lia|].
  assert (Hin : In k' (List.filter (fun x => bool_decide (key_id x = id)) l)) by (rewrite Ef; by left).
  apply List.filter_In in Hin as [Hin Hk'%bool_decide_eq_true]. destruct Hk. rewrite He, <- Hk'.
  apply list_elem_of_fmap. exists k'. split; [done|by apply list_elem_of_In].
Qed.

(** C31: a pad is never used twice.  Over every interleaving of relay handlers and
    workers: keys leave the ENC ring in the order they entered and each at most
    once; and if the source never stores two keys under one id, no id is ever
    served twice from the DEC map, and what is served is the material that was
    stored under that id. *)
Theorem pads_used_once (ks0 : KeyStore) (r : ks_run)
  (Hempty : ks_enc ks0 = [] /\ ks_dec ks0 = ∅ /\ ks_dec_pending ks0 = [])
  (Hreach : ks_reach ks0 r)
  (Hfresh : NoDup (map key_id (kr_stored r))) :
  kr_accepted r = kr_taken r ++ ks_enc (kr_ks r)
  /\ (NoDup (map key_id (kr_accepted r)) -> NoDup (map key_id (kr_taken r)))
  /\ NoDup (map key_id (kr_served r))
  /\ (forall k, k ∈ kr_served r -> k ∈ kr_stored r).
Proof.
  assert (Hinv : run_inv r).
  { destruct Hempty as (E1 & E2 & E3). clear Hfresh.
    induction Hreach as [|r r' _ IH Hstep]; [|by eapply run_inv_step].
    constructor; cbn; rewrite ?E1, ?E2, ?E3; done. }
  destruct Hinv as [Hf _ _ Ho _ Hs]. split_and!; [done| | |done].
  - rewrite Hf, map_app. by intros [? _]%NoDup_app.
  - apply id_count_NoDup. intros id. pose proof (NoDup_id_count _ id Hfresh). specialize (Ho id). lia.
Qed.

(** The refill workers never overflow the ring.  The batch the demand refill
    asks for fits; a banking batch leaves room for a demand refill that lands in
    between; so no paid key is dropped, and banking only happens above the
    high-water mark, for at most what the source holds. *)
Theorem refill_fits (ks : KeyStore) (stored max b r : Z) (keys keys' : list OtpKey)
  (Hcap : zlen (ks_enc ks) <= ENC_CAP)
  (Hbank : bank_batch_size stored max (zlen (ks_enc ks)) ENC_CAP = Some b)
  (Hr : zlen keys <= REFILL_BATCH) (Hk : zlen keys' <= b) :
  0 < b <= REFILL_BATCH /\ b <= stored /\ max / 4 * 3 <= stored
  /\ ks_enc (enc_push (enc_push ks keys) keys') = ks_enc ks ++ keys ++ keys'
  /\ (refill_batch ks = Some r -> 0 < r <= REFILL_BATCH /\ zlen (ks_enc ks) + r <= ENC_CAP).
Proof.
  unfold bank_batch_size, REFILL_BATCH, BANK_RING_HEADROOM, BANK_HIGH_WATER_DEN, BANK_HIGH_WATER_NUM, sat_sub in *.
  destruct (_ || _) eqn:Eor; [done|]. apply orb_false_iff in Eor as [_ Hst%Z.ltb_ge].
  destruct (Z.leb_spec (Z.max 0 (ENC_CAP - zlen (ks_enc ks))) 512); [done|].
  destruct (_ && _) eqn:Eand; [|done]. injection Hbank as <-.
  apply andb_true_iff in Eand as [_ Hpos%Z.gtb_lt]. pose proof (zlen_nonneg (ks_enc ks)) as Hnn.
  split_and!; try lia.
  - destruct (enc_push_app ks keys) as (l & Hl & _ & _ & _ & _ & _ & Hfit).
    destruct Hfit as [-> _]; [lia|].
    destruct (enc_push_app (enc_push ks keys) keys') as (l' & Hl' & _ & _ & _ & _ & _ & Hfit').
    rewrite Hl', Hl. destruct Hfit' as [-> _]; [rewrite Hl, zlen_app; lia|]. by rewrite app_assoc.
  - unfold refill_batch, REFILL_THRESHOLD, REFILL_BATCH, ENC_CAP, BUFFER_TARGET in *.
    destruct (Z.ltb_spec (zlen (ks_enc ks)) 256); [|done].
    rewrite as_u_small by (ufold; lia). intros [= <-]. lia.
Qed.

(** ** Waiting for keys *)

Lemma wait_enc_loop_length sched ks n out ks' ks1 :
  wait_enc_loop sched ks n out = (ks', Ok ks1) -> (length out <= n)%nat -> length ks1 = n.
Proof.
  revert ks out. induction sched as [|step sched IH]; intros ks out; cbn [wait_enc_loop];
    (destruct (Nat.ltb_spec (length out) n) as [Hlt|Hge]; [|intros [= _ <-] ?; lia]);
    unfold take_enc_batch; cbv zeta;
    destruct (Nat.eqb_spec (length (out ++ take (n - length out) (ks_enc ks))) n) as [He|Hne].
  - by intros [= _ <-] _.
  - done.
  - by intros [= _ <-] _.
  - intros Hw _. eapply IH; [exact Hw|]. rewrite length_app, length_take. lia.
Qed.

Lemma wait_batch_now (sched : list (KeyStore -> KeyStore)) (ks : KeyStore) (n : nat) :
  (forall ks' out, wait_enc_batch sched ks n = (ks', Ok out) -> length out = n)
  /\ ((n <= length (ks_enc ks))%nat ->
      exists ks', wait_enc_batch sched ks n = (ks', Ok (take n (ks_enc ks)))
        /\ ks_enc ks' = drop n (ks_enc ks) /\ ks_dec ks' = ks_dec ks).
Proof.
  unfold wait_enc_batch, take_enc_batch. cbn [bump ks_enc]. split.
  - intros ks' out Hw. eapply wait_enc_loop_length; [exact Hw|]. rewrite length_take. lia.
  - intros Hn. assert (Hl : length (take n (ks_enc ks)) = n) by (rewrite length_take; lia).
    destruct (length (take n (ks_enc ks)) =? 0)%nat;
      destruct sched; cbn [wait_enc_loop]; rewrite Hl, Nat.ltb_irrefl; by eexists.
Qed.

(** A batch is all or nothing.  Whatever the workers do while the caller
    sleeps, [wait_enc_batch] returns exactly [n] keys or a timeout; when the ring
    already holds them it returns the [n] oldest at once and leaves the rest. *)
Theorem wait_enc_batch_exact (sched : list (KeyStore -> KeyStore)) (ks : KeyStore) (n : nat) :
  (forall ks' out, wait_enc_batch sched ks n = (ks', Ok out) -> length out = n)
  /\ ((n <= length (ks_enc ks))%nat ->
      exists ks', wait_enc_batch sched ks n = (ks', Ok (take n (ks_enc ks)))
        /\ ks_enc ks' = drop n (ks_enc ks) /\ ks_dec ks' = ks_dec ks).
Proof. apply wait_batch_now. Qed.

Lemma lookup_dec_hit ks id v :
  ks_dec ks !! id = Some v ->
  exists ks', lookup_dec ks id = (ks', Some v) /\ ks_dec ks' = delete id (ks_dec ks) /\ ks_enc ks' = ks_enc ks
    /\ ks_dec_pending ks' = ks_dec_pending ks /\ ks_dec_announced ks' = ks_dec_announced ks.
Proof. intros Hv. unfold lookup_dec. cbn. rewrite Hv. eexists. split; [done|]. cbn. done. Qed.

(** A bounded, exact announcement queue.  Of a notification, the ids that fit
    under [DEC_PENDING_MAX] are queued in order and announced, the rest is dropped
    and counted one by one in [n_notify_dropped], and the queue never exceeds its
    bound. *)
Theorem notify_remote_enc_bounded (ks : KeyStore) (ids : list bytes)
  (Hb : zlen (ks_dec_pending ks) <= DEC_PENDING_MAX) (Hc : 0 <= ks_count ks n_notify_dropped)
  (Hmax : ks_count ks n_notify_dropped + zlen ids <= u_max 64) :
  exists kept dropped, ids = kept ++ dropped
    /\ let ks' := notify_remote_enc ks ids in
       ks_dec_pending ks' = ks_dec_pending ks ++ kept
       /\ zlen (ks_dec_pending ks') <= DEC_PENDING_MAX
       /\ (dropped <> [] -> zlen (ks_dec_pending ks') = DEC_PENDING_MAX)
       /\ (forall id, is_dec_announced ks' id = true <-> id ∈ kept \/ is_dec_announced ks id = true)
       /\ ks_count ks' n_notify_dropped = ks_count ks n_notify_dropped + zlen dropped
       /\ ks_dec_request ks' = true.
Proof.
  unfold notify_remote_enc. set (room := Z.to_nat _).
  assert (Hroom : Z.of_nat room = DEC_PENDING_MAX - zlen (ks_dec_pending ks)).
  { unfold room, sat_sub. lia. }
  exists (take room ids), (drop room ids). split; [by rewrite take_drop|]. cbv zeta.
  assert (Hann : forall id, bool_decide (id ∈ (list_to_set (take room ids) : gset bytes) ∪ ks_dec_announced ks) = true
    <-> id ∈ take room ids \/ bool_decide (id ∈ ks_dec_announced ks) = true).
  { intros id. rewrite !bool_decide_eq_true, elem_of_union, elem_of_list_to_set. done. }
  destruct (Nat.ltb_spec room (length ids)) as [Hlt|Hge]; cbn.
  - split_and!; try done.
    + rewrite zlen_app. unfold zlen in *. rewrite length_take. lia.
    + intros _. rewrite zlen_app. unfold zlen in *. rewrite length_take. lia.
    + rewrite decide_True by done. unfold zlen in *. rewrite length_drop, as_u_small; [lia|]. ufold. lia.
  - rewrite (take_ge ids room), (drop_ge ids room) in * by lia. split_and!; try done.
    + rewrite zlen_app. unfold zlen in *. lia.
    + rewrite zlen_nil. lia.
Qed.

(** ** Witnesses *)

Definition sample_ks : KeyStore := ks_new 1 2 256.
Definition key_a : OtpKey := mkKey (be_bytes 16 1) [1; 1].
Definition key_b : OtpKey := mkKey (be_bytes 16 2) [2; 2].

Definition sample_run : ks_run :=
  mkRun (enc_push sample_ks [key_a; key_b]) WIdle [key_a; key_b] [] [] [].

Lemma pads_used_once_witness :
  kr_accepted sample_run = kr_taken sample_run ++ ks_enc (kr_ks sample_run).
Proof.
  apply (pads_used_once sample_ks sample_run).
  - done.
  - eapply ks_reach_step; [apply ks_reach_init|].
    apply (do_push sample_ks WIdle [] [] [] [] [key_a; key_b]).
  - apply NoDup_nil_2.
Defined.

Lemma refill_fits_witness :
  ks_enc (enc_push (enc_push sample_ks [key_a]) [key_b]) = [] ++ [key_a] ++ [key_b].
Proof. by apply (refill_fits sample_ks 4000 4000 128 128 [key_a] [key_b]). Defined.

Lemma wait_enc_batch_exact_witness :
  exists ks', wait_enc_batch [] (enc_push sample_ks [key_a; key_b]) 1 = (ks', Ok [key_a])
    /\ ks_enc ks' = [key_b] /\ ks_dec ks' = ∅.
Proof. apply (wait_enc_batch_exact [] (enc_push sample_ks [key_a; key_b]) 1). vm_compute. lia. Defined.

Lemma notify_remote_enc_bounded_witness :
  exists kept dropped, [be_bytes 16 7] = kept ++ dropped
    /\ let ks' := notify_remote_enc sample_ks [be_bytes 16 7] in
       ks_dec_pending ks' = [] ++ kept
       /\ zlen (ks_dec_pending ks') <= DEC_PENDING_MAX
       /\ (dropped <> [] -> zlen (ks_dec_pending ks') = DEC_PENDING_MAX)
       /\ (forall id, is_dec_announced ks' id = true <-> id ∈ kept \/ is_dec_announced sample_ks id = true)
       /\ ks_count ks' n_notify_dropped = 0 + zlen dropped
       /\ ks_dec_request ks' = true.
Proof. apply (notify_remote_enc_bounded sample_ks [be_bytes 16 7]); vm_compute; discriminate. Defined.
