(* ===== verification/Relay.v ===== *)
(** * The relay of a QKC (qkc/src/relay.rs, service.rs, transport/peer_server.rs)

    The node and what it does with a frame.

    - [Link] is [LinkRuntime]: the type and key size of its config, the key
      buffers, the frame authentication and the epoch secrets they share.  [Node]
      is [QkcService]: links, routing, the outgoing queues, the local consumers,
      the intake queue between reader and dispatcher, and the counters.
    - [handle_incoming], [handle_local_send], [forward_plaintext],
      [send_frame_to_peer], [outbound_frame], [local_deliver_frame],
      [lookup_or_fetch_dec], [deliver_local], [handle_notify], [ingress] (one
      frame through [handle_conn]), [add_link], [remove_link] are the functions.
    - An [await] on the key buffers takes a schedule, as in [KeyStore]; the rest
      of the node is read as it is when the handler runs.
    - [RelayEnv] is the interface to the code outside the repository: the text
      form of a UUID (crate [uuid]) and the hash of a frame (the standard
      library's [DefaultHasher], whose algorithm is unspecified).

    The theorems: a payload crosses a path of nodes unchanged, QKD-grade traffic
    leaves on QKD links only, an oversize payload spends no key; and two defects,
    the zero key size and the announced key a handler misses. *)

From Stdlib Require Import ZArith Lia.
From S2P Require Import Prelude Wire ReplayWindow FrameMac QkcTypes SecretStore FrameAuth.
From S2P Require Import OtpCrypto Routing PeerOut KeyStore.

Class RelayEnv := {
  uuid_to_string : bytes -> bytes;
  uuid_parse : bytes -> option bytes;
  frame_hash64 : Z -> bytes -> bytes -> list bytes -> Z;
  (** The hyphenated form: 36 ASCII characters, and [parse_str] reads it back. *)
  uuid_parse_to_string : forall id, length id = 16%nat -> wf_bytes id ->
    uuid_parse (uuid_to_string id) = Some id;
  uuid_string_len : forall id, length id = 16%nat -> length (uuid_to_string id) = 36%nat;
  uuid_string_ascii : forall id, wf_string (uuid_to_string id);
}.

(** ** State *)

Inductive LinkType := Qkd | Pqc.

Record Link := mkLink {
  lk_type : LinkType;
  lk_bits : Z;
  lk_keys : KeyStore;
  lk_auth : option LinkFrameAuth;
  lk_store : SecretStore;
}.

(** A registered local connection: its queue, or closed. *)
Record LocalConn := mkConn { lc_queue : list Frame; lc_closed : bool }.

Inductive svc_counter :=
  | deliver_calls | deliver_sends_ok | deliver_drops_full | deliver_drops_closed
  | local_send_starts | local_send_oks | local_send_errs
  | incoming_starts | incoming_delivered | incoming_forwarded | incoming_errs
  | intake_dropped_full.

#[export] Instance svc_counter_eq_dec : EqDecision svc_counter.
Proof. solve_decision. Defined.

Record Node := mkNode {
  nd_id : Z;
  nd_links : gmap Z Link;
  nd_routing : ForwardingTable;
  nd_out : PeerOut;
  nd_local : list LocalConn;
  nd_intake : list (Frame * bool);
  nd_count : svc_counter -> Z;
}.

Definition MAX_RELAY_CHUNKS : nat := 4.
Definition DELIVER_QUEUE_CAPACITY : Z := 65536.
Definition INTAKE_QUEUE : Z := 8192.

Definition count (c : svc_counter) (n : Z) (nd : Node) : Node :=
  mkNode (nd_id nd) (nd_links nd) (nd_routing nd) (nd_out nd) (nd_local nd) (nd_intake nd)
    (fun c' => if decide (c' = c) then as_u 64 (nd_count nd c' + n) else nd_count nd c').
Definition with_links (l : gmap Z Link) (nd : Node) : Node :=
  mkNode (nd_id nd) l (nd_routing nd) (nd_out nd) (nd_local nd) (nd_intake nd) (nd_count nd).
Definition with_out (o : PeerOut) (nd : Node) : Node :=
  mkNode (nd_id nd) (nd_links nd) (nd_routing nd) o (nd_local nd) (nd_intake nd) (nd_count nd).
Definition with_local (l : list LocalConn) (nd : Node) : Node :=
  mkNode (nd_id nd) (nd_links nd) (nd_routing nd) (nd_out nd) l (nd_intake nd) (nd_count nd).
Definition with_intake (q : list (Frame * bool)) (nd : Node) : Node :=
  mkNode (nd_id nd) (nd_links nd) (nd_routing nd) (nd_out nd) (nd_local nd) q (nd_count nd).
Definition with_routing (ft : ForwardingTable) (nd : Node) : Node :=
  mkNode (nd_id nd) (nd_links nd) ft (nd_out nd) (nd_local nd) (nd_intake nd) (nd_count nd).

Definition with_keys (ks : KeyStore) (l : Link) : Link :=
  mkLink (lk_type l) (lk_bits l) ks (lk_auth l) (lk_store l).
Definition with_auth (fa : option LinkFrameAuth) (st : SecretStore) (l : Link) : Link :=
  mkLink (lk_type l) (lk_bits l) (lk_keys l) fa st.

Definition link_to (nd : Node) (n : Z) : option Link := nd_links nd !! n.
Definition set_link (n : Z) (l : Link) (nd : Node) : Node := with_links (<[n := l]> (nd_links nd)) nd.

(** ** Links added and removed at run time *)

Definition is_qkd (t : LinkType) : bool := match t with Qkd => true | Pqc => false end.

(** [add_link]: [build_link] is the construction of the runtime, [None] when it
    fails. *)
Definition add_link (nd : Node) (id : Z) (ty : LinkType) (build_link : option Link)
    : Node * res QkcError bool :=
  match nd_links nd !! id with
  | Some _ => (nd, Ok false)
  | None =>
      match build_link with
      | None => (nd, Err BadRequest)
      | Some l =>
          (with_routing (add_direct (nd_routing nd) id (is_qkd ty)) (set_link id l nd), Ok true)
      end
  end.

Definition remove_link (nd : Node) (id : Z) : Node * bool :=
  match nd_links nd !! id with
  | None => (nd, false)
  | Some _ =>
      (with_routing (remove_direct (nd_routing nd) id) (with_links (delete id (nd_links nd)) nd), true)
  end.

(** ** Local delivery *)

Definition register_local (nd : Node) : Node := with_local (nd_local nd ++ [mkConn [] false]) nd.
Definition prune_local (nd : Node) : Node :=
  with_local (List.filter (fun c => negb (lc_closed c)) (nd_local nd)) nd.

(** [try_send] on one consumer. *)
Definition try_send (f : Frame) (c : LocalConn) : LocalConn * (Z * Z * Z) :=
  if lc_closed c then (c, (0, 0, 1))
  else if zlen (lc_queue c) <? DELIVER_QUEUE_CAPACITY
       then (mkConn (lc_queue c ++ [f]) false, (1, 0, 0))
       else (c, (0, 1, 0)).

Definition deliver_local (nd : Node) (f : Frame) : Node :=
  let nd := count deliver_calls 1 nd in
  let rs := map (try_send f) (nd_local nd) in
  let sum (g : Z * Z * Z -> Z) := foldr (fun r acc => g (snd r) + acc) 0 rs in
  let nd := with_local (map fst rs) nd in
  count deliver_drops_closed (sum (fun t => snd t))
    (count deliver_drops_full (sum (fun t => snd (fst t)))
       (count deliver_sends_ok (sum (fun t => fst (fst t))) nd)).

Definition local_deliver_frame (qkc_id : Z) (f : Frame) (plaintext : bytes) : Frame :=
  mkFrame FRAME_LOCAL_DELIVER (grade f) (sender_id f) qkc_id qkc_id 0 (epoch_id f) []
    (header_orr_mp f) (header_dkms_mp f) plaintext.

Definition outbound_frame (me next_hop dest_final : Z) (grade epoch_id key_size_bits : Z)
    (key_ids : list bytes) (header_orr_mp header_dkms_mp ciphertext : bytes) : Frame :=
  let k := if next_hop =? dest_final then FRAME_RECV else FRAME_RELAY in
  mkFrame k grade me next_hop dest_final key_size_bits epoch_id key_ids header_orr_mp header_dkms_mp
    ciphertext.

(** ** Handlers *)

Section Handlers.
Context `{MacCrypto} `{RelayEnv}.

Definition frame_hash (f : Frame) : Z :=
  frame_hash64 (dest_final f) (header_orr_mp f) (header_dkms_mp f) (key_ids f).

Fixpoint parse_key_ids (strs : list bytes) : res QkcError (list bytes) :=
  match strs with
  | [] => Ok []
  | s :: strs =>
      match uuid_parse s with
      | None => Err BadRequest
      | Some u => let* us := parse_key_ids strs in Ok (u :: us)
      end
  end.

(** What happens to the buffers around one id: between the first lookup and the
    test of the announcement, and at each wake-up of the wait. *)
Definition dec_sched : Type := (KeyStore -> KeyStore) * list (KeyStore -> KeyStore).

Fixpoint lookup_or_fetch_dec (scheds : list dec_sched) (ks : KeyStore) (ids : list bytes)
    : KeyStore * res QkcError (list OtpKey) :=
  match ids with
  | [] => (ks, Ok [])
  | id :: ids =>
      let '(between, waits) := match scheds with s :: _ => s | [] => (fun ks => ks, []) end in
      let scheds := match scheds with _ :: rest => rest | [] => [] end in
      let '(ks, r) :=
        match lookup_dec ks id with
        | (ks, Some v) => (ks, Ok v)
        | (ks, None) =>
            let ks := between ks in
            if is_dec_announced ks id then wait_dec waits ks id
            else (ks, Err (KeyWaitTimeout WaitDecUnannounced 1 0))
        end in
      match r with
      | Ok v =>
          let '(ks, r) := lookup_or_fetch_dec scheds ks ids in
          (ks, let* out := r in Ok (mkKey id v :: out))
      | Err e => (ks, Err e)
      | Panic => (ks, Panic)
      end
  end.

(** [send_frame_to_peer]: seal, then queue. *)
Definition send_frame_to_peer (nd : Node) (l : Link) (next_hop dest_final : Z)
    (ciphertext : bytes) (ids : list bytes) (grade epoch_id : Z) (ho hd : bytes)
    : Node * res QkcError unit :=
  let out := outbound_frame (nd_id nd) next_hop dest_final grade epoch_id (as_u 16 (lk_bits l))
               (map uuid_to_string ids) ho hd ciphertext in
  match seal_opt (lk_auth l) (lk_store l) out with
  | Ok (fa, f) =>
      let nd := set_link next_hop (with_auth fa (lk_store l) l) nd in
      let '(po, ok) := po_send (nd_out nd) next_hop f in
      (with_out po nd, if (ok : bool) then Ok tt else Err Quditto)
  | Err e => (nd, Err (FrameAuthErr e))
  | Panic => (nd, Panic)
  end.

Definition forward_plaintext (sched : list (KeyStore -> KeyStore)) (nd : Node)
    (next_hop dest_final : Z) (plaintext : bytes) (grade epoch_id : Z) (ho hd : bytes)
    : Node * res QkcError unit :=
  match link_to nd next_hop with
  | None => (nd, Err (UnknownNeighbor next_hop))
  | Some l =>
      let chunk_bytes := Z.to_nat (lk_bits l / 8) in
      match num_chunks (length plaintext) chunk_bytes with
      | Panic => (nd, Panic)
      | Err e => (nd, Err e)
      | Ok needed =>
          if (MAX_RELAY_CHUNKS <? needed)%nat then (nd, Err BadRequest) else
          let '(ks, r) := wait_enc_batch sched (lk_keys l) needed in
          let l := with_keys ks l in
          let nd := set_link next_hop l nd in
          match r with
          | Err e => (nd, Err e)
          | Panic => (nd, Panic)
          | Ok keys =>
              match encrypt plaintext keys with
              | Err e => (nd, Err e)
              | Panic => (nd, Panic)
              | Ok (ct, ids) => send_frame_to_peer nd l next_hop dest_final ct ids grade epoch_id ho hd
              end
          end
      end
  end.

Definition handle_local_send_inner (sched : list (KeyStore -> KeyStore)) (nd : Node) (f : Frame)
    : Node * res QkcError unit :=
  let dest := dest_final f in
  if dest =? nd_id nd then (nd, Err BadRequest) else
  match next_hop_graded (nd_routing nd) dest (frame_hash f) (grade f =? GRADE_QKD) with
  | None => (nd, Err (NoRoute dest))
  | Some nh =>
      forward_plaintext sched nd nh dest (payload f) (grade f) (epoch_id f)
        (header_orr_mp f) (header_dkms_mp f)
  end.

Definition handle_local_send (sched : list (KeyStore -> KeyStore)) (nd : Node) (f : Frame)
    : Node * res QkcError unit :=
  let nd := count local_send_starts 1 nd in
  let '(nd, r) := handle_local_send_inner sched nd f in
  (match r with
   | Ok _ => count local_send_oks 1 nd
   | Err _ => count local_send_errs 1 nd
   | Panic => nd
   end, r).

Definition handle_incoming_inner (now : Z) (scheds : list dec_sched) (sched : list (KeyStore -> KeyStore))
    (nd : Node) (f : Frame) (pre_authenticated : bool) : Node * res QkcError unit :=
  match link_to nd (sender_id f) with
  | None => (nd, Err (UnknownNeighbor (sender_id f)))
  | Some l =>
      let from := sender_id f in
      let '(l, r) :=
        if pre_authenticated then (l, Ok f)
        else let '(fa, st, r) := authenticate now (lk_auth l) (lk_store l) f in (with_auth fa st l, r) in
      let nd := set_link from l nd in
      match r with
      | Err e => (nd, Err (FrameAuthErr e))
      | Panic => (nd, Panic)
      | Ok f =>
          match parse_key_ids (key_ids f) with
          | Err e => (nd, Err e)
          | Panic => (nd, Panic)
          | Ok ids =>
              let '(ks, r) := lookup_or_fetch_dec scheds (lk_keys l) ids in
              let nd := set_link from (with_keys ks l) nd in
              match (let* keys := r in decrypt (payload f) ids keys (Z.to_nat (lk_bits l / 8))) with
              | Err e => (nd, Err e)
              | Panic => (nd, Panic)
              | Ok plaintext =>
                  if dest_final f =? nd_id nd then
                    (count incoming_delivered 1
                       (deliver_local nd (local_deliver_frame (nd_id nd) f plaintext)), Ok tt)
                  else
                    match next_hop_graded (nd_routing nd) (dest_final f) (frame_hash f)
                            (grade f =? GRADE_QKD) with
                    | None => (nd, Err (NoRoute (dest_final f)))
                    | Some nh =>
                        let '(nd, r) :=
                          forward_plaintext sched nd nh (dest_final f) plaintext (grade f) (epoch_id f)
                            (header_orr_mp f) (header_dkms_mp f) in
                        (match r with Ok _ => count incoming_forwarded 1 nd | _ => nd end, r)
                    end
              end
          end
      end
  end.

Definition handle_incoming (now : Z) (scheds : list dec_sched) (sched : list (KeyStore -> KeyStore))
    (nd : Node) (f : Frame) (pre_authenticated : bool) : Node * res QkcError unit :=
  let nd := count incoming_starts 1 nd in
  let '(nd, r) := handle_incoming_inner now scheds sched nd f pre_authenticated in
  (match r with Err _ => count incoming_errs 1 nd | _ => nd end, r).

(** ** The reader of a peer connection *)

Definition enqueue_data_frame (nd : Node) (f : Frame) (authenticated : bool) : Node :=
  if zlen (nd_intake nd) <? INTAKE_QUEUE then with_intake (nd_intake nd ++ [(f, authenticated)]) nd
  else count intake_dropped_full 1 nd.

Definition handle_notify (now : Z) (nd : Node) (f : Frame) : Node :=
  match link_to nd (sender_id f) with
  | None => nd
  | Some l =>
      let '(fa, st, r) := authenticate now (lk_auth l) (lk_store l) f in
      let l := with_auth fa st l in
      let nd := set_link (sender_id f) l nd in
      match r with
      | Ok f' =>
          match decode_notify_payload (payload f') with
          | Ok ids => set_link (sender_id f) (with_keys (notify_remote_enc (lk_keys l) ids) l) nd
          | _ => nd
          end
      | _ => nd
      end
  end.

(** One turn of [handle_conn] on a frame already read; the handshake frames go to
    another component. *)
Definition ingress (now : Z) (nd : Node) (f : Frame) : Node :=
  let k := kind f in
  if (k =? FRAME_RECV) || (k =? FRAME_RELAY) || (k =? FRAME_RECV_AUTH) || (k =? FRAME_RELAY_AUTH) then
    match link_to nd (sender_id f) with
    | None => enqueue_data_frame nd f false
    | Some l =>
        let '(fa, st, r) := authenticate now (lk_auth l) (lk_store l) f in
        let nd := set_link (sender_id f) (with_auth fa st l) nd in
        match r with
        | Ok f => enqueue_data_frame nd f true
        | _ => nd
        end
    end
  else if (k =? FRAME_KEY_IDS_NOTIFY) || (k =? FRAME_KEY_IDS_NOTIFY_AUTH) then handle_notify now nd f
  else nd.

(** The dispatcher takes the oldest queued frame. *)
Definition dispatch (now : Z) (scheds : list dec_sched) (sched : list (KeyStore -> KeyStore))
    (nd : Node) : Node * option (res QkcError unit) :=
  match nd_intake nd with
  | [] => (nd, None)
  | (f, a) :: q =>
      let '(nd, r) := handle_incoming now scheds sched (with_intake q nd) f a in (nd, Some r)
  end.

End Handlers.

(** ** One hop *)

Section Hop.
Context `{MacCrypto} `{RelayEnv}.

Definition data_kind (k : Z) : bool :=
  (k =? FRAME_RECV) || (k =? FRAME_RELAY) || (k =? FRAME_RECV_AUTH) || (k =? FRAME_RELAY_AUTH).

(** The two ends of a link agree on how frames are authenticated: both without a
    root, or both in one session with data frames signed. *)
Definition auth_ready (a b : option LinkFrameAuth) (stA stB : SecretStore) : Prop :=
  match a, b with
  | None, None => True
  | Some a, Some b =>
      signs (fa_mode a) = true /\ fa_counter a < u_max 64 /\ exists s k, in_session s k a b stA stB
  | _, _ => False
  end.

Lemma seal_authenticate a b stA stB f :
  auth_ready a b stA stB ->
  kind f = FRAME_RECV \/ kind f = FRAME_RELAY \/ kind f = FRAME_KEY_IDS_NOTIFY ->
  Forall (fun k => zlen k <= 65535) (key_ids f) ->
  zlen (header_orr_mp f) <= 65535 -> zlen (header_dkms_mp f) <= 65535 ->
  exists a' k tr, let g := with_payload f k (payload f ++ tr) in
    seal_opt a stA f = Ok (a', g) /\ (k = kind f \/ auth_kind_for (kind f) = Some k)
    /\ zlen tr <= 48 /\ wf_bytes tr
    /\ forall now, exists b', authenticate now b stB g = (b', stB, Ok f).
Proof.
  intros Hauth Hkind Hids Ho Hd. unfold auth_ready in Hauth. destruct a as [a|], b as [b|]; try done.
  - destruct Hauth as (Hsign & Hmax & s & k & Hsess).
    assert (Hsealable : sealable a f).
    { split_and!; try done; [|unfold seals; destruct (_ =? _); done].
      destruct Hkind as [-> |[-> | ->]]; by eexists. }
    destruct (seal_one s k a b stA stB f Hsess Hsealable Hmax)
      as (a' & ak & tag & Hak & Htag & Htwf & Hseal & _ & _ & _ & Hopen).
    exists (Some a'), ak, (le_bytes 8 s ++ le_bytes 8 (fa_counter a + 1) ++ tag). cbv zeta.
    destruct (base_of_auth _ _ Hak) as [Hbase Hauthk]. split_and!.
    + cbn [seal_opt]. rewrite Hseal. done.
    + by right.
    + autorewrite with zlen. lia.
    + apply Forall_app; split; [apply le_bytes_wf|apply Forall_app; split; [apply le_bytes_wf|done]].
    + intros now. destruct (Hopen now) as (b' & Ho' & _). exists (Some b').
      unfold authenticate. cbn [with_payload kind]. rewrite Hauthk.
      unfold append_auth_trailer in Ho'. by rewrite Ho'.
  - exists None, (kind f), []. cbv zeta. rewrite app_nil_r.
    assert (Hf : with_payload f (kind f) (payload f) = f) by (by destruct f). rewrite Hf.
    split_and!; try done.
    + by left.
    + constructor.
    + intros now. exists None. unfold authenticate. destruct Hkind as [-> |[-> | ->]]; done.
Qed.

(** The kinds of a data frame, sealed or not. *)
Lemma data_kind_sealed f k :
  kind f = FRAME_RECV \/ kind f = FRAME_RELAY ->
  k = kind f \/ auth_kind_for (kind f) = Some k -> data_kind k = true /\ is_u8 k.
Proof.
  intros [E|E] [->|Hk]; rewrite E in *; try (by injection Hk as <-); done.
Qed.

Lemma parse_key_ids_ok ids :
  Forall (fun id => length id = 16%nat /\ wf_bytes id) ids ->
  parse_key_ids (map uuid_to_string ids) = Ok ids.
Proof.
  induction 1 as [|id ids [Hl Hw] _ IH]; [done|]. cbn [map parse_key_ids].
  rewrite uuid_parse_to_string by done. rewrite IH. done.
Qed.

(** Keys that are all in the DEC map are found at once, and consumed. *)
Lemma lookup_or_fetch_dec_ok scheds ks keys :
  NoDup (map key_id keys) -> (forall k, k ∈ keys -> ks_dec ks !! key_id k = Some (material k)) ->
  exists ks', lookup_or_fetch_dec scheds ks (map key_id keys) = (ks', Ok keys)
    /\ forall id, ks_dec ks' !! id = if bool_decide (id ∈ map key_id keys) then None else ks_dec ks !! id.
Proof.
  revert scheds ks. induction keys as [|k keys IH]; intros scheds ks Hnd Hin.
  { by exists ks. }
  change (map key_id (k :: keys)) with (key_id k :: map key_id keys) in *.
  apply NoDup_cons in Hnd as [Hk Hnd]. cbn [lookup_or_fetch_dec].
  assert (exists bt wt, (match scheds with s :: _ => s | [] => (fun ks => ks, []) end) = (bt, wt))
    as (bt & wt & ->) by (destruct scheds as [|[]]; eauto).
  destruct (lookup_dec_hit ks (key_id k) (material k)) as (ks1 & -> & Hd1 & _); [apply Hin; by left|].
  destruct (IH (match scheds with _ :: rest => rest | [] => [] end) ks1 Hnd) as (ks2 & -> & Hd2).
  { intros k' Hk'. rewrite Hd1, lookup_delete_ne; [apply Hin; by right|].
    intros E. destruct Hk. rewrite E. by apply list_elem_of_fmap_2. }
  exists ks2. split; [by destruct k|]. intros id. rewrite Hd2, Hd1.
  destruct (decide (id = key_id k)) as [->|Hne].
  - rewrite lookup_delete_eq. rewrite (bool_decide_eq_true_2 (key_id k ∈ key_id k :: _)) by (by left).
    by destruct (bool_decide _).
  - rewrite lookup_delete_ne by done.
    by rewrite (bool_decide_ext (id ∈ map key_id keys) (id ∈ key_id k :: map key_id keys)) by set_solver.
Qed.

Definition chunk_size (l : Link) : nat := Z.to_nat (lk_bits l / 8).

(** The keys the next payload of [len] bytes will use. *)
Definition hop_keys (l : Link) (len : nat) : list OtpKey :=
  take (chunk_count len (chunk_size l)) (ks_enc (lk_keys l)).

(** What the link from one node ([lx], its end) to the next ([ly]) needs to carry
    a payload of [len] bytes: one key size, enough keys in the ring, the same keys
    in the DEC map of the other end, and agreement on authentication. *)
Record hop_ready (lx ly : Link) (len : nat) : Prop := {
  hr_bits : lk_bits ly = lk_bits lx /\ is_u 16 (lk_bits lx) /\ (0 < chunk_size lx)%nat;
  hr_fits : (chunk_count len (chunk_size lx) <= MAX_RELAY_CHUNKS)%nat
            /\ (chunk_count len (chunk_size lx) <= length (ks_enc (lk_keys lx)))%nat;
  hr_wf : Forall (fun k => length (material k) = chunk_size lx /\ length (key_id k) = 16%nat
                           /\ wf_bytes (key_id k) /\ wf_bytes (material k)) (hop_keys lx len);
  hr_distinct : NoDup (map key_id (hop_keys lx len));
  hr_shared : forall k, k ∈ hop_keys lx len -> ks_dec (lk_keys ly) !! key_id k = Some (material k);
  hr_auth : auth_ready (lk_auth lx) (lk_auth ly) (lk_store lx) (lk_store ly);
}.

(** What the upper layers put in a frame, within the wire's limits. *)
Record wf_meta (me nh dest gr ep : Z) (ho hd p : bytes) : Prop := {
  wm_me : is_u 32 me;
  wm_nh : is_u 32 nh;
  wm_dest : is_u 32 dest;
  wm_grade : is_u8 gr;
  wm_epoch : is_u 32 ep;
  wm_ho : wf_bytes ho /\ zlen ho <= 65535;
  wm_hd : wf_bytes hd /\ zlen hd <= 65535;
  wm_p : wf_bytes p;
}.

Lemma chunk_count_bound len n : (0 < n)%nat -> (len <= chunk_count len n * n)%nat.
Proof.
  intros Hn. unfold chunk_count. destruct (Nat.eqb_spec len 0); [lia|].
  pose proof (Nat.div_mod (len + n - 1) n). pose proof (Nat.mod_upper_bound (len + n - 1) n). nia.
Qed.

(** The frame of a hop fits the wire and survives it. *)
Lemma hop_frame_wire lx ly me nh dest gr ep ho hd p k tr ct :
  hop_ready lx ly (length p) -> wf_meta me nh dest gr ep ho hd p ->
  wf_bytes ct -> length ct = length p -> is_u8 k -> zlen tr <= 48 -> wf_bytes tr ->
  let out := outbound_frame me nh dest gr ep (as_u 16 (lk_bits lx))
               (map uuid_to_string (map key_id (hop_keys lx (length p)))) ho hd ct in
  let g := with_payload out k (ct ++ tr) in
  exists bs, write_frame g = Ok bs /\ forall rest, read_frame (bs ++ rest) = Ok (g, rest).
Proof.
  intros [Hbits [Hmax Henough] Hwf _ _ _] [Hme Hnh Hdest Hgr Hep [Hho Lho] [Hhd Lhd] Hp] Hct Hlct Hk Htr Htw.
  cbv zeta. set (ids := map uuid_to_string _). unfold MAX_RELAY_CHUNKS in *.
  assert (Hl4 : zlen ids <= 4).
  { unfold zlen, ids, hop_keys. rewrite !length_map, length_take. lia. }
  assert (H36 : Forall (fun s => zlen s = 36 /\ wf_string s) ids).
  { unfold ids. apply Forall_forall. intros s (id & -> & Hid)%list_elem_of_fmap.
    apply list_elem_of_fmap in Hid as (key & -> & Hkey). rewrite Forall_forall in Hwf.
    destruct (Hwf _ Hkey) as (_ & H16 & _). split; [|apply uuid_string_ascii].
    unfold zlen. by rewrite uuid_string_len. }
  assert (Hfirst : first_len ids <= 36 /\ Forall (fun s => zlen s = first_len ids) ids).
  { destruct ids as [|s0 l0]; [by split|]. pose proof H36 as H36'. apply Forall_cons in H36' as [[E _] _].
    cbn [first_len]. rewrite E. split; [done|]. eapply Forall_impl; [exact H36|]. by intros x [? _]. }
  assert (Hp4 : zlen ct <= 4 * 8192).
  { destruct Hbits as (_ & Hu & Hn). unfold zlen, chunk_size in *. rewrite Hlct.
    pose proof (chunk_count_bound (length p) _ Hn) as Hb. ufold.
    apply Nat2Z.inj_le in Hb. rewrite Nat2Z.inj_mul in Hb.
    assert (Z.of_nat (Z.to_nat (lk_bits lx / 8)) <= 8192); [|nia].
    rewrite Z2Nat.id by (apply Z.div_pos; lia). apply Z.div_le_upper_bound; lia. }
  assert (Henc : encodable (with_payload (outbound_frame me nh dest gr ep (as_u 16 (lk_bits lx)) ids ho hd ct)
    k (ct ++ tr))).
  { destruct Hfirst as [Hf Hu]. pose proof (zlen_nonneg ids). pose proof (first_len_nonneg ids).
    constructor; cbn; try done; try lia.
    rewrite zlen_app. unfold FIXED_PREFIX, MAX_TOTAL_LEN. nia. }
  eexists. split.
  - unfold write_frame. rewrite (proj2 (validate_iff _) Henc). reflexivity.
  - intros rest. apply read_write_frame.
    + constructor; cbn; try done.
      * apply as_u_range. lia.
      * eapply Forall_impl; [exact H36|]. by intros x [_ ?].
      * by apply Forall_app.
    + unfold write_frame. rewrite (proj2 (validate_iff _) Henc). reflexivity.
Qed.

(** *** Sending *)

Definition out_queue (nd : Node) (nh : Z) : list Frame := sl_queue (get_or_create (nd_out nd) nh).

Lemma forward_ok sched nd nh lx ly dest p gr ep ho hd :
  link_to nd nh = Some lx -> hop_ready lx ly (length p) -> wf_meta (nd_id nd) nh dest gr ep ho hd p ->
  zlen (out_queue nd nh) < QUEUE_CAPACITY ->
  exists nd' g ct, let f := outbound_frame (nd_id nd) nh dest gr ep (as_u 16 (lk_bits lx))
                 (map uuid_to_string (map key_id (hop_keys lx (length p)))) ho hd ct in
    forward_plaintext sched nd nh dest p gr ep ho hd = (nd', Ok tt)
    /\ out_queue nd' nh = out_queue nd nh ++ [g]
    /\ decrypt ct (map key_id (hop_keys lx (length p))) (hop_keys lx (length p)) (chunk_size lx) = Ok p
    /\ data_kind (kind g) = true /\ sender_id g = nd_id nd
    /\ (exists bs, write_frame g = Ok bs /\ forall rest, read_frame (bs ++ rest) = Ok (g, rest))
    /\ forall now, exists b', authenticate now (lk_auth ly) (lk_store ly) g = (b', lk_store ly, Ok f).
Proof.
  intros Hl Hready Hmeta Hq. pose proof Hready as [(_ & _ & Hn) [Hmax Henough] Hwf Hnd Hsh Hauth].
  assert (Hlen : length (hop_keys lx (length p)) = chunk_count (length p) (chunk_size lx))
    by (unfold hop_keys; rewrite length_take; lia).
  destruct (encrypt_ok p (hop_keys lx (length p)) (hop_keys lx (length p)) (chunk_size lx) Hn)
    as (ct & ids & Henc & Hct & Hids & Hdec); [|done|done|lia|].
  { eapply Forall_impl; [exact Hwf|]. by intros k [? _]. }
  rewrite take_ge in Hids by lia. subst ids.
  set (f := outbound_frame (nd_id nd) nh dest gr ep (as_u 16 (lk_bits lx))
              (map uuid_to_string (map key_id (hop_keys lx (length p)))) ho hd ct).
  assert (Hwire36 : Forall (fun s => zlen s <= 65535) (key_ids f)).
  { apply Forall_forall. intros s (id & -> & Hid)%list_elem_of_fmap.
    apply list_elem_of_fmap in Hid as (key & -> & Hkey). rewrite Forall_forall in Hwf.
    destruct (Hwf _ Hkey) as (_ & H16 & _). unfold zlen. rewrite uuid_string_len by done. lia. }
  assert (Hkf : kind f = FRAME_RECV \/ kind f = FRAME_RELAY).
  { unfold f, outbound_frame. cbn. destruct (_ =? _); [by left|by right]. }
  destruct (seal_authenticate _ _ _ _ f Hauth) as (a' & k & tr & Hseal & Hk0 & Htr & Htw & Hopen).
  { tauto. }
  { done. } { apply Hmeta. } { apply Hmeta. }
  cbv zeta in Hseal, Hopen. destruct (data_kind_sealed f k Hkf Hk0) as [Hk Hk8].
  assert (Hctw : wf_bytes ct).
  { eapply encrypt_wf; [exact Henc|apply Hmeta|]. eapply Forall_impl; [exact Hwf|]. by intros key (_ & _ & _ & ?). }
  destruct (proj2 (wait_batch_now sched (lk_keys lx) _) Henough) as (ks' & Hwait & _).
  eexists _, (with_payload f k (payload f ++ tr)), ct. cbv zeta. fold f.
  split_and!; [| |done|done|done| |done].
  - unfold forward_plaintext. rewrite Hl. cbv zeta. fold (chunk_size lx). rewrite num_chunks_ok by lia.
    destruct (Nat.ltb_spec MAX_RELAY_CHUNKS (chunk_count (length p) (chunk_size lx))); [lia|].
    rewrite Hwait. fold (hop_keys lx (length p)). rewrite Henc. unfold send_frame_to_peer.
    cbn [lk_bits with_keys lk_auth lk_store nd_id set_link with_links]. fold f. rewrite Hseal.
    unfold po_send, slot_send. cbn [nd_out set_link with_links]. fold (out_queue nd nh).
    destruct (Z.ltb_spec (zlen (out_queue nd nh)) QUEUE_CAPACITY); [|lia]. reflexivity.
  - unfold out_queue at 1, get_or_create. cbn [nd_out with_out]. by rewrite lookup_insert_eq.
  - by apply (hop_frame_wire lx ly).
Qed.

(** *** Receiving *)

(** Only the link to [from], the intake queue and the counters differ. *)
Definition same_but (from : Z) (nd nd' : Node) : Prop :=
  nd_id nd' = nd_id nd /\ nd_routing nd' = nd_routing nd /\ nd_local nd' = nd_local nd
  /\ nd_out nd' = nd_out nd /\ forall x, x <> from -> nd_links nd' !! x = nd_links nd !! x.

Lemma receive_ok now scheds sched nd lx ly g ct dest p gr ep ho hd from bits b' :
  link_to nd from = Some ly -> nd_intake nd = [] -> data_kind (kind g) = true -> sender_id g = from ->
  hop_ready lx ly (length p) ->
  decrypt ct (map key_id (hop_keys lx (length p))) (hop_keys lx (length p)) (chunk_size lx) = Ok p ->
  let f := outbound_frame from (nd_id nd) dest gr ep bits
             (map uuid_to_string (map key_id (hop_keys lx (length p)))) ho hd ct in
  authenticate now (lk_auth ly) (lk_store ly) g = (b', lk_store ly, Ok f) ->
  exists nd', same_but from nd nd'
    /\ dispatch now scheds sched (ingress now nd g)
       = (let '(nd', r) :=
            if dest =? nd_id nd then
              (count incoming_delivered 1 (deliver_local nd' (local_deliver_frame (nd_id nd) f p)), Ok tt)
            else
              match next_hop_graded (nd_routing nd) dest (frame_hash f) (gr =? GRADE_QKD) with
              | None => (nd', Err (NoRoute dest))
              | Some nh =>
                  let '(nd', r) := forward_plaintext sched nd' nh dest p gr ep ho hd in
                  (match r with Ok _ => count incoming_forwarded 1 nd' | _ => nd' end, r)
              end in
          (match r with Err _ => count incoming_errs 1 nd' | _ => nd' end, Some r)).
Proof.
  intros Hl Hin Hk Hs Hready Hdec f Hauth. pose proof Hready as [(Hb & _ & _) _ Hwf Hnd Hsh _].
  unfold data_kind in Hk.
  destruct (lookup_or_fetch_dec_ok scheds (lk_keys ly) (hop_keys lx (length p)) Hnd Hsh) as (ks' & Hlk & _).
  assert (Hids : parse_key_ids (key_ids f) = Ok (map key_id (hop_keys lx (length p)))).
  { apply parse_key_ids_ok. apply Forall_forall. intros id (k & -> & Hkk)%list_elem_of_fmap.
    rewrite Forall_forall in Hwf. destruct (Hwf _ Hkk) as (_ & ? & ? & _). done. }
  exists (set_link from (with_keys ks' (with_auth b' (lk_store ly) ly))
            (set_link from (with_auth b' (lk_store ly) ly)
              (count incoming_starts 1 (with_intake [] (with_intake [(f, true)]
                (set_link from (with_auth b' (lk_store ly) ly) nd)))))).
  split.
  { split_and!; try done. intros x Hx. cbn. by rewrite !lookup_insert_ne by done. }
  unfold ingress. rewrite Hk, Hs, Hl, Hauth. unfold enqueue_data_frame. cbn [nd_intake set_link with_links].
  rewrite Hin. change (zlen (@nil (Frame * bool)) <? INTAKE_QUEUE) with true. cbn [app].
  unfold dispatch. cbn [nd_intake with_intake]. unfold handle_incoming, handle_incoming_inner.
  assert (Hlf : link_to (count incoming_starts 1 (with_intake [] (with_intake [(f, true)]
    (set_link from (with_auth b' (lk_store ly) ly) nd)))) (sender_id f)
    = Some (with_auth b' (lk_store ly) ly)).
  { unfold link_to. cbn. by rewrite lookup_insert_eq. }
  rewrite Hlf. cbv zeta. change (sender_id f) with from.
  rewrite Hids. cbn [lk_keys with_auth lk_bits]. rewrite Hlk. cbn [res_bind].
  rewrite Hb. fold (chunk_size lx). change (payload f) with ct. rewrite Hdec.
  change (dest_final f) with dest. change (grade f) with gr. change (epoch_id f) with ep.
  change (header_orr_mp f) with ho. change (header_dkms_mp f) with hd.
  cbn [nd_id set_link with_links count with_intake nd_routing].
  destruct (dest =? nd_id nd); [done|].
  destruct (next_hop_graded _ _ _ _); [|done].
  by destruct (forward_plaintext _ _ _ _ _ _ _ _ _).
Qed.
End Hop.

(** ** A path of nodes *)

Section Path.
Context `{MacCrypto} `{RelayEnv}.

(** A frame on the wire to the first of [nodes]: each node reads it, authenticates
    it, queues it and dispatches it; the last frame it queued for the next node
    goes on, and the last node's is what its first local consumer got. *)
Fixpoint travel (now : Z) (nodes : list Node) (g : Frame) : option Frame :=
  match nodes with
  | [] => None
  | nd :: rest =>
      match (let* bs := write_frame g in read_frame bs) with
      | Ok (g, _) =>
          match dispatch now [] [] (ingress now nd g) with
          | (nd', Some (Ok _)) =>
              match rest with
              | [] => c ← head (nd_local nd'); last (lc_queue c)
              | nxt :: _ => g' ← last (out_queue nd' (nd_id nxt)); travel (now + 1) rest g'
              end
          | _ => None
          end
      | _ => None
      end
  end.

Definition send_path (now : Z) (nodes : list Node) (f : Frame) : option Frame :=
  match nodes with
  | n0 :: ((nxt :: _) as rest) =>
      match handle_local_send [] n0 f with
      | (n0', Ok _) => g ← last (out_queue n0' (nd_id nxt)); travel now rest g
      | _ => None
      end
  | _ => None
  end.

(** Every hop can carry the payload and every node routes to the next. *)
Fixpoint path_ready (dest gr : Z) (len : nat) (nodes : list Node) : Prop :=
  match nodes with
  | [] => False
  | x :: rest =>
      is_u 32 (nd_id x)
      /\ match rest with
         | [] => nd_id x = dest /\ exists c cs, nd_local x = c :: cs /\ lc_closed c = false
                                      /\ zlen (lc_queue c) < DELIVER_QUEUE_CAPACITY
         | y :: _ =>
             nd_id x <> dest /\ nd_intake y = []
             /\ (forall h, next_hop_graded (nd_routing x) dest h (gr =? GRADE_QKD) = Some (nd_id y))
             /\ (exists lx ly, link_to x (nd_id y) = Some lx /\ link_to y (nd_id x) = Some ly
                    /\ hop_ready lx ly len)
             /\ zlen (out_queue x (nd_id y)) < QUEUE_CAPACITY
             /\ path_ready dest gr len rest
         end
  end.

(** The node before the last. *)
Fixpoint prev_hop (from : Z) (nodes : list Node) : Z :=
  match nodes with
  | y :: ((_ :: _) as rest) => prev_hop (nd_id y) rest
  | _ => from
  end.

Lemma path_ready_id dest gr len x rest : path_ready dest gr len (x :: rest) -> is_u 32 (nd_id x).
Proof. simpl. tauto. Qed.

Lemma travel_ok dest gr ep ho hd p nodes :
  forall now from g ct lx ly bits y rest, nodes = y :: rest ->
  path_ready dest gr (length p) nodes -> is_u 32 dest -> is_u8 gr -> is_u 32 ep ->
  wf_bytes ho /\ zlen ho <= 65535 -> wf_bytes hd /\ zlen hd <= 65535 -> wf_bytes p ->
  NoDup (from :: map nd_id nodes) -> nd_intake y = [] ->
  link_to y from = Some ly -> hop_ready lx ly (length p) ->
  data_kind (kind g) = true -> sender_id g = from ->
  decrypt ct (map key_id (hop_keys lx (length p))) (hop_keys lx (length p)) (chunk_size lx) = Ok p ->
  (exists bs, write_frame g = Ok bs /\ forall rest, read_frame (bs ++ rest) = Ok (g, rest)) ->
  (forall now, exists b', authenticate now (lk_auth ly) (lk_store ly) g
     = (b', lk_store ly, Ok (outbound_frame from (nd_id y) dest gr ep bits
             (map uuid_to_string (map key_id (hop_keys lx (length p)))) ho hd ct))) ->
  travel now nodes g
  = Some (mkFrame FRAME_LOCAL_DELIVER gr (prev_hop from nodes) dest dest 0 ep [] ho hd p).
Proof.
  induction nodes as [|y nodes IH]; [done|].
  intros now from g ct lx ly bits y' rest [= <- <-] Hpath Hdest Hgr Hep Hho Hhd Hp Hnd Hin Hly Hready
    Hk Hs Hdec (bs & Hw & Hr) Hauth. destruct (Hauth now) as [b' Ha].
  destruct (receive_ok now [] [] y lx ly g ct dest p gr ep ho hd from bits b' Hly Hin Hk Hs Hready Hdec Ha)
    as (nd' & (Eid & Ert & Elo & Eout & Elinks) & Hdisp).
  specialize (Hr []). rewrite app_nil_r in Hr.
  cbn [travel]. rewrite Hw. cbn [res_bind]. rewrite Hr, Hdisp. clear Hdisp.
  destruct nodes as [|z rest].
  - destruct Hpath as (_ & Hid & c & cs & Hc & Hopen & Hroom). rewrite Hid, Z.eqb_refl.
    unfold deliver_local. cbn [nd_local count with_local]. rewrite Elo, Hc. cbn [map head fst mbind option_bind].
    unfold try_send at 1. rewrite Hopen.
    destruct (Z.ltb_spec (zlen (lc_queue c)) DELIVER_QUEUE_CAPACITY); [|lia].
    cbn [fst head mbind option_bind lc_queue]. rewrite last_snoc. reflexivity.
  - destruct Hpath as (Hyu & Hne & Hzin & Hroute & (lx' & ly' & Hlx' & Hly' & Hready') & Hq & Hpath').
    apply NoDup_cons in Hnd as [Hfrom Hnd]. cbn [map] in Hfrom, Hnd.
    assert (Hzf : nd_id z <> from) by (intros E; apply Hfrom; rewrite E; right; by left).
    destruct (Z.eqb_spec dest (nd_id y)) as [E|_]; [by rewrite E in Hne|].
    rewrite Hroute.
    destruct (forward_ok [] nd' (nd_id z) lx' ly' dest p gr ep ho hd)
      as (nd2 & g2 & ct2 & Hfw & Hq2 & Hdec2 & Hk2 & Hs2 & Hwire2 & Hauth2).
    { unfold link_to. by rewrite Elinks. } { done. }
    { rewrite Eid. constructor; try done. by eapply path_ready_id. }
    { unfold out_queue. by rewrite Eout. }
    rewrite Hfw. change (out_queue (count incoming_forwarded 1 nd2) (nd_id z)) with (out_queue nd2 (nd_id z)).
    rewrite Hq2, last_snoc. cbn [mbind option_bind].
    rewrite Eid in Hs2, Hauth2.
    rewrite (IH (now + 1) (nd_id y) g2 ct2 lx' ly' (as_u 16 (lk_bits lx')) z rest); done.
Qed.

(** C1: a payload crosses the network unchanged.  A frame the local ORR hands to
    the first node of a path, when every hop has its keys (enough in the ring of
    one end, the same in the DEC map of the other), agrees on authentication and
    routes to the next node, is decrypted, re-encrypted with other keys, re-sealed
    and re-framed at every hop, and the consumer of the last node gets one frame
    with the same payload, the same two headers, the same grade and the same
    onion epoch. *)
Theorem path_delivers (now : Z) (nodes : list Node) (f : Frame)
  (Hpath : path_ready (dest_final f) (grade f) (length (payload f)) nodes)
  (Htwo : (2 <= length nodes)%nat)
  (Hdistinct : NoDup (map nd_id nodes))
  (Hwf : wf_frame f /\ zlen (header_orr_mp f) <= 65535 /\ zlen (header_dkms_mp f) <= 65535) :
  send_path now nodes f
  = Some (mkFrame FRAME_LOCAL_DELIVER (grade f) (prev_hop 0 nodes) (dest_final f) (dest_final f) 0
            (epoch_id f) [] (header_orr_mp f) (header_dkms_mp f) (payload f)).
Proof.
  destruct nodes as [|x [|y rest]]; [simpl in Htwo; lia..|].
  destruct Hwf as ([_ Hg Hs Hr Hd _ He _ Hho Hhd Hp] & Lho & Lhd).
  destruct Hpath as (Hxu & Hne & Hyin & Hroute & (lx & ly & Hlx & Hly & Hready) & Hq & Hpath).
  cbn [map] in Hdistinct.
  destruct (forward_ok [] (count local_send_starts 1 x) (nd_id y) lx ly (dest_final f) (payload f) (grade f)
    (epoch_id f) (header_orr_mp f) (header_dkms_mp f))
    as (x' & g & ct & Hfw & Hq2 & Hdec & Hk & Hsnd & Hwire & Hauth); [done|done| |done|].
  { constructor; try done. by eapply path_ready_id. }
  unfold send_path, handle_local_send, handle_local_send_inner.
  change (nd_id (count local_send_starts 1 x)) with (nd_id x) in *.
  destruct (Z.eqb_spec (dest_final f) (nd_id x)) as [E|_]; [by rewrite E in Hne|].
  change (nd_routing (count local_send_starts 1 x)) with (nd_routing x).
  rewrite Hroute, Hfw. change (out_queue (count local_send_oks 1 x') (nd_id y)) with (out_queue x' (nd_id y)).
  rewrite Hq2, last_snoc. cbn [mbind option_bind].
  by apply (travel_ok _ _ _ _ _ _ (y :: rest) now (nd_id x) g ct lx ly (as_u 16 (lk_bits lx)) y rest).
Qed.

(** An oversize payload spends nothing.  A payload that would need more than
    four keys of the outgoing link is refused, and no key, counter or queue of the
    node changes; the same for a destination with no link. *)
Theorem oversize_spends_nothing (sched : list (KeyStore -> KeyStore)) (nd : Node)
  (nh dest gr ep : Z) (p ho hd : bytes)
  (Hbig : match link_to nd nh with
          | None => True
          | Some l => (0 < chunk_size l)%nat /\ (chunk_size l * MAX_RELAY_CHUNKS < length p)%nat
          end) :
  fst (forward_plaintext sched nd nh dest p gr ep ho hd) = nd
  /\ is_ok (snd (forward_plaintext sched nd nh dest p gr ep ho hd)) = false.
Proof.
  unfold forward_plaintext. destruct (link_to nd nh) as [l|]; [|done]. destruct Hbig as [Hn Hbig].
  cbv zeta. fold (chunk_size l). rewrite num_chunks_ok by lia. unfold MAX_RELAY_CHUNKS in *.
  pose proof (chunk_count_bound (length p) (chunk_size l) Hn).
  destruct (Nat.ltb_spec 4 (chunk_count (length p) (chunk_size l))); [done|nia].
Qed.

(** A link with a key size below one byte kills the process.  The controller
    may announce a peer with [key_size_bits = 0] (only the configuration file is
    validated); the first non-empty payload routed over that link divides by
    zero, and a panic aborts the process. *)
Theorem zero_key_size_panics (sched : list (KeyStore -> KeyStore)) (nd : Node) (l : Link)
  (nh dest gr ep : Z) (p ho hd : bytes)
  (Hl : link_to nd nh = Some l) (Hbits : 0 <= lk_bits l < 8) (Hp : p <> []) :
  snd (forward_plaintext sched nd nh dest p gr ep ho hd) = Panic.
Proof.
  unfold forward_plaintext. rewrite Hl. cbv zeta. rewrite Z.div_small by lia. change (Z.to_nat 0) with 0%nat.
  unfold num_chunks. destruct p; done.
Qed.

(** A handler can miss a key that was announced and delivered.  The worker
    takes an id off the announced set before its key is in the map: a frame whose
    first lookup missed and that tests the announcement after that is refused as
    "never announced", although the key it waits for is stored right then. *)
Theorem announced_key_lost_to_race (ks : KeyStore) (id v : bytes) (waits : list (KeyStore -> KeyStore))
  (Hmiss : ks_dec ks !! id = None) (Hann : is_dec_announced ks id = true) :
  let worker := fun ks => dec_refill_ok ks [id] [mkKey id v] in
  let '(ks', r) := lookup_or_fetch_dec [(worker, waits)] ks [id] in
  r = Err (KeyWaitTimeout WaitDecUnannounced 1 0)
  /\ ks_dec ks' !! id = Some v
  /\ snd (lookup_or_fetch_dec [(fun ks => ks, [worker])] ks [id]) = Ok [mkKey id v].
Proof.
  cbn [lookup_or_fetch_dec]. unfold lookup_dec at 1 2. cbn [ks_dec bump]. rewrite Hmiss.
  assert (Hno : is_dec_announced (dec_refill_ok (bump n_dec_misses 1 (bump n_dec_lookups 1 ks)) [id] [mkKey id v]) id = false).
  { unfold is_dec_announced. apply bool_decide_eq_false_2. cbn. set_solver. }
  rewrite Hno. split_and!; [done|cbn; apply lookup_insert_eq|].
  assert (Hyes : is_dec_announced (bump n_dec_misses 1 (bump n_dec_lookups 1 ks)) id = true) by exact Hann.
  rewrite Hyes. unfold wait_dec. cbn [wait_dec_loop]. unfold lookup_dec at 1. cbn [ks_dec bump]. rewrite Hmiss.
  unfold lookup_dec at 1. cbn [ks_dec bump dec_refill_ok dec_store with_dec dec_unannounce fold_left key_id material].
  rewrite lookup_insert_eq. done.
Qed.
End Path.

(** ** Grades and links *)

(** The routing sets are those of the links. *)
Record links_match (nd : Node) : Prop := {
  lm_direct : ft_direct (nd_routing nd) = dom (nd_links nd);
  lm_qkd : forall id, id ∈ ft_direct_qkd (nd_routing nd)
             <-> exists l, nd_links nd !! id = Some l /\ lk_type l = Qkd;
}.

(** Routing follows the links.  Adding a link and removing one keep the set of
    neighbours equal to the links and the set of QKD neighbours equal to the QKD
    links; adding a link that exists and removing one that does not change
    nothing. *)
Theorem links_match_invariant (nd : Node) (id : Z) (l : Link) (Hinv : links_match nd) :
  links_match (fst (add_link nd id (lk_type l) (Some l)))
  /\ links_match (fst (remove_link nd id))
  /\ (is_Some (nd_links nd !! id) -> fst (add_link nd id (lk_type l) (Some l)) = nd)
  /\ (nd_links nd !! id = None -> fst (remove_link nd id) = nd).
Proof.
  destruct Hinv as [Hd Hq]. unfold add_link, remove_link.
  destruct (nd_links nd !! id) as [l0|] eqn:El; split_and!; try done; cbn; try (by intros []).
  - constructor; cbn; [by rewrite Hd, dom_delete_L|]. intros x.
    rewrite elem_of_difference, elem_of_singleton, Hq. split.
    + intros [(lx & Hx & Ht) Hne]. exists lx. by rewrite lookup_delete_ne by done.
    + intros (lx & [Hne Hx]%lookup_delete_Some & Ht). split; [by exists lx|done].
  - constructor; cbn.
    + rewrite Hd, dom_insert_L. done.
    + intros x. split.
      * intros Hx. destruct (decide (x = id)) as [->|Hne].
        -- exists l. rewrite lookup_insert_eq. split; [done|]. destruct (lk_type l); [done|].
           cbn in Hx. apply Hq in Hx as (lx & Hx & _). congruence.
        -- rewrite lookup_insert_ne by done. apply Hq. destruct (lk_type l); cbn in Hx; set_solver.
      * intros (lx & [[<- <-]|[Hne Hx]]%lookup_insert_Some & Ht).
        -- rewrite Ht. cbn. set_solver.
        -- assert (x ∈ ft_direct_qkd (nd_routing nd)) by (apply Hq; by exists lx).
           destruct (lk_type l); cbn; set_solver.
Qed.

Section Grades.
Context `{MacCrypto} `{RelayEnv}.

Lemma forward_out sched nd nh dest p gr ep ho hd x :
  x <> nh \/ link_to nd nh = None ->
  out_queue (fst (forward_plaintext sched nd nh dest p gr ep ho hd)) x = out_queue nd x.
Proof.
  intros Hx. unfold forward_plaintext. destruct (link_to nd nh) as [l|]; [|done].
  destruct Hx as [Hx|]; [|done]. destruct (num_chunks _ _) as [needed| |]; [|done..].
  destruct (_ <? needed)%nat; [done|]. destruct (wait_enc_batch _ _ _) as [ks r].
  destruct r as [keys| |]; [|done..]. destruct (encrypt p keys) as [[ct ids]| |]; [|done..].
  unfold send_frame_to_peer. destruct (seal_opt _ _ _) as [[fa g]| |]; [|done..].
  unfold po_send. destruct (slot_send _ _) as [s ok]. unfold out_queue, get_or_create. cbn.
  by rewrite lookup_insert_ne.
Qed.

Lemma authenticate_grade now fa st f fa' st' f' :
  authenticate now fa st f = (fa', st', Ok f') -> grade f' = grade f.
Proof.
  unfold authenticate. destruct fa as [fa|], (is_auth_kind (kind f)).
  - destruct (open_frame now fa st f) as [[fa1 st1] r] eqn:Eo. intros [= _ _ ->].
    by destruct (open_ok_inv _ _ _ _ _ _ _ Eo) as (? & ? & ? & ? & ? & ? & ? & _ & _ & _ & _ & _ & -> & _).
  - unfold accept_plaintext. destruct (if _ =? _ then _ else _); cbn; [done|by intros [= _ _ <-]].
  - destruct (_ <? _); [done|]. by intros [= _ _ <-].
  - by intros [= _ _ <-].
Qed.

(** QKD-grade frames leave on QKD links only.  With the routing sets matching
    the links and a QKD table over QKD neighbours pushed, neither a frame from the
    local ORR nor a relayed one of QKD grade is ever queued for a neighbour whose
    link is not QKD, whatever keys, schedules or errors occur on the way. *)
Theorem qkd_frame_leaves_on_qkd_link (now : Z) (scheds : list dec_sched)
  (sched : list (KeyStore -> KeyStore)) (nd : Node) (f : Frame) (pre : bool) (x : Z)
  (Hlinks : links_match nd) (Hgrade : grade f = GRADE_QKD)
  (Hpushed : ft_qkd_table (nd_routing nd) <> ∅)
  (Hroutes : map_Forall (fun _ hops => Forall (fun h => qkc_id h ∈ ft_direct_qkd (nd_routing nd)) hops)
               (ft_qkd_table (nd_routing nd)))
  (Hchanged : out_queue (fst (handle_local_send_inner sched nd f)) x <> out_queue nd x
              \/ out_queue (fst (handle_incoming_inner now scheds sched nd f pre)) x <> out_queue nd x) :
  exists l, nd_links nd !! x = Some l /\ lk_type l = Qkd.
Proof.
  assert (Hsafe : forall nd' dest h p gr ep ho hd nh,
    nd_out nd' = nd_out nd ->
    next_hop_graded (nd_routing nd) dest h true = Some nh ->
    out_queue (fst (forward_plaintext sched nd' nh dest p gr ep ho hd)) x <> out_queue nd x ->
    exists l, nd_links nd !! x = Some l /\ lk_type l = Qkd).
  { intros nd' dest h p gr ep ho hd nh Eout Hnh Hc. destruct (decide (x = nh)) as [->|Hne].
    - apply (lm_qkd _ Hlinks). by eapply qkd_next_hop.
    - destruct Hc. rewrite forward_out by (by left). unfold out_queue. by rewrite Eout. }
  destruct Hchanged as [Hc|Hc].
  - unfold handle_local_send_inner in Hc. destruct (_ =? nd_id nd); [done|]. rewrite Hgrade in Hc.
    destruct (next_hop_graded _ _ _ _) as [nh|] eqn:Enh; [|done]. by eapply (Hsafe nd).
  - unfold handle_incoming_inner in Hc. destruct (link_to nd (sender_id f)) as [l|]; [|done].
    assert (Hauth : exists l1 r, (if pre then (l, Ok f)
        else let '(fa, st, r) := authenticate now (lk_auth l) (lk_store l) f in (with_auth fa st l, r))
        = (l1, r) /\ forall f', r = Ok f' -> grade f' = GRADE_QKD).
    { destruct pre; [exists l, (Ok f); split; [done|by intros f' [= <-]]|].
      destruct (authenticate _ _ _ _) as [[fa st] r] eqn:Ea. exists (with_auth fa st l), r. split; [done|].
      intros f' ->. by rewrite (authenticate_grade _ _ _ _ _ _ _ Ea). }
    destruct Hauth as (l1 & r & Eauth & Hgr). rewrite Eauth in Hc. cbv zeta in Hc.
    destruct r as [f'| |]; [|done..]. specialize (Hgr f' eq_refl).
    destruct (parse_key_ids _) as [ids| |]; [|done..].
    destruct (lookup_or_fetch_dec _ _ _) as [ks rk].
    destruct (let* keys := rk in _) as [p| |]; [|done..].
    destruct (dest_final f' =? _); [done|]. rewrite Hgr in Hc.
    cbn [nd_routing set_link with_links] in Hc.
    destruct (next_hop_graded _ _ _ _) as [nh|] eqn:Enh; [|done].
    destruct (forward_plaintext _ _ _ _ _ _ _ _ _) as [nd3 r3] eqn:Ef. cbn [fst] in Hc.
    assert (Hc3 : out_queue nd3 x <> out_queue nd x) by (by destruct r3).
    eapply (Hsafe _ (dest_final f') _ p (grade f') (epoch_id f') (header_orr_mp f') (header_dkms_mp f') nh);
      [|exact Enh|]; [|by rewrite Hgr, Ef]. done.
Qed.
End Grades.

(** ** A concrete instance of the interface, and witnesses *)

Definition hex_digit (n : Z) : Z := if n <? 10 then 48 + n else 87 + n.
Definition hex_byte (b : Z) : bytes := [hex_digit ((b / 16) mod 16); hex_digit (b mod 16)].
Definition hexs (l : bytes) : bytes := mjoin (map hex_byte l).
Definition unhex_digit (c : Z) : Z := if c <? 58 then c - 48 else c - 87.
Fixpoint unhexs (l : bytes) : bytes :=
  match l with
  | a :: b :: l => unhex_digit a * 16 + unhex_digit b :: unhexs l
  | _ => []
  end.

(** The 8-4-4-4-12 form. *)
Definition hyphenated (id : bytes) : bytes :=
  hexs (take 4 id) ++ [45] ++ hexs (take 2 (drop 4 id)) ++ [45] ++ hexs (take 2 (drop 6 id)) ++ [45]
  ++ hexs (take 2 (drop 8 id)) ++ [45] ++ hexs (drop 10 id).
Definition parse_hyphenated (s : bytes) : option bytes :=
  let h := List.filter (fun c => negb (c =? 45)) s in
  if (length h =? 32)%nat then Some (unhexs h) else None.

Lemma hex_digit_range n : 0 <= n < 16 -> 48 <= hex_digit n < 103 /\ hex_digit n <> 45 /\ unhex_digit (hex_digit n) = n.
Proof.
  intros Hn. unfold hex_digit, unhex_digit. destruct (Z.ltb_spec n 10).
  - destruct (Z.ltb_spec (48 + n) 58); lia.
  - destruct (Z.ltb_spec (87 + n) 58); lia.
Qed.

Lemma hexs_facts l :
  length (hexs l) = (2 * length l)%nat /\ Forall (fun c => 48 <= c < 103) (hexs l)
  /\ List.filter (fun c => negb (c =? 45)) (hexs l) = hexs l /\ (wf_bytes l -> unhexs (hexs l) = l).
Proof.
  induction l as [|b l (IH1 & IH2 & IH3 & IH4)]; [by split_and!|].
  change (hexs (b :: l)) with (hex_digit ((b / 16) mod 16) :: hex_digit (b mod 16) :: hexs l).
  destruct (hex_digit_range ((b / 16) mod 16)) as (R1 & N1 & U1); [apply Z.mod_pos_bound; lia|].
  destruct (hex_digit_range (b mod 16)) as (R2 & N2 & U2); [apply Z.mod_pos_bound; lia|].
  split_and!.
  - simpl. lia.
  - by apply Forall_cons_2, Forall_cons_2.
  - cbn [List.filter]. destruct (Z.eqb_spec (hex_digit ((b / 16) mod 16)) 45); [done|].
    destruct (Z.eqb_spec (hex_digit (b mod 16)) 45); [done|]. cbn [negb]. by rewrite IH3.
  - intros [Hb Hl]%Forall_cons. cbn [unhexs]. rewrite U1, U2, IH4 by done. f_equal.
    unfold is_u8 in Hb. rewrite Z.mod_small.
    + pose proof (Z.div_mod b 16). lia.
    + split; [apply Z.div_pos; lia|apply Z.div_lt_upper_bound; lia].
Qed.

Lemma hexs_app a b : hexs a ++ hexs b = hexs (a ++ b).
Proof. unfold hexs. by rewrite map_app, join_app. Qed.

Lemma utf8_ascii l : Forall (fun c => 0 <= c <= 127) l -> wf_string l.
Proof.
  intros Hl. split; [eapply Forall_impl; [exact Hl|]; unfold is_u8; cbv beta; lia|].
  induction Hl as [|c l Hc _ IH]; [done|]. simpl. destruct (Z.leb_spec c 127); [done|lia].
Qed.

#[export] Instance sample_env : RelayEnv.
Proof.
  refine {| uuid_to_string := hyphenated; uuid_parse := parse_hyphenated;
            frame_hash64 d ho hd ids := as_u 64 (d + le_val ho + le_val hd + zlen ids) |}.
  - intros id Hl Hw. unfold parse_hyphenated, hyphenated.
    rewrite !List.filter_app, !(proj1 (proj2 (proj2 (hexs_facts _)))). cbn [List.filter Z.eqb negb app Pos.eqb].
    rewrite !hexs_app.
    assert (Hid : take 4 id ++ take 2 (drop 4 id) ++ take 2 (drop 6 id) ++ take 2 (drop 8 id) ++ drop 10 id = id).
    { do 17 (destruct id as [|? id]; [done|]). done. }
    rewrite Hid, (proj1 (hexs_facts id)), Hl, (proj2 (proj2 (proj2 (hexs_facts id)))) by done. done.
  - intros id Hl. unfold hyphenated. rewrite !length_app, !(proj1 (hexs_facts _)), !length_take, !length_drop, Hl.
    done.
  - intros id. apply utf8_ascii. unfold hyphenated.
    assert (Hh : forall l, Forall (fun c => 0 <= c <= 127) (hexs l)).
    { intros l. eapply Forall_impl; [apply hexs_facts|]. cbv beta. lia. }
    rewrite !Forall_app, !Forall_singleton. split_and!; (apply Hh || lia).
Defined.

Definition otp (i : Z) : OtpKey := mkKey (be_bytes 16 i) (replicate 4 (i mod 256)).
Definition enc_end (keys : list OtpKey) : Link :=
  mkLink Pqc 32 (enc_push (ks_new 1 2 32) keys) (Some sample_auth) sample_store.
Definition dec_end (keys : list OtpKey) : Link :=
  mkLink Pqc 32 (dec_store (ks_new 1 2 32) keys) (Some sample_auth) sample_store.
Definition node (id : Z) (links : gmap Z Link) (ft : ForwardingTable) : Node :=
  mkNode id links ft ∅ [mkConn [] false] [] (fun _ => 0).

Definition node1 : Node := node 1 {[ 2 := enc_end [otp 1; otp 2] ]} (ft_replace (ft_new {[ 2 ]}) {[ 3 := [single 2] ]}).
Definition node2 : Node :=
  node 2 (<[ 1 := dec_end [otp 1; otp 2] ]> {[ 3 := enc_end [otp 3; otp 4] ]}) (ft_new {[ 1; 3 ]}).
Definition node3 : Node := node 3 {[ 2 := dec_end [otp 3; otp 4] ]} (ft_new {[ 2 ]}).
Definition sample_msg : Frame := mkFrame FRAME_LOCAL_SEND GRADE_PQC 0 0 3 0 7 [] [1; 2] [3] [10; 20; 30; 40; 50; 60].

Lemma sample_hop a b : is_u 64 a -> is_u 64 b -> be_bytes 16 a <> be_bytes 16 b ->
  hop_ready (enc_end [otp a; otp b]) (dec_end [otp a; otp b]) 6.
Proof.
  intros Ha Hb Hab. constructor.
  - split_and!; [done|vm_compute; intuition discriminate|vm_compute; lia].
  - split; vm_compute; lia.
  - change (hop_keys _ _) with [otp a; otp b]. repeat constructor; try apply be_bytes_wf;
      try apply length_be_bytes; cbn; (apply Z.mod_pos_bound; lia) || idtac.
  - change (map key_id (hop_keys _ _)) with [be_bytes 16 a; be_bytes 16 b]. apply NoDup_cons. split; [set_solver|apply NoDup_singleton].
  - change (hop_keys _ _) with [otp a; otp b]. cbn [lk_keys dec_end dec_store with_dec ks_dec fold_left].
    intros k [->|[->|[]%not_elem_of_nil]%elem_of_cons]%elem_of_cons.
    + rewrite lookup_insert_ne by done. apply lookup_insert_eq.
    + apply lookup_insert_eq.
  - split_and!; [done|vm_compute; done|]. eexists 4, sample_key. apply sample_session.
Qed.

Lemma path_delivers_witness :
  send_path 0 [node1; node2; node3] sample_msg
  = Some (mkFrame FRAME_LOCAL_DELIVER GRADE_PQC 2 3 3 0 7 [] [1; 2] [3] [10; 20; 30; 40; 50; 60]).
Proof.
  apply (path_delivers 0 [node1; node2; node3] sample_msg).
  - assert (Hh : forall a b, is_u 64 a -> is_u 64 b -> be_bytes 16 a <> be_bytes 16 b ->
      hop_ready (enc_end [otp a; otp b]) (dec_end [otp a; otp b]) (length (payload sample_msg)))
      by exact sample_hop.
    cbn [path_ready]. split_and!; try (vm_compute; intuition discriminate); try done.
    + eexists _, _. split_and!; [reflexivity|reflexivity|apply Hh; vm_compute; intuition discriminate].
    + eexists _, _. split_and!; [reflexivity|reflexivity|apply Hh; vm_compute; intuition discriminate].
    + eexists _, _. split_and!; reflexivity.
  - simpl. lia.
  - apply (bool_decide_unpack _). vm_compute. exact I.
  - split; [|vm_compute; intuition discriminate]. constructor; cbn; repeat constructor; vm_compute; intuition discriminate.
Defined.

Lemma oversize_spends_nothing_witness :
  fst (forward_plaintext [] node1 2 3 (replicate 17 0) 0 0 [] []) = node1
  /\ is_ok (snd (forward_plaintext [] node1 2 3 (replicate 17 0) 0 0 [] [])) = false.
Proof. apply (oversize_spends_nothing [] node1 2 3 0 0 (replicate 17 0) [] []). vm_compute. lia. Defined.

Definition zero_link : Link := mkLink Pqc 0 (ks_new 1 5 0) None (ss_new 2 2048).

Lemma zero_key_size_panics_witness :
  snd (forward_plaintext [] (fst (add_link node1 5 Pqc (Some zero_link))) 5 5 [1] 1 0 [] []) = Panic.
Proof.
  apply (zero_key_size_panics [] (fst (add_link node1 5 Pqc (Some zero_link))) zero_link 5 5 1 0 [1] [] []);
    [reflexivity|vm_compute; intuition discriminate|done].
Defined.

Lemma announced_key_lost_to_race_witness :
  let ks := notify_remote_enc (ks_new 1 2 256) [be_bytes 16 9] in
  snd (lookup_or_fetch_dec [(fun ks => dec_refill_ok ks [be_bytes 16 9] [mkKey (be_bytes 16 9) [7]], [])]
         ks [be_bytes 16 9]) = Err (KeyWaitTimeout WaitDecUnannounced 1 0).
Proof.
  cbv zeta. pose proof (announced_key_lost_to_race (notify_remote_enc (ks_new 1 2 256) [be_bytes 16 9])
    (be_bytes 16 9) [7] []) as Hrace. cbv zeta in Hrace.
  destruct (lookup_or_fetch_dec _ _ _) as [ks' r]. apply Hrace; reflexivity.
Defined.

Definition graded_node : Node :=
  node 1 (<[ 2 := mkLink Qkd 32 (enc_push (ks_new 1 2 32) [otp 1; otp 2]) None sample_store ]>
            {[ 5 := enc_end [] ]})
    (ft_replace_qkd (ft_new_with_grades {[ 2; 5 ]} {[ 2 ]}) {[ 5 := [single 2] ]}).
Definition graded_msg : Frame := mkFrame FRAME_LOCAL_SEND GRADE_QKD 0 0 5 0 7 [] [] [] [1; 2; 3].

Lemma graded_links : links_match graded_node.
Proof.
  constructor; [by vm_compute|]. intros id.
  change (ft_direct_qkd (nd_routing graded_node)) with ({[ 2 ]} : gset Z). split.
  - intros ->%elem_of_singleton. eexists. by split.
  - intros (l & Hl & Ht). unfold graded_node, node in Hl. cbn [nd_links] in Hl. apply lookup_insert_Some in Hl as [[<- _]|[_ Hl]]; [set_solver|].
    apply lookup_singleton_Some in Hl as [<- <-]. done.
Qed.

Lemma links_match_invariant_witness :
  links_match (fst (remove_link graded_node 2)).
Proof. apply (links_match_invariant graded_node 2 zero_link graded_links). Defined.

Lemma qkd_frame_leaves_on_qkd_link_witness :
  exists l, nd_links graded_node !! 2 = Some l /\ lk_type l = Qkd.
Proof.
  apply (qkd_frame_leaves_on_qkd_link 0 [] [] graded_node graded_msg false 2).
  - apply graded_links.
  - reflexivity.
  - intros E. apply (f_equal (fun t : Table => t !! 5)) in E. discriminate E.
  - apply (bool_decide_unpack _). vm_compute. exact I.
  - left. vm_compute. discriminate.
Defined.
