(* ===== verification/Refill.v ===== *)
(** * A refill of a PQC link, end to end

    One turn of [enc_refill_loop] at one end (qkc/src/keystore.rs), the NOTIFY it
    sends across the wire, [handle_notify] at the other end
    (qkc/src/transport/peer_server.rs) and one turn of [dec_refill_loop] there.
    The theorem closes the gap the relay theorems start from: after the round both
    ends hold the same keys. *)

From Stdlib Require Import ZArith Lia.
From S2P Require Import Prelude Wire ReplayWindow FrameMac QkcTypes SecretStore FrameAuth.
From S2P Require Import OtpCrypto Routing PeerOut KeyStore Relay.

Section Refill.
Context `{MacCrypto} `{RelayEnv}.

(** One turn of [enc_refill_loop] with a PQC source: the link after it, the
    source, and the NOTIFY for the outgoing queue. *)
Definition enc_turn (ps : PqcKeySource) (any : option Z) (wait : Z -> option bytes) (rs : list bytes)
    (l : Link) : res QkcError (Link * PqcKeySource * Frame) :=
  let* (keys, ps) := enc_keys ps (lk_store l) any wait rs in
  let* (ks, fa, f) := res_map_err FrameAuthErr (absorb_enc_keys (lk_keys l) (lk_auth l) (lk_store l) keys) in
  Ok (with_auth fa (lk_store l) (with_keys ks l), ps, f).

(** One turn of [dec_refill_loop] with a PQC source, which never fails. *)
Definition dec_turn (ps : PqcKeySource) (wait : Z -> option bytes) (l : Link) : Link :=
  let '(ks, ids) := dec_drain (lk_keys l) in
  if (length ids =? 0)%nat then l else
  let '(keys, st) := dec_keys ps (lk_store l) wait ids in
  with_auth (lk_auth l) st (with_keys (dec_refill_ok ks ids keys) l).

(** The round: refill at one end, NOTIFY over the wire, fetch at the other. *)
Definition refill_round (now : Z) (psA psB : PqcKeySource) (any : option Z) (waitA waitB : Z -> option bytes)
    (rs : list bytes) (la : Link) (nb : Node) (from : Z) : option (Link * Node) :=
  match enc_turn psA any waitA rs la with
  | Ok (la', _, f) =>
      match (let* bs := write_frame f in read_frame bs) with
      | Ok (g, _) =>
          let nb := ingress now nb g in
          l ← link_to nb from;
          Some (la', set_link from (dec_turn psB waitB l) nb)
      | _ => None
      end
  | _ => None
  end.

Lemma fold_insert_all (keys : list OtpKey) (m : gmap bytes bytes) k :
  NoDup (map key_id keys) -> k ∈ keys ->
  fold_left (fun m k => <[key_id k := material k]> m) keys m !! key_id k = Some (material k).
Proof.
  intros Hnd Hin. rewrite fold_insert_find by done.
  destruct (list_find (fun k0 => key_id k0 = key_id k) keys) as [[i k']|] eqn:Ef; simpl.
  - apply list_find_Some in Ef as (Hi & He & _). apply list_elem_of_lookup in Hin as [j Hj].
    assert (i = j).
    { eapply (NoDup_lookup (map key_id keys)); [done|..]; rewrite list_lookup_fmap; [by rewrite Hi|].
      rewrite Hj. simpl. by rewrite He. }
    subst j. congruence.
  - apply list_find_None in Ef. rewrite Forall_forall in Ef. by destruct (Ef k Hin).
Qed.

(** The NOTIFY of a batch fits the wire and survives it. *)
Lemma notify_wire ks ids k tr :
  Forall (fun id => length id = 16%nat /\ wf_bytes id) ids -> zlen ids <= 128 ->
  is_u 32 (ks_my_id ks) -> is_u 32 (ks_peer_id ks) -> is_u 16 (ks_key_size_bits ks) ->
  is_u8 k -> zlen tr <= 48 -> wf_bytes tr ->
  let g := with_payload (notify_frame ks ids) k (encode_notify_payload ids ++ tr) in
  exists bs, write_frame g = Ok bs /\ read_frame bs = Ok (g, []).
Proof.
  intros Hids Hn Hme Hpe Hbits Hk Htr Htw. cbv zeta. set (g := with_payload _ _ _).
  assert (Hc : zlen (concat ids) = 16 * zlen ids).
  { apply zlen_concat_uniform. eapply Forall_impl; [exact Hids|]. intros i [Hi _]. unfold zlen. lia. }
  pose proof (zlen_nonneg ids).
  assert (Henc : encodable g).
  { constructor;
      [vm_compute; discriminate|vm_compute; discriminate|constructor|vm_compute; discriminate|vm_compute; discriminate|].
    change (first_len (key_ids g)) with 0. change (zlen (header_orr_mp g)) with 0.
    change (zlen (header_dkms_mp g)) with 0. change (payload g) with (encode_notify_payload ids ++ tr).
    unfold encode_notify_payload. autorewrite with zlen. rewrite Hc. unfold FIXED_PREFIX, MAX_TOTAL_LEN. lia. }
  eexists. split; [unfold write_frame; rewrite (proj2 (validate_iff _) Henc); reflexivity|].
  rewrite <- (app_nil_r (encode g)). apply read_write_frame.
  - constructor; [exact Hk|split; [apply Z.le_refl|reflexivity]|exact Hme|exact Hpe|exact Hpe|exact Hbits
      |split; [apply Z.le_refl|reflexivity]|apply Forall_nil_2|apply Forall_nil_2|apply Forall_nil_2|].
    change (payload g) with (encode_notify_payload ids ++ tr).
    unfold encode_notify_payload. apply Forall_app. split; [|done]. apply Forall_app.
    split; [apply le_bytes_wf|]. apply Forall_concat. eapply Forall_impl; [exact Hids|]. by intros i [_ ?].
  - unfold write_frame. rewrite (proj2 (validate_iff _) Henc). reflexivity.
Qed.

(** The ids of a fresh batch: 16 bytes each and pairwise distinct. *)
Lemma batch_ids ps st any wait rs keys ps' :
  enc_keys ps st any wait rs = Ok (keys, ps') ->
  Forall (fun r => length r = 16%nat /\ wf_bytes r) rs -> NoDup (map (drop 4) rs) ->
  Forall (fun id => length id = 16%nat /\ wf_bytes id) (map key_id keys) /\ NoDup (map key_id keys).
Proof.
  intros Henc Hrs Hfresh. destruct (enc_keys_ids ps st any wait rs keys ps' Henc) as (e & ->). split.
  - apply Forall_map. eapply Forall_impl; [exact Hrs|]. intros r [Hr Hw]. split.
    + by apply length_make_key_id.
    + apply Forall_app. split; [apply be_bytes_wf|by apply Forall_drop].
  - clear - Hfresh. induction rs as [|r rs IH]; [apply NoDup_nil_2|]. cbn [map] in *.
    apply NoDup_cons in Hfresh as [Hr Hfresh]. apply NoDup_cons. split; [|by apply IH].
    intros (r' & He & Hin)%list_elem_of_fmap. apply Hr. apply app_inj_length in He as [_ He]; [|done].
    rewrite He. by apply list_elem_of_fmap_2.
Qed.

(** A NOTIFY that verifies is announced to the key store of its link. *)
Lemma ingress_notify now nb lb fb ks ids k tr :
  (k =? FRAME_KEY_IDS_NOTIFY) || (k =? FRAME_KEY_IDS_NOTIFY_AUTH) = true -> data_kind k = false ->
  link_to nb (ks_my_id ks) = Some lb -> Forall (fun id => length id = 16%nat) ids -> zlen ids <= 128 ->
  authenticate now (lk_auth lb) (lk_store lb)
    (with_payload (notify_frame ks ids) k (encode_notify_payload ids ++ tr))
  = (fb, lk_store lb, Ok (notify_frame ks ids)) ->
  ingress now nb (with_payload (notify_frame ks ids) k (encode_notify_payload ids ++ tr))
  = set_link (ks_my_id ks) (with_keys (notify_remote_enc (lk_keys lb) ids) (with_auth fb (lk_store lb) lb))
      (set_link (ks_my_id ks) (with_auth fb (lk_store lb) lb) nb).
Proof.
  intros Hkn Hkd Hlink Hlen Hn Hauth. unfold ingress. cbn [kind with_payload]. unfold data_kind in Hkd.
  rewrite Hkd, Hkn. unfold handle_notify. cbn [sender_id with_payload notify_frame]. rewrite Hlink.
  unfold notify_frame in Hauth. unfold notify_frame. rewrite Hauth. cbn [payload].
  rewrite <- (app_nil_r (encode_notify_payload ids)). rewrite notify_decode_encode; [done|done|lia].
Qed.

(** With nothing pending the worker drains exactly the batch just announced. *)
Lemma drain_notified ks ids :
  ks_dec_pending ks = [] -> zlen ids <= 128 ->
  let ks' := notify_remote_enc ks ids in
  dec_drain ks' = (with_pending [] (ks_dec_announced ks') true ks', ids).
Proof.
  intros Hpend Hn. cbv zeta. assert (Hp : ks_dec_pending (notify_remote_enc ks ids) = ids).
  { unfold notify_remote_enc. rewrite Hpend.
    destruct (_ <? _)%nat; cbn; rewrite ?Hpend; apply take_ge; unfold DEC_PENDING_MAX;
      unfold zlen, sat_sub in *; simpl; lia. }
  unfold dec_drain. rewrite Hp.
  replace (Z.to_nat (Z.min (zlen ids) DEC_BATCH_MAX)) with (length ids)
    by (unfold zlen, DEC_BATCH_MAX in *; lia).
  rewrite drop_all, firstn_all. done.
Qed.

(** A batch from any source crosses the link: it is in the ring of the one end,
    and its ids are announced to the key store of the other. *)
Lemma batch_crosses now a la lb nb (keys : list OtpKey) :
  Forall (fun id => length id = 16%nat /\ wf_bytes id) (map key_id keys) -> zlen keys <= 128 ->
  zlen (ks_enc (lk_keys la)) + zlen keys <= ENC_CAP ->
  ks_my_id (lk_keys la) = a /\ is_u 32 a /\ is_u 32 (ks_peer_id (lk_keys la)) /\ is_u 16 (ks_key_size_bits (lk_keys la)) ->
  link_to nb a = Some lb -> auth_ready (lk_auth la) (lk_auth lb) (lk_store la) (lk_store lb) ->
  exists ks fa fb f bs g,
    absorb_enc_keys (lk_keys la) (lk_auth la) (lk_store la) keys = Ok (ks, fa, f) /\ ks_enc ks = ks_enc (lk_keys la) ++ keys /\
    write_frame f = Ok bs /\ read_frame bs = Ok (g, []) /\
    ingress now nb g = set_link a (with_keys (notify_remote_enc (lk_keys lb) (map key_id keys)) (with_auth fb (lk_store lb) lb))
                         (set_link a (with_auth fb (lk_store lb) lb) nb).
Proof.
  intros Hidwf Hkl Hring (Hme & Hau & Hpu & Hbu) Hlink Hauth.
  assert (Hkl' : zlen (map key_id keys) <= 128) by (unfold zlen in *; by rewrite length_map).
  set (ks0 := bump n_refills_enc 1 (with_est (OnDelivered (zlen keys)) (lk_keys la))).
  destruct (enc_push_app ks0 keys) as (l & Hpush & _ & _ & _ & _ & _ & Hfit).
  destruct Hfit as [-> _]; [change (ks_enc ks0) with (ks_enc (lk_keys la)); lia|].
  set (ks1 := with_enc_seq (as_u 64 (ks_enc_inserted_seq (enc_push ks0 keys) + 1)) (enc_push ks0 keys)).
  assert (Hks1 : ks_my_id ks1 = a /\ ks_peer_id ks1 = ks_peer_id (lk_keys la)
                 /\ ks_key_size_bits ks1 = ks_key_size_bits (lk_keys la)).
  { destruct (enc_push_ids ks0 keys) as (E1 & E2 & E3). by rewrite <- Hme. }
  destruct Hks1 as (Em & Ep & Eb).
  destruct (seal_authenticate (lk_auth la) (lk_auth lb) (lk_store la) (lk_store lb)
    (notify_frame ks1 (map key_id keys)) Hauth) as (fa' & k & tr & Hseal & Hk & Htr & Htw & Hopen);
    [tauto|constructor|done|done|].
  cbv zeta in Hseal, Hopen. cbn [payload notify_frame] in Hseal, Hopen.
  assert (Hk' : (k =? FRAME_KEY_IDS_NOTIFY) || (k =? FRAME_KEY_IDS_NOTIFY_AUTH) = true /\ is_u8 k
                /\ data_kind k = false).
  { cbn [kind notify_frame] in Hk. destruct Hk as [->|Hk]; [done|]. by injection Hk as <-. }
  destruct Hk' as (Hkn & Hk8 & Hkd).
  destruct (notify_wire ks1 (map key_id keys) k tr) as (bs & Hw & Hr); try done.
  { by rewrite Em. } { by rewrite Ep. } { by rewrite Eb. }
  destruct (Hopen now) as [fb Hopenb].
  assert (Hing := ingress_notify now nb lb fb ks1 (map key_id keys) k tr Hkn Hkd). rewrite Em in Hing.
  eexists ks1, fa', fb, _, bs, _. unfold absorb_enc_keys. fold ks0. fold ks1. unfold send_notify. rewrite Hseal. cbn [res_bind].
  split_and!; [reflexivity|exact Hpush|exact Hw|exact Hr|]. apply Hing; try done. eapply Forall_impl; [exact Hidwf|by intros i [? _]].
Qed.

(** C5: a refill leaves both ends with the same keys.  When the secret of the
    active epoch is installed at both ends of a PQC link and they agree on
    authentication, a batch of up to 128 keys that one end derives is appended to
    its ring; its NOTIFY crosses the wire, verifies, and the worker of the other
    end derives the same batch: every key of the ring batch is in the DEC map of
    the peer under its id, with the same material. *)
Theorem refill_shares_keys (now a h : Z) (psA psB : PqcKeySource) (any : option Z)
  (waitA waitB : Z -> option bytes) (rs : list bytes) (la lb : Link) (nb : Node) (secret : bytes)
  (Hh : ss_highest (lk_store la) = Some h) (Hu : is_u 32 (active_epoch psA (lk_store la) h))
  (HsA : ss_get (lk_store la) (active_epoch psA (lk_store la) h) = Some secret)
  (HsB : ss_get (lk_store lb) (active_epoch psA (lk_store la) h) = Some secret)
  (Hlen : ps_key_bytes psB = ps_key_bytes psA)
  (Hclock : match ps_clock psA with Some c => ck_counter c + zlen rs <= u_max 64 | None => True end)
  (Hrs : Forall (fun r => length r = 16%nat /\ wf_bytes r) rs) (Hbatch : zlen rs <= 128)
  (Hfresh : NoDup (map (drop 4) rs))
  (Hring : zlen (ks_enc (lk_keys la)) + zlen rs <= ENC_CAP)
  (Hids : ks_my_id (lk_keys la) = a /\ is_u 32 a /\ is_u 32 (ks_peer_id (lk_keys la))
          /\ is_u 16 (ks_key_size_bits (lk_keys la)))
  (Hlink : link_to nb a = Some lb) (Hpend : ks_dec_pending (lk_keys lb) = [])
  (Hauth : auth_ready (lk_auth la) (lk_auth lb) (lk_store la) (lk_store lb)) :
  exists la' nb' lb' keys,
    refill_round now psA psB any waitA waitB rs la nb a = Some (la', nb')
    /\ ks_enc (lk_keys la') = ks_enc (lk_keys la) ++ keys /\ length keys = length rs
    /\ link_to nb' a = Some lb'
    /\ forall k, k ∈ keys -> length (material k) = ps_key_bytes psA
                             /\ ks_dec (lk_keys lb') !! key_id k = Some (material k).
Proof.
  destruct (enc_dec_agree psA psB (lk_store la) (lk_store lb) any waitA waitB rs h secret)
    as (keys & ps' & Henc & Hlk & Hmat & Hdec); [done..|].
  destruct (batch_ids _ _ _ _ _ _ _ Henc Hrs Hfresh) as [Hidwf Hnd].
  assert (Hkl : zlen keys = zlen rs /\ zlen (map key_id keys) <= 128) by (unfold zlen in *; rewrite length_map; lia).
  destruct Hkl as [Hkl Hkl'].
  destruct (batch_crosses now a la lb nb keys) as (ks & fa & fb & f & bs & g & Habs & Hpush & Hw & Hr & Hing); [done|lia|lia|done..|].
  eexists _, _, _, keys. unfold refill_round, enc_turn. rewrite Henc. cbn [res_bind]. rewrite Habs. cbn [res_bind res_map_err].
  rewrite Hw. cbn [res_bind]. rewrite Hr, Hing. unfold link_to at 1. cbn [nd_links set_link with_links]. rewrite lookup_insert_eq. cbn [mbind option_bind].
  split_and!; [reflexivity|exact Hpush|done|unfold link_to; cbn [nd_links set_link with_links]; apply lookup_insert_eq|].
  intros key Hkey. rewrite Forall_forall in Hmat. split; [by apply Hmat|].
  unfold dec_turn. cbn [lk_keys with_keys with_auth lk_store lk_auth]. rewrite (drain_notified _ _ Hpend Hkl').
  rewrite length_map. destruct (Nat.eqb_spec (length keys) 0) as [Hz|_].
  { apply length_zero_iff_nil in Hz. subst keys. by apply not_elem_of_nil in Hkey. }
  rewrite Hdec. cbn [lk_keys with_keys with_auth dec_refill_ok dec_store with_dec ks_dec].
  by apply fold_insert_all.
Qed.
End Refill.

Lemma refill_shares_keys_witness :
  exists la' nb' lb' keys,
    refill_round 0 (source_new 256 2 None) (source_new 256 2 None) None (fun _ => None) (fun _ => None)
      [replicate 16 7; replicate 16 9] (enc_end []) (node 2 {[ 1 := dec_end [] ]} (ft_new {[ 1 ]})) 1
    = Some (la', nb')
    /\ ks_enc (lk_keys la') = [] ++ keys /\ length keys = 2%nat
    /\ link_to nb' 1 = Some lb'
    /\ forall k, k ∈ keys -> length (material k) = 32%nat
                             /\ ks_dec (lk_keys lb') !! key_id k = Some (material k).
Proof.
  apply (refill_shares_keys 0 1 4 (source_new 256 2 None) (source_new 256 2 None) None (fun _ => None)
    (fun _ => None) [replicate 16 7; replicate 16 9] (enc_end []) (dec_end [])
    (node 2 {[ 1 := dec_end [] ]} (ft_new {[ 1 ]})) (sample_secrets 2)); try reflexivity; try exact I.
  - vm_compute. intuition discriminate.
  - repeat apply Forall_cons_2; try apply Forall_nil_2; (split; [reflexivity|]);
      apply Forall_replicate; vm_compute; intuition discriminate.
  - vm_compute. discriminate.
  - apply (bool_decide_unpack _). vm_compute. exact I.
  - vm_compute. discriminate.
  - vm_compute. intuition discriminate.
  - split_and!; [done|vm_compute; done|]. eexists 4, sample_key. apply sample_session.
Defined.
