(* ===== verification/Security.v ===== *)
(** * Security levels and key grades

    [KeyGrade], [SecurityLevel] and their policy (common/src/security.rs), and the
    level an ETSI 014 request asks for in its extensions
    (dkms/src/security_level.rs).  A JSON object is a finite map of values; of a
    value only what the code asks of it is kept: a string, an unsigned number, or
    something else.  The text of error messages is left out. *)

From Stdlib Require Import ZArith Lia.
From S2P Require Import Prelude.

(** ** common/src/security.rs *)

Inductive KeyGrade := GradeQkd | GradePqc.
Inductive SecurityLevel := StrictQkd | QkdPrefer | NoWorry.
Inductive GradeResolution := Serve (g : KeyGrade) | Unsatisfiable.

#[export] Instance KeyGrade_eq_dec : EqDecision KeyGrade.
Proof. solve_decision. Defined.
#[export] Instance SecurityLevel_eq_dec : EqDecision SecurityLevel.
Proof. solve_decision. Defined.

Definition wire_byte (g : KeyGrade) : Z := match g with GradeQkd => 0 | GradePqc => 1 end.

Definition level_as_str (l : SecurityLevel) : string :=
  match l with StrictQkd => "strict_qkd" | QkdPrefer => "qkd_prefer" | NoWorry => "no_worry" end.

Definition from_token (s : string) : option SecurityLevel :=
  if decide (s = "strict_qkd"%string) then Some StrictQkd
  else if decide (s = "qkd_prefer"%string) then Some QkdPrefer
  else if decide (s = "no_worry"%string) then Some NoWorry
  else None.

Definition serve_pref (l : SecurityLevel) : list KeyGrade :=
  match l with
  | StrictQkd => [GradeQkd]
  | QkdPrefer => [GradeQkd; GradePqc]
  | NoWorry => [GradePqc; GradeQkd]
  end.

Definition resolve_grade (l : SecurityLevel) (qkd_available pqc_available : bool) : GradeResolution :=
  match l with
  | StrictQkd => if qkd_available then Serve GradeQkd else Unsatisfiable
  | QkdPrefer =>
      if qkd_available then Serve GradeQkd
      else if pqc_available then Serve GradePqc else Unsatisfiable
  | NoWorry =>
      if pqc_available then Serve GradePqc
      else if qkd_available then Serve GradeQkd else Unsatisfiable
  end.

(** ** dkms/src/security_level.rs *)

(** A [serde_json::Value], as far as [as_str] and [as_u64] tell values apart. *)
Inductive Value := VString (s : string) | VU64 (n : Z) | VOther.

Definition as_str (v : Value) : option string := match v with VString s => Some s | _ => None end.
Definition as_u64 (v : Value) : option Z := match v with VU64 n => Some n | _ => None end.

Abbreviation JsonMap := (gmap string Value).

(** The ETSI 014 key request (etsi/src/v014/key_request.rs); the additional SAEs
    are the list [SaeList] makes. *)
Record Etsi014KeyRequest := mkReq {
  rq_number : Z;
  rq_size : Z;
  rq_additional_saes : list string;
  rq_extension_mandatory : option (list JsonMap);
  rq_extension_optional : option (list JsonMap)
}.

Definition EXT_KEY : string := "security_level".

Fixpoint find_level (maps : list JsonMap) : option string :=
  match maps with
  | [] => None
  | m :: maps => match m !! EXT_KEY ≫= as_str with Some s => Some s | None => find_level maps end
  end.

Definition find_in (ext : option (list JsonMap)) : option string := ext ≫= find_level.

(** Some object has a key other than [k]. *)
Definition has_other_key (k : string) (m : JsonMap) : bool :=
  existsb (fun p => negb (bool_decide (fst p = k))) (map_to_list m).

Definition requested (req : Etsi014KeyRequest) : res unit (option SecurityLevel) :=
  if existsb (has_other_key EXT_KEY) (default [] (rq_extension_mandatory req)) then Err tt else
  match find_in (rq_extension_mandatory req) with
  | Some tok => match from_token tok with Some l => Ok (Some l) | None => Err tt end
  | None =>
      match find_in (rq_extension_optional req) ≫= from_token with
      | Some l => Ok (Some l)
      | None => Ok None
      end
  end.

Definition resolve_level (req : Etsi014KeyRequest) (dflt : SecurityLevel) : res unit SecurityLevel :=
  let* l := requested req in Ok (default dflt l).

(** ** What holds *)

Lemma from_token_as_str l : from_token (level_as_str l) = Some l.
Proof. by destruct l. Qed.

Lemma from_token_inv s l : from_token s = Some l -> s = level_as_str l.
Proof. unfold from_token. intros H. repeat case_decide; simplify_eq/=; done. Qed.

Lemma has_other_key_spec k m :
  has_other_key k m = true <-> exists k', k' <> k /\ is_Some (m !! k').
Proof.
  unfold has_other_key. rewrite existsb_exists. split.
  - intros ([k' v] & Hin & Hk). exists k'. apply list_elem_of_In, elem_of_map_to_list in Hin.
    apply negb_true_iff, bool_decide_eq_false in Hk. split; [done|by exists v].
  - intros (k' & Hk & v & Hv). exists (k', v). split.
    + by apply list_elem_of_In, elem_of_map_to_list.
    + by apply negb_true_iff, bool_decide_eq_false.
Qed.

(** The level that serving by preference reaches is the one the policy table
    resolves, whatever is in stock. *)
Lemma serve_pref_resolves l (stock : KeyGrade -> bool) :
  match list_find (fun g => stock g = true) (serve_pref l) with
  | Some (_, g) => resolve_grade l (stock GradeQkd) (stock GradePqc) = Serve g
  | None => resolve_grade l (stock GradeQkd) (stock GradePqc) = Unsatisfiable
  end.
Proof.
  destruct l; simpl; repeat case_decide; simpl; try done;
    destruct (stock GradeQkd) eqn:Eq, (stock GradePqc) eqn:Ep; simplify_eq/=; done.
Qed.

Lemma strict_never_pqc l g : l = StrictQkd -> g ∈ serve_pref l -> g = GradeQkd.
Proof. intros ->. simpl. set_solver. Qed.

Lemma find_level_single s : find_level [{[ EXT_KEY := VString s ]}] = Some s.
Proof. cbn [find_level]. rewrite lookup_singleton_eq. done. Qed.

Lemma requested_spec (req : Etsi014KeyRequest) (dflt : SecurityLevel) :
  (forall m k, m ∈ default [] (rq_extension_mandatory req) -> is_Some (m !! k) -> k <> EXT_KEY ->
     resolve_level req dflt = Err tt)
  /\ ((forall m k, m ∈ default [] (rq_extension_mandatory req) -> is_Some (m !! k) -> k = EXT_KEY) ->
      resolve_level req dflt =
        match find_in (rq_extension_mandatory req), find_in (rq_extension_optional req) with
        | Some tok, _ => match from_token tok with Some l => Ok l | None => Err tt end
        | None, Some tok => Ok (default dflt (from_token tok))
        | None, None => Ok dflt
        end).
Proof.
  assert (Hex : existsb (has_other_key EXT_KEY) (default [] (rq_extension_mandatory req)) = true <->
    exists m k, m ∈ default [] (rq_extension_mandatory req) /\ is_Some (m !! k) /\ k <> EXT_KEY).
  { rewrite existsb_exists. setoid_rewrite has_other_key_spec. setoid_rewrite <- list_elem_of_In. naive_solver. }
  unfold resolve_level, requested. split.
  - intros m k Hm Hk Hne. rewrite (proj2 Hex) by eauto 6. done.
  - intros Hall. destruct (existsb _ _) eqn:E.
    { destruct (proj1 Hex eq_refl) as (m & k & Hm & Hk & Hne). by destruct Hne; eapply Hall. }
    destruct (find_in (rq_extension_mandatory req)) as [tok|] eqn:Em; [by destruct (from_token tok)|].
    destruct (find_in (rq_extension_optional req)) as [tok|] eqn:Eo; simpl; [|done].
    by destruct (from_token tok).
Qed.

(** An extension a request makes mandatory is honoured or refused.  A request
    is refused when a mandatory object has any key but [security_level], or when
    its first mandatory level is not one of the three tokens; when it is one, that
    level is the answer, whatever the optional extensions say; with no mandatory
    level an optional one counts if it is a known token; otherwise the default
    decides. *)
Theorem mandatory_level_honoured (req : Etsi014KeyRequest) (dflt : SecurityLevel) :
  (forall m k, m ∈ default [] (rq_extension_mandatory req) -> is_Some (m !! k) -> k <> EXT_KEY ->
     resolve_level req dflt = Err tt)
  /\ ((forall m k, m ∈ default [] (rq_extension_mandatory req) -> is_Some (m !! k) -> k = EXT_KEY) ->
      resolve_level req dflt =
        match find_in (rq_extension_mandatory req), find_in (rq_extension_optional req) with
        | Some tok, _ => match from_token tok with Some l => Ok l | None => Err tt end
        | None, Some tok => Ok (default dflt (from_token tok))
        | None, None => Ok dflt
        end).
Proof. apply requested_spec. Qed.

(** A mandatory level that is not a string is ignored.  A request whose only
    mandatory extension is [security_level] with a number (or null, or an object)
    for value is served at the default level, as if nothing had been asked. *)
Theorem mandatory_non_string_ignored (req : Etsi014KeyRequest) (v : Value) (dflt : SecurityLevel)
  (Hm : rq_extension_mandatory req = Some [{[ EXT_KEY := v ]}]) (Hv : as_str v = None)
  (Ho : rq_extension_optional req = None) :
  resolve_level req dflt = Ok dflt.
Proof.
  destruct (requested_spec req dflt) as [_ H]. rewrite H, Hm, Ho; clear H.
  - unfold find_in. cbn [mbind option_bind find_level]. rewrite lookup_singleton_eq. cbn. by rewrite Hv.
  - rewrite Hm. cbn. intros m k ->%list_elem_of_singleton [x Hx]. by apply lookup_singleton_Some in Hx as [<- _].
Qed.

Lemma mandatory_non_string_ignored_witness :
  resolve_level (mkReq 1 256 [] (Some [{[ EXT_KEY := VU64 3 ]}]) None) QkdPrefer = Ok QkdPrefer.
Proof.
  apply (mandatory_non_string_ignored (mkReq 1 256 [] (Some [{[ EXT_KEY := VU64 3 ]}]) None) (VU64 3) QkdPrefer);
    reflexivity.
Defined.

Lemma mandatory_level_honoured_witness :
  let r := mkReq 1 256 [] (Some [{[ EXT_KEY := VString "strict_qkd" ]}]) (Some [{[ EXT_KEY := VString "no_worry" ]}]) in
  let bad := mkReq 1 256 [] (Some [{[ "hops"%string := VU64 2 ]}]) None in
  resolve_level r QkdPrefer = Ok StrictQkd /\ resolve_level bad QkdPrefer = Err tt.
Proof.
  cbv zeta. split.
  - rewrite (proj2 (mandatory_level_honoured _ QkdPrefer)); [reflexivity|].
    intros m k ->%list_elem_of_singleton [x Hx]. by apply lookup_singleton_Some in Hx as [<- _].
  - apply (proj1 (mandatory_level_honoured _ QkdPrefer) {[ "hops"%string := VU64 2 ]} "hops"%string);
      [by apply list_elem_of_singleton|by eexists; apply lookup_singleton_eq|done].
Defined.
