(* ===== verification/TransportPool.v ===== *)
(** * Transport keys of a DKMS

    The FIFO buffers of transport keys (dkms/src/state/buffer.rs), the pool of
    buffers per peer (dkms/src/state/pool.rs), the keys that wait for their ACK
    (dkms/src/control/ack_pending.rs) and the ACK that moves one from the waiting
    table to the ENC buffer ([Generator::on_ack], dkms/src/control/generator.rs).
    Instants are numbers; log lines and flow statistics are left out. *)

From Stdlib Require Import ZArith Lia.
From S2P Require Import Prelude Security.

Abbreviation KeyId := string.

Record TransportKey := mkTk { tk_id : KeyId; tk_bytes : bytes }.

#[export] Instance TransportKey_eq_dec : EqDecision TransportKey.
Proof. solve_decision. Defined.

(** ** buffer.rs *)

Record SecureKeyBuffer := mkBuf { sb_capacity : Z; sb_inner : list TransportKey }.

Definition buf_new (capacity : Z) : SecureKeyBuffer := mkBuf capacity [].
Definition buf_len (b : SecureKeyBuffer) : Z := zlen (sb_inner b).
Definition below_watermark (b : SecureKeyBuffer) (w : Z) : bool := buf_len b <? w.
Definition with_inner (q : list TransportKey) (b : SecureKeyBuffer) : SecureKeyBuffer := mkBuf (sb_capacity b) q.

Definition try_push (b : SecureKeyBuffer) (k : TransportKey) : SecureKeyBuffer :=
  with_inner (sb_inner b ++ [k]) b.

(** The answer is the key when the buffer refuses it. *)
Definition try_push_capped (b : SecureKeyBuffer) (k : TransportKey) (ceiling : Z)
    : SecureKeyBuffer * option TransportKey :=
  if ceiling <=? buf_len b then (b, Some k) else (try_push b k, None).

Definition pop_oldest (b : SecureKeyBuffer) : SecureKeyBuffer * option TransportKey :=
  match sb_inner b with
  | [] => (b, None)
  | k :: q => (with_inner q b, Some k)
  end.

Definition push_front (b : SecureKeyBuffer) (k : TransportKey) : SecureKeyBuffer :=
  with_inner (k :: sb_inner b) b.

Fixpoint remove_id (id : KeyId) (q : list TransportKey) : option (TransportKey * list TransportKey) :=
  match q with
  | [] => None
  | k :: q =>
      if decide (tk_id k = id) then Some (k, q) else
      '(k', q') ← remove_id id q; Some (k', k :: q')
  end.

Definition take_by_id (b : SecureKeyBuffer) (id : KeyId) : SecureKeyBuffer * option TransportKey :=
  match remove_id id (sb_inner b) with
  | None => (b, None)
  | Some (k, q) => (with_inner q b, Some k)
  end.

Definition buf_clear (b : SecureKeyBuffer) : SecureKeyBuffer := with_inner [] b.

(** ** pool.rs *)

Record PeerBuffers := mkPb { pb_enc_qkd : SecureKeyBuffer; pb_enc_pqc : SecureKeyBuffer; pb_dec : SecureKeyBuffer }.

Definition pb_new (capacity : Z) : PeerBuffers := mkPb (buf_new capacity) (buf_new capacity) (buf_new capacity).

Definition enc (pb : PeerBuffers) (g : KeyGrade) : SecureKeyBuffer :=
  match g with GradeQkd => pb_enc_qkd pb | GradePqc => pb_enc_pqc pb end.

Definition set_enc (g : KeyGrade) (b : SecureKeyBuffer) (pb : PeerBuffers) : PeerBuffers :=
  match g with
  | GradeQkd => mkPb b (pb_enc_pqc pb) (pb_dec pb)
  | GradePqc => mkPb (pb_enc_qkd pb) b (pb_dec pb)
  end.

Definition set_dec (b : SecureKeyBuffer) (pb : PeerBuffers) : PeerBuffers :=
  mkPb (pb_enc_qkd pb) (pb_enc_pqc pb) b.

Definition enc_len (pb : PeerBuffers) : Z := buf_len (pb_enc_qkd pb) + buf_len (pb_enc_pqc pb).

Fixpoint enc_pop_pref (pb : PeerBuffers) (prefs : list KeyGrade)
    : PeerBuffers * option (KeyGrade * TransportKey) :=
  match prefs with
  | [] => (pb, None)
  | g :: prefs =>
      match pop_oldest (enc pb g) with
      | (b, Some k) => (set_enc g b pb, Some (g, k))
      | (_, None) => enc_pop_pref pb prefs
      end
  end.

Definition enc_clear (pb : PeerBuffers) : PeerBuffers * Z :=
  (mkPb (buf_clear (pb_enc_qkd pb)) (buf_clear (pb_enc_pqc pb)) (pb_dec pb), enc_len pb).

Record BufferPool := mkPool { capacity_per_peer : Z; bp_peers : gmap string PeerBuffers }.

Definition pool_new (capacity : Z) : BufferPool := mkPool capacity ∅.

(** [for_peer] hands out the shared buffers of a peer, made on first use: reading
    is [for_peer], and a change through them is [set_peer]. *)
Definition for_peer (p : BufferPool) (peer : string) : PeerBuffers :=
  default (pb_new (capacity_per_peer p)) (bp_peers p !! peer).
Definition set_peer (peer : string) (pb : PeerBuffers) (p : BufferPool) : BufferPool :=
  mkPool (capacity_per_peer p) (<[peer := pb]> (bp_peers p)).

Definition clear_all (p : BufferPool) : BufferPool :=
  mkPool (capacity_per_peer p)
    ((fun pb => mkPb (buf_clear (pb_enc_qkd pb)) (buf_clear (pb_enc_pqc pb)) (buf_clear (pb_dec pb))) <$> bp_peers p).

(** ** ack_pending.rs *)

Record AckPendingEntry := mkAe { ae_bytes : bytes; ae_deadline : Z; ae_grade : KeyGrade }.

Definition ae_expired (now : Z) (e : AckPendingEntry) : bool := ae_deadline e <=? now.

Abbreviation AckPendingStore := (gmap string (gmap KeyId AckPendingEntry)).

Inductive TakeOutcome := Hit (e : AckPendingEntry) | UnknownPeer | UnknownKey.

Definition ap_insert (s : AckPendingStore) (peer : string) (id : KeyId) (e : AckPendingEntry) : AckPendingStore :=
  <[peer := <[id := e]> (default ∅ (s !! peer))]> s.

(** The bucket of a peer goes when its last entry goes. *)
Definition put_bucket (peer : string) (bucket : gmap KeyId AckPendingEntry) (s : AckPendingStore) : AckPendingStore :=
  if decide (bucket = ∅) then delete peer s else <[peer := bucket]> s.

Definition take_diagnosed (s : AckPendingStore) (peer : string) (id : KeyId) : AckPendingStore * TakeOutcome :=
  match s !! peer with
  | None => (s, UnknownPeer)
  | Some bucket =>
      (put_bucket peer (delete id bucket) s,
       match bucket !! id with Some e => Hit e | None => UnknownKey end)
  end.

Definition ap_take (s : AckPendingStore) (peer : string) (id : KeyId) : AckPendingStore * option AckPendingEntry :=
  let '(s, r) := take_diagnosed s peer id in (s, match r with Hit e => Some e | _ => None end).

Definition drop_peer (s : AckPendingStore) (peer : string) : AckPendingStore * Z :=
  (delete peer s, match s !! peer with Some b => Z.of_nat (size b) | None => 0 end).

Definition pending_count (s : AckPendingStore) (peer : string) : Z :=
  match s !! peer with Some b => Z.of_nat (size b) | None => 0 end.

Definition reap_bucket (now : Z) (b : gmap KeyId AckPendingEntry) : gmap KeyId AckPendingEntry :=
  filter (fun kv => ae_expired now (snd kv) = false) b.

Definition reap_expired_by_peer (s : AckPendingStore) (now : Z) : AckPendingStore * gmap string Z :=
  (filter (fun kv => snd kv <> ∅) (reap_bucket now <$> s),
   filter (fun kv => 0 < snd kv)
     ((fun b => Z.of_nat (size b) - Z.of_nat (size (reap_bucket now b))) <$> s)).

(** ** Generator::on_ack *)

Definition on_ack (s : AckPendingStore) (p : BufferPool) (peer : string) (id : KeyId)
    : AckPendingStore * BufferPool * bool :=
  match take_diagnosed s peer id with
  | (s, Hit e) =>
      let pb := for_peer p peer in
      let b := try_push (enc pb (ae_grade e)) (mkTk id (ae_bytes e)) in
      (s, set_peer peer (set_enc (ae_grade e) b pb) p, true)
  | (s, _) => (s, p, false)
  end.

(** ** What holds *)

Lemma enc_set_enc g g' b pb : enc (set_enc g b pb) g' = if decide (g = g') then b else enc pb g'.
Proof. by destruct g, g'. Qed.

Lemma for_peer_set peer peer' pb p :
  for_peer (set_peer peer pb p) peer' = if decide (peer = peer') then pb else for_peer p peer'.
Proof.
  unfold for_peer, set_peer. cbn [bp_peers capacity_per_peer]. case_decide; subst.
  - by rewrite lookup_insert_eq.
  - by rewrite lookup_insert_ne.
Qed.

Lemma pop_oldest_spec b :
  match sb_inner b with
  | [] => pop_oldest b = (b, None)
  | k :: q => pop_oldest b = (with_inner q b, Some k)
  end.
Proof. unfold pop_oldest. by destruct (sb_inner b). Qed.

(** Popping by preference: the first grade in stock, its oldest key. *)
Lemma enc_pop_pref_find pb prefs :
  match list_find (fun g => negb (bool_decide (sb_inner (enc pb g) = [])) = true) prefs with
  | Some (_, g) => exists k q, sb_inner (enc pb g) = k :: q
      /\ enc_pop_pref pb prefs = (set_enc g (with_inner q (enc pb g)) pb, Some (g, k))
  | None => enc_pop_pref pb prefs = (pb, None)
  end.
Proof.
  induction prefs as [|g prefs IH]; [done|]. cbn [list_find enc_pop_pref].
  pose proof (pop_oldest_spec (enc pb g)) as Hp. destruct (sb_inner (enc pb g)) as [|k q] eqn:E.
  - rewrite decide_False by done. rewrite Hp. destruct (list_find _ prefs) as [[i g']|]; exact IH.
  - rewrite decide_True by done. rewrite Hp. by exists k, q.
Qed.

Lemma enc_pop_pref_spec pb prefs :
  match enc_pop_pref pb prefs with
  | (pb', Some (g, k)) => g ∈ prefs /\ sb_inner (enc pb g) = k :: sb_inner (enc pb' g)
      /\ pb' = set_enc g (with_inner (sb_inner (enc pb' g)) (enc pb g)) pb
  | (pb', None) => pb' = pb
  end.
Proof.
  pose proof (enc_pop_pref_find pb prefs) as H. destruct (list_find _ prefs) as [[i g]|] eqn:Ef.
  - destruct H as (k & q & Hk & ->). apply list_find_Some in Ef as (Hi & _).
    apply list_elem_of_lookup_2 in Hi. by destruct g.
  - by rewrite H.
Qed.

Lemma push_front_pop pb g k q :
  sb_inner (enc pb g) = k :: q ->
  set_enc g (push_front (enc (set_enc g (with_inner q (enc pb g)) pb) g) k)
    (set_enc g (with_inner q (enc pb g)) pb) = pb.
Proof.
  intros H. destruct pb as [a b c], g; cbn in *; unfold push_front, with_inner; cbn; rewrite <- H;
    by destruct a, b.
Qed.

(** A request is served by the policy table.  Popping by the preference list of
    a level takes the oldest key of exactly the grade that [resolve_grade] answers
    for what is in stock, and touches nothing when it answers [Unsatisfiable]; in
    particular a strict request never receives a PQC key. *)
Theorem pop_follows_policy (pb : PeerBuffers) (l : SecurityLevel) :
  let stock g := negb (bool_decide (sb_inner (enc pb g) = [])) in
  match resolve_grade l (stock GradeQkd) (stock GradePqc) with
  | Serve g => exists k q, sb_inner (enc pb g) = k :: q
      /\ enc_pop_pref pb (serve_pref l) = (set_enc g (with_inner q (enc pb g)) pb, Some (g, k))
      /\ (l = StrictQkd -> g = GradeQkd)
  | Unsatisfiable => enc_pop_pref pb (serve_pref l) = (pb, None)
  end.
Proof.
  cbv zeta. set (stock g := negb (bool_decide (sb_inner (enc pb g) = []))).
  pose proof (serve_pref_resolves l stock) as Hr. pose proof (enc_pop_pref_find pb (serve_pref l)) as Hp.
  fold stock in Hp. change (fun g => negb (bool_decide (sb_inner (enc pb g) = [])) = true)
    with (fun g => stock g = true) in Hp.
  destruct (list_find _ (serve_pref l)) as [[i g]|] eqn:Ef; rewrite Hr; [|exact Hp].
  destruct Hp as (k & q & Hk & Hpop). exists k, q. split_and!; [done|done|].
  intros Hl. apply (strict_never_pqc l); [done|].
  apply list_find_Some in Ef as (Hi & _). by eapply list_elem_of_lookup_2.
Qed.

Lemma remove_id_spec id q :
  match remove_id id q with
  | Some (k, q') => exists l r, q = l ++ k :: r /\ q' = l ++ r /\ tk_id k = id /\ id ∉ map tk_id l
  | None => id ∉ map tk_id q
  end.
Proof.
  induction q as [|k q IH]; [apply not_elem_of_nil|]. cbn [remove_id]. case_decide as Hk.
  - exists [], q. split_and!; try done. apply not_elem_of_nil.
  - destruct (remove_id id q) as [[k' q']|]; cbn [mbind option_bind].
    + destruct IH as (l & r & -> & -> & Hid & Hl). exists (k :: l), r. split_and!; try done.
      cbn [map]. rewrite not_elem_of_cons. split; [congruence|done].
    + cbn [map]. rewrite not_elem_of_cons. split; [congruence|done].
Qed.

(** ** The life of a key the generator emits *)

Definition ap_lookup (s : AckPendingStore) (peer : string) (id : KeyId) : option AckPendingEntry :=
  s !! peer ≫= (fun b => b !! id).

Lemma ap_lookup_insert s peer id e peer' id' :
  ap_lookup (ap_insert s peer id e) peer' id'
  = if decide (peer = peer' /\ id = id') then Some e else ap_lookup s peer' id'.
Proof.
  unfold ap_lookup, ap_insert. destruct (decide (peer = peer')) as [<-|Hp].
  - rewrite lookup_insert_eq. cbn. destruct (decide (id = id')) as [<-|Hi].
    + rewrite decide_True by done. apply lookup_insert_eq.
    + rewrite decide_False by tauto. rewrite lookup_insert_ne by done.
      destruct (s !! peer); cbn; [done|apply lookup_empty].
  - rewrite decide_False by tauto. by rewrite lookup_insert_ne.
Qed.

Lemma ap_lookup_put peer b s peer' id' :
  ap_lookup (put_bucket peer b s) peer' id' = if decide (peer = peer') then b !! id' else ap_lookup s peer' id'.
Proof.
  unfold ap_lookup, put_bucket. destruct (decide (b = ∅)) as [->|Hb]; destruct (decide (peer = peer')) as [<-|Hp].
  - by rewrite lookup_delete_eq, lookup_empty.
  - by rewrite lookup_delete_ne.
  - by rewrite lookup_insert_eq.
  - by rewrite lookup_insert_ne.
Qed.

Lemma take_diagnosed_lookup s peer id peer' id' :
  ap_lookup (fst (take_diagnosed s peer id)) peer' id'
  = if decide (peer = peer' /\ id = id') then None else ap_lookup s peer' id'.
Proof.
  unfold take_diagnosed. destruct (s !! peer) as [b|] eqn:Hb; cbn [fst].
  - rewrite ap_lookup_put. destruct (decide (peer = peer')) as [<-|Hp].
    + destruct (decide (id = id')) as [<-|Hi].
      * rewrite decide_True by done. apply lookup_delete_eq.
      * rewrite decide_False by tauto. rewrite lookup_delete_ne by done. unfold ap_lookup. by rewrite Hb.
    + by rewrite decide_False by tauto.
  - case_decide as H; [|done]. destruct H as [-> _]. unfold ap_lookup. by rewrite Hb.
Qed.

Lemma take_diagnosed_hit s peer id :
  snd (take_diagnosed s peer id)
  = match ap_lookup s peer id with
    | Some e => Hit e
    | None => match s !! peer with None => UnknownPeer | Some _ => UnknownKey end
    end.
Proof. unfold take_diagnosed, ap_lookup. destruct (s !! peer) as [b|]; [|done]. cbn. by destruct (b !! id). Qed.

Lemma reap_lookup s now peer id :
  ap_lookup (fst (reap_expired_by_peer s now)) peer id
  = match ap_lookup s peer id with Some e => if ae_expired now e then None else Some e | None => None end.
Proof.
  unfold ap_lookup, reap_expired_by_peer. cbn [fst]. rewrite map_lookup_filter, lookup_fmap.
  destruct (s !! peer) as [b|]; [|done]. cbn.
  assert (Hr : reap_bucket now b !! id = match b !! id with
     | Some e => if ae_expired now e then None else Some e | None => None end).
  { unfold reap_bucket. rewrite map_lookup_filter. destruct (b !! id) as [e|]; [|done]. cbn.
    destruct (ae_expired now e) eqn:E; case_guard; cbn; congruence. }
  rewrite <- Hr. case_guard as Hg; cbn; [done|]. by rewrite Hg, lookup_empty.
Qed.

(** A run of the generator: the waiting table and the pool, every key emitted (by
    peer and id) and the keys taken from the buffers for use, by peer and grade. *)
Record gen_run := mkGr {
  gr_s : AckPendingStore;
  gr_p : BufferPool;
  gr_emitted : gmap (string * KeyId) (bytes * KeyGrade);
  gr_used : string -> KeyGrade -> list TransportKey
}.

Definition upd_used (peer : string) (g : KeyGrade) (l : list TransportKey)
    (u : string -> KeyGrade -> list TransportKey) : string -> KeyGrade -> list TransportKey :=
  fun peer' g' => if decide (peer = peer' /\ g = g') then l else u peer' g'.

Inductive gen_step : gen_run -> gen_run -> Prop :=
  | gs_emit s p m u peer id v e : m !! (peer, id) = None -> v = (ae_bytes e, ae_grade e) ->
      gen_step (mkGr s p m u) (mkGr (ap_insert s peer id e) p (<[(peer, id) := v]> m) u)
  | gs_emit_failed s p m u peer id :
      gen_step (mkGr s p m u) (mkGr (fst (ap_take s peer id)) p m u)
  | gs_ack s p m u peer id s' p' ok : on_ack s p peer id = (s', p', ok) ->
      gen_step (mkGr s p m u) (mkGr s' p' m u)
  | gs_reap s p m u now : gen_step (mkGr s p m u) (mkGr (fst (reap_expired_by_peer s now)) p m u)
  | gs_pop s p m u peer prefs pb g k : enc_pop_pref (for_peer p peer) prefs = (pb, Some (g, k)) ->
      gen_step (mkGr s p m u) (mkGr s (set_peer peer pb p) m (upd_used peer g (u peer g ++ [k]) u))
  | gs_give_back s p m u peer g k l : u peer g = l ++ [k] ->
      gen_step (mkGr s p m u)
        (mkGr s (set_peer peer (set_enc g (push_front (enc (for_peer p peer) g) k) (for_peer p peer)) p) m
           (upd_used peer g l u))
  | gs_enc_clear s p m u peer :
      gen_step (mkGr s p m u) (mkGr s (set_peer peer (fst (enc_clear (for_peer p peer))) p) m u)
  | gs_restarted s p m u peer :
      gen_step (mkGr s p m u)
        (mkGr (fst (drop_peer s peer))
           (set_peer peer (set_dec (buf_clear (pb_dec (for_peer p peer))) (fst (enc_clear (for_peer p peer)))) p) m u).

Inductive gen_reach (capacity : Z) : gen_run -> Prop :=
  | gr_start : gen_reach capacity (mkGr ∅ (pool_new capacity) ∅ (fun _ _ => []))
  | gr_step r r' : gen_reach capacity r -> gen_step r r' -> gen_reach capacity r'.

(** The keys of a grade that are stored for a peer or were taken. *)
Definition held (r : gen_run) (peer : string) (g : KeyGrade) : list TransportKey :=
  gr_used r peer g ++ sb_inner (enc (for_peer (gr_p r) peer) g).

Record gen_inv (r : gen_run) : Prop := {
  gi_emitted peer g : Forall (fun k => gr_emitted r !! (peer, tk_id k) = Some (tk_bytes k, g)) (held r peer g);
  gi_once peer g : NoDup (map tk_id (held r peer g));
  gi_waiting peer id e : ap_lookup (gr_s r) peer id = Some e ->
    gr_emitted r !! (peer, id) = Some (ae_bytes e, ae_grade e) /\ id ∉ map tk_id (held r peer (ae_grade e))
}.

Lemma sublist_map {A B} (f : A -> B) l k : sublist l k -> sublist (map f l) (map f k).
Proof. induction 1; cbn [map]; by constructor. Qed.

(** Steps that only forget: fewer waiting keys, a sublist of the stored ones. *)
Lemma gen_inv_forget r r' :
  gr_emitted r' = gr_emitted r ->
  (forall peer id e, ap_lookup (gr_s r') peer id = Some e -> ap_lookup (gr_s r) peer id = Some e) ->
  (forall peer g, sublist (held r' peer g) (held r peer g)) ->
  gen_inv r -> gen_inv r'.
Proof.
  intros Hm Hs Hsub Hinv. constructor.
  - intros peer g. rewrite Hm. apply Forall_forall. intros k Hk.
    pose proof (gi_emitted r Hinv peer g) as Hf. rewrite Forall_forall in Hf. apply Hf. by eapply elem_of_sublist.
  - intros peer g. eapply sublist_NoDup; [apply (gi_once r Hinv peer g)|apply sublist_map, Hsub].
  - intros peer id e He. rewrite Hm. destruct (gi_waiting r Hinv peer id e (Hs _ _ _ He)) as [H1 H2].
    split; [done|]. intros Hin. apply H2.
    apply list_elem_of_fmap in Hin as (k & -> & Hk). apply list_elem_of_fmap_2.
    by eapply elem_of_sublist.
Qed.

Lemma gen_inv_same r r' :
  gr_emitted r' = gr_emitted r ->
  (forall peer id e, ap_lookup (gr_s r') peer id = Some e -> ap_lookup (gr_s r) peer id = Some e) ->
  (forall peer g, held r' peer g = held r peer g) -> gen_inv r -> gen_inv r'.
Proof. intros Hm Hs Hh. apply gen_inv_forget; try done. intros. by rewrite Hh. Qed.

Lemma on_ack_cases s p peer id :
  match ap_lookup s peer id with
  | None => exists s', on_ack s p peer id = (s', p, false) /\ forall q i, ap_lookup s' q i = ap_lookup s q i
  | Some e => exists s',
      on_ack s p peer id = (s', set_peer peer (set_enc (ae_grade e)
         (try_push (enc (for_peer p peer) (ae_grade e)) (mkTk id (ae_bytes e))) (for_peer p peer)) p, true)
      /\ forall q i, ap_lookup s' q i = if decide (peer = q /\ id = i) then None else ap_lookup s q i
  end.
Proof.
  unfold on_ack. pose proof (take_diagnosed_hit s peer id) as Hh.
  pose proof (take_diagnosed_lookup s peer id) as Hl. destruct (take_diagnosed s peer id) as [s' o]. simpl in Hh, Hl.
  destruct (ap_lookup s peer id) as [e|] eqn:E; subst o.
  - exists s'. done.
  - exists s'. split; [by destruct (s !! peer)|]. intros q i. rewrite Hl. case_decide as H; [|done].
    by destruct H as [-> ->].
Qed.

Lemma held_set_peer s p m u peer pb q g :
  held (mkGr s (set_peer peer pb p) m u) q g
  = u q g ++ sb_inner (enc (if decide (peer = q) then pb else for_peer p q) g).
Proof. unfold held. cbn [gr_used gr_p]. by rewrite for_peer_set. Qed.

(** Taking a key and giving it back only move it between the two halves. *)
Lemma gen_inv_ack s p m u peer id s' p' ok :
  on_ack s p peer id = (s', p', ok) -> gen_inv (mkGr s p m u) -> gen_inv (mkGr s' p' m u).
Proof.
  intros Ha Hinv. pose proof (on_ack_cases s p peer id) as Hc. destruct (ap_lookup s peer id) as [e|] eqn:El.
  - destruct Hc as (s0 & Hack & Hs). rewrite Ha in Hack. injection Hack as -> -> ->.
    destruct (gi_waiting _ Hinv peer id e El) as [Hem Hnot]. cbn [gr_emitted] in Hem.
    set (k := mkTk id (ae_bytes e)).
    assert (Hheld : forall q g, held (mkGr s0 (set_peer peer (set_enc (ae_grade e)
        (try_push (enc (for_peer p peer) (ae_grade e)) k) (for_peer p peer)) p) m u) q g
      = held (mkGr s p m u) q g ++ (if decide (peer = q /\ ae_grade e = g) then [k] else [])).
    { intros q g. rewrite held_set_peer. unfold held. cbn [gr_used gr_p]. rewrite <- app_assoc. f_equal.
      destruct (decide (peer = q)) as [<-|Hq]; [|rewrite decide_False by tauto; by rewrite app_nil_r].
      rewrite enc_set_enc. destruct (decide (ae_grade e = g)) as [<-|Hg].
      - by rewrite decide_True.
      - rewrite decide_False by tauto. by rewrite app_nil_r. }
    constructor.
    + intros q g. rewrite Hheld. apply Forall_app. split; [apply Hinv|].
      case_decide as H; [|constructor]. destruct H as [<- <-]. by repeat constructor.
    + intros q g. rewrite Hheld, map_app. case_decide as H; [|rewrite app_nil_r; apply Hinv].
      destruct H as [<- <-]. apply NoDup_app. split_and!; [apply Hinv| |apply NoDup_singleton].
      intros i Hi ->%list_elem_of_singleton. done.
    + intros q i e' He'. cbn [gr_s] in He'. rewrite Hs in He'. case_decide as H; [done|].
      destruct (gi_waiting _ Hinv q i e' He') as [H1 H2]. split; [done|].
      rewrite Hheld, map_app. rewrite not_elem_of_app. split; [done|].
      case_decide as H'; [|apply not_elem_of_nil]. destruct H' as [<- _].
      intros ->%list_elem_of_singleton. cbn in H. tauto.
  - destruct Hc as (s0 & Hack & Hs). rewrite Ha in Hack. injection Hack as -> -> ->.
    eapply gen_inv_same; [..|exact Hinv]; try done. intros q i e. cbn. by rewrite Hs.
Qed.

Lemma gen_step_inv r r' : gen_inv r -> gen_step r r' -> gen_inv r'.
Proof.
  intros Hinv Hstep. destruct Hstep as [s p m u peer id v e Hfresh ->| | | | | | |].
  - assert (Hne : forall q i x, m !! (q, i) = Some x -> <[(peer, id) := (ae_bytes e, ae_grade e)]> m !! (q, i) = Some x).
    { intros q i x Hx. rewrite lookup_insert_ne; [done|]. intros [= -> ->]. congruence. }
    constructor; [|apply Hinv|].
    + intros q g. eapply Forall_impl; [apply (gi_emitted _ Hinv q g)|]. cbn. intros k. apply Hne.
    + intros q i e' He'. cbn [gr_s gr_emitted] in *. rewrite ap_lookup_insert in He'. case_decide as H.
      * destruct H as [<- <-]. injection He' as <-. rewrite lookup_insert_eq. split; [done|].
        intros (k & -> & Hk)%list_elem_of_fmap. pose proof (gi_emitted _ Hinv peer (ae_grade e)) as Hf.
        rewrite Forall_forall in Hf. specialize (Hf k Hk). cbn in Hf. congruence.
      * destruct (gi_waiting _ Hinv q i e' He') as [H1 H2]. split; [by apply Hne|done].
  - eapply gen_inv_same; [..|exact Hinv]; try done. intros q i e. cbn.
    unfold ap_take. pose proof (take_diagnosed_lookup s peer id q i) as Hl.
    destruct (take_diagnosed s peer id). cbn in *. rewrite Hl. by case_decide.
  - by eapply gen_inv_ack.
  - eapply gen_inv_same; [..|exact Hinv]; try done. intros q i e. cbn [gr_s]. rewrite reap_lookup.
    destruct (ap_lookup s q i) as [e'|]; [|done]. by destruct (ae_expired now e').
  - eapply gen_inv_same; [..|exact Hinv]; try done. intros q g'. rewrite held_set_peer. unfold held, upd_used.
    cbn [gr_used gr_p]. pose proof (enc_pop_pref_spec (for_peer p peer) prefs) as Hp. rewrite H in Hp.
    destruct Hp as (_ & Hk & Hpb). destruct (decide (peer = q)) as [<-|Hq]; [|by rewrite decide_False by tauto].
    destruct (decide (g = g')) as [<-|Hg].
    + rewrite decide_True by done. by rewrite <- app_assoc, Hk.
    + rewrite decide_False by tauto. rewrite Hpb, enc_set_enc. by rewrite decide_False.
  - eapply gen_inv_same; [..|exact Hinv]; try done. intros q g'. rewrite held_set_peer. unfold held, upd_used.
    cbn [gr_used gr_p]. destruct (decide (peer = q)) as [<-|Hq]; [|by rewrite decide_False by tauto].
    rewrite enc_set_enc. destruct (decide (g = g')) as [<-|Hg].
    + rewrite decide_True by done. cbn. by rewrite H, <- app_assoc.
    + by rewrite decide_False by tauto.
  - eapply gen_inv_forget; [..|exact Hinv]; try done. intros q g. rewrite held_set_peer. unfold held.
    cbn [gr_used gr_p]. apply sublist_app; [done|]. case_decide; subst; [|done].
    destruct g; apply sublist_nil_l.
  - eapply gen_inv_forget; [..|exact Hinv]; try done.
    + intros q i e. cbn. unfold ap_lookup. destruct (decide (peer = q)) as [<-|Hq].
      * by rewrite lookup_delete_eq.
      * by rewrite lookup_delete_ne.
    + intros q g. rewrite held_set_peer. unfold held.
      cbn [gr_used gr_p]. apply sublist_app; [done|]. case_decide; subst; [|done].
      destruct g; apply sublist_nil_l.
Qed.

Lemma gen_reach_inv capacity r : gen_reach capacity r -> gen_inv r.
Proof.
  induction 1 as [|r r' _ IH Hs]; [|by eapply gen_step_inv].
  assert (Hh : forall q g, held (mkGr ∅ (pool_new capacity) ∅ (fun _ _ => [])) q g = [])
    by (intros q g; unfold held, for_peer; cbn; by destruct g).
  constructor; intros; cbn [gr_s gr_emitted] in *; rewrite ?Hh; try constructor.
  - unfold ap_lookup in *. by rewrite lookup_empty in *.
  - apply not_elem_of_nil.
Qed.

(** An emitted key is filed once.  Over every interleaving of emissions, late,
    repeated and forged ACKs, expiries, serving, giving back and peer restarts, as
    long as key ids are fresh: a key in an ENC buffer is one that was emitted to
    that peer, with the material and in the buffer of the grade it was emitted
    with; no id is twice among the stored and the taken keys of the peer, in either
    grade; and an id that is still waiting for its ACK is in neither. *)
Theorem acked_key_filed_once (capacity : Z) (r : gen_run) (peer : string) (g : KeyGrade)
  (Hreach : gen_reach capacity r) :
  let stored := sb_inner (enc (for_peer (gr_p r) peer) g) in
  Forall (fun k => gr_emitted r !! (peer, tk_id k) = Some (tk_bytes k, g)) stored
  /\ NoDup (map tk_id (held r peer GradeQkd ++ held r peer GradePqc))
  /\ Forall (fun k => ap_lookup (gr_s r) peer (tk_id k) = None) (held r peer g).
Proof.
  apply gen_reach_inv in Hreach as Hinv. cbv zeta. split_and!.
  - pose proof (gi_emitted r Hinv peer g) as Hf. by apply Forall_app in Hf as [_ ?].
  - rewrite map_app. apply NoDup_app. split_and!; [apply Hinv| |apply Hinv].
    intros i (k & -> & Hk)%list_elem_of_fmap (k' & He & Hk')%list_elem_of_fmap.
    pose proof (gi_emitted r Hinv peer GradeQkd) as H1. pose proof (gi_emitted r Hinv peer GradePqc) as H2.
    rewrite Forall_forall in H1, H2. specialize (H1 k Hk). specialize (H2 k' Hk'). rewrite <- He in H2. congruence.
  - apply Forall_forall. intros k Hk. destruct (ap_lookup (gr_s r) peer (tk_id k)) as [e|] eqn:El; [|done].
    destruct (gi_waiting r Hinv peer (tk_id k) e El) as [H1 H2].
    pose proof (gi_emitted r Hinv peer g) as Hf. rewrite Forall_forall in Hf. specialize (Hf k Hk).
    rewrite Hf in H1. injection H1 as _ ->. destruct H2. by apply list_elem_of_fmap_2.
Qed.

Definition sample_ack : gen_run :=
  let e := mkAe [1; 2; 3] 100 GradePqc in
  let s := ap_insert ∅ "dkms-B" "k1" e in
  let '(s', p', _) := on_ack s (pool_new 8) "dkms-B" "k1" in
  mkGr s' p' (<[("dkms-B", "k1")%string := ([1; 2; 3], GradePqc)]> ∅) (fun _ _ => []).

Lemma acked_key_filed_once_witness :
  sb_inner (enc (for_peer (gr_p sample_ack) "dkms-B") GradePqc) = [mkTk "k1" [1; 2; 3]]
  /\ Forall (fun k => gr_emitted sample_ack !! ("dkms-B"%string, tk_id k) = Some (tk_bytes k, GradePqc))
       (sb_inner (enc (for_peer (gr_p sample_ack) "dkms-B") GradePqc)).
Proof.
  split; [reflexivity|].
  apply (acked_key_filed_once 8 sample_ack "dkms-B" GradePqc).
  eapply gr_step; [eapply gr_step; [apply gr_start|]|].
  - apply (gs_emit ∅ (pool_new 8) ∅ (fun _ _ => []) "dkms-B" "k1" ([1; 2; 3], GradePqc) (mkAe [1; 2; 3] 100 GradePqc));
      reflexivity.
  - eapply (gs_ack _ _ _ _ "dkms-B" "k1"). reflexivity.
Defined.
