(* ===== verification/PendingStore.v ===== *)
(** * Session keys waiting for their SAEs

    [PendingStore] (dkms/src/state/pending.rs): the entries, the count of live
    entries per originating peer, and every operation.  Instants and durations are
    numbers of nanoseconds; an [Instant] holds 64 bits of seconds, so adding at
    most seven days to the clock never overflows and the fallback of
    [checked_add] is not reached. *)

From Stdlib Require Import ZArith Lia.
From S2P Require Import Prelude Security TransportPool.

Abbreviation SaeId := string.

Definition SECOND : Z := 1000000000.
Definition MAX_TTL : Z := 7 * 24 * 3600 * SECOND.
Definition MAX_PENDING_PER_ORIGIN : Z := 131072.

Inductive PendingInsertError := Occupied | OriginFull.

(** The errors of [take_for_sae]; the handler turns both into 404. *)
Inductive TakeError := KeyNotAuthorized (sae : SaeId) | KeyExpired.

Record PendingEntry := mkPe {
  pe_initiator : SaeId;
  pe_authorized : gset SaeId;
  pe_retrieved : gset SaeId;
  pe_material : bytes;
  pe_expires_at : Z;
  pe_origin : option string
}.

Definition is_expired (now : Z) (e : PendingEntry) : bool := pe_expires_at e <=? now.
Definition is_complete (e : PendingEntry) : bool := bool_decide (pe_authorized e ⊆ pe_retrieved e).

Record PendingStore := mkPs {
  ps_inner : gmap KeyId PendingEntry;
  ps_default_ttl : Z;
  ps_per_origin : gmap string Z
}.

Definition pending_new (default_ttl_secs : Z) : PendingStore := mkPs ∅ (default_ttl_secs * SECOND) ∅.

Definition note_removed (e : PendingEntry) (c : gmap string Z) : gmap string Z :=
  match pe_origin e with
  | Some o => match c !! o with Some n => <[o := sat_sub n 1]> c | None => c end
  | None => c
  end.

Definition remove_entry (s : PendingStore) (id : KeyId) : PendingStore * bool :=
  match ps_inner s !! id with
  | Some e => (mkPs (delete id (ps_inner s)) (ps_default_ttl s) (note_removed e (ps_per_origin s)), true)
  | None => (s, false)
  end.

Definition pending_from (s : PendingStore) (origin : string) : Z := default 0 (ps_per_origin s !! origin).

Definition expiry (s : PendingStore) (now : Z) (ttl : option Z) : Z :=
  now + Z.min (default (ps_default_ttl s) ttl) MAX_TTL.

Definition insert_from_peer (s : PendingStore) (now : Z) (id : KeyId) (origin : string) (initiator : SaeId)
    (authorized : gset SaeId) (material : bytes) (ttl : option Z) : PendingStore * option PendingInsertError :=
  let count := pending_from s origin in
  let s := mkPs (ps_inner s) (ps_default_ttl s) (<[origin := count]> (ps_per_origin s)) in
  if MAX_PENDING_PER_ORIGIN <=? count then (s, Some OriginFull) else
  match ps_inner s !! id with
  | Some _ => (s, Some Occupied)
  | None =>
      (mkPs (<[id := mkPe initiator authorized ∅ material (expiry s now ttl) (Some origin)]> (ps_inner s))
         (ps_default_ttl s) (<[origin := count + 1]> (ps_per_origin s)), None)
  end.

Definition pending_insert (s : PendingStore) (now : Z) (id : KeyId) (initiator : SaeId)
    (authorized : gset SaeId) (material : bytes) (ttl : option Z) : PendingStore :=
  mkPs (<[id := mkPe initiator authorized ∅ material (expiry s now ttl) None]> (ps_inner s))
    (ps_default_ttl s)
    (match ps_inner s !! id with Some old => note_removed old (ps_per_origin s) | None => ps_per_origin s end).

Definition take_for_sae_of_master (s : PendingStore) (now : Z) (id : KeyId) (sae : SaeId) (master : option SaeId)
    : PendingStore * res TakeError (bytes * SaeId) :=
  match ps_inner s !! id with
  | None => (s, Err (KeyNotAuthorized sae))
  | Some e =>
      if is_expired now e then (fst (remove_entry s id), Err KeyExpired)
      else if negb (bool_decide (sae ∈ pe_authorized e)) then (s, Err (KeyNotAuthorized sae))
      else if match master with Some m => negb (bool_decide (pe_initiator e = m)) | None => false end
        then (s, Err (KeyNotAuthorized sae))
      else if bool_decide (sae ∈ pe_retrieved e) then (s, Err (KeyNotAuthorized sae))
      else
        let e := mkPe (pe_initiator e) (pe_authorized e) ({[ sae ]} ∪ pe_retrieved e) (pe_material e)
                   (pe_expires_at e) (pe_origin e) in
        let s := mkPs (<[id := e]> (ps_inner s)) (ps_default_ttl s) (ps_per_origin s) in
        (if is_complete e then fst (remove_entry s id) else s, Ok (pe_material e, pe_initiator e))
  end.

Definition take_for_sae (s : PendingStore) (now : Z) (id : KeyId) (sae : SaeId) :=
  take_for_sae_of_master s now id sae None.

Definition stale (s : PendingStore) (now : Z) : list KeyId :=
  map fst (filter (fun kv => is_expired now (snd kv) = true) (map_to_list (ps_inner s))).

Definition sweep_expired (s : PendingStore) (now : Z) : PendingStore * Z :=
  (fold_left (fun s id => fst (remove_entry s id)) (stale s now) s, zlen (stale s now)).

Definition force_remove (s : PendingStore) (id : KeyId) : PendingStore * bool := remove_entry s id.

Definition pending_clear (s : PendingStore) : PendingStore := mkPs ∅ (ps_default_ttl s) ∅.

(** ** Runs

    Any sequence of operations, with what was put in (insertions that succeeded)
    and what was handed out. *)

Record ps_put := mkPut { pp_id : KeyId; pp_initiator : SaeId; pp_authorized : gset SaeId; pp_material : bytes }.

Inductive ps_op :=
  | OpInsertPeer (now : Z) (origin : string) (x : ps_put) (ttl : option Z)
  | OpInsert (now : Z) (x : ps_put) (ttl : option Z)
  | OpTake (now : Z) (id : KeyId) (sae : SaeId) (master : option SaeId)
  | OpSweep (now : Z)
  | OpRemove (id : KeyId)
  | OpClear.

Record ps_run := mkPr {
  pr_s : PendingStore;
  pr_put : list ps_put;
  pr_served : list (KeyId * SaeId * bytes)
}.

Definition ps_step (r : ps_run) (o : ps_op) : ps_run :=
  match o with
  | OpInsertPeer now origin x ttl =>
      let '(s, err) := insert_from_peer (pr_s r) now (pp_id x) origin (pp_initiator x) (pp_authorized x)
                         (pp_material x) ttl in
      mkPr s (match err with None => pr_put r ++ [x] | Some _ => pr_put r end) (pr_served r)
  | OpInsert now x ttl =>
      mkPr (pending_insert (pr_s r) now (pp_id x) (pp_initiator x) (pp_authorized x) (pp_material x) ttl)
        (pr_put r ++ [x]) (pr_served r)
  | OpTake now id sae master =>
      let '(s, a) := take_for_sae_of_master (pr_s r) now id sae master in
      mkPr s (pr_put r) (match a with Ok (m, _) => pr_served r ++ [(id, sae, m)] | _ => pr_served r end)
  | OpSweep now => mkPr (fst (sweep_expired (pr_s r) now)) (pr_put r) (pr_served r)
  | OpRemove id => mkPr (fst (force_remove (pr_s r) id)) (pr_put r) (pr_served r)
  | OpClear => mkPr (pending_clear (pr_s r)) (pr_put r) (pr_served r)
  end.

Definition ps_exec (ttl : Z) (ops : list ps_op) : ps_run :=
  fold_left ps_step ops (mkPr (pending_new ttl) [] []).

(** ** The count per origin *)

Definition of_origin (o : string) (m : gmap KeyId PendingEntry) : Z :=
  Z.of_nat (size (filter (fun kv => pe_origin (snd kv) = Some o) m)).

Definition one_if (P : Prop) `{Decision P} : Z := if decide P then 1 else 0.

Lemma of_origin_delete o m id e :
  m !! id = Some e -> of_origin o m = of_origin o (delete id m) + one_if (pe_origin e = Some o).
Proof.
  intros He. unfold of_origin, one_if. rewrite map_filter_delete. case_decide as Ho.
  - assert (Hf : filter (fun kv => pe_origin (snd kv) = Some o) m !! id = Some e) by (by apply map_lookup_filter_Some).
    rewrite (map_size_delete_Some _ _ (ex_intro _ e Hf)).
    assert (size (filter (fun kv => pe_origin (snd kv) = Some o) m) <> 0%nat).
    { rewrite map_size_ne_0_lookup. by exists id, e. }
    lia.
  - rewrite delete_id; [lia|]. apply map_lookup_filter_None_2. right. intros x Hx. cbn. congruence.
Qed.

Lemma of_origin_insert o m id e :
  m !! id = None -> of_origin o (<[id := e]> m) = of_origin o m + one_if (pe_origin e = Some o).
Proof.
  intros Hid. rewrite (of_origin_delete o _ id e (lookup_insert_eq _ _ _)). by rewrite delete_insert_id.
Qed.

Lemma of_origin_update o m id e e' :
  m !! id = Some e -> pe_origin e' = pe_origin e -> of_origin o (<[id := e']> m) = of_origin o m.
Proof.
  intros Hid Ho. rewrite (of_origin_delete o _ id e' (lookup_insert_eq _ _ _)).
  rewrite (of_origin_delete o m id e Hid), delete_insert_eq. by rewrite Ho.
Qed.

Definition counted (s : PendingStore) : Prop :=
  forall o, pending_from s o = of_origin o (ps_inner s) /\ pending_from s o <= MAX_PENDING_PER_ORIGIN.

Lemma note_removed_from c d e o m id :
  m !! id = Some e ->
  (forall o, default 0 (c !! o) = of_origin o m) ->
  pending_from (mkPs (delete id m) d (note_removed e c)) o = of_origin o (delete id m).
Proof.
  intros Hid Hc. unfold pending_from, note_removed. cbn [ps_per_origin].
  pose proof (of_origin_delete o m id e Hid) as Hd. pose proof (Hc o) as Ho.
  assert (0 <= of_origin o (delete id m)) by (unfold of_origin; lia).
  unfold one_if in Hd. destruct (pe_origin e) as [o'|] eqn:Eo; [|rewrite decide_False in Hd by done; lia].
  destruct (decide (Some o' = Some o)) as [[= ->]|Hne].
  - destruct (c !! o) as [n|] eqn:En; cbn in Ho; [|lia].
    rewrite lookup_insert_eq. cbn. unfold sat_sub. lia.
  - destruct (c !! o') as [n|] eqn:En; [rewrite lookup_insert_ne by congruence|]; lia.
Qed.

Lemma remove_entry_counted s id : counted s -> counted (fst (remove_entry s id)).
Proof.
  intros Hc. unfold remove_entry. destruct (ps_inner s !! id) as [e|] eqn:He; [|done]. cbn [fst].
  intros o. assert (Hn : pending_from (mkPs (delete id (ps_inner s)) (ps_default_ttl s)
     (note_removed e (ps_per_origin s))) o = of_origin o (delete id (ps_inner s))).
  { apply note_removed_from; [done|]. intros o'. apply Hc. }
  rewrite Hn. split; [done|]. pose proof (of_origin_delete o _ id e He). destruct (Hc o) as [H1 H2].
  unfold one_if in *. case_decide; lia.
Qed.

Lemma insert_counted s now id i a m ttl : counted s -> counted (pending_insert s now id i a m ttl).
Proof.
  intros Hc. unfold pending_insert. set (e := mkPe _ _ _ _ _ _).
  assert (Hdel : forall o, of_origin o (<[id := e]> (ps_inner s)) = of_origin o (delete id (ps_inner s))).
  { intros o. rewrite (of_origin_delete o _ id e (lookup_insert_eq _ _ _)), delete_insert_eq.
    unfold one_if. rewrite decide_False by done. lia. }
  destruct (ps_inner s !! id) as [old|] eqn:Hold.
  - pose proof (remove_entry_counted s id Hc) as Hr. unfold remove_entry in Hr. rewrite Hold in Hr. cbn [fst] in Hr.
    intros o. destruct (Hr o) as [H1 H2]. cbn [ps_inner] in *. rewrite Hdel. split; [exact H1|exact H2].
  - intros o. destruct (Hc o) as [H1 H2]. cbn [ps_inner]. rewrite Hdel, delete_id by done. split; [exact H1|exact H2].
Qed.

Lemma insert_from_peer_counted s now id o i a m ttl :
  counted s -> counted (fst (insert_from_peer s now id o i a m ttl)).
Proof.
  intros Hc. destruct (Hc o) as [Ho _]. unfold insert_from_peer.
  assert (Hp : forall o' v d x, pending_from (mkPs x d (<[o := v]> (ps_per_origin s))) o'
     = if decide (o = o') then v else pending_from s o').
  { intros o' v d x. unfold pending_from. cbn [ps_per_origin]. case_decide; subst.
    - by rewrite lookup_insert_eq.
    - by rewrite lookup_insert_ne. }
  cbn [ps_inner ps_default_ttl ps_per_origin].
  destruct (Z.leb_spec MAX_PENDING_PER_ORIGIN (pending_from s o)) as [Hfull|Hroom]; cbn [fst].
  - intros o'. rewrite Hp. cbn [ps_inner]. case_decide; subst; apply Hc.
  - destruct (ps_inner s !! id) as [e|] eqn:He; cbn [fst].
    + intros o'. rewrite Hp. cbn [ps_inner]. case_decide; subst; apply Hc.
    + intros o'. rewrite insert_insert_eq, Hp. cbn [ps_inner]. rewrite of_origin_insert by done.
      unfold one_if. cbn [pe_origin]. destruct (Hc o') as [H1 H2].
      destruct (decide (o = o')) as [->|Hne]; [rewrite decide_True by done|rewrite decide_False by congruence]; lia.
Qed.

Lemma take_counted s now id sae ma : counted s -> counted (fst (take_for_sae_of_master s now id sae ma)).
Proof.
  intros Hc. unfold take_for_sae_of_master. destruct (ps_inner s !! id) as [e|] eqn:He; [|done].
  destruct (is_expired now e); [by apply remove_entry_counted|].
  destruct (negb _); [done|]. destruct (match ma with Some _ => _ | None => _ end); [done|].
  destruct (bool_decide _); [done|]. cbn [fst]. set (e' := mkPe _ _ _ _ _ _).
  assert (Hs : counted (mkPs (<[id := e']> (ps_inner s)) (ps_default_ttl s) (ps_per_origin s))).
  { intros o. destruct (Hc o) as [H1 H2]. cbn [ps_inner]. by rewrite (of_origin_update o _ id e e'). }
  destruct (is_complete e'); [by apply remove_entry_counted|done].
Qed.

Lemma fold_remove_counted ids s : counted s -> counted (fold_left (fun s id => fst (remove_entry s id)) ids s).
Proof. revert s. induction ids as [|id ids IH]; [done|]. intros s Hs. cbn. by apply IH, remove_entry_counted. Qed.

Lemma ps_step_counted r o : counted (pr_s r) -> counted (pr_s (ps_step r o)).
Proof.
  intros Hc. destruct o as [now origin x ttl|now x ttl|now id sae ma|now|id|]; cbn [ps_step].
  - pose proof (insert_from_peer_counted (pr_s r) now (pp_id x) origin (pp_initiator x) (pp_authorized x)
      (pp_material x) ttl Hc) as H. by destruct (insert_from_peer _ _ _ _ _ _ _ _).
  - by apply insert_counted.
  - pose proof (take_counted (pr_s r) now id sae ma Hc) as H. by destruct (take_for_sae_of_master _ _ _ _ _).
  - by apply fold_remove_counted.
  - by apply remove_entry_counted.
  - intros o. unfold pending_from, of_origin. cbn. rewrite map_filter_empty. vm_compute. intuition discriminate.
Qed.

Lemma fold_snoc {A B} (f : A -> B -> A) l x a : fold_left f (l ++ [x]) a = f (fold_left f l a) x.
Proof. by rewrite fold_left_app. Qed.

Lemma ps_exec_counted ttl ops : counted (pr_s (ps_exec ttl ops)).
Proof.
  unfold ps_exec. induction ops as [|o ops IH] using rev_ind.
  - intros o. unfold pending_from, of_origin. cbn. rewrite map_filter_empty. vm_compute. intuition discriminate.
  - rewrite fold_snoc. by apply ps_step_counted.
Qed.

(** The cap on a peer is exact.  After any sequence of operations, the counter
    kept for an originating peer is the number of its entries alive in the store,
    which never exceeds [MAX_PENDING_PER_ORIGIN]; and an insertion from a peer, of
    whatever id and whatever its outcome, leaves every entry already stored as it
    was. *)
Theorem origin_count_exact (ttl : Z) (ops : list ps_op) (o : string) :
  let s := pr_s (ps_exec ttl ops) in
  pending_from s o = of_origin o (ps_inner s)
  /\ pending_from s o <= MAX_PENDING_PER_ORIGIN
  /\ forall now id i a m t id' e, ps_inner s !! id' = Some e ->
       ps_inner (fst (insert_from_peer s now id o i a m t)) !! id' = Some e.
Proof.
  cbv zeta. destruct (ps_exec_counted ttl ops o) as [H1 H2]. split_and!; [done|done|].
  intros now id i a m t id' e He. unfold insert_from_peer. cbn [ps_inner].
  destruct (_ <=? _); [done|]. destruct (ps_inner _ !! id) eqn:Hid; [done|]. cbn [fst ps_inner].
  rewrite lookup_insert_ne; [done|congruence].
Qed.

(** ** One delivery per SAE *)

Record tracked (r : ps_run) : Prop := {
  tr_entry id e : ps_inner (pr_s r) !! id = Some e ->
    (exists x, x ∈ pr_put r /\ pp_id x = id /\ pe_initiator e = pp_initiator x
       /\ pe_authorized e = pp_authorized x /\ pe_material e = pp_material x)
    /\ forall sae, sae ∈ pe_retrieved e <-> (id, sae) ∈ map fst (pr_served r);
  tr_served id sae m : (id, sae, m) ∈ pr_served r ->
    exists x, x ∈ pr_put r /\ pp_id x = id /\ sae ∈ pp_authorized x /\ m = pp_material x;
  tr_once : NoDup (map fst (pr_served r))
}.

Lemma tracked_forget r s : ps_inner s ⊆ ps_inner (pr_s r) -> tracked r -> tracked (mkPr s (pr_put r) (pr_served r)).
Proof.
  intros Hsub [H1 H2 H3]. constructor; cbn; [|done|done]. intros id e He. apply H1.
  by eapply lookup_weaken.
Qed.

Lemma remove_entry_sub s id : ps_inner (fst (remove_entry s id)) ⊆ ps_inner s.
Proof. unfold remove_entry. destruct (ps_inner s !! id); cbn; [apply delete_subseteq|done]. Qed.

Lemma fold_remove_sub ids s : ps_inner (fold_left (fun s id => fst (remove_entry s id)) ids s) ⊆ ps_inner s.
Proof.
  revert s. induction ids as [|id ids IH]; intros s; [done|]. cbn.
  etrans; [apply IH|apply remove_entry_sub].
Qed.

(** A new entry under an id never put before. *)
Lemma tracked_put r s x ex o :
  pp_id x ∉ map pp_id (pr_put r) ->
  ps_inner s = <[pp_id x := mkPe (pp_initiator x) (pp_authorized x) ∅ (pp_material x) ex o]> (ps_inner (pr_s r)) ->
  tracked r -> tracked (mkPr s (pr_put r ++ [x]) (pr_served r)).
Proof.
  intros Hfresh Hs [H1 H2 H3].
  assert (Hput : forall id sae m, (id, sae, m) ∈ pr_served r -> id ∈ map pp_id (pr_put r)).
  { intros id sae m (y & Hy & <- & _)%H2. by apply list_elem_of_fmap_2. }
  constructor; cbn [pr_s pr_put pr_served]; [| |done].
  - intros id e. rewrite Hs. destruct (decide (pp_id x = id)) as [<-|Hne].
    + rewrite lookup_insert_eq. intros [= <-]. split.
      * exists x. split_and!; try done. apply elem_of_app. right. by apply list_elem_of_singleton.
      * intros sae. cbn. split; [set_solver|]. intros (([i s'] & m) & He & Hin)%list_elem_of_fmap.
        cbn in He. injection He as <- <-. destruct Hfresh. by eapply Hput.
    + rewrite lookup_insert_ne by done. intros He. destruct (H1 id e He) as [(y & Hy & Hr) Hret].
      split; [|done]. exists y. split; [apply elem_of_app; by left|done].
  - intros id sae m (y & Hy & Hr)%H2. exists y. split; [apply elem_of_app; by left|done].
Qed.

Lemma take_cases s now id sae ma s' a :
  take_for_sae_of_master s now id sae ma = (s', a) ->
  match a with
  | Ok (m, i) => exists e, ps_inner s !! id = Some e /\ m = pe_material e /\ i = pe_initiator e
      /\ now < pe_expires_at e /\ sae ∈ pe_authorized e /\ sae ∉ pe_retrieved e
      /\ (forall x, ma = Some x -> x = i)
      /\ ps_inner s' ⊆ <[id := mkPe i (pe_authorized e) ({[ sae ]} ∪ pe_retrieved e) m (pe_expires_at e) (pe_origin e)]>
                         (ps_inner s)
  | _ => ps_inner s' ⊆ ps_inner s
  end.
Proof.
  unfold take_for_sae_of_master. destruct (ps_inner s !! id) as [e|] eqn:He; [|by intros [= <- <-]].
  destruct (is_expired now e) eqn:Ex; [intros [= <- <-]; apply remove_entry_sub|].
  destruct (bool_decide_reflect (sae ∈ pe_authorized e)) as [Hin|]; cbn [negb]; [|by intros [= <- <-]].
  destruct (match ma with Some m => negb (bool_decide (pe_initiator e = m)) | None => false end) eqn:Em;
    [by intros [= <- <-]|].
  destruct (bool_decide_reflect (sae ∈ pe_retrieved e)) as [|Hnot]; [by intros [= <- <-]|].
  intros [= <- <-]. exists e. unfold is_expired in Ex. apply Z.leb_gt in Ex. split_and!; try done.
  - intros x ->. apply negb_false_iff, bool_decide_eq_true in Em. done.
  - cbn [pe_material pe_initiator]. destruct (is_complete _); [|done].
    etrans; [apply remove_entry_sub|done].
Qed.

Lemma ps_step_tracked r o :
  NoDup (map pp_id (pr_put (ps_step r o))) -> tracked r -> tracked (ps_step r o).
Proof.
  intros Hnd Htr. destruct o as [now origin x ttl|now x ttl|now id sae ma|now|id|]; cbn [ps_step] in *.
  - unfold insert_from_peer in *. cbn [ps_inner] in *. destruct (_ <=? _); [by apply tracked_forget|].
    destruct (ps_inner (pr_s r) !! pp_id x) eqn:Hid; [by apply tracked_forget|]. cbn [pr_put] in Hnd.
    rewrite map_app in Hnd. apply NoDup_app in Hnd as (_ & Hdis & _).
    eapply tracked_put; [|reflexivity|done]. intros Hin. eapply Hdis; [exact Hin|by apply list_elem_of_singleton].
  - cbn [pr_put] in Hnd. rewrite map_app in Hnd. apply NoDup_app in Hnd as (_ & Hdis & _).
    eapply tracked_put; [|reflexivity|done]. intros Hin. eapply Hdis; [exact Hin|by apply list_elem_of_singleton].
  - destruct (take_for_sae_of_master (pr_s r) now id sae ma) as [s' a] eqn:Et. apply take_cases in Et.
    destruct a as [[m i]|e|]; [|by apply tracked_forget..].
    destruct Et as (e & He & -> & -> & _ & Hauth & Hnot & _ & Hsub).
    destruct (tr_entry _ Htr id e He) as [(x & Hx & Hxid & Hxi & Hxa & Hxm) Hret].
    set (e' := mkPe _ _ _ _ _ _) in Hsub.
    apply (tracked_forget (mkPr (mkPs (<[id := e']> (ps_inner (pr_s r))) 0 ∅) (pr_put r)
       (pr_served r ++ [(id, sae, pe_material e)]))); [exact Hsub|].
    constructor; cbn [pr_s ps_inner pr_put pr_served].
    + intros id' e0. rewrite map_app. destruct (decide (id = id')) as [<-|Hne].
      * rewrite lookup_insert_eq. intros [= <-]. split; [by exists x|]. intros sae'.
        cbn. rewrite elem_of_union, elem_of_singleton, Hret, elem_of_app, list_elem_of_singleton. naive_solver.
      * rewrite lookup_insert_ne by done. intros He0. destruct (tr_entry _ Htr id' e0 He0) as [Hy Hr].
        split; [done|]. intros sae'. rewrite Hr, elem_of_app. cbn. rewrite list_elem_of_singleton. naive_solver.
    + intros id' sae' m. rewrite elem_of_app, list_elem_of_singleton. intros [H|[= -> -> ->]].
      * by apply (tr_served _ Htr).
      * exists x. rewrite <- Hxa, <- Hxm. done.
    + rewrite map_app. apply NoDup_app. split_and!; [apply Htr| |apply NoDup_singleton].
      intros p Hp ->%list_elem_of_singleton. apply Hnot. by apply Hret.
  - apply tracked_forget; [apply fold_remove_sub|done].
  - apply tracked_forget; [apply remove_entry_sub|done].
  - apply tracked_forget; [apply map_empty_subseteq|done].
Qed.

Lemma ps_step_put r o : sublist (map pp_id (pr_put r)) (map pp_id (pr_put (ps_step r o))).
Proof.
  apply sublist_map. destruct o as [now origin x ttl|now x ttl|now id sae ma|now|id|]; cbn [ps_step]; try done.
  - destruct (insert_from_peer _ _ _ _ _ _ _ _) as [s [err|]]; [done|]. by apply sublist_inserts_r.
  - by apply sublist_inserts_r.
  - by destruct (take_for_sae_of_master _ _ _ _ _).
Qed.

(** A session key is handed out once to each of its SAEs.  After any sequence of
    operations in which no id was put twice, the same SAE was served the same key
    at most once; whoever was served was authorized for it, and received the
    material that was put under that id; with a master named in the request, the
    key is one that master initiated. *)
Theorem served_once (ttl : Z) (ops : list ps_op)
  (Hfresh : NoDup (map pp_id (pr_put (ps_exec ttl ops)))) :
  NoDup (map fst (pr_served (ps_exec ttl ops)))
  /\ (forall id sae m, (id, sae, m) ∈ pr_served (ps_exec ttl ops) ->
        exists x, x ∈ pr_put (ps_exec ttl ops) /\ pp_id x = id /\ sae ∈ pp_authorized x /\ m = pp_material x)
  /\ (forall now id sae master s' m i,
        take_for_sae_of_master (pr_s (ps_exec ttl ops)) now id sae (Some master) = (s', Ok (m, i)) ->
        i = master /\ forall now' ma, is_ok (snd (take_for_sae_of_master s' now' id sae ma)) = false).
Proof.
  assert (Htr : tracked (ps_exec ttl ops)).
  { unfold ps_exec in *. induction ops as [|o ops IH] using rev_ind.
    - constructor; cbn; [|intros id sae m []%not_elem_of_nil|constructor].
      intros id e. by rewrite lookup_empty.
    - rewrite fold_snoc in *. apply ps_step_tracked; [done|]. apply IH.
      eapply sublist_NoDup; [exact Hfresh|apply ps_step_put]. }
  split_and!; [apply Htr|apply Htr|].
  intros now id sae master s' m i Ht. apply take_cases in Ht as (e & He & -> & -> & _ & _ & _ & Hm & Hsub).
  split; [symmetry; by apply Hm|]. intros now' ma.
  destruct (take_for_sae_of_master s' now' id sae ma) as [s2 a] eqn:Et. apply take_cases in Et.
  destruct a as [[m i]|?|]; [|done..]. destruct Et as (e2 & He2 & _ & _ & _ & _ & Hnot & _).
  eapply lookup_weaken in Hsub; [|exact He2]. rewrite lookup_insert_eq in Hsub. injection Hsub as <-.
  cbn in Hnot. set_solver.
Qed.

Definition sample_put : ps_put := mkPut "k1" "alice" {[ "bob"; "carol" ]} [9; 9].
Definition sample_ops : list ps_op :=
  [OpInsertPeer 0 "dkms-A" sample_put None; OpInsertPeer 1 "dkms-B" sample_put None;
   OpTake 2 "k1" "bob" (Some "alice"%string); OpTake 3 "k1" "bob" None; OpTake 4 "k1" "eve" None].

Lemma served_once_witness :
  pr_served (ps_exec 300 sample_ops) = [("k1", "bob", [9; 9])%string]
  /\ NoDup (map fst (pr_served (ps_exec 300 sample_ops))).
Proof.
  split; [vm_compute; reflexivity|].
  apply (served_once 300 sample_ops). apply (bool_decide_unpack _). vm_compute. exact I.
Defined.
