(* ===== verification/TokenBucket.v ===== *)
(** * Token buckets per SAE

    The cost of a request, one bucket, and the map of buckets
    (dkms/src/token_bucket.rs).  The refill is a product of floating-point numbers
    truncated to an integer: the model takes the truncated number of tokens that
    the elapsed time is worth as an argument, and keeps what the code does with it. *)

From Stdlib Require Import ZArith Lia.
From S2P Require Import Prelude Security TransportPool PendingStore.

Definition div_ceil (a b : Z) : Z := (a + b - 1) / b.

Definition compute_cost (size_bytes number num_destination_dkms token_unit_bytes : Z) : Z :=
  let unit := Z.max token_unit_bytes 1 in
  let per_key := div_ceil size_bytes unit in
  sat_mul 64 (sat_mul 64 per_key number) (Z.max num_destination_dkms 1).

Record Bucket := mkBucket { bk_capacity : Z; bk_refill_per_sec : Z; bk_tokens : Z; bk_last : Z }.

Definition bucket_new (now capacity refill_per_sec : Z) : Bucket := mkBucket capacity refill_per_sec capacity now.

Definition refill_inplace (b : Bucket) (now refilled : Z) : Bucket :=
  if 0 <? refilled
  then mkBucket (bk_capacity b) (bk_refill_per_sec b) (Z.min (sat_add 64 (bk_tokens b) refilled) (bk_capacity b)) now
  else b.

Definition bucket_try_consume (b : Bucket) (now refilled n : Z) : Bucket * option Z :=
  let b := refill_inplace b now refilled in
  if n <=? bk_tokens b
  then (mkBucket (bk_capacity b) (bk_refill_per_sec b) (bk_tokens b - n) (bk_last b), None)
  else (b, Some (bk_tokens b)).

Definition bucket_refund (b : Bucket) (n : Z) : Bucket :=
  mkBucket (bk_capacity b) (bk_refill_per_sec b) (Z.min (sat_add 64 (bk_tokens b) n) (bk_capacity b)) (bk_last b).

Record SaeBuckets := mkSb { default_capacity : Z; default_refill : Z; sb_map : gmap SaeId Bucket }.

Definition buckets_new (default_refill default_capacity : Z) : SaeBuckets := mkSb default_capacity default_refill ∅.

Definition ensure (s : SaeBuckets) (now : Z) (sae : SaeId) : SaeBuckets :=
  match sb_map s !! sae with
  | Some _ => s
  | None => mkSb (default_capacity s) (default_refill s)
              (<[sae := bucket_new now (default_capacity s) (default_refill s)]> (sb_map s))
  end.

Definition set_limits (s : SaeBuckets) (now : Z) (sae : SaeId) (refill_per_sec capacity : Z) : SaeBuckets :=
  mkSb (default_capacity s) (default_refill s) (<[sae := bucket_new now capacity refill_per_sec]> (sb_map s)).

(** [None] when the tokens were there, the tokens available otherwise; the lookup
    after [ensure] cannot fail. *)
Definition try_consume (s : SaeBuckets) (now refilled : Z) (sae : SaeId) (n : Z) : SaeBuckets * option Z :=
  let s := ensure s now sae in
  match sb_map s !! sae with
  | None => (s, Some 0)
  | Some b =>
      let '(b, r) := bucket_try_consume b now refilled n in
      (mkSb (default_capacity s) (default_refill s) (<[sae := b]> (sb_map s)), r)
  end.

Definition refund (s : SaeBuckets) (sae : SaeId) (n : Z) : SaeBuckets :=
  match sb_map s !! sae with
  | None => s
  | Some b => mkSb (default_capacity s) (default_refill s) (<[sae := bucket_refund b n]> (sb_map s))
  end.

(** ** What holds *)

Definition wf_bucket (b : Bucket) : Prop := 0 <= bk_tokens b <= bk_capacity b /\ bk_capacity b <= u_max 64.

Lemma div_ceil_spec a b : 0 <= a -> 0 < b -> b * (div_ceil a b - 1) < a <= b * div_ceil a b.
Proof.
  intros Ha Hb. unfold div_ceil. pose proof (Z.div_mod (a + b - 1) b ltac:(lia)).
  pose proof (Z.mod_pos_bound (a + b - 1) b Hb). nia.
Qed.

Lemma refill_wf b now n : wf_bucket b -> wf_bucket (refill_inplace b now n).
Proof.
  unfold wf_bucket, refill_inplace, sat_add, u_max. intros H.
  destruct (Z.ltb_spec 0 n); cbn; lia.
Qed.

(** One operation on a bucket. *)
Inductive bk_op := BConsume (now refilled n : Z) | BRefund (n : Z).

Record bk_log := mkBl { bl_b : Bucket; bl_consumed : Z; bl_refunded : Z; bl_refilled : Z }.

Definition bk_step (l : bk_log) (o : bk_op) : bk_log :=
  match o with
  | BConsume now refilled n =>
      let '(b, r) := bucket_try_consume (bl_b l) now refilled n in
      mkBl b (match r with None => bl_consumed l + n | Some _ => bl_consumed l end) (bl_refunded l)
        (bl_refilled l + Z.max 0 refilled)
  | BRefund n => mkBl (bucket_refund (bl_b l) n) (bl_consumed l) (bl_refunded l + n) (bl_refilled l)
  end.

Definition bk_run (b : Bucket) (ops : list bk_op) : bk_log := fold_left bk_step ops (mkBl b 0 0 0).

(** A bucket bounds what its SAE gets.  Over any sequence of requests and
    refunds the tokens stay within the capacity, and what was granted, less what
    was refunded, never exceeds the tokens there were at the start plus what the
    elapsed time was worth; a request is refused exactly when the refilled bucket
    holds less than it asks. *)
Theorem bucket_bounds_spending (b : Bucket) (ops : list bk_op)
  (Hb : wf_bucket b)
  (Hops : Forall (fun o => match o with BConsume _ _ n => 0 <= n | BRefund n => 0 <= n end) ops) :
  let l := bk_run b ops in
  wf_bucket (bl_b l)
  /\ bl_consumed l - bl_refunded l <= bk_tokens b + bl_refilled l
  /\ forall now refilled n, 0 <= n ->
       (is_Some (snd (bucket_try_consume (bl_b l) now refilled n))
        <-> bk_tokens (refill_inplace (bl_b l) now refilled) < n).
Proof.
  cbv zeta. assert (H : wf_bucket (bl_b (bk_run b ops))
    /\ bl_consumed (bk_run b ops) + bk_tokens (bl_b (bk_run b ops))
       <= bk_tokens b + bl_refilled (bk_run b ops) + bl_refunded (bk_run b ops)).
  { unfold bk_run. induction ops as [|o ops IH] using rev_ind; [cbn; split; [done|lia]|].
    apply Forall_app in Hops as [Hops Ho]. apply Forall_cons in Ho as [Ho _]. destruct (IH Hops) as [Hw Hs].
    rewrite fold_snoc. set (l := fold_left _ _ _) in *. clearbody l. destruct o as [now r n|n]; cbn [bk_step]; cbv beta iota in Ho.
    - unfold bucket_try_consume. pose proof (refill_wf (bl_b l) now r Hw) as Hrw.
      assert (Hr : bk_tokens (refill_inplace (bl_b l) now r) <= bk_tokens (bl_b l) + Z.max 0 r).
      { unfold refill_inplace, sat_add. destruct (Z.ltb_spec 0 r); cbn; lia. }
      destruct (Z.leb_spec n (bk_tokens (refill_inplace (bl_b l) now r)));
        cbn [bl_b bl_consumed bl_refunded bl_refilled bk_tokens bk_capacity]; unfold wf_bucket in *;
        cbn [bk_tokens bk_capacity]; lia.
    - unfold wf_bucket, bucket_refund, sat_add in *.
      cbn [bl_b bl_consumed bl_refunded bl_refilled bk_tokens bk_capacity]. lia. }
  destruct H as [Hw Hs]. split_and!; [done|unfold wf_bucket in Hw; lia|].
  intros now r n Hn. unfold bucket_try_consume. destruct (Z.leb_spec n (bk_tokens (refill_inplace (bl_b (bk_run b ops)) now r))); cbn.
  - split; [by intros [? ?]|lia].
  - split; [lia|by eexists].
Qed.

Lemma bucket_bounds_spending_witness :
  let l := bk_run (bucket_new 0 10 4) [BConsume 0 0 10; BConsume 5 2 3; BRefund 4; BConsume 6 0 3] in
  bl_consumed l = 13 /\ wf_bucket (bl_b l).
Proof.
  cbv zeta. split; [reflexivity|].
  apply (bucket_bounds_spending (bucket_new 0 10 4) [BConsume 0 0 10; BConsume 5 2 3; BRefund 4; BConsume 6 0 3]).
  - vm_compute. intuition discriminate.
  - repeat apply Forall_cons_2; try apply Forall_nil_2; vm_compute; discriminate.
Defined.

(** Refunding what a request took leaves the bucket as the refill left it. *)
Lemma consume_refund b now r n b' :
  wf_bucket b -> 0 <= n -> bucket_try_consume b now r n = (b', None) ->
  bucket_refund b' n = refill_inplace b now r.
Proof.
  intros Hb Hn. unfold bucket_try_consume. pose proof (refill_wf b now r Hb) as [H1 H2].
  destruct (Z.leb_spec n (bk_tokens (refill_inplace b now r))); [|done]. intros [= <-].
  unfold bucket_refund, sat_add. cbn. destruct (refill_inplace b now r) as [c rs t la]; cbn in *.
  f_equal; unfold u_max in *; lia.
Qed.
