(* ===== verification/Delivery.v ===== *)
(** * Delivery of session keys between two DKMS

    The ETSI handlers of the service (dkms/src/service.rs): [handle_enc_keys] at
    the node of the master SAE, [handle_incoming_ext_keys] at the node of the
    slave SAE, [handle_dec_keys] and [handle_incoming_ack], with the limits and
    wrapping they use, and id validation (common/src/ids.rs).  [handle_enc_keys] is
    cut where it awaits its peers: [enc_plan] checks and resolves, [enc_prepare]
    charges, inserts and builds the envelopes (or rolls everything back), and
    [enc_finish] takes the answers of the peers.

    A UUID is its canonical text.  Randomness, the clock, the binding of SAEs to
    nodes and the answers of peers are arguments; the floating-point admission
    control per peer is the class [PeerBuckets]; error messages, log lines and
    flow statistics but [recv_corrupt] are left out. *)

From Stdlib Require Import ZArith Lia.
From Stdlib Require String Ascii.
From S2P Require Import Prelude Ids Security TransportPool PendingStore TokenBucket.

Abbreviation NodeId := string.

(** The error enum without its texts; [PendingTake] stands for its variants
    [KeyNotAuthorized] and [KeyExpired], which the pending store raises. *)
Inductive DkmsError :=
  | Unauthenticated
  | Forbidden (sae on_behalf_of : SaeId)
  | UnknownSae (sae : SaeId)
  | UnknownPeerDkms (peer : NodeId)
  | PendingFull (peer : NodeId)
  | RateLimited (sae : SaeId) (requested available : Z)
  | BadRequest
  | PendingTake (e : TakeError)
  | PeerUnreachable
  | PeerRejected (peer : NodeId) (body : string)
  | PeerAckTimeout (peer : NodeId)
  | PeerOrrMisconfig (peer : NodeId)
  | OrrSendFailed (peer : NodeId)
  | TransportBufferEmpty (peer : NodeId)
  | TransportKeyMissing (peer : NodeId) (key_id : KeyId)
  | SdnUnreachable
  | QkcUnreachable
  | SaeBindingLookupFailed (sae : SaeId)
  | TlsError
  | Crypto
  | IoError
  | CommonError
  | OtherError.

Definition TRANSPORT_KEY_BYTES : nat := 32.
Definition MAX_KEY_PER_REQUEST : Z := 64.
Definition MAX_KEY_SIZE_BITS : Z := Z.of_nat TRANSPORT_KEY_BYTES * 8.
Definition MIN_KEY_SIZE_BITS : Z := 64.
Definition MAX_SAE_ID_COUNT : Z := 16.

(** ** Ordered lists, for [sort]/[dedup] and the [BTreeMap] of groups *)

Fixpoint insert_sorted (x : string) (l : list string) : list string :=
  match l with
  | [] => [x]
  | y :: l' =>
      match String.compare x y with
      | Lt => x :: l
      | Eq => l
      | Gt => y :: insert_sorted x l'
      end
  end.

Definition sort_dedup (l : list string) : list string := fold_left (fun acc x => insert_sorted x acc) l [].

Fixpoint group_add (node : NodeId) (sae : SaeId) (g : list (NodeId * list SaeId)) : list (NodeId * list SaeId) :=
  match g with
  | [] => [(node, [sae])]
  | (n, saes) :: g' =>
      match String.compare node n with
      | Lt => (node, [sae]) :: g
      | Eq => (n, saes ++ [sae]) :: g'
      | Gt => (n, saes) :: group_add node sae g'
      end
  end.

(** ** Containers *)

Record SessionKey := mkSk { sk_id : KeyId; sk_bytes : bytes }.

Record Etsi020Key := mkEk { ek_id : KeyId; ek_value : bytes; ek_extension : option JsonMap }.

Record ExtKeyContainer := mkXc {
  xc_keys : list Etsi020Key;
  xc_initiator : string;
  xc_targets : list string;
  xc_ack_callback_url : string;
  xc_mandatory : option JsonMap
}.

Definition validate_request (req : Etsi014KeyRequest) : bool := (1 <=? rq_number req) && negb (rq_size req =? 0).

Definition validate_container (b : ExtKeyContainer) : bool :=
  negb (length (xc_keys b) =? 0)%nat && negb (length (xc_targets b) =? 0)%nat
  && forallb (fun k => negb (length (ek_value k) =? 0)%nat) (xc_keys b).

Definition check_request_limits (req : Etsi014KeyRequest) (n_saes : Z) : res DkmsError unit :=
  if MAX_KEY_PER_REQUEST <? rq_number req then Err BadRequest
  else if negb (rq_size req mod 8 =? 0) then Err BadRequest
  else if (rq_size req <? MIN_KEY_SIZE_BITS) || (MAX_KEY_SIZE_BITS <? rq_size req) then Err BadRequest
  else if MAX_SAE_ID_COUNT <? n_saes then Err BadRequest
  else Ok tt.

(** ** Wrapping *)

Definition wrap_session_key (transport k : bytes) : option bytes :=
  if (length transport <? length k)%nat then None else Some (xor_bytes k transport).

Definition unwrap_session_key (transport wire : bytes) : option bytes :=
  if (length transport <? length wire)%nat then None else Some (xor_bytes wire transport).

Definition generate_session_keys (rng : nat -> nat -> SessionKey) (n : Z) (size_bytes : nat) : list SessionKey :=
  map (fun i => rng i size_bytes) (seq 0 (Z.to_nat n)).

(** ** The service *)

(** Admission control per (peer, SAE), implemented with floating-point buckets in
    dkms/src/control/sae_buffer_bucket.rs: [None] when every peer was charged. *)
Class PeerBuckets (SBB : Type) := {
  try_admit_many : SBB -> Z -> BufferPool -> list NodeId -> SaeId -> Z -> SBB * option (Z * Z);
  refund_many : SBB -> list NodeId -> SaeId -> Z -> SBB
}.

(** The digest that ties a session key to its id (SHA-256, truncated, in hex). *)
Class KeyDigest := key_digest : KeyId -> bytes -> string.

Inductive Admission (SBB : Type) := PerPeer (b : SBB) | Legacy (b : SaeBuckets).
Arguments PerPeer {SBB} b.
Arguments Legacy {SBB} b.

Record DkmsConfig := mkCfg {
  cf_node_id : NodeId;
  cf_sae_bindings : gmap SaeId NodeId;
  cf_enforce_authorization : bool;
  cf_max_concurrent_peers : Z;
  cf_token_unit_bytes : Z;
  cf_default_ttl_secs : Z;
  cf_default_level : SecurityLevel;
  cf_peer_levels : gmap NodeId SecurityLevel
}.

Record Dkms (SBB : Type) := mkDkms {
  dk_cfg : DkmsConfig;
  dk_pool : BufferPool;
  dk_pending : PendingStore;
  dk_adm : Admission SBB;
  dk_peers : gset NodeId;
  dk_has_client : bool;
  dk_qkd_avail : NodeId -> option bool;
  dk_ack : option AckPendingStore;
  dk_demand : list (NodeId * Z);
  dk_corrupt : list NodeId
}.
Arguments mkDkms {SBB}.
Arguments dk_cfg {SBB}.
Arguments dk_pool {SBB}.
Arguments dk_pending {SBB}.
Arguments dk_adm {SBB}.
Arguments dk_peers {SBB}.
Arguments dk_has_client {SBB}.
Arguments dk_qkd_avail {SBB}.
Arguments dk_ack {SBB}.
Arguments dk_demand {SBB}.
Arguments dk_corrupt {SBB}.

Section Service.
Context {SBB : Type} `{PeerBuckets SBB} `{KeyDigest}.
Implicit Types d : Dkms SBB.

Definition with_pool (p : BufferPool) d : Dkms SBB :=
  mkDkms (dk_cfg d) p (dk_pending d) (dk_adm d) (dk_peers d) (dk_has_client d) (dk_qkd_avail d) (dk_ack d)
    (dk_demand d) (dk_corrupt d).
Definition with_pending (s : PendingStore) d : Dkms SBB :=
  mkDkms (dk_cfg d) (dk_pool d) s (dk_adm d) (dk_peers d) (dk_has_client d) (dk_qkd_avail d) (dk_ack d)
    (dk_demand d) (dk_corrupt d).
Definition with_adm (a : Admission SBB) d : Dkms SBB :=
  mkDkms (dk_cfg d) (dk_pool d) (dk_pending d) a (dk_peers d) (dk_has_client d) (dk_qkd_avail d) (dk_ack d)
    (dk_demand d) (dk_corrupt d).
Definition with_demand (l : list (NodeId * Z)) d : Dkms SBB :=
  mkDkms (dk_cfg d) (dk_pool d) (dk_pending d) (dk_adm d) (dk_peers d) (dk_has_client d) (dk_qkd_avail d) (dk_ack d)
    l (dk_corrupt d).
Definition with_corrupt (l : list NodeId) d : Dkms SBB :=
  mkDkms (dk_cfg d) (dk_pool d) (dk_pending d) (dk_adm d) (dk_peers d) (dk_has_client d) (dk_qkd_avail d) (dk_ack d)
    (dk_demand d) l.
Definition with_ack (a : option AckPendingStore) d : Dkms SBB :=
  mkDkms (dk_cfg d) (dk_pool d) (dk_pending d) (dk_adm d) (dk_peers d) (dk_has_client d) (dk_qkd_avail d) a
    (dk_demand d) (dk_corrupt d).

Definition security_level_for (c : DkmsConfig) (peer : NodeId) : SecurityLevel :=
  default (cf_default_level c) (cf_peer_levels c !! peer).

Definition sae_served_locally (c : DkmsConfig) (sae : SaeId) : bool :=
  bool_decide (cf_sae_bindings c !! sae = Some (cf_node_id c)).

Definition authorize_local_sae d (sae : SaeId) : res DkmsError unit :=
  if negb (cf_enforce_authorization (dk_cfg d)) then Ok tt
  else if sae_served_locally (dk_cfg d) sae then Ok tt
  else Err (UnknownSae sae).

(** ** [handle_enc_keys]: checks *)

Record EncPlan := mkPlan {
  pl_local : gset SaeId;
  pl_remote : list (NodeId * list SaeId);
  pl_level : option SecurityLevel;
  pl_size_bytes : Z;
  pl_cost_per_peer : Z
}.

Fixpoint resolve_groups (resolve : SaeId -> res DkmsError NodeId) (saes : list SaeId)
    (g : list (NodeId * list SaeId)) : res DkmsError (list (NodeId * list SaeId)) :=
  match saes with
  | [] => Ok g
  | sae :: saes => let* node := resolve sae in resolve_groups resolve saes (group_add node sae g)
  end.

Definition level_for d (level : option SecurityLevel) (peer : NodeId) : SecurityLevel :=
  default (security_level_for (dk_cfg d) peer) level.

(** A strict request to a peer the controller knows to have no QKD path. *)
Definition strict_unreachable d (level : option SecurityLevel) (peer : NodeId) : bool :=
  bool_decide (level_for d level peer = StrictQkd) && bool_decide (dk_qkd_avail d peer = Some false).

Definition enc_plan d (resolve : SaeId -> res DkmsError NodeId) (master slave : SaeId)
    (req : Etsi014KeyRequest) : res DkmsError EncPlan :=
  let* _ := authorize_local_sae d master in
  if negb (validate_request req) then Err BadRequest else
  let authorized := sort_dedup (slave :: rq_additional_saes req) in
  let* _ := check_request_limits req (zlen authorized) in
  let* groups := resolve_groups resolve authorized [] in
  let me := cf_node_id (dk_cfg d) in
  let local := list_to_set (concat (map snd (filter (fun g => fst g = me) groups))) in
  let remote := filter (fun g => fst g <> me) groups in
  if cf_max_concurrent_peers (dk_cfg d) <? zlen remote then Err BadRequest else
  let size_bytes := div_ceil (rq_size req) 8 in
  let cost := compute_cost size_bytes (rq_number req) 1 (cf_token_unit_bytes (dk_cfg d)) in
  let* level := res_map_err (fun _ => BadRequest) (requested req) in
  if existsb (fun g => strict_unreachable d level (fst g)) remote then Err BadRequest
  else Ok (mkPlan local remote level size_bytes cost).

(** ** Admission *)

Definition charge d (now refilled : Z) (pl : EncPlan) (master : SaeId) (number : Z) : Dkms SBB * option DkmsError :=
  let peers := map fst (pl_remote pl) in
  match dk_adm d with
  | PerPeer b =>
      if (length peers =? 0)%nat then (d, None) else
      let '(b, r) := try_admit_many b now (dk_pool d) peers master (pl_cost_per_peer pl) in
      (with_adm (PerPeer b) d,
       match r with None => None | Some (req, av) => Some (RateLimited master req av) end)
  | Legacy b =>
      let cost := compute_cost (pl_size_bytes pl) number (zlen peers) (cf_token_unit_bytes (dk_cfg d)) in
      let '(b, r) := try_consume b now refilled master cost in
      (with_adm (Legacy b) d, match r with None => None | Some av => Some (RateLimited master cost av) end)
  end.

Definition refund_peers d (pl : EncPlan) (master : SaeId) (peers : list NodeId) : Dkms SBB :=
  match dk_adm d with
  | PerPeer b => with_adm (PerPeer (refund_many b peers master (pl_cost_per_peer pl))) d
  | Legacy b => with_adm (Legacy (refund b master (pl_cost_per_peer pl * Z.max (zlen peers) 1))) d
  end.

(** ** Envelopes *)

Definition give_back (popped : list (KeyGrade * TransportKey)) (pb : PeerBuffers) : PeerBuffers :=
  foldr (fun gk pb => set_enc (fst gk) (push_front (enc pb (fst gk)) (snd gk)) pb) pb popped.

Fixpoint wrap_loop (peer : NodeId) (pb : PeerBuffers) (prefs : list KeyGrade) (keys : list SessionKey)
    (out : list Etsi020Key) (popped : list (KeyGrade * TransportKey))
    : PeerBuffers * res DkmsError (list Etsi020Key * list (KeyGrade * TransportKey)) :=
  match keys with
  | [] => (pb, Ok (out, popped))
  | k :: keys =>
      match enc_pop_pref pb prefs with
      | (pb, None) => (give_back popped pb, Err (TransportBufferEmpty peer))
      | (pb, Some (g, tk)) =>
          if (length (tk_bytes tk) <? TRANSPORT_KEY_BYTES)%nat then (give_back popped pb, Err Crypto) else
          match wrap_session_key (tk_bytes tk) (sk_bytes k) with
          | None => (pb, Err Crypto)
          | Some ct =>
              let ext : JsonMap :=
                <["transport_key_id" := VString (tk_id tk)]>
                  {["session_key_digest" := VString (key_digest (sk_id k) (sk_bytes k))]} in
              wrap_loop peer pb prefs keys (out ++ [mkEk (sk_id k) ct (Some ext)]) (popped ++ [(g, tk)])
          end
      end
  end.

Definition build_ext_keys_envelope (c : DkmsConfig) (p : BufferPool) (master : SaeId) (peer : NodeId)
    (saes : list SaeId) (keys : list SessionKey) (prefs : list KeyGrade)
    : BufferPool * res DkmsError (ExtKeyContainer * list (KeyGrade * TransportKey)) :=
  let '(pb, r) := wrap_loop peer (for_peer p peer) prefs keys [] [] in
  (set_peer peer pb p,
   let* (etsi_keys, popped) := r in
   Ok (mkXc etsi_keys master saes
         ("https://" +:+ cf_node_id c +:+ "/kmapi/v1/ext_keys/ack")
         (Some {["ttl_seconds" := VU64 (cf_default_ttl_secs c)]}), popped)).

Definition popped_key : Type := NodeId * KeyGrade * TransportKey.

Fixpoint build_all d (master : SaeId) (level : option SecurityLevel) (keys : list SessionKey)
    (remote : list (NodeId * list SaeId)) (p : BufferPool) (envs : list (NodeId * ExtKeyContainer))
    (popped : list popped_key)
    : BufferPool * list (NodeId * ExtKeyContainer) * list popped_key * option DkmsError :=
  match remote with
  | [] => (p, envs, popped, None)
  | (peer, saes) :: remote =>
      match build_ext_keys_envelope (dk_cfg d) p master peer saes keys (serve_pref (level_for d level peer)) with
      | (p, Ok (env, ks)) =>
          build_all d master level keys remote p (envs ++ [(peer, env)])
            (popped ++ map (fun gk => (peer, fst gk, snd gk)) ks)
      | (p, Err e) => (p, envs, popped, Some e)
      | (p, Panic) => (p, envs, popped, None)
      end
  end.

(** The first envelope that has no client or no peer to go to. *)
Definition send_err d (envs : list (NodeId * ExtKeyContainer)) : option DkmsError :=
  match envs with
  | [] => None
  | _ => if dk_has_client d && forallb (fun e => bool_decide (fst e ∈ dk_peers d)) envs
         then None else Some BadRequest
  end.

Definition put_back (popped : list popped_key) (p : BufferPool) : BufferPool :=
  foldr (fun '(peer, g, tk) p =>
           set_peer peer (set_enc g (push_front (enc (for_peer p peer) g) tk) (for_peer p peer)) p) p popped.

Definition insert_local (now : Z) (s : PendingStore) (master : SaeId) (local : gset SaeId)
    (keys : list SessionKey) : PendingStore :=
  if decide (local = ∅) then s
  else fold_left (fun s k => pending_insert s now (sk_id k) master local (sk_bytes k) None) keys s.

Definition retract (keys : list SessionKey) (s : PendingStore) : PendingStore :=
  fold_left (fun s k => fst (force_remove s (sk_id k))) keys s.

Definition enc_prepare d (now refilled : Z) (rng : nat -> nat -> SessionKey) (master : SaeId)
    (req : Etsi014KeyRequest) (pl : EncPlan)
    : Dkms SBB * res DkmsError (list (NodeId * ExtKeyContainer) * list SessionKey) :=
  let peers := map fst (pl_remote pl) in
  let d := with_demand (dk_demand d ++ map (fun p => (p, pl_cost_per_peer pl)) peers) d in
  match charge d now refilled pl master (rq_number req) with
  | (d, Some e) => (d, Err e)
  | (d, None) =>
      let keys := generate_session_keys rng (rq_number req) (Z.to_nat (pl_size_bytes pl)) in
      let d := with_pending (insert_local now (dk_pending d) master (pl_local pl) keys) d in
      let '(p, envs, popped, e) := build_all d master (pl_level pl) keys (pl_remote pl) (dk_pool d) [] [] in
      match (match e with Some e => Some e | None => send_err d envs end) with
      | Some e =>
          let d := refund_peers (with_pool (put_back popped p) d) pl master peers in
          (with_pending (retract keys (dk_pending d)) d, Err e)
      | None => (with_pool p d, Ok (envs, keys))
      end
  end.

(** ** Answers of the peers *)

(** The rejection that betrays a stale [buffer_enc]. *)
Fixpoint contains (needle s : string) : bool :=
  String.prefix needle s || match s with String.EmptyString => false | String.String _ s => contains needle s end.

Definition peer_with_stale_transport_buffer (e : DkmsError) : option NodeId :=
  match e with
  | PeerRejected peer body => if contains "not in buffer_dec" body then Some peer else None
  | _ => None
  end.

Definition resync_transport_buffer_if_stale (e : DkmsError) (p : BufferPool) : BufferPool :=
  match peer_with_stale_transport_buffer e with
  | Some peer => set_peer peer (fst (enc_clear (for_peer p peer))) p
  | None => p
  end.

(** The answer to a send is an acknowledgement, whose content is not looked at, or
    an error. *)
Definition enc_finish d (master : SaeId) (pl : EncPlan) (keys : list SessionKey)
    (results : list (NodeId * res DkmsError (list KeyId))) : Dkms SBB * res DkmsError (list SessionKey) :=
  let failed := omap (fun pr => match snd pr with Err e => Some (fst pr, e) | _ => None end) results in
  match failed with
  | [] => (d, Ok keys)
  | _ =>
      let d := with_pool (fold_left (fun p f => resync_transport_buffer_if_stale (snd f) p) failed (dk_pool d)) d in
      let d := refund_peers d pl master (map fst failed) in
      (with_pending (retract keys (dk_pending d)) d, Err PeerUnreachable)
  end.

Definition handle_enc_keys d (now refilled : Z) (rng : nat -> nat -> SessionKey)
    (resolve : SaeId -> res DkmsError NodeId) (send : NodeId -> ExtKeyContainer -> res DkmsError (list KeyId))
    (master slave : SaeId) (req : Etsi014KeyRequest) : Dkms SBB * res DkmsError (list SessionKey) :=
  match enc_plan d resolve master slave req with
  | Err e => (d, Err e)
  | Panic => (d, Panic)
  | Ok pl =>
      match enc_prepare d now refilled rng master req pl with
      | (d, Ok (envs, keys)) =>
          enc_finish d master pl keys (map (fun pe => (fst pe, send (fst pe) (snd pe))) envs)
      | (d, Err e) => (d, Err e)
      | (d, Panic) => (d, Panic)
      end
  end.

(** ** [handle_incoming_ext_keys] *)

Definition ext_str (ext : option JsonMap) (k : string) : option string :=
  m ← ext; v ← (m : JsonMap) !! k; as_str v.

Definition peer_ttl (c : DkmsConfig) (mandatory : option JsonMap) : option Z :=
  let max_peer_ttl := Z.max (sat_mul 64 (cf_default_ttl_secs c) 4) 3600 * SECOND in
  m ← mandatory; v ← (m : JsonMap) !! "ttl_seconds"; s ← as_u64 v; Some (Z.min (s * SECOND) max_peer_ttl).

(** The digest agrees, or the sender did not send one. *)
Definition digest_ok (k : Etsi020Key) (plaintext : bytes) : bool :=
  match ext_str (ek_extension k) "session_key_digest" with
  | Some expected => bool_decide (key_digest (ek_id k) plaintext = expected)
  | None => true
  end.

Fixpoint ext_keys_loop d (now : Z) (peer : NodeId) (initiator : SaeId) (authorized : gset SaeId)
    (ttl : option Z) (keys : list Etsi020Key) (acked : list KeyId) : Dkms SBB * res DkmsError (list KeyId) :=
  match keys with
  | [] => (d, Ok acked)
  | k :: keys =>
      match ext_str (ek_extension k) "transport_key_id" with
      | None => (d, Err BadRequest)
      | Some tk_id =>
          if negb (is_valid_id tk_id) then (d, Err BadRequest) else
          let pb := for_peer (dk_pool d) peer in
          match take_by_id (pb_dec pb) tk_id with
          | (_, None) => (d, Err (TransportKeyMissing peer tk_id))
          | (b, Some tk) =>
              let d := with_pool (set_peer peer (set_dec b pb) (dk_pool d)) d in
              match unwrap_session_key (tk_bytes tk) (ek_value k) with
              | None => (d, Err Crypto)
              | Some plaintext =>
                  if digest_ok k plaintext then
                    match insert_from_peer (dk_pending d) now (ek_id k) peer initiator authorized plaintext ttl with
                    | (s, None) =>
                        ext_keys_loop (with_pending s d) now peer initiator authorized ttl keys (acked ++ [ek_id k])
                    | (s, Some Occupied) =>
                        ext_keys_loop (with_pending s d) now peer initiator authorized ttl keys acked
                    | (s, Some OriginFull) => (with_pending s d, Err (PendingFull peer))
                    end
                  else
                    ext_keys_loop (with_corrupt (dk_corrupt d ++ [peer]) d) now peer initiator authorized ttl keys acked
              end
          end
      end
  end.

(** The answer is the list of acknowledged ids. *)
Definition handle_incoming_ext_keys d (now : Z) (peer : NodeId) (body : ExtKeyContainer)
    : Dkms SBB * res DkmsError (list KeyId) :=
  if negb (validate_container body) then (d, Err BadRequest)
  else if MAX_SAE_ID_COUNT <? zlen (xc_targets body) then (d, Err BadRequest)
  else if MAX_KEY_PER_REQUEST <? zlen (xc_keys body) then (d, Err BadRequest)
  else if match xc_mandatory body with Some m => has_other_key "ttl_seconds" m | None => false end
    then (d, Err BadRequest)
  else if negb (is_valid_id (xc_initiator body)) then (d, Err BadRequest)
  else if negb (forallb is_valid_id (xc_targets body)) then (d, Err BadRequest)
  else if cf_enforce_authorization (dk_cfg d)
          && negb (forallb (sae_served_locally (dk_cfg d)) (xc_targets body))
    then (d, Err BadRequest)
  else ext_keys_loop d now peer (xc_initiator body) (list_to_set (xc_targets body))
         (peer_ttl (dk_cfg d) (xc_mandatory body)) (xc_keys body) [].

(** ** [handle_dec_keys] *)

Fixpoint dec_keys_loop d (now : Z) (requester master : SaeId) (ids : list KeyId) (out : list SessionKey)
    : Dkms SBB * res DkmsError (list SessionKey) :=
  match ids with
  | [] => (d, Ok out)
  | id :: ids =>
      match take_for_sae_of_master (dk_pending d) now id requester (Some master) with
      | (s, Ok (m, _)) => dec_keys_loop (with_pending s d) now requester master ids (out ++ [mkSk id m])
      | (s, Err e) => (with_pending s d, Err (PendingTake e))
      | (s, Panic) => (with_pending s d, Panic)
      end
  end.

Definition handle_dec_keys d (now : Z) (requester master : SaeId) (ids : list KeyId)
    : Dkms SBB * res DkmsError (list SessionKey) :=
  match authorize_local_sae d requester with
  | Ok _ => dec_keys_loop d now requester master ids []
  | Err e => (d, Err e)
  | Panic => (d, Panic)
  end.

(** ** [handle_incoming_ack] and peer restarts *)

Fixpoint ack_loop (s : AckPendingStore) (p : BufferPool) (peer : NodeId) (ids : list KeyId) (n : Z)
    : AckPendingStore * BufferPool * Z :=
  match ids with
  | [] => (s, p, n)
  | id :: ids =>
      let '(s, p, ok) := on_ack s p peer id in ack_loop s p peer ids (if (ok : bool) then n + 1 else n)
  end.

Definition handle_incoming_ack d (peer : NodeId) (ids : list KeyId) : Dkms SBB * Z :=
  match dk_ack d with
  | None => (d, 0)
  | Some s => let '(s, p, n) := ack_loop s (dk_pool d) peer ids 0 in (with_ack (Some s) (with_pool p d), n)
  end.

Definition forget_material_of_previous_incarnation d (peer : NodeId) : Dkms SBB :=
  let pb := fst (enc_clear (for_peer (dk_pool d) peer)) in
  let d := with_pool (set_peer peer (set_dec (buf_clear (pb_dec pb)) pb) (dk_pool d)) d in
  with_ack ((fun s => fst (drop_peer s peer)) <$> dk_ack d) d.

End Service.

(** ** Taking transport keys *)

Definition all_enc (pb : PeerBuffers) : list TransportKey := sb_inner (pb_enc_qkd pb) ++ sb_inner (pb_enc_pqc pb).

(** What a preference list can still serve. *)
Definition stock (pb : PeerBuffers) (prefs : list KeyGrade) : nat :=
  foldr (fun g n => (length (sb_inner (enc pb g)) + n)%nat) 0%nat prefs.

Definition long_keys (pb : PeerBuffers) : Prop :=
  Forall (fun k => (TRANSPORT_KEY_BYTES <= length (tk_bytes k))%nat) (all_enc pb).

Lemma enc_in_all pb g k : k ∈ sb_inner (enc pb g) -> k ∈ all_enc pb.
Proof. intros Hk. apply elem_of_app. destruct g; [by left|by right]. Qed.

Lemma set_enc_all g q pb k :
  sb_inner (enc pb g) = k :: q ->
  all_enc pb ≡ₚ k :: all_enc (set_enc g (with_inner q (enc pb g)) pb).
Proof.
  unfold all_enc. destruct g; cbn; intros ->; [done|]. by rewrite Permutation_middle.
Qed.

Lemma stock_set_enc g q pb prefs : g ∉ prefs -> stock (set_enc g q pb) prefs = stock pb prefs.
Proof.
  induction prefs as [|g' prefs IH]; [done|]. intros [Hne Hnot]%not_elem_of_cons. cbn [stock foldr].
  rewrite enc_set_enc, decide_False by done. f_equal. by apply IH.
Qed.

Lemma enc_pop_pref_stock pb prefs :
  NoDup prefs ->
  match enc_pop_pref pb prefs with
  | (pb', Some _) => stock pb prefs = S (stock pb' prefs)
  | (_, None) => stock pb prefs = 0%nat
  end.
Proof.
  induction prefs as [|g prefs IH]; [done|]. intros [Hg Hnd]%NoDup_cons. cbn [enc_pop_pref stock foldr].
  pose proof (pop_oldest_spec (enc pb g)) as Hp. destruct (sb_inner (enc pb g)) as [|k q] eqn:E; rewrite Hp.
  - specialize (IH Hnd). destruct (enc_pop_pref pb prefs) as [pb' [[g' k]|]] eqn:Epop; [|exact IH].
    cbn [stock foldr]. pose proof (enc_pop_pref_spec pb prefs) as Hs. rewrite Epop in Hs.
    destruct Hs as (Hin & _ & Hpb'). rewrite Hpb', enc_set_enc, decide_False by (intros ->; done).
    rewrite <- Hpb'. rewrite E. cbn. exact IH.
  - cbn [stock foldr]. rewrite enc_set_enc, decide_True by done.
    change (foldr (fun g0 n => (length (sb_inner (enc (set_enc g (with_inner q (enc pb g)) pb) g0)) + n)%nat) 0%nat prefs)
      with (stock (set_enc g (with_inner q (enc pb g)) pb) prefs).
    rewrite stock_set_enc by done. unfold stock. cbn [sb_inner with_inner length]. lia.
Qed.

Lemma serve_pref_nodup l : NoDup (serve_pref l).
Proof. destruct l; apply (bool_decide_unpack _); vm_compute; exact I. Qed.

Lemma give_back_app l gk pb :
  give_back (l ++ [gk]) pb = give_back l (set_enc (fst gk) (push_front (enc pb (fst gk)) (snd gk)) pb).
Proof. unfold give_back. by rewrite foldr_app. Qed.

Section Wrap.
Context `{KeyDigest}.

(** The key of an envelope that carries session key [k] under transport key [tk]. *)
Definition envelope_key (k : SessionKey) (tk : TransportKey) : Etsi020Key :=
  mkEk (sk_id k) (xor_bytes (sk_bytes k) (tk_bytes tk))
    (Some (<["transport_key_id" := VString (tk_id tk)]>
             {["session_key_digest" := VString (key_digest (sk_id k) (sk_bytes k))]})).

Lemma wrap_ok tk k :
  (length (sk_bytes k) <= TRANSPORT_KEY_BYTES)%nat -> (TRANSPORT_KEY_BYTES <= length (tk_bytes tk))%nat ->
  (length (tk_bytes tk) <? TRANSPORT_KEY_BYTES)%nat = false
  /\ wrap_session_key (tk_bytes tk) (sk_bytes k) = Some (xor_bytes (sk_bytes k) (tk_bytes tk)).
Proof.
  intros Hk Ht. split; [by apply Nat.ltb_ge|]. unfold wrap_session_key.
  destruct (Nat.ltb_spec (length (tk_bytes tk)) (length (sk_bytes k))); [lia|done].
Qed.

(** With long keys in stock the loop takes one per session key, and with too few it
    gives back everything it took. *)
Lemma wrap_loop_spec peer prefs keys : forall pb out popped,
  NoDup prefs -> long_keys pb -> Forall (fun k => (length (sk_bytes k) <= TRANSPORT_KEY_BYTES)%nat) keys ->
  match wrap_loop peer pb prefs keys out popped with
  | (pb', Ok (out', popped')) => exists ps,
      popped' = popped ++ ps /\ length ps = length keys
      /\ out' = out ++ zip_with envelope_key keys (map snd ps)
      /\ all_enc pb ≡ₚ map snd ps ++ all_enc pb'
      /\ Forall (fun gk => fst gk ∈ prefs) ps
      /\ give_back popped' pb' = give_back popped pb
      /\ pb_dec pb' = pb_dec pb
  | (pb', Err e) => pb' = give_back popped pb /\ e = TransportBufferEmpty peer /\ (stock pb prefs < length keys)%nat
  | (_, Panic) => False
  end.
Proof.
  induction keys as [|k keys IH]; intros pb out popped Hnd Hlong Hsz; cbn [wrap_loop].
  - exists []. rewrite !app_nil_r. by split_and!.
  - apply Forall_cons in Hsz as [Hk Hsz]. pose proof (enc_pop_pref_spec pb prefs) as Hpop.
    pose proof (enc_pop_pref_stock pb prefs Hnd) as Hst.
    destruct (enc_pop_pref pb prefs) as [pb1 [[g tk]|]].
    + destruct Hpop as (Hg & Hhead & Hpb1).
      assert (Hall : all_enc pb ≡ₚ tk :: all_enc pb1) by (rewrite Hpb1; by apply set_enc_all).
      assert (Hlong' : (TRANSPORT_KEY_BYTES <= length (tk_bytes tk))%nat /\ long_keys pb1).
      { unfold long_keys in *. rewrite Hall in Hlong. by apply Forall_cons in Hlong. }
      destruct (wrap_ok tk k Hk (proj1 Hlong')) as [-> ->].
      specialize (IH pb1 (out ++ [envelope_key k tk]) (popped ++ [(g, tk)]) Hnd (proj2 Hlong') Hsz).
      unfold envelope_key in IH at 1.
      assert (Hback : give_back (popped ++ [(g, tk)]) pb1 = give_back popped pb).
      { rewrite give_back_app. cbn [fst snd]. f_equal. rewrite Hpb1. by apply push_front_pop. }
      destruct (wrap_loop _ _ _ _ _ _) as [pb' [[out' popped']|e|]].
      * destruct IH as (ps & -> & Hlen & -> & Hperm & Hgs & Hgb & Hdec). exists ((g, tk) :: ps).
        split_and!; cbn [length map zip_with]; try by rewrite <- ?app_assoc.
        -- by rewrite Hlen.
        -- rewrite Hall, Hperm. done.
        -- by apply Forall_cons.
        -- by rewrite Hgb.
        -- rewrite Hdec, Hpb1. by destruct g.
      * destruct IH as (-> & -> & Hn). split_and!; [done|done|]. cbn [length]. lia.
      * done.
    + subst pb1. split_and!; [done|done|]. cbn [length]. lia.
Qed.

End Wrap.

(** ** Receiving *)

Section Receive.
Context {SBB : Type} `{PeerBuckets SBB} `{KeyDigest}.
Implicit Types d : Dkms SBB.

Lemma insert_from_peer_fresh s now id o i a m ttl :
  pending_from s o < MAX_PENDING_PER_ORIGIN -> ps_inner s !! id = None ->
  exists s', insert_from_peer s now id o i a m ttl = (s', None)
    /\ ps_inner s' = <[id := mkPe i a ∅ m (expiry s now ttl) (Some o)]> (ps_inner s)
    /\ pending_from s' o = pending_from s o + 1 /\ ps_default_ttl s' = ps_default_ttl s.
Proof.
  intros Hroom Hfree. unfold insert_from_peer. cbn [ps_inner]. rewrite (proj2 (Z.leb_gt _ _) Hroom), Hfree.
  eexists. split_and!; [reflexivity|done| |done].
  unfold pending_from at 1. cbn [ps_per_origin]. by rewrite lookup_insert_eq.
Qed.

Lemma unwrap_envelope k tk :
  (length (sk_bytes k) <= length (tk_bytes tk))%nat ->
  unwrap_session_key (tk_bytes tk) (ek_value (envelope_key k tk)) = Some (sk_bytes k).
Proof.
  intros Hl. unfold unwrap_session_key, envelope_key. cbn [ek_value].
  destruct (Nat.ltb_spec (length (tk_bytes tk)) (length (xor_bytes (sk_bytes k) (tk_bytes tk)))) as [Hlt|_].
  - rewrite length_xor_bytes in Hlt. lia.
  - by rewrite xor_bytes_involutive.
Qed.

Lemma envelope_ids k tk :
  ext_str (ek_extension (envelope_key k tk)) "transport_key_id" = Some (tk_id tk)
  /\ digest_ok (envelope_key k tk) (sk_bytes k) = true.
Proof.
  unfold digest_ok, ext_str, envelope_key. cbn [ek_extension mbind option_bind ek_id]. split.
  - by rewrite lookup_insert_eq.
  - rewrite lookup_insert_ne by done. rewrite lookup_singleton_eq. cbn. by apply bool_decide_eq_true.
Qed.

Lemma take_by_id_in b k :
  NoDup (map tk_id (sb_inner b)) -> k ∈ sb_inner b ->
  exists q, take_by_id b (tk_id k) = (with_inner q b, Some k) /\ sb_inner b ≡ₚ k :: q.
Proof.
  intros Hnd Hin. unfold take_by_id. pose proof (remove_id_spec (tk_id k) (sb_inner b)) as Hr.
  destruct (remove_id (tk_id k) (sb_inner b)) as [[k' q]|].
  - destruct Hr as (l & r & Hb & -> & Hid & _). exists (l ++ r).
    assert (Hp : sb_inner b ≡ₚ k' :: l ++ r) by (rewrite Hb; by rewrite Permutation_middle).
    assert (k' = k) as ->; [|done].
    rewrite Hp in Hin. apply elem_of_cons in Hin as [|Hin]; [done|].
    rewrite Hp in Hnd. cbn [map] in Hnd. apply NoDup_cons in Hnd as [Hno _]. destruct Hno. rewrite Hid.
    by apply list_elem_of_fmap_2.
  - destruct Hr. by apply list_elem_of_fmap_2.
Qed.

(** The receiver unwraps, stores and acknowledges every key of an envelope whose
    transport keys it holds. *)
Lemma ext_keys_loop_ok now peer i au ttl keys tks : forall d acked,
  length tks = length keys ->
  Forall2 (fun k tk => (length (sk_bytes k) <= length (tk_bytes tk))%nat /\ is_valid_id (tk_id tk) = true) keys tks ->
  NoDup (map tk_id tks) -> NoDup (map sk_id keys) ->
  NoDup (map tk_id (sb_inner (pb_dec (for_peer (dk_pool d) peer)))) ->
  (forall tk, tk ∈ tks -> tk ∈ sb_inner (pb_dec (for_peer (dk_pool d) peer))) ->
  (forall k, k ∈ keys -> ps_inner (dk_pending d) !! sk_id k = None) ->
  pending_from (dk_pending d) peer + zlen keys <= MAX_PENDING_PER_ORIGIN ->
  exists d', ext_keys_loop d now peer i au ttl (zip_with envelope_key keys tks) acked
             = (d', Ok (acked ++ map sk_id keys))
    /\ dk_cfg d' = dk_cfg d /\ dk_corrupt d' = dk_corrupt d
    /\ sb_inner (pb_dec (for_peer (dk_pool d) peer)) ≡ₚ tks ++ sb_inner (pb_dec (for_peer (dk_pool d') peer))
    /\ (forall k, k ∈ keys -> ps_inner (dk_pending d') !! sk_id k
          = Some (mkPe i au ∅ (sk_bytes k) (expiry (dk_pending d) now ttl) (Some peer)))
    /\ (forall id, id ∉ map sk_id keys -> ps_inner (dk_pending d') !! id = ps_inner (dk_pending d) !! id).
Proof.
  revert tks. induction keys as [|k keys IH]; intros [|tk tks]; try done; intros d acked Hlen Hfit Hndt Hndk Hdec Hin Hfree Hroom.
  - exists d. cbn. rewrite app_nil_r. split_and!; try done. intros k []%not_elem_of_nil.
  - apply Forall2_cons in Hfit as [[Hkl Hvalid] Hfit]. cbn [map] in Hndt, Hndk.
    apply NoDup_cons in Hndt as [Ht Hndt]. apply NoDup_cons in Hndk as [Hk Hndk].
    cbn [zip_with ext_keys_loop]. destruct (envelope_ids k tk) as [-> Hdig]. rewrite Hvalid. cbn [negb].
    destruct (take_by_id_in (pb_dec (for_peer (dk_pool d) peer)) tk Hdec) as (q & -> & Hq); [apply Hin; set_solver|].
    rewrite unwrap_envelope by done. rewrite Hdig. zsimp.
    destruct (insert_from_peer_fresh (dk_pending d) now (sk_id k) peer i au (sk_bytes k) ttl) as (s' & Hins & Hinner & Hcount & Hdttl).
    { pose proof (zlen_nonneg keys). lia. } { apply Hfree. set_solver. }
    cbn [dk_pending with_pool ek_id envelope_key]. rewrite Hins.
    set (d1 := with_pending s' _).
    assert (Hd1 : for_peer (dk_pool d1) peer
      = set_dec (with_inner q (pb_dec (for_peer (dk_pool d) peer))) (for_peer (dk_pool d) peer)).
    { unfold d1. cbn [dk_pool with_pending with_pool]. rewrite for_peer_set. by rewrite decide_True. }
    destruct (IH tks d1 (acked ++ [sk_id k])) as (d' & Hrun & Hcfg & Hcor & Hperm & Hget & Hother).
    + by injection Hlen.
    + done.
    + done.
    + done.
    + rewrite Hd1. cbn [pb_dec set_dec sb_inner with_inner]. rewrite Hq in Hdec. cbn [map] in Hdec.
      by apply NoDup_cons in Hdec as [_ ?].
    + intros t Htin. rewrite Hd1. cbn [pb_dec set_dec sb_inner with_inner].
      assert (Hall : t ∈ sb_inner (pb_dec (for_peer (dk_pool d) peer))) by (apply Hin; set_solver).
      rewrite Hq in Hall. apply elem_of_cons in Hall as [->|]; [|done]. destruct Ht. by apply list_elem_of_fmap_2.
    + intros k' Hk'. cbn [dk_pending d1 with_pending]. rewrite Hinner, lookup_insert_ne; [apply Hfree; set_solver|].
      intros He. apply Hk. rewrite He. by apply list_elem_of_fmap_2.
    + cbn [dk_pending d1 with_pending]. lia.
    + exists d'. rewrite Hrun. split_and!.
      * by rewrite <- app_assoc.
      * by rewrite Hcfg.
      * by rewrite Hcor.
      * rewrite Hq. rewrite Hd1 in Hperm. cbn [pb_dec set_dec sb_inner with_inner] in Hperm. by rewrite Hperm.
      * intros k' [->|Hk']%elem_of_cons.
        -- rewrite Hother by done. unfold d1. cbn [dk_pending with_pending]. rewrite Hinner. apply lookup_insert_eq.
        -- rewrite Hget by done. unfold d1, expiry. cbn [dk_pending with_pending]. by rewrite Hdttl.
      * intros id [Hne Hid]%not_elem_of_cons. rewrite Hother by done. unfold d1. cbn [dk_pending with_pending].
        rewrite Hinner. by rewrite lookup_insert_ne.
Qed.

Lemma take_ok s now id sae e :
  ps_inner s !! id = Some e -> now < pe_expires_at e -> sae ∈ pe_authorized e -> sae ∉ pe_retrieved e ->
  exists s', take_for_sae_of_master s now id sae (Some (pe_initiator e)) = (s', Ok (pe_material e, pe_initiator e))
    /\ forall id', id' <> id -> ps_inner s' !! id' = ps_inner s !! id'.
Proof.
  intros He Hexp Hau Hret. unfold take_for_sae_of_master. rewrite He. unfold is_expired.
  rewrite (proj2 (Z.leb_gt _ _) Hexp), (bool_decide_eq_true_2 _ Hau), (bool_decide_eq_true_2 (pe_initiator e = _)) by done.
  cbn [negb]. rewrite (bool_decide_eq_false_2 _ Hret). eexists. split; [reflexivity|].
  intros id' Hne. destruct (is_complete _); [|by apply lookup_insert_ne].
  unfold remove_entry. cbn [ps_inner]. rewrite lookup_insert_eq. cbn [fst ps_inner].
  rewrite lookup_delete_ne by done. by apply lookup_insert_ne.
Qed.

Lemma dec_keys_loop_ok now sae master au ex o keys : forall d out,
  NoDup (map sk_id keys) -> now < ex -> sae ∈ au ->
  (forall k, k ∈ keys -> ps_inner (dk_pending d) !! sk_id k = Some (mkPe master au ∅ (sk_bytes k) ex o)) ->
  exists d', dec_keys_loop d now sae master (map sk_id keys) out = (d', Ok (out ++ keys)).
Proof.
  induction keys as [|k keys IH]; intros d out Hnd Hex Hau Hget; cbn [map dec_keys_loop].
  - exists d. by rewrite app_nil_r.
  - cbn [map] in Hnd. apply NoDup_cons in Hnd as [Hk Hnd].
    destruct (take_ok (dk_pending d) now (sk_id k) sae _ (Hget k ltac:(set_solver))) as (s' & Ht & Hother);
      [done|done|apply not_elem_of_empty|].
    cbn [pe_initiator pe_material] in Ht. rewrite Ht.
    destruct (IH (with_pending s' d) (out ++ [mkSk (sk_id k) (sk_bytes k)]) Hnd Hex Hau) as (d' & ->).
    + intros k' Hk'. cbn [dk_pending with_pending]. rewrite Hother; [apply Hget; set_solver|].
      intros He. apply Hk. rewrite <- He. by apply list_elem_of_fmap_2.
    + exists d'. rewrite <- app_assoc. by destruct k.
Qed.

End Receive.

(** ** One exchange between two nodes *)

Section Exchange.
Context {SBB : Type} `{PeerBuckets SBB} `{KeyDigest}.

(** A request at node [d] whose envelopes go to node [b]; an error at [b] comes back
    as a rejection with its text, and nobody answers for other nodes. *)
Definition exchange (text : DkmsError -> string) (d b : Dkms SBB) (now nowB refilled : Z)
    (rng : nat -> nat -> SessionKey) (resolve : SaeId -> res DkmsError NodeId) (master slave : SaeId)
    (req : Etsi014KeyRequest) : Dkms SBB * Dkms SBB * res DkmsError (list SessionKey) :=
  let me := cf_node_id (dk_cfg d) in
  let answer (acc : Dkms SBB * list (NodeId * res DkmsError (list KeyId))) (pe : NodeId * ExtKeyContainer) :=
    let '(b, rs) := acc in
    if decide (fst pe = cf_node_id (dk_cfg b)) then
      let '(b, r) := handle_incoming_ext_keys b nowB me (snd pe) in
      (b, rs ++ [(fst pe, res_map_err (fun e => PeerRejected (fst pe) (text e)) r)])
    else (b, rs ++ [(fst pe, Err PeerUnreachable)]) in
  match enc_plan d resolve master slave req with
  | Err e => (d, b, Err e)
  | Panic => (d, b, Panic)
  | Ok pl =>
      match enc_prepare d now refilled rng master req pl with
      | (d, Ok (envs, keys)) =>
          let '(b, rs) := fold_left answer envs (b, []) in
          let '(d, r) := enc_finish d master pl keys rs in (d, b, r)
      | (d, Err e) => (d, b, Err e)
      | (d, Panic) => (d, b, Panic)
      end
  end.

(** A request for [slave] alone that passes every check of the master's node. *)
Record request_ok (d : Dkms SBB) (resolve : SaeId -> res DkmsError NodeId) (master slave : SaeId)
    (req : Etsi014KeyRequest) (level : option SecurityLevel) (peer : NodeId) : Prop := {
  ro_master : authorize_local_sae d master = Ok tt;
  ro_number : 1 <= rq_number req <= MAX_KEY_PER_REQUEST;
  ro_size : rq_size req mod 8 = 0 /\ MIN_KEY_SIZE_BITS <= rq_size req <= MAX_KEY_SIZE_BITS;
  ro_alone : rq_additional_saes req = [];
  ro_level : requested req = Ok level;
  ro_resolve : resolve slave = Ok peer;
  ro_remote : peer <> cf_node_id (dk_cfg d);
  ro_one : 1 <= cf_max_concurrent_peers (dk_cfg d);
  ro_reach : strict_unreachable d level peer = false;
  ro_client : dk_has_client d = true /\ peer ∈ dk_peers d
}.

Lemma request_plan d resolve master slave req level peer :
  request_ok d resolve master slave req level peer ->
  enc_plan d resolve master slave req
  = Ok (mkPlan ∅ [(peer, [slave])] level (div_ceil (rq_size req) 8)
          (compute_cost (div_ceil (rq_size req) 8) (rq_number req) 1 (cf_token_unit_bytes (dk_cfg d)))).
Proof.
  intros [Hm Hn [Hs8 Hs] Ha Hl Hr Hrem Hone Hreach _]. unfold enc_plan. rewrite Hm. cbn [res_bind].
  unfold validate_request, MIN_KEY_SIZE_BITS in *.
  rewrite (proj2 (Z.leb_le _ _)) by lia. rewrite (proj2 (Z.eqb_neq _ _)) by lia. cbn [andb negb].
  rewrite Ha. change (sort_dedup [slave]) with [slave].
  unfold check_request_limits, MIN_KEY_SIZE_BITS. rewrite (proj2 (Z.ltb_ge _ _)) by lia.
  rewrite Hs8. rewrite Z.eqb_refl. cbn [negb].
  rewrite !(proj2 (Z.ltb_ge _ _)) by (unfold MAX_SAE_ID_COUNT, zlen; cbn; lia). cbn [orb res_bind].
  cbn [resolve_groups]. rewrite Hr. cbn [res_bind group_add].
  rewrite (filter_cons_False (fun g : NodeId * list SaeId => fst g = cf_node_id (dk_cfg d))) by done.
  rewrite (filter_cons_True (fun g : NodeId * list SaeId => fst g <> cf_node_id (dk_cfg d))) by done.
  rewrite !filter_nil. cbn [map concat list_to_set].
  rewrite (proj2 (Z.ltb_ge _ _)) by (unfold zlen; cbn; lia). rewrite Hl. cbn [res_map_err res_bind existsb fst].
  by rewrite Hreach.
Qed.

Lemma charge_frame (d : Dkms SBB) l now refilled pl master n :
  exists a, charge (with_demand l d) now refilled pl master n
            = (with_adm a (with_demand l d), snd (charge d now refilled pl master n)).
Proof.
  unfold charge. cbn [dk_adm with_demand dk_pool dk_cfg]. destruct (dk_adm d) as [s|s] eqn:Ea.
  - destruct (_ =? _)%nat; [exists (PerPeer s); cbn; by rewrite <- Ea; destruct d|].
    destruct (try_admit_many _ _ _ _ _ _) as [s' r]. by eexists.
  - destruct (try_consume _ _ _ _ _) as [s' r]. by eexists.
Qed.

Lemma length_generate rng n sz : length (generate_session_keys rng n sz) = Z.to_nat n.
Proof. unfold generate_session_keys. by rewrite length_map, length_seq. Qed.

Lemma generate_in rng n sz k : k ∈ generate_session_keys rng n sz -> exists i, k = rng i sz.
Proof. intros (i & -> & _)%list_elem_of_fmap. by exists i. Qed.

Lemma generate_nodup rng n sz :
  (forall i j, sk_id (rng i sz) = sk_id (rng j sz) -> i = j) ->
  NoDup (map sk_id (generate_session_keys rng n sz)).
Proof.
  intros Hinj. unfold generate_session_keys. rewrite map_map.
  apply NoDup_fmap_2; [intros i j; apply Hinj|apply NoDup_seq].
Qed.

(** The master's node turns a request it accepts into one envelope. *)
Lemma prepare_ok d now refilled rng master slave req level peer :
  let pl := mkPlan ∅ [(peer, [slave])] level (div_ceil (rq_size req) 8)
              (compute_cost (div_ceil (rq_size req) 8) (rq_number req) 1 (cf_token_unit_bytes (dk_cfg d))) in
  let keys := generate_session_keys rng (rq_number req) (Z.to_nat (div_ceil (rq_size req) 8)) in
  snd (charge d now refilled pl master (rq_number req)) = None ->
  dk_has_client d = true -> peer ∈ dk_peers d ->
  long_keys (for_peer (dk_pool d) peer) ->
  Forall (fun k => (length (sk_bytes k) <= TRANSPORT_KEY_BYTES)%nat) keys ->
  (length keys <= stock (for_peer (dk_pool d) peer) (serve_pref (level_for d level peer)))%nat ->
  exists d' tks, enc_prepare d now refilled rng master req pl
    = (d', Ok ([(peer, mkXc (zip_with envelope_key keys tks) master [slave]
          ("https://" +:+ cf_node_id (dk_cfg d) +:+ "/kmapi/v1/ext_keys/ack")
          (Some {["ttl_seconds" := VU64 (cf_default_ttl_secs (dk_cfg d))]}))], keys))
    /\ length tks = length keys
    /\ all_enc (for_peer (dk_pool d) peer) ≡ₚ tks ++ all_enc (for_peer (dk_pool d') peer).
Proof.
  intros pl keys Hch Hcl Hpeer Hlong Hsz Hst. unfold enc_prepare.
  destruct (charge_frame d (dk_demand d ++ map (fun p => (p, pl_cost_per_peer pl)) (map fst (pl_remote pl)))
    now refilled pl master (rq_number req)) as (a & ->). rewrite Hch.
  change (pl_local pl) with (∅ : gset SaeId). unfold insert_local. rewrite decide_True by done.
  change (pl_size_bytes pl) with (div_ceil (rq_size req) 8). fold keys.
  change (pl_remote pl) with [(peer, [slave])]. change (pl_level pl) with level.
  set (d1 := with_pending _ _).
  assert (Hd1 : dk_cfg d1 = dk_cfg d /\ dk_pool d1 = dk_pool d /\ dk_has_client d1 = true /\ dk_peers d1 = dk_peers d
    /\ level_for d1 level peer = level_for d level peer) by done.
  clearbody d1. destruct Hd1 as (Ecfg & Epool & Ecl & Epeers & Elev).
  cbn [build_all dk_pool with_pending with_adm with_demand]. unfold build_ext_keys_envelope. rewrite Elev, Ecfg, Epool.
  pose proof (wrap_loop_spec peer (serve_pref (level_for d level peer)) keys (for_peer (dk_pool d) peer) [] []
    (serve_pref_nodup _) Hlong Hsz) as Hw.
  destruct (wrap_loop _ _ _ _ _ _) as [pb' [[out popped]|e|]]; [|destruct Hw as (_ & _ & Hn); lia|done].
  destruct Hw as (ps & -> & Hlen & -> & Hperm & _ & _ & _). cbn [app] in *.
  cbn [app res_bind send_err forallb fst]. rewrite Ecl, Epeers, (bool_decide_eq_true_2 _ Hpeer). cbn [andb].
  eexists _, (map snd ps). split_and!; [reflexivity|by rewrite length_map|].
  cbn [dk_pool with_pool]. rewrite for_peer_set, decide_True by done. exact Hperm.
Qed.

(** Both ends hold the same transport keys: what [d] has in stock for [peer] is in
    the DEC buffer of [peer] for [me], under the same id, with the same bytes. *)
Record paired (d b : Dkms SBB) (me peer : NodeId) : Prop := {
  pa_long : long_keys (for_peer (dk_pool d) peer);
  pa_enc : NoDup (map tk_id (all_enc (for_peer (dk_pool d) peer)));
  pa_dec : NoDup (map tk_id (sb_inner (pb_dec (for_peer (dk_pool b) me))));
  pa_same k : k ∈ all_enc (for_peer (dk_pool d) peer) ->
    k ∈ sb_inner (pb_dec (for_peer (dk_pool b) me)) /\ is_valid_id (tk_id k) = true
}.

(** Fresh ids and the right number of random bytes. *)
Record good_rng (rng : nat -> nat -> SessionKey) (b : Dkms SBB) : Prop := {
  gr_len i n : length (sk_bytes (rng i n)) = n;
  gr_inj n i j : sk_id (rng i n) = sk_id (rng j n) -> i = j;
  gr_free i n : ps_inner (dk_pending b) !! sk_id (rng i n) = None
}.

Lemma envelope_values keys tks :
  Forall2 (fun k tk => (length (sk_bytes k) <= length (tk_bytes tk))%nat /\ is_valid_id (tk_id tk) = true) keys tks ->
  Forall (fun k => (0 < length (sk_bytes k))%nat) keys ->
  forallb (fun k => negb (length (ek_value k) =? 0)%nat) (zip_with envelope_key keys tks) = true.
Proof.
  induction 1 as [|k tk keys tks [Hl _] _ IH]; [done|]. intros [Hk Hks]%Forall_cons. cbn [zip_with forallb].
  rewrite IH by done. cbn [ek_value envelope_key]. rewrite length_xor_bytes.
  by rewrite (proj2 (Nat.eqb_neq _ _)) by lia.
Qed.

(** An envelope of the master's node passes the checks of the receiver. *)
Lemma incoming_checks (b : Dkms SBB) nowB me master slave c t keys tks :
  Forall2 (fun k tk => (length (sk_bytes k) <= length (tk_bytes tk))%nat /\ is_valid_id (tk_id tk) = true) keys tks ->
  Forall (fun k => (0 < length (sk_bytes k))%nat) keys -> length tks = length keys ->
  (0 < length keys)%nat -> zlen keys <= MAX_KEY_PER_REQUEST ->
  is_valid_id master = true -> is_valid_id slave = true -> authorize_local_sae b slave = Ok tt ->
  handle_incoming_ext_keys b nowB me
    (mkXc (zip_with envelope_key keys tks) master [slave] c (Some {["ttl_seconds" := VU64 t]}))
  = ext_keys_loop b nowB me master {[ slave ]} (peer_ttl (dk_cfg b) (Some {["ttl_seconds" := VU64 t]}))
      (zip_with envelope_key keys tks) [].
Proof.
  intros Hfit Hne Hlen Hpos Hmax Hvm Hvs Hau.
  assert (Hzl : length (zip_with envelope_key keys tks) = length keys) by (rewrite length_zip_with; lia).
  unfold handle_incoming_ext_keys, validate_container. cbn [xc_keys xc_targets xc_mandatory xc_initiator length].
  rewrite Hzl. rewrite (proj2 (Nat.eqb_neq _ _)) by lia. cbn [negb andb].
  rewrite (envelope_values keys tks) by done. cbn [negb].
  rewrite (proj2 (Z.ltb_ge _ _)) by (unfold zlen, MAX_SAE_ID_COUNT; cbn; lia).
  rewrite (proj2 (Z.ltb_ge _ _)) by (unfold zlen in *; lia).
  destruct (has_other_key "ttl_seconds" {["ttl_seconds" := VU64 t]}) eqn:Eo.
  { apply has_other_key_spec in Eo as (k' & Hk' & v & Hv). apply lookup_singleton_Some in Hv as [He _]. by destruct Hk'. }
  clear Eo. rewrite Hvm. cbn [forallb negb]. rewrite Hvs. cbn [andb negb].
  assert (Hserved : cf_enforce_authorization (dk_cfg b) && negb (sae_served_locally (dk_cfg b) slave && true) = false).
  { unfold authorize_local_sae in Hau. destruct (cf_enforce_authorization (dk_cfg b)); [|reflexivity]. cbn [negb] in Hau.
    destruct (sae_served_locally (dk_cfg b) slave); [reflexivity|discriminate Hau]. }
  rewrite Hserved. cbn [list_to_set]. by rewrite (right_id_L ∅ (∪)).
Qed.

Lemma zip_fits keys tks :
  length tks = length keys ->
  Forall (fun k => (length (sk_bytes k) <= TRANSPORT_KEY_BYTES)%nat) keys ->
  Forall (fun tk => (TRANSPORT_KEY_BYTES <= length (tk_bytes tk))%nat /\ is_valid_id (tk_id tk) = true) tks ->
  Forall2 (fun k tk => (length (sk_bytes k) <= length (tk_bytes tk))%nat /\ is_valid_id (tk_id tk) = true) keys tks.
Proof.
  revert tks. induction keys as [|k keys IH]; intros [|tk tks]; try discriminate; [constructor|].
  intros [= Hl] [Hk Hks]%Forall_cons [[Ht Hv] Hts]%Forall_cons. constructor; [split; [lia|exact Hv]|by apply IH].
Qed.

Lemma size_in_bytes size :
  size mod 8 = 0 -> MIN_KEY_SIZE_BITS <= size <= MAX_KEY_SIZE_BITS ->
  div_ceil size 8 * 8 = size /\ 0 < div_ceil size 8 <= Z.of_nat TRANSPORT_KEY_BYTES.
Proof.
  intros H8 Hs. unfold div_ceil, MIN_KEY_SIZE_BITS, MAX_KEY_SIZE_BITS, TRANSPORT_KEY_BYTES in *.
  apply Z.div_exact in H8; [|lia]. replace ((size + 8 - 1) / 8) with (size / 8); [lia|].
  rewrite H8 at 2. replace (8 * (size / 8) + 8 - 1) with (7 + (size / 8) * 8) by lia. by rewrite Z.div_add.
Qed.

(** C8: master and slave get the same keys.  When a request for one slave SAE at
    another node passes the checks and the admission of the master's node, the two
    nodes hold the same transport keys and enough of them are in stock for the level
    of the request, then the master receives the number of keys it asked for, of the
    size it asked for; the slave, asking its own node with the ids before they
    expire, receives exactly the same keys; and each side has spent the same
    transport keys, one per session key, which are no longer in either buffer. *)
Theorem session_key_delivered (text : DkmsError -> string) (d b : Dkms SBB) (now nowB nowC refilled : Z)
  (rng : nat -> nat -> SessionKey) (resolve : SaeId -> res DkmsError NodeId) (master slave : SaeId)
  (req : Etsi014KeyRequest) (level : option SecurityLevel) (peer : NodeId)
  (Hreq : request_ok d resolve master slave req level peer)
  (Hadm : forall pl, enc_plan d resolve master slave req = Ok pl ->
            snd (charge d now refilled pl master (rq_number req)) = None)
  (Hpeer : cf_node_id (dk_cfg b) = peer)
  (Hpair : paired d b (cf_node_id (dk_cfg d)) peer)
  (Hstock : (Z.to_nat (rq_number req)
             <= stock (for_peer (dk_pool d) peer) (serve_pref (level_for d level peer)))%nat)
  (Hrng : good_rng rng b)
  (Hvalid : is_valid_id master = true /\ is_valid_id slave = true)
  (Hslave : authorize_local_sae b slave = Ok tt)
  (Hroom : pending_from (dk_pending b) (cf_node_id (dk_cfg d)) + rq_number req <= MAX_PENDING_PER_ORIGIN)
  (Htime : nowC < expiry (dk_pending b) nowB
             (peer_ttl (dk_cfg b) (Some {["ttl_seconds" := VU64 (cf_default_ttl_secs (dk_cfg d))]}))) :
  exists d' b' b'' keys tks,
    exchange text d b now nowB refilled rng resolve master slave req = (d', b', Ok keys)
    /\ zlen keys = rq_number req
    /\ Forall (fun k => zlen (sk_bytes k) * 8 = rq_size req) keys
    /\ handle_dec_keys b' nowC slave master (map sk_id keys) = (b'', Ok keys)
    /\ length tks = length keys
    /\ all_enc (for_peer (dk_pool d) peer) ≡ₚ tks ++ all_enc (for_peer (dk_pool d') peer)
    /\ sb_inner (pb_dec (for_peer (dk_pool b) (cf_node_id (dk_cfg d))))
       ≡ₚ tks ++ sb_inner (pb_dec (for_peer (dk_pool b') (cf_node_id (dk_cfg d)))).
Proof.
  pose proof (request_plan _ _ _ _ _ _ _ Hreq) as Hplan. specialize (Hadm _ Hplan).
  destruct Hreq as [_ Hnum [Hs8 Hsize] _ _ _ Hne _ _ [Hcl Hin]]. destruct Hpair as [Hlong Hnde Hndd Hsame].
  destruct Hrng as [Hlen Hinj Hfree]. destruct Hvalid as [Hvm Hvs].
  set (sz := Z.to_nat (div_ceil (rq_size req) 8)) in *.
  assert (Hsz : Z.of_nat sz * 8 = rq_size req /\ (0 < sz <= TRANSPORT_KEY_BYTES)%nat).
  { unfold sz. pose proof (size_in_bytes _ Hs8 Hsize). lia. }
  destruct (prepare_ok d now refilled rng master slave req level peer Hadm Hcl Hin Hlong) as (d' & tks & Hprep & Hlt & Hperm).
  { apply Forall_forall. intros k (i & ->)%generate_in. rewrite Hlen. lia. }
  { rewrite length_generate. exact Hstock. }
  fold sz in Hprep, Hlt. set (keys := generate_session_keys rng (rq_number req) sz) in *.
  assert (Hzk : zlen keys = rq_number req) by (unfold zlen, keys; rewrite length_generate; lia).
  assert (Htks : forall tk, tk ∈ tks -> tk ∈ all_enc (for_peer (dk_pool d) peer)).
  { intros tk Htk. rewrite Hperm. apply elem_of_app. by left. }
  assert (Hndt : NoDup (map tk_id tks)).
  { rewrite Hperm, map_app in Hnde. by apply NoDup_app in Hnde as (? & _ & _). }
  assert (Hfit : Forall2 (fun k tk => (length (sk_bytes k) <= length (tk_bytes tk))%nat
      /\ is_valid_id (tk_id tk) = true) keys tks).
  { apply zip_fits; [assumption|..].
    - apply Forall_forall. intros k (i & ->)%generate_in. rewrite Hlen. lia.
    - apply Forall_forall. intros tk Htk. unfold long_keys in Hlong. rewrite Forall_forall in Hlong.
      split; [apply Hlong, Htks, Htk|apply Hsame, Htks, Htk]. }
  assert (Hpos : Forall (fun k => (0 < length (sk_bytes k))%nat) keys).
  { apply Forall_forall. intros k (i & ->)%generate_in. rewrite Hlen. lia. }
  assert (Hndk : NoDup (map sk_id keys)) by (apply generate_nodup; intros i j; apply Hinj).
  destruct (ext_keys_loop_ok nowB (cf_node_id (dk_cfg d)) master {[ slave ]}
    (peer_ttl (dk_cfg b) (Some {["ttl_seconds" := VU64 (cf_default_ttl_secs (dk_cfg d))]})) keys tks b [])
    as (b' & Hinc & Hcfgb & _ & Hpermb & Hget & _); try assumption.
  { intros tk Htk. apply Hsame, Htks, Htk. } { intros k (i & ->)%generate_in. apply Hfree. } { lia. }
  destruct (dec_keys_loop_ok nowC slave master {[ slave ]} _ _ keys b' [] Hndk Htime ltac:(by apply elem_of_singleton) Hget) as (b'' & Hdec).
  exists d', b', b'', keys, tks. split_and!; try assumption.
  - unfold exchange. rewrite Hplan, Hprep. cbn [fold_left fst snd]. rewrite decide_True by (symmetry; exact Hpeer).
    rewrite incoming_checks by (assumption || unfold zlen in *; lia). rewrite Hinc. cbn [res_map_err app enc_finish omap list_omap snd fst]. reflexivity.
  - apply Forall_forall. intros k (i & ->)%generate_in. unfold zlen. rewrite Hlen. lia.
  - unfold handle_dec_keys. replace (authorize_local_sae b' slave) with (authorize_local_sae b slave)
      by (unfold authorize_local_sae; by rewrite Hcfgb). rewrite Hslave. exact Hdec.
Qed.

(** ** A failed preparation *)

(** Pools that answer the same buffers for every peer. *)
#[export] Instance pool_equiv : Equiv BufferPool := fun p q => forall x, for_peer p x = for_peer q x.

#[export] Instance pool_equivalence : Equivalence (≡@{BufferPool}).
Proof. split; [by intros p x|by intros p q Hpq x|intros p q r H1 H2 x; by rewrite H1]. Qed.

#[export] Instance set_peer_proper peer pb : Proper ((≡@{BufferPool}) ==> (≡)) (set_peer peer pb).
Proof. intros p q Hpq x. rewrite !for_peer_set. by case_decide. Qed.

#[export] Instance put_back_proper popped : Proper ((≡@{BufferPool}) ==> (≡)) (put_back popped).
Proof.
  intros p q Hpq. induction popped as [|[[peer g] tk] popped IH]; [done|]. cbn [put_back foldr].
  fold (put_back popped p) (put_back popped q). rewrite (IH peer). by rewrite IH.
Qed.

Lemma set_peer_same peer p : set_peer peer (for_peer p peer) p ≡ p.
Proof. intros x. rewrite for_peer_set. by case_decide; subst. Qed.

Lemma set_peer_twice peer a c p : set_peer peer a (set_peer peer c p) ≡ set_peer peer a p.
Proof. intros x. rewrite !for_peer_set. by case_decide. Qed.

Lemma put_back_peer peer ps pb p :
  put_back (map (fun gk => (peer, fst gk, snd gk)) ps) (set_peer peer pb p) ≡ set_peer peer (give_back ps pb) p.
Proof.
  induction ps as [|[g tk] ps IH]; [done|]. cbn [map put_back foldr give_back fst snd].
  fold (put_back (map (fun gk => (peer, fst gk, snd gk)) ps) (set_peer peer pb p)) (give_back ps pb).
  rewrite (IH peer), IH. rewrite for_peer_set, decide_True by done. apply set_peer_twice.
Qed.

Lemma put_back_app a c p : put_back (a ++ c) p = put_back a (put_back c p).
Proof. apply foldr_app. Qed.

Lemma build_all_back (d : Dkms SBB) master level keys remote : forall p envs popped p' envs' popped' r,
  (forall x, long_keys (for_peer p x)) ->
  Forall (fun k => (length (sk_bytes k) <= TRANSPORT_KEY_BYTES)%nat) keys ->
  build_all d master level keys remote p envs popped = (p', envs', popped', r) ->
  put_back popped' p' ≡ put_back popped p.
Proof.
  induction remote as [|[peer saes] remote IH]; intros p envs popped p' envs' popped' r Hlong Hsz; cbn [build_all].
  - by intros [= <- <- <- <-].
  - unfold build_ext_keys_envelope.
    pose proof (wrap_loop_spec peer (serve_pref (level_for d level peer)) keys (for_peer p peer) [] []
      (serve_pref_nodup _) (Hlong peer) Hsz) as Hw.
    destruct (wrap_loop _ _ _ _ _ _) as [pb' [[out ps]|e|]]; cbn [res_bind]; [| |done].
    + destruct Hw as (ps' & Hps & _ & _ & Hperm & _ & Hgb & _). cbn [app] in Hps. subst ps'. intros Hrun.
      apply IH in Hrun; [|clear Hrun|exact Hsz].
      * rewrite Hrun, put_back_app, put_back_peer, Hgb. cbn [give_back foldr]. by rewrite set_peer_same.
      * intros x. rewrite for_peer_set. case_decide as Hx; [subst x|apply Hlong].
        specialize (Hlong peer). unfold long_keys in *. rewrite Hperm in Hlong. by apply Forall_app in Hlong as [_ ?].
    + destruct Hw as (-> & _ & _). intros [= <- <- <- <-]. cbn [give_back foldr]. by rewrite set_peer_same.
Qed.

Lemma insert_local_other now master local keys id : forall s,
  id ∉ map sk_id keys -> ps_inner (insert_local now s master local keys) !! id = ps_inner s !! id.
Proof.
  intros s. unfold insert_local. case_decide; [done|]. revert s.
  induction keys as [|k keys IH]; intros s; [done|]. cbn [map fold_left]. intros [Hne Hid]%not_elem_of_cons.
  rewrite IH by done. cbn [ps_inner pending_insert]. by rewrite lookup_insert_ne.
Qed.

Lemma retract_lookup keys id : forall s,
  ps_inner (retract keys s) !! id = if decide (id ∈ map sk_id keys) then None else ps_inner s !! id.
Proof.
  unfold retract. induction keys as [|k keys IH]; intros s; cbn [map fold_left]; [done|]. rewrite IH.
  assert (Hr : ps_inner (fst (force_remove s (sk_id k))) !! id
    = if decide (id = sk_id k) then None else ps_inner s !! id).
  { unfold force_remove, remove_entry.
    destruct (ps_inner s !! sk_id k) as [e|] eqn:E; destruct (decide (id = sk_id k)) as [->|Hd]; cbn [fst ps_inner];
      [apply lookup_delete_eq|by apply lookup_delete_ne|done|done]. }
  rewrite Hr. repeat case_decide; try done; set_solver.
Qed.

(** What a plan guarantees. *)
Record plan_ok (d : Dkms SBB) (req : Etsi014KeyRequest) (pl : EncPlan) : Prop := {
  po_number : 1 <= rq_number req <= MAX_KEY_PER_REQUEST;
  po_size : 0 < pl_size_bytes pl <= Z.of_nat TRANSPORT_KEY_BYTES;
  po_remote : zlen (pl_remote pl) <= MAX_SAE_ID_COUNT;
  po_cost : pl_cost_per_peer pl = compute_cost (pl_size_bytes pl) (rq_number req) 1 (cf_token_unit_bytes (dk_cfg d))
}.

Lemma resolve_groups_length resolve saes : forall g g',
  resolve_groups resolve saes g = Ok g' -> (length g' <= length saes + length g)%nat.
Proof.
  induction saes as [|sae saes IH]; intros g g'; cbn [resolve_groups]; [intros [= <-]; cbn; lia|].
  intros (node & _ & Hr)%res_bind_ok. apply IH in Hr.
  assert (length (group_add node sae g) <= S (length g))%nat; [|cbn; lia].
  clear Hr IH. induction g as [|[n l] g IH]; [cbn; lia|]. cbn [group_add]. destruct (String.compare _ _); cbn; lia.
Qed.

Lemma plan_is_ok d resolve master slave req pl : enc_plan d resolve master slave req = Ok pl -> plan_ok d req pl.
Proof.
  unfold enc_plan. intros (_ & _ & Hp)%res_bind_ok. destruct (validate_request req) eqn:Hv; [|done].
  cbn [negb] in Hp. apply res_bind_ok in Hp as (u & Hlim & Hp). apply res_bind_ok in Hp as (g & Hg & Hp).
  destruct (_ <? _); [done|]. apply res_bind_ok in Hp as (lv & _ & Hp). destruct (existsb _ _); [done|].
  injection Hp as <-. apply resolve_groups_length in Hg. unfold validate_request in Hv. apply andb_prop in Hv as [Hn _].
  unfold check_request_limits in Hlim.
  destruct (Z.ltb_spec MAX_KEY_PER_REQUEST (rq_number req)) as [|Hnum]; [done|].
  destruct (Z.eqb_spec (rq_size req mod 8) 0) as [H8|]; [|done]. cbn [negb] in Hlim.
  destruct (Z.ltb_spec (rq_size req) MIN_KEY_SIZE_BITS) as [|Hmin]; [done|].
  destruct (Z.ltb_spec MAX_KEY_SIZE_BITS (rq_size req)) as [|Hmax]; [done|]. cbn [orb] in Hlim.
  destruct (Z.ltb_spec MAX_SAE_ID_COUNT (zlen (sort_dedup (slave :: rq_additional_saes req)))) as [|Hsae]; [done|].
  b2p. constructor; cbn [pl_size_bytes pl_remote pl_cost_per_peer]; [lia| | |done].
  - by apply size_in_bytes.
  - pose proof (length_filter (fun g0 : NodeId * list SaeId => fst g0 <> cf_node_id (dk_cfg d)) g).
    unfold zlen in *. cbn [length] in Hg. lia.
Qed.

Lemma cost_scales d req pl : plan_ok d req pl ->
  compute_cost (pl_size_bytes pl) (rq_number req) (zlen (pl_remote pl)) (cf_token_unit_bytes (dk_cfg d))
  = pl_cost_per_peer pl * Z.max (zlen (pl_remote pl)) 1 /\ 0 <= pl_cost_per_peer pl.
Proof.
  intros [Hn Hs Hr ->]. unfold compute_cost, sat_mul, u_max.
  assert (0 <= div_ceil (pl_size_bytes pl) (Z.max (cf_token_unit_bytes (dk_cfg d)) 1) <= 32).
  { pose proof (div_ceil_spec (pl_size_bytes pl) (Z.max (cf_token_unit_bytes (dk_cfg d)) 1)).
    unfold TRANSPORT_KEY_BYTES in Hs. nia. }
  unfold MAX_KEY_PER_REQUEST, MAX_SAE_ID_COUNT in *. set (c := div_ceil _ _) in *.
  pose proof (zlen_nonneg (pl_remote pl)). set (m := Z.max (zlen (pl_remote pl)) 1).
  assert (1 <= m <= 16) by lia. assert (0 <= c * rq_number req <= 2048) by nia.
  assert (0 <= c * rq_number req * m <= 32768) by nia.
  replace (Z.max 1 1) with 1 by done. rewrite !Z.min_l by lia. lia.
Qed.

Definition bucket_of (s : SaeBuckets) (now : Z) (sae : SaeId) : Bucket :=
  default (bucket_new now (default_capacity s) (default_refill s)) (sb_map s !! sae).

Lemma try_consume_bucket s now refilled sae n :
  exists s', try_consume s now refilled sae n = (s', snd (bucket_try_consume (bucket_of s now sae) now refilled n))
    /\ sb_map s' !! sae = Some (fst (bucket_try_consume (bucket_of s now sae) now refilled n)).
Proof.
  unfold try_consume, ensure, bucket_of. destruct (sb_map s !! sae) as [b|] eqn:E; cbn [default from_option id].
  - rewrite E. change (id b) with b. destruct (bucket_try_consume b now refilled n). eexists. split; [reflexivity|apply lookup_insert_eq].
  - cbn [sb_map]. rewrite lookup_insert_eq. cbn [from_option id].
    destruct (bucket_try_consume (bucket_new now (default_capacity s) (default_refill s)) now refilled n).
    eexists. split; [reflexivity|apply lookup_insert_eq].
Qed.

(** The tokens of a legacy bucket that a failed preparation leaves. *)
Lemma legacy_refunded (d d1 : Dkms SBB) req now refilled pl master s b r :
  plan_ok d req pl -> dk_adm d = Legacy s -> wf_bucket (bucket_of s now master) ->
  charge d now refilled pl master (rq_number req) = (d1, r) -> dk_adm d1 = Legacy b ->
  match r with
  | Some _ => sb_map b !! master = Some (refill_inplace (bucket_of s now master) now refilled)
  | None => sb_map (refund b master (pl_cost_per_peer pl * Z.max (zlen (map fst (pl_remote pl))) 1)) !! master
            = Some (refill_inplace (bucket_of s now master) now refilled)
  end.
Proof.
  intros Hpl Hs Hwf. destruct (cost_scales d req pl Hpl) as [Hcost Hpos]. unfold charge. rewrite Hs.
  replace (zlen (map fst (pl_remote pl))) with (zlen (pl_remote pl)) by (unfold zlen; by rewrite length_map).
  rewrite Hcost. set (n := pl_cost_per_peer pl * Z.max (zlen (pl_remote pl)) 1) in *.
  destruct (try_consume_bucket s now refilled master n) as (s' & -> & Hm). intros [= <- <-].
  cbn [dk_adm with_adm]. intros [= <-]. destruct (bucket_try_consume _ _ _ _) as [b' [av|]] eqn:Eb; cbn [fst snd] in *.
  - rewrite Hm. unfold bucket_try_consume in Eb. destruct (_ <=? _); [done|]. by injection Eb as <- _.
  - apply consume_refund in Eb; [|done|unfold n; nia]. unfold refund. rewrite Hm. cbn [sb_map].
    by rewrite lookup_insert_eq, Eb.
Qed.

Lemma refund_frame (d : Dkms SBB) pl master peers :
  dk_pool (refund_peers d pl master peers) = dk_pool d
  /\ dk_pending (refund_peers d pl master peers) = dk_pending d.
Proof. unfold refund_peers. by destruct (dk_adm d). Qed.

(** C37: a request that cannot be sent spends nothing.  When the preparation of a
    request that passed its checks fails (rate limit, a destination out of keys, a
    destination that is not a peer), no envelope has left, and the node is as
    before: every peer has the same transport keys in the same order, also those
    already taken for other destinations; no session key is left in the pending
    store; and the master's bucket holds what the refill alone left in it. *)
Theorem failed_preparation_spends_nothing (d d' : Dkms SBB) (now refilled : Z)
  (rng : nat -> nat -> SessionKey) (resolve : SaeId -> res DkmsError NodeId) (master slave : SaeId)
  (req : Etsi014KeyRequest) (pl : EncPlan) (e : DkmsError)
  (Hplan : enc_plan d resolve master slave req = Ok pl)
  (Hlong : forall x, long_keys (for_peer (dk_pool d) x)) (Hrng : good_rng rng d)
  (Hprep : enc_prepare d now refilled rng master req pl = (d', Err e)) :
  dk_pool d' ≡ dk_pool d
  /\ ps_inner (dk_pending d') = ps_inner (dk_pending d)
  /\ (forall s, dk_adm d = Legacy s -> wf_bucket (bucket_of s now master) ->
       exists s', dk_adm d' = Legacy s'
         /\ sb_map s' !! master = Some (refill_inplace (bucket_of s now master) now refilled)).
Proof.
  apply plan_is_ok in Hplan as Hpl. destruct Hrng as [Hlen _ Hfree]. unfold enc_prepare in Hprep.
  set (d0 := with_demand _ d) in *.
  assert (Hch : exists a r, charge d0 now refilled pl master (rq_number req) = (with_adm a d0, r)).
  { destruct (charge_frame d (dk_demand d ++ map (fun p => (p, pl_cost_per_peer pl)) (map fst (pl_remote pl)))
      now refilled pl master (rq_number req)) as (a & Ha). by eexists a, _. }
  destruct Hch as (a & r & Hch). rewrite Hch in Hprep.
  assert (Hleg : forall s, dk_adm d = Legacy s -> exists b, a = Legacy b).
  { intros s Hs. unfold charge in Hch. change (dk_adm d0) with (dk_adm d) in Hch. rewrite Hs in Hch.
    destruct (try_consume _ _ _ _ _) as [b ?]. exists b. by injection Hch. }
  assert (Hmoney : forall s b, dk_adm d = Legacy s -> a = Legacy b -> wf_bucket (bucket_of s now master) ->
    _) by (intros s b Hs -> Hwf; exact (legacy_refunded d0 _ req now refilled pl master s b r
      ltac:(by destruct Hpl) Hs Hwf Hch eq_refl)).
  destruct r as [err|].
  - injection Hprep as <- <-. split_and!; [done|done|]. intros s Hs Hwf. destruct (Hleg s Hs) as [b ->].
    exists b. split; [done|]. exact (Hmoney s b Hs eq_refl Hwf).
  - set (keys := generate_session_keys _ _ _) in *. set (d1 := with_pending _ (with_adm a d0)) in *.
    destruct (build_all d1 master (pl_level pl) keys (pl_remote pl) (dk_pool d1) [] []) as [[[p envs] popped] err] eqn:Eb.
    apply build_all_back in Eb; [|exact Hlong|].
    2:{ apply Forall_forall. intros k (i & ->)%generate_in. rewrite Hlen. destruct Hpl as [_ Hs _ _]. lia. }
    destruct (match err with Some e0 => Some e0 | None => send_err d1 envs end) as [err'|]; [|done].
    injection Hprep as <- _. split_and!.
    + cbn [dk_pool with_pending]. rewrite (proj1 (refund_frame _ pl master _)). exact Eb.
    + apply map_eq. intros id. cbn [dk_pending with_pending ps_inner].
      rewrite (proj2 (refund_frame _ pl master _)), retract_lookup. case_decide as Hid.
      * apply list_elem_of_fmap in Hid as (k & -> & Hk). apply generate_in in Hk as (i & ->). by rewrite Hfree.
      * exact (insert_local_other now master (pl_local pl) keys id (dk_pending d) Hid).
    + intros s Hs Hwf. destruct (Hleg s Hs) as [b ->]. eexists. split; [reflexivity|].
      exact (Hmoney s b Hs eq_refl Hwf).
Qed.

(** A key the peer could not verify is still handed to the master.  When the two
    ends hold different bytes under the id of the transport key, the receiver sees
    it by the digest, stores nothing and leaves the id out of its acknowledgement;
    but the sender does not read the acknowledgement: the master gets its key, and
    the slave is told that no such key exists. *)
Theorem unverified_key_returned_to_master (text : DkmsError -> string) (d b : Dkms SBB) (now nowB nowC refilled : Z)
  (rng : nat -> nat -> SessionKey) (resolve : SaeId -> res DkmsError NodeId) (master slave : SaeId)
  (req : Etsi014KeyRequest) (level : option SecurityLevel) (peer : NodeId) (k : SessionKey)
  (Hreq : request_ok d resolve master slave req level peer)
  (Hadm : forall pl, enc_plan d resolve master slave req = Ok pl ->
            snd (charge d now refilled pl master (rq_number req)) = None)
  (Hone : rq_number req = 1) (Hk : k = rng 0%nat (Z.to_nat (div_ceil (rq_size req) 8)))
  (Hpeer : cf_node_id (dk_cfg b) = peer)
  (Hlong : long_keys (for_peer (dk_pool d) peer))
  (Hstock : (1 <= stock (for_peer (dk_pool d) peer) (serve_pref (level_for d level peer)))%nat)
  (Hdiverged : forall tk, tk ∈ all_enc (for_peer (dk_pool d) peer) -> is_valid_id (tk_id tk) = true
     /\ exists b' tk', take_by_id (pb_dec (for_peer (dk_pool b) (cf_node_id (dk_cfg d)))) (tk_id tk) = (b', Some tk')
       /\ (TRANSPORT_KEY_BYTES <= length (tk_bytes tk'))%nat
       /\ key_digest (sk_id k) (xor_bytes (xor_bytes (sk_bytes k) (tk_bytes tk)) (tk_bytes tk'))
          <> key_digest (sk_id k) (sk_bytes k))
  (Hrng : good_rng rng b)
  (Hvalid : is_valid_id master = true /\ is_valid_id slave = true)
  (Hslave : authorize_local_sae b slave = Ok tt) :
  exists d' b' b'',
    exchange text d b now nowB refilled rng resolve master slave req = (d', b', Ok [k])
    /\ handle_dec_keys b' nowC slave master [sk_id k] = (b'', Err (PendingTake (KeyNotAuthorized slave))).
Proof.
  pose proof (request_plan _ _ _ _ _ _ _ Hreq) as Hplan. specialize (Hadm _ Hplan).
  destruct Hreq as [_ _ [Hs8 Hsize] _ _ _ Hne _ _ [Hcl Hin]]. destruct Hrng as [Hlen _ Hfree]. destruct Hvalid as [Hvm Hvs].
  set (sz := Z.to_nat (div_ceil (rq_size req) 8)) in *.
  assert (Hsz : (0 < sz <= TRANSPORT_KEY_BYTES)%nat) by (unfold sz; pose proof (size_in_bytes _ Hs8 Hsize); lia).
  assert (Hkeys : generate_session_keys rng (rq_number req) sz = [k]) by (rewrite Hone, Hk; reflexivity).
  assert (Hkl : length (sk_bytes k) = sz) by (rewrite Hk; apply Hlen).
  destruct (prepare_ok d now refilled rng master slave req level peer Hadm Hcl Hin Hlong) as (d' & tks & Hprep & Hlt & Hperm).
  { fold sz. rewrite Hkeys. apply Forall_cons_2; [lia|apply Forall_nil_2]. }
  { fold sz. rewrite Hkeys. exact Hstock. }
  fold sz in Hprep, Hlt. rewrite Hkeys in Hprep, Hlt. destruct tks as [|tk [|? ?]]; try discriminate Hlt.
  assert (Htk : tk ∈ all_enc (for_peer (dk_pool d) peer)) by (rewrite Hperm; apply elem_of_cons; by left).
  destruct (Hdiverged tk Htk) as (Htv & bb & tk' & Htake & Htl & Hdig).
  assert (Htkl : (TRANSPORT_KEY_BYTES <= length (tk_bytes tk))%nat).
  { unfold long_keys in Hlong. rewrite Forall_forall in Hlong. by apply Hlong. }
  eexists d', _, _. split.
  - unfold exchange. rewrite Hplan, Hprep. cbn [fold_left fst snd]. rewrite decide_True by (symmetry; exact Hpeer).
    rewrite (incoming_checks b nowB (cf_node_id (dk_cfg d)) master slave _ _ [k] [tk]);
      [|repeat constructor; [lia|exact Htv]|apply Forall_cons_2; [lia|apply Forall_nil_2]|reflexivity|cbn; lia
       |vm_compute; discriminate|assumption..].
    cbn [zip_with ext_keys_loop]. rewrite (proj1 (envelope_ids k tk)), Htv. cbn [negb]. rewrite Htake.
    unfold unwrap_session_key. cbn [ek_value envelope_key].
    destruct (Nat.ltb_spec (length (tk_bytes tk')) (length (xor_bytes (sk_bytes k) (tk_bytes tk)))) as [Hlt'|_];
      [rewrite length_xor_bytes in Hlt'; lia|].
    assert (Hbad : digest_ok (envelope_key k tk) (xor_bytes (xor_bytes (sk_bytes k) (tk_bytes tk)) (tk_bytes tk')) = false).
    { unfold digest_ok, ext_str, envelope_key. cbn [ek_extension mbind option_bind ek_id].
      rewrite lookup_insert_ne by done. rewrite lookup_singleton_eq. cbn. by apply bool_decide_eq_false. }
    rewrite Hbad. cbn [res_map_err app enc_finish omap list_omap snd fst]. reflexivity.
  - unfold handle_dec_keys, authorize_local_sae in *. cbn [dk_cfg with_corrupt with_pool]. rewrite Hslave.
    cbn [dec_keys_loop]. unfold take_for_sae_of_master. cbn [dk_pending with_corrupt with_pool].
    rewrite Hk, Hfree. reflexivity.
Qed.

End Exchange.

(** ** Concrete nodes *)

#[export] Instance open_admission : PeerBuckets unit :=
  {| try_admit_many s _ _ _ _ _ := (s, None); refund_many s _ _ _ := s |}.

(** A digest that looks at the first byte only. *)
#[export] Instance first_byte_digest : KeyDigest :=
  fun id b => (id +:+ String.String (Ascii.ascii_of_N (Z.to_N (nth 0 b 0))) String.EmptyString)%string.

Fixpoint xs (n : nat) : string := match n with O => "k" | S n => String.String (Ascii.ascii_of_N 120) (xs n) end.

Lemma xs_inj i j : xs i = xs j -> i = j.
Proof.
  revert j. induction i as [|i IH]; intros [|j] He; cbn in He; try done.
  - injection He as He. f_equal. by apply IH.
Qed.

Definition sample_rng (i n : nat) : SessionKey := mkSk (xs i) (replicate n (Z.of_nat i + 1)).
Definition sample_tk (id : string) (v : Z) : TransportKey := mkTk id (replicate 32 v).
Definition sample_cfg (me sae : string) : DkmsConfig :=
  mkCfg me {[ sae := me ]} true 4 32 300 QkdPrefer ∅.
Definition sample_node (me sae peer : string) (e dd : list TransportKey) : Dkms unit :=
  mkDkms (sample_cfg me sae) (mkPool 8 {[ peer := mkPb (mkBuf 8 e) (mkBuf 8 []) (mkBuf 8 dd) ]})
    (pending_new 300) (Legacy (buckets_new 100 400)) {[ peer ]} true (fun _ => None) None [] [].

Definition stockAB : list TransportKey := [sample_tk "t1" 7; sample_tk "t2" 9].
Definition node_a : Dkms unit := sample_node "dkms-A" "alice" "dkms-B" stockAB [].
Definition node_b : Dkms unit := sample_node "dkms-B" "bob" "dkms-A" [] stockAB.
Definition to_b (sae : SaeId) : res DkmsError NodeId := Ok "dkms-B"%string.
Definition ask (n : Z) : Etsi014KeyRequest := mkReq n 256 [] None None.

Lemma sample_rng_good d : dk_pending d = pending_new 300 -> good_rng sample_rng (d : Dkms unit).
Proof.
  intros Hp. constructor.
  - intros i n. apply length_replicate.
  - intros n i j. apply xs_inj.
  - intros i n. rewrite Hp. apply lookup_empty.
Qed.

Lemma sample_request n : 1 <= n <= 64 -> request_ok node_a to_b "alice" "bob" (ask n) None "dkms-B".
Proof.
  intros Hn. constructor; try (vm_compute; reflexivity); try done.
  all: try (vm_compute; intuition discriminate).
Qed.

Lemma sample_long x : long_keys (for_peer (dk_pool node_a) x).
Proof.
  unfold for_peer. cbn [node_a sample_node dk_pool bp_peers capacity_per_peer].
  destruct (decide (x = "dkms-B"%string)) as [->|Hne].
  - rewrite lookup_singleton_eq. repeat apply Forall_cons_2; try apply Forall_nil_2; vm_compute; lia.
  - rewrite lookup_singleton_ne by done. apply Forall_nil_2.
Qed.

Lemma session_key_delivered_witness :
  exists d' b' b'' keys tks,
    exchange (fun _ => ""%string) node_a node_b 0 0 0 sample_rng to_b "alice" "bob" (ask 2) = (d', b', Ok keys)
    /\ zlen keys = 2 /\ Forall (fun k => zlen (sk_bytes k) * 8 = 256) keys
    /\ handle_dec_keys b' 5 "bob" "alice" (map sk_id keys) = (b'', Ok keys)
    /\ length tks = length keys
    /\ all_enc (for_peer (dk_pool node_a) "dkms-B") ≡ₚ tks ++ all_enc (for_peer (dk_pool d') "dkms-B")
    /\ sb_inner (pb_dec (for_peer (dk_pool node_b) "dkms-A")) ≡ₚ tks ++ sb_inner (pb_dec (for_peer (dk_pool b') "dkms-A")).
Proof.
  apply (session_key_delivered (fun _ => ""%string) node_a node_b 0 0 5 0 sample_rng to_b "alice" "bob" (ask 2) None "dkms-B").
  - apply sample_request. lia.
  - intros pl Hpl. assert (He : enc_plan node_a to_b "alice" "bob" (ask 2) = enc_plan node_a to_b "alice" "bob" (ask 2))
      by reflexivity. rewrite Hpl in He at 1. vm_compute in He. injection He as ->. vm_compute. reflexivity.
  - reflexivity.
  - constructor.
    + apply sample_long.
    + apply (bool_decide_unpack _). vm_compute. exact I.
    + apply (bool_decide_unpack _). vm_compute. exact I.
    + change (all_enc (for_peer (dk_pool node_a) "dkms-B")) with stockAB.
      change (sb_inner (pb_dec (for_peer (dk_pool node_b) (cf_node_id (dk_cfg node_a))))) with stockAB.
      intros k Hk. split; [exact Hk|].
      apply elem_of_cons in Hk as [->|[->|[]%not_elem_of_nil]%elem_of_cons]; reflexivity.
  - vm_compute. lia.
  - apply sample_rng_good. reflexivity.
  - split; reflexivity.
  - vm_compute. reflexivity.
  - vm_compute. discriminate.
  - vm_compute. reflexivity.
Defined.

Definition plan3 : EncPlan := mkPlan ∅ [("dkms-B", ["bob"])]%string None 32 3.
Definition failed3 : Dkms unit := fst (enc_prepare node_a 0 0 sample_rng "alice" (ask 3) plan3).

Lemma failed_preparation_spends_nothing_witness :
  snd (enc_prepare node_a 0 0 sample_rng "alice" (ask 3) plan3) = Err (TransportBufferEmpty "dkms-B")
  /\ dk_pool failed3 ≡ dk_pool node_a /\ ps_inner (dk_pending failed3) = ps_inner (dk_pending node_a).
Proof.
  assert (He : snd (enc_prepare node_a 0 0 sample_rng "alice" (ask 3) plan3) = Err (TransportBufferEmpty "dkms-B"))
    by (vm_compute; reflexivity).
  split; [exact He|].
  destruct (failed_preparation_spends_nothing node_a failed3 0 0 sample_rng to_b "alice" "bob" (ask 3) plan3
    (TransportBufferEmpty "dkms-B")) as (H1 & H2 & _).
  - vm_compute. reflexivity.
  - apply sample_long.
  - apply sample_rng_good. reflexivity.
  - unfold failed3. rewrite <- He. apply surjective_pairing.
  - exact (conj H1 H2).
Defined.

Definition diverged_b : Dkms unit := sample_node "dkms-B" "bob" "dkms-A" [] [sample_tk "t1" 1; sample_tk "t2" 2].

Lemma unverified_key_returned_to_master_witness :
  exists d' b' b'',
    exchange (fun _ => ""%string) node_a diverged_b 0 0 0 sample_rng to_b "alice" "bob" (ask 1)
      = (d', b', Ok [sample_rng 0 32])
    /\ handle_dec_keys b' 5 "bob" "alice" [sk_id (sample_rng 0 32)] = (b'', Err (PendingTake (KeyNotAuthorized "bob"))).
Proof.
  apply (unverified_key_returned_to_master (fun _ => ""%string) node_a diverged_b 0 0 5 0 sample_rng to_b "alice" "bob"
    (ask 1) None "dkms-B" (sample_rng 0 32)).
  - apply sample_request. lia.
  - intros pl Hpl. assert (He : enc_plan node_a to_b "alice" "bob" (ask 1) = enc_plan node_a to_b "alice" "bob" (ask 1))
      by reflexivity. rewrite Hpl in He at 1. vm_compute in He. injection He as ->. vm_compute. reflexivity.
  - reflexivity.
  - reflexivity.
  - reflexivity.
  - apply sample_long.
  - vm_compute. lia.
  - change (all_enc (for_peer (dk_pool node_a) "dkms-B")) with stockAB.
    intros tk Hk. apply elem_of_cons in Hk as [->|[->|[]%not_elem_of_nil]%elem_of_cons];
      (split; [reflexivity|]; eexists _, _; split; [vm_compute; reflexivity|split; [vm_compute; lia|vm_compute; discriminate]]).
  - apply sample_rng_good. reflexivity.
  - split; reflexivity.
  - vm_compute. reflexivity.
Defined.
