(* ===== verification/Text.v ===== *)
(** * Strings and numbers as text

    What the source uses of Rust's standard library to write numbers into headers
    and read them back: [as_bytes], [to_string], [format!("{:016x}")],
    [str::parse] and [from_str_radix] on unsigned integers; and the interface to
    the crates [hex] and [base64].

    A [String] is a Rocq string, one [ascii] per byte.  [parse] follows
    [core::num]: an optional plus sign, digits of the radix in either case, the
    empty string and a value out of range refused.  The theorems: what is written
    is read back, at every width and in both radices. *)

From Stdlib Require Import ZArith Lia String Ascii.
From S2P Require Import Prelude.

Definition byte_of (c : ascii) : Z := Z.of_N (N_of_ascii c).
Definition char_of (b : Z) : ascii := ascii_of_N (Z.to_N b).
Definition as_bytes (s : string) : bytes := map byte_of (list_ascii_of_string s).
Definition of_bytes (l : bytes) : string := string_of_list_ascii (map char_of l).

(** ** Printing *)

(** The digits of [z], most significant first. *)
Fixpoint digits (fuel : nat) (radix z : Z) (acc : list Z) : list Z :=
  match fuel with
  | O => acc
  | S fuel => if z <? radix then z :: acc else digits fuel radix (z / radix) (z mod radix :: acc)
  end.

(** The code of a digit: '0'..'9', then 'a'.. *)
Definition digit_byte (d : Z) : Z := if d <? 10 then 48 + d else 87 + d.

Definition radix_digits (radix z : Z) : list Z := digits (S (Z.to_nat (Z.log2 z))) radix z [].

Definition to_string (z : Z) : string := of_bytes (map digit_byte (radix_digits 10 z)).

(** [format!("{:016x}", z)]. *)
Definition hex16 (z : Z) : string :=
  let ds := radix_digits 16 z in
  of_bytes (map digit_byte (replicate (16 - length ds) 0 ++ ds)).

(** ** Parsing *)

Definition to_digit (radix c : Z) : option Z :=
  let d := if (48 <=? c) && (c <=? 57) then c - 48
           else if (97 <=? c) && (c <=? 122) then c - 87
           else if (65 <=? c) && (c <=? 90) then c - 55 else radix in
  if d <? radix then Some d else None.

Fixpoint parse_digits (w radix acc : Z) (l : bytes) : option Z :=
  match l with
  | [] => Some acc
  | c :: l =>
      d ← to_digit radix c;
      let v := acc * radix + d in
      if v <? 2 ^ w then parse_digits w radix v l else None
  end.

(** [uW::from_str_radix]: [None] is any [ParseIntError]. *)
Definition from_str_radix (w radix : Z) (s : string) : option Z :=
  match as_bytes s with
  | [] => None
  | c :: l => if c =? 43 then (match l with [] => None | _ => parse_digits w radix 0 l end)
              else parse_digits w radix 0 (c :: l)
  end.

(** [s.parse::<uW>()]. *)
Definition parse_u (w : Z) (s : string) : option Z := from_str_radix w 10 s.

(** ** Lemmas: bytes of a string *)

Lemma byte_of_char b : is_u8 b -> byte_of (char_of b) = b.
Proof.
  unfold is_u8, byte_of, char_of. intros H. rewrite N_ascii_embedding by lia. lia.
Qed.

Lemma byte_of_range c : is_u8 (byte_of c).
Proof. unfold is_u8, byte_of. pose proof (N_ascii_bounded c). lia. Qed.

Lemma char_of_byte c : char_of (byte_of c) = c.
Proof. unfold char_of, byte_of. rewrite N2Z.id. apply ascii_N_embedding. Qed.

Lemma as_bytes_of_bytes l : wf_bytes l -> as_bytes (of_bytes l) = l.
Proof.
  unfold as_bytes, of_bytes. rewrite list_ascii_of_string_of_list_ascii, map_map.
  induction 1; simpl; [done|]. rewrite byte_of_char by done. congruence.
Qed.

Lemma of_bytes_as_bytes s : of_bytes (as_bytes s) = s.
Proof.
  unfold as_bytes, of_bytes. rewrite map_map.
  transitivity (string_of_list_ascii (list_ascii_of_string s)); [|apply string_of_list_ascii_of_string].
  f_equal. induction (list_ascii_of_string s); simpl; [done|]. rewrite char_of_byte. congruence.
Qed.

Lemma as_bytes_inj s t : as_bytes s = as_bytes t -> s = t.
Proof. intros H. rewrite <- (of_bytes_as_bytes s), <- (of_bytes_as_bytes t). congruence. Qed.

Lemma as_bytes_wf s : wf_bytes (as_bytes s).
Proof.
  unfold as_bytes, wf_bytes. apply Forall_forall. intros x [c [-> _]]%list_elem_of_fmap.
  apply byte_of_range.
Qed.

(** ** Lemmas: digits *)

Definition radix_ok (r : Z) : Prop := 2 <= r <= 36.

Definition value (r : Z) (acc : Z) (ds : list Z) : Z := fold_left (fun a d => a * r + d) ds acc.

Lemma value_app r acc l1 l2 : value r acc (l1 ++ l2) = value r (value r acc l1) l2.
Proof. apply fold_left_app. Qed.

Lemma digits_spec r fuel : radix_ok r -> forall z acc,
  0 <= z -> z < r ^ Z.of_nat fuel -> (0 < fuel)%nat ->
  value r 0 (digits fuel r z acc) = value r z acc
  /\ (Forall (fun d => 0 <= d < r) acc -> Forall (fun d => 0 <= d < r) (digits fuel r z acc))
  /\ digits fuel r z acc <> [].
Proof.
  intros Hr. unfold radix_ok in Hr. induction fuel as [|fuel IH]; intros z acc Hz Hlt Hf; [lia|].
  cbn [digits]. destruct (Z.ltb_spec z r).
  - split_and!; [done| |done]. intros. constructor; [lia|done].
  - rewrite Nat2Z.inj_succ, Z.pow_succ_r in Hlt by lia.
    pose proof (Z.mod_pos_bound z r ltac:(lia)).
    destruct (Nat.eq_dec fuel 0%nat) as [->|Hf0]; [simpl in Hlt; lia|].
    destruct (IH (z / r) (z mod r :: acc)) as (IH1 & IH2 & IH3);
      [apply Z.div_pos; lia|apply Z.div_lt_upper_bound; lia|lia|].
    split_and!; [|intros; apply IH2; by constructor|done].
    rewrite IH1. unfold value. cbn [fold_left]. f_equal.
    pose proof (Z.div_mod z r ltac:(lia)). lia.
Qed.

Lemma radix_fuel r z : radix_ok r -> 0 <= z -> z < r ^ Z.of_nat (S (Z.to_nat (Z.log2 z))).
Proof.
  unfold radix_ok. intros Hr Hz. rewrite Nat2Z.inj_succ, Z2Nat.id by apply Z.log2_nonneg.
  destruct (Z.eq_dec z 0) as [->|]; [simpl; lia|].
  pose proof (Z.log2_spec z ltac:(lia)). pose proof (Z.log2_nonneg z).
  apply Z.lt_le_trans with (2 ^ Z.succ (Z.log2 z)); [lia|]. apply Z.pow_le_mono_l. lia.
Qed.

Lemma radix_digits_spec r z : radix_ok r -> 0 <= z ->
  value r 0 (radix_digits r z) = z /\ Forall (fun d => 0 <= d < r) (radix_digits r z)
  /\ radix_digits r z <> [].
Proof.
  intros Hr Hz. unfold radix_digits.
  destruct (digits_spec r (S (Z.to_nat (Z.log2 z))) Hr z [] Hz (radix_fuel r z Hr Hz) ltac:(lia))
    as (H1 & H2 & H3).
  split_and!; [exact H1|by apply H2|done].
Qed.

Lemma digit_byte_range d : 0 <= d < 36 -> is_u8 (digit_byte d) /\ digit_byte d <> 43.
Proof. unfold digit_byte, is_u8. intros. destruct (Z.ltb_spec d 10); lia. Qed.

Lemma to_digit_byte r d : radix_ok r -> 0 <= d < r -> to_digit r (digit_byte d) = Some d.
Proof.
  unfold radix_ok, to_digit, digit_byte. intros Hr Hd. destruct (Z.ltb_spec d 10).
  - rewrite (proj2 (Z.leb_le 48 _)), (proj2 (Z.leb_le _ 57)) by lia. cbn [andb].
    replace (48 + d - 48) with d by lia. rewrite (proj2 (Z.ltb_lt d r)) by lia. done.
  - rewrite (proj2 (Z.leb_gt (87 + d) 57)), (proj2 (Z.leb_le 97 _)), (proj2 (Z.leb_le _ 122)) by lia.
    rewrite andb_false_r. cbn [andb].
    replace (87 + d - 87) with d by lia. rewrite (proj2 (Z.ltb_lt d r)) by lia. done.
Qed.

Lemma value_ge r acc ds : 1 <= r -> 0 <= acc -> Forall (fun d => 0 <= d < r) ds -> acc <= value r acc ds.
Proof.
  intros Hr Hacc Hds. revert acc Hacc. induction Hds as [|d ds Hd Hds IH]; intros acc Hacc; unfold value; cbn [fold_left]; [lia|].
  etransitivity; [|apply IH; nia]. nia.
Qed.

Lemma parse_digits_value w r ds : radix_ok r -> forall acc,
  0 <= acc -> Forall (fun d => 0 <= d < r) ds -> value r acc ds < 2 ^ w ->
  parse_digits w r acc (map digit_byte ds) = Some (value r acc ds).
Proof.
  intros Hr acc Hacc Hds. revert acc Hacc.
  induction Hds as [|d ds Hd Hds IH]; intros acc Hacc Hlt; [done|].
  cbn [map parse_digits]. rewrite to_digit_byte by done. cbn [mbind option_bind].
  unfold value in Hlt. cbn [fold_left] in Hlt. fold (value r (acc * r + d) ds) in Hlt.
  assert (0 <= acc * r + d) by (unfold radix_ok in Hr; nia).
  pose proof (value_ge r (acc * r + d) ds ltac:(unfold radix_ok in Hr; lia) ltac:(lia) Hds).
  rewrite (proj2 (Z.ltb_lt (acc * r + d) (2 ^ w))) by lia. rewrite IH by done. done.
Qed.

(** Reading what was written, leading zeros included. *)
Lemma from_str_radix_digits w r ds :
  radix_ok r -> Forall (fun d => 0 <= d < r) ds -> ds <> [] -> value r 0 ds < 2 ^ w ->
  from_str_radix w r (of_bytes (map digit_byte ds)) = Some (value r 0 ds).
Proof.
  intros Hr Hds Hne Hlt. unfold from_str_radix.
  assert (Hb : Forall (fun d => is_u8 (digit_byte d) /\ digit_byte d <> 43) ds).
  { eapply Forall_impl; [exact Hds|]. intros d Hd. apply digit_byte_range. unfold radix_ok in Hr. cbn in Hd. lia. }
  rewrite as_bytes_of_bytes by (unfold wf_bytes; rewrite Forall_fmap; eapply Forall_impl; [exact Hb|intros ? []; done]).
  destruct ds as [|d ds]; [done|]. cbn [map].
  apply Forall_cons in Hb as [[_ Hb] _]. rewrite (proj2 (Z.eqb_neq _ _) Hb).
  by apply (parse_digits_value w r (d :: ds)).
Qed.

Lemma parse_to_string w z : is_u w z -> parse_u w (to_string z) = Some z.
Proof.
  unfold is_u, parse_u, to_string. intros Hz.
  destruct (radix_digits_spec 10 z) as (Hv & Hf & Hne); [unfold radix_ok; lia|lia|].
  rewrite from_str_radix_digits; [by rewrite Hv|unfold radix_ok; lia|done|done|lia].
Qed.

Lemma value_zeros r n ds : value r 0 (replicate n 0 ++ ds) = value r 0 ds.
Proof. rewrite value_app. f_equal. induction n; [done|]. exact IHn. Qed.

Lemma parse_hex16 w z : is_u w z -> from_str_radix w 16 (hex16 z) = Some z.
Proof.
  unfold is_u, hex16. intros Hz.
  destruct (radix_digits_spec 16 z) as (Hv & Hf & Hne); [unfold radix_ok; lia|lia|].
  rewrite from_str_radix_digits; rewrite ?value_zeros; [by rewrite Hv|unfold radix_ok; lia| | |lia].
  - apply Forall_app. split; [apply Forall_replicate; lia|done].
  - destruct (replicate _ _); [done|discriminate].
Qed.

(** ** The crates [hex] and [base64] *)

Class TextCodecs := {
  hex_encode : bytes -> string;
  hex_decode : string -> option bytes;
  b64_encode : bytes -> string;
  b64_decode : string -> option bytes;
  hex_roundtrip : forall b, wf_bytes b -> hex_decode (hex_encode b) = Some b;
  b64_roundtrip : forall b, wf_bytes b -> b64_decode (b64_encode b) = Some b;
}.

(** An executable instance: one character per byte. *)
#[export] Instance raw_codecs : TextCodecs.
Proof.
  refine {| hex_encode := of_bytes; hex_decode s := Some (as_bytes s);
            b64_encode := of_bytes; b64_decode s := Some (as_bytes s) |};
    intros b Hb; by rewrite as_bytes_of_bytes.
Defined.
