(* ===== verification/Primitives.v ===== *)
(** * The cryptographic wrappers of [common] (crypto/aead.rs, crypto/pqc.rs)

    The two wrappers check lengths and convert errors; the algorithms are the
    crates [aes-gcm] and [ml-kem], given here as the classes [AesGcm] and [MlKem]
    with their documented laws: decryption undoes encryption, decapsulation gives
    the encapsulated secret, every output has the length of FIPS 203.

    Randomness ([OsRng]) is an argument: a seed of the call that draws it. *)

From Stdlib Require Import ZArith Lia.
From S2P Require Import Prelude.

(** ** AES-256-GCM *)

Definition KEY_LEN : Z := 32.
Definition NONCE_LEN : Z := 12.
Definition GCM_TAG_LEN : Z := 16.

Inductive AeadError := BadKeyLen (n : Z) | BadNonceLen (n : Z) | EncryptFailed | DecryptFailed.

Class AesGcm := {
  (** [encrypt_in_place_detached key nonce aad buf]: ciphertext and tag. *)
  gcm_encrypt : bytes -> bytes -> bytes -> bytes -> option (bytes * bytes);
  (** [decrypt_in_place_detached key nonce aad buf tag]. *)
  gcm_decrypt : bytes -> bytes -> bytes -> bytes -> bytes -> option bytes;
  gcm_encrypts : forall k n a p, zlen p < 2 ^ 36 -> is_Some (gcm_encrypt k n a p);
  gcm_lengths : forall k n a p c t, gcm_encrypt k n a p = Some (c, t) -> zlen c = zlen p /\ zlen t = GCM_TAG_LEN;
  gcm_wf : forall k n a p c t, wf_bytes p -> gcm_encrypt k n a p = Some (c, t) -> wf_bytes c /\ wf_bytes t;
  gcm_inverse : forall k n a p c t, gcm_encrypt k n a p = Some (c, t) -> gcm_decrypt k n a c t = Some p;
}.

Section Aead.
Context `{AesGcm}.

Definition seal_detached (key nonce plaintext aad : bytes) : res AeadError (bytes * bytes) :=
  if negb (zlen key =? KEY_LEN) then Err (BadKeyLen (zlen key)) else
  match gcm_encrypt key nonce aad plaintext with Some ct => Ok ct | None => Err EncryptFailed end.

Definition open_detached (key nonce ciphertext tag aad : bytes) : res AeadError bytes :=
  if negb (zlen key =? KEY_LEN) then Err (BadKeyLen (zlen key)) else
  match gcm_decrypt key nonce aad ciphertext tag with Some p => Ok p | None => Err DecryptFailed end.

(** [ciphertext] has the tag at its end. *)
Record SealedMessage := mkSealed { sm_nonce : bytes; sm_ciphertext : bytes }.

Definition sealed_to_bytes (m : SealedMessage) : bytes := sm_nonce m ++ sm_ciphertext m.

Definition sealed_from_bytes (buf : bytes) : res AeadError SealedMessage :=
  if zlen buf <? NONCE_LEN + GCM_TAG_LEN then Err DecryptFailed else
  Ok (mkSealed (take (Z.to_nat NONCE_LEN) buf) (drop (Z.to_nat NONCE_LEN) buf)).

Definition seal (nonce key plaintext aad : bytes) : res AeadError SealedMessage :=
  if negb (zlen key =? KEY_LEN) then Err (BadKeyLen (zlen key)) else
  match gcm_encrypt key nonce aad plaintext with
  | Some (c, t) => Ok (mkSealed nonce (c ++ t))
  | None => Err EncryptFailed
  end.

(** [Aead::decrypt] splits the tag off the end of the message. *)
Definition gcm_decrypt_attached (key nonce aad msg : bytes) : option bytes :=
  if zlen msg <? GCM_TAG_LEN then None else
  let n := (length msg - Z.to_nat GCM_TAG_LEN)%nat in
  gcm_decrypt key nonce aad (take n msg) (drop n msg).

Definition open_sealed (key : bytes) (m : SealedMessage) (aad : bytes) : res AeadError bytes :=
  if negb (zlen key =? KEY_LEN) then Err (BadKeyLen (zlen key)) else
  match gcm_decrypt_attached key (sm_nonce m) aad (sm_ciphertext m) with
  | Some p => Ok p | None => Err DecryptFailed end.

Lemma seal_detached_ok key nonce p aad :
  zlen key = KEY_LEN -> zlen p < 2 ^ 36 -> wf_bytes p ->
  exists c t, seal_detached key nonce p aad = Ok (c, t) /\ zlen c = zlen p
    /\ zlen t = GCM_TAG_LEN /\ wf_bytes c /\ wf_bytes t /\ open_detached key nonce c t aad = Ok p.
Proof.
  intros Hk Hp Hw. destruct (gcm_encrypts key nonce aad p Hp) as [[c t] E].
  exists c, t. unfold seal_detached, open_detached. rewrite Hk, Z.eqb_refl, E. cbn [negb].
  destruct (gcm_lengths _ _ _ _ _ _ E). destruct (gcm_wf _ _ _ _ _ _ Hw E).
  rewrite (gcm_inverse _ _ _ _ _ _ E). split_and!; done.
Qed.

(** The whole path of a sealed message: sealed, written, read and opened. *)
Lemma sealed_message_roundtrip key nonce p aad :
  zlen key = KEY_LEN -> zlen nonce = NONCE_LEN -> zlen p < 2 ^ 36 ->
  exists m, seal nonce key p aad = Ok m
    /\ zlen (sealed_to_bytes m) = zlen p + NONCE_LEN + GCM_TAG_LEN
    /\ (let* m' := sealed_from_bytes (sealed_to_bytes m) in open_sealed key m' aad) = Ok p.
Proof.
  intros Hk Hn Hp. destruct (gcm_encrypts key nonce aad p Hp) as [[c t] E].
  destruct (gcm_lengths _ _ _ _ _ _ E) as [Hc Ht].
  exists (mkSealed nonce (c ++ t)). unfold seal. rewrite Hk, Z.eqb_refl, E. split; [done|].
  unfold sealed_to_bytes, sealed_from_bytes. cbn [sm_nonce sm_ciphertext]. rewrite !zlen_app.
  split; [lia|]. unfold NONCE_LEN, GCM_TAG_LEN in *. pose proof (zlen_nonneg p).
  destruct (Z.ltb_spec (zlen nonce + (zlen c + zlen t)) (12 + 16)); [lia|]. cbn [res_bind].
  assert (Hl : Z.to_nat 12 = length nonce) by (unfold zlen in Hn; lia).
  rewrite Hl, take_app_length, drop_app_length.
  unfold open_sealed. rewrite Hk, Z.eqb_refl. cbn [negb sm_nonce sm_ciphertext].
  unfold gcm_decrypt_attached, GCM_TAG_LEN. rewrite zlen_app.
  destruct (Z.ltb_spec (zlen c + zlen t) 16); [lia|].
  assert (Hd : (length (c ++ t) - Z.to_nat 16)%nat = length c)
    by (rewrite length_app; unfold zlen in *; lia).
  rewrite Hd, take_app_length, drop_app_length, (gcm_inverse _ _ _ _ _ _ E). done.
Qed.
End Aead.

(** ** ML-KEM *)

Inductive PqcError := UnsupportedSuite (s : string) | BadLength (expected got : Z) | Backend.

Inductive ParamSet := MlKem512 | MlKem768 | MlKem1024.
#[export] Instance ParamSet_eq_dec : EqDecision ParamSet.
Proof. solve_decision. Defined.

Definition suite_name (k : ParamSet) : string :=
  match k with MlKem512 => "ml-kem-512" | MlKem768 => "ml-kem-768" | MlKem1024 => "ml-kem-1024" end.

Definition kem_for (suite : string) : res PqcError ParamSet :=
  if bool_decide (suite = "ml-kem-512"%string) then Ok MlKem512 else
  if bool_decide (suite = "ml-kem-768"%string) then Ok MlKem768 else
  if bool_decide (suite = "ml-kem-1024"%string) then Ok MlKem1024 else
  Err (UnsupportedSuite suite).

(** The encoded sizes of the crate, as the table of the module lists them. *)
Definition public_key_len (k : ParamSet) : Z :=
  match k with MlKem512 => 800 | MlKem768 => 1184 | MlKem1024 => 1568 end.
Definition secret_key_len (k : ParamSet) : Z :=
  match k with MlKem512 => 1632 | MlKem768 => 2400 | MlKem1024 => 3168 end.
Definition ciphertext_len (k : ParamSet) : Z :=
  match k with MlKem512 => 768 | MlKem768 => 1088 | MlKem1024 => 1568 end.

Class MlKem := {
  (** [generate] from a seed: the encoded encapsulation and decapsulation keys. *)
  ml_generate : ParamSet -> bytes -> bytes * bytes;
  (** [encapsulate] to an encoded key with a seed: ciphertext and shared secret. *)
  ml_encapsulate : ParamSet -> bytes -> bytes -> option (bytes * bytes);
  ml_decapsulate : ParamSet -> bytes -> bytes -> option bytes;
  ml_key_lengths : forall k s,
    zlen (fst (ml_generate k s)) = public_key_len k /\ zlen (snd (ml_generate k s)) = secret_key_len k;
  ml_key_wf : forall k s, wf_bytes (fst (ml_generate k s));
  (** Every string of the right length decodes to a key: encapsulation succeeds. *)
  ml_encapsulates : forall k ek r, zlen ek = public_key_len k -> is_Some (ml_encapsulate k ek r);
  ml_encap_lengths : forall k ek r ct ss, ml_encapsulate k ek r = Some (ct, ss) ->
    zlen ct = ciphertext_len k /\ wf_bytes ct /\ zlen ss = 32 /\ wf_bytes ss;
  ml_correct : forall k s r ct ss, ml_encapsulate k (fst (ml_generate k s)) r = Some (ct, ss) ->
    ml_decapsulate k (snd (ml_generate k s)) ct = Some ss;
}.

Record KemKeypair := mkKp { kp_public : bytes; kp_secret : bytes; kp_suite : string }.
Record KemEncap := mkEncap { ke_ciphertext : bytes; ke_shared_secret : bytes }.

Section Kem.
Context `{MlKem}.

Definition keygen (k : ParamSet) (seed : bytes) : KemKeypair :=
  let '(ek, dk) := ml_generate k seed in mkKp ek dk (suite_name k).

Definition encap (k : ParamSet) (peer_public seed : bytes) : res PqcError KemEncap :=
  if negb (zlen peer_public =? public_key_len k) then Err (BadLength (public_key_len k) (zlen peer_public)) else
  match ml_encapsulate k peer_public seed with
  | Some (ct, ss) => Ok (mkEncap ct ss)
  | None => Err Backend
  end.

Definition decap (k : ParamSet) (secret ciphertext : bytes) : res PqcError bytes :=
  if negb (zlen secret =? secret_key_len k) then Err (BadLength (secret_key_len k) (zlen secret)) else
  if negb (zlen ciphertext =? ciphertext_len k) then Err (BadLength (ciphertext_len k) (zlen ciphertext)) else
  match ml_decapsulate k secret ciphertext with Some ss => Ok ss | None => Err Backend end.

Lemma kem_for_suite k : kem_for (suite_name k) = Ok k.
Proof. by destruct k. Qed.

Lemma kem_for_ok s k : kem_for s = Ok k -> s = suite_name k.
Proof. unfold kem_for. repeat case_bool_decide; intros [= <-]; done. Qed.

(** A key pair, an encapsulation to it and its decapsulation agree on 32 bytes. *)
Lemma kem_roundtrip k seed r :
  let kp := keygen k seed in
  exists ct ss, encap k (kp_public kp) r = Ok (mkEncap ct ss)
    /\ decap k (kp_secret kp) ct = Ok ss /\ zlen ss = 32 /\ wf_bytes ss /\ wf_bytes ct
    /\ zlen (kp_public kp) = public_key_len k /\ wf_bytes (kp_public kp) /\ kp_suite kp = suite_name k.
Proof.
  unfold keygen. pose proof (ml_key_lengths k seed) as [Hp Hs]. pose proof (ml_key_wf k seed) as Hw.
  pose proof (ml_correct k seed r) as Hc.
  destruct (ml_generate k seed) as [ek dk]. cbn [fst snd] in *. cbn [kp_public kp_secret kp_suite].
  destruct (ml_encapsulates k ek r Hp) as [[ct ss] E].
  destruct (ml_encap_lengths _ _ _ _ _ E) as (Hct & Hwc & Hss & Hws).
  exists ct, ss. unfold encap, decap. rewrite Hp, Hs, Hct, !Z.eqb_refl, E, (Hc _ _ E). cbn [negb].
  split_and!; done.
Qed.
End Kem.

(** ** Executable instances

    They compute checksums and no cryptography; they show that the laws above
    can hold together and let the theorems be evaluated. *)

Definition pad (n : Z) (b : bytes) : bytes :=
  map (fun x => x mod 256) (take (Z.to_nat n) (b ++ replicate (Z.to_nat n) 0)).

Lemma zlen_pad n b : 0 <= n -> zlen (pad n b) = n.
Proof.
  intros Hn. unfold pad, zlen. rewrite length_map, length_take, length_app, length_replicate. lia.
Qed.

Lemma pad_wf n b : wf_bytes (pad n b).
Proof.
  apply Forall_forall. intros x [y [-> _]]%list_elem_of_fmap. apply Z.mod_pos_bound. lia.
Qed.

Definition toy_gcm_tag (k n a p : bytes) : bytes :=
  pad 16 [le_val k; le_val n; le_val a; le_val p; zlen a; zlen p].

#[export] Instance toy_gcm : AesGcm.
Proof.
  refine {| gcm_encrypt k n a p := Some (p, toy_gcm_tag k n a p);
            gcm_decrypt k n a c t := if bool_decide (t = toy_gcm_tag k n a c) then Some c else None |}.
  - intros. by eexists.
  - intros k n a p c t [= <- <-]. split; [done|]. by apply zlen_pad.
  - intros k n a p c t Hp [= <- <-]. split; [done|]. apply pad_wf.
  - intros k n a p c t [= <- <-]. by rewrite bool_decide_eq_true_2.
Defined.

Definition toy_ss (ek ct : bytes) : bytes := pad 32 (xor_bytes ek ct).

#[export] Instance toy_kem : MlKem.
Proof.
  refine {| ml_generate k s := (pad (public_key_len k) s, pad (secret_key_len k) (pad (public_key_len k) s));
            ml_encapsulate k ek r := Some (pad (ciphertext_len k) r, toy_ss ek (pad (ciphertext_len k) r));
            ml_decapsulate k dk ct := Some (toy_ss (take (Z.to_nat (public_key_len k)) dk) ct) |}.
  - intros k s. split; apply zlen_pad; by destruct k.
  - intros k s. apply pad_wf.
  - intros. by eexists.
  - intros k ek r ct ss [= <- <-]. split_and!; try apply pad_wf; apply zlen_pad; by destruct k.
  - intros k s r ct ss [= <- <-]. do 2 f_equal. cbn [snd].
    assert (Hl : length (pad (public_key_len k) s) = Z.to_nat (public_key_len k)).
    { pose proof (zlen_pad (public_key_len k) s ltac:(by destruct k)). unfold zlen in *. lia. }
    pose proof (pad_wf (public_key_len k) s) as Hw. revert Hl Hw.
    generalize (pad (public_key_len k) s). intros b Hl Hw. unfold pad.
    assert (Hle : (length b <= Z.to_nat (secret_key_len k))%nat)
      by (destruct k; unfold public_key_len, secret_key_len in *; lia).
    rewrite <- firstn_map, take_take, map_app, <- Hl, Nat.min_l by done.
    replace (length b) with (length (map (fun x => x mod 256) b)) by apply length_map.
    rewrite take_app_length. clear Hl Hle.
    induction Hw as [|x b Hx Hw IH] in |- *; [done|]. cbn [map]. f_equal; [by apply Z.mod_small|exact IH].
Defined.
