(* ===== verification/E2e.v ===== *)
(** * The end-to-end layer between two DKMS (dkms/src/e2e.rs)

    Every transport key crosses the network sealed by one DKMS for the other.

    - [RecentKeyIds], [PeerState], [E2e] are the structs of the source; a map
      entry that does not exist is created by [state], also on paths that fail.
    - [derive], [aad], [seal], [open] are the sealing of one key; [open] is the
      lookup and the verification ([open_verify]) and, under a second lock,
      the replay window ([open_commit]).
    - [begin_request], [respond], [complete_request] are the key agreement;
      [agreement_gate] and [agreement_done] the two critical sections of
      [request_agreement]; [rekey_due] the choice of the rekey loop.

    A header is a [gmap] of strings; [btree_pairs] lists it in key order, as a
    [BTreeMap] does.  Random epochs are the list of values drawn; [None] means
    that the loop is still drawing. *)

From Stdlib Require Import ZArith Lia.
From stdpp Require Import sorting.
From S2P Require Import Prelude ReplayWindow FrameMac Text Primitives.

Definition HDR_E2E_EPOCH : string := "e2e_epoch".
Definition HDR_E2E_CTR : string := "e2e_ctr".
Definition HDR_E2E_TAG : string := "e2e_tag".
Definition HDR_INCARNATION : string := "incarnation".

(** b"dkms.e2e.v1", used as salt, info and AAD domain. *)
Definition E2E_V1 : bytes := as_bytes "dkms.e2e.v1".

(** Durations in nanoseconds. *)
Definition SECOND : Z := 1000000000.
Definition AGREEMENT_MIN_INTERVAL : Z := 2 * SECOND.
Definition DEFAULT_RESPOND_BURST : Z := 4.
Definition PENDING_ESK_TTL : Z := 30 * SECOND.
Definition GUARDRAIL_WINDOW : Z := 8192.

(** [Instant::elapsed]. *)
Definition elapsed (now t : Z) : Z := sat_sub now t.

(** ** The recently used key ids *)

Record RecentKeyIds := mkRecent { rk_seen : gset string; rk_order : list string }.

Definition rk_default : RecentKeyIds := mkRecent ∅ [].

Definition rk_insert (r : RecentKeyIds) (id : string) : RecentKeyIds * bool :=
  if bool_decide (id ∈ rk_seen r) then (r, false) else
  let '(seen, order) :=
    if GUARDRAIL_WINDOW <=? zlen (rk_order r) then
      match rk_order r with
      | old :: rest => (rk_seen r ∖ {[old]}, rest)
      | [] => (rk_seen r, [])
      end
    else (rk_seen r, rk_order r) in
  (mkRecent ({[id]} ∪ seen) (order ++ [id]), true).

(** ** State *)

Inductive E2eError :=
  | NoEpoch (peer : string)
  | UnknownEpoch (peer : string) (epoch : Z)
  | HeaderMissing (name : string)
  | HeaderMalformed (name : string)
  | BadTag
  | KeyIdReuse (peer key_id : string)
  | ReplayErr (e : ReplayError)
  | KemErr (len : option Z) (e : option PqcError)
  | AeadErr (e : AeadError)
  | PeerErr (why : string).

Record KemRequest := mkKemReq { kq_suite : string; kq_epk : string }.
Record KemResponse := mkKemResp { kr_suite : string; kr_epoch : Z; kr_ct : string }.

Record TransportE2eCfg := mkE2eCfg {
  ec_suite : string;
  ec_rekey_secs : Z;
  ec_rekey_keys : Z;
  ec_epoch_history_keep : Z;
  ec_replay_window : Z;
  ec_respond_burst : Z;
}.

Record PeerState := mkPs {
  ps_epochs : list (Z * bytes);
  ps_send_epoch : option Z;
  ps_counter : Z;
  ps_epoch_sends : Z;
  ps_recent : RecentKeyIds;
  ps_last_response : option Z;
  ps_respond_burst : Z;
  ps_replay : ReplayWindow;
  ps_pending_esk : option (bytes * Z);
  ps_inflight : bool;
  ps_last_attempt : option Z;
  ps_established_at : option Z;
}.

Definition ps_new (window : Z) : PeerState :=
  mkPs [] None 0 0 rk_default None DEFAULT_RESPOND_BURST (win_new window) None false None None.

Definition ps_secret (st : PeerState) (epoch : Z) : option bytes :=
  (fun p => p.2.2) <$> list_find (fun p => p.1 = epoch) (ps_epochs st).

(** [while self.epochs.len() > keep.max(1) { pop_front }]. *)
Definition keep_last (keep : Z) (l : list (Z * bytes)) : list (Z * bytes) :=
  drop (length l - Z.to_nat (Z.max keep 1)) l.

Definition ps_store (now epoch : Z) (ss : bytes) (keep : Z) (st : PeerState) : PeerState * res E2eError unit :=
  if negb (zlen ss =? 32) then (st, Err (KemErr (Some (zlen ss)) None)) else
  let epochs := keep_last keep (filter (fun p => p.1 <> epoch) (ps_epochs st) ++ [(epoch, ss)]) in
  (mkPs epochs (Some epoch) (ps_counter st) 0 rk_default (ps_last_response st) (ps_respond_burst st)
     (ps_replay st) (ps_pending_esk st) (ps_inflight st) (ps_last_attempt st) (Some now), Ok tt).

Definition epoch_free (st : PeerState) (e : Z) : bool :=
  negb (e =? 0) && negb (existsb (fun p => p.1 =? e) (ps_epochs st)).

Definition fresh_epoch (st : PeerState) (draws : list Z) : option Z :=
  snd <$> list_find (fun e => epoch_free st e = true) draws.

Record E2e := mkE2e { e_my_id : string; e_cfg : TransportE2eCfg; e_peers : gmap string PeerState }.

Definition e2e_new (my_id : string) (cfg : TransportE2eCfg) : E2e := mkE2e my_id cfg ∅.

Definition state (e : E2e) (peer : string) : PeerState :=
  default (ps_new (ec_replay_window (e_cfg e))) (e_peers e !! peer).

Definition put (e : E2e) (peer : string) (st : PeerState) : E2e :=
  mkE2e (e_my_id e) (e_cfg e) (<[peer := st]> (e_peers e)).

Definition set_recent r st := mkPs (ps_epochs st) (ps_send_epoch st) (ps_counter st) (ps_epoch_sends st) r
  (ps_last_response st) (ps_respond_burst st) (ps_replay st) (ps_pending_esk st) (ps_inflight st)
  (ps_last_attempt st) (ps_established_at st).
Definition set_counters c n st := mkPs (ps_epochs st) (ps_send_epoch st) c n (ps_recent st)
  (ps_last_response st) (ps_respond_burst st) (ps_replay st) (ps_pending_esk st) (ps_inflight st)
  (ps_last_attempt st) (ps_established_at st).
Definition set_limiter t b st := mkPs (ps_epochs st) (ps_send_epoch st) (ps_counter st) (ps_epoch_sends st)
  (ps_recent st) t b (ps_replay st) (ps_pending_esk st) (ps_inflight st) (ps_last_attempt st)
  (ps_established_at st).
Definition set_replay w st := mkPs (ps_epochs st) (ps_send_epoch st) (ps_counter st) (ps_epoch_sends st)
  (ps_recent st) (ps_last_response st) (ps_respond_burst st) w (ps_pending_esk st) (ps_inflight st)
  (ps_last_attempt st) (ps_established_at st).
Definition set_esk k st := mkPs (ps_epochs st) (ps_send_epoch st) (ps_counter st) (ps_epoch_sends st)
  (ps_recent st) (ps_last_response st) (ps_respond_burst st) (ps_replay st) k (ps_inflight st)
  (ps_last_attempt st) (ps_established_at st).
Definition set_attempt i t st := mkPs (ps_epochs st) (ps_send_epoch st) (ps_counter st) (ps_epoch_sends st)
  (ps_recent st) (ps_last_response st) (ps_respond_burst st) (ps_replay st) (ps_pending_esk st) i t
  (ps_established_at st).

(** ** Derivation and AAD *)

Abbreviation Header := (gmap string string).

Definition key_le (x y : string * string) : Prop := String.le x.1 y.1.
#[export] Instance key_le_dec x y : Decision (key_le x y) := _.

Definition btree_pairs (h : Header) : list (string * string) := merge_sort key_le (map_to_list h).

Definition lp32 (s : bytes) : bytes := be_bytes 4 (as_u 32 (zlen s)) ++ s.

Definition aad_pair (p : string * string) : bytes :=
  if bool_decide (p.1 = HDR_E2E_TAG) then [] else lp32 (as_bytes p.1) ++ lp32 (as_bytes p.2).

Definition aad (from to : string) (pairs : list (string * string)) : bytes :=
  lp32 E2E_V1 ++ lp32 (as_bytes from) ++ lp32 (as_bytes to) ++ concat (map aad_pair pairs).

Section E2e.
Context `{MacCrypto} `{AesGcm} `{MlKem} `{TextCodecs}.

Definition derive (secret : bytes) (key_id : string) : bytes * bytes :=
  let okm := hkdf_sha256 E2E_V1 secret (as_bytes key_id ++ E2E_V1) 44 in
  (take 32 okm, drop 32 okm).

(** ** Seal and open *)

Definition seal_reserve (st : PeerState) (peer key_id : string)
  : PeerState * res E2eError (Z * bytes * Z) :=
  match ps_send_epoch st with
  | None => (st, Err (NoEpoch peer))
  | Some epoch =>
      match ps_secret st epoch with
      | None => (st, Err (NoEpoch peer))
      | Some secret =>
          let '(r, fresh) := rk_insert (ps_recent st) key_id in
          if negb fresh then (st, Err (KeyIdReuse peer key_id)) else
          if (ps_counter st =? u_max 64) || (ps_epoch_sends st =? u_max 64) then (st, Panic) else
          (set_counters (ps_counter st + 1) (ps_epoch_sends st + 1) (set_recent r st),
           Ok (epoch, secret, ps_counter st + 1))
      end
  end.

(** The header without the tag, then with it. *)
Definition seal_header (header : Header) (epoch counter : Z) : Header :=
  delete HDR_E2E_TAG (<[HDR_E2E_CTR := to_string counter]> (<[HDR_E2E_EPOCH := to_string epoch]> header)).

Definition e2e_seal (e : E2e) (peer key_id : string) (header : Header) (plaintext : bytes)
  : E2e * Header * res E2eError bytes :=
  let '(st, r) := seal_reserve (state e peer) peer key_id in
  let e := put e peer st in
  match r with
  | Err err => (e, header, Err err)
  | Panic => (e, header, Panic)
  | Ok (epoch, secret, counter) =>
      let header := seal_header header epoch counter in
      let a := aad (e_my_id e) peer (btree_pairs header) in
      let '(k, nonce) := derive secret key_id in
      match seal_detached k nonce plaintext a with
      | Ok (ct, tag) => (e, <[HDR_E2E_TAG := hex_encode tag]> header, Ok ct)
      | Err err => (e, header, Err (AeadErr err))
      | Panic => (e, header, Panic)
      end
  end.

Definition field (h : Header) (name : string) : res E2eError string :=
  match h !! name with Some v => Ok v | None => Err (HeaderMissing name) end.

Definition or_malformed {A} (name : string) (o : option A) : res E2eError A :=
  match o with Some a => Ok a | None => Err (HeaderMalformed name) end.

(** The part of [open] before the second lock: what was verified. *)
Definition open_verify (e : E2e) (source : string) (header : Header) (key_id : string) (payload : bytes)
  : res E2eError (Z * Z * Z * bytes) :=
  let* v := field header HDR_E2E_EPOCH in
  let* epoch := or_malformed HDR_E2E_EPOCH (parse_u 32 v) in
  let* v := field header HDR_E2E_CTR in
  let* counter := or_malformed HDR_E2E_CTR (parse_u 64 v) in
  let* v := field header HDR_E2E_TAG in
  let* tag := or_malformed HDR_E2E_TAG (hex_decode v) in
  let* _ := if zlen tag =? GCM_TAG_LEN then Ok tt else Err (HeaderMalformed HDR_E2E_TAG) in
  let* v := field header HDR_INCARNATION in
  let* session := or_malformed HDR_INCARNATION (from_str_radix 64 16 v) in
  let* secret := match e_peers e !! source ≫= (fun st => ps_secret st epoch) with
                 | Some s => Ok s | None => Err (UnknownEpoch source epoch) end in
  let a := aad source (e_my_id e) (btree_pairs header) in
  let '(k, nonce) := derive secret key_id in
  let* pt := res_map_err (fun _ => BadTag) (open_detached k nonce payload tag a) in
  Ok (epoch, session, counter, pt).

Definition open_commit (now : Z) (e : E2e) (source : string) (epoch session counter : Z)
  : E2e * res E2eError unit :=
  match e_peers e !! source with
  | None => (e, Err (UnknownEpoch source epoch))
  | Some st =>
      let '(w, r) := check_and_set now (ps_replay st) session counter in
      (put e source (set_replay w st), res_map_err ReplayErr r)
  end.

Definition e2e_open (now : Z) (e : E2e) (source : string) (header : Header) (key_id : string) (payload : bytes)
  : E2e * res E2eError bytes :=
  match open_verify e source header key_id payload with
  | Ok (epoch, session, counter, pt) =>
      let '(e, r) := open_commit now e source epoch session counter in
      (e, let* _ := r in Ok pt)
  | Err err => (e, Err err)
  | Panic => (e, Panic)
  end.

(** ** Key agreement *)

Definition kem_err {A} (r : res PqcError A) : res E2eError A := res_map_err (fun x => KemErr None (Some x)) r.

Definition begin_request (now : Z) (seed : bytes) (e : E2e) (peer : string) : E2e * res E2eError KemRequest :=
  match kem_for (ec_suite (e_cfg e)) with
  | Ok kem =>
      let kp := keygen kem seed in
      (put e peer (set_esk (Some (kp_secret kp, now)) (state e peer)),
       Ok (mkKemReq (kp_suite kp) (b64_encode (kp_public kp))))
  | Err x => (e, Err (KemErr None (Some x)))
  | Panic => (e, Panic)
  end.

Definition SUITE_MISMATCH : string := "suite".

Definition complete_request (now : Z) (e : E2e) (peer : string) (resp : KemResponse) : E2e * res E2eError Z :=
  if kr_epoch resp =? 0 then (e, Err (PeerErr "epoch 0")) else
  if negb (bool_decide (kr_suite resp = ec_suite (e_cfg e))) then (e, Err (PeerErr SUITE_MISMATCH)) else
  match kem_for (kr_suite resp) with
  | Err x => (e, Err (KemErr None (Some x)))
  | Panic => (e, Panic)
  | Ok kem =>
      match b64_decode (kr_ct resp) with
      | None => (e, Err (PeerErr "ct base64"))
      | Some ct =>
          let st := state e peer in
          let e := put e peer (set_esk None st) in
          match ps_pending_esk st with
          | None => (e, Err (PeerErr "no agreement in flight"))
          | Some (esk, since) =>
              if PENDING_ESK_TTL <? elapsed now since then (e, Err (PeerErr "agreement expired")) else
              match kem_err (decap kem esk ct) with
              | Ok ss =>
                  let '(st, r) := ps_store now (kr_epoch resp) ss (ec_epoch_history_keep (e_cfg e)) (state e peer) in
                  (put e peer st, let* _ := r in Ok (kr_epoch resp))
              | Err x => (e, Err x)
              | Panic => (e, Panic)
              end
          end
      end
  end.

(** The limiter of [respond]. *)
Definition respond_gate (now burst : Z) (st : PeerState) : PeerState * bool :=
  let fresh := (set_limiter (Some now) (burst - 1) st, true) in
  match ps_last_response st with
  | Some t =>
      if elapsed now t <? AGREEMENT_MIN_INTERVAL then
        if ps_respond_burst st =? 0 then (st, false)
        else (set_limiter (Some t) (ps_respond_burst st - 1) st, true)
      else fresh
  | None => fresh
  end.

Definition respond (now : Z) (seed : bytes) (draws : list Z) (e : E2e) (peer : string) (req : KemRequest)
  : E2e * option (res E2eError KemResponse) :=
  let '(st, pass) := respond_gate now (Z.max (ec_respond_burst (e_cfg e)) 1) (state e peer) in
  let e := put e peer st in
  if negb pass then (e, Some (Err (PeerErr "too frequent"))) else
  if negb (bool_decide (kq_suite req = ec_suite (e_cfg e))) then (e, Some (Err (PeerErr SUITE_MISMATCH))) else
  match kem_for (kq_suite req) with
  | Err x => (e, Some (Err (KemErr None (Some x))))
  | Panic => (e, Some Panic)
  | Ok kem =>
      match b64_decode (kq_epk req) with
      | None => (e, Some (Err (PeerErr "epk base64")))
      | Some epk =>
          if negb (zlen epk =? public_key_len kem) then (e, Some (Err (PeerErr "epk length"))) else
          match kem_err (encap kem epk seed) with
          | Err x => (e, Some (Err x))
          | Panic => (e, Some Panic)
          | Ok enc =>
              match fresh_epoch (state e peer) draws with
              | None => (e, None)
              | Some epoch =>
                  let '(st, r) := ps_store now epoch (ke_shared_secret enc) (ec_epoch_history_keep (e_cfg e)) (state e peer) in
                  (put e peer st,
                   Some (let* _ := r in Ok (mkKemResp (kq_suite req) epoch (b64_encode (ke_ciphertext enc)))))
              end
          end
      end
  end.

(** [request_agreement] up to the task it spawns: [reachable] says that there is
    a client and an endpoint for the peer. *)
Definition agreement_gate (now : Z) (reachable : bool) (e : E2e) (peer : string) : E2e * bool :=
  if negb reachable then (e, false) else
  let st := state e peer in
  if ps_inflight st then (put e peer st, false) else
  if match ps_last_attempt st with Some t => elapsed now t <? AGREEMENT_MIN_INTERVAL | None => false end
  then (put e peer st, false)
  else (put e peer (set_attempt true (Some now) st), true).

(** The end of the task. *)
Definition agreement_done {A} (e : E2e) (peer : string) (r : res E2eError A) : E2e :=
  let st := set_attempt false (ps_last_attempt (state e peer)) (state e peer) in
  put e peer (if is_ok r then st else set_esk None st).

(** Which peers the rekey loop asks for a new epoch. *)
Definition rekey_due (now : Z) (e : E2e) (peer : string) (st : PeerState) : bool :=
  match ps_send_epoch st with
  | None => false
  | Some _ =>
      let rekey := Z.max (ec_rekey_secs (e_cfg e)) 1 * SECOND in
      let time_due := String.ltb (e_my_id e) peer
        && match ps_established_at st with Some t => rekey <=? elapsed now t | None => false end in
      let volume_due := (0 <? ec_rekey_keys (e_cfg e)) && (ec_rekey_keys (e_cfg e) <=? ps_epoch_sends st) in
      time_due || volume_due
  end.

Definition rekey_peers (now : Z) (e : E2e) : list string :=
  map fst (filter (fun p => rekey_due now e p.1 p.2 = true) (map_to_list (e_peers e))).

Definition e2e_snapshot (e : E2e) (peer : string) : option Z * Z :=
  match e_peers e !! peer with
  | Some st => (ps_send_epoch st, zlen (ps_epochs st))
  | None => (None, 0)
  end.
End E2e.

(** ** The additional data determines the header *)

Lemma lp32_inj x y r s :
  zlen x < 2 ^ 32 -> zlen y < 2 ^ 32 -> lp32 x ++ r = lp32 y ++ s -> x = y /\ r = s.
Proof.
  unfold lp32. rewrite <- !app_assoc. intros Hx Hy E. pose proof (zlen_nonneg x). pose proof (zlen_nonneg y).
  apply app_inj_length in E as [El E]; [|by rewrite !length_be_bytes].
  rewrite !as_u_small in El by (ufold; lia).
  apply be_bytes_inj in El; [|simpl; lia..]. unfold zlen in El.
  by apply app_inj_length in E; [|lia].
Qed.

Definition short (s : string) : Prop := zlen (as_bytes s) < 2 ^ 32.
Definition short_pair (p : string * string) : Prop := short p.1 /\ short p.2.
Definition hdr_short (h : Header) : Prop := map_Forall (fun k v => short k /\ short v) h.

Definition not_tag (p : string * string) : Prop := p.1 <> HDR_E2E_TAG.

Lemma lp32_nonnil s r : lp32 s ++ r <> [].
Proof.
  intros E. apply (f_equal length) in E. unfold lp32 in E. rewrite !length_app, length_be_bytes in E.
  simpl in E. lia.
Qed.

Lemma concat_aad_inj l1 : forall l2,
  Forall short_pair l1 -> Forall short_pair l2 ->
  concat (map aad_pair l1) = concat (map aad_pair l2) -> filter not_tag l1 = filter not_tag l2.
Proof.
  assert (Hskip : forall l, Forall short_pair l -> concat (map aad_pair l) = [] -> filter not_tag l = []).
  { induction 1 as [|p l _ Hl IH]; [done|]. cbn [map concat]. unfold aad_pair at 1. intros E.
    case_bool_decide as Ht.
    - rewrite filter_cons_False by (unfold not_tag; tauto). by apply IH.
    - rewrite <- app_assoc in E. by apply lp32_nonnil in E. }
  assert (Hhd : forall l p r, Forall short_pair l -> concat (map aad_pair l) = lp32 p ++ r ->
    exists q l', filter not_tag l = q :: filter not_tag l' /\ Forall short_pair l' /\ short_pair q
      /\ lp32 (as_bytes q.1) ++ lp32 (as_bytes q.2) ++ concat (map aad_pair l') = lp32 p ++ r).
  { intros l p r. induction 1 as [|q l Hq Hl IH]; cbn [map concat]; intros E.
    - symmetry in E. by apply lp32_nonnil in E.
    - unfold aad_pair at 1 in E. case_bool_decide as Ht.
      + destruct (IH E) as (q' & l' & Hf & ?). exists q', l'. rewrite filter_cons_False by (unfold not_tag; tauto). done.
      + exists q, l. rewrite filter_cons_True by done. rewrite <- app_assoc in E. done. }
  induction l1 as [|p l1 IH]; intros l2 H1 H2 E.
  - symmetry. apply Hskip; done.
  - apply Forall_cons in H1 as [Hp H1]. cbn [map concat] in E. unfold aad_pair at 1 in E. case_bool_decide as Ht.
    + rewrite filter_cons_False by (unfold not_tag; tauto). by apply IH.
    + rewrite filter_cons_True by done. rewrite <- app_assoc in E. symmetry in E.
      destruct (Hhd _ _ _ H2 E) as (q & l' & -> & Hl' & [Hq1 Hq2] & E'). destruct Hp as [Hp1 Hp2].
      apply lp32_inj in E' as [Ek E']; [|done..]. apply lp32_inj in E' as [Ev E']; [|done..].
      apply as_bytes_inj in Ek, Ev. destruct p, q; cbn in *; subst. f_equal. by apply IH.
Qed.

Lemma btree_pairs_perm h : btree_pairs h ≡ₚ map_to_list h.
Proof. apply merge_sort_Permutation. Qed.

Lemma btree_pairs_elem h k v : (k, v) ∈ btree_pairs h <-> h !! k = Some v.
Proof. rewrite btree_pairs_perm. apply elem_of_map_to_list. Qed.

Lemma btree_pairs_short h : hdr_short h -> Forall short_pair (btree_pairs h).
Proof.
  intros Hh. apply Forall_forall. intros [k v] Hin%btree_pairs_elem. apply (Hh k v Hin).
Qed.

Lemma filter_not_tag h h' :
  filter not_tag (btree_pairs h) = filter not_tag (btree_pairs h') ->
  delete HDR_E2E_TAG h = delete HDR_E2E_TAG h'.
Proof.
  intros E. apply map_eq. intros k. destruct (decide (k = HDR_E2E_TAG)) as [->|Hk].
  - by rewrite !lookup_delete_eq.
  - rewrite !lookup_delete_ne by done. apply option_eq. intros v.
    rewrite <- !btree_pairs_elem.
    assert (Hf : forall l : list (string * string), (k, v) ∈ l <-> (k, v) ∈ filter not_tag l).
    { intros l. rewrite list_elem_of_filter. unfold not_tag. cbn. tauto. }
    by rewrite (Hf (btree_pairs h)), (Hf (btree_pairs h')), E.
Qed.

(** Equal additional data: same ends and same header, the tag aside. *)
Lemma aad_inj from to h from' to' h' :
  short from -> short to -> short from' -> short to' -> hdr_short h -> hdr_short h' ->
  aad from to (btree_pairs h) = aad from' to' (btree_pairs h') ->
  from = from' /\ to = to' /\ delete HDR_E2E_TAG h = delete HDR_E2E_TAG h'.
Proof.
  intros Hf Ht Hf' Ht' Hh Hh' E. unfold aad in E. apply app_inj_length in E as [_ E]; [|done].
  apply lp32_inj in E as [Ef E]; [|done..]. apply lp32_inj in E as [Et E]; [|done..].
  apply as_bytes_inj in Ef, Et. split_and!; [done..|].
  apply filter_not_tag, concat_aad_inj; auto using btree_pairs_short.
Qed.

(** The tag itself is not covered. *)
Lemma aad_pairs_delete l :
  concat (map aad_pair l) = concat (map aad_pair (filter not_tag l)).
Proof.
  induction l as [|p l IH]; [done|]. cbn [map concat]. destruct (decide (not_tag p)) as [Hp|Hp].
  - rewrite filter_cons_True by done. cbn [map concat]. by rewrite IH.
  - rewrite filter_cons_False by done. unfold aad_pair at 1. rewrite bool_decide_eq_true_2; [done|].
    unfold not_tag in Hp. destruct (decide (p.1 = HDR_E2E_TAG)); tauto.
Qed.

#[export] Instance key_le_trans : Transitive key_le.
Proof. intros x y z. unfold key_le. apply (transitivity (R := String.le)). Qed.
#[export] Instance key_le_total : Total key_le.
Proof. intros x y. unfold key_le. apply (total String.le). Qed.

Lemma btree_pairs_sorted h : StronglySorted key_le (btree_pairs h).
Proof. apply (StronglySorted_merge_sort key_le). Qed.

Lemma StronglySorted_filter {A} (R : A -> A -> Prop) (P : A -> Prop) `{!forall x, Decision (P x)} l :
  StronglySorted R l -> StronglySorted R (filter P l).
Proof.
  induction 1 as [|x l Hl IH Hx]; [constructor|]. destruct (decide (P x)).
  - rewrite filter_cons_True by done. constructor; [done|].
    apply Forall_forall. intros y [_ Hy]%list_elem_of_filter. rewrite Forall_forall in Hx. auto.
  - by rewrite filter_cons_False.
Qed.

Lemma btree_pairs_tag h t : h !! HDR_E2E_TAG = None ->
  filter not_tag (btree_pairs (<[HDR_E2E_TAG := t]> h)) = btree_pairs h.
Proof.
  intros Hn. apply (StronglySorted_unique_strong key_le).
  - intros [k1 v1] [k2 v2] H1 H2 H12 H21.
    apply list_elem_of_filter in H1 as [Hk1 H1]. apply btree_pairs_elem in H1, H2. cbn in *.
    assert (k1 = k2) as <- by (apply (anti_symm String.le); done).
    unfold not_tag in Hk1. cbn in Hk1. rewrite lookup_insert_ne in H1 by done. congruence.
  - apply StronglySorted_filter, btree_pairs_sorted.
  - apply btree_pairs_sorted.
  - rewrite !btree_pairs_perm, map_to_list_insert by done.
    rewrite filter_cons_False by (unfold not_tag; cbn; tauto).
    rewrite filter_all; [done|]. intros [k v] Hin%elem_of_map_to_list. unfold not_tag. cbn. congruence.
Qed.

Lemma aad_insert_tag from to h t : h !! HDR_E2E_TAG = None ->
  aad from to (btree_pairs (<[HDR_E2E_TAG := t]> h)) = aad from to (btree_pairs h).
Proof.
  intros Hn. unfold aad. do 3 f_equal. by rewrite aad_pairs_delete, btree_pairs_tag.
Qed.

(** ** The guard against reuse *)

(** [ids] are the ids used under the current epoch, newest first: the guard
    holds the last [GUARDRAIL_WINDOW] of them. *)
Record rk_tracks (r : RecentKeyIds) (ids : list string) : Prop := {
  rk_set : rk_seen r = list_to_set (rk_order r);
  rk_nodup : NoDup (rk_order r);
  rk_last : rk_order r = rev (take (Z.to_nat GUARDRAIL_WINDOW) ids);
}.

Lemma rk_default_tracks : rk_tracks rk_default [].
Proof. constructor; [done|apply NoDup_nil_2|]. by rewrite take_nil. Qed.

Lemma take_S_last {A} n (l : list A) : (S n <= length l)%nat ->
  exists x, take (S n) l = take n l ++ [x].
Proof.
  intros Hl. destruct (lookup_lt_is_Some_2 l n) as [x Hx]; [lia|].
  exists x. by apply take_S_r.
Qed.

Lemma rk_insert_tracks r ids id : rk_tracks r ids ->
  let '(r', fresh) := rk_insert r id in
  if fresh then (id ∉ take (Z.to_nat GUARDRAIL_WINDOW) ids) /\ rk_tracks r' (id :: ids)
  else r' = r /\ id ∈ take (Z.to_nat GUARDRAIL_WINDOW) ids.
Proof.
  intros [Hset Hnd Hl]. unfold rk_insert. rewrite Hset.
  assert (Hin : id ∈ rk_order r <-> id ∈ take (Z.to_nat GUARDRAIL_WINDOW) ids).
  { rewrite Hl, !list_elem_of_In, <- in_rev. done. }
  case_bool_decide as Hd; rewrite elem_of_list_to_set in Hd; [tauto|].
  assert (HW : exists n : nat, Z.to_nat GUARDRAIL_WINDOW = S n /\ Z.of_nat (S n) = GUARDRAIL_WINDOW)
    by (exists (Z.to_nat 8191); split; vm_compute; reflexivity).
  destruct HW as (n & HW & HZ). rewrite HW in Hl, Hin |- *. rewrite <- HZ.
  assert (Hlen : length (rk_order r) = Nat.min (S n) (length ids)) by (by rewrite Hl, length_rev, length_take).
  destruct (Z.leb_spec (Z.of_nat (S n)) (zlen (rk_order r))) as [Hz|Hz]; unfold zlen in Hz.
  - destruct (take_S_last n ids ltac:(lia)) as [x Hx]. rewrite Hx, rev_app_distr in Hl. cbn [rev app] in Hl.
    rewrite Hl in *. apply NoDup_cons in Hnd as [Hxn Hnd].
    split; [tauto|]. constructor; cbn [rk_seen rk_order].
    + rewrite list_to_set_cons, list_to_set_app_L. cbn [list_to_set].
      set (R := list_to_set (rev (take n ids)) : gset string).
      assert (x ∉ R) by (unfold R; by rewrite elem_of_list_to_set). set_solver.
    + apply NoDup_app. split_and!; [done| |apply NoDup_singleton].
      intros y Hy ->%list_elem_of_singleton. apply Hd. by right.
    + rewrite HW. reflexivity.
  - split; [tauto|]. constructor; cbn [rk_seen rk_order].
    + rewrite list_to_set_app_L. cbn [list_to_set]. set_solver.
    + apply NoDup_app. split_and!; [done| |apply NoDup_singleton]. intros y Hy ->%list_elem_of_singleton. done.
    + rewrite Hl, HW. cbn [firstn rev]. do 2 f_equal. rewrite !take_ge by lia. done.
Qed.

(** ** Epochs *)

Record ps_ok (keep : Z) (st : PeerState) : Prop := {
  ok_nodup : NoDup (ps_epochs st).*1;
  ok_secret : Forall (fun p => is_u 32 p.1 /\ p.1 <> 0 /\ zlen p.2 = 32) (ps_epochs st);
  ok_keep : zlen (ps_epochs st) <= Z.max keep 1;
  ok_send : forall e, ps_send_epoch st = Some e -> e ∈ (ps_epochs st).*1;
  ok_counts : 0 <= ps_epoch_sends st <= ps_counter st /\ ps_counter st <= u_max 64;
  ok_burst : is_u 8 (ps_respond_burst st);
}.

Lemma ps_new_ok keep w : ps_ok keep (ps_new w).
Proof.
  constructor; cbn; [apply NoDup_nil_2|constructor|unfold zlen; cbn; lia|done|ufold; lia|].
  unfold DEFAULT_RESPOND_BURST. ufold. lia.
Qed.

Lemma ps_secret_elem st e s : NoDup (ps_epochs st).*1 -> (e, s) ∈ ps_epochs st <-> ps_secret st e = Some s.
Proof.
  intros Hnd. unfold ps_secret. split.
  - intros Hin. apply list_elem_of_lookup in Hin as [i Hi].
    rewrite (proj2 (list_find_Some (fun p => p.1 = e) (ps_epochs st) i (e, s))); [done|].
    split_and!; [done..|]. intros j [e' s'] Hj Hlt Heq. cbn in Heq. subst e'.
    assert (j = i); [|lia]. eapply NoDup_lookup; [exact Hnd| |]; rewrite list_lookup_fmap.
    + rewrite Hj. done.
    + rewrite Hi. done.
  - intros Hf. apply fmap_Some in Hf as ([i [e' s']] & Hf & Hs). cbn in Hs. subst s'.
    apply list_find_Some in Hf as (Hi & He & _). cbn in He. subst e'.
    by apply list_elem_of_lookup_2 in Hi.
Qed.

Lemma keep_last_sub keep l p : p ∈ keep_last keep l -> p ∈ l.
Proof. apply elem_of_drop. Qed.

Lemma keep_last_end keep l p : p ∈ keep_last keep (l ++ [p]).
Proof.
  unfold keep_last. rewrite length_app. cbn [length]. rewrite drop_app_le by lia.
  apply elem_of_app. right. by apply list_elem_of_singleton.
Qed.

Lemma zlen_keep_last keep l : zlen (keep_last keep l) <= Z.max keep 1.
Proof. unfold keep_last, zlen. rewrite length_drop. lia. Qed.

(** What [store] leaves: the new epoch is the one to send with, it has the new
    secret, and an epoch that is still there keeps its secret. *)
Lemma ps_store_ok now epoch ss keep st :
  ps_ok keep st -> is_u 32 epoch -> epoch <> 0 -> zlen ss = 32 ->
  exists st', ps_store now epoch ss keep st = (st', Ok tt) /\ ps_ok keep st'
    /\ ps_send_epoch st' = Some epoch /\ ps_secret st' epoch = Some ss
    /\ ps_recent st' = rk_default /\ ps_replay st' = ps_replay st /\ ps_counter st' = ps_counter st
    /\ (forall e s, e <> epoch -> ps_secret st' e = Some s -> ps_secret st e = Some s).
Proof.
  intros [Hnd Hsec Hk Hsend Hc Hb] He He0 Hl. unfold ps_store. rewrite Hl. cbn [negb].
  set (l := filter (fun p => p.1 <> epoch) (ps_epochs st) ++ [(epoch, ss)]).
  assert (Hndl : NoDup l.*1).
  { unfold l. rewrite fmap_app. apply NoDup_app. split_and!; [| |apply NoDup_singleton].
    - eapply sublist_NoDup; [exact Hnd|]. apply fmap_sublist, sublist_filter.
    - intros x (p & -> & Hp)%list_elem_of_fmap Hx%list_elem_of_singleton.
      by apply list_elem_of_filter in Hp as [Hp _]. }
  assert (Hnd' : NoDup (keep_last keep l).*1).
  { eapply sublist_NoDup; [exact Hndl|]. apply fmap_sublist, sublist_drop. }
  eexists. split; [done|]. cbn [ps_send_epoch ps_recent ps_replay ps_counter].
  assert (Hin : (epoch, ss) ∈ keep_last keep l) by apply keep_last_end.
  split_and!; try done.
  - constructor; cbn [ps_epochs ps_send_epoch ps_epoch_sends ps_counter ps_respond_burst]; [done| |apply zlen_keep_last| |lia|done].
    + apply Forall_forall. intros p Hp%keep_last_sub. apply elem_of_app in Hp as [Hp| ->%list_elem_of_singleton]; [|done].
      rewrite Forall_forall in Hsec. apply Hsec. by apply list_elem_of_filter in Hp as [_ Hp].
    + intros e [= <-]. apply list_elem_of_fmap. by exists (epoch, ss).
  - by apply ps_secret_elem.
  - intros e s Hne Hs. apply ps_secret_elem in Hs; [|done]. apply keep_last_sub in Hs.
    apply elem_of_app in Hs as [Hs|[= -> ->]%list_elem_of_singleton]; [|done].
    apply list_elem_of_filter in Hs as [_ Hs]. by apply ps_secret_elem.
Qed.

Lemma ps_ok_send keep st e : ps_ok keep st -> ps_send_epoch st = Some e ->
  exists s, ps_secret st e = Some s /\ zlen s = 32 /\ is_u 32 e.
Proof.
  intros [Hnd Hsec _ Hsend _ _] Hs. apply Hsend in Hs. apply list_elem_of_fmap in Hs as ([e' s] & -> & Hin).
  exists s. rewrite Forall_forall in Hsec. destruct (Hsec _ Hin) as (H1 & _ & H2).
  split_and!; [|done|done]. by apply ps_secret_elem.
Qed.

Lemma fresh_epoch_spec st draws e : fresh_epoch st draws = Some e -> e ∈ draws /\ e <> 0 /\ e ∉ (ps_epochs st).*1.
Proof.
  unfold fresh_epoch. intros ([i x] & Hf & ->)%fmap_Some. apply list_find_Some in Hf as (Hi & Hfree & _).
  cbn [snd]. split; [by eapply list_elem_of_lookup_2|]. unfold epoch_free in Hfree. b2p.
  split; [done|]. intros ([e' s] & -> & Hin)%list_elem_of_fmap. cbn in *.
  apply not_true_iff_false in H0. apply H0. apply existsb_exists. exists (e', s).
  split; [by apply list_elem_of_In|]. cbn. lia.
Qed.

(** ** Runs

    What the tasks of a process do to the layer, in any order: the generator
    seals, the delivery pump commits what it verified, the HTTP server answers
    agreements and the background tasks ask for them.  [er_ids] are the ids
    sealed under the current epoch of each peer, newest first; [er_evs] what was
    offered to its replay window, oldest first, and [er_acc] what it accepted. *)

Inductive e2e_event :=
  | EvSeal (peer key_id : string) (header : Header) (plaintext : bytes)
  | EvCommit (now : Z) (source : string) (epoch session counter : Z)
  | EvBegin (now : Z) (seed : bytes) (peer : string)
  | EvComplete (now : Z) (peer : string) (resp : KemResponse)
  | EvRespond (now : Z) (seed : bytes) (draws : list Z) (peer : string) (req : KemRequest)
  | EvGate (now : Z) (reachable : bool) (peer : string)
  | EvDone (peer : string) (ok : bool).

Record e2e_run := mkRun {
  er_e : E2e;
  er_ids : string -> list string;
  er_evs : string -> list (Z * Z * Z);
  er_acc : string -> list (Z * Z);
}.

Definition upd {A} (peer : string) (v : A) (f : string -> A) : string -> A :=
  fun q => if decide (q = peer) then v else f q.

Section Runs.
Context `{MacCrypto} `{AesGcm} `{MlKem} `{TextCodecs}.

Definition e2e_do (s : e2e_run) (ev : e2e_event) : e2e_run :=
  let '(mkRun e ids evs acc) := s in
  match ev with
  | EvSeal peer id h p =>
      let ids' := if is_ok (snd (seal_reserve (state e peer) peer id)) then upd peer (id :: ids peer) ids else ids in
      mkRun (fst (fst (e2e_seal e peer id h p))) ids' evs acc
  | EvCommit now source epoch session counter =>
      let evs' := match e_peers e !! source with
                  | Some _ => upd source (evs source ++ [(now, session, counter)]) evs | None => evs end in
      let '(e', r) := open_commit now e source epoch session counter in
      mkRun e' ids evs' (if is_ok r then upd source ((session, counter) :: acc source) acc else acc)
  | EvBegin now seed peer => mkRun (fst (begin_request now seed e peer)) ids evs acc
  | EvComplete now peer resp =>
      let '(e', r) := complete_request now e peer resp in
      mkRun e' (if is_ok r then upd peer [] ids else ids) evs acc
  | EvRespond now seed draws peer req =>
      let '(e', r) := respond now seed draws e peer req in
      mkRun e' (match r with Some (Ok _) => upd peer [] ids | _ => ids end) evs acc
  | EvGate now reachable peer => mkRun (fst (agreement_gate now reachable e peer)) ids evs acc
  | EvDone peer ok => mkRun (agreement_done e peer (if ok then Ok tt else Err (NoEpoch peer))) ids evs acc
  end.

Definition e2e_trace (my_id : string) (cfg : TransportE2eCfg) (evs : list e2e_event) : e2e_run :=
  fold_left e2e_do evs (mkRun (e2e_new my_id cfg) (fun _ => []) (fun _ => []) (fun _ => [])).

(** Machine-width arguments: an epoch on the wire and a drawn one are [u32]. *)
Definition ev_typed (ev : e2e_event) : Prop :=
  match ev with
  | EvComplete _ _ resp => is_u 32 (kr_epoch resp)
  | EvRespond _ _ draws _ _ => Forall (is_u 32) draws
  | EvCommit _ _ _ _ counter => 0 <= counter
  | _ => True
  end.
End Runs.

(** ** The invariant of a run *)

Lemma state_put e p st q : state (put e p st) q = if decide (q = p) then st else state e q.
Proof.
  unfold state, put. cbn [e_cfg e_peers]. destruct (decide (q = p)) as [->|Hne].
  - by rewrite lookup_insert_eq.
  - by rewrite lookup_insert_ne.
Qed.

Lemma state_put_eq e p st : state (put e p st) p = st.
Proof. rewrite state_put. by destruct (decide (p = p)). Qed.

(** What holds of one peer: its state is well formed, the guard holds the last
    ids, the window is the result of what it was offered. *)
Record peer_inv (cfg : TransportE2eCfg) (st : PeerState) (ids : list string) (evs : list (Z * Z * Z)) (acc : list (Z * Z)) : Prop := {
  pi_ok : ps_ok (ec_epoch_history_keep cfg) st;
  pi_ids : rk_tracks (ps_recent st) ids;
  pi_fresh : forall i, NoDup (take (S (Z.to_nat GUARDRAIL_WINDOW)) (drop i ids));
  pi_win : win_run (win_new (ec_replay_window cfg)) evs [] = (ps_replay st, acc);
  pi_evs : Forall (fun '(_, _, c) => 0 <= c) evs;
}.

Record run_inv (my_id : string) (cfg : TransportE2eCfg) (s : e2e_run) : Prop := {
  ri_id : e_my_id (er_e s) = my_id;
  ri_cfg : e_cfg (er_e s) = cfg;
  ri_peer : forall q, peer_inv cfg (state (er_e s) q) (er_ids s q) (er_evs s q) (er_acc s q);
}.

Definition cfg_typed (cfg : TransportE2eCfg) : Prop := is_u 8 (ec_respond_burst cfg).

Lemma run_inv_new my_id cfg : run_inv my_id cfg (mkRun (e2e_new my_id cfg) (fun _ => []) (fun _ => []) (fun _ => [])).
Proof.
  constructor; [done..|]. intros q. unfold state. cbn. constructor; cbn.
  - apply ps_new_ok.
  - apply rk_default_tracks.
  - intros i. rewrite drop_nil. apply NoDup_nil_2.
  - done.
  - constructor.
Qed.

(** A step that rewrites one peer. *)
Lemma run_inv_put my_id cfg e ids evs acc peer st ids' evs' acc' :
  run_inv my_id cfg (mkRun e ids evs acc) ->
  (peer_inv cfg (state e peer) (ids peer) (evs peer) (acc peer) -> peer_inv cfg st ids' evs' acc') ->
  run_inv my_id cfg (mkRun (put e peer st) (upd peer ids' ids) (upd peer evs' evs) (upd peer acc' acc)).
Proof.
  intros [H1 H2 H3] Hst. constructor; [done..|]. cbn [er_e er_ids er_evs er_acc] in *. intros q.
  rewrite state_put. unfold upd. destruct (decide (q = peer)) as [->|]; auto.
Qed.

(** A step that leaves the ghost state of the peer as it is. *)
Lemma run_inv_frame my_id cfg e ids evs acc peer st :
  run_inv my_id cfg (mkRun e ids evs acc) ->
  (ps_ok (ec_epoch_history_keep cfg) (state e peer) -> ps_ok (ec_epoch_history_keep cfg) st) ->
  ps_recent st = ps_recent (state e peer) -> ps_replay st = ps_replay (state e peer) ->
  run_inv my_id cfg (mkRun (put e peer st) ids evs acc).
Proof.
  intros [H1 H2 H3] Hok Hr Hw. constructor; [done..|]. cbn [er_e er_ids er_evs er_acc] in *. intros q.
  rewrite state_put. destruct (decide (q = peer)) as [->|]; [|auto].
  destruct (H3 peer) as [G1 G2 G3 G4 G5]. constructor; auto; congruence.
Qed.

Lemma ps_ok_same keep st st' :
  ps_epochs st' = ps_epochs st -> ps_send_epoch st' = ps_send_epoch st ->
  ps_counter st' = ps_counter st -> ps_epoch_sends st' = ps_epoch_sends st ->
  is_u 8 (ps_respond_burst st') -> ps_ok keep st -> ps_ok keep st'.
Proof. intros E1 E2 E3 E4 Hb []. constructor; rewrite ?E1, ?E2, ?E3, ?E4; done. Qed.

Lemma win_run_snoc w evs acc now s c w1 acc1 : win_run w evs acc = (w1, acc1) ->
  win_run w (evs ++ [(now, s, c)]) acc =
    (fst (check_and_set now w1 s c), if is_ok (snd (check_and_set now w1 s c)) then (s, c) :: acc1 else acc1).
Proof.
  revert w acc. induction evs as [|[[n' s'] c'] evs IH]; intros w acc; cbn [app win_run].
  - intros [= -> ->]. by destruct (check_and_set now w1 s c) as [w' []].
  - destruct (check_and_set n' w s' c') as [w' []]; apply IH.
Qed.

Lemma respond_gate_ok keep now burst st : is_u 8 burst -> 1 <= burst -> ps_ok keep st ->
  ps_ok keep (fst (respond_gate now burst st)) /\ ps_recent (fst (respond_gate now burst st)) = ps_recent st
  /\ ps_replay (fst (respond_gate now burst st)) = ps_replay st
  /\ ps_epochs (fst (respond_gate now burst st)) = ps_epochs st
  /\ ps_pending_esk (fst (respond_gate now burst st)) = ps_pending_esk st.
Proof.
  intros Hb Hb1 Hok. unfold respond_gate.
  assert (Hf : ps_ok keep (set_limiter (Some now) (burst - 1) st)).
  { eapply ps_ok_same; [..|exact Hok]; try done. cbn. ufold. lia. }
  destruct (ps_last_response st) as [t|]; [|by cbn [fst]].
  destruct (_ <? _); [|by cbn [fst]]. destruct (Z.eqb_spec (ps_respond_burst st) 0); [by cbn [fst]|].
  cbn [fst]. split_and!; try done. eapply ps_ok_same; [..|exact Hok]; try done.
  cbn. pose proof (ok_burst _ _ Hok). ufold. lia.
Qed.

Section RunInv.
Context `{MacCrypto} `{AesGcm} `{MlKem} `{TextCodecs}.
Context (my_id : string) (cfg : TransportE2eCfg) (Hcfg : cfg_typed cfg).

Lemma seal_state e peer id h p :
  fst (fst (e2e_seal e peer id h p)) = put e peer (fst (seal_reserve (state e peer) peer id)).
Proof.
  unfold e2e_seal. destruct (seal_reserve _ _ _) as [st [[[epoch secret] c]|err|]]; try done.
  cbn [fst]. destruct (derive secret id) as [k n].
  by destruct (seal_detached k n p _) as [[ct tag]|err|].
Qed.

Lemma nodup_window (W : nat) (id : string) ids :
  id ∉ take W ids -> (forall i, NoDup (take (S W) (drop i ids))) -> forall i, NoDup (take (S W) (drop i (id :: ids))).
Proof.
  intros Hn Hd [|i]; [|apply Hd]. rewrite drop_0. cbn [firstn]. constructor; [done|].
  specialize (Hd 0%nat). rewrite drop_0 in Hd. eapply sublist_NoDup; [exact Hd|].
  replace (take W ids) with (take W (take (S W) ids)) by (rewrite take_take; f_equal; lia).
  apply sublist_take.
Qed.

Lemma seal_reserve_inv st peer id ids evs acc :
  peer_inv cfg st ids evs acc ->
  let '(st', r) := seal_reserve st peer id in
  if is_ok r then peer_inv cfg st' (id :: ids) evs acc else st' = st.
Proof.
  intros [Hok Hids Hfr Hw Hev]. unfold seal_reserve.
  destruct (ps_send_epoch st) as [ep|] eqn:Es; [|done].
  destruct (ps_secret st ep) as [s|] eqn:Ess; [|done].
  pose proof (rk_insert_tracks (ps_recent st) ids id Hids) as Hins.
  destruct (rk_insert (ps_recent st) id) as [r' [|]]; cbn [negb]; [|done].
  destruct (_ || _) eqn:Eo; [done|]. b2p. cbn [is_ok]. destruct Hins as [Hn Htr].
  destruct Hok as [O1 O2 O3 O4 O5 O6].
  constructor; [|exact Htr|by apply nodup_window|done|done].
  constructor; try done. cbn. ufold. lia.
Qed.

Lemma do_seal s peer id h p : run_inv my_id cfg s -> run_inv my_id cfg (e2e_do s (EvSeal peer id h p)).
Proof.
  destruct s as [e ids evs acc]. intros Hinv. cbn [e2e_do]. rewrite seal_state.
  pose proof (seal_reserve_inv (state e peer) peer id (ids peer) (evs peer) (acc peer) (ri_peer _ _ _ Hinv peer)) as Hr.
  destruct (seal_reserve (state e peer) peer id) as [st r]. cbn [fst snd]. destruct (is_ok r).
  - pose proof (run_inv_put my_id cfg e ids evs acc peer st (id :: ids peer) (evs peer) (acc peer) Hinv (fun _ => Hr)) as [G1 G2 G3].
    constructor; [done..|]. intros q. specialize (G3 q). cbn [er_e er_ids er_evs er_acc] in *. unfold upd in *.
    destruct (decide (q = peer)) as [->|]; done.
  - subst st. by apply run_inv_frame.
Qed.

Lemma do_commit s now source ep ses c : 0 <= c -> run_inv my_id cfg s ->
  run_inv my_id cfg (e2e_do s (EvCommit now source ep ses c)).
Proof.
  destruct s as [e ids evs acc]. intros Hc Hinv. cbn [e2e_do]. unfold open_commit.
  destruct (e_peers e !! source) as [st|] eqn:El; [|done].
  assert (Est : state e source = st) by (unfold state; by rewrite El).
  destruct (check_and_set now (ps_replay st) ses c) as [w r] eqn:Ew.
  destruct Hinv as [I1 I2 I3]. constructor; [done..|]. cbn [er_e er_ids er_evs er_acc] in *. intros q.
  rewrite state_put. unfold upd.
  destruct (decide (q = source)) as [->|]; [|by destruct (is_ok _); destruct (decide (q = source)); auto].
  destruct (I3 source) as [G1 G2 G3 G4 G5]. rewrite Est in *. constructor; try done.
  - eapply ps_ok_same; [..|exact G1]; try done. apply G1.
  - rewrite (win_run_snoc _ _ _ _ _ _ _ _ G4), Ew. cbn [fst snd ps_replay set_replay]. f_equal.
    destruct r; cbn [res_map_err is_ok]; by destruct (decide (source = source)).
  - apply Forall_app. split; [done|]. by repeat constructor.
Qed.

Lemma do_store s now peer epoch ss e' ids' st r :
  run_inv my_id cfg s -> is_u 32 epoch -> epoch <> 0 ->
  ps_store now epoch ss (ec_epoch_history_keep cfg) (state (er_e s) peer) = (st, r) ->
  e' = put (er_e s) peer st -> ids' = (if is_ok r then upd peer [] (er_ids s) else er_ids s) ->
  run_inv my_id cfg (mkRun e' ids' (er_evs s) (er_acc s)).
Proof.
  destruct s as [e ids evs acc]. cbn [er_e er_ids er_evs er_acc]. intros Hinv He He0 Est -> ->.
  destruct (Z.eq_dec (zlen ss) 32) as [Hl|Hl].
  - pose proof (ri_peer _ _ _ Hinv peer) as Hp. cbn in Hp.
    destruct (ps_store_ok now epoch ss _ _ (pi_ok _ _ _ _ _ Hp) He He0 Hl)
      as (st' & E & Hok & _ & _ & Hrec & Hrep & _). rewrite E in Est. injection Est as <- <-. cbn [is_ok].
    destruct Hinv as [I1 I2 I3]. constructor; [done..|]. cbn [er_e er_ids er_evs er_acc] in *. intros q.
    rewrite state_put. unfold upd. destruct (decide (q = peer)) as [->|]; [|auto].
    destruct (I3 peer) as [G1 G2 G3 G4 G5]. constructor; [done| | | |done].
    + rewrite Hrec. apply rk_default_tracks.
    + intros i. rewrite drop_nil. apply NoDup_nil_2.
    + by rewrite Hrep.
  - unfold ps_store in Est. rewrite (proj2 (Z.eqb_neq _ _) Hl) in Est. injection Est as <- <-. cbn [is_ok].
    by apply run_inv_frame.
Qed.

Lemma frame_esk s peer k : run_inv my_id cfg s ->
  run_inv my_id cfg (mkRun (put (er_e s) peer (set_esk k (state (er_e s) peer))) (er_ids s) (er_evs s) (er_acc s)).
Proof.
  destruct s as [e ids evs acc]. intros Hinv. apply run_inv_frame; try done. intros Hok.
  eapply ps_ok_same; [..|exact Hok]; try done. apply Hok.
Qed.

Lemma frame_attempt s peer i t : run_inv my_id cfg s ->
  run_inv my_id cfg (mkRun (put (er_e s) peer (set_attempt i t (state (er_e s) peer))) (er_ids s) (er_evs s) (er_acc s)).
Proof.
  destruct s as [e ids evs acc]. intros Hinv. apply run_inv_frame; try done. intros Hok.
  eapply ps_ok_same; [..|exact Hok]; try done. apply Hok.
Qed.

Lemma do_begin s now seed peer : run_inv my_id cfg s -> run_inv my_id cfg (e2e_do s (EvBegin now seed peer)).
Proof.
  intros Hinv. pose proof (fun k => frame_esk s peer k Hinv) as Hk. destruct s as [e ids evs acc]. cbn [e2e_do].
  unfold begin_request. destruct (kem_for _); try done. apply Hk.
Qed.

Lemma do_complete s now peer resp : is_u 32 (kr_epoch resp) -> run_inv my_id cfg s ->
  run_inv my_id cfg (e2e_do s (EvComplete now peer resp)).
Proof.
  intros He Hinv. pose proof (frame_esk s peer None Hinv) as Hk. destruct s as [e ids evs acc]. cbn [e2e_do].
  unfold complete_request. destruct (Z.eqb_spec (kr_epoch resp) 0); [done|].
  destruct (negb _); [done|]. destruct (kem_for _) as [kem|x|]; [|done..].
  destruct (b64_decode _) as [ct|]; [|done]. destruct (ps_pending_esk _) as [[esk since]|]; [|exact Hk].
  destruct (_ <? _); [exact Hk|]. destruct (kem_err _) as [ss|x|]; [|exact Hk..].
  destruct (ps_store _ _ _ _ _) as [st r] eqn:Est.
  pose proof (ri_cfg _ _ _ Hinv) as Hc. cbn [er_e e_cfg put] in *. rewrite Hc in Est.
  apply (do_store _ _ _ _ _ _ _ _ _ Hk He n Est); [done|]. by destruct r.
Qed.

Lemma do_respond s now seed draws peer req : Forall (is_u 32) draws -> run_inv my_id cfg s ->
  run_inv my_id cfg (e2e_do s (EvRespond now seed draws peer req)).
Proof.
  intros Hd Hinv. pose proof (ri_peer _ _ _ Hinv peer) as Hp. pose proof (ri_cfg _ _ _ Hinv) as Hc.
  destruct s as [e ids evs acc]. cbn [e2e_do er_e er_ids er_evs er_acc] in *. unfold respond. rewrite Hc.
  destruct (respond_gate_ok (ec_epoch_history_keep cfg) now (Z.max (ec_respond_burst cfg) 1) (state e peer))
    as (G1 & G2 & G3 & _); [unfold cfg_typed in Hcfg; ufold; lia|lia|apply Hp|].
  destruct (respond_gate _ _ _) as [st pass]. cbn [fst] in *.
  assert (Hk : run_inv my_id cfg (mkRun (put e peer st) ids evs acc)) by (by apply run_inv_frame).
  destruct pass; [|exact Hk]. cbn [negb e_cfg put].
  destruct (negb _); [exact Hk|]. destruct (kem_for _) as [kem|x|]; [|exact Hk..].
  destruct (b64_decode _) as [epk|]; [|exact Hk]. destruct (negb _); [exact Hk|].
  destruct (kem_err _) as [enc|x|]; [|exact Hk..].
  change (mkE2e _ _ _) with (put e peer st).
  destruct (fresh_epoch _ _) as [ep|] eqn:Ef; [|exact Hk].
  destruct (fresh_epoch_spec _ _ _ Ef) as (Hin & Hne0 & _). rewrite Forall_forall in Hd.
  destruct (ps_store _ _ _ _ _) as [st' r] eqn:Est. rewrite Hc in Est.
  apply (do_store _ _ _ _ _ _ _ _ _ Hk (Hd _ Hin) Hne0 Est); [done|]. by destruct r.
Qed.

Lemma do_event s ev : ev_typed ev -> run_inv my_id cfg s -> run_inv my_id cfg (e2e_do s ev).
Proof.
  intros Ht Hinv. destruct ev; cbn [ev_typed] in Ht.
  - by apply do_seal.
  - by apply do_commit.
  - by apply do_begin.
  - by apply do_complete.
  - by apply do_respond.
  - pose proof (frame_attempt s peer true (Some now) Hinv) as Hk. destruct s as [e ids evs acc]. cbn [e2e_do].
    unfold agreement_gate. destruct (negb _); [done|].
    destruct (ps_inflight _); [by apply run_inv_frame|].
    destruct (match ps_last_attempt _ with Some _ => _ | None => _ end); [by apply run_inv_frame|exact Hk].
  - pose proof (frame_attempt s peer false (ps_last_attempt (state (er_e s) peer)) Hinv) as Hk.
    destruct s as [e ids evs acc]. cbn [e2e_do]. unfold agreement_done. destruct ok; [exact Hk|].
    apply run_inv_frame; try done. intros Hok. eapply ps_ok_same; [..|exact Hok]; try done. apply Hok.
Qed.

Lemma trace_inv evs : Forall ev_typed evs -> run_inv my_id cfg (e2e_trace my_id cfg evs).
Proof.
  unfold e2e_trace. intros Hevs. generalize (run_inv_new my_id cfg).
  generalize (mkRun (e2e_new my_id cfg) (fun _ => []) (fun _ => []) (fun _ => [])).
  induction Hevs as [|ev evs Hev Hevs IH]; intros s Hs; [done|]. cbn [fold_left].
  apply IH. by apply do_event.
Qed.
End RunInv.

(** ** What a run guarantees *)

Section Guarantees.
Context `{MacCrypto} `{AesGcm} `{MlKem} `{TextCodecs}.

(** C38: whatever the tasks do and in whatever order, the state kept for every
    peer is well formed: the epochs are distinct non-zero [u32] with secrets of 32
    bytes, no more than the configured history is kept, the epoch to send with has
    its secret, the counters fit, and the guard remembers at most 8192 ids. *)
Theorem e2e_state_well_formed (my_id peer : string) (cfg : TransportE2eCfg) (evs : list e2e_event)
  (Hcfg : cfg_typed cfg) (Hevs : Forall ev_typed evs) :
  let st := state (er_e (e2e_trace my_id cfg evs)) peer in
  ps_ok (ec_epoch_history_keep cfg) st
  /\ zlen (rk_order (ps_recent st)) <= GUARDRAIL_WINDOW
  /\ rk_seen (ps_recent st) = list_to_set (rk_order (ps_recent st)).
Proof.
  cbv zeta. destruct (ri_peer _ _ _ (trace_inv my_id cfg Hcfg evs Hevs) peer) as [Hok [Hs _ Hl] _ _ _].
  split_and!; [done| |done]. rewrite Hl. unfold zlen. rewrite length_rev, length_take.
  change GUARDRAIL_WINDOW with (Z.of_nat (Z.to_nat GUARDRAIL_WINDOW)). lia.
Qed.

(** C32: under one epoch no key id is sealed twice within any 8193 consecutive
    keys, whatever is asked for and however seals interleave with agreements: the
    key and the nonce of AES-GCM are derived from the id, so none is used twice. *)
Theorem key_id_not_reused (my_id peer : string) (cfg : TransportE2eCfg) (evs : list e2e_event) (i : nat)
  (Hcfg : cfg_typed cfg) (Hevs : Forall ev_typed evs) :
  NoDup (take (S (Z.to_nat GUARDRAIL_WINDOW)) (drop i (er_ids (e2e_trace my_id cfg evs) peer))).
Proof. apply (ri_peer _ _ _ (trace_inv my_id cfg Hcfg evs Hevs) peer). Qed.

(** C33: a sealed key is accepted from a peer at most once: over any run, the pairs
    of incarnation and counter that passed [open] are distinct, as long as the
    peer has shown at most ten incarnations. *)
Theorem e2e_opens_at_most_once (my_id source : string) (cfg : TransportE2eCfg) (evs : list e2e_event)
  (Hcfg : cfg_typed cfg) (Hevs : Forall ev_typed evs)
  (Hten : (size (list_to_set (map (fun '(_, s, _) => s) (er_evs (e2e_trace my_id cfg evs) source)) : gset Z) <= 10)%nat) :
  NoDup (er_acc (e2e_trace my_id cfg evs) source).
Proof.
  destruct (ri_peer _ _ _ (trace_inv my_id cfg Hcfg evs Hevs) source) as [_ _ _ Hw He].
  pose proof (win_run_nodup AdoptAny (ec_replay_window cfg) _ He Hten) as Hnd.
  change (win_with_adopt AdoptAny (win_new (ec_replay_window cfg))) with (win_new (ec_replay_window cfg)) in Hnd.
  by rewrite Hw in Hnd.
Qed.

(** ** Epochs are found *)

Lemma existsb_epoch st x : existsb (fun p => p.1 =? x) (ps_epochs st) = false -> x ∉ (ps_epochs st).*1.
Proof.
  intros Hf ([e s] & -> & Hin)%list_elem_of_fmap. apply not_true_iff_false in Hf. apply Hf.
  apply existsb_exists. exists (e, s). split; [by apply list_elem_of_In|]. cbn. lia.
Qed.

(** Drawing an epoch ends: one more distinct value than the epochs kept, and
    zero, can hold, is enough to find a free one, whatever the values are. *)
Theorem fresh_epoch_terminates (st : PeerState) (draws : list Z)
  (Hnd : NoDup draws) (Hlen : zlen (ps_epochs st) + 1 < zlen draws) :
  exists e, fresh_epoch st draws = Some e /\ e ∈ draws /\ e <> 0 /\ e ∉ (ps_epochs st).*1.
Proof.
  destruct (fresh_epoch st draws) as [e|] eqn:Ef.
  - exists e. split; [done|]. by apply fresh_epoch_spec.
  - exfalso. unfold fresh_epoch in Ef. apply fmap_None, list_find_None in Ef.
    assert (Hsub : draws ⊆ 0 :: (ps_epochs st).*1).
    { intros x Hx. rewrite Forall_forall in Ef. specialize (Ef x Hx). unfold epoch_free in Ef.
      destruct (decide (x = 0)) as [->|Hx0]; [by left|]. right.
      rewrite (proj2 (Z.eqb_neq x 0) Hx0) in Ef. cbn [negb andb] in Ef.
      destruct (existsb (fun p => p.1 =? x) (ps_epochs st)) eqn:Ex; [|by destruct Ef].
      apply existsb_exists in Ex as ([e s] & Hin & He). apply list_elem_of_fmap. exists (e, s).
      split; [cbn in *; lia|by apply list_elem_of_In]. }
    pose proof (submseteq_length _ _ (NoDup_submseteq _ _ Hnd Hsub)) as Hl.
    cbn [length] in Hl. rewrite length_fmap in Hl. unfold zlen in Hlen. lia.
Qed.
End Guarantees.

(** ** Two ends *)

Definition shares (a b : E2e) (epoch : Z) (ss : bytes) : Prop :=
  ps_secret (state a (e_my_id b)) epoch = Some ss /\ ps_secret (state b (e_my_id a)) epoch = Some ss.

Definition sends_under (a : E2e) (peer : string) (epoch : Z) : Prop := ps_send_epoch (state a peer) = Some epoch.

Definition end_ok (a : E2e) (peer : string) : Prop :=
  cfg_typed (e_cfg a) /\ ps_ok (ec_epoch_history_keep (e_cfg a)) (state a peer).

Section Ends.
Context `{MacCrypto} `{AesGcm} `{MlKem} `{TextCodecs}.

(** The task of [request_agreement] at [a] with the handler of [b] at the other
    end of the call; [None] while [b] is still drawing an epoch. *)
Definition agreement (now1 now2 now3 : Z) (seedA seedB : bytes) (draws : list Z) (a b : E2e)
  : E2e * E2e * option (res E2eError Z) :=
  let '(a, r) := begin_request now1 seedA a (e_my_id b) in
  match r with
  | Err x => (agreement_done a (e_my_id b) r, b, Some (Err x))
  | Panic => (a, b, Some Panic)
  | Ok req =>
      let '(b, r) := respond now2 seedB draws b (e_my_id a) req in
      match r with
      | None => (a, b, None)
      | Some Panic => (a, b, Some Panic)
      | Some (Err x) => (agreement_done a (e_my_id b) (Err (A := Z) (PeerErr "http")), b, Some (Err (PeerErr "http")))
      | Some (Ok resp) =>
          let '(a, r) := complete_request now3 a (e_my_id b) resp in
          (agreement_done a (e_my_id b) r, b, Some r)
      end
  end.

Definition same_keys (st st' : PeerState) : Prop :=
  ps_epochs st' = ps_epochs st /\ ps_send_epoch st' = ps_send_epoch st.

Lemma same_keys_secret st st' e : same_keys st st' -> ps_secret st' e = ps_secret st e.
Proof. intros [E _]. unfold ps_secret. by rewrite E. Qed.

(** The request of one end is well formed for the other, and the answer gives
    both the same secret. *)
Lemma begin_ok now seed a peer k : ec_suite (e_cfg a) = suite_name k ->
  begin_request now seed a peer =
    (put a peer (set_esk (Some (kp_secret (keygen k seed), now)) (state a peer)),
     Ok (mkKemReq (suite_name k) (b64_encode (kp_public (keygen k seed))))).
Proof.
  intros Hs. unfold begin_request. rewrite Hs, kem_for_suite.
  destruct (kem_roundtrip k seed seed) as (_ & _ & _ & _ & _ & _ & _ & _ & _ & ->). done.
Qed.

Lemma respond_ok now seedA seedB draws b peer k :
  ec_suite (e_cfg b) = suite_name k -> end_ok b peer ->
  snd (respond_gate now (Z.max (ec_respond_burst (e_cfg b)) 1) (state b peer)) = true ->
  Forall (is_u 32) draws -> is_Some (fresh_epoch (state b peer) draws) ->
  exists b' epoch ct ss,
    respond now seedB draws b peer (mkKemReq (suite_name k) (b64_encode (kp_public (keygen k seedA))))
      = (b', Some (Ok (mkKemResp (suite_name k) epoch (b64_encode ct))))
    /\ decap k (kp_secret (keygen k seedA)) ct = Ok ss /\ zlen ss = 32 /\ wf_bytes ct
    /\ is_u 32 epoch /\ epoch <> 0 /\ e_my_id b' = e_my_id b /\ e_cfg b' = e_cfg b
    /\ end_ok b' peer /\ ps_secret (state b' peer) epoch = Some ss /\ sends_under b' peer epoch
    /\ (exists l, ps_epochs (state b' peer) = l ++ [(epoch, ss)])
    /\ ps_pending_esk (state b' peer) = ps_pending_esk (state b peer) /\ epoch ∈ draws.
Proof.
  intros Hs [Hcfg Hok] Hgate Hd [epoch Hep].
  destruct (kem_roundtrip k seedA seedB) as (ct & ss & He & Hdec & Hss & _ & Hct & Hpl & Hpw & _).
  destruct (fresh_epoch_spec _ _ _ Hep) as (Hin & Hne & _). rewrite Forall_forall in Hd.
  unfold respond. cbn [kq_suite kq_epk].
  destruct (respond_gate_ok (ec_epoch_history_keep (e_cfg b)) now (Z.max (ec_respond_burst (e_cfg b)) 1) (state b peer))
    as (G1 & G2 & G3 & G4 & G5); [unfold cfg_typed in Hcfg; ufold; lia|lia|done|].
  destruct (respond_gate _ _ _) as [st pass]. cbn [fst snd] in *. subst pass. cbn [negb].
  cbn [put e_cfg]. fold (put b peer st). rewrite Hs, bool_decide_eq_true_2 by done. cbn [negb]. rewrite kem_for_suite, b64_roundtrip by done.
  rewrite Hpl, Z.eqb_refl. cbn [negb]. rewrite He. cbn [kem_err res_map_err ke_shared_secret ke_ciphertext].
  rewrite state_put_eq.
  assert (Hf : fresh_epoch st draws = Some epoch).
  { rewrite <- Hep. unfold fresh_epoch, epoch_free. by rewrite G4. }
  rewrite Hf.
  destruct (ps_store_ok now epoch ss _ _ G1 (Hd _ Hin) Hne Hss) as (st' & E & Hok' & Hse & Hsc & _).
  assert (Hlast : exists l, ps_epochs st' = l ++ [(epoch, ss)]).
  { unfold ps_store in E. rewrite Hss in E. cbn [Z.eqb negb] in E. injection E as <-. cbn [ps_epochs].
    unfold keep_last. rewrite length_app. cbn [length]. rewrite drop_app_le by lia. eauto. }
  assert (Hesk : ps_pending_esk st' = ps_pending_esk st).
  { unfold ps_store in E. rewrite Hss in E. cbn [Z.eqb negb] in E. by injection E as <-. }
  rewrite E. eexists _, epoch, ct, ss. unfold end_ok, sends_under. rewrite !state_put_eq. cbn [put e_cfg e_my_id].
  split_and!; try done; [by apply Hd|congruence].
Qed.

Lemma complete_ok now a peer k epoch ct ss esk since :
  ec_suite (e_cfg a) = suite_name k -> end_ok a peer ->
  ps_pending_esk (state a peer) = Some (esk, since) -> since <= now <= since + PENDING_ESK_TTL ->
  decap k esk ct = Ok ss -> zlen ss = 32 -> wf_bytes ct -> is_u 32 epoch -> epoch <> 0 ->
  exists a', complete_request now a peer (mkKemResp (suite_name k) epoch (b64_encode ct)) = (a', Ok epoch)
    /\ e_my_id a' = e_my_id a /\ e_cfg a' = e_cfg a /\ end_ok a' peer
    /\ ps_secret (state a' peer) epoch = Some ss /\ sends_under a' peer epoch
    /\ ps_pending_esk (state a' peer) = None
    /\ (forall e s l, 2 <= ec_epoch_history_keep (e_cfg a) -> e <> epoch ->
          ps_epochs (state a peer) = l ++ [(e, s)] -> ps_secret (state a' peer) e = Some s).
Proof.
  intros Hs [Hcfg Hok] Hesk Hnow Hdec Hss Hct He Hne. unfold complete_request. cbn [kr_epoch kr_suite kr_ct].
  rewrite (proj2 (Z.eqb_neq _ _) Hne), Hs, bool_decide_eq_true_2 by done. cbn [negb].
  rewrite kem_for_suite, b64_roundtrip, Hesk by done.
  destruct (Z.ltb_spec PENDING_ESK_TTL (elapsed now since)) as [Hl|_]; [unfold elapsed, sat_sub in Hl; lia|].
  rewrite Hdec. cbn [kem_err res_map_err]. rewrite state_put_eq. cbn [put e_cfg].
  fold (put a peer (set_esk None (state a peer))).
  assert (Hok' : ps_ok (ec_epoch_history_keep (e_cfg a)) (set_esk None (state a peer)))
    by (apply (ps_ok_same _ (state a peer)); [reflexivity..|apply Hok|exact Hok]).
  destruct (ps_store_ok now epoch ss _ _ Hok' He Hne Hss) as (st' & E & Hok2 & Hse & Hsc & _).
  rewrite E. eexists. split; [done|]. unfold end_ok, sends_under. rewrite !state_put_eq. cbn [put e_cfg e_my_id].
  unfold ps_store in E. rewrite Hss in E. cbn [Z.eqb negb] in E. injection E as <-.
  split_and!; try done. intros e s l Hkeep Hne' El. apply ps_secret_elem; [apply Hok2|].
  cbn [ps_epochs]. unfold keep_last. cbn [ps_epochs set_esk]. rewrite El, filter_app, filter_singleton_True by done.
  rewrite <- app_assoc, length_app. cbn [app length]. rewrite drop_app_le by lia.
  apply elem_of_app. right. by left.
Qed.
End Ends.

Section Agreement.
Context `{MacCrypto} `{AesGcm} `{MlKem} `{TextCodecs}.

(** The two ends of an agreement: same suite, consistent state, the limiter of
    the end that answers lets it pass and its draws contain a free epoch. *)
Record may_agree (k : ParamSet) (now : Z) (draws : list Z) (a b : E2e) : Prop := {
  ma_suite_a : ec_suite (e_cfg a) = suite_name k;
  ma_suite_b : ec_suite (e_cfg b) = suite_name k;
  ma_ok_a : end_ok a (e_my_id b);
  ma_ok_b : end_ok b (e_my_id a);
  ma_gate : snd (respond_gate now (Z.max (ec_respond_burst (e_cfg b)) 1) (state b (e_my_id a))) = true;
  ma_typed : Forall (is_u 32) draws;
  ma_draws : is_Some (fresh_epoch (state b (e_my_id a)) draws);
}.

Lemma end_ok_esk a peer k : end_ok a peer -> end_ok (put a peer (set_esk k (state a peer))) peer.
Proof.
  intros [Hc Hok]. unfold end_ok. rewrite state_put_eq. split; [done|]. cbn [put e_cfg].
  apply (ps_ok_same _ (state a peer)); [reflexivity..|apply Hok|exact Hok].
Qed.

(** C13: a key agreement that is let through ends well: the end that asked adopts
    the epoch the other end drew, both hold the same secret for it, both send
    under it from then on, and the ephemeral secret is gone. *)
Theorem agreement_shares_epoch (k : ParamSet) (now1 now2 now3 : Z) (seedA seedB : bytes) (draws : list Z)
  (a b : E2e) (Hag : may_agree k now2 draws a b) (Hnow : now1 <= now3 <= now1 + PENDING_ESK_TTL) :
  exists a' b' epoch ss,
    agreement now1 now2 now3 seedA seedB draws a b = (a', b', Some (Ok epoch))
    /\ e_my_id a' = e_my_id a /\ e_my_id b' = e_my_id b
    /\ shares a' b' epoch ss /\ sends_under a' (e_my_id b) epoch /\ sends_under b' (e_my_id a) epoch
    /\ end_ok a' (e_my_id b) /\ end_ok b' (e_my_id a)
    /\ ps_pending_esk (state a' (e_my_id b)) = None.
Proof.
  destruct Hag as [Hsa Hsb Hoa Hob Hg Ht Hd].
  unfold agreement. rewrite (begin_ok _ _ _ _ _ Hsa). cbn [put e_my_id].
  fold (put a (e_my_id b) (set_esk (Some (kp_secret (keygen k seedA), now1)) (state a (e_my_id b)))).
  set (a1 := put a (e_my_id b) _).
  destruct (respond_ok now2 seedA seedB draws b (e_my_id a) k Hsb Hob Hg Ht Hd)
    as (b' & epoch & ct & ss & -> & Hdec & Hss & Hct & He & Hne & Hib & Hcb & Hob' & Hsec & Hsend & _).
  destruct (complete_ok now3 a1 (e_my_id b) k epoch ct ss (kp_secret (keygen k seedA)) now1)
    as (a2 & Hc & Hia & Hca & Hoa' & Hsec' & Hsend' & Hesk & _);
    [done|by apply end_ok_esk|by unfold a1; rewrite state_put_eq|done..|].
  rewrite Hib, Hc. unfold agreement_done. cbn [is_ok].
  eexists _, b', epoch, ss. split; [reflexivity|]. cbn [put e_my_id].
  fold (put a2 (e_my_id b) (set_attempt false (ps_last_attempt (state a2 (e_my_id b))) (state a2 (e_my_id b)))).
  change (e_my_id a1) with (e_my_id a) in Hia.
  unfold shares, sends_under, end_ok. rewrite Hib, state_put_eq. cbn [put e_my_id e_cfg]. rewrite Hia.
  destruct Hoa' as [Hct' Hok']. split_and!; try assumption; try reflexivity; [|apply Hob'|apply Hob'].
  apply (ps_ok_same _ (state a2 (e_my_id b))); [reflexivity..|apply Hok'|exact Hok'].
Qed.

(** Two agreements that cross, each end asking the other at the same time,
    leave both ends with both secrets, so whatever either seals under either epoch
    the other can open, as long as two epochs are kept and the two draws differ. *)
Theorem concurrent_agreements_share_both (k : ParamSet) (t1 t2 t3 : Z) (sA sB rA rB : bytes) (dA dB : list Z)
  (a b : E2e) (Hab : may_agree k t2 dB a b) (Hba : may_agree k t2 dA b a)
  (Hkeep : 2 <= ec_epoch_history_keep (e_cfg a) /\ 2 <= ec_epoch_history_keep (e_cfg b))
  (Hdis : forall x, x ∈ dA -> x ∈ dB -> False) (Ht : t1 <= t3 <= t1 + PENDING_ESK_TTL) :
  let A := e_my_id a in
  let B := e_my_id b in
  exists a1 b1 a2 b2 a3 b3 reqA reqB respA respB e1 e2 s1 s2,
    begin_request t1 sA a B = (a1, Ok reqA) /\ begin_request t1 sB b A = (b1, Ok reqB)
    /\ respond t2 rB dB b1 A reqA = (b2, Some (Ok respB)) /\ respond t2 rA dA a1 B reqB = (a2, Some (Ok respA))
    /\ complete_request t3 a2 B respB = (a3, Ok e1) /\ complete_request t3 b2 A respA = (b3, Ok e2)
    /\ shares a3 b3 e1 s1 /\ shares a3 b3 e2 s2 /\ sends_under a3 B e1 /\ sends_under b3 A e2.
Proof.
  cbv zeta. destruct Hab as [Hsa Hsb Hoa Hob Hg Htd Hd]. destruct Hba as [_ _ _ _ Hg' Htd' Hd'].
  rewrite (begin_ok _ _ _ _ _ Hsa), (begin_ok _ _ _ _ _ Hsb).
  set (a1 := put a (e_my_id b) _). set (b1 := put b (e_my_id a) _).
  assert (Hgate : forall e peer esk now burst, snd (respond_gate now burst (state (put e peer (set_esk esk (state e peer))) peer))
    = snd (respond_gate now burst (state e peer))).
  { intros. rewrite state_put_eq. unfold respond_gate. cbn [set_esk ps_last_response ps_respond_burst].
    destruct (ps_last_response _); [|done]. destruct (_ <? _); [|done]. by destruct (_ =? _). }
  assert (Hfresh : forall e peer esk draws, fresh_epoch (state (put e peer (set_esk esk (state e peer))) peer) draws
    = fresh_epoch (state e peer) draws) by (intros; rewrite state_put_eq; done).
  destruct (respond_ok t2 sA rB dB b1 (e_my_id a) k) as (b2 & e1 & c1 & s1 & Hr1 & D1 & L1 & W1 & U1 & N1 & I1 & C1 & O1 & S1 & _ & [l1 T1] & P1 & M1);
    [done|by apply end_ok_esk|by unfold b1; rewrite Hgate|done|unfold b1; by rewrite Hfresh|].
  destruct (respond_ok t2 sB rA dA a1 (e_my_id b) k) as (a2 & e2 & c2 & s2 & Hr2 & D2 & L2 & W2 & U2 & N2 & I2 & C2 & O2 & S2 & _ & [l2 T2] & P2 & M2);
    [done|by apply end_ok_esk|by unfold a1; rewrite Hgate|done|unfold a1; by rewrite Hfresh|].
  assert (Hne : e1 <> e2) by (intros ->; by apply (Hdis e2)).
  change (e_my_id b1) with (e_my_id b) in I1. change (e_my_id a1) with (e_my_id a) in I2.
  destruct (complete_ok t3 a2 (e_my_id b) k e1 c1 s1 (kp_secret (keygen k sA)) t1)
    as (a3 & Hc1 & J1 & _ & _ & X1 & Y1 & _ & Z1); try done; [by rewrite C2|by rewrite P2; unfold a1; rewrite state_put_eq|].
  destruct (complete_ok t3 b2 (e_my_id a) k e2 c2 s2 (kp_secret (keygen k sB)) t1)
    as (b3 & Hc2 & J2 & _ & _ & X2 & Y2 & _ & Z2); try done; [by rewrite C1|by rewrite P1; unfold b1; rewrite state_put_eq|].
  rewrite C2 in Z1. rewrite C1 in Z2. change (e_cfg a1) with (e_cfg a) in Z1. change (e_cfg b1) with (e_cfg b) in Z2.
  exists a1, b1, a2, b2, a3, b3. eexists _, _, _, _, e1, e2, s1, s2.
  do 2 (split; [reflexivity|]). do 4 (split; [eassumption|]).
  unfold shares. rewrite J1, J2, I1, I2.
  split_and!; try assumption; [eapply Z2; [apply Hkeep|done|exact T1]|eapply Z1; [apply Hkeep|done|exact T2]].
Qed.
End Agreement.

(** ** One key from end to end *)

Section Crossing.
Context `{MacCrypto} `{AesGcm} `{MlKem} `{TextCodecs}.

Lemma derive_key_len secret id : zlen (derive secret id).1 = KEY_LEN.
Proof.
  unfold derive, zlen. cbn [fst]. rewrite length_take, hkdf_length by lia. done.
Qed.

(** The end that seals is ready: it sends under an epoch it has the secret of,
    the id is new and the counters have room. *)
Record seal_ready (st : PeerState) (id : string) (epoch : Z) (ss : bytes) : Prop := {
  sr_send : ps_send_epoch st = Some epoch;
  sr_epoch : is_u 32 epoch;
  sr_secret : ps_secret st epoch = Some ss;
  sr_new : id ∉ rk_seen (ps_recent st);
  sr_counter : 0 <= ps_counter st < u_max 64;
  sr_sends : ps_epoch_sends st < u_max 64;
}.

Lemma seal_reserve_ready st peer id epoch ss : seal_ready st id epoch ss ->
  exists st', seal_reserve st peer id = (st', Ok (epoch, ss, ps_counter st + 1))
    /\ same_keys st st' /\ ps_counter st' = ps_counter st + 1 /\ ps_epoch_sends st' = ps_epoch_sends st + 1
    /\ rk_seen (ps_recent st') ⊆ {[id]} ∪ rk_seen (ps_recent st).
Proof.
  intros [Hs He Hsec Hn Hc Hes]. unfold seal_reserve. rewrite Hs, Hsec.
  assert (Hi : exists r, rk_insert (ps_recent st) id = (r, true) /\ rk_seen r ⊆ {[id]} ∪ rk_seen (ps_recent st)).
  { unfold rk_insert. rewrite bool_decide_eq_false_2 by done.
    destruct (_ <=? _); [destruct (rk_order _)|]; eexists; (split; [reflexivity|]); cbn; set_solver. }
  destruct Hi as (r & -> & Hr). cbn [negb].
  rewrite (proj2 (Z.eqb_neq _ _)), (proj2 (Z.eqb_neq _ _)) by lia. cbn [orb].
  eexists. split; [reflexivity|]. unfold same_keys. by cbn.
Qed.

Lemma hdr_lookups h epoch c t :
  let h' := <[HDR_E2E_TAG := t]> (seal_header h epoch c) in
  h' !! HDR_E2E_EPOCH = Some (to_string epoch) /\ h' !! HDR_E2E_CTR = Some (to_string c)
  /\ h' !! HDR_E2E_TAG = Some t /\ h' !! HDR_INCARNATION = h !! HDR_INCARNATION
  /\ seal_header h epoch c !! HDR_E2E_TAG = None.
Proof.
  cbv zeta. unfold seal_header. split_and!.
  - rewrite lookup_insert_ne, lookup_delete_ne, lookup_insert_ne, lookup_insert_eq by discriminate. done.
  - rewrite lookup_insert_ne, lookup_delete_ne, lookup_insert_eq by discriminate. done.
  - by rewrite lookup_insert_eq.
  - by rewrite lookup_insert_ne, lookup_delete_ne, !lookup_insert_ne by discriminate.
  - by rewrite lookup_delete_eq.
Qed.

(** What one end seals the other verifies, if it has the secret of the epoch. *)
Lemma seal_verifies a b id h p epoch ss session :
  seal_ready (state a (e_my_id b)) id epoch ss ->
  e_peers b !! e_my_id a ≫= (fun st => ps_secret st epoch) = Some ss ->
  h !! HDR_INCARNATION = Some (hex16 session) -> is_u 64 session -> wf_bytes p -> zlen p < 2 ^ 36 ->
  exists a' h' ct,
    e2e_seal a (e_my_id b) id h p = (a', h', Ok ct) /\ zlen ct = zlen p
    /\ open_verify b (e_my_id a) h' id ct = Ok (epoch, session, ps_counter (state a (e_my_id b)) + 1, p)
    /\ (forall k, k <> HDR_E2E_TAG -> k <> HDR_E2E_EPOCH -> k <> HDR_E2E_CTR -> h' !! k = h !! k)
    /\ a' = put a (e_my_id b) (fst (seal_reserve (state a (e_my_id b)) (e_my_id b) id)).
Proof.
  intros Hready Hb Hinc Hses Hp Hlen. set (st := state a (e_my_id b)) in *.
  destruct (seal_reserve_ready st (e_my_id b) id epoch ss Hready) as (st' & E & Hsame & Hc & _ & _).
  unfold e2e_seal. fold st. rewrite E. cbn [fst].
  pose proof (derive_key_len ss id) as Hk. destruct (derive ss id) as [k nonce] eqn:Ed. cbn [fst] in Hk.
  set (h1 := seal_header h epoch (ps_counter st + 1)).
  set (ad := aad (e_my_id (put a (e_my_id b) st')) (e_my_id b) (btree_pairs h1)).
  destruct (seal_detached_ok k nonce p ad Hk Hlen Hp) as (ct & tag & -> & Hl & Ht & _ & Hwt & Hopen).
  eexists _, _, ct. split; [reflexivity|]. split; [done|].
  destruct (hdr_lookups h epoch (ps_counter st + 1) (hex_encode tag)) as (L1 & L2 & L3 & L4 & L5).
  fold h1 in L1, L2, L3, L4, L5. destruct Hready as [_ He _ _ Hcnt _].
  split_and!; [| |done].
  - unfold open_verify, field. rewrite L1. cbn [res_bind].
    rewrite parse_to_string by done. cbn [or_malformed res_bind]. rewrite L2. cbn [res_bind].
    rewrite parse_to_string by (ufold; lia). cbn [or_malformed res_bind]. rewrite L3. cbn [res_bind].
    rewrite hex_roundtrip by done. cbn [or_malformed res_bind]. rewrite Ht, Z.eqb_refl. cbn [res_bind].
    rewrite L4, Hinc. cbn [res_bind]. rewrite parse_hex16 by done. cbn [or_malformed res_bind].
    rewrite Hb. cbn [res_bind]. rewrite Ed, aad_insert_tag by done.
    change (aad (e_my_id a) (e_my_id b) _) with ad. by rewrite Hopen.
  - intros key K1 K2 K3. unfold h1, seal_header. by rewrite lookup_insert_ne, lookup_delete_ne, !lookup_insert_ne.
Qed.

(** ** A stream of keys *)

(** Keys [(id, header, plaintext, arrives)] sealed in this order by [a]; those
    that arrive are opened by [b]. *)
Fixpoint e2e_stream (now : Z) (a b : E2e) (ks : list (string * Header * bytes * bool)) : list (res E2eError bytes) :=
  match ks with
  | [] => []
  | (id, h, p, arrives) :: ks =>
      let '(a', h', r) := e2e_seal a (e_my_id b) id h p in
      match r with
      | Ok ct =>
          if arrives then
            let '(b', r') := e2e_open now b (e_my_id a) h' id ct in r' :: e2e_stream now a' b' ks
          else e2e_stream now a' b ks
      | Err x => Err x :: e2e_stream now a' b ks
      | Panic => [Panic]
      end
  end.

Definition good_key (session : Z) (k : string * Header * bytes * bool) : Prop :=
  let '(_, h, p, _) := k in
  h !! HDR_INCARNATION = Some (hex16 session) /\ wf_bytes p /\ zlen p < 2 ^ 36.

Definition key_name (k : string * Header * bytes * bool) : string := k.1.1.1.

Lemma commit_stream now b source session epoch c h st :
  e_peers b !! source = Some st -> stream_at session h (ps_replay st) -> h < c -> 1 <= c ->
  exists w', open_commit now b source epoch session c = (put b source (set_replay w' st), Ok tt)
    /\ stream_at session c w'.
Proof.
  intros Hb Hs Hlt Hc. unfold open_commit. rewrite Hb.
  destruct (stream_step session h (ps_replay st) now c Hs Hlt Hc) as (w' & -> & Hs'). by exists w'.
Qed.

(** C28: once two ends share the secret of the epoch one of them sends under,
    everything it seals with new ids opens at the other to the same bytes, in the
    header it was sent with, whatever subset of the keys is lost on the way. *)
Theorem sealed_keys_open (ks : list (string * Header * bytes * bool)) : forall (now : Z) (a b : E2e) (session epoch : Z) (ss : bytes) (st : PeerState) (h : Z)
  (Hsend : sends_under a (e_my_id b) epoch) (Hep : is_u 32 epoch)
  (Ha : ps_secret (state a (e_my_id b)) epoch = Some ss)
  (Hb : e_peers b !! e_my_id a = Some st) (Hbs : ps_secret st epoch = Some ss)
  (Hw : stream_at session h (ps_replay st)) (Hh : h <= ps_counter (state a (e_my_id b)))
  (Hses : is_u 64 session) (Hks : Forall (good_key session) ks) (Hnd : NoDup (map key_name ks))
  (Hnew : Forall (fun k => key_name k ∉ rk_seen (ps_recent (state a (e_my_id b)))) ks)
  (Hc0 : 0 <= ps_counter (state a (e_my_id b)) <= u_max 64 - zlen ks)
  (Hsends : ps_epoch_sends (state a (e_my_id b)) <= u_max 64 - zlen ks),
  e2e_stream now a b ks = map (fun k => Ok k.1.2) (filter (fun k => k.2 = true) ks).
Proof.
  induction ks as [|[[[id hd] p] ar] ks IH]; intros; [done|].
  apply Forall_cons in Hks as [(Hinc & Hp & Hl) Hks]. apply Forall_cons in Hnew as [Hid Hnew].
  cbn [map key_name fst] in Hnd. apply NoDup_cons in Hnd as [Hnid Hnd].
  rewrite zlen_cons in Hc0, Hsends. pose proof (zlen_nonneg ks). set (sa := state a (e_my_id b)) in *.
  assert (Hready : seal_ready sa id epoch ss) by (constructor; try done; lia).
  assert (Hbs' : e_peers b !! e_my_id a ≫= (fun st => ps_secret st epoch) = Some ss) by (by rewrite Hb).
  destruct (seal_verifies a b id hd p epoch ss session Hready Hbs' Hinc Hses Hp Hl) as (a' & h' & ct & E & _ & Hv & _ & Ea').
  destruct (seal_reserve_ready sa (e_my_id b) id epoch ss Hready) as (sa' & Er & Hsame & Hc1 & Hc2 & Hseen).
  fold sa in Ea', Hv. rewrite Er in Ea'. cbn [fst] in Ea'.
  assert (Hnew' : Forall (fun k => key_name k ∉ rk_seen (ps_recent sa')) ks).
  { apply Forall_forall. intros k Hk. rewrite Forall_forall in Hnew. specialize (Hnew k Hk).
    assert (key_name k <> id) by (intros <-; apply Hnid, list_elem_of_fmap; eauto). set_solver. }
  assert (Hst' : state a' (e_my_id b) = sa') by (subst a'; apply state_put_eq).
  assert (Hid' : e_my_id a' = e_my_id a) by (by subst a').
  cbn [e2e_stream]. rewrite E. destruct ar.
  - rewrite filter_cons_True by done. cbn [map fst snd]. unfold e2e_open. rewrite Hv.
    destruct (commit_stream now b (e_my_id a) session epoch (ps_counter sa + 1) h st Hb Hw ltac:(lia) ltac:(lia)) as (w' & -> & Hw').
    cbn [res_bind]. f_equal.
    apply (IH now a' (put b (e_my_id a) (set_replay w' st)) session epoch ss (set_replay w' st) (ps_counter sa + 1));
      cbn [put e_my_id]; rewrite ?Hid'; unfold sends_under; rewrite ?Hst', ?(same_keys_secret _ _ _ Hsame);
      try done; try lia; [destruct Hsame as [_ ->]; done|apply lookup_insert_eq].
  - rewrite filter_cons_False by done.
    apply (IH now a' b session epoch ss st h); rewrite ?Hid'; unfold sends_under;
      rewrite ?Hst', ?(same_keys_secret _ _ _ Hsame); try done; try lia. destruct Hsame as [_ ->]; done.
Qed.
End Crossing.

(** ** Only what was sealed opens *)

Section Authentic.
Context `{MacCrypto} `{AesGcm} `{MlKem} `{TextCodecs}.

(** No forgery among what is presented: if AES-GCM accepts this payload and this
    header under the key of [key_id], the additional data is that of a header the
    source sealed, for the plaintext it sealed.  [log] is what it sealed. *)
Definition unforged (ss : bytes) (source me : string) (log : list (Header * bytes)) (header : Header)
  (key_id : string) (payload : bytes) : Prop :=
  forall tag p, let '(k, nonce) := derive ss key_id in
    gcm_decrypt k nonce (aad source me (btree_pairs header)) payload tag = Some p ->
    exists h, (h, p) ∈ log /\ aad source me (btree_pairs header) = aad source me (btree_pairs h).

(** A key that opens was sealed by the peer it names, for this node, with
    exactly this header: key id, incarnation, epoch, counter, size and address for
    the acknowledgement are the ones the source wrote, and the bytes are the ones
    it sealed, unless AES-GCM was forged. *)
Theorem e2e_opened_was_sealed (now : Z) (b b' : E2e) (source key_id : string) (header : Header) (payload pt ss : bytes)
  (st : PeerState) (epoch : Z) (log : list (Header * bytes))
  (Hst : e_peers b !! source = Some st)
  (Hep : header !! HDR_E2E_EPOCH = Some (to_string epoch)) (Hu : is_u 32 epoch) (Hss : ps_secret st epoch = Some ss)
  (Hsh : short source /\ short (e_my_id b) /\ hdr_short header /\ Forall (fun e => hdr_short e.1) log)
  (Hun : unforged ss source (e_my_id b) log header key_id payload)
  (Hopen : e2e_open now b source header key_id payload = (b', Ok pt)) :
  exists h, (h, pt) ∈ log /\ forall k, k <> HDR_E2E_TAG -> header !! k = h !! k.
Proof.
  unfold e2e_open in Hopen. destruct (open_verify b source header key_id payload) as [[[[ep ses] c] pt']|x|] eqn:Ev; [|done..].
  assert (pt' = pt) as ->.
  { destruct (open_commit _ _ _ _ _ _) as [e [u|x|]]; cbn in Hopen; congruence. }
  clear Hopen. unfold open_verify, field in Ev. rewrite Hep in Ev. cbn [res_bind] in Ev.
  rewrite parse_to_string in Ev by done. cbn [or_malformed res_bind] in Ev.
  apply res_bind_ok in Ev as (v1 & _ & Ev). apply res_bind_ok in Ev as (c1 & _ & Ev).
  apply res_bind_ok in Ev as (v2 & _ & Ev). apply res_bind_ok in Ev as (tag & _ & Ev).
  apply res_bind_ok in Ev as (? & _ & Ev). apply res_bind_ok in Ev as (v3 & _ & Ev).
  apply res_bind_ok in Ev as (s3 & _ & Ev). rewrite Hst in Ev. cbn [mbind option_bind] in Ev. rewrite Hss in Ev.
  cbn [res_bind] in Ev. unfold unforged in Hun. destruct (derive ss key_id) as [k nonce].
  apply res_bind_ok in Ev as (p & Eo & [= _ _ _ <-]).
  unfold open_detached in Eo. destruct (negb _); [done|].
  destruct (gcm_decrypt _ _ _ _ _) as [q|] eqn:Eg; [|done]. injection Eo as <-.
  destruct (Hun _ _ Eg) as (h & Hin & Haad). exists h. split; [done|].
  destruct Hsh as (Hs1 & Hs2 & Hs3 & Hs4). rewrite Forall_forall in Hs4.
  apply aad_inj in Haad as (_ & _ & Hd); [|done..|by apply (Hs4 _ Hin)].
  intros key Hk. pose proof (f_equal (fun m : Header => m !! key) Hd) as Hl. cbn in Hl.
  by rewrite !lookup_delete_ne in Hl.
Qed.

(** What does not verify changes nothing: when [open] refuses a key for any
    reason but a replay, no state of the node has moved, and a replay is only ever
    reported for a key whose tag was verified. *)
Theorem refused_key_moves_nothing (now : Z) (b b' : E2e) (source key_id : string) (header : Header) (payload : bytes)
  (err : E2eError) (Hopen : e2e_open now b source header key_id payload = (b', Err err)) :
  b' = b \/ exists e epoch session counter pt, err = ReplayErr e
    /\ open_verify b source header key_id payload = Ok (epoch, session, counter, pt).
Proof.
  unfold e2e_open in Hopen. destruct (open_verify _ _ _ _ _) as [[[[ep ses] c] pt]|x|] eqn:Ev; [|left; congruence|done].
  unfold open_commit in Hopen. destruct (e_peers b !! source) as [st|]; [|left; cbn in Hopen; congruence].
  destruct (check_and_set _ _ _ _) as [w [u|e|]]; cbn in Hopen; [done| |done]. injection Hopen as _ <-.
  right. by exists e, ep, ses, c, pt.
Qed.
End Authentic.

(** ** The limiter of the responder *)

Section Limiter.
Context `{MlKem} `{TextCodecs}.

Definition refused_by_gate (r : option (res E2eError KemResponse)) : bool :=
  match r with Some (Err (PeerErr why)) => bool_decide (why = "too frequent"%string) | _ => false end.

(** Requests of one peer [(now, seed, draws, request)] and how many of them got
    past the limiter, that is, cost an encapsulation or could start an epoch. *)
Fixpoint respond_run (e : E2e) (peer : string) (reqs : list (Z * bytes * list Z * KemRequest)) : Z :=
  match reqs with
  | [] => 0
  | (now, seed, draws, req) :: reqs =>
      let '(e', r) := respond now seed draws e peer req in
      (if refused_by_gate r then 0 else 1) + respond_run e' peer reqs
  end.

Lemma respond_limiter now seed draws e peer req :
  let '(st, pass) := respond_gate now (Z.max (ec_respond_burst (e_cfg e)) 1) (state e peer) in
  let '(e', r) := respond now seed draws e peer req in
  refused_by_gate r = negb pass /\ e_cfg e' = e_cfg e
  /\ ps_last_response (state e' peer) = ps_last_response st
  /\ ps_respond_burst (state e' peer) = ps_respond_burst st.
Proof.
  unfold respond. destruct (respond_gate _ _ _) as [st [|]]; cbn [negb]; [|by rewrite state_put_eq].
  cbn [put e_cfg]. fold (put e peer st).
  destruct (negb (bool_decide _)); [by rewrite state_put_eq|].
  destruct (kem_for _) as [kem|x|]; [|by rewrite state_put_eq..].
  destruct (b64_decode _) as [epk|]; [|by rewrite state_put_eq].
  destruct (negb _); [by rewrite state_put_eq|].
  destruct (encap kem epk seed) as [enc|x|]; cbn [kem_err res_map_err]; [|by rewrite state_put_eq..].
  rewrite state_put_eq. destruct (fresh_epoch st draws) as [ep|]; [|by rewrite state_put_eq].
  unfold ps_store. destruct (negb _); rewrite state_put_eq; done.
Qed.

Lemma respond_run_in_burst reqs : forall e peer t,
  ps_last_response (state e peer) = Some t ->
  Forall (fun q => q.1.1.1 < t + AGREEMENT_MIN_INTERVAL) reqs -> 0 <= ps_respond_burst (state e peer) ->
  respond_run e peer reqs <= ps_respond_burst (state e peer).
Proof.
  induction reqs as [|[[[now seed] draws] req] reqs IH]; intros e peer t Ht Hall Hb; [done|].
  apply Forall_cons in Hall as [Hnow Hall]. cbn [fst] in Hnow. cbn [respond_run].
  pose proof (respond_limiter now seed draws e peer req) as Hl. unfold respond_gate in Hl. rewrite Ht in Hl.
  destruct (Z.ltb_spec (elapsed now t) AGREEMENT_MIN_INTERVAL) as [_|Hge];
    [|unfold elapsed, sat_sub, AGREEMENT_MIN_INTERVAL, SECOND in *; lia].
  destruct (Z.eqb_spec (ps_respond_burst (state e peer)) 0) as [Hz|Hz];
    destruct (respond now seed draws e peer req) as [e' r]; destruct Hl as (-> & _ & L & B); cbn in L, B.
  - cbn [negb]. specialize (IH e' peer t ltac:(congruence) Hall ltac:(lia)). lia.
  - cbn [negb]. specialize (IH e' peer t L Hall ltac:(lia)). lia.
Qed.

(** Within any two seconds a peer gets at most twice the configured burst,
    less one, past the limiter, however it spaces its requests and whatever they
    contain. *)
Theorem respond_rate_bounded (e : E2e) (peer : string) (t0 : Z) (reqs : list (Z * bytes * list Z * KemRequest))
  (Hlim : 0 <= ps_respond_burst (state e peer)
    /\ (is_Some (ps_last_response (state e peer)) -> ps_respond_burst (state e peer) < Z.max (ec_respond_burst (e_cfg e)) 1))
  (Hall : Forall (fun q => t0 <= q.1.1.1 < t0 + AGREEMENT_MIN_INTERVAL) reqs) :
  respond_run e peer reqs <= 2 * Z.max (ec_respond_burst (e_cfg e)) 1 - 1.
Proof.
  cut (respond_run e peer reqs <= (match ps_last_response (state e peer) with Some _ => ps_respond_burst (state e peer) | None => 0 end)
    + Z.max (ec_respond_burst (e_cfg e)) 1).
  { destruct Hlim as [H1 H2]. destruct (ps_last_response _); [specialize (H2 ltac:(by eexists))|]; lia. }
  destruct Hlim as [Hb0 _]. revert e Hb0 Hall. induction reqs as [|[[[now seed] draws] req] reqs IH]; intros e Hb0 Hall.
  - cbn [respond_run]. destruct (ps_last_response _); lia.
  - apply Forall_cons in Hall as [Hnow Hall]. cbn [fst] in Hnow. cbn [respond_run].
    pose proof (respond_limiter now seed draws e peer req) as Hl.
    set (burst := Z.max (ec_respond_burst (e_cfg e)) 1) in *. assert (1 <= burst) by lia.
    assert (Hnew : respond_gate now burst (state e peer) = (set_limiter (Some now) (burst - 1) (state e peer), true) ->
      (if refused_by_gate (respond now seed draws e peer req).2 then 0 else 1)
        + respond_run (respond now seed draws e peer req).1 peer reqs <= burst).
    { intros Hg. rewrite Hg in Hl. destruct (respond now seed draws e peer req) as [e' r]. cbn [fst snd].
      destruct Hl as (-> & _ & L & B). cbn in L, B. cbn [negb].
      assert (Hin : Forall (fun q => q.1.1.1 < now + AGREEMENT_MIN_INTERVAL) reqs)
        by (eapply Forall_impl; [exact Hall|]; intros q Hq; cbn in Hq; lia).
      pose proof (respond_run_in_burst reqs e' peer now L Hin ltac:(lia)). lia. }
    unfold respond_gate in *. destruct (ps_last_response (state e peer)) as [t|].
    2: { specialize (Hnew eq_refl). destruct (respond _ _ _ _ _ _). cbn [fst snd] in Hnew. lia. }
    destruct (elapsed now t <? AGREEMENT_MIN_INTERVAL).
    2: { specialize (Hnew eq_refl). destruct (respond _ _ _ _ _ _). cbn [fst snd] in Hnew. lia. }
    clear Hnew. destruct (Z.eqb_spec (ps_respond_burst (state e peer)) 0) as [Hz|Hz];
      destruct (respond now seed draws e peer req) as [e' r]; destruct Hl as (-> & C & L & B); cbn in L, B; cbn [negb];
      specialize (IH e' ltac:(lia) Hall); rewrite C, L, B in IH; fold burst in IH; [destruct (ps_last_response _)|]; lia.
Qed.
End Limiter.

(** ** The theorems on concrete nodes *)

Definition e2e_cfg : TransportE2eCfg := mkE2eCfg "ml-kem-512" 3600 100000 4 64 4.
Definition e2e_a : E2e := e2e_new "dkms-A" e2e_cfg.
Definition e2e_b : E2e := e2e_new "dkms-B" e2e_cfg.

Definition sample_req : KemRequest := mkKemReq "ml-kem-512" (b64_encode (kp_public (keygen MlKem512 [3; 1; 4]))).

(** [dkms-B] asks for an agreement, two keys are sealed for it and one id is
    tried again, and one of its own keys arrives twice. *)
Definition sample_events : list e2e_event :=
  [EvRespond 0 [1; 5; 9] [0; 7] "dkms-B" sample_req; EvSeal "dkms-B" "k1" ∅ [1]; EvSeal "dkms-B" "k1" ∅ [2];
   EvSeal "dkms-B" "k2" ∅ [3]; EvCommit 5 "dkms-B" 7 9 1; EvCommit 6 "dkms-B" 7 9 1].

Lemma sample_events_typed : Forall ev_typed sample_events.
Proof. repeat constructor; cbn; try exact I; try lia; ufold; lia. Qed.

Lemma e2e_state_well_formed_witness :
  ps_ok 4 (state (er_e (e2e_trace "dkms-A" e2e_cfg sample_events)) "dkms-B")
  /\ rk_order (ps_recent (state (er_e (e2e_trace "dkms-A" e2e_cfg sample_events)) "dkms-B")) = ["k1"; "k2"]%string.
Proof.
  split; [|vm_compute; reflexivity].
  apply (e2e_state_well_formed "dkms-A" "dkms-B" e2e_cfg sample_events); [|exact sample_events_typed].
  unfold cfg_typed, e2e_cfg. cbn. ufold. lia.
Defined.

Lemma key_id_not_reused_witness :
  er_ids (e2e_trace "dkms-A" e2e_cfg sample_events) "dkms-B" = ["k2"; "k1"]%string
  /\ NoDup (take (S (Z.to_nat GUARDRAIL_WINDOW)) (drop 0 (er_ids (e2e_trace "dkms-A" e2e_cfg sample_events) "dkms-B"))).
Proof.
  split; [vm_compute; reflexivity|].
  apply (key_id_not_reused "dkms-A" "dkms-B" e2e_cfg sample_events 0); [|exact sample_events_typed].
  unfold cfg_typed, e2e_cfg. cbn. ufold. lia.
Defined.

Lemma e2e_opens_at_most_once_witness :
  er_acc (e2e_trace "dkms-A" e2e_cfg sample_events) "dkms-B" = [(9, 1)]
  /\ NoDup (er_acc (e2e_trace "dkms-A" e2e_cfg sample_events) "dkms-B").
Proof.
  split; [vm_compute; reflexivity|].
  apply (e2e_opens_at_most_once "dkms-A" "dkms-B" e2e_cfg sample_events); [|exact sample_events_typed|].
  - unfold cfg_typed, e2e_cfg. cbn. ufold. lia.
  - vm_compute. lia.
Defined.

Definition state_after_respond : PeerState :=
  state (respond 0 [1; 5; 9] [0; 7] e2e_a "dkms-B" sample_req).1 "dkms-B".

Lemma fresh_epoch_terminates_witness :
  exists e, fresh_epoch state_after_respond [0; 7; 12] = Some e /\ e ∈ [0; 7; 12] /\ e <> 0
    /\ e ∉ (ps_epochs state_after_respond).*1.
Proof.
  apply (fresh_epoch_terminates state_after_respond [0; 7; 12]).
  - apply (bool_decide_unpack _). vm_compute. exact I.
  - vm_compute. reflexivity.
Defined.

Lemma new_end_ok id peer : end_ok (e2e_new id e2e_cfg) peer.
Proof.
  split; [unfold cfg_typed, e2e_cfg; cbn; ufold; lia|]. unfold state. cbn. apply ps_new_ok.
Qed.

Lemma sample_may_agree : may_agree MlKem512 0 [0; 7] e2e_a e2e_b.
Proof.
  constructor; try apply new_end_ok; try reflexivity.
  - repeat constructor; ufold; lia.
  - by eexists.
Qed.

Lemma agreement_shares_epoch_witness :
  exists a' b' epoch ss,
    agreement 0 0 5 [3] [4] [0; 7] e2e_a e2e_b = (a', b', Some (Ok epoch))
    /\ e_my_id a' = e_my_id e2e_a /\ e_my_id b' = e_my_id e2e_b
    /\ shares a' b' epoch ss /\ sends_under a' (e_my_id e2e_b) epoch /\ sends_under b' (e_my_id e2e_a) epoch
    /\ end_ok a' (e_my_id e2e_b) /\ end_ok b' (e_my_id e2e_a)
    /\ ps_pending_esk (state a' (e_my_id e2e_b)) = None.
Proof.
  apply (agreement_shares_epoch MlKem512 0 0 5 [3] [4] [0; 7] e2e_a e2e_b sample_may_agree).
  unfold PENDING_ESK_TTL, SECOND. lia.
Defined.

Lemma concurrent_agreements_share_both_witness :
  exists a1 b1 a2 b2 a3 b3 reqA reqB respA respB e1 e2 s1 s2,
    begin_request 0 [3] e2e_a "dkms-B" = (a1, Ok reqA) /\ begin_request 0 [4] e2e_b "dkms-A" = (b1, Ok reqB)
    /\ respond 0 [6] [0; 7] b1 "dkms-A" reqA = (b2, Some (Ok respB)) /\ respond 0 [5] [9] a1 "dkms-B" reqB = (a2, Some (Ok respA))
    /\ complete_request 5 a2 "dkms-B" respB = (a3, Ok e1) /\ complete_request 5 b2 "dkms-A" respA = (b3, Ok e2)
    /\ shares a3 b3 e1 s1 /\ shares a3 b3 e2 s2 /\ sends_under a3 "dkms-B" e1 /\ sends_under b3 "dkms-A" e2.
Proof.
  apply (concurrent_agreements_share_both MlKem512 0 0 5 [3] [4] [5] [6] [9] [0; 7] e2e_a e2e_b sample_may_agree).
  - constructor; try apply new_end_ok; try reflexivity; [repeat constructor; ufold; lia|by eexists].
  - cbn. lia.
  - intros x ->%list_elem_of_singleton Hx. set_solver.
  - unfold PENDING_ESK_TTL, SECOND. lia.
Defined.

(** Both ends after the agreement. *)
Definition agreed : E2e * E2e * option (res E2eError Z) := agreement 0 0 5 [3] [4] [0; 7] e2e_a e2e_b.
Definition agreed_a : E2e := agreed.1.1.
Definition agreed_b : E2e := agreed.1.2.
Definition agreed_ss : bytes := default [] (ps_secret (state agreed_b "dkms-A") 7).
Definition keys_ab : list (string * Header * bytes * bool) :=
  [("k1"%string, {[ HDR_INCARNATION := hex16 77 ]}, [1; 2; 3], true);
   ("k2"%string, {[ HDR_INCARNATION := hex16 77 ]}, [4; 5], false);
   ("k3"%string, {[ HDR_INCARNATION := hex16 77 ]}, [6], true)].

Lemma sealed_keys_open_witness : e2e_stream 10 agreed_a agreed_b keys_ab = [Ok [1; 2; 3]; Ok [6]].
Proof.
  apply (sealed_keys_open keys_ab 10 agreed_a agreed_b 77 7 agreed_ss (state agreed_b "dkms-A") 0).
  - vm_compute. reflexivity.
  - ufold. lia.
  - vm_compute. reflexivity.
  - vm_compute. reflexivity.
  - vm_compute. reflexivity.
  - change (ps_replay _) with (win_with_adopt AdoptAny (win_new 64)). apply stream_at_new.
  - vm_compute. discriminate.
  - ufold. lia.
  - repeat constructor; try reflexivity; cbn; lia.
  - apply (bool_decide_unpack _). vm_compute. exact I.
  - apply (bool_decide_unpack _). vm_compute. exact I.
  - vm_compute. split; discriminate.
  - vm_compute. discriminate.
Defined.

(** The first of these keys on the wire. *)
Definition sealed_k1 : E2e * Header * res E2eError bytes :=
  e2e_seal agreed_a "dkms-B" "k1" {[ HDR_INCARNATION := hex16 77 ]} [1; 2; 3].
Definition wire_k1 : Header := sealed_k1.1.2.

Lemma e2e_opened_was_sealed_witness :
  exists h, (h, [1; 2; 3]) ∈ [(wire_k1, [1; 2; 3])] /\ forall k, k <> HDR_E2E_TAG -> wire_k1 !! k = h !! k.
Proof.
  apply (e2e_opened_was_sealed 10 agreed_b (e2e_open 10 agreed_b "dkms-A" wire_k1 "k1" [1; 2; 3]).1 "dkms-A" "k1" wire_k1
    [1; 2; 3] [1; 2; 3] agreed_ss (state agreed_b "dkms-A") 7 [(wire_k1, [1; 2; 3])]).
  - vm_compute. reflexivity.
  - vm_compute. reflexivity.
  - ufold. lia.
  - vm_compute. reflexivity.
  - assert (Hw : hdr_short wire_k1).
    { apply map_Forall_to_list. apply (bool_decide_unpack _). vm_compute. exact I. }
    split_and!; [vm_compute; reflexivity..|exact Hw|by constructor].
  - intros tag p. destruct (derive agreed_ss "k1") as [k nonce]. cbn [gcm_decrypt toy_gcm].
    case_bool_decide; [|discriminate]. intros [= <-]. exists wire_k1. split; [by left|reflexivity].
  - vm_compute. reflexivity.
Defined.

Definition five_requests : list (Z * bytes * list Z * KemRequest) :=
  map (fun t => (t, [1], [11 + t], sample_req)) [0; 1; 2; 3; 4].

Lemma respond_rate_bounded_witness :
  respond_run e2e_a "dkms-B" five_requests = 4 /\ respond_run e2e_a "dkms-B" five_requests <= 2 * 4 - 1.
Proof.
  split; [vm_compute; reflexivity|].
  apply (respond_rate_bounded e2e_a "dkms-B" 0 five_requests).
  - vm_compute. split; [discriminate|]. intros [x [=]].
  - unfold five_requests, AGREEMENT_MIN_INTERVAL, SECOND. repeat constructor; cbn; lia.
Defined.
