(* ===== verification/Peers.v ===== *)
(** * The DKMS peers (dkms/src/peers.rs)

    - [PeerRegistry]: the peers of the configuration and those the controller
      announces.  [apply_from_sdn] validates, bounds and merges a list of the
      controller.
    - [PeerIncarnations]: which execution of each peer was last heard of, and when
      its material was last forgotten.

    The theorems: configured peers are never lost, local policy survives, what the
    controller can add is bounded, a repeated list changes nothing, and material is
    forgotten at most once per cooldown. *)

From Stdlib Require Import ZArith Lia.
From stdpp Require Import sorting.
From S2P Require Import Prelude Ids Text Security TransportPool Delivery.

Inductive PeerTransport := TransportHttp | TransportOrr.
#[export] Instance PeerTransport_eq_dec : EqDecision PeerTransport.
Proof. solve_decision. Defined.

Record PeerCfg := mkPeerCfg {
  pc_endpoint : string;
  pc_sni : option string;
  pc_orr_id : option string;
  pc_transport : PeerTransport;
  pc_max_hops : option Z;
  pc_orr_path : option string;
  pc_security_level : option SecurityLevel;
}.
#[export] Instance SecurityLevel_eq_dec' : EqDecision SecurityLevel.
Proof. solve_decision. Defined.
#[export] Instance PeerCfg_eq_dec : EqDecision PeerCfg.
Proof. solve_decision. Defined.

Record PeerFromSdn := mkFromSdn { pf_dkms_id : string; pf_orr_id : string; pf_endpoint : string }.

Record PeerRegistry := mkReg {
  reg_inner : gmap string PeerCfg;
  reg_local : gset string;
  reg_orr : gmap string string;
}.

Definition derive_orr (peers : gmap string PeerCfg) : gmap string string :=
  omap (fun pc => if decide (pc_transport pc = TransportOrr) then pc_orr_id pc else None) peers.

Definition reg_from_config (seed : gmap string PeerCfg) : PeerRegistry :=
  mkReg seed (dom seed) (derive_orr seed).

Definition reg_get (r : PeerRegistry) (id : string) : option PeerCfg := reg_inner r !! id.
Definition orr_map (r : PeerRegistry) : gmap string string := reg_orr r.
Definition max_hops_for (r : PeerRegistry) (id : string) (def : Z) : Z :=
  default def (reg_inner r !! id ≫= pc_max_hops).
Definition orr_path_for (r : PeerRegistry) (id : string) : option string :=
  reg_inner r !! id ≫= pc_orr_path.

Definition MAX_PEERS_FROM_SDN : Z := 1024.

(** [chars().any(|c| c.is_whitespace() || c.is_control())] on the UTF-8 bytes:
    the controls U+0000..U+001F and U+007F..U+009F and the characters with the
    Unicode property White_Space. *)
Fixpoint space_or_control (l : bytes) : bool :=
  match l with
  | [] => false
  | b0 :: l' =>
      (b0 <=? 0x20) || (b0 =? 0x7F)
      || match l' with
         | b1 :: l'' =>
             ((b0 =? 0xC2) && (0x80 <=? b1) && (b1 <=? 0xA0))
             || match l'' with
                | b2 :: _ =>
                    ((b0 =? 0xE1) && (b1 =? 0x9A) && (b2 =? 0x80))
                    || ((b0 =? 0xE2) && (b1 =? 0x80) && (((0x80 <=? b2) && (b2 <=? 0x8A)) || (b2 =? 0xA8) || (b2 =? 0xA9) || (b2 =? 0xAF)))
                    || ((b0 =? 0xE2) && (b1 =? 0x81) && (b2 =? 0x9F))
                    || ((b0 =? 0xE3) && (b1 =? 0x80) && (b2 =? 0x80))
                | [] => false
                end
         | [] => false
         end
      || space_or_control l'
  end.

Definition sdn_peer_valid (p : PeerFromSdn) : bool :=
  is_valid_id (pf_dkms_id p) && is_valid_id (pf_orr_id p)
  && negb (zlen (as_bytes (pf_endpoint p)) =? 0) && (zlen (as_bytes (pf_endpoint p)) <=? 256)
  && negb (space_or_control (as_bytes (pf_endpoint p))).

Definition sdn_endpoint (e : string) : string :=
  if contains "//" e then e else String.app "https://" e.

Definition sdn_entry (current : gmap string PeerCfg) (p : PeerFromSdn) : PeerCfg :=
  match current !! pf_dkms_id p with
  | Some old => mkPeerCfg (sdn_endpoint (pf_endpoint p)) (pc_sni old) (Some (pf_orr_id p)) (pc_transport old)
                  (pc_max_hops old) (pc_orr_path old) (pc_security_level old)
  | None => mkPeerCfg (sdn_endpoint (pf_endpoint p)) None (Some (pf_orr_id p)) TransportOrr None None None
  end.

Fixpoint apply_loop (current : gmap string PeerCfg) (accepted : Z) (peers : list PeerFromSdn) (next : gmap string PeerCfg)
  : gmap string PeerCfg :=
  match peers with
  | [] => next
  | p :: peers =>
      if negb (sdn_peer_valid p) then apply_loop current accepted peers next else
      if MAX_PEERS_FROM_SDN <=? accepted then next else
      apply_loop current (accepted + 1) peers (<[pf_dkms_id p := sdn_entry current p]> next)
  end.

Definition sdn_next (r : PeerRegistry) (peers : list PeerFromSdn) : gmap string PeerCfg :=
  apply_loop (reg_inner r) 0 peers (filter (fun kv => kv.1 ∈ reg_local r) (reg_inner r)).

Definition apply_from_sdn (r : PeerRegistry) (peers : list PeerFromSdn) : PeerRegistry * bool :=
  let next := sdn_next r peers in
  if decide (reg_inner r = next) then (r, false) else (mkReg next (reg_local r) (derive_orr next), true).

(** ** Incarnations *)

Record PeerIncarnations := mkInc { pi_seen : gmap string string; pi_last_wipe : gmap string Z }.
Definition inc_new : PeerIncarnations := mkInc ∅ ∅.

(** 30 s, in nanoseconds. *)
Definition INCARNATION_WIPE_COOLDOWN : Z := 30 * 1000000000.

Definition note_at (i : PeerIncarnations) (peer incarnation : string) (now cooldown : Z)
  : PeerIncarnations * option string :=
  let seen := <[peer := incarnation]> (pi_seen i) in
  match pi_seen i !! peer with
  | None => (mkInc seen (pi_last_wipe i), None)
  | Some previous =>
      if bool_decide (previous = incarnation) then (mkInc seen (pi_last_wipe i), None) else
      if match pi_last_wipe i !! peer with Some last => sat_sub now last <? cooldown | None => false end
      then (mkInc seen (pi_last_wipe i), None)
      else (mkInc seen (<[peer := now]> (pi_last_wipe i)), Some previous)
  end.

(** ** The registry *)

Record reg_ok (r : PeerRegistry) : Prop := {
  ro_orr : reg_orr r = derive_orr (reg_inner r);
  ro_local : reg_local r ⊆ dom (reg_inner r);
  ro_bound : Z.of_nat (size (dom (reg_inner r))) <= Z.of_nat (size (reg_local r)) + MAX_PEERS_FROM_SDN;
}.

(** Every accepted entry of a list, and nothing else, is what the loop adds. *)
Lemma apply_loop_lookup current peers : forall accepted next k,
  apply_loop current accepted peers next !! k = next !! k
  \/ exists p, p ∈ peers /\ sdn_peer_valid p = true /\ k = pf_dkms_id p
       /\ apply_loop current accepted peers next !! k = Some (sdn_entry current p).
Proof.
  induction peers as [|p peers IH]; intros acc next k; [by left|]. cbn [apply_loop].
  destruct (sdn_peer_valid p) eqn:Ev; cbn [negb].
  2: { destruct (IH acc next k) as [|(q & Hq & ?)]; [by left|right]. exists q. split; [by right|done]. }
  destruct (_ <=? _); [by left|].
  destruct (IH (acc + 1) (<[pf_dkms_id p:=sdn_entry current p]> next) k) as [E|(q & Hq & ?)].
  - destruct (decide (k = pf_dkms_id p)) as [->|Hne].
    + right. exists p. rewrite E, lookup_insert_eq. split; [by left|done].
    + left. by rewrite E, lookup_insert_ne.
  - right. exists q. split; [by right|done].
Qed.

Lemma apply_loop_dom current peers : forall accepted next,
  dom next ⊆ dom (apply_loop current accepted peers next).
Proof.
  induction peers as [|p peers IH]; intros acc next; [done|]. cbn [apply_loop].
  destruct (negb _); [apply IH|]. destruct (_ <=? _); [done|].
  etransitivity; [|apply IH]. rewrite dom_insert_L. set_solver.
Qed.

Lemma apply_loop_size current peers : forall accepted next, 0 <= accepted <= MAX_PEERS_FROM_SDN ->
  Z.of_nat (size (dom (apply_loop current accepted peers next)))
  <= Z.of_nat (size (dom next)) + (MAX_PEERS_FROM_SDN - accepted).
Proof.
  induction peers as [|p peers IH]; intros acc next Ha; [cbn; lia|]. cbn [apply_loop].
  destruct (negb _); [by apply IH|]. destruct (Z.leb_spec MAX_PEERS_FROM_SDN acc); [lia|].
  specialize (IH (acc + 1) (<[pf_dkms_id p:=sdn_entry current p]> next) ltac:(lia)).
  rewrite (dom_insert_L next) in IH.
  pose proof (size_union_alt {[pf_dkms_id p]} (dom next)) as Hs. rewrite size_singleton in Hs.
  assert (size (dom next ∖ {[pf_dkms_id p]}) <= size (dom next))%nat by (apply subseteq_size; set_solver). lia.
Qed.

Lemma local_filter_dom r : reg_local r ⊆ dom (reg_inner r) ->
  dom (filter (fun kv => kv.1 ∈ reg_local r) (reg_inner r)) = reg_local r.
Proof.
  intros Hl. apply set_eq. intros k. rewrite elem_of_dom. split.
  - intros [v Hv]. by apply map_lookup_filter_Some in Hv as [_ ?].
  - intros Hk. specialize (Hl k Hk). apply elem_of_dom in Hl as [v Hv]. exists v. by apply map_lookup_filter_Some.
Qed.

Lemma apply_from_sdn_ok r peers : reg_ok r -> reg_ok (apply_from_sdn r peers).1.
Proof.
  intros [H1 H2 H3]. unfold apply_from_sdn. destruct (decide _); [by constructor|].
  pose proof (local_filter_dom r H2) as Hd. constructor; cbn [reg_orr reg_inner reg_local fst]; [done| |].
  - rewrite <- Hd. apply apply_loop_dom.
  - pose proof (apply_loop_size (reg_inner r) peers 0 (filter (fun kv => kv.1 ∈ reg_local r) (reg_inner r))
      ltac:(unfold MAX_PEERS_FROM_SDN; lia)) as Hs. rewrite Hd in Hs. unfold sdn_next. lia.
Qed.

Lemma apply_from_sdn_local r peers : reg_local (apply_from_sdn r peers).1 = reg_local r.
Proof. unfold apply_from_sdn. by destruct (decide _). Qed.

Definition sdn_updates (seed : gmap string PeerCfg) (lists : list (list PeerFromSdn)) : PeerRegistry :=
  fold_left (fun r l => (apply_from_sdn r l).1) lists (reg_from_config seed).

Lemma sdn_updates_ok seed lists : reg_ok (sdn_updates seed lists) /\ reg_local (sdn_updates seed lists) = dom seed.
Proof.
  unfold sdn_updates. assert (H0 : reg_ok (reg_from_config seed) /\ reg_local (reg_from_config seed) = dom seed).
  { split; [|done]. constructor; cbn; [done..|]. unfold MAX_PEERS_FROM_SDN. lia. }
  revert H0. generalize (reg_from_config seed). induction lists as [|l lists IH]; intros r [Hr Hl]; [done|].
  cbn [fold_left]. apply IH. split; [by apply apply_from_sdn_ok|].
  by rewrite apply_from_sdn_local.
Qed.

(** What survives an update: who was configured stays, with its local policy. *)
Lemma policy_survives r peers k old new :
  reg_inner r !! k = Some old -> reg_inner (apply_from_sdn r peers).1 !! k = Some new ->
  pc_sni new = pc_sni old /\ pc_transport new = pc_transport old /\ pc_max_hops new = pc_max_hops old
  /\ pc_orr_path new = pc_orr_path old /\ pc_security_level new = pc_security_level old.
Proof.
  intros Ho Hn. unfold apply_from_sdn in Hn. destruct (decide _) as [_|_]; cbn [reg_inner fst] in Hn; [by simplify_eq|].
  destruct (apply_loop_lookup (reg_inner r) peers 0 (filter (fun kv => kv.1 ∈ reg_local r) (reg_inner r)) k)
    as [E|(p & _ & _ & -> & E)]; unfold sdn_next in Hn; rewrite E in Hn.
  - apply map_lookup_filter_Some in Hn as [Hn _]. by simplify_eq.
  - injection Hn as <-. unfold sdn_entry. by rewrite Ho.
Qed.

(** Over any sequence of lists of the controller, the registry keeps every
    configured peer and its local policy (transport, hops, path, level), lists at
    most 1024 others at a time, and its ORR map is the one its peers define. *)
Theorem registry_keeps_configured_peers (seed : gmap string PeerCfg) (lists : list (list PeerFromSdn))
  (k : string) (pc : PeerCfg) (Hk : seed !! k = Some pc) :
  let r := sdn_updates seed lists in
  reg_orr r = derive_orr (reg_inner r)
  /\ Z.of_nat (size (dom (reg_inner r))) <= Z.of_nat (size (dom seed)) + MAX_PEERS_FROM_SDN
  /\ exists pc', reg_inner r !! k = Some pc' /\ pc_transport pc' = pc_transport pc /\ pc_max_hops pc' = pc_max_hops pc
       /\ pc_orr_path pc' = pc_orr_path pc /\ pc_security_level pc' = pc_security_level pc /\ pc_sni pc' = pc_sni pc.
Proof.
  cbv zeta. destruct (sdn_updates_ok seed lists) as [[H1 H2 H3] Hl]. rewrite Hl in *.
  split_and!; [done..|]. clear H1 H2 H3 Hl.
  induction lists as [|l lists IH] using rev_ind; [by exists pc|].
  destruct IH as (pc1 & E1 & T1 & T2 & T3 & T4 & T5). unfold sdn_updates in *. rewrite fold_left_app. cbn [fold_left].
  destruct (sdn_updates_ok seed lists) as [Hok Hl]. unfold sdn_updates in Hok, Hl.
  destruct (apply_from_sdn_ok _ l Hok) as [_ Hdom _].
  assert (Hin : k ∈ dom (reg_inner (apply_from_sdn (fold_left (fun r l => (apply_from_sdn r l).1) lists (reg_from_config seed)) l).1)).
  { apply Hdom. rewrite apply_from_sdn_local, Hl. by apply elem_of_dom_2 in Hk. }
  apply elem_of_dom in Hin as [pc' E']. exists pc'. split; [done|].
  destruct (policy_survives _ _ _ _ _ E1 E') as (P1 & P2 & P3 & P4 & P5). split_and!; congruence.
Qed.

(** ** A list that was just applied changes nothing the second time *)

(** The entry the loop leaves for [k], if it accepts one. *)
Fixpoint sdn_found (current : gmap string PeerCfg) (accepted : Z) (peers : list PeerFromSdn) (k : string) : option PeerCfg :=
  match peers with
  | [] => None
  | p :: peers =>
      if negb (sdn_peer_valid p) then sdn_found current accepted peers k else
      if MAX_PEERS_FROM_SDN <=? accepted then None else
      match sdn_found current (accepted + 1) peers k with
      | Some v => Some v
      | None => if decide (k = pf_dkms_id p) then Some (sdn_entry current p) else None
      end
  end.

Lemma apply_loop_found current peers k : forall accepted next,
  apply_loop current accepted peers next !! k =
    match sdn_found current accepted peers k with Some v => Some v | None => next !! k end.
Proof.
  induction peers as [|p peers IH]; intros acc next; [done|]. cbn [apply_loop sdn_found].
  destruct (negb _); [apply IH|]. destruct (_ <=? _); [done|]. rewrite IH.
  destruct (sdn_found _ _ _ _); [done|]. destruct (decide (k = pf_dkms_id p)) as [->|Hne].
  - by rewrite lookup_insert_eq.
  - by rewrite lookup_insert_ne.
Qed.

Lemma sdn_entry_again (current k : gmap string PeerCfg) p q :
  current !! pf_dkms_id p = Some (sdn_entry k q) -> pf_dkms_id q = pf_dkms_id p -> sdn_entry current p = sdn_entry k p.
Proof.
  intros Hc Eq. unfold sdn_entry at 1. rewrite Hc. unfold sdn_entry. rewrite Eq.
  by destruct (k !! pf_dkms_id p).
Qed.

(** Applied to its own result the loop finds the same entries. *)
Lemma sdn_found_again c peers k : forall acc next,
  sdn_found (apply_loop c acc peers next) acc peers k = sdn_found c acc peers k.
Proof.
  induction peers as [|p peers IH]; intros acc next; [done|]. cbn [apply_loop sdn_found].
  destruct (negb _); [apply IH|]. destruct (_ <=? _); [done|]. rewrite IH.
  destruct (sdn_found _ _ _ _); [done|]. destruct (decide (k = pf_dkms_id p)); [|done]. f_equal.
  set (base := <[pf_dkms_id p:=sdn_entry c p]> next).
  destruct (apply_loop_lookup c peers (acc + 1) base (pf_dkms_id p)) as [E|(q & _ & _ & Eq & E)].
  - unfold base in E at 2. rewrite lookup_insert_eq in E. by eapply sdn_entry_again.
  - by eapply sdn_entry_again.
Qed.

(** Applying a list of the controller twice in a row reports no change the
    second time, whatever the list holds (repeated, invalid or too many entries)
    and whatever the registry was. *)
Theorem apply_from_sdn_idempotent (r : PeerRegistry) (peers : list PeerFromSdn) :
  apply_from_sdn (apply_from_sdn r peers).1 peers = ((apply_from_sdn r peers).1, false).
Proof.
  set (r' := (apply_from_sdn r peers).1).
  assert (Hin : reg_inner r' = sdn_next r peers) by (unfold r', apply_from_sdn; by destruct (decide _)).
  assert (Hlo : reg_local r' = reg_local r) by apply apply_from_sdn_local.
  unfold apply_from_sdn. destruct (decide (reg_inner r' = sdn_next r' peers)) as [_|Hne]; [done|].
  exfalso. apply Hne, map_eq. intros k.
  change (sdn_next r' peers) with
    (apply_loop (reg_inner r') 0 peers (filter (fun kv => kv.1 ∈ reg_local r') (reg_inner r'))).
  rewrite Hlo, Hin, (apply_loop_found (sdn_next r peers)).
  assert (Hf : sdn_found (sdn_next r peers) 0 peers k = sdn_found (reg_inner r) 0 peers k) by apply sdn_found_again.
  rewrite Hf. pose proof (apply_loop_found (reg_inner r) peers k 0 (filter (fun kv => kv.1 ∈ reg_local r) (reg_inner r))) as E.
  fold (sdn_next r peers) in E. destruct (sdn_found (reg_inner r) 0 peers k); [done|].
  rewrite map_lookup_filter, E, map_lookup_filter.
  destruct (reg_inner r !! k) as [v|]; [|done]. cbn. by case_guard.
Qed.

(** ** Incarnations *)

Record heard := mkHeard { hd_peer : string; hd_inc : string; hd_now : Z }.

(** Messages heard in order; the instants at which material was forgotten. *)
Fixpoint note_run (i : PeerIncarnations) (cooldown : Z) (l : list heard) : list (string * Z) :=
  match l with
  | [] => []
  | m :: l =>
      let '(i', r) := note_at i (hd_peer m) (hd_inc m) (hd_now m) cooldown in
      match r with Some _ => [(hd_peer m, hd_now m)] | None => [] end ++ note_run i' cooldown l
  end.

Definition wipes_of (peer : string) (l : list (string * Z)) : list Z := map snd (filter (fun w => w.1 = peer) l).

Lemma note_run_spaced cooldown peer l : forall i,
  Sorted Z.le (map hd_now l) -> 0 <= cooldown ->
  (forall t, pi_last_wipe i !! peer = Some t -> Forall (fun m => t <= hd_now m) l) ->
  let ws := wipes_of peer (note_run i cooldown l) in
  Sorted (fun a b => a + cooldown <= b) ws
  /\ (forall t w, pi_last_wipe i !! peer = Some t -> head ws = Some w -> t + cooldown <= w).
Proof.
  induction l as [|m l IH]; intros i Hs Hc Hlast; [by split; [constructor|]|].
  cbn [map] in Hs. assert (Hss : StronglySorted Z.le (hd_now m :: map hd_now l)) by (apply Sorted_StronglySorted; [exact Z.le_trans|done]).
  apply StronglySorted_inv in Hss as [Hsl Hall]. apply Sorted_inv in Hs as [Hs _].
  rewrite Forall_map in Hall. cbn [note_run].
  assert (Hrec : forall i' t0, pi_last_wipe i' !! peer = t0 -> (t0 = pi_last_wipe i !! peer \/ t0 = Some (hd_now m)) ->
    forall t, pi_last_wipe i' !! peer = Some t -> Forall (fun m' => t <= hd_now m') l).
  { intros i' t0 Et [ -> | -> ] t Ht; rewrite Ht in Et.
    - specialize (Hlast t (eq_sym Et)). by apply Forall_cons in Hlast as [_ ?].
    - injection Et as ->. done. }
  unfold note_at. destruct (pi_seen i !! hd_peer m) as [prev|]; cbn [app];
    [|apply (IH (mkInc _ _)); [done..|]; intros t Ht; cbn in Ht; by apply (Hrec i _ eq_refl ltac:(by left))].
  destruct (bool_decide _); [apply (IH (mkInc _ _)); [done..|]; intros t Ht; cbn in Ht; by apply (Hrec i _ eq_refl ltac:(by left))|].
  destruct (match pi_last_wipe i !! hd_peer m with Some _ => _ | None => _ end) eqn:Eg.
  { apply (IH (mkInc _ _)); [done..|]. intros t Ht. cbn in Ht. by apply (Hrec i _ eq_refl ltac:(by left)). }
  set (i' := mkInc (<[hd_peer m:=hd_inc m]> (pi_seen i)) (<[hd_peer m:=hd_now m]> (pi_last_wipe i))).
  cbn [app]. unfold wipes_of. destruct (decide (hd_peer m = peer)) as [<-|Hne].
  - rewrite filter_cons_True by done. cbn [map snd].
    assert (Hl' : pi_last_wipe i' !! hd_peer m = Some (hd_now m)) by apply lookup_insert_eq.
    destruct (IH i' Hs Hc) as [S1 S2]; [by apply (Hrec i' _ Hl'); right|]. split.
    + constructor; [done|]. fold (wipes_of (hd_peer m) (note_run i' cooldown l)).
      destruct (wipes_of _ _) as [|w ws] eqn:Ew; constructor. apply (S2 _ _ Hl'). reflexivity.
    + intros t w Ht [= <-]. rewrite Ht in Eg. b2p. unfold sat_sub in Eg.
      specialize (Hlast t Ht). apply Forall_cons in Hlast as [Hle _]. lia.
  - rewrite filter_cons_False by done.
    assert (Hl' : pi_last_wipe i' !! peer = pi_last_wipe i !! peer) by (apply lookup_insert_ne; done).
    destruct (IH i' Hs Hc) as [S1 S2]; [by apply (Hrec i' _ Hl'); left|]. split; [done|].
    intros t w Ht. apply S2. by rewrite Hl'.
Qed.

(** However often a peer changes its incarnation, the material shared with it
    is forgotten at most once per cooldown. *)
Theorem wipes_are_spaced (peer : string) (cooldown : Z) (l : list heard)
  (Hs : Sorted Z.le (map hd_now l)) (Hc : 0 <= cooldown) :
  Sorted (fun a b => a + cooldown <= b) (wipes_of peer (note_run inc_new cooldown l)).
Proof. apply note_run_spaced; [done..|]. intros t Ht. discriminate. Qed.

(** A second restart of a peer within the cooldown is never acted on: the new
    incarnation is recorded without forgetting anything, and every later message
    of that execution finds it already recorded, so the material of the execution
    in between stays in the buffers. *)
Theorem restart_in_cooldown_is_missed (i : PeerIncarnations) (peer a b c : string) (t0 t1 cooldown : Z)
  (later : list heard) (Hseen : pi_seen i !! peer = Some a) (Hwipe : pi_last_wipe i !! peer = None)
  (Hab : a <> b) (Hbc : b <> c) (Ht : t0 <= t1 < t0 + cooldown)
  (Hlater : Forall (fun m => hd_peer m = peer /\ hd_inc m = c) later) :
  note_run i cooldown (mkHeard peer b t0 :: mkHeard peer c t1 :: later) = [(peer, t0)].
Proof.
  cbn [note_run hd_peer hd_inc hd_now]. unfold note_at at 1. rewrite Hseen, bool_decide_eq_false_2, Hwipe by done.
  cbn [app]. f_equal. unfold note_at. cbn [pi_seen pi_last_wipe]. rewrite !lookup_insert_eq, bool_decide_eq_false_2 by done.
  destruct (Z.ltb_spec (sat_sub t1 t0) cooldown) as [_|Hge]; [|unfold sat_sub in Hge; lia]. cbn [app].
  generalize (<[peer:=t0]> (pi_last_wipe i)). intros w.
  assert (Hc : forall s, s !! peer = Some c -> note_run (mkInc s w) cooldown later = []).
  { induction Hlater as [|m l [Hp Hi] Hl IH]; intros s Hs; [done|]. cbn [note_run]. unfold note_at.
    rewrite Hp, Hi. cbn [pi_seen]. rewrite Hs, bool_decide_eq_true_2 by done. cbn [app]. apply IH. apply lookup_insert_eq. }
  apply Hc. apply lookup_insert_eq.
Qed.

(** ** The theorems on concrete peers *)

Definition seed_peer : PeerCfg := mkPeerCfg "https://a:20006" None (Some "orr_9"%string) TransportOrr (Some 3) None None.
Definition sdn_lists : list (list PeerFromSdn) :=
  [[mkFromSdn "dkms-2" "orr_2" "10.0.0.2:20006"; mkFromSdn "dkms-3" "orr_3" "10.0.0.3:20006"]; []].

Lemma registry_keeps_configured_peers_witness :
  let r := sdn_updates {[ "dkms-2"%string := seed_peer ]} sdn_lists in
  reg_orr r = derive_orr (reg_inner r)
  /\ Z.of_nat (size (dom (reg_inner r))) <= Z.of_nat (size (dom ({[ "dkms-2"%string := seed_peer ]} : gmap string PeerCfg))) + MAX_PEERS_FROM_SDN
  /\ exists pc', reg_inner r !! "dkms-2"%string = Some pc' /\ pc_transport pc' = pc_transport seed_peer
       /\ pc_max_hops pc' = pc_max_hops seed_peer /\ pc_orr_path pc' = pc_orr_path seed_peer
       /\ pc_security_level pc' = pc_security_level seed_peer /\ pc_sni pc' = pc_sni seed_peer.
Proof.
  apply (registry_keeps_configured_peers {[ "dkms-2"%string := seed_peer ]} sdn_lists "dkms-2" seed_peer).
  apply lookup_singleton_eq.
Defined.

Definition restarts : list heard :=
  [mkHeard "dkms-2" "a" 0; mkHeard "dkms-2" "b" 10; mkHeard "dkms-2" "c" 20; mkHeard "dkms-2" "d" 45].

Lemma wipes_are_spaced_witness :
  wipes_of "dkms-2" (note_run inc_new 30 restarts) = [10; 45]
  /\ Sorted (fun a b => a + 30 <= b) (wipes_of "dkms-2" (note_run inc_new 30 restarts)).
Proof.
  split; [vm_compute; reflexivity|].
  apply (wipes_are_spaced "dkms-2" 30 restarts); [repeat constructor; cbn; lia|lia].
Defined.

Lemma restart_in_cooldown_is_missed_witness :
  note_run (mkInc {[ "dkms-2"%string := "a"%string ]} ∅) 30
    (mkHeard "dkms-2" "b" 10 :: mkHeard "dkms-2" "c" 20 :: [mkHeard "dkms-2" "c" 90]) = [("dkms-2"%string, 10)].
Proof.
  apply (restart_in_cooldown_is_missed _ "dkms-2" "a" "b" "c" 10 20 30 [mkHeard "dkms-2" "c" 90]).
  - apply lookup_singleton_eq.
  - apply lookup_empty.
  - discriminate.
  - discriminate.
  - lia.
  - by repeat constructor.
Defined.
