(* ===== verification/Drain.v ===== *)
(** * Controlled shutdown (dkms/src/admission.rs, etsi_http/admission_layer.rs, the [Drain] handler of grpc_server.rs)

    Requests and the drain run concurrently on two atomics and a [Notify]: the
    relation [drain_step] has one rule per atomic action.

    - A request checks [is_accepting] ([Rq_check]), takes its guard ([acquire]),
      may store key material while it runs, and drops the guard.
    - The drain closes the admission, runs the loop of [wait_drained] (check, arm
      the waiter, check again, sleep) or times out, and wipes the stores.

    [late] records the requests that were between their check and their guard when
    the admission closed. *)

From Stdlib Require Import ZArith Lia.
From S2P Require Import Prelude.

Inductive RqPhase := RqNew | RqChecked | RqRunning | RqRejected | RqDone.
#[export] Instance RqPhase_eq_dec : EqDecision RqPhase.
Proof. solve_decision. Defined.

(** [DArmed woken]: the [Notified] future exists; [woken] once it was notified. *)
Inductive DrainPhase := DIdle | DCheck | DArmed (woken : bool) | DSleep | DDrained | DTimeout | DWiped (clean : bool).

Record Drain := mkDrain {
  dr_accepting : bool;
  dr_inflight : Z;
  dr_requests : list RqPhase;
  dr_phase : DrainPhase;
  dr_stored : Z;
  dr_late : gset nat;
}.

Definition drain_init (n : nat) : Drain := mkDrain true 0 (replicate n RqNew) DIdle 0 ∅.

(** [notify_waiters]. *)
Definition notify (p : DrainPhase) : DrainPhase :=
  match p with DArmed _ => DArmed true | DSleep => DCheck | p => p end.

Definition checked (l : list RqPhase) : gset nat :=
  list_to_set (filter (fun i => l !! i = Some RqChecked) (seq 0 (length l))).

Definition waiting (p : DrainPhase) : bool :=
  match p with DCheck | DArmed _ | DSleep => true | _ => false end.

Inductive drain_step : Drain -> Drain -> Prop :=
  | Rq_check s i : dr_requests s !! i = Some RqNew ->
      drain_step s (mkDrain (dr_accepting s) (dr_inflight s)
        (<[i := if dr_accepting s then RqChecked else RqRejected]> (dr_requests s)) (dr_phase s) (dr_stored s) (dr_late s))
  | Rq_acquire s i : dr_requests s !! i = Some RqChecked ->
      drain_step s (mkDrain (dr_accepting s) (dr_inflight s + 1) (<[i := RqRunning]> (dr_requests s)) (dr_phase s)
        (dr_stored s) (dr_late s))
  | Rq_store s i : dr_requests s !! i = Some RqRunning ->
      drain_step s (mkDrain (dr_accepting s) (dr_inflight s) (dr_requests s) (dr_phase s) (dr_stored s + 1) (dr_late s))
  | Rq_finish s i : dr_requests s !! i = Some RqRunning ->
      drain_step s (mkDrain (dr_accepting s) (dr_inflight s - 1) (<[i := RqDone]> (dr_requests s))
        (if dr_inflight s =? 1 then notify (dr_phase s) else dr_phase s) (dr_stored s) (dr_late s))
  | Dr_close s : dr_phase s = DIdle ->
      drain_step s (mkDrain false (dr_inflight s) (dr_requests s) DCheck (dr_stored s) (checked (dr_requests s)))
  | Dr_check s : dr_phase s = DCheck ->
      drain_step s (mkDrain (dr_accepting s) (dr_inflight s) (dr_requests s)
        (if dr_inflight s =? 0 then DDrained else DArmed false) (dr_stored s) (dr_late s))
  | Dr_recheck s w : dr_phase s = DArmed w ->
      drain_step s (mkDrain (dr_accepting s) (dr_inflight s) (dr_requests s)
        (if dr_inflight s =? 0 then DDrained else if w : bool then DCheck else DSleep) (dr_stored s) (dr_late s))
  | Dr_timeout s : waiting (dr_phase s) = true ->
      drain_step s (mkDrain (dr_accepting s) (dr_inflight s) (dr_requests s) DTimeout (dr_stored s) (dr_late s))
  | Dr_wipe s : dr_phase s = DDrained \/ dr_phase s = DTimeout ->
      drain_step s (mkDrain (dr_accepting s) (dr_inflight s) (dr_requests s)
        (DWiped (match dr_phase s with DDrained => true | _ => false end)) 0 (dr_late s)).

Inductive drain_reach (n : nat) : Drain -> Prop :=
  | drain_start : drain_reach n (drain_init n)
  | drain_next s s' : drain_reach n s -> drain_step s s' -> drain_reach n s'.

(** ** Invariant *)

Definition running (l : list RqPhase) : Z := zlen (filter (fun p => p = RqRunning) l).

Definition is_running (p : RqPhase) : Z := if decide (p = RqRunning) then 1 else 0.

Lemma running_cons p l : running (p :: l) = is_running p + running l.
Proof.
  unfold running, is_running. destruct (decide (p = RqRunning)) as [->|H].
  - rewrite filter_cons_True by done. apply zlen_cons.
  - by rewrite filter_cons_False.
Qed.

Lemma running_insert l i x y : l !! i = Some x -> running (<[i := y]> l) = running l - is_running x + is_running y.
Proof.
  revert i. induction l as [|p l IH]; intros [|i] Hx; try discriminate; cbn in Hx.
  - injection Hx as ->. change (<[0%nat := y]> (x :: l)) with (y :: l). rewrite !running_cons. lia.
  - change (<[S i := y]> (p :: l)) with (p :: <[i := y]> l). rewrite !running_cons, (IH i) by done. lia.
Qed.

Lemma elem_of_checked l i : i ∈ checked l <-> l !! i = Some RqChecked.
Proof.
  unfold checked. rewrite elem_of_list_to_set, list_elem_of_filter. split; [tauto|]. intros H. split; [done|].
  apply elem_of_seq. apply lookup_lt_Some in H. lia.
Qed.

Definition closed (p : DrainPhase) : bool := match p with DIdle => false | _ => true end.

Record drain_inv (s : Drain) : Prop := {
  di_count : dr_inflight s = running (dr_requests s);
  di_sleep : dr_phase s = DSleep \/ dr_phase s = DArmed false -> dr_inflight s <> 0;
  di_accept : dr_accepting s = negb (closed (dr_phase s));
  di_late : closed (dr_phase s) = true -> forall i, dr_requests s !! i = Some RqChecked -> i ∈ dr_late s;
  di_drained : dr_phase s = DDrained \/ dr_phase s = DWiped true ->
    forall i, dr_requests s !! i = Some RqRunning -> i ∈ dr_late s;
  di_stored : dr_phase s = DWiped true -> dr_late s = ∅ -> dr_stored s = 0;
}.

Lemma running_zero l i : running l = 0 -> l !! i <> Some RqRunning.
Proof.
  intros Hz Hi. unfold running, zlen in Hz.
  assert (Hf : filter (fun p => p = RqRunning) l = []) by (destruct (filter _ l); cbn in Hz; [done|lia]).
  apply (filter_nil_not_elem_of _ _ RqRunning) in Hf; [|done]. by apply list_elem_of_lookup_2 in Hi.
Qed.

Lemma drain_inv_init n : drain_inv (drain_init n).
Proof.
  constructor; cbn; try done; try (intros [?|?]; discriminate).
  unfold running. induction n; [done|]. cbn. exact IHn.
Qed.

Lemma closed_notify p : closed (notify p) = closed p.
Proof. by destruct p. Qed.

Ltac rq := change (is_running RqNew) with 0 in *; change (is_running RqChecked) with 0 in *;
  change (is_running RqRunning) with 1 in *.

Ltac drain_phase := repeat match goal with H : dr_phase _ = _ |- _ => rewrite H in * end; cbn in *.

Lemma insert_other {A} (l : list A) i j x y : <[i := y]> l !! j = Some x -> j = i /\ x = y \/ j <> i /\ l !! j = Some x.
Proof.
  intros H. destruct (decide (j = i)) as [->|Hne].
  - apply list_lookup_insert_Some in H as [(? & ? & ?)|(? & ?)]; [left; done|done].
  - right. by rewrite list_lookup_insert_ne in H.
Qed.

Lemma drain_inv_request s i x y k ph st :
  drain_inv s -> dr_requests s !! i = Some x -> y <> RqRunning -> y <> RqChecked ->
  k = dr_inflight s - is_running x -> st = dr_stored s ->
  (ph = dr_phase s /\ (is_running x = 0 \/ dr_inflight s <> 1)) \/ ph = notify (dr_phase s) ->
  drain_inv (mkDrain (dr_accepting s) k (<[i := y]> (dr_requests s)) ph st (dr_late s)).
Proof.
  intros [H1 H2 H3 H4 H5 H6] Hx Hy Hy' -> -> Hph.
  assert (Hy0 : is_running y = 0) by (unfold is_running; by destruct (decide _)).
  assert (Hold : forall j p, <[i := y]> (dr_requests s) !! j = Some p -> p = RqRunning \/ p = RqChecked -> dr_requests s !! j = Some p).
  { intros j p [[_ ->]|[_ ?]]%insert_other Hp; [destruct Hp; done|done]. }
  constructor; cbn [dr_inflight dr_requests dr_phase dr_stored dr_late dr_accepting].
  - rewrite (running_insert _ _ _ _ Hx). lia.
  - destruct Hph as [[-> Hx1]| ->].
    + intros Hs. specialize (H2 Hs). unfold is_running in *. destruct (decide (x = RqRunning)); lia.
    + intros [Hs|Hs]; destruct (dr_phase s); discriminate.
  - destruct Hph as [[-> _]| ->]; rewrite ?closed_notify; done.
  - intros Hc j Hj. apply H4; [destruct Hph as [[-> _]| ->]; by rewrite ?closed_notify in Hc|].
    apply Hold; [done|by right].
  - intros Hd j Hj. apply H5; [|apply Hold; [done|by left]].
    destruct Hph as [[-> _]| ->]; [done|]. destruct (dr_phase s); cbn in Hd; try done; by destruct Hd.
  - intros Hw. apply H6. destruct Hph as [[-> _]| ->]; [done|]. by destruct (dr_phase s).
Qed.

Lemma drain_step_inv s s' : drain_step s s' -> drain_inv s -> drain_inv s'.
Proof.
  intros Hstep Hinv. destruct Hstep as [s i Hi|s i Hi|s i Hi|s i Hi|s Hp|s Hp|s w Hp|s Hp|s Hp].
  - destruct (dr_accepting s) eqn:Ea.
    + destruct Hinv as [H1 H2 H3 H4 H5 H6]. rewrite Ea in H3.
      assert (Hcl : closed (dr_phase s) = false) by (by destruct (closed _)).
      constructor; cbn; try done; try congruence.
      * rewrite (running_insert _ _ _ _ Hi), H1. rq. lia.
      * intros Hd. by destruct (dr_phase s), Hd.
    + rewrite <- Ea. eapply drain_inv_request; [done|done|done|done| |done|left; split; [done|by left]].
      rq. lia.
  - destruct Hinv as [H1 H2 H3 H4 H5 H6]. constructor; cbn; try done.
    + rewrite (running_insert _ _ _ _ Hi), H1. rq. lia.
    + intros Hs. pose proof (zlen_nonneg (filter (fun p => p = RqRunning) (dr_requests s))). unfold running in H1. lia.
    + intros Hc j [[_ ?]|[_ ?]]%insert_other; [done|]. by apply H4.
    + intros Hd j [[-> _]|[_ ?]]%insert_other; [|by apply H5]. apply H4; [by destruct Hd as [-> | ->]|done].
  - destruct Hinv as [H1 H2 H3 H4 H5 H6]. constructor; cbn; try done.
    intros Hw Hl. exfalso. specialize (H5 ltac:(by right) i Hi). set_solver.
  - eapply drain_inv_request; [done|done|done|done|rq; lia|done|].
    destruct (Z.eqb_spec (dr_inflight s) 1); [by right|left; split; [done|by right]].
  - destruct Hinv as [H1 H2 H3 H4 H5 H6]. constructor; cbn; try done; try (intros [?|?]; discriminate).
    intros _ j Hj. by apply elem_of_checked.
  - destruct Hinv as [H1 H2 H3 H4 H5 H6]. drain_phase.
    constructor; cbn; destruct (Z.eqb_spec (dr_inflight s) 0) as [Hz|Hz]; try done; try (intros [?|?]; discriminate).
    + intros _ j Hj. exfalso. rewrite Hz in H1. by eapply running_zero.
  - destruct Hinv as [H1 H2 H3 H4 H5 H6]. drain_phase.
    constructor; cbn; destruct (Z.eqb_spec (dr_inflight s) 0) as [Hz|Hz], w; try done; try (intros [?|?]; discriminate).
    all: intros _ j Hj; exfalso; rewrite Hz in H1; by eapply running_zero.
  - destruct Hinv as [H1 H2 H3 H4 H5 H6].
    assert (closed (dr_phase s) = true) by (by destruct (dr_phase s)).
    constructor; cbn; try done; try (intros [?|?]; discriminate); [by rewrite H3, H|intros _; by apply H4].
  - destruct Hinv as [H1 H2 H3 H4 H5 H6].
    constructor; cbn; try done; try (intros [?|?]; discriminate); destruct Hp as [Hp|Hp]; rewrite Hp in *; cbn in *; try done.
    all: intros [?|?]; try discriminate; apply H5; by left.
Qed.

Lemma drain_reach_inv n s : drain_reach n s -> drain_inv s.
Proof. induction 1; [apply drain_inv_init|by eapply drain_step_inv]. Qed.

(** No wake-up is lost: in every interleaving of requests and drain, a drain
    that sleeps in [wait_drained] has a request in flight that will wake it, and
    the counter is the number of requests that hold a guard. *)
Theorem drain_never_sleeps_alone (n : nat) (s : Drain) (Hr : drain_reach n s) :
  dr_inflight s = running (dr_requests s)
  /\ (dr_phase s = DSleep -> 0 < dr_inflight s)
  /\ (forall i, dr_requests s !! i = Some RqRunning -> dr_inflight s = 1 -> dr_phase s = DSleep ->
        exists s', drain_step s s' /\ dr_phase s' = DCheck /\ dr_inflight s' = 0).
Proof.
  destruct (drain_reach_inv _ _ Hr) as [H1 H2 _ _ _ _]. split_and!; [done| |].
  - intros Hs. specialize (H2 ltac:(by left)).
    pose proof (zlen_nonneg (filter (fun p => p = RqRunning) (dr_requests s))). unfold running in H1. lia.
  - intros i Hi H0 Hs. eexists. split; [by apply (Rq_finish s i)|]. cbn. by rewrite H0, Hs.
Qed.

(** A drain that ended cleanly leaves no request running and no material
    stored, if no request was between its check and its guard when it closed. *)
Theorem drain_is_clean (n : nat) (s : Drain) (Hr : drain_reach n s) (Hw : dr_phase s = DWiped true) (Hl : dr_late s = ∅) :
  dr_inflight s = 0 /\ dr_stored s = 0.
Proof.
  destruct (drain_reach_inv _ _ Hr) as [H1 _ _ _ H5 H6]. split; [|by apply H6].
  rewrite H1. unfold running, zlen. destruct (filter _ (dr_requests s)) as [|p l] eqn:Ef; [done|].
  assert (Hp : p ∈ filter (fun p => p = RqRunning) (dr_requests s)) by (rewrite Ef; by left).
  apply list_elem_of_filter in Hp as [-> Hp]. apply list_elem_of_lookup in Hp as [i Hi].
  specialize (H5 ltac:(by right) i Hi). set_solver.
Qed.

(** The check and the guard are two steps: a request that passed the check
    just before the admission closed can start after the drain has finished
    cleanly and wiped the stores, and leaves key material behind. *)
Theorem request_outlives_clean_drain :
  exists s, drain_reach 1 s /\ dr_phase s = DWiped true /\ dr_stored s = 1 /\ dr_inflight s = 1.
Proof.
  eexists. split.
  - eapply drain_next; [eapply drain_next; [eapply drain_next; [eapply drain_next; [eapply drain_next; [eapply drain_next; [apply drain_start|]|]|]|]|]|].
    + by apply (Rq_check _ 0).
    + by apply Dr_close.
    + by apply Dr_check.
    + cbn. apply Dr_wipe. by left.
    + by apply (Rq_acquire _ 0).
    + by apply (Rq_store _ 0).
  - done.
Qed.

(** The clean case: one request runs to its end while the drain waits for it. *)
Definition drained_state : Drain := mkDrain false 0 [RqDone] (DWiped true) 0 ∅.

Lemma drained_reach : drain_reach 1 drained_state.
Proof.
  eapply drain_next; [eapply drain_next; [eapply drain_next; [eapply drain_next; [eapply drain_next; [eapply drain_next; [apply drain_start|]|]|]|]|]|].
  - by apply (Rq_check _ 0).
  - by apply (Rq_acquire _ 0).
  - by apply Dr_close.
  - by apply (Rq_finish _ 0).
  - by apply Dr_check.
  - apply (Dr_wipe (mkDrain false 0 [RqDone] DDrained 0 ∅)). by left.
Qed.

Lemma drain_is_clean_witness : dr_inflight drained_state = 0 /\ dr_stored drained_state = 0.
Proof. apply (drain_is_clean 1 drained_state drained_reach); reflexivity. Defined.

Lemma drain_never_sleeps_alone_witness :
  dr_inflight drained_state = running (dr_requests drained_state)
  /\ (dr_phase drained_state = DSleep -> 0 < dr_inflight drained_state)
  /\ (forall i, dr_requests drained_state !! i = Some RqRunning -> dr_inflight drained_state = 1 -> dr_phase drained_state = DSleep ->
        exists s', drain_step drained_state s' /\ dr_phase s' = DCheck /\ dr_inflight s' = 0).
Proof. apply (drain_never_sleeps_alone 1 drained_state drained_reach). Defined.
