(* ===== verification/Emission.v ===== *)
(** * Emission of transport keys (dkms/src/control/generator.rs, the delivery pump
    of dkms/src/service.rs, control/ack_socket.rs)

    A node is the service of [Delivery], the end-to-end layer of [E2e], the peers
    of [Peers] and the configuration of its generator.

    - [emit_key]: one key is drawn, registered as pending, put into a sealed
      message for the peer's ORR; [emit_failed] when the ORR did not take it.
    - [tick_plan]: how many keys a tick emits to each peer.  Rates are
      floating-point numbers, so what the bucket of a peer can give is an argument.
    - [handle_orr_delivery]: a message from the ORR is checked, opened, filed and
      acknowledged.
    - [ack_enqueue], [ack_flush]: the batching of acknowledgements; the batches
      reach [handle_incoming_ack] (ETSI 020) or [ack_socket_line] (the TCP socket).

    Many keys on their way at once are in [EmissionFlow].  Counters of the flow
    statistics are left out. *)

From Stdlib Require Import ZArith Lia.
From S2P Require Import Prelude Ids Text Primitives ReplayWindow FrameMac Security TransportPool Delivery E2e Peers.

Definition HDR_MSG_TYPE : string := "msg_type".
Definition HDR_ACK_ENDPOINT : string := "ack_endpoint".
Definition MSG_TYPE_DKMS_BUFFER : string := "DKMS_BUFFER".
Definition HDR_KEY_ID : string := "key_id".
Definition HDR_SAE_ORIGIN : string := "sae_origin".
Definition HDR_KEY_SIZE_BITS : string := "key_size_bits".
Definition HDR_REQUEST_ID : string := "request_id".
Definition HDR_TIMESTAMP_MS : string := "timestamp_ms".
Definition HDR_ORR_PATH : string := "orr_path".

Definition DEC_HARD_CEILING_MULT : Z := 64.
Definition MAX_ACK_FROM : Z := 128.

Record GeneratorCfg := mkGen {
  g_key_size_bytes : nat;
  g_ack_timeout_ms : Z;
  g_ack_endpoint : option string;
  g_default_max_hops : Z;
  g_max_tokens_per_peer_per_tick : Z;
  g_capacity : Z;
  g_incarnation : string;
}.

(** [advertised_ack_endpoint]. *)
Definition advertised_ack_endpoint (listen : bool) (advertised addr : option string) : option string :=
  if listen then match advertised with Some e => Some e | None => addr end else None.

Record Node (SBB : Type) := mkNode {
  nd_d : Dkms SBB;
  nd_e2e : E2e;
  nd_reg : PeerRegistry;
  nd_inc : PeerIncarnations;
  nd_gen : GeneratorCfg;
  nd_e2e_client : bool;
  nd_ack_client : bool;
  nd_etsi020_acks : bool;
}.
Arguments mkNode {SBB}.
Arguments nd_d {SBB}.
Arguments nd_e2e {SBB}.
Arguments nd_reg {SBB}.
Arguments nd_inc {SBB}.
Arguments nd_gen {SBB}.
Arguments nd_e2e_client {SBB}.
Arguments nd_ack_client {SBB}.
Arguments nd_etsi020_acks {SBB}.

Record DeliveredMessage := mkMsg { dm_payload : bytes; dm_app_header : Header }.

(** Per peer: the address of the last message and the ids to acknowledge. *)
Abbreviation AckQueue := (gmap string (string * list string)).

Definition ack_enqueue (max_keys : Z) (q : AckQueue) (peer addr id : string) : AckQueue * option (list string) :=
  let ids := snd (default (addr, []) (q !! peer)) ++ [id] in
  if max_keys <=? zlen ids then (<[peer := (addr, [])]> q, Some ids) else (<[peer := (addr, ids)]> q, None).

Definition ack_flush (q : AckQueue) : AckQueue * list (string * string * list string) :=
  ((fun b => (b.1, [])) <$> q,
   map (fun pb => (pb.1, pb.2.1, pb.2.2)) (filter (fun pb => pb.2.2 <> []) (map_to_list q))).

Inductive EmitOut :=
  | EmitNoPeer
  | EmitErr (e : E2eError)
  | EmitPanic
  | EmitSend (dest_orr : string) (ct : bytes) (header : Header) (max_hops : Z) (grade : KeyGrade).

Section Node.
Context {SBB : Type} `{PeerBuckets SBB} `{KeyDigest} `{MacCrypto} `{AesGcm} `{MlKem} `{TextCodecs}.
Implicit Types n : Node SBB.

Definition with_d (d : Dkms SBB) n : Node SBB :=
  mkNode d (nd_e2e n) (nd_reg n) (nd_inc n) (nd_gen n) (nd_e2e_client n) (nd_ack_client n) (nd_etsi020_acks n).
Definition with_e2e (e : E2e) n : Node SBB :=
  mkNode (nd_d n) e (nd_reg n) (nd_inc n) (nd_gen n) (nd_e2e_client n) (nd_ack_client n) (nd_etsi020_acks n).
Definition with_inc (i : PeerIncarnations) n : Node SBB :=
  mkNode (nd_d n) (nd_e2e n) (nd_reg n) i (nd_gen n) (nd_e2e_client n) (nd_ack_client n) (nd_etsi020_acks n).

(** ** The generator *)

Definition request_agreement (now : Z) n (peer : string) : Node SBB :=
  with_e2e (fst (agreement_gate now (nd_e2e_client n && bool_decide (is_Some (reg_get (nd_reg n) peer))) (nd_e2e n) peer)) n.

Definition emit_grade n (peer : string) : KeyGrade :=
  if default true (dk_qkd_avail (nd_d n) peer) then GradeQkd else GradePqc.

Definition emit_header n (peer uuid : string) (ts : Z) : Header :=
  let g := nd_gen n in
  let h := <[HDR_INCARNATION := g_incarnation g]>
           (<[HDR_REQUEST_ID := String.app "gen-" uuid]>
           (<[HDR_TIMESTAMP_MS := to_string ts]>
           (<[HDR_KEY_SIZE_BITS := to_string (Z.of_nat (g_key_size_bytes g) * 8)]>
           (<[HDR_SAE_ORIGIN := cf_node_id (dk_cfg (nd_d n))]>
           (<[HDR_KEY_ID := uuid]>
           (<[HDR_MSG_TYPE := MSG_TYPE_DKMS_BUFFER]> ∅)))))) in
  let h := match g_ack_endpoint g with Some ep => <[HDR_ACK_ENDPOINT := ep]> h | None => h end in
  let hops := max_hops_for (nd_reg n) peer (g_default_max_hops g) in
  if (2 <=? hops) || (hops =? -1) then
    match orr_path_for (nd_reg n) peer with Some p => <[HDR_ORR_PATH := p]> h | None => h end
  else h.

Definition ack_store n : AckPendingStore := default ∅ (dk_ack (nd_d n)).

(** The ORR did not take the key, or it could not be sealed. *)
Definition emit_failed n (peer uuid : string) : Node SBB :=
  with_d (with_ack (Some (fst (ap_take (ack_store n) peer uuid))) (nd_d n)) n.

Definition emit_key (now ts : Z) (rnd : bytes) (uuid : string) n (peer : string) : Node SBB * EmitOut :=
  match orr_map (nd_reg n) !! peer with
  | None => (n, EmitNoPeer)
  | Some dest =>
      let grade := emit_grade n peer in
      let entry := mkAe rnd (now + g_ack_timeout_ms (nd_gen n) * 1000000) grade in
      let header := emit_header n peer uuid ts in
      let hops := max_hops_for (nd_reg n) peer (g_default_max_hops (nd_gen n)) in
      let n := with_d (with_ack (Some (ap_insert (ack_store n) peer uuid entry)) (nd_d n)) n in
      let '(e, header, r) := e2e_seal (nd_e2e n) peer uuid header rnd in
      let n := with_e2e e n in
      match r with
      | Ok ct => (n, EmitSend dest ct header hops grade)
      | Err err =>
          let n := match err with NoEpoch _ => request_agreement now n peer | _ => n end in
          (emit_failed n peer uuid, EmitErr err)
      | Panic => (n, EmitPanic)
      end
  end.

(** What one peer is given in a tick; [avail] is the whole tokens of its bucket. *)
Definition tick_tokens n (peer : string) (avail : Z) : Z :=
  let used := enc_len (for_peer (dk_pool (nd_d n)) peer) + pending_count (ack_store n) peer in
  let headroom := sat_sub (g_capacity (nd_gen n)) used in
  if headroom =? 0 then 0 else
  Z.min avail (Z.min (g_max_tokens_per_peer_per_tick (nd_gen n)) (Z.min headroom (u_max 32))).

Definition tick_plan n (work : list (string * Z)) : list (string * Z) :=
  filter (fun pt => pt.2 <> 0) (map (fun pa => (pa.1, tick_tokens n pa.1 pa.2)) work).

(** ** The delivery pump *)

Definition note_peer_incarnation (now : Z) n (peer inc : string) : Node SBB :=
  let '(i, r) := note_at (nd_inc n) peer inc now INCARNATION_WIPE_COOLDOWN in
  let n := with_inc i n in
  match r with
  | Some _ => with_d (forget_material_of_previous_incarnation (nd_d n) peer) n
  | None => n
  end.

Definition has_etsi020_route n (peer : string) : bool :=
  nd_etsi020_acks n && match reg_get (nd_reg n) peer with
                       | Some pc => negb (bool_decide (pc_endpoint pc = ""%string)) | None => false end.

(** The acknowledgement that is enqueued: peer, socket address, key id. *)
Definition ack_of n (source : string) (ack_endpoint : option string) (id : string) : option (string * string * string) :=
  let ep := default ""%string ack_endpoint in
  if nd_ack_client n && (negb (bool_decide (ep = ""%string)) || has_etsi020_route n source)
  then Some (source, ep, id) else None.

Definition size_mismatch (h : Header) (payload : bytes) : bool :=
  match h !! HDR_KEY_SIZE_BITS ≫= parse_u 32 with
  | Some bits => negb (zlen payload =? (bits + 7) / 8)
  | None => false
  end.

Definition file_key n (source id : string) (pt : bytes) (ack_endpoint : option string)
  : Node SBB * option (string * string * string) :=
  let pb := for_peer (dk_pool (nd_d n)) source in
  let ceiling := sat_mul 64 (sb_capacity (pb_dec pb)) DEC_HARD_CEILING_MULT in
  match try_push_capped (pb_dec pb) (mkTk id pt) ceiling with
  | (_, Some _) => (n, None)
  | (dec, None) => (with_d (with_pool (set_peer source (set_dec dec pb) (dk_pool (nd_d n))) (nd_d n)) n,
                    ack_of n source ack_endpoint id)
  end.

Definition handle_orr_delivery_buffer (now : Z) n (msg : DeliveredMessage)
  : Node SBB * res DkmsError (option (string * string * string)) :=
  let app := dm_app_header msg in
  match app !! HDR_KEY_ID, app !! HDR_SAE_ORIGIN with
  | None, _ => (n, Err BadRequest)
  | _, None => (n, Err BadRequest)
  | Some id, Some source =>
      if negb (is_valid_id source) || negb (bool_decide (is_Some (reg_get (nd_reg n) source))) then (n, Ok None) else
      if size_mismatch app (dm_payload msg) then (n, Err BadRequest) else
      let '(e, r) := e2e_open now (nd_e2e n) source app id (dm_payload msg) in
      let n := with_e2e e n in
      match r with
      | Panic => (n, Panic)
      | Err (UnknownEpoch _ _) => (request_agreement now n source, Ok None)
      | Err _ => (n, Ok None)
      | Ok pt =>
          let n := match app !! HDR_INCARNATION with Some inc => note_peer_incarnation now n source inc | None => n end in
          let '(n, ack) := file_key n source id pt (app !! HDR_ACK_ENDPOINT) in
          (n, Ok ack)
      end
  end.

Definition handle_orr_delivery (now : Z) n (msg : DeliveredMessage)
  : Node SBB * res DkmsError (option (string * string * string)) :=
  if bool_decide (default ""%string (dm_app_header msg !! HDR_MSG_TYPE) = MSG_TYPE_DKMS_BUFFER)
  then handle_orr_delivery_buffer now n msg else (n, Ok None).

(** ** Acknowledgements on the TCP socket *)

Definition ack_from_is_processable (from : string) (is_known_peer : bool) : bool :=
  (zlen (as_bytes from) <=? MAX_ACK_FROM) && is_known_peer.

Definition ack_socket_line n (from : string) (ids : list string) : Node SBB :=
  if ack_from_is_processable from (bool_decide (is_Some (reg_get (nd_reg n) from)))
  then with_d (fst (handle_incoming_ack (nd_d n) from ids)) n else n.

Definition name n : string := e_my_id (nd_e2e n).
End Node.

(** ** Emission and delivery of one key *)

Section Cycle.
Context {SBB : Type} `{PeerBuckets SBB} `{KeyDigest} `{MacCrypto} `{AesGcm} `{MlKem} `{TextCodecs}.
Implicit Types a b n : Node SBB.

Definition enc_stock n (peer : string) : PeerBuffers := for_peer (dk_pool (nd_d n)) peer.

Ltac hlook := repeat first [rewrite lookup_insert_eq; reflexivity | rewrite lookup_insert_ne by discriminate].

Lemma emit_header_lookups a peer uuid ts :
  let h := emit_header a peer uuid ts in
  h !! HDR_MSG_TYPE = Some MSG_TYPE_DKMS_BUFFER /\ h !! HDR_KEY_ID = Some uuid
  /\ h !! HDR_SAE_ORIGIN = Some (cf_node_id (dk_cfg (nd_d a)))
  /\ h !! HDR_KEY_SIZE_BITS = Some (to_string (Z.of_nat (g_key_size_bytes (nd_gen a)) * 8))
  /\ h !! HDR_INCARNATION = Some (g_incarnation (nd_gen a)).
Proof.
  cbv zeta. unfold emit_header. generalize (to_string (Z.of_nat (g_key_size_bytes (nd_gen a)) * 8)), (to_string ts).
  intros sz tsz. destruct (g_ack_endpoint _); (destruct (_ || _); [destruct (orr_path_for _ _)|]); split_and!; hlook.
Qed.

Lemma note_same i peer inc now cooldown : (forall x, pi_seen i !! peer = Some x -> x = inc) ->
  note_at i peer inc now cooldown = (mkInc (<[peer := inc]> (pi_seen i)) (pi_last_wipe i), None).
Proof.
  intros Hs. unfold note_at. destruct (pi_seen i !! peer) as [x|]; [|done].
  by rewrite (Hs x eq_refl), bool_decide_eq_true_2.
Qed.

Lemma all_enc_push g key pb : all_enc (set_enc g (try_push (enc pb g) key) pb) ≡ₚ key :: all_enc pb.
Proof.
  unfold all_enc, try_push, with_inner. destruct g; cbn.
  - rewrite <- app_assoc. cbn [app]. symmetry. apply Permutation_middle.
  - rewrite app_assoc. symmetry. apply Permutation_cons_append.
Qed.

(** ** The plan of a tick *)

(** A tick never plans beyond the capacity of a peer: what is in stock, what
    is pending and what the tick emits fit, unless the stock alone was already
    over it, and then nothing is emitted. *)
Theorem tick_fits_capacity (n : Node SBB) (work : list (string * Z)) (peer : string) (tokens : Z)
  (Hav : Forall (fun pa => 0 <= pa.2) work) (Hcfg : 0 <= g_max_tokens_per_peer_per_tick (nd_gen n))
  (Hin : (peer, tokens) ∈ tick_plan n work) :
  1 <= tokens <= g_max_tokens_per_peer_per_tick (nd_gen n)
  /\ enc_len (enc_stock n peer) + pending_count (ack_store n) peer + tokens <= g_capacity (nd_gen n).
Proof.
  unfold tick_plan in Hin. apply list_elem_of_filter in Hin as [Hnz ([p av] & Heq & Hp)%list_elem_of_fmap].
  cbn [fst snd] in *. injection Heq as -> ->. rewrite Forall_forall in Hav. specialize (Hav _ Hp). cbn in Hav.
  unfold tick_tokens, enc_stock, sat_sub in *. set (used := enc_len _ + pending_count _ _) in *.
  destruct (Z.eqb_spec (Z.max 0 (g_capacity (nd_gen n) - used)) 0); [done|]. unfold u_max in *. lia.
Qed.
End Cycle.

(** ** Acknowledgements are neither lost nor repeated *)

(** What is queued for a peer. *)
Definition queued (q : AckQueue) (peer : string) : list string := snd (default (""%string, []) (q !! peer)).

Inductive ack_event := AckEnqueue (peer addr id : string) | AckFlush.

(** A run of the batching client: the queue, what was enqueued and what was sent,
    per peer and in order. *)
Record ack_run := mkAckRun { ar_q : AckQueue; ar_in : list (string * string); ar_out : list (string * list string) }.

Definition ack_do (max_keys : Z) (r : ack_run) (ev : ack_event) : ack_run :=
  match ev with
  | AckEnqueue peer addr id =>
      let '(q, batch) := ack_enqueue max_keys (ar_q r) peer addr id in
      mkAckRun q (ar_in r ++ [(peer, id)])
        (ar_out r ++ match batch with Some ids => [(peer, ids)] | None => [] end)
  | AckFlush =>
      let '(q, batches) := ack_flush (ar_q r) in
      mkAckRun q (ar_in r) (ar_out r ++ map (fun b => (b.1.1, b.2)) batches)
  end.

Definition ids_for (peer : string) (l : list (string * string)) : list string := map snd (filter (fun p => p.1 = peer) l).
Definition sent_to (peer : string) (l : list (string * list string)) : list string :=
  concat (map snd (filter (fun p => p.1 = peer) l)).

Lemma sent_to_app peer l1 l2 : sent_to peer (l1 ++ l2) = sent_to peer l1 ++ sent_to peer l2.
Proof. unfold sent_to. by rewrite filter_app, map_app, concat_app. Qed.

Lemma ids_for_app peer l1 l2 : ids_for peer (l1 ++ l2) = ids_for peer l1 ++ ids_for peer l2.
Proof. unfold ids_for. by rewrite filter_app, map_app. Qed.

Lemma flush_sent q peer : sent_to peer (map (fun b => (b.1.1, b.2)) (ack_flush q).2) = queued q peer.
Proof.
  unfold ack_flush, queued. cbn [snd]. rewrite map_map. cbn [fst snd].
  assert (Hl : forall l : list (string * (string * list string)), NoDup l.*1 ->
    sent_to peer (map (fun x => (x.1, x.2.2)) (filter (fun pb => pb.2.2 <> []) l))
    = match (list_to_map l : AckQueue) !! peer with Some b => b.2 | None => [] end).
  { induction l as [|[p [ad ids]] l IH]; intros Hnd; [done|]. cbn [fmap list_fmap fst] in Hnd.
    apply NoDup_cons in Hnd as [Hn Hnd]. cbn [list_to_map foldr curry].
    assert (Hsplit : sent_to peer (map (fun x => (x.1, x.2.2)) (filter (fun pb : string * (string * list string) => pb.2.2 <> []) ((p, (ad, ids)) :: l)))
      = (if decide (p = peer) then ids else []) ++ sent_to peer (map (fun x => (x.1, x.2.2)) (filter (fun pb => pb.2.2 <> []) l))).
    { destruct (decide (ids = [])) as [->|Hne].
      - rewrite filter_cons_False by (cbn; tauto). by destruct (decide _).
      - rewrite filter_cons_True by done. cbn [map fst snd]. unfold sent_to at 1. destruct (decide (p = peer)) as [->|Hp].
        + rewrite filter_cons_True by done. cbn [map concat snd]. done.
        + by rewrite filter_cons_False. }
    rewrite Hsplit, IH by done. destruct (decide (p = peer)) as [->|Hp].
    - rewrite lookup_insert_eq. rewrite (not_elem_of_list_to_map_1 l) by done. by rewrite app_nil_r.
    - by rewrite lookup_insert_ne. }
  rewrite Hl by apply NoDup_fst_map_to_list. rewrite list_to_map_to_list. by destruct (q !! peer) as [[]|].
Qed.

(** Acknowledgements are neither lost, repeated nor reordered by the batching:
    at any time, what was sent to a peer followed by what is still queued for it is
    exactly what was enqueued for it. *)
Theorem acks_conserved (max_keys : Z) (evs : list ack_event) (peer : string) :
  let r := fold_left (ack_do max_keys) evs (mkAckRun ∅ [] []) in
  sent_to peer (ar_out r) ++ queued (ar_q r) peer = ids_for peer (ar_in r).
Proof.
  cbv zeta. assert (H0 : sent_to peer (ar_out (mkAckRun ∅ [] [])) ++ queued (ar_q (mkAckRun ∅ [] [])) peer
    = ids_for peer (ar_in (mkAckRun ∅ [] []))) by done.
  revert H0. generalize (mkAckRun ∅ [] []). induction evs as [|ev evs IH]; intros r Hr; [done|].
  cbn [fold_left]. apply IH. clear IH. destruct ev as [p addr id|]; cbn [ack_do].
  - unfold ack_enqueue. destruct (_ <=? _) eqn:Em; cbn [ar_out ar_q ar_in]; rewrite ids_for_app, <- Hr, ?sent_to_app, ?app_nil_r;
      unfold ids_for, queued; destruct (decide (p = peer)) as [->|Hp].
    all: rewrite ?lookup_insert_eq, ?lookup_insert_ne by done; cbn [snd default].
    all: unfold sent_to at 2 || idtac; rewrite ?filter_cons_True, ?filter_cons_False, ?filter_nil by done; cbn [map concat snd app].
    all: try (destruct (ar_q r !! peer) as [[]|]; cbn; rewrite ?app_nil_r, ?app_assoc; done).
    all: rewrite ?app_nil_r; done.
  - pose proof (flush_sent (ar_q r) peer) as Hf. destruct (ack_flush (ar_q r)) as [q' bs] eqn:Eq. cbn [snd] in Hf.
    unfold ack_flush in Eq. injection Eq as <- _. cbn [ar_out ar_q ar_in]. rewrite sent_to_app, Hf.
    unfold queued at 2. rewrite lookup_fmap. destruct (ar_q r !! peer) as [[]|]; cbn; by rewrite app_nil_r.
Qed.

(** ** The theorems on concrete nodes *)

Definition sample_peer (orr : string) : PeerCfg :=
  mkPeerCfg "https://10.0.0.2:20006" None (Some orr) TransportOrr None None None.
Definition sample_gen : GeneratorCfg := mkGen 32 30000 None 0 64 4096 (hex16 77).

Definition emit_a : Node unit :=
  mkNode (with_ack (Some ∅) (sample_node "dkms-A" "alice" "dkms-B" [] [])) agreed_a
    (reg_from_config {[ "dkms-B"%string := sample_peer "orr_2" ]}) inc_new sample_gen true true true.
Definition emit_b : Node unit :=
  mkNode (with_ack (Some ∅) (sample_node "dkms-B" "bob" "dkms-A" [] [])) agreed_b
    (reg_from_config {[ "dkms-A"%string := sample_peer "orr_1" ]}) inc_new sample_gen true true true.
Lemma sample_unpaired : paired (nd_d emit_a) (nd_d emit_b) (name emit_a) (name emit_b).
Proof.
  assert (E1 : all_enc (for_peer (dk_pool (nd_d emit_a)) (name emit_b)) = []) by (vm_compute; reflexivity).
  assert (E2 : sb_inner (pb_dec (for_peer (dk_pool (nd_d emit_b)) (name emit_a))) = []) by (vm_compute; reflexivity).
  constructor; unfold long_keys; rewrite ?E1, ?E2; try (intros k Hk; by apply not_elem_of_nil in Hk); constructor.
Qed.

Lemma tick_fits_capacity_witness :
  1 <= 64 <= g_max_tokens_per_peer_per_tick (nd_gen emit_a)
  /\ enc_len (enc_stock emit_a "dkms-B") + pending_count (ack_store emit_a) "dkms-B" + 64 <= g_capacity (nd_gen emit_a).
Proof.
  apply (tick_fits_capacity emit_a [("dkms-B"%string, 100); ("dkms-C"%string, 0)]).
  - repeat constructor; cbn; lia.
  - cbn. lia.
  - apply (bool_decide_unpack _). vm_compute. exact I.
Defined.
