(* ===== verification/EmissionFlow.v ===== *)
(** * Many keys in flight between two nodes (dkms/src/control/generator.rs, service.rs)

    The generator of a node emits up to [max_emits_in_flight] keys at a time; the
    network carries their messages in any order or loses them; the peer
    acknowledges in batches; the emitter waits for an acknowledgement until the
    key expires.  Here two nodes of [Emission] do all of that in any order, one
    step at a time, while keys of their stocks are taken, used and put back.

    - [flow_step]: one step of the two nodes and of the network between them.
    - [flow_start]: the nodes agreed on an epoch and hold the same keys.

    Shown: they go on holding the same keys; every key emitted is accounted for;
    and the peer takes every message that is not too late for its window. *)

From Stdlib Require Import ZArith Lia.
From S2P Require Import Prelude Ids Text Primitives ReplayWindow FrameMac Security TransportPool Delivery E2e Peers Emission.

(** ** The window of a receiver whose peer keeps one session

    [H] is the set of the counters taken so far. *)

Record stream_in (s : Z) (H : Z -> Prop) (w : ReplayWindow) : Prop := {
  si_width : 64 <= w_width w;
  si_words : words_ok (w_bits w) /\ length (w_bits w) = n_words (w_width w);
  si_retired : w_retired w = [];
  si_prev : w_prev w = None;
  si_cur : match w_session w with
           | None => forall c, ~ H c
           | Some s' => s' = s /\ win_ok H (w_width w) (w_highest w) (w_bits w)
           end;
}.

Lemma stream_in_new a width s : stream_in s (fun _ => False) (win_with_adopt a (win_new width)).
Proof. destruct (win_new_inv a width (fun _ => False)) as [H1 H2 _ _ _]. constructor; [done..|]. cbn. tauto. Qed.

(** A counter that was not taken is taken, unless it is a whole window behind. *)
Lemma stream_in_step s H w now c :
  stream_in s H w -> 1 <= c -> ~ H c ->
  let '(w', r) := check_and_set now w s c in
  (r = Ok tt /\ stream_in s (fun x => x = c \/ H x) w')
  \/ (exists e, r = Err e) /\ stream_in s H w' /\ w_width w <= w_highest w - c.
Proof.
  intros [Hw [Hok Hlen] Hr Hp Hcur] Hc Hnew. unfold check_and_set, is_prev. rewrite Hr, Hp.
  destruct (Z.eqb_spec c 0); [lia|]. rewrite bool_decide_eq_false_2 by apply not_elem_of_nil.
  assert (Hsel : exists w0, select_session w now s = Some w0 /\ w_width w0 = w_width w
    /\ w_retired w0 = [] /\ w_prev w0 = None /\ w_session w0 = Some s
    /\ win_ok H (w_width w0) (w_highest w0) (w_bits w0) /\ (w_highest w0 = w_highest w \/ w_highest w0 = 0)).
  { unfold select_session. destruct (w_session w) as [s'|] eqn:Es.
    - destruct Hcur as [-> Hwin]. rewrite Z.eqb_refl. exists w. split_and!; try done. by left.
    - eexists. split; [done|]. unfold reset_to. rewrite Es, Hr, Hp. cbn. split_and!; try done; [|by right].
      eapply win_ok_ext; [|apply (win_ok_fresh [] s); [done..|intros x; apply not_elem_of_nil]].
      intros x. split; [|intros Hx; by destruct (Hcur x)]. unfold seen_in. intros Hx. by apply not_elem_of_nil in Hx. }
  destruct Hsel as (w0 & -> & Ew & Er & Ep & Es & Hwin & Hh). cbn [touch w_width w_highest w_bits].
  assert (Hw0 : 64 <= w_width w0) by lia.
  pose proof (slide_spec _ _ _ _ s c Hw0 Hwin Hc) as Hsl.
  destruct (slide _ _ _ _ _) as [[h' b]|e|]; [| |done].
  - destruct Hsl as (_ & _ & _ & Hwin'). left. split; [done|].
    constructor; cbn; [lia|split; apply Hwin'|done|done|]. by rewrite Es.
  - right. split; [by eexists|]. split.
    + constructor; cbn; [lia|split; apply Hwin|done|done|]. by rewrite Es.
    + destruct e; try done; destruct Hsl as [Hsl _]; first [by destruct (Hnew Hsl)|lia].
Qed.

(** ** The steps *)

(** A message on its way.  [sn_key] and [sn_ctr] are not in it: the key it carries
    and the number it was sealed under. *)
Record Sent := mkSent { sn_id : string; sn_header : Header; sn_ct : bytes; sn_key : bytes; sn_ctr : Z }.

Section Flow.
Context {SBB : Type} `{PeerBuckets SBB} `{KeyDigest} `{MacCrypto} `{AesGcm} `{MlKem} `{TextCodecs}.
Context (me peer : string).
Implicit Types a b n : Node SBB.

(** The emitter [a], the receiver [b], the messages and the acknowledgements on
    their way.  The rest is memory the code does not have: the ids ever in use,
    what was emitted under them, the ids of which something was lost, and the keys
    [a] took out of its stock. *)
Record Flow := mkFlow {
  fl_a : Node SBB; fl_b : Node SBB; fl_net : list Sent; fl_acks : list string;
  fl_ids : gset string; fl_emitted : gmap string bytes; fl_lost : gset string; fl_taken : list TransportKey }.

Definition pending n (id : string) : option AckPendingEntry := ap_lookup (ack_store n) peer id.
Definition stock_ids (l : list TransportKey) : list string := map tk_id l.
Definition held_enc n : list TransportKey := all_enc (enc_stock n peer).
Definition held_dec n : list TransportKey := sb_inner (pb_dec (enc_stock n me)).

Definition expire (now : Z) n : Node SBB := with_d (with_ack (Some (fst (reap_expired_by_peer (ack_store n) now))) (nd_d n)) n.
Definition acked n (ids : list string) : Node SBB := with_d (fst (handle_incoming_ack (nd_d n) peer ids)) n.

(** What the other business of a node leaves alone: what [a] has for [peer] but for
    its stock, what [b] has for [me] but for its stock. *)
Record same_emitter n n' : Prop := {
  se_name : name n' = name n /\ cf_node_id (dk_cfg (nd_d n')) = cf_node_id (dk_cfg (nd_d n));
  se_gen : nd_gen n' = nd_gen n;
  se_state : state (nd_e2e n') peer = state (nd_e2e n) peer;
  se_ack : is_Some (dk_ack (nd_d n'));
  se_pending id : pending n' id = pending n id;
}.

Record same_receiver n n' : Prop := {
  sr_name : name n' = name n;
  sr_state : e_peers (nd_e2e n') !! me = e_peers (nd_e2e n) !! me;
  sr_heard : pi_seen (nd_inc n') !! me = pi_seen (nd_inc n) !! me;
}.

Inductive flow_step : Flow -> Flow -> Prop :=
  (** A key is emitted under a new id. *)
  | fs_emit a b net acks ids em lost tk now ts rnd uuid a' dest ct h hops g :
      (uuid ∉ ids) -> is_valid_id uuid = true -> length rnd = g_key_size_bytes (nd_gen a) -> wf_bytes rnd ->
      emit_key now ts rnd uuid a peer = (a', EmitSend dest ct h hops g) ->
      flow_step (mkFlow a b net acks ids em lost tk)
        (mkFlow a' b (net ++ [mkSent uuid h ct rnd (ps_counter (state (nd_e2e a') peer))]) acks
           ({[uuid]} ∪ ids) (<[uuid := rnd]> em) lost tk)
  (** Or it could not be. *)
  | fs_not_emitted a b net acks ids em lost tk now ts rnd uuid a' out :
      (uuid ∉ ids) -> is_valid_id uuid = true -> length rnd = g_key_size_bytes (nd_gen a) -> wf_bytes rnd ->
      emit_key now ts rnd uuid a peer = (a', out) -> (forall dest ct h hops g, out <> EmitSend dest ct h hops g) ->
      flow_step (mkFlow a b net acks ids em lost tk)
        (mkFlow a' b net acks ({[uuid]} ∪ ids) (<[uuid := rnd]> em) ({[uuid]} ∪ lost) tk)
  (** The ORR answers with an error, whether it took the message or not. *)
  | fs_refused a b net acks ids em lost tk id :
      flow_step (mkFlow a b net acks ids em lost tk) (mkFlow (emit_failed a peer id) b net acks ids em ({[id]} ∪ lost) tk)
  (** A message is lost. *)
  | fs_lost a b net1 m net2 acks ids em lost tk :
      flow_step (mkFlow a b (net1 ++ m :: net2) acks ids em lost tk)
        (mkFlow a b (net1 ++ net2) acks ids em ({[sn_id m]} ∪ lost) tk)
  (** One of the messages, whichever, reaches the peer, which acknowledges it. *)
  | fs_deliver a b net1 m net2 acks ids em lost tk now b' p ep id :
      handle_orr_delivery now b (mkMsg (sn_ct m) (sn_header m)) = (b', Ok (Some (p, ep, id))) ->
      flow_step (mkFlow a b (net1 ++ m :: net2) acks ids em lost tk)
        (mkFlow a b' (net1 ++ net2) (acks ++ [id]) ids em lost tk)
  (** Or does not. *)
  | fs_unacked a b net1 m net2 acks ids em lost tk now b' r :
      handle_orr_delivery now b (mkMsg (sn_ct m) (sn_header m)) = (b', r) -> (forall x, r <> Ok (Some x)) ->
      flow_step (mkFlow a b (net1 ++ m :: net2) acks ids em lost tk)
        (mkFlow a b' (net1 ++ net2) acks ids em ({[sn_id m]} ∪ lost) tk)
  (** A batch of acknowledgements arrives, or is lost. *)
  | fs_ack a b net acks batch rest ids em lost tk :
      acks ≡ₚ batch ++ rest ->
      flow_step (mkFlow a b net acks ids em lost tk) (mkFlow (acked a batch) b net rest ids em lost tk)
  | fs_ack_lost a b net acks batch rest ids em lost tk :
      acks ≡ₚ batch ++ rest ->
      flow_step (mkFlow a b net acks ids em lost tk) (mkFlow a b net rest ids em (list_to_set batch ∪ lost) tk)
  (** Keys nobody acknowledged in time expire. *)
  | fs_expire a b net acks ids em lost tk now gone :
      (forall id e, pending a id = Some e -> ae_expired now e = true -> id ∈ gone) ->
      flow_step (mkFlow a b net acks ids em lost tk) (mkFlow (expire now a) b net acks ids em (gone ∪ lost) tk)
  (** The emitter takes keys to wrap session keys with, and does whatever else. *)
  | fs_take a a' b net acks ids em lost tk used :
      same_emitter a a' -> held_enc a ≡ₚ used ++ held_enc a' ->
      flow_step (mkFlow a b net acks ids em lost tk) (mkFlow a' b net acks ids em lost (used ++ tk))
  (** It puts back what it took and the other did not use. *)
  | fs_put_back a a' b net acks ids em lost tk back rest :
      same_emitter a a' -> tk ≡ₚ back ++ rest -> held_enc a' ≡ₚ back ++ held_enc a -> back ⊆ held_dec b ->
      flow_step (mkFlow a b net acks ids em lost tk) (mkFlow a' b net acks ids em lost rest)
  (** The receiver uses keys the emitter took, and does whatever else. *)
  | fs_use a b b' net acks ids em lost tk used :
      same_receiver b b' -> held_dec b ≡ₚ used ++ held_dec b' -> stock_ids used ⊆ stock_ids tk ->
      flow_step (mkFlow a b net acks ids em lost tk) (mkFlow a b' net acks ids em lost tk).

(** Two nodes that agreed on [epoch], whose stocks match, with nothing on its way. *)
Record flow_start (epoch session : Z) (ss : bytes) (f : Flow) : Prop := {
  st_names : name (fl_a f) = me /\ cf_node_id (dk_cfg (nd_d (fl_a f))) = me /\ name (fl_b f) = peer;
  st_size : (TRANSPORT_KEY_BYTES <= g_key_size_bytes (nd_gen (fl_a f)))%nat /\ Z.of_nat (g_key_size_bytes (nd_gen (fl_a f))) < 2 ^ 29;
  st_session : g_incarnation (nd_gen (fl_a f)) = hex16 session /\ is_u 64 session;
  st_heard i : pi_seen (nd_inc (fl_b f)) !! me = Some i -> i = hex16 session;
  st_epoch : is_u 32 epoch;
  st_sends : sends_under (nd_e2e (fl_a f)) peer epoch /\ ps_secret (state (nd_e2e (fl_a f)) peer) epoch = Some ss
    /\ is_u 64 (ps_counter (state (nd_e2e (fl_a f)) peer)) /\ ps_epoch_sends (state (nd_e2e (fl_a f)) peer) <= u_max 64;
  st_opens : exists st H, e_peers (nd_e2e (fl_b f)) !! me = Some st /\ ps_secret st epoch = Some ss
    /\ stream_in session H (ps_replay st) /\ (forall c, H c -> c <= ps_counter (state (nd_e2e (fl_a f)) peer));
  st_store : is_Some (dk_ack (nd_d (fl_a f)));
  st_idle : fl_net f = [] /\ fl_acks f = [] /\ fl_emitted f = ∅ /\ fl_taken f = [] /\ forall id, pending (fl_a f) id = None;
  st_paired : paired (nd_d (fl_a f)) (nd_d (fl_b f)) me peer;
  st_ids : forall id, id ∈ stock_ids (held_dec (fl_b f)) -> id ∈ fl_ids f;
}.

(** ** One emission, one delivery, one batch *)

Context (epoch session : Z) (ss : bytes) (gen : GeneratorCfg).
Context (Hsession : g_incarnation gen = hex16 session) (Hu_session : is_u 64 session) (Hu_epoch : is_u 32 epoch).
Context (Hsize : (TRANSPORT_KEY_BYTES <= g_key_size_bytes gen)%nat /\ Z.of_nat (g_key_size_bytes gen) < 2 ^ 29).

Definition sealing (st : PeerState) : Prop :=
  ps_send_epoch st = Some epoch /\ ps_secret st epoch = Some ss /\ is_u 64 (ps_counter st) /\ ps_epoch_sends st <= u_max 64.

Definition opening (e : E2e) : Prop := e_my_id e = peer /\ e_peers e !! me ≫= (fun st => ps_secret st epoch) = Some ss.

(** A message [a] sealed: its headers, and what any receiver with the secret of
    the epoch finds in it. *)
Record good_sent (m : Sent) : Prop := {
  gs_type : sn_header m !! HDR_MSG_TYPE = Some MSG_TYPE_DKMS_BUFFER;
  gs_id : sn_header m !! HDR_KEY_ID = Some (sn_id m);
  gs_origin : sn_header m !! HDR_SAE_ORIGIN = Some me;
  gs_bits : sn_header m !! HDR_KEY_SIZE_BITS = Some (to_string (Z.of_nat (g_key_size_bytes gen) * 8));
  gs_inc : sn_header m !! HDR_INCARNATION = Some (hex16 session);
  gs_len : zlen (sn_ct m) = Z.of_nat (g_key_size_bytes gen);
  gs_ctr : 1 <= sn_ctr m;
  gs_open e : opening e -> open_verify e me (sn_header m) (sn_id m) (sn_ct m) = Ok (epoch, session, sn_ctr m, sn_key m);
}.

Lemma seal_reserve_cases st p id : sealing st ->
  seal_ready st id epoch ss \/ seal_reserve st p id = (st, Err (KeyIdReuse p id)) \/ seal_reserve st p id = (st, Panic).
Proof.
  intros (Hs & Hsec & Hc & He). destruct (decide (id ∈ rk_seen (ps_recent st))) as [Hin|Hnew].
  - right. left. unfold seal_reserve. rewrite Hs, Hsec. unfold rk_insert. by rewrite bool_decide_eq_true_2.
  - destruct ((ps_counter st =? u_max 64) || (ps_epoch_sends st =? u_max 64)) eqn:Ef.
    + right. right. unfold seal_reserve. rewrite Hs, Hsec. unfold rk_insert. rewrite bool_decide_eq_false_2 by done.
      destruct (_ <=? _); [destruct (rk_order _)|]; cbn [negb]; by rewrite Ef.
    + left. apply orb_false_iff in Ef as [E1%Z.eqb_neq E2%Z.eqb_neq]. constructor; try done; ufold; lia.
Qed.

(** What the emitter is like, but for its stock and what waits. *)
Definition emitter_ok (a : Node SBB) : Prop :=
  name a = me /\ cf_node_id (dk_cfg (nd_d a)) = me /\ nd_gen a = gen /\ is_Some (dk_ack (nd_d a)) /\ sealing (state (nd_e2e a) peer).

Lemma pending_insert n d k e i : dk_ack d = Some (ap_insert (ack_store n) peer k e) ->
  pending (with_d d n) i = if decide (k = i) then Some e else pending n i.
Proof.
  intros Hd. unfold pending at 1, ack_store at 1. cbn [with_d nd_d]. rewrite Hd. cbn [default from_option id].
  rewrite ap_lookup_insert. destruct (decide (k = i)) as [->|Hn]; [by rewrite decide_True|]. rewrite decide_False; [done|tauto].
Qed.

Lemma pending_failed n k i : pending (emit_failed n peer k) i = if decide (k = i) then None else pending n i.
Proof.
  unfold emit_failed, pending at 1, ack_store at 1. cbn [with_d nd_d with_ack dk_ack default from_option id].
  unfold ap_take. pose proof (take_diagnosed_lookup (ack_store n) peer k peer i) as Hl.
  destruct (take_diagnosed (ack_store n) peer k) as [s r]. cbn [fst] in *. rewrite Hl.
  destruct (decide (k = i)) as [->|Hn]; [by rewrite decide_True|]. rewrite decide_False; [done|tauto].
Qed.

Lemma emitter_failed n k : emitter_ok n -> emitter_ok (emit_failed n peer k).
Proof. intros (H1' & H2' & H3' & _ & H5'). split; [done|]. split; [done|]. split; [done|]. split; [by eexists|done]. Qed.

(** What any receiver with the secret finds in what [a] seals. *)
Lemma seal_for_all (a : E2e) id h p :
  e_my_id a = me -> seal_ready (state a peer) id epoch ss ->
  h !! HDR_INCARNATION = Some (hex16 session) -> wf_bytes p -> zlen p < 2 ^ 36 ->
  exists h' ct, e2e_seal a peer id h p = (put a peer (fst (seal_reserve (state a peer) peer id)), h', Ok ct) /\ zlen ct = zlen p
    /\ (forall k, k <> HDR_E2E_TAG -> k <> HDR_E2E_EPOCH -> k <> HDR_E2E_CTR -> h' !! k = h !! k)
    /\ forall e, opening e -> open_verify e me h' id ct = Ok (epoch, session, ps_counter (state a peer) + 1, p).
Proof.
  intros Hme Hready Hinc Hp Hlen.
  assert (Hfor : forall e, opening e -> exists h' ct, e2e_seal a peer id h p = (put a peer (fst (seal_reserve (state a peer) peer id)), h', Ok ct)
    /\ zlen ct = zlen p /\ (forall k, k <> HDR_E2E_TAG -> k <> HDR_E2E_EPOCH -> k <> HDR_E2E_CTR -> h' !! k = h !! k)
    /\ open_verify e me h' id ct = Ok (epoch, session, ps_counter (state a peer) + 1, p)).
  { intros e [Epeer Hsec]. rewrite <- Epeer in *. rewrite <- Hme in *.
    destruct (seal_verifies a e id h p epoch ss session Hready Hsec Hinc Hu_session Hp Hlen) as (a' & h' & ct & E & Hct & Hv & Hh & ->).
    exists h', ct. by split_and!. }
  destruct (Hfor (mkE2e peer (e_cfg a) {[ me := state a peer ]})) as (h' & ct & E & Hct & Hh & _).
  { split; [done|]. cbn. rewrite lookup_singleton_eq. cbn. apply Hready. }
  exists h', ct. split_and!; try done. intros e He. destruct (Hfor e He) as (h2 & ct2 & E2 & _ & _ & Hv). congruence.
Qed.

Lemma emit_effect a now ts rnd uuid a' out :
  emitter_ok a -> length rnd = g_key_size_bytes gen -> wf_bytes rnd -> emit_key now ts rnd uuid a peer = (a', out) ->
  emitter_ok a' /\ held_enc a' = held_enc a
  /\ ps_counter (state (nd_e2e a) peer) <= ps_counter (state (nd_e2e a') peer)
  /\ (forall i e, pending a' i = Some e -> i = uuid /\ ae_bytes e = rnd \/ pending a i = Some e)
  /\ (forall i, i <> uuid -> pending a' i = pending a i)
  /\ (forall dest ct h hops g, out = EmitSend dest ct h hops g -> is_Some (pending a' uuid)
        /\ ps_counter (state (nd_e2e a') peer) = ps_counter (state (nd_e2e a) peer) + 1
        /\ good_sent (mkSent uuid h ct rnd (ps_counter (state (nd_e2e a') peer)))).
Proof.
  intros (Hn & Hcf & Hg & Hak & Hseal) Hlen Hwf. unfold emit_key.
  destruct (orr_map (nd_reg a) !! peer) as [dest|].
  2:{ intros [= <- <-]. unfold emitter_ok. split_and!; try done. intros i e. by right. }
  set (entry := mkAe rnd _ _). pose proof (emit_header_lookups a peer uuid ts) as Hhl.
  set (h0 := emit_header a peer uuid ts) in *. set (a1 := with_d _ a). cbn zeta in *.
  change (nd_e2e a1) with (nd_e2e a).
  assert (Hp1 : forall i, pending a1 i = if decide (uuid = i) then Some entry else pending a i) by (intros i; by apply pending_insert).
  assert (Hp2 : forall i e, pending a1 i = Some e -> i = uuid /\ ae_bytes e = rnd \/ pending a i = Some e).
  { intros i e. rewrite Hp1. destruct (decide (uuid = i)) as [->|]; [intros [= <-]; by left|by right]. }
  assert (Hp3 : forall i, i <> uuid -> pending a1 i = pending a i) by (intros i Hi; rewrite Hp1; by rewrite decide_False).
  destruct (seal_reserve_cases (state (nd_e2e a) peer) peer uuid Hseal) as [Hready|Hno].
  - destruct (seal_for_all (nd_e2e a) uuid h0 rnd) as (h' & ct & E & Hct & Hh & Hv); try done.
    { rewrite <- Hsession, <- Hg. apply Hhl. } { unfold zlen. lia. }
    destruct (seal_reserve_ready _ peer uuid epoch ss Hready) as (st' & Er & Hsame & Hc & Hes & _).
    rewrite E, Er. cbn [fst]. intros [= <- <-]. destruct Hseal as (Hs1 & Hs2 & Hs3 & Hs4). destruct Hready as [_ _ _ _ Hcnt Hsnd].
    assert (Hok : sealing st').
    { unfold sealing. rewrite (proj2 Hsame), (same_keys_secret _ _ _ Hsame), Hc, Hes. split_and!; [done..| |lia]. ufold. lia. }
    unfold emitter_ok. cbn [with_e2e nd_e2e nd_d nd_gen]. rewrite !state_put_eq, Hc.
    split_and!; try done; try apply Hok; try lia.
    intros d2 c2 h2 hp2 g2 [= <- <- <- <- <-]. split; [change (is_Some (pending a1 uuid)); rewrite Hp1, decide_True by done; by eexists|].
    split; [done|]. destruct Hhl as (L1 & L2 & L3 & L4 & L5).
    constructor; cbn [sn_header sn_id sn_ct sn_key sn_ctr]; try (rewrite Hh by discriminate); try congruence; [unfold zlen in *; lia|lia|done].
  - assert (E : exists r, e2e_seal (nd_e2e a) peer uuid h0 rnd = (put (nd_e2e a) peer (state (nd_e2e a) peer), h0, r)
      /\ (r = Err (KeyIdReuse peer uuid) \/ r = Panic)).
    { unfold e2e_seal. destruct Hno as [-> | ->]; eexists; (split; [reflexivity|]); [by left|by right]. }
    destruct E as (r & -> & Hr).
    assert (Hk : emitter_ok (with_e2e (put (nd_e2e a) peer (state (nd_e2e a) peer)) a1)).
    { unfold emitter_ok. cbn [with_e2e nd_e2e nd_d nd_gen]. rewrite state_put_eq. split_and!; try done. }
    set (n := with_e2e _ a1) in *. assert (Hc : ps_counter (state (nd_e2e n) peer) = ps_counter (state (nd_e2e a) peer)).
    { unfold n. cbn [with_e2e nd_e2e]. by rewrite state_put_eq. }
    destruct Hr as [-> | ->]; intros [= <- <-].
    + split; [by apply emitter_failed|]. split; [done|]. split; [change (nd_e2e (emit_failed n peer uuid)) with (nd_e2e n); lia|].
      split_and!; [intros i e|intros i Hi|done]; rewrite pending_failed.
      * destruct (decide _); [done|]. apply Hp2.
      * rewrite decide_False by done. by apply Hp3.
    + split; [exact Hk|]. split; [done|]. split; [lia|]. by split_and!.
Qed.

(** What the receiver is like, but for its stock; [T] the counters it took. *)
Definition receiver_ok (T : Z -> Prop) (b : Node SBB) : Prop :=
  name b = peer /\ (forall i, pi_seen (nd_inc b) !! me = Some i -> i = hex16 session)
  /\ exists st, e_peers (nd_e2e b) !! me = Some st /\ ps_secret st epoch = Some ss /\ stream_in session T (ps_replay st).

Lemma size_fits h ct : h !! HDR_KEY_SIZE_BITS = Some (to_string (Z.of_nat (g_key_size_bytes gen) * 8)) ->
  zlen ct = Z.of_nat (g_key_size_bytes gen) -> size_mismatch h ct = false.
Proof.
  intros L Hl. unfold size_mismatch. rewrite L. cbn [mbind option_bind]. rewrite parse_to_string by (ufold; lia).
  rewrite Hl. apply negb_false_iff, Z.eqb_eq. by rewrite Z.add_comm, Z.div_add by lia.
Qed.

(** A message of [a] at [b], up to the window. *)
Lemma deliver_unfold now b m st : good_sent m -> name b = peer ->
  e_peers (nd_e2e b) !! me = Some st -> ps_secret st epoch = Some ss ->
  handle_orr_delivery now b (mkMsg (sn_ct m) (sn_header m)) =
    if negb (is_valid_id me) || negb (bool_decide (is_Some (reg_get (nd_reg b) me))) then (b, Ok None) else
    let '(w, r) := check_and_set now (ps_replay st) session (sn_ctr m) in
    let n := with_e2e (put (nd_e2e b) me (set_replay w st)) b in
    match r with
    | Ok _ => let '(n, ack) := file_key (note_peer_incarnation now n me (hex16 session)) me (sn_id m) (sn_key m) (sn_header m !! HDR_ACK_ENDPOINT) in
        (n, Ok ack)
    | Err _ => (n, Ok None)
    | Panic => (n, Panic)
    end.
Proof.
  intros [L1 L2 L3 L4 L5 Hlen Hc Hv] Hn Hst Hsec. unfold handle_orr_delivery. cbn [dm_app_header]. rewrite L1, bool_decide_eq_true_2 by reflexivity.
  unfold handle_orr_delivery_buffer. cbn [dm_app_header dm_payload]. rewrite L2, L3. destruct (_ || _); [done|].
  rewrite (size_fits _ _ L4 Hlen). unfold e2e_open. rewrite Hv by (split; [exact Hn|by rewrite Hst]).
  unfold open_commit. rewrite Hst. destruct (check_and_set now (ps_replay st) session (sn_ctr m)) as [w [u|e|]]; cbn [res_map_err res_bind]; [|done..].
  by rewrite L5.
Qed.

Lemma note_keeps now n : (forall i, pi_seen (nd_inc n) !! me = Some i -> i = hex16 session) ->
  note_peer_incarnation now n me (hex16 session) = with_inc (mkInc (<[me := hex16 session]> (pi_seen (nd_inc n))) (pi_last_wipe (nd_inc n))) n.
Proof. intros Hh. unfold note_peer_incarnation. by rewrite note_same. Qed.

Lemma file_effect n i pt ep n' ack : file_key n me i pt ep = (n', ack) ->
  nd_e2e n' = nd_e2e n /\ nd_inc n' = nd_inc n /\
  (held_dec n' = held_dec n /\ ack = None
   \/ held_dec n' = held_dec n ++ [mkTk i pt] /\ forall x, ack = Some x -> x.2 = i).
Proof.
  unfold file_key, try_push_capped, held_dec, enc_stock. destruct (_ <=? _); intros [= <- <-]; [split_and!; [done..|by left]|].
  cbn [with_d nd_e2e nd_inc nd_d with_pool dk_pool]. split_and!; [done..|]. right. rewrite for_peer_set, decide_True by done. split; [done|].
  unfold ack_of. intros x. by case_match; [intros [= <-]|].
Qed.

Lemma deliver_effect (T : Z -> Prop) now b b' m r : receiver_ok T b -> good_sent m -> ~ T (sn_ctr m) ->
  handle_orr_delivery now b (mkMsg (sn_ct m) (sn_header m)) = (b', r) ->
  (exists T', receiver_ok T' b' /\ forall c, T' c -> c = sn_ctr m \/ T c)
  /\ (held_dec b' = held_dec b /\ (forall x, r <> Ok (Some x))
      \/ held_dec b' = held_dec b ++ [mkTk (sn_id m) (sn_key m)] /\ forall x, r = Ok (Some x) -> x.2 = sn_id m).
Proof.
  intros (Hn & Hh & st & Hst & Hsec & Hw) Hm Hnew. rewrite (deliver_unfold now b m st Hm Hn Hst Hsec).
  destruct (negb _ || negb _).
  { intros [= <- <-]. split; [|left; by split]. exists T. split; [|auto]. split_and!; try done. by exists st. }
  pose proof (stream_in_step session T (ps_replay st) now (sn_ctr m) Hw (gs_ctr _ Hm) Hnew) as Hstep.
  destruct (check_and_set now (ps_replay st) session (sn_ctr m)) as [w rw]. cbv zeta.
  set (n := with_e2e _ b). assert (Hput : e_peers (nd_e2e n) !! me = Some (set_replay w st)) by (cbn; apply lookup_insert_eq).
  destruct Hstep as [[-> Hw']|((e & ->) & Hw' & _)].
  - rewrite note_keeps by done. destruct (file_key _ _ _ _ _) as [n' ack] eqn:Ef. apply file_effect in Ef as (E1 & E2 & Ef).
    intros [= <- <-]. split.
    + exists (fun x => x = sn_ctr m \/ T x). split; [|done]. unfold receiver_ok, name. rewrite E1, E2.
      cbn [with_inc nd_e2e nd_inc pi_seen]. split; [exact Hn|]. split; [intros i; rewrite lookup_insert_eq; by intros [= <-]|]. by exists (set_replay w st).
    + destruct Ef as [[Ed ->]|[Ed Ha]]; [left|right]; (split; [exact Ed|]); [by intros x [= ?]|]. intros x [= ->]. by apply Ha.
  - intros [= <- <-]. split; [|left; split; [done|by intros x [=]]]. exists T. split; [|auto]. split_and!; try done. by exists (set_replay w st).
Qed.

(** [b] knows [a] and can acknowledge, has room for one more key, and the message
    is not a whole window behind. *)
Definition can_take (b : Node SBB) (m : Sent) : Prop :=
  is_valid_id me = true /\ is_Some (reg_get (nd_reg b) me) /\ nd_ack_client b = true /\ has_etsi020_route b me = true
  /\ buf_len (pb_dec (enc_stock b me)) < sat_mul 64 (sb_capacity (pb_dec (enc_stock b me))) DEC_HARD_CEILING_MULT
  /\ forall st, e_peers (nd_e2e b) !! me = Some st -> w_highest (ps_replay st) - sn_ctr m < w_width (ps_replay st).

Lemma deliver_taken (T : Z -> Prop) now b m : receiver_ok T b -> good_sent m -> ~ T (sn_ctr m) -> can_take b m ->
  exists b' ep, handle_orr_delivery now b (mkMsg (sn_ct m) (sn_header m)) = (b', Ok (Some (me, ep, sn_id m)))
    /\ held_dec b' = held_dec b ++ [mkTk (sn_id m) (sn_key m)].
Proof.
  intros Hr Hm Hnew (Hv & Hreg & Hac & Hrt & Hroom & Hwin).
  destruct (handle_orr_delivery now b (mkMsg (sn_ct m) (sn_header m))) as [b' r] eqn:E.
  pose proof (deliver_effect T now b b' m r Hr Hm Hnew E) as [_ Heff]. destruct Hr as (Hn & Hh & st & Hst & Hsec & Hw).
  rewrite (deliver_unfold now b m st Hm Hn Hst Hsec), Hv, (bool_decide_eq_true_2 _ Hreg) in E. cbn [negb orb] in E.
  pose proof (stream_in_step session T (ps_replay st) now (sn_ctr m) Hw (gs_ctr _ Hm) Hnew) as Hstep.
  destruct (check_and_set now (ps_replay st) session (sn_ctr m)) as [w rw].
  destruct Hstep as [[-> _]|(_ & _ & Hlate)]; [|specialize (Hwin st Hst); lia]. cbv zeta in E. rewrite note_keeps in E by done.
  unfold file_key in E. cbn [with_inc with_e2e nd_d] in E. fold (enc_stock b me) in E. unfold try_push_capped in E.
  destruct (Z.leb_spec (sat_mul 64 (sb_capacity (pb_dec (enc_stock b me))) DEC_HARD_CEILING_MULT) (buf_len (pb_dec (enc_stock b me)))); [lia|].
  unfold ack_of in E. cbn [with_inc with_e2e with_d nd_ack_client] in E. rewrite Hac in E.
  assert (Hr2 : forall b2 : Node SBB, nd_etsi020_acks b2 = nd_etsi020_acks b -> nd_reg b2 = nd_reg b -> has_etsi020_route b2 me = true).
  { intros b2 E1 E2. unfold has_etsi020_route in *. by rewrite E1, E2. }
  rewrite Hr2, orb_true_r in E by reflexivity. cbn [andb] in E. injection E as <- <-.
  eexists _, _. split; [reflexivity|]. destruct Heff as [[_ Hno]|[Hd _]]; [by destruct (Hno _ eq_refl)|exact Hd].
Qed.

(** One acknowledgement. *)
Lemma ack_one n i : emitter_ok n ->
  emitter_ok (acked n [i])
  /\ state (nd_e2e (acked n [i])) peer = state (nd_e2e n) peer
  /\ (forall j, pending (acked n [i]) j = if decide (i = j) then None else pending n j)
  /\ held_enc (acked n [i]) ≡ₚ match pending n i with Some e => mkTk i (ae_bytes e) :: held_enc n | None => held_enc n end.
Proof.
  intros Hok. pose proof Hok as (Hn & Hcf & Hg & [s Hs] & Hst). unfold acked, handle_incoming_ack. rewrite Hs. cbn [ack_loop].
  assert (Eack : ack_store n = s) by (unfold ack_store; by rewrite Hs).
  pose proof (on_ack_cases s (dk_pool (nd_d n)) peer i) as Hcase. unfold pending at 3. rewrite Eack.
  destruct (ap_lookup s peer i) as [e|] eqn:El; destruct Hcase as (s' & -> & Hl); cbn [fst].
  - split; [by unfold emitter_ok; split_and!; try done; eexists|]. split; [done|]. split.
    + intros j. unfold pending, ack_store at 1. cbn [with_d nd_d with_ack dk_ack default from_option id]. rewrite Hl, Eack.
      destruct (decide (i = j)) as [->|]; [by rewrite decide_True|]. rewrite decide_False; [done|tauto].
    + unfold held_enc, enc_stock. cbn [with_d nd_d with_ack with_pool dk_pool]. rewrite for_peer_set, decide_True by done. apply all_enc_push.
  - split; [by unfold emitter_ok; split_and!; try done; eexists|]. split; [done|]. split; [|done].
    intros j. unfold pending, ack_store at 1. cbn [with_d nd_d with_ack dk_ack default from_option id]. rewrite Hl, Eack.
    by destruct (decide (i = j)) as [->|].
Qed.

Lemma acked_cons n i l : is_Some (dk_ack (nd_d n)) -> acked n (i :: l) = acked (acked n [i]) l.
Proof.
  intros [s Hs]. unfold acked, handle_incoming_ack. rewrite Hs. cbn [ack_loop].
  destruct (on_ack s (dk_pool (nd_d n)) peer i) as [[s1 p1] ok]. cbn [with_d nd_d with_ack with_pool dk_ack dk_pool fst].
  assert (Hcount : forall ids s p k k', (ack_loop s p peer ids k).1 = (ack_loop s p peer ids k').1).
  { induction ids as [|j ids IH]; intros s2 p2 k k'; [done|]. cbn [ack_loop]. destruct (on_ack s2 p2 peer j) as [[s3 p3] ok3]. apply IH. }
  specialize (Hcount l s1 p1 (if ok then 0 + 1 else 0) 0).
  destruct (ack_loop s1 p1 peer l _) as [[s2 p2] k2], (ack_loop s1 p1 peer l 0) as [[s3 p3] k3]. cbn in Hcount. by injection Hcount as -> ->.
Qed.

Lemma acked_nil n : is_Some (dk_ack (nd_d n)) -> acked n [] = n.
Proof. intros [s Hs]. unfold acked, handle_incoming_ack. rewrite Hs. cbn. destruct n as [d ? ? ? ? ? ? ?]. destruct d; cbn in *. by subst. Qed.

(** ** The invariant *)

Definition good_key (k : TransportKey) : Prop := is_valid_id (tk_id k) = true /\ (TRANSPORT_KEY_BYTES <= length (tk_bytes k))%nat.

(** Stocks: what [a] holds or took, what [b] holds, and the ids on their way. *)
Record stocks_ok (mine : list TransportKey) (taken : list TransportKey) (theirs : list TransportKey) (net : list string) : Prop := {
  sk_once : NoDup (stock_ids (taken ++ mine));
  sk_good : Forall good_key (taken ++ mine);
  sk_same : mine ⊆ theirs;
  sk_theirs : NoDup (net ++ stock_ids theirs);
}.

Record flow_ok (f : Flow) : Prop := {
  fo_a : emitter_ok (fl_a f);
  fo_b : exists T, receiver_ok T (fl_b f) /\ (forall c, T c -> c <= ps_counter (state (nd_e2e (fl_a f)) peer))
    /\ forall m, m ∈ fl_net f -> ~ T (sn_ctr m);
  fo_net : forall m, m ∈ fl_net f -> good_sent m /\ sn_ctr m <= ps_counter (state (nd_e2e (fl_a f)) peer)
    /\ fl_emitted f !! sn_id m = Some (sn_key m);
  fo_ctrs : NoDup (map sn_ctr (fl_net f));
  fo_stocks : stocks_ok (held_enc (fl_a f)) (fl_taken f) (held_dec (fl_b f)) (map sn_id (fl_net f));
  fo_pend i e : pending (fl_a f) i = Some e -> fl_emitted f !! i = Some (ae_bytes e)
    /\ (i ∉ stock_ids (fl_taken f ++ held_enc (fl_a f))) /\ (i ∈ fl_lost f \/ i ∈ map sn_id (fl_net f) \/ i ∈ fl_acks f);
  fo_acks i e : i ∈ fl_acks f -> pending (fl_a f) i = Some e -> mkTk i (ae_bytes e) ∈ held_dec (fl_b f);
  fo_done i k : fl_emitted f !! i = Some k -> is_valid_id i = true /\ length k = g_key_size_bytes gen
    /\ (i ∈ fl_lost f \/ mkTk i k ∈ fl_taken f ++ held_enc (fl_a f) \/ is_Some (pending (fl_a f) i));
  fo_ids i : i ∈ stock_ids (fl_taken f ++ held_enc (fl_a f)) \/ i ∈ stock_ids (held_dec (fl_b f)) \/ i ∈ fl_acks f
    \/ is_Some (fl_emitted f !! i) -> i ∈ fl_ids f;
}.

Lemma start_ok f : nd_gen (fl_a f) = gen -> flow_start epoch session ss f -> flow_ok f.
Proof.
  intros Hg [(N1 & N2 & N3) _ _ Hh _ Hs (st & T & O1 & O2 & O3 & O4) Hst (I1 & I2 & I3 & I4 & I5) [P1 P2 P3 P4] Hids].
  assert (Hsub : held_enc (fl_a f) ⊆ held_dec (fl_b f)) by (intros k Hk; by apply P4).
  constructor; rewrite ?I1, ?I2, ?I3, ?I4; cbn [app map].
  - by split_and!.
  - exists T. split; [|split; [done|by intros m ?%elem_of_nil]]. split_and!; try done. by exists st.
  - by intros m ?%elem_of_nil.
  - constructor.
  - constructor; cbn [app]; try done. apply Forall_forall. intros k Hk. split; [by apply P4|].
    unfold long_keys in P1. rewrite Forall_forall in P1. by apply P1.
  - intros i e. by rewrite I5.
  - by intros i e ?%elem_of_nil.
  - intros i k. by rewrite lookup_empty.
  - intros i [Hi|[Hi|[?%elem_of_nil|[k Hk]]]]; [|by apply Hids|done|by rewrite lookup_empty in Hk].
    apply list_elem_of_fmap in Hi as (k & -> & Hk). apply Hids, list_elem_of_fmap. eauto.
Qed.

(** ** Every step keeps it *)

Lemma emit_keeps a b net acks ids em lost tk now ts rnd uuid a' dest ct h hops g :
  (uuid ∉ ids) -> is_valid_id uuid = true -> length rnd = g_key_size_bytes gen -> wf_bytes rnd ->
  emit_key now ts rnd uuid a peer = (a', EmitSend dest ct h hops g) ->
  flow_ok (mkFlow a b net acks ids em lost tk) ->
  flow_ok (mkFlow a' b (net ++ [mkSent uuid h ct rnd (ps_counter (state (nd_e2e a') peer))]) acks ({[uuid]} ∪ ids) (<[uuid := rnd]> em) lost tk).
Proof.
  intros Hnew Hv Hl Hwf Ee [Fa (T & Tb & Tc & Tn) Fn Fct [S1 S2 S3 S4] Fp Fk Fd Fi]. cbn [fl_a fl_b fl_net fl_acks fl_ids fl_emitted fl_lost fl_taken] in *.
  destruct (emit_effect a now ts rnd uuid a' _ Fa Hl Hwf Ee) as (Fa' & Eh & Hle & Hp1 & Hp2 & Hsend).
  destruct (Hsend _ _ _ _ _ eq_refl) as (Hpu & Hc & Hgood). set (m := mkSent _ _ _ _ _) in *. set (c := ps_counter _) in *.
  assert (Hem : forall i k, em !! i = Some k -> i <> uuid) by (intros i k Hi ->; apply Hnew, Fi; eauto 6).
  assert (Hnu : uuid ∉ map sn_id net).
  { intros (m' & E & Hm')%list_elem_of_fmap. destruct (Fn m' Hm') as (_ & _ & Hm2). rewrite <- E in Hm2. by apply Hem in Hm2. }
  constructor; cbn [fl_a fl_b fl_net fl_acks fl_ids fl_emitted fl_lost fl_taken]; rewrite ?Eh; fold c; try done.
  - exists T. split; [done|]. split; [intros x Hx; apply Tc in Hx; lia|]. intros m' [Hm'| ->%list_elem_of_singleton]%elem_of_app; [by apply Tn|].
    cbn. intros Hx. apply Tc in Hx. lia.
  - intros m' [Hm'| ->%list_elem_of_singleton]%elem_of_app.
    + destruct (Fn m' Hm') as (G1 & G2 & G3). split_and!; [done|lia|]. rewrite lookup_insert_ne; [done|]. intros E. by apply (Hem _ _ G3).
    + split_and!; [done|cbn; lia|apply lookup_insert_eq].
  - rewrite map_app. apply NoDup_app. split_and!; [done| |apply NoDup_singleton].
    intros x (m' & -> & Hm')%list_elem_of_fmap Hx%list_elem_of_singleton. destruct (Fn m' Hm') as (_ & G2 & _). cbn in Hx. lia.
  - constructor; try done. rewrite map_app, <- app_assoc. cbn [map app sn_id m]. rewrite <- Permutation_middle. apply NoDup_cons. split; [|done].
    intros [Hx|Hx]%elem_of_app; [done|]. apply Hnew, Fi. by right; left.
  - intros i e Hi. destruct (Hp1 i e Hi) as [[-> He]|Hi'].
    + rewrite He. split_and!; [apply lookup_insert_eq| |right; left; rewrite map_app; apply elem_of_app; right; by left].
      intros Hx. apply Hnew, Fi. by left.
    + destruct (Fp i e Hi') as (G1 & G2 & G3). rewrite lookup_insert_ne by (intros E; by apply (Hem _ _ G1)). split_and!; try done.
      rewrite map_app, elem_of_app. tauto.
  - intros i e Hi Hpi. apply (Fk i e Hi). rewrite <- Hp2; [done|]. intros ->. apply Hnew, Fi. by do 2 right; left.
  - intros i k Hi. destruct (decide (i = uuid)) as [->|Hne].
    + rewrite lookup_insert_eq in Hi. injection Hi as <-. split_and!; [done..|by right; right].
    + rewrite lookup_insert_ne in Hi by done. destruct (Fd i k Hi) as (G1 & G2 & G3). rewrite Hp2 by done. by split_and!.
  - intros i Hi. destruct (decide (i = uuid)) as [->|Hne]; [set_solver|]. rewrite lookup_insert_ne in Hi by done. apply elem_of_union_r. by apply Fi.
Qed.

Lemma not_emitted_keeps a b net acks ids em lost tk now ts rnd uuid a' out :
  (uuid ∉ ids) -> is_valid_id uuid = true -> length rnd = g_key_size_bytes gen -> wf_bytes rnd ->
  emit_key now ts rnd uuid a peer = (a', out) ->
  flow_ok (mkFlow a b net acks ids em lost tk) ->
  flow_ok (mkFlow a' b net acks ({[uuid]} ∪ ids) (<[uuid := rnd]> em) ({[uuid]} ∪ lost) tk).
Proof.
  intros Hnew Hv Hl Hwf Ee [Fa (T & Tb & Tc & Tn) Fn Fct Fs Fp Fk Fd Fi]. cbn [fl_a fl_b fl_net fl_acks fl_ids fl_emitted fl_lost fl_taken] in *.
  destruct (emit_effect a now ts rnd uuid a' _ Fa Hl Hwf Ee) as (Fa' & Eh & Hle & Hp1 & Hp2 & _). set (c := ps_counter (state (nd_e2e a') peer)) in *.
  assert (Hem : forall i k, em !! i = Some k -> i <> uuid) by (intros i k Hi ->; apply Hnew, Fi; eauto 6).
  constructor; cbn [fl_a fl_b fl_net fl_acks fl_ids fl_emitted fl_lost fl_taken]; rewrite ?Eh; fold c; try done.
  - exists T. split_and!; [done| |done]. intros x Hx. apply Tc in Hx. lia.
  - intros m Hm. destruct (Fn m Hm) as (G1 & G2 & G3). split_and!; [done|lia|]. rewrite lookup_insert_ne; [done|]. intros E. by apply (Hem _ _ G3).
  - intros i e Hi. destruct (Hp1 i e Hi) as [[-> He]|Hi'].
    + rewrite He. split_and!; [apply lookup_insert_eq| |left; set_solver]. intros Hx. apply Hnew, Fi. by left.
    + destruct (Fp i e Hi') as (G1 & G2 & G3). rewrite lookup_insert_ne by (intros E; by apply (Hem _ _ G1)). split_and!; try done.
      rewrite elem_of_union. tauto.
  - intros i e Hi Hpi. apply (Fk i e Hi). rewrite <- Hp2; [done|]. intros ->. apply Hnew, Fi. by do 2 right; left.
  - intros i k Hi. destruct (decide (i = uuid)) as [->|Hne].
    + rewrite lookup_insert_eq in Hi. injection Hi as <-. split_and!; [done..|left; set_solver].
    + rewrite lookup_insert_ne in Hi by done. destruct (Fd i k Hi) as (G1 & G2 & G3). rewrite Hp2 by done. rewrite elem_of_union. split_and!; tauto.
  - intros i Hi. destruct (decide (i = uuid)) as [->|Hne]; [set_solver|]. rewrite lookup_insert_ne in Hi by done. apply elem_of_union_r. by apply Fi.
Qed.

(** The emitter waits for fewer keys than before: each that is gone is lost. *)
Lemma gone_keeps a a' b net acks ids em lost gone tk :
  emitter_ok a' -> state (nd_e2e a') peer = state (nd_e2e a) peer -> held_enc a' = held_enc a ->
  (forall i e, pending a' i = Some e -> pending a i = Some e) ->
  (forall i e, pending a i = Some e -> pending a' i = Some e \/ i ∈ gone) ->
  flow_ok (mkFlow a b net acks ids em lost tk) -> flow_ok (mkFlow a' b net acks ids em (gone ∪ lost) tk).
Proof.
  intros Fa' Hst Eh Hp1 Hp2 [Fa Fb Fn Fct Fs Fp Fk Fd Fi]. cbn [fl_a fl_b fl_net fl_acks fl_ids fl_emitted fl_lost fl_taken] in *.
  constructor; cbn [fl_a fl_b fl_net fl_acks fl_ids fl_emitted fl_lost fl_taken]; rewrite ?Eh, ?Hst; try done.
  - intros i e Hi. destruct (Fp i e (Hp1 i e Hi)) as (G1 & G2 & G3). rewrite elem_of_union. split_and!; tauto.
  - intros i e Hi Hpi. by apply Fk, Hp1.
  - intros i k Hi. destruct (Fd i k Hi) as (G1 & G2 & G3). split_and!; [done..|]. rewrite elem_of_union.
    destruct G3 as [?|[?|[e He]]]; [tauto..|]. destruct (Hp2 i e He) as [He'|?]; [|tauto]. right. right. by exists e.
Qed.

(** A message leaves the network: it is lost, or [b] has taken notice of it. *)
Lemma arrived_keeps a b b' net1 m net2 acks acks' ids em lost lost' tk :
  flow_ok (mkFlow a b (net1 ++ m :: net2) acks ids em lost tk) ->
  (exists T, receiver_ok T b' /\ (forall c, T c -> c <= ps_counter (state (nd_e2e a) peer)) /\ forall m', m' ∈ net1 ++ net2 -> ~ T (sn_ctr m')) ->
  (held_dec b' = held_dec b \/ held_dec b' = held_dec b ++ [mkTk (sn_id m) (sn_key m)]) ->
  lost ⊆ lost' -> (forall i, i ∈ acks -> i ∈ acks') -> (forall i, i ∈ acks' -> i ∈ acks \/ i = sn_id m) ->
  (sn_id m ∈ lost' \/ sn_id m ∈ acks') -> (sn_id m ∈ acks' -> (sn_id m ∉ acks) -> mkTk (sn_id m) (sn_key m) ∈ held_dec b') ->
  flow_ok (mkFlow a b' (net1 ++ net2) acks' ids em lost' tk).
Proof.
  intros [Fa _ Fn Fct [S1 S2 S3 S4] Fp Fk Fd Fi] Hb Hd Hlost Hak1 Hak2 Hm Hmd. cbn [fl_a fl_b fl_net fl_acks fl_ids fl_emitted fl_lost fl_taken] in *.
  assert (Hnet : forall x, x ∈ net1 ++ m :: net2 <-> x = m \/ x ∈ net1 ++ net2) by (intros x; rewrite !elem_of_app, elem_of_cons; tauto).
  assert (Hmid : forall i, i ∈ map sn_id (net1 ++ m :: net2) -> i = sn_id m \/ i ∈ map sn_id (net1 ++ net2)).
  { intros i (x & -> & [-> |Hx]%Hnet)%list_elem_of_fmap; [by left|right; apply list_elem_of_fmap; eauto]. }
  destruct (Fn m) as (_ & _ & Gm); [apply Hnet; by left|].
  assert (Hsub : held_dec b ⊆ held_dec b') by (destruct Hd as [-> | ->]; set_solver).
  rewrite map_app in Fct, S4. cbn [map] in Fct, S4. rewrite <- !Permutation_middle in S4. rewrite <- Permutation_middle in Fct.
  constructor; cbn [fl_a fl_b fl_net fl_acks fl_ids fl_emitted fl_lost fl_taken]; try done.
  - intros x Hx. apply Fn, Hnet. by right.
  - rewrite map_app. by apply NoDup_cons in Fct as [_ ?].
  - constructor; [done..|by etransitivity|]. rewrite map_app. cbn [app] in S4. destruct Hd as [-> | ->]; [by apply NoDup_cons in S4 as [_ ?]|].
    unfold stock_ids in *. rewrite map_app. cbn [map tk_id]. rewrite app_assoc. by rewrite <- Permutation_cons_append.
  - intros i e Hi. destruct (Fp i e Hi) as (G1 & G2 & G3). split_and!; [done..|].
    destruct G3 as [?|[[-> |?]%Hmid|?]]; [set_solver| |tauto|eauto]. destruct Hm; tauto.
  - intros i e Hi Hpi. destruct (decide (i ∈ acks)) as [Hin|Hnin]; [by apply Hsub, Fk|].
    destruct (Hak2 i Hi) as [?| ->]; [done|]. destruct (Fp _ e Hpi) as (G1 & _). rewrite Gm in G1. injection G1 as <-. by apply Hmd.
  - intros i k Hi. destruct (Fd i k Hi) as (G1 & G2 & G3). split_and!; [done..|]. set_solver.
  - intros i [Hi|[Hi|[Hi|Hi]]]; [apply Fi; by left| | |apply Fi; by do 3 right].
    + destruct Hd as [E|E]; rewrite E in Hi; [apply Fi; by right; left|]. unfold stock_ids in Hi. rewrite map_app in Hi.
      apply elem_of_app in Hi as [Hi|Hi%list_elem_of_singleton]; apply Fi; [by right; left|]. cbn in Hi. subst i. do 3 right. by eexists.
    + destruct (Hak2 i Hi) as [?| ->]; apply Fi; [by do 2 right; left|]. do 3 right. by eexists.
Qed.

Lemma deliver_keeps a b net1 m net2 acks ids em lost tk now b' r :
  handle_orr_delivery now b (mkMsg (sn_ct m) (sn_header m)) = (b', r) ->
  flow_ok (mkFlow a b (net1 ++ m :: net2) acks ids em lost tk) ->
  match r with
  | Ok (Some (_, _, i)) => flow_ok (mkFlow a b' (net1 ++ net2) (acks ++ [i]) ids em lost tk)
  | _ => flow_ok (mkFlow a b' (net1 ++ net2) acks ids em ({[sn_id m]} ∪ lost) tk)
  end.
Proof.
  intros E Hok. pose proof Hok as [_ (T & Tb & Tc & Tn) Fn Fct _ _ _ _ _]. cbn [fl_a fl_b fl_net fl_acks fl_ids fl_emitted fl_lost fl_taken] in *.
  assert (Hin : m ∈ net1 ++ m :: net2) by (apply elem_of_app; right; by left). destruct (Fn m Hin) as (Gm & Gc & _).
  destruct (deliver_effect T now b b' m r Tb Gm (Tn m Hin) E) as [(T' & Tb' & Tt) Hd].
  assert (Hb : exists T, receiver_ok T b' /\ (forall c, T c -> c <= ps_counter (state (nd_e2e a) peer)) /\ forall m', m' ∈ net1 ++ net2 -> ~ T (sn_ctr m')).
  { exists T'. split; [done|]. split; [intros c [-> |Hc]%Tt; [done|by apply Tc]|]. intros m' Hm' [Ec|Hx]%Tt.
    - rewrite map_app in Fct. cbn [map] in Fct. rewrite <- Permutation_middle in Fct. apply NoDup_cons in Fct as [Fct _]. apply Fct.
      rewrite <- map_app, <- Ec. apply list_elem_of_fmap. eauto.
    - apply (Tn m'); [|done]. rewrite elem_of_app, elem_of_cons. rewrite elem_of_app in Hm'. tauto. }
  assert (Hlost : (forall x, r <> Ok (Some x)) -> flow_ok (mkFlow a b' (net1 ++ net2) acks ids em ({[sn_id m]} ∪ lost) tk)).
  { intros Hr. apply (arrived_keeps a b b' net1 m net2 acks acks ids em lost _ tk Hok Hb); [|set_solver|done|by left|left; set_solver|done].
    destruct Hd as [[Hd _]|[Hd _]]; [by left|by right]. }
  destruct r as [[[[p ep] i]|]|e|]; try (by apply Hlost). destruct Hd as [[_ Hno]|[Hd Hi]]; [by destruct (Hno _ eq_refl)|].
  specialize (Hi _ eq_refl). cbn in Hi. subst i.
  eapply arrived_keeps; try done; [by right|intros i Hi; apply elem_of_app; by left| | |].
  - intros i [?|?%list_elem_of_singleton]%elem_of_app; [by left|by right].
  - right. apply elem_of_app. right. by left.
  - intros _ _. rewrite Hd. apply elem_of_app. right. by left.
Qed.

Lemma ack_one_keeps a b net i rest ids em lost tk :
  flow_ok (mkFlow a b net (i :: rest) ids em lost tk) -> flow_ok (mkFlow (acked a [i]) b net rest ids em lost tk).
Proof.
  intros [Fa Fb Fn Fct [S1 S2 S3 S4] Fp Fk Fd Fi]. cbn [fl_a fl_b fl_net fl_acks fl_ids fl_emitted fl_lost fl_taken] in *.
  destruct (ack_one a i Fa) as (Fa' & Hst & Hp & Hh). set (a' := acked a [i]) in *. clearbody a'.
  assert (Hall : tk ++ held_enc a' ≡ₚ match pending a i with Some e => mkTk i (ae_bytes e) :: tk ++ held_enc a | None => tk ++ held_enc a end).
  { rewrite Hh. destruct (pending a i); [|done]. symmetry. apply Permutation_middle. }
  assert (Hids : stock_ids (tk ++ held_enc a') ≡ₚ match pending a i with Some e => i :: stock_ids (tk ++ held_enc a) | None => stock_ids (tk ++ held_enc a) end).
  { unfold stock_ids. rewrite Hall. by destruct (pending a i). }
  assert (Hin : forall x, x ∈ tk ++ held_enc a -> x ∈ tk ++ held_enc a') by (intros x Hx; rewrite Hall; destruct (pending a i); [by right|done]).
  assert (Hnew : forall e, pending a i = Some e -> em !! i = Some (ae_bytes e) /\ (i ∉ stock_ids (tk ++ held_enc a)) /\ mkTk i (ae_bytes e) ∈ held_dec b /\ i ∈ ids).
  { intros e He. destruct (Fp i e He) as (G1 & G2 & _). split_and!; [done..|apply Fk; [by left|done]|]. apply Fi. do 3 right. by eexists. }
  constructor; cbn [fl_a fl_b fl_net fl_acks fl_ids fl_emitted fl_lost fl_taken]; rewrite ?Hst; try done.
  - constructor; [..|done].
    + rewrite Hids. destruct (pending a i) as [e|]; [|done]. apply NoDup_cons. split; [by apply (Hnew e)|done].
    + rewrite Hall. destruct (pending a i) as [e|]; [|done]. destruct (Hnew e eq_refl) as (G1 & _). destruct (Fd _ _ G1) as (D1 & D2 & _).
      apply Forall_cons. split; [|done]. split; [done|]. cbn. rewrite D2. apply Hsize.
    + intros k Hk. rewrite Hh in Hk. destruct (pending a i) as [e|]; [|by apply S3]. apply elem_of_cons in Hk as [-> |Hk]; [by apply (Hnew e)|by apply S3].
  - intros j e Hj. rewrite Hp in Hj. destruct (decide (i = j)) as [|Hne]; [done|]. destruct (Fp j e Hj) as (G1 & G2 & G3). split_and!; [done| |].
    + rewrite Hids. destruct (pending a i); [|done]. rewrite elem_of_cons. by intros [->|?].
    + destruct G3 as [?|[?|[->|?]%elem_of_cons]]; tauto.
  - intros j e Hj Hpj. rewrite Hp in Hpj. destruct (decide (i = j)); [done|]. apply Fk; [by right|done].
  - intros j k Hj. destruct (Fd j k Hj) as (G1 & G2 & G3). split_and!; [done..|]. destruct G3 as [?|[?|[e He]]]; [by left|right; left; by apply Hin|].
    rewrite Hp. destruct (decide (i = j)) as [->|]; [|right; right; by exists e]. right. left. rewrite Hall, He.
    destruct (Hnew e He) as (G & _). assert (k = ae_bytes e) as -> by congruence. by left.
  - intros j Hj. rewrite Hids in Hj. destruct (pending a i) as [e|] eqn:He.
    + rewrite elem_of_cons in Hj. destruct Hj as [[->|Hj]|[Hj|[Hj|Hj]]]; [by apply (Hnew e)|apply Fi; by left|apply Fi; by right; left|apply Fi; do 2 right; left; by right|apply Fi; by do 3 right].
    + apply Fi. rewrite elem_of_cons. tauto.
Qed.

Lemma ack_keeps b net ids em lost tk batch rest : forall a,
  flow_ok (mkFlow a b net (batch ++ rest) ids em lost tk) -> flow_ok (mkFlow (acked a batch) b net rest ids em lost tk).
Proof.
  induction batch as [|i batch IH]; intros a Hok; pose proof (fo_a _ Hok) as (_ & _ & _ & Hak & _); cbn [fl_a] in Hak.
  - by rewrite acked_nil.
  - rewrite acked_cons by done. by apply IH, ack_one_keeps.
Qed.

(** Acknowledgements in another order, or lost. *)
Lemma acks_keeps a b net acks acks' ids em lost lost' tk :
  (forall i, i ∈ acks' -> i ∈ acks) -> (forall i, i ∈ acks -> i ∈ acks' \/ i ∈ lost') -> lost ⊆ lost' ->
  flow_ok (mkFlow a b net acks ids em lost tk) -> flow_ok (mkFlow a b net acks' ids em lost' tk).
Proof.
  intros H1' H2' Hl [Fa Fb Fn Fct Fs Fp Fk Fd Fi]. cbn [fl_a fl_b fl_net fl_acks fl_ids fl_emitted fl_lost fl_taken] in *.
  constructor; cbn [fl_a fl_b fl_net fl_acks fl_ids fl_emitted fl_lost fl_taken]; try done.
  - intros i e Hi. destruct (Fp i e Hi) as (G1 & G2 & [G3|[G3|G3]]); split_and!; [done..|left; by apply Hl|done|done|tauto|done|done|].
    destruct (H2' i G3); tauto.
  - intros i e Hi. by apply Fk, H1'.
  - intros i k Hi. destruct (Fd i k Hi) as (G1 & G2 & [G3|G3]); split_and!; [done..|left; by apply Hl|done|done|tauto].
  - intros i Hi. apply Fi. destruct Hi as [?|[?|[?%H1'|?]]]; tauto.
Qed.

Lemma same_emitter_ok a a' : same_emitter a a' -> emitter_ok a -> emitter_ok a'.
Proof. intros [[S1 S2] S3 S4 S5 _] (H1' & H2' & H3' & _ & H5'). unfold emitter_ok. rewrite S1, S2, S3, S4. by split_and!. Qed.

(** Keys go from the stock of [a] to what it took, or back. *)
Lemma moved_keeps a a' b net acks ids em lost tk tk' :
  same_emitter a a' -> tk' ++ held_enc a' ≡ₚ tk ++ held_enc a -> held_enc a' ⊆ held_dec b ->
  flow_ok (mkFlow a b net acks ids em lost tk) -> flow_ok (mkFlow a' b net acks ids em lost tk').
Proof.
  intros Hs Hp Hsub [Fa Fb Fn Fct [S1 S2 S3 S4] Fp Fk Fd Fi]. cbn [fl_a fl_b fl_net fl_acks fl_ids fl_emitted fl_lost fl_taken] in *.
  pose proof Hs as [_ _ Hst _ Hpend].
  assert (Hpi : stock_ids (tk' ++ held_enc a') ≡ₚ stock_ids (tk ++ held_enc a)) by (unfold stock_ids; by rewrite Hp).
  constructor; cbn [fl_a fl_b fl_net fl_acks fl_ids fl_emitted fl_lost fl_taken]; rewrite ?Hst; try done.
  - by eapply same_emitter_ok.
  - constructor; [by rewrite Hpi|by rewrite Hp|done..].
  - intros i e. rewrite Hpend, Hpi. apply Fp.
  - intros i e. rewrite Hpend. apply Fk.
  - intros i k Hi. rewrite Hpend, Hp. by apply Fd.
  - intros i. rewrite Hpi. apply Fi.
Qed.

Lemma use_keeps a b b' net acks ids em lost tk used :
  same_receiver b b' -> held_dec b ≡ₚ used ++ held_dec b' -> stock_ids used ⊆ stock_ids tk ->
  flow_ok (mkFlow a b net acks ids em lost tk) -> flow_ok (mkFlow a b' net acks ids em lost tk).
Proof.
  intros [R1 R2 R3] Hd Hu [Fa (T & (N1 & N2 & st & O1 & O2 & O3) & Tc & Tn) Fn Fct [S1 S2 S3 S4] Fp Fk Fd Fi].
  cbn [fl_a fl_b fl_net fl_acks fl_ids fl_emitted fl_lost fl_taken] in *.
  assert (Hkeep : forall k, k ∈ held_dec b -> (tk_id k ∉ stock_ids tk) -> k ∈ held_dec b').
  { intros k Hk Hn. rewrite Hd in Hk. apply elem_of_app in Hk as [Hk|Hk]; [|done]. destruct Hn. apply Hu, list_elem_of_fmap. eauto. }
  constructor; cbn [fl_a fl_b fl_net fl_acks fl_ids fl_emitted fl_lost fl_taken]; try done.
  - exists T. split_and!; [|done..]. unfold receiver_ok. rewrite R1, R3. split; [done|]. split; [done|]. exists st. by rewrite R2.
  - constructor; [done..| |].
    + intros k Hk. apply Hkeep; [by apply S3|]. intros Hin. unfold stock_ids in S1. rewrite map_app in S1. apply NoDup_app in S1 as (_ & Hdis & _).
      apply (Hdis _ Hin), list_elem_of_fmap. eauto.
    + unfold stock_ids in S4. rewrite Hd, map_app, (Permutation_app_comm (map tk_id used)), app_assoc in S4. by apply NoDup_app in S4 as [? _].
  - intros i e Hi Hp. apply Hkeep; [by apply Fk|]. cbn. destruct (Fp i e Hp) as (_ & G & _). intros Hin. apply G. unfold stock_ids. rewrite map_app.
    apply elem_of_app. by left.
  - assert (Hs : forall i, i ∈ stock_ids (held_dec b') -> i ∈ stock_ids (held_dec b)).
    { intros i Hi. unfold stock_ids. rewrite Hd, map_app. apply elem_of_app. by right. }
    intros i Hi. apply Fi. destruct Hi as [?|[?%Hs|?]]; tauto.
Qed.

Lemma flow_step_ok f f' : flow_step f f' -> flow_ok f -> flow_ok f'.
Proof.
  intros Hst Hok. pose proof (fo_a _ Hok) as Ha. destruct Ha as (A1 & A2 & A3 & A4 & A5).
  destruct Hst as [a b net acks ids em lost tk now ts rnd uuid a' dest ct h hops g Hn Hv Hl Hw He|a b net acks ids em lost tk now ts rnd uuid a' out Hn Hv Hl Hw He _
    |a b net acks ids em lost tk i|a b net1 m net2 acks ids em lost tk|a b net1 m net2 acks ids em lost tk now b' p ep i Hd|a b net1 m net2 acks ids em lost tk now b' r Hd Hr
    |a b net acks batch rest ids em lost tk Hp|a b net acks batch rest ids em lost tk Hp|a b net acks ids em lost tk now gone Hg
    |a a' b net acks ids em lost tk used Hs Hp|a a' b net acks ids em lost tk back rest Hs Hp Hp' Hb|a b b' net acks ids em lost tk used Hs Hp Hu]; cbn [fl_a] in *.
  - rewrite A3 in Hl. by eapply emit_keeps.
  - rewrite A3 in Hl. by eapply not_emitted_keeps.
  - eapply (gone_keeps a); [by apply emitter_failed; unfold emitter_ok; eauto 6|done..| | |exact Hok].
    + intros j e. rewrite pending_failed. by destruct (decide _).
    + intros j e. rewrite pending_failed. destruct (decide _) as [->|]; [right; set_solver|by left].
  - pose proof Hok as [_ (T & Tb & Tc & Tn) _ _ _ _ _ _ _]. cbn [fl_a fl_b fl_net fl_acks fl_ids fl_emitted fl_lost fl_taken] in *.
    apply (arrived_keeps a b b net1 m net2 acks acks ids em lost _ tk Hok); [|by left|set_solver|done|by left|left; set_solver|done].
    exists T. split_and!; [done..|]. intros m' Hm'. apply Tn. rewrite elem_of_app, elem_of_cons. rewrite elem_of_app in Hm'. tauto.
  - apply (deliver_keeps _ _ _ _ _ _ _ _ _ _ _ _ _ Hd Hok).
  - pose proof (deliver_keeps _ _ _ _ _ _ _ _ _ _ _ _ _ Hd Hok) as Hk. destruct r as [[x|]|e|]; [by destruct (Hr x)|done..].
  - apply ack_keeps. eapply acks_keeps; [..|exact Hok]; [|intros i; rewrite Hp; by left|done]. intros i. by rewrite Hp.
  - eapply acks_keeps; [..|exact Hok]; [intros i Hi; rewrite Hp; apply elem_of_app; by right| |set_solver].
    intros i. rewrite Hp, elem_of_app, elem_of_union, elem_of_list_to_set. tauto.
  - eapply (gone_keeps a); [|done..| | |exact Hok]; [unfold emitter_ok; split_and!; try done; by eexists| |].
    + intros i e. unfold pending, ack_store at 1. cbn [expire with_d nd_d with_ack dk_ack default from_option id]. rewrite reap_lookup.
      destruct (ap_lookup (ack_store a) peer i) as [e0|]; [|done]. by destruct (ae_expired now e0).
    + intros i e Hi. destruct (ae_expired now e) eqn:Ex; [right; by eapply Hg|left].
      unfold pending, ack_store at 1. cbn [expire with_d nd_d with_ack dk_ack default from_option id]. rewrite reap_lookup.
      unfold pending in Hi. rewrite Hi. by rewrite Ex.
  - pose proof (sk_same _ _ _ _ (fo_stocks _ Hok)) as Hsub. cbn in Hsub. eapply moved_keeps; [exact Hs| |intros k Hk; apply Hsub; rewrite Hp; apply elem_of_app; by right|exact Hok].
    rewrite Hp, !app_assoc. by rewrite (Permutation_app_comm used).
  - pose proof (sk_same _ _ _ _ (fo_stocks _ Hok)) as Hsub. cbn in Hsub. eapply moved_keeps; [exact Hs| | |exact Hok].
    + rewrite Hp, Hp', !app_assoc. by rewrite (Permutation_app_comm rest).
    + intros k Hk. rewrite Hp' in Hk. apply elem_of_app in Hk as [Hk|Hk]; [by apply Hb|by apply Hsub].
  - by eapply use_keeps.
Qed.

Lemma flow_reached f f' : nd_gen (fl_a f) = gen -> flow_start epoch session ss f -> rtc flow_step f f' -> flow_ok f'.
Proof. intros Hg Hs Hr. apply start_ok in Hs; [|done]. clear Hg. induction Hr as [|f f1 f' Hst Hr IH]; [exact Hs|]. apply IH. by eapply flow_step_ok. Qed.

Lemma flow_paired f : flow_ok f -> paired (nd_d (fl_a f)) (nd_d (fl_b f)) me peer.
Proof.
  intros [_ _ _ _ [S1 S2 S3 S4] _ _ _ _]. unfold stock_ids in S1. rewrite map_app in S1. apply NoDup_app in S1 as (_ & _ & S1).
  apply Forall_app in S2 as [_ S2]. apply NoDup_app in S4 as (_ & _ & S4). constructor; [|done|done|].
  - unfold long_keys. eapply Forall_impl; [exact S2|]. by intros k [_ ?].
  - intros k Hk. split; [by apply S3|]. rewrite Forall_forall in S2. by apply S2.
Qed.
End Flow.

(** C9: Emission fills both ends, with many keys on their way at once.  Two nodes
    that agreed on an epoch and hold the same transport keys, nothing being on its
    way, go through any interleaving of these steps: one of them emits a key of a
    new id, or fails to; its ORR refuses one; the network loses a message, or
    delivers any of them, each once; the receiver acknowledges it or not;
    acknowledgements arrive in batches of any size and order, or are lost; keys
    that waited too long expire; and meanwhile both do other work, the emitter
    taking keys out of its stock and putting back what the other did not use, the
    receiver using those that were taken.  Always: every key the emitter holds the
    receiver holds under the same id, with the same bytes.  Every key emitted so
    far is held by both; or was taken; or still waits at the emitter, its message
    or its acknowledgement on the way; or something of it was lost, refused,
    expired or not acknowledged.  Any message on its way to a receiver that knows
    the emitter, has room for the key and can acknowledge it is filed and
    acknowledged, unless it is a whole replay window behind; and an acknowledgement
    on its way puts a key that still waits in stock.  The two agree on no other
    epoch meanwhile and neither starts anew. *)
Theorem emission_keeps_nodes_paired {SBB : Type} `{PeerBuckets SBB} `{KeyDigest} `{MacCrypto} `{AesGcm} `{MlKem} `{TextCodecs}
  (me peer : string) (epoch session : Z) (ss : bytes) (f f' : Flow (SBB := SBB))
  (Hs : flow_start me peer epoch session ss f) (Hr : rtc (flow_step me peer) f f') :
  let a := fl_a f' in let b := fl_b f' in
  paired (nd_d a) (nd_d b) me peer
  /\ (forall i k, fl_emitted f' !! i = Some k ->
        mkTk i k ∈ held_enc peer a /\ mkTk i k ∈ held_dec me b
        \/ mkTk i k ∈ fl_taken f'
        \/ (exists e, pending peer a i = Some e /\ ae_bytes e = k)
           /\ (i ∈ map sn_id (fl_net f') \/ i ∈ fl_acks f' /\ mkTk i k ∈ held_dec me b)
        \/ i ∈ fl_lost f')
  /\ (forall m now, m ∈ fl_net f' -> can_take me b m ->
        exists b' ep, handle_orr_delivery now b (mkMsg (sn_ct m) (sn_header m)) = (b', Ok (Some (me, ep, sn_id m)))
          /\ held_dec me b' = held_dec me b ++ [mkTk (sn_id m) (sn_key m)])
  /\ (forall i e, i ∈ fl_acks f' -> pending peer a i = Some e -> held_enc peer (acked peer a [i]) ≡ₚ mkTk i (ae_bytes e) :: held_enc peer a).
Proof.
  cbv zeta. pose proof Hs as [_ Hsz [Hinc Hu] _ Hue _ _ _ _ _ _].
  pose proof (flow_reached me peer epoch session ss (nd_gen (fl_a f)) Hinc Hu Hue Hsz f f' eq_refl Hs Hr) as Hok.
  split; [by eapply flow_paired|]. destruct Hok as [Fa (T & Tb & _ & Tn) Fn _ [_ _ S3 _] Fp Fk Fd _]. split_and!.
  - intros i k Hi. destruct (Fd i k Hi) as (_ & _ & [?|[[?|Hin]%elem_of_app|[e He]]]); [by do 3 right|by right; left|left; split; [done|by apply S3]|].
    destruct (Fp i e He) as (G1 & _ & G). assert (k = ae_bytes e) as -> by congruence.
    destruct G as [?|[?|Ha]]; [by do 3 right|right; right; left; split; [by exists e|by left]..|].
    right; right; left. split; [by exists e|]. right. split; [done|]. by apply Fk.
  - intros m now Hm Hc. destruct (Fn m Hm) as (Gm & _ & _).
    by apply (deliver_taken me peer epoch session ss (nd_gen (fl_a f)) Hsz T now (fl_b f') m Tb Gm (Tn m Hm)).
  - intros i e Hi He. destruct (ack_one me peer epoch ss (nd_gen (fl_a f)) Hsz (fl_a f') i Fa) as (_ & _ & _ & Hh). by rewrite He in Hh.
Qed.

(** ** Two keys at once

    Both are emitted before either arrives; the second arrives first; one batch
    acknowledges them. *)

Definition flow_0 : Flow (SBB := unit) := mkFlow emit_a emit_b [] [] ∅ ∅ ∅ [].

Definition emit_in (uuid : string) (rnd : bytes) (f : Flow (SBB := unit)) : Flow (SBB := unit) :=
  let r := emit_key 10 1700000000000 rnd uuid (fl_a f) "dkms-B" in
  let '(ct, h) := match r.2 with EmitSend _ ct h _ _ => (ct, h) | _ => ([], ∅) end in
  mkFlow r.1 (fl_b f) (fl_net f ++ [mkSent uuid h ct rnd (ps_counter (state (nd_e2e r.1) "dkms-B"))]) (fl_acks f)
    ({[uuid]} ∪ fl_ids f) (<[uuid := rnd]> (fl_emitted f)) (fl_lost f) (fl_taken f).

Definition deliver_in (i : nat) (f : Flow (SBB := unit)) : Flow (SBB := unit) :=
  let m := nth i (fl_net f) (mkSent "" ∅ [] [] 0) in
  mkFlow (fl_a f) (handle_orr_delivery 10 (fl_b f) (mkMsg (sn_ct m) (sn_header m))).1 (take i (fl_net f) ++ drop (S i) (fl_net f))
    (fl_acks f ++ [sn_id m]) (fl_ids f) (fl_emitted f) (fl_lost f) (fl_taken f).

Definition ack_in (batch : list string) (f : Flow (SBB := unit)) : Flow (SBB := unit) :=
  mkFlow (acked "dkms-B" (fl_a f) batch) (fl_b f) (fl_net f) [] (fl_ids f) (fl_emitted f) (fl_lost f) (fl_taken f).

Definition flow_2 := emit_in "t2" (replicate 32 9) (emit_in "t1" (replicate 32 7) flow_0).
Definition flow_5 := ack_in ["t1"; "t2"]%string (deliver_in 0 (deliver_in 1 flow_2)).

Lemma flow_starts : flow_start "dkms-A" "dkms-B" 7 77 agreed_ss flow_0.
Proof.
  constructor; cbn [flow_0 fl_a fl_b fl_net fl_acks fl_ids fl_emitted fl_lost fl_taken].
  - split_and!; vm_compute; reflexivity.
  - split; [vm_compute; lia|cbn; lia].
  - split; [reflexivity|ufold; lia].
  - intros i Hi. discriminate Hi.
  - ufold. lia.
  - split_and!; [vm_compute; reflexivity..|vm_compute; split; [discriminate|reflexivity]|vm_compute; discriminate].
  - exists (state agreed_b "dkms-A"), (fun _ => False). split_and!; [vm_compute; reflexivity..| |intros c []].
    change (ps_replay _) with (win_with_adopt AdoptAny (win_new 64)). apply stream_in_new.
  - by eexists.
  - by split_and!.
  - exact sample_unpaired.
  - intros i Hi. vm_compute in Hi. by apply not_elem_of_nil in Hi.
Qed.

Definition is_send (o : EmitOut) : bool := match o with EmitSend _ _ _ _ _ => true | _ => false end.

Lemma emit_reached uuid rnd f : (uuid ∉ fl_ids f) -> is_valid_id uuid = true -> length rnd = g_key_size_bytes (nd_gen (fl_a f)) -> wf_bytes rnd ->
  is_send (emit_key 10 1700000000000 rnd uuid (fl_a f) "dkms-B").2 = true ->
  flow_step "dkms-A" "dkms-B" f (emit_in uuid rnd f).
Proof.
  intros Hn Hv Hl Hw Ho. unfold emit_in. destruct (emit_key _ _ rnd uuid (fl_a f) "dkms-B") as [a' out] eqn:E. cbn [fst snd] in *.
  destruct out; try done. destruct f. by eapply fs_emit.
Qed.

Lemma deliver_reached i f : (i < length (fl_net f))%nat ->
  (let m := nth i (fl_net f) (mkSent "" ∅ [] [] 0) in
   match (handle_orr_delivery 10 (fl_b f) (mkMsg (sn_ct m) (sn_header m))).2 with Ok (Some (_, _, k)) => k = sn_id m | _ => False end) ->
  flow_step "dkms-A" "dkms-B" f (deliver_in i f).
Proof.
  intros Hi. unfold deliver_in. set (m := nth i _ _). cbv zeta. destruct (handle_orr_delivery _ _ _) as [b' r] eqn:E. cbn [fst snd].
  destruct r as [[[[p ep] k]|]|e|]; [|done..]. intros ->. destruct f as [a b net acks ids em lost tk]. cbn in *.
  rewrite <- (take_drop_middle net i m) at 1; [by eapply fs_deliver|].
  destruct (lookup_lt_is_Some_2 net i Hi) as [x Hx]. unfold m. by rewrite nth_lookup, Hx.
Qed.

Lemma ack_reached batch f : fl_acks f ≡ₚ batch -> flow_step "dkms-A" "dkms-B" f (ack_in batch f).
Proof. intros Hp. destruct f. cbn in *. apply fs_ack. by rewrite app_nil_r. Qed.

Lemma flow_5_reached : rtc (flow_step "dkms-A" "dkms-B") flow_0 flow_5.
Proof.
  eapply rtc_l; [apply (emit_reached "t1" (replicate 32 7))|eapply rtc_l; [apply (emit_reached "t2" (replicate 32 9))|]].
  1-10: apply (bool_decide_unpack _); vm_compute; exact I.
  fold flow_2. eapply rtc_l; [apply (deliver_reached 1); [vm_compute; lia|vm_compute; reflexivity]|].
  eapply rtc_l; [apply (deliver_reached 0); [vm_compute; lia|vm_compute; reflexivity]|].
  apply rtc_once, ack_reached. apply (bool_decide_unpack _). vm_compute. exact I.
Qed.

Lemma emission_keeps_nodes_paired_witness :
  paired (nd_d (fl_a flow_5)) (nd_d (fl_b flow_5)) "dkms-A" "dkms-B".
Proof. apply (emission_keeps_nodes_paired "dkms-A" "dkms-B" 7 77 agreed_ss flow_0 flow_5 flow_starts flow_5_reached). Defined.

(** Both have both keys, the first acknowledged first. *)
Example both_keys_paired :
  held_enc "dkms-B" (fl_a flow_5) = [mkTk "t1" (replicate 32 7); mkTk "t2" (replicate 32 9)]
  /\ held_dec "dkms-A" (fl_b flow_5) = [mkTk "t2" (replicate 32 9); mkTk "t1" (replicate 32 7)].
Proof. split; vm_compute; reflexivity. Qed.
