(* ===== verification/Signing.v ===== *)
(** * Signatures, link MACs and node certificates
    (common/src/crypto/pqc_sign.rs, common/src/crypto/link_mac.rs, common/src/cert_identity.rs)

    What a link handshake and an onion router's announcement are authenticated
    with: ML-DSA-65 signatures over a canonical message, an HMAC over the same
    message under a key shared by the two ends of a link, and the identity of a
    node taken from its certificate.  The crates below them are the classes
    [MlDsa] (ml-dsa) and [X509] (x509-parser, webpki).

    Shown: the canonical messages determine every field they cover, a MAC and a
    signature cover the same bytes, what is signed verifies, and a chain is only
    accepted for the node its certificate names. *)

From Stdlib Require Import ZArith Lia String Ascii.
From S2P Require Import Prelude Text Primitives FrameMac.

(** ** The signature scheme *)

Definition SEED_LEN : Z := 32.
Definition VERIFYING_KEY_LEN : Z := 1952.
Definition SIGNATURE_LEN : Z := 3309.

Inductive SignError := SigBadLength | SigInvalid | NotMlDsa.

Class MlDsa := {
  SigningKey : Type;
  dsa_from_seed : bytes -> SigningKey;
  (** [from_pkcs8_der]: [None] when the key is not an ML-DSA-65 seed. *)
  dsa_from_pkcs8 : bytes -> option SigningKey;
  dsa_verifying_key : SigningKey -> bytes;
  dsa_sign : SigningKey -> bytes -> bytes;
  (** Decoding the signature and verifying it. *)
  dsa_verify : bytes -> bytes -> bytes -> bool;
  dsa_vk_length : forall sk, zlen (dsa_verifying_key sk) = 1952;
  dsa_sign_length : forall sk m, zlen (dsa_sign sk m) = 3309;
  dsa_sign_wf : forall sk m, wf_bytes (dsa_sign sk m);
  dsa_correct : forall sk m, dsa_verify (dsa_verifying_key sk) m (dsa_sign sk m) = true;
}.

Section Sign.
Context `{MlDsa}.

(** [MlDsa65Signer]: the key of a node certificate. *)
Definition signer_from_pkcs8_der (der : bytes) : res SignError SigningKey :=
  match dsa_from_pkcs8 der with Some sk => Ok sk | None => Err NotMlDsa end.

Definition signing_key_from_seed (seed : bytes) : res SignError SigningKey :=
  if zlen seed =? SEED_LEN then Ok (dsa_from_seed seed) else Err SigBadLength.

Definition sign (secret_seed msg : bytes) : res SignError bytes :=
  let* sk := signing_key_from_seed secret_seed in Ok (dsa_sign sk msg).

Definition verify (verifying_key msg sig : bytes) : res SignError unit :=
  if negb (zlen verifying_key =? VERIFYING_KEY_LEN) then Err SigBadLength else
  if negb (zlen sig =? SIGNATURE_LEN) then Err SigBadLength else
  if dsa_verify verifying_key msg sig then Ok tt else Err SigInvalid.
End Sign.

(** ** The message of a handshake *)

(** b"QKCINIT", b"QKCRESP", b"QKCRESYNC", b"QKCNOTIFY". *)
Definition TAG_INIT : bytes := as_bytes "QKCINIT".
Definition TAG_RESP : bytes := as_bytes "QKCRESP".
Definition TAG_RESYNC : bytes := as_bytes "QKCRESYNC".
Definition TAG_NOTIFY : bytes := as_bytes "QKCNOTIFY".

(** [(x.len() as u16).to_be_bytes()] and [x]: the cast truncates. *)
Definition lp16_cast (x : bytes) : bytes := be_bytes 2 (as_u 16 (zlen x)) ++ x.

Record HsFields := mkHf {
  hf_tag : bytes;
  hf_epoch : Z;
  hf_sender : Z;
  hf_receiver : Z;
  hf_blob : bytes;
  hf_suite : string;
  hf_key_size_bits : Z;
}.

(** [pqc_sign::canonical_msg]. *)
Definition canonical_msg (f : HsFields) : bytes :=
  hf_tag f ++ be_bytes 4 (hf_epoch f) ++ be_bytes 4 (hf_sender f) ++ be_bytes 4 (hf_receiver f)
  ++ be_bytes 2 (as_u 16 (zlen (hf_blob f))) ++ hf_blob f
  ++ be_bytes 2 (as_u 16 (zlen (as_bytes (hf_suite f)))) ++ as_bytes (hf_suite f)
  ++ be_bytes 4 (hf_key_size_bits f).

(** [link_mac::build]: what is fed to the HMAC, in the order of the [update]s. *)
Definition mac_input (f : HsFields) : bytes :=
  (((((hf_tag f ++ be_bytes 4 (hf_epoch f)) ++ be_bytes 4 (hf_sender f)) ++ be_bytes 4 (hf_receiver f))
    ++ lp16_cast (hf_blob f)) ++ lp16_cast (as_bytes (hf_suite f))) ++ be_bytes 4 (hf_key_size_bits f).

Section HandshakeAuth.
Context `{MlDsa} `{MacCrypto}.

Definition sign_handshake (seed : bytes) (f : HsFields) : res SignError bytes := sign seed (canonical_msg f).
Definition sign_handshake_with (signer : SigningKey) (f : HsFields) : bytes := dsa_sign signer (canonical_msg f).
Definition verify_handshake (vk : bytes) (f : HsFields) (sig : bytes) : res SignError unit :=
  verify vk (canonical_msg f) sig.

Definition link_tag (psk : bytes) (f : HsFields) : bytes := hmac_sha256 psk (mac_input f).
(** [verify_slice] refuses a tag of another length. *)
Definition link_verify (psk : bytes) (f : HsFields) (mac : bytes) : res MacError unit :=
  if bool_decide (hmac_sha256 psk (mac_input f) = mac) then Ok tt else Err MacInvalid.
End HandshakeAuth.

(** ** The announcement of an onion router's key *)

Definition TAG_ORR_PUBKEY : bytes := as_bytes "ORRPUBKEY".

Definition announcement_msg (orr_id suite : string) (public_key : bytes) : bytes :=
  TAG_ORR_PUBKEY ++ be_bytes 2 (as_u 16 (zlen (as_bytes orr_id))) ++ as_bytes orr_id
  ++ be_bytes 2 (as_u 16 (zlen (as_bytes suite))) ++ as_bytes suite
  ++ be_bytes 2 (as_u 16 (zlen public_key)) ++ public_key.

Section Announcement.
Context `{MlDsa}.
Definition sign_orr_pubkey (seed : bytes) (orr_id suite : string) (pk : bytes) : res SignError bytes :=
  sign seed (announcement_msg orr_id suite pk).
Definition sign_orr_pubkey_with (signer : SigningKey) (orr_id suite : string) (pk : bytes) : bytes :=
  dsa_sign signer (announcement_msg orr_id suite pk).
Definition verify_orr_pubkey (vk : bytes) (orr_id suite : string) (pk sig : bytes) : res SignError unit :=
  verify vk (announcement_msg orr_id suite pk) sig.
End Announcement.

(** ** Node certificates *)

(** What x509-parser and webpki answer about DER bytes. *)
Class X509 := {
  (** The URIs of the subject alternative names, in order; [None]: not a certificate. *)
  x509_uris : bytes -> option (list string);
  x509_spki : bytes -> option bytes;
  (** The leaf parses, the roots are anchors, and the leaf chains to one of them
      through the intermediates, valid at the time, for client authentication. *)
  webpki_verify : bytes -> list bytes -> list bytes -> Z -> bool;
}.

Definition NODE_URI_SCHEME : string := "dkms://".

Fixpoint strip_prefix (p s : string) : option string :=
  match p, s with
  | EmptyString, _ => Some s
  | String a p, String b s => if Ascii.eqb a b then strip_prefix p s else None
  | String _ _, EmptyString => None
  end.

Definition ascii_lower (c : ascii) : ascii :=
  let n := N_of_ascii c in
  if ((65 <=? n) && (n <=? 90))%N then ascii_of_N (n + 32) else c.

Fixpoint to_ascii_lowercase (s : string) : string :=
  match s with
  | EmptyString => EmptyString
  | String c s => String (ascii_lower c) (to_ascii_lowercase s)
  end.

(** The first URI of the scheme whose rest is not empty. *)
Fixpoint first_node_uri (uris : list string) : option string :=
  match uris with
  | [] => None
  | u :: uris =>
      match strip_prefix NODE_URI_SCHEME u with
      | Some (String _ _ as id) => Some (to_ascii_lowercase id)
      | _ => first_node_uri uris
      end
  end.

Section Certificates.
Context `{X509}.

Definition node_id_from_cert (der : bytes) : option string := x509_uris der ≫= first_node_uri.

Definition node_id_from_certs (certs : list bytes) : option string := head certs ≫= node_id_from_cert.

Definition spki_public_key (der : bytes) : option bytes := x509_spki der.

(** [None] stands for the error texts. *)
Definition verify_node_cert (now : Z) (chain roots : list bytes) (expected_id : string) : option bytes :=
  match chain with
  | [] => None
  | leaf :: rest =>
      if negb (webpki_verify leaf roots rest now) then None else
      match node_id_from_cert leaf with
      | None => None
      | Some id =>
          if bool_decide (id = to_ascii_lowercase expected_id) then spki_public_key leaf else None
      end
  end.
End Certificates.

(** ** What the messages determine *)

Lemma lp16_cast_inj x y s t :
  zlen x <= 65535 -> zlen y <= 65535 -> lp16_cast x ++ s = lp16_cast y ++ t -> x = y /\ s = t.
Proof.
  intros Hx Hy He. apply (lp16_app_inj x y (lp16_cast x) (lp16_cast y)); [| |done].
  - unfold write_lp16. by destruct (Z.leb_spec (zlen x) 65535); [|lia].
  - unfold write_lp16. by destruct (Z.leb_spec (zlen y) 65535); [|lia].
Qed.

Definition known_tag (t : bytes) : Prop := t ∈ [TAG_INIT; TAG_RESP; TAG_RESYNC; TAG_NOTIFY].

(** No tag is a prefix of another followed by anything. *)
Lemma known_tag_inj t u x y : known_tag t -> known_tag u -> t ++ x = u ++ y -> t = u /\ x = y.
Proof.
  unfold known_tag. rewrite !elem_of_cons, !elem_of_nil.
  intros [->|[->|[->|[->|[]]]]] [->|[->|[->|[->|[]]]]] He; try discriminate He.
  all: by apply app_inj_length in He as [_ ->].
Qed.

Record wf_fields (f : HsFields) : Prop := {
  wh_tag : known_tag (hf_tag f);
  wh_epoch : is_u 32 (hf_epoch f);
  wh_sender : is_u 32 (hf_sender f);
  wh_receiver : is_u 32 (hf_receiver f);
  wh_bits : is_u 32 (hf_key_size_bits f);
  wh_blob : zlen (hf_blob f) <= 65535;
  wh_suite : zlen (as_bytes (hf_suite f)) <= 65535;
}.

(** A MAC and a signature of the same fields cover the same bytes. *)
Lemma mac_input_canonical f : mac_input f = canonical_msg f.
Proof. unfold mac_input, canonical_msg, lp16_cast. by rewrite <- !app_assoc. Qed.

Lemma canonical_msg_inj (f g : HsFields) :
  wf_fields f -> wf_fields g -> canonical_msg f = canonical_msg g -> f = g.
Proof.
  intros [] [] He. rewrite <- !mac_input_canonical in He. destruct f as [tg e s r b su k], g as [tg' e' s' r' b' su' k'].
  unfold mac_input in He. cbn [hf_tag hf_epoch hf_sender hf_receiver hf_blob hf_suite hf_key_size_bits] in *.
  rewrite <- !app_assoc in He. ufold.
  apply known_tag_inj in He as [-> He]; [|done..].
  do 3 (apply be_app_inj in He as [-> He]; [|simpl; lia..]).
  do 2 (apply lp16_cast_inj in He as [? He]; [|done..]).
  apply be_bytes_inj in He as ->; [|simpl; lia..].
  match goal with E : as_bytes _ = as_bytes _ |- _ => apply as_bytes_inj in E as -> end. by subst.
Qed.

Lemma announcement_msg_inj id id' su su' pk pk' :
  zlen (as_bytes id) <= 65535 -> zlen (as_bytes id') <= 65535 ->
  zlen (as_bytes su) <= 65535 -> zlen (as_bytes su') <= 65535 ->
  announcement_msg id su pk = announcement_msg id' su' pk' -> id = id' /\ su = su' /\ pk = pk'.
Proof.
  intros ???? He. unfold announcement_msg in He. apply app_inj_length in He as [_ He]; [|done].
  assert (Hf : forall i s p, be_bytes 2 (as_u 16 (zlen (as_bytes i))) ++ as_bytes i
      ++ be_bytes 2 (as_u 16 (zlen (as_bytes s))) ++ as_bytes s ++ p
    = lp16_cast (as_bytes i) ++ lp16_cast (as_bytes s) ++ p)
    by (intros; unfold lp16_cast; by rewrite <- !app_assoc).
  rewrite !Hf in He.
  do 2 (apply lp16_cast_inj in He as [->%as_bytes_inj He]; [|done..]).
  apply app_inj_length in He as [_ ->]; [done|]. by rewrite !length_be_bytes.
Qed.

Section Verify.
Context `{MlDsa}.

Lemma verify_signed (sk : SigningKey) (m : bytes) : verify (dsa_verifying_key sk) m (dsa_sign sk m) = Ok tt.
Proof. unfold verify. by rewrite dsa_vk_length, dsa_sign_length, dsa_correct. Qed.

Lemma signed_with_seed seed m sig : sign seed m = Ok sig ->
  sig = dsa_sign (dsa_from_seed seed) m /\ zlen sig = SIGNATURE_LEN.
Proof.
  unfold sign, signing_key_from_seed. destruct (zlen seed =? SEED_LEN); cbn [res_bind]; intros [= <-].
  split; [done|apply dsa_sign_length].
Qed.

Lemma verify_ok vk m sig : verify vk m sig = Ok tt -> dsa_verify vk m sig = true /\ zlen sig = SIGNATURE_LEN.
Proof.
  unfold verify. repeat case_match; intros; try done. split; [done|]. 
  by match goal with E : negb (zlen sig =? _) = false |- _ => apply negb_false_iff, Z.eqb_eq in E end.
Qed.
End Verify.

(** A chain is accepted for the node its leaf names, and for no other. *)
Lemma verify_node_cert_names `{X509} now leaf rest roots id vk :
  verify_node_cert now (leaf :: rest) roots id = Some vk ->
  node_id_from_cert leaf = Some (to_ascii_lowercase id) /\ spki_public_key leaf = Some vk
  /\ webpki_verify leaf roots rest now = true.
Proof.
  unfold verify_node_cert. destruct (webpki_verify leaf roots rest now); cbn [negb]; [|done].
  destruct (node_id_from_cert leaf) as [i|]; [|done]. case_bool_decide; [subst|done]. by intros ->.
Qed.

(** ** Concrete instances *)

Definition toy_dsa_sig (vk m : bytes) : bytes := pad 3309 (vk ++ [le_val m; zlen m]).

#[export] Instance toy_dsa : MlDsa.
Proof.
  refine {| SigningKey := bytes; dsa_from_seed s := s; dsa_from_pkcs8 d := Some d;
            dsa_verifying_key s := pad 1952 s; dsa_sign s m := toy_dsa_sig (pad 1952 s) m;
            dsa_verify vk m sig := bool_decide (sig = toy_dsa_sig vk m) |}.
  - intros. by apply zlen_pad.
  - intros. by apply zlen_pad.
  - intros. apply pad_wf.
  - intros. by apply bool_decide_eq_true_2.
Defined.

(** A certificate that is the ASCII text of its URI, one byte of key after it. *)
#[export] Instance toy_x509 : X509 := {|
  x509_uris der := Some [of_bytes (drop 1 der)];
  x509_spki der := Some (pad 1952 (take 1 der));
  webpki_verify leaf roots rest now := bool_decide (rest = roots);
|}.
