(* ===== verification/Handshake.v ===== *)
(** * The handshake of a PQC link (qkc/src/pqc_handshake.rs)

    Two neighbours agree on one 32-byte secret per epoch.  The end with the lower
    id is the initiator: it generates a key pair per epoch and resends its INIT
    until the secret is there; the other end encapsulates, keeps the ciphertext it
    answered for that key, and repeats it when the INIT comes again.

    [PqcHandshake] is the state of one end.  The handlers ([handle_init],
    [handle_resp], [handle_resync_request]) are functions of a payload; the task
    that [spawn_rotation] starts at the initiator is a machine: [RotPc] says where
    in the task it is (idle in the [select!], about to call [establish], or in the
    loop of [establish]) and [rotation_do] is one step of it.  The clock and the
    random seeds are arguments.  The frames handed to the outgoing queue are part
    of the answer; the counters that only feed log lines are left out. *)

From Stdlib Require Import ZArith Lia String.
From S2P Require Import Prelude Text Wire Primitives FrameMac QkcTypes SecretStore Signing.

(** Times in milliseconds. *)
Definition INIT_RETRY : Z := 300.
Definition RELINK_MIN_INTERVAL : Z := 5000.
Definition MAX_RESYNC_JUMP : Z := 1024.
Definition ESTABLISH_TIMEOUT : Z := 60000.
Definition ESTABLISH_RETRY : Z := 30000.

(** ** Messages *)

Inductive PqcAuth := PqcOff | PqcPrefer | PqcRequire | PqcSign.
#[export] Instance PqcAuth_eq_dec : EqDecision PqcAuth.
Proof. solve_decision. Defined.

Inductive HsMsg := MInit | MResp | MResyncReq.
#[export] Instance HsMsg_eq_dec : EqDecision HsMsg.
Proof. solve_decision. Defined.

Inductive RecvAuth := Plain | Hmac | Signed.

Definition msg_kinds (m : HsMsg) : Z * Z * Z :=
  match m with
  | MInit => (FRAME_PQC_KEM_INIT, FRAME_PQC_KEM_INIT_AUTH, FRAME_PQC_KEM_INIT_SIGNED)
  | MResp => (FRAME_PQC_KEM_RESP, FRAME_PQC_KEM_RESP_AUTH, FRAME_PQC_KEM_RESP_SIGNED)
  | MResyncReq => (FRAME_PQC_RESYNC_REQ, FRAME_PQC_RESYNC_REQ_AUTH, FRAME_PQC_RESYNC_REQ_SIGNED)
  end.

Definition msg_tag (m : HsMsg) : bytes :=
  match m with MInit => TAG_INIT | MResp => TAG_RESP | MResyncReq => TAG_RESYNC end.

(** The arms of the connection loop that lead to the handshake. *)
Definition recv_kind (kind : Z) : option (HsMsg * RecvAuth) :=
  if kind =? FRAME_PQC_KEM_INIT then Some (MInit, Plain) else
  if kind =? FRAME_PQC_KEM_RESP then Some (MResp, Plain) else
  if kind =? FRAME_PQC_KEM_INIT_AUTH then Some (MInit, Hmac) else
  if kind =? FRAME_PQC_KEM_RESP_AUTH then Some (MResp, Hmac) else
  if kind =? FRAME_PQC_KEM_INIT_SIGNED then Some (MInit, Signed) else
  if kind =? FRAME_PQC_KEM_RESP_SIGNED then Some (MResp, Signed) else
  if kind =? FRAME_PQC_RESYNC_REQ then Some (MResyncReq, Plain) else
  if kind =? FRAME_PQC_RESYNC_REQ_AUTH then Some (MResyncReq, Hmac) else
  if kind =? FRAME_PQC_RESYNC_REQ_SIGNED then Some (MResyncReq, Signed) else None.

(** [u16(n)], then a [u32] length and the DER of each certificate. *)
Definition encode_cert_chain (chain : list bytes) : bytes :=
  be_bytes 2 (as_u 16 (zlen chain)) ++ concat (map (fun c => be_bytes 4 (as_u 32 (zlen c)) ++ c) chain).

Fixpoint split_certs (n : nat) (rest : bytes) : option (list bytes * bytes) :=
  match n with
  | O => Some ([], rest)
  | S n =>
      if zlen rest <? 4 then None else
      let len := be_val (take 4 rest) in
      let tail := drop 4 rest in
      if zlen tail <? len then None else
      '(chain, rest) ← split_certs n (drop (Z.to_nat len) tail);
      Some (take (Z.to_nat len) tail :: chain, rest)
  end.

Definition split_cert_chain (buf : bytes) : option (list bytes * bytes) :=
  if zlen buf <? 2 then None else split_certs (Z.to_nat (be_val (take 2 buf))) (drop 2 buf).

Definition split_epoch (payload : bytes) : option (Z * bytes) :=
  if zlen payload <? 4 then None else Some (be_val (take 4 payload), drop 4 payload).

Section Handshake.
Context `{MacCrypto} `{MlKem} `{MlDsa} `{X509}.

Record SignIdentity := mkSignId { si_signer : SigningKey; si_chain : list bytes; si_roots : list bytes }.

(** The fields of [PqcHandshake] that never change. *)
Record HsCfg := mkHsCfg {
  hc_suite : string;
  hc_my_id : Z;
  hc_peer_id : Z;
  hc_lookahead : Z;
  hc_psk : option bytes;
  hc_sign_seed : option bytes;
  hc_peer_verify_key : option bytes;
  hc_cert_id : option SignIdentity;
  hc_auth : PqcAuth;
  hc_key_size_bits : Z;
}.

(** [format!("qkc-{peer_id}")]. *)
Definition peer_cert_id (c : HsCfg) : string := String.append "qkc-" (to_string (hc_peer_id c)).

Definition hmac_active (c : HsCfg) : bool :=
  match hc_psk c, hc_auth c with
  | Some _, (PqcPrefer | PqcRequire) => true
  | _, _ => false
  end.

Definition is_initiator (c : HsCfg) : bool := hc_my_id c <? hc_peer_id c.

(** The fields a MAC or a signature of this end covers; at reception the ids are swapped. *)
Definition sent_fields (c : HsCfg) (m : HsMsg) (epoch : Z) (blob : bytes) : HsFields :=
  mkHf (msg_tag m) epoch (hc_my_id c) (hc_peer_id c) blob (hc_suite c) (hc_key_size_bits c).
Definition recv_fields (c : HsCfg) (m : HsMsg) (epoch : Z) (blob : bytes) : HsFields :=
  mkHf (msg_tag m) epoch (hc_peer_id c) (hc_my_id c) blob (hc_suite c) (hc_key_size_bits c).

Definition signed_parts (c : HsCfg) (f : HsFields) : option (bytes * bytes) :=
  match hc_cert_id c, hc_sign_seed c with
  | Some id, _ => Some (encode_cert_chain (si_chain id), sign_handshake_with (si_signer id) f)
  | None, Some seed =>
      match sign_handshake seed f with Ok sig => Some (encode_cert_chain [], sig) | _ => None end
  | None, None => None
  end.

(** The kind and the payload of [send_handshake]. *)
Definition handshake_payload (c : HsCfg) (m : HsMsg) (epoch : Z) (blob : bytes) : Z * bytes :=
  let '(plain, hmac_kind, signed_kind) := msg_kinds m in
  let payload := be_bytes 4 epoch ++ blob in
  let f := sent_fields c m epoch blob in
  if bool_decide (hc_auth c = PqcSign) then
    match signed_parts c f with
    | Some (chain, sig) => (signed_kind, be_bytes 4 epoch ++ chain ++ blob ++ sig)
    | None => (plain, payload)
    end
  else
    match hc_psk c with
    | Some psk => if hmac_active c then (hmac_kind, payload ++ link_tag psk f) else (plain, payload)
    | None => (plain, payload)
    end.

Definition send_handshake (c : HsCfg) (m : HsMsg) (epoch : Z) (blob : bytes) : Frame :=
  let '(kind, payload) := handshake_payload c m epoch blob in
  mkFrame kind 0 (hc_my_id c) (hc_peer_id c) (hc_peer_id c) 0 0 [] [] [] payload.

(** The key the signature of a received handshake is verified with. *)
Definition signed_key (now : Z) (c : HsCfg) (chain : list bytes) : option bytes :=
  match chain with
  | [] => hc_peer_verify_key c
  | _ => id ← hc_cert_id c; verify_node_cert now chain (si_roots id) (peer_cert_id c)
  end.

Definition accept (now : Z) (c : HsCfg) (m : HsMsg) (payload : bytes) (recv : RecvAuth) : option (Z * bytes) :=
  match recv with
  | Signed =>
      if zlen payload <? 4 + SIGNATURE_LEN then None else
      let n := (length payload - Z.to_nat SIGNATURE_LEN)%nat in
      '(epoch, after_epoch) ← split_epoch (take n payload);
      '(chain, blob) ← split_cert_chain after_epoch;
      vk ← signed_key now c chain;
      if is_ok (verify_handshake vk (recv_fields c m epoch blob) (drop n payload)) then Some (epoch, blob) else None
  | Hmac =>
      psk ← hc_psk c;
      if zlen payload <? 4 + TAG_LEN then None else
      let n := (length payload - Z.to_nat TAG_LEN)%nat in
      '(epoch, blob) ← split_epoch (take n payload);
      if is_ok (link_verify psk (recv_fields c m epoch blob) (drop n payload)) then Some (epoch, blob) else None
  | Plain =>
      if bool_decide (hc_auth c = PqcSign)
         || (bool_decide (hc_auth c = PqcRequire) && bool_decide (is_Some (hc_psk c))) then None
      else split_epoch payload
  end.

(** ** State *)

Record PqcHandshake := mkHs {
  hs_cfg : HsCfg;
  hs_store : SecretStore;
  hs_pending_sk : gmap Z bytes;
  hs_pending_pk : gmap Z bytes;
  hs_resp_cache : gmap Z (bytes * bytes);
  hs_last_relink : option Z;
  hs_last_resync_req : option Z;
}.

Definition hs_new (c : HsCfg) (store : SecretStore) : PqcHandshake := mkHs c store ∅ ∅ ∅ None None.

Definition with_store (st : SecretStore) (h : PqcHandshake) : PqcHandshake :=
  mkHs (hs_cfg h) st (hs_pending_sk h) (hs_pending_pk h) (hs_resp_cache h) (hs_last_relink h) (hs_last_resync_req h).
Definition with_keys (sk pk : gmap Z bytes) (h : PqcHandshake) : PqcHandshake :=
  mkHs (hs_cfg h) (hs_store h) sk pk (hs_resp_cache h) (hs_last_relink h) (hs_last_resync_req h).
Definition with_cache (rc : gmap Z (bytes * bytes)) (h : PqcHandshake) : PqcHandshake :=
  mkHs (hs_cfg h) (hs_store h) (hs_pending_sk h) (hs_pending_pk h) rc (hs_last_relink h) (hs_last_resync_req h).
Definition with_relink (t : option Z) (h : PqcHandshake) : PqcHandshake :=
  mkHs (hs_cfg h) (hs_store h) (hs_pending_sk h) (hs_pending_pk h) (hs_resp_cache h) t (hs_last_resync_req h).
Definition with_resync_req (t : option Z) (h : PqcHandshake) : PqcHandshake :=
  mkHs (hs_cfg h) (hs_store h) (hs_pending_sk h) (hs_pending_pk h) (hs_resp_cache h) (hs_last_relink h) t.

Definition publish_inner (epoch : Z) (ss : bytes) (replace : bool) (h : PqcHandshake) : PqcHandshake :=
  if negb (zlen ss =? 32) then h else
  with_store (if replace then ss_replace (hs_store h) epoch ss else ss_insert (hs_store h) epoch ss) h.

(** ** Handlers *)

(** Encapsulate to the key of an INIT, publish the secret, cache and answer the ciphertext. *)
Definition init_encap (seed : bytes) (h : PqcHandshake) (epoch : Z) (peer_pubkey : bytes) (stale : bool)
  : PqcHandshake * list Frame :=
  let c := hs_cfg h in
  match kem_for (hc_suite c) with
  | Ok k =>
      match encap k peer_pubkey seed with
      | Ok e =>
          let h := publish_inner epoch (ke_shared_secret e) stale h in
          (with_cache (<[epoch := (peer_pubkey, ke_ciphertext e)]> (hs_resp_cache h)) h,
           [send_handshake c MResp epoch (ke_ciphertext e)])
      | _ => (h, [])
      end
  | _ => (h, [])
  end.

Definition handle_init (now : Z) (seed : bytes) (h : PqcHandshake) (payload : bytes) (recv : RecvAuth)
  : PqcHandshake * list Frame :=
  match accept now (hs_cfg h) MInit payload recv with
  | None => (h, [])
  | Some (epoch, peer_pubkey) =>
      match hs_resp_cache h !! epoch with
      | Some (pk, ct) =>
          if bool_decide (pk = peer_pubkey) then (h, [send_handshake (hs_cfg h) MResp epoch ct])
          else init_encap seed h epoch peer_pubkey true
      | None => init_encap seed h epoch peer_pubkey false
      end
  end.

Definition handle_resp (now : Z) (h : PqcHandshake) (payload : bytes) (recv : RecvAuth) : PqcHandshake :=
  match accept now (hs_cfg h) MResp payload recv with
  | None => h
  | Some (epoch, ciphertext) =>
      if ss_contains (hs_store h) epoch then h else
      match hs_pending_sk h !! epoch with
      | None => h
      | Some sk =>
          match kem_for (hc_suite (hs_cfg h)) with
          | Ok k => match decap k sk ciphertext with Ok ss => publish_inner epoch ss false h | _ => h end
          | _ => h
          end
      end
  end.

Definition handle_resync_request (now : Z) (h : PqcHandshake) (payload : bytes) (recv : RecvAuth) : PqcHandshake :=
  match accept now (hs_cfg h) MResyncReq payload recv with
  | None => h
  | Some (peer_epoch, _) =>
      if negb (is_initiator (hs_cfg h)) then h
      else with_store (request_resync (hs_store h) (Z.max peer_epoch 1)) h
  end.

(** A frame that reached the link of its sender. *)
Definition handle_pqc (now : Z) (seed : bytes) (h : PqcHandshake) (f : Frame) : PqcHandshake * list Frame :=
  match recv_kind (kind f) with
  | Some (MInit, recv) => handle_init now seed h (payload f) recv
  | Some (MResp, recv) => (handle_resp now h (payload f) recv, [])
  | Some (MResyncReq, recv) => (handle_resync_request now h (payload f) recv, [])
  | None => (h, [])
  end.

(** One turn of the loop of the responder: [resync_requested] answered, and the
    request is sent unless the last one is too recent. *)
Definition resync_loop (now : Z) (h : PqcHandshake) : PqcHandshake * list Frame :=
  let '(st, r) := resync_requested (hs_store h) in
  match r with
  | None => (h, [])
  | Some _ =>
      let h := with_store st h in
      let mine := default 0 (ss_highest st) in
      let recent := match hs_last_resync_req h with Some prev => now - prev <? RELINK_MIN_INTERVAL | None => false end in
      if recent then (h, [])
      else (with_resync_req (Some now) h, [send_handshake (hs_cfg h) MResyncReq mine []])
  end.

(** ** The rotation task of the initiator *)

(** [base] and [aim] of a re-link. *)
Definition resync_base (highest : option Z) (peer_epoch lookahead : Z) : Z * Z :=
  let mine := match highest with Some h => sat_add 32 h 1 | None => 0 end in
  let ceiling := sat_add 32 mine MAX_RESYNC_JUMP in
  let base := Z.min (Z.max mine (sat_add 32 peer_epoch 1)) ceiling in
  (base, sat_add 32 base lookahead).

Definition hs_prune_below (base : Z) (h : PqcHandshake) : PqcHandshake :=
  let above {A} (m : gmap Z A) := filter (fun p => base <= p.1) m in
  mkHs (hs_cfg h) (fst (prune_below (hs_store h) base)) (above (hs_pending_sk h)) (above (hs_pending_pk h))
    (above (hs_resp_cache h)) (hs_last_relink h) (hs_last_resync_req h).

(** Who called [establish]: the initial loop up to the lookahead,
    [establish_up_to] the target, or a re-link of [base..=aim]. *)
Inductive Caller := CStart | CUpTo | CRelink (base aim : Z).

Inductive RotPc :=
  | RIdle
  | RCall (who : Caller) (epoch : Z)
  | RWait (who : Caller) (epoch : Z) (pubkey : bytes) (started : Z).

(** The variables of the task. *)
Record Rotation := mkRot {
  rt_target : Z;
  rt_need_work : bool;
  rt_prune_after : option Z;
  rt_retry_at : Z;
  rt_pc : RotPc;
}.

Definition rotation_new (now : Z) (c : HsCfg) : Rotation :=
  mkRot (hc_lookahead c) true None now (RCall CStart 0).

Definition with_pc (pc : RotPc) (r : Rotation) : Rotation :=
  mkRot (rt_target r) (rt_need_work r) (rt_prune_after r) (rt_retry_at r) pc.

(** The last epoch of the loop that called [establish]. *)
Definition loop_end (c : HsCfg) (r : Rotation) (who : Caller) : Z :=
  match who with CStart => hc_lookahead c | CUpTo => rt_target r | CRelink _ aim => aim end.

(** The loop finished: every epoch was established. *)
Definition loop_complete (who : Caller) (h : PqcHandshake) (r : Rotation) : PqcHandshake * Rotation :=
  match who with
  | CStart => (h, with_pc RIdle r)
  | CUpTo =>
      (match rt_prune_after r with Some base => hs_prune_below base h | None => h end,
       mkRot (rt_target r) false None (rt_retry_at r) RIdle)
  | CRelink base aim =>
      (hs_prune_below base h, mkRot (Z.max (rt_target r) aim) (rt_need_work r) (rt_prune_after r) (rt_retry_at r) RIdle)
  end.

(** [establish] answered [false]. *)
Definition loop_failed (now : Z) (c : HsCfg) (who : Caller) (r : Rotation) : Rotation :=
  let later := now + ESTABLISH_RETRY in
  match who with
  | CStart | CUpTo => mkRot (rt_target r) (rt_need_work r) (rt_prune_after r) later RIdle
  | CRelink base aim =>
      mkRot (Z.max (rt_target r) aim) true (Some (sat_sub aim (hc_lookahead c))) later RIdle
  end.

(** [establish] answered [true] for [epoch]. *)
Definition loop_next (who : Caller) (epoch : Z) (h : PqcHandshake) (r : Rotation) : PqcHandshake * Rotation :=
  let r := match who with
           | CStart => mkRot (rt_target r) false (rt_prune_after r) (rt_retry_at r) (rt_pc r)
           | _ => r end in
  if epoch <? loop_end (hs_cfg h) r who then (h, with_pc (RCall who (epoch + 1)) r) else loop_complete who h r.

(** The entry of [establish]. *)
Definition establish_enter (now : Z) (seed : bytes) (who : Caller) (epoch : Z) (h : PqcHandshake) (r : Rotation)
  : PqcHandshake * Rotation :=
  if ss_contains (hs_store h) epoch then loop_next who epoch h r else
  let reuse := match hs_pending_sk h !! epoch with Some _ => hs_pending_pk h !! epoch | None => None end in
  match reuse with
  | Some pk => (h, with_pc (RWait who epoch pk now) r)
  | None =>
      match kem_for (hc_suite (hs_cfg h)) with
      | Ok k =>
          let kp := keygen k seed in
          (with_keys (<[epoch := kp_secret kp]> (hs_pending_sk h)) (<[epoch := kp_public kp]> (hs_pending_pk h)) h,
           with_pc (RWait who epoch (kp_public kp) now) r)
      | _ => (h, loop_failed now (hs_cfg h) who r)
      end
  end.

(** One turn of the loop of [establish]. *)
Definition establish_turn (now : Z) (who : Caller) (epoch : Z) (pk : bytes) (started : Z)
  (h : PqcHandshake) (r : Rotation) : PqcHandshake * Rotation * list Frame :=
  if ss_contains (hs_store h) epoch then
    let h := with_keys (delete epoch (hs_pending_sk h)) (delete epoch (hs_pending_pk h)) h in
    (loop_next who epoch h r, [])
  else if ESTABLISH_TIMEOUT <=? now - started then (h, loop_failed now (hs_cfg h) who r, [])
  else (h, r, [send_handshake (hs_cfg h) MInit epoch pk]).

(** [relink]: refused too soon after the last one and when the epochs are used up. *)
Definition relink (now peer_epoch : Z) (h : PqcHandshake) (r : Rotation) : PqcHandshake * Rotation :=
  let recent := match hs_last_relink h with Some prev => now - prev <? RELINK_MIN_INTERVAL | None => false end in
  if recent then (h, r) else
  let h := with_relink (Some now) h in
  let '(base, aim) := resync_base (ss_highest (hs_store h)) peer_epoch (hc_lookahead (hs_cfg h)) in
  if aim =? u_max 32 then (h, r) else (h, with_pc (RCall (CRelink base aim) base) r).

Inductive RotEvent :=
  | EvRun        (* the task runs on: [establish] is entered or takes a turn *)
  | EvRetry      (* the retry timer fired *)
  | EvRotate     (* the rekey clock fired *)
  | EvReconnect  (* the connection to the peer came back *)
  | EvResync.    (* [resync_requested] *)

Definition up_to_start (h : PqcHandshake) (r : Rotation) : PqcHandshake * Rotation :=
  let from := match ss_highest (hs_store h) with Some hi => sat_add 32 hi 1 | None => 0 end in
  if from <=? rt_target r then (h, with_pc (RCall CUpTo from) r) else loop_complete CUpTo h r.

Definition rotation_do (now : Z) (seed : bytes) (ev : RotEvent) (h : PqcHandshake) (r : Rotation)
  : PqcHandshake * Rotation * list Frame :=
  match rt_pc r, ev with
  | RCall who epoch, EvRun => (establish_enter now seed who epoch h r, [])
  | RWait who epoch pk started, EvRun => establish_turn now who epoch pk started h r
  | RIdle, EvRetry =>
      if rt_need_work r && (rt_retry_at r <=? now) then (up_to_start h r, []) else (h, r, [])
  | RIdle, EvRotate =>
      let next := match ss_highest (hs_store h) with Some hi => sat_add 32 hi 1 | None => rt_target r end in
      (h, mkRot (Z.max (rt_target r) next) true (rt_prune_after r) now RIdle, [])
  | RIdle, EvReconnect => (relink now 0 h r, [])
  | RIdle, EvResync =>
      let '(st, e) := resync_requested (hs_store h) in
      match e with Some pe => (relink now pe (with_store st h) r, []) | None => (h, r, []) end
  | _, _ => (h, r, [])
  end.

(** ** Codecs *)

Lemma be_val_be_app n z rest : 0 <= z < 256 ^ Z.of_nat n -> be_val (take n (be_bytes n z ++ rest)) = z.
Proof. intros Hz. rewrite take_app_length' by (by rewrite length_be_bytes). by apply be_val_be_bytes. Qed.

Lemma drop_be_app n z (rest : bytes) : drop n (be_bytes n z ++ rest) = rest.
Proof. by rewrite drop_app_length' by (by rewrite length_be_bytes). Qed.

Definition chain_ok (chain : list bytes) : Prop := zlen chain < 2 ^ 16 /\ Forall (fun c => zlen c < 2 ^ 32) chain.

Lemma split_certs_encode chain rest : Forall (fun c => zlen c < 2 ^ 32) chain ->
  split_certs (length chain) (concat (map (fun c => be_bytes 4 (as_u 32 (zlen c)) ++ c) chain) ++ rest) = Some (chain, rest).
Proof.
  induction 1 as [|c chain Hc Hall IH]; [done|]. cbn [length map concat split_certs].
  pose proof (zlen_nonneg c). rewrite as_u_small by (ufold; lia). rewrite <- !app_assoc.
  set (tl := concat _ ++ rest) in *. destruct (Z.ltb_spec (zlen (be_bytes 4 (zlen c) ++ c ++ tl)) 4) as [Hlt|_].
  { zsimp. pose proof (zlen_nonneg tl). lia. }
  rewrite be_val_be_app, drop_be_app by (simpl; lia).
  destruct (Z.ltb_spec (zlen (c ++ tl)) (zlen c)) as [Hlt|_]; [zsimp; pose proof (zlen_nonneg tl); lia|].
  rewrite drop_app_length', take_app_length' by (unfold zlen; lia). by rewrite IH.
Qed.

(** A certificate chain is read back from what precedes the rest of a payload. *)
Lemma split_cert_chain_encode chain rest : chain_ok chain ->
  split_cert_chain (encode_cert_chain chain ++ rest) = Some (chain, rest).
Proof.
  intros [Hn Hall]. unfold split_cert_chain, encode_cert_chain. pose proof (zlen_nonneg chain).
  rewrite as_u_small by (ufold; lia). rewrite <- app_assoc. set (tl := concat _ ++ rest).
  destruct (Z.ltb_spec (zlen (be_bytes 2 (zlen chain) ++ tl)) 2) as [Hlt|_]; [zsimp; pose proof (zlen_nonneg tl); lia|].
  rewrite be_val_be_app, drop_be_app by (simpl; lia). unfold zlen. rewrite Nat2Z.id. by apply split_certs_encode.
Qed.

Lemma split_epoch_encode epoch blob : is_u 32 epoch -> split_epoch (be_bytes 4 epoch ++ blob) = Some (epoch, blob).
Proof.
  intros He. unfold split_epoch. destruct (Z.ltb_spec (zlen (be_bytes 4 epoch ++ blob)) 4) as [Hlt|_].
  { zsimp. pose proof (zlen_nonneg blob). lia. }
  rewrite be_val_be_app, drop_be_app; [done|]. ufold. simpl. lia.
Qed.

(** The two halves of a payload that ends in a tag of known length. *)
Lemma split_tail (n : Z) (body tail : bytes) : zlen tail = n -> 0 <= n ->
  let k := (length (body ++ tail) - Z.to_nat n)%nat in
  take k (body ++ tail) = body /\ drop k (body ++ tail) = tail.
Proof.
  intros Hl Hn k. assert (k = length body) as -> by (unfold k, zlen in *; rewrite length_app; lia).
  split; [apply take_app_length|apply drop_app_length].
Qed.

(** ** What is sent is accepted *)

Definition plain_ok (c : HsCfg) : Prop :=
  hc_auth c <> PqcSign /\ (hc_auth c = PqcRequire -> hc_psk c = None).

(** [d] can verify what [c] sends. *)
Definition auth_matches (now : Z) (c d : HsCfg) : Prop :=
  match hc_auth c, hc_cert_id c, hc_sign_seed c with
  | PqcSign, Some id, _ => chain_ok (si_chain id) /\ si_chain id <> []
      /\ exists id', hc_cert_id d = Some id'
           /\ verify_node_cert now (si_chain id) (si_roots id') (peer_cert_id d) = Some (dsa_verifying_key (si_signer id))
  | PqcSign, None, Some seed => zlen seed = SEED_LEN
      /\ hc_peer_verify_key d = Some (dsa_verifying_key (dsa_from_seed seed))
  | PqcSign, None, None => plain_ok d
  | _, _, _ => if hmac_active c then hc_psk d = hc_psk c else plain_ok d
  end.

Record hears (now : Z) (c d : HsCfg) : Prop := {
  hr_suite : hc_suite d = hc_suite c;
  hr_my : hc_my_id d = hc_peer_id c;
  hr_peer : hc_peer_id d = hc_my_id c;
  hr_bits : hc_key_size_bits d = hc_key_size_bits c;
  hr_auth : auth_matches now c d;
}.

Lemma recv_fields_sent now c d m epoch blob : hears now c d -> recv_fields d m epoch blob = sent_fields c m epoch blob.
Proof. intros [Hs Hm Hp Hb _]. unfold recv_fields, sent_fields. by rewrite Hs, Hm, Hp, Hb. Qed.

Lemma recv_kind_plain m : recv_kind (fst (fst (msg_kinds m))) = Some (m, Plain).
Proof. by destruct m. Qed.
Lemma recv_kind_hmac m : recv_kind (snd (fst (msg_kinds m))) = Some (m, Hmac).
Proof. by destruct m. Qed.
Lemma recv_kind_signed m : recv_kind (snd (msg_kinds m)) = Some (m, Signed).
Proof. by destruct m. Qed.

Lemma accept_plain now d m epoch blob : plain_ok d -> is_u 32 epoch ->
  accept now d m (be_bytes 4 epoch ++ blob) Plain = Some (epoch, blob).
Proof.
  intros [Hs Hr] He. unfold accept. rewrite bool_decide_eq_false_2 by done. cbn [orb].
  destruct (decide (hc_auth d = PqcRequire)) as [E|E].
  - rewrite (Hr E), (bool_decide_eq_false_2 (is_Some None)) by (by intros []). rewrite andb_false_r. by apply split_epoch_encode.
  - rewrite bool_decide_eq_false_2 by done. by apply split_epoch_encode.
Qed.

Lemma accept_hmac now c d psk m epoch blob : hears now c d -> hc_psk d = Some psk -> is_u 32 epoch ->
  accept now d m ((be_bytes 4 epoch ++ blob) ++ link_tag psk (sent_fields c m epoch blob)) Hmac = Some (epoch, blob).
Proof.
  intros Hh Hp He. unfold accept. rewrite Hp. cbn [mbind option_bind].
  set (f := sent_fields c m epoch blob). assert (Hl : zlen (link_tag psk f) = 32) by apply hmac_length.
  destruct (Z.ltb_spec (zlen ((be_bytes 4 epoch ++ blob) ++ link_tag psk f)) (4 + TAG_LEN)) as [Hlt|_].
  { zsimp. rewrite Hl in Hlt. unfold TAG_LEN in Hlt. pose proof (zlen_nonneg blob). lia. }
  destruct (split_tail TAG_LEN (be_bytes 4 epoch ++ blob) (link_tag psk f) Hl ltac:(done)) as [-> ->].
  rewrite split_epoch_encode by done. cbn [mbind option_bind]. rewrite (recv_fields_sent now c d) by done. fold f.
  unfold link_verify. by rewrite bool_decide_eq_true_2.
Qed.

Lemma accept_signed now c d chain sk m epoch blob : hears now c d -> chain_ok chain -> is_u 32 epoch ->
  signed_key now d chain = Some (dsa_verifying_key sk) ->
  accept now d m (be_bytes 4 epoch ++ encode_cert_chain chain ++ blob ++ dsa_sign sk (canonical_msg (sent_fields c m epoch blob))) Signed
  = Some (epoch, blob).
Proof.
  intros Hh Hc He Hk. set (sig := dsa_sign _ _). assert (Hl : zlen sig = 3309) by apply dsa_sign_length.
  replace (be_bytes 4 epoch ++ encode_cert_chain chain ++ blob ++ sig)
    with ((be_bytes 4 epoch ++ encode_cert_chain chain ++ blob) ++ sig) by (by rewrite <- !app_assoc).
  unfold accept. destruct (Z.ltb_spec (zlen ((be_bytes 4 epoch ++ encode_cert_chain chain ++ blob) ++ sig)) (4 + SIGNATURE_LEN)) as [Hlt|_].
  { zsimp. rewrite Hl in Hlt. unfold SIGNATURE_LEN in Hlt. pose proof (zlen_nonneg blob). pose proof (zlen_nonneg (encode_cert_chain chain)). lia. }
  destruct (split_tail SIGNATURE_LEN (be_bytes 4 epoch ++ encode_cert_chain chain ++ blob) sig Hl ltac:(done)) as [-> ->].
  rewrite split_epoch_encode by done. cbn [mbind option_bind]. rewrite split_cert_chain_encode by done. cbn [mbind option_bind].
  rewrite Hk. cbn [mbind option_bind]. rewrite (recv_fields_sent now c d) by done.
  unfold verify_handshake, sig. by rewrite verify_signed.
Qed.

Lemma sent_accepted now c d m epoch blob : hears now c d -> is_u 32 epoch ->
  let f := send_handshake c m epoch blob in
  exists recv, recv_kind (kind f) = Some (m, recv) /\ accept now d m (payload f) recv = Some (epoch, blob).
Proof.
  intros Hh He. unfold send_handshake, handshake_payload. pose proof (hr_auth _ _ _ Hh) as Ha.
  pose proof (recv_kind_plain m) as Kp. pose proof (recv_kind_hmac m) as Kh. pose proof (recv_kind_signed m) as Ks.
  destruct (msg_kinds m) as [[kp kh] ks]. cbn [fst snd] in *. unfold auth_matches in Ha.
  case_bool_decide as Hs.
  - rewrite Hs in Ha. unfold signed_parts. destruct (hc_cert_id c) as [id|].
    { destruct Ha as (Hc & Hne & id' & Hid & Hv). exists Signed. split; [done|].
      apply (accept_signed now c); [done..|]. unfold signed_key. destruct (si_chain id) as [|x l]; [done|].
      rewrite Hid. exact Hv. }
    destruct (hc_sign_seed c) as [seed|]; [|exists Plain; split; [done|by apply accept_plain]].
    destruct Ha as [Hseed Hvk]. unfold sign_handshake, sign, signing_key_from_seed. rewrite Hseed, Z.eqb_refl.
    cbn [res_bind]. exists Signed. split; [done|]. by apply (accept_signed now c d []).
  - assert (Ha' : if hmac_active c then hc_psk d = hc_psk c else plain_ok d) by (by destruct (hc_auth c)).
    clear Ha. destruct (hc_psk c) as [psk|] eqn:Ep.
    + destruct (hmac_active c); [exists Hmac; split; [done|by apply accept_hmac]|exists Plain; split; [done|by apply accept_plain]].
    + assert (hmac_active c = false) as E by (unfold hmac_active; by rewrite Ep). rewrite E in Ha'.
      exists Plain. split; [done|by apply accept_plain].
Qed.

(** What one end of a link sends in the handshake the other end accepts as it
    was meant: whatever the mode (a certificate chain and its signature, a
    signature under a configured key, an HMAC under the key of the link, or in
    the clear), the kind of the frame leads to the handler of the message and
    [accept] gives back the epoch and the body. *)
Theorem handshake_message_accepted (now : Z) (c d : HsCfg) (m : HsMsg) (epoch : Z) (blob : bytes)
  (Hh : hears now c d) (He : is_u 32 epoch) :
  let f := send_handshake c m epoch blob in
  exists recv, recv_kind (kind f) = Some (m, recv) /\ accept now d m (payload f) recv = Some (epoch, blob).
Proof. by apply sent_accepted. Qed.

(** Under a policy that asks for authentication nothing else gets in: a body
    that [accept] returns carries a signature that verifies, under the key
    configured for the neighbour or that of a certificate in its name, or a MAC
    under the key of the link, over exactly that message, epoch, body and the ids
    of the two ends. *)
Theorem accept_fail_closed (now : Z) (d : HsCfg) (m : HsMsg) (p blob : bytes) (recv : RecvAuth) (epoch : Z)
  (Hauth : hc_auth d = PqcSign \/ (hc_auth d = PqcRequire /\ is_Some (hc_psk d)))
  (Ha : accept now d m p recv = Some (epoch, blob)) :
  let msg := canonical_msg (recv_fields d m epoch blob) in
  (exists chain vk sig, signed_key now d chain = Some vk /\ dsa_verify vk msg sig = true)
  \/ (exists psk, hc_psk d = Some psk /\ exists body, p = body ++ hmac_sha256 psk msg).
Proof.
  intros msg. unfold accept in Ha. destruct recv.
  - destruct Hauth as [E|[E Hp]]; [rewrite bool_decide_eq_true_2 in Ha by done; done|].
    rewrite (bool_decide_eq_true_2 (hc_auth d = PqcRequire)), (bool_decide_eq_true_2 (is_Some (hc_psk d))) in Ha by done.
    by rewrite orb_true_r in Ha.
  - right. destruct (hc_psk d) as [psk|]; [|done]. cbn [mbind option_bind] in Ha. exists psk. split; [done|].
    destruct (_ <? _); [done|]. set (n := (length p - _)%nat) in *.
    destruct (split_epoch (take n p)) as [[e b]|]; [|done]. cbn [mbind option_bind] in Ha.
    unfold link_verify in Ha. rewrite mac_input_canonical in Ha.
    case_bool_decide as Hm; [|done]. cbn [is_ok] in Ha. injection Ha as -> ->. exists (take n p). subst msg. rewrite Hm. by rewrite take_drop.
  - left. destruct (_ <? _); [done|]. set (n := (length p - _)%nat) in *.
    destruct (split_epoch (take n p)) as [[e after]|]; [|done]. cbn [mbind option_bind] in Ha.
    destruct (split_cert_chain after) as [[chain b]|]; [|done]. cbn [mbind option_bind] in Ha.
    destruct (signed_key now d chain) as [vk|] eqn:Ek; [|done]. cbn [mbind option_bind] in Ha.
    unfold verify_handshake in Ha. destruct (verify vk _ (drop n p)) as [[]| |] eqn:Ev; cbn [is_ok] in Ha; [|done..].
    injection Ha as -> ->. apply verify_ok in Ev as [Ev _]. by exists chain, vk, (drop n p).
Qed.
End Handshake.

(** ** A concrete link

    Neighbours 1 and 2, each with a certificate of its own. *)

Definition sample_chain (key : Z) (uri : string) : list bytes := [key :: as_bytes uri].
Definition cfg_a : HsCfg := mkHsCfg "ml-kem-512" 1 2 2 None None None
  (Some (mkSignId ([7] : SigningKey) (sample_chain 7 "dkms://qkc-1") [])) PqcSign 1024.
Definition cfg_b : HsCfg := mkHsCfg "ml-kem-512" 2 1 2 None None None
  (Some (mkSignId ([9] : SigningKey) (sample_chain 9 "dkms://qkc-2") [])) PqcSign 1024.

Lemma a_heard now : hears now cfg_a cfg_b.
Proof.
  split; try reflexivity. split_and!; [split; [by vm_compute|by repeat constructor]|done|].
  eexists. split; [reflexivity|]. vm_compute. reflexivity.
Qed.

Lemma b_heard now : hears now cfg_b cfg_a.
Proof.
  split; try reflexivity. split_and!; [split; [by vm_compute|by repeat constructor]|done|].
  eexists. split; [reflexivity|]. vm_compute. reflexivity.
Qed.

Lemma handshake_message_accepted_witness :
  let f := send_handshake cfg_a MInit 3 [1; 2; 3] in
  exists recv, recv_kind (kind f) = Some (MInit, recv) /\ accept 0 cfg_b MInit (payload f) recv = Some (3, [1; 2; 3]).
Proof. apply (handshake_message_accepted 0 cfg_a cfg_b MInit 3 [1; 2; 3]); [apply a_heard|done]. Defined.

Lemma accept_fail_closed_witness :
  let msg := canonical_msg (recv_fields cfg_b MResyncReq 3 []) in
  (exists chain vk sig, signed_key 0 cfg_b chain = Some vk /\ dsa_verify vk msg sig = true)
  \/ (exists psk, hc_psk cfg_b = Some psk /\ exists body, payload (send_handshake cfg_a MResyncReq 3 []) = body ++ hmac_sha256 psk msg).
Proof.
  apply (accept_fail_closed 0 cfg_b MResyncReq (payload (send_handshake cfg_a MResyncReq 3 [])) [] Signed 3).
  - left. reflexivity.
  - vm_compute. reflexivity.
Defined.
