(* ===== verification/EpochAgreement.v ===== *)
(** * Two ends of a PQC link agree on every epoch (qkc/src/pqc_handshake.rs)

    The handshake of [Handshake] at both ends of a link, with the network between
    them: frames are lost, repeated and reordered at will, the rotation task of the
    initiator runs, retries, rotates and re-links, either end restarts, and the
    data path asks for resynchronisation with whatever epoch it likes.  A frame
    that is delivered may be any bytes, as long as what [accept] takes out of it
    is something the other end sent in this connection.

    Shown: whatever happens, an epoch that both ends hold has one secret; one
    exchange establishes an epoch; the loop of [establish] ends; a forged epoch
    moves a link by a bounded number of epochs.  And what goes wrong: an answer
    from before a restart of the initiator, a repeated INIT from before it, and a
    start in which only the first epochs are answered. *)

From Stdlib Require Import ZArith Lia String.
From S2P Require Import Prelude Text Wire Primitives FrameMac QkcTypes SecretStore Signing Handshake.

(** ** The window of secrets *)

Definition reaches (st : SecretStore) (e : Z) : Prop := exists h, is_Some (ss_inner st !! h) /\ e <= h.

Lemma top_keeps keep m r h :
  top_of keep m r -> (0 < keep)%nat -> is_Some (m !! h) -> (forall e, is_Some (m !! e) -> e <= h) -> is_Some (r !! h).
Proof.
  intros [Hsub Hsize Hab] Hk Hh Hmax. destruct (r !! h) as [x|] eqn:E; [by eexists|]. exfalso.
  assert (Hne : r <> ∅).
  { apply map_size_non_empty_iff. rewrite Hsize.
    assert (size m <> 0%nat); [|lia]. apply map_size_non_empty_iff. intros ->. rewrite lookup_empty in Hh. by destruct Hh. }
  apply map_choose in Hne as (x & v & Hx). assert (h < x) by (apply Hab; [done|done|by eexists]).
  assert (x <= h); [|lia]. apply Hmax. exists v. by eapply lookup_weaken.
Qed.

Lemma top_reaches keep m r e : top_of keep m r -> (0 < keep)%nat ->
  (exists h, is_Some (m !! h) /\ e <= h) -> exists h, is_Some (r !! h) /\ e <= h.
Proof.
  intros Ht Hk (h & Hh & Hle). pose proof (map_highest_spec m) as Hs. destruct (map_highest m) as [x|].
  - destruct Hs as [Hx Hmax]. exists x. split; [by apply (top_keeps keep m)|]. apply Hmax in Hh. lia.
  - subst m. rewrite lookup_empty in Hh. by destruct Hh.
Qed.

Lemma insert_reaches st x s e : (0 < ss_keep st)%nat -> e = x \/ reaches st e -> reaches (ss_insert st x s) e.
Proof.
  intros Hk He. pose proof (insert_keeps_highest st x s) as Hi. unfold ss_get in Hi.
  destruct (ss_inner st !! x) as [v|] eqn:Ex.
  - rewrite Hi. destruct He as [->|He]; [|done]. exists x. split; [by eexists|lia].
  - destruct Hi as [Ht _]. apply (top_reaches _ _ _ _ Ht Hk). destruct He as [->|(h & Hh & Hle)].
    + exists x. split; [|lia]. rewrite lookup_insert_eq. by eexists.
    + exists h. split; [|done]. rewrite lookup_insert_ne; [done|]. intros ->. rewrite Ex in Hh. by destruct Hh.
Qed.

(** The largest epoch there is survives every insertion. *)
Lemma insert_keeps_max st x s e : (0 < ss_keep st)%nat -> x <= e ->
  (forall y, is_Some (ss_inner st !! y) -> y <= e) -> is_Some (ss_inner st !! e) -> is_Some (ss_inner (ss_insert st x s) !! e).
Proof.
  intros Hk Hx Hmax He. pose proof (insert_keeps_highest st x s) as Hi. unfold ss_get in Hi.
  destruct (ss_inner st !! x) as [v|] eqn:Ex; [by rewrite Hi|]. destruct Hi as [Ht _].
  apply (top_keeps _ _ _ _ Ht Hk).
  - rewrite lookup_insert_ne; [done|]. intros ->. rewrite Ex in He. by destruct He.
  - intros y [->|[_ Hy]]%lookup_insert_is_Some; [done|by apply Hmax].
Qed.

Lemma insert_keep st x s : ss_keep (ss_insert st x s) = ss_keep st.
Proof. unfold ss_insert. by destruct (ss_inner st !! x). Qed.

Lemma insert_lookup st x s e v : ss_inner (ss_insert st x s) !! e = Some v ->
  ss_inner st !! e = Some v \/ (e = x /\ v = s /\ ss_inner st !! x = None).
Proof.
  pose proof (insert_keeps_highest st x s) as Hi. unfold ss_get in Hi. destruct (ss_inner st !! x) as [w|] eqn:Ex.
  - rewrite Hi. by left.
  - destruct Hi as [[Hsub _ _] _]. intros Hv. apply (lookup_weaken _ (<[x:=s]> (ss_inner st))) in Hv; [|done].
    apply lookup_insert_Some in Hv as [[<- <-]|[_ Hv]]; [by right|by left].
Qed.

Lemma replace_lookup st x s e v : ss_inner (ss_replace st x s) !! e = Some v ->
  (e <> x /\ ss_inner st !! e = Some v) \/ (e = x /\ v = s).
Proof.
  destruct (ss_replace_top st x s) as [Hsub _ _]. intros Hv. apply (lookup_weaken _ (<[x:=s]> (ss_inner st))) in Hv; [|done].
  apply lookup_insert_Some in Hv as [[<- <-]|[Hne Hv]]; [by right|by left].
Qed.

Lemma prune_lookup st b e : ss_inner (fst (prune_below st b)) !! e = if bool_decide (b <= e) then ss_inner st !! e else None.
Proof. apply prune_below_get. Qed.

Lemma contains_true st e : ss_contains st e = true <-> is_Some (ss_inner st !! e).
Proof. unfold ss_contains. destruct (ss_inner st !! e); split; [by eexists|done|done|by intros []]. Qed.
Lemma contains_false st e : ss_contains st e = false <-> ss_inner st !! e = None.
Proof. unfold ss_contains. by destruct (ss_inner st !! e). Qed.

Lemma highest_reaches st e : reaches st e -> exists h, ss_highest st = Some h /\ e <= h.
Proof.
  intros (x & Hx & Hle). unfold ss_highest. pose proof (map_highest_spec (ss_inner st)) as Hs.
  destruct (map_highest (ss_inner st)) as [h|].
  - exists h. split; [done|]. apply Hs in Hx. lia.
  - rewrite Hs, lookup_empty in Hx. by destruct Hx.
Qed.

Lemma highest_in st h : ss_highest st = Some h -> is_Some (ss_inner st !! h).
Proof. unfold ss_highest. intros E. pose proof (map_highest_spec (ss_inner st)) as Hs. rewrite E in Hs. apply Hs. Qed.

(** ** The system *)

Section System.
Context `{MacCrypto} `{MlKem} `{MlDsa} `{X509}.

(** The initiator with its task, the responder, and what each has sent since the
    connection was made. *)
Record Link := mkLink {
  ln_a : PqcHandshake;
  ln_rot : Rotation;
  ln_b : PqcHandshake;
  ln_ab : list Frame;
  ln_ba : list Frame;
}.

Inductive link_event :=
  | LRot (now : Z) (seed : bytes) (ev : RotEvent)
  | LToA (now : Z) (seed : bytes) (f : Frame)
  | LToB (now : Z) (seed : bytes) (f : Frame)
  | LResyncB (now : Z)
  | LStaleA (epoch : Z)
  | LStaleB (epoch : Z)
  | LRestartA (now : Z)
  | LRestartB.

Definition fresh_store (keep : nat) : SecretStore := mkStore ∅ keep 0.
Definition fresh_end (c : HsCfg) (keep : nat) : PqcHandshake := hs_new c (fresh_store keep).
Definition stale_epoch (e : Z) (h : PqcHandshake) : PqcHandshake := with_store (request_resync (hs_store h) e) h.

Definition link_init (now : Z) (ca cb : HsCfg) (ka kb : nat) : Link :=
  mkLink (fresh_end ca ka) (rotation_new now ca) (fresh_end cb kb) [] [].

Definition link_do (s : Link) (ev : link_event) : Link :=
  let '(mkLink a r b ab ba) := s in
  match ev with
  | LRot now seed e => let '(a, r, out) := rotation_do now seed e a r in mkLink a r b (ab ++ out) ba
  | LToA now seed f => let '(a, out) := handle_pqc now seed a f in mkLink a r b (ab ++ out) ba
  | LToB now seed f => let '(b, out) := handle_pqc now seed b f in mkLink a r b ab (ba ++ out)
  | LResyncB now => let '(b, out) := resync_loop now b in mkLink a r b ab (ba ++ out)
  | LStaleA e => mkLink (stale_epoch e a) r b ab ba
  | LStaleB e => mkLink a r (stale_epoch e b) ab ba
  | LRestartA now => mkLink (fresh_end (hs_cfg a) (ss_keep (hs_store a))) (rotation_new now (hs_cfg a)) b [] []
  | LRestartB => mkLink a r (fresh_end (hs_cfg b) (ss_keep (hs_store b))) [] []
  end.

(** What [to] takes out of [f] at [now], [from] sent in this connection. *)
Definition authentic (now : Z) (from to : HsCfg) (sent : list Frame) (f : Frame) : Prop :=
  wf_bytes (payload f) /\ forall m recv e blob, recv_kind (kind f) = Some (m, recv) ->
    accept now to m (payload f) recv = Some (e, blob) -> send_handshake from m e blob ∈ sent.

Definition event_ok (s : Link) (ev : link_event) : Prop :=
  match ev with
  | LToA now _ f => authentic now (hs_cfg (ln_b s)) (hs_cfg (ln_a s)) (ln_ba s) f
  | LToB now _ f => authentic now (hs_cfg (ln_a s)) (hs_cfg (ln_b s)) (ln_ab s) f
  | LStaleA e | LStaleB e => is_u 32 e
  | _ => True
  end.

Inductive link_reach (s0 : Link) : Link -> Prop :=
  | lr_init : link_reach s0 s0
  | lr_step s ev : link_reach s0 s -> event_ok s ev -> link_reach s0 (link_do s ev).

(** ** The initiator on its own

    [G] gives the seed of the key pair the initiator generated for an epoch since
    it started: there is one per epoch, because a key pair is only generated for
    an epoch above every epoch whose key pair is gone. *)

Section Initiator.
Variables (k : ParamSet) (c : HsCfg).
Hypothesis (Hsuite : kem_for (hc_suite c) = Ok k) (Hla : is_u 32 (hc_lookahead c)).

Definition pub (seed : bytes) : bytes := kp_public (keygen k seed).
Definition sec (seed : bytes) : bytes := kp_secret (keygen k seed).

Record core (G : gmap Z bytes) (a : PqcHandshake) (r : Rotation) : Prop := {
  co_cfg : hs_cfg a = c;
  co_keep : (0 < ss_keep (hs_store a))%nat;
  co_u32 : forall e, is_Some (G !! e) -> is_u 32 e;
  co_store : forall e, is_Some (ss_inner (hs_store a) !! e) -> is_Some (G !! e);
  co_sk : forall e sk, hs_pending_sk a !! e = Some sk ->
    exists seed, G !! e = Some seed /\ sk = sec seed /\ hs_pending_pk a !! e = Some (pub seed);
  co_fresh : forall e, is_Some (G !! e) -> hs_pending_sk a !! e = None -> reaches (hs_store a) e;
  co_target : is_u 32 (rt_target r);
  co_prune : forall b, rt_prune_after r = Some b -> b <= rt_target r;
}.

(** Every epoch whose key pair is gone is below [n] (or the last epoch there is). *)
Definition settled (G : gmap Z bytes) (a : PqcHandshake) (n : Z) : Prop :=
  forall e, is_Some (G !! e) -> hs_pending_sk a !! e = None ->
    e < n \/ (e = u_max 32 /\ is_Some (ss_inner (hs_store a) !! e)).

Definition who_ok (who : Caller) : Prop :=
  match who with CRelink base aim => base <= aim /\ is_u 32 aim | _ => True end.

Definition pc_ok (G : gmap Z bytes) (a : PqcHandshake) (r : Rotation) : Prop :=
  match rt_pc r with
  | RIdle => True
  | RCall who e => is_u 32 e /\ who_ok who /\ settled G a e
  | RWait who e pk _ => is_u 32 e /\ who_ok who /\ settled G a e
      /\ exists seed, G !! e = Some seed /\ hs_pending_sk a !! e = Some (sec seed) /\ pk = pub seed
  end.

(** What a step of the task may change, seen from outside. *)
Record rot_eff (G G' : gmap Z bytes) (a a' : PqcHandshake) (out : list Frame) : Prop := {
  re_seeds : G ⊆ G';
  re_store : ss_inner (hs_store a') ⊆ ss_inner (hs_store a);
  re_out : forall f, f ∈ out -> exists e seed, G' !! e = Some seed
    /\ f = send_handshake c MInit e (pub seed) /\ ss_inner (hs_store a') !! e = None;
}.

Lemma eff_quiet G a a' : ss_inner (hs_store a') ⊆ ss_inner (hs_store a) -> rot_eff G G a a' [].
Proof. intros Hs. split; [done|done|]. intros f Hf. by apply elem_of_nil in Hf. Qed.

Lemma core_vars G a r r' : core G a r -> is_u 32 (rt_target r') ->
  (forall b, rt_prune_after r' = Some b -> b <= rt_target r') -> core G a r'.
Proof. intros [] ? ?. by split. Qed.

(** A change of the state that keeps the store's secrets and the key pairs. *)
Lemma core_same G a a' r : hs_cfg a' = hs_cfg a -> ss_inner (hs_store a') = ss_inner (hs_store a) ->
  ss_keep (hs_store a') = ss_keep (hs_store a) -> hs_pending_sk a' = hs_pending_sk a ->
  hs_pending_pk a' = hs_pending_pk a -> core G a r -> core G a' r.
Proof.
  intros Ec Es Ek E1 E2 []. split; unfold reaches in *; rewrite ?Ec, ?Es, ?Ek, ?E1, ?E2; done.
Qed.

Lemma prune_reaches st b x e : is_Some (ss_inner st !! x) -> b <= x -> reaches st e \/ e < b ->
  reaches (fst (prune_below st b)) e.
Proof.
  intros Hx Hb [(h & Hh & Hle)|Hlt].
  - destruct (Z.le_gt_cases b h) as [Hbh|Hbh].
    + exists h. rewrite prune_lookup, bool_decide_eq_true_2 by done. done.
    + exists x. rewrite prune_lookup, bool_decide_eq_true_2 by done. split; [done|lia].
  - exists x. rewrite prune_lookup, bool_decide_eq_true_2 by done. split; [done|lia].
Qed.

Lemma prune_sub st b : ss_inner (fst (prune_below st b)) ⊆ ss_inner st.
Proof. apply map_filter_subseteq. Qed.

Lemma core_pruned G a r b x : core G a r -> is_Some (ss_inner (hs_store a) !! x) -> b <= x -> core G (hs_prune_below b a) r.
Proof.
  intros [] Hx Hb. split; cbn [hs_prune_below hs_cfg hs_store hs_pending_sk hs_pending_pk]; try done.
  - intros e [v Hv]. apply co_store0. exists v. by eapply lookup_weaken, prune_sub.
  - intros e sk [Hs Hle]%map_lookup_filter_Some. destruct (co_sk0 e sk Hs) as (seed & Hg & Hsk & Hpk).
    exists seed. split_and!; [done..|]. by apply map_lookup_filter_Some.
  - intros e Hg Hn. apply (prune_reaches _ _ x); [done..|]. apply map_lookup_filter_None in Hn as [Hn|Hn].
    + left. by apply co_fresh0.
    + destruct (hs_pending_sk a !! e) as [sk|] eqn:Es; [|left; by apply co_fresh0].
      right. specialize (Hn sk eq_refl). cbn in Hn. lia.
Qed.

(** What a step of the task keeps. *)
Definition kept (G : gmap Z bytes) (a : PqcHandshake) (ar : PqcHandshake * Rotation) : Prop :=
  core G ar.1 ar.2 /\ pc_ok G ar.1 ar.2 /\ ss_inner (hs_store ar.1) ⊆ ss_inner (hs_store a).

Lemma loop_complete_ok G a r who e : core G a r -> who_ok who -> is_Some (ss_inner (hs_store a) !! e) ->
  loop_end c r who <= e -> kept G a (loop_complete who a r).
Proof.
  intros Hc Hw He Hend. destruct who as [| |base aim]; cbn [loop_complete loop_end who_ok] in *.
  - split_and!; [|done|done]. destruct Hc. by split.
  - destruct (rt_prune_after r) as [b|] eqn:Eb.
    + pose proof (co_prune _ _ _ Hc _ Eb). split_and!; [|done|apply prune_sub].
      apply (core_vars _ _ r); [|by destruct Hc|done]. apply (core_pruned _ _ _ _ e); [done|done|]. lia.
    + split_and!; [|done|done]. apply (core_vars _ _ r); [done|by destruct Hc|done].
  - destruct Hw as [Hba Haim]. split_and!; [|done|apply prune_sub].
    apply (core_vars _ _ r); [apply (core_pruned _ _ _ _ e); [done|done|lia]| |].
    + destruct Hc. cbn [snd rt_target]. ufold. lia.
    + cbn [snd rt_prune_after rt_target]. intros b Hb. pose proof (co_prune _ _ _ Hc _ Hb). lia.
Qed.

Lemma loop_next_ok G a r who e : core G a r -> who_ok who -> is_u 32 e -> is_Some (ss_inner (hs_store a) !! e) ->
  settled G a (e + 1) -> kept G a (loop_next who e a r).
Proof.
  intros Hc Hw He Hin Hs. unfold loop_next.
  set (r1 := match who with CStart => _ | _ => r end).
  assert (Hc1 : core G a r1).
  { apply (core_vars _ _ r); [done|destruct who; by destruct Hc|destruct who; apply Hc]. }
  rewrite (co_cfg _ _ _ Hc). destruct (Z.ltb_spec e (loop_end c r1 who)) as [Hlt|Hge].
  - split_and!; [by apply (core_vars _ _ r1); [done|destruct Hc1..]| |done].
    cbn [pc_ok with_pc rt_pc snd fst]. split_and!; [|done|done].
    assert (loop_end c r1 who <= u_max 32).
    { destruct who as [| |base aim]; cbn [loop_end who_ok] in *; ufold; [lia| |lia]. pose proof (co_target _ _ _ Hc1). ufold. lia. }
    ufold. lia.
  - by apply (loop_complete_ok _ _ _ _ e).
Qed.

Lemma loop_failed_ok now G a r who : core G a r -> who_ok who -> kept G a (a, loop_failed now c who r).
Proof.
  intros Hc Hw. split_and!; [|by destruct who|done]. cbn [fst snd]. destruct Hc.
  destruct who as [| |base aim]; cbn [loop_failed who_ok] in *; split; cbn [rt_target rt_prune_after]; try done.
  - ufold. lia.
  - intros b [= <-]. unfold sat_sub. ufold. lia.
Qed.

Lemma establish_enter_ok now seed G a r who e : core G a r -> is_u 32 e -> who_ok who -> settled G a e ->
  exists G', kept G' a (establish_enter now seed who e a r) /\ G ⊆ G'.
Proof.
  intros Hc He Hw Hs. unfold establish_enter. destruct (ss_contains (hs_store a) e) eqn:Ec.
  { exists G. split; [|done]. apply loop_next_ok; [done|done|done|by apply contains_true|].
    intros x Hx Hn. destruct (Hs x Hx Hn) as [Hlt|Hm]; [left; lia|by right]. }
  apply contains_false in Ec. rewrite (co_cfg _ _ _ Hc), Hsuite.
  destruct (hs_pending_sk a !! e) as [sk|] eqn:Es.
  - destruct (co_sk _ _ _ Hc e sk Es) as (sd & Hg & -> & Hpk). rewrite Hpk. exists G. split; [|done].
    split_and!; [|cbn [fst snd pc_ok with_pc rt_pc]; split_and!; [done..|by exists sd]|done]. apply (core_vars _ _ r); [done|by destruct Hc|apply Hc].
  - assert (Hnew : G !! e = None).
    { destruct (G !! e) as [x|] eqn:Eg; [|done]. destruct (Hs e) as [Hlt|[_ Hin]]; [by eexists|done|lia|].
      rewrite Ec in Hin. by destruct Hin. }
    exists (<[e := seed]> G). split; [|by apply insert_subseteq]. split_and!; [|cbn [fst snd]|done].
    + destruct Hc as [Hcfg Hkeep Hu Hst Hsk Hfr Htg Hpr]. split; cbn [fst snd with_keys hs_cfg hs_store hs_pending_sk hs_pending_pk with_pc rt_target rt_prune_after]; try done.
      * intros x [->|[_ Hx]]%lookup_insert_is_Some; [done|by apply Hu].
      * intros x Hx. apply lookup_insert_is_Some. destruct (decide (e = x)); [by left|right; split; [done|by apply Hst]].
      * intros x sk. rewrite !lookup_insert_Some. intros [[<- <-]|[Hne Hx]].
        { exists seed. by rewrite !lookup_insert_eq. }
        destruct (Hsk x sk Hx) as (sd & Hg & Hk & Hpk). exists sd. rewrite !lookup_insert_ne by done. done.
      * intros x [->|[Hne Hx]]%lookup_insert_is_Some; rewrite ?lookup_insert_eq, ?lookup_insert_ne by done; [done|by apply Hfr].
    + cbn [pc_ok with_pc rt_pc with_keys]. split_and!; [done..| |].
      * intros x [->|[Hne Hx]]%lookup_insert_is_Some; cbn [hs_pending_sk hs_store with_keys];
          rewrite ?lookup_insert_eq, ?lookup_insert_ne by done; [done|by apply Hs].
      * exists seed. cbn [hs_pending_sk with_keys]. by rewrite !lookup_insert_eq.
Qed.

Lemma settled_at_highest G a r n : core G a r ->
  (forall h, ss_highest (hs_store a) = Some h -> is_u 32 h -> h < n \/ (h = u_max 32 /\ n = u_max 32)) -> settled G a n.
Proof.
  intros Hc Hn x Hx Hp. destruct (highest_reaches _ _ (co_fresh _ _ _ Hc x Hx Hp)) as (h & Hh & Hle).
  pose proof (highest_in _ _ Hh) as Hin. pose proof (co_u32 _ _ _ Hc h (co_store _ _ _ Hc h Hin)) as Hu.
  destruct (Hn h Hh Hu) as [Hlt|[-> ->]]; [left; lia|].
  destruct (Z.eq_dec x (u_max 32)) as [->|Hne]; [by right|left; lia].
Qed.

Lemma up_to_start_ok G a r : core G a r -> kept G a (up_to_start a r).
Proof.
  intros Hc. unfold up_to_start. set (from := match ss_highest _ with Some _ => _ | None => 0 end).
  pose proof (co_target _ _ _ Hc) as Ht. destruct (Z.leb_spec from (rt_target r)) as [Hle|Hgt].
  - split_and!; [apply (core_vars _ _ r); [done|by destruct Hc|apply Hc]| |done].
    cbn [fst snd pc_ok with_pc rt_pc]. assert (Hf : is_u 32 from).
    { split; [|unfold from; ufold; lia]. unfold from. destruct (ss_highest (hs_store a)) as [h|] eqn:Eh; [|lia].
      pose proof (co_u32 _ _ _ Hc h (co_store _ _ _ Hc h (highest_in _ _ Eh))). unfold sat_add. ufold. lia. }
    split_and!; [done|done|]. apply (settled_at_highest _ _ r); [done|]. intros h Eh Hu. unfold from in *. rewrite Eh in *.
    unfold sat_add in *. ufold. lia.
  - unfold from in Hgt. destruct (ss_highest (hs_store a)) as [h|] eqn:Eh; [|ufold; lia].
    apply (loop_complete_ok _ _ _ _ h); [done|done|by apply highest_in|]. cbn [loop_end]. unfold sat_add in Hgt. lia.
Qed.

Lemma relink_ok now pe G a r : core G a r -> 0 <= pe -> rt_pc r = RIdle -> kept G a (relink now pe a r).
Proof.
  intros Hc Hpe Hpc. unfold relink. destruct (match hs_last_relink a with Some _ => _ | None => false end).
  { split_and!; [done|unfold pc_ok; cbn [fst snd]; by rewrite Hpc|done]. }
  set (a1 := with_relink (Some now) a). assert (Hc1 : core G a1 r) by (by apply (core_same _ a)).
  destruct (resync_base _ _ _) as [base aim] eqn:Eb. destruct (Z.eqb_spec aim (u_max 32)) as [_|Hne].
  { split_and!; [done|unfold pc_ok; cbn [fst snd]; by rewrite Hpc|done]. }
  unfold resync_base in Eb. cbn [hs_store a1 with_relink hs_cfg] in Eb. rewrite (co_cfg _ _ _ Hc) in Eb.
  set (mine := match ss_highest (hs_store a) with Some _ => _ | None => 0 end) in Eb.
  assert (Hmine : is_u 32 mine).
  { unfold mine. destruct (ss_highest (hs_store a)) as [h|] eqn:Eh; [|done].
    pose proof (co_u32 _ _ _ Hc h (co_store _ _ _ Hc h (highest_in _ _ Eh))). unfold sat_add. ufold. lia. }
  injection Eb as Eb Ea. unfold sat_add, MAX_RESYNC_JUMP in Eb, Ea. pose proof Hla as Hla'.
  split_and!; [apply (core_vars _ _ r); [done|by destruct Hc|apply Hc]| |done].
  cbn [fst snd pc_ok with_pc rt_pc who_ok]. split_and!; [ufold; lia..|].
  apply (settled_at_highest _ _ r); [done|]. intros h Eh Hu. cbn [hs_store a1 with_relink] in Eh.
  unfold mine in *. rewrite Eh in *. unfold sat_add in *. ufold. lia.
Qed.

Lemma establish_turn_ok now G a r who e pk t : core G a r -> is_u 32 e -> who_ok who -> settled G a e ->
  rt_pc r = RWait who e pk t ->
  (exists seed, G !! e = Some seed /\ hs_pending_sk a !! e = Some (sec seed) /\ pk = pub seed) ->
  let '(a', r', out) := establish_turn now who e pk t a r in
  kept G a (a', r') /\ rot_eff G G a a' out.
Proof.
  intros Hc He Hw Hs Hpc (seed & Hg & Hp & Hpk). unfold establish_turn.
  destruct (ss_contains (hs_store a) e) eqn:Ec.
  - apply contains_true in Ec. set (a1 := with_keys _ _ a).
    assert (Hc1 : core G a1 r).
    { destruct Hc as [Hcfg Hkeep Hu Hst Hsk Hfr Htg Hpr]. split; cbn [a1 with_keys hs_cfg hs_store hs_pending_sk hs_pending_pk]; try done.
      - intros x sk [Hne Hx]%lookup_delete_Some. destruct (Hsk x sk Hx) as (sd & Hgx & Hk & Hpkx). exists sd. by rewrite lookup_delete_ne.
      - intros x Hx [->|Hn]%lookup_delete_None; [by exists x|by apply Hfr]. }
    assert (Hs1 : settled G a1 (e + 1)).
    { intros x Hx Hn. cbn [a1 with_keys hs_pending_sk] in Hn. apply lookup_delete_None in Hn as [->|Hn]; [left; lia|].
      destruct (Hs x Hx Hn) as [Hlt|Hm]; [left; lia|by right]. }
    pose proof (loop_next_ok G a1 r who e Hc1 Hw He Ec Hs1) as Hk. destruct (loop_next who e a1 r) as [a' r'].
    split; [exact Hk|]. apply eff_quiet, Hk.
  - apply contains_false in Ec. destruct (_ <=? _).
    + rewrite (co_cfg _ _ _ Hc). split; [by apply loop_failed_ok|by apply eff_quiet].
    + split.
      * split_and!; [done| |done]. unfold pc_ok. cbn [fst snd]. rewrite Hpc. split_and!; [done..|by exists seed].
      * split; [done|done|]. intros f ->%list_elem_of_singleton. exists e, seed. by rewrite (co_cfg _ _ _ Hc), Hpk.
Qed.

Lemma core_eff G a ar : kept G a ar -> core G ar.1 ar.2 /\ pc_ok G ar.1 ar.2 /\ rot_eff G G a ar.1 [].
Proof. intros (Hc & Hp & Hs). split_and!; [done|done|by apply eff_quiet]. Qed.

(** One step of the task. *)
Lemma rotation_ok now seed ev G a r : core G a r -> pc_ok G a r -> 0 <= ss_resync_epoch (hs_store a) ->
  let '(a', r', out) := rotation_do now seed ev a r in
  exists G', core G' a' r' /\ pc_ok G' a' r' /\ rot_eff G G' a a' out.
Proof.
  intros Hc Hp Hr. unfold rotation_do.
  assert (Hquiet : exists G', core G' a r /\ pc_ok G' a r /\ rot_eff G G' a a []).
  { exists G. split_and!; [done|done|by apply eff_quiet]. }
  pose proof Hp as Hp'. unfold pc_ok in Hp'. destruct (rt_pc r) as [|who e|who e pk t] eqn:Epc.
  - destruct ev; try exact Hquiet.
    + destruct (rt_need_work r && (rt_retry_at r <=? now)); [|exact Hquiet].
      pose proof (up_to_start_ok G a r Hc) as Hk. apply core_eff in Hk. destruct (up_to_start a r) as [a' r']. by exists G.
    + exists G. split_and!; [|done|by apply eff_quiet]. pose proof (co_target _ _ _ Hc).
      assert (is_u 32 (match ss_highest (hs_store a) with Some hi => sat_add 32 hi 1 | None => rt_target r end)).
      { destruct (ss_highest (hs_store a)) as [h|] eqn:Eh; [|done].
        pose proof (co_u32 _ _ _ Hc h (co_store _ _ _ Hc h (highest_in _ _ Eh))). unfold sat_add. ufold. lia. }
      apply (core_vars _ _ r); [done| |]; cbn [rt_target rt_prune_after]; [ufold; lia|].
      intros b Hb. pose proof (co_prune _ _ _ Hc b Hb). lia.
    + pose proof (relink_ok now 0 G a r Hc ltac:(lia) Epc) as Hk. apply core_eff in Hk.
      destruct (relink now 0 a r) as [a' r']. by exists G.
    + unfold resync_requested. destruct (Z.gtb_spec (ss_resync_epoch (hs_store a)) 0) as [Hgt|_]; [|exact Hquiet].
      set (a1 := with_store _ a). assert (Hc1 : core G a1 r) by (by apply (core_same _ a)).
      pose proof (relink_ok now (ss_resync_epoch (hs_store a)) G a1 r Hc1 Hr Epc) as Hk. apply core_eff in Hk.
      destruct (relink now _ a1 r) as [a' r']. exists G. destruct Hk as (? & ? & []). split_and!; [done|done|by split].
  - destruct ev; try exact Hquiet. destruct Hp' as (He & Hw & Hs).
    destruct (establish_enter_ok now seed G a r who e Hc He Hw Hs) as (G' & (Hc' & Hp1 & Hsub) & HG).
    destruct (establish_enter now seed who e a r) as [a' r']. exists G'. split_and!; [done|done|].
    split; [done|done|]. intros f Hf. by apply elem_of_nil in Hf.
  - destruct ev; try exact Hquiet. destruct Hp' as (He & Hw & Hs & Hpk).
    pose proof (establish_turn_ok now G a r who e pk t Hc He Hw Hs Epc Hpk) as Hk.
    destruct (establish_turn now who e pk t a r) as [[a' r'] out]. destruct Hk as [(Hc' & Hp1 & _) Hef]. by exists G.
Qed.

(** A secret is published for an epoch whose key pair is pending. *)
Lemma insert_ok G a r e v : core G a r -> pc_ok G a r -> is_Some (G !! e) ->
  let a' := with_store (ss_insert (hs_store a) e v) a in core G a' r /\ pc_ok G a' r.
Proof.
  intros Hc Hp Hg a'. assert (Hset : forall n, settled G a n -> settled G a' n).
  { intros n Hs x Hx Hn. destruct (Hs x Hx Hn) as [Hlt|[-> Hin]]; [by left|right]. split; [done|].
    destruct Hc. cbn [a' with_store hs_store]. apply insert_keeps_max; [done| | |done].
    - specialize (co_u33 e Hg). ufold. lia.
    - intros y Hy%co_store0%co_u33. ufold. lia. }
  split.
  - destruct Hc as [Hcfg Hkeep Hu Hst Hsk Hfr Htg Hpr]. split; cbn [a' with_store hs_cfg hs_store hs_pending_sk hs_pending_pk]; try done.
    + by rewrite insert_keep.
    + intros x [w Hw]. apply insert_lookup in Hw as [Hw|(-> & _)]; [apply Hst; by eexists|done].
    + intros x Hx Hn. apply insert_reaches; [done|]. right. by apply Hfr.
  - unfold pc_ok in *. destruct (rt_pc r); [done| |]; naive_solver.
Qed.

Lemma core_start now keep : (0 < keep)%nat -> core ∅ (fresh_end c keep) (rotation_new now c) /\ pc_ok ∅ (fresh_end c keep) (rotation_new now c).
Proof.
  intros Hk. assert (Hno : forall e, ~ is_Some ((∅ : gmap Z bytes) !! e)) by (intros e; rewrite lookup_empty; by intros []).
  split.
  - split; try done; try (intros e He; by apply Hno in He).
  - split_and!; [done|done|]. intros e He. by apply Hno in He.
Qed.
End Initiator.

(** ** Both ends *)

(** [ct] carries [ss] to the holder of [pk]. *)
Definition encaps (k : ParamSet) (pk ct ss : bytes) : Prop := exists r, encap k pk r = Ok (mkEncap ct ss).

Lemma encaps_decap k seed ct ss : encaps k (pub k seed) ct ss -> decap k (sec k seed) ct = Ok ss /\ zlen ss = 32.
Proof.
  intros [r Hr]. destruct (kem_roundtrip k seed r) as (ct' & ss' & He & Hd & Hl & _). unfold pub in Hr. rewrite He in Hr.
  injection Hr as -> ->. done.
Qed.

Lemma encaps_unique k seed ct s s' : encaps k (pub k seed) ct s -> encaps k (pub k seed) ct s' -> s = s'.
Proof. intros [E1 _]%encaps_decap [E2 _]%encaps_decap. rewrite E1 in E2. by injection E2. Qed.

Lemma split_epoch_u32 p e b : wf_bytes p -> split_epoch p = Some (e, b) -> is_u 32 e.
Proof.
  intros Hw. unfold split_epoch. destruct (Z.ltb_spec (zlen p) 4) as [|Hl]; [done|]. intros [= <- _].
  pose proof (be_val_range (take 4 p) ltac:(by apply Forall_take)) as Hr.
  assert (zlen (take 4 p) = 4) as E by (unfold zlen in *; rewrite length_take; lia). rewrite E in Hr. exact Hr.
Qed.

Lemma accept_u32 now d m p recv e b : wf_bytes p -> accept now d m p recv = Some (e, b) -> is_u 32 e.
Proof.
  intros Hw Ha. unfold accept in Ha. destruct recv.
  - destruct (_ || _); [done|]. by eapply split_epoch_u32.
  - destruct (hc_psk d) as [psk|]; [|done]. cbn [mbind option_bind] in Ha. destruct (_ <? _); [done|].
    destruct (split_epoch _) as [[e' b']|] eqn:Es; [|done]. cbn [mbind option_bind] in Ha. destruct (is_ok _); [|done].
    injection Ha as -> ->. eapply split_epoch_u32; [|exact Es]. by apply Forall_take.
  - destruct (_ <? _); [done|]. destruct (split_epoch _) as [[e' b']|] eqn:Es; [|done]. cbn [mbind option_bind] in Ha.
    destruct (split_cert_chain b') as [[ch b'']|]; [|done]. cbn [mbind option_bind] in Ha.
    destruct (signed_key now d ch); [|done]. cbn [mbind option_bind] in Ha. destruct (is_ok _); [|done].
    injection Ha as -> ->. eapply split_epoch_u32; [|exact Es]. by apply Forall_take.
Qed.

(** A frame determines its message for whoever can hear the sender. *)
Lemma send_inj t c d m e b m' e' b' : hears t c d -> is_u 32 e -> is_u 32 e' ->
  send_handshake c m e b = send_handshake c m' e' b' -> m = m' /\ e = e' /\ b = b'.
Proof.
  intros Hh He He' E. destruct (sent_accepted t c d m e b Hh He) as (recv & Hk & Ha).
  destruct (sent_accepted t c d m' e' b' Hh He') as (recv' & Hk' & Ha'). rewrite E in Hk, Ha. rewrite Hk in Hk'.
  injection Hk' as -> ->. rewrite Ha in Ha'. by injection Ha' as -> ->.
Qed.

Record link_inv (k : ParamSet) (ca cb : HsCfg) (G : gmap Z bytes) (s : Link) : Prop := {
  li_core : core k ca G (ln_a s) (ln_rot s);
  li_pc : pc_ok k G (ln_a s) (ln_rot s);
  li_resync : 0 <= ss_resync_epoch (hs_store (ln_a s));
  li_cfgb : hs_cfg (ln_b s) = cb;
  (** Every INIT is for the key pair of its epoch; one that was never answered is
      for an epoch the initiator does not hold. *)
  li_ab : forall f, f ∈ ln_ab s -> exists e seed, G !! e = Some seed /\ f = send_handshake ca MInit e (pub k seed)
    /\ (hs_resp_cache (ln_b s) !! e = None -> ss_inner (hs_store (ln_a s)) !! e = None);
  li_ba : forall f, f ∈ ln_ba s ->
    (exists e seed ct, G !! e = Some seed /\ hs_resp_cache (ln_b s) !! e = Some (pub k seed, ct) /\ f = send_handshake cb MResp e ct)
    \/ (exists e, is_u 32 e /\ f = send_handshake cb MResyncReq e []);
  li_cache : forall e pk ct, hs_resp_cache (ln_b s) !! e = Some (pk, ct) -> is_u 32 e
    /\ exists ss, encaps k pk ct ss /\ forall v, ss_inner (hs_store (ln_b s)) !! e = Some v -> v = ss;
  li_bstore : forall e, is_Some (ss_inner (hs_store (ln_b s)) !! e) -> is_Some (hs_resp_cache (ln_b s) !! e);
  li_astore : forall e v, ss_inner (hs_store (ln_a s)) !! e = Some v -> exists seed, G !! e = Some seed
    /\ forall pk ct, hs_resp_cache (ln_b s) !! e = Some (pk, ct) -> pk = pub k seed /\ encaps k pk ct v;
}.

Lemma link_inv_agrees k ca cb G s e v w : link_inv k ca cb G s ->
  ss_inner (hs_store (ln_a s)) !! e = Some v -> ss_inner (hs_store (ln_b s)) !! e = Some w -> v = w.
Proof.
  intros [] Ha Hb. destruct (li_bstore0 e ltac:(by eexists)) as [[pk ct] Hc].
  destruct (li_cache0 _ _ _ Hc) as (_ & ss & He & Hw). rewrite (Hw _ Hb).
  destruct (li_astore0 _ _ Ha) as (seed & _ & Hs). destruct (Hs _ _ Hc) as [-> Hv]. by eapply encaps_unique.
Qed.

Lemma relink_resync now pe a r : ss_resync_epoch (hs_store (relink now pe a r).1) = ss_resync_epoch (hs_store a).
Proof. unfold relink. destruct (match hs_last_relink a with Some _ => _ | None => _ end); [done|]. by destruct (resync_base _ _ _), (_ =? _). Qed.

Lemma loop_resync who e a r : ss_resync_epoch (hs_store (loop_next who e a r).1) = ss_resync_epoch (hs_store a).
Proof. unfold loop_next. destruct (_ <? _); [done|]. destruct who; try done. cbn. by destruct (rt_prune_after r). Qed.

(** The task only ever takes a pending resynchronisation. *)
Lemma rotation_resync now seed ev a r : let '(a', _, _) := rotation_do now seed ev a r in
  ss_resync_epoch (hs_store a') = ss_resync_epoch (hs_store a) \/ ss_resync_epoch (hs_store a') = 0.
Proof.
  unfold rotation_do. destruct (rt_pc r) as [|who e|who e pk t], ev; try (by left).
  - destruct (_ && _); [|by left]. unfold up_to_start. destruct (_ <=? _); [by left|].
    cbn. destruct (rt_prune_after r); by left.
  - pose proof (relink_resync now 0 a r). destruct (relink now 0 a r). by left.
  - unfold resync_requested. destruct (_ >? 0); [|by left].
    match goal with |- context [relink now ?x ?y r] => pose proof (relink_resync now x y r) as E; destruct (relink now x y r) end.
    right. exact E.
  - unfold establish_enter. destruct (ss_contains _ _).
    { pose proof (loop_resync who e a r). destruct (loop_next who e a r). by left. }
    destruct (match hs_pending_sk a !! e with Some _ => _ | None => None end); [by left|]. destruct (kem_for _); by left.
  - unfold establish_turn. destruct (ss_contains _ _); [|destruct (_ <=? _); by left].
    match goal with |- context [loop_next who e ?x r] => pose proof (loop_resync who e x r) as E; destruct (loop_next who e x r) end.
    left. exact E.
Qed.

Section Steps.
Variables (k : ParamSet) (ca cb : HsCfg) (t0 : Z).
Hypotheses (Hsuite : kem_for (hc_suite ca) = Ok k) (Hla : is_u 32 (hc_lookahead ca))
  (Hab : hears t0 ca cb) (Hba : hears t0 cb ca).

Let inv := link_inv k ca cb.

Lemma step_rot now seed ev G s : inv G s -> exists G', inv G' (link_do s (LRot now seed ev)).
Proof.
  intros [Hc Hp Hr Hcb Hl1 Hl2 Hca Hbs Has]. destruct s as [a r b ab ba]. cbn [ln_a ln_rot ln_b ln_ab ln_ba] in *.
  pose proof (rotation_ok k ca Hsuite Hla now seed ev G a r Hc Hp Hr) as Hk.
  pose proof (rotation_resync now seed ev a r) as Hrs. cbn [link_do].
  destruct (rotation_do now seed ev a r) as [[a' r'] out]. destruct Hk as (G' & Hc' & Hp' & [HG Hst Hout]).
  exists G'. split; cbn [ln_a ln_rot ln_b ln_ab ln_ba]; try done.
  - destruct Hrs as [-> | ->]; [done|lia].
  - intros f [Hf|Hf]%elem_of_app.
    + destruct (Hl1 f Hf) as (e & sd & Hg & -> & Hn). exists e, sd. split_and!; [by eapply lookup_weaken|done|].
      intros Hno. specialize (Hn Hno). destruct (ss_inner (hs_store a') !! e) as [v|] eqn:E; [|done].
      rewrite (lookup_weaken _ _ _ _ E Hst) in Hn. done.
    + destruct (Hout f Hf) as (e & sd & Hg & -> & Hn). by exists e, sd.
  - intros f Hf. destruct (Hl2 f Hf) as [(e & sd & ct & Hg & Hct & ->)|Hq]; [|by right].
    left. exists e, sd, ct. split_and!; [by eapply lookup_weaken|done|done].
  - intros e v Hv. apply (lookup_weaken _ (ss_inner (hs_store a))) in Hv; [|done].
    destruct (Has e v Hv) as (sd & Hg & Hq). exists sd. split; [by eapply lookup_weaken|done].
Qed.

(** What [b] takes out of an authentic frame is an INIT for the key pair of its epoch. *)
Lemma heard_by_b now f G s m recv e blob : inv G s -> authentic now (hs_cfg (ln_a s)) (hs_cfg (ln_b s)) (ln_ab s) f ->
  recv_kind (kind f) = Some (m, recv) -> accept now cb m (payload f) recv = Some (e, blob) ->
  m = MInit /\ is_u 32 e /\ exists seed, G !! e = Some seed /\ blob = pub k seed
    /\ (hs_resp_cache (ln_b s) !! e = None -> ss_inner (hs_store (ln_a s)) !! e = None).
Proof.
  intros Hi [Hw Hauth] Hk Ha. rewrite (co_cfg _ _ _ _ _ (li_core _ _ _ _ _ Hi)), (li_cfgb _ _ _ _ _ Hi) in Hauth.
  pose proof (accept_u32 _ _ _ _ _ _ _ Hw Ha) as He.
  destruct (li_ab _ _ _ _ _ Hi _ (Hauth _ _ _ _ Hk Ha)) as (e' & seed & Hg & E & Hn).
  apply (send_inj t0 ca cb) in E as (-> & -> & ->); [|done|done|].
  - split_and!; [done|done|by exists seed].
  - apply (co_u32 _ _ _ _ _ (li_core _ _ _ _ _ Hi)). by eexists.
Qed.

Lemma heard_by_a now f G s m recv e blob : inv G s -> authentic now (hs_cfg (ln_b s)) (hs_cfg (ln_a s)) (ln_ba s) f ->
  recv_kind (kind f) = Some (m, recv) -> accept now ca m (payload f) recv = Some (e, blob) ->
  (m = MResp /\ exists seed, G !! e = Some seed /\ hs_resp_cache (ln_b s) !! e = Some (pub k seed, blob)) \/ m = MResyncReq.
Proof.
  intros Hi [Hw Hauth] Hk Ha. rewrite (co_cfg _ _ _ _ _ (li_core _ _ _ _ _ Hi)), (li_cfgb _ _ _ _ _ Hi) in Hauth.
  pose proof (accept_u32 _ _ _ _ _ _ _ Hw Ha) as He.
  destruct (li_ba _ _ _ _ _ Hi _ (Hauth _ _ _ _ Hk Ha)) as [(e' & seed & ct & Hg & Hc & E)|(e' & Hu & E)].
  - apply (send_inj t0 cb ca) in E as (-> & -> & ->); [|done|done|].
    + left. split; [done|by exists seed].
    + apply (co_u32 _ _ _ _ _ (li_core _ _ _ _ _ Hi)). by eexists.
  - apply (send_inj t0 cb ca) in E as (-> & _ & _); [by right|done|done|done].
Qed.

(** The responder encapsulates to a key it has not answered. *)
Lemma encap_ok seedr G a r b ab ba e seed stale b' out :
  inv G (mkLink a r b ab ba) -> is_u 32 e -> G !! e = Some seed ->
  (hs_resp_cache b !! e = None -> ss_inner (hs_store a) !! e = None) ->
  (forall pk ct, hs_resp_cache b !! e = Some (pk, ct) -> pk <> pub k seed) ->
  (hs_resp_cache b !! e = None -> stale = false) -> (is_Some (hs_resp_cache b !! e) -> stale = true) ->
  init_encap seedr b e (pub k seed) stale = (b', out) -> inv G (mkLink a r b' ab (ba ++ out)).
Proof.
  intros [Hc Hp Hr Hcb Hl1 Hl2 Hca Hbs Has] He Hg Hno Hother Hs1 Hs2. cbn [ln_a ln_rot ln_b ln_ab ln_ba] in *.
  unfold init_encap. rewrite Hcb, (hr_suite _ _ _ Hab), Hsuite.
  destruct (kem_roundtrip k seed seedr) as (ct & ss & Hen & _ & Hlen & _). fold (pub k seed) in Hen. rewrite Hen.
  unfold publish_inner. cbn [ke_shared_secret ke_ciphertext]. rewrite Hlen. cbn [negb Z.eqb Pos.eqb].
  set (st' := if stale then _ else _). intros [= <- <-].
  assert (Hst : forall x v, ss_inner st' !! x = Some v -> (x <> e /\ ss_inner (hs_store b) !! x = Some v) \/ (x = e /\ v = ss)).
  { intros x v Hv. unfold st' in Hv. destruct (hs_resp_cache b !! e) as [[pk0 ct0]|] eqn:Ec.
    - rewrite (Hs2 ltac:(by eexists)) in Hv. by apply replace_lookup in Hv.
    - rewrite (Hs1 eq_refl) in Hv. apply insert_lookup in Hv as [Hv|(-> & -> & _)]; [|by right].
      left. split; [|done]. intros ->. destruct (Hbs e ltac:(by eexists)) as [? Hx]. by rewrite Ec in Hx. }
  clearbody st'. split; cbn [ln_a ln_rot ln_b ln_ab ln_ba with_cache with_store hs_cfg hs_resp_cache hs_store]; try done.
  - intros f Hf. destruct (Hl1 f Hf) as (x & sd & Hgx & -> & Hn). exists x, sd. split_and!; [done|done|].
    intros [Hx _]%lookup_insert_None. by apply Hn.
  - intros f [Hf|Hf]%elem_of_app.
    + destruct (Hl2 f Hf) as [(x & sd & c0 & Hgx & Hcx & ->)|Hq]; [|by right]. left. exists x, sd, c0.
      split_and!; [done| |done]. rewrite lookup_insert_ne; [done|]. intros <-. rewrite Hg in Hgx. injection Hgx as <-.
      by apply (Hother _ _ Hcx).
    + apply list_elem_of_singleton in Hf as ->. left. exists e, seed, ct. by rewrite lookup_insert_eq.
  - intros x pk c0. rewrite lookup_insert_Some. intros [[<- [= <- <-]]|[Hne Hx]].
    + split; [done|]. exists ss. split; [by exists seedr|]. intros v Hv. destruct (Hst _ _ Hv) as [[Hq _]|[_ Hq]]; done.
    + destruct (Hca _ _ _ Hx) as (Hu & s0 & Hs0 & Hv0). split; [done|]. exists s0. split; [done|]. intros v Hv.
      destruct (Hst _ _ Hv) as [[_ Hq]|[Hq _]]; [by apply Hv0|done].
  - intros x [v Hv]. apply lookup_insert_is_Some. destruct (Hst _ _ Hv) as [[Hne Hq]|[-> _]]; [|by left].
    right. split; [done|]. apply Hbs. by eexists.
  - intros x v Hv. destruct (Has x v Hv) as (sd & Hgx & Hq). exists sd. split; [done|]. intros pk c0.
    rewrite lookup_insert_Some. intros [[<- [= <- <-]]|[Hne Hx]]; [|by apply Hq]. exfalso.
    rewrite Hg in Hgx. injection Hgx as <-. destruct (hs_resp_cache b !! e) as [[pk0 ct0]|] eqn:Ec.
    + destruct (Hq _ _ eq_refl) as [-> _]. by apply (Hother _ _ eq_refl).
    + by rewrite (Hno eq_refl) in Hv.
Qed.

Lemma step_to_b now seedr f G s : inv G s -> event_ok s (LToB now seedr f) -> inv G (link_do s (LToB now seedr f)).
Proof.
  intros Hi Hok. pose proof (fun m recv e blob => heard_by_b now f G s m recv e blob Hi Hok) as Hh.
  destruct s as [a r b ab ba]. cbn [link_do ln_a ln_b] in *. pose proof (li_cfgb _ _ _ _ _ Hi) as Hcb. cbn [ln_b] in Hcb.
  assert (Hsame : inv G (mkLink a r b ab (ba ++ []))) by (by rewrite app_nil_r).
  unfold handle_pqc. destruct (recv_kind (kind f)) as [[m recv]|] eqn:Ek; [|done].
  destruct (accept now cb m (payload f) recv) as [[e blob]|] eqn:Ea.
  2:{ destruct m; [unfold handle_init|unfold handle_resp|unfold handle_resync_request]; by rewrite Hcb, Ea. }
  destruct (Hh _ _ _ _ eq_refl Ea) as (-> & He & seed & Hg & -> & Hn). unfold handle_init. rewrite Hcb, Ea.
  destruct (hs_resp_cache b !! e) as [[pk ct]|] eqn:Ec.
  - case_bool_decide as Hpk.
    + subst pk. destruct Hi. cbn [ln_a ln_rot ln_b ln_ab ln_ba] in *. split; cbn [ln_a ln_rot ln_b ln_ab ln_ba]; try done.
      intros g [Hgin|Hgin]%elem_of_app; [by apply li_ba0|]. apply list_elem_of_singleton in Hgin as ->. left. by exists e, seed, ct.
    + destruct (init_encap seedr b e (pub k seed) true) as [b' out] eqn:Ei.
      apply (encap_ok seedr G a r b ab ba e seed true b' out); try done; rewrite Ec; try done. by intros ?? [= <- <-].
  - destruct (init_encap seedr b e (pub k seed) false) as [b' out] eqn:Ei.
    apply (encap_ok seedr G a r b ab ba e seed false b' out); try done; rewrite Ec; [done..|by intros []].
Qed.

Lemma step_to_a now seedr f G s : inv G s -> event_ok s (LToA now seedr f) -> inv G (link_do s (LToA now seedr f)).
Proof.
  intros Hi Hok. pose proof (fun m recv e blob => heard_by_a now f G s m recv e blob Hi Hok) as Hh.
  destruct s as [a r b ab ba]. cbn [link_do ln_a ln_b] in *. pose proof (co_cfg _ _ _ _ _ (li_core _ _ _ _ _ Hi)) as Hcfg.
  cbn [ln_a] in Hcfg. assert (Hsame : inv G (mkLink a r b (ab ++ []) ba)) by (by rewrite app_nil_r).
  unfold handle_pqc. destruct (recv_kind (kind f)) as [[m recv]|] eqn:Ek; [|done].
  destruct (accept now ca m (payload f) recv) as [[e blob]|] eqn:Ea.
  2:{ destruct m; [unfold handle_init|unfold handle_resp|unfold handle_resync_request]; by rewrite Hcfg, Ea. }
  rewrite app_nil_r in Hsame. destruct (Hh _ _ _ _ eq_refl Ea) as [(-> & seed & Hg & Hct)| ->]; rewrite app_nil_r.
  - unfold handle_resp. rewrite Hcfg, Ea. destruct (ss_contains (hs_store a) e) eqn:Ect; [done|].
    destruct (hs_pending_sk a !! e) as [sk|] eqn:Esk; [|done]. rewrite Hsuite.
    destruct Hi as [Hc Hp Hr Hcb Hl1 Hl2 Hca Hbs Has]. cbn [ln_a ln_rot ln_b ln_ab ln_ba] in *.
    destruct (co_sk _ _ _ _ _ Hc e sk Esk) as (sd & Hg' & -> & _). rewrite Hg in Hg'. injection Hg' as <-.
    destruct (Hca _ _ _ Hct) as (Hu & ss & Henc & Hbv). destruct (encaps_decap _ _ _ _ Henc) as [Hd Hlen]. rewrite Hd.
    unfold publish_inner. rewrite Hlen. cbn [negb Z.eqb Pos.eqb].
    destruct (insert_ok k ca G a r e ss Hc Hp ltac:(by eexists)) as [Hc' Hp'].
    split; cbn [ln_a ln_rot ln_b ln_ab ln_ba]; try done.
    + cbn [with_store hs_store]. unfold ss_insert. by destruct (ss_inner (hs_store a) !! e).
    + intros g Hgin. destruct (Hl1 g Hgin) as (x & sx & Hgx & -> & Hn). exists x, sx. split_and!; [done|done|].
      intros Hno. cbn [with_store hs_store].
      destruct (ss_inner (ss_insert (hs_store a) e ss) !! x) as [v|] eqn:Ev; [|done].
      apply insert_lookup in Ev as [Ev|(-> & _)]; [by rewrite (Hn Hno) in Ev|by rewrite Hno in Hct].
    + intros x v Hv. apply insert_lookup in Hv as [Hv|(-> & -> & _)]; [by apply Has|].
      exists seed. split; [done|]. intros pk ct Hx. rewrite Hct in Hx. by injection Hx as <- <-.
  - unfold handle_resync_request. rewrite Hcfg, Ea. destruct (is_initiator ca); cbn [negb]; [|done].
    destruct Hi. cbn [ln_a ln_rot ln_b ln_ab ln_ba] in *. split; cbn [ln_a ln_rot ln_b ln_ab ln_ba]; try done.
    + by apply (core_same _ _ _ a).
    + cbn. lia.
Qed.

Lemma step_resync_b now G s : inv G s -> inv G (link_do s (LResyncB now)).
Proof.
  intros Hi. destruct s as [a r b ab ba]. cbn [link_do]. unfold resync_loop.
  assert (Hsame : inv G (mkLink a r b ab (ba ++ []))) by (by rewrite app_nil_r).
  destruct (resync_requested (hs_store b)) as [st [pe|]] eqn:Er; [|done].
  assert (Est : ss_inner st = ss_inner (hs_store b)) by (unfold resync_requested in Er; by injection Er as <- _).
  set (b1 := with_store st b). destruct Hi. cbn [ln_a ln_rot ln_b ln_ab ln_ba] in *.
  assert (Hhi : is_u 32 (default 0 (ss_highest st))).
  { destruct (ss_highest st) as [h|] eqn:Eh; [|done]. apply highest_in in Eh. rewrite Est in Eh.
    destruct (li_bstore0 _ Eh) as [[pk ct] Hx]. by destruct (li_cache0 _ _ _ Hx). }
  destruct (match hs_last_resync_req b1 with Some _ => _ | None => false end).
  { rewrite app_nil_r. split; cbn [ln_a ln_rot ln_b ln_ab ln_ba b1 with_store hs_cfg hs_resp_cache hs_store]; rewrite ?Est; done. }
  split; cbn [ln_a ln_rot ln_b ln_ab ln_ba b1 with_store with_resync_req hs_cfg hs_resp_cache hs_store]; rewrite ?Est; try done.
  intros f [Hf|Hf]%elem_of_app; [by apply li_ba0|]. apply list_elem_of_singleton in Hf as ->. right.
  exists (default 0 (ss_highest st)). by rewrite <- li_cfgb0.
Qed.

Lemma step_ok G s ev : inv G s -> event_ok s ev -> exists G', inv G' (link_do s ev).
Proof.
  intros Hi Hok. destruct ev as [now seed e|now seed f|now seed f|now|e|e|now|].
  - by apply (step_rot now seed e G).
  - exists G. by apply step_to_a.
  - exists G. by apply step_to_b.
  - exists G. by apply step_resync_b.
  - exists G. destruct s as [a r b ab ba], Hi. cbn [link_do ln_a ln_rot ln_b ln_ab ln_ba event_ok] in *.
    split; cbn [ln_a ln_rot ln_b ln_ab ln_ba]; try done; [by apply (core_same _ _ _ a)|].
    cbn. ufold. lia.
  - exists G. by destruct s as [a r b ab ba], Hi.
  - exists ∅. destruct s as [a r b ab ba], Hi. cbn [link_do ln_a ln_rot ln_b ln_ab ln_ba] in *.
    rewrite (co_cfg _ _ _ _ _ li_core0). destruct (core_start k ca Hla now _ (co_keep _ _ _ _ _ li_core0)) as [Hc Hp].
    split; cbn [ln_a ln_rot ln_b ln_ab ln_ba]; try done; by intros ? ?%elem_of_nil.
  - exists G. destruct s as [a r b ab ba], Hi. cbn [link_do ln_a ln_rot ln_b ln_ab ln_ba] in *.
    split; cbn [ln_a ln_rot ln_b ln_ab ln_ba fresh_end hs_new hs_cfg hs_resp_cache hs_store]; try done; try (by intros ? ?%elem_of_nil).
    + by intros e [].
    + intros e v Hv. destruct (li_astore0 e v Hv) as (seed & Hg & _). by exists seed.
Qed.

Lemma reach_inv now ka kb s : (0 < ka)%nat -> link_reach (link_init now ca cb ka kb) s -> exists G, inv G s.
Proof.
  intros Hk. induction 1 as [|s ev _ [G IH] Hok]; [|by eapply step_ok].
  exists ∅. destruct (core_start k ca Hla now ka Hk) as [Hc Hp]. split; try done; try (by intros ? ?%elem_of_nil).
  by intros e [].
Qed.
End Steps.

(** C2: both ends of a PQC link hold the same secret for every epoch both hold.
    Whatever is lost, repeated or reordered, however often the initiator's task
    times out, rotates or re-links, whatever epochs the data path asks to resync
    to, and across restarts of either end with a new connection, no epoch ever has
    two secrets, provided what an end accepts was sent by the other end in the
    present connection. *)
Theorem handshake_agreement (k : ParamSet) (ca cb : HsCfg) (t0 now : Z) (ka kb : nat) (s : Link) (e : Z) (v w : bytes)
  (Hsuite : kem_for (hc_suite ca) = Ok k) (Hla : is_u 32 (hc_lookahead ca)) (Hkeep : (0 < ka)%nat)
  (Hab : hears t0 ca cb) (Hba : hears t0 cb ca)
  (Hreach : link_reach (link_init now ca cb ka kb) s)
  (Ha : ss_get (hs_store (ln_a s)) e = Some v) (Hb : ss_get (hs_store (ln_b s)) e = Some w) :
  v = w.
Proof.
  destruct (reach_inv k ca cb t0 Hsuite Hla Hab Hba now ka kb s Hkeep Hreach) as [G Hi].
  by apply (link_inv_agrees k ca cb G s e).
Qed.

(** ** Progress *)

Lemma insert_top st e v : (0 < ss_keep st)%nat -> ss_inner st !! e = None ->
  (forall x, is_Some (ss_inner st !! x) -> x <= e) -> ss_inner (ss_insert st e v) !! e = Some v.
Proof.
  intros Hk Hn Hmax. pose proof (insert_keeps_highest st e v) as Hi. unfold ss_get in Hi. rewrite Hn in Hi. destruct Hi as [Ht _].
  destruct (top_keeps _ _ _ e Ht Hk) as [w Hw].
  - rewrite lookup_insert_eq. by eexists.
  - intros x [->|[_ Hx]]%lookup_insert_is_Some; [lia|by apply Hmax].
  - rewrite Hw. destruct Ht as [Hsub _ _]. apply (lookup_weaken _ _ _ _ Hw) in Hsub. by rewrite lookup_insert_eq in Hsub.
Qed.

(** A frame as it was sent reaches the handler of its message. *)
Lemma handle_sent_init now seedr c d b e blob : hears now c d -> hs_cfg b = d -> is_u 32 e ->
  handle_pqc now seedr b (send_handshake c MInit e blob) =
  match hs_resp_cache b !! e with
  | Some (pk, ct) => if bool_decide (pk = blob) then (b, [send_handshake d MResp e ct]) else init_encap seedr b e blob true
  | None => init_encap seedr b e blob false
  end.
Proof.
  intros Hh Hd He. destruct (sent_accepted now c d MInit e blob Hh He) as (recv & Hk & Ha).
  unfold handle_pqc. rewrite Hk. unfold handle_init. rewrite Hd, Ha. done.
Qed.

Lemma handle_sent_resp now seedr c d a e ct : hears now c d -> hs_cfg a = d -> is_u 32 e ->
  ss_inner (hs_store a) !! e = None ->
  forall k seed ss, hs_pending_sk a !! e = Some (sec k seed) -> kem_for (hc_suite d) = Ok k ->
  decap k (sec k seed) ct = Ok ss -> zlen ss = 32 ->
  handle_pqc now seedr a (send_handshake c MResp e ct) = (with_store (ss_insert (hs_store a) e ss) a, []).
Proof.
  intros Hh Hd He Hn k seed ss Hsk Hk Hdec Hl. destruct (sent_accepted now c d MResp e ct Hh He) as (recv & Hkd & Ha).
  unfold handle_pqc. rewrite Hkd. unfold handle_resp. rewrite Hd, Ha, (proj2 (contains_false _ _) Hn), Hsk, Hk, Hdec.
  unfold publish_inner. by rewrite Hl.
Qed.

(** One exchange establishes an epoch: the responder that gets the INIT of a
    new epoch stores a secret and answers with one RESP, the initiator that gets
    it stores the same secret, and a second copy of the INIT is answered with the
    same RESP and changes nothing. *)
Theorem exchange_establishes (k : ParamSet) (now1 now2 now3 : Z) (seed r1 r2 r3 : bytes) (a b : PqcHandshake) (e : Z)
  (Hk : kem_for (hc_suite (hs_cfg a)) = Ok k) (He : is_u 32 e)
  (Hab1 : hears now1 (hs_cfg a) (hs_cfg b)) (Hab3 : hears now3 (hs_cfg a) (hs_cfg b)) (Hba : hears now2 (hs_cfg b) (hs_cfg a))
  (Hka : (0 < ss_keep (hs_store a))%nat) (Hkb : (0 < ss_keep (hs_store b))%nat)
  (Hpend : hs_pending_sk a !! e = Some (sec k seed)) (Hnew : hs_resp_cache b !! e = None)
  (Ha : forall x, is_Some (ss_inner (hs_store a) !! x) -> x < e)
  (Hb : forall x, is_Some (ss_inner (hs_store b) !! x) -> x < e) :
  let init := send_handshake (hs_cfg a) MInit e (pub k seed) in
  exists b' resp ss, handle_pqc now1 r1 b init = (b', [resp])
    /\ ss_get (hs_store (handle_pqc now2 r2 a resp).1) e = Some ss
    /\ ss_get (hs_store b') e = Some ss /\ zlen ss = 32
    /\ handle_pqc now3 r3 b' init = (b', [resp]).
Proof.
  intros init. assert (Hna : ss_inner (hs_store a) !! e = None).
  { destruct (ss_inner (hs_store a) !! e) eqn:E; [|done]. assert (e < e); [|lia]. apply Ha. by eexists. }
  assert (Hnb : ss_inner (hs_store b) !! e = None).
  { destruct (ss_inner (hs_store b) !! e) eqn:E; [|done]. assert (e < e); [|lia]. apply Hb. by eexists. }
  destruct (kem_roundtrip k seed r1) as (ct & ss & Hen & Hdec & Hlen & _). fold (pub k seed) in Hen. fold (sec k seed) in Hdec.
  set (b1 := with_store (ss_insert (hs_store b) e ss) b).
  exists (with_cache (<[e := (pub k seed, ct)]> (hs_resp_cache b)) b1), (send_handshake (hs_cfg b) MResp e ct), ss.
  assert (Hsb : kem_for (hc_suite (hs_cfg b)) = Ok k) by (by rewrite (hr_suite _ _ _ Hab1)).
  split_and!; [| | |done|].
  - unfold init. rewrite (handle_sent_init _ _ _ (hs_cfg b)), Hnew by done. unfold init_encap. rewrite Hsb, Hen.
    unfold publish_inner. cbn [ke_shared_secret ke_ciphertext]. by rewrite Hlen.
  - rewrite (handle_sent_resp now2 r2 (hs_cfg b) (hs_cfg a) a e ct Hba eq_refl He Hna k seed ss) by done.
    cbn [fst with_store hs_store]. apply insert_top; [done..|]. intros x Hx%Ha. lia.
  - cbn [with_cache hs_store b1 with_store]. apply insert_top; [done..|]. intros x Hx%Hb. lia.
  - unfold init. rewrite (handle_sent_init _ _ _ (hs_cfg b)) by done. cbn [with_cache hs_resp_cache].
    by rewrite lookup_insert_eq, bool_decide_eq_true_2.
Qed.

(** ** The loop of [establish] ends

    A schedule is the list of the times at which the loop takes a turn, each with
    what other tasks did to the state since. *)

Fixpoint establish_loop (sched : list (Z * (PqcHandshake -> PqcHandshake))) (who : Caller) (e : Z) (pk : bytes) (started : Z)
  (h : PqcHandshake) (r : Rotation) : list Frame * option (PqcHandshake * Rotation) :=
  match sched with
  | [] => ([], None)
  | (now, others) :: sched =>
      match establish_turn now who e pk started (others h) r with
      | (h', r', []) => ([], Some (h', r'))
      | (h', r', out) => let '(rest, ans) := establish_loop sched who e pk started h' r' in (out ++ rest, ans)
      end
  end.

(** Turns at least [INIT_RETRY] apart. *)
Fixpoint spaced (from : Z) (sched : list (Z * (PqcHandshake -> PqcHandshake))) : Prop :=
  match sched with
  | [] => True
  | (now, _) :: sched => from <= now /\ spaced (now + INIT_RETRY) sched
  end.

Lemma establish_loop_bound sched : forall who e pk started h r n,
  spaced (started + INIT_RETRY * n) sched -> 0 <= n ->
  let '(out, ans) := establish_loop sched who e pk started h r in
  zlen out <= Z.max 0 (200 - n) /\ (200 - n < zlen sched -> sched <> [] -> is_Some ans).
Proof.
  induction sched as [|[now others] sched IH]; intros who e pk started h r n Hsp Hn; cbn [establish_loop].
  { rewrite zlen_nil. split; [lia|done]. }
  destruct Hsp as [Hnow Hsp]. unfold establish_turn. destruct (ss_contains (hs_store (others h)) e).
  { destruct (loop_next _ _ _ _) as [h' r']. rewrite zlen_nil. split; [lia|by eexists]. }
  destruct (Z.leb_spec ESTABLISH_TIMEOUT (now - started)) as [Hto|Hto].
  { rewrite zlen_nil. split; [lia|by eexists]. }
  unfold ESTABLISH_TIMEOUT, INIT_RETRY in *.
  specialize (IH who e pk started (others h) r ((now - started + 300) / 300)).
  pose proof (Z_div_mod_eq_full (now - started + 300) 300). pose proof (Z.mod_pos_bound (now - started + 300) 300 ltac:(lia)).
  destruct (establish_loop sched who e pk started (others h) r) as [out ans]. destruct IH as [H1' H2'].
  { destruct sched as [|[n2 o2] sched]; [done|]. destruct Hsp as [Hq Hsp]. split; [lia|exact Hsp]. }
  { lia. }
  rewrite zlen_app, zlen_cons, zlen_nil. split; [lia|]. intros Hl _. rewrite zlen_cons in Hl. apply H2'; [lia|].
  intros ->. rewrite zlen_nil in Hl. lia.
Qed.

(** [establish] ends, whatever the peer and the other tasks do: with turns at
    least 300 ms apart it sends at most 200 INITs and has answered by its 201st
    turn, so the task is never kept from reconnections and resyncs for more than a
    minute. *)
Theorem establish_ends (sched : list (Z * (PqcHandshake -> PqcHandshake))) (who : Caller) (e : Z) (pk : bytes) (started : Z)
  (h : PqcHandshake) (r : Rotation) (Hsp : spaced started sched) (Hlen : 201 <= zlen sched) :
  let '(out, ans) := establish_loop sched who e pk started h r in zlen out <= 200 /\ is_Some ans.
Proof.
  pose proof (establish_loop_bound sched who e pk started h r 0) as Hb.
  destruct (establish_loop sched who e pk started h r) as [out ans].
  destruct Hb as [Hb1 Hb2]; [unfold INIT_RETRY; by rewrite Z.mul_0_r, Z.add_0_r|done|].
  split; [lia|]. apply Hb2; [lia|]. intros ->. by rewrite zlen_nil in Hlen.
Qed.

(** A resync moves a link by a bounded number of epochs, also when the epoch
    it was asked for was forged: the new block starts right above the own window,
    at most 1024 epochs further, never reuses the last epoch number, is above the
    peer's epoch when that is within reach, and two re-links are at least five
    seconds apart. *)
Theorem resync_jump_bounded (now pe : Z) (h h' : PqcHandshake) (r r' : Rotation) (base aim : Z)
  (Hpe : is_u 32 pe) (Hla : is_u 32 (hc_lookahead (hs_cfg h)))
  (Hst : forall x, is_Some (ss_inner (hs_store h) !! x) -> is_u 32 x)
  (Hidle : rt_pc r = RIdle) (Hre : relink now pe h r = (h', r')) (Hpc : rt_pc r' = RCall (CRelink base aim) base) :
  let top := default (-1) (ss_highest (hs_store h)) in
  top < base <= top + 1 + MAX_RESYNC_JUMP /\ base <= aim < u_max 32 /\ aim = base + hc_lookahead (hs_cfg h)
  /\ (pe <= top + MAX_RESYNC_JUMP -> pe < base)
  /\ (forall prev, hs_last_relink h = Some prev -> prev + RELINK_MIN_INTERVAL <= now).
Proof.
  unfold relink in Hre. destruct (match hs_last_relink h with Some _ => _ | None => false end) eqn:Erec.
  { injection Hre as <- <-. by rewrite Hidle in Hpc. }
  destruct (resync_base _ _ _) as [base' aim'] eqn:Eb. destruct (Z.eqb_spec aim' (u_max 32)) as [_|Hne].
  { injection Hre as <- <-. by rewrite Hidle in Hpc. }
  injection Hre as <- <-. cbn [with_pc rt_pc] in Hpc. injection Hpc as -> -> _.
  unfold resync_base in Eb. cbn [with_relink hs_store hs_cfg] in Eb. injection Eb as Eb Ea.
  assert (Htop : forall x, ss_highest (hs_store h) = Some x -> is_u 32 x) by (intros x Hx; by apply Hst, highest_in).
  intros top. unfold sat_add, MAX_RESYNC_JUMP in *.
  assert (Hrec : forall prev, hs_last_relink h = Some prev -> prev + RELINK_MIN_INTERVAL <= now).
  { intros prev E. rewrite E in Erec. apply Z.ltb_ge in Erec. lia. }
  destruct (ss_highest (hs_store h)) as [x|] eqn:Ex; cbn [default] in *.
  - specialize (Htop x eq_refl). unfold top. cbn [default from_option id] in *. ufold. split_and!; try exact Hrec; try lia; intros; lia.
  - unfold top. cbn [default from_option id] in *. ufold. split_and!; try exact Hrec; try lia; intros; lia.
Qed.

(** ** What goes wrong *)

(** An answer from before a restart poisons an epoch.  A RESP the responder had
    queued for the key pair of the initiator's previous run is genuine and passes
    every check, the restarted initiator decapsulates it with its new key into
    another secret, and the right RESP that follows is ignored: the two ends keep
    different secrets for the epoch. *)
Theorem late_resp_diverges (k : ParamSet) (now : Z) (sA sB seed : bytes) (ct_old ct w ss : bytes) (a b : PqcHandshake) (e : Z)
  (Hk : kem_for (hc_suite (hs_cfg a)) = Ok k) (He : is_u 32 e) (Hba : hears now (hs_cfg b) (hs_cfg a))
  (Hka : (0 < ss_keep (hs_store a))%nat) (Hpend : hs_pending_sk a !! e = Some (sec k seed))
  (Ha : forall x, is_Some (ss_inner (hs_store a) !! x) -> x < e)
  (Hold : decap k (sec k seed) ct_old = Ok w) (Hw : zlen w = 32)
  (Hb : ss_get (hs_store b) e = Some ss) (Hne : w <> ss) :
  let a1 := (handle_pqc now sA a (send_handshake (hs_cfg b) MResp e ct_old)).1 in
  let a2 := (handle_pqc now sB a1 (send_handshake (hs_cfg b) MResp e ct)).1 in
  ss_get (hs_store a2) e = Some w /\ ss_get (hs_store a2) e <> ss_get (hs_store b) e.
Proof.
  intros a1 a2. assert (Hna : ss_inner (hs_store a) !! e = None).
  { destruct (ss_inner (hs_store a) !! e) eqn:E; [|done]. assert (e < e); [|lia]. apply Ha. by eexists. }
  assert (E1 : ss_inner (hs_store a1) !! e = Some w).
  { unfold a1. rewrite (handle_sent_resp now sA (hs_cfg b) (hs_cfg a) a e ct_old Hba eq_refl He Hna k seed w) by done.
    cbn [fst with_store hs_store]. apply insert_top; [done..|]. intros x Hx%Ha. lia. }
  assert (Hc1 : hs_cfg a1 = hs_cfg a).
  { unfold a1. by rewrite (handle_sent_resp now sA (hs_cfg b) (hs_cfg a) a e ct_old Hba eq_refl He Hna k seed w). }
  assert (E2 : a2 = a1).
  { unfold a2. destruct (sent_accepted now (hs_cfg b) (hs_cfg a) MResp e ct Hba He) as (recv & Hkd & Hac).
    unfold handle_pqc. rewrite Hkd. unfold handle_resp. rewrite Hc1, Hac.
    rewrite (proj2 (contains_true (hs_store a1) e)); [done|]. rewrite E1. by eexists. }
  rewrite E2. unfold ss_get in *. rewrite E1. split; [done|]. rewrite Hb. congruence.
Qed.

(** Authentication does not keep an old INIT out.  An INIT the initiator sent
    for an epoch before it restarted, repeated by anyone after the epoch was
    agreed again, is accepted: the responder encapsulates to the old key and
    replaces the live secret with one the initiator cannot know. *)
Theorem replayed_init_replaces_secret (k : ParamSet) (now : Z) (old r : bytes) (pk_live ct_live ct ss : bytes) (ca : HsCfg) (b : PqcHandshake) (e : Z)
  (Hk : kem_for (hc_suite ca) = Ok k) (He : is_u 32 e) (Hab : hears now ca (hs_cfg b))
  (Hlive : hs_resp_cache b !! e = Some (pk_live, ct_live)) (Hother : pk_live <> pub k old)
  (Hin : is_Some (ss_get (hs_store b) e)) (Hfit : (size (ss_inner (hs_store b)) <= ss_keep (hs_store b))%nat)
  (Henc : encap k (pub k old) r = Ok (mkEncap ct ss)) :
  ss_get (hs_store (handle_pqc now r b (send_handshake ca MInit e (pub k old))).1) e = Some ss.
Proof.
  rewrite (handle_sent_init _ _ _ (hs_cfg b)), Hlive, bool_decide_eq_false_2 by done.
  unfold init_encap. rewrite (hr_suite _ _ _ Hab), Hk, Henc. unfold publish_inner. cbn [ke_shared_secret ke_ciphertext].
  destruct (encaps_decap k old ct ss) as [_ Hlen]; [by exists r|]. rewrite Hlen.
  cbn [negb Z.eqb Pos.eqb fst with_cache hs_store with_store]. unfold ss_get in *.
  destruct (ss_replace_top (hs_store b) e ss) as [Hsub Hsize _].
  rewrite map_size_insert_Some in Hsize by done.
  assert (Heq : ss_inner (ss_replace (hs_store b) e ss) = <[e := ss]> (ss_inner (hs_store b))).
  { apply map_subseteq_size_eq; [done|]. rewrite map_size_insert_Some by done. lia. }
  rewrite Heq. apply lookup_insert_eq.
Qed.

(** The task left alone: it runs on and its retry timer fires, nothing else. *)
Fixpoint left_alone (evs : list (Z * bytes * bool)) (h : PqcHandshake) (r : Rotation) : PqcHandshake * Rotation * list Frame :=
  match evs with
  | [] => (h, r, [])
  | (now, seed, retry) :: evs =>
      let '(h, r, out) := rotation_do now seed (if retry then EvRetry else EvRun) h r in
      let '(h, r, rest) := left_alone evs h r in (h, r, out ++ rest)
  end.

Lemma idle_without_work evs : forall h r, rt_pc r = RIdle -> rt_need_work r = false -> left_alone evs h r = (h, r, []).
Proof.
  induction evs as [|[[now seed] retry] evs IH]; intros h r Hpc Hw; [done|]. cbn [left_alone].
  assert (E : rotation_do now seed (if retry then EvRetry else EvRun) h r = (h, r, [])).
  { unfold rotation_do. rewrite Hpc. destruct retry; [by rewrite Hw|done]. }
  rewrite E, IH by done. done.
Qed.

(** A start in which the first epoch is answered and the next is not is never
    taken up again: the first answer clears the mark that work is left, so the
    retry timer that the timeout arms is not listened to, and as long as nothing
    rotates, reconnects or resyncs the task sends no INIT again. *)
Theorem startup_gap_is_not_retried (k : ParamSet) (h : PqcHandshake) (t n1 n2 n3 : Z) (pk s1 s2 s3 : bytes) (evs : list (Z * bytes * bool))
  (Hk : kem_for (hc_suite (hs_cfg h)) = Ok k) (Hla : 1 <= hc_lookahead (hs_cfg h))
  (Hc0 : ss_contains (hs_store h) 0 = true) (Hc1 : ss_contains (hs_store h) 1 = false)
  (Hp : hs_pending_sk h !! 1 = None) (Hto : n2 + ESTABLISH_TIMEOUT <= n3) :
  let r := mkRot (hc_lookahead (hs_cfg h)) true None t (RWait CStart 0 pk t) in
  let '(h1, r1, out1) := left_alone [(n1, s1, false); (n2, s2, false); (n3, s3, false)] h r in
  let '(h2, r2, out2) := left_alone evs h1 r1 in
  rt_retry_at r1 = n3 + ESTABLISH_RETRY /\ ss_contains (hs_store h1) 1 = false
  /\ out2 = [] /\ ss_contains (hs_store h2) 1 = false.
Proof.
  intros r. set (la := hc_lookahead (hs_cfg h)) in *.
  set (h1 := with_keys (delete 0 (hs_pending_sk h)) (delete 0 (hs_pending_pk h)) h).
  set (kp := keygen k s2).
  set (h2 := with_keys (<[1 := kp_secret kp]> (hs_pending_sk h1)) (<[1 := kp_public kp]> (hs_pending_pk h1)) h1).
  assert (E1 : rotation_do n1 s1 EvRun h r = (h1, mkRot la false None t (RCall CStart 1), [])).
  { unfold rotation_do, establish_turn. cbn [r rt_pc]. rewrite Hc0. unfold loop_next. cbn [loop_end hs_cfg with_keys].
    fold la. destruct (Z.ltb_spec 0 la); [done|lia]. }
  assert (E2 : rotation_do n2 s2 EvRun h1 (mkRot la false None t (RCall CStart 1))
    = (h2, mkRot la false None t (RWait CStart 1 (kp_public kp) n2), [])).
  { unfold rotation_do, establish_enter. cbn [rt_pc h1 with_keys hs_store hs_pending_sk hs_pending_pk hs_cfg].
    rewrite Hc1, lookup_delete_ne, Hp, Hk by done. done. }
  assert (E3 : rotation_do n3 s3 EvRun h2 (mkRot la false None t (RWait CStart 1 (kp_public kp) n2))
    = (h2, mkRot la false None (n3 + ESTABLISH_RETRY) RIdle, [])).
  { unfold rotation_do, establish_turn. cbn [rt_pc h2 h1 with_keys hs_store]. rewrite Hc1.
    destruct (Z.leb_spec ESTABLISH_TIMEOUT (n3 - n2)); [done|lia]. }
  cbn [left_alone]. rewrite E1, E2, E3. cbn [app]. rewrite idle_without_work by done.
  cbn [rt_retry_at]. split_and!; [done|exact Hc1|done|exact Hc1].
Qed.
End System.

(** ** The theorems on a concrete link *)

Lemma authentic_sent now t c d m e blob sent : hears now c d -> hears t c d -> is_u 32 e ->
  let f := send_handshake c m e blob in f ∈ sent -> wf_bytes (payload f) -> authentic now c d sent f.
Proof.
  intros Hn Ht He f Hf Hw. split; [done|]. intros m' recv e' b' Hk Ha.
  destruct (sent_accepted now c d m e blob Hn He) as (recv' & Hk' & Ha'). fold f in Hk', Ha'.
  rewrite Hk in Hk'. injection Hk' as -> ->. rewrite Ha in Ha'. by injection Ha' as -> ->.
Qed.

Definition init_0 : Frame := send_handshake cfg_a MInit 0 (pub MlKem512 [5]).
Definition link_0 : Link := link_init 0 cfg_a cfg_b 3 3.
Definition link_1 : Link := link_do link_0 (LRot 0 [5] EvRun).
Definition link_2 : Link := link_do link_1 (LRot 0 [] EvRun).
Definition link_3 : Link := link_do link_2 (LToB 1 [6] init_0).
Definition resp_0 : Frame := default init_0 (head (ln_ba link_3)).
Definition link_4 : Link := link_do link_3 (LToA 2 [] resp_0).
Definition secret_0 : bytes := default [] (ss_get (hs_store (ln_b link_3)) 0).

Lemma resp_0_sent : resp_0 = send_handshake cfg_b MResp 0 (pad 768 [6]).
Proof. vm_compute. reflexivity. Qed.

Lemma link_4_reached : link_reach link_0 link_4.
Proof.
  unfold link_4. apply lr_step.
  - unfold link_3. apply lr_step.
    + unfold link_2. apply lr_step; [|exact I]. unfold link_1. apply lr_step; [apply lr_init|exact I].
    + apply (authentic_sent 1 0 cfg_a cfg_b MInit 0 (pub MlKem512 [5])); [apply a_heard..|done| |].
      * vm_compute. left.
      * apply (bool_decide_unpack _). vm_compute. exact I.
  - cbn [event_ok]. rewrite resp_0_sent. apply (authentic_sent 2 0 cfg_b cfg_a MResp 0 (pad 768 [6])); [apply b_heard..|done| |].
    + rewrite <- resp_0_sent. vm_compute. left.
    + apply (bool_decide_unpack _). vm_compute. exact I.
Qed.

Lemma handshake_agreement_witness :
  ss_get (hs_store (ln_a link_4)) 0 = Some secret_0 /\ secret_0 = secret_0.
Proof.
  split; [vm_compute; reflexivity|].
  apply (handshake_agreement MlKem512 cfg_a cfg_b 0 0 3 3 link_4 0 secret_0 secret_0).
  - reflexivity.
  - done.
  - lia.
  - apply a_heard.
  - apply b_heard.
  - exact link_4_reached.
  - vm_compute. reflexivity.
  - vm_compute. reflexivity.
Defined.

(** The initiator waiting for epoch 0, and a responder that has just started. *)
Definition waiting_a : PqcHandshake := ln_a link_2.

Lemma exchange_establishes_witness :
  exists b' resp ss, handle_pqc 0 [6] (fresh_end cfg_b 3) init_0 = (b', [resp])
    /\ ss_get (hs_store (handle_pqc 1 [] waiting_a resp).1) 0 = Some ss
    /\ ss_get (hs_store b') 0 = Some ss /\ zlen ss = 32
    /\ handle_pqc 2 [8] b' init_0 = (b', [resp]).
Proof.
  assert (Hnone : forall x, ~ is_Some ((∅ : gmap Z bytes) !! x)) by (intros x; rewrite lookup_empty; by intros []).
  apply (exchange_establishes MlKem512 0 1 2 [5] [6] [] [8] waiting_a (fresh_end cfg_b 3) 0).
  - reflexivity.
  - done.
  - apply a_heard.
  - apply a_heard.
  - apply b_heard.
  - vm_compute. lia.
  - vm_compute. lia.
  - vm_compute. reflexivity.
  - reflexivity.
  - intros x Hx. exfalso. exact (Hnone x Hx).
  - intros x Hx. exfalso. exact (Hnone x Hx).
Defined.

Definition silent_sched : list (Z * (PqcHandshake -> PqcHandshake)) :=
  map (fun i => (300 * Z.of_nat i, fun h => h)) (seq 0 201).

Lemma establish_ends_witness :
  let '(out, ans) := establish_loop silent_sched CStart 0 [1] 0 (fresh_end cfg_a 3) (rotation_new 0 cfg_a) in
  zlen out <= 200 /\ is_Some ans.
Proof.
  apply (establish_ends silent_sched CStart 0 [1] 0 (fresh_end cfg_a 3) (rotation_new 0 cfg_a)).
  - repeat split; vm_compute; discriminate.
  - vm_compute. discriminate.
Defined.

(** An initiator with epoch 0 that is told of epoch 4000000000. *)
Definition idle_rot : Rotation := mkRot 2 false None 0 RIdle.

Lemma resync_jump_bounded_witness :
  let top := 0 in
  top < 1025 <= top + 1 + MAX_RESYNC_JUMP /\ 1025 <= 1027 < u_max 32 /\ 1027 = 1025 + 2
  /\ (4000000000 <= top + MAX_RESYNC_JUMP -> 4000000000 < 1025)
  /\ (forall prev, (None : option Z) = Some prev -> prev + RELINK_MIN_INTERVAL <= 9000).
Proof.
  apply (resync_jump_bounded 9000 4000000000 (ln_a link_4) (fst (relink 9000 4000000000 (ln_a link_4) idle_rot))
    idle_rot (snd (relink 9000 4000000000 (ln_a link_4) idle_rot)) 1025 1027).
  - ufold. lia.
  - vm_compute. split; [discriminate|reflexivity].
  - intros x Hx. assert (E : ss_inner (hs_store (ln_a link_4)) = {[0 := secret_0]}) by (vm_compute; reflexivity).
    rewrite E in Hx. destruct Hx as [v Hx]. apply lookup_singleton_Some in Hx as [<- _]. ufold. lia.
  - reflexivity.
  - apply surjective_pairing.
  - vm_compute. reflexivity.
Defined.

(** The responder has answered key pair 5 of epoch 0; the initiator restarts with key pair 11. *)
Definition restarted_a : PqcHandshake := (establish_enter 5 [11] CStart 0 (fresh_end cfg_a 3) (rotation_new 5 cfg_a)).1.
Definition answered_b : PqcHandshake := (handle_pqc 6 [12] (ln_b link_3) (send_handshake cfg_a MInit 0 (pub MlKem512 [11]))).1.

Lemma late_resp_diverges_witness :
  let a1 := (handle_pqc 7 [] restarted_a (send_handshake cfg_b MResp 0 (pad 768 [6]))).1 in
  let a2 := (handle_pqc 7 [] a1 (send_handshake cfg_b MResp 0 (pad 768 [12]))).1 in
  ss_get (hs_store a2) 0 = Some (toy_ss (pad 800 [11]) (pad 768 [6]))
  /\ ss_get (hs_store a2) 0 <> ss_get (hs_store answered_b) 0.
Proof.
  apply (late_resp_diverges MlKem512 7 [] [] [11] (pad 768 [6]) (pad 768 [12]) (toy_ss (pad 800 [11]) (pad 768 [6]))
    (toy_ss (pad 800 [11]) (pad 768 [12])) restarted_a answered_b 0).
  - vm_compute. reflexivity.
  - ufold. lia.
  - apply b_heard.
  - vm_compute. lia.
  - vm_compute. reflexivity.
  - assert (E : ss_inner (hs_store restarted_a) = ∅) by (vm_compute; reflexivity).
    intros x [v Hx]. exfalso. rewrite E, lookup_empty in Hx. discriminate.
  - vm_compute. reflexivity.
  - vm_compute. reflexivity.
  - vm_compute. reflexivity.
  - vm_compute. discriminate.
Defined.

Lemma replayed_init_replaces_secret_witness :
  ss_get (hs_store (handle_pqc 8 [13] answered_b init_0).1) 0 = Some (toy_ss (pad 800 [5]) (pad 768 [13])).
Proof.
  apply (replayed_init_replaces_secret MlKem512 8 [5] [13] (pub MlKem512 [11]) (pad 768 [12]) (pad 768 [13])
    (toy_ss (pad 800 [5]) (pad 768 [13])) cfg_a answered_b 0).
  - vm_compute. reflexivity.
  - ufold. lia.
  - apply a_heard.
  - vm_compute. reflexivity.
  - vm_compute. discriminate.
  - vm_compute. by eexists.
  - vm_compute. lia.
  - vm_compute. reflexivity.
Defined.

Lemma startup_gap_is_not_retried_witness :
  let r := mkRot 2 true None 0 (RWait CStart 0 [] 0) in
  let '(h1, r1, out1) := left_alone [(10, [], false); (20, [9], false); (60020, [], false)] (ln_a link_4) r in
  let '(h2, r2, out2) := left_alone [(90020, [], true); (90021, [], false)] h1 r1 in
  rt_retry_at r1 = 60020 + ESTABLISH_RETRY /\ ss_contains (hs_store h1) 1 = false
  /\ out2 = [] /\ ss_contains (hs_store h2) 1 = false.
Proof.
  apply (startup_gap_is_not_retried MlKem512 (ln_a link_4) 0 10 20 60020 [] [] [9] [] [(90020, [], true); (90021, [], false)]).
  - vm_compute. reflexivity.
  - vm_compute. discriminate.
  - vm_compute. reflexivity.
  - vm_compute. reflexivity.
  - vm_compute. reflexivity.
  - vm_compute. discriminate.
Defined.
