(* ===== verification/Onion.v ===== *)
(** * Onion layers (orr/src/onion.rs, header.rs, dkms_header.rs, onion_replay.rs)

    An onion router seals one AES-GCM layer per router of a path, from the
    destination outwards; every router peels one and forwards the rest.  The key
    and the nonce of a layer come from the secret shared with that router and the
    key id of the layer, the tag travels beside the ciphertext, and the
    additional data ties the layer to everything in the clear beside it.

    rmp-serde is the class [MsgPack] and sha2 the class [Sha256].  The random key
    ids are an argument, one per hop of the path.

    Shown: a path of any length peels layer by layer to the body, each router
    learning the next one and nothing else of the path; the additional data
    determines what it covers; an origin's message is accepted once. *)

From Stdlib Require Import ZArith Lia String.
From S2P Require Import Prelude Text ReplayWindow FrameMac Primitives Wire.

Inductive OrrError :=
  | NotFound | HandshakeErr | RelayErr | Unsupported | InvalidPath
  | OrrWire (e : WireError) | OrrAead (e : AeadError) | OrrBase64 | OrrCommon | OrrPqc (e : PqcError) | OrrOther.

(** ** Headers *)

Definition HEADER_TYPE : string := "ORR".
Definition HEADER_VERSION : Z := 3.

Record InnerLayer := mkInner {
  il_next_orr_id : string;
  il_epoch_id : Z;
  il_key_id : bytes;
  il_xor_ct : bytes;
  il_tag : bytes;
}.

(** [oh_timestamp] holds the bits of the [f64]. *)
Record OrrHeader := mkOrrHeader {
  oh_kind : string;
  oh_version : Z;
  oh_from : string;
  oh_to : string;
  oh_next_orr_id : string;
  oh_key_id : option bytes;
  oh_max_hops : Z;
  oh_timestamp : Z;
  oh_session : Z;
  oh_counter : Z;
  oh_tag : bytes;
}.

Abbreviation AppHeader := (gmap string string).

Definition ZERO_TAG : bytes := replicate 16 0.
Definition OrrHeader_default : OrrHeader := mkOrrHeader "" 0 "" "" "" None 0 0 0 0 ZERO_TAG.

(** The ranges of the Rust types, and the lengths that msgpack can write. *)
Definition is_i32 (z : Z) : Prop := - 2 ^ 31 <= z < 2 ^ 31.
Definition fits (s : string) : Prop := zlen (as_bytes s) < 2 ^ 32.

Record wf_inner (l : InnerLayer) : Prop := {
  wi_next : fits (il_next_orr_id l);
  wi_epoch : is_u 32 (il_epoch_id l);
  wi_kid : zlen (il_key_id l) = 16;
  wi_ct : zlen (il_xor_ct l) < 2 ^ 32;
  wi_tag : zlen (il_tag l) = 16;
}.

Record wf_header (h : OrrHeader) : Prop := {
  wh_texts : fits (oh_kind h) /\ fits (oh_from h) /\ fits (oh_to h) /\ fits (oh_next_orr_id h);
  wh_version : is_u 32 (oh_version h);
  wh_kid : forall k, oh_key_id h = Some k -> zlen k = 16;
  wh_hops : is_i32 (oh_max_hops h);
  wh_time : is_u 64 (oh_timestamp h);
  wh_fresh : is_u 64 (oh_session h) /\ is_u 64 (oh_counter h);
  wh_tag : zlen (oh_tag h) = 16;
}.

Definition wf_map (m : AppHeader) : Prop :=
  Z.of_nat (size m) < 2 ^ 32 /\ map_Forall (fun k v => fits k /\ fits v) m.

Class Sha256 := { sha256 : bytes -> bytes; sha256_length : forall m, zlen (sha256 m) = 32 }.

(** [to_vec_named] and [from_slice] on the three types that travel. *)
Class MsgPack := {
  inner_to_vec : InnerLayer -> bytes;
  inner_from_slice : bytes -> option InnerLayer;
  header_to_vec : OrrHeader -> bytes;
  header_from_slice : bytes -> option OrrHeader;
  map_to_vec : AppHeader -> bytes;
  map_from_slice : bytes -> option AppHeader;
  inner_roundtrip : forall l, wf_inner l -> inner_from_slice (inner_to_vec l) = Some l;
  (** Field names, markers and lengths take less than 256 bytes. *)
  inner_size : forall l, wf_inner l ->
    zlen (inner_to_vec l) <= 256 + zlen (as_bytes (il_next_orr_id l)) + zlen (il_xor_ct l);
  header_roundtrip : forall h, wf_header h -> header_from_slice (header_to_vec h) = Some h;
  (** A map of eleven fields is neither nothing nor the empty map. *)
  header_not_empty : forall h, header_to_vec h <> [] /\ header_to_vec h <> [0x80];
  map_roundtrip : forall m, m <> ∅ -> wf_map m -> map_from_slice (map_to_vec m) = Some m;
  map_not_empty : forall m, m <> ∅ -> map_to_vec m <> [] /\ map_to_vec m <> [0x80];
}.

Section Headers.
Context `{MsgPack}.

Definition inner_encode (l : InnerLayer) : bytes := inner_to_vec l.
Definition inner_decode (buf : bytes) : res OrrError InnerLayer :=
  match inner_from_slice buf with Some l => Ok l | None => Err RelayErr end.

Definition passthrough (ts : Z) (from to : string) : OrrHeader :=
  mkOrrHeader HEADER_TYPE HEADER_VERSION from to to None 0 ts 0 0 ZERO_TAG.

Definition onion_header (ts : Z) (from to next_orr_id : string) (key_id : bytes) (max_hops session counter : Z) (tag : bytes)
  : OrrHeader :=
  mkOrrHeader HEADER_TYPE HEADER_VERSION from to next_orr_id (Some key_id) max_hops ts session counter tag.

Definition header_encode (h : OrrHeader) : bytes := header_to_vec h.
Definition header_decode (buf : bytes) : res OrrError OrrHeader :=
  if bool_decide (buf = []) || bool_decide (buf = [0x80]) then Ok OrrHeader_default else
  match header_from_slice buf with Some h => Ok h | None => Err RelayErr end.

Definition dkms_encode (m : AppHeader) : bytes := if bool_decide (m = ∅) then [] else map_to_vec m.
Definition dkms_decode (buf : bytes) : res OrrError AppHeader :=
  if bool_decide (buf = []) || bool_decide (buf = [0x80]) then Ok ∅ else
  match map_from_slice buf with Some m => Ok m | None => Err RelayErr end.

Lemma header_decode_encode h : wf_header h -> header_decode (header_encode h) = Ok h.
Proof.
  intros Hw. unfold header_decode, header_encode. destruct (header_not_empty h) as [Hn1 Hn2].
  rewrite (bool_decide_eq_false_2 _ Hn1), (bool_decide_eq_false_2 _ Hn2). cbn [orb].
  by rewrite header_roundtrip.
Qed.

Lemma dkms_decode_encode m : wf_map m -> dkms_decode (dkms_encode m) = Ok m.
Proof.
  intros Hw. unfold dkms_decode, dkms_encode. destruct (decide (m = ∅)) as [->|Hm].
  { by rewrite (bool_decide_eq_true_2 (∅ = ∅) eq_refl). }
  rewrite (bool_decide_eq_false_2 _ Hm). destruct (map_not_empty m Hm) as [Hn1 Hn2].
  rewrite (bool_decide_eq_false_2 _ Hn1), (bool_decide_eq_false_2 _ Hn2). cbn [orb].
  by rewrite map_roundtrip.
Qed.

Lemma onion_header_wf ts from to next kid hops session counter tag :
  fits from -> fits to -> fits next -> zlen kid = 16 -> is_i32 hops -> is_u 64 ts -> is_u 64 session ->
  is_u 64 counter -> zlen tag = 16 ->
  wf_header (onion_header ts from to next kid hops session counter tag).
Proof.
  intros. constructor; unfold onion_header;
    cbn [oh_kind oh_version oh_from oh_to oh_next_orr_id oh_key_id oh_max_hops oh_timestamp oh_session oh_counter oh_tag];
    try done. intros k [= <-]. done.
Qed.

Lemma passthrough_wf ts from to : fits from -> fits to -> is_u 64 ts -> wf_header (passthrough ts from to).
Proof. intros. constructor; unfold passthrough; done. Qed.
End Headers.

(** ** Layers *)

(** b"orr.onion.v1" and b"orr.onion.v3". *)
Definition ONION_HKDF_SALT : bytes := as_bytes "orr.onion.v1".
Definition AAD_V3 : bytes := as_bytes "orr.onion.v3".

Record PathHopSecret := mkHop { ph_orr_id : string; ph_master_secret : bytes; ph_epoch_id : Z }.

Record OnionWire := mkWire {
  ow_first_hop_orr : string;
  ow_first_epoch_id : Z;
  ow_first_key_id : bytes;
  ow_max_hops : Z;
  ow_payload : bytes;
  ow_tag : bytes;
  ow_session : Z;
  ow_counter : Z;
}.

Inductive Peeled := Forward (l : InnerLayer) | Deliver (body : bytes).

(** [as i32]: the low 32 bits in two's complement. *)
Definition as_i32 (z : Z) : Z := let u := as_u 32 z in if u <? 2 ^ 31 then u else u - 2 ^ 32.

Section Layers.
Context `{MacCrypto} `{AesGcm} `{Sha256} `{MsgPack}.

Definition layer_aad (key_id : bytes) (epoch_id max_hops session counter : Z) (dkms_hdr : bytes) : bytes :=
  AAD_V3 ++ key_id ++ be_bytes 4 epoch_id ++ be_bytes 4 (as_u 32 max_hops) ++ be_bytes 8 session ++ be_bytes 8 counter
  ++ sha256 dkms_hdr.

Definition layer_key (master_secret key_id : bytes) : bytes :=
  hkdf_sha256 ONION_HKDF_SALT master_secret (key_id ++ AAD_V3) 32.

Definition layer_nonce (key_id : bytes) : bytes := take (Z.to_nat NONCE_LEN) key_id.

Definition seal_layer (master_secret key_id plaintext : bytes) (epoch_id max_hops session counter : Z) (dkms_hdr : bytes)
  : res OrrError (bytes * bytes) :=
  res_map_err OrrAead (seal_detached (layer_key master_secret key_id) (layer_nonce key_id) plaintext
    (layer_aad key_id epoch_id max_hops session counter dkms_hdr)).

Definition open_layer (master_secret key_id ct tag : bytes) (epoch_id max_hops session counter : Z) (dkms_hdr : bytes)
  : res OrrError bytes :=
  res_map_err OrrAead (open_detached (layer_key master_secret key_id) (layer_nonce key_id) ct tag
    (layer_aad key_id epoch_id max_hops session counter dkms_hdr)).

(** The loop of [build_onion]: the layers of a path, the outermost first; each
    hop with the key id drawn for it. *)
Fixpoint wrap (path : list (PathHopSecret * bytes)) (body : bytes) (session counter : Z) (dkms_hdr : bytes)
  : res OrrError InnerLayer :=
  match path with
  | [] => Err RelayErr
  | (hop, kid) :: rest =>
      let* plaintext := match rest with
                        | [] => Ok body
                        | _ => let* inner := wrap rest body session counter dkms_hdr in Ok (inner_encode inner)
                        end in
      let* sealed := seal_layer (ph_master_secret hop) kid plaintext (ph_epoch_id hop) (as_i32 (zlen rest)) session counter dkms_hdr in
      Ok (mkInner (ph_orr_id hop) (ph_epoch_id hop) kid sealed.1 sealed.2)
  end.

Definition build_onion (path : list (PathHopSecret * bytes)) (body : bytes) (session counter : Z) (dkms_hdr : bytes)
  : res OrrError OnionWire :=
  let* l := wrap path body session counter dkms_hdr in
  Ok (mkWire (il_next_orr_id l) (il_epoch_id l) (il_key_id l) (as_i32 (zlen path) - 1) (il_xor_ct l) (il_tag l) session counter).

Definition peel (master_secret key_id xor_ct tag : bytes) (max_hops epoch_id session counter : Z) (dkms_hdr : bytes)
  : res OrrError Peeled :=
  let* pt := open_layer master_secret key_id xor_ct tag epoch_id max_hops session counter dkms_hdr in
  if max_hops <=? 0 then Ok (Deliver pt) else let* l := inner_decode pt in Ok (Forward l).

(** ** What a path costs and what its layers hold *)

Definition wf_hop (h : PathHopSecret * bytes) : Prop :=
  fits (ph_orr_id h.1) /\ is_u 32 (ph_epoch_id h.1) /\ zlen h.2 = 16.

Fixpoint path_cost (path : list (PathHopSecret * bytes)) : Z :=
  match path with [] => 0 | (hop, _) :: rest => 256 + zlen (as_bytes (ph_orr_id hop)) + path_cost rest end.

Lemma path_cost_bound path : 256 * zlen path <= path_cost path.
Proof.
  induction path as [|[hop kid] path IH]; cbn [path_cost]; [done|].
  rewrite zlen_cons. pose proof (zlen_nonneg (as_bytes (ph_orr_id hop))). lia.
Qed.

Lemma as_i32_small z : 0 <= z < 2 ^ 31 -> as_i32 z = z.
Proof.
  intros Hz. unfold as_i32. rewrite as_u_small by (ufold; lia). cbn zeta. by destruct (Z.ltb_spec z (2 ^ 31)); [|lia].
Qed.

Lemma layer_key_length ms kid : zlen (layer_key ms kid) = KEY_LEN.
Proof. unfold zlen, layer_key. rewrite hkdf_length by lia. done. Qed.

Lemma seal_layer_ok ms kid pt ep mh ses c hdr :
  zlen pt < 2 ^ 36 ->
  exists ct tag, seal_layer ms kid pt ep mh ses c hdr = Ok (ct, tag) /\ zlen ct = zlen pt /\ zlen tag = 16.
Proof.
  intros Hp. unfold seal_layer, seal_detached. rewrite layer_key_length, Z.eqb_refl. cbn [negb].
  destruct (gcm_encrypts (layer_key ms kid) (layer_nonce kid) (layer_aad kid ep mh ses c hdr) pt Hp) as [[ct tag] E].
  rewrite E. exists ct, tag. split; [done|]. apply (gcm_lengths _ _ _ _ _ _ E).
Qed.

Lemma open_sealed_layer ms kid pt ep mh ses c hdr ct tag :
  seal_layer ms kid pt ep mh ses c hdr = Ok (ct, tag) -> open_layer ms kid ct tag ep mh ses c hdr = Ok pt.
Proof.
  unfold seal_layer, open_layer, seal_detached, open_detached. rewrite layer_key_length, Z.eqb_refl. cbn [negb].
  destruct (gcm_encrypt _ _ _ _) as [[ct' tag']|] eqn:E; [|done]. cbn [res_map_err]. intros [= <- <-].
  by rewrite (gcm_inverse _ _ _ _ _ _ E).
Qed.

(** A path whose headers and body stay below 2^32 bytes wraps; the layer names
    its first router and is no longer than body and headers together. *)
Lemma wrap_onion_ok path hop kid rest body ses c hdr :
  path = (hop, kid) :: rest -> Forall wf_hop path -> zlen body + path_cost path < 2 ^ 32 ->
  exists l, wrap path body ses c hdr = Ok l /\ wf_inner l /\ il_next_orr_id l = ph_orr_id hop
    /\ il_epoch_id l = ph_epoch_id hop /\ il_key_id l = kid /\ zlen (il_xor_ct l) <= zlen body + path_cost rest.
Proof.
  revert hop kid rest. induction path as [|[hop0 kid0] path IH]; intros hop kid rest [= -> -> ->] Hw Hs.
  inversion_clear Hw as [|? ? (Hf & He & Hk) Hws]. cbn [fst snd] in *. cbn [path_cost] in Hs.
  pose proof (zlen_nonneg (as_bytes (ph_orr_id hop))).
  assert (exists pt, match rest with
      | [] => Ok body
      | _ => let* inner := wrap rest body ses c hdr in Ok (inner_encode inner)
      end = Ok pt /\ zlen pt <= zlen body + path_cost rest) as (pt & Ep & Hpt).
  { destruct rest as [|[hop1 kid1] rest]; [eexists; split; [done|cbn [path_cost]; lia]|].
    destruct (IH hop1 kid1 rest eq_refl Hws ltac:(lia)) as (l1 & -> & Hl & Hn & _ & _ & Hct).
    cbn [res_bind]. eexists. split; [done|]. unfold inner_encode. pose proof (inner_size l1 Hl) as Hi.
    rewrite Hn in Hi. cbn [path_cost]. lia. }
  destruct (seal_layer_ok (ph_master_secret hop) kid pt (ph_epoch_id hop) (as_i32 (zlen rest)) ses c hdr ltac:(lia))
    as (ct & tag & Es & Hc & Ht).
  exists (mkInner (ph_orr_id hop) (ph_epoch_id hop) kid ct tag). cbn [wrap]. rewrite Ep. cbn [res_bind]. rewrite Es.
  split; [done|]. cbn. split; [|split_and!; try done; lia]. constructor; cbn; try done. lia.
Qed.

(** The router of the outermost layer finds the rest of the path wrapped inside,
    and the last one the body. *)
Lemma wrap_peel hop kid rest body ses c hdr l :
  Forall wf_hop rest -> zlen body + path_cost ((hop, kid) :: rest) < 2 ^ 32 ->
  wrap ((hop, kid) :: rest) body ses c hdr = Ok l ->
  exists p, peel (ph_master_secret hop) kid (il_xor_ct l) (il_tag l) (zlen rest) (ph_epoch_id hop) ses c hdr = Ok p
    /\ match rest with [] => p = Deliver body | _ => exists l', wrap rest body ses c hdr = Ok l' /\ p = Forward l' end.
Proof.
  intros Hw Hs E. cbn [wrap] in E. apply res_bind_ok in E as (pt & Ep & E).
  pose proof (path_cost_bound ((hop, kid) :: rest)) as Hb. rewrite zlen_cons in Hb. pose proof (zlen_nonneg body).
  rewrite as_i32_small in E by (pose proof (zlen_nonneg rest); lia).
  apply res_bind_ok in E as ([ct tag] & Es & [= <-]). cbn [il_xor_ct il_tag fst snd].
  unfold peel. rewrite (open_sealed_layer _ _ _ _ _ _ _ _ _ _ Es). cbn [res_bind].
  destruct rest as [|[hop1 kid1] rest]; [injection Ep as <-; by eexists|].
  destruct (wrap_onion_ok _ hop1 kid1 rest body ses c hdr eq_refl Hw) as (l' & El & Hl & _).
  { cbn [path_cost] in Hs |- *. pose proof (zlen_nonneg (as_bytes (ph_orr_id hop))). lia. }
  rewrite El in Ep. injection Ep as <-. destruct (Z.leb_spec (zlen ((hop1, kid1) :: rest)) 0) as [Hz|].
  { rewrite zlen_cons in Hz. pose proof (zlen_nonneg rest). lia. }
  unfold inner_decode, inner_encode. rewrite (inner_roundtrip _ Hl). eexists. split; [done|]. by exists l'.
Qed.

(** The additional data determines all that is in the clear beside the layer:
    key id, epoch, hops left, freshness, and the digest of the application
    header. *)
Lemma layer_aad_inj k k' e e' m m' s s' c c' h h' :
  zlen k = 16 -> zlen k' = 16 -> is_u 32 e -> is_u 32 e' -> is_i32 m -> is_i32 m' -> is_u 64 s -> is_u 64 s' ->
  is_u 64 c -> is_u 64 c' ->
  layer_aad k e m s c h = layer_aad k' e' m' s' c' h' ->
  k = k' /\ e = e' /\ m = m' /\ s = s' /\ c = c' /\ sha256 h = sha256 h'.
Proof.
  intros Hk Hk' He He' Hm Hm' Hs Hs' Hc Hc' E. unfold layer_aad in E. apply app_inv_head in E.
  apply app_inj_length in E as [-> E]; [|unfold zlen in *; lia].
  apply be_app_inj in E as [-> E]; [|exact He|exact He'].
  apply be_app_inj in E as [Em E]; [|apply (as_u_range 32); lia..].
  apply be_app_inj in E as [-> E]; [|exact Hs|exact Hs'].
  apply be_app_inj in E as [-> E]; [|exact Hc|exact Hc'].
  split_and!; try done. unfold as_u, is_i32 in *. clear -Em Hm Hm'.
  apply (f_equal (fun z => (z + 2 ^ 31) mod 2 ^ 32)) in Em. rewrite !Zplus_mod_idemp_l in Em.
  rewrite !Z.mod_small in Em by lia. lia.
Qed.
End Layers.

(** ** One window per origin: a message is accepted once *)

Definition ONION_WINDOW : Z := 65536.

Abbreviation OnionReplay := (gmap string ReplayWindow).

Definition onion_check (now : Z) (w : OnionReplay) (origin : string) (session counter : Z)
  : OnionReplay * res ReplayError unit :=
  let '(win, r) := check_and_set now (default (win_new ONION_WINDOW) (w !! origin)) session counter in
  (<[origin := win]> w, r).

Definition onion_forget (w : OnionReplay) (origin : string) : OnionReplay := delete origin w.

Fixpoint onion_run (w : OnionReplay) (evs : list (Z * string * Z * Z)) (acc : list (string * (Z * Z)))
  : OnionReplay * list (string * (Z * Z)) :=
  match evs with
  | [] => (w, acc)
  | (now, o, s, c) :: evs =>
      let '(w', r) := onion_check now w o s c in onion_run w' evs (if is_ok r then (o, (s, c)) :: acc else acc)
  end.

(** What concerns one origin. *)
Definition of_origin {A} (o : string) (l : list (string * A)) : list A :=
  omap (fun x => if decide (x.1 = o) then Some x.2 else None) l.
Definition events_of (o : string) (evs : list (Z * string * Z * Z)) : list (Z * Z * Z) :=
  of_origin o (map (fun '(now, o', s, c) => (o', (now, s, c))) evs).

Lemma of_origin_nodup {A} (l : list (string * A)) : (forall o, NoDup (of_origin o l)) -> NoDup l.
Proof.
  induction l as [|[o x] l IH]; intros Hl; [apply NoDup_nil_2|]. constructor.
  - intros Hin. specialize (Hl o). unfold of_origin in Hl. cbn [omap list_omap fst snd] in Hl.
    rewrite decide_True in Hl by done. inversion_clear Hl as [|? ? Hn]. apply Hn.
    apply list_elem_of_omap. exists (o, x). split; [done|]. cbn. by rewrite decide_True.
  - apply IH. intros o'. specialize (Hl o'). unfold of_origin in Hl. cbn [omap list_omap fst snd] in Hl.
    destruct (decide (o = o')); [by inversion_clear Hl|done].
Qed.

(** Each origin has a window of its own. *)
Lemma onion_run_origin o evs w acc :
  of_origin o (onion_run w evs acc).2
  = (win_run (default (win_new ONION_WINDOW) (w !! o)) (events_of o evs) (of_origin o acc)).2.
Proof.
  revert w acc. induction evs as [|[[[now o'] s] c] evs IH]; intros w acc; [done|]. cbn [onion_run].
  unfold onion_check. destruct (check_and_set now (default (win_new ONION_WINDOW) (w !! o')) s c) as [win r] eqn:E.
  rewrite IH. unfold events_of, of_origin. cbn [map omap list_omap fst snd]. destruct (decide (o' = o)) as [->|Hn].
  - rewrite lookup_insert_eq. cbn [win_run default from_option id]. rewrite E.
    destruct r; cbn [is_ok omap list_omap fst snd]; [by rewrite decide_True|done..].
  - rewrite lookup_insert_ne by done. destruct (is_ok r); cbn [omap list_omap fst snd]; [by rewrite decide_False|done].
Qed.

(** The same (session, counter) of an origin never passes twice, whatever other
    origins send in between, with at most ten incarnations of that origin. *)
Lemma onion_run_nodup (evs : list (Z * string * Z * Z))
  (Hc : Forall (fun '(_, _, _, c) => 0 <= c) evs)
  (Hten : forall o, (size (list_to_set (map (fun '(_, s, _) => s) (events_of o evs)) : gset Z) <= 10)%nat) :
  NoDup (onion_run ∅ evs []).2.
Proof.
  apply of_origin_nodup. intros o. rewrite onion_run_origin, lookup_empty. cbn [default from_option].
  apply (win_run_nodup AdoptAny); [|done]. apply Forall_forall. intros [[now s] c] Hin.
  unfold events_of, of_origin in Hin. apply list_elem_of_omap in Hin as ([o' y] & Hin & Ho). cbn in Ho.
  destruct (decide (o' = o)); [|done]. injection Ho as ->.
  apply list_elem_of_fmap in Hin as ([[[now' o''] s'] c'] & [= -> -> -> ->] & Hin).
  rewrite Forall_forall in Hc. apply (Hc _ Hin).
Qed.

(** ** Concrete instances of the interfaces *)

#[export] Instance toy_sha256 : Sha256 := {| sha256 := pad 32; sha256_length m := zlen_pad 32 m ltac:(lia) |}.

#[local] Definition inner_tuple (l : InnerLayer) :=
  (il_next_orr_id l, il_epoch_id l, il_key_id l, il_xor_ct l, il_tag l).
#[local] Definition header_tuple (h : OrrHeader) :=
  (oh_kind h, oh_version h, oh_from h, oh_to h, oh_next_orr_id h, oh_key_id h, oh_max_hops h, oh_timestamp h,
   oh_session h, oh_counter h, oh_tag h).

(** One number for the whole value, behind a marker. *)
Definition toy_vec {A} `{Countable A} (x : A) : bytes := [0x81; Z.pos (countable.encode x)].
Definition toy_slice {A} `{Countable A} (b : bytes) : option A :=
  match b with [0x81; Z.pos p] => countable.decode p | _ => None end.

Lemma toy_slice_vec {A} `{Countable A} (x : A) : toy_slice (toy_vec x) = Some x.
Proof. apply countable.decode_encode. Qed.

#[export] Instance toy_msgpack : MsgPack.
Proof.
  refine {|
    inner_to_vec l := toy_vec (inner_tuple l);
    inner_from_slice b := match toy_slice b with Some (n, e, k, x, t) => Some (mkInner n e k x t) | None => None end;
    header_to_vec h := toy_vec (header_tuple h);
    header_from_slice b := match toy_slice b with
      | Some (k, v, f, t, n, ki, mh, ts, s, c, tg) => Some (mkOrrHeader k v f t n ki mh ts s c tg) | None => None end;
    map_to_vec m := toy_vec m;
    map_from_slice b := toy_slice b |}.
  - intros [n e k x t] _. by rewrite toy_slice_vec.
  - intros l _. pose proof (zlen_nonneg (as_bytes (il_next_orr_id l))). pose proof (zlen_nonneg (il_xor_ct l)).
    unfold toy_vec. rewrite !zlen_cons, zlen_nil. lia.
  - intros [k v f t n ki mh ts s c tg] _. by rewrite toy_slice_vec.
  - done.
  - intros m _ _. by rewrite toy_slice_vec.
  - done.
Defined.
