(* ===== verification/OrrPeers.v ===== *)
(** * Peers of an onion router (orr/src/peers.rs, identity.rs, handshake.rs, sdn_announce.rs)

    The registry of the routers a router talks to: where they are, their keys, the
    secrets shared with each of them epoch by epoch, and what is needed to make
    those secrets again.  A [RwLock<HashMap>] is a [gmap], an inner [BTreeMap] of
    epochs a [gmap Z] whose first and last keys are [first_key] and [last_key];
    every method holds its locks to its end, so one method is one step.
    Identifiers are ASCII: [to_lowercase] is [to_ascii_lowercase].

    Shown: the oldest epochs go first and the newest always stays; the pending
    ephemeral keys of a peer never exceed their bound; which announcements of a
    public key are accepted; what the controller's list may do to the peers. *)

From Stdlib Require Import ZArith Lia String Ascii.
From S2P Require Import Prelude Ids Text Delivery Peers Primitives Signing.

(** ** Epochs in order *)

Definition last_key {A} (m : gmap Z A) : option Z :=
  map_fold (fun k _ acc => match acc with Some j => Some (Z.max j k) | None => Some k end) None m.
Definition first_key {A} (m : gmap Z A) : option Z :=
  map_fold (fun k _ acc => match acc with Some j => Some (Z.min j k) | None => Some k end) None m.

(** [BTreeMap::pop_first] and the loop that runs it while there are too many. *)
Definition pop_first {A} (m : gmap Z A) : gmap Z A :=
  match first_key m with Some k => delete k m | None => m end.

Fixpoint pop_while {A} (fuel : nat) (keep : nat) (m : gmap Z A) : gmap Z A :=
  match fuel with
  | O => m
  | S fuel => if (keep <? size m)%nat then pop_while fuel keep (pop_first m) else m
  end.
Definition keep_newest {A} (keep : nat) (m : gmap Z A) : gmap Z A := pop_while (size m) keep m.

Lemma last_key_spec {A} (m : gmap Z A) :
  match last_key m with
  | None => m = ∅
  | Some k => is_Some (m !! k) /\ forall j, is_Some (m !! j) -> j <= k
  end.
Proof.
  unfold last_key. apply (map_fold_weak_ind (fun acc m => match acc with
    | None => m = ∅ | Some k => is_Some (m !! k) /\ forall j, is_Some (m !! j) -> j <= k end)); [done|].
  intros i x m' [k|] Hi IH.
  - destruct IH as [Hk Hmax]. destruct (Z.max_spec k i) as [[? ->]|[? ->]]; split.
    + rewrite lookup_insert_eq. by eexists.
    + intros j Hj. destruct (decide (j = i)) as [->|]; [lia|]. rewrite lookup_insert_ne in Hj by done. apply Hmax in Hj. lia.
    + rewrite lookup_insert_ne by (intros ->; destruct Hk; congruence). done.
    + intros j Hj. destruct (decide (j = i)) as [->|]; [lia|]. rewrite lookup_insert_ne in Hj by done. by apply Hmax.
  - subst m'. split; [rewrite lookup_insert_eq; by eexists|]. intros j [y Hj].
    apply lookup_insert_Some in Hj as [[-> _]|[_ Hj]]; [lia|by rewrite lookup_empty in Hj].
Qed.

Lemma first_key_spec {A} (m : gmap Z A) :
  match first_key m with
  | None => m = ∅
  | Some k => is_Some (m !! k) /\ forall j, is_Some (m !! j) -> k <= j
  end.
Proof.
  unfold first_key. apply (map_fold_weak_ind (fun acc m => match acc with
    | None => m = ∅ | Some k => is_Some (m !! k) /\ forall j, is_Some (m !! j) -> k <= j end)); [done|].
  intros i x m' [k|] Hi IH.
  - destruct IH as [Hk Hmin]. destruct (Z.min_spec k i) as [[? ->]|[? ->]]; split.
    + rewrite lookup_insert_ne by (intros ->; destruct Hk; congruence). done.
    + intros j Hj. destruct (decide (j = i)) as [->|]; [lia|]. rewrite lookup_insert_ne in Hj by done. by apply Hmin.
    + rewrite lookup_insert_eq. by eexists.
    + intros j Hj. destruct (decide (j = i)) as [->|]; [lia|]. rewrite lookup_insert_ne in Hj by done. apply Hmin in Hj. lia.
  - subst m'. split; [rewrite lookup_insert_eq; by eexists|]. intros j [y Hj].
    apply lookup_insert_Some in Hj as [[-> _]|[_ Hj]]; [lia|by rewrite lookup_empty in Hj].
Qed.

Lemma last_key_max {A} (m : gmap Z A) k :
  is_Some (m !! k) -> (forall j, is_Some (m !! j) -> j <= k) -> last_key m = Some k.
Proof.
  intros Hk Hmax. pose proof (last_key_spec m) as H. destruct (last_key m) as [k'|].
  - destruct H as [Hk' Hm]. f_equal. apply Hmax in Hk'. apply Hm in Hk. lia.
  - subst. destruct Hk as [x Hx]. by rewrite lookup_empty in Hx.
Qed.

(** Dropping the oldest: what stays was there, nothing that stays is older than
    what went, and as many as asked for stay. *)
Lemma pop_while_spec {A} fuel keep (m : gmap Z A) :
  (size m <= keep + fuel)%nat ->
  let m' := pop_while fuel keep m in
  (size m' = size m `min` keep)%nat /\ m' ⊆ m
  /\ (forall i j, is_Some (m !! i) -> m' !! i = None -> is_Some (m' !! j) -> i < j).
Proof.
  revert m. induction fuel as [|fuel IH]; intros m Hs; cbn [pop_while] in *.
  { split_and!; [lia|done|]. intros i j [x Hx] Hn _. congruence. }
  destruct (Nat.ltb_spec keep (size m)) as [Hlt|Hle].
  2:{ split_and!; [lia|done|]. intros i j [x Hx] Hn _. congruence. }
  unfold pop_first. pose proof (first_key_spec m) as Hf. destruct (first_key m) as [k|].
  2:{ subst m. rewrite map_size_empty in Hlt. lia. }
  destruct Hf as [Hk Hmin]. assert (Hsz : size (delete k m) = pred (size m)) by (by apply map_size_delete_Some).
  destruct (IH (delete k m) ltac:(lia)) as (H1 & H2 & H3). split_and!.
  - rewrite H1, Hsz. lia.
  - etransitivity; [exact H2|apply delete_subseteq].
  - intros i j Hi Hn Hj. destruct (decide (i = k)) as [->|Hne].
    + assert (Hj' : is_Some (delete k m !! j)).
      { destruct Hj as [x Hx]. exists x. by eapply lookup_weaken. }
      destruct Hj' as [x Hx]. apply lookup_delete_Some in Hx as [? Hx].
      assert (k <= j) by (apply Hmin; by eexists). lia.
    + apply (H3 i j); [|done|done]. by rewrite lookup_delete_ne.
Qed.

Lemma keep_newest_spec {A} keep (m : gmap Z A) :
  (size (keep_newest keep m) = size m `min` keep)%nat /\ keep_newest keep m ⊆ m
  /\ (forall i j, is_Some (m !! i) -> keep_newest keep m !! i = None -> is_Some (keep_newest keep m !! j) -> i < j).
Proof. apply pop_while_spec. lia. Qed.

(** The [n] newest of the keys stay when at least [n] may stay. *)
Lemma keep_newest_stays {A} keep (m : gmap Z A) (S : gset Z) k :
  k ∈ S -> S ⊆ dom m -> (forall j, is_Some (m !! j) -> j ∉ S -> j < k) -> (size S <= keep)%nat ->
  keep_newest keep m !! k = m !! k.
Proof.
  intros Hk HS Hnew Hle. destruct (keep_newest_spec keep m) as (Hsz & Hsub & Hord).
  assert (Hm : is_Some (m !! k)) by (apply elem_of_dom, HS, Hk).
  destruct (keep_newest keep m !! k) as [x|] eqn:E; [symmetry; by eapply lookup_weaken|]. exfalso.
  assert (Hd : dom (keep_newest keep m) ⊆ S ∖ {[k]}).
  { intros j Hj. apply elem_of_dom in Hj. pose proof (Hord k j Hm E Hj) as Hlt.
    apply elem_of_difference. split; [|apply not_elem_of_singleton; lia]. apply dec_stable. intros Hn.
    assert (j < k) by (apply Hnew; [destruct Hj as [y Hy]; exists y; by eapply lookup_weaken|done]). lia. }
  apply subseteq_size in Hd. rewrite size_dom, size_difference in Hd by set_solver. rewrite size_singleton in Hd.
  assert (Hs : (size S <= size m)%nat) by (rewrite <- (size_dom m); by apply subseteq_size).
  assert (size S <> 0)%nat by (intros Hz; apply size_empty_inv in Hz; set_solver). lia.
Qed.

(** ** The registry *)

Inductive BootstrapTrust := Tofu | Strict.
#[export] Instance BootstrapTrust_eq_dec : EqDecision BootstrapTrust.
Proof. solve_decision. Defined.

Record OrrRegistry := mkOrrReg {
  or_by_orr : gmap string Z;
  or_pubkeys : gmap string bytes;
  or_bootstrap : gmap string bytes;
  or_master : gmap string (gmap Z bytes);
  or_esks : gmap string (gmap Z bytes);
  or_send_epochs : gmap string Z;
  or_last_failure : gmap string Z;
  or_inflight : gmap string bool;
  or_grpc : gmap string string;
  or_pinned : gmap string bytes;
  or_verify_keys : gmap string bytes;
  or_trust : BootstrapTrust;
  or_roots : option (list bytes);
  or_rotation_spawned : gset string;
  or_id : string;
  or_qkc : Z;
}.

Definition MAX_EPHEMERAL_PER_PEER : nat := 64.

Definition or_with_all (seed_qkc : gmap string Z) (seed_pubkeys verify_keys : gmap string bytes) (id : string) (qkc : Z)
  (trust : BootstrapTrust) : OrrRegistry :=
  mkOrrReg seed_qkc seed_pubkeys ∅ ∅ ∅ ∅ ∅ ∅ ∅ seed_pubkeys verify_keys trust None ∅ id qkc.
Definition with_trust_roots (roots : option (list bytes)) (r : OrrRegistry) : OrrRegistry :=
  mkOrrReg (or_by_orr r) (or_pubkeys r) (or_bootstrap r) (or_master r) (or_esks r) (or_send_epochs r) (or_last_failure r)
    (or_inflight r) (or_grpc r) (or_pinned r) (or_verify_keys r) (or_trust r) roots (or_rotation_spawned r) (or_id r) (or_qkc r).

(** The maps that an operation replaces. *)
Definition set_peers (q : gmap string Z) (p : gmap string bytes) (g : gmap string string) (r : OrrRegistry) : OrrRegistry :=
  mkOrrReg q p (or_bootstrap r) (or_master r) (or_esks r) (or_send_epochs r) (or_last_failure r)
    (or_inflight r) g (or_pinned r) (or_verify_keys r) (or_trust r) (or_roots r) (or_rotation_spawned r) (or_id r) (or_qkc r).
Definition set_secrets (b : gmap string bytes) (m e : gmap string (gmap Z bytes)) (c : gmap string Z) (r : OrrRegistry)
  : OrrRegistry :=
  mkOrrReg (or_by_orr r) (or_pubkeys r) b m e c (or_last_failure r)
    (or_inflight r) (or_grpc r) (or_pinned r) (or_verify_keys r) (or_trust r) (or_roots r) (or_rotation_spawned r) (or_id r) (or_qkc r).
Definition set_flags (f : gmap string Z) (i : gmap string bool) (s : gset string) (r : OrrRegistry) : OrrRegistry :=
  mkOrrReg (or_by_orr r) (or_pubkeys r) (or_bootstrap r) (or_master r) (or_esks r) (or_send_epochs r) f
    i (or_grpc r) (or_pinned r) (or_verify_keys r) (or_trust r) (or_roots r) s (or_id r) (or_qkc r).

(** *** Peers *)

Definition qkc_id (r : OrrRegistry) (orr : string) : option Z :=
  if bool_decide (orr = or_id r) then Some (or_qkc r) else or_by_orr r !! orr.
Definition or_put (r : OrrRegistry) (orr : string) (qkc : Z) : OrrRegistry :=
  set_peers (<[orr := qkc]> (or_by_orr r)) (or_pubkeys r) (or_grpc r) r.
Definition or_remove (r : OrrRegistry) (orr : string) : OrrRegistry :=
  set_peers (delete orr (or_by_orr r)) (or_pubkeys r) (or_grpc r) r.
Definition or_public_key (r : OrrRegistry) (orr : string) : option bytes := or_pubkeys r !! orr.
Definition put_pubkey (r : OrrRegistry) (orr : string) (pk : bytes) : OrrRegistry :=
  set_peers (or_by_orr r) (<[orr := pk]> (or_pubkeys r)) (or_grpc r) r.
Definition remove_pubkey (r : OrrRegistry) (orr : string) : OrrRegistry :=
  set_peers (or_by_orr r) (delete orr (or_pubkeys r)) (or_grpc r) r.
Definition grpc_addr (r : OrrRegistry) (orr : string) : option string := or_grpc r !! orr.
Definition put_grpc_addr (r : OrrRegistry) (orr url : string) : OrrRegistry :=
  set_peers (or_by_orr r) (or_pubkeys r) (<[orr := url]> (or_grpc r)) r.

Definition or_forget (r : OrrRegistry) (orr : string) : OrrRegistry :=
  set_flags (delete orr (or_last_failure r)) (delete orr (or_inflight r)) (or_rotation_spawned r ∖ {[orr]})
    (set_secrets (delete orr (or_bootstrap r)) (delete orr (or_master r)) (delete orr (or_esks r)) (delete orr (or_send_epochs r))
      (set_peers (delete orr (or_by_orr r)) (delete orr (or_pubkeys r)) (delete orr (or_grpc r)) r)).

(** *** Secrets *)

Definition set_bootstrap (r : OrrRegistry) (orr : string) (s : bytes) : OrrRegistry :=
  set_secrets (<[orr := s]> (or_bootstrap r)) (or_master r) (or_esks r) (or_send_epochs r) r.
Definition bootstrap_for (r : OrrRegistry) (orr : string) : option bytes := or_bootstrap r !! orr.
Definition has_bootstrap (r : OrrRegistry) (orr : string) : bool := bool_decide (is_Some (or_bootstrap r !! orr)).

(** The epochs of a peer; no entry is the empty [BTreeMap]. *)
Definition epochs (r : OrrRegistry) (orr : string) : gmap Z bytes := default ∅ (or_master r !! orr).

Definition set_master_for_epoch (r : OrrRegistry) (orr : string) (epoch : Z) (s : bytes) : OrrRegistry :=
  set_secrets (or_bootstrap r) (<[orr := <[epoch := s]> (epochs r orr)]> (or_master r)) (or_esks r) (or_send_epochs r) r.
Definition master_for_epoch (r : OrrRegistry) (orr : string) (epoch : Z) : option bytes := epochs r orr !! epoch.
Definition latest_epoch_for (r : OrrRegistry) (orr : string) : option Z := last_key (epochs r orr).
Definition master_secret (r : OrrRegistry) (orr : string) : option bytes :=
  latest_epoch_for r orr ≫= master_for_epoch r orr.
Definition has_master_secret (r : OrrRegistry) (orr : string) : bool := negb (bool_decide (epochs r orr = ∅)).

Definition drop_old_epochs (r : OrrRegistry) (keep : nat) : OrrRegistry :=
  set_secrets (or_bootstrap r) (keep_newest keep <$> or_master r) (keep_newest keep <$> or_esks r) (or_send_epochs r) r.

(** At least two stay: between the responder's installation of an epoch and the
    initiator's word of it, the initiator sends with the one before. *)
Definition drop_old_epochs_for (r : OrrRegistry) (orr : string) (keep_last_n : nat) : OrrRegistry :=
  let keep := (keep_last_n `max` 2)%nat in
  set_secrets (or_bootstrap r) (alter (keep_newest keep) orr (or_master r)) (alter (keep_newest keep) orr (or_esks r))
    (or_send_epochs r) r.

Definition store_ephemeral_sk (r : OrrRegistry) (orr : string) (epoch : Z) (esk : bytes) : OrrRegistry :=
  let m := <[epoch := esk]> (default ∅ (or_esks r !! orr)) in
  set_secrets (or_bootstrap r) (or_master r) (<[orr := keep_newest MAX_EPHEMERAL_PER_PEER m]> (or_esks r)) (or_send_epochs r) r.

Definition take_ephemeral_sk (r : OrrRegistry) (orr : string) (epoch : Z) : OrrRegistry * option bytes :=
  match or_esks r !! orr with
  | None => (r, None)
  | Some m => (set_secrets (or_bootstrap r) (or_master r) (<[orr := delete epoch m]> (or_esks r)) (or_send_epochs r) r, m !! epoch)
  end.

Definition current_send_epoch (r : OrrRegistry) (orr : string) : option Z := or_send_epochs r !! orr.
Definition set_current_send_epoch (r : OrrRegistry) (orr : string) (epoch : Z) : OrrRegistry :=
  set_secrets (or_bootstrap r) (or_master r) (or_esks r) (<[orr := epoch]> (or_send_epochs r)) r.
Definition send_epoch_for (r : OrrRegistry) (orr : string) : option Z :=
  match current_send_epoch r orr with Some e => Some e | None => latest_epoch_for r orr end.

Definition remove_master_epoch (r : OrrRegistry) (orr : string) (epoch : Z) : OrrRegistry :=
  set_secrets (or_bootstrap r) (alter (delete epoch) orr (or_master r)) (or_esks r) (or_send_epochs r) r.

Definition clear_peer_secrets (r : OrrRegistry) (orr : string) : OrrRegistry :=
  set_secrets (delete orr (or_bootstrap r)) (delete orr (or_master r)) (delete orr (or_esks r)) (delete orr (or_send_epochs r)) r.

Definition reset_for_bootstrap (r : OrrRegistry) (orr : string) (s : bytes) : OrrRegistry :=
  set_master_for_epoch
    (set_secrets (<[orr := s]> (or_bootstrap r)) (delete orr (or_master r)) (delete orr (or_esks r)) (delete orr (or_send_epochs r)) r)
    orr 0 s.

(** *** Flags *)

Definition try_mark_rotation_spawned (r : OrrRegistry) (orr : string) : OrrRegistry * bool :=
  (set_flags (or_last_failure r) (or_inflight r) ({[orr]} ∪ or_rotation_spawned r) r, bool_decide (orr ∉ or_rotation_spawned r)).
Definition try_mark_rebootstrap_inflight (r : OrrRegistry) (orr : string) : OrrRegistry * bool :=
  if default false (or_inflight r !! orr) then (r, false)
  else (set_flags (or_last_failure r) (<[orr := true]> (or_inflight r)) (or_rotation_spawned r) r, true).
Definition clear_rebootstrap_inflight (r : OrrRegistry) (orr : string) : OrrRegistry :=
  set_flags (or_last_failure r) (delete orr (or_inflight r)) (or_rotation_spawned r) r.
Definition should_attempt_rebootstrap (now : Z) (r : OrrRegistry) (orr : string) (min_interval : Z) : bool :=
  match or_last_failure r !! orr with None => true | Some last => min_interval <=? sat_sub now last end.
Definition mark_rebootstrap_failure (now : Z) (r : OrrRegistry) (orr : string) : OrrRegistry :=
  set_flags (<[orr := now]> (or_last_failure r)) (or_inflight r) (or_rotation_spawned r) r.
Definition clear_rebootstrap_failure (r : OrrRegistry) (orr : string) : OrrRegistry :=
  set_flags (delete orr (or_last_failure r)) (or_inflight r) (or_rotation_spawned r) r.

(** ** Identity and announcements *)

Inductive SigVerdict := CertBound | Valid | NoKey | Unsigned | SigReject.
Inductive PubkeyVerdict := Accept | AcceptPinMismatch | PkReject.

Section Identity.
Context `{MlKem} `{MlDsa} `{X509}.

Inductive AnnouncementSigner := CertKey (key : SigningKey) (chain : list bytes) | LegacySeed (seed : bytes).

(** The signature is cached; it depends on nothing that changes. *)
Record OrrIdentity := mkIdentity {
  id_orr : string;
  id_suite : string;
  id_public : bytes;
  id_secret : bytes;
  id_signer : option AnnouncementSigner;
  id_kem : ParamSet;
}.

Definition identity_generate (orr suite : string) (seed : bytes) : res PqcError OrrIdentity :=
  let* k := kem_for suite in
  let kp := keygen k seed in
  Ok (mkIdentity orr (kp_suite kp) (kp_public kp) (kp_secret kp) None k).

Definition signs_with_cert (i : OrrIdentity) : bool := match id_signer i with Some (CertKey _ _) => true | _ => false end.
Definition with_signer (s : option AnnouncementSigner) (i : OrrIdentity) : OrrIdentity :=
  mkIdentity (id_orr i) (id_suite i) (id_public i) (id_secret i) s (id_kem i).
Definition with_sign_seed (i : OrrIdentity) (seed : option bytes) : OrrIdentity :=
  if signs_with_cert i then i else with_signer (LegacySeed <$> seed) i.
Definition with_cert_key (i : OrrIdentity) (key : SigningKey) (chain : list bytes) : OrrIdentity :=
  with_signer (Some (CertKey key chain)) i.

Definition sign_pubkey_announcement (i : OrrIdentity) : option (bytes * list bytes) :=
  match id_signer i with
  | None => None
  | Some (CertKey key chain) => Some (sign_orr_pubkey_with key (id_orr i) (id_suite i) (id_public i), chain)
  | Some (LegacySeed seed) =>
      match sign_orr_pubkey seed (id_orr i) (id_suite i) (id_public i) with Ok sig => Some (sig, []) | _ => None end
  end.

Definition identity_decap (i : OrrIdentity) (ct : bytes) : res PqcError bytes := decap (id_kem i) (id_secret i) ct.

(** [handshake::initiate]. *)
Definition initiate (suite : string) (peer_public seed : bytes) : res PqcError KemEncap :=
  let* k := kem_for suite in encap k peer_public seed.

Definition verify_fetched_pubkey (r : OrrRegistry) (orr : string) (fetched : bytes) : PubkeyVerdict :=
  match or_trust r, or_pinned r !! orr with
  | Strict, Some p => if bool_decide (p = fetched) then Accept else PkReject
  | Strict, None => PkReject
  | Tofu, Some p => if bool_decide (p = fetched) then Accept else AcceptPinMismatch
  | Tofu, None => Accept
  end.

Definition unless_strict (r : OrrRegistry) (v : SigVerdict) : SigVerdict :=
  match or_trust r with Strict => SigReject | Tofu => v end.

Definition verify_announcement (now : Z) (r : OrrRegistry) (orr suite : string) (pk sig : bytes) (certs : list bytes)
  : SigVerdict :=
  match certs with
  | _ :: _ =>
      match or_roots r with
      | None => unless_strict r Unsigned
      | Some roots =>
          match verify_node_cert now certs roots orr with
          | Some vk => match verify_orr_pubkey vk orr suite pk sig with Ok _ => CertBound | _ => SigReject end
          | None => SigReject
          end
      end
  | [] =>
      match or_verify_keys r !! orr with
      | Some vk =>
          match sig with
          | [] => unless_strict r Unsigned
          | _ => match verify_orr_pubkey vk orr suite pk sig with Ok _ => Valid | _ => SigReject end
          end
      | None => unless_strict r NoKey
      end
  end.

(** What [GetPublicKey] answers: key, suite, the id it reports, signature, chain. *)
Record Announced := mkAnn { an_pk : bytes; an_suite : string; an_id : string; an_sig : bytes; an_certs : list bytes }.

Definition get_public_key (i : OrrIdentity) (cfg_id : string) : Announced :=
  let '(sig, certs) := default ([], []) (sign_pubkey_announcement i) in
  mkAnn (id_public i) (id_suite i) cfg_id sig certs.

Definition names_peer (a : Announced) (peer : string) : bool :=
  let lc := to_ascii_lowercase (an_id a) in bool_decide (lc = EmptyString) || bool_decide (lc = peer).

(** One answer in [fetch_pubkey]; it returns in every case, with or without the key. *)
Definition fetch_pubkey (now : Z) (r : OrrRegistry) (peer : string) (a : Announced) : OrrRegistry :=
  if negb (names_peer a peer) then r else
  match verify_announcement now r peer (an_suite a) (an_pk a) (an_sig a) (an_certs a) with
  | SigReject => r
  | v =>
      let signed := match v with Valid | CertBound => true | _ => false end in
      match (if signed then Accept else verify_fetched_pubkey r peer (an_pk a)) with
      | PkReject => r
      | _ => put_pubkey r peer (an_pk a)
      end
  end.
End Identity.

(** ** Peers from the controller *)

Record OrrPeerWire := mkPw { pw_orr : string; pw_qkc : string; pw_url : string }.

(** The announcer's own state beside the registry. *)
Record Announcer := mkAnnouncer { sa_reg : OrrRegistry; sa_spawned : gset string; sa_local : gset string }.

(** The announcer of a router configured with the gRPC addresses [addrs]; their
    bootstraps are under way and their addresses recorded ([spawn_all]). *)
Definition announcer_from_config (r : OrrRegistry) (addrs : gmap string string) : Announcer :=
  mkAnnouncer (set_peers (or_by_orr r) (or_pubkeys r) (addrs ∪ or_grpc r) r) (dom addrs) (dom addrs).

Definition eq_http (c : ascii) (d : ascii) : bool := Ascii.eqb (ascii_lower c) d.
Definition http_prefix (u : string) : option string :=
  match u with
  | String h (String t1 (String t2 (String p (String c (String s1 (String s2 rest)))))) =>
      if eq_http h "h" && eq_http t1 "t" && eq_http t2 "t" && eq_http p "p" && eq_http c ":" && eq_http s1 "/" && eq_http s2 "/"
      then Some rest else None
  | _ => None
  end.

(** The URL has no blanks to trim: they are refused before. *)
Definition peer_url (tls : bool) (u : string) : string :=
  if tls then match http_prefix u with Some rest => String.append "https://" rest | None => u end else u.

Definition sdn_orr_valid (p : OrrPeerWire) : bool :=
  is_valid_id (pw_orr p) && (zlen (as_bytes (pw_url p)) <=? 256) && negb (space_or_control (as_bytes (pw_url p))).

(** One peer of the list: the announcer and whether a bootstrap is started for it. *)
Definition apply_peer (tls : bool) (s : Announcer) (p : OrrPeerWire) : Announcer * bool :=
  if negb (sdn_orr_valid p) then (s, false) else
  if bool_decide (pw_orr p ∉ sa_spawned s) && (MAX_PEERS_FROM_SDN <=? Z.of_nat (size (sa_spawned s))) then (s, false) else
  match parse_u 32 (pw_qkc p) with
  | None => (s, false)
  | Some qkc =>
      let r := or_put (sa_reg s) (pw_orr p) qkc in
      let url := peer_url tls (pw_url p) in
      let r := if bool_decide (pw_orr p ∈ sa_local s) then r else put_grpc_addr r (pw_orr p) url in
      if bool_decide (pw_orr p ∈ sa_spawned s) then (mkAnnouncer r (sa_spawned s) (sa_local s), false)
      else (mkAnnouncer (put_grpc_addr r (pw_orr p) url) ({[pw_orr p]} ∪ sa_spawned s) (sa_local s), true)
  end.

Definition forget_gone (s : Announcer) (wanted : gset string) : Announcer :=
  let gone := (sa_spawned s ∖ wanted) ∖ sa_local s in
  mkAnnouncer (set_fold (fun id r => or_forget r id) (sa_reg s) gone) (sa_spawned s ∖ gone) (sa_local s).

Definition apply_peers (tls : bool) (s : Announcer) (peers : list OrrPeerWire) : Announcer :=
  forget_gone (fold_left (fun s p => (apply_peer tls s p).1) peers s) (list_to_set (map pw_orr peers)).

(** ** What the registry guarantees *)

Definition esks_of (r : OrrRegistry) (orr : string) : gmap Z bytes := default ∅ (or_esks r !! orr).
Definition esks_bounded (r : OrrRegistry) : Prop := forall orr, (size (esks_of r orr) <= MAX_EPHEMERAL_PER_PEER)%nat.

Lemma store_esk_bounded r orr epoch esk : esks_bounded r -> esks_bounded (store_ephemeral_sk r orr epoch esk).
Proof.
  intros Hb o. unfold esks_of, store_ephemeral_sk, set_secrets. cbn [or_esks]. destruct (decide (o = orr)) as [->|Hne].
  - rewrite lookup_insert_eq. cbn [default from_option id]. rewrite (proj1 (keep_newest_spec _ _)). lia.
  - rewrite lookup_insert_ne by done. apply Hb.
Qed.

(** An ephemeral key is handed out once: after it is taken it is gone. *)
Lemma take_esk_once r orr epoch r' esk :
  take_ephemeral_sk r orr epoch = (r', Some esk) -> esks_of r orr !! epoch = Some esk /\ esks_of r' orr !! epoch = None.
Proof.
  unfold take_ephemeral_sk, esks_of. destruct (or_esks r !! orr) as [m|]; [|done]. intros [= <- Hm]. split; [exact Hm|].
  unfold set_secrets. cbn [or_esks]. rewrite lookup_insert_eq. cbn. apply lookup_delete_eq.
Qed.

Lemma take_esk_bounded r orr epoch : esks_bounded r -> esks_bounded (take_ephemeral_sk r orr epoch).1.
Proof.
  intros Hb o. unfold take_ephemeral_sk. destruct (or_esks r !! orr) as [m|] eqn:E; [|apply Hb].
  unfold esks_of, set_secrets. cbn [fst or_esks]. destruct (decide (o = orr)) as [->|Hne].
  - rewrite lookup_insert_eq. specialize (Hb orr). unfold esks_of in Hb. rewrite E in Hb.
    cbn [default from_option id] in *. rewrite map_size_delete. destruct (m !! epoch); cbn [id]; lia.
  - rewrite lookup_insert_ne by done. apply Hb.
Qed.

Section Announcements.
Context `{MlKem} `{MlDsa} `{X509}.

(** The key that vouches for a peer's announcement: the one configured for it, or
    that of a certificate of the network's authority that names it. *)
Definition vouched_by (now : Z) (r : OrrRegistry) (peer : string) (a : Announced) (vk : bytes) : Prop :=
  match an_certs a with
  | [] => or_verify_keys r !! peer = Some vk
  | _ => exists roots, or_roots r = Some roots /\ verify_node_cert now (an_certs a) roots peer = Some vk
  end.

(** Under [strict] trust a router takes a peer's public key only from an
    announcement that the peer's certificate or configured key signed, for that
    peer, suite and key; everything else leaves the registry as it was. *)
Theorem strict_takes_signed_keys (now : Z) (r : OrrRegistry) (peer : string) (a : Announced)
  (Hs : or_trust r = Strict) (Hch : fetch_pubkey now r peer a <> r) :
  fetch_pubkey now r peer a = put_pubkey r peer (an_pk a)
  /\ exists vk, vouched_by now r peer a vk
     /\ dsa_verify vk (announcement_msg peer (an_suite a) (an_pk a)) (an_sig a) = true.
Proof.
  unfold fetch_pubkey in *. destruct (names_peer a peer); [|done]. cbn [negb] in *.
  assert (Hv : forall v vk, verify_orr_pubkey vk peer (an_suite a) (an_pk a) (an_sig a) = Ok v ->
    dsa_verify vk (announcement_msg peer (an_suite a) (an_pk a)) (an_sig a) = true).
  { intros [] vk Hok. apply verify_ok in Hok. apply Hok. }
  unfold verify_announcement, vouched_by, unless_strict in *. rewrite Hs in *. destruct (an_certs a) as [|c cs] eqn:Ec.
  - destruct (or_verify_keys r !! peer) as [vk|] eqn:Ek; [|done]. destruct (an_sig a) as [|b sg] eqn:Es; [done|].
    rewrite <- Es in *. destruct (verify_orr_pubkey _ _ _ _ _) as [v|e|] eqn:Ev; [|done..].
    split; [done|]. exists vk. split; [done|]. by eapply Hv.
  - destruct (or_roots r) as [roots|]; [|done]. destruct (verify_node_cert now _ roots peer) as [vk|] eqn:En; [|done].
    destruct (verify_orr_pubkey _ _ _ _ _) as [v|e|] eqn:Ev; [|done..].
    split; [done|]. exists vk. split; [by exists roots|]. by eapply Hv.
Qed.

(** An announcement a router signs with its certificate's key is bound to it at
    every router whose trusted roots the chain leads to. *)
Lemma own_announcement_bound (now : Z) (r : OrrRegistry) (i : OrrIdentity) (key : SigningKey) (leaf : bytes)
  (rest roots : list bytes) :
  or_roots r = Some roots -> verify_node_cert now (leaf :: rest) roots (id_orr i) = Some (dsa_verifying_key key) ->
  let a := get_public_key (with_cert_key i key (leaf :: rest)) (id_orr i) in
  verify_announcement now r (id_orr i) (an_suite a) (an_pk a) (an_sig a) (an_certs a) = CertBound.
Proof.
  intros Hr Hv. unfold get_public_key, sign_pubkey_announcement, with_cert_key, with_signer, verify_announcement.
  cbn [id_signer id_orr id_suite id_public default from_option id an_suite an_pk an_sig an_certs].
  rewrite Hr, Hv. unfold verify_orr_pubkey, sign_orr_pubkey_with. by rewrite verify_signed.
Qed.
End Announcements.

(** ** What the controller's list may do *)

(** All that the registry holds about a peer, but for its QKC. *)
Definition peer_view (r : OrrRegistry) (id : string) :=
  (or_pubkeys r !! id, or_bootstrap r !! id, or_master r !! id, or_esks r !! id, or_send_epochs r !! id, or_grpc r !! id).

Lemma forget_other r id id' : id <> id' -> peer_view (or_forget r id') id = peer_view r id /\ or_by_orr (or_forget r id') !! id = or_by_orr r !! id.
Proof. intros Hn. unfold peer_view, or_forget. cbn. rewrite !lookup_delete_ne by done. done. Qed.

Lemma forget_all_others (X : gset string) r id :
  id ∉ X -> peer_view (set_fold (fun i r => or_forget r i) r X) id = peer_view r id.
Proof.
  intros Hn. apply (set_fold_ind_L (fun r' (Y : gset string) => id ∉ Y -> peer_view r' id = peer_view r id)); [done| |done].
  intros x Y r' Hx IH Hid. rewrite (proj1 (forget_other r' id x ltac:(set_solver))). apply IH. set_solver.
Qed.

Lemma view_put r i q id : peer_view (or_put r i q) id = peer_view r id.
Proof. reflexivity. Qed.

Lemma view_grpc r i u id : i <> id -> peer_view (put_grpc_addr r i u) id = peer_view r id.
Proof.
  intros Hn. unfold peer_view, put_grpc_addr, set_peers.
  cbn [or_pubkeys or_bootstrap or_master or_esks or_send_epochs or_grpc]. by rewrite lookup_insert_ne.
Qed.

Definition ann_ok (s : Announcer) : Prop := sa_local s ⊆ sa_spawned s.

Lemma apply_peer_local tls s p id :
  ann_ok s -> id ∈ sa_local s ->
  let s' := (apply_peer tls s p).1 in
  ann_ok s' /\ sa_local s' = sa_local s /\ peer_view (sa_reg s') id = peer_view (sa_reg s) id
  /\ (size (sa_spawned s') <= size (sa_spawned s) `max` Z.to_nat MAX_PEERS_FROM_SDN)%nat.
Proof.
  unfold ann_ok. intros Hok Hid. unfold apply_peer. cbn zeta. destruct (sdn_orr_valid p); cbn [negb]; [|cbn [fst]; split_and!; [done..|lia]].
  destruct (bool_decide (pw_orr p ∉ sa_spawned s) && _) eqn:Eb; [cbn [fst]; split_and!; [done..|lia]|].
  destruct (parse_u 32 (pw_qkc p)) as [q|]; [|cbn [fst]; split_and!; [done..|lia]].
  destruct (bool_decide_reflect (pw_orr p ∈ sa_spawned s)) as [Hsp|Hsp].
  - cbn [fst sa_local sa_spawned sa_reg]. split_and!; [done..| |lia]. clear Eb. case_bool_decide as Hl; [done|].
    rewrite view_grpc by set_solver. apply view_put.
  - cbn [fst sa_local sa_spawned sa_reg]. assert (pw_orr p <> id) by set_solver. split_and!; [set_solver|done| |].
    + rewrite view_grpc by done. clear Eb. case_bool_decide; rewrite ?view_grpc by done; apply view_put.
    + rewrite bool_decide_eq_true_2 in Eb by done. cbn [andb] in Eb. apply Z.leb_gt in Eb.
      rewrite size_union by set_solver. rewrite size_singleton. lia.
Qed.

(** The controller cannot take away a peer of the configuration: its keys,
    secrets, epochs and address stay as they are whatever lists arrive, and the
    announcer never follows more than 1,024 peers beside those it started with. *)
Theorem configured_orr_peers_stay (tls : bool) (s : Announcer) (lists : list (list OrrPeerWire)) (id : string)
  (Hok : ann_ok s) (Hid : id ∈ sa_local s) :
  let s' := fold_left (apply_peers tls) lists s in
  peer_view (sa_reg s') id = peer_view (sa_reg s) id /\ id ∈ sa_spawned s'
  /\ (size (sa_spawned s') <= size (sa_spawned s) `max` Z.to_nat MAX_PEERS_FROM_SDN)%nat.
Proof.
  cbn zeta. cut (ann_ok (fold_left (apply_peers tls) lists s) /\ sa_local (fold_left (apply_peers tls) lists s) = sa_local s
    /\ peer_view (sa_reg (fold_left (apply_peers tls) lists s)) id = peer_view (sa_reg s) id
    /\ (size (sa_spawned (fold_left (apply_peers tls) lists s)) <= size (sa_spawned s) `max` Z.to_nat MAX_PEERS_FROM_SDN)%nat).
  { intros (Ho & Hl & Hv & Hz). split_and!; [done| |done]. apply Ho. by rewrite Hl. }
  revert s Hok Hid. induction lists as [|l lists IH]; intros s Hok Hid; cbn [fold_left]; [split_and!; [done..|lia]|].
  assert (Hs : forall ps s, ann_ok s -> id ∈ sa_local s -> let s1 := fold_left (fun s p => (apply_peer tls s p).1) ps s in
    ann_ok s1 /\ sa_local s1 = sa_local s /\ peer_view (sa_reg s1) id = peer_view (sa_reg s) id
    /\ (size (sa_spawned s1) <= size (sa_spawned s) `max` Z.to_nat MAX_PEERS_FROM_SDN)%nat).
  { induction ps as [|p ps IHp]; intros s0 Ho Hi; cbn [fold_left]; [split_and!; [done..|lia]|].
    destruct (apply_peer_local tls s0 p id Ho Hi) as (Ho1 & Hl1 & Hv1 & Hz1).
    destruct (IHp _ Ho1 ltac:(by rewrite Hl1)) as (Ho2 & Hl2 & Hv2 & Hz2). split_and!; try congruence; [done|lia]. }
  destruct (Hs l s Hok Hid) as (Ho1 & Hl1 & Hv1 & Hz1).
  change (apply_peers tls s l)
    with (forget_gone (fold_left (fun s p => (apply_peer tls s p).1) l s) (list_to_set (map pw_orr l))).
  set (s1 := fold_left _ l s) in *. clearbody s1. unfold ann_ok in *.
  edestruct (IH (forget_gone s1 (list_to_set (map pw_orr l)))) as (Ho2 & Hl2 & Hv2 & Hz2).
  { cbn. set_solver. }
  { cbn. by rewrite Hl1. }
  split_and!; [done|by rewrite Hl2; cbn| |].
  - rewrite Hv2. cbn [forget_gone sa_reg]. rewrite forget_all_others by set_solver. done.
  - cbn [forget_gone sa_spawned] in Hz2. pose proof (subseteq_size (sa_spawned s1 ∖ (sa_spawned s1 ∖ list_to_set (map pw_orr l) ∖ sa_local s1))
      (sa_spawned s1) ltac:(set_solver)). lia.
Qed.

(** The QKC of a peer is the one of the last list that named it, for a peer of the
    configuration too: only its address is kept.  What is sealed for that peer
    then leaves for whatever QKC the controller says. *)
Theorem controller_moves_configured_peer (tls : bool) (s : Announcer) (p : OrrPeerWire) (q : Z)
  (Hv : sdn_orr_valid p = true) (Hq : parse_u 32 (pw_qkc p) = Some q) (Hl : pw_orr p ∈ sa_local s) (Hok : ann_ok s)
  (Hme : pw_orr p <> or_id (sa_reg s)) :
  qkc_id (sa_reg (apply_peers tls s [p])) (pw_orr p) = Some q.
Proof.
  unfold apply_peers. cbn [fold_left map]. unfold apply_peer. rewrite Hv, Hq. cbn [negb].
  assert (Hs : pw_orr p ∈ sa_spawned s) by (by apply Hok).
  rewrite (bool_decide_eq_false_2 (pw_orr p ∉ sa_spawned s)) by (intros Hn; by apply Hn). cbn [andb].
  rewrite !bool_decide_eq_true_2 by done. cbn [fst]. unfold forget_gone. cbn [sa_reg sa_spawned sa_local].
  set (gone := _ ∖ sa_local s). assert (Hg : pw_orr p ∉ gone) by set_solver. clearbody gone.
  apply (set_fold_ind_L (fun r' (Y : gset string) => pw_orr p ∉ Y -> qkc_id r' (pw_orr p) = Some q)); [| |done].
  - intros _. unfold qkc_id. cbn [or_put set_peers or_id or_by_orr]. rewrite bool_decide_eq_false_2 by done. apply lookup_insert_eq.
  - intros x Y r' Hx IH Hn. unfold qkc_id in *. cbn [or_forget set_flags set_secrets set_peers or_id or_by_orr or_qkc].
    rewrite lookup_delete_ne by set_solver. apply IH. set_solver.
Qed.

(** ** Witnesses *)

Definition sample_reg : OrrRegistry := or_with_all {[ "orr_2" := 2 ]} ∅ ∅ "orr_1" 1 Strict.
Definition sample_ann : Announcer := announcer_from_config sample_reg {[ "orr_2"%string := "https://10.0.0.2:20003"%string ]}.
Definition moved_orr : OrrPeerWire := mkPw "orr_2" "77" "http://10.9.9.9:1".

Lemma configured_orr_peers_stay_witness :
  peer_view (sa_reg (fold_left (apply_peers true) [[moved_orr]; []] sample_ann)) "orr_2" = peer_view (sa_reg sample_ann) "orr_2"
  /\ grpc_addr (sa_reg sample_ann) "orr_2" = Some "https://10.0.0.2:20003"%string.
Proof.
  split; [|vm_compute; reflexivity].
  apply (configured_orr_peers_stay true sample_ann [[moved_orr]; []] "orr_2"); [intros x Hx; exact Hx|].
  apply (bool_decide_unpack _). vm_compute. exact I.
Defined.

Lemma controller_moves_configured_peer_witness :
  qkc_id (sa_reg (apply_peers true sample_ann [moved_orr])) "orr_2" = Some 77.
Proof.
  apply (controller_moves_configured_peer true sample_ann moved_orr 77);
    [vm_compute; reflexivity..| |intros x Hx; exact Hx|discriminate].
  apply (bool_decide_unpack _). vm_compute. exact I.
Defined.

(** A certificate of orr_2 under the root [7], and what orr_2 announces with it. *)
Definition orr2_leaf : bytes := 3 :: as_bytes "dkms://orr_2".
Definition orr2_identity : OrrIdentity :=
  with_cert_key (mkIdentity "orr_2" "ml-kem-768" [1; 2] [] None MlKem768) [3] [orr2_leaf; [7]].
Definition strict_reg : OrrRegistry := with_trust_roots (Some [[7]]) sample_reg.
Definition orr2_announced : Announced := get_public_key orr2_identity "orr_2".

Lemma strict_takes_signed_keys_witness :
  or_public_key (fetch_pubkey 5 strict_reg "orr_2" orr2_announced) "orr_2" = Some [1; 2]
  /\ exists vk, vouched_by 5 strict_reg "orr_2" orr2_announced vk
     /\ dsa_verify vk (announcement_msg "orr_2" (an_suite orr2_announced) (an_pk orr2_announced)) (an_sig orr2_announced) = true.
Proof.
  destruct (strict_takes_signed_keys 5 strict_reg "orr_2" orr2_announced) as [-> Hvk]; [reflexivity| |].
  - intros E. apply (f_equal (fun r => or_public_key r "orr_2")) in E. vm_compute in E. discriminate.
  - split; [vm_compute; reflexivity|exact Hvk].
Defined.
