(* ===== verification/OrrRotation.v ===== *)
(** * Secrets between onion routers (orr/src/macs.rs, rotation.rs, bootstrap.rs, grpc_server.rs)

    Two routers first agree on a bootstrap secret (one encapsulation to the peer's
    public key) that seeds epoch 0 and then only authenticates; after that the
    router with the smaller name rotates: it asks for an ephemeral key, saves the
    new epoch, sends the ciphertext, and sends with the new epoch once the other
    has confirmed.

    A remote call is a function of the world [W] behind it and answers [None] when
    it fails.  [run_one_rotation] is cut where it awaits: [rot_begin], [rot_encap],
    [rot_commit].  The error texts of the answers are the constructors of
    [RemoteError].

    Shown: the three MACs never vouch for one another's messages; while rotations
    run, their messages answered, refused or lost, which of the epochs the two
    send with the other holds, and which it does not (after a lost confirmation,
    and while the first epoch of all waits for its own); a rotation whose calls are
    answered leaves both with the new secret, also after a lost confirmation; a
    router that lost its secrets gets them back at the next rotation. *)

From Stdlib Require Import ZArith Lia String.
From S2P Require Import Prelude Text FrameMac Primitives Signing OrrPeers.

(** ** MACs of the rotation *)

Definition ROT_TAG_REQ : bytes := as_bytes "REQ".
Definition ROT_TAG_RESP : bytes := as_bytes "RESP".
Definition ROT_TAG_FIN : bytes := as_bytes "FIN".

Section Macs.
Context `{MacCrypto}.

Definition mac_fields (epoch : Z) (from peer : string) : bytes :=
  be_bytes 4 epoch ++ lp16_cast (as_bytes from) ++ lp16_cast (as_bytes peer).

Definition req_input (epoch : Z) (from peer : string) : bytes := ROT_TAG_REQ ++ mac_fields epoch from peer.
Definition resp_input (epoch : Z) (from peer : string) (epk : bytes) : bytes :=
  ROT_TAG_RESP ++ mac_fields epoch from peer ++ lp16_cast epk.
Definition fin_input (epoch : Z) (from peer : string) (ct : bytes) : bytes :=
  ROT_TAG_FIN ++ mac_fields epoch from peer ++ lp16_cast ct.

Definition mac_req (bootstrap : bytes) (epoch : Z) (from peer : string) : bytes :=
  hmac_sha256 bootstrap (req_input epoch from peer).
Definition mac_resp (bootstrap : bytes) (epoch : Z) (from peer : string) (epk : bytes) : bytes :=
  hmac_sha256 bootstrap (resp_input epoch from peer epk).
Definition mac_fin (bootstrap : bytes) (epoch : Z) (from peer : string) (ct : bytes) : bytes :=
  hmac_sha256 bootstrap (fin_input epoch from peer ct).

Definition verify_mac_req (bootstrap : bytes) (epoch : Z) (from peer : string) (tag : bytes) : bool :=
  bool_decide (tag = mac_req bootstrap epoch from peer).
Definition verify_mac_resp (bootstrap : bytes) (epoch : Z) (from peer : string) (epk tag : bytes) : bool :=
  bool_decide (tag = mac_resp bootstrap epoch from peer epk).
Definition verify_mac_fin (bootstrap : bytes) (epoch : Z) (from peer : string) (ct tag : bytes) : bool :=
  bool_decide (tag = mac_fin bootstrap epoch from peer ct).
End Macs.

(** ** The responder *)

Inductive RemoteError :=
  | FromPeerRequired | PeerMismatch | NoBootstrapSecret | MacReqInvalid | MacFinInvalid | BadSuite | NoEphemeralSk
  | DecapFailed | SecretLen.

Record RotReq := mkRotReq { rq_from : option string; rq_peer : option string; rq_epoch : Z; rq_mac : bytes }.
Record RotFin := mkRotFin { rf_from : option string; rf_peer : option string; rf_epoch : Z; rf_ct : bytes; rf_mac : bytes }.
Abbreviation RotResp := (res RemoteError (bytes * bytes)).
Abbreviation FinResp := (res RemoteError unit).

Definition node_name (n : option string) : string := default EmptyString (to_ascii_lowercase <$> n).

Inductive RotationError :=
  | RotNoBootstrap | RotRpc | RotRemote (e : RemoteError) | RotMac | RotPqc (e : PqcError) | RotSecretLen (n : Z).

Section Rotation.
Context `{MacCrypto} `{MlKem} `{MlDsa} `{X509}.

(** The checks both handlers start with: the names and the bootstrap secret. *)
Definition rot_caller (r : OrrRegistry) (local_orr_id : string) (from peer : string) : res RemoteError bytes :=
  if bool_decide (from = EmptyString) || bool_decide (peer = EmptyString) then Err FromPeerRequired else
  if negb (bool_decide (peer = local_orr_id)) then Err PeerMismatch else
  match bootstrap_for r from with None => Err NoBootstrapSecret | Some b => Ok b end.

Definition handle_request_ephemeral_key (r : OrrRegistry) (local_orr_id suite : string) (seed : bytes) (m : RotReq)
  : OrrRegistry * RotResp :=
  let from := node_name (rq_from m) in
  let peer := node_name (rq_peer m) in
  match rot_caller r local_orr_id from peer with
  | Ok bootstrap =>
      if negb (verify_mac_req bootstrap (rq_epoch m) from peer (rq_mac m)) then (r, Err MacReqInvalid) else
      match kem_for suite with
      | Ok k =>
          let kp := keygen k seed in
          (store_ephemeral_sk r from (rq_epoch m) (kp_secret kp),
           Ok (kp_public kp, mac_resp bootstrap (rq_epoch m) from peer (kp_public kp)))
      | _ => (r, Err BadSuite)
      end
  | Err e => (r, Err e)
  | Panic => (r, Panic)
  end.

Definition handle_establish_ephemeral_secret (r : OrrRegistry) (local_orr_id suite : string) (epoch_history_keep : nat)
  (m : RotFin) : OrrRegistry * FinResp :=
  let from := node_name (rf_from m) in
  let peer := node_name (rf_peer m) in
  match rot_caller r local_orr_id from peer with
  | Ok bootstrap =>
      if negb (verify_mac_fin bootstrap (rf_epoch m) from peer (rf_ct m) (rf_mac m)) then (r, Err MacFinInvalid) else
      let '(r, esk) := take_ephemeral_sk r from (rf_epoch m) in
      match esk with
      | None => (r, Err NoEphemeralSk)
      | Some esk =>
          match kem_for suite with
          | Ok k =>
              match decap k esk (rf_ct m) with
              | Ok ss =>
                  if negb (zlen ss =? 32) then (r, Err SecretLen) else
                  (drop_old_epochs_for (set_master_for_epoch r from (rf_epoch m) ss) from epoch_history_keep, Ok tt)
              | _ => (r, Err DecapFailed)
              end
          | _ => (r, Err BadSuite)
          end
      end
  | Err e => (r, Err e)
  | Panic => (r, Panic)
  end.

(** [require_from_matches_peer]; without certificates ([grpc_tls = false]) any
    name passes. *)
Definition require_from_matches_peer (certs : option (list bytes)) (from : string) : bool :=
  match certs with
  | None => true
  | Some certs => bool_decide (node_id_from_certs certs = Some (to_ascii_lowercase from))
  end.

Definition require_caller_served (served : list string) (certs : option (list bytes)) : bool :=
  match served, certs with
  | [], _ => true
  | _, None => true
  | _, Some certs =>
      match node_id_from_certs certs with
      | Some id => existsb (fun s => bool_decide (to_ascii_lowercase s = to_ascii_lowercase id)) served
      | None => false
      end
  end.

(** The remote calls as the server answers them; [None] is a gRPC status. *)
Definition grpc_request_ephemeral_key (r : OrrRegistry) (cfg_id suite : string) (seed : bytes) (certs : option (list bytes))
  (m : RotReq) : OrrRegistry * option RotResp :=
  if negb (require_from_matches_peer certs (node_name (rq_from m))) then (r, None) else
  let '(r, a) := handle_request_ephemeral_key r cfg_id suite seed m in (r, Some a).

Definition grpc_establish_ephemeral_secret (r : OrrRegistry) (cfg_id suite : string) (keep : nat) (certs : option (list bytes))
  (m : RotFin) : OrrRegistry * option FinResp :=
  if negb (require_from_matches_peer certs (node_name (rf_from m))) then (r, None) else
  let '(r, a) := handle_establish_ephemeral_secret r cfg_id suite keep m in (r, Some a).

Definition grpc_establish_secret (r : OrrRegistry) (i : OrrIdentity) (certs : option (list bytes)) (from_field : option string)
  (ciphertext : bytes) : OrrRegistry * option FinResp :=
  let from := node_name from_field in
  if bool_decide (from = EmptyString) then (r, Some (Err FromPeerRequired)) else
  if negb (require_from_matches_peer certs from) then (r, None) else
  match qkc_id r from with
  | None => (r, None)
  | Some _ =>
      match identity_decap i ciphertext with
      | Ok ss => if negb (zlen ss =? 32) then (r, Some (Err SecretLen)) else (reset_for_bootstrap r from ss, Some (Ok tt))
      | _ => (r, Some (Err DecapFailed))
      end
  end.

(** ** The initiator *)

Definition rot_begin (r : OrrRegistry) (local_orr_id peer_id : string) : res RotationError (Z * bytes * RotReq) :=
  match bootstrap_for r peer_id with
  | None => Err RotNoBootstrap
  | Some bootstrap =>
      let epoch := sat_add 32 (default 0 (current_send_epoch r peer_id)) 1 in
      Ok (epoch, bootstrap, mkRotReq (Some local_orr_id) (Some peer_id) epoch (mac_req bootstrap epoch local_orr_id peer_id))
  end.

(** From the answer to the request: the secret and the message that carries it. *)
Definition rot_encap (suite local_orr_id peer_id : string) (epoch : Z) (bootstrap seed : bytes) (a : option RotResp)
  : res RotationError (bytes * RotFin) :=
  match a with
  | None | Some Panic => Err RotRpc
  | Some (Err e) => Err (RotRemote e)
  | Some (Ok (epk, mac)) =>
      if negb (verify_mac_resp bootstrap epoch local_orr_id peer_id epk mac) then Err RotMac else
      let* k := res_map_err RotPqc (kem_for suite) in
      let* enc := res_map_err RotPqc (encap k epk seed) in
      if negb (zlen (ke_shared_secret enc) =? 32) then Err (RotSecretLen (zlen (ke_shared_secret enc))) else
      let ct := ke_ciphertext enc in
      Ok (ke_shared_secret enc,
          mkRotFin (Some local_orr_id) (Some peer_id) epoch ct (mac_fin bootstrap epoch local_orr_id peer_id ct))
  end.

Definition rot_commit (r : OrrRegistry) (peer_id : string) (epoch : Z) (a : option FinResp)
  : OrrRegistry * res RotationError Z :=
  match a with
  | None | Some Panic => (remove_master_epoch r peer_id epoch, Err RotRpc)
  | Some (Err e) => (remove_master_epoch r peer_id epoch, Err (RotRemote e))
  | Some (Ok _) => (set_current_send_epoch r peer_id epoch, Ok epoch)
  end.

Definition run_one_rotation {W} (rpc_req : W -> RotReq -> W * option RotResp) (rpc_fin : W -> RotFin -> W * option FinResp)
  (suite local_orr_id peer_id : string) (seed : bytes) (r : OrrRegistry) (w : W)
  : OrrRegistry * W * res RotationError Z :=
  match rot_begin r local_orr_id peer_id with
  | Ok (epoch, bootstrap, req) =>
      let '(w, a) := rpc_req w req in
      match rot_encap suite local_orr_id peer_id epoch bootstrap seed a with
      | Ok (ss, fin) =>
          let r := set_master_for_epoch r peer_id epoch ss in
          let '(w, a) := rpc_fin w fin in
          let '(r, res) := rot_commit r peer_id epoch a in (r, w, res)
      | Err e => (r, w, Err e)
      | Panic => (r, w, Panic)
      end
  | Err e => (r, w, Err e)
  | Panic => (r, w, Panic)
  end.

(** ** Bootstrap *)

(** [attempt_establish]: the ciphertext to send, and the secret once it is accepted. *)
Definition attempt_establish {W} (rpc : W -> bytes -> W * option FinResp) (suite : string) (pk seed : bytes) (w : W)
  : W * option bytes :=
  match initiate suite pk seed with
  | Ok enc =>
      if negb (zlen (ke_shared_secret enc) =? 32) then (w, None) else
      let '(w, a) := rpc w (ke_ciphertext enc) in
      match a with Some (Ok _) => (w, Some (ke_shared_secret enc)) | _ => (w, None) end
  | _ => (w, None)
  end.

(** [fetched] is the answer to [GetPublicKey], [None] when there is none. *)
Definition rebootstrap {W} (rpc : W -> bytes -> W * option FinResp) (now : Z) (suite peer_id : string) (seed : bytes)
  (fetched : option Announced) (r : OrrRegistry) (w : W) : OrrRegistry * W * bool :=
  match fetched with
  | None => (r, w, false)
  | Some a =>
      if negb (names_peer a peer_id) then (r, w, false) else
      match verify_announcement now r peer_id (an_suite a) (an_pk a) (an_sig a) (an_certs a) with
      | SigReject => (r, w, false)
      | _ =>
          let r := put_pubkey r peer_id (an_pk a) in
          let '(w, s) := attempt_establish rpc suite (an_pk a) seed w in
          match s with Some secret => (reset_for_bootstrap r peer_id secret, w, true) | None => (r, w, false) end
      end
  end.

(** [bootstrap_peer]: only the smaller name initiates; one turn of its loop. *)
Definition initiates (local_orr_id peer_id : string) : bool := negb (String.leb peer_id local_orr_id).

Inductive BootNext := BootDone | BootBusy | BootBackoff.

Definition bootstrap_attempt {W} (rpc : W -> bytes -> W * option FinResp) (suite peer_id : string) (pk seed : bytes)
  (r : OrrRegistry) (w : W) : OrrRegistry * W * BootNext :=
  if has_bootstrap r peer_id then (r, w, BootDone) else
  match try_mark_rebootstrap_inflight r peer_id with
  | (r, false) => (r, w, BootBusy)
  | (r, true) =>
      let '(w, s) := attempt_establish rpc suite pk seed w in
      let r := clear_rebootstrap_inflight r peer_id in
      match s with Some secret => (reset_for_bootstrap r peer_id secret, w, BootDone) | None => (r, w, BootBackoff) end
  end.

Inductive Next := NextWait | NextRetry | NextBackoff.

(** The texts the loop looks for: the peer does not know our bootstrap secret. *)
Definition asks_bootstrap (e : RemoteError) : bool :=
  match e with NoBootstrapSecret | MacReqInvalid | MacFinInvalid => true | _ => false end.

(** One turn of the rotation task's inner loop; [None]: another establishment is
    under way and the tick is skipped. *)
Definition rotation_attempt {W} (rpc_req : W -> RotReq -> W * option RotResp) (rpc_fin : W -> RotFin -> W * option FinResp)
  (rpc_est : W -> bytes -> W * option FinResp) (fetched : option Announced)
  (now : Z) (suite local_orr_id peer_id : string) (keep : nat) (seed seed2 : bytes) (r : OrrRegistry) (w : W)
  : OrrRegistry * W * option Next :=
  match try_mark_rebootstrap_inflight r peer_id with
  | (r, false) => (r, w, None)
  | (r, true) =>
      let '(r, w, res) := run_one_rotation rpc_req rpc_fin suite local_orr_id peer_id seed r w in
      let '(r, w, next) :=
        match res with
        | Ok _ => (drop_old_epochs_for r peer_id (keep `max` 2)%nat, w, NextWait)
        | Err RotNoBootstrap => (r, w, NextWait)
        | Err (RotRemote e) =>
            if asks_bootstrap e then
              let '(r, w, ok) := rebootstrap rpc_est now suite peer_id seed2 fetched r w in
              (r, w, if ok then NextRetry else NextBackoff)
            else (r, w, NextBackoff)
        | _ => (r, w, NextBackoff)
        end in
      (clear_rebootstrap_inflight r peer_id, w, Some next)
  end.
End Rotation.

(** ** What the MACs vouch for *)

Definition short_id (s : string) : Prop := zlen (as_bytes s) <= 65535.

Lemma mac_fields_inj e e' f f' p p' s t :
  is_u 32 e -> is_u 32 e' -> short_id f -> short_id f' -> short_id p -> short_id p' ->
  mac_fields e f p ++ s = mac_fields e' f' p' ++ t -> e = e' /\ f = f' /\ p = p' /\ s = t.
Proof.
  intros He He' Hf Hf' Hp Hp' E. unfold mac_fields in E. rewrite <- !app_assoc in E.
  apply be_app_inj in E as [-> E]; [|exact He|exact He'].
  apply lp16_cast_inj in E as [->%as_bytes_inj E]; [|done..].
  apply lp16_cast_inj in E as [->%as_bytes_inj E]; [|done..]. done.
Qed.

(** No input of one of the three MACs is an input of another, and each determines
    the epoch, the two names in their order, and the key or the ciphertext. *)
Lemma rotation_inputs_separate e e' f f' p p' x y :
  req_input e f p <> resp_input e' f' p' x /\ req_input e f p <> fin_input e' f' p' x
  /\ resp_input e f p x <> fin_input e' f' p' y.
Proof. unfold req_input, resp_input, fin_input. by split_and!; intros [=]. Qed.

Lemma fin_input_inj e e' f f' p p' x y :
  is_u 32 e -> is_u 32 e' -> short_id f -> short_id f' -> short_id p -> short_id p' ->
  zlen x <= 65535 -> zlen y <= 65535 ->
  fin_input e f p x = fin_input e' f' p' y -> e = e' /\ f = f' /\ p = p' /\ x = y.
Proof.
  intros He He' Hf Hf' Hp Hp' Hx Hy E. unfold fin_input in E. apply app_inv_head in E.
  apply mac_fields_inj in E as (-> & -> & -> & E); [|done..]. rewrite <- (app_nil_r (lp16_cast x)), <- (app_nil_r (lp16_cast y)) in E.
  apply lp16_cast_inj in E as [-> _]; done.
Qed.

(** ** The epochs after each operation *)

Lemma epochs_set r p e s : epochs (set_master_for_epoch r p e s) p = <[e := s]> (epochs r p).
Proof. unfold epochs at 1. unfold set_master_for_epoch, set_secrets. cbn [or_master]. by rewrite lookup_insert_eq. Qed.

Lemma epochs_reset r p s : epochs (reset_for_bootstrap r p s) p = {[ 0 := s ]}.
Proof.
  unfold reset_for_bootstrap. rewrite epochs_set. unfold epochs, set_secrets. cbn [or_master].
  rewrite lookup_delete_eq. cbn [default from_option]. apply insert_empty.
Qed.

Lemma keep_newest_empty {A} keep : keep_newest keep (∅ : gmap Z A) = ∅.
Proof. unfold keep_newest. by rewrite map_size_empty. Qed.

Lemma epochs_drop r p keep : epochs (drop_old_epochs_for r p keep) p = keep_newest (keep `max` 2)%nat (epochs r p).
Proof.
  unfold epochs, drop_old_epochs_for, set_secrets. cbn [or_master]. rewrite lookup_alter_eq.
  destruct (or_master r !! p); cbn [fmap option_fmap option_map default from_option id]; [done|by rewrite keep_newest_empty].
Qed.

Lemma epochs_remove r p e : epochs (remove_master_epoch r p e) p = delete e (epochs r p).
Proof.
  unfold epochs, remove_master_epoch, set_secrets. cbn [or_master]. rewrite lookup_alter_eq.
  destruct (or_master r !! p); cbn [fmap option_fmap option_map default from_option id]; [done|by rewrite delete_empty].
Qed.

Lemma epochs_take r p e : epochs (take_ephemeral_sk r p e).1 p = epochs r p.
Proof. unfold take_ephemeral_sk. by destruct (or_esks r !! p). Qed.

Lemma esks_store r p e esk : esks_of (store_ephemeral_sk r p e esk) p = keep_newest MAX_EPHEMERAL_PER_PEER (<[e := esk]> (esks_of r p)).
Proof. unfold esks_of at 1. unfold store_ephemeral_sk, set_secrets. cbn [or_esks]. by rewrite lookup_insert_eq. Qed.

(** The key just stored stays when no older request has a later epoch. *)
Lemma esk_stored r p e esk : (forall j, is_Some (esks_of r p !! j) -> j <= e) -> esks_of (store_ephemeral_sk r p e esk) p !! e = Some esk.
Proof.
  intros Hmax. rewrite esks_store. rewrite (keep_newest_stays _ _ {[e]}); [apply lookup_insert_eq|set_solver|set_solver| |].
  - intros j Hj Hn. destruct (decide (j = e)) as [->|Hne]; [set_solver|]. rewrite lookup_insert_ne in Hj by done.
    apply Hmax in Hj. lia.
  - rewrite size_singleton. unfold MAX_EPHEMERAL_PER_PEER. lia.
Qed.

Definition top (m : gmap Z bytes) (c : Z) : Prop := forall j, is_Some (m !! j) -> j <= c.

Lemma top_last m c s : m !! c = Some s -> top m c -> last_key m = Some c.
Proof. intros Hc Ht. apply last_key_max; [by eexists|done]. Qed.

Lemma top_insert m c s : top m c -> top (<[c + 1 := s]> m) (c + 1).
Proof.
  intros Ht j Hj. destruct (decide (j = c + 1)) as [->|Hn]; [lia|]. rewrite lookup_insert_ne in Hj by done. apply Ht in Hj. lia.
Qed.

Lemma top_delete m c : top m (c + 1) -> top (delete (c + 1) m) c.
Proof.
  intros Ht j Hj. destruct (decide (j = c + 1)) as [->|Hn]; [rewrite lookup_delete_eq in Hj; by destruct Hj|].
  rewrite lookup_delete_ne in Hj by done. apply Ht in Hj. lia.
Qed.

Lemma top_keep keep m c : top m c -> top (keep_newest keep m) c.
Proof.
  intros Ht j [x Hj]. apply Ht. exists x. destruct (keep_newest_spec keep m) as (_ & Hsub & _). by eapply lookup_weaken.
Qed.

(** The last two epochs always stay. *)
Lemma keep_two keep m c s :
  (2 <= keep)%nat -> top m (c + 1) -> is_Some (m !! c) -> let m' := keep_newest keep (<[c + 1 := s]> m) in
  m' !! (c + 1) = Some s /\ m' !! c = m !! c.
Proof.
  intros Hk Ht Hc. cbn zeta. assert (Hd : {[c; c + 1]} ⊆ dom (<[c + 1 := s]> m)).
  { intros j. rewrite dom_insert. rewrite elem_of_union, !elem_of_singleton. apply elem_of_dom in Hc. set_solver. }
  assert (Hsz : (size ({[c; (c + 1)%Z]} : gset Z) <= keep)%nat).
  { pose proof (size_union_alt ({[c]} : gset Z) {[c + 1]}) as Hu. rewrite Hu, size_singleton.
    assert (size ({[(c + 1)%Z]} ∖ {[c]} : gset Z) <= size ({[(c + 1)%Z]} : gset Z))%nat by (apply subseteq_size; set_solver).
    rewrite size_singleton in *. lia. }
  split.
  - rewrite (keep_newest_stays _ _ {[c; c + 1]}); [apply lookup_insert_eq|set_solver|done| |done].
    intros j Hj Hn. destruct (decide (j = c + 1)) as [->|]; [set_solver|]. rewrite lookup_insert_ne in Hj by done. apply Ht in Hj. lia.
  - rewrite (keep_newest_stays _ _ {[c; c + 1]}); [by rewrite lookup_insert_ne by lia|set_solver|done| |done].
    intros j Hj Hn. destruct (decide (j = c + 1)) as [->|]; [set_solver|]. rewrite lookup_insert_ne in Hj by done.
    assert (j <> c) by set_solver. apply Ht in Hj. lia.
Qed.

(** ** Two routers rotating

    [ida] initiates (its name is the smaller), [idb] answers.  Between two steps
    either may do anything with its other peers. *)

Section Pair.
Context `{MacCrypto} `{MlKem} `{MlDsa} `{X509}.
Context (ida idb suite : string) (keep_a keep_b : nat).

Inductive Phase :=
  | RotIdle
  | RotAsked (epoch : Z) (bootstrap : bytes) (a : RotResp)
  | RotSaved (epoch : Z) (ss : bytes) (fin : RotFin)
  | RotInstalled (epoch : Z).

(** [stranded] is not in the code: it remembers that the confirmation of an epoch
    the responder installed was lost, and no rotation was confirmed since. *)
Record Pair := mkPair { pa : OrrRegistry; pb : OrrRegistry; ph : Phase; stranded : bool }.

Inductive rstep : Pair -> Pair -> Prop :=
  (** The request is answered.  Epochs stay below 2^32 - 1. *)
  | rs_ask a b b' epoch bootstrap req seed resp st :
      default 0 (current_send_epoch a idb) < u_max 32 ->
      rot_begin a ida idb = Ok (epoch, bootstrap, req) ->
      handle_request_ephemeral_key b idb suite seed req = (b', resp) ->
      rstep (mkPair a b RotIdle st) (mkPair a b' (RotAsked epoch bootstrap resp) st)
  (** The answer is lost, or it does not satisfy the initiator. *)
  | rs_answer_lost a b epoch bootstrap resp st :
      rstep (mkPair a b (RotAsked epoch bootstrap resp) st) (mkPair a b RotIdle st)
  (** The initiator saves the new epoch and sends the ciphertext. *)
  | rs_save a b epoch bootstrap resp seed ss fin st :
      rot_encap suite ida idb epoch bootstrap seed (Some resp) = Ok (ss, fin) ->
      rstep (mkPair a b (RotAsked epoch bootstrap resp) st)
            (mkPair (set_master_for_epoch a idb epoch ss) b (RotSaved epoch ss fin) st)
  (** The ciphertext is lost on the way. *)
  | rs_fin_lost a b epoch ss fin st :
      rstep (mkPair a b (RotSaved epoch ss fin) st) (mkPair (rot_commit a idb epoch None).1 b RotIdle st)
  (** The responder refuses it. *)
  | rs_fin_refused a b b' epoch ss fin e st :
      handle_establish_ephemeral_secret b idb suite keep_b fin = (b', Err e) ->
      rstep (mkPair a b (RotSaved epoch ss fin) st) (mkPair (rot_commit a idb epoch (Some (Err e))).1 b' RotIdle st)
  (** The responder installs the epoch. *)
  | rs_install a b b' epoch ss fin st :
      handle_establish_ephemeral_secret b idb suite keep_b fin = (b', Ok tt) ->
      rstep (mkPair a b (RotSaved epoch ss fin) st) (mkPair a b' (RotInstalled epoch) st)
  (** Its confirmation arrives. *)
  | rs_done a b epoch st :
      rstep (mkPair a b (RotInstalled epoch) st)
            (mkPair (drop_old_epochs_for (rot_commit a idb epoch (Some (Ok tt))).1 idb keep_a) b RotIdle false)
  (** Its confirmation is lost: the call fails at the initiator. *)
  | rs_confirm_lost a b epoch st :
      rstep (mkPair a b (RotInstalled epoch) st) (mkPair (rot_commit a idb epoch None).1 b RotIdle true)
  (** Anything with other peers. *)
  | rs_others a b a' b' p st :
      peer_view a' idb = peer_view a idb -> peer_view b' ida = peer_view b ida ->
      rstep (mkPair a b p st) (mkPair a' b' p st).

(** After a bootstrap: both with the same secret and nothing else of each other. *)
Definition bootstrapped (p : Pair) : Prop :=
  exists s a b, p = mkPair (reset_for_bootstrap a idb s) (reset_for_bootstrap b ida s) RotIdle false.

(** Epoch [c] is shared, [boot] authenticates; the responder never chooses. *)
Record shared (a b : OrrRegistry) (c : Z) (boot : bytes) : Prop := {
  sh_boot_a : bootstrap_for a idb = Some boot;
  sh_boot_b : bootstrap_for b ida = Some boot;
  sh_cur : default 0 (current_send_epoch a idb) = c;
  sh_cur_b : current_send_epoch b ida = None;
  sh_same : exists s, epochs a idb !! c = Some s /\ epochs b ida !! c = Some s;
  sh_esks : top (esks_of b ida) (c + 1);
  sh_c : is_u 32 c;
}.

(** What the responder holds between two rotations: nothing above [c], or, while
    stranded, an epoch [c + 1] of its own. *)
Definition answerer_holds (st : bool) (m : gmap Z bytes) (c : Z) : Prop :=
  if st then top m (c + 1) /\ is_Some (m !! (c + 1)) else top m c.

Definition phase_ok (a b : OrrRegistry) (c : Z) (boot : bytes) (p : Phase) (st : bool) : Prop :=
  match p with
  | RotIdle => top (epochs a idb) c /\ answerer_holds st (epochs b ida) c
  | RotAsked e bt resp =>
      e = c + 1 /\ is_u 32 e /\ bt = boot /\ top (epochs a idb) c /\ answerer_holds st (epochs b ida) c
      /\ forall epk mac, resp = Ok (epk, mac) -> exists k seed, kem_for suite = Ok k
           /\ epk = kp_public (keygen k seed) /\ esks_of b ida !! e = Some (kp_secret (keygen k seed))
  | RotSaved e ss fin =>
      e = c + 1 /\ is_u 32 e /\ epochs a idb !! e = Some ss /\ top (epochs a idb) e /\ answerer_holds st (epochs b ida) c
      /\ node_name (rf_from fin) = ida /\ rf_epoch fin = e
      /\ exists k esk, kem_for suite = Ok k /\ esks_of b ida !! e = Some esk /\ decap k esk (rf_ct fin) = Ok ss
  | RotInstalled e =>
      e = c + 1 /\ is_u 32 e /\ top (epochs a idb) e /\ top (epochs b ida) e
      /\ exists s, epochs a idb !! e = Some s /\ epochs b ida !! e = Some s
  end.

Definition pair_ok (p : Pair) : Prop :=
  exists c boot, shared (pa p) (pb p) c boot /\ phase_ok (pa p) (pb p) c boot (ph p) (stranded p).

Lemma answerer_top st m c : answerer_holds st m c -> top m (c + 1).
Proof. destruct st; [by intros [? _]|]. intros Ht j Hj. apply Ht in Hj. lia. Qed.

Context (Hida : to_ascii_lowercase ida = ida) (Hidb : to_ascii_lowercase idb = idb) (Hne : ida <> EmptyString).

Lemma bootstrapped_ok p : bootstrapped p -> pair_ok p.
Proof.
  intros (s & a & b & ->). exists 0, s. cbn [pa pb ph]. split.
  - constructor.
    + unfold bootstrap_for. apply lookup_insert_eq.
    + unfold bootstrap_for. apply lookup_insert_eq.
    + unfold current_send_epoch, reset_for_bootstrap, set_master_for_epoch, set_secrets. cbn [or_send_epochs]. by rewrite lookup_delete_eq.
    + unfold current_send_epoch, reset_for_bootstrap, set_master_for_epoch, set_secrets. cbn [or_send_epochs]. by rewrite lookup_delete_eq.
    + exists s. rewrite !epochs_reset. by rewrite lookup_singleton_eq.
    + unfold esks_of, reset_for_bootstrap, set_master_for_epoch, set_secrets. cbn [or_esks]. rewrite lookup_delete_eq.
      cbn [default from_option]. intros j [x Hx]. by rewrite lookup_empty in Hx.
    + ufold. lia.
  - cbn [phase_ok answerer_holds]. rewrite !epochs_reset. split; intros j [x Hj]; apply lookup_singleton_Some in Hj as [<- _]; lia.
Qed.

(** The invariant speaks of what each holds about the other, no more. *)
Lemma view_epochs r r' p : peer_view r' p = peer_view r p -> epochs r' p = epochs r p /\ esks_of r' p = esks_of r p
  /\ bootstrap_for r' p = bootstrap_for r p /\ current_send_epoch r' p = current_send_epoch r p.
Proof.
  unfold peer_view, epochs, esks_of, bootstrap_for, current_send_epoch. intros [= _ Hb Hm He Hc _]. by rewrite Hb, Hm, He, Hc.
Qed.

Lemma pair_ok_view a b a' b' p st : peer_view a' idb = peer_view a idb -> peer_view b' ida = peer_view b ida ->
  pair_ok (mkPair a b p st) -> pair_ok (mkPair a' b' p st).
Proof.
  intros Ha Hb (c & boot & [H1' H2' H3' H4' H5' H6' H7'] & Hp). exists c, boot. cbn [pa pb ph stranded] in *.
  apply view_epochs in Ha as (Ea1 & Ea2 & Ea3 & Ea4). apply view_epochs in Hb as (Eb1 & Eb2 & Eb3 & Eb4). split.
  - constructor; rewrite ?Ea1, ?Ea2, ?Ea3, ?Ea4, ?Eb1, ?Eb2, ?Eb3, ?Eb4; done.
  - destruct p; cbn [phase_ok] in *; rewrite ?Ea1, ?Ea2, ?Eb1, ?Eb2; done.
Qed.

Lemma node_name_some s : to_ascii_lowercase s = s -> node_name (Some s) = s.
Proof. by intros E. Qed.

Lemma ask_keeps a b b' epoch bootstrap req seed resp st :
  default 0 (current_send_epoch a idb) < u_max 32 -> rot_begin a ida idb = Ok (epoch, bootstrap, req) ->
  handle_request_ephemeral_key b idb suite seed req = (b', resp) ->
  pair_ok (mkPair a b RotIdle st) -> pair_ok (mkPair a b' (RotAsked epoch bootstrap resp) st).
Proof.
  intros Hlt Hb Hr (c & boot & Hs & Ht1 & Ht2). cbn [pa pb ph] in *. destruct Hs as [Ba Bb Cu Cb Sm Es Cc].
  unfold rot_begin in Hb. rewrite Ba in Hb. injection Hb as <- <- <-. rewrite Cu in *.
  assert (Ec : sat_add 32 c 1 = c + 1) by (unfold sat_add; ufold; lia). rewrite Ec in *.
  assert (Hu : is_u 32 (c + 1)) by (ufold; lia).
  unfold handle_request_ephemeral_key in Hr. cbn [rq_from rq_peer rq_epoch rq_mac] in Hr.
  rewrite !node_name_some in Hr by done. exists c, boot.
  assert (Hb' : (b' = b /\ forall x, resp <> Ok x) \/ exists k, kem_for suite = Ok k
    /\ b' = store_ephemeral_sk b ida (c + 1) (kp_secret (keygen k seed))
    /\ exists mac, resp = Ok (kp_public (keygen k seed), mac)).
  { destruct (rot_caller b idb ida idb) as [bs|e|]; [|left; injection Hr as <- <-; done..].
    destruct (negb _); [left; injection Hr as <- <-; done|].
    destruct (kem_for suite) as [k|e|]; [|left; injection Hr as <- <-; done..].
    right. injection Hr as <- <-. exists k. split_and!; [done..|by eexists]. }
  destruct Hb' as [[-> Hno]|(k & Ek & -> & mac & ->)].
  - split; [by constructor|]. cbn [phase_ok ph pa pb]. split_and!; try done. intros epk mac ->. by destruct (Hno (epk, mac)).
  - split; [constructor; try done|].
    + cbn [pb]. rewrite esks_store. apply top_keep. intros j Hj. destruct (decide (j = c + 1)) as [->|Hn]; [lia|].
      rewrite lookup_insert_ne in Hj by done. by apply Es.
    + cbn [phase_ok ph pa pb]. split_and!; try done. intros epk mac' [= <- <-]. exists k, seed. split_and!; try done.
      by apply esk_stored.
Qed.

Lemma save_keeps a b epoch bootstrap resp seed ss fin st :
  rot_encap suite ida idb epoch bootstrap seed (Some resp) = Ok (ss, fin) ->
  pair_ok (mkPair a b (RotAsked epoch bootstrap resp) st) ->
  pair_ok (mkPair (set_master_for_epoch a idb epoch ss) b (RotSaved epoch ss fin) st).
Proof.
  intros Hr (c & boot & Hs & -> & Hu & -> & Ht1 & Ht2 & Hresp). cbn [pa pb ph] in *.
  unfold rot_encap in Hr. destruct resp as [[epk mac]|e|]; [|done..].
  destruct (Hresp epk mac eq_refl) as (k & sd & Ek & -> & Hesk). destruct (negb _) in Hr; [done|].
  rewrite Ek in Hr. cbn [res_map_err res_bind] in Hr.
  destruct (kem_roundtrip k sd seed) as (ct & s & Eenc & Edec & Hl & _). rewrite Eenc in Hr.
  cbn [res_map_err res_bind ke_shared_secret ke_ciphertext] in Hr. rewrite Hl, Z.eqb_refl in Hr. cbn [negb] in Hr.
  injection Hr as <- <-. exists c, boot. destruct Hs as [Ba Bb Cu Cb (s0 & Sa & Sb) Es Cc]. split.
  - constructor; try done. cbn [pa pb]. exists s0. rewrite epochs_set, lookup_insert_ne by lia. done.
  - cbn [phase_ok ph pa pb rf_from rf_epoch rf_ct]. rewrite epochs_set, lookup_insert_eq.
    split_and!; try done; [by apply top_insert|]. exists k, (kp_secret (keygen k sd)). done.
Qed.

Lemma unsave_keeps a b b' epoch ss fin st :
  epochs b' ida = epochs b ida -> bootstrap_for b' ida = bootstrap_for b ida ->
  current_send_epoch b' ida = current_send_epoch b ida -> top (esks_of b' ida) epoch ->
  pair_ok (mkPair a b (RotSaved epoch ss fin) st) -> pair_ok (mkPair (remove_master_epoch a idb epoch) b' RotIdle st).
Proof.
  intros E1 E2 E3 E4 (c & boot & [Ba Bb Cu Cb (s0 & Sa & Sb) Es Cc] & -> & Hu & _ & Ht1 & Ht2 & _). cbn [pa pb ph] in *.
  exists c, boot. split.
  - constructor; cbn [pa pb]; rewrite ?E2, ?E3; try done. exists s0. rewrite epochs_remove, E1, lookup_delete_ne by lia. done.
  - cbn [phase_ok ph pa pb]. rewrite epochs_remove, E1. split; [by apply top_delete|done].
Qed.

Lemma esks_take b e : esks_of (take_ephemeral_sk b ida e).1 ida ⊆ esks_of b ida.
Proof.
  unfold take_ephemeral_sk, esks_of. destruct (or_esks b !! ida) as [m|] eqn:E; cbn [fst]; [|by rewrite E].
  unfold set_secrets. cbn [or_esks]. rewrite lookup_insert_eq. cbn [default from_option id]. apply delete_subseteq.
Qed.

Lemma esks_drop r keep : esks_of (drop_old_epochs_for r ida keep) ida ⊆ esks_of r ida.
Proof.
  unfold esks_of, drop_old_epochs_for, set_secrets. cbn [or_esks]. rewrite lookup_alter_eq.
  destruct (or_esks r !! ida); cbn [fmap option_fmap option_map default from_option id]; [|done].
  by destruct (keep_newest_spec (keep `max` 2)%nat g) as (_ & Hs & _).
Qed.

(** What the second handler does to what it holds of the caller. *)
Lemma establish_effect b b' fin r :
  handle_establish_ephemeral_secret b idb suite keep_b fin = (b', r) -> node_name (rf_from fin) = ida ->
  bootstrap_for b' ida = bootstrap_for b ida /\ current_send_epoch b' ida = current_send_epoch b ida
  /\ esks_of b' ida ⊆ esks_of b ida
  /\ ((forall u, r <> Ok u) /\ epochs b' ida = epochs b ida
     \/ exists k esk ss, r = Ok tt /\ kem_for suite = Ok k /\ esks_of b ida !! rf_epoch fin = Some esk
         /\ decap k esk (rf_ct fin) = Ok ss
         /\ epochs b' ida = keep_newest (keep_b `max` 2)%nat (<[rf_epoch fin := ss]> (epochs b ida))).
Proof.
  unfold handle_establish_ephemeral_secret. intros E Hn. rewrite Hn in E.
  assert (Hs2 : forall x, (b, x) = (b', r) -> (forall u, x <> Ok u) ->
    bootstrap_for b' ida = bootstrap_for b ida /\ current_send_epoch b' ida = current_send_epoch b ida
    /\ esks_of b' ida ⊆ esks_of b ida /\ (forall u, r <> Ok u) /\ epochs b' ida = epochs b ida).
  { by intros x [= <- <-] Hx. }
  destruct (rot_caller b idb ida (node_name (rf_peer fin))) as [bs|e|];
    [|destruct (Hs2 _ E) as (? & ? & ? & ? & ?); [done|split_and!; [done..|by left]]..].
  destruct (negb _); [destruct (Hs2 _ E) as (? & ? & ? & ? & ?); [done|split_and!; [done..|by left]]|]. clear Hs2.
  pose proof (esks_take b (rf_epoch fin)) as Hsub. pose proof (epochs_take b ida (rf_epoch fin)) as Hep.
  assert (Hbt : bootstrap_for (take_ephemeral_sk b ida (rf_epoch fin)).1 ida = bootstrap_for b ida
    /\ current_send_epoch (take_ephemeral_sk b ida (rf_epoch fin)).1 ida = current_send_epoch b ida).
  { unfold take_ephemeral_sk. by destruct (or_esks b !! ida). }
  destruct (take_ephemeral_sk b ida (rf_epoch fin)) as [b1 [esk|]] eqn:Et; cbn [fst] in *; destruct Hbt as [Hb1 Hb2].
  2:{ injection E as <- <-. split_and!; [done..|]. by left. }
  apply take_esk_once in Et as [Hesk _].
  destruct (kem_for suite) as [k|e|] eqn:Ek; [|injection E as <- <-; split_and!; [done..|by left]..].
  destruct (decap k esk (rf_ct fin)) as [ss|e|] eqn:Ed; [|injection E as <- <-; split_and!; [done..|by left]..].
  destruct (negb _); [injection E as <- <-; split_and!; [done..|by left]|]. injection E as <- <-.
  split_and!; [done|done| |].
  - etransitivity; [apply esks_drop|]. exact Hsub.
  - right. exists k, esk, ss. rewrite epochs_drop, epochs_set, Hep. done.
Qed.

Lemma install_keeps a b b' epoch ss fin st :
  handle_establish_ephemeral_secret b idb suite keep_b fin = (b', Ok tt) ->
  pair_ok (mkPair a b (RotSaved epoch ss fin) st) -> pair_ok (mkPair a b' (RotInstalled epoch) st).
Proof.
  intros E (c & boot & [Ba Bb Cu Cb (s0 & Sa & Sb) Es Cc] & -> & Hu & Hss & Ht1 & Ht2 & Hn & He & k & esk & Ek & Hesk & Hd).
  cbn [pa pb ph] in *. destruct (establish_effect _ _ _ _ E Hn) as (E2 & E3 & Hsub & [[Hno _]|(k' & esk' & ss' & _ & Ek' & Hesk' & Hd' & E1)]).
  { by destruct (Hno tt). }
  rewrite He in *. assert (k' = k) as -> by congruence. assert (esk' = esk) as -> by congruence.
  assert (ss' = ss) as -> by congruence.
  destruct (keep_two (keep_b `max` 2)%nat (epochs b ida) c ss ltac:(lia) (answerer_top _ _ _ Ht2) ltac:(by eexists)) as [Hk1 Hk2].
  exists c, boot. split.
  - constructor; cbn [pa pb]; rewrite ?E2, ?E3; try done.
    + exists s0. rewrite E1. split; [done|]. by rewrite Hk2.
    + intros j [x Hx]. apply Es. exists x. by eapply lookup_weaken.
  - cbn [phase_ok ph pa pb]. rewrite E1. split_and!; try done; [|by exists ss].
    apply top_keep. intros j Hj. destruct (decide (j = c + 1)) as [->|Hn']; [lia|]. rewrite lookup_insert_ne in Hj by done.
    by apply (answerer_top _ _ _ Ht2).
Qed.

Lemma done_keeps a b epoch st :
  pair_ok (mkPair a b (RotInstalled epoch) st) ->
  pair_ok (mkPair (drop_old_epochs_for (set_current_send_epoch a idb epoch) idb keep_a) b RotIdle false).
Proof.
  intros (c & boot & [Ba Bb Cu Cb (s0 & Sa & Sb) Es Cc] & -> & Hu & Ht1 & Ht2 & s & Ha & Hb). cbn [pa pb ph] in *.
  exists (c + 1), boot. split.
  - constructor; cbn [pa pb]; try done.
    + unfold current_send_epoch, drop_old_epochs_for, set_current_send_epoch, set_secrets. cbn [or_send_epochs].
      by rewrite lookup_insert_eq.
    + exists s. split; [|done]. rewrite epochs_drop. change (epochs (set_current_send_epoch a idb (c + 1)) idb) with (epochs a idb).
      rewrite (keep_newest_stays _ _ {[c + 1]}); [done|set_solver| | |rewrite size_singleton; lia].
      * intros j Hj. apply elem_of_singleton in Hj as ->. by apply elem_of_dom_2 in Ha.
      * intros j Hj Hn. apply Ht1 in Hj. assert (j <> c + 1) by set_solver. lia.
    + intros j Hj. apply Es in Hj. lia.
  - cbn [phase_ok ph pa pb]. rewrite epochs_drop. split; [by apply top_keep|done].
Qed.

Lemma confirm_lost_keeps a b epoch st :
  pair_ok (mkPair a b (RotInstalled epoch) st) -> pair_ok (mkPair (remove_master_epoch a idb epoch) b RotIdle true).
Proof.
  intros (c & boot & [Ba Bb Cu Cb (s0 & Sa & Sb) Es Cc] & -> & Hu & Ht1 & Ht2 & s & Ha & Hb). cbn [pa pb ph] in *.
  exists c, boot. split.
  - constructor; cbn [pa pb]; try done. exists s0. by rewrite epochs_remove, lookup_delete_ne by lia.
  - cbn [phase_ok answerer_holds ph pa pb stranded]. rewrite epochs_remove. split_and!; [by apply top_delete|done|by eexists].
Qed.

Lemma rstep_keeps p q : rstep p q -> pair_ok p -> pair_ok q.
Proof.
  intros Hst Hok. destruct Hst as [a b b' e bt req seed resp st Hlt Hb Hr|a b e bt resp st|a b e bt resp seed ss fin st Hr
    |a b e ss fin st|a b b' e ss fin er st Hr|a b b' e ss fin st Hr|a b e st|a b e st|a b a' b' p st Ha Hb].
  - by eapply ask_keeps.
  - destruct Hok as (c & boot & Hs & _ & _ & _ & Ht1 & Ht2 & _). by exists c, boot.
  - by eapply save_keeps.
  - cbn [rot_commit fst]. eapply (unsave_keeps a b b); [done..| |exact Hok].
    destruct Hok as (c & boot & Hs & -> & _). apply (sh_esks _ _ _ _ Hs).
  - pose proof Hok as (c & boot & Hs & -> & _ & _ & _ & _ & Hn & _).
    destruct (establish_effect _ _ _ _ Hr Hn) as (E2 & E3 & Hsub & [[_ E1]|(? & ? & ? & ? & _)]); [|done].
    cbn [rot_commit fst]. eapply (unsave_keeps a b b'); [done..| |exact Hok].
    intros j [x Hx]. apply (sh_esks _ _ _ _ Hs). exists x. by eapply lookup_weaken.
  - by eapply install_keeps.
  - cbn [rot_commit fst]. by eapply done_keeps.
  - cbn [rot_commit fst]. by eapply confirm_lost_keeps.
  - by apply (pair_ok_view a b).
Qed.

(** Whatever a run of rotations went through, lost messages included. *)
Lemma reached_ok p q : rtc rstep p q -> bootstrapped p -> pair_ok q.
Proof.
  intros Hr Hb. apply bootstrapped_ok in Hb. induction Hr as [|p p' q Hst Hr IH]; [done|]. apply IH. by eapply rstep_keeps.
Qed.

Definition known_to (me other : OrrRegistry) (id_me id_other : string) : Prop :=
  exists e s, send_epoch_for me id_other = Some e /\ master_for_epoch me id_other e = Some s /\ master_for_epoch other id_me e = Some s.

Lemma initiator_sends a b c boot p st :
  shared a b c boot -> phase_ok a b c boot p st ->
  (forall e ss fin, p = RotSaved e ss fin -> current_send_epoch a idb <> None) -> known_to a b ida idb.
Proof.
  intros [Ba Bb Cu Cb (s0 & Sa & Sb) Es Cc] Hp Hsv. unfold known_to, send_epoch_for, master_for_epoch, latest_epoch_for.
  destruct (current_send_epoch a idb) as [cur|] eqn:Ec; cbn [default from_option id] in Cu; [subst cur; by exists c, s0|].
  destruct p as [|e bt resp|e ss fin|e]; cbn [phase_ok] in Hp.
  - destruct Hp as [Ht _]. exists c, s0. by rewrite (top_last _ _ _ Sa Ht).
  - destruct Hp as (_ & _ & _ & Ht & _). exists c, s0. by rewrite (top_last _ _ _ Sa Ht).
  - by destruct (Hsv e ss fin eq_refl).
  - destruct Hp as (-> & _ & Ht & _ & s & Ha & Hb). exists (c + 1), s. by rewrite (top_last _ _ _ Ha Ht).
Qed.

(** The responder sends with its newest epoch. *)
Lemma responder_epoch b a c boot e s :
  shared a b c boot -> epochs b ida !! e = Some s -> top (epochs b ida) e -> send_epoch_for b ida = Some e.
Proof. intros Hs He Ht. unfold send_epoch_for, latest_epoch_for. rewrite (sh_cur_b _ _ _ _ Hs). by eapply top_last. Qed.

Lemma responder_sends a b c boot p st : shared a b c boot -> phase_ok a b c boot p st ->
  st = false \/ (exists e, p = RotInstalled e) -> known_to b a idb ida.
Proof.
  intros Hs Hp Hst. pose proof Hs as [Ba Bb Cu Cb (s0 & Sa & Sb) Es Cc]. unfold known_to, master_for_epoch.
  destruct p as [|e bt resp|e ss fin|e]; cbn [phase_ok] in Hp;
    try (destruct Hst as [->|[e' Hst]]; [cbn [answerer_holds] in Hp; exists c, s0|discriminate Hst]).
  - destruct Hp as [_ Ht]. by rewrite (responder_epoch _ _ _ _ _ _ Hs Sb Ht).
  - destruct Hp as (_ & _ & _ & _ & Ht & _). by rewrite (responder_epoch _ _ _ _ _ _ Hs Sb Ht).
  - destruct Hp as (_ & _ & _ & _ & Ht & _). by rewrite (responder_epoch _ _ _ _ _ _ Hs Sb Ht).
  - destruct Hp as (-> & _ & _ & Ht & s & Ha & Hb). exists (c + 1), s. by rewrite (responder_epoch _ _ _ _ _ _ Hs Hb Ht).
Qed.

Lemma stranded_sends a b c boot p : shared a b c boot -> phase_ok a b c boot p true ->
  send_epoch_for b ida = Some (c + 1) /\ is_Some (master_for_epoch b ida (c + 1))
  /\ (master_for_epoch a idb (c + 1) = None \/ (exists ss fin, p = RotSaved (c + 1) ss fin) \/ p = RotInstalled (c + 1)).
Proof.
  intros Hs Hp. unfold master_for_epoch.
  assert (Hno : top (epochs a idb) c -> epochs a idb !! (c + 1) = None).
  { intros Ht. apply eq_None_not_Some. intros Hx. apply Ht in Hx. lia. }
  destruct p as [|e bt resp|e ss fin|e]; cbn [phase_ok answerer_holds] in Hp.
  - destruct Hp as (Ha & Ht & [s Hv]). rewrite (responder_epoch _ _ _ _ _ _ Hs Hv Ht). split_and!; [done|by eexists|by eauto].
  - destruct Hp as (-> & _ & _ & Ha & (Ht & [s Hv]) & _). rewrite (responder_epoch _ _ _ _ _ _ Hs Hv Ht). split_and!; [done|by eexists|by eauto].
  - destruct Hp as (-> & _ & _ & _ & (Ht & [s Hv]) & _). rewrite (responder_epoch _ _ _ _ _ _ Hs Hv Ht). split_and!; [done|by eexists|by eauto 6].
  - destruct Hp as (-> & _ & _ & Ht & s & _ & Hv). rewrite (responder_epoch _ _ _ _ _ _ Hs Hv Ht). split_and!; [done|by eexists|by eauto 6].
Qed.

(** C4: From a common bootstrap on, through any number of rotations, each answered,
    refused, or with its request, its ciphertext or its confirmation lost, and
    whatever both do with other peers.  What the initiator sends with is held by
    the responder with the same secret, but for the moment when the first rotation
    ever has saved its epoch and is not confirmed.  What the responder sends with
    is held by the initiator with the same secret, but for the time between the
    loss of a confirmation and the next epoch it installs: in that time it sends
    with the epoch after the one the initiator holds as confirmed, and the
    initiator does not hold that one, but for another secret of that number it may
    have saved for the rotation under way.  A call that failed at the initiator is
    taken not to be served later. *)
Theorem rotation_epochs_known (p q : Pair) (Hb : bootstrapped p) (Hr : rtc rstep p q) :
  ((forall e ss fin, ph q = RotSaved e ss fin -> current_send_epoch (pa q) idb <> None) ->
      known_to (pa q) (pb q) ida idb)
  /\ (stranded q = false \/ (exists e, ph q = RotInstalled e) -> known_to (pb q) (pa q) idb ida)
  /\ (stranded q = true -> let e := default 0 (current_send_epoch (pa q) idb) + 1 in
      send_epoch_for (pb q) ida = Some e /\ is_Some (master_for_epoch (pb q) ida e)
      /\ (master_for_epoch (pa q) idb e = None \/ (exists ss fin, ph q = RotSaved e ss fin) \/ ph q = RotInstalled e)).
Proof.
  destruct (reached_ok _ _ Hr Hb) as (c & boot & Hs & Hp). split_and!.
  - intros Hsv. by eapply initiator_sends.
  - intros Hst. by eapply responder_sends.
  - intros Hst. cbn zeta. rewrite (sh_cur _ _ _ _ Hs). rewrite Hst in Hp. by eapply stranded_sends.
Qed.

(** In that moment the initiator already sends with the epoch it has only saved,
    and the responder does not have it: with no confirmed epoch, the epoch to send
    with is the newest one held. *)
Theorem first_rotation_sends_unconfirmed (p q : Pair) (e : Z) (ss : bytes) (fin : RotFin)
  (Hb : bootstrapped p) (Hr : rtc rstep p q) (Hph : ph q = RotSaved e ss fin) (Hst : stranded q = false)
  (Hcur : current_send_epoch (pa q) idb = None) :
  send_epoch_for (pa q) idb = Some e /\ master_for_epoch (pb q) ida e = None.
Proof.
  destruct (reached_ok _ _ Hr Hb) as (c & boot & Hs & Hp). rewrite Hph, Hst in Hp. cbn [phase_ok answerer_holds] in Hp.
  destruct Hp as (-> & _ & Ha & Ht1 & Ht2 & _). unfold send_epoch_for, latest_epoch_for, master_for_epoch. rewrite Hcur.
  split; [by eapply top_last|]. apply eq_None_not_Some. intros Hx. apply Ht2 in Hx. lia.
Qed.

(** When the responder has installed an epoch and its confirmation is lost, the
    initiator drops that epoch while the responder sends with it. *)
Theorem lost_confirmation_strands_responder (p : Pair) (a b : OrrRegistry) (e : Z) (st : bool)
  (Hb : bootstrapped p) (Hr : rtc rstep p (mkPair a b (RotInstalled e) st)) :
  let q := mkPair (rot_commit a idb e None).1 b RotIdle true in
  rtc rstep p q /\ send_epoch_for (pb q) ida = Some e /\ is_Some (master_for_epoch (pb q) ida e)
  /\ master_for_epoch (pa q) idb e = None.
Proof.
  cbn zeta. split; [eapply rtc_r; [exact Hr|by apply rs_confirm_lost]|].
  destruct (reached_ok _ _ Hr Hb) as (c & boot & Hs & -> & _ & _ & Ht & s & _ & Hv). cbn [pa pb ph] in *.
  rewrite (responder_epoch _ _ _ _ _ _ Hs Hv Ht). split_and!; [done|by exists s|]. unfold master_for_epoch.
  cbn [rot_commit fst]. rewrite epochs_remove. apply lookup_delete_eq.
Qed.

(** ** A rotation with a working network *)

Definition live_req (seed : bytes) (b : OrrRegistry) (m : RotReq) : OrrRegistry * option RotResp :=
  let '(b, a) := handle_request_ephemeral_key b idb suite seed m in (b, Some a).
Definition live_fin (b : OrrRegistry) (m : RotFin) : OrrRegistry * option FinResp :=
  let '(b, a) := handle_establish_ephemeral_secret b idb suite keep_b m in (b, Some a).

Context (Hneb : idb <> EmptyString).

Lemma rot_caller_ok b boot : bootstrap_for b ida = Some boot -> rot_caller b idb ida idb = Ok boot.
Proof.
  intros Hb. unfold rot_caller. rewrite !bool_decide_eq_false_2 by done. cbn [orb].
  rewrite bool_decide_eq_true_2 by done. cbn [negb]. by rewrite Hb.
Qed.

(** The function and the steps agree: with both calls answered, a run goes through
    the steps above to the installed epoch and commits it. *)
Lemma run_is_steps a b k seed seed_b st :
  pair_ok (mkPair a b RotIdle st) -> default 0 (current_send_epoch a idb) < u_max 32 -> kem_for suite = Ok k ->
  exists a1 b1 e, run_one_rotation (live_req seed_b) live_fin suite ida idb seed a b
    = (set_current_send_epoch a1 idb e, b1, Ok e)
    /\ rtc rstep (mkPair a b RotIdle st) (mkPair a1 b1 (RotInstalled e) st)
    /\ e = default 0 (current_send_epoch a idb) + 1.
Proof.
  intros (c & boot & [Ba Bb Cu Cb (s0 & Sa & Sb) Es Cc] & Ht1 & Ht2) Hlt Ek. cbn [pa pb ph] in *.
  destruct (kem_roundtrip k seed_b seed) as (ct & ss & Eenc & Edec & Hl & _).
  assert (Eb : rot_begin a ida idb = Ok (c + 1, boot, mkRotReq (Some ida) (Some idb) (c + 1) (mac_req boot (c + 1) ida idb))).
  { unfold rot_begin. rewrite Ba, Cu. rewrite Cu in Hlt. assert (sat_add 32 c 1 = c + 1) as -> by (unfold sat_add; ufold; lia). done. }
  set (kp := keygen k seed_b) in *. set (b1 := store_ephemeral_sk b ida (c + 1) (kp_secret kp)).
  assert (Er : handle_request_ephemeral_key b idb suite seed_b (mkRotReq (Some ida) (Some idb) (c + 1) (mac_req boot (c + 1) ida idb))
    = (b1, Ok (kp_public kp, mac_resp boot (c + 1) ida idb (kp_public kp)))).
  { unfold handle_request_ephemeral_key. cbn [rq_from rq_peer rq_epoch rq_mac]. rewrite !node_name_some by done.
    rewrite (rot_caller_ok _ _ Bb). unfold verify_mac_req. rewrite bool_decide_eq_true_2 by done. cbn [negb]. by rewrite Ek. }
  set (fin := mkRotFin (Some ida) (Some idb) (c + 1) ct (mac_fin boot (c + 1) ida idb ct)).
  assert (Ee : rot_encap suite ida idb (c + 1) boot seed (Some (Ok (kp_public kp, mac_resp boot (c + 1) ida idb (kp_public kp)))) = Ok (ss, fin)).
  { unfold rot_encap, verify_mac_resp. rewrite bool_decide_eq_true_2 by done. cbn [negb]. rewrite Ek. cbn [res_map_err res_bind].
    rewrite Eenc. cbn [res_map_err res_bind ke_shared_secret ke_ciphertext]. by rewrite Hl. }
  assert (Hesk : esks_of b1 ida !! (c + 1) = Some (kp_secret kp)) by (by apply esk_stored).
  assert (Ef : exists b2, handle_establish_ephemeral_secret b1 idb suite keep_b fin = (b2, Ok tt)).
  { unfold handle_establish_ephemeral_secret. cbn [rf_from rf_peer rf_epoch rf_ct rf_mac fin]. rewrite !node_name_some by done.
    rewrite (rot_caller_ok b1 boot Bb). unfold verify_mac_fin. rewrite bool_decide_eq_true_2 by done. cbn [negb].
    unfold take_ephemeral_sk. unfold esks_of in Hesk. destruct (or_esks b1 !! ida) as [m|]; [|done].
    cbn [default from_option id] in Hesk. rewrite Hesk, Ek, Edec, Hl, Z.eqb_refl. by eexists. }
  destruct Ef as [b2 Ef]. exists (set_master_for_epoch a idb (c + 1) ss), b2, (c + 1). split_and!; [|..|by rewrite Cu].
  - unfold run_one_rotation, live_req, live_fin. rewrite Eb, Er, Ee, Ef. done.
  - eapply rtc_l; [by eapply rs_ask|]. eapply rtc_l; [by eapply rs_save|]. apply rtc_once. by eapply rs_install.
Qed.

(** C29: Two routers bootstrapped together, with a suite that has a KEM and a
    confirmed epoch below 2^32 - 1, after any number of rotations, with messages
    lost or refused as in C4, lost confirmations included: a rotation whose two
    calls are answered succeeds.  It yields the next epoch, with one secret both
    hold and both send with from then on, so a lost confirmation is repaired. *)
Theorem rotation_completes (p : Pair) (a b : OrrRegistry) (k : ParamSet) (seed seed_b : bytes) (st : bool)
  (Hb : bootstrapped p) (Hr : rtc rstep p (mkPair a b RotIdle st)) (Hk : kem_for suite = Ok k)
  (Hc : default 0 (current_send_epoch a idb) < u_max 32) :
  let e := default 0 (current_send_epoch a idb) + 1 in
  exists a' b' s, run_one_rotation (live_req seed_b) live_fin suite ida idb seed a b = (a', b', Ok e)
    /\ master_for_epoch a' idb e = Some s /\ master_for_epoch b' ida e = Some s
    /\ send_epoch_for a' idb = Some e /\ send_epoch_for b' ida = Some e.
Proof.
  destruct (run_is_steps a b k seed seed_b st (reached_ok _ _ Hr Hb) Hc Hk) as (a1 & b1 & e & Erun & Hst & ->).
  assert (Hr2 : rtc rstep p (mkPair a1 b1 (RotInstalled (default 0 (current_send_epoch a idb) + 1)) st)) by (etrans; [exact Hr|exact Hst]).
  destruct (reached_ok _ _ Hr2 Hb) as (c & boot & Hs & Hp).
  cbn [pa pb ph phase_ok] in *. destruct Hp as (Ee & _ & _ & Ht & s & Ha & Hbb).
  cbn zeta. eexists _, b1, s. split_and!; [exact Erun|exact Ha|exact Hbb| |].
  - unfold send_epoch_for, current_send_epoch, set_current_send_epoch, set_secrets. cbn [or_send_epochs]. by rewrite lookup_insert_eq.
  - unfold send_epoch_for, latest_epoch_for. rewrite (sh_cur_b _ _ _ _ Hs). by eapply top_last.
Qed.

(** ** Making the secrets again *)

Definition live_est (i : OrrIdentity) (certs : option (list bytes)) (b : OrrRegistry) (ct : bytes) : OrrRegistry * option FinResp :=
  grpc_establish_secret b i certs (Some ida) ct.

(** The peer's process: its identity, keys of the suite, and it knows who calls. *)
Definition answers (i : OrrIdentity) (k : ParamSet) (certs : option (list bytes)) (b : OrrRegistry) : Prop :=
  kem_for suite = Ok k /\ id_kem i = k
  /\ (exists seed, id_public i = kp_public (keygen k seed) /\ id_secret i = kp_secret (keygen k seed))
  /\ require_from_matches_peer certs ida = true /\ is_Some (qkc_id b ida).

Lemma establish_live i k certs b seed : answers i k certs b ->
  exists s, attempt_establish (live_est i certs) suite (id_public i) seed b = (reset_for_bootstrap b ida s, Some s).
Proof.
  intros (Ek & Hk & (sd & Hp & Hs) & Hc & [q Hq]).
  destruct (kem_roundtrip k sd seed) as (ct & ss & Eenc & Edec & Hl & _). exists ss.
  unfold attempt_establish, initiate. rewrite Ek. cbn [res_bind]. rewrite Hp, Eenc. cbn [ke_shared_secret ke_ciphertext].
  rewrite Hl, Z.eqb_refl. cbn [negb]. unfold live_est, grpc_establish_secret. rewrite node_name_some by done.
  rewrite bool_decide_eq_false_2 by done. rewrite Hc. cbn [negb]. rewrite Hq. unfold identity_decap. rewrite Hk, Hs, Edec, Hl, Z.eqb_refl.
  done.
Qed.

(** A peer that lost its bootstrap secret, or holds another, answers a rotation
    with an error that makes the initiator establish a new one at once; after that
    one turn both are freshly bootstrapped and the loop rotates again. *)
Theorem rotation_repairs (a b : OrrRegistry) (i : OrrIdentity) (k : ParamSet) (certs : option (list bytes)) (now : Z)
  (seed seed2 seed_b ka : bytes)
  (Ha : bootstrap_for a idb = Some ka)
  (Hb : forall kb, bootstrap_for b ida = Some kb ->
    let e := sat_add 32 (default 0 (current_send_epoch a idb)) 1 in mac_req ka e ida idb <> mac_req kb e ida idb)
  (Hfree : default false (or_inflight a !! idb) = false) (Hans : answers i k certs b)
  (Hid : id_orr i = idb)
  (Hv : let an := get_public_key i idb in verify_announcement now a idb (an_suite an) (an_pk an) (an_sig an) (an_certs an) <> SigReject) :
  exists a' b' p, rotation_attempt (live_req seed_b) live_fin (live_est i certs) (Some (get_public_key i idb)) now suite ida idb
      keep_a seed seed2 a b = (a', b', Some NextRetry)
    /\ bootstrapped p /\ rtc rstep p (mkPair a' b' RotIdle false).
Proof.
  unfold rotation_attempt, try_mark_rebootstrap_inflight. rewrite Hfree.
  set (a0 := set_flags _ _ _ a). unfold run_one_rotation, rot_begin. change (bootstrap_for a0 idb) with (bootstrap_for a idb).
  change (current_send_epoch a0 idb) with (current_send_epoch a idb). rewrite Ha.
  set (e := sat_add 32 _ 1) in *. set (req := mkRotReq _ _ e _).
  assert (Er : exists er, live_req seed_b b req = (b, Some (Err er)) /\ asks_bootstrap er = true).
  { unfold live_req, handle_request_ephemeral_key. cbn [req rq_from rq_peer rq_epoch rq_mac]. rewrite !node_name_some by done.
    destruct (bootstrap_for b ida) as [kb|] eqn:Eb.
    - rewrite (rot_caller_ok _ _ Eb). unfold verify_mac_req. rewrite bool_decide_eq_false_2 by (by apply Hb). by exists MacReqInvalid.
    - unfold rot_caller. rewrite !bool_decide_eq_false_2 by done. cbn [orb]. rewrite bool_decide_eq_true_2 by done. cbn [negb].
      rewrite Eb. by exists NoBootstrapSecret. }
  destruct Er as (er & -> & Hask). cbn [rot_encap]. rewrite Hask. unfold rebootstrap. cbn zeta in Hv.
  assert (Hn : names_peer (get_public_key i idb) idb = true).
  { unfold names_peer, get_public_key. destruct (sign_pubkey_announcement i) as [[sg cs]|]; cbn [default from_option id an_id]; rewrite Hidb;
      rewrite (bool_decide_eq_true_2 (idb = idb)) by done; apply orb_true_r. }
  rewrite Hn. cbn [negb]. change (verify_announcement now a0) with (verify_announcement now a).
  assert (Hpk : an_pk (get_public_key i idb) = id_public i) by (unfold get_public_key; by destruct (sign_pubkey_announcement i) as [[]|]).
  destruct (establish_live i k certs b seed2 Hans) as [s Est]. rewrite Hpk in *. rewrite Est.
  destruct (verify_announcement _ _ _ _ _ _ _); try done.
  all: eexists _, _, (mkPair (reset_for_bootstrap (put_pubkey a0 idb (id_public i)) idb s) (reset_for_bootstrap b ida s) RotIdle false).
  all: split_and!; [done|by exists s, (put_pubkey a0 idb (id_public i)), b|apply rtc_once; by apply rs_others].
Qed.
End Pair.

(** ** Pending ephemeral keys stay bounded *)

Section Bound.
Context `{MacCrypto} `{MlKem} `{MlDsa} `{X509}.

(** A call of either kind with the certificates it came with and fresh randomness. *)
Definition RotCall : Type := (bytes * option (list bytes)) * (RotReq + RotFin).

Definition serve (id suite : string) (keep : nat) (r : OrrRegistry) (c : RotCall) : OrrRegistry :=
  match c with
  | ((seed, certs), inl m) => (grpc_request_ephemeral_key r id suite seed certs m).1
  | ((seed, certs), inr m) => (grpc_establish_ephemeral_secret r id suite keep certs m).1
  end.

Lemma drop_esks_bounded r orr keep : esks_bounded r -> esks_bounded (drop_old_epochs_for r orr keep).
Proof.
  intros Hb o. specialize (Hb o). unfold esks_of, drop_old_epochs_for, set_secrets in *. cbn [or_esks].
  destruct (decide (o = orr)) as [->|Hn]; [|by rewrite lookup_alter_ne]. rewrite lookup_alter_eq.
  destruct (or_esks r !! orr); cbn [fmap option_fmap option_map default from_option id] in *; [|done].
  rewrite (proj1 (keep_newest_spec _ _)). lia.
Qed.

Lemma serve_bounded id suite keep r c : esks_bounded r -> esks_bounded (serve id suite keep r c).
Proof.
  intros Hb. destruct c as [[seed certs] [m|m]]; cbn [serve].
  - unfold grpc_request_ephemeral_key, handle_request_ephemeral_key. destruct (negb _); [done|].
    destruct (rot_caller _ _ _ _); [|done..]. destruct (negb _); [done|]. destruct (kem_for suite); [|done..].
    by apply store_esk_bounded.
  - unfold grpc_establish_ephemeral_secret, handle_establish_ephemeral_secret. destruct (negb _); [done|].
    destruct (rot_caller _ _ _ _); [|done..]. destruct (negb _); [done|].
    pose proof (take_esk_bounded r (node_name (rf_from m)) (rf_epoch m) Hb) as Ht.
    destruct (take_ephemeral_sk r (node_name (rf_from m)) (rf_epoch m)) as [r1 [esk|]]; [|done]. cbn [fst] in Ht.
    destruct (kem_for suite); [|done..]. destruct (decap _ _ _); [|done..]. destruct (negb _); [done|].
    by apply drop_esks_bounded.
Qed.

(** However many requests arrive, from whomever and for whatever epochs, a
    responder holds at most 64 ephemeral keys per peer. *)
Theorem pending_keys_bounded (id suite : string) (keep : nat) (seed_qkc : gmap string Z) (pks vks : gmap string bytes) (qkc : Z)
  (trust : BootstrapTrust) (calls : list RotCall) (peer : string) :
  (size (esks_of (fold_left (serve id suite keep) calls (or_with_all seed_qkc pks vks id qkc trust)) peer) <= 64)%nat.
Proof.
  revert peer. change (esks_bounded (fold_left (serve id suite keep) calls (or_with_all seed_qkc pks vks id qkc trust))).
  assert (H0' : esks_bounded (or_with_all seed_qkc pks vks id qkc trust)).
  { intros o. unfold esks_of, or_with_all. cbn [or_esks]. rewrite lookup_empty. cbn [default from_option].
    rewrite map_size_empty. apply Nat.le_0_l. }
  revert H0'. generalize (or_with_all seed_qkc pks vks id qkc trust). induction calls as [|c calls IH]; intros r Hr; [done|].
  cbn [fold_left]. by apply IH, serve_bounded.
Qed.
End Bound.

(** ** Witnesses *)

Definition boot_a : OrrRegistry := reset_for_bootstrap (or_with_all {[ "orr_2" := 2 ]} ∅ ∅ "orr_1" 1 Tofu) "orr_2" (pad 32 [5]).
Definition boot_b : OrrRegistry := reset_for_bootstrap (or_with_all {[ "orr_1" := 1 ]} ∅ ∅ "orr_2" 2 Tofu) "orr_1" (pad 32 [5]).
Definition boot_pair : Pair := mkPair boot_a boot_b RotIdle false.

Lemma boot_pair_ok : bootstrapped "orr_1" "orr_2" boot_pair.
Proof. by eexists _, _, _. Qed.

(** One rotation, step by step. *)
Definition rot_req1 : RotReq := mkRotReq (Some "orr_1"%string) (Some "orr_2"%string) 1 (mac_req (pad 32 [5]) 1 "orr_1" "orr_2").
Definition asked_b := handle_request_ephemeral_key boot_b "orr_2" "ml-kem-768" [9] rot_req1.
Definition saved_1 : bytes * RotFin :=
  match rot_encap "ml-kem-768" "orr_1" "orr_2" 1 (pad 32 [5]) [11] (Some asked_b.2) with
  | Ok x => x | _ => ([], mkRotFin None None 0 [] []) end.
Definition pair_saved : Pair := mkPair (set_master_for_epoch boot_a "orr_2" 1 saved_1.1) asked_b.1 (RotSaved 1 saved_1.1 saved_1.2) false.
Definition installed_b := handle_establish_ephemeral_secret asked_b.1 "orr_2" "ml-kem-768" 2 saved_1.2.
Definition pair_installed : Pair := mkPair (pa pair_saved) installed_b.1 (RotInstalled 1) false.

Lemma saved_reached : rtc (rstep "orr_1" "orr_2" "ml-kem-768" 2 2) boot_pair pair_saved.
Proof.
  apply (rtc_l _ _ (mkPair boot_a asked_b.1 (RotAsked 1 (pad 32 [5]) asked_b.2) false)).
  - apply (rs_ask _ _ _ _ _ boot_a boot_b asked_b.1 1 (pad 32 [5]) rot_req1 [9]);
      [vm_compute; reflexivity..|apply surjective_pairing].
  - apply rtc_once. apply (rs_save _ _ _ _ _ boot_a asked_b.1 1 (pad 32 [5]) asked_b.2 [11]). vm_compute. reflexivity.
Qed.

Lemma installed_reached : rtc (rstep "orr_1" "orr_2" "ml-kem-768" 2 2) boot_pair pair_installed.
Proof.
  eapply rtc_r; [exact saved_reached|]. apply (rs_install _ _ _ _ _ (pa pair_saved) asked_b.1 installed_b.1 1 saved_1.1 saved_1.2).
  vm_compute. reflexivity.
Qed.

(** The confirmation of that rotation is lost. *)
Definition pair_stranded : Pair := mkPair (rot_commit (pa pair_saved) "orr_2" 1 None).1 installed_b.1 RotIdle true.

Lemma stranded_reached : rtc (rstep "orr_1" "orr_2" "ml-kem-768" 2 2) boot_pair pair_stranded.
Proof. eapply rtc_r; [exact installed_reached|]. apply rs_confirm_lost. Qed.

Lemma rotation_epochs_known_witness :
  known_to installed_b.1 (pa pair_saved) "orr_2" "orr_1" /\ known_to (pa pair_stranded) (pb pair_stranded) "orr_1" "orr_2"
  /\ send_epoch_for (pb pair_stranded) "orr_1" = Some 1.
Proof.
  split_and!.
  - apply (rotation_epochs_known "orr_1" "orr_2" "ml-kem-768" 2 2 eq_refl eq_refl ltac:(discriminate) boot_pair pair_installed
      boot_pair_ok installed_reached). by left.
  - apply (rotation_epochs_known "orr_1" "orr_2" "ml-kem-768" 2 2 eq_refl eq_refl ltac:(discriminate) boot_pair pair_stranded
      boot_pair_ok stranded_reached). intros e ss fin Hf. discriminate Hf.
  - apply (rotation_epochs_known "orr_1" "orr_2" "ml-kem-768" 2 2 eq_refl eq_refl ltac:(discriminate) boot_pair pair_stranded
      boot_pair_ok stranded_reached). reflexivity.
Defined.

Lemma first_rotation_sends_unconfirmed_witness :
  send_epoch_for (pa pair_saved) "orr_2" = Some 1 /\ master_for_epoch (pb pair_saved) "orr_1" 1 = None.
Proof.
  apply (first_rotation_sends_unconfirmed "orr_1" "orr_2" "ml-kem-768" 2 2 eq_refl eq_refl ltac:(discriminate) boot_pair pair_saved
    1 saved_1.1 saved_1.2); [exact boot_pair_ok|exact saved_reached|reflexivity|reflexivity|vm_compute; reflexivity].
Defined.

Lemma lost_confirmation_strands_responder_witness :
  rtc (rstep "orr_1" "orr_2" "ml-kem-768" 2 2) boot_pair pair_stranded
  /\ send_epoch_for installed_b.1 "orr_1" = Some 1 /\ is_Some (master_for_epoch installed_b.1 "orr_1" 1)
  /\ master_for_epoch (pa pair_stranded) "orr_2" 1 = None.
Proof.
  apply (lost_confirmation_strands_responder "orr_1" "orr_2" "ml-kem-768" 2 2 eq_refl eq_refl ltac:(discriminate) boot_pair
    (pa pair_saved) installed_b.1 1 false); [exact boot_pair_ok|exact installed_reached].
Defined.

(** The rotation after the lost confirmation. *)
Lemma rotation_completes_witness :
  exists a' b' s, run_one_rotation (live_req "orr_2" "ml-kem-768" [9]) (live_fin "orr_2" "ml-kem-768" 2) "ml-kem-768" "orr_1" "orr_2" [11]
      (pa pair_stranded) (pb pair_stranded) = (a', b', Ok 1)
    /\ master_for_epoch a' "orr_2" 1 = Some s /\ master_for_epoch b' "orr_1" 1 = Some s
    /\ send_epoch_for a' "orr_2" = Some 1 /\ send_epoch_for b' "orr_1" = Some 1.
Proof.
  apply (rotation_completes "orr_1" "orr_2" "ml-kem-768" 2 2 eq_refl eq_refl ltac:(discriminate) ltac:(discriminate) boot_pair
    (pa pair_stranded) (pb pair_stranded) MlKem768 [11] [9] true);
    [exact boot_pair_ok|exact stranded_reached|reflexivity|vm_compute; reflexivity].
Defined.

(** The second router has restarted: nothing is left of its secrets. *)
Definition restarted_b : OrrRegistry := or_with_all {[ "orr_1" := 1 ]} ∅ ∅ "orr_2" 2 Tofu.
Definition restarted_identity : OrrIdentity :=
  mkIdentity "orr_2" "ml-kem-768" (kp_public (keygen MlKem768 [21])) (kp_secret (keygen MlKem768 [21])) None MlKem768.

Lemma rotation_repairs_witness :
  exists a' b' p, rotation_attempt (live_req "orr_2" "ml-kem-768" [9]) (live_fin "orr_2" "ml-kem-768" 2)
      (live_est "orr_1" restarted_identity None) (Some (get_public_key restarted_identity "orr_2")) 5 "ml-kem-768" "orr_1" "orr_2"
      2 [11] [12] boot_a restarted_b = (a', b', Some NextRetry)
    /\ bootstrapped "orr_1" "orr_2" p /\ rtc (rstep "orr_1" "orr_2" "ml-kem-768" 2 2) p (mkPair a' b' RotIdle false).
Proof.
  apply (rotation_repairs "orr_1" "orr_2" "ml-kem-768" 2 2 eq_refl eq_refl ltac:(discriminate) ltac:(discriminate) boot_a restarted_b
    restarted_identity MlKem768 None 5 [11] [12] [9] (pad 32 [5])).
  - vm_compute. reflexivity.
  - intros kb Hk. vm_compute in Hk. discriminate Hk.
  - vm_compute. reflexivity.
  - split; [reflexivity|]. split; [vm_compute; reflexivity|].
    split; [exists [21]; split; vm_compute; reflexivity|]. split; [reflexivity|]. exists 1. vm_compute. reflexivity.
  - reflexivity.
  - vm_compute. discriminate.
Defined.
