(* ===== verification/OrrService.v ===== *)
(** * Onion routing between routers (orr/src/service.rs)

    What a router does with a message of its DKMS (four modes, by [max_hops]) and
    with a frame that its QKC hands over: it peels one layer and delivers or
    forwards.  An operation returns the state, what it puts out ([OrrEffect]) and
    its result; the frames of [ToQkc] are those of [qkc_link.send], which only
    fails when the process ends.  The counters of the log line are left out.

    Randomness and time are arguments: the key ids of the layers, the shuffle of
    the hops, the clock ([now]) and the bits of the header's time ([ts]).  Names are
    ASCII, so [to_lowercase] and [trim] are on ASCII.

    Shown: a message sent along a path of routers that hold the sender's secrets
    reaches the last one and no other DKMS, with the bytes, the header and the
    origin it was sent with; the chosen hops keep the path's order and end at the
    destination; a router takes a message of an origin once, as long as the origin
    is written the same way. *)

From Stdlib Require Import ZArith Lia String Ascii.
From stdpp Require Import sorting.
From S2P Require Import Prelude Text Wire ReplayWindow FrameMac Primitives Signing Onion OrrPeers OrrRotation.

(** 5 s, in nanoseconds. *)
Definition PASSIVE_REBOOTSTRAP_MIN_INTERVAL : Z := 5 * 1000000000.

Record SendOutcome := mkOutcome {
  so_status : string; so_final_dest_orr : string; so_next_hop_qkc : Z; so_remaining_hops : Z; so_pqc_layer : bool;
}.

Record OrrDelivered := mkDelivered {
  dm_origin : option string; dm_destination : string; dm_payload : bytes; dm_app_header : AppHeader; dm_pqc : bool;
}.

Inductive OrrEffect := ToQkc (f : Frame) | ToDkms (m : OrrDelivered) | StartRebootstrap (peer addr : string) (pk : bytes).

Record OrrService := mkService {
  os_id : string;
  os_qkc : Z;
  os_peers : OrrRegistry;
  os_cache : gmap string (list string);
  os_session : Z;
  os_counter : Z;
  os_replay : gmap string ReplayWindow;
}.

Definition os_with_peers (r : OrrRegistry) (s : OrrService) : OrrService :=
  mkService (os_id s) (os_qkc s) r (os_cache s) (os_session s) (os_counter s) (os_replay s).
Definition os_with_cache (c : gmap string (list string)) (s : OrrService) : OrrService :=
  mkService (os_id s) (os_qkc s) (os_peers s) c (os_session s) (os_counter s) (os_replay s).
Definition os_with_replay (w : gmap string ReplayWindow) (s : OrrService) : OrrService :=
  mkService (os_id s) (os_qkc s) (os_peers s) (os_cache s) (os_session s) (os_counter s) w.

(** ** Paths *)

(** [split(',')] and [trim]. *)
Fixpoint split_comma (s : string) : list string :=
  match s with
  | EmptyString => [EmptyString]
  | String c s =>
      if Ascii.eqb c "," then EmptyString :: split_comma s
      else match split_comma s with w :: ws => String c w :: ws | [] => [String c EmptyString] end
  end.

Definition is_blank (c : ascii) : bool := let n := N_of_ascii c in ((9 <=? n) && (n <=? 13))%N || (n =? 32)%N.

Fixpoint trim_start (s : string) : string :=
  match s with String c s' => if is_blank c then trim_start s' else s | EmptyString => EmptyString end.
Fixpoint trim_end (s : string) : string :=
  match s with
  | EmptyString => EmptyString
  | String c s => match trim_end s with EmptyString => if is_blank c then EmptyString else String c EmptyString | t => String c t end
  end.
Definition trim (s : string) : string := trim_end (trim_start s).

Definition parse_path (self hint : string) : list string :=
  filter (fun s => s <> EmptyString /\ s <> self) (map trim (split_comma hint)).

(** [perm] is the shuffle of the positions before the last. *)
Definition select_random_hops (path : list string) (n : nat) (perm : list nat) : res OrrError (list string) :=
  if (n =? 0)%nat then Err InvalidPath else
  if (length path <=? n)%nat then Ok path else
  let dest_idx := (length path - 1)%nat in
  match path !! dest_idx with
  | None => Panic
  | Some dest => Ok (omap (fun i => path !! i) (merge_sort Nat.le (take (n - 1) perm)) ++ [dest])
  end.

Section Service.
Context `{MacCrypto} `{AesGcm} `{Sha256} `{MsgPack}.

(** ** Making a lost secret again, on the way *)

Definition trigger_passive_rebootstrap (now : Z) (s : OrrService) (peer_id : string) : OrrService * list OrrEffect :=
  match grpc_addr (os_peers s) peer_id with
  | None => (s, [])
  | Some addr =>
      if negb (should_attempt_rebootstrap now (os_peers s) peer_id PASSIVE_REBOOTSTRAP_MIN_INTERVAL) then (s, []) else
      match try_mark_rebootstrap_inflight (os_peers s) peer_id with
      | (_, false) => (s, [])
      | (r, true) =>
          match or_public_key r peer_id with
          | None => (os_with_peers (clear_rebootstrap_inflight r peer_id) s, [])
          | Some pk => (os_with_peers (clear_peer_secrets r peer_id) s, [StartRebootstrap peer_id addr pk])
          end
      end
  end.

(** ** Sending *)

Definition next_onion_freshness (s : OrrService) : OrrService * (Z * Z) :=
  let c := as_u 64 (os_counter s + 1) in
  (mkService (os_id s) (os_qkc s) (os_peers s) (os_cache s) (os_session s) c (os_replay s), (os_session s, c)).

Definition broadcast_self (s : OrrService) (payload : bytes) (app_header : AppHeader) : OrrEffect :=
  ToDkms (mkDelivered (Some (os_id s)) (os_id s) payload app_header false).

Definition local_send (s : OrrService) (grade dest_final epoch : Z) (hdr : OrrHeader) (app_header : AppHeader) (payload : bytes) : Frame :=
  mkFrame FRAME_LOCAL_SEND grade (os_qkc s) (os_qkc s) dest_final 0 epoch [] (header_encode hdr) (dkms_encode app_header) payload.

Definition send_passthrough (ts : Z) (s : OrrService) (dest_orr : string) (payload : bytes) (app_header : AppHeader) (grade : Z)
  : OrrService * list OrrEffect * res OrrError SendOutcome :=
  match qkc_id (os_peers s) dest_orr with
  | None => (s, [], Err RelayErr)
  | Some dest_qkc =>
      (s, [ToQkc (local_send s grade dest_qkc 0 (passthrough ts (os_id s) dest_orr) app_header payload)],
       Ok (mkOutcome "sent" dest_orr dest_qkc 0 false))
  end.

Definition onion_frame (ts : Z) (s : OrrService) (final_dest_orr : string) (next_qkc : Z) (o : OnionWire) (app_header : AppHeader)
  (grade : Z) : Frame :=
  local_send s grade next_qkc (ow_first_epoch_id o)
    (onion_header ts (os_id s) final_dest_orr (ow_first_hop_orr o) (ow_first_key_id o) (ow_max_hops o) (ow_session o) (ow_counter o) (ow_tag o))
    app_header (ow_payload o).

Definition send_onion_e2e (now ts : Z) (s : OrrService) (dest_orr : string) (payload : bytes) (app_header : AppHeader) (grade : Z)
  (kids : list bytes) : OrrService * list OrrEffect * res OrrError SendOutcome :=
  match qkc_id (os_peers s) dest_orr with
  | None => (s, [], Err RelayErr)
  | Some dest_qkc =>
      match send_epoch_for (os_peers s) dest_orr with
      | None => let '(s, eff) := trigger_passive_rebootstrap now s dest_orr in (s, eff, Err RelayErr)
      | Some epoch =>
          match master_for_epoch (os_peers s) dest_orr epoch with
          | None => (s, [], Err RelayErr)
          | Some ms =>
              let '(s, (session, counter)) := next_onion_freshness s in
              match build_onion (zip [mkHop dest_orr ms epoch] kids) payload session counter (dkms_encode app_header) with
              | Ok o => (s, [ToQkc (onion_frame ts s dest_orr dest_qkc o app_header grade)], Ok (mkOutcome "sent" dest_orr dest_qkc 0 true))
              | Err e => (s, [], Err e)
              | Panic => (s, [], Panic)
              end
          end
      end
  end.

(** The path of a message: given with it, cached, or asked of the controller
    ([sdn]: [None] without one). *)
Definition resolve_path (s : OrrService) (dest_orr : string) (app_header : AppHeader) (sdn : option (res OrrError (list string)))
  : OrrService * res OrrError string :=
  match app_header !! "orr_path"%string with
  | Some h => (s, Ok h)
  | None =>
      match os_cache s !! dest_orr with
      | Some cached => (s, Ok (String.concat "," cached))
      | None =>
          match sdn with
          | None => (s, Err InvalidPath)
          | Some (Ok []) => (s, Err InvalidPath)
          | Some (Ok path) => (os_with_cache (<[dest_orr := path]> (os_cache s)) s, Ok (String.concat "," path))
          | Some (Err e) => (s, Err e)
          | Some Panic => (s, Panic)
          end
      end
  end.

(** The hops a resolved path gives. *)
Definition onion_route (self dest_orr hint : string) (cap : option nat) (perm : list nat) : res OrrError (list string) :=
  let full := parse_path self hint in
  match full with
  | [] => Err InvalidPath
  | _ =>
      let full := if bool_decide (last full = Some dest_orr) then full else full ++ [dest_orr] in
      match cap with Some c => select_random_hops full c perm | None => Ok full end
  end.

Fixpoint resolve_hops (r : OrrRegistry) (ids : list string) : res OrrError (list PathHopSecret) :=
  match ids with
  | [] => Ok []
  | id :: ids =>
      match qkc_id r id with
      | None => Err RelayErr
      | Some _ =>
          match send_epoch_for r id with
          | None => Err RelayErr
          | Some epoch =>
              match master_for_epoch r id epoch with
              | None => Err RelayErr
              | Some ms => let* hops := resolve_hops r ids in Ok (mkHop id ms epoch :: hops)
              end
          end
      end
  end.

Definition send_onion_path (ts : Z) (s : OrrService) (dest_orr : string) (payload : bytes) (app_header : AppHeader)
  (cap : option nat) (grade : Z) (kids : list bytes) (perm : list nat) (sdn : option (res OrrError (list string)))
  : OrrService * list OrrEffect * res OrrError SendOutcome :=
  let '(s, hint) := resolve_path s dest_orr app_header sdn in
  match (let* hint := hint in onion_route (os_id s) dest_orr hint cap perm) with
  | Err e => (s, [], Err e)
  | Panic => (s, [], Panic)
  | Ok full_path =>
      match resolve_hops (os_peers s) full_path with
      | Err e => (s, [], Err e)
      | Panic => (s, [], Panic)
      | Ok hops =>
          let '(s, (session, counter)) := next_onion_freshness s in
          match build_onion (zip hops kids) payload session counter (dkms_encode app_header) with
          | Err e => (s, [], Err e)
          | Panic => (s, [], Panic)
          | Ok o =>
              match qkc_id (os_peers s) (ow_first_hop_orr o) with
              | None => (s, [], Err RelayErr)
              | Some first_qkc =>
                  (s, [ToQkc (onion_frame ts s dest_orr first_qkc o app_header grade)],
                   Ok (mkOutcome "sent" dest_orr first_qkc (ow_max_hops o) true))
              end
          end
      end
  end.

Definition send_message (now ts : Z) (s : OrrService) (dest : string) (payload : bytes) (max_hops : Z) (app_header : AppHeader)
  (grade : Z) (kids : list bytes) (perm : list nat) (sdn : option (res OrrError (list string)))
  : OrrService * list OrrEffect * res OrrError SendOutcome :=
  let dest_orr := to_ascii_lowercase dest in
  if bool_decide (dest_orr = os_id s) then
    (s, [broadcast_self s payload app_header], Ok (mkOutcome "delivered_local" dest_orr (os_qkc s) 0 false))
  else if max_hops =? 0 then send_passthrough ts s dest_orr payload app_header grade
  else if max_hops =? 1 then send_onion_e2e now ts s dest_orr payload app_header grade kids
  else if max_hops =? -1 then send_onion_path ts s dest_orr payload app_header None grade kids perm sdn
  else if 2 <=? max_hops then send_onion_path ts s dest_orr payload app_header (Some (Z.to_nat max_hops)) grade kids perm sdn
  else (s, [], Err InvalidPath).

(** ** Receiving *)

Definition broadcast_delivery (s : OrrService) (h : OrrHeader) (dkms_map : AppHeader) (payload : bytes) : OrrEffect :=
  ToDkms (mkDelivered (if bool_decide (oh_from h = EmptyString) then None else Some (oh_from h))
    (if bool_decide (oh_to h = EmptyString) then os_id s else oh_to h) payload dkms_map (bool_decide (is_Some (oh_key_id h)))).

Definition forward_onion (ts : Z) (s : OrrService) (prev : OrrHeader) (dkms_map : AppHeader) (inner : InnerLayer) (next_qkc : Z) : Frame :=
  local_send s 0 next_qkc (il_epoch_id inner)
    (onion_header ts (oh_from prev) (oh_to prev) (il_next_orr_id inner) (il_key_id inner) (Z.max (oh_max_hops prev - 1) 0)
      (oh_session prev) (oh_counter prev) (il_tag inner))
    dkms_map (il_xor_ct inner).

Definition handle_onion_in (now ts : Z) (s : OrrService) (h : OrrHeader) (key_id : bytes) (epoch : Z) (dkms_map : AppHeader) (payload : bytes)
  : OrrService * list OrrEffect * res OrrError unit :=
  let from := to_ascii_lowercase (oh_from h) in
  match master_for_epoch (os_peers s) from epoch with
  | None => let '(s, eff) := trigger_passive_rebootstrap now s from in (s, eff, Ok tt)
  | Some ms =>
      match peel ms key_id payload (oh_tag h) (oh_max_hops h) epoch (oh_session h) (oh_counter h) (dkms_encode dkms_map) with
      | Err e => (s, [], Err e)
      | Panic => (s, [], Panic)
      | Ok peeled =>
          let '(w, r) := onion_check now (os_replay s) (oh_from h) (oh_session h) (oh_counter h) in
          let s := os_with_replay w s in
          match r with
          | Ok _ =>
              match peeled with
              | Deliver body => (s, [broadcast_delivery s h dkms_map body], Ok tt)
              | Forward inner =>
                  if bool_decide (il_next_orr_id inner = os_id s) then (s, [], Err RelayErr) else
                  match qkc_id (os_peers s) (il_next_orr_id inner) with
                  | None => (s, [], Err RelayErr)
                  | Some next_qkc => (s, [ToQkc (forward_onion ts s h dkms_map inner next_qkc)], Ok tt)
                  end
              end
          | Err _ => (s, [], Ok tt)
          | Panic => (s, [], Panic)
          end
      end
  end.

Definition handle_incoming (now ts : Z) (s : OrrService) (f : Frame) : OrrService * list OrrEffect * res OrrError unit :=
  match header_decode (header_orr_mp f), dkms_decode (header_dkms_mp f) with
  | Ok h, Ok dkms_map =>
      if negb (bool_decide (oh_kind h = EmptyString)) && negb (bool_decide (oh_kind h = HEADER_TYPE)) then (s, [], Ok tt) else
      match oh_key_id h with
      | None => (s, [broadcast_delivery s h dkms_map (payload f)], Ok tt)
      | Some kid => handle_onion_in now ts s h kid (epoch_id f) dkms_map (payload f)
      end
  | Ok _, Err e => (s, [], Err e)
  | Ok _, Panic => (s, [], Panic)
  | Err e, _ => (s, [], Err e)
  | Panic, _ => (s, [], Panic)
  end.
End Service.

(** The task that a re-bootstrap starts: the key is fetched and checked again, then
    one establishment. *)
Definition passive_rebootstrap_task `{MlKem} `{MlDsa} `{X509} {W} (rpc : W -> bytes -> W * option FinResp) (now : Z) (suite peer_id : string) (pk seed : bytes)
  (fetched : option Announced) (r : OrrRegistry) (w : W) : OrrRegistry * W :=
  match fetched with
  | None => (clear_rebootstrap_inflight r peer_id, w)
  | Some a =>
      if negb (names_peer a peer_id) then (clear_rebootstrap_inflight r peer_id, w) else
      match verify_announcement now r peer_id (an_suite a) (an_pk a) (an_sig a) (an_certs a) with
      | SigReject => (clear_rebootstrap_inflight r peer_id, w)
      | _ =>
          let r := if bool_decide (an_pk a = pk) then r else put_pubkey r peer_id (an_pk a) in
          let '(w, s) := attempt_establish rpc suite (an_pk a) seed w in
          let r := match s with
                   | Some secret => clear_rebootstrap_failure (reset_for_bootstrap r peer_id secret) peer_id
                   | None => mark_rebootstrap_failure now r peer_id
                   end in
          (clear_rebootstrap_inflight r peer_id, w)
      end
  end.

(** ** The hops of a path *)

(** Positions in increasing order pick a part of the list in its order. *)
Lemma pick_sublist {A} (ix : list nat) (l : list A) :
  StronglySorted lt ix -> Forall (fun i => (i < length l)%nat) ix ->
  omap (fun i => l !! i) ix `sublist_of` l /\ length (omap (fun i => l !! i) ix) = length ix.
Proof.
  remember (length ix) as n eqn:En. revert ix l En. induction n as [|n IH]; intros [|i ix] l En Hs Hf; try discriminate En.
  { split; [apply sublist_nil_l|done]. }
  inversion_clear Hs as [|? ? Hs' Hlt]. inversion_clear Hf as [|? ? Hi Hf'].
  destruct (lookup_lt_is_Some_2 l i Hi) as [x Hx]. cbn [omap list_omap]. rewrite Hx. injection En as En.
  assert (Em : omap (fun j => l !! j) ix = omap (fun j => drop (S i) l !! j) (map (fun j => j - S i)%nat ix)).
  { clear -Hlt. induction ix as [|j ix IH]; [done|]. inversion_clear Hlt as [|? ? Hj Hrest]. cbn [omap list_omap map].
    rewrite lookup_drop. replace (S i + (j - S i))%nat with j by lia. by rewrite IH. }
  destruct (IH (map (fun j => j - S i)%nat ix) (drop (S i) l)) as [IH1 IH2].
  - by rewrite length_map.
  - clear -Hs' Hlt. induction Hs' as [|j ix Hs IH Hj]; [constructor|]. inversion_clear Hlt as [|? ? Hij Hrest].
    cbn [map]. constructor; [by apply IH|]. apply Forall_map. rewrite Forall_forall in *. intros z Hz. specialize (Hj z Hz). lia.
  - apply Forall_map. rewrite length_drop. rewrite Forall_forall in *. intros z Hz. specialize (Hf' z Hz). specialize (Hlt z Hz). cbn. lia.
  - rewrite Em. split.
    + etrans; [apply (sublist_inserts_l (take i l)), sublist_skip, IH1|]. by rewrite take_drop_middle.
    + cbn [length]. by rewrite IH2.
Qed.

(** Truncating a path keeps as many hops as asked, in the path's order, with the
    destination at the end, whatever the shuffle. *)
Theorem selected_hops_keep_order (path : list string) (n : nat) (perm : list nat)
  (Hn : (1 <= n)%nat) (Hp : path <> []) (Hperm : perm ≡ₚ seq 0 (length path - 1)) :
  exists hops, select_random_hops path n perm = Ok hops /\ hops `sublist_of` path
    /\ length hops = (n `min` length path)%nat /\ last hops = last path.
Proof.
  unfold select_random_hops. destruct (Nat.eqb_spec n 0) as [|_]; [lia|].
  destruct (Nat.leb_spec (length path) n) as [Hle|Hlt].
  { exists path. split_and!; [done..|lia|done]. }
  destruct (exists_last Hp) as (init & dest & ->). rewrite length_app in *. cbn [length] in *.
  replace (length init + 1 - 1)%nat with (length init) in * by lia. rewrite lookup_app_r, Nat.sub_diag by lia. cbn [lookup list_lookup].
  eexists. split; [done|]. set (ix := merge_sort Nat.le (take (n - 1) perm)).
  assert (His : ix ≡ₚ take (n - 1) perm) by apply merge_sort_Permutation.
  assert (Hnd : NoDup ix).
  { rewrite His. eapply sublist_NoDup; [|apply sublist_take]. rewrite Hperm. apply NoDup_seq. }
  assert (Hf : Forall (fun i => (i < length init)%nat) ix).
  { rewrite His. apply Forall_take. rewrite Hperm. apply Forall_seq. lia. }
  assert (Hs : StronglySorted lt ix).
  { assert (Hle : StronglySorted Nat.le ix) by (apply StronglySorted_merge_sort; apply _).
    clear -Hle Hnd. induction Hle as [|i ix Hs IH Hi]; [constructor|]. inversion_clear Hnd as [|? ? Hn Hnd'].
    constructor; [by apply IH|]. rewrite Forall_forall in *. intros z Hz. specialize (Hi z Hz).
    assert (z <> i) by (intros ->; done). unfold Nat.le in *. lia. }
  assert (Eo : omap (fun i => (init ++ [dest]) !! i) ix = omap (fun i => init !! i) ix).
  { clear -Hf. induction ix as [|i ix IH]; [done|]. inversion_clear Hf as [|? ? Hi Hf']. cbn [omap list_omap].
    rewrite lookup_app_l by done. by rewrite IH. }
  rewrite Eo. destruct (pick_sublist ix init Hs Hf) as [Hsub Hlen]. split_and!.
  - by apply sublist_app.
  - rewrite length_app, Hlen. cbn [length]. rewrite (Permutation_length His), length_take, (Permutation_length Hperm), length_seq. lia.
  - by rewrite !last_snoc.
Qed.

(** Names as the controller writes them: no comma, no blank. *)
Fixpoint clean (s : string) : bool :=
  match s with EmptyString => true | String c s => negb (Ascii.eqb c ",") && negb (is_blank c) && clean s end.

Lemma split_clean s : clean s = true -> split_comma s = [s].
Proof.
  induction s as [|c s IH]; [done|]. cbn [clean split_comma]. intros [[Hc _]%andb_true_iff Hs]%andb_true_iff.
  apply negb_true_iff in Hc. by rewrite Hc, IH.
Qed.

Lemma split_clean_comma s rest : clean s = true -> split_comma (String.append s (String "," rest)) = s :: split_comma rest.
Proof.
  induction s as [|c s IH]; [done|]. cbn [clean]. intros [[Hc _]%andb_true_iff Hs]%andb_true_iff.
  apply negb_true_iff in Hc. change (String.append (String c s) (String "," rest)) with (String c (String.append s (String "," rest))).
  cbn [split_comma]. by rewrite Hc, IH.
Qed.

Lemma trim_clean s : clean s = true -> trim s = s.
Proof.
  intros Hs. unfold trim. assert (trim_start s = s) as ->.
  { destruct s as [|c s]; [done|]. cbn in *. apply andb_true_iff in Hs as [[_ Hb]%andb_true_iff _]. apply negb_true_iff in Hb. by rewrite Hb. }
  induction s as [|c s IH]; [done|]. cbn [clean trim_end] in *. apply andb_true_iff in Hs as [[_ Hb]%andb_true_iff Hs].
  apply negb_true_iff in Hb. rewrite (IH Hs). destruct s; [by rewrite Hb|done].
Qed.

Lemma split_concat ids : ids <> [] -> Forall (fun i => clean i = true) ids -> split_comma (String.concat "," ids) = ids.
Proof.
  intros Hn Hc. destruct ids as [|i ids]; [done|]. clear Hn. revert i Hc. induction ids as [|j ids IH]; intros i Hc;
    inversion_clear Hc as [|? ? Hi Hc'].
  - cbn. by apply split_clean.
  - change (String.concat "," (i :: j :: ids)) with (String.append i (String "," (String.concat "," (j :: ids)))).
    rewrite split_clean_comma by done. by rewrite IH.
Qed.

(** A path that was joined to be cached is read back as it was. *)
Lemma parse_path_join self ids :
  ids <> [] -> Forall (fun i => clean i = true /\ i <> EmptyString /\ i <> self) ids -> parse_path self (String.concat "," ids) = ids.
Proof.
  intros Hn Hc. unfold parse_path. rewrite split_concat; [|done|by eapply Forall_impl; [exact Hc|]; intros ? [? _]].
  assert (map trim ids = ids) as ->.
  { clear Hn. induction Hc as [|i ids [Hi _] _ IH]; [done|]. cbn [map]. by rewrite IH, trim_clean. }
  apply filter_all. intros x Hx. rewrite Forall_forall in Hc. apply (Hc x Hx).
Qed.

(** ** From router to router

    The QKCs carry a frame from the router that sends it to the router of the QKC
    it is for, with its headers and payload untouched ([Relay.path_delivers]); at
    the other side it arrives as a local delivery. *)

Section Carry.
Context `{MacCrypto} `{AesGcm} `{Sha256} `{MsgPack}.

Definition to_deliver (f : Frame) : Frame :=
  mkFrame FRAME_LOCAL_DELIVER (grade f) (sender_id f) (receiver_id f) (dest_final f) (key_size_bits f) (epoch_id f) (key_ids f)
    (header_orr_mp f) (header_dkms_mp f) (payload f).

(** A frame followed until a router delivers it: the routers afterwards, where it
    was delivered and what. *)
Fixpoint carry (fuel : nat) (now ts : Z) (routers : gmap Z OrrService) (f : Frame)
  : gmap Z OrrService * option (Z * OrrDelivered) :=
  match fuel with
  | O => (routers, None)
  | S fuel =>
      match routers !! dest_final f with
      | None => (routers, None)
      | Some st =>
          let '(st', eff, _) := handle_incoming now ts st (to_deliver f) in
          let routers := <[dest_final f := st']> routers in
          match eff with
          | [ToQkc f'] => carry fuel now ts routers f'
          | [ToDkms m] => (routers, Some (dest_final f, m))
          | _ => (routers, None)
          end
      end
  end.

(** A hop with the key id drawn for it and the QKC of its router. *)
Abbreviation Leg := (PathHopSecret * bytes * Z)%type.

(** The router of a leg holds the secret that the origin seals with and has not
    seen the message. *)
Definition leg_ready (now : Z) (origin : string) (ses ctr : Z) (routers : gmap Z OrrService) (g : Leg) : Prop :=
  exists st, routers !! g.2 = Some st /\ os_id st = ph_orr_id g.1.1
    /\ master_for_epoch (os_peers st) origin (ph_epoch_id g.1.1) = Some (ph_master_secret g.1.1)
    /\ is_ok (onion_check now (os_replay st) origin ses ctr).2 = true.

(** Every router knows where the next one is. *)
Fixpoint chain (routers : gmap Z OrrService) (legs : list Leg) : Prop :=
  match legs with
  | g :: (g' :: _) as rest =>
      (forall st, routers !! g.2 = Some st -> qkc_id (os_peers st) (ph_orr_id g'.1.1) = Some g'.2) /\ chain routers rest
  | _ => True
  end.

Definition layer_frame (ts : Z) (origin dst : string) (l : InnerLayer) (hops ses ctr : Z) (hdr : AppHeader) (gr me q : Z) : Frame :=
  mkFrame FRAME_LOCAL_SEND gr me me q 0 (il_epoch_id l) []
    (header_encode (onion_header ts origin dst (il_next_orr_id l) (il_key_id l) hops ses ctr (il_tag l))) (dkms_encode hdr) (il_xor_ct l).

Context (now ts : Z) (origin dst : string) (ses ctr : Z) (hdr : AppHeader) (body : bytes).
Context (Hts : is_u 64 ts) (Hor : fits origin /\ origin <> EmptyString /\ to_ascii_lowercase origin = origin)
  (Hdst : fits dst /\ dst <> EmptyString) (Hfresh : is_u 64 ses /\ is_u 64 ctr) (Hhdr : wf_map hdr).

Lemma os_with_replay_view w st : os_id (os_with_replay w st) = os_id st /\ os_peers (os_with_replay w st) = os_peers st.
Proof. done. Qed.

Lemma handle_layer st hop kid rest l ts0 gr me q :
  is_u 64 ts0 -> Forall wf_hop ((hop, kid) :: rest) -> zlen body + path_cost ((hop, kid) :: rest) < 2 ^ 32 ->
  wrap ((hop, kid) :: rest) body ses ctr (dkms_encode hdr) = Ok l ->
  master_for_epoch (os_peers st) origin (ph_epoch_id hop) = Some (ph_master_secret hop) ->
  is_ok (onion_check now (os_replay st) origin ses ctr).2 = true ->
  let st' := os_with_replay (onion_check now (os_replay st) origin ses ctr).1 st in
  let r := handle_incoming now ts st (to_deliver (layer_frame ts0 origin dst l (zlen rest) ses ctr hdr gr me q)) in
  match rest with
  | [] => r = (st', [ToDkms (mkDelivered (Some origin) dst body hdr true)], Ok tt)
  | (hop', _) :: rest' => exists l', wrap rest body ses ctr (dkms_encode hdr) = Ok l'
      /\ forall q', qkc_id (os_peers st) (ph_orr_id hop') = Some q' -> ph_orr_id hop' <> os_id st ->
         r = (st', [ToQkc (layer_frame ts origin dst l' (zlen rest') ses ctr hdr 0 (os_qkc st) q')], Ok tt)
  end.
Proof.
  intros Hts0 Hw Hs Hl Hm Hc. cbn zeta. destruct Hor as (Ho1 & Ho2 & Ho3). destruct Hdst as (Hd1 & Hd2). destruct Hfresh as (Hf1 & Hf2).
  destruct (wrap_onion_ok _ hop kid rest body ses ctr (dkms_encode hdr) eq_refl Hw Hs) as (l0 & El & [Wn We Wk Wc Wt] & Hn & He & Hk & _).
  assert (l0 = l) as -> by congruence. clear El.
  assert (Hrest : Forall wf_hop rest) by (by inversion_clear Hw).
  destruct (wrap_peel hop kid rest body ses ctr (dkms_encode hdr) l Hrest Hs Hl) as (p & Hp & Hpeel).
  assert (Hz : 0 <= zlen rest < 2 ^ 31).
  { pose proof (path_cost_bound ((hop, kid) :: rest)) as Hb. rewrite zlen_cons in Hb. pose proof (zlen_nonneg body).
    pose proof (zlen_nonneg rest). lia. }
  unfold handle_incoming, to_deliver, layer_frame. cbn [header_orr_mp header_dkms_mp payload epoch_id].
  rewrite header_decode_encode by (apply onion_header_wf; try done; unfold is_i32; lia). rewrite dkms_decode_encode by done.
  cbn [onion_header oh_kind oh_key_id]. rewrite (bool_decide_eq_true_2 (HEADER_TYPE = HEADER_TYPE)) by done. cbn [negb]. rewrite andb_false_r.
  unfold handle_onion_in. cbn [onion_header oh_from oh_tag oh_max_hops oh_session oh_counter]. rewrite Ho3, He, Hm, Hk, Hp.
  destruct (onion_check now (os_replay st) origin ses ctr) as [w [u|e|]]; try discriminate Hc. cbn [fst].
  destruct rest as [|[hop' kid'] rest'].
  - subst p. unfold broadcast_delivery. cbn [oh_from oh_to oh_key_id]. rewrite !(bool_decide_eq_false_2) by done.
    by rewrite (bool_decide_eq_true_2 (is_Some (Some kid))) by (by eexists).
  - destruct Hpeel as (l' & El' & ->). exists l'. split; [done|]. intros q' Hq Hself.
    destruct (wrap_onion_ok _ hop' kid' rest' body ses ctr (dkms_encode hdr) eq_refl Hrest) as (l1 & E1 & _ & Hn1 & _).
    { cbn [path_cost] in Hs |- *. pose proof (zlen_nonneg (as_bytes (ph_orr_id hop))). lia. }
    assert (l1 = l') as -> by congruence.
    destruct (os_with_replay_view w st) as [-> ->]. rewrite Hn1, (bool_decide_eq_false_2 _ Hself), Hq.
    unfold forward_onion, local_send, layer_frame. cbn [onion_header oh_from oh_to oh_max_hops oh_session oh_counter]. rewrite Hn1.
    assert (Z.max (zlen ((hop', kid') :: rest') - 1) 0 = zlen rest') as -> by (rewrite zlen_cons; pose proof (zlen_nonneg rest'); lia).
    done.
Qed.

Lemma leg_ready_other routers q st g : g.2 <> q -> leg_ready now origin ses ctr routers g -> leg_ready now origin ses ctr (<[q := st]> routers) g.
Proof. intros Hq (st0 & Hl & Hrest). exists st0. split; [by rewrite lookup_insert_ne|done]. Qed.

Lemma chain_other routers q st legs : q ∉ map snd legs -> chain routers legs -> chain (<[q := st]> routers) legs.
Proof.
  induction legs as [|g [|g' legs] IH]; intros Hq Hc; [done..|]. destruct Hc as [Hc Hcs]. cbn [map] in Hq.
  apply not_elem_of_cons in Hq as [Hq Hqs]. split; [|by apply IH]. intros st0. rewrite lookup_insert_ne by done. apply Hc.
Qed.

Lemma carry_onion legs : forall g rest routers l ts0 gr me,
  legs = g :: rest -> is_u 64 ts0 -> Forall wf_hop (map fst legs) -> zlen body + path_cost (map fst legs) < 2 ^ 32 ->
  NoDup (map snd legs) -> NoDup (map (fun g => ph_orr_id g.1.1) legs) ->
  Forall (leg_ready now origin ses ctr routers) legs -> chain routers legs ->
  wrap (map fst legs) body ses ctr (dkms_encode hdr) = Ok l ->
  exists routers' q, carry (length legs) now ts routers (layer_frame ts0 origin dst l (zlen rest) ses ctr hdr gr me g.2)
      = (routers', Some (q, mkDelivered (Some origin) dst body hdr true))
    /\ last (map snd legs) = Some q.
Proof.
  induction legs as [|g0 legs IH]; intros g rest routers l ts0 gr me [= -> ->] Hts0 Hw Hs Hq Hids Hr Hch Hwr.
  destruct g as [[hop kid] q]. cbn [map fst snd] in *.
  apply Forall_cons in Hr as [(st & Hst & Hid & Hm & Hc) Hrs]. cbn [fst snd] in *.
  pose proof (handle_layer st hop kid (map fst rest) l ts0 gr me q Hts0 Hw Hs Hwr Hm Hc) as Hh. cbn zeta in Hh.
  assert (Ez : zlen (map fst rest) = zlen rest) by (unfold zlen; by rewrite length_map). rewrite Ez in Hh.
  cbn [length carry]. change (dest_final (layer_frame ts0 origin dst l (zlen rest) ses ctr hdr gr me q)) with q. rewrite Hst.
  destruct rest as [|[[hop' kid'] q'] rest'].
  - cbn [map] in Hh. rewrite Hh. eexists _, q. done.
  - cbn [map fst] in Hh. destruct Hh as (l' & El' & Hh). destruct Hch as [Hq1 Hch].
    apply NoDup_cons in Hq as [Hqn Hq]. apply NoDup_cons in Hids as [Hidn Hids].
    specialize (Hh q' (Hq1 st Hst)). cbn [fst] in Hh. rewrite Hh; [|rewrite Hid; cbn [map] in Hidn; set_solver].
    assert (Ez' : zlen (map fst rest') = zlen rest') by (unfold zlen; by rewrite length_map). rewrite Ez'.
    destruct (IH (hop', kid', q') rest' (<[q := os_with_replay (onion_check now (os_replay st) origin ses ctr).1 st]> routers) l' ts 0 (os_qkc st))
      as (routers' & qd & Ec & Elast); try done.
    + by inversion_clear Hw.
    + cbn [path_cost map] in Hs |- *. pose proof (zlen_nonneg (as_bytes (ph_orr_id hop))). lia.
    + apply Forall_forall. intros g Hg. apply leg_ready_other; [|by rewrite Forall_forall in Hrs; apply Hrs].
      intros E. apply Hqn. rewrite <- E. apply list_elem_of_fmap. by exists g.
    + by apply chain_other.
    + exists routers', qd. split; [exact Ec|]. cbn [map snd] in *. done.
Qed.
End Carry.

(** ** A message from its sender to its destination *)

Section Message.
Context `{MacCrypto} `{AesGcm} `{Sha256} `{MsgPack}.

(** The routers a message goes through in the onion modes. *)
Definition message_route (s : OrrService) (dest_orr : string) (max_hops : Z) (app_header : AppHeader) (perm : list nat)
  (sdn : option (res OrrError (list string))) : res OrrError (list string) :=
  if max_hops =? 1 then Ok [dest_orr] else
  let* hint := (resolve_path s dest_orr app_header sdn).2 in
  onion_route (os_id s) dest_orr hint (if max_hops =? -1 then None else Some (Z.to_nat max_hops)) perm.

Lemma selected_last path n perm hops : select_random_hops path n perm = Ok hops -> last hops = last path.
Proof.
  unfold select_random_hops. destruct (n =? 0)%nat; [done|]. destruct (Nat.leb_spec (length path) n) as [|Hn]; [by intros [= <-]|].
  destruct (path !! (length path - 1)%nat) as [d|] eqn:E; [|done]. intros [= <-]. rewrite last_snoc, last_lookup.
  by replace (pred (length path)) with (length path - 1)%nat by lia.
Qed.

Lemma route_ends s dest mh hdr perm sdn ids : message_route s dest mh hdr perm sdn = Ok ids -> last ids = Some dest.
Proof.
  unfold message_route. destruct (mh =? 1); [by intros [= <-]|]. intros E. apply res_bind_ok in E as (hint & _ & E).
  unfold onion_route in E. destruct (parse_path (os_id s) hint) as [|i full]; [done|]. revert E.
  set (full' := if bool_decide (last (i :: full) = Some dest) then i :: full else (i :: full) ++ [dest]).
  assert (Hl : last full' = Some dest).
  { unfold full'. case_bool_decide; [done|]. apply last_snoc. }
  clearbody full'. destruct (if mh =? -1 then None else Some (Z.to_nat mh)) as [c|]; [|by intros [= <-]].
  intros E. by rewrite (selected_last _ _ _ _ E).
Qed.

Lemma resolve_hops_ids r ids hops : resolve_hops r ids = Ok hops -> map ph_orr_id hops = ids.
Proof.
  revert hops. induction ids as [|id ids IH]; intros hops E; cbn [resolve_hops] in E; [by injection E as <-|].
  destruct (qkc_id r id); [|done]. destruct (send_epoch_for r id); [|done]. destruct (master_for_epoch r id _); [|done].
  apply res_bind_ok in E as (h & E & [= <-]). cbn [map]. by rewrite (IH _ E).
Qed.

Lemma build_frame ts s dest hops kids body grade hdr session ctr l hop kid rest q :
  zip hops kids = (hop, kid) :: rest -> zlen rest < 2 ^ 31 - 1 -> wrap ((hop, kid) :: rest) body session ctr (dkms_encode hdr) = Ok l ->
  il_next_orr_id l = ph_orr_id hop ->
  exists o, build_onion (zip hops kids) body session ctr (dkms_encode hdr) = Ok o /\ ow_first_hop_orr o = ph_orr_id hop
    /\ ow_max_hops o = zlen rest
    /\ onion_frame ts s dest q o hdr grade = layer_frame ts (os_id s) dest l (zlen rest) session ctr hdr grade (os_qkc s) q.
Proof.
  intros Hz Hlen Hw Hn. unfold build_onion. rewrite Hz, Hw. cbn [res_bind]. eexists. split; [done|]. cbn [ow_first_hop_orr ow_max_hops].
  assert (E : as_i32 (zlen ((hop, kid) :: rest)) - 1 = zlen rest).
  { pose proof (zlen_nonneg rest). rewrite zlen_cons, as_i32_small by lia. lia. }
  rewrite E. split; [done|]. split; [done|]. unfold onion_frame, layer_frame, local_send.
  cbn [ow_first_epoch_id ow_first_hop_orr ow_first_key_id ow_max_hops ow_session ow_counter ow_tag ow_payload]. done.
Qed.

(** What [send_message] puts out in the onion modes: one frame, the outermost
    layer of the path, for the first router. *)
Lemma send_onion_frame now ts s dest payload mh hdr grade kids perm sdn ids hops hop kid rest l q :
  to_ascii_lowercase dest = dest -> dest <> os_id s -> mh = 1 \/ mh = -1 \/ 2 <= mh ->
  message_route s dest mh hdr perm sdn = Ok ids -> resolve_hops (os_peers s) ids = Ok hops ->
  zip hops kids = (hop, kid) :: rest -> zlen rest < 2 ^ 31 - 1 ->
  let ctr := as_u 64 (os_counter s + 1) in
  wrap ((hop, kid) :: rest) payload (os_session s) ctr (dkms_encode hdr) = Ok l -> il_next_orr_id l = ph_orr_id hop ->
  qkc_id (os_peers s) (ph_orr_id hop) = Some q ->
  exists s' out, send_message now ts s dest payload mh hdr grade kids perm sdn
    = (s', [ToQkc (layer_frame ts (os_id s) dest l (zlen rest) (os_session s) ctr hdr grade (os_qkc s) q)], Ok out)
    /\ so_status out = "sent"%string /\ os_counter s' = ctr.
Proof.
  intros Hlow Hself Hmh Hroute Hres Hz Hlen ctr Hw Hn Hq. unfold send_message. rewrite Hlow, bool_decide_eq_false_2 by done.
  destruct (Z.eqb_spec mh 0) as [|_]; [lia|]. unfold message_route in Hroute. destruct (Z.eqb_spec mh 1) as [->|Hm1].
  - injection Hroute as <-. unfold send_onion_e2e. cbn [resolve_hops] in Hres.
    destruct (qkc_id (os_peers s) dest) as [dq|] eqn:Edq; [|done]. destruct (send_epoch_for (os_peers s) dest) as [ep|] eqn:Eep; [|done].
    destruct (master_for_epoch (os_peers s) dest ep) as [ms|] eqn:Ems; [|done]. injection Hres as <-.
    cbn [next_onion_freshness]. fold ctr. destruct kids as [|k0 kids]; [done|]. cbn [zip zip_with] in Hz. injection Hz as <- <- <-.
    set (s1 := mkService _ _ _ _ _ _ _).
    destruct (build_frame ts s1 dest [mkHop dest ms ep] (k0 :: kids) payload grade hdr (os_session s) ctr l (mkHop dest ms ep) k0 [] q)
      as (o & -> & Ho & _ & Ef); try done. cbn [ph_orr_id] in Hq. assert (dq = q) as -> by congruence.
    rewrite Ef. eexists _, _. split_and!; done.
  - assert (Hgo : exists s' out, send_onion_path ts s dest payload hdr (if mh =? -1 then None else Some (Z.to_nat mh)) grade kids perm sdn
      = (s', [ToQkc (layer_frame ts (os_id s) dest l (zlen rest) (os_session s) ctr hdr grade (os_qkc s) q)], Ok out)
      /\ so_status out = "sent"%string /\ os_counter s' = ctr).
    2:{ destruct (Z.eqb_spec mh (-1)) as [->|]; [done|]. destruct (Z.leb_spec 2 mh); [done|lia]. }
    unfold send_onion_path. assert (Hs1 : forall c, os_id (os_with_cache c s) = os_id s /\ os_peers (os_with_cache c s) = os_peers s
      /\ os_session (os_with_cache c s) = os_session s /\ os_counter (os_with_cache c s) = os_counter s /\ os_qkc (os_with_cache c s) = os_qkc s) by done.
    assert (Hrp : exists c, (resolve_path s dest hdr sdn).1 = os_with_cache c s).
    { unfold resolve_path. destruct (hdr !! _); [exists (os_cache s); by destruct s|]. destruct (os_cache s !! dest); [exists (os_cache s); by destruct s|].
      destruct sdn as [[[|x p]|e|]|]; try (exists (os_cache s); by destruct s). by eexists. }
    destruct (resolve_path s dest hdr sdn) as [s0 hint]. cbn [fst snd] in *. destruct Hrp as [cc ->].
    destruct (Hs1 cc) as (E1 & E2 & E3 & E4 & E5). rewrite E1, Hroute, E2, Hres. cbn [next_onion_freshness]. rewrite E3, E4. fold ctr.
    set (s1 := mkService _ _ _ _ _ _ _).
    destruct (build_frame ts s1 dest hops kids payload grade hdr (os_session s) ctr l hop kid rest q Hz Hlen Hw Hn) as (o & -> & Ho & _ & Ef).
    rewrite Ho. change (os_peers s1) with (os_peers s). rewrite Hq, Ef. eexists _, _. split_and!; done.
Qed.

(** C10: A message that a router sends along a path of any length arrives.  The path
    may come with the message, from the cache or from the controller, whole or
    truncated at random; every router of it holds the secret the sender uses with
    it ([rotation_epochs_known]), knows where the next is, and has not seen the
    message.  Then the send succeeds, the last router is the destination's, it
    delivers, and what it delivers is what was sent: origin, destination, bytes and
    header; no other router delivers anything. *)
Theorem onion_message_delivered (now ts : Z) (s : OrrService) (dest : string) (payload : bytes) (mh : Z) (hdr : AppHeader) (grade : Z)
  (kids : list bytes) (perm : list nat) (sdn : option (res OrrError (list string)))
  (ids : list string) (hops : list PathHopSecret) (legs : list (PathHopSecret * bytes * Z)) (routers : gmap Z OrrService)
  (Hmode : mh = 1 \/ mh = -1 \/ 2 <= mh)
  (Hroute : message_route s dest mh hdr perm sdn = Ok ids) (Hres : resolve_hops (os_peers s) ids = Ok hops)
  (Hkids : length kids = length hops) (Hlegs : map fst legs = zip hops kids)
  (Hfirst : head ids ≫= qkc_id (os_peers s) = head (map snd legs))
  (Hready : Forall (leg_ready now (os_id s) (os_session s) (as_u 64 (os_counter s + 1)) routers) legs) (Hchain : chain routers legs)
  (Hnd : NoDup ids) (Hndq : NoDup (map snd legs))
  (Hwf : Forall wf_hop (zip hops kids)) (Hsize : zlen payload + path_cost (zip hops kids) < 2 ^ 32)
  (Hts : is_u 64 ts) (Hses : is_u 64 (os_session s)) (Hhdr : wf_map hdr)
  (Hor : fits (os_id s) /\ os_id s <> EmptyString /\ to_ascii_lowercase (os_id s) = os_id s)
  (Hdst : fits dest /\ dest <> EmptyString /\ to_ascii_lowercase dest = dest /\ dest <> os_id s) :
  exists s' f out routers' q,
    send_message now ts s dest payload mh hdr grade kids perm sdn = (s', [ToQkc f], Ok out)
    /\ carry (length legs) now ts routers f = (routers', Some (q, mkDelivered (Some (os_id s)) dest payload hdr true))
    /\ last (map snd legs) = Some q /\ last ids = Some dest.
Proof.
  pose proof (route_ends _ _ _ _ _ _ _ Hroute) as Hend. pose proof (resolve_hops_ids _ _ _ Hres) as Hids.
  assert (Hnames : map (fun g => ph_orr_id g.1.1) legs = ids).
  { rewrite <- Hids. transitivity (map (fun h => ph_orr_id h.1) (map fst legs)); [by rewrite map_map|]. rewrite Hlegs.
    rewrite <- (fst_zip hops kids) at 2 by lia. apply (eq_sym (map_map _ _ _)). }
  destruct legs as [|[[hop kid] q] legs]; [rewrite <- Hnames in Hend; discriminate Hend|]. cbn [map fst] in Hlegs.
  assert (Hc64 : is_u 64 (as_u 64 (os_counter s + 1))) by (apply as_u_range; lia).
  rewrite <- Hlegs in Hwf, Hsize.
  destruct (wrap_onion_ok _ hop kid (map fst legs) payload (os_session s) (as_u 64 (os_counter s + 1)) (dkms_encode hdr) eq_refl Hwf Hsize)
    as (l & Hw & _ & Hn & _).
  assert (Ez : zlen (map fst legs) = zlen legs) by (unfold zlen; by rewrite length_map).
  assert (Hshort : zlen (map fst legs) < 2 ^ 31 - 1).
  { pose proof (path_cost_bound ((hop, kid) :: map fst legs)) as Hb. rewrite zlen_cons in Hb. pose proof (zlen_nonneg payload). lia. }
  assert (Hq1 : qkc_id (os_peers s) (ph_orr_id hop) = Some q).
  { rewrite <- Hnames in Hfirst. exact Hfirst. }
  destruct Hdst as (Hd1 & Hd2 & Hd3 & Hd4).
  destruct (send_onion_frame now ts s dest payload mh hdr grade kids perm sdn ids hops hop kid (map fst legs) l q Hd3 Hd4 Hmode Hroute Hres
    (eq_sym Hlegs) Hshort Hw Hn Hq1) as (s' & out & Esend & _).
  destruct (carry_onion now ts (os_id s) dest (os_session s) (as_u 64 (os_counter s + 1)) hdr payload Hts Hor (conj Hd1 Hd2) (conj Hses Hc64) Hhdr
    ((hop, kid, q) :: legs) (hop, kid, q) legs routers l ts grade (os_qkc s) eq_refl Hts Hwf Hsize Hndq ltac:(by rewrite Hnames) Hready Hchain Hw)
    as (routers' & qd & Ec & Elast).
  rewrite Ez in Esend. exists s'. eexists. exists out, routers', qd. split; [exact Esend|]. split_and!; done.
Qed.
End Message.

(** ** A message is taken once *)

Section Once.
Context `{MacCrypto} `{AesGcm} `{Sha256} `{MsgPack}.

(** The origin and the freshness of an onion; [None] for anything else. *)
Definition onion_of (f : Frame) : option (string * (Z * Z)) :=
  match header_decode (header_orr_mp f) with
  | Ok h => match oh_key_id h with Some _ => Some (oh_from h, (oh_session h, oh_counter h)) | None => None end
  | _ => None
  end.

(** The frame was delivered or forwarded. *)
Definition taken (eff : list OrrEffect) : bool :=
  existsb (fun e => match e with ToQkc _ | ToDkms _ => true | _ => false end) eff.

(** Frames one after the other, each with its time, and the onions taken. *)
Fixpoint router_run (s : OrrService) (fs : list (Z * Z * Frame)) (acc : list (string * (Z * Z))) : OrrService * list (string * (Z * Z)) :=
  match fs with
  | [] => (s, acc)
  | (now, ts, f) :: fs =>
      let '(s', eff, _) := handle_incoming now ts s f in
      router_run s' fs (match onion_of f with Some k => if taken eff then k :: acc else acc | None => acc end)
  end.

Definition frame_events (fs : list (Z * Z * Frame)) : list (Z * string * Z * Z) :=
  omap (fun '(now, _, f) => match onion_of f with Some (o, (s, c)) => Some (now, o, s, c) | None => None end) fs.

Lemma trigger_taken now s p : taken (trigger_passive_rebootstrap now s p).2 = false
  /\ os_replay (trigger_passive_rebootstrap now s p).1 = os_replay s.
Proof.
  unfold trigger_passive_rebootstrap. destruct (grpc_addr _ _); [|done]. destruct (negb _); [done|].
  destruct (try_mark_rebootstrap_inflight _ _) as [r [|]]; [|done]. by destruct (or_public_key r p).
Qed.

(** A frame that is taken passed the window of its origin; one that is not leaves
    the windows alone or is counted there too. *)
Lemma handle_step now ts s f s' eff r :
  handle_incoming now ts s f = (s', eff, r) ->
  os_replay s' = os_replay s /\ (is_Some (onion_of f) -> taken eff = false)
  \/ exists o ses c, onion_of f = Some (o, (ses, c)) /\ os_replay s' = (onion_check now (os_replay s) o ses c).1
     /\ (taken eff = true -> is_ok (onion_check now (os_replay s) o ses c).2 = true).
Proof.
  unfold handle_incoming, onion_of. intros E. destruct (header_decode (header_orr_mp f)) as [h|e|]; [|injection E as <- <- _; by left..].
  destruct (dkms_decode (header_dkms_mp f)) as [m|e|]; [|injection E as <- <- _; by left..].
  destruct (negb _ && negb _); [injection E as <- <- _; by left|]. destruct (oh_key_id h) as [kid|].
  2:{ injection E as <- <- _. left. split; [done|]. intros Hn. by apply is_Some_None in Hn. }
  unfold handle_onion_in in E. destruct (master_for_epoch _ _ _) as [ms|].
  2:{ destruct (trigger_taken now s (to_ascii_lowercase (oh_from h))) as [Ht1 Ht2].
      destruct (trigger_passive_rebootstrap _ _ _) as [s1 eff1]. injection E as <- <- _. by left. }
  destruct (peel _ _ _ _ _ _ _ _ _) as [p|e|]; [|injection E as <- <- _; by left..].
  right. exists (oh_from h), (oh_session h), (oh_counter h). split; [done|].
  destruct (onion_check now (os_replay s) (oh_from h) (oh_session h) (oh_counter h)) as [w [u|e|]]; cbn [fst snd is_ok] in *.
  - destruct p as [inner|body]; [|by injection E as <- <- _]. destruct (bool_decide _); [by injection E as <- <- _|].
    destruct (qkc_id _ _); by injection E as <- <- _.
  - by injection E as <- <- _.
  - by injection E as <- <- _.
Qed.

Lemma router_run_window fs : forall s acc acc', acc `sublist_of` acc' ->
  exists evs, evs `sublist_of` frame_events fs /\ (router_run s fs acc).2 `sublist_of` (onion_run (os_replay s) evs acc').2.
Proof.
  induction fs as [|[[now ts] f] fs IH]; intros s acc acc' Hacc; [by exists []|]. cbn [router_run].
  destruct (handle_incoming now ts s f) as [[s' eff] r] eqn:E.
  destruct (handle_step _ _ _ _ _ _ _ E) as [[Hw Ht]|(o & ses & c & Ho & Hw & Ht)].
  - assert (Hsame : match onion_of f with Some k => if taken eff then k :: acc else acc | None => acc end = acc).
    { destruct (onion_of f); [|done]. by rewrite Ht by (by eexists). }
    rewrite Hsame. destruct (IH s' acc acc' Hacc) as (evs & H1' & H2'). exists evs. rewrite Hw in H2'. split; [|done].
    unfold frame_events. cbn [omap list_omap]. destruct (onion_of f) as [[o [ses c]]|]; [by apply sublist_cons|done].
  - rewrite Ho. destruct (onion_check now (os_replay s) o ses c) as [w rr] eqn:Ec. cbn [fst snd] in *.
    destruct (IH s' (if taken eff then (o, (ses, c)) :: acc else acc) (if is_ok rr then (o, (ses, c)) :: acc' else acc')) as (evs & H1' & H2').
    { destruct (taken eff); [rewrite Ht by done; by apply sublist_skip|]. destruct (is_ok rr); [by apply sublist_cons|done]. }
    exists ((now, o, ses, c) :: evs). split.
    + unfold frame_events. cbn [omap list_omap]. rewrite Ho. by apply sublist_skip.
    + cbn [onion_run]. rewrite Ec, <- Hw. done.
Qed.

Lemma elem_of_events o evs now ses c : (now, ses, c) ∈ events_of o evs <-> (now, o, ses, c) ∈ evs.
Proof.
  unfold events_of, of_origin. rewrite list_elem_of_omap. split.
  - intros ([o' y] & Hin & Ho). cbn [fst snd] in Ho. destruct (decide (o' = o)) as [->|]; [|done]. injection Ho as ->.
    apply list_elem_of_fmap in Hin as ([[[now' o'] ses'] c'] & [= -> -> -> ->] & Hin). done.
  - intros Hin. exists (o, (now, ses, c)). cbn [fst snd]. rewrite decide_True by done. split; [|done].
    apply list_elem_of_fmap. by exists (now, o, ses, c).
Qed.

(** Whatever frames reach a router, from its start, no onion of an origin is
    delivered or forwarded twice, as long as no origin shows more than ten
    incarnations. *)
Theorem onion_taken_once (s : OrrService) (fs : list (Z * Z * Frame)) (Hnew : os_replay s = ∅)
  (Hc : Forall (fun '(_, _, _, c) => 0 <= c) (frame_events fs))
  (Hten : forall o, (size (list_to_set (map (fun '(_, ses, _) => ses) (events_of o (frame_events fs))) : gset Z) <= 10)%nat) :
  NoDup (router_run s fs []).2.
Proof.
  destruct (router_run_window fs s [] [] ltac:(done)) as (evs & Hsub & Hrun). rewrite Hnew in Hrun.
  eapply sublist_NoDup; [|exact Hrun]. apply onion_run_nodup.
  - rewrite Forall_forall in *. intros x Hx. apply Hc. by eapply elem_of_sublist.
  - intros o. etrans; [|apply (Hten o)]. apply subseteq_size. intros x. rewrite !elem_of_list_to_set, !list_elem_of_fmap.
    intros ([[now ses] c] & -> & Hin). exists (now, ses, c). split; [done|]. apply elem_of_events.
    apply elem_of_events in Hin. by eapply elem_of_sublist.
Qed.

Definition with_from (from : string) (h : OrrHeader) : OrrHeader :=
  mkOrrHeader (oh_kind h) (oh_version h) from (oh_to h) (oh_next_orr_id h) (oh_key_id h) (oh_max_hops h) (oh_timestamp h)
    (oh_session h) (oh_counter h) (oh_tag h).

(** The window is that of the origin as the header writes it, the secret that of
    its lower-case form, and the additional data does not cover the origin: an
    onion already delivered is delivered again when the case of its origin is
    changed, with nothing else touched. *)
Theorem origin_case_replays (now ts : Z) (s s1 : OrrService) (h : OrrHeader) (kid : bytes) (epoch : Z) (m : AppHeader) (pl body : bytes)
  (from' : string)
  (Hfirst : handle_onion_in now ts s h kid epoch m pl = (s1, [broadcast_delivery s h m body], Ok tt))
  (Hcase : to_ascii_lowercase from' = to_ascii_lowercase (oh_from h)) (Hne : from' <> EmptyString)
  (Hwin : is_ok (onion_check now (os_replay s1) from' (oh_session h) (oh_counter h)).2 = true) :
  exists s2 msg, handle_onion_in now ts s1 (with_from from' h) kid epoch m pl = (s2, [ToDkms msg], Ok tt)
    /\ dm_payload msg = body /\ dm_app_header msg = m.
Proof.
  unfold handle_onion_in in *. cbn [with_from oh_from oh_tag oh_max_hops oh_session oh_counter]. rewrite Hcase.
  destruct (master_for_epoch (os_peers s) _ epoch) as [ms|] eqn:Em.
  2:{ pose proof (trigger_taken now s (to_ascii_lowercase (oh_from h))) as [Ht _].
      destruct (trigger_passive_rebootstrap _ _ _) as [s0 eff]. injection Hfirst as -> ->. discriminate Ht. }
  destruct (peel _ _ _ _ _ _ _ _ _) as [p|e|] eqn:Ep; [|done..].
  destruct (onion_check now (os_replay s) _ _ _) as [w [u|e|]]; [|done..].
  assert (Hs1 : os_peers s1 = os_peers s /\ p = Deliver body).
  { destruct p as [inner|b]; [|injection Hfirst as <- Hb; by split; [|f_equal]].
    destruct (bool_decide _); [done|]. by destruct (qkc_id _ _). }
  destruct Hs1 as [Hp1 ->]. rewrite Hp1, Em, Ep.
  destruct (onion_check now (os_replay s1) from' _ _) as [w' [u'|e|]]; try discriminate Hwin. by eexists _, _.
Qed.
End Once.

(** ** What starts a passive re-bootstrap *)

Section Passive.
Context `{MacCrypto} `{AesGcm} `{Sha256} `{MsgPack}.

(** Nothing stands in the way of a re-bootstrap with [peer] at [now]. *)
Definition may_rebootstrap (now : Z) (s : OrrService) (peer addr : string) (pk : bytes) : Prop :=
  grpc_addr (os_peers s) peer = Some addr /\ or_public_key (os_peers s) peer = Some pk
  /\ should_attempt_rebootstrap now (os_peers s) peer PASSIVE_REBOOTSTRAP_MIN_INTERVAL = true
  /\ default false (or_inflight (os_peers s) !! peer) = false.

Lemma trigger_clears now s peer addr pk : may_rebootstrap now s peer addr pk ->
  exists s', trigger_passive_rebootstrap now s peer = (s', [StartRebootstrap peer addr pk])
    /\ bootstrap_for (os_peers s') peer = None /\ send_epoch_for (os_peers s') peer = None
    /\ or_grpc (os_peers s') = or_grpc (os_peers s) /\ or_pubkeys (os_peers s') = or_pubkeys (os_peers s)
    /\ or_last_failure (os_peers s') = or_last_failure (os_peers s).
Proof.
  intros (Hg & Hp & Hsh & Hin). unfold trigger_passive_rebootstrap, try_mark_rebootstrap_inflight. rewrite Hg, Hsh, Hin. cbn [negb].
  unfold or_public_key, set_flags in *. cbn [or_pubkeys]. rewrite Hp. eexists. split; [done|].
  unfold os_with_peers, clear_peer_secrets, set_secrets, bootstrap_for, send_epoch_for, current_send_epoch, latest_epoch_for, epochs.
  cbn [os_peers or_bootstrap or_send_epochs or_master or_grpc or_pubkeys or_last_failure]. rewrite !lookup_delete_eq. done.
Qed.

(** One frame is enough to make a router drop every secret it shares with a peer:
    it has to name that peer and an epoch that is not held, and nothing of it is
    authenticated before. *)
Theorem unknown_epoch_drops_secrets (now ts : Z) (s : OrrService) (h : OrrHeader) (kid : bytes) (epoch : Z) (m : AppHeader) (pl : bytes)
  (addr : string) (pk : bytes)
  (Hep : master_for_epoch (os_peers s) (to_ascii_lowercase (oh_from h)) epoch = None)
  (Hmay : may_rebootstrap now s (to_ascii_lowercase (oh_from h)) addr pk) :
  exists s', handle_onion_in now ts s h kid epoch m pl = (s', [StartRebootstrap (to_ascii_lowercase (oh_from h)) addr pk], Ok tt)
    /\ bootstrap_for (os_peers s') (to_ascii_lowercase (oh_from h)) = None
    /\ send_epoch_for (os_peers s') (to_ascii_lowercase (oh_from h)) = None.
Proof.
  destruct (trigger_clears _ _ _ _ _ Hmay) as (s' & Et & Hb & Hs & _). exists s'. unfold handle_onion_in. rewrite Hep, Et. done.
Qed.

(** The wait between attempts is only for establishments that fail: when the
    peer's key cannot be fetched, or is refused, nothing is recorded and the next
    frame starts the next attempt at once. *)
Theorem failed_refresh_is_not_limited `{MlKem} `{MlDsa} `{X509} {W} (rpc : W -> bytes -> W * option FinResp) (now : Z) (suite : string) (s : OrrService)
  (peer addr : string) (pk seed : bytes) (fetched : option Announced) (w : W)
  (Hmay : may_rebootstrap now s peer addr pk)
  (Hbad : forall a, fetched = Some a -> names_peer a peer = false) :
  let s1 := (trigger_passive_rebootstrap now s peer).1 in
  may_rebootstrap now (os_with_peers (passive_rebootstrap_task rpc now suite peer pk seed fetched (os_peers s1) w).1 s1) peer addr pk.
Proof.
  cbn zeta. destruct (trigger_clears _ _ _ _ _ Hmay) as (s1 & -> & _ & _ & Eg & Ep & Ef). cbn [fst].
  assert (Et : passive_rebootstrap_task rpc now suite peer pk seed fetched (os_peers s1) w = (clear_rebootstrap_inflight (os_peers s1) peer, w)).
  { unfold passive_rebootstrap_task. destruct fetched as [a|]; [|done]. by rewrite (Hbad a eq_refl). }
  rewrite Et. destruct Hmay as (Hg & Hp & Hsh & _). unfold may_rebootstrap, grpc_addr, or_public_key, should_attempt_rebootstrap in *.
  cbn [fst os_with_peers os_peers clear_rebootstrap_inflight set_flags or_grpc or_pubkeys or_last_failure or_inflight].
  rewrite Eg, Ep, Ef, lookup_delete_eq. done.
Qed.
End Passive.

(** ** Witnesses *)

Definition secret_12 : bytes := pad 32 [5].
Definition secret_13 : bytes := pad 32 [6].
Definition new_service (id : string) (qkc : Z) (r : OrrRegistry) : OrrService := mkService id qkc r ∅ 7 0 ∅.

Definition orr_1 : OrrService := new_service "orr_1" 1
  (reset_for_bootstrap (reset_for_bootstrap (or_with_all (list_to_map [("orr_2"%string, 2); ("orr_3"%string, 3)]) ∅ ∅ "orr_1" 1 Tofu)
    "orr_2" secret_12) "orr_3" secret_13).
Definition orr_2 : OrrService := new_service "orr_2" 2
  (reset_for_bootstrap (or_with_all (list_to_map [("orr_1"%string, 1); ("orr_3"%string, 3)]) ∅ ∅ "orr_2" 2 Tofu) "orr_1" secret_12).
Definition orr_3 : OrrService := new_service "orr_3" 3
  (reset_for_bootstrap (or_with_all (list_to_map [("orr_1"%string, 1); ("orr_2"%string, 2)]) ∅ ∅ "orr_3" 3 Tofu) "orr_1" secret_13).
Definition three_routers : gmap Z OrrService := list_to_map [(2, orr_2); (3, orr_3)].
Definition path_header : AppHeader := {[ "orr_path"%string := "orr_2, orr_3"%string ]}.
Definition hop_2 : PathHopSecret := mkHop "orr_2" secret_12 0.
Definition hop_3 : PathHopSecret := mkHop "orr_3" secret_13 0.
Definition kid_2 : bytes := pad 16 [21].
Definition kid_3 : bytes := pad 16 [31].
Definition sample_legs : list (PathHopSecret * bytes * Z) := [(hop_2, kid_2, 2); (hop_3, kid_3, 3)].

Lemma onion_message_delivered_witness :
  exists s' f out routers' q,
    send_message 10 0 orr_1 "orr_3" [1; 2; 3] (-1) path_header 1 [kid_2; kid_3] [] None = (s', [ToQkc f], Ok out)
    /\ carry 2 10 0 three_routers f = (routers', Some (q, mkDelivered (Some "orr_1"%string) "orr_3" [1; 2; 3] path_header true))
    /\ last (map snd sample_legs) = Some q /\ last ["orr_2"%string; "orr_3"%string] = Some "orr_3"%string.
Proof.
  apply (onion_message_delivered 10 0 orr_1 "orr_3" [1; 2; 3] (-1) path_header 1 [kid_2; kid_3] [] None
    ["orr_2"%string; "orr_3"%string] [hop_2; hop_3] sample_legs three_routers).
  - right. left. reflexivity.
  - vm_compute. reflexivity.
  - vm_compute. reflexivity.
  - reflexivity.
  - reflexivity.
  - vm_compute. reflexivity.
  - constructor; [|constructor; [|constructor]].
    + exists orr_2. split; [reflexivity|]. split; [reflexivity|]. split; vm_compute; reflexivity.
    + exists orr_3. split; [reflexivity|]. split; [reflexivity|]. split; vm_compute; reflexivity.
  - split; [|exact I]. intros st. vm_compute. intros [= <-]. reflexivity.
  - apply (bool_decide_unpack _). vm_compute. exact I.
  - apply (bool_decide_unpack _). vm_compute. exact I.
  - constructor; [|constructor; [|constructor]]; (split; [|split]); vm_compute; try split; try reflexivity; discriminate.
  - vm_compute. reflexivity.
  - vm_compute. split; [discriminate|reflexivity].
  - vm_compute. split; [discriminate|reflexivity].
  - split; [vm_compute; reflexivity|]. apply (bool_decide_unpack _). vm_compute. exact I.
  - split; [vm_compute; reflexivity|]. split; [discriminate|reflexivity].
  - split; [vm_compute; reflexivity|]. split; [discriminate|]. split; [reflexivity|discriminate].
Defined.

Lemma selected_hops_keep_order_witness :
  exists hops, select_random_hops ["a"; "b"; "c"; "d"; "e"]%string 3 [3; 0; 2; 1]%nat = Ok hops /\ hops `sublist_of` ["a"; "b"; "c"; "d"; "e"]%string
    /\ length hops = 3%nat /\ last hops = Some "e"%string.
Proof.
  apply (selected_hops_keep_order ["a"; "b"; "c"; "d"; "e"]%string 3 [3; 0; 2; 1]%nat); [lia|discriminate|].
  apply (bool_decide_unpack _). vm_compute. exact I.
Defined.

(** An onion for orr_2 alone. *)
Definition frame_12 : Frame :=
  match send_message 10 0 orr_1 "orr_2" [1; 2; 3] 1 ∅ 1 [kid_2] [] None with
  | (_, [ToQkc f], _) => to_deliver f
  | _ => Frame_empty 0
  end.
Definition header_12 : OrrHeader := match header_decode (header_orr_mp frame_12) with Ok h => h | _ => OrrHeader_default end.

(** It comes twice: the second time it is not taken. *)
Lemma onion_taken_once_witness :
  (router_run orr_2 [(10, 0, frame_12); (11, 0, frame_12)] []).2 = [("orr_1"%string, (7, 1))]
  /\ NoDup (router_run orr_2 [(10, 0, frame_12); (11, 0, frame_12)] []).2.
Proof.
  split; [vm_compute; reflexivity|]. apply (onion_taken_once orr_2 [(10, 0, frame_12); (11, 0, frame_12)]); [reflexivity| |].
  - apply (bool_decide_unpack _). vm_compute. exact I.
  - assert (Ef : frame_events [(10, 0, frame_12); (11, 0, frame_12)] = [(10, "orr_1"%string, 7, 1); (11, "orr_1"%string, 7, 1)])
      by (vm_compute; reflexivity).
    intros o. rewrite Ef. clear Ef. etrans; [apply (subseteq_size _ {[7]})|rewrite size_singleton; lia].
    intros x. rewrite elem_of_list_to_set, list_elem_of_fmap. intros ([[t ses] c] & -> & Hin). apply elem_of_events in Hin.
    rewrite !elem_of_cons in Hin. apply elem_of_singleton. destruct Hin as [E|[E|Hin]]; [congruence..|by apply not_elem_of_nil in Hin].
Defined.

Lemma origin_case_replays_witness :
  exists s2 msg, handle_onion_in 10 0 (handle_onion_in 10 0 orr_2 header_12 kid_2 0 ∅ (payload frame_12)).1.1
      (with_from "ORR_1" header_12) kid_2 0 ∅ (payload frame_12) = (s2, [ToDkms msg], Ok tt)
    /\ dm_payload msg = [1; 2; 3] /\ dm_app_header msg = ∅.
Proof.
  apply (origin_case_replays 10 0 orr_2 (handle_onion_in 10 0 orr_2 header_12 kid_2 0 ∅ (payload frame_12)).1.1 header_12 kid_2 0 ∅
    (payload frame_12) [1; 2; 3] "ORR_1"); [vm_compute; reflexivity..|discriminate|vm_compute; reflexivity].
Defined.

(** A router that knows where orr_1 is and its key, and a header that names it. *)
Definition orr_2_dialing : OrrService :=
  os_with_peers (put_grpc_addr (put_pubkey (os_peers orr_2) "orr_1" [4; 4]) "orr_1" "https://10.0.0.1:20003") orr_2.

Lemma unknown_epoch_drops_secrets_witness :
  exists s', handle_onion_in 10 0 orr_2_dialing header_12 kid_2 9 ∅ [] = (s', [StartRebootstrap "orr_1" "https://10.0.0.1:20003" [4; 4]], Ok tt)
    /\ bootstrap_for (os_peers s') "orr_1" = None /\ send_epoch_for (os_peers s') "orr_1" = None.
Proof.
  apply (unknown_epoch_drops_secrets 10 0 orr_2_dialing header_12 kid_2 9 ∅ [] "https://10.0.0.1:20003" [4; 4]).
  - vm_compute. reflexivity.
  - split; [vm_compute; reflexivity|]. split; [vm_compute; reflexivity|]. split; vm_compute; reflexivity.
Defined.

Lemma failed_refresh_is_not_limited_witness :
  may_rebootstrap 10 (os_with_peers (passive_rebootstrap_task (fun (w : unit) _ => (w, None)) 10 "ml-kem-768" "orr_1" [4; 4] [] None
      (os_peers (trigger_passive_rebootstrap 10 orr_2_dialing "orr_1").1) tt).1 (trigger_passive_rebootstrap 10 orr_2_dialing "orr_1").1)
    "orr_1" "https://10.0.0.1:20003" [4; 4].
Proof.
  apply (failed_refresh_is_not_limited (fun (w : unit) _ => (w, None)) 10 "ml-kem-768" orr_2_dialing "orr_1" "https://10.0.0.1:20003" [4; 4] [] None tt).
  - split; [vm_compute; reflexivity|]. split; [vm_compute; reflexivity|]. split; vm_compute; reflexivity.
  - discriminate.
Defined.
