(* ===== verification/Float64.v ===== *)
(** * IEEE binary64, as the controller's [f64]

    The controller keeps rates and capacities as [f64].  The model uses the
    Standard Library's executable specification of binary floating point
    ([SpecFloat]) at precision 53 and exponent bound 1024: addition,
    subtraction, multiplication, division and the comparisons are those of
    the language, rounding to nearest even, with infinities, signed zeros
    and one NaN.  [powf] is the platform's libm, of which the language fixes
    no bits: it is an operation of the class [Libm]. *)
From Stdlib Require Import SpecFloat.
From S2P Require Import Prelude.
From stdpp Require Import base.

#[local] Open Scope Z_scope.

(** ** Operations of the language *)

Abbreviation f64 := spec_float.

#[export] Instance spec_float_eq_dec : EqDecision f64.
Proof. solve_decision. Defined.

Definition fadd : f64 -> f64 -> f64 := SFadd 53 1024.
Definition fsub : f64 -> f64 -> f64 := SFsub 53 1024.
Definition fmul : f64 -> f64 -> f64 := SFmul 53 1024.
Definition fdiv : f64 -> f64 -> f64 := SFdiv 53 1024.
Definition fneg : f64 -> f64 := SFopp.
Definition fabs : f64 -> f64 := SFabs.

(** [==], [<], [<=] of [f64]: a NaN compares false with everything. *)
Definition feq : f64 -> f64 -> bool := SFeqb.
Definition flt : f64 -> f64 -> bool := SFltb.
Definition fle : f64 -> f64 -> bool := SFleb.

Definition f_of_Z (n : Z) : f64 := binary_normalize 53 1024 n 0 false.
(** The literal [n / d], both exact: the nearest double. *)
Definition f_lit (n d : Z) : f64 := fdiv (f_of_Z n) (f_of_Z d).
Definition f_zero : f64 := S754_zero false.
Definition f_inf : f64 := S754_infinity false.
Definition f_epsilon : f64 := S754_finite false 4503599627370496 (-104).

Definition is_nan (x : f64) : bool := match x with S754_nan => true | _ => false end.
Definition is_finite (x : f64) : bool :=
  match x with S754_zero _ | S754_finite _ _ _ => true | _ => false end.

(** [f64::max], [f64::min]: a NaN operand is ignored. *)
Definition fmax (x y : f64) : f64 :=
  if is_nan x then y else if is_nan y then x else if flt x y then y else x.
Definition fmin (x y : f64) : f64 :=
  if is_nan x then y else if is_nan y then x else if flt y x then y else x.
Definition fclamp (x lo hi : f64) : f64 :=
  let x := if flt x lo then lo else x in if flt hi x then hi else x.

(** [x as u32], [x as u64]: truncate, saturate, and a NaN is zero. *)
Definition f_as_u (w : Z) (x : f64) : Z :=
  match x with
  | S754_finite false m e => Z.min (2 ^ w - 1) (Z.shiftl (Zpos m) e)
  | S754_infinity false => 2 ^ w - 1
  | _ => 0
  end.

(** [f64::round]: to the nearest integer, ties away from zero. *)
Definition fround (x : f64) : f64 :=
  match x with
  | S754_finite s m e =>
      if (0 <=? e) then x
      else binary_normalize 53 1024
             (cond_Zopp s (Z.shiftr (2 * Zpos m + Z.shiftl 1 (- e)) (1 - e))) 0 s
  | _ => x
  end.

(** ** Durations, in nanoseconds *)

Definition NANOS_PER_SEC : Z := 1000000000.
(** [Duration::as_secs_f64]. *)
Definition as_secs_f64 (d : Z) : f64 := fadd (f_of_Z (d / NANOS_PER_SEC)) (fdiv (f_of_Z (d mod NANOS_PER_SEC)) (f_of_Z NANOS_PER_SEC)).
Definition saturating_duration_since (now t : Z) : Z := Z.max 0 (now - t).

(** The mathematics library the program links. *)
Class Libm := { powf : f64 -> f64 -> f64 }.

(** ** Facts the controller relies on *)

Lemma feq_refl x : is_nan x = false -> feq x x = true.
Proof.
  destruct x as [s|s| |s m e]; try done; intros _; try (by destruct s).
  unfold feq, SFeqb, SFcompare. rewrite Z.compare_refl.
  assert (Hm : Pos.compare_cont Eq m m = Eq) by apply Pos.compare_refl.
  rewrite Hm. by destruct s.
Qed.

Lemma finite_not_nan x : is_finite x = true -> is_nan x = false.
Proof. by destruct x. Qed.

Lemma fsub_self x : is_finite x = true -> fsub x x = f_zero.
Proof.
  destruct x as [s|s| |s m e]; try done; intros _; [by destruct s|].
  unfold fsub, SFsub. by rewrite Z.sub_diag.
Qed.

(** A float at least one half is above zero. *)
Lemma half_above_zero y : is_nan y = false -> flt y (f_lit 1 2) = false -> flt f_zero y = true.
Proof. destruct y as [s|[]| |[] m e]; done. Qed.

Lemma max_half_pos y : flt f_zero (fmax y (f_lit 1 2)) = true.
Proof.
  unfold fmax. destruct (is_nan y) eqn:Hn; [done|].
  change (is_nan (f_lit 1 2)) with false.
  destruct (flt y (f_lit 1 2)) eqn:Hl; [done|]. by apply half_above_zero.
Qed.

Lemma clamp_in_range x lo hi :
  flt x lo = false -> flt hi x = false -> fclamp x lo hi = x.
Proof. unfold fclamp. by intros -> ->. Qed.

Lemma fle_not_lt x y : fle x y = true -> flt y x = false.
Proof.
  unfold fle, flt, SFleb, SFltb.
  assert (Hs : SFcompare y x = CompOpp <$> SFcompare x y).
  { destruct x as [s|s| |s m e], y as [s'|s'| |s' m' e']; try done; try (by destruct s, s'); try (by destruct s);
      try (by destruct s').
    cbn [SFcompare fmap option_fmap option_map]. f_equal.
    rewrite (Z.compare_antisym e e').
    assert (Hm : Pos.compare_cont Eq m' m = CompOpp (Pos.compare_cont Eq m m')) by apply Pos.compare_antisym.
    rewrite Hm. destruct s, s', (e ?= e'); cbn; try done; by destruct (Pos.compare_cont Eq m m'). }
  rewrite Hs. destruct (SFcompare x y) as [[]|]; done.
Qed.

(** ** Rounding an integer *)

Lemma shr_exponent mrs e n : e <= (shr mrs e n).2.
Proof. destruct n; cbn [shr snd]; lia. Qed.

Lemma round_aux_exponent s m e l s' m' e' : binary_round_aux 53 1024 s m e l = S754_finite s' m' e' -> e <= e'.
Proof.
  unfold binary_round_aux, shr_fexp. pose proof (shr_exponent (shr_record_of_loc m l) e (fexp 53 1024 (Zdigits2 m + e) - e)) as H1.
  destruct (shr (shr_record_of_loc m l) _ _) as [r1 e1]. cbn [snd] in H1. set (m1 := round_nearest_even _ _).
  pose proof (shr_exponent (shr_record_of_loc m1 loc_Exact) e1 (fexp 53 1024 (Zdigits2 m1 + e1) - e1)) as H2.
  destruct (shr (shr_record_of_loc m1 _) _ _) as [r2 e2]. cbn [snd] in H2.
  destruct (shr_m r2); [done| |done]. destruct (e2 <=? _); [|done]. intros [= _ _ <-]. lia.
Qed.

Lemma round_aux_exact s m e : fexp 53 1024 (Zpos (digits2_pos m) + e) = e -> e <= 971 ->
  binary_round_aux 53 1024 s (Zpos m) e loc_Exact = S754_finite s m e.
Proof.
  intros Hf He. unfold binary_round_aux, shr_fexp. cbn [Zdigits2]. rewrite Hf, Z.sub_diag.
  cbn [shr shr_record_of_loc loc_of_shr_record shr_m round_nearest_even Zdigits2]. rewrite Hf, Z.sub_diag.
  cbn [shr shr_record_of_loc shr_m]. destruct (Z.leb_spec e (1024 - 53)); [done|lia].
Qed.

Lemma iter_xO_digits m d : Zpos (digits2_pos (Pos.iter xO m d)) = Zpos (digits2_pos m) + Zpos d /\
  Zpos (Pos.iter xO m d) = Zpos m * 2 ^ Zpos d.
Proof.
  induction d as [|d IH] using Pos.peano_ind; [cbn [Pos.iter digits2_pos]; lia|].
  rewrite Pos.iter_succ. cbn [digits2_pos]. destruct IH as [H1 H2]. split; [lia|].
  rewrite Pos2Z.inj_succ, Z.pow_succ_r by lia. rewrite (Pos2Z.inj_xO (Pos.iter _ _ _)), H2. lia.
Qed.

(** An integer rounded to a double is not below one. *)
Lemma round_int_pos p s m e : binary_round 53 1024 false p 0 = S754_finite s m e -> 1 <= Z.shiftl (Zpos m) e.
Proof.
  unfold binary_round, shl_align. rewrite Z.add_0_r, Z.sub_0_r. set (d := Zpos (digits2_pos p)).
  assert (Hfe : fexp 53 1024 d = d - 53) by (unfold fexp, emin; subst d; lia). rewrite Hfe.
  assert (Hpos : 0 <= e -> 1 <= Z.shiftl (Zpos m) e).
  { intros He. rewrite Z.shiftl_mul_pow2 by done. pose proof (Z.pow_pos_nonneg 2 e). nia. }
  destruct (d - 53) as [|k|k] eqn:Hk; [intros H; apply Hpos; exact (round_aux_exponent _ _ _ _ _ _ _ H)..|].
  destruct (iter_xO_digits p k) as [D1 D2]. rewrite round_aux_exact; [|rewrite D1; unfold fexp, emin; fold d; lia|lia].
  intros [= _ <- <-]. rewrite D2. rewrite <- (Z.opp_involutive (Zneg k)), Z.shiftl_opp_r. cbn [Z.opp].
  rewrite Z.shiftr_div_pow2, Z.div_mul by lia. lia.
Qed.

Example literals : f_lit 1 2 = S754_finite false 4503599627370496 (-53) /\
  f_as_u 64 (f_lit 7 2) = 3 /\ fround (f_lit 5 2) = f_of_Z 3 /\ fround (f_lit (-5) 2) = f_of_Z (-3).
Proof. by vm_compute. Qed.

(** A rounded double clamped from one up truncates to a positive integer. *)
Lemma round_clamp_range x hi : is_nan (fround x) = false -> flt hi (f_of_Z 1) = false -> f_as_u 32 hi = 2 ^ 32 - 1 ->
  1 <= f_as_u 32 (fclamp (fround x) (f_of_Z 1) hi) < 2 ^ 32.
Proof.
  intros Hn Hlo Hhi. assert (Hone : f_as_u 32 (f_of_Z 1) = 1) by reflexivity.
  unfold fclamp. destruct (flt (fround x) (f_of_Z 1)) eqn:Hl.
  { destruct (flt hi (f_of_Z 1)); [done|]. rewrite Hone. lia. }
  destruct (flt hi (fround x)); [rewrite Hhi; lia|].
  destruct (fround x) as [s|[]| |[] m e] eqn:Hr; try discriminate Hl; try discriminate Hn; [cbn; lia|]. cbn [f_as_u].
  assert (1 <= Z.shiftl (Zpos m) e); [|lia].
  unfold fround in Hr. destruct x as [| | |s m' e']; try discriminate Hr. destruct (Z.leb_spec 0 e').
  - injection Hr as -> -> ->. rewrite Z.shiftl_mul_pow2 by done. pose proof (Z.pow_pos_nonneg 2 e). nia.
  - unfold binary_normalize in Hr. destruct (cond_Zopp _ _) as [|q|q]; [discriminate Hr|by eapply round_int_pos|].
    exfalso. unfold binary_round in Hr. destruct (shl_align _ _ _) as [mz ez]. unfold binary_round_aux in Hr.
    destruct (shr_fexp _ _ (Zpos mz) _ _) as [r1 e1]. destruct (shr_fexp _ _ _ e1 _) as [r2 e2].
    destruct (shr_m r2); [discriminate Hr| |discriminate Hr]. destruct (_ <=? _); discriminate Hr.
Qed.

(** ** Small integers are exact *)

Lemma digits2_bounds p : 2 ^ (Zpos (digits2_pos p) - 1) <= Zpos p < 2 ^ Zpos (digits2_pos p).
Proof.
  induction p as [p IH|p IH|]; cbn [digits2_pos]; [| |cbn; lia];
    rewrite Pos2Z.inj_succ, Z.pow_succ_r, Z.sub_1_r, Z.pred_succ by lia;
    rewrite <- (Z.succ_pred (Zpos (digits2_pos p))) at 1; rewrite Z.pow_succ_r, <- Z.sub_1_r by lia; lia.
Qed.

Lemma f_of_Z_small p : Zpos p < 2 ^ 53 ->
  exists m, f_of_Z (Zpos p) = S754_finite false m (Zpos (digits2_pos p) - 53) /\ Zpos m = Zpos p * 2 ^ (53 - Zpos (digits2_pos p)).
Proof.
  intros Hp. pose proof (digits2_bounds p) as [Hlo Hhi]. set (D := Zpos (digits2_pos p)) in *.
  assert (HD : D <= 53) by (destruct (Z.le_gt_cases D 53); [done|]; pose proof (Z.pow_le_mono_r 2 53 (D - 1)); lia).
  unfold f_of_Z, binary_normalize, binary_round, shl_align. fold D. rewrite Z.add_0_r, Z.sub_0_r.
  assert (Hfe : fexp 53 1024 D = D - 53) by (unfold fexp, emin; subst D; lia). rewrite Hfe.
  destruct (D - 53) as [|k|k] eqn:Hk; [|lia|].
  - exists p. rewrite round_aux_exact; [|fold D; by rewrite Z.add_0_r, Hfe|lia]. split; [done|].
    replace (53 - D) with 0 by lia. lia.
  - destruct (iter_xO_digits p k) as [D1 D2]. exists (Pos.iter xO p k).
    rewrite round_aux_exact; [|rewrite D1; unfold fexp, emin; fold D; lia|lia]. split; [done|].
    rewrite D2. f_equal. f_equal. lia.
Qed.

Lemma f_of_Z_compare a b : 0 <= a < 2 ^ 53 -> 0 <= b < 2 ^ 53 -> SFcompare (f_of_Z a) (f_of_Z b) = Some (a ?= b).
Proof.
  intros Ha Hb. destruct a as [|p|p]; [| |lia].
  - destruct b as [|q|q]; [done| |lia]. by destruct (f_of_Z_small q) as (m & -> & _); [lia|].
  - destruct (f_of_Z_small p) as (m & -> & Em); [lia|]. destruct b as [|q|q]; [done| |lia].
    destruct (f_of_Z_small q) as (n & -> & En); [lia|]. cbn [SFcompare].
    pose proof (digits2_bounds p) as [Hp1 Hp2]. pose proof (digits2_bounds q) as [Hq1 Hq2].
    set (P := Zpos (digits2_pos p)) in *. set (Q := Zpos (digits2_pos q)) in *. f_equal.
    destruct (Z.compare_spec (P - 53) (Q - 53)) as [E|E|E]; symmetry.
    + assert (E' : P = Q) by lia. rewrite E' in *. change ((Zpos p ?= Zpos q) = (Zpos m ?= Zpos n)). rewrite Em, En.
      assert (0 < 2 ^ (53 - Q)) by (apply Z.pow_pos_nonneg; [lia|];
        destruct (Z.le_gt_cases Q 53); [lia|]; pose proof (Z.pow_le_mono_r 2 53 (Q - 1)); lia).
      destruct (Z.compare_spec (Zpos p) (Zpos q)); symmetry; [apply Z.compare_eq_iff|apply Z.compare_lt_iff|apply Z.compare_gt_iff]; nia.
    + apply Z.compare_lt_iff. pose proof (Z.pow_le_mono_r 2 P (Q - 1)). lia.
    + apply Z.compare_gt_iff. pose proof (Z.pow_le_mono_r 2 Q (P - 1)). lia.
Qed.

Lemma f_of_Z_lt a b : 0 <= a < 2 ^ 53 -> 0 <= b < 2 ^ 53 -> flt (f_of_Z a) (f_of_Z b) = (a <? b).
Proof. intros Ha Hb. unfold flt, SFltb. rewrite f_of_Z_compare by done. unfold Z.ltb. by destruct (a ?= b). Qed.

Lemma f_of_Z_le a b : 0 <= a < 2 ^ 53 -> 0 <= b < 2 ^ 53 -> fle (f_of_Z a) (f_of_Z b) = (a <=? b).
Proof. intros Ha Hb. unfold fle, SFleb. rewrite f_of_Z_compare by done. unfold Z.leb. by destruct (a ?= b). Qed.

Lemma f_of_Z_finite a : 0 <= a < 2 ^ 53 -> is_finite (f_of_Z a) = true.
Proof. intros Ha. destruct a as [|p|p]; [done| |lia]. destruct (f_of_Z_small p) as (m & -> & _); [lia|done]. Qed.
