(* ===== verification/SdnTopology.v ===== *)
(** * The controller's view of the network (sdn/src/topology.rs)

    The controller keeps the QKCs, the routers (ORR), the key managers (DKMS)
    and the applications (SAE) it has heard of, the links each QKC declares,
    and the graph derived from those declarations.  A [HashMap] is a [gmap],
    a [HashSet] a [gset], a [BTreeMap] a [gmap] read in the order of its
    keys; where the code walks a [HashMap] the order is an operation of the
    class [HashOrder], of which only that it lists the entries is assumed.
    Logging is not modelled.  This file holds the entities and the methods
    of [Topology]; the store, the announcements and the administration are
    in SdnStore, the paths in SdnPaths. *)

From Stdlib Require Import ZArith Lia String.
From stdpp Require Import sorting strings.
From S2P Require Import Prelude Text Float64.

(** ** Entities *)

Record HostEndpoint := mkHost { hp_id : Z; hp_ip : string; hp_port : Z }.
#[export] Instance HostEndpoint_eq_dec : EqDecision HostEndpoint.
Proof. solve_decision. Defined.

Record Qkc := mkQkc {
  qk_id : string; qk_host : HostEndpoint; qk_peer_addr : option string; qk_kme_host : option string }.
#[export] Instance Qkc_eq_dec : EqDecision Qkc.
Proof. solve_decision. Defined.

Record Orr := mkOrr { or_id : string; or_host : HostEndpoint; or_qkc_id : string }.
#[export] Instance Orr_eq_dec : EqDecision Orr.
Proof. solve_decision. Defined.

Record Dkms := mkDkms {
  dk_id : string; dk_host : HostEndpoint; dk_peer_addr : option string; dk_tls_id : option Z;
  dk_orr_id : string }.
#[export] Instance Dkms_eq_dec : EqDecision Dkms.
Proof. solve_decision. Defined.

Record Sae := mkSae { sa_id : string; sa_dkms_id : string }.
#[export] Instance Sae_eq_dec : EqDecision Sae.
Proof. solve_decision. Defined.

Inductive LinkType := Qkd | Pqc.
#[export] Instance LinkType_eq_dec : EqDecision LinkType.
Proof. solve_decision. Defined.

(** Physical metadata of a link.  [em_measured] never travels in a
    declaration ([serde(skip)]). *)
Record EdgeMeta := mkMeta {
  em_distance_km : Z; em_r0 : f64; em_alpha : f64; em_max_buffer_size : Z; em_link_type : LinkType;
  em_key_size_bits : Z; em_pqc_capacity : f64; em_measured : option f64 }.
#[export] Instance EdgeMeta_eq_dec : EqDecision EdgeMeta.
Proof. solve_decision. Defined.

Definition default_r0 : f64 := f_of_Z 2000.
Definition default_alpha : f64 := f_lit 2 10.
Definition default_buf_size : Z := 100.
Definition default_key_size_bits : Z := 256.
Definition default_pqc_capacity : f64 := f_of_Z 10000.
Definition default_meta : EdgeMeta :=
  mkMeta 0 default_r0 default_alpha default_buf_size Qkd default_key_size_bits default_pqc_capacity None.

Definition em_with_measured (m : EdgeMeta) (r : option f64) : EdgeMeta :=
  mkMeta (em_distance_km m) (em_r0 m) (em_alpha m) (em_max_buffer_size m) (em_link_type m)
    (em_key_size_bits m) (em_pqc_capacity m) r.
Definition em_with_r0 (m : EdgeMeta) (r : f64) : EdgeMeta :=
  mkMeta (em_distance_km m) r (em_alpha m) (em_max_buffer_size m) (em_link_type m)
    (em_key_size_bits m) (em_pqc_capacity m) (em_measured m).
Definition em_with_pqc (m : EdgeMeta) (r : f64) : EdgeMeta :=
  mkMeta (em_distance_km m) (em_r0 m) (em_alpha m) (em_max_buffer_size m) (em_link_type m)
    (em_key_size_bits m) r (em_measured m).

(** The derived [PartialEq]: the floats compare as floats, so a NaN differs
    from itself and the two zeros agree. *)
Definition opt_feq (x y : option f64) : bool :=
  match x, y with Some a, Some b => feq a b | None, None => true | _, _ => false end.
Definition em_eqb (a b : EdgeMeta) : bool :=
  (em_distance_km a =? em_distance_km b) && feq (em_r0 a) (em_r0 b) && feq (em_alpha a) (em_alpha b) &&
  (em_max_buffer_size a =? em_max_buffer_size b) && bool_decide (em_link_type a = em_link_type b) &&
  (em_key_size_bits a =? em_key_size_bits b) && feq (em_pqc_capacity a) (em_pqc_capacity b) &&
  opt_feq (em_measured a) (em_measured b).

Definition is_pqc (m : EdgeMeta) : bool := bool_decide (em_link_type m = Pqc).

Definition MAX_SAES_PER_DKMS : Z := 4096.
Definition MAX_CAPACITY_KEYS_PER_S : f64 := f_of_Z 1000000000.

Section capacity.
Context `{Libm}.

(** [R0 * 10^(-alpha * d / 10)]. *)
Definition quditto_capacity_keys_per_second (m : EdgeMeta) : f64 :=
  let exp := fdiv (fmul (fneg (em_alpha m)) (f_of_Z (em_distance_km m))) (f_of_Z 10) in
  fmax (fmul (em_r0 m) (powf (f_of_Z 10) exp)) f_zero.

Definition capacity_keys_per_second (m : EdgeMeta) : f64 :=
  let raw :=
    if is_pqc m then em_pqc_capacity m
    else match em_measured m with Some r => r | None => quditto_capacity_keys_per_second m end in
  if negb (is_finite raw) then f_zero else fclamp raw f_zero MAX_CAPACITY_KEYS_PER_S.

End capacity.

(** The canonical key of an undirected edge. *)
Definition edge_key (a b : string) : string * string := if String.leb a b then (a, b) else (b, a).

(** ** Maps *)

Class HashOrder := {
  hash_iter : forall A, gmap string A -> list (string * A);
  hash_iter_perm : forall A (m : gmap string A), hash_iter A m ≡ₚ map_to_list m }.
Arguments hash_iter {_ A} _.

(** The keys of a [BTreeMap], in order. *)
Definition sorted_keys {A} (m : gmap string A) : list string := merge_sort String.le (map_to_list m).*1.

(** [==] of two [BTreeMap]s of metadata. *)
Definition links_eqb (a b : gmap string EdgeMeta) : bool :=
  bool_decide (dom a = dom b) &&
  forallb (fun kv => match b !! kv.1 with Some m => em_eqb kv.2 m | None => false end) (map_to_list a).

(** ** The snapshot *)

Record Topology := mkTopo {
  tp_qkcs : gmap string Qkc;
  tp_orrs : gmap string Orr;
  tp_orr_by_qkc : gmap string string;
  tp_dkms : gmap string Dkms;
  tp_dkms_by_qkc : gmap string string;
  tp_saes : gmap string Sae;
  tp_graph : gmap string (gset string);
  tp_edges : gmap (string * string) EdgeMeta;
  tp_declared : gmap string (gmap string EdgeMeta);
  tp_version : Z }.

Definition empty_topology : Topology := mkTopo ∅ ∅ ∅ ∅ ∅ ∅ ∅ ∅ ∅ 0.

Definition set_qkcs f t := mkTopo (f (tp_qkcs t)) (tp_orrs t) (tp_orr_by_qkc t) (tp_dkms t)
  (tp_dkms_by_qkc t) (tp_saes t) (tp_graph t) (tp_edges t) (tp_declared t) (tp_version t).
Definition set_orrs f g t := mkTopo (tp_qkcs t) (f (tp_orrs t)) (g (tp_orr_by_qkc t)) (tp_dkms t)
  (tp_dkms_by_qkc t) (tp_saes t) (tp_graph t) (tp_edges t) (tp_declared t) (tp_version t).
Definition set_dkms f g t := mkTopo (tp_qkcs t) (tp_orrs t) (tp_orr_by_qkc t) (f (tp_dkms t))
  (g (tp_dkms_by_qkc t)) (tp_saes t) (tp_graph t) (tp_edges t) (tp_declared t) (tp_version t).
Definition set_saes f t := mkTopo (tp_qkcs t) (tp_orrs t) (tp_orr_by_qkc t) (tp_dkms t)
  (tp_dkms_by_qkc t) (f (tp_saes t)) (tp_graph t) (tp_edges t) (tp_declared t) (tp_version t).
Definition set_graph f t := mkTopo (tp_qkcs t) (tp_orrs t) (tp_orr_by_qkc t) (tp_dkms t)
  (tp_dkms_by_qkc t) (tp_saes t) (f (tp_graph t)) (tp_edges t) (tp_declared t) (tp_version t).
Definition set_edges f t := mkTopo (tp_qkcs t) (tp_orrs t) (tp_orr_by_qkc t) (tp_dkms t)
  (tp_dkms_by_qkc t) (tp_saes t) (tp_graph t) (f (tp_edges t)) (tp_declared t) (tp_version t).
Definition set_declared f t := mkTopo (tp_qkcs t) (tp_orrs t) (tp_orr_by_qkc t) (tp_dkms t)
  (tp_dkms_by_qkc t) (tp_saes t) (tp_graph t) (tp_edges t) (f (tp_declared t)) (tp_version t).
Definition bump t := mkTopo (tp_qkcs t) (tp_orrs t) (tp_orr_by_qkc t) (tp_dkms t)
  (tp_dkms_by_qkc t) (tp_saes t) (tp_graph t) (tp_edges t) (tp_declared t) (tp_version t + 1).

Definition qkc_of_dkms (t : Topology) (dkms_id : string) : option string :=
  d ← tp_dkms t !! dkms_id; o ← tp_orrs t !! dk_orr_id d; Some (or_qkc_id o).

Definition edge (t : Topology) (a b : string) : option EdgeMeta := tp_edges t !! edge_key a b.

Definition resolve_dkms `{HashOrder} (t : Topology) (id : option string) (ip_port : option (string * Z)) : option Dkms :=
  match id ≫= (tp_dkms t !!.) with
  | Some d => Some d
  | None =>
      match ip_port with
      | Some (ip, port) =>
          snd <$> List.find (fun kd => String.eqb (hp_ip (dk_host kd.2)) ip && (hp_port (dk_host kd.2) =? port))
                    (hash_iter (tp_dkms t))
      | None => None
      end
  end.

(** ** Peers told to each module *)

Record QkcPeer := mkQkcPeer { kp_qkc_id : string; kp_peer_addr : string; kp_link_type : LinkType; kp_key_size_bits : Z }.
Record OrrPeerOut := mkOrrPeerOut { op_orr_id : string; op_qkc_id : string; op_grpc_url : string }.
Record DkmsPeerOut := mkDkmsPeerOut { dp_dkms_id : string; dp_orr_id : string; dp_endpoint : string }.

Definition sort_by_id {A} (key : A -> string) (l : list A) : list A :=
  merge_sort (fun x y => String.le (key x) (key y)) l.

Definition qkc_peers (t : Topology) (qkc_id : string) : list QkcPeer :=
  match tp_graph t !! qkc_id with
  | None => []
  | Some neighbors =>
      sort_by_id kp_qkc_id (omap (fun n =>
        q ← tp_qkcs t !! n;
        peer_addr ← qk_peer_addr q;
        meta ← edge t qkc_id n;
        Some (mkQkcPeer n peer_addr (em_link_type meta) (em_key_size_bits meta))) (elements neighbors))
  end.

Definition orr_peers `{HashOrder} (t : Topology) (orr_id : string) : list OrrPeerOut :=
  sort_by_id op_orr_id (omap (fun kv : string * Orr =>
    if String.eqb (or_id kv.2) orr_id then None
    else Some (mkOrrPeerOut (or_id kv.2) (or_qkc_id kv.2)
      ("http://" ++ hp_ip (or_host kv.2) ++ ":" ++ to_string (hp_port (or_host kv.2)))%string))
    (hash_iter (tp_orrs t))).

Definition dkms_peers `{HashOrder} (t : Topology) (dkms_id : string) : list DkmsPeerOut :=
  sort_by_id dp_dkms_id (omap (fun kv : string * Dkms =>
    if String.eqb (dk_id kv.2) dkms_id then None
    else endpoint ← dk_peer_addr kv.2; Some (mkDkmsPeerOut (dk_id kv.2) (dk_orr_id kv.2) endpoint))
    (hash_iter (tp_dkms t))).

(** ** Mutations *)

Inductive Upsert := UpRejected | UpUnchanged | UpChanged.
Definition up_changed (u : Upsert) : bool := match u with UpChanged => true | _ => false end.
Definition from_changed (changed : bool) : Upsert := if changed then UpChanged else UpUnchanged.

(** [entry(k).or_default()]. *)
Definition or_default (k : string) (g : gmap string (gset string)) : gmap string (gset string) :=
  match g !! k with Some _ => g | None => <[k := ∅]> g end.
Definition adj_insert (a b : string) (g : gmap string (gset string)) : gmap string (gset string) :=
  <[a := {[b]} ∪ default ∅ (g !! a)]> g.
Definition adj_remove (a b : string) (g : gmap string (gset string)) : gmap string (gset string) :=
  alter (fun s => s ∖ {[b]}) a g.

(** Removes the entry of an index when it still points at [who]. *)
Definition unlink_if (q who : string) (m : gmap string string) : gmap string string :=
  if bool_decide (m !! q = Some who) then delete q m else m.

Definition upsert_qkc (t : Topology) (qkc : Qkc) : Topology * bool :=
  let key := qk_id qkc in
  let changed := negb (bool_decide (tp_qkcs t !! key = Some qkc)) in
  (set_qkcs <[key := qkc]> (set_graph (or_default key) t), changed).

Definition upsert_orr (t : Topology) (orr : Orr) : Topology * Upsert :=
  if negb (bool_decide (is_Some (tp_qkcs t !! or_qkc_id orr))) then (t, UpRejected)
  else
    let key := or_id orr in
    if match tp_orr_by_qkc t !! or_qkc_id orr with Some other => negb (String.eqb other key) | None => false end
    then (t, UpRejected)
    else
      let changed := negb (bool_decide (tp_orrs t !! key = Some orr)) in
      let drop_old := match tp_orrs t !! key with
        | Some o => if String.eqb (or_qkc_id o) (or_qkc_id orr) then id else unlink_if (or_qkc_id o) key
        | None => id end in
      (set_orrs <[key := orr]> (fun m => <[or_qkc_id orr := key]> (drop_old m)) t, from_changed changed).

Definition upsert_dkms (t : Topology) (dkms : Dkms) : Topology * Upsert :=
  match tp_orrs t !! dk_orr_id dkms with
  | None => (t, UpRejected)
  | Some orr =>
      let qkc_id := or_qkc_id orr in
      let key := dk_id dkms in
      if match tp_dkms_by_qkc t !! qkc_id with Some other => negb (String.eqb other key) | None => false end
      then (t, UpRejected)
      else
        let changed := negb (bool_decide (tp_dkms t !! key = Some dkms)) in
        let old_qkc := d ← tp_dkms t !! key; o ← tp_orrs t !! dk_orr_id d; Some (or_qkc_id o) in
        let drop_old := match old_qkc with
          | Some old => if String.eqb old qkc_id then id else unlink_if old key
          | None => id end in
        (set_dkms <[key := dkms]> (fun m => <[qkc_id := key]> (drop_old m)) t, from_changed changed)
  end.

Definition sae_count_for (t : Topology) (dkms_id : string) : Z :=
  Z.of_nat (size (filter (fun kv : string * Sae => sa_dkms_id kv.2 = dkms_id) (tp_saes t))).

Definition upsert_sae (t : Topology) (sae : Sae) : Topology * bool :=
  if negb (bool_decide (is_Some (tp_dkms t !! sa_dkms_id sae))) then (t, false)
  else if negb (bool_decide (is_Some (tp_saes t !! sa_id sae))) &&
          (MAX_SAES_PER_DKMS <=? sae_count_for t (sa_dkms_id sae)) then (t, false)
  else
    let changed := negb (bool_decide (tp_saes t !! sa_id sae = Some sae)) in
    (set_saes <[sa_id sae := sae]> t, changed).

(** ** Edges from declarations *)

Record QkcAnnounceOutcome := mkOutcome {
  oc_qkc_id : string; oc_changed : bool; oc_added : list string; oc_pending : list string;
  oc_conflict : list string; oc_removed : list string; oc_peers : list QkcPeer }.
Definition new_outcome (id : string) : QkcAnnounceOutcome := mkOutcome id false [] [] [] [] [].
Definition push_added n o := mkOutcome (oc_qkc_id o) (oc_changed o) (oc_added o ++ [n]) (oc_pending o)
  (oc_conflict o) (oc_removed o) (oc_peers o).
Definition push_pending n o := mkOutcome (oc_qkc_id o) (oc_changed o) (oc_added o) (oc_pending o ++ [n])
  (oc_conflict o) (oc_removed o) (oc_peers o).
Definition push_conflict n o := mkOutcome (oc_qkc_id o) (oc_changed o) (oc_added o) (oc_pending o)
  (oc_conflict o ++ [n]) (oc_removed o) (oc_peers o).
Definition push_removed n o := mkOutcome (oc_qkc_id o) (oc_changed o) (oc_added o) (oc_pending o)
  (oc_conflict o) (oc_removed o ++ [n]) (oc_peers o).
Definition set_changed c o := mkOutcome (oc_qkc_id o) c (oc_added o) (oc_pending o)
  (oc_conflict o) (oc_removed o) (oc_peers o).
Definition set_peers p o := mkOutcome (oc_qkc_id o) (oc_changed o) (oc_added o) (oc_pending o)
  (oc_conflict o) (oc_removed o) p.

Definition adjacent (t : Topology) (a b : string) : bool :=
  match tp_graph t !! a with Some adj => bool_decide (b ∈ adj) | None => false end.

Definition drop_edge (t : Topology) (me other : string) (out : QkcAnnounceOutcome)
  : Topology * QkcAnnounceOutcome * bool :=
  let had_meta := bool_decide (is_Some (tp_edges t !! edge_key me other)) in
  let had_me := adjacent t me other in
  let had_other := adjacent t other me in
  let t := set_graph (adj_remove other me) (set_graph (adj_remove me other)
             (set_edges (delete (edge_key me other)) t)) in
  if had_meta || had_me || had_other then (t, push_removed other out, true) else (t, out, false).

(** The end of [recompute_edge]: the metadata is decided, put the edge in. *)
Definition place_edge (t : Topology) (me other : string) (meta : EdgeMeta) (out : QkcAnnounceOutcome)
  : Topology * QkcAnnounceOutcome * bool :=
  let key := edge_key me other in
  let meta := match tp_edges t !! key with
    | Some existing => em_with_measured meta (em_measured existing)
    | None => meta end in
  if negb (bool_decide (is_Some (tp_qkcs t !! me))) || negb (bool_decide (is_Some (tp_qkcs t !! other)))
  then (t, push_pending other out, false)
  else
    let was_there := adjacent t me other in
    let t := set_graph (fun g => adj_insert other me (adj_insert me other g)) t in
    let out := if was_there then out else push_added other out in
    if match tp_edges t !! key with Some e => em_eqb e meta | None => false end
    then (t, out, negb was_there)
    else (set_edges <[key := meta]> t, out, true).

Definition recompute_edge (t : Topology) (me other : string) (out : QkcAnnounceOutcome)
  : Topology * QkcAnnounceOutcome * bool :=
  let from_me := tp_declared t !! me ≫= (.!! other) in
  let from_other := tp_declared t !! other ≫= (.!! me) in
  match from_me, from_other with
  | None, None => drop_edge t me other out
  | Some m, None | None, Some m => place_edge t me other m out
  | Some mine, Some theirs =>
      if em_eqb mine theirs then place_edge t me other mine out
      else
        let out := push_conflict other out in
        match tp_edges t !! edge_key me other with
        | Some _ => (t, out, false)
        | None => place_edge t me other mine out
        end
  end.

Fixpoint recompute_all (me : string) (others : list string) (st : Topology * QkcAnnounceOutcome * bool)
  : Topology * QkcAnnounceOutcome * bool :=
  match others with
  | [] => st
  | other :: rest =>
      let '(t, out, changed) := st in
      let '(t, out, c) := recompute_edge t me other out in
      recompute_all me rest (t, out, changed || c)
  end.

(** The first occurrence of each neighbour, [me] left out. *)
Fixpoint first_seen (me : string) (seen : gset string) (l : list string) : list string :=
  match l with
  | [] => []
  | x :: l =>
      if String.eqb x me || bool_decide (x ∈ seen) then first_seen me seen l
      else x :: first_seen me ({[x]} ∪ seen) l
  end.

Definition apply_declared_links (t : Topology) (qkc_id : string) (links : gmap string EdgeMeta)
    (out : QkcAnnounceOutcome) : Topology * QkcAnnounceOutcome * bool :=
  let prev := default ∅ (tp_declared t !! qkc_id) in
  recompute_all qkc_id (first_seen qkc_id ∅ (sorted_keys prev ++ sorted_keys links))
    (set_declared <[qkc_id := links]> t, out, negb (links_eqb prev links)).

(** The declarers of a link to [qkc_id] that it does not declare itself. *)
Definition pointing_at `{HashOrder} (declared : gmap string (gmap string EdgeMeta)) (qkc_id : string) : list string :=
  let mine := default ∅ (declared !! qkc_id) in
  omap (fun dl : string * gmap string EdgeMeta =>
    if negb (String.eqb dl.1 qkc_id) && bool_decide (is_Some (dl.2 !! qkc_id)) &&
       negb (bool_decide (is_Some (mine !! dl.1))) then Some dl.1 else None) (hash_iter declared).

Definition close_declarations_pointing_at `{HashOrder} (t : Topology) (qkc_id : string) (out : QkcAnnounceOutcome)
  : Topology * QkcAnnounceOutcome * bool :=
  recompute_all qkc_id (pointing_at (tp_declared t) qkc_id) (t, out, false).

Definition set_edge_capacity_kps `{Libm} (t : Topology) (a b : string) (capacity_kps : f64) : Topology * option bool :=
  if flt capacity_kps f_zero then (t, None)
  else
    let key := edge_key a b in
    match tp_edges t !! key with
    | None => (t, None)
    | Some edge =>
        let current := capacity_keys_per_second edge in
        let threshold := fmax (fmul current (f_lit 5 100)) (f_lit 1 2) in
        if flt (fabs (fsub current capacity_kps)) threshold then (t, Some false)
        else
          let edge :=
            if is_pqc edge then em_with_pqc edge capacity_kps
            else match em_measured edge with
              | Some _ => em_with_measured edge (Some capacity_kps)
              | None =>
                  let exp := fdiv (fmul (em_alpha edge) (f_of_Z (em_distance_km edge))) (f_of_Z 10) in
                  em_with_r0 edge (fmul capacity_kps (powf (f_of_Z 10) exp))
              end in
          (set_edges <[key := edge]> t, Some true)
    end.

Definition apply_measured_capacity `{Libm} (t : Topology) (a b : string) (kps : f64) : Topology * bool :=
  if negb (is_finite kps && fle f_zero kps) then (t, false)
  else
    let key := edge_key a b in
    match tp_edges t !! key with
    | None => (t, false)
    | Some edge =>
        if is_pqc edge then (t, false)
        else
          let current := capacity_keys_per_second edge in
          let threshold := fmax (fmul current (f_lit 5 100)) (f_lit 1 2) in
          if flt (fabs (fsub current kps)) threshold then (t, false)
          else (set_edges <[key := em_with_measured edge (Some kps)]> t, true)
    end.
