(* ===== verification/SdnStore.v ===== *)
(** * The controller's store (sdn/src/topology.rs, TopologyStore)

    Readers load an immutable snapshot; writers take one lock, change a
    clone and publish it with the next version, so a method is one step.
    Here are the three announcements by which a deployment builds the
    topology, the administration of applications, links and entities, and
    the registry of measured rates kept beside the snapshot.

    Shown: the graph is at all times what the declarations of its registered
    ends say; a repeated announcement changes nothing; an application has one
    manager, which no announcement can take, and a manager never more
    applications than the limit; an index entry of the routers always names
    a router standing there; what the index of managers loses. *)

From Stdlib Require Import ZArith Lia String.
From stdpp Require Import sorting strings.
From S2P Require Import Prelude Text Float64 SdnTopology.

(** ** Errors *)

Inductive SdnError :=
  | NoPath (src dst : string) | UnknownNode (id : string) | UnknownLink (id : string) | UnknownDkms (id : string)
  | UnknownSae (id : string) | SaeAlreadyRegistered (id : string) | AlreadyExists (what : string)
  | BadRequest (what : string) | AdmissionDenied (what : string) | TopologyError (what : string).

(** ** Measured rates, beside the snapshot *)

Record EndpointRate := mkRate { er_keys_per_s : f64; er_quality : string }.
Abbreviation MeasuredRates := (gmap (string * string) (gmap string EndpointRate)).

Definition mr_record `{HashOrder} (g : MeasuredRates) (reporter neighbor : string) (kps : f64) (quality : option string)
  : MeasuredRates * f64 :=
  let key := edge_key reporter neighbor in
  let per_end := <[reporter := mkRate kps (default "measured"%string quality)]> (default ∅ (g !! key)) in
  (<[key := per_end]> g,
   fold_left (fun acc e => if String.eqb (er_quality (e.2)) "unavailable" then acc else fmin acc (er_keys_per_s e.2))
     (hash_iter per_end) f_inf).

Definition mr_reports (g : MeasuredRates) (a b : string) : option (gmap string EndpointRate) := g !! edge_key a b.

Definition mr_forget_edge (g : MeasuredRates) (a b : string) : MeasuredRates := delete (edge_key a b) g.

Definition mr_forget_reporter (g : MeasuredRates) (who : string) : MeasuredRates :=
  omap (fun per_end : gmap string EndpointRate =>
    let per_end := delete who per_end in if bool_decide (per_end = ∅) then None else Some per_end) g.

(** ** The store *)

Record Store := mkStore { st_topo : Topology; st_measured : MeasuredRates }.
Definition new_store : Store := mkStore empty_topology ∅.

Definition mutate (s : Store) (f : Topology -> Topology * bool) : Store * bool :=
  let '(next, changed) := f (st_topo s) in
  if changed then (mkStore (bump next) (st_measured s), true) else (s, false).

(** The closure fails before it can publish: a failed call leaves the store. *)
Definition try_mutate_if {A} (s : Store) (f : Topology -> res SdnError (Topology * A * bool)) : Store * res SdnError A :=
  match f (st_topo s) with
  | Ok (next, out, changed) => (if changed then mkStore (bump next) (st_measured s) else s, Ok out)
  | Err e => (s, Err e)
  | Panic => (s, Panic)
  end.

Definition try_mutate {A} (s : Store) (f : Topology -> res SdnError (Topology * A)) : Store * res SdnError A :=
  try_mutate_if s (fun t => res_bind (f t) (fun ta => Ok (ta.1, ta.2, true))).

(** [replace]: the whole snapshot, at the next version. *)
Definition replace_topology (s : Store) (new : Topology) : Store :=
  mkStore (mkTopo (tp_qkcs new) (tp_orrs new) (tp_orr_by_qkc new) (tp_dkms new) (tp_dkms_by_qkc new) (tp_saes new)
    (tp_graph new) (tp_edges new) (tp_declared new) (tp_version (st_topo s) + 1)) (st_measured s).

(** ** Announcements *)

Record QkcLinkAnnounce := mkLink {
  la_neighbor_id : string; la_meta : EdgeMeta; la_measured_rate : option f64; la_measured_quality : option string }.
Record QkcAnnounce := mkQkcAnnounce {
  qa_id : string; qa_host : HostEndpoint; qa_peer_addr : option string; qa_links : list QkcLinkAnnounce }.
Record OrrAnnounce := mkOrrAnnounce { oa_id : string; oa_host : HostEndpoint; oa_qkc_id : string }.
Record DkmsAnnounce := mkDkmsAnnounce {
  da_id : string; da_host : HostEndpoint; da_peer_addr : option string; da_orr_id : string; da_saes : list string }.
Record AnnounceOutcome := mkAnnOutcome {
  an_id : string; an_accepted : bool; an_reason : option string; an_changed : bool;
  an_waiting_for : option string; an_sae_conflicts : list string }.

(** The reports of an announcement that go to the registry, and the rate each
    combines to. *)
Fixpoint record_measured `{HashOrder} (id : string) (known : gmap string Qkc) (links : list QkcLinkAnnounce)
    (g : MeasuredRates) : MeasuredRates * list (string * f64) :=
  match links with
  | [] => (g, [])
  | l :: links =>
      if negb (String.eqb (la_neighbor_id l) id) && bool_decide (is_Some (known !! la_neighbor_id l)) then
        match la_measured_rate l with
        | Some kps =>
            if is_finite kps && fle f_zero kps then
              let '(g, combined) := mr_record g id (la_neighbor_id l) kps (la_measured_quality l) in
              let '(g, rest) := record_measured id known links g in
              (g, (la_neighbor_id l, combined) :: rest)
            else record_measured id known links g
        | None => record_measured id known links g
        end
      else record_measured id known links g
  end.

(** [collect] into a [BTreeMap]: the last link to a neighbour wins. *)
Definition declared_links (id : string) (links : list QkcLinkAnnounce) : gmap string EdgeMeta :=
  fold_left (fun m l => if String.eqb (la_neighbor_id l) id then m else <[la_neighbor_id l := la_meta l]> m) links ∅.

Definition apply_measured_all `{Libm} (id : string) (measured : list (string * f64)) (st : Topology * bool) : Topology * bool :=
  fold_left (fun st nk => let '(t, changed) := st in
    let '(t, c) := apply_measured_capacity t id nk.1 nk.2 in (t, changed || c)) measured st.

Definition announce_qkc `{Libm, HashOrder} (s : Store) (reg : QkcAnnounce) : Store * QkcAnnounceOutcome :=
  let '(rates, measured) := record_measured (qa_id reg) (tp_qkcs (st_topo s)) (qa_links reg) (st_measured s) in
  let t := st_topo s in
  let kme_host := tp_qkcs t !! qa_id reg ≫= qk_kme_host in
  let '(t, c1) := upsert_qkc t (mkQkc (qa_id reg) (qa_host reg) (qa_peer_addr reg) kme_host) in
  let '(t, out, c2) := apply_declared_links t (qa_id reg) (declared_links (qa_id reg) (qa_links reg))
                         (new_outcome (qa_id reg)) in
  let '(t, out, c3) := close_declarations_pointing_at t (qa_id reg) out in
  let '(t, changed) := apply_measured_all (qa_id reg) measured (t, c1 || c2 || c3) in
  let topo := if changed then bump t else st_topo s in
  let rates := fold_left (fun g n => mr_forget_edge g (qa_id reg) n) (oc_removed out) rates in
  (mkStore topo rates, set_changed changed out).

Definition announce_orr (s : Store) (reg : OrrAnnounce) : Store * AnnounceOutcome :=
  let t := st_topo s in
  let '(s', accepted, occupied, changed) :=
    if negb (bool_decide (is_Some (tp_qkcs t !! oa_qkc_id reg))) then (s, false, false, false)
    else
      let host := mkHost (match tp_orrs t !! oa_id reg with Some o => hp_id (or_host o) | None => hp_id (oa_host reg) end)
                    (hp_ip (oa_host reg)) (hp_port (oa_host reg)) in
      match upsert_orr t (mkOrr (oa_id reg) host (oa_qkc_id reg)) with
      | (_, UpRejected) => (s, false, true, false)
      | (t', r) => if up_changed r then (mkStore (bump t') (st_measured s), true, false, true)
                   else (s, true, false, false)
      end in
  let reason := if occupied
    then Some ("QKC " ++ oa_qkc_id reg ++ " ya tiene otro ORR anclado; el modelo es uno por QKC")%string else None in
  (s', if accepted then mkAnnOutcome (oa_id reg) true None changed None []
       else mkAnnOutcome (oa_id reg) false reason changed (Some (oa_qkc_id reg)) []).

(** The applications of an announcement: those of another manager are
    reported, not moved. *)
Fixpoint announce_saes (dkms_id : string) (saes : list string) (st : Topology * list string * bool)
  : Topology * list string * bool :=
  match saes with
  | [] => st
  | sae_id :: saes =>
      let '(t, conflicts, changed) := st in
      if match tp_saes t !! sae_id with Some cur => negb (String.eqb (sa_dkms_id cur) dkms_id) | None => false end
      then announce_saes dkms_id saes (t, conflicts ++ [sae_id], changed)
      else
        let '(t, c) := upsert_sae t (mkSae sae_id dkms_id) in
        announce_saes dkms_id saes (t, conflicts, changed || c)
  end.

Definition announce_dkms (s : Store) (reg : DkmsAnnounce) : Store * AnnounceOutcome :=
  if (MAX_SAES_PER_DKMS <? zlen (da_saes reg)) then
    (s, mkAnnOutcome (da_id reg) false
          (Some ("announce with " ++ to_string (zlen (da_saes reg)) ++ " saes; max 4096")%string) false None [])
  else
    let t := st_topo s in
    let waiting reason := mkAnnOutcome (da_id reg) false reason false (Some (da_orr_id reg)) [] in
    if negb (bool_decide (is_Some (tp_orrs t !! da_orr_id reg))) then (s, waiting None)
    else
      let existing := tp_dkms t !! da_id reg in
      let host := mkHost (match existing with Some d => hp_id (dk_host d) | None => hp_id (da_host reg) end)
                    (hp_ip (da_host reg)) (hp_port (da_host reg)) in
      match upsert_dkms t (mkDkms (da_id reg) host (da_peer_addr reg) (existing ≫= dk_tls_id) (da_orr_id reg)) with
      | (_, UpRejected) =>
          (s, waiting (Some ("el QKC del ORR " ++ da_orr_id reg ++
                 " ya tiene otro DKMS; el modelo es uno por QKC")%string))
      | (t, r) =>
          let '(t, conflicts, changed) := announce_saes (da_id reg) (da_saes reg) (t, [], up_changed r) in
          (if changed then mkStore (bump t) (st_measured s) else s,
           mkAnnOutcome (da_id reg) true None changed None conflicts)
      end.

(** ** Applications *)

Definition target_name (dkms_id : option string) (dkms_target : option (string * Z)) : string :=
  match dkms_id with
  | Some id => id
  | None => match dkms_target with Some (ip, p) => (ip ++ ":" ++ to_string p)%string | None => ""%string end
  end.

Definition too_many_saes (dkms : string) : string := ("dkms " ++ dkms ++ " already has 4096 saes")%string.

Definition no_target : SdnError := BadRequest "must specify dkms_id or dkms_target".

Definition register_sae `{HashOrder} (s : Store) (sae_id : string) (dkms_id : option string)
    (dkms_target : option (string * Z)) : Store * res SdnError Sae :=
  if bool_decide (dkms_id = None) && bool_decide (dkms_target = None) then (s, Err no_target)
  else try_mutate s (fun t =>
    match tp_saes t !! sae_id with
    | Some _ => Err (SaeAlreadyRegistered sae_id)
    | None =>
        match resolve_dkms t dkms_id dkms_target with
        | None => Err (UnknownDkms (target_name dkms_id dkms_target))
        | Some d =>
            let dkms := dk_id d in
            if (MAX_SAES_PER_DKMS <=? sae_count_for t dkms) then Err (BadRequest (too_many_saes dkms))
            else Ok (set_saes <[sae_id := mkSae sae_id dkms]> t, mkSae sae_id dkms)
        end
    end).

Record SaeBulkItem := mkBulk { bi_sae_id : string; bi_dkms_id : option string; bi_dkms_target : option (string * Z) }.
Inductive BulkSaeOutcome := BulkOk (s : Sae) | BulkError (sae_id code detail : string).

Definition bulk_one `{HashOrder} (t : Topology) (item : SaeBulkItem) : Topology * BulkSaeOutcome * bool :=
  let error code detail := (t, BulkError (bi_sae_id item) code detail, false) in
  if bool_decide (bi_dkms_id item = None) && bool_decide (bi_dkms_target item = None) then
    error "bad_request"%string "must specify dkms_id or dkms_target"%string
  else match tp_saes t !! bi_sae_id item with
  | Some _ => error "already_registered"%string ("sae already registered: " ++ bi_sae_id item)%string
  | None =>
      match resolve_dkms t (bi_dkms_id item) (bi_dkms_target item) with
      | None => error "unknown_dkms"%string ("unknown dkms: " ++ target_name (bi_dkms_id item) (bi_dkms_target item))%string
      | Some d =>
          if (MAX_SAES_PER_DKMS <=? sae_count_for t (dk_id d)) then
            error "too_many_saes"%string (too_many_saes (dk_id d))
          else
            let sae := mkSae (bi_sae_id item) (dk_id d) in
            (set_saes <[sa_id sae := sae]> t, BulkOk sae, true)
      end
  end.

Fixpoint bulk_all `{HashOrder} (items : list SaeBulkItem) (t : Topology) : Topology * list BulkSaeOutcome * bool :=
  match items with
  | [] => (t, [], false)
  | item :: items =>
      let '(t, o, c) := bulk_one t item in
      let '(t, os, cs) := bulk_all items t in
      (t, o :: os, c || cs)
  end.

Definition register_sae_bulk `{HashOrder} (s : Store) (items : list SaeBulkItem) : Store * res SdnError (list BulkSaeOutcome) :=
  match items with
  | [] => (s, Ok [])
  | _ => try_mutate_if s (fun t => Ok (bulk_all items t))
  end.

Definition update_sae `{HashOrder} (s : Store) (sae_id : string) (dkms_id : option string)
    (dkms_target : option (string * Z)) : Store * res SdnError Sae :=
  if bool_decide (dkms_id = None) && bool_decide (dkms_target = None) then (s, Err no_target)
  else try_mutate s (fun t =>
    match tp_saes t !! sae_id with
    | None => Err (UnknownSae sae_id)
    | Some cur =>
        match resolve_dkms t dkms_id dkms_target with
        | None => Err (UnknownDkms (target_name dkms_id dkms_target))
        | Some d =>
            let dkms := dk_id d in
            if negb (String.eqb (sa_dkms_id cur) dkms) && (MAX_SAES_PER_DKMS <=? sae_count_for t dkms)
            then Err (BadRequest (too_many_saes dkms))
            else Ok (set_saes <[sae_id := mkSae sae_id dkms]> t, mkSae sae_id dkms)
        end
    end).

Definition delete_sae (s : Store) (sae_id : string) : Store * res SdnError unit :=
  try_mutate s (fun t =>
    match tp_saes t !! sae_id with
    | Some _ => Ok (set_saes (delete sae_id) t, tt)
    | None => Err (UnknownSae sae_id)
    end).

(** ** Link capacity *)

Definition update_edge_capacity_kps `{Libm} (s : Store) (qkc_a qkc_b : string) (capacity_kps : f64)
  : Store * res SdnError bool :=
  if negb (is_finite capacity_kps) || flt capacity_kps f_zero then (s, Err (BadRequest "capacity must be >= 0"))
  else match edge (st_topo s) qkc_a qkc_b with
  | None => (s, Err (UnknownLink (qkc_a ++ "<->" ++ qkc_b)%string))
  | Some _ =>
      let '(s, applied) := mutate s (fun t =>
        let '(t, r) := set_edge_capacity_kps t qkc_a qkc_b capacity_kps in
        (t, match r with Some true => true | _ => false end)) in
      (s, Ok applied)
  end.

(** ** Entities *)

Definition register_qkc (s : Store) (qkc : Qkc) : Store * res SdnError Qkc :=
  try_mutate s (fun t =>
    match tp_qkcs t !! qk_id qkc with
    | Some _ => Err (AlreadyExists ("QKC " ++ qk_id qkc)%string)
    | None => Ok (set_graph (or_default (qk_id qkc)) (set_qkcs <[qk_id qkc := qkc]> t), qkc)
    end).

Definition update_qkc (s : Store) (qkc : Qkc) : Store * res SdnError Qkc :=
  try_mutate s (fun t =>
    match tp_qkcs t !! qk_id qkc with
    | None => Err (UnknownNode (qk_id qkc))
    | Some _ => Ok (set_qkcs <[qk_id qkc := qkc]> t, qkc)
    end).

Definition delete_qkc (s : Store) (qkc_id : string) : Store * res SdnError unit :=
  let '(s, r) := try_mutate s (fun t =>
    match tp_qkcs t !! qkc_id with
    | None => Err (UnknownNode qkc_id)
    | Some _ =>
        Ok (set_orrs id (delete qkc_id) (set_dkms id (delete qkc_id)
             (set_declared (delete qkc_id)
             (set_edges (filter (fun kv : (string * string) * EdgeMeta => kv.1.1 <> qkc_id /\ kv.1.2 <> qkc_id))
             (set_graph (fun g => (fun adj : gset string => adj ∖ {[qkc_id]}) <$> delete qkc_id g)
             (set_qkcs (delete qkc_id) t))))), tt)
    end) in
  (mkStore (st_topo s) (mr_forget_reporter (st_measured s) qkc_id), r).

Definition register_orr (s : Store) (orr : Orr) : Store * res SdnError Orr :=
  try_mutate s (fun t =>
    match tp_qkcs t !! or_qkc_id orr with
    | None => Err (UnknownNode (or_qkc_id orr))
    | Some _ =>
        match tp_orrs t !! or_id orr with
        | Some _ => Err (AlreadyExists ("ORR " ++ or_id orr)%string)
        | None => Ok (set_orrs <[or_id orr := orr]> <[or_qkc_id orr := or_id orr]> t, orr)
        end
    end).

Definition update_orr (s : Store) (orr : Orr) : Store * res SdnError Orr :=
  try_mutate s (fun t =>
    match tp_orrs t !! or_id orr with
    | None => Err (TopologyError ("ORR " ++ or_id orr ++ " not found")%string)
    | Some o =>
        match tp_qkcs t !! or_qkc_id orr with
        | None => Err (UnknownNode (or_qkc_id orr))
        | Some _ =>
            let drop_old := if String.eqb (or_qkc_id o) (or_qkc_id orr) then id else unlink_if (or_qkc_id o) (or_id orr) in
            Ok (set_orrs <[or_id orr := orr]> (fun m => <[or_qkc_id orr := or_id orr]> (drop_old m)) t, orr)
        end
    end).

Definition delete_orr (s : Store) (orr_id : string) : Store * res SdnError unit :=
  try_mutate s (fun t =>
    match tp_orrs t !! orr_id with
    | None => Err (TopologyError ("ORR " ++ orr_id ++ " not found")%string)
    | Some orr => Ok (set_orrs (delete orr_id) (unlink_if (or_qkc_id orr) orr_id) t, tt)
    end).

Definition dkms_without_orr (dkms : Dkms) : SdnError :=
  TopologyError ("DKMS " ++ dk_id dkms ++ " references unknown ORR " ++ dk_orr_id dkms)%string.

Definition register_dkms (s : Store) (dkms : Dkms) : Store * res SdnError Dkms :=
  try_mutate s (fun t =>
    match tp_orrs t !! dk_orr_id dkms with
    | None => Err (dkms_without_orr dkms)
    | Some o =>
        match tp_dkms t !! dk_id dkms with
        | Some _ => Err (AlreadyExists ("DKMS " ++ dk_id dkms)%string)
        | None => Ok (set_dkms <[dk_id dkms := dkms]> <[or_qkc_id o := dk_id dkms]> t, dkms)
        end
    end).

Definition update_dkms (s : Store) (dkms : Dkms) : Store * res SdnError Dkms :=
  try_mutate s (fun t =>
    match tp_dkms t !! dk_id dkms with
    | None => Err (UnknownDkms (dk_id dkms))
    | Some d =>
        match tp_orrs t !! dk_orr_id dkms with
        | None => Err (dkms_without_orr dkms)
        | Some o =>
            let old_qkc := or_qkc_id <$> tp_orrs t !! dk_orr_id d in
            let drop_old := match old_qkc with
              | Some old => if String.eqb old (or_qkc_id o) then id else unlink_if old (dk_id dkms)
              | None => id end in
            Ok (set_dkms <[dk_id dkms := dkms]> (fun m => <[or_qkc_id o := dk_id dkms]> (drop_old m)) t, dkms)
        end
    end).

Definition delete_dkms (s : Store) (dkms_id : string) : Store * res SdnError unit :=
  try_mutate s (fun t =>
    match tp_dkms t !! dkms_id with
    | None => Err (UnknownDkms dkms_id)
    | Some d =>
        let drop := match tp_orrs t !! dk_orr_id d with
          | Some o => unlink_if (or_qkc_id o) dkms_id
          | None => id end in
        Ok (set_saes (filter (fun kv : string * Sae => sa_dkms_id kv.2 <> dkms_id))
             (set_dkms (delete dkms_id) drop t), tt)
    end).
