(* ===== verification/SdnGraph.v ===== *)
(** * The graph is what the QKCs declare (sdn/src/topology.rs)

    The invariant of the controller's graph and its preservation by every
    step of a running controller: the announcements, the administration of
    applications and links, and the sweeper's removals. *)

From Stdlib Require Import ZArith Lia String.
From stdpp Require Import sorting strings.
From S2P Require Import Prelude Text Float64 SdnTopology SdnStore.

Create HintDb sdn.

(** ** Edge keys *)

Lemma edge_key_sym a b : edge_key a b = edge_key b a.
Proof.
  unfold edge_key. destruct (String.leb a b) eqn:Hab, (String.leb b a) eqn:Hba; try done.
  - by rewrite (String.leb_antisym _ _ Hab Hba).
  - destruct (String.leb_total a b); congruence.
Qed.

Lemma edge_key_cases a b : edge_key a b = (a, b) \/ edge_key a b = (b, a).
Proof. unfold edge_key. destruct (String.leb a b); auto. Qed.

Lemma edge_key_inj a b c d : edge_key a b = edge_key c d -> (a = c /\ b = d) \/ (a = d /\ b = c).
Proof. destruct (edge_key_cases a b) as [-> | ->], (edge_key_cases c d) as [-> | ->]; intros [=]; subst; auto. Qed.

Lemma edge_key_idem a b : edge_key (edge_key a b).1 (edge_key a b).2 = edge_key a b.
Proof. destruct (edge_key_cases a b) as [E | E]; rewrite E; cbn [fst snd]; [done|]. by rewrite edge_key_sym. Qed.

(** ** Reading the snapshot *)

Definition registered (t : Topology) (a : string) : Prop := is_Some (tp_qkcs t !! a).
Definition declares (t : Topology) (a b : string) : Prop := is_Some (tp_declared t !! a ≫= (.!! b)).
Definition linked (t : Topology) (a b : string) : Prop := b ∈ default ∅ (tp_graph t !! a).
(** The edge the declarations ask for. *)
Definition expected (t : Topology) (a b : string) : Prop :=
  registered t a /\ registered t b /\ (declares t a b \/ declares t b a).
Definition same_pair (a b x y : string) : Prop := (x = a /\ y = b) \/ (x = b /\ y = a).

Lemma adjacent_linked t a b : adjacent t a b = true <-> linked t a b.
Proof. unfold adjacent, linked. destruct (tp_graph t !! a); cbn; [by rewrite bool_decide_eq_true|set_solver]. Qed.

(** The adjacency, its metadata and the registered nodes agree. *)
Record sync (t : Topology) : Prop := mkSync {
  sy_nodes : dom (tp_graph t) = dom (tp_qkcs t);
  sy_irrefl : forall a, ~ linked t a a;
  sy_sym : forall a b, linked t a b -> linked t b a;
  sy_edge : forall a b, linked t a b <-> is_Some (edge t a b);
  sy_key : forall k, is_Some (tp_edges t !! k) -> edge_key k.1 k.2 = k }.

Record graph_ok (t : Topology) : Prop := mkGraphOk {
  go_sync : sync t;
  go_declarer : forall a, is_Some (tp_declared t !! a) -> registered t a;
  go_self : forall a, ~ declares t a a;
  go_edges : forall a b, linked t a b <-> expected t a b }.

Lemma expected_sym t a b : expected t a b <-> expected t b a.
Proof. unfold expected. tauto. Qed.

Lemma linked_registered t a b : sync t -> linked t a b -> registered t a /\ registered t b.
Proof.
  intros [Hn _ Hs _ _] Hl.
  assert (Hr : forall x y, linked t x y -> registered t x).
  { unfold linked, registered. intros x y Hxy. apply elem_of_dom. rewrite <- Hn. apply elem_of_dom.
    destruct (tp_graph t !! x); [by eexists|set_solver]. }
  split; eapply Hr; eauto.
Qed.

(** ** One pair at a time *)

(** [t'] differs from [t] at most in the edge between [a] and [b]. *)
Record pair_step (t t' : Topology) (a b : string) : Prop := mkPairStep {
  ps_qkcs : tp_qkcs t' = tp_qkcs t;
  ps_declared : tp_declared t' = tp_declared t;
  ps_nodes : sync t -> dom (tp_graph t') = dom (tp_qkcs t');
  ps_linked : forall x y, ~ same_pair a b x y -> linked t' x y <-> linked t x y;
  ps_edge : forall k, k <> edge_key a b -> tp_edges t' !! k = tp_edges t !! k }.

Lemma pair_step_refl t a b : pair_step t t a b.
Proof. split; [done|done|by intros [Hn _ _ _ _]|done|done]. Qed.

Lemma same_pair_key a b x y : edge_key x y = edge_key a b <-> same_pair a b x y.
Proof.
  split; [intros [[-> ->]|[-> ->]]%edge_key_inj; [by left|by right]|].
  intros [[-> ->]|[-> ->]]; [done|apply edge_key_sym].
Qed.

(** After the step the pair is either wholly in or wholly out. *)
Lemma pair_step_sync t t' a b :
  a <> b -> sync t -> pair_step t t' a b ->
  (linked t' a b /\ linked t' b a /\ is_Some (edge t' a b)) \/
    (~ linked t' a b /\ ~ linked t' b a /\ edge t' a b = None) ->
  sync t'.
Proof.
  intros Hab Hs [Hq Hd Hn Hl He] Hp. destruct (Hs) as [_ Hirr Hsym Hedge Hkey].
  assert (Hpair : forall x y, same_pair a b x y -> (linked t' x y <-> is_Some (edge t' x y)) /\ (linked t' x y -> linked t' y x)).
  { intros x y [[-> ->]|[-> ->]]; unfold edge; rewrite ?(edge_key_sym b a); destruct Hp as [(?&?&?)|(?&?&Hnone)];
      fold (edge t' a b) in *; split; try tauto; split; try tauto; rewrite Hnone; by intros []. }
  assert (Hother : forall x y, ~ same_pair a b x y -> edge t' x y = edge t x y).
  { intros x y Hxy. apply He. by rewrite same_pair_key. }
  assert (Hsd : forall x y, Decision (same_pair a b x y)) by (intros x y; unfold same_pair; apply _).
  split; [by apply Hn| | | |].
  - intros x Hx. apply Hl in Hx; [by apply (Hirr x)|]. unfold same_pair. intros [[-> ->]|[-> ->]]; by apply Hab.
  - intros x y Hxy. destruct (Hsd x y) as [Hp'|Hp']; [by apply (Hpair x y)|].
    apply Hl; [|by apply Hsym, Hl]. unfold same_pair in *. tauto.
  - intros x y. destruct (Hsd x y) as [Hp'|Hp']; [by apply (Hpair x y)|]. by rewrite (Hl _ _ Hp'), (Hother _ _ Hp').
  - intros k Hk. destruct (decide (k = edge_key a b)) as [->|Hne]; [apply edge_key_idem|].
    rewrite He in Hk by done. by apply Hkey.
Qed.

Lemma linked_adj_insert t f a b x y :
  (forall g, f g = adj_insert a b g) -> linked (set_graph f t) x y <-> (x = a /\ y = b) \/ linked t x y.
Proof.
  intros Hf. unfold linked, set_graph, adj_insert. cbn [tp_graph]. rewrite Hf. unfold adj_insert.
  destruct (decide (x = a)) as [->|Hx]; [rewrite lookup_insert_eq; cbn [default]; set_solver|].
  rewrite lookup_insert_ne by done. split; [by right|]. by intros [[-> _]|?].
Qed.

Lemma linked_adj_remove t a b x y :
  linked (set_graph (adj_remove a b) t) x y <-> linked t x y /\ ~ (x = a /\ y = b).
Proof.
  unfold linked, set_graph, adj_remove. cbn [tp_graph].
  destruct (decide (x = a)) as [->|Hx].
  - rewrite lookup_alter_eq. destruct (tp_graph t !! a); cbn; set_solver.
  - rewrite lookup_alter_ne by done. split; [|by intros []]. intros ?; split; [done|]. by intros [-> _].
Qed.

(** ** [recompute_edge] *)

Definition topo_of (r : Topology * QkcAnnounceOutcome * bool) : Topology := r.1.1.

Lemma drop_edge_step t me other out :
  me <> other -> sync t -> let t' := topo_of (drop_edge t me other out) in
  pair_step t t' me other /\ ~ linked t' me other /\ ~ linked t' other me /\ edge t' me other = None.
Proof.
  intros Hne Hs. unfold drop_edge.
  set (t' := set_graph (adj_remove other me) (set_graph (adj_remove me other) (set_edges (delete (edge_key me other)) t))).
  assert (Hl : forall x y, linked t' x y <-> linked t x y /\ ~ same_pair me other x y).
  { intros x y. unfold t'. rewrite !linked_adj_remove. unfold same_pair.
    change (linked (set_edges _ t) x y) with (linked t x y). tauto. }
  assert (Hg : pair_step t t' me other /\ ~ linked t' me other /\ ~ linked t' other me /\ edge t' me other = None).
  { split_and!.
    - split; [done|done| | |].
      + intros [Hn _ _ _ _]. unfold t', set_graph, adj_remove. cbn [tp_graph tp_qkcs set_edges].
        by rewrite !dom_alter_L.
      + intros x y Hp. rewrite Hl. tauto.
      + intros k Hk. unfold t'. cbn [tp_edges set_graph set_edges]. by rewrite lookup_delete_ne.
    - rewrite Hl. unfold same_pair. tauto.
    - rewrite Hl. unfold same_pair. tauto.
    - unfold edge, t'. cbn [tp_edges set_graph set_edges]. by rewrite lookup_delete_eq. }
  destruct (bool_decide _ || _ || _); exact Hg.
Qed.

Lemma place_edge_step t me other meta out :
  me <> other -> sync t -> let t' := topo_of (place_edge t me other meta out) in
  pair_step t t' me other /\
  (registered t me /\ registered t other -> linked t' me other /\ linked t' other me /\ is_Some (edge t' me other)) /\
  (~ (registered t me /\ registered t other) -> t' = t).
Proof.
  intros Hne Hs. unfold place_edge. set (meta' := match tp_edges t !! _ with Some _ => _ | None => _ end).
  destruct (negb _ || negb _) eqn:Hreg.
  { split_and!; [apply pair_step_refl| |done]. intros [H1 H2].
    apply orb_true_iff in Hreg as [Hr|Hr]; apply negb_true_iff, bool_decide_eq_false in Hr; by destruct Hr. }
  apply orb_false_iff in Hreg as [H1 H2].
  apply negb_false_iff, bool_decide_eq_true in H1. apply negb_false_iff, bool_decide_eq_true in H2.
  set (t1 := set_graph (fun g => adj_insert other me (adj_insert me other g)) t).
  assert (Hl : forall x y, linked t1 x y <-> linked t x y \/ same_pair me other x y).
  { intros x y. unfold t1. change (set_graph _ t) with (set_graph (adj_insert other me) (set_graph (adj_insert me other) t)).
    rewrite !linked_adj_insert by done. unfold same_pair. tauto. }
  assert (Hn : sync t -> dom (tp_graph t1) = dom (tp_qkcs t1)).
  { intros [Hd _ _ _ _]. unfold t1, set_graph, adj_insert. cbn [tp_graph tp_qkcs]. rewrite !dom_insert_L.
    apply elem_of_dom in H1, H2. rewrite Hd. set_solver. }
  assert (Hg : forall t', tp_qkcs t' = tp_qkcs t -> tp_declared t' = tp_declared t -> tp_graph t' = tp_graph t1 ->
    (forall k, k <> edge_key me other -> tp_edges t' !! k = tp_edges t !! k) -> is_Some (edge t' me other) ->
    pair_step t t' me other /\
    (registered t me /\ registered t other -> linked t' me other /\ linked t' other me /\ is_Some (edge t' me other)) /\
    (~ (registered t me /\ registered t other) -> t' = t)).
  { intros t' Eq Ed Eg Ee Hi.
    assert (Hl' : forall x y, linked t' x y <-> linked t x y \/ same_pair me other x y)
      by (intros x y; rewrite <- Hl; unfold linked; by rewrite Eg).
    split_and!; [split; [done|done| | |done]| |].
    - intros Hs'. rewrite Eg, Eq. by apply Hn.
    - intros x y Hp. rewrite Hl'. tauto.
    - intros _. rewrite !Hl'. unfold same_pair. tauto.
    - intros []. by split. }
  destruct (match tp_edges t1 !! _ with Some _ => _ | None => _ end) eqn:Hsame; apply Hg; try done.
  - destruct (tp_edges t1 !! edge_key me other) eqn:He; [|done]. unfold edge, topo_of. cbn [fst]. rewrite He. by eexists.
  - intros k Hk. unfold topo_of. cbn [fst tp_edges set_edges t1 set_graph]. by rewrite lookup_insert_ne.
  - unfold edge, topo_of. cbn [fst tp_edges set_edges]. rewrite lookup_insert_eq. by eexists.
Qed.

Lemma recompute_edge_step t me other out :
  me <> other -> sync t -> let t' := topo_of (recompute_edge t me other out) in
  pair_step t t' me other /\ sync t' /\
  (linked t' me other <-> expected t' me other).
Proof.
  intros Hne Hs. unfold recompute_edge.
  assert (Hplace : forall meta out', declares t me other \/ declares t other me ->
    let t' := topo_of (place_edge t me other meta out') in
    pair_step t t' me other /\ sync t' /\ (linked t' me other <-> expected t' me other)).
  { intros meta out' Hdecl. destruct (place_edge_step t me other meta out' Hne Hs) as (Hps & Hin & Hout).
    cbv zeta. set (t' := topo_of _) in *. clearbody t'.
    assert (Hexp : expected t' me other <-> registered t me /\ registered t other).
    { destruct Hps as [Eq Ed _ _ _]. unfold expected, registered, declares in *. rewrite Eq, Ed. tauto. }
    rewrite Hexp. destruct (decide (registered t me /\ registered t other)) as [Hr|Hr].
    - destruct (Hin Hr) as (Hi1 & Hi2 & Hi3). split_and!; [done|eapply pair_step_sync; eauto|tauto].
    - rewrite (Hout Hr). split_and!; [apply pair_step_refl|done|]. split; [|by intros]. by apply linked_registered. }
  assert (Hd : forall a b, tp_declared t !! a ≫= (.!! b) = None -> ~ declares t a b)
    by (intros a b E; unfold declares; rewrite E; by intros []).
  assert (Hd' : forall a b m, tp_declared t !! a ≫= (.!! b) = Some m -> declares t a b)
    by (intros a b m E; unfold declares; rewrite E; by eexists).
  destruct (tp_declared t !! me ≫= (.!! other)) as [mine|] eqn:E1, (tp_declared t !! other ≫= (.!! me)) as [theirs|] eqn:E2.
  - destruct (em_eqb mine theirs); [apply Hplace; eauto|].
    destruct (tp_edges t !! edge_key me other) as [e|] eqn:He; [|apply Hplace; eauto].
    split_and!; [apply pair_step_refl|done|]. unfold topo_of. cbn [fst].
    assert (Hl : linked t me other) by (apply (sy_edge _ Hs); unfold edge; rewrite He; by eexists).
    destruct (linked_registered _ _ _ Hs Hl). unfold expected. split; [|done]. intros _. split_and!; [done|done|]. left. eauto.
  - apply Hplace. eauto.
  - apply Hplace. eauto.
  - destruct (drop_edge_step t me other out Hne Hs) as (Hps & Hl1 & Hl2 & He). set (t' := topo_of _) in *. clearbody t'.
    split_and!; [done|eapply pair_step_sync; eauto|]. split; [done|]. intros (_ & _ & Hdc). exfalso.
    destruct Hps as [_ Ed _ _ _]. unfold declares in *. rewrite Ed in Hdc.
    destruct Hdc as [[? E]|[? E]]; rewrite ?E1, ?E2 in E; done.
Qed.

(** The pairs of [me] with a list of neighbours. *)
Lemma recompute_all_step me others : forall t out c,
  ~ me ∈ others -> sync t -> let t' := topo_of (recompute_all me others (t, out, c)) in
  sync t' /\ tp_qkcs t' = tp_qkcs t /\ tp_declared t' = tp_declared t /\
  (forall x y, (x <> me \/ ~ y ∈ others) -> (y <> me \/ ~ x ∈ others) -> linked t' x y <-> linked t x y) /\
  (forall b, b ∈ others -> linked t' me b <-> expected t' me b).
Proof.
  induction others as [|o others IH]; intros t out c Hme Hs.
  { cbn. split_and!; [done|done|done|done|]. by intros b ?%not_elem_of_nil. }
  apply not_elem_of_cons in Hme as [Hmo Hme]. cbn [recompute_all].
  destruct (recompute_edge_step t me o out Hmo Hs) as (Hps & Hs1 & Hmine).
  destruct (recompute_edge t me o out) as [[t1 out1] c1]. unfold topo_of in Hps, Hs1, Hmine. cbn [fst] in Hps, Hs1, Hmine.
  specialize (IH t1 out1 (c || c1) Hme Hs1). cbn [topo_of] in *.
  set (t' := topo_of (recompute_all me others (t1, out1, c || c1))) in *. clearbody t'.
  destruct IH as (Hs' & Eq & Ed & Hl & Hall). pose proof Hps as [Eq1 Ed1 _ Hl1 _]. split_and!.
  - done.
  - congruence.
  - congruence.
  - intros x y Hx Hy. rewrite Hl, Hl1; [done| | |].
    + unfold same_pair. rewrite !elem_of_cons in *. intros [[-> ->]|[-> ->]]; tauto.
    + rewrite elem_of_cons in *. tauto.
    + rewrite elem_of_cons in *. tauto.
  - intros b Hb. destruct (decide (b ∈ others)) as [Hin|Hin]; [by apply Hall|].
    apply elem_of_cons in Hb as [->|]; [|done].
    rewrite Hl by auto. rewrite Hmine. unfold expected, registered, declares. by rewrite Eq, Ed.
Qed.

(** ** An announcement *)

Lemma first_seen_spec me l : forall seen x, x ∈ first_seen me seen l <-> x ∈ l /\ x <> me /\ ~ x ∈ seen.
Proof.
  induction l as [|y l IH]; intros seen x; cbn [first_seen]; [split; [by intros ?%not_elem_of_nil|by intros [?%not_elem_of_nil _]]|].
  destruct (String.eqb y me || bool_decide (y ∈ seen)) eqn:Hy.
  - rewrite IH, elem_of_cons. split; [tauto|]. intros ([->|?] & Hx & Hs); [|done].
    apply orb_true_iff in Hy as [?%String.eqb_eq|?%bool_decide_eq_true]; [congruence|done].
  - apply orb_false_iff in Hy as [?%String.eqb_neq ?%bool_decide_eq_false]. rewrite !elem_of_cons, IH.
    split; [|intros ([->|?] & ? & ?); [by left|]].
    + intros [->|(? & ? & Hs)]; [auto|]. split_and!; [auto|done|set_solver].
    + destruct (decide (x = y)) as [->|]; [by left|]. right. split_and!; [done|done|set_solver].
Qed.

Lemma sorted_keys_elem {A} (m : gmap string A) x : x ∈ sorted_keys m <-> is_Some (m !! x).
Proof.
  unfold sorted_keys. rewrite merge_sort_Permutation, list_elem_of_fmap. split.
  - intros ([k v] & -> & Hk). apply elem_of_map_to_list in Hk. cbn. rewrite Hk. by eexists.
  - intros [v Hv]. exists (x, v). split; [done|]. by apply elem_of_map_to_list.
Qed.

Lemma hash_iter_elem `{HashOrder} {A} (m : gmap string A) k v : (k, v) ∈ hash_iter m <-> m !! k = Some v.
Proof. rewrite hash_iter_perm. apply elem_of_map_to_list. Qed.

Lemma upsert_qkc_sync t q : sync t -> sync (upsert_qkc t q).1.
Proof.
  intros [Hn Hi Hs He Hk]. unfold upsert_qkc. set (key := qk_id q).
  assert (Hl : forall x y, linked (set_qkcs <[key:=q]> (set_graph (or_default key) t)) x y <-> linked t x y).
  { intros x y. unfold linked, or_default. cbn [tp_graph set_qkcs set_graph].
    destruct (tp_graph t !! key) eqn:E; [done|]. destruct (decide (x = key)) as [->|].
    - rewrite lookup_insert_eq, E. cbn. set_solver.
    - by rewrite lookup_insert_ne. }
  split; cbn [fst].
  - cbn [tp_graph tp_qkcs set_qkcs set_graph]. rewrite dom_insert_L, <- Hn. unfold or_default.
    destruct (tp_graph t !! key) eqn:E; [|by rewrite dom_insert_L]. apply elem_of_dom_2 in E. set_solver.
  - intros a. rewrite Hl. apply Hi.
  - intros a b. rewrite !Hl. apply Hs.
  - intros a b. rewrite Hl. apply He.
  - exact Hk.
Qed.

Lemma pointing_at_elem `{HashOrder} declared me x :
  x ∈ pointing_at declared me <->
  x <> me /\ is_Some (declared !! x ≫= (.!! me)) /\ default ∅ (declared !! me) !! x = None.
Proof.
  unfold pointing_at. rewrite list_elem_of_omap. split.
  - intros ([d l] & Hin & Hsome). apply hash_iter_elem in Hin. cbn [fst snd] in Hsome.
    destruct (_ && _ && _) eqn:Hc; [|done]. injection Hsome as ->.
    apply andb_prop in Hc as [[Hc1 Hc2]%andb_prop Hc3].
    apply negb_true_iff, String.eqb_neq in Hc1. apply bool_decide_eq_true in Hc2.
    apply negb_true_iff, bool_decide_eq_false in Hc3. rewrite Hin. split_and!; [done|done|by apply eq_None_not_Some].
  - intros (Hx & Hsx & Hlx). destruct (declared !! x) as [l|] eqn:E; [|by destruct Hsx]. cbn in Hsx.
    exists (x, l). split; [by apply hash_iter_elem|]. cbn [fst snd].
    rewrite (proj2 (String.eqb_neq _ _)) by done. rewrite bool_decide_eq_true_2 by done.
    rewrite bool_decide_eq_false_2 by (rewrite Hlx; by intros []). done.
Qed.

Lemma upsert_qkc_linked t q x y : linked (upsert_qkc t q).1 x y <-> linked t x y.
Proof.
  unfold linked, upsert_qkc, or_default. cbn [tp_graph set_qkcs set_graph fst].
  destruct (tp_graph t !! qk_id q) eqn:E; [done|]. destruct (decide (x = qk_id q)) as [->|].
  - rewrite lookup_insert_eq, E. cbn. set_solver.
  - by rewrite lookup_insert_ne.
Qed.

(** The graph after an announcement of [me]: its pairs as declared, the
    others as they were. *)
Record reannounced (me : string) (q : Qkc) (links : gmap string EdgeMeta) (t t3 : Topology) : Prop := mkReann {
  ra_sync : sync t3;
  ra_qkcs : tp_qkcs t3 = <[me := q]> (tp_qkcs t);
  ra_declared : tp_declared t3 = <[me := links]> (tp_declared t);
  ra_rest : forall x y, x <> me -> y <> me -> linked t3 x y <-> linked t x y;
  ra_mine : forall b, b <> me -> (declares t me b \/ is_Some (links !! b) \/ declares t b me) ->
    linked t3 me b <-> expected t3 me b;
  ra_other : forall b, ~ declares t me b -> links !! b = None -> ~ declares t b me ->
    linked t3 me b <-> linked t me b }.

(** Replacing what [me] declares and recomputing its pairs, then closing what
    the others declare towards it. *)
Lemma announced_step `{HashOrder} t q links out out' :
  sync t -> links !! qk_id q = None ->
  reannounced (qk_id q) q links t (topo_of (close_declarations_pointing_at
    (topo_of (apply_declared_links (upsert_qkc t q).1 (qk_id q) links out)) (qk_id q) out')).
Proof.
  intros Hs Hl0. set (me := qk_id q) in *. set (t1 := (upsert_qkc t q).1).
  unfold apply_declared_links. change (tp_declared t1) with (tp_declared t). set (prev := default ∅ (tp_declared t !! me)).
  set (ours := first_seen me ∅ (sorted_keys prev ++ sorted_keys links)).
  assert (Hours : forall x, x ∈ ours <-> x <> me /\ (declares t me x \/ is_Some (links !! x))).
  { intros x. unfold ours. rewrite first_seen_spec, elem_of_app, !sorted_keys_elem.
    assert (Hp : is_Some (prev !! x) <-> declares t me x)
      by (unfold prev, declares; destruct (tp_declared t !! me); cbn; [done|split; intros [? Hx]; [by rewrite lookup_empty in Hx|done]]).
    rewrite Hp. set_solver. }
  assert (Hs1' : sync (set_declared <[me:=links]> t1)).
  { destruct (upsert_qkc_sync t q Hs). by split. }
  destruct (recompute_all_step me ours (set_declared <[me:=links]> t1) out (negb (links_eqb prev links)))
    as (Hs2 & Eq2 & Ed2 & Hl2 & Ha2); [rewrite Hours; tauto|done|].
  set (t2 := topo_of _) in *. clearbody t2. unfold close_declarations_pointing_at.
  cbn [tp_declared set_declared tp_qkcs] in Ed2, Eq2. change (tp_declared t1) with (tp_declared t) in Ed2.
  set (others := pointing_at _ _).
  assert (Hothers : forall x, x ∈ others <-> x <> me /\ declares t x me /\ links !! x = None).
  { intros x. unfold others. rewrite pointing_at_elem, Ed2, lookup_insert_eq. unfold declares.
    split; intros (Hx & ? & ?); by rewrite lookup_insert_ne in *. }
  destruct (recompute_all_step me others t2 out' false) as (Hs3 & Eq3 & Ed3 & Hl3 & Ha3); [rewrite Hothers; tauto|done|].
  set (t3 := topo_of _) in *. clearbody t3 others ours.
  assert (Hl1 : forall x y, linked (set_declared <[me:=links]> t1) x y <-> linked t x y) by apply upsert_qkc_linked.
  split; [done|by rewrite Eq3, Eq2|by rewrite Ed3, Ed2| | |].
  - intros x y Hx Hy. by rewrite Hl3, Hl2, Hl1 by auto.
  - intros b Hb Hd. destruct (decide (b ∈ others)) as [Ho|Ho]; [by apply Ha3|].
    rewrite Hl3 by auto. rewrite Hothers in Ho. rewrite Ha2.
    + unfold expected, registered, declares. by rewrite Eq3, Ed3.
    + rewrite Hours. split; [done|]. destruct (links !! b) eqn:E; [right; by eexists|]. left.
      destruct Hd as [?|[[? ?]|?]]; [done|done|tauto].
  - intros b H1 H2 H3. rewrite Hl3, Hl2, Hl1; [done|right| |right|].
    + rewrite Hours, H2. intros (_ & [?|[]]); done.
    + destruct (decide (b = me)); [subst|by left]. right. rewrite Hours. tauto.
    + rewrite Hothers. tauto.
    + destruct (decide (b = me)); [subst|by left]. right. rewrite Hothers. tauto.
Qed.

Lemma reannounced_ok me q links t t3 :
  graph_ok t -> links !! me = None -> reannounced me q links t t3 -> graph_ok t3.
Proof.
  intros [Hs Hdec Hself Hedges] Hl0 [Hs3 Hq3 Hd3 Hrest Hmine Hother].
  assert (Hreg : forall x, registered t3 x <-> x = me \/ registered t x).
  { intros x. unfold registered. rewrite Hq3. destruct (decide (x = me)) as [->|]; [rewrite lookup_insert_eq; naive_solver|].
    rewrite lookup_insert_ne by done. naive_solver. }
  assert (Hdm : forall b, declares t3 me b <-> is_Some (links !! b))
    by (intros b; unfold declares; by rewrite Hd3, lookup_insert_eq).
  assert (Hdo : forall a b, a <> me -> declares t3 a b <-> declares t a b)
    by (intros a b Ha; unfold declares; by rewrite Hd3, lookup_insert_ne).
  assert (Hme : ~ declares t3 me me) by (rewrite Hdm, Hl0; by intros []).
  assert (Hlme : forall b, linked t3 me b <-> expected t3 me b).
  { intros b. destruct (decide (b = me)) as [->|Hb].
    { split; [by intros ?%(sy_irrefl _ Hs3)|]. intros (_ & _ & Hd). tauto. }
    destruct (decide (declares t me b \/ is_Some (links !! b) \/ declares t b me)) as [Hd|Hd]; [by apply Hmine|].
    assert (Hlb : ~ is_Some (links !! b)) by tauto.
    assert (Hlb' : links !! b = None) by by apply eq_None_not_Some.
    rewrite Hother, Hedges by tauto. unfold expected. rewrite Hdm, (Hdo b) by done. tauto. }
  split; [done| | |].
  - intros a Ha. rewrite Hd3 in Ha. rewrite Hreg. destruct (decide (a = me)) as [->|]; [by left|].
    rewrite lookup_insert_ne in Ha by done. right. by apply Hdec.
  - intros a. destruct (decide (a = me)) as [->|]; [done|]. rewrite Hdo by done. apply Hself.
  - intros a b. destruct (decide (a = me)) as [->|Ha]; [apply Hlme|].
    destruct (decide (b = me)) as [->|Hb]; [rewrite expected_sym, <- Hlme; split; apply (sy_sym _ Hs3)|].
    rewrite Hrest, Hedges by auto. unfold expected. rewrite !Hdo, !Hreg by done. naive_solver.
Qed.

(** ** The other steps *)

Lemma graph_ok_ext t t' :
  graph_ok t -> tp_qkcs t' = tp_qkcs t -> tp_declared t' = tp_declared t -> tp_graph t' = tp_graph t ->
  (forall k, is_Some (tp_edges t' !! k) <-> is_Some (tp_edges t !! k)) -> graph_ok t'.
Proof.
  intros [[Hn Hi Hs He Hk] Hdec Hself Hedges] Eq Ed Eg Ee.
  assert (Hl : forall a b, linked t' a b <-> linked t a b) by (intros a b; unfold linked; by rewrite Eg).
  split; [split| | |].
  - by rewrite Eg, Eq.
  - intros a. rewrite Hl. apply Hi.
  - intros a b. rewrite !Hl. apply Hs.
  - intros a b. rewrite Hl, He. symmetry. apply Ee.
  - intros k Hs'. apply Hk. by apply Ee.
  - unfold registered. rewrite Eq, Ed. exact Hdec.
  - unfold declares. rewrite Ed. exact Hself.
  - intros a b. rewrite Hl, Hedges. unfold expected, registered, declares. by rewrite Eq, Ed.
Qed.

Lemma graph_ok_same t t' :
  graph_ok t -> tp_qkcs t' = tp_qkcs t -> tp_declared t' = tp_declared t -> tp_graph t' = tp_graph t ->
  tp_edges t' = tp_edges t -> graph_ok t'.
Proof. intros Hg Eq Ed Eg Ee. apply (graph_ok_ext t); try done. by rewrite Ee. Qed.

Lemma graph_ok_edge t k m : graph_ok t -> is_Some (tp_edges t !! k) -> graph_ok (set_edges <[k := m]> t).
Proof.
  intros Hg Hk. apply (graph_ok_ext t); try done. intros j. cbn [tp_edges set_edges].
  destruct (decide (j = k)) as [->|]; [rewrite lookup_insert_eq; naive_solver|by rewrite lookup_insert_ne].
Qed.

Lemma apply_measured_ok `{Libm} t a b kps : graph_ok t -> graph_ok (apply_measured_capacity t a b kps).1.
Proof.
  intros Hg. unfold apply_measured_capacity. destruct (negb _); [done|].
  destruct (tp_edges t !! edge_key a b) as [e|] eqn:E; [|done].
  destruct (is_pqc e); [done|]. destruct (flt _ _); [done|]. apply graph_ok_edge; [done|]. rewrite E. by eexists.
Qed.

Lemma apply_measured_all_ok `{Libm} id l : forall t c, graph_ok t -> graph_ok (apply_measured_all id l (t, c)).1.
Proof.
  induction l as [|[n k] l IH]; intros t c Hg; [done|]. unfold apply_measured_all. cbn [fold_left fst snd].
  pose proof (apply_measured_ok t id n k Hg) as Hg'. destruct (apply_measured_capacity t id n k) as [t' c'].
  apply IH. exact Hg'.
Qed.

Lemma set_capacity_ok `{Libm} t a b kps : graph_ok t -> graph_ok (set_edge_capacity_kps t a b kps).1.
Proof.
  intros Hg. unfold set_edge_capacity_kps. destruct (flt kps f_zero); [done|].
  destruct (tp_edges t !! edge_key a b) as [e|] eqn:E; [|done].
  destruct (flt _ _); [done|]. apply graph_ok_edge; [done|]. rewrite E. by eexists.
Qed.

Definition without (q : string) (t : Topology) : Topology :=
  set_declared (delete q)
    (set_edges (filter (fun kv : (string * string) * EdgeMeta => kv.1.1 <> q /\ kv.1.2 <> q))
    (set_graph (fun g => (fun adj : gset string => adj ∖ {[q]}) <$> delete q g) (set_qkcs (delete q) t))).

Lemma without_ok q t : graph_ok t -> graph_ok (without q t).
Proof.
  intros [[Hn Hi Hs He Hk] Hdec Hself Hedges].
  assert (Hl : forall a b, linked (without q t) a b <-> linked t a b /\ a <> q /\ b <> q).
  { intros a b. unfold linked, without. cbn [tp_graph set_declared set_edges set_graph set_qkcs].
    rewrite lookup_fmap. destruct (decide (a = q)) as [->|Ha]; [rewrite lookup_delete_eq; cbn; set_solver|].
    rewrite lookup_delete_ne by done. destruct (tp_graph t !! a); cbn; set_solver. }
  assert (Hed : forall k m, tp_edges (without q t) !! k = Some m <-> tp_edges t !! k = Some m /\ k.1 <> q /\ k.2 <> q).
  { intros k m. unfold without. cbn [tp_edges set_declared set_edges set_graph set_qkcs]. by rewrite map_lookup_filter_Some. }
  assert (Hee : forall a b, is_Some (edge (without q t) a b) <-> is_Some (edge t a b) /\ a <> q /\ b <> q).
  { intros a b. unfold edge. assert (Hc : ((edge_key a b).1 <> q /\ (edge_key a b).2 <> q) <-> (a <> q /\ b <> q))
      by (destruct (edge_key_cases a b) as [-> | ->]; cbn [fst snd]; tauto).
    split; [intros [m Hm]|intros [[m Hm] Hq]].
    - apply Hed in Hm as (Hm & Hq). rewrite Hc in Hq. split; [by eexists|done].
    - exists m. apply Hed. by rewrite Hc. }
  assert (Hr : forall a, registered (without q t) a <-> registered t a /\ a <> q).
  { intros a. unfold registered, without. cbn [tp_qkcs set_declared set_edges set_graph set_qkcs].
    destruct (decide (a = q)) as [->|]; [rewrite lookup_delete_eq; split; [by intros []|tauto]|rewrite lookup_delete_ne by done; tauto]. }
  assert (Hd : forall a b, declares (without q t) a b <-> declares t a b /\ a <> q).
  { intros a b. unfold declares, without. cbn [tp_declared set_declared set_edges set_graph set_qkcs].
    destruct (decide (a = q)) as [->|]; [rewrite lookup_delete_eq; cbn; split; [by intros []|tauto]|rewrite lookup_delete_ne by done; tauto]. }
  split; [split| | |].
  - unfold without. cbn [tp_graph tp_qkcs set_declared set_edges set_graph set_qkcs]. by rewrite dom_fmap_L, !dom_delete_L, Hn.
  - intros a. rewrite Hl. intros [? _]. by apply (Hi a).
  - intros a b. rewrite !Hl. intros (? & ? & ?). split_and!; auto.
  - intros a b. by rewrite Hl, Hee, He.
  - intros k [m Hm]. apply Hed in Hm as [Hm _]. apply Hk. by eexists.
  - intros a. cbn [tp_declared without set_declared set_edges set_graph set_qkcs].
    destruct (decide (a = q)) as [->|]; [rewrite lookup_delete_eq; by intros []|rewrite lookup_delete_ne by done].
    intros ?. apply Hr. split; [by apply Hdec|done].
  - intros a. rewrite Hd. intros [? _]. by apply (Hself a).
  - intros a b. rewrite Hl, Hedges. unfold expected. rewrite !Hr, !Hd. tauto.
Qed.

(** ** A running controller *)

Inductive SdnOp :=
  | OpQkc (reg : QkcAnnounce) | OpOrr (reg : OrrAnnounce) | OpDkms (reg : DkmsAnnounce)
  | OpRegisterSae (sae_id : string) (dkms_id : option string) (target : option (string * Z))
  | OpBulkSae (items : list SaeBulkItem)
  | OpUpdateSae (sae_id : string) (dkms_id : option string) (target : option (string * Z))
  | OpDeleteSae (sae_id : string)
  | OpCapacity (a b : string) (kps : f64)
  | OpExpireQkc (id : string) | OpExpireOrr (id : string) | OpExpireDkms (id : string).

Definition sdn_step `{Libm, HashOrder} (s : Store) (op : SdnOp) : Store :=
  match op with
  | OpQkc reg => (announce_qkc s reg).1
  | OpOrr reg => (announce_orr s reg).1
  | OpDkms reg => (announce_dkms s reg).1
  | OpRegisterSae id d tg => (register_sae s id d tg).1
  | OpBulkSae items => (register_sae_bulk s items).1
  | OpUpdateSae id d tg => (update_sae s id d tg).1
  | OpDeleteSae id => (delete_sae s id).1
  | OpCapacity a b kps => (update_edge_capacity_kps s a b kps).1
  | OpExpireQkc id => (delete_qkc s id).1
  | OpExpireOrr id => (delete_orr s id).1
  | OpExpireDkms id => (delete_dkms s id).1
  end.
Definition sdn_run `{Libm, HashOrder} (ops : list SdnOp) : Store := fold_left sdn_step ops new_store.

(** An invariant of the snapshot that the version does not touch is one of
    [mutate] and [try_mutate] when the closure keeps it. *)
Lemma try_mutate_keeps {A} (P : Topology -> Prop) s (f : Topology -> res SdnError (Topology * A)) :
  (forall t, P t -> P (bump t)) -> P (st_topo s) ->
  (forall t a, f (st_topo s) = Ok (t, a) -> P t) -> P (st_topo (try_mutate s f).1).
Proof.
  intros Hb Hs Hf. unfold try_mutate, try_mutate_if.
  destruct (f (st_topo s)) as [[t a]|e|] eqn:E; cbn [res_bind fst snd]; [|done|done].
  cbn [st_topo]. apply Hb. by eapply Hf.
Qed.

Lemma declared_links_self id links : declared_links id links !! id = None.
Proof.
  unfold declared_links. assert (Hg : forall l (m : gmap string EdgeMeta), m !! id = None ->
    fold_left (fun m l => if String.eqb (la_neighbor_id l) id then m else <[la_neighbor_id l := la_meta l]> m) l m !! id = None).
  { induction l as [|l ls IH]; intros m Hm; [done|]. cbn [fold_left]. apply IH.
    destruct (String.eqb (la_neighbor_id l) id) eqn:E; [done|]. apply String.eqb_neq in E. by rewrite lookup_insert_ne. }
  apply Hg. apply lookup_empty.
Qed.

Lemma announce_qkc_graph `{Libm, HashOrder} s reg : graph_ok (st_topo s) -> graph_ok (st_topo (announce_qkc s reg).1).
Proof.
  intros Hg. unfold announce_qkc. destruct (record_measured _ _ _ _) as [rates measured].
  set (q := mkQkc _ _ _ _). set (links := declared_links _ _).
  destruct (upsert_qkc (st_topo s) q) as [t1 c1] eqn:E1.
  destruct (apply_declared_links t1 _ _ _) as [[t2 out2] c2] eqn:E2.
  destruct (close_declarations_pointing_at t2 _ out2) as [[t3 out3] c3] eqn:E3.
  assert (Hg3 : graph_ok t3).
  { pose proof (announced_step (st_topo s) q links (new_outcome (qa_id reg)) out2 (go_sync _ Hg) (declared_links_self _ _)) as Hr.
    rewrite E1 in Hr. cbn [fst] in Hr. change (qk_id q) with (qa_id reg) in Hr.
    fold links in E2. rewrite E2 in Hr. cbn [topo_of fst] in Hr. rewrite E3 in Hr.
    eapply reannounced_ok; [exact Hg| |exact Hr]. apply declared_links_self. }
  pose proof (apply_measured_all_ok (qa_id reg) measured t3 (c1 || c2 || c3) Hg3) as Hg4.
  destruct (apply_measured_all _ _ _) as [t4 changed]. cbn [fst st_topo]. destruct changed; [|done].
  apply (graph_ok_same t4); done.
Qed.

(** The steps on routers, managers and applications leave the network part. *)
Definition net_same (t t' : Topology) : Prop :=
  tp_qkcs t' = tp_qkcs t /\ tp_declared t' = tp_declared t /\ tp_graph t' = tp_graph t /\ tp_edges t' = tp_edges t.

Lemma net_same_refl t : net_same t t.
Proof. done. Qed.
Lemma net_same_trans t1 t2 t3 : net_same t1 t2 -> net_same t2 t3 -> net_same t1 t3.
Proof. unfold net_same. intros (?&?&?&?) (?&?&?&?). split_and!; congruence. Qed.
Lemma net_same_ok t t' : net_same t t' -> graph_ok t -> graph_ok t'.
Proof. intros (?&?&?&?) Hg. by apply (graph_ok_same t). Qed.
#[export] Hint Resolve net_same_refl : sdn.

Lemma upsert_orr_net t o : net_same t (upsert_orr t o).1.
Proof. unfold upsert_orr. destruct (negb _); [done|]. by destruct (match tp_orr_by_qkc t !! or_qkc_id o with Some _ => _ | None => _ end). Qed.
Lemma upsert_dkms_net t d : net_same t (upsert_dkms t d).1.
Proof.
  unfold upsert_dkms. destruct (tp_orrs t !! _) as [o|]; [|done].
  by destruct (match tp_dkms_by_qkc t !! or_qkc_id o with Some _ => _ | None => _ end).
Qed.
Lemma upsert_sae_net t s : net_same t (upsert_sae t s).1.
Proof. unfold upsert_sae. destruct (negb _); [done|]. by destruct (_ && _). Qed.

Lemma announce_saes_net id l : forall t cs c, net_same t (announce_saes id l (t, cs, c)).1.1.
Proof.
  induction l as [|x l IH]; intros t cs c; [done|]. cbn [announce_saes].
  destruct (match tp_saes t !! x with Some _ => _ | None => _ end); [apply IH|].
  pose proof (upsert_sae_net t (mkSae x id)) as Hn. destruct (upsert_sae t (mkSae x id)) as [t' c'].
  eapply net_same_trans; [exact Hn|apply IH].
Qed.

Lemma bulk_all_net `{HashOrder} items : forall t, net_same t (bulk_all items t).1.1.
Proof.
  induction items as [|i items IH]; intros t; [done|]. cbn [bulk_all].
  assert (Hn : net_same t (bulk_one t i).1.1).
  { unfold bulk_one. destruct (_ && _); [done|]. destruct (tp_saes t !! _); [done|].
    destruct (resolve_dkms _ _ _); [|done]. by destruct (_ <=? _). }
  destruct (bulk_one t i) as [[t' o] c]. specialize (IH t'). destruct (bulk_all items t') as [[t'' os] cs].
  eapply net_same_trans; eauto.
Qed.

Lemma announce_orr_net s reg : net_same (st_topo s) (st_topo (announce_orr s reg).1).
Proof.
  unfold announce_orr. destruct (negb _); [done|]. set (o := mkOrr _ _ _).
  pose proof (upsert_orr_net (st_topo s) o) as Hn. by destruct (upsert_orr (st_topo s) o) as [t' []].
Qed.

Lemma announce_dkms_net s reg : net_same (st_topo s) (st_topo (announce_dkms s reg).1).
Proof.
  unfold announce_dkms. destruct (_ <? _); [done|]. destruct (negb _); [done|]. set (d := mkDkms _ _ _ _ _).
  pose proof (upsert_dkms_net (st_topo s) d) as Hn.
  destruct (upsert_dkms (st_topo s) d) as [t' []]; [done| |];
    (set (r := announce_saes _ _ _); assert (Ha : net_same t' r.1.1) by apply announce_saes_net;
     clearbody r; destruct r as [[t'' cs] []]; [exact (net_same_trans _ _ _ Hn Ha)|done]).
Qed.

Lemma try_mutate_net {A} s (f : Topology -> res SdnError (Topology * A)) :
  (forall t a, f (st_topo s) = Ok (t, a) -> net_same (st_topo s) t) -> net_same (st_topo s) (st_topo (try_mutate s f).1).
Proof. intros Hf. by apply (try_mutate_keeps (net_same (st_topo s))). Qed.

Lemma register_sae_bulk_net `{HashOrder} s items : net_same (st_topo s) (st_topo (register_sae_bulk s items).1).
Proof.
  unfold register_sae_bulk. destruct items as [|i items]; [done|]. unfold try_mutate_if.
  pose proof (bulk_all_net (i :: items) (st_topo s)) as Hn. by destruct (bulk_all _ _) as [[t o] []].
Qed.

Lemma sdn_step_graph `{Libm, HashOrder} s op : graph_ok (st_topo s) -> graph_ok (st_topo (sdn_step s op)).
Proof.
  intros Hg. destruct op; cbn [sdn_step].
  - by apply announce_qkc_graph.
  - eapply net_same_ok; [apply announce_orr_net|done].
  - eapply net_same_ok; [apply announce_dkms_net|done].
  - eapply net_same_ok; [|done]. unfold register_sae. destruct (_ && _); [done|]. apply try_mutate_net. intros t a.
    destruct (tp_saes _ !! _); [done|]. destruct (resolve_dkms _ _ _); [|done]. destruct (_ <=? _); [done|]. by intros [=<-<-].
  - eapply net_same_ok; [apply register_sae_bulk_net|done].
  - eapply net_same_ok; [|done]. unfold update_sae. destruct (_ && _); [done|]. apply try_mutate_net. intros t a.
    destruct (tp_saes _ !! _); [|done]. destruct (resolve_dkms _ _ _); [|done]. destruct (_ && _); [done|]. by intros [=<-<-].
  - eapply net_same_ok; [|done]. apply try_mutate_net. intros t a. destruct (tp_saes _ !! _); [|done]. by intros [=<-<-].
  - unfold update_edge_capacity_kps. destruct (_ || _); [done|]. destruct (edge _ _ _); [|done]. unfold mutate.
    pose proof (set_capacity_ok (st_topo s) a b kps Hg) as Hc.
    destruct (set_edge_capacity_kps (st_topo s) a b kps) as [t [[]|]]; try done. by apply (graph_ok_same t).
  - unfold delete_qkc. match goal with |- context [try_mutate s ?f] =>
      assert (Hk : graph_ok (st_topo (try_mutate s f).1)); [|by destruct (try_mutate s f)] end.
    apply try_mutate_keeps; [intros t Ht; by apply (graph_ok_same t)|done|]. intros t a.
    destruct (tp_qkcs (st_topo s) !! id); [|done]. intros [=<-<-].
    apply (graph_ok_same (without id (st_topo s))); [by apply without_ok|done..].
  - eapply net_same_ok; [|done]. apply try_mutate_net. intros t a. destruct (tp_orrs _ !! _); [|done]. by intros [=<-<-].
  - eapply net_same_ok; [|done]. apply try_mutate_net. intros t a. destruct (tp_dkms _ !! _); [|done]. by intros [=<-<-].
Qed.

Lemma graph_ok_empty : graph_ok empty_topology.
Proof.
  assert (Hl : forall a b, ~ linked empty_topology a b) by (intros a b; unfold linked; cbn; set_solver).
  assert (Hn : forall (a : string) A, ~ is_Some ((∅ : gmap string A) !! a)) by (intros a A; rewrite lookup_empty; by intros []).
  split; [split| | |].
  - done.
  - intros a. apply Hl.
  - intros a b []%Hl.
  - intros a b. split; [intros []%Hl|]. unfold edge. cbn [tp_edges empty_topology]. rewrite lookup_empty. by intros [].
  - intros k. cbn [tp_edges empty_topology]. rewrite lookup_empty. by intros [].
  - intros a []%Hn.
  - intros a. unfold declares. cbn [tp_declared empty_topology]. rewrite lookup_empty. by intros [].
  - intros a b. split; [intros []%Hl|]. intros ([]%Hn & _).
Qed.

Lemma sdn_run_inv `{Libm, HashOrder} (P : Topology -> Prop) :
  P empty_topology -> (forall s op, P (st_topo s) -> P (st_topo (sdn_step s op))) -> forall ops, P (st_topo (sdn_run ops)).
Proof.
  intros H1 H2 ops. unfold sdn_run.
  assert (Hg : forall l s, P (st_topo s) -> P (st_topo (fold_left sdn_step l s)))
    by (induction l; intros s Hs; cbn [fold_left]; auto).
  by apply Hg.
Qed.

Lemma sdn_run_graph `{Libm, HashOrder} ops : graph_ok (st_topo (sdn_run ops)).
Proof. apply sdn_run_inv; [apply graph_ok_empty|]. intros s op. apply sdn_step_graph. Qed.

(** C14: after any history of announcements, administration and expiries, two
    QKCs are linked in the controller's graph exactly when both are
    registered and at least one of them declares the link; the adjacency is
    symmetric and an edge has metadata exactly when it is in the graph. *)
Theorem graph_follows_declarations `{Libm, HashOrder} ops a b :
  let t := st_topo (sdn_run ops) in
  (linked t a b <-> registered t a /\ registered t b /\ (declares t a b \/ declares t b a)) /\
  (linked t a b <-> linked t b a) /\ (linked t a b <-> is_Some (edge t a b)) /\
  dom (tp_graph t) = dom (tp_qkcs t).
Proof.
  destruct (sdn_run_graph ops) as [[Hn Hi Hs He Hk] Hdec Hself Hedges]. cbn zeta.
  split_and!; [apply Hedges| |apply He|done]. split; apply Hs.
Qed.
