(* ===== verification/SdnRegistry.v ===== *)
(** * Who is bound to whom (sdn/src/topology.rs)

    The bindings of the controller over its histories: every application has
    a registered manager and no manager more applications than the limit; a
    binding changes only by the calls made for that purpose; an entry of the
    index of routers names a router that stands there.  The index of
    managers is weaker: two theorems show how an entry outlives its manager. *)

From Stdlib Require Import ZArith Lia String.
From stdpp Require Import sorting strings.
From S2P Require Import Prelude Text Float64 SdnTopology SdnStore SdnGraph.

(** ** The invariant *)

Definition saes_of (d : string) (m : gmap string Sae) : gmap string Sae :=
  filter (fun kv : string * Sae => sa_dkms_id kv.2 = d) m.

Record reg_ok (t : Topology) : Prop := mkRegOk {
  ro_sae : forall k s, tp_saes t !! k = Some s -> sa_id s = k /\ is_Some (tp_dkms t !! sa_dkms_id s);
  ro_cap : forall d, sae_count_for t d <= MAX_SAES_PER_DKMS;
  ro_dkms : forall k d, tp_dkms t !! k = Some d -> dk_id d = k;
  ro_orr : forall k o, tp_orrs t !! k = Some o -> or_id o = k;
  ro_index : forall q o, tp_orr_by_qkc t !! q = Some o -> exists x, tp_orrs t !! o = Some x /\ or_qkc_id x = q }.

Lemma count_insert_new d s m k :
  (size (saes_of d (<[k := s]> m)) <= size (saes_of d m) + (if decide (sa_dkms_id s = d) then 1 else 0))%nat.
Proof.
  unfold saes_of. rewrite map_filter_insert. cbn [snd].
  destruct (decide (sa_dkms_id s = d)) as [E|E].
  - rewrite map_size_insert. destruct (filter _ m !! k); cbn; lia.
  - rewrite map_filter_delete, map_size_delete. destruct (filter _ m !! k); cbn; lia.
Qed.

Lemma count_insert_same d s m k s0 :
  m !! k = Some s0 -> sa_dkms_id s0 = sa_dkms_id s ->
  (size (saes_of d (<[k := s]> m)) <= size (saes_of d m))%nat.
Proof.
  intros Hk Hd. unfold saes_of. rewrite map_filter_insert. cbn [snd].
  destruct (decide (sa_dkms_id s = d)) as [E|E].
  - rewrite map_size_insert_Some; [lia|]. exists s0. apply map_lookup_filter_Some. split; [done|]. cbn [snd]. congruence.
  - rewrite map_filter_delete, map_size_delete. destruct (filter _ m !! k); cbn; lia.
Qed.

(** Binding [k] to a registered manager with room, or to the one it has. *)
Lemma bind_ok t k d :
  reg_ok t -> is_Some (tp_dkms t !! d) ->
  (sae_count_for t d < MAX_SAES_PER_DKMS \/ exists s0, tp_saes t !! k = Some s0 /\ sa_dkms_id s0 = d) ->
  reg_ok (set_saes <[k := mkSae k d]> t).
Proof.
  intros [Hs Hc Hd Ho Hi] Hreg Hroom. split; [| |done|done|done]; cbn [tp_saes tp_dkms set_saes].
  - intros j s Hj. destruct (decide (j = k)) as [->|]; [|rewrite lookup_insert_ne in Hj by done; by apply Hs].
    rewrite lookup_insert_eq in Hj. by injection Hj as <-.
  - intros e. unfold sae_count_for. cbn [tp_saes set_saes]. fold (saes_of e (<[k:=mkSae k d]> (tp_saes t))).
    specialize (Hc e) as He. unfold sae_count_for in He, Hroom. fold (saes_of e (tp_saes t)) in He.
    destruct Hroom as [Hroom|(s0 & Hk & Hs0)].
    + fold (saes_of d (tp_saes t)) in Hroom. pose proof (count_insert_new e (mkSae k d) (tp_saes t) k) as Hn.
      cbn [sa_dkms_id] in Hn. destruct (decide (d = e)) as [->|]; lia.
    + pose proof (count_insert_same e (mkSae k d) (tp_saes t) k s0 Hk Hs0). lia.
Qed.

Lemma reg_ok_same t t' :
  reg_ok t -> tp_saes t' = tp_saes t -> tp_dkms t' = tp_dkms t -> tp_orrs t' = tp_orrs t ->
  tp_orr_by_qkc t' = tp_orr_by_qkc t -> reg_ok t'.
Proof. intros [Hs Hc Hd Ho Hi] Es Ed Eo Ei. split; unfold sae_count_for in *; by rewrite ?Es, ?Ed, ?Eo, ?Ei. Qed.

Lemma unlink_lookup q w m k v : unlink_if q w m !! k = Some v -> m !! k = Some v.
Proof.
  unfold unlink_if. destruct (bool_decide _); [|done]. destruct (decide (k = q)) as [->|]; [by rewrite lookup_delete_eq|].
  by rewrite lookup_delete_ne.
Qed.

Lemma upsert_orr_ok t o : reg_ok t -> reg_ok (upsert_orr t o).1.
Proof.
  intros Hr. pose proof Hr as [Hs Hc Hd Ho Hi]. unfold upsert_orr. destruct (negb _); [done|].
  destruct (match tp_orr_by_qkc t !! _ with Some _ => _ | None => _ end) eqn:Hfree; [done|].
  split; cbn [fst tp_saes tp_dkms tp_orrs tp_orr_by_qkc set_orrs]; [done|exact Hc|done| |].
  - intros k x Hk. destruct (decide (k = or_id o)) as [->|]; [rewrite lookup_insert_eq in Hk; congruence|].
    rewrite lookup_insert_ne in Hk by done. by apply Ho.
  - intros q w Hq. destruct (decide (q = or_qkc_id o)) as [->|Hne].
    { rewrite lookup_insert_eq in Hq. injection Hq as <-. exists o. by rewrite lookup_insert_eq. }
    rewrite lookup_insert_ne in Hq by done.
    assert (tp_orr_by_qkc t !! q = Some w /\ w <> or_id o) as [Hw Hwo].
    { destruct (tp_orrs t !! or_id o) as [x|] eqn:Hx.
      - destruct (String.eqb (or_qkc_id x) (or_qkc_id o)) eqn:He.
        + split; [done|]. intros ->. apply Hi in Hq as (y & Hy & <-). apply String.eqb_eq in He. congruence.
        + pose proof (unlink_lookup _ _ _ _ _ Hq) as Hq'. split; [done|]. intros ->.
          destruct (Hi _ _ Hq') as (y & Hy & <-). rewrite Hx in Hy. injection Hy as <-.
          unfold unlink_if in Hq. rewrite bool_decide_eq_true_2 in Hq by done. by rewrite lookup_delete_eq in Hq.
      - split; [done|]. intros ->. destruct (Hi _ _ Hq) as (y & Hy & _). congruence. }
    destruct (Hi _ _ Hw) as (y & Hy & Hyq). exists y. by rewrite lookup_insert_ne.
Qed.

Lemma upsert_dkms_ok t d : reg_ok t -> reg_ok (upsert_dkms t d).1.
Proof.
  intros Hr. pose proof Hr as [Hs Hc Hd Ho Hi]. unfold upsert_dkms. destruct (tp_orrs t !! _) as [o|]; [|done].
  destruct (match tp_dkms_by_qkc t !! _ with Some _ => _ | None => _ end); [done|].
  split; cbn [fst tp_saes tp_dkms tp_orrs tp_orr_by_qkc set_dkms]; [|exact Hc| |done|done].
  - intros k s Hk. apply Hs in Hk as [? Hk]. split; [done|]. rewrite lookup_insert_is_Some. by destruct (decide (dk_id d = sa_dkms_id s)); auto.
  - intros k x Hk. destruct (decide (k = dk_id d)) as [->|]; [rewrite lookup_insert_eq in Hk; congruence|].
    rewrite lookup_insert_ne in Hk by done. by apply Hd.
Qed.

Lemma upsert_dkms_reg t d u : (upsert_dkms t d).2 = u -> u <> UpRejected -> is_Some (tp_dkms (upsert_dkms t d).1 !! dk_id d).
Proof.
  unfold upsert_dkms. destruct (tp_orrs t !! _) as [o|]; [|by intros <-].
  destruct (match tp_dkms_by_qkc t !! _ with Some _ => _ | None => _ end); [by intros <-|].
  intros _ _. cbn [fst tp_dkms set_dkms]. rewrite lookup_insert_eq. by eexists.
Qed.

Lemma upsert_sae_ok t k d :
  reg_ok t -> (forall s, tp_saes t !! k = Some s -> sa_dkms_id s = d) -> reg_ok (upsert_sae t (mkSae k d)).1.
Proof.
  intros Hr Hown. unfold upsert_sae. cbn [sa_id sa_dkms_id].
  destruct (negb (bool_decide (is_Some (tp_dkms t !! d)))) eqn:Hd; [done|].
  apply negb_false_iff, bool_decide_eq_true in Hd.
  destruct (negb _ && _) eqn:Hfull; [done|]. cbn [fst]. apply bind_ok; [done|done|].
  apply andb_false_iff in Hfull as [Hf|Hf].
  - apply negb_false_iff, bool_decide_eq_true in Hf as [s Hk]. right. eauto.
  - b2p. left. lia.
Qed.

Lemma announce_saes_ok d l : forall t cs c,
  reg_ok t -> reg_ok (announce_saes d l (t, cs, c)).1.1.
Proof.
  induction l as [|k l IH]; intros t cs c Hr; [done|]. cbn [announce_saes].
  destruct (match tp_saes t !! k with Some _ => _ | None => _ end) eqn:Hown; [by apply IH|].
  assert (Hu : reg_ok (upsert_sae t (mkSae k d)).1).
  { apply upsert_sae_ok; [done|]. intros s Hk. rewrite Hk in Hown. by apply negb_false_iff, String.eqb_eq in Hown. }
  destruct (upsert_sae t (mkSae k d)) as [t' c']. by apply IH.
Qed.

Lemma resolve_dkms_in `{HashOrder} t id tg d : reg_ok t -> resolve_dkms t id tg = Some d -> is_Some (tp_dkms t !! dk_id d).
Proof.
  intros [Hs Hc Hd Ho Hi]. unfold resolve_dkms. destruct (id ≫= _) as [x|] eqn:E.
  - intros [=->]. apply bind_Some in E as (k & -> & Hk). rewrite (Hd _ _ Hk), Hk. by eexists.
  - destruct tg as [[ip port]|]; [|done]. intros ([k x] & Hx & ->)%fmap_Some.
    apply List.find_some in Hx as [Hx _]. apply list_elem_of_In, hash_iter_elem in Hx. cbn. rewrite (Hd _ _ Hx), Hx. by eexists.
Qed.

(** ** Every step keeps it *)

Lemma bulk_one_ok `{HashOrder} t i : reg_ok t -> reg_ok (bulk_one t i).1.1.
Proof.
  intros Hr. unfold bulk_one. destruct (_ && _); [done|]. destruct (tp_saes t !! _); [done|].
  destruct (resolve_dkms _ _ _) as [d|] eqn:E; [|done]. destruct (_ <=? _) eqn:Hle; [done|]. b2p. cbn [fst].
  apply bind_ok; [done|by eapply resolve_dkms_in|by left; lia].
Qed.

Lemma bulk_all_ok `{HashOrder} items : forall t, reg_ok t -> reg_ok (bulk_all items t).1.1.
Proof.
  induction items as [|i items IH]; intros t Hr; [done|]. cbn [bulk_all]. pose proof (bulk_one_ok t i Hr) as H1.
  destruct (bulk_one t i) as [[t' o] c]. specialize (IH t' H1). by destruct (bulk_all items t') as [[t'' os] cs].
Qed.

Definition reg_same (t t' : Topology) : Prop :=
  tp_saes t' = tp_saes t /\ tp_dkms t' = tp_dkms t /\ tp_orrs t' = tp_orrs t /\ tp_orr_by_qkc t' = tp_orr_by_qkc t.

Lemma reg_same_ok t t' : reg_same t t' -> reg_ok t -> reg_ok t'.
Proof. intros (?&?&?&?) Hr. by apply (reg_ok_same t). Qed.

Lemma recompute_edge_reg t me other out : reg_same t (recompute_edge t me other out).1.1.
Proof.
  assert (Hp : forall m o, reg_same t (place_edge t me other m o).1.1).
  { intros m o. unfold place_edge. destruct (_ || _); [done|].
    by destruct (match tp_edges _ !! _ with Some _ => em_eqb _ _ | None => _ end). }
  unfold recompute_edge. destruct (_ ≫= _) as [mine|], (_ ≫= _) as [theirs|]; try apply Hp.
  - destruct (em_eqb mine theirs); [apply Hp|]. destruct (tp_edges t !! _); [done|apply Hp].
  - unfold drop_edge. by destruct (_ || _ || _).
Qed.

Lemma recompute_all_reg me l : forall t out c, reg_same t (recompute_all me l (t, out, c)).1.1.
Proof.
  induction l as [|o l IH]; intros t out c; [done|]. cbn [recompute_all].
  pose proof (recompute_edge_reg t me o out) as (?&?&?&?). destruct (recompute_edge t me o out) as [[t1 out1] c1].
  destruct (IH t1 out1 (c || c1)) as (?&?&?&?). cbn [fst] in *. unfold reg_same. split_and!; congruence.
Qed.

Lemma apply_measured_all_reg `{Libm} id l : forall t c, reg_same t (apply_measured_all id l (t, c)).1.
Proof.
  induction l as [|[n k] l IH]; intros t c; [done|]. unfold apply_measured_all. cbn [fold_left fst snd].
  assert (Hr : reg_same t (apply_measured_capacity t id n k).1).
  { unfold apply_measured_capacity. destruct (negb _); [done|]. destruct (tp_edges t !! _) as [e|]; [|done].
    destruct (is_pqc e); [done|]. by destruct (flt _ _). }
  destruct (apply_measured_capacity t id n k) as [t' c']. destruct Hr as (?&?&?&?), (IH t' (c || c')) as (?&?&?&?).
  unfold reg_same, apply_measured_all in *. cbn [fst] in *. split_and!; congruence.
Qed.

Lemma announce_qkc_reg `{Libm, HashOrder} s reg : reg_same (st_topo s) (st_topo (announce_qkc s reg).1).
Proof.
  unfold announce_qkc. destruct (record_measured _ _ _ _) as [rates measured].
  destruct (upsert_qkc (st_topo s) _) as [t1 c1] eqn:E1.
  assert (H1 : reg_same (st_topo s) t1) by (injection E1 as <- _; done).
  unfold apply_declared_links. set (out0 := new_outcome _). clearbody out0.
  match goal with |- context [recompute_all ?i ?l (?t, ?o, ?c)] => pose proof (recompute_all_reg i l t o c) as H2 end.
  destruct (recompute_all _ _ _) as [[t2 out2] c2]. unfold close_declarations_pointing_at.
  match goal with |- context [recompute_all ?i ?l (?t, ?o, ?c)] => pose proof (recompute_all_reg i l t o c) as H3 end.
  destruct (recompute_all _ _ _) as [[t3 out3] c3].
  pose proof (apply_measured_all_reg (qa_id reg) measured t3 (c1 || c2 || c3)) as H4.
  destruct (apply_measured_all _ _ _) as [t4 []]; [|done].
  destruct H1 as (?&?&?&?), H2 as (?&?&?&?), H3 as (?&?&?&?), H4 as (?&?&?&?).
  cbn [fst st_topo] in *. unfold reg_same. cbn [tp_saes tp_dkms tp_orrs tp_orr_by_qkc bump set_declared] in *.
  split_and!; congruence.
Qed.

Lemma filter_saes_ok t d (f : gmap string string -> gmap string string) :
  reg_ok t -> reg_ok (set_saes (filter (fun kv : string * Sae => sa_dkms_id kv.2 <> d)) (set_dkms (delete d) f t)).
Proof.
  intros [Hs Hc Hd Ho Hi]. split; cbn [tp_saes tp_dkms tp_orrs tp_orr_by_qkc set_saes set_dkms]; [| | |done|done].
  - intros k s [Hk Hne]%map_lookup_filter_Some. cbn [snd] in Hne. apply Hs in Hk as [? Hk]. split; [done|].
    by rewrite lookup_delete_ne.
  - intros e. unfold sae_count_for. cbn [tp_saes set_saes set_dkms]. specialize (Hc e). unfold sae_count_for in Hc.
    assert (Hle : (size (filter (fun kv : string * Sae => sa_dkms_id kv.2 = e) (filter (fun kv : string * Sae => sa_dkms_id kv.2 <> d) (tp_saes t)))
      <= size (filter (fun kv : string * Sae => sa_dkms_id kv.2 = e) (tp_saes t)))%nat); [|lia].
    apply map_subseteq_size. apply map_filter_subseteq_mono, map_filter_subseteq.
  - intros k x [? Hk]%lookup_delete_Some. by apply Hd.
Qed.

Lemma delete_sae_ok t k : reg_ok t -> reg_ok (set_saes (delete k) t).
Proof.
  intros [Hs Hc Hd Ho Hi]. split; cbn [tp_saes tp_dkms tp_orrs tp_orr_by_qkc set_saes]; [| |done|done|done].
  - intros j s [? Hj]%lookup_delete_Some. by apply Hs.
  - intros e. unfold sae_count_for. cbn [tp_saes set_saes]. specialize (Hc e). unfold sae_count_for in Hc.
    assert (Hle : (size (filter (fun kv : string * Sae => sa_dkms_id kv.2 = e) (delete k (tp_saes t)))
      <= size (filter (fun kv : string * Sae => sa_dkms_id kv.2 = e) (tp_saes t)))%nat); [|lia].
    apply map_subseteq_size, map_filter_subseteq_mono, delete_subseteq.
Qed.

Lemma delete_orr_ok t k o : reg_ok t -> tp_orrs t !! k = Some o ->
  reg_ok (set_orrs (delete k) (unlink_if (or_qkc_id o) k) t).
Proof.
  intros [Hs Hc Hd Ho Hi] Hk. split; cbn [tp_saes tp_dkms tp_orrs tp_orr_by_qkc set_orrs]; [done|exact Hc|done| |].
  - intros j x [? Hj]%lookup_delete_Some. by apply Ho.
  - intros q w Hq. pose proof (unlink_lookup _ _ _ _ _ Hq) as Hq'. destruct (Hi _ _ Hq') as (x & Hx & Hxq).
    destruct (decide (w = k)) as [->|]; [|exists x; by rewrite lookup_delete_ne].
    exfalso. rewrite Hk in Hx. injection Hx as <-. unfold unlink_if in Hq. rewrite Hxq, bool_decide_eq_true_2 in Hq by done.
    by rewrite lookup_delete_eq in Hq.
Qed.

Lemma expire_qkc_ok t q :
  reg_ok t -> reg_ok (set_orrs id (delete q) (set_dkms id (delete q) (without q t))).
Proof.
  intros [Hs Hc Hd Ho Hi]. split; cbn [tp_saes tp_dkms tp_orrs tp_orr_by_qkc set_orrs set_dkms without set_declared set_edges set_graph set_qkcs id];
    [done|exact Hc|done|done|]. intros j w [? Hj]%lookup_delete_Some. by apply Hi.
Qed.

Lemma announce_orr_reg s reg : reg_ok (st_topo s) -> reg_ok (st_topo (announce_orr s reg).1).
Proof.
  intros Hr. unfold announce_orr. destruct (negb _); [done|]. set (o := mkOrr _ _ _).
  pose proof (upsert_orr_ok (st_topo s) o Hr) as Hu. destruct (upsert_orr (st_topo s) o) as [t' []]; [done|done|].
  by apply (reg_ok_same t').
Qed.

Lemma announce_dkms_reg s reg : reg_ok (st_topo s) -> reg_ok (st_topo (announce_dkms s reg).1).
Proof.
  intros Hr. unfold announce_dkms. destruct (_ <? _); [done|]. destruct (negb _); [done|]. set (d := mkDkms _ _ _ _ _).
  pose proof (upsert_dkms_ok (st_topo s) d Hr) as Hu.
  destruct (upsert_dkms (st_topo s) d) as [t' []]; [done| |];
    (set (r := announce_saes _ _ _); assert (Ha : reg_ok r.1.1) by (by apply announce_saes_ok);
     clearbody r; destruct r as [[t'' cs] []]; [by apply (reg_ok_same t'')|done]).
Qed.

Lemma sdn_step_reg `{Libm, HashOrder} s op : reg_ok (st_topo s) -> reg_ok (st_topo (sdn_step s op)).
Proof.
  intros Hr. assert (Hb : forall t, reg_ok t -> reg_ok (bump t)) by (intros t Ht; by apply (reg_ok_same t)).
  destruct op; cbn [sdn_step].
  - eapply reg_same_ok; [apply announce_qkc_reg|done].
  - by apply announce_orr_reg.
  - by apply announce_dkms_reg.
  - unfold register_sae. destruct (_ && _); [done|]. apply (try_mutate_keeps reg_ok); [done|done|]. intros t a.
    destruct (tp_saes _ !! _); [done|]. destruct (resolve_dkms _ _ _) as [d|] eqn:E; [|done].
    destruct (_ <=? _) eqn:Hle; [done|]. intros [=<-<-]. b2p. apply bind_ok; [done|by eapply resolve_dkms_in|left; lia].
  - unfold register_sae_bulk. destruct items as [|i items]; [done|]. unfold try_mutate_if.
    pose proof (bulk_all_ok (i :: items) (st_topo s) Hr) as Hn. destruct (bulk_all _ _) as [[t o] []]; [by apply Hb|done].
  - unfold update_sae. destruct (_ && _); [done|]. apply (try_mutate_keeps reg_ok); [done|done|]. intros t a.
    destruct (tp_saes _ !! _) as [cur|] eqn:Hk; [|done]. destruct (resolve_dkms _ _ _) as [d|] eqn:E; [|done].
    destruct (_ && _) eqn:Hle; [done|]. intros [=<-<-]. apply bind_ok; [done|by eapply resolve_dkms_in|].
    apply andb_false_iff in Hle as [He|He]; [right|left; b2p; lia].
    apply negb_false_iff, String.eqb_eq in He. eauto.
  - apply (try_mutate_keeps reg_ok); [done|done|]. intros t a. destruct (tp_saes _ !! _); [|done]. intros [=<-<-]. by apply delete_sae_ok.
  - unfold update_edge_capacity_kps. destruct (_ || _); [done|]. destruct (edge _ _ _); [|done]. unfold mutate.
    assert (Hc : reg_same (st_topo s) (set_edge_capacity_kps (st_topo s) a b kps).1).
    { unfold set_edge_capacity_kps. destruct (flt _ _); [done|]. destruct (tp_edges _ !! _); [|done]. by destruct (flt _ _). }
    destruct (set_edge_capacity_kps (st_topo s) a b kps) as [t [[]|]]; try done. apply Hb. by eapply reg_same_ok.
  - unfold delete_qkc. match goal with |- context [try_mutate s ?f] =>
      assert (Hk : reg_ok (st_topo (try_mutate s f).1)); [|by destruct (try_mutate s f)] end.
    apply (try_mutate_keeps reg_ok); [done|done|]. intros t a.
    destruct (tp_qkcs (st_topo s) !! id); [|done]. intros [=<-<-]. by apply expire_qkc_ok.
  - apply (try_mutate_keeps reg_ok); [done|done|]. intros t a. destruct (tp_orrs _ !! _) eqn:E; [|done]. intros [=<-<-].
    by apply delete_orr_ok.
  - apply (try_mutate_keeps reg_ok); [done|done|]. intros t a. destruct (tp_dkms _ !! _); [|done]. intros [=<-<-]. by apply filter_saes_ok.
Qed.

Lemma sdn_run_reg `{Libm, HashOrder} ops : reg_ok (st_topo (sdn_run ops)).
Proof.
  apply sdn_run_inv; [|intros s op; apply sdn_step_reg].
  split; cbn [tp_saes tp_dkms tp_orrs tp_orr_by_qkc empty_topology]; try (intros ? ? Hk; by rewrite lookup_empty in Hk).
  intros d. unfold sae_count_for. cbn [tp_saes empty_topology]. rewrite map_filter_empty, map_size_empty. done.
Qed.

(** At all times every application is bound to a registered manager, no
    manager has more than its limit of applications, and an entry of the
    index by which paths of routers are built names a router that is
    registered and anchored at that QKC. *)
Theorem registry_well_formed `{Libm, HashOrder} ops :
  let t := st_topo (sdn_run ops) in
  (forall k s, tp_saes t !! k = Some s -> sa_id s = k /\ is_Some (tp_dkms t !! sa_dkms_id s)) /\
  (forall d, sae_count_for t d <= MAX_SAES_PER_DKMS) /\
  (forall q o, tp_orr_by_qkc t !! q = Some o -> exists x, tp_orrs t !! o = Some x /\ or_id x = o /\ or_qkc_id x = q).
Proof.
  destruct (sdn_run_reg ops) as [Hs Hc Hd Ho Hi]. cbn zeta. split_and!; [done|done|].
  intros q o Hq. destruct (Hi _ _ Hq) as (x & Hx & Hxq). exists x. split_and!; [done|by apply Ho|done].
Qed.

(** ** Who may move a binding *)

Definition moves_binding (op : SdnOp) (k : string) (cur : Sae) : Prop :=
  match op with
  | OpUpdateSae j _ _ | OpDeleteSae j => j = k
  | OpExpireDkms d => d = sa_dkms_id cur
  | _ => False
  end.

Lemma announce_saes_binding d l : forall t cs c k cur,
  tp_saes t !! k = Some cur -> sa_id cur = k ->
  tp_saes (announce_saes d l (t, cs, c)).1.1 !! k = Some cur.
Proof.
  induction l as [|x l IH]; intros t cs c k cur Hk Hid; [done|]. cbn [announce_saes].
  destruct (match tp_saes t !! x with Some _ => _ | None => _ end) eqn:Hown; [by apply IH|].
  assert (Hu : tp_saes (upsert_sae t (mkSae x d)).1 !! k = Some cur).
  { unfold upsert_sae. cbn [sa_id sa_dkms_id]. destruct (negb _); [done|]. destruct (_ && _); [done|]. cbn [fst tp_saes set_saes].
    destruct (decide (k = x)) as [->|]; [|by rewrite lookup_insert_ne]. rewrite lookup_insert_eq.
    rewrite Hk in Hown. apply negb_false_iff, String.eqb_eq in Hown. destruct cur; cbn in *; congruence. }
  destruct (upsert_sae t (mkSae x d)) as [t' c']. by apply IH.
Qed.

Lemma bulk_all_binding `{HashOrder} items : forall t k cur,
  tp_saes t !! k = Some cur -> tp_saes (bulk_all items t).1.1 !! k = Some cur.
Proof.
  induction items as [|i items IH]; intros t k cur Hk; [done|]. cbn [bulk_all].
  assert (H1 : tp_saes (bulk_one t i).1.1 !! k = Some cur).
  { unfold bulk_one. destruct (_ && _); [done|]. destruct (tp_saes t !! bi_sae_id i) eqn:E; [done|].
    destruct (resolve_dkms _ _ _) as [d|]; [|done]. destruct (_ <=? _); [done|]. cbn [fst tp_saes set_saes sa_id].
    rewrite lookup_insert_ne; [done|congruence]. }
  destruct (bulk_one t i) as [[t' o] c]. specialize (IH t' k cur H1). by destruct (bulk_all items t') as [[t'' os] cs].
Qed.

Lemma announce_orr_saes s reg : tp_saes (st_topo (announce_orr s reg).1) = tp_saes (st_topo s).
Proof.
  unfold announce_orr. destruct (negb _); [done|]. set (o := mkOrr _ _ _).
  assert (Hu : tp_saes (upsert_orr (st_topo s) o).1 = tp_saes (st_topo s)).
  { unfold upsert_orr. destruct (negb _); [done|]. by destruct (match tp_orr_by_qkc _ !! _ with Some _ => _ | None => _ end). }
  destruct (upsert_orr (st_topo s) o) as [t' []]; [done|done|exact Hu].
Qed.

Lemma announce_dkms_binding s reg k cur :
  tp_saes (st_topo s) !! k = Some cur -> sa_id cur = k -> tp_saes (st_topo (announce_dkms s reg).1) !! k = Some cur.
Proof.
  intros Hk Hid. unfold announce_dkms. destruct (_ <? _); [done|]. destruct (negb _); [done|]. set (d := mkDkms _ _ _ _ _).
  assert (Hu : tp_saes (upsert_dkms (st_topo s) d).1 = tp_saes (st_topo s)).
  { unfold upsert_dkms. destruct (tp_orrs _ !! _); [|done]. by destruct (match tp_dkms_by_qkc _ !! _ with Some _ => _ | None => _ end). }
  destruct (upsert_dkms (st_topo s) d) as [t' []]; [done| |];
    (set (r := announce_saes _ _ _); assert (Ha : tp_saes r.1.1 !! k = Some cur)
       by (apply announce_saes_binding; cbn [fst] in Hu; by rewrite ?Hu);
     clearbody r; destruct r as [[t'' cs] []]; done).
Qed.

(** C17: the binding of an application changes only by an update or a removal
    of that application, or when its own manager expires; in particular no
    announcement of another manager, and no registration, can take it. *)
Theorem binding_moved_by_its_calls_only `{Libm, HashOrder} ops op k cur :
  tp_saes (st_topo (sdn_run ops)) !! k = Some cur -> ~ moves_binding op k cur ->
  tp_saes (st_topo (sdn_step (sdn_run ops) op)) !! k = Some cur.
Proof.
  intros Hk Hop. pose proof (sdn_run_reg ops) as Hr. destruct (ro_sae _ Hr _ _ Hk) as [Hid _].
  set (s := sdn_run ops) in *. clearbody s.
  assert (Htm : forall A (f : Topology -> res SdnError (Topology * A)),
    (forall t a, f (st_topo s) = Ok (t, a) -> tp_saes t !! k = Some cur) -> tp_saes (st_topo (try_mutate s f).1) !! k = Some cur)
    by (intros A f Hf; by apply (try_mutate_keeps (fun t => tp_saes t !! k = Some cur))).
  destruct op; cbn [sdn_step moves_binding] in *.
  - by destruct (announce_qkc_reg s reg) as (-> & _).
  - by rewrite announce_orr_saes.
  - by apply announce_dkms_binding.
  - unfold register_sae. destruct (_ && _); [done|]. apply Htm. intros t a. destruct (tp_saes _ !! sae_id) eqn:E; [done|].
    destruct (resolve_dkms _ _ _); [|done]. destruct (_ <=? _); [done|]. intros [=<-<-]. cbn [tp_saes set_saes].
    rewrite lookup_insert_ne; [done|congruence].
  - unfold register_sae_bulk. destruct items as [|i items]; [done|]. unfold try_mutate_if.
    pose proof (bulk_all_binding (i :: items) (st_topo s) k cur Hk) as Hn. by destruct (bulk_all _ _) as [[t o] []].
  - unfold update_sae. destruct (_ && _); [done|]. apply Htm. intros t a. destruct (tp_saes _ !! sae_id); [|done].
    destruct (resolve_dkms _ _ _); [|done]. destruct (_ && _); [done|]. intros [=<-<-]. cbn [tp_saes set_saes]. by rewrite lookup_insert_ne.
  - apply Htm. intros t a. destruct (tp_saes _ !! sae_id); [|done]. intros [=<-<-]. cbn [tp_saes set_saes]. by rewrite lookup_delete_ne.
  - unfold update_edge_capacity_kps. destruct (_ || _); [done|]. destruct (edge _ _ _); [|done]. unfold mutate.
    unfold set_edge_capacity_kps. destruct (flt _ _); [done|]. destruct (tp_edges _ !! _); [|done]. by destruct (flt _ _).
  - unfold delete_qkc. match goal with |- context [try_mutate s ?f] =>
      assert (Hq : tp_saes (st_topo (try_mutate s f).1) !! k = Some cur); [|by destruct (try_mutate s f)] end.
    apply Htm. intros t a. destruct (tp_qkcs _ !! id); [|done]. by intros [=<-<-].
  - apply Htm. intros t a. destruct (tp_orrs _ !! _); [|done]. by intros [=<-<-].
  - apply Htm. intros t a. destruct (tp_dkms _ !! _); [|done]. intros [=<-<-]. cbn [tp_saes set_saes set_dkms].
    apply map_lookup_filter_Some. split; [done|]. cbn [snd]. congruence.
Qed.

(** ** What the index of managers keeps *)

Lemma announce_dkms_occupied s reg o d :
  tp_orrs (st_topo s) !! da_orr_id reg = Some o -> tp_dkms_by_qkc (st_topo s) !! or_qkc_id o = Some d -> da_id reg <> d ->
  an_accepted (announce_dkms s reg).2 = false /\ (announce_dkms s reg).1 = s.
Proof.
  intros Ho Hd Hne. unfold announce_dkms. destruct (_ <? _); [done|]. rewrite Ho. rewrite bool_decide_eq_true_2 by by eexists.
  cbn [negb]. unfold upsert_dkms. cbn [dk_orr_id dk_id]. rewrite Ho, Hd.
  by rewrite (proj2 (String.eqb_neq _ _)) by congruence.
Qed.

Lemma announce_orr_placed s reg :
  an_accepted (announce_orr s reg).2 = true ->
  exists o, tp_orrs (st_topo (announce_orr s reg).1) !! oa_id reg = Some o /\ or_qkc_id o = oa_qkc_id reg.
Proof.
  unfold announce_orr. destruct (negb _); [done|]. set (o := mkOrr _ _ _).
  unfold upsert_orr. destruct (negb _); [done|]. destruct (match tp_orr_by_qkc _ !! _ with Some _ => _ | None => _ end); [done|].
  destruct (bool_decide_reflect (tp_orrs (st_topo s) !! or_id o = Some o)) as [E|E]; cbn [negb from_changed up_changed fst snd an_accepted];
    intros _; exists o.
  - split; [exact E|done].
  - cbn [st_topo tp_orrs bump set_orrs]. rewrite lookup_insert_eq. done.
Qed.

Lemma announce_orr_dkms s reg :
  tp_dkms_by_qkc (st_topo (announce_orr s reg).1) = tp_dkms_by_qkc (st_topo s) /\
  tp_dkms (st_topo (announce_orr s reg).1) = tp_dkms (st_topo s).
Proof.
  unfold announce_orr. destruct (negb _); [done|]. set (o := mkOrr _ _ _).
  assert (Hu : tp_dkms_by_qkc (upsert_orr (st_topo s) o).1 = tp_dkms_by_qkc (st_topo s) /\
    tp_dkms (upsert_orr (st_topo s) o).1 = tp_dkms (st_topo s)).
  { unfold upsert_orr. destruct (negb _); [done|]. by destruct (match tp_orr_by_qkc _ !! _ with Some _ => _ | None => _ end). }
  destruct (upsert_orr (st_topo s) o) as [t' []]; [done|done|exact Hu].
Qed.

Lemma announce_saes_index d l : forall t cs c, tp_dkms_by_qkc (announce_saes d l (t, cs, c)).1.1 = tp_dkms_by_qkc t.
Proof.
  induction l as [|k l IH]; intros t cs c; [done|]. cbn [announce_saes].
  destruct (match tp_saes t !! k with Some _ => _ | None => _ end); [apply IH|].
  assert (Hu : tp_dkms_by_qkc (upsert_sae t (mkSae k d)).1 = tp_dkms_by_qkc t)
    by (unfold upsert_sae; destruct (negb _); [done|]; by destruct (_ && _)).
  destruct (upsert_sae t (mkSae k d)) as [t' c']. by rewrite IH.
Qed.

(** When a router and its manager expire and the sweep removes the router
    first, the place of the manager in the index is never freed: no other
    manager is admitted at that QKC, through any router that comes there.
    Removed in the other order, the place is free. *)
Theorem expired_manager_keeps_its_qkc s o x d m :
  tp_orrs (st_topo s) !! o = Some x -> tp_dkms (st_topo s) !! d = Some m -> dk_orr_id m = o ->
  tp_dkms_by_qkc (st_topo s) !! or_qkc_id x = Some d ->
  let s' := (delete_dkms (delete_orr s o).1 d).1 in
  tp_dkms (st_topo s') !! d = None /\
  (forall ra reg, oa_qkc_id ra = or_qkc_id x -> an_accepted (announce_orr s' ra).2 = true ->
     da_orr_id reg = oa_id ra -> da_id reg <> d -> an_accepted (announce_dkms (announce_orr s' ra).1 reg).2 = false) /\
  tp_dkms_by_qkc (st_topo (delete_orr (delete_dkms s d).1 o).1) !! or_qkc_id x = None.
Proof.
  intros Ho Hd Hm Hq. cbn zeta. set (s' := (delete_dkms (delete_orr s o).1 d).1).
  assert (Hs' : tp_dkms (st_topo s') !! d = None /\ tp_dkms_by_qkc (st_topo s') !! or_qkc_id x = Some d).
  { unfold s', delete_dkms, delete_orr, try_mutate, try_mutate_if. rewrite Ho. cbn [res_bind fst snd st_topo].
    cbn [tp_dkms bump set_orrs]. rewrite Hd. cbn [res_bind fst snd st_topo tp_dkms tp_dkms_by_qkc bump set_saes set_dkms set_orrs tp_orrs].
    by rewrite Hm, !lookup_delete_eq. }
  destruct Hs' as [Hs1 Hs2]. clearbody s'. split_and!; [done| |].
  - intros ra reg Hra Hacc Hr Hne. destruct (announce_orr_placed _ _ Hacc) as (y & Hy & Hyq).
    apply (announce_dkms_occupied _ _ y d); [by rewrite Hr| |done]. by rewrite (proj1 (announce_orr_dkms _ _)), Hyq, Hra.
  - unfold delete_dkms, delete_orr, try_mutate, try_mutate_if. rewrite Hd. cbn [res_bind fst snd st_topo].
    cbn [tp_orrs bump set_saes set_dkms]. rewrite Ho. cbn [res_bind fst snd st_topo tp_dkms_by_qkc bump set_orrs set_saes set_dkms].
    rewrite Hm, Ho. unfold unlink_if. by rewrite bool_decide_eq_true_2, lookup_delete_eq.
Qed.

(** A router that moves to another QKC takes its manager with it, and the
    manager keeps the place it had at the old one. *)
Theorem moved_router_keeps_old_place s o x d m ra reg :
  tp_orrs (st_topo s) !! o = Some x -> tp_dkms (st_topo s) !! d = Some m -> dk_orr_id m = o ->
  tp_dkms_by_qkc (st_topo s) !! or_qkc_id x = Some d ->
  oa_id ra = o -> oa_qkc_id ra <> or_qkc_id x -> an_accepted (announce_orr s ra).2 = true ->
  da_id reg = d -> da_orr_id reg = o -> an_accepted (announce_dkms (announce_orr s ra).1 reg).2 = true ->
  tp_dkms_by_qkc (st_topo (announce_dkms (announce_orr s ra).1 reg).1) !! or_qkc_id x = Some d.
Proof.
  intros Ho Hd Hm Hq Era Hne Hacc Eid Eorr Hacc2. destruct (announce_orr_placed _ _ Hacc) as (y & Hy & Hyq).
  destruct (announce_orr_dkms s ra) as [Hix Hdk]. set (s1 := (announce_orr s ra).1) in *. clearbody s1.
  rewrite <- Hix in Hq. rewrite <- Hdk in Hd. rewrite Era in Hy.
  unfold announce_dkms in *. destruct (_ <? _); [done|]. rewrite Eorr, Hy in *. rewrite bool_decide_eq_true_2 in * by by eexists.
  cbn [negb] in *. set (dk := mkDkms _ _ _ _ _) in *.
  assert (Hu : tp_dkms_by_qkc (upsert_dkms (st_topo s1) dk).1 !! or_qkc_id x = Some d).
  { unfold upsert_dkms. cbn [dk_orr_id dk_id dk]. rewrite Hy.
    destruct (match tp_dkms_by_qkc _ !! _ with Some _ => _ | None => _ end); [done|].
    cbn [fst tp_dkms_by_qkc set_dkms]. rewrite lookup_insert_ne by congruence.
    rewrite Eid, Hd. cbn [mbind option_bind]. rewrite Hm, Hy. cbn [mbind option_bind]. by rewrite String.eqb_refl. }
  destruct (upsert_dkms (st_topo s1) dk) as [t' []]; [done| |];
    (set (r := announce_saes _ _ _); assert (Ha : tp_dkms_by_qkc r.1.1 = tp_dkms_by_qkc t') by apply announce_saes_index;
     clearbody r; destruct r as [[t'' cs] []]; cbn [fst] in *; [|done]; cbn [st_topo tp_dkms_by_qkc bump]; by rewrite Ha).
Qed.

(** ** A small deployment *)

Definition map_order : HashOrder := {| hash_iter := fun A m => map_to_list m; hash_iter_perm := fun A m => reflexivity _ |}.
(** No attenuation. *)
Definition flat_libm : Libm := {| powf := fun _ _ => f_of_Z 1 |}.

Definition sample_host (n : Z) : HostEndpoint := mkHost n "10.0.0.1" (20000 + n).
Definition sample_qkc (id : string) (ns : list string) : QkcAnnounce :=
  mkQkcAnnounce id (sample_host 1) (Some "10.0.0.1:7000"%string) (map (fun n => mkLink n default_meta None None) ns).
Definition sample_orr (id qkc : string) : OrrAnnounce := mkOrrAnnounce id (sample_host 2) qkc.
Definition sample_dkms (id orr : string) (saes : list string) : DkmsAnnounce :=
  mkDkmsAnnounce id (sample_host 3) (Some "10.0.0.1:7001"%string) orr saes.
Definition sample_ops : list SdnOp :=
  [OpQkc (sample_qkc "1" ["2"%string]); OpQkc (sample_qkc "2" []); OpQkc (sample_qkc "3" ["2"%string]); OpOrr (sample_orr "o1" "1"); OpOrr (sample_orr "o2" "2");
   OpDkms (sample_dkms "d1" "o1" ["s1"%string]); OpDkms (sample_dkms "d2" "o2" ["s2"%string])].
Definition sample_run : Store := @sdn_run flat_libm map_order sample_ops.

(** The second manager claims the application of the first. *)
Definition sample_claim : SdnOp := OpDkms (sample_dkms "d2" "o2" ["s1"%string; "s2"%string]).

Lemma binding_moved_by_its_calls_only_witness :
  tp_saes (st_topo sample_run) !! "s1"%string = Some (mkSae "s1" "d1") /\
  tp_saes (st_topo (@sdn_step flat_libm map_order sample_run sample_claim)) !! "s1"%string = Some (mkSae "s1" "d1").
Proof.
  assert (Hs : tp_saes (st_topo (@sdn_run flat_libm map_order sample_ops)) !! "s1"%string = Some (mkSae "s1" "d1"))
    by (vm_compute; reflexivity).
  split; [exact Hs|].
  exact (@binding_moved_by_its_calls_only flat_libm map_order sample_ops sample_claim "s1" (mkSae "s1" "d1") Hs (fun F => F)).
Defined.

Definition moved_host : Orr := mkOrr "o1" (sample_host 2) "1".
Definition first_manager : Dkms := mkDkms "d1" (sample_host 3) (Some "10.0.0.1:7001"%string) None "o1".

Lemma expired_manager_keeps_its_qkc_witness :
  let s' := (delete_dkms (delete_orr sample_run "o1").1 "d1").1 in
  an_accepted (announce_orr s' (sample_orr "o9" "1")).2 = true /\
  an_accepted (announce_dkms (announce_orr s' (sample_orr "o9" "1")).1 (sample_dkms "d9" "o9" [])).2 = false.
Proof.
  assert (Ho : tp_orrs (st_topo sample_run) !! "o1"%string = Some moved_host) by (vm_compute; reflexivity).
  assert (Hd : tp_dkms (st_topo sample_run) !! "d1"%string = Some first_manager) by (vm_compute; reflexivity).
  assert (Hq : tp_dkms_by_qkc (st_topo sample_run) !! or_qkc_id moved_host = Some "d1"%string) by (vm_compute; reflexivity).
  destruct (expired_manager_keeps_its_qkc sample_run "o1" moved_host "d1" first_manager Ho Hd eq_refl Hq) as (_ & Hb & _).
  assert (Ha : an_accepted (announce_orr (delete_dkms (delete_orr sample_run "o1").1 "d1").1 (sample_orr "o9" "1")).2 = true)
    by (vm_compute; reflexivity).
  split; [exact Ha|]. apply Hb; [reflexivity|exact Ha|reflexivity|discriminate].
Defined.

Lemma moved_router_keeps_old_place_witness :
  let s1 := (announce_orr sample_run (sample_orr "o1" "3")).1 in
  an_accepted (announce_dkms s1 (sample_dkms "d1" "o1" [])).2 = true /\
  tp_dkms_by_qkc (st_topo (announce_dkms s1 (sample_dkms "d1" "o1" [])).1) !! "1"%string = Some "d1"%string.
Proof.
  assert (Ho : tp_orrs (st_topo sample_run) !! "o1"%string = Some moved_host) by (vm_compute; reflexivity).
  assert (Hd : tp_dkms (st_topo sample_run) !! "d1"%string = Some first_manager) by (vm_compute; reflexivity).
  assert (Hq : tp_dkms_by_qkc (st_topo sample_run) !! or_qkc_id moved_host = Some "d1"%string) by (vm_compute; reflexivity).
  assert (H1 : an_accepted (announce_orr sample_run (sample_orr "o1" "3")).2 = true) by (vm_compute; reflexivity).
  assert (H2 : an_accepted (announce_dkms (announce_orr sample_run (sample_orr "o1" "3")).1 (sample_dkms "d1" "o1" [])).2 = true)
    by (vm_compute; reflexivity).
  split; [exact H2|].
  exact (moved_router_keeps_old_place sample_run "o1" moved_host "d1" first_manager (sample_orr "o1" "3") (sample_dkms "d1" "o1" [])
    Ho Hd eq_refl Hq eq_refl ltac:(discriminate) H1 eq_refl eq_refl H2).
Defined.
