(* ===== verification/SdnHeartbeat.v ===== *)
(** * A repeated announcement changes nothing (sdn/src/topology.rs)

    A QKC, a router or a manager announces itself again and again; the
    announcement is its heartbeat.  Each version bump pushes every forwarding
    table again and runs the allocator, so an announcement that says nothing new
    must leave the snapshot alone.  The theorem is about all three; of a QKC,
    about validated announcements (no NaN, rates in range) whose neighbours are
    distinct; a second theorem shows what two links to one neighbour do. *)

From Stdlib Require Import ZArith Lia String.
From stdpp Require Import sorting strings.
From S2P Require Import Prelude Text Float64 SdnTopology SdnStore SdnGraph SdnRegistry.

(** ** Metadata without NaN *)

Definition clean_meta (m : EdgeMeta) : Prop :=
  is_nan (em_r0 m) = false /\ is_nan (em_alpha m) = false /\ is_nan (em_pqc_capacity m) = false /\ em_measured m = None.

(** A live edge [e] carries what the declaration [m] says, its measured rate
    apart. *)
Definition agrees (e m : EdgeMeta) : Prop := em_eqb (em_with_measured e None) (em_with_measured m None) = true.
Definition measured_number (e : EdgeMeta) : Prop := forall x, em_measured e = Some x -> is_nan x = false.

Lemma agrees_refl m r : clean_meta m -> agrees (em_with_measured m r) m.
Proof.
  intros (H1 & H2 & H3 & _). unfold agrees, em_eqb. cbn [em_distance_km em_r0 em_alpha em_max_buffer_size em_link_type
    em_key_size_bits em_pqc_capacity em_measured em_with_measured opt_feq].
  rewrite !Z.eqb_refl, !feq_refl by done. by rewrite bool_decide_eq_true_2.
Qed.

Lemma em_eqb_measured e m :
  measured_number e -> em_eqb e (em_with_measured m (em_measured e)) = true <-> agrees e m.
Proof.
  intros Hm. unfold agrees, em_eqb. cbn [em_distance_km em_r0 em_alpha em_max_buffer_size em_link_type
    em_key_size_bits em_pqc_capacity em_measured em_with_measured].
  assert (Ho : opt_feq (em_measured e) (em_measured e) = true).
  { unfold measured_number in Hm. destruct (em_measured e) as [x|]; [|done]. apply feq_refl. by apply Hm. }
  rewrite Ho. cbn [opt_feq]. by rewrite !andb_true_r.
Qed.

Lemma agrees_measured e m r : agrees (em_with_measured e r) m <-> agrees e m.
Proof. unfold agrees. by destruct e. Qed.

Lemma clean_unmeasured m : clean_meta m -> em_with_measured m None = m.
Proof. intros (_ & _ & _ & Hn). destruct m; cbn in *. by rewrite Hn. Qed.

Lemma links_eqb_refl links : (forall b m, links !! b = Some m -> clean_meta m) -> links_eqb links links = true.
Proof.
  intros Hc. unfold links_eqb. rewrite bool_decide_eq_true_2 by done. apply forallb_forall.
  intros [k m] Hk%list_elem_of_In. apply elem_of_map_to_list in Hk. cbn [fst snd]. rewrite Hk.
  pose proof (Hc _ _ Hk) as Hm. destruct (Hm) as (_ & _ & _ & Hn).
  assert (Hs : m = em_with_measured m (em_measured m)) by by destruct m. rewrite Hs at 2.
  apply em_eqb_measured; [intros x Hx; congruence|]. rewrite <- (clean_unmeasured m Hm) at 1. by apply agrees_refl.
Qed.

(** ** A settled pair is left alone *)

Definition from (t : Topology) (a b : string) : option EdgeMeta := tp_declared t !! a ≫= (.!! b).

(** What the two declarations decide, the conflict apart. *)
Definition decided (t : Topology) (me other : string) (m : EdgeMeta) : Prop :=
  match from t me other, from t other me with
  | Some mine, Some theirs => em_eqb mine theirs = true /\ m = mine
  | Some x, None | None, Some x => m = x
  | None, None => False
  end.

Record settled (t : Topology) (me other : string) : Prop := mkSettled {
  se_some : from t me other <> None \/ from t other me <> None;
  se_in : registered t me -> registered t other ->
    linked t me other /\ linked t other me /\
    exists e, edge t me other = Some e /\ measured_number e /\ forall m, decided t me other m -> agrees e m }.

Lemma adj_insert_id a b g : b ∈ default ∅ (g !! a) -> adj_insert a b g = g.
Proof.
  unfold adj_insert. destruct (g !! a) as [s|] eqn:E; cbn [default]; [|set_solver]. intros Hb.
  apply insert_id. rewrite E. f_equal. set_solver.
Qed.

Lemma set_graph_id f t : f (tp_graph t) = tp_graph t -> set_graph f t = t.
Proof. intros E. unfold set_graph. rewrite E. by destruct t. Qed.

Lemma place_settled t me other m out :
  settled t me other -> decided t me other m -> exists out', place_edge t me other m out = (t, out', false) /\ oc_removed out' = oc_removed out.
Proof.
  intros [_ Hin] Hd. unfold place_edge. destruct (negb _ || negb _) eqn:Hreg; [by eexists|].
  apply orb_false_iff in Hreg as [H1%negb_false_iff%bool_decide_eq_true H2%negb_false_iff%bool_decide_eq_true].
  destruct (Hin H1 H2) as (Hl1 & Hl2 & e & He & Hn & Hag). unfold edge in He. rewrite He.
  rewrite (proj2 (adjacent_linked t me other)) by done.
  rewrite set_graph_id. 2:{ rewrite (adj_insert_id me other) by exact Hl1. apply adj_insert_id. exact Hl2. }
  rewrite He, (proj2 (em_eqb_measured e m Hn)) by by apply Hag. by eexists.
Qed.

Lemma recompute_settled t me other out :
  settled t me other -> exists out', recompute_edge t me other out = (t, out', false) /\ oc_removed out' = oc_removed out.
Proof.
  intros Hs. pose proof (fun m o Hd => place_settled t me other m o Hs Hd) as Hp.
  unfold recompute_edge. fold (from t me other) (from t other me). unfold decided in Hp.
  destruct (from t me other) as [mine|] eqn:E1, (from t other me) as [theirs|] eqn:E2.
  - destruct (em_eqb mine theirs) eqn:Hc; [by apply Hp|].
    destruct (tp_edges t !! edge_key me other) eqn:He; [by eexists|].
    unfold place_edge. rewrite He. destruct (negb _ || negb _) eqn:Hreg; [by eexists|].
    apply orb_false_iff in Hreg as [H1%negb_false_iff%bool_decide_eq_true H2%negb_false_iff%bool_decide_eq_true].
    destruct (se_in _ _ _ Hs H1 H2) as (_ & _ & e & He' & _). unfold edge in He'. congruence.
  - by apply Hp.
  - by apply Hp.
  - destruct Hs as [[Hn|Hn] _]; congruence.
Qed.

Lemma recompute_all_settled me l : forall t out c,
  (forall b, b ∈ l -> settled t me b) -> exists out', recompute_all me l (t, out, c) = (t, out', c) /\ oc_removed out' = oc_removed out.
Proof.
  induction l as [|b l IH]; intros t out c Hs; [by eexists|]. cbn [recompute_all].
  destruct (recompute_settled t me b out) as (out1 & -> & Ho); [apply Hs; set_solver|]. rewrite orb_false_r, <- Ho.
  apply IH. intros x Hx. apply Hs. set_solver.
Qed.

(** ** One recomputation settles its pair *)

Definition edges_number (t : Topology) : Prop := forall k e, tp_edges t !! k = Some e -> measured_number e.
Definition declared_clean (t : Topology) : Prop := forall a b m, from t a b = Some m -> clean_meta m.

Lemma place_result t me other m out :
  edges_number t -> clean_meta m ->
  let t' := topo_of (place_edge t me other m out) in
  edges_number t' /\
  (registered t me -> registered t other -> exists e, edge t' me other = Some e /\ agrees e m).
Proof.
  intros Hn Hm. unfold place_edge. set (key := edge_key me other).
  destruct (negb _ || negb _) eqn:Hreg.
  { split; [done|]. intros H1 H2. apply orb_true_iff in Hreg as [Hr|Hr]; apply negb_true_iff, bool_decide_eq_false in Hr; by destruct Hr. }
  cbn [tp_edges set_graph].
  set (meta := match tp_edges t !! key with Some e => em_with_measured m (em_measured e) | None => m end).
  assert (Hmeta : measured_number meta /\ agrees meta m).
  { unfold meta. destruct (tp_edges t !! key) as [e|] eqn:E; [split; [exact (Hn _ _ E)|by apply agrees_refl]|].
    pose proof Hm as (_ & _ & _ & H4). split; [intros x Hx; congruence|].
    rewrite <- (clean_unmeasured m Hm) at 1. by apply agrees_refl. }
  destruct (match tp_edges t !! key with Some e => em_eqb e meta | None => false end) eqn:Hsame.
  - split; [exact Hn|]. intros _ _. unfold edge, topo_of. cbn [fst tp_edges set_graph]. fold key. unfold meta in Hsame.
    destruct (tp_edges t !! key) as [e|] eqn:E; [|done]. exists e. split; [done|].
    apply (em_eqb_measured e m); [exact (Hn _ _ E)|done].
  - unfold topo_of. cbn [fst]. split.
    + intros k e Hk. cbn [tp_edges set_edges set_graph] in Hk. destruct (decide (k = key)) as [->|].
      * rewrite lookup_insert_eq in Hk. injection Hk as <-. apply Hmeta.
      * rewrite lookup_insert_ne in Hk by done. by eapply Hn.
    + intros _ _. exists meta. split; [|apply Hmeta]. unfold edge. cbn [tp_edges set_edges set_graph]. by rewrite lookup_insert_eq.
Qed.

Lemma pair_step_from t t' a b x y : pair_step t t' a b -> from t' x y = from t x y.
Proof. intros [_ Ed _ _ _]. unfold from. by rewrite Ed. Qed.

Lemma place_settles t me other m out :
  me <> other -> sync t -> edges_number t -> clean_meta m ->
  (from t me other <> None \/ from t other me <> None) -> (forall x, decided t me other x -> x = m) ->
  let t' := topo_of (place_edge t me other m out) in settled t' me other /\ edges_number t'.
Proof.
  intros Hne Hs Hn Hm Hsome Hdec. destruct (place_edge_step t me other m out Hne Hs) as (Hps & Hin & _).
  destruct (place_result t me other m out Hn Hm) as (Hn' & Hres). cbn zeta. set (t' := topo_of _) in *. clearbody t'.
  split; [|done]. pose proof Hps as [Eq _ _ _ _]. split; [by rewrite !(pair_step_from _ _ _ _ _ _ Hps)|].
  unfold registered. rewrite Eq. intros H1 H2. destruct (Hin (conj H1 H2)) as (Hl1 & Hl2 & _).
  destruct (Hres H1 H2) as (e & He & Hag). split_and!; [done|done|]. exists e. split_and!; [done|by eapply Hn'|].
  intros x Hx. rewrite (Hdec x); [done|]. unfold decided in *. by rewrite !(pair_step_from _ _ _ _ _ _ Hps) in Hx.
Qed.

Lemma recompute_settles t me other out :
  me <> other -> sync t -> edges_number t -> declared_clean t ->
  (from t me other <> None \/ from t other me <> None) ->
  let t' := topo_of (recompute_edge t me other out) in settled t' me other /\ edges_number t'.
Proof.
  intros Hne Hs Hn Hc Hsome. pose proof (fun m o => place_settles t me other m o Hne Hs Hn) as Hp.
  pose proof (Hc me other) as Hc1. pose proof (Hc other me) as Hc2.
  unfold recompute_edge. fold (from t me other) (from t other me). unfold decided in Hp.
  destruct (from t me other) as [mine|] eqn:E1, (from t other me) as [theirs|] eqn:E2.
  - destruct (em_eqb mine theirs) eqn:Hcf; [apply Hp; [by apply Hc1|by left|tauto]|].
    destruct (tp_edges t !! edge_key me other) as [e|] eqn:He; [|apply Hp; [by apply Hc1|by left|by intros x [? _]]].
    split; [|done]. unfold topo_of. cbn [fst]. split; [by left; rewrite E1|]. intros _ _.
    assert (Hl : linked t me other) by (apply (sy_edge _ Hs); unfold edge; rewrite He; by eexists).
    split_and!; [done|by apply (sy_sym _ Hs)|]. exists e. split_and!; [done|by eapply Hn|].
    intros m. unfold decided. rewrite E1, E2, Hcf. by intros [? _].
  - apply Hp; [by apply Hc1|by left|done].
  - apply Hp; [by apply Hc2|by right|done].
  - by destruct Hsome.
Qed.

Lemma drop_number t me other out : edges_number t -> edges_number (topo_of (drop_edge t me other out)).
Proof.
  intros Hn k e Hk. apply (Hn k e). unfold drop_edge in Hk.
  assert (Hd : delete (edge_key me other) (tp_edges t) !! k = Some e) by (destruct (_ || _ || _); exact Hk).
  by apply lookup_delete_Some in Hd as [_ ?].
Qed.

Lemma recompute_number t me other out :
  edges_number t -> declared_clean t -> edges_number (topo_of (recompute_edge t me other out)).
Proof.
  intros Hn Hc. assert (Hp : forall m o, clean_meta m -> edges_number (topo_of (place_edge t me other m o)))
    by (intros m o Hm; apply place_result; done).
  unfold recompute_edge. fold (from t me other) (from t other me).
  destruct (from t me other) as [mine|] eqn:E1, (from t other me) as [theirs|] eqn:E2.
  - destruct (em_eqb mine theirs); [apply Hp; by eapply Hc|]. destruct (tp_edges t !! _); [done|]. apply Hp. by eapply Hc.
  - apply Hp. by eapply Hc.
  - apply Hp. by eapply Hc.
  - by apply drop_number.
Qed.

(** A step on another pair keeps a pair settled. *)
Lemma settled_frame t t' me other b :
  me <> b -> b <> other -> pair_step t t' me other -> settled t me b -> settled t' me b.
Proof.
  intros Hb Hbo Hps [H1 H2]. pose proof Hps as [Eq Ed _ Hl He]. split; [by rewrite !(pair_step_from _ _ _ _ _ _ Hps)|].
  unfold registered. rewrite Eq. intros Hm Ho. destruct (H2 Hm Ho) as (Hl1 & Hl2 & e & Hee & Hn & Hag).
  assert (Hp1 : ~ same_pair me other me b) by (unfold same_pair; intros [[_ ?]|[? ?]]; congruence).
  assert (Hp2 : ~ same_pair me other b me) by (unfold same_pair; intros [[? _]|[? _]]; congruence).
  split_and!; [by apply Hl|by apply Hl|]. exists e. split_and!; [|done|].
  - unfold edge. rewrite He; [done|]. by rewrite same_pair_key.
  - intros m Hd. apply Hag. unfold decided in *. by rewrite !(pair_step_from _ _ _ _ _ _ Hps) in Hd.
Qed.

Lemma recompute_all_settles me l : forall t out c (dn : list string),
  ~ me ∈ l -> ~ me ∈ dn -> sync t -> edges_number t -> declared_clean t ->
  (forall b, b ∈ dn -> settled t me b) ->
  let t' := topo_of (recompute_all me l (t, out, c)) in
  edges_number t' /\ declared_clean t' /\
  forall b, b ∈ dn \/ (b ∈ l /\ (from t me b <> None \/ from t b me <> None)) -> settled t' me b.
Proof.
  induction l as [|o l IH]; intros t out c dn Hl Hd Hs Hn Hc Hset.
  { split_and!; [exact Hn|exact Hc|]. intros b [Hb|[[]%not_elem_of_nil _]]. by apply Hset. }
  apply not_elem_of_cons in Hl as [Hmo Hl]. cbn [recompute_all].
  destruct (recompute_edge_step t me o out Hmo Hs) as (Hps & Hs1 & _). pose proof (recompute_number t me o out Hn Hc) as Hn1.
  pose proof (recompute_settles t me o out Hmo Hs Hn Hc) as Hset1. cbn zeta in Hset1.
  assert (Hid : settled t me o -> topo_of (recompute_edge t me o out) = t) by (intros Ho; by destruct (recompute_settled t me o out Ho) as (? & -> & _)).
  destruct (recompute_edge t me o out) as [[t1 out1] c1]. unfold topo_of in Hps, Hs1, Hn1, Hset1, Hid. cbn [fst] in *.
  assert (Hfr : forall a b, from t1 a b = from t a b) by (intros a b; by rewrite (pair_step_from _ _ _ _ _ _ Hps)).
  assert (Hc1 : declared_clean t1) by (intros a b m; rewrite Hfr; apply Hc).
  set (dn' := if decide (from t me o <> None \/ from t o me <> None) then o :: dn else dn).
  assert (Hd' : ~ me ∈ dn') by (unfold dn'; destruct (decide _); set_solver).
  assert (Hset' : forall b, b ∈ dn' -> settled t1 me b).
  { unfold dn'. intros b Hb. destruct (decide (b = o)) as [->|Hbo].
    - destruct (decide _) as [Hf|Hf]; [by apply Hset1|]. assert (Ho : settled t me o) by by apply Hset. by rewrite (Hid Ho).
    - assert (b ∈ dn) by (destruct (decide _); [by apply elem_of_cons in Hb as [?|?]|done]).
      eapply settled_frame; [|exact Hbo|exact Hps|by apply Hset]. by intros ->. }
  specialize (IH t1 out1 (c || c1) dn' Hl Hd' Hs1 Hn1 Hc1 Hset').
  destruct IH as (IH1 & IH2 & IH3). split_and!; [done|done|]. intros b Hb. apply IH3. rewrite !Hfr.
  destruct Hb as [Hb|[Hb Hf]]; [left; unfold dn'; destruct (decide _); set_solver|]. apply elem_of_cons in Hb as [->|Hb]; [|auto].
  left. unfold dn'. rewrite decide_True by done. set_solver.
Qed.

(** ** Measured rates *)

Definition rate_ok (x : f64) : Prop :=
  is_finite x = true /\ fle f_zero x = true /\ fle x MAX_CAPACITY_KEYS_PER_S = true.

(** The report of [link] is one the controller records. *)
Definition reports (id : string) (known : gmap string Qkc) (l : QkcLinkAnnounce) : option f64 :=
  if negb (String.eqb (la_neighbor_id l) id) && bool_decide (is_Some (known !! la_neighbor_id l)) then
    kps ← la_measured_rate l; if is_finite kps && fle f_zero kps then Some kps else None
  else None.

Section measured.
Context `{HO : HashOrder}.

Lemma record_measured_cons id known l links g :
  record_measured id known (l :: links) g =
  match reports id known l with
  | Some kps =>
      let '(g1, c) := mr_record g id (la_neighbor_id l) kps (la_measured_quality l) in
      let '(g2, rest) := record_measured id known links g1 in (g2, (la_neighbor_id l, c) :: rest)
  | None => record_measured id known links g
  end.
Proof.
  cbn [record_measured]. unfold reports. destruct (_ && _); [|done]. destruct (la_measured_rate l) as [kps|]; [|done].
  cbn [mbind option_bind]. destruct (_ && _); [|done]. done.
Qed.

Lemma reports_ne id known l kps : reports id known l = Some kps -> la_neighbor_id l <> id.
Proof.
  unfold reports. destruct (_ && _) eqn:E; [|done]. apply andb_prop in E as [E _].
  by apply negb_true_iff, String.eqb_neq in E.
Qed.

Lemma key_ne id a b : a <> id -> a <> b -> edge_key id a <> edge_key id b.
Proof. intros H1 H2 [[_ ?]|[? ?]]%edge_key_inj; congruence. Qed.

Lemma record_measured_frame id known links : forall g k,
  (forall l, l ∈ links -> la_neighbor_id l <> id -> k <> edge_key id (la_neighbor_id l)) ->
  (record_measured id known links g).1 !! k = g !! k.
Proof.
  induction links as [|l links IH]; intros g k Hk; [done|]. rewrite record_measured_cons.
  assert (Hk' : forall l0, l0 ∈ links -> la_neighbor_id l0 <> id -> k <> edge_key id (la_neighbor_id l0)) by (intros; apply Hk; [by right|done]).
  destruct (reports id known l) as [kps|] eqn:E; [|by apply IH]. unfold mr_record. set (g1 := <[_ := _]> g).
  specialize (IH g1 k Hk'). destruct (record_measured id known links g1) as [g2 rest]. cbn [fst] in *. rewrite IH. unfold g1.
  rewrite lookup_insert_ne; [done|]. apply not_eq_sym, Hk; [by left|by eapply reports_ne].
Qed.

Lemma record_measured_names id known links : forall g,
  (record_measured id known links g).2.*1 `sublist_of` map la_neighbor_id links.
Proof.
  induction links as [|l links IH]; intros g; [done|]. rewrite record_measured_cons. cbn [map].
  destruct (reports id known l) as [kps|]; [|by apply sublist_cons].
  destruct (mr_record _ _ _ _ _) as [g1 c]. specialize (IH g1). destruct (record_measured id known links g1) as [g2 rest].
  cbn [snd fmap list_fmap fst] in *. by apply sublist_skip.
Qed.

Lemma record_measured_not_self id known links : forall g, ~ id ∈ (record_measured id known links g).2.*1.
Proof.
  induction links as [|l links IH]; intros g; [apply not_elem_of_nil|]. rewrite record_measured_cons.
  destruct (reports id known l) as [kps|] eqn:E; [|by apply IH].
  destruct (mr_record _ _ _ _ _) as [g1 c]. specialize (IH g1). destruct (record_measured id known links g1) as [g2 rest].
  cbn [snd] in *. rewrite fmap_cons. cbn [fst]. apply not_elem_of_cons. split; [|done]. apply not_eq_sym. by eapply reports_ne.
Qed.

(** Recording the same reports again finds them there. *)
Lemma record_measured_again id known known' links :
  (forall x, x <> id -> is_Some (known' !! x) <-> is_Some (known !! x)) -> NoDup (map la_neighbor_id links) -> forall g g2,
  (forall l, l ∈ links -> la_neighbor_id l <> id ->
     g2 !! edge_key id (la_neighbor_id l) = (record_measured id known links g).1 !! edge_key id (la_neighbor_id l)) ->
  record_measured id known' links g2 = (g2, (record_measured id known links g).2).
Proof.
  intros Hkn. induction links as [|l links IH]; intros Hnd g g2 Hg; [done|]. cbn [map] in Hnd. apply NoDup_cons in Hnd as [Hl Hnd].
  assert (Hrep : reports id known' l = reports id known l).
  { unfold reports. destruct (String.eqb (la_neighbor_id l) id) eqn:E; [done|]. apply String.eqb_neq in E. cbn [negb andb].
    by rewrite (bool_decide_ext _ _ (Hkn _ E)). }
  rewrite !record_measured_cons, Hrep in *. destruct (reports id known l) as [kps|] eqn:Er.
  - pose proof (reports_ne _ _ _ _ Er) as Hne. unfold mr_record in *. set (g1 := <[_ := _]> g) in *.
    assert (Hself : g2 !! edge_key id (la_neighbor_id l) = g1 !! edge_key id (la_neighbor_id l)).
    { rewrite Hg by (done || by left). pose proof (record_measured_frame id known links g1 (edge_key id (la_neighbor_id l))) as Hf.
      destruct (record_measured id known links g1) as [g3 rest]. cbn [fst] in *. apply Hf. intros l0 Hl0 _.
      apply key_ne; [done|]. intros E. apply Hl. rewrite E. by apply list_elem_of_fmap_2. }
    unfold g1 in Hself at 1. rewrite lookup_insert_eq in Hself. rewrite Hself. cbn [from_option]. unfold Datatypes.id. rewrite insert_insert_eq.
    rewrite (insert_id g2) by done. fold g1.
    specialize (IH Hnd g1 g2). destruct (record_measured id known links g1) as [g3 rest]. cbn [fst snd] in *.
    rewrite IH; [done|]. intros l0 Hl0 Hne0. apply Hg; [by right|done].
  - apply IH; [done|]. intros l0 Hl0 Hne0. apply Hg; [by right|done].
Qed.
End measured.

Definition rates_ok (g : MeasuredRates) : Prop :=
  forall k pe r v, g !! k = Some pe -> pe !! r = Some v -> rate_ok (er_keys_per_s v).
(** A combined rate: in range, or no end reports one. *)
Definition combined_ok (c : f64) : Prop := is_finite c = false \/ rate_ok c.

Lemma fold_min_ok l : forall acc,
  combined_ok acc -> (forall e : string * EndpointRate, e ∈ l -> rate_ok (er_keys_per_s e.2)) ->
  combined_ok (fold_left (fun acc e => if String.eqb (er_quality (e.2)) "unavailable" then acc else fmin acc (er_keys_per_s e.2)) l acc).
Proof.
  induction l as [|e l IH]; intros acc Ha Hl; [done|]. cbn [fold_left]. apply IH; [|intros; apply Hl; by right].
  destruct (String.eqb _ _); [done|]. pose proof (Hl e ltac:(by left)) as He. unfold fmin.
  destruct (is_nan acc); [by right|]. destruct (is_nan _); [done|]. destruct (flt _ _); [by right|done].
Qed.

Lemma record_measured_ok `{HashOrder} id known links : forall g,
  rates_ok g -> (forall l x, l ∈ links -> la_measured_rate l = Some x -> rate_ok x) ->
  rates_ok (record_measured id known links g).1 /\ (forall nc, nc ∈ (record_measured id known links g).2 -> combined_ok nc.2).
Proof.
  induction links as [|l links IH]; intros g Hg Hl; [split; [done|]; by intros nc ?%not_elem_of_nil|].
  assert (Hl' : forall l0 x, l0 ∈ links -> la_measured_rate l0 = Some x -> rate_ok x) by (intros l0 x ?; apply Hl; by right).
  rewrite record_measured_cons. destruct (reports id known l) as [kps|] eqn:Er; [|by apply IH].
  assert (Hkps : rate_ok kps).
  { apply (Hl l); [by left|]. unfold reports in Er. destruct (_ && _); [|done]. destruct (la_measured_rate l); [|done].
    cbn in Er. by destruct (_ && _); simplify_eq. }
  unfold mr_record. set (pe := <[id := _]> _).
  assert (Hpe : forall r v, pe !! r = Some v -> rate_ok (er_keys_per_s v)).
  { intros r v. unfold pe. destruct (decide (r = id)) as [->|]; [rewrite lookup_insert_eq; by intros [=<-]|].
    rewrite lookup_insert_ne by done. destruct (g !! edge_key id (la_neighbor_id l)) as [p0|] eqn:Ep; cbn [from_option]; [|by rewrite lookup_empty].
    by apply (Hg _ _ _ _ Ep). }
  set (g1 := <[_ := pe]> g).
  assert (Hg1 : rates_ok g1).
  { intros k p r v Hk. unfold g1 in Hk. destruct (decide (k = edge_key id (la_neighbor_id l))) as [->|].
    - rewrite lookup_insert_eq in Hk. injection Hk as <-. apply Hpe.
    - rewrite lookup_insert_ne in Hk by done. by apply (Hg _ _ _ _ Hk). }
  specialize (IH g1 Hg1 Hl'). destruct (record_measured id known links g1) as [g2 rest]. cbn [fst snd] in *.
  destruct IH as [IH1 IH2]. split; [done|]. intros nc [->|Hnc]%elem_of_cons; [|by apply IH2]. cbn [snd].
  apply fold_min_ok; [by left|]. intros [r v] Hr. apply hash_iter_elem in Hr. by apply (Hpe r).
Qed.

(** ** Applying a rate twice *)

Section calm.
Context `{LM : Libm}.

(** The rate [c] would leave the edge as it is. *)
Definition calm (e : option EdgeMeta) (c : f64) : bool :=
  negb (is_finite c && fle f_zero c) ||
  match e with
  | None => true
  | Some e => is_pqc e ||
      (let current := capacity_keys_per_second e in
       flt (fabs (fsub current c)) (fmax (fmul current (f_lit 5 100)) (f_lit 1 2)))
  end.

Lemma apply_measured_calm t a b c :
  calm (edge t a b) c = true -> apply_measured_capacity t a b c = (t, false).
Proof.
  unfold calm, apply_measured_capacity, edge. destruct (negb _); [done|]. cbn [orb].
  destruct (tp_edges t !! edge_key a b) as [e|]; [|done]. destruct (is_pqc e); [done|]. cbn [orb]. cbv zeta. by intros ->.
Qed.

Lemma capacity_of_rate e c : is_pqc e = false -> rate_ok c -> capacity_keys_per_second (em_with_measured e (Some c)) = c.
Proof.
  intros Hp (Hf & H0 & H1). unfold capacity_keys_per_second.
  change (is_pqc (em_with_measured e (Some c))) with (is_pqc e). rewrite Hp. cbn [em_measured em_with_measured]. rewrite Hf. cbn [negb].
  by apply clamp_in_range; apply fle_not_lt.
Qed.

Lemma apply_measured_settles t a b c :
  combined_ok c -> let t' := (apply_measured_capacity t a b c).1 in
  calm (edge t' a b) c = true /\ (forall k, k <> edge_key a b -> tp_edges t' !! k = tp_edges t !! k) /\
  (edges_number t -> edges_number t').
Proof.
  intros Hc. destruct (calm (edge t a b) c) eqn:Hcalm.
  { rewrite apply_measured_calm by done. cbn [fst]. done. }
  unfold calm, apply_measured_capacity, edge in *. destruct (negb _) eqn:Hfin; [done|]. cbn [orb] in *.
  destruct (tp_edges t !! edge_key a b) as [e|] eqn:E; [|done]. destruct (is_pqc e) eqn:Hp; [done|]. cbn [orb] in *.
  cbv zeta in *. rewrite Hcalm. cbn [fst tp_edges set_edges].
  apply negb_false_iff, andb_prop in Hfin as [Hf H0]. destruct Hc as [Hc|Hc]; [congruence|]. split_and!.
  - rewrite lookup_insert_eq. change (is_pqc (em_with_measured e (Some c))) with (is_pqc e). rewrite Hp. cbn [orb].
    rewrite (capacity_of_rate e c Hp Hc), fsub_self by done. apply max_half_pos.
  - intros k Hk. by rewrite lookup_insert_ne.
  - intros Hn k e'. cbn [tp_edges set_edges]. destruct (decide (k = edge_key a b)) as [->|].
    + rewrite lookup_insert_eq. intros [=<-] x [=<-]. by apply finite_not_nan.
    + rewrite lookup_insert_ne by done. apply Hn.
Qed.

Lemma apply_measured_all_calm id l : forall t c,
  (forall nc, nc ∈ l -> calm (edge t id nc.1) nc.2 = true) -> apply_measured_all id l (t, c) = (t, c).
Proof.
  induction l as [|nc l IH]; intros t c Hl; [done|]. unfold apply_measured_all. cbn [fold_left].
  rewrite apply_measured_calm by (apply Hl; by left). rewrite orb_false_r. apply IH. intros; apply Hl; by right.
Qed.

Lemma apply_measured_all_settles id l : forall t c,
  NoDup l.*1 -> ~ id ∈ l.*1 -> (forall nc, nc ∈ l -> combined_ok nc.2) ->
  let t' := (apply_measured_all id l (t, c)).1 in
  (forall nc, nc ∈ l -> calm (edge t' id nc.1) nc.2 = true) /\
  (forall k, (forall nc, nc ∈ l -> k <> edge_key id nc.1) -> tp_edges t' !! k = tp_edges t !! k) /\
  (edges_number t -> edges_number t').
Proof.
  induction l as [|[n k] l IH]; intros t c Hnd Hid Hok; [split_and!; [by intros nc ?%not_elem_of_nil|done|done]|].
  rewrite fmap_cons in Hnd, Hid. cbn [fst] in Hnd, Hid. apply NoDup_cons in Hnd as [Hn Hnd]. apply not_elem_of_cons in Hid as [Hid0 Hid].
  unfold apply_measured_all. cbn [fold_left fst snd].
  destruct (apply_measured_settles t id n k (Hok (n, k) ltac:(by left))) as (Hcalm & Hfr & Hnum).
  destruct (apply_measured_capacity t id n k) as [t1 c1]. cbn [fst] in *.
  destruct (IH t1 (c || c1) Hnd Hid) as (IH1 & IH2 & IH3); [intros; apply Hok; by right|].
  unfold apply_measured_all in *. set (t' := (fold_left _ l _).1) in *. clearbody t'. split_and!.
  - intros nc [->|Hnc]%elem_of_cons; [|by apply IH1]. cbn [fst snd]. unfold edge in *. rewrite IH2; [done|].
    intros nc Hnc. apply key_ne; [done|]. intros ->. apply Hn. by apply list_elem_of_fmap_2.
  - intros j Hj. rewrite IH2 by (intros; apply Hj; by right). apply Hfr. apply (Hj (n, k)). by left.
  - auto.
Qed.
End calm.

(** ** The first announcement settles *)

Definition all_settled (t : Topology) (me : string) : Prop :=
  forall b, b <> me -> from t me b <> None \/ from t b me <> None -> settled t me b.

Lemma settled_ext t t' me b :
  tp_qkcs t' = tp_qkcs t -> tp_graph t' = tp_graph t -> tp_declared t' = tp_declared t -> edge t' me b = edge t me b ->
  settled t me b -> settled t' me b.
Proof.
  intros Eq Eg Ed Ee [H1 H2]. assert (Hf : forall x y, from t' x y = from t x y) by (intros; unfold from; by rewrite Ed).
  split; [by rewrite !Hf|]. unfold registered, linked, decided in *. by rewrite Eq, Eg, Ee, !Hf.
Qed.

Lemma settled_measured `{Libm} t me n c b : settled t me b -> settled (apply_measured_capacity t me n c).1 me b.
Proof.
  intros Hs. unfold apply_measured_capacity. destruct (negb _) eqn:Hfin; [done|].
  destruct (tp_edges t !! edge_key me n) as [e|] eqn:E; [|done]. destruct (is_pqc e); [done|]. destruct (flt _ _); [done|].
  cbn [fst]. destruct (decide (edge_key me b = edge_key me n)) as [Hk|Hk].
  - destruct Hs as [H1 H2]. split; [done|]. intros Hm Ho. destruct (H2 Hm Ho) as (Hl1 & Hl2 & e0 & He0 & _ & Hag).
    split_and!; [done|done|]. exists (em_with_measured e (Some c)). unfold edge in *. rewrite Hk in *. cbn [tp_edges set_edges].
    rewrite lookup_insert_eq. split_and!; [done| |].
    + intros x [=<-]. apply negb_false_iff, andb_prop in Hfin as [Hf _]. by apply finite_not_nan.
    + intros m Hd. apply agrees_measured. replace e with e0 by congruence. by apply Hag.
  - apply (settled_ext t); try done. unfold edge. cbn [tp_edges set_edges]. by rewrite lookup_insert_ne.
Qed.

Lemma all_settled_measured `{Libm} me l : forall t c, all_settled t me -> all_settled (apply_measured_all me l (t, c)).1 me.
Proof.
  induction l as [|[n k] l IH]; intros t c Hs; [done|]. unfold apply_measured_all. cbn [fold_left fst snd].
  assert (Hs1 : all_settled (apply_measured_capacity t me n k).1 me).
  { intros b Hb Hf. apply settled_measured, Hs; [done|]. unfold from, apply_measured_capacity in *.
    destruct (negb _); [done|]. destruct (tp_edges t !! _) as [e|]; [|done]. destruct (is_pqc e); [done|]. by destruct (flt _ _). }
  destruct (apply_measured_capacity t me n k) as [t1 c1]. by apply IH.
Qed.

Lemma declared_clean_insert t me links :
  declared_clean t -> (forall b m, links !! b = Some m -> clean_meta m) -> declared_clean (set_declared <[me := links]> t).
Proof.
  intros Hc Hl a b m. unfold from. cbn [tp_declared set_declared]. destruct (decide (a = me)) as [->|].
  - rewrite lookup_insert_eq. apply Hl.
  - rewrite lookup_insert_ne by done. apply Hc.
Qed.

Lemma announced_settles `{HashOrder} t q links out out' :
  sync t -> edges_number t -> declared_clean t -> links !! qk_id q = None -> (forall b m, links !! b = Some m -> clean_meta m) ->
  let t3 := topo_of (close_declarations_pointing_at
    (topo_of (apply_declared_links (upsert_qkc t q).1 (qk_id q) links out)) (qk_id q) out') in
  all_settled t3 (qk_id q) /\ edges_number t3 /\ declared_clean t3.
Proof.
  intros Hs Hn Hc Hl0 Hl. set (me := qk_id q) in *. set (t1 := (upsert_qkc t q).1).
  unfold apply_declared_links. change (tp_declared t1) with (tp_declared t).
  set (ours := first_seen me ∅ _). set (t1' := set_declared <[me:=links]> t1).
  assert (Hours : forall x, x ∈ ours -> x <> me) by (intros x; unfold ours; rewrite first_seen_spec; tauto).
  assert (Hin : forall x, is_Some (links !! x) -> x ∈ ours).
  { intros x Hx. unfold ours. rewrite first_seen_spec, elem_of_app, !sorted_keys_elem. split_and!; [by right| |set_solver].
    intros ->. rewrite Hl0 in Hx. by destruct Hx. }
  assert (Hs1' : sync t1') by (destruct (upsert_qkc_sync t q Hs); by split).
  assert (Hc1' : declared_clean t1') by (by apply declared_clean_insert).
  set (c := negb _). clearbody c.
  assert (Hme : ~ me ∈ ours) by (intros ?%Hours; congruence).
  destruct (recompute_all_settles me ours t1' out c [] Hme ltac:(apply not_elem_of_nil) Hs1' Hn Hc1' ltac:(by intros b ?%not_elem_of_nil))
    as (Hn2 & Hc2 & Hset2).
  destruct (recompute_all_step me ours t1' out c Hme Hs1') as (Hs2 & _ & Ed2 & _ & _).
  set (t2 := topo_of _) in *. clearbody t2. unfold close_declarations_pointing_at. set (others := pointing_at _ _).
  assert (Hf2 : forall a b, from t2 a b = from t1' a b) by (intros; unfold from; by rewrite Ed2).
  assert (Hfm : forall b, from t1' me b = links !! b) by (intros b; unfold from; cbn [tp_declared t1' set_declared]; by rewrite lookup_insert_eq).
  set (keys := filter (fun b => is_Some (links !! b)) ours).
  assert (Hkeys : forall b, b ∈ keys -> settled t2 me b).
  { intros b [Hb1 Hb2]%list_elem_of_filter. apply Hset2. right. split; [done|]. left. rewrite Hfm. by destruct Hb1 as [? ->]. }
  assert (Hme3 : ~ me ∈ others) by (unfold others; rewrite pointing_at_elem; tauto).
  destruct (recompute_all_settles me others t2 out' false keys Hme3) as (Hn3 & Hc3 & Hset3);
    [intros [_ ?]%list_elem_of_filter; by apply Hme|done|done|done|done|].
  destruct (recompute_all_step me others t2 out' false Hme3 Hs2) as (_ & _ & Ed3 & _ & _).
  set (t3 := topo_of _) in *. clearbody t3. split_and!; [|done|done].
  intros b Hb Hf. assert (Hf3 : forall x y, from t3 x y = from t1' x y) by (intros; unfold from; by rewrite Ed3, Ed2).
  rewrite !Hf3, Hfm in Hf. apply Hset3. rewrite !Hf2, Hfm.
  destruct (links !! b) as [m|] eqn:El.
  - left. apply list_elem_of_filter. rewrite El. split; [by eexists|]. apply Hin. rewrite El. by eexists.
  - right. destruct Hf as [?|Hf]; [done|]. split; [|by right]. unfold others. rewrite pointing_at_elem, Ed2.
    cbn [tp_declared t1' set_declared]. rewrite lookup_insert_eq. split_and!; [done| |exact El].
    unfold from in Hf. cbn [tp_declared t1' set_declared] in Hf. by apply not_eq_None_Some.
Qed.

(** ** The second changes nothing *)

Record announce_clean (reg : QkcAnnounce) : Prop := mkAnnClean {
  ac_meta : forall l, l ∈ qa_links reg -> clean_meta (la_meta l);
  ac_rate : forall l x, l ∈ qa_links reg -> la_measured_rate l = Some x -> rate_ok x }.

Lemma declared_links_lookup id links b m :
  declared_links id links !! b = Some m -> exists l, l ∈ links /\ la_meta l = m /\ la_neighbor_id l = b.
Proof.
  unfold declared_links.
  assert (Hg : forall ls (acc : gmap string EdgeMeta), fold_left (fun m l => if String.eqb (la_neighbor_id l) id then m
    else <[la_neighbor_id l := la_meta l]> m) ls acc !! b = Some m ->
    acc !! b = Some m \/ exists l, l ∈ ls /\ la_meta l = m /\ la_neighbor_id l = b).
  { induction ls as [|l ls IH]; intros acc; [by left|]. cbn [fold_left]. intros [Hl|(l0 & ? & ?)]%IH; [|right; exists l0; set_solver].
    destruct (String.eqb _ _); [by left|]. destruct (decide (la_neighbor_id l = b)) as [E|].
    - right. exists l. rewrite E, lookup_insert_eq in Hl. split; [by left|]. by simplify_eq.
    - rewrite lookup_insert_ne in Hl by done. by left. }
  intros [Hl|?]%Hg; [by rewrite lookup_empty in Hl|done].
Qed.

Lemma declared_links_some id links l : l ∈ links -> la_neighbor_id l <> id -> is_Some (declared_links id links !! la_neighbor_id l).
Proof.
  intros Hin Hne. unfold declared_links.
  assert (Hkeep : forall ls (acc : gmap string EdgeMeta), is_Some (acc !! la_neighbor_id l) -> is_Some (fold_left (fun m l => if String.eqb (la_neighbor_id l) id then m
    else <[la_neighbor_id l := la_meta l]> m) ls acc !! la_neighbor_id l)).
  { induction ls as [|x ls IH]; intros acc Ha; [done|]. cbn [fold_left]. apply IH. destruct (String.eqb _ _); [done|].
    rewrite lookup_insert_is_Some. destruct (decide (la_neighbor_id x = la_neighbor_id l)); auto. }
  generalize (∅ : gmap string EdgeMeta). induction links as [|x ls IH]; [by apply not_elem_of_nil in Hin|].
  intros acc. cbn [fold_left]. apply elem_of_cons in Hin as [->|Hin]; [|by apply IH].
  apply Hkeep. rewrite (proj2 (String.eqb_neq _ _)) by done. rewrite lookup_insert_eq. by eexists.
Qed.

Lemma bump_fields t : tp_qkcs (bump t) = tp_qkcs t /\ tp_graph (bump t) = tp_graph t /\ tp_declared (bump t) = tp_declared t /\
  forall a b, edge (bump t) a b = edge t a b.
Proof. done. Qed.

Lemma announce_settled `{Libm, HashOrder} s reg l q :
  sync (st_topo s) -> announce_clean reg ->
  tp_qkcs (st_topo s) !! qa_id reg = Some q -> q = mkQkc (qa_id reg) (qa_host reg) (qa_peer_addr reg) (qk_kme_host q) ->
  tp_declared (st_topo s) !! qa_id reg = Some (declared_links (qa_id reg) (qa_links reg)) ->
  all_settled (st_topo s) (qa_id reg) ->
  record_measured (qa_id reg) (tp_qkcs (st_topo s)) (qa_links reg) (st_measured s) = (st_measured s, l) ->
  (forall nc, nc ∈ l -> calm (edge (st_topo s) (qa_id reg) nc.1) nc.2 = true) ->
  (announce_qkc s reg).1 = s /\ oc_changed (announce_qkc s reg).2 = false.
Proof.
  intros Hs [Hm _] Hq Eq Hd Hset Hrec Hcalm. unfold announce_qkc. rewrite Hrec. set (me := qa_id reg) in *.
  set (links := declared_links me (qa_links reg)) in *. destruct s as [t g]. cbn [st_topo st_measured] in *.
  rewrite Hq. cbn [mbind option_bind]. rewrite <- Eq.
  assert (Hup : upsert_qkc t q = (t, false)).
  { unfold upsert_qkc. assert (Hid : qk_id q = me) by by rewrite Eq. rewrite Hid, Hq, bool_decide_eq_true_2 by done. cbn [negb]. f_equal.
    assert (Hg : is_Some (tp_graph t !! me)) by (apply elem_of_dom; rewrite (sy_nodes _ Hs); apply elem_of_dom; by eexists).
    rewrite set_graph_id by (unfold or_default; by destruct Hg as [x ->]). unfold set_qkcs. rewrite insert_id by done. by destruct t. }
  rewrite Hup. unfold apply_declared_links. rewrite Hd. cbn [from_option]. unfold id.
  rewrite links_eqb_refl by (intros b m (x & Hx & <- & _)%declared_links_lookup; by apply Hm). cbn [negb].
  assert (Hsd : set_declared <[me:=links]> t = t) by (unfold set_declared; rewrite insert_id by done; by destruct t). rewrite Hsd.
  destruct (recompute_all_settled me (first_seen me ∅ (sorted_keys links ++ sorted_keys links)) t (new_outcome me) false) as (out1 & -> & Ho1).
  { intros b Hb. apply first_seen_spec in Hb as (Hb & Hne & _). apply Hset; [done|]. left. unfold from. rewrite Hd. cbn [mbind option_bind].
    rewrite elem_of_app, !sorted_keys_elem in Hb. apply not_eq_None_Some. tauto. }
  unfold close_declarations_pointing_at.
  destruct (recompute_all_settled me (pointing_at (tp_declared t) me) t out1 false) as (out2 & -> & Ho2).
  { intros b (Hne & Hb & _)%pointing_at_elem. apply Hset; [done|]. right. by apply not_eq_None_Some. }
  cbn [orb]. rewrite apply_measured_all_calm by done. cbn [fst snd].
  rewrite Ho2, Ho1. done.
Qed.

(** Only undeclared edges are removed, and a removal is a change. *)
Lemma recompute_removed t me other out :
  let r := recompute_edge t me other out in
  tp_declared (topo_of r) = tp_declared t /\
  (forall n, n ∈ oc_removed r.1.2 -> n ∈ oc_removed out \/ from t me n = None) /\
  (r.2 = false -> oc_removed r.1.2 = oc_removed out).
Proof.
  assert (Hp : forall m o, oc_removed o = oc_removed out -> let r := place_edge t me other m o in
    tp_declared (topo_of r) = tp_declared t /\ oc_removed r.1.2 = oc_removed out).
  { intros m o Ho. unfold place_edge. destruct (_ || _); [done|].
    by destruct (match tp_edges _ !! _ with Some _ => em_eqb _ _ | None => _ end), (adjacent t me other). }
  assert (Hw : forall r : Topology * QkcAnnounceOutcome * bool, tp_declared (topo_of r) = tp_declared t /\ oc_removed r.1.2 = oc_removed out ->
    tp_declared (topo_of r) = tp_declared t /\ (forall n, n ∈ oc_removed r.1.2 -> n ∈ oc_removed out \/ from t me n = None) /\
    (r.2 = false -> oc_removed r.1.2 = oc_removed out)).
  { intros r [E1 E2]. split_and!; [done| |done]. intros n Hn. left. by rewrite <- E2. }
  unfold recompute_edge. fold (from t me other) (from t other me).
  destruct (from t me other) as [mine|] eqn:E1, (from t other me) as [theirs|] eqn:E2; cbn zeta; try (apply Hw, Hp; done).
  - destruct (em_eqb mine theirs); [by apply Hw, Hp|]. destruct (tp_edges t !! _); [by apply Hw|by apply Hw, Hp].
  - unfold drop_edge. destruct (_ || _ || _); [|by apply Hw]. split_and!; [done| |done]. cbn [fst snd push_removed oc_removed].
    intros n [?|Hn]%elem_of_app; [by left|]. apply list_elem_of_singleton in Hn as ->. by right.
Qed.

Lemma recompute_all_removed me l : forall t out c,
  let r := recompute_all me l (t, out, c) in
  tp_declared (topo_of r) = tp_declared t /\
  (forall n, n ∈ oc_removed r.1.2 -> n ∈ oc_removed out \/ from t me n = None) /\
  (r.2 = false -> c = false /\ oc_removed r.1.2 = oc_removed out).
Proof.
  induction l as [|o l IH]; intros t out c; [split_and!; [done|by left|done]|]. cbn [recompute_all].
  destruct (recompute_removed t me o out) as (Ed & Hr & Hf). destruct (recompute_edge t me o out) as [[t1 out1] c1].
  destruct (IH t1 out1 (c || c1)) as (Ed' & Hr' & Hf'). unfold topo_of in *. cbn [fst snd] in *. cbn zeta.
  set (r := recompute_all _ _ _) in *. clearbody r. split_and!; [congruence| |].
  - intros n [Hn|Hn]%Hr'; [by apply Hr|right]. unfold from in *. by rewrite <- Ed.
  - intros Hc. destruct (Hf' Hc) as [Hcc Eo]. apply orb_false_iff in Hcc as [-> ->]. rewrite Eo. by rewrite (Hf eq_refl).
Qed.

Lemma forget_all_keep id (removed : list string) : forall (g : MeasuredRates) k,
  (forall n, n ∈ removed -> k <> edge_key id n) -> fold_left (fun g n => mr_forget_edge g id n) removed g !! k = g !! k.
Proof.
  induction removed as [|n ns IH]; intros g k Hk; [done|]. cbn [fold_left]. rewrite IH by (intros; apply Hk; by right).
  unfold mr_forget_edge. rewrite lookup_delete_ne; [done|]. apply not_eq_sym, Hk. by left.
Qed.

(** What the controller holds between announcements. *)
Record quiet (s : Store) : Prop := mkQuiet {
  qu_declared : declared_clean (st_topo s);
  qu_edges : edges_number (st_topo s);
  qu_rates : rates_ok (st_measured s) }.

Definition announced_as (reg : QkcAnnounce) (t : Topology) : Qkc :=
  mkQkc (qa_id reg) (qa_host reg) (qa_peer_addr reg) (tp_qkcs t !! qa_id reg ≫= qk_kme_host).

Lemma apply_measured_all_net `{Libm} id l : forall t c, let t' := (apply_measured_all id l (t, c)).1 in
  tp_qkcs t' = tp_qkcs t /\ tp_declared t' = tp_declared t /\ tp_graph t' = tp_graph t /\
  (forall k, is_Some (tp_edges t' !! k) <-> is_Some (tp_edges t !! k)) /\ ((apply_measured_all id l (t, c)).2 = false -> c = false).
Proof.
  induction l as [|[n k] l IH]; intros t c; [done|]. unfold apply_measured_all. cbn [fold_left fst snd].
  assert (Hr : let t1 := (apply_measured_capacity t id n k).1 in tp_qkcs t1 = tp_qkcs t /\ tp_declared t1 = tp_declared t /\
    tp_graph t1 = tp_graph t /\ forall j, is_Some (tp_edges t1 !! j) <-> is_Some (tp_edges t !! j)).
  { unfold apply_measured_capacity. destruct (negb _); [done|]. destruct (tp_edges t !! _) as [e|] eqn:E; [|done].
    destruct (is_pqc e); [done|]. destruct (flt _ _); [done|]. split_and!; [done|done|done|]. intros j. cbn [fst tp_edges set_edges].
    rewrite lookup_insert_is_Some. destruct (decide (edge_key id n = j)) as [<-|]; [rewrite E|]; naive_solver. }
  destruct (apply_measured_capacity t id n k) as [t1 c1]. destruct Hr as (?&?&?&Hr), (IH t1 (c || c1)) as (?&?&?&He&Hc).
  unfold apply_measured_all in *. cbn [fst] in *. cbn zeta. split_and!; try congruence.
  - intros j. by rewrite He, Hr.
  - intros Hx%Hc. by apply orb_false_iff in Hx as [-> _].
Qed.

Lemma sync_ext t t' : tp_qkcs t' = tp_qkcs t -> tp_graph t' = tp_graph t ->
  (forall k, is_Some (tp_edges t' !! k) <-> is_Some (tp_edges t !! k)) -> sync t -> sync t'.
Proof.
  intros Eq Eg Ee [Hn Hi Hs He Hk]. assert (Hl : forall a b, linked t' a b <-> linked t a b) by (intros; unfold linked; by rewrite Eg).
  split; [by rewrite Eg, Eq|intros a; rewrite Hl; apply Hi|intros a b; rewrite !Hl; apply Hs| |intros k ?%Ee; by apply Hk].
  intros a b. rewrite Hl, He. symmetry. apply Ee.
Qed.

(** The passes of one announcement. *)
Section passes.
Context `{LM : Libm, HO : HashOrder}.
Variables (s : Store) (reg : QkcAnnounce).

Definition pass_rates : MeasuredRates * list (string * f64) :=
  record_measured (qa_id reg) (tp_qkcs (st_topo s)) (qa_links reg) (st_measured s).
Definition pass_up : Topology * bool := upsert_qkc (st_topo s) (announced_as reg (st_topo s)).
Definition pass_links : Topology * QkcAnnounceOutcome * bool :=
  apply_declared_links pass_up.1 (qa_id reg) (declared_links (qa_id reg) (qa_links reg)) (new_outcome (qa_id reg)).
Definition pass_close : Topology * QkcAnnounceOutcome * bool :=
  close_declarations_pointing_at (topo_of pass_links) (qa_id reg) pass_links.1.2.
Definition pass_end : Topology * bool :=
  apply_measured_all (qa_id reg) pass_rates.2 (topo_of pass_close, pass_up.2 || pass_links.2 || pass_close.2).
Definition pass_removed : list string := oc_removed pass_close.1.2.

Lemma announce_passes :
  announce_qkc s reg =
  (mkStore (if pass_end.2 then bump pass_end.1 else st_topo s)
     (fold_left (fun g n => mr_forget_edge g (qa_id reg) n) pass_removed pass_rates.1), set_changed pass_end.2 pass_close.1.2).
Proof.
  unfold announce_qkc, pass_end, pass_removed, pass_close, pass_links, pass_up, pass_rates, topo_of, announced_as.
  destruct (record_measured _ _ _ _) as [g l]. cbn [fst snd]. destruct (upsert_qkc _ _) as [t1 c1]. cbn [fst snd].
  destruct (apply_declared_links _ _ _ _) as [[t2 o2] c2]. cbn [fst snd].
  destruct (close_declarations_pointing_at _ _ _) as [[t3 o3] c3]. cbn [fst snd].
  by destruct (apply_measured_all _ _ _) as [t4 ch].
Qed.

Hypothesis Hclean : announce_clean reg.
Hypothesis Hsync : sync (st_topo s).
Hypothesis Hquiet : quiet s.
Hypothesis Hnodup : NoDup (map la_neighbor_id (qa_links reg)).

Lemma pass_links_clean b m : declared_links (qa_id reg) (qa_links reg) !! b = Some m -> clean_meta m.
Proof. intros (x & Hx & <- & _)%declared_links_lookup. by apply (ac_meta _ Hclean). Qed.

(** The clone after the edges are in. *)
Lemma pass_close_spec : let t3 := topo_of pass_close in
  reannounced (qa_id reg) (announced_as reg (st_topo s)) (declared_links (qa_id reg) (qa_links reg)) (st_topo s) t3 /\
  all_settled t3 (qa_id reg) /\ edges_number t3 /\ declared_clean t3.
Proof.
  destruct Hquiet as [Qd Qe _]. pose proof (declared_links_self (qa_id reg) (qa_links reg)) as Hl0. split.
  - exact (announced_step _ (announced_as reg (st_topo s)) _ _ _ Hsync Hl0).
  - exact (announced_settles _ (announced_as reg (st_topo s)) _ _ _ Hsync Qe Qd Hl0 pass_links_clean).
Qed.

Lemma pass_removed_spec :
  (pass_end.2 = false -> pass_removed = []) /\
  (forall n, n ∈ pass_removed -> declared_links (qa_id reg) (qa_links reg) !! n = None).
Proof.
  set (prev := default ∅ (tp_declared (st_topo s) !! qa_id reg)). set (links := declared_links (qa_id reg) (qa_links reg)).
  destruct (recompute_all_removed (qa_id reg) (first_seen (qa_id reg) ∅ (sorted_keys prev ++ sorted_keys links))
    (set_declared <[qa_id reg:=links]> pass_up.1) (new_outcome (qa_id reg)) (negb (links_eqb prev links))) as (Ed2 & Hrem2 & Hst2).
  change (recompute_all (qa_id reg) _ (set_declared _ _, _, _)) with pass_links in Ed2, Hrem2, Hst2.
  destruct (recompute_all_removed (qa_id reg) (pointing_at (tp_declared (topo_of pass_links)) (qa_id reg))
    (topo_of pass_links) pass_links.1.2 false) as (_ & Hrem3 & Hst3).
  change (recompute_all (qa_id reg) _ (topo_of pass_links, _, _)) with pass_close in Hrem3, Hst3.
  assert (Hfrom : forall n, from (set_declared <[qa_id reg:=links]> pass_up.1) (qa_id reg) n = links !! n)
    by (intros n; unfold from; cbn [tp_declared set_declared]; by rewrite lookup_insert_eq).
  split.
  - intros Hend. destruct (apply_measured_all_net (qa_id reg) pass_rates.2 (topo_of pass_close) (pass_up.2 || pass_links.2 || pass_close.2))
      as (_ & _ & _ & _ & Hc). specialize (Hc Hend). apply orb_false_iff in Hc as [[_ H2]%orb_false_iff H3].
    unfold pass_removed. rewrite (proj2 (Hst3 H3)), (proj2 (Hst2 H2)). done.
  - intros n [Hn|Hn]%Hrem3.
    + apply Hrem2 in Hn as [[]%not_elem_of_nil|Hn]. by rewrite Hfrom in Hn.
    + unfold from in Hn. rewrite Ed2 in Hn. by rewrite <- Hfrom.
Qed.

(** The clone at the end. *)
Lemma pass_end_spec : let t4 := pass_end.1 in
  sync t4 /\ tp_qkcs t4 = <[qa_id reg := announced_as reg (st_topo s)]> (tp_qkcs (st_topo s)) /\
  tp_declared t4 = <[qa_id reg := declared_links (qa_id reg) (qa_links reg)]> (tp_declared (st_topo s)) /\
  all_settled t4 (qa_id reg) /\ (forall nc, nc ∈ pass_rates.2 -> calm (edge t4 (qa_id reg) nc.1) nc.2 = true) /\
  edges_number t4 /\ declared_clean t4.
Proof.
  destruct pass_close_spec as ([Rs Rq Rd _ _ _] & Hset & Hnum & Hcl). unfold pass_end.
  destruct Hquiet as [_ _ Qr].
  destruct (record_measured_ok (qa_id reg) (tp_qkcs (st_topo s)) (qa_links reg) (st_measured s) Qr (ac_rate _ Hclean)) as [_ Hcomb].
  pose proof (record_measured_names (qa_id reg) (tp_qkcs (st_topo s)) (qa_links reg) (st_measured s)) as Hnames.
  pose proof (record_measured_not_self (qa_id reg) (tp_qkcs (st_topo s)) (qa_links reg) (st_measured s)) as Hself.
  fold pass_rates in Hcomb, Hnames, Hself. set (c := pass_up.2 || _ || _). clearbody c.
  destruct (apply_measured_all_net (qa_id reg) pass_rates.2 (topo_of pass_close) c) as (Eq4 & Ed4 & Eg4 & Ee4 & _).
  destruct (apply_measured_all_settles (qa_id reg) pass_rates.2 (topo_of pass_close) c) as (Hcalm & _ & Hnum4);
    [by eapply sublist_NoDup|done|done|].
  pose proof (all_settled_measured (qa_id reg) pass_rates.2 (topo_of pass_close) c Hset) as Hset4.
  cbn zeta. set (t4 := (apply_measured_all _ _ _).1) in *. clearbody t4. split_and!; try done.
  - by eapply sync_ext.
  - by rewrite Eq4, Rq.
  - by rewrite Ed4, Rd.
  - auto.
  - intros a b m. unfold from. rewrite Ed4. apply Hcl.
Qed.
End passes.

Lemma heartbeat_quiet `{Libm, HashOrder} s reg :
  sync (st_topo s) -> quiet s -> announce_clean reg -> NoDup (map la_neighbor_id (qa_links reg)) ->
  let s1 := (announce_qkc s reg).1 in (announce_qkc s1 reg).1 = s1 /\ oc_changed (announce_qkc s1 reg).2 = false.
Proof.
  intros Hs Hq Hcl Hnd. rewrite announce_passes. cbn [fst].
  destruct (pass_end_spec s reg Hcl Hs Hq Hnd) as (Hs4 & Eq4 & Ed4 & Hset & Hcalm & _).
  destruct (pass_removed_spec s reg) as [Hstill Hrem]. set (g := fold_left _ (pass_removed s reg) _).
  assert (Hagree : forall l, l ∈ qa_links reg -> la_neighbor_id l <> qa_id reg ->
    g !! edge_key (qa_id reg) (la_neighbor_id l) = (pass_rates s reg).1 !! edge_key (qa_id reg) (la_neighbor_id l)).
  { intros l Hl Hne. unfold g. apply forget_all_keep. intros n Hn. apply key_ne; [done|]. intros <-.
    destruct (declared_links_some (qa_id reg) _ l Hl Hne) as [m Hm]. by rewrite (Hrem _ Hn) in Hm. }
  assert (Hrec : forall known', (forall x, x <> qa_id reg -> is_Some (known' !! x) <-> is_Some (tp_qkcs (st_topo s) !! x)) ->
    record_measured (qa_id reg) known' (qa_links reg) g = (g, (pass_rates s reg).2)).
  { intros known' Hk. by apply (record_measured_again (qa_id reg) (tp_qkcs (st_topo s)) known' (qa_links reg) Hk Hnd (st_measured s)). }
  destruct (pass_end s reg).2 eqn:Hch.
  - set (t4 := (pass_end s reg).1) in *. apply (announce_settled _ _ (pass_rates s reg).2 (announced_as reg (st_topo s)));
      cbn [st_topo st_measured tp_qkcs tp_declared bump].
    + by eapply (sync_ext t4).
    + done.
    + by rewrite Eq4, lookup_insert_eq.
    + done.
    + by rewrite Ed4, lookup_insert_eq.
    + intros b Hb Hf. apply (settled_ext t4); try done. by apply Hset.
    + apply Hrec. intros x Hx. by rewrite Eq4, lookup_insert_ne.
    + exact Hcalm.
  - assert (Eg : g = (pass_rates s reg).1) by (unfold g; by rewrite Hstill).
    set (s1 := mkStore (st_topo s) g). rewrite announce_passes.
    assert (Er : pass_rates s1 reg = (g, (pass_rates s reg).2)) by (apply Hrec; done).
    assert (Ee : pass_end s1 reg = pass_end s reg) by (unfold pass_end; rewrite Er; done).
    rewrite Ee, Hch, Er. change (pass_removed s1 reg) with (pass_removed s reg). rewrite Hstill by done. done.
Qed.

(** ** Over a history *)

Lemma apply_measured_all_number `{Libm} id l : forall t c, edges_number t -> edges_number (apply_measured_all id l (t, c)).1.
Proof.
  induction l as [|[n k] l IH]; intros t c Hn; [done|]. unfold apply_measured_all. cbn [fold_left fst snd].
  assert (Hn1 : edges_number (apply_measured_capacity t id n k).1).
  { unfold apply_measured_capacity. destruct (negb _) eqn:Hf; [done|]. destruct (tp_edges t !! _) as [e|]; [|done].
    destruct (is_pqc e); [done|]. destruct (flt _ _); [done|]. apply negb_false_iff, andb_prop in Hf as [Hf _].
    intros j e'. cbn [fst tp_edges set_edges]. destruct (decide (j = edge_key id n)) as [->|].
    - rewrite lookup_insert_eq. intros [=<-] x [=<-]. by apply finite_not_nan.
    - rewrite lookup_insert_ne by done. apply Hn. }
  destruct (apply_measured_capacity t id n k) as [t1 c1]. by apply IH.
Qed.

Lemma rates_ok_forget id removed : forall g : MeasuredRates,
  rates_ok g -> rates_ok (fold_left (fun g n => mr_forget_edge g id n) removed g).
Proof.
  induction removed as [|n ns IH]; intros g Hg; [done|]. cbn [fold_left]. apply IH.
  unfold mr_forget_edge. intros k pe r v [_ Hk]%lookup_delete_Some. by apply (Hg k pe).
Qed.

Lemma announce_qkc_quiet `{Libm, HashOrder} s reg :
  sync (st_topo s) -> announce_clean reg -> quiet s -> quiet (announce_qkc s reg).1.
Proof.
  intros Hs Hcl Hq. pose proof Hq as [Qd Qe Qr]. destruct (pass_close_spec s reg Hcl Hs Hq) as (_ & _ & Hnum & Hclean).
  destruct (record_measured_ok (qa_id reg) (tp_qkcs (st_topo s)) (qa_links reg) (st_measured s) Qr (ac_rate _ Hcl)) as [Hr _].
  fold (pass_rates s reg) in Hr.
  destruct (apply_measured_all_net (qa_id reg) (pass_rates s reg).2 (topo_of (pass_close s reg))
    ((pass_up s reg).2 || (pass_links s reg).2 || (pass_close s reg).2)) as (_ & Ed4 & _).
  fold (pass_end s reg) in Ed4.
  assert (Hn4 : edges_number (pass_end s reg).1) by by apply apply_measured_all_number.
  assert (Hd4 : declared_clean (pass_end s reg).1) by (intros a b m; unfold from; rewrite Ed4; apply Hclean).
  rewrite announce_passes. destruct (pass_end s reg) as [t4 []]; split; cbn [fst snd st_topo st_measured] in *; try done; by apply rates_ok_forget.
Qed.

Lemma quiet_net s s' : net_same (st_topo s) (st_topo s') -> st_measured s' = st_measured s -> quiet s -> quiet s'.
Proof.
  intros (_ & Ed & _ & Ee) Em [Qd Qe Qr]. split; [| |by rewrite Em].
  - intros a b m. unfold from. rewrite Ed. apply Qd.
  - intros k e. rewrite Ee. apply Qe.
Qed.

Definition valid_op (op : SdnOp) : Prop := match op with OpQkc reg => announce_clean reg | _ => True end.

Lemma try_mutate_measured {A} s (f : Topology -> res SdnError (Topology * A)) : st_measured (try_mutate s f).1 = st_measured s.
Proof. unfold try_mutate, try_mutate_if. by destruct (f (st_topo s)) as [[t a]|e|]. Qed.

Lemma capacity_quiet `{Libm} s a b kps : quiet s -> quiet (update_edge_capacity_kps s a b kps).1.
Proof.
  intros Hq. unfold update_edge_capacity_kps. destruct (_ || _) eqn:Hf; [done|]. apply orb_false_iff in Hf as [Hf%negb_false_iff _].
  destruct (edge _ _ _) as [e0|]; [|done]. unfold mutate, set_edge_capacity_kps. destruct (flt _ _); [done|].
  destruct (tp_edges (st_topo s) !! edge_key a b) as [e|] eqn:E; [|done]. destruct (flt _ _); [done|].
  destruct Hq as [Qd Qe Qr]. split; [done| |done]. intros k e'. cbn [fst st_topo tp_edges bump set_edges].
  destruct (decide (k = edge_key a b)) as [->|]; [|rewrite lookup_insert_ne by done; apply Qe].
  rewrite lookup_insert_eq. intros [=<-]. pose proof (Qe _ _ E) as He. unfold measured_number in *.
  destruct (is_pqc e); [done|]. destruct (em_measured e) as [x|] eqn:Em; cbn [em_measured em_with_measured em_with_r0].
  - intros y [=<-]. by apply finite_not_nan.
  - rewrite Em. done.
Qed.

Lemma expire_qkc_quiet s q : quiet s -> quiet (delete_qkc s q).1.
Proof.
  intros [Qd Qe Qr]. unfold delete_qkc. set (r := try_mutate s _).
  assert (Hr : declared_clean (st_topo r.1) /\ edges_number (st_topo r.1) /\ st_measured r.1 = st_measured s).
  { unfold r. split_and!; [| |apply try_mutate_measured].
    - apply (try_mutate_keeps declared_clean); [done|done|]. intros t a. destruct (tp_qkcs _ !! q); [|done]. intros [=<-<-].
      intros x y m. unfold from. cbn [tp_declared set_orrs set_dkms set_declared set_edges set_graph set_qkcs].
      destruct (decide (x = q)) as [->|]; [by rewrite lookup_delete_eq|]. rewrite lookup_delete_ne by done. apply Qd.
    - apply (try_mutate_keeps edges_number); [done|done|]. intros t a. destruct (tp_qkcs _ !! q); [|done]. intros [=<-<-].
      intros k e. cbn [tp_edges set_orrs set_dkms set_declared set_edges set_graph set_qkcs].
      intros [Hk _]%map_lookup_filter_Some. by eapply Qe. }
  clearbody r. destruct r as [s' x]. cbn [fst] in *. destruct Hr as (H1 & H2 & H3). split; cbn [fst st_topo st_measured]; [done|done|].
  rewrite H3. intros k pe r v Hk. unfold mr_forget_reporter in Hk. apply lookup_omap_Some in Hk as (pe0 & Hpe & Hk).
  destruct (bool_decide _); [done|]. injection Hpe as <-. intros [_ Hv]%lookup_delete_Some. by apply (Qr k pe0 r).
Qed.

Lemma sdn_step_quiet `{Libm, HashOrder} s op : graph_ok (st_topo s) -> valid_op op -> quiet s -> quiet (sdn_step s op).
Proof.
  intros Hg Hv Hq. destruct op; cbn [sdn_step valid_op] in *.
  - apply announce_qkc_quiet; [apply Hg|done|done].
  - apply (quiet_net s); [apply announce_orr_net| |done]. unfold announce_orr. destruct (negb _); [done|]. by destruct (upsert_orr _ _) as [t []].
  - apply (quiet_net s); [apply announce_dkms_net| |done]. unfold announce_dkms. destruct (_ <? _); [done|]. destruct (negb _); [done|].
    destruct (upsert_dkms _ _) as [t []]; [done| |]; by destruct (announce_saes _ _ _) as [[t' cs] []].
  - apply (quiet_net s); [| |done]; unfold register_sae; (destruct (_ && _); [done|]); [|apply try_mutate_measured].
    apply try_mutate_net. intros t a. destruct (tp_saes _ !! _); [done|]. destruct (resolve_dkms _ _ _); [|done]. destruct (_ <=? _); [done|]. by intros [=<-<-].
  - apply (quiet_net s); [apply register_sae_bulk_net| |done]. unfold register_sae_bulk. destruct items as [|i items]; [done|].
    unfold try_mutate_if. by destruct (bulk_all _ _) as [[t o] []].
  - apply (quiet_net s); [| |done]; unfold update_sae; (destruct (_ && _); [done|]); [|apply try_mutate_measured].
    apply try_mutate_net. intros t a. destruct (tp_saes _ !! _); [|done]. destruct (resolve_dkms _ _ _); [|done]. destruct (_ && _); [done|]. by intros [=<-<-].
  - apply (quiet_net s); [|apply try_mutate_measured|done]. apply try_mutate_net. intros t a. destruct (tp_saes _ !! _); [|done]. by intros [=<-<-].
  - by apply capacity_quiet.
  - by apply expire_qkc_quiet.
  - apply (quiet_net s); [|apply try_mutate_measured|done]. apply try_mutate_net. intros t a. destruct (tp_orrs _ !! _); [|done]. by intros [=<-<-].
  - apply (quiet_net s); [|apply try_mutate_measured|done]. apply try_mutate_net. intros t a. destruct (tp_dkms _ !! _); [|done]. by intros [=<-<-].
Qed.

Lemma sdn_run_quiet `{Libm, HashOrder} ops : Forall valid_op ops -> quiet (sdn_run ops).
Proof.
  intros Hv. unfold sdn_run.
  assert (Hg : forall l s, Forall valid_op l -> graph_ok (st_topo s) -> quiet s -> quiet (fold_left sdn_step l s)).
  { induction l as [|op l IH]; intros s Hl Hs Hq; [done|]. inversion Hl; subst. cbn [fold_left].
    apply IH; [done|by apply sdn_step_graph|by apply sdn_step_quiet]. }
  apply Hg; [done|apply graph_ok_empty|]. split; cbn [st_topo st_measured new_store].
  - intros a b m. unfold from. cbn [tp_declared empty_topology]. by rewrite lookup_empty.
  - intros k e. cbn [tp_edges empty_topology]. by rewrite lookup_empty.
  - intros k pe r v. by rewrite lookup_empty.
Qed.

(** ** Routers and managers *)

Lemma orr_beat_quiet s reg : let s1 := (announce_orr s reg).1 in (announce_orr s1 reg).1 = s1 /\ an_changed (announce_orr s1 reg).2 = false.
Proof.
  cbv zeta. unfold announce_orr at 2 3 5. destruct (negb (bool_decide (is_Some (tp_qkcs (st_topo s) !! oa_qkc_id reg)))) eqn:Hq.
  { cbn [fst]. unfold announce_orr. by rewrite Hq. }
  set (host := mkHost _ _ _). set (o := mkOrr (oa_id reg) host (oa_qkc_id reg)).
  destruct (upsert_orr (st_topo s) o) as [t' r] eqn:Eu. unfold upsert_orr in Eu. cbn [or_qkc_id or_id o] in Eu. rewrite Hq in Eu.
  assert (Hsame : forall s', tp_qkcs (st_topo s') = tp_qkcs (st_topo s) -> tp_orrs (st_topo s') !! oa_id reg = Some o ->
    match tp_orr_by_qkc (st_topo s') !! oa_qkc_id reg with Some other => negb (String.eqb other (oa_id reg)) | None => false end = false ->
    (announce_orr s' reg).1 = s' /\ an_changed (announce_orr s' reg).2 = false).
  { intros s' Eq Eo Ei. unfold announce_orr, upsert_orr. cbn [or_qkc_id or_id]. rewrite Eq, Hq, Eo, Ei. cbn [or_host o].
    rewrite bool_decide_eq_true_2 by done. done. }
  destruct (match tp_orr_by_qkc (st_topo s) !! oa_qkc_id reg with Some other => negb (String.eqb other (oa_id reg)) | None => false end) eqn:Hidx.
  { injection Eu as <- <-. cbn [fst]. unfold announce_orr, upsert_orr. cbn [or_qkc_id or_id]. by rewrite Hq, Hidx. }
  injection Eu as <- <-. destruct (bool_decide (tp_orrs (st_topo s) !! oa_id reg = Some o)) eqn:Hold; cbn [negb from_changed up_changed fst].
  - apply Hsame; [done|by apply bool_decide_eq_true in Hold|exact Hidx].
  - apply Hsame; cbn [st_topo bump set_orrs tp_qkcs tp_orrs tp_orr_by_qkc]; [done|by rewrite lookup_insert_eq|]. rewrite lookup_insert_eq. by rewrite String.eqb_refl.
Qed.

(** An application that the announcement of [d] has nothing to do for: it is bound,
    to [d] or elsewhere, or [d] is full. *)
Definition sae_done (d : string) (t : Topology) (x : string) : Prop :=
  match tp_saes t !! x with Some cur => cur = mkSae x d \/ sa_dkms_id cur <> d | None => MAX_SAES_PER_DKMS <= sae_count_for t d end.

Lemma sae_count_insert t k d : sae_count_for t d <= sae_count_for (set_saes <[k := mkSae k d]> t) d.
Proof.
  unfold sae_count_for. cbn [tp_saes set_saes]. rewrite map_filter_insert. cbn [snd sa_dkms_id]. rewrite decide_True by done.
  rewrite map_size_insert. destruct (filter _ _ !! k); cbn; lia.
Qed.

Lemma upsert_sae_done t k d : is_Some (tp_dkms t !! d) -> match tp_saes t !! k with Some cur => negb (String.eqb (sa_dkms_id cur) d) | None => false end = false ->
  let t' := (upsert_sae t (mkSae k d)).1 in
  (tp_dkms t' = tp_dkms t /\ tp_orrs t' = tp_orrs t /\ tp_dkms_by_qkc t' = tp_dkms_by_qkc t) /\ sae_done d t' k /\ (forall x, sae_done d t x -> sae_done d t' x) /\
  (sae_done d t k -> (upsert_sae t (mkSae k d)).2 = false).
Proof.
  intros Hd Hown. cbv zeta. unfold upsert_sae. cbn [sa_id sa_dkms_id]. rewrite (bool_decide_eq_true_2 _ Hd). cbn [negb].
  destruct (negb (bool_decide (is_Some (tp_saes t !! k))) && (MAX_SAES_PER_DKMS <=? sae_count_for t d)) eqn:Hfull; cbn [fst snd].
  { split_and!; try done. apply andb_true_iff in Hfull as [Hn%negb_true_iff%bool_decide_eq_false Hf%Z.leb_le]. unfold sae_done. destruct (tp_saes t !! k); [by destruct Hn|exact Hf]. }
  split_and!; try done.
  - unfold sae_done. cbn [tp_saes set_saes]. rewrite lookup_insert_eq. by left.
  - intros x Hx. unfold sae_done in *. pose proof (sae_count_insert t k d) as Hc. cbn [tp_saes set_saes]. destruct (decide (x = k)) as [->|Hne]; [rewrite lookup_insert_eq; by left|].
    rewrite lookup_insert_ne by done. destruct (tp_saes t !! x); [exact Hx|lia].
  - unfold sae_done. intros Hk. apply negb_false_iff, bool_decide_eq_true_2. destruct (tp_saes t !! k) as [cur|].
    + destruct Hk as [->|Hk]; [done|]. apply negb_false_iff, String.eqb_eq in Hown. done.
    + cbn in Hfull. apply Z.leb_gt in Hfull. lia.
Qed.

Lemma announce_saes_done d l : forall t cs c, is_Some (tp_dkms t !! d) ->
  let r := announce_saes d l (t, cs, c) in let t' := r.1.1 in
  (tp_dkms t' = tp_dkms t /\ tp_orrs t' = tp_orrs t /\ tp_dkms_by_qkc t' = tp_dkms_by_qkc t) /\ (forall x, x ∈ l -> sae_done d t' x) /\ (forall x, sae_done d t x -> sae_done d t' x) /\
  ((forall x, x ∈ l -> sae_done d t x) -> r.2 = c).
Proof.
  induction l as [|k l IH]; intros t cs c Hd; cbv zeta; cbn [announce_saes]; [by split_and!; try done; intros x ?%not_elem_of_nil|].
  destruct (match tp_saes t !! k with Some cur => negb (String.eqb (sa_dkms_id cur) d) | None => false end) eqn:Hown.
  { destruct (IH t (cs ++ [k]) c Hd) as (Hfr & Hl & Hx & Hq). split_and!; [apply Hfr..| |exact Hx|intros Hall; apply Hq; intros x Hin; apply Hall; by right].
    intros x [->|Hin]%elem_of_cons; [|by apply Hl]. apply Hx. unfold sae_done. destruct (tp_saes t !! k); [|done]. right. by apply negb_true_iff, String.eqb_neq in Hown. }
  destruct (upsert_sae_done t k d Hd Hown) as ((E1 & E2 & E3) & Hk & Hkeep & Hsame). destruct (upsert_sae t (mkSae k d)) as [t1 c1]. cbn [fst snd] in *.
  destruct (IH t1 cs (c || c1)) as ((F1 & F2 & F3) & Hl & Hx & Hq); [by rewrite E1|]. split_and!; [congruence..| |auto|].
  - intros x [->|Hin]%elem_of_cons; [by apply Hx|by apply Hl].
  - intros Hall. rewrite Hq; [|intros x Hin; apply Hkeep, Hall; by right]. rewrite Hsame by (apply Hall; by left). apply orb_false_r.
Qed.

(** A manager that is registered as it says, with nothing to do for its
    applications. *)
Lemma dkms_beat_settled s reg o : zlen (da_saes reg) <= MAX_SAES_PER_DKMS -> tp_orrs (st_topo s) !! da_orr_id reg = Some o ->
  (exists d, tp_dkms (st_topo s) !! da_id reg = Some d /\ d = mkDkms (da_id reg) (mkHost (hp_id (dk_host d)) (hp_ip (da_host reg)) (hp_port (da_host reg))) (da_peer_addr reg) (dk_tls_id d) (da_orr_id reg)) ->
  match tp_dkms_by_qkc (st_topo s) !! or_qkc_id o with Some other => negb (String.eqb other (da_id reg)) | None => false end = false ->
  (forall x, x ∈ da_saes reg -> sae_done (da_id reg) (st_topo s) x) ->
  (announce_dkms s reg).1 = s /\ an_changed (announce_dkms s reg).2 = false.
Proof.
  intros Hlen Ho (d & Ed & Hd) Hi Hsaes. unfold announce_dkms. destruct (Z.ltb_spec MAX_SAES_PER_DKMS (zlen (da_saes reg))); [lia|].
  rewrite Ho, bool_decide_eq_true_2 by by eexists. cbn [negb]. rewrite Ed. cbn [mbind option_bind]. rewrite <- Hd.
  assert (Eid : dk_id d = da_id reg) by (rewrite Hd; reflexivity). assert (Eor : dk_orr_id d = da_orr_id reg) by (rewrite Hd; reflexivity).
  unfold upsert_dkms. rewrite Eor, Ho, Eid, Hi, Ed, bool_decide_eq_true_2 by reflexivity. cbn [negb from_changed].
  set (t1 := set_dkms _ _ _). destruct (announce_saes_done (da_id reg) (da_saes reg) t1 [] (up_changed UpUnchanged)) as (_ & _ & _ & Hq).
  { unfold t1. cbn [tp_dkms set_dkms]. rewrite lookup_insert_eq. by eexists. }
  destruct (announce_saes _ _ _) as [[t2 cs] c]. cbn [fst snd] in Hq. rewrite Hq by exact Hsaes. done.
Qed.

Lemma dkms_beat_quiet s reg : let s1 := (announce_dkms s reg).1 in (announce_dkms s1 reg).1 = s1 /\ an_changed (announce_dkms s1 reg).2 = false.
Proof.
  cbv zeta. destruct (announce_dkms s reg) as [s1 out] eqn:E. cbn [fst]. pose proof E as E0. unfold announce_dkms in E.
  destruct (Z.ltb_spec MAX_SAES_PER_DKMS (zlen (da_saes reg))) as [Hl|Hl]; [injection E as <- _; unfold announce_dkms; by rewrite (proj2 (Z.ltb_lt _ _) Hl)|].
  destruct (tp_orrs (st_topo s) !! da_orr_id reg) as [o|] eqn:Ho.
  2:{ rewrite bool_decide_eq_false_2 in E by (intros [? ?]; done). cbn [negb] in E. injection E as <- _. unfold announce_dkms.
      rewrite (proj2 (Z.ltb_ge _ _) Hl), Ho, bool_decide_eq_false_2 by (intros [? ?]; done). done. }
  rewrite bool_decide_eq_true_2 in E by by eexists. cbn [negb] in E. set (dk := mkDkms _ _ _ _ _) in E.
  unfold upsert_dkms in E. change (dk_orr_id dk) with (da_orr_id reg) in E. rewrite Ho in E. change (dk_id dk) with (da_id reg) in E.
  destruct (match tp_dkms_by_qkc (st_topo s) !! or_qkc_id o with Some other => negb (String.eqb other (da_id reg)) | None => false end) eqn:Hi.
  { injection E as <- <-. rewrite E0. done. }
  set (t1 := set_dkms _ _ _) in E. assert (Ed : tp_dkms t1 !! da_id reg = Some dk) by (unfold t1; cbn [tp_dkms set_dkms]; apply lookup_insert_eq).
  set (c := up_changed _) in E. destruct (announce_saes_done (da_id reg) (da_saes reg) t1 [] c ltac:(by rewrite Ed)) as ((E1 & E2 & E3) & Hdone & _ & Hq).
  destruct (announce_saes _ _ _) as [[t2 cs] c2]. cbn [fst snd] in *. clearbody c.
  assert (E' : (if c2 then mkStore (bump t2) (st_measured s) else s) = s1 /\ an_changed out = c2) by (destruct (negb (bool_decide _)) in E; injection E as <- <-; done).
  destruct E' as [<- Ec]. destruct c2; [|rewrite E0; done].
  apply (dkms_beat_settled _ _ o Hl); cbn [st_topo bump tp_orrs tp_dkms tp_dkms_by_qkc]; [by rewrite E2| | |exact Hdone].
  - exists dk. by rewrite E1.
  - rewrite E3. unfold t1. cbn [tp_dkms_by_qkc set_dkms]. rewrite lookup_insert_eq. by rewrite String.eqb_refl.
Qed.

(** C34: An announcement repeated at once leaves the controller as it is: the
    same snapshot at the same version, the same measured rates, and a reply
    that reports no change; that of a QKC after any history of validated
    announcements, whatever the hysteresis did the first time, when the announcement
    is validated and its neighbours are distinct; that of a router or a manager in
    any state, whether it is accepted, refused or has to wait, and whatever becomes of
    the applications it names. *)
Theorem heartbeat_changes_nothing `{Libm, HashOrder} ops :
  Forall valid_op ops ->
  (forall reg, announce_clean reg -> NoDup (map la_neighbor_id (qa_links reg)) ->
    let s1 := (announce_qkc (sdn_run ops) reg).1 in (announce_qkc s1 reg).1 = s1 /\ oc_changed (announce_qkc s1 reg).2 = false) /\
  (forall s reg, let s1 := (announce_orr s reg).1 in (announce_orr s1 reg).1 = s1 /\ an_changed (announce_orr s1 reg).2 = false) /\
  (forall s reg, let s1 := (announce_dkms s reg).1 in (announce_dkms s1 reg).1 = s1 /\ an_changed (announce_dkms s1 reg).2 = false).
Proof.
  intros Hv. split; [|split; [exact orr_beat_quiet|exact dkms_beat_quiet]].
  intros reg Hcl Hnd. apply heartbeat_quiet; [apply sdn_run_graph|by apply sdn_run_quiet|done|done].
Qed.

(** ** Witnesses *)

Lemma default_meta_clean : clean_meta default_meta.
Proof. by vm_compute. Qed.

Lemma sample_qkc_clean id ns : announce_clean (sample_qkc id ns).
Proof.
  split.
  - intros l Hl. apply list_elem_of_fmap in Hl as (n & -> & _). apply default_meta_clean.
  - intros l x Hl. apply list_elem_of_fmap in Hl as (n & -> & _). done.
Qed.

Lemma sample_ops_valid : Forall valid_op sample_ops.
Proof.
  unfold sample_ops. repeat (apply List.Forall_cons; [first [apply sample_qkc_clean | exact I]|]). apply List.Forall_nil.
Qed.

(** The first QKC, with a measured rate on its link. *)
Definition measured_qkc : QkcAnnounce :=
  mkQkcAnnounce "1" (sample_host 1) (Some "10.0.0.1:7000"%string)
    [mkLink "2" default_meta (Some (f_of_Z 100)) None; mkLink "4" default_meta (Some (f_of_Z 7)) None].

Lemma measured_qkc_clean : announce_clean measured_qkc.
Proof.
  split.
  - intros l [->|[->|[]%not_elem_of_nil]%elem_of_cons]%elem_of_cons; apply default_meta_clean.
  - intros l x [->|[->|[]%not_elem_of_nil]%elem_of_cons]%elem_of_cons; intros [=<-]; by vm_compute.
Qed.

Lemma heartbeat_changes_nothing_witness :
  let s1 := (@announce_qkc flat_libm map_order sample_run measured_qkc).1 in
  let d := sample_dkms "d2" "o2" ["s1"; "s2"; "s3"]%string in let s2 := (announce_dkms s1 d).1 in
  oc_changed (@announce_qkc flat_libm map_order sample_run measured_qkc).2 = true /\
  (@announce_qkc flat_libm map_order s1 measured_qkc).1 = s1 /\
  an_changed (announce_dkms s1 d).2 = true /\ (announce_dkms s2 d).1 = s2.
Proof.
  cbv zeta. destruct (@heartbeat_changes_nothing flat_libm map_order sample_ops sample_ops_valid) as (Hq & _ & Hd).
  split_and!; [vm_compute; reflexivity| |vm_compute; reflexivity|apply Hd].
  apply (Hq measured_qkc measured_qkc_clean).
  apply NoDup_cons; split; [intros [=]%list_elem_of_singleton|apply NoDup_singleton].
Defined.

(** Two links to one neighbour, with rates further apart than the hysteresis. *)
Definition flapping_qkc : QkcAnnounce :=
  mkQkcAnnounce "1" (sample_host 1) (Some "10.0.0.1:7000"%string)
    [mkLink "2" default_meta (Some (f_of_Z 100)) None; mkLink "2" default_meta (Some (f_of_Z 1000)) None].

(** An announcement that names a neighbour twice with two rates is a change
    every time it is repeated. *)
Theorem repeated_neighbour_never_settles :
  announce_clean flapping_qkc /\
  let beat s := @announce_qkc flat_libm map_order s flapping_qkc in
  let s1 := (beat sample_run).1 in let s2 := (beat s1).1 in let s3 := (beat s2).1 in
  oc_changed (beat s1).2 = true /\ oc_changed (beat s2).2 = true /\ oc_changed (beat s3).2 = true /\
  tp_version (st_topo s3) = tp_version (st_topo s1) + 2.
Proof.
  split; [|vm_compute; done]. split.
  - intros l [->|[->|[]%not_elem_of_nil]%elem_of_cons]%elem_of_cons; apply default_meta_clean.
  - intros l x [->|[->|[]%not_elem_of_nil]%elem_of_cons]%elem_of_cons; intros [=<-]; by vm_compute.
Qed.
