(* ===== verification/SdnPaths.v ===== *)
(** * Paths and components of the controller's graph (sdn/src/topology.rs, routing.rs)

    [shortest_path_qkc] is a breadth-first search that returns on meeting the
    destination; [qkd_components] floods the links that are not PQC, one
    component per start.  The [while] loops run on fuel, one unit per node
    taken from the queue; a queue never receives a node twice, so as many
    units as there are nodes are enough, which is part of what is proved.

    Shown: a path returned is a path of the graph, no path is shorter, and
    [None] means there is none; two QKCs are in one component exactly when
    QKD links connect them. *)

From Stdlib Require Import ZArith Lia String.
From stdpp Require Import sorting strings.
From S2P Require Import Prelude Text Float64 SdnTopology SdnStore SdnGraph.

(** ** Breadth-first search *)

Definition sorted_neighbors (t : Topology) (node : string) : list string :=
  merge_sort String.le (elements (default ∅ (tp_graph t !! node))).

(** The [for] over the neighbours of [node]: [true] when it met [dst]. *)
Fixpoint scan (dst node : string) (ns : list string) (prev : gmap string (option string)) (queue : list string)
  : gmap string (option string) * list string * bool :=
  match ns with
  | [] => (prev, queue, false)
  | n :: ns =>
      if bool_decide (is_Some (prev !! n)) then scan dst node ns prev queue
      else
        let prev := <[n := Some node]> prev in
        if String.eqb n dst then (prev, queue, true) else scan dst node ns prev (queue ++ [n])
  end.

(** The [while] that follows the predecessors. *)
Fixpoint walk_back (fuel : nat) (prev : gmap string (option string)) (cur : string) (path : list string) : list string :=
  match fuel with
  | O => path
  | S fuel => match prev !! cur with Some (Some p) => walk_back fuel prev p (path ++ [p]) | _ => path end
  end.

Fixpoint search (nbrs : string -> list string) (dst : string) (fuel : nat) (prev : gmap string (option string))
    (queue : list string) : option (list string) :=
  match fuel, queue with
  | S fuel, node :: queue =>
      let '(prev, queue, found) := scan dst node (nbrs node) prev queue in
      if found then Some (rev (walk_back (size prev) prev dst [dst])) else search nbrs dst fuel prev queue
  | _, _ => None
  end.

(** Every node of the graph, as a key or as a neighbour. *)
Definition graph_nodes (t : Topology) : gset string := dom (tp_graph t) ∪ ⋃ (map_to_list (tp_graph t)).*2.

Definition shortest_path_qkc (t : Topology) (src dst : string) : option (list string) :=
  if negb (bool_decide (is_Some (tp_graph t !! src))) || negb (bool_decide (is_Some (tp_graph t !! dst))) then None
  else if String.eqb src dst then Some [src]
  else search (sorted_neighbors t) dst (size (graph_nodes t)) {[src := None]} [src].

Definition next_hop_qkc (t : Topology) (src dst : string) : option string :=
  path ← shortest_path_qkc t src dst;
  if String.eqb src dst then Some src else path !! 1%nat.

(** ** What a search finds *)

Section bfs.
Variable nbrs : string -> list string.
Variables src dst : string.

Definition E (a b : string) : Prop := b ∈ nbrs a.

Inductive walk (a : string) : string -> nat -> Prop :=
  | walk_here : walk a a 0
  | walk_step b c n : walk a b n -> E b c -> walk a c (S n).

Fixpoint path_in (l : list string) : Prop :=
  match l with
  | a :: (b :: _) as l' => E a b /\ path_in l'
  | _ => True
  end.

Definition visited (prev : gmap string (option string)) (x : string) : Prop := is_Some (prev !! x).

(** The predecessors form a tree of depth [d], rooted at the source. *)
Record tree (d : string -> nat) (prev : gmap string (option string)) : Prop := mkTree {
  tr_root : prev !! src = Some None /\ d src = 0%nat;
  tr_only : forall x, prev !! x = Some None -> x = src;
  tr_edge : forall x p, prev !! x = Some (Some p) -> visited prev p /\ d x = S (d p) /\ E p x;
  tr_depth : forall x, visited prev x -> (d x < size prev)%nat }.

(** The search front: the queue in order of depth, everything visited outside
    it expanded. *)
Record front (d : string -> nat) (prev : gmap string (option string)) (queue : list string) : Prop := mkFront {
  fr_in : forall x, x ∈ queue -> visited prev x;
  fr_sorted : StronglySorted (fun x y => d x <= d y)%nat queue;
  fr_near : forall h q, queue = h :: q ->
    (forall x, visited prev x -> (d x <= S (d h))%nat) /\ (forall x, visited prev x -> ~ x ∈ queue -> (d x <= d h)%nat);
  fr_done : forall x y, visited prev x -> ~ x ∈ queue -> E x y -> visited prev y /\ (d y <= S (d x))%nat }.

Definition deepen (d : string -> nat) (n : string) (k : nat) : string -> nat := fun x => if decide (x = n) then k else d x.

Lemma deepen_other d n k x : x <> n -> deepen d n k x = d x.
Proof. intros Hx. unfold deepen. by rewrite decide_False. Qed.
Lemma deepen_self d n k : deepen d n k n = k.
Proof. unfold deepen. by rewrite decide_True. Qed.

Lemma visited_insert prev n o x : visited (<[n := o]> prev) x <-> x = n \/ visited prev x.
Proof.
  unfold visited. destruct (decide (x = n)) as [->|]; [rewrite lookup_insert_eq; naive_solver|].
  rewrite lookup_insert_ne by done. naive_solver.
Qed.

Lemma tree_insert d prev node n :
  tree d prev -> visited prev node -> ~ visited prev n -> E node n ->
  tree (deepen d n (S (d node))) (<[n := Some node]> prev).
Proof.
  intros [[Hr1 Hr2] Ho He Hd] Hnode Hn Hedge.
  assert (Hne : forall x, visited prev x -> x <> n) by (intros x Hx ->; done).
  assert (Hsn : src <> n) by (apply Hne; unfold visited; rewrite Hr1; by eexists).
  split.
  - rewrite lookup_insert_ne by done. by rewrite deepen_other.
  - intros x. destruct (decide (x = n)) as [->|]; [by rewrite lookup_insert_eq|]. rewrite lookup_insert_ne by done. apply Ho.
  - intros x p. rewrite visited_insert. destruct (decide (x = n)) as [->|Hx].
    + rewrite lookup_insert_eq. intros [=<-]. rewrite deepen_self, deepen_other by by apply Hne. auto.
    + rewrite lookup_insert_ne by done. intros (Hp & Hdx & Hpx)%He. rewrite deepen_other, deepen_other by (done || by apply Hne). auto.
  - intros x Hx. rewrite map_size_insert_None by by apply eq_None_not_Some. apply visited_insert in Hx as [->|Hx].
    + rewrite deepen_self. specialize (Hd _ Hnode). lia.
    + rewrite deepen_other by by apply Hne. specialize (Hd _ Hx). lia.
Qed.

Lemma sorted_snoc {A} (R : A -> A -> Prop) l x : StronglySorted R l -> (forall y, y ∈ l -> R y x) -> StronglySorted R (l ++ [x]).
Proof.
  induction 1 as [|y l Hs IH Hy]; intros Hx; cbn [app]; [repeat constructor|].
  constructor; [apply IH; intros; apply Hx; by right|]. apply Forall_app. split; [done|]. repeat constructor. apply Hx. by left.
Qed.

Lemma sorted_ext {A} (R R' : A -> A -> Prop) l :
  (forall x y, x ∈ l -> y ∈ l -> R x y -> R' x y) -> StronglySorted R l -> StronglySorted R' l.
Proof.
  intros Hr. induction 1 as [|y l Hs IH Hy]; [constructor|]. constructor; [apply IH; intros x z Hx Hz; apply Hr; by right|].
  rewrite List.Forall_forall in *. intros z Hz%list_elem_of_In. apply Hr; [by left|by right|]. apply Hy. by apply list_elem_of_In.
Qed.

Lemma front_insert d prev node queue n :
  front d prev (node :: queue) -> ~ visited prev n ->
  front (deepen d n (S (d node))) (<[n := Some node]> prev) (node :: queue ++ [n]).
Proof.
  intros [Hin Hs Hnear Hdone] Hn. destruct (Hnear _ _ eq_refl) as [Hn1 Hn2].
  assert (Hne : forall x, visited prev x -> x <> n) by (intros x Hx ->; done).
  assert (Hnode : visited prev node) by (apply Hin; by left).
  assert (Hd : forall x, visited prev x -> deepen d n (S (d node)) x = d x) by (intros x Hx; apply deepen_other; by apply Hne).
  change (node :: queue ++ [n]) with ((node :: queue) ++ [n]).
  assert (Hq : forall x, x ∈ (node :: queue) ++ [n] <-> x ∈ node :: queue \/ x = n)
    by (intros x; rewrite elem_of_app, list_elem_of_singleton; done).
  split.
  - intros x Hx%Hq. rewrite visited_insert. destruct Hx as [?|?]; auto.
  - apply sorted_snoc.
    + eapply sorted_ext; [|exact Hs]. intros x y Hx Hy. by rewrite !Hd by by apply Hin.
    + intros y Hy. rewrite Hd, deepen_self by by apply Hin. apply Hn1. by apply Hin.
  - intros h q [= <- _]. rewrite (Hd node) by done. split; intros x Hx; [|intros Hnq]; apply visited_insert in Hx as [->|Hx].
    + by rewrite deepen_self.
    + rewrite Hd by done. by apply Hn1.
    + rewrite Hq in Hnq. tauto.
    + rewrite Hd by done. rewrite Hq in Hnq. apply Hn2; tauto.
  - intros x y Hx Hnq Hxy. rewrite Hq in Hnq. apply visited_insert in Hx as [->|Hx]; [tauto|].
    destruct (Hdone x y) as [Hy Hdy]; [done|tauto|done|]. rewrite visited_insert, !Hd by done. auto.
Qed.

(** Once its neighbours are visited, the head of the queue is done. *)
Lemma front_pop d prev node queue :
  front d prev (node :: queue) -> (forall y, E node y -> visited prev y) -> front d prev queue.
Proof.
  intros [Hin Hs Hnear Hdone] Hexp. destruct (Hnear _ _ eq_refl) as [Hn1 Hn2]. apply StronglySorted_inv in Hs as [Hs Hle].
  rewrite List.Forall_forall in Hle. split; [intros; apply Hin; by right|done| |].
  - intros h q ->. assert (Hh : (d node <= d h)%nat) by (apply Hle; by left). split; intros x Hx.
    + specialize (Hn1 x Hx). lia.
    + intros Hnq. destruct (decide (x = node)) as [->|]; [done|]. etrans; [|exact Hh]. apply Hn2; [done|]. by intros [?|?]%elem_of_cons.
  - intros x y Hx Hnq Hxy. destruct (decide (x = node)) as [->|]; [|apply (Hdone x y); [done| |done]; by intros [?|?]%elem_of_cons].
    split; [by apply Hexp|]. apply Hn1. by apply Hexp.
Qed.

(** Every walk from the source stays in the visited part until it crosses the front. *)
Lemma walk_front d prev queue y k :
  tree d prev -> front d prev queue -> walk src y k ->
  (visited prev y /\ (d y <= k)%nat) \/ exists w, w ∈ queue /\ (d w < k)%nat.
Proof.
  intros [[Hr1 Hr2] _ _ _] [_ _ _ Hdone]. induction 1 as [|y z k Hw IH Hyz].
  - left. split; [unfold visited; rewrite Hr1; by eexists|lia].
  - destruct IH as [[Hv Hd]|(w & Hw' & Hd)]; [|right; exists w; split; [done|lia]].
    destruct (decide (y ∈ queue)) as [Hq|Hq]; [right; exists y; split; [done|lia]|].
    left. destruct (Hdone _ _ Hv Hq Hyz). split; [done|lia].
Qed.

(** The walk back along the predecessors is a path from the source. *)
Lemma path_in_snoc l a b : path_in (l ++ [a]) -> E a b -> path_in (l ++ [a; b]).
Proof.
  induction l as [|x l IH]; cbn [app path_in]; [tauto|]. destruct l as [|y l]; cbn [app path_in] in *; tauto.
Qed.

Lemma walk_back_spec d prev : tree d prev -> forall fuel x path, visited prev x -> (d x < fuel)%nat ->
  exists l, walk_back fuel prev x path = path ++ l /\ length l = d x /\ path_in (rev (x :: l)) /\ head (rev (x :: l)) = Some src.
Proof.
  intros Ht. destruct (Ht) as [[Hr1 Hr2] Ho He Hd]. induction fuel as [|fuel IH]; intros x path Hx Hf; [lia|]. cbn [walk_back].
  destruct (prev !! x) as [[p|]|] eqn:Hp; [| |unfold visited in Hx; rewrite Hp in Hx; by destruct Hx].
  - destruct (He _ _ Hp) as (Hvp & Hdx & Hpx). destruct (IH p (path ++ [p]) Hvp ltac:(lia)) as (l & -> & Hl & Hpath & Hhd).
    exists (p :: l). cbn [rev] in *. split_and!.
    + by rewrite <- app_assoc.
    + cbn [length]. lia.
    + rewrite <- app_assoc. cbn [app]. by apply path_in_snoc.
    + rewrite <- Hhd. by destruct (rev l).
  - exists []. rewrite app_nil_r. apply Ho in Hp as ->. cbn. auto.
Qed.

(** What the loop over the neighbours leaves. *)
Lemma scan_spec node ns : forall d prev queue,
  tree d prev -> front d prev (node :: queue) -> ~ visited prev dst -> (forall n, n ∈ ns -> E node n) ->
  let '(prev', queue', found) := scan dst node ns prev queue in
  exists d', tree d' prev' /\
  if found then visited prev' dst /\ d' dst = S (d' node) /\ d' node = d node
  else front d' prev' (node :: queue') /\ ~ visited prev' dst /\ (forall n, n ∈ ns -> visited prev' n) /\
       (forall x, visited prev x -> visited prev' x) /\ (size prev' + length queue = size prev + length queue')%nat.
Proof.
  induction ns as [|n ns IH]; intros d prev queue Ht Hf Hdst Hns; cbn [scan].
  { exists d. split_and!; try done. by intros n ?%not_elem_of_nil. }
  assert (Hns' : forall m, m ∈ ns -> E node m) by (intros; apply Hns; by right).
  destruct (bool_decide_reflect (is_Some (prev !! n))) as [Hv|Hv].
  - specialize (IH d prev queue Ht Hf Hdst Hns'). destruct (scan dst node ns prev queue) as [[prev' queue'] found].
    destruct IH as (d' & Ht' & IH). exists d'. split; [done|]. destruct found; [done|].
    destruct IH as (H1 & H2 & H3 & H4 & H5). split_and!; try done. intros m [->|Hm]%elem_of_cons; auto.
  - assert (Hnode : visited prev node) by (apply (fr_in _ _ _ Hf); by left).
    pose proof (tree_insert d prev node n Ht Hnode Hv (Hns n ltac:(by left))) as Ht1.
    destruct (String.eqb n dst) eqn:Hnd.
    + apply String.eqb_eq in Hnd as ->. exists (deepen d dst (S (d node))). split; [done|].
      rewrite visited_insert, deepen_self, deepen_other by (intros ->; done). auto.
    + apply String.eqb_neq in Hnd. pose proof (front_insert d prev node queue n Hf Hv) as Hf1.
      specialize (IH _ _ (queue ++ [n]) Ht1 Hf1). destruct (scan dst node ns _ _) as [[prev' queue'] found].
      destruct IH as (d' & Ht' & IH); [by intros [?|?]%visited_insert; congruence|done|]. exists d'. split; [done|].
      rewrite deepen_other in IH by (intros ->; done). destruct found; [done|].
      destruct IH as (H1 & H2 & H3 & H4 & H5). split_and!; try done.
      * intros m [->|Hm]%elem_of_cons; [|by apply H3]. apply H4, visited_insert. by left.
      * intros x Hx. apply H4, visited_insert. by right.
      * rewrite map_size_insert_None in H5 by by apply eq_None_not_Some. rewrite length_app in H5. cbn [length] in H5. lia.
Qed.

(** The nodes the search can meet. *)
Variable nodes : gset string.
Hypothesis nodes_src : src ∈ nodes.
Hypothesis nodes_closed : forall a b, a ∈ nodes -> E a b -> b ∈ nodes.

Lemma tree_in_nodes d prev : tree d prev -> forall k x, visited prev x -> (d x < k)%nat -> x ∈ nodes.
Proof.
  intros [[Hr1 Hr2] Ho He Hd]. induction k as [|k IH]; intros x Hx Hk; [lia|].
  destruct (prev !! x) as [[p|]|] eqn:Hp; [| |unfold visited in Hx; rewrite Hp in Hx; by destruct Hx].
  - destruct (He _ _ Hp) as (Hvp & Hdx & Hpx). apply (nodes_closed p); [|done]. apply IH; [done|lia].
  - by apply Ho in Hp as ->.
Qed.

Lemma tree_size d prev : tree d prev -> (size prev <= size nodes)%nat.
Proof.
  intros Ht. rewrite <- size_dom. apply subseteq_size. intros x Hx%elem_of_dom. eapply (tree_in_nodes d prev Ht (S (d x))); [done|lia].
Qed.

(** The result of a search: a shortest path, or the proof that there is none. *)
Definition shortest (r : option (list string)) : Prop :=
  match r with
  | Some p => path_in p /\ head p = Some src /\ last p = Some dst /\ forall k, walk src dst k -> (length p <= S k)%nat
  | None => forall k, ~ walk src dst k
  end.

Lemma search_spec : forall fuel d prev queue,
  tree d prev -> front d prev queue -> ~ visited prev dst ->
  (size nodes + length queue <= size prev + fuel)%nat -> shortest (search nbrs dst fuel prev queue).
Proof.
  induction fuel as [|fuel IH]; intros d prev queue Ht Hf Hdst Hfuel; cbn [search].
  { pose proof (tree_size d prev Ht). destruct queue as [|h q]; [|cbn [length] in Hfuel; lia].
    intros k Hw. destruct (walk_front d prev [] dst k Ht Hf Hw) as [[? _]|(w & []%not_elem_of_nil & _)]; done. }
  destruct queue as [|node queue].
  { intros k Hw. destruct (walk_front d prev [] dst k Ht Hf Hw) as [[? _]|(w & []%not_elem_of_nil & _)]; done. }
  pose proof (scan_spec node (nbrs node) d prev queue Ht Hf Hdst ltac:(done)) as Hscan.
  destruct (scan dst node (nbrs node) prev queue) as [[prev' queue'] found]. destruct Hscan as (d' & Ht' & Hscan).
  destruct found.
  - destruct Hscan as (Hv & Hdd & Hdn).
    destruct (walk_back_spec d' prev' Ht' (size prev') dst [dst] Hv (tr_depth _ _ Ht' _ Hv)) as (l & -> & Hl & Hp & Hh).
    cbn [app]. split_and!; [done|done| |].
    + cbn [rev]. by rewrite last_snoc.
    + intros k Hw. rewrite length_rev. cbn [length]. rewrite Hl, Hdd, Hdn.
      destruct (walk_front d prev _ dst k Ht Hf Hw) as [[? _]|(w & Hwq & Hwk)]; [done|].
      destruct Hf as [_ Hs _ _]. apply elem_of_cons in Hwq as [->|Hwq]; [lia|].
      apply StronglySorted_inv in Hs as [_ Hle]. rewrite List.Forall_forall in Hle. apply list_elem_of_In in Hwq. apply Hle in Hwq. lia.
  - destruct Hscan as (Hf' & Hdst' & Hexp & _ & Hsz). eapply IH; [done|by eapply front_pop|done|]. cbn [length] in Hfuel. lia.
Qed.

Lemma search_from_source fuel : src <> dst -> (size nodes <= fuel)%nat -> shortest (search nbrs dst fuel {[src := None]} [src]).
Proof.
  intros Hne Hfuel. apply (search_spec fuel (fun _ => 0%nat)).
  - assert (Hv : forall x, visited {[src := None]} x -> x = src) by (intros x [? [<- _]%lookup_singleton_Some]; done).
    split.
    + by rewrite lookup_singleton_eq.
    + intros x Hx. apply Hv. unfold visited. rewrite Hx. by eexists.
    + by intros x p [_ [=]]%lookup_singleton_Some.
    + intros x _. rewrite map_size_singleton. lia.
  - assert (Hv : forall x, visited {[src := None]} x -> x = src) by (intros x [? [<- _]%lookup_singleton_Some]; done).
    split.
    + intros x ->%list_elem_of_singleton. unfold visited. rewrite lookup_singleton_eq. by eexists.
    + repeat constructor.
    + intros h q _. split; intros; lia.
    + intros x y ->%Hv Hn. exfalso. apply Hn. by left.
  - intros [? [<- _]%lookup_singleton_Some]. done.
  - rewrite map_size_singleton. cbn [length]. lia.
Qed.
End bfs.

(** ** [shortest_path_qkc] *)

Lemma sorted_neighbors_linked t a b : b ∈ sorted_neighbors t a <-> linked t a b.
Proof. unfold sorted_neighbors, linked. rewrite merge_sort_Permutation. apply elem_of_elements. Qed.

Lemma graph_nodes_closed t a b : linked t a b -> b ∈ graph_nodes t.
Proof.
  unfold linked, graph_nodes. destruct (tp_graph t !! a) as [s|] eqn:Ea; cbn [from_option]; [|set_solver]. intros Hb.
  apply elem_of_union_r, elem_of_union_list. exists s. split; [|done].
  apply list_elem_of_fmap. exists (a, s). split; [done|]. by apply elem_of_map_to_list.
Qed.

Lemma shortest_path_spec t src dst :
  match shortest_path_qkc t src dst with
  | Some p => path_in (sorted_neighbors t) p /\ head p = Some src /\ last p = Some dst /\
      forall k, walk (sorted_neighbors t) src dst k -> (length p <= S k)%nat
  | None => tp_graph t !! src = None \/ tp_graph t !! dst = None \/ forall k, ~ walk (sorted_neighbors t) src dst k
  end.
Proof.
  unfold shortest_path_qkc. destruct (bool_decide_reflect (is_Some (tp_graph t !! src))) as [Hs|Hs]; cbn [negb orb].
  2:{ left. by apply eq_None_not_Some. }
  destruct (bool_decide_reflect (is_Some (tp_graph t !! dst))) as [Hd|Hd]; cbn [negb orb].
  2:{ right. left. by apply eq_None_not_Some. }
  destruct (String.eqb src dst) eqn:Hsd.
  - apply String.eqb_eq in Hsd as ->. cbn. split_and!; try done. intros; lia.
  - apply String.eqb_neq in Hsd.
    pose proof (search_from_source (sorted_neighbors t) src dst (graph_nodes t)) as Hsearch.
    assert (Hres : shortest (sorted_neighbors t) src dst (search (sorted_neighbors t) dst (size (graph_nodes t)) {[src := None]} [src])).
    { apply Hsearch; [|by intros a b _ Hab%sorted_neighbors_linked; by eapply graph_nodes_closed|done|done].
      unfold graph_nodes. apply elem_of_union_l. by apply elem_of_dom. }
    destruct (search _ _ _ _ _); [exact Hres|]. right. right. exact Hres.
Qed.

Lemma walk_rtc t a b k : walk (sorted_neighbors t) a b k -> rtc (linked t) a b.
Proof. induction 1 as [|b c n _ IH Hbc]; [apply rtc_refl|]. eapply rtc_r; [exact IH|]. by apply sorted_neighbors_linked. Qed.

Lemma rtc_walk t a b : rtc (linked t) a b -> exists k, walk (sorted_neighbors t) a b k.
Proof.
  intros Hr. apply (rtc_ind_r (fun x => exists k, walk (sorted_neighbors t) a x k) a) in Hr; [done|exists 0%nat; constructor|].
  intros x y _ Hxy [k Hk]. exists (S k). econstructor; [exact Hk|]. by apply sorted_neighbors_linked.
Qed.

Lemma path_rtc t p : path_in (sorted_neighbors t) p -> forall a b, head p = Some a -> last p = Some b -> rtc (linked t) a b.
Proof.
  induction p as [|x p IH]; intros Hp a b; [done|]. destruct p as [|y p]; cbn [head].
  - intros [=<-]. cbn [last]. intros [=<-]. apply rtc_refl.
  - intros [=<-] Hl. cbn [path_in] in Hp. destruct Hp as [Hxy Hp]. eapply rtc_l; [by apply sorted_neighbors_linked|]. by apply IH.
Qed.

(** A path is found exactly between joined nodes of the graph. *)
Lemma shortest_path_some t a b : is_Some (shortest_path_qkc t a b) <->
  is_Some (tp_graph t !! a) /\ is_Some (tp_graph t !! b) /\ rtc (linked t) a b.
Proof.
  pose proof (shortest_path_spec t a b) as Hs. split.
  - intros [p Hp]. rewrite Hp in Hs. destruct Hs as (H1 & H2 & H3 & _).
    unfold shortest_path_qkc in Hp. destruct (bool_decide_reflect (is_Some (tp_graph t !! a))); [|done].
    destruct (bool_decide_reflect (is_Some (tp_graph t !! b))); [|done]. split_and!; [done|done|]. by eapply path_rtc.
  - intros ([x Ha] & [y Hb] & Hr). destruct (shortest_path_qkc t a b) as [p|]; [by eexists|]. exfalso.
    destruct Hs as [?|[?|Hn]]; [congruence|congruence|]. apply rtc_walk in Hr as [k Hk]. by apply (Hn k).
Qed.

(** C19: the path between two QKCs the controller computes is a path of its
    graph from the one to the other and no walk between them has fewer
    hops; when it finds none, one of the two is not in the graph or no walk
    joins them. *)
Theorem shortest_path_is_shortest t src dst :
  match shortest_path_qkc t src dst with
  | Some p => path_in (sorted_neighbors t) p /\ head p = Some src /\ last p = Some dst /\
      forall k, walk (sorted_neighbors t) src dst k -> (length p <= S k)%nat
  | None => tp_graph t !! src = None \/ tp_graph t !! dst = None \/ forall k, ~ walk (sorted_neighbors t) src dst k
  end.
Proof. apply shortest_path_spec. Qed.

(** ** Components of the QKD links *)

(** A missing edge counts as not QKD. *)
Definition qkd_link (t : Topology) (a b : string) : bool :=
  match edge t a b with Some m => negb (is_pqc m) | None => false end.

Fixpoint flood_scan (ok : string -> bool) (id : nat) (ns : list string) (comp : gmap string nat) (queue : list string)
  : gmap string nat * list string :=
  match ns with
  | [] => (comp, queue)
  | n :: ns =>
      if bool_decide (is_Some (comp !! n)) then flood_scan ok id ns comp queue
      else if negb (ok n) then flood_scan ok id ns comp queue
      else flood_scan ok id ns (<[n := id]> comp) (queue ++ [n])
  end.

Fixpoint flood (t : Topology) (id : nat) (fuel : nat) (comp : gmap string nat) (queue : list string) : gmap string nat :=
  match fuel, queue with
  | S fuel, node :: queue =>
      let '(comp, queue) := flood_scan (qkd_link t node) id (sorted_neighbors t node) comp queue in
      flood t id fuel comp queue
  | _, _ => comp
  end.

Definition component_nodes (t : Topology) : gset string := dom (tp_qkcs t) ∪ graph_nodes t.

Fixpoint component_loop (t : Topology) (starts : list string) (comp : gmap string nat) (next : nat) : gmap string nat :=
  match starts with
  | [] => comp
  | start :: starts =>
      if bool_decide (is_Some (comp !! start)) then component_loop t starts comp next
      else component_loop t starts (flood t next (size (component_nodes t)) (<[start := next]> comp) [start]) (S next)
  end.

Definition qkd_components (t : Topology) : gmap string nat := component_loop t (sorted_keys (tp_qkcs t)) ∅ 0.

Definition qkd_connected_qkc (t : Topology) (a b : string) : bool :=
  if String.eqb a b then true
  else match qkd_components t !! a, qkd_components t !! b with
       | Some x, Some y => Nat.eqb x y
       | _, _ => false
       end.

Section flooding.
Variable t : Topology.
Hypothesis Hsync : sync t.

(** Joined by one QKD link. *)
Definition qkd_edge (a b : string) : Prop := linked t a b /\ qkd_link t a b = true.

Lemma qkd_edge_sym a b : qkd_edge a b -> qkd_edge b a.
Proof.
  intros [Hl Hq]. split; [by apply (sy_sym _ Hsync)|]. unfold qkd_link, edge in *. by rewrite edge_key_sym.
Qed.

(** A labelling closed under QKD links. *)
Record labelled (comp : gmap string nat) : Prop := mkLabelled {
  lb_sound : forall x y i, comp !! x = Some i -> comp !! y = Some i -> rtc qkd_edge x y;
  lb_closed : forall x y i, comp !! x = Some i -> qkd_edge x y -> comp !! y = Some i;
  lb_nodes : dom comp ⊆ component_nodes t }.

(** In the middle of a flood from [start]. *)
Record flooding (start : string) (id : nat) (comp : gmap string nat) (queue : list string) : Prop := mkFlooding {
  fl_new : forall x, comp !! x = Some id -> rtc qkd_edge start x;
  fl_queue : forall x, x ∈ queue -> comp !! x = Some id;
  fl_old : forall x y i, comp !! x = Some i -> i <> id -> qkd_edge x y -> comp !! y = Some i;
  fl_same : forall x y i, comp !! x = Some i -> comp !! y = Some i -> i <> id -> rtc qkd_edge x y;
  fl_done : forall x y, comp !! x = Some id -> ~ x ∈ queue -> qkd_edge x y -> comp !! y = Some id;
  fl_nodes : dom comp ⊆ component_nodes t;
  fl_range : forall x i, comp !! x = Some i -> (i <= id)%nat }.

Lemma flood_scan_spec start id node ns : forall comp queue,
  flooding start id comp (node :: queue) -> (forall n, n ∈ ns -> linked t node n) ->
  let '(comp', queue') := flood_scan (qkd_link t node) id ns comp queue in
  flooding start id comp' (node :: queue') /\ (forall n, n ∈ ns -> qkd_link t node n = true -> comp' !! n = Some id) /\
  (forall x i, comp !! x = Some i -> comp' !! x = Some i) /\ (size comp' + length queue = size comp + length queue')%nat.
Proof.
  induction ns as [|n ns IH]; intros comp queue Hf Hns; cbn [flood_scan].
  { split_and!; try done. by intros n ?%not_elem_of_nil. }
  assert (Hns' : forall m, m ∈ ns -> linked t node m) by (intros; apply Hns; by right).
  pose proof Hf as [F1 F2 F3 F4 F5 F6 F7].
  assert (Hnode : comp !! node = Some id) by (apply F2; by left).
  destruct (bool_decide_reflect (is_Some (comp !! n))) as [[j Hj]|Hnone].
  - specialize (IH comp queue Hf Hns'). destruct (flood_scan _ id ns comp queue) as [comp' queue'].
    destruct IH as (I1 & I2 & I3 & I4). split_and!; try done. intros m [->|Hm]%elem_of_cons Hq; [|by apply I2].
    apply I3. destruct (decide (j = id)) as [->|Hne]; [done|].
    assert (Hb : comp !! node = Some j) by (eapply F3; [exact Hj|done|]; apply qkd_edge_sym; split; [apply Hns; by left|done]). congruence.
  - destruct (negb (qkd_link t node n)) eqn:Hq.
    + specialize (IH comp queue Hf Hns'). destruct (flood_scan _ id ns comp queue) as [comp' queue'].
      destruct IH as (I1 & I2 & I3 & I4). split_and!; try done. intros m [->|Hm]%elem_of_cons Hqm; [|by apply I2].
      apply negb_true_iff in Hq. congruence.
    + apply negb_false_iff in Hq. assert (Hl : linked t node n) by (apply Hns; by left).
      assert (Hne : forall x i, comp !! x = Some i -> x <> n) by (intros x i Hx ->; apply Hnone; by eexists).
      assert (Hx : forall x i, (<[n:=id]> comp) !! x = Some i -> (x = n /\ i = id) \/ (x <> n /\ comp !! x = Some i)).
      { intros x i. destruct (decide (x = n)) as [->|]; [rewrite lookup_insert_eq; intros [=]; auto|rewrite lookup_insert_ne by done; auto]. }
      assert (Hk : forall x i, comp !! x = Some i -> (<[n:=id]> comp) !! x = Some i)
        by (intros x i Hxi; by rewrite lookup_insert_ne by (apply not_eq_sym; by eapply Hne)).
      assert (Hf1 : flooding start id (<[n:=id]> comp) (node :: queue ++ [n])).
      { split.
        - intros x [[-> _]|[_ Hxi]]%Hx; [|by apply F1]. eapply rtc_r; [by apply F1|by split].
        - intros x Hxq. change (node :: queue ++ [n]) with ((node :: queue) ++ [n]) in Hxq.
          apply elem_of_app in Hxq as [Hxq| ->%list_elem_of_singleton]; [apply Hk; by apply F2|by rewrite lookup_insert_eq].
        - intros x y i [[_ ->]|[_ Hxi]]%Hx Hi Hxy; [done|]. apply Hk. by eapply F3.
        - intros x y i [[_ Ei]|[_ Hxi]]%Hx [[_ Ej]|[_ Hyi]]%Hx Hi; [done|done|done|]. by eapply F4.
        - intros x y [[-> _]|[_ Hxi]]%Hx Hnq Hxy; [exfalso; apply Hnq; set_solver|]. apply Hk. apply (F5 x); [done| |done]. set_solver.
        - rewrite dom_insert_L. apply union_subseteq. split; [|done]. apply singleton_subseteq_l. unfold component_nodes.
          apply elem_of_union_r. by eapply graph_nodes_closed.
        - intros x i [[_ ->]|[_ Hxi]]%Hx; [done|by eapply F7]. }
      specialize (IH _ _ Hf1 Hns'). destruct (flood_scan _ id ns _ _) as [comp' queue'].
      destruct IH as (I1 & I2 & I3 & I4). split_and!; try done.
      * intros m [->|Hm]%elem_of_cons Hqm; [|by apply I2]. apply I3. by rewrite lookup_insert_eq.
      * intros x i Hxi. apply I3, Hk, Hxi.
      * rewrite map_size_insert_None, length_app in I4 by by apply eq_None_not_Some. cbn [length] in I4. lia.
Qed.

Lemma flood_spec start id : forall fuel comp queue,
  flooding start id comp queue -> (size (component_nodes t) + length queue <= size comp + fuel)%nat ->
  flooding start id (flood t id fuel comp queue) [] /\ (forall x i, comp !! x = Some i -> flood t id fuel comp queue !! x = Some i).
Proof.
  induction fuel as [|fuel IH]; intros comp queue Hf Hfuel; cbn [flood].
  { destruct queue as [|h q]; [done|]. pose proof (fl_nodes _ _ _ _ Hf) as Hn. apply subseteq_size in Hn.
    rewrite size_dom in Hn. cbn [length] in Hfuel. lia. }
  destruct queue as [|node queue]; [done|].
  pose proof (flood_scan_spec start id node (sorted_neighbors t node) comp queue Hf
    (fun n => proj1 (sorted_neighbors_linked t node n))) as Hs.
  destruct (flood_scan _ id _ comp queue) as [comp' queue']. destruct Hs as ([F1 F2 F3 F4 F5 F6 F7] & Hexp & Hmono & Hsz).
  assert (Hf' : flooding start id comp' queue').
  { split; [done|intros; apply F2; by right|done|done| |done|done]. intros x y Hx Hnq Hxy.
    destruct (decide (x = node)) as [->|Hne]; [|apply (F5 x); [done|by intros [?|?]%elem_of_cons|done]].
    apply Hexp; [by apply sorted_neighbors_linked, Hxy|apply Hxy]. }
  destruct (IH comp' queue' Hf') as [IH1 IH2]; [cbn [length] in Hfuel; lia|]. split; [done|]. intros x i Hx. by apply IH2, Hmono.
Qed.

Lemma component_loop_spec starts : forall comp next,
  labelled comp -> (forall x i, comp !! x = Some i -> (i < next)%nat) -> (forall x, x ∈ starts -> x ∈ component_nodes t) ->
  let comp' := component_loop t starts comp next in
  labelled comp' /\ (forall x i, comp !! x = Some i -> comp' !! x = Some i) /\ (forall x, x ∈ starts -> is_Some (comp' !! x)).
Proof.
  induction starts as [|s starts IH]; intros comp next Hl Hnext Hst; cbn [component_loop].
  { split_and!; [done|done|]. by intros x ?%not_elem_of_nil. }
  assert (Hst' : forall x, x ∈ starts -> x ∈ component_nodes t) by (intros; apply Hst; by right).
  destruct (bool_decide_reflect (is_Some (comp !! s))) as [[j Hj]|Hnone].
  - destruct (IH comp next Hl Hnext Hst') as (I1 & I2 & I3). split_and!; [done|done|].
    intros x [->|Hx]%elem_of_cons; [|by apply I3]. exists j. by apply I2.
  - assert (Hfresh : forall x i, (<[s:=next]> comp) !! x = Some i -> (x = s /\ i = next) \/ (comp !! x = Some i /\ i <> next)).
    { intros x i. destruct (decide (x = s)) as [->|]; [rewrite lookup_insert_eq; intros [=]; auto|].
      rewrite lookup_insert_ne by done. intros Hx. right. split; [done|]. apply Hnext in Hx. lia. }
    assert (Hk : forall x i, comp !! x = Some i -> (<[s:=next]> comp) !! x = Some i).
    { intros x i Hx. rewrite lookup_insert_ne; [done|]. intros ->. apply Hnone. by eexists. }
    destruct Hl as [L1 L2 L3].
    assert (Hf : flooding s next (<[s:=next]> comp) [s]).
    { split.
      - intros x [[-> _]|[_ ?]]%Hfresh; [apply rtc_refl|done].
      - intros x ->%list_elem_of_singleton. by rewrite lookup_insert_eq.
      - intros x y i [[_ ->]|[Hx _]]%Hfresh Hi Hxy; [done|]. apply Hk. by eapply L2.
      - intros x y i [[_ Ei]|[Hx _]]%Hfresh [[_ Ej]|[Hy _]]%Hfresh Hi; [done|done|done|]. by eapply L1.
      - intros x y [[-> _]|[_ ?]]%Hfresh Hnq; [exfalso; apply Hnq; by left|done].
      - rewrite dom_insert_L. apply union_subseteq. split; [|done]. apply singleton_subseteq_l, Hst. by left.
      - intros x i [[_ ->]|[Hx _]]%Hfresh; [done|]. apply Hnext in Hx. lia. }
    destruct (flood_spec s next (size (component_nodes t)) _ _ Hf) as [[F1 F2 F3 F4 F5 F6 F7] Hmono].
    { rewrite map_size_insert_None by by apply eq_None_not_Some. cbn [length]. lia. }
    set (comp1 := flood _ _ _ _ _) in *.
    assert (Hl1 : labelled comp1).
    { split; [| |done].
      - intros x y i Hx Hy. destruct (decide (i = next)) as [->|Hi]; [|by eapply F4].
        etrans; [|by apply F1]. apply F1 in Hx. clear -Hx Hsync. induction Hx as [|a b c Hab _ IHr]; [apply rtc_refl|].
        eapply rtc_r; [exact IHr|]. by apply qkd_edge_sym.
      - intros x y i Hx Hxy. destruct (decide (i = next)) as [->|Hi]; [|by eapply F3].
        apply (F5 x); [done|apply not_elem_of_nil|done]. }
    assert (Hnext1 : forall x i, comp1 !! x = Some i -> (i < S next)%nat) by (intros x i Hx%F7; lia).
    destruct (IH comp1 (S next) Hl1 Hnext1 Hst') as (I1 & I2 & I3). split_and!; [done| |].
    + intros x i Hx. by apply I2, Hmono, Hk.
    + intros x [->|Hx]%elem_of_cons; [|by apply I3]. exists next. apply I2, Hmono. by rewrite lookup_insert_eq.
Qed.
End flooding.

Lemma labelled_empty t : labelled t ∅.
Proof. split; [intros x y i Hx|intros x y i Hx|rewrite dom_empty_L; apply empty_subseteq]; by rewrite lookup_empty in Hx. Qed.

Lemma components_spec t : sync t -> labelled t (qkd_components t) /\ forall x, registered t x -> is_Some (qkd_components t !! x).
Proof.
  intros Hs. destruct (component_loop_spec t Hs (sorted_keys (tp_qkcs t)) ∅ 0 (labelled_empty t)) as (H1 & _ & H3).
  - intros x i Hx. by rewrite lookup_empty in Hx.
  - intros x Hx%sorted_keys_elem. unfold component_nodes. apply elem_of_union_l. by apply elem_of_dom.
  - split; [done|]. intros x Hx. apply H3. by apply sorted_keys_elem.
Qed.

Lemma qkd_connected_spec t a b : sync t -> qkd_connected_qkc t a b = true <-> rtc (qkd_edge t) a b.
Proof.
  intros Hs.
  destruct (components_spec t Hs) as [[L1 L2 L3] Hall]. unfold qkd_connected_qkc.
  destruct (String.eqb a b) eqn:Hab; [apply String.eqb_eq in Hab as ->; split; [by intros|done]|]. apply String.eqb_neq in Hab. split.
  - destruct (qkd_components t !! a) as [x|] eqn:Ha, (qkd_components t !! b) as [y|] eqn:Hb; try done.
    intros ->%Nat.eqb_eq. by eapply L1.
  - intros Hp. assert (Hra : registered t a).
    { inversion Hp as [|? c ? [Hl _] _]; subst; [done|]. by apply (linked_registered t a c Hs). }
    destruct (Hall _ Hra) as [i Hi]. rewrite Hi.
    assert (Hb : qkd_components t !! b = Some i).
    { clear -Hp Hi L2. induction Hp as [|x y z Hxy _ IH]; [done|]. apply IH. by eapply L2. }
    rewrite Hb. apply Nat.eqb_refl.
Qed.

(** The controller says that two QKCs are QKD-connected exactly when a
    chain of links of its graph, none of them PQC, joins them. *)
Theorem qkd_connected_iff_path `{Libm, HashOrder} ops a b :
  let t := st_topo (sdn_run ops) in qkd_connected_qkc t a b = true <-> rtc (qkd_edge t) a b.
Proof. apply qkd_connected_spec, go_sync, sdn_run_graph. Qed.

(** ** [routing::compute] *)

Inductive Policy := ShortestHops | MinLatency | MaxAvailableCapacity | MinCostFlow.
Record Path := mkPath { pa_nodes : list string; pa_estimated_latency_us : Z; pa_bottleneck_capacity_bps : Z }.
Definition FIBRE_US_PER_KM : Z := 5.

Fixpoint path_cost `{Libm} (t : Topology) (nodes : list string) (bottleneck : f64) (latency_us : Z) : f64 * Z :=
  match nodes with
  | a :: ((b :: _) as rest) =>
      match edge t a b with
      | Some meta =>
          let latency_us := latency_us + em_distance_km meta * FIBRE_US_PER_KM in
          path_cost t rest (if is_pqc meta then bottleneck else fmin bottleneck (capacity_keys_per_second meta)) latency_us
      | None => path_cost t rest bottleneck latency_us
      end
  | _ => (bottleneck, latency_us)
  end.

(** Every policy resolves by hops. *)
Definition compute `{Libm} (s : Store) (src dst : string) (required_bps : Z) (policy : Policy) : res SdnError Path :=
  let topo := st_topo s in
  let unknown n := negb (bool_decide (is_Some (tp_qkcs topo !! n))) && negb (bool_decide (is_Some (tp_graph topo !! n))) in
  if unknown src then Err (UnknownNode src)
  else if unknown dst then Err (UnknownNode dst)
  else match shortest_path_qkc topo src dst with
  | None => Err (NoPath src dst)
  | Some nodes =>
      let '(bottleneck, latency_us) := path_cost topo nodes f_inf 0 in
      Ok (mkPath nodes latency_us (if is_finite bottleneck then f_as_u 64 bottleneck else 0))
  end.

(** ** [GetOrrPath]: the routers along the shortest path of QKCs *)

Inductive OrrPathError := InvalidArgument | NotFound (what : string).

Definition get_orr_path (t : Topology) (src_orr dst_orr : string) : res OrrPathError (list string) :=
  if String.eqb src_orr "" || String.eqb dst_orr "" then Err InvalidArgument
  else if String.eqb src_orr dst_orr then Ok [src_orr]
  else match tp_orrs t !! src_orr with
  | None => Err (NotFound src_orr)
  | Some so =>
      match tp_orrs t !! dst_orr with
      | None => Err (NotFound dst_orr)
      | Some od =>
          match shortest_path_qkc t (or_qkc_id so) (or_qkc_id od) with
          | None => Err (NotFound (or_qkc_id so))
          | Some qkc_path => Ok (omap (tp_orr_by_qkc t !!.) qkc_path)
          end
      end
  end.
