(* ===== verification/SdnWcmp.v ===== *)
(** * Forwarding tables from the topology (sdn/src/mcmcf.rs, mcf.rs, service.rs)

    [wcmp_from_topology] builds the weighted next hops every QKC forwards by:
    for each destination a breadth-first search from it over the edges of the
    grade asked for, and at each node the neighbours strictly closer, with the
    bottleneck of the best descending path as weight.  Indexing a map that
    lacks the key is a panic, modelled as [None].

    Shown: the construction never panics; following the tables, whatever hop
    is drawn at each node, always comes strictly closer and, as long as the
    destination is joined to the node, always has a next hop, so every frame
    arrives without a loop; the hops of the QKD tables are QKD links.  The
    last needs the identifiers to be canonical decimals: a theorem shows what
    a leading zero does. *)

From Stdlib Require Import ZArith Lia String SpecFloat.
From stdpp Require Import sorting strings.
From S2P Require Import Prelude Text Float64 Security SdnTopology SdnStore SdnGraph SdnRegistry SdnPaths.

(** ** Weights *)

Record WcmpNextHop := mkHop { wh_qkc_id : Z; wh_weight : Z }.

Definition WCMP_WEIGHT_SCALE : f64 := f_of_Z 100.
Definition WCMP_MIN_WEIGHT : Z := 1.

Definition quantise_weight (keys_per_second : f64) : Z :=
  let scaled := fround (fmul keys_per_second WCMP_WEIGHT_SCALE) in
  if is_nan scaled then WCMP_MIN_WEIGHT
  else f_as_u 32 (fclamp scaled (f_of_Z WCMP_MIN_WEIGHT) (f_of_Z (2 ^ 32 - 1))).

Definition hop_le (a b : WcmpNextHop) : Prop := wh_qkc_id a <= wh_qkc_id b.
#[export] Instance hop_le_dec a b : Decision (hop_le a b) := Z_le_dec _ _.
Definition sort_hops (hops : list WcmpNextHop) : list WcmpNextHop := merge_sort hop_le hops.

(** ** The construction *)

Abbreviation Wcmp := (gmap string (gmap string (list WcmpNextHop))).

Section tables.
Context `{LM : Libm}.

(** The neighbours of [v] with the capacity of the link, by name. *)
Definition adj_of (t : Topology) (grade : option KeyGrade) (v : string) : list (string * f64) :=
  sort_by_id fst (concat (map (fun km : (string * string) * EdgeMeta =>
    if bool_decide (grade = Some GradeQkd) && is_pqc km.2 then []
    else
      let cap := capacity_keys_per_second km.2 in
      (if String.eqb km.1.1 v then [(km.1.2, cap)] else []) ++ (if String.eqb km.1.2 v then [(km.1.1, cap)] else []))
    (map_to_list (tp_edges t)))).

Fixpoint dist_scan (dv : nat) (ns : list (string * f64)) (dist : gmap string nat) (queue order : list string)
  : gmap string nat * list string * list string :=
  match ns with
  | [] => (dist, queue, order)
  | (n, _) :: ns =>
      if bool_decide (is_Some (dist !! n)) then dist_scan dv ns dist queue order
      else dist_scan dv ns (<[n := S dv]> dist) (queue ++ [n]) (order ++ [n])
  end.

Fixpoint dist_loop (adj : string -> list (string * f64)) (fuel : nat) (dist : gmap string nat) (queue order : list string)
  : option (gmap string nat * list string) :=
  match fuel, queue with
  | S fuel, v :: queue =>
      match dist !! v with
      | None => None
      | Some dv =>
          let '(dist, queue, order) := dist_scan dv (adj v) dist queue order in
          dist_loop adj fuel dist queue order
      end
  | _, _ => Some (dist, order)
  end.

(** The [for] over the neighbours of [v]: only those strictly closer. *)
Fixpoint hop_scan (dist : gmap string nat) (width : gmap string f64) (dv : nat) (ns : list (string * f64))
    (best : f64) (hops : list WcmpNextHop) : option (f64 * list WcmpNextHop) :=
  match ns with
  | [] => Some (best, hops)
  | (n, cap) :: ns =>
      if negb (bool_decide (dist !! n = Some (dv - 1)%nat)) then hop_scan dist width dv ns best hops
      else match width !! n with
      | None => None
      | Some wn =>
          let through := fmin cap wn in
          let hops := match parse_u 32 n with
            | Some qkc_id => hops ++ [mkHop qkc_id (quantise_weight through)]
            | None => hops end in
          hop_scan dist width dv ns (fmax best through) hops
      end
  end.

Definition out_insert (v dst : string) (hops : list WcmpNextHop) (out : Wcmp) : Wcmp :=
  <[v := <[dst := hops]> (default ∅ (out !! v))]> out.

Fixpoint width_loop (adj : string -> list (string * f64)) (dst : string) (dist : gmap string nat) (order : list string)
    (width : gmap string f64) (out : Wcmp) : option Wcmp :=
  match order with
  | [] => Some out
  | v :: order =>
      match dist !! v with
      | None => None
      | Some dv =>
          match hop_scan dist width dv (adj v) f_zero [] with
          | None => None
          | Some (best, hops) =>
              let out := match hops with [] => out | _ => out_insert v dst (sort_hops hops) out end in
              width_loop adj dst dist order (<[v := best]> width) out
          end
      end
  end.

Definition dst_tables (adj : string -> list (string * f64)) (fuel : nat) (dst : string) (out : Wcmp) : option Wcmp :=
  '(dist, order) ← dist_loop adj fuel {[dst := 0%nat]} [dst] [dst];
  width_loop adj dst dist (drop 1 order) {[dst := f_inf]} out.

Fixpoint all_tables (adj : string -> list (string * f64)) (fuel : nat) (dests : list string) (out : Wcmp) : option Wcmp :=
  match dests with
  | [] => Some out
  | dst :: dests => out ← dst_tables adj fuel dst out; all_tables adj fuel dests out
  end.

(** Every name in the edges or the QKCs. *)
Definition wcmp_nodes (t : Topology) : gset string :=
  dom (tp_qkcs t) ∪ list_to_set ((map_to_list (tp_edges t)).*1.*1) ∪ list_to_set ((map_to_list (tp_edges t)).*1.*2).

Definition wcmp_from_topology (t : Topology) (grade : option KeyGrade) : option Wcmp :=
  all_tables (adj_of t grade) (size (wcmp_nodes t)) (sorted_keys (tp_qkcs t)) ∅.
End tables.

Definition hops_at (w : Wcmp) (v dst : string) : option (list WcmpNextHop) := w !! v ≫= (.!! dst).

(** ** Levels of the search from a destination *)

Section levels.
Variable adj : string -> list (string * f64).
Variable dst : string.
Variable nodes : gset string.

Definition A (v n : string) : Prop := n ∈ (adj v).*1.
Hypothesis A_sym : forall v n, A v n -> A n v.
Hypothesis A_nodes : forall v n, A v n -> n ∈ nodes.
Hypothesis dst_node : dst ∈ nodes.

Definition lvl (dist : gmap string nat) (x : string) : nat := default 0%nat (dist !! x).

Record levels (dist : gmap string nat) (queue order : list string) : Prop := mkLevels {
  lv_root : dist !! dst = Some 0%nat;
  lv_up : forall x k, dist !! x = Some k -> x = dst \/ exists y j, k = S j /\ dist !! y = Some j /\ A y x;
  lv_order : forall x, x ∈ order <-> is_Some (dist !! x);
  lv_first : exists rest, order = dst :: rest /\ ~ dst ∈ rest;
  lv_suffix : exists pre, order = pre ++ queue;
  lv_sorted : StronglySorted (fun x y => lvl dist x <= lvl dist y)%nat order;
  lv_near : forall h q, queue = h :: q -> forall x, is_Some (dist !! x) -> (lvl dist x <= S (lvl dist h))%nat;
  lv_done : forall x y, is_Some (dist !! x) -> ~ x ∈ queue -> A x y -> is_Some (dist !! y);
  lv_nodes : dom dist ⊆ nodes }.

Lemma lvl_insert dist n k x : x <> n -> lvl (<[n := k]> dist) x = lvl dist x.
Proof. intros Hx. unfold lvl. by rewrite lookup_insert_ne. Qed.

Lemma levels_insert dist v queue order n :
  levels dist (v :: queue) order -> dist !! n = None -> A v n ->
  levels (<[n := S (lvl dist v)]> dist) (v :: queue ++ [n]) (order ++ [n]).
Proof.
  intros [L1 L2 L3 (rest & L4 & L4') (pre & L5) L6 L7 L8 L9] Hn Hvn.
  assert (Hne : forall x, is_Some (dist !! x) -> x <> n) by (intros x [? Hx] ->; congruence).
  assert (Hv : is_Some (dist !! v)) by (apply L3; rewrite L5; set_solver).
  assert (Hi : forall x, is_Some ((<[n := S (lvl dist v)]> dist) !! x) <-> x = n \/ is_Some (dist !! x)).
  { intros x. destruct (decide (x = n)) as [->|]; [rewrite lookup_insert_eq; naive_solver|rewrite lookup_insert_ne by done; naive_solver]. }
  assert (Hl : forall x, is_Some (dist !! x) -> lvl (<[n := S (lvl dist v)]> dist) x = lvl dist x) by (intros x Hx; apply lvl_insert; auto).
  assert (Hln : lvl (<[n := S (lvl dist v)]> dist) n = S (lvl dist v)) by (unfold lvl at 1; by rewrite lookup_insert_eq).
  split.
  - rewrite lookup_insert_ne; [done|]. apply not_eq_sym, Hne. rewrite L1. by eexists.
  - intros x k. destruct (decide (x = n)) as [->|Hx].
    + rewrite lookup_insert_eq. intros [=<-]. right. exists v, (lvl dist v). rewrite lookup_insert_ne by (apply not_eq_sym, Hne; done).
      split_and!; [done| |done]. unfold lvl. by destruct Hv as [? ->].
    + rewrite lookup_insert_ne by done. intros [->|(y & j & -> & Hy & Hyx)]%L2; [by left|]. right. exists y, j.
      rewrite lookup_insert_ne; [done|]. apply not_eq_sym, Hne. by eexists.
  - intros x. rewrite Hi, elem_of_app, list_elem_of_singleton, L3. tauto.
  - exists (rest ++ [n]). rewrite L4. split; [done|]. rewrite elem_of_app, list_elem_of_singleton. intros [?|E]; [done|].
    apply (Hne dst); [rewrite L1; by eexists|done].
  - exists pre. by rewrite L5, <- app_assoc.
  - apply sorted_snoc.
    + eapply sorted_ext; [|exact L6]. intros x y Hx%L3 Hy%L3. by rewrite !Hl.
    + intros y Hy%L3. rewrite Hl, Hln by done. by eapply L7.
  - intros h q [=<- _] x. rewrite Hi, (Hl v) by done. intros [->|Hx]; [by rewrite Hln|]. rewrite Hl by done. by eapply L7.
  - intros x y. rewrite !Hi. intros [->|Hx] Hnq Hxy; [exfalso; apply Hnq; set_solver|]. right. apply (L8 x y); [done|set_solver|done].
  - rewrite dom_insert_L. apply union_subseteq. split; [|done]. apply singleton_subseteq_l. by eapply A_nodes.
Qed.

Lemma levels_pop dist v queue order :
  levels dist (v :: queue) order -> (forall y, A v y -> is_Some (dist !! y)) -> levels dist queue order.
Proof.
  intros [L1 L2 L3 L4 (pre & L5) L6 L7 L8 L9] Hexp. split; try done.
  - exists (pre ++ [v]). rewrite <- app_assoc. done.
  - intros h q -> x Hx. specialize (L7 _ _ eq_refl x Hx). rewrite L5 in L6.
    assert (Hvh : (lvl dist v <= lvl dist h)%nat).
    { clear -L6. induction pre as [|p pre IH]; cbn [app] in L6; apply StronglySorted_inv in L6 as [Hs Hle]; [|by apply IH].
      by apply Forall_cons_1 in Hle as [? _]. }
    lia.
  - intros x y Hx Hnq Hxy. destruct (decide (x = v)) as [->|]; [by apply Hexp|]. apply (L8 x y); [done|by intros [?|?]%elem_of_cons|done].
Qed.

Lemma dist_scan_spec v ns : forall dist queue order,
  levels dist (v :: queue) order -> (forall n, n ∈ ns.*1 -> A v n) ->
  let '(dist', queue', order') := dist_scan (lvl dist v) ns dist queue order in
  levels dist' (v :: queue') order' /\ (forall n, n ∈ ns.*1 -> is_Some (dist' !! n)) /\
  (forall x, is_Some (dist !! x) -> is_Some (dist' !! x)) /\ (size dist' + length queue = size dist + length queue')%nat.
Proof.
  induction ns as [|[n cap] ns IH]; intros dist queue order Hl Hns; cbn [dist_scan].
  { split_and!; try done. by intros n ?%not_elem_of_nil. }
  rewrite fmap_cons in Hns. cbn [fst] in Hns. assert (Hns' : forall m, m ∈ ns.*1 -> A v m) by (intros; apply Hns; by right).
  destruct (bool_decide_reflect (is_Some (dist !! n))) as [Hn|Hn].
  - specialize (IH dist queue order Hl Hns'). destruct (dist_scan _ ns dist queue order) as [[dist' queue'] order'].
    destruct IH as (I1 & I2 & I3 & I4). split_and!; try done. rewrite fmap_cons. intros m [->|Hm]%elem_of_cons; auto.
  - apply eq_None_not_Some in Hn. assert (Hvn : A v n) by (apply Hns; by left).
    assert (Hv : is_Some (dist !! v)) by (apply (lv_order _ _ _ Hl); destruct (lv_suffix _ _ _ Hl) as [pre ->]; set_solver).
    pose proof (levels_insert dist v queue order n Hl Hn Hvn) as Hl1.
    specialize (IH _ _ _ Hl1 Hns'). rewrite lvl_insert in IH by (intros ->; rewrite Hn in Hv; by destruct Hv).
    destruct (dist_scan _ ns _ _ _) as [[dist' queue'] order']. destruct IH as (I1 & I2 & I3 & I4).
    assert (Hk : forall x, is_Some (dist !! x) -> is_Some (dist' !! x))
      by (intros x Hx; apply I3; rewrite lookup_insert_is_Some; destruct (decide (n = x)); auto).
    split_and!; try done.
    + rewrite fmap_cons. intros m [->|Hm]%elem_of_cons; [|by apply I2]. apply I3. cbn [fst]. rewrite lookup_insert_eq. by eexists.
    + rewrite map_size_insert_None, length_app in I4 by done. cbn [length] in I4. lia.
Qed.

Lemma dist_loop_spec : forall fuel dist queue order,
  levels dist queue order -> (size nodes + length queue <= size dist + fuel)%nat ->
  exists dist' order', dist_loop adj fuel dist queue order = Some (dist', order') /\ levels dist' [] order'.
Proof.
  induction fuel as [|fuel IH]; intros dist queue order Hl Hfuel; cbn [dist_loop].
  { destruct queue as [|h q]; [by eauto|]. pose proof (lv_nodes _ _ _ Hl) as Hn. apply subseteq_size in Hn. rewrite size_dom in Hn.
    cbn [length] in Hfuel. lia. }
  destruct queue as [|v queue]; [by eauto|].
  assert (Hv : is_Some (dist !! v)) by (apply (lv_order _ _ _ Hl); destruct (lv_suffix _ _ _ Hl) as [pre ->]; set_solver).
  assert (Hlv : dist !! v = Some (lvl dist v)) by (unfold lvl; by destruct Hv as [? ->]). rewrite Hlv.
  pose proof (dist_scan_spec v (adj v) dist queue order Hl ltac:(done)) as Hs.
  destruct (dist_scan (lvl dist v) (adj v) dist queue order) as [[dist' queue'] order']. destruct Hs as (I1 & I2 & I3 & I4).
  apply IH; [apply (levels_pop dist' v queue' order' I1); exact I2|]. cbn [length] in Hfuel. lia.
Qed.

Lemma levels_start : levels {[dst := 0%nat]} [dst] [dst].
Proof.
  assert (Hs : forall x, is_Some (({[dst := 0%nat]} : gmap string nat) !! x) <-> x = dst).
  { intros x. split; [intros [? [<- _]%lookup_singleton_Some]; done|]. intros ->. rewrite lookup_singleton_eq. by eexists. }
  split.
  - by rewrite lookup_singleton_eq.
  - intros x k [<- _]%lookup_singleton_Some. by left.
  - intros x. by rewrite Hs, list_elem_of_singleton.
  - exists []. split; [done|apply not_elem_of_nil].
  - by exists [].
  - repeat constructor.
  - intros h q [=<- _] x ->%Hs. lia.
  - intros x y ->%Hs Hn. exfalso. apply Hn. by left.
  - rewrite dom_singleton_L. by apply singleton_subseteq_l.
Qed.

(** Everything joined to the destination is reached. *)
Lemma levels_reach dist order v : levels dist [] order -> rtc A v dst -> is_Some (dist !! v).
Proof.
  intros Hl Hr. assert (Hr' : rtc A dst v).
  { clear -Hr A_sym. induction Hr as [|a b c Hab _ IHr]; [apply rtc_refl|]. eapply rtc_r; [exact IHr|by apply A_sym]. }
  clear Hr. apply (rtc_ind_r (fun x => is_Some (dist !! x)) dst) in Hr'; [done| |].
  - rewrite (lv_root _ _ _ Hl). by eexists.
  - intros x y _ Hxy Hx. apply (lv_done _ _ _ Hl x); [done|apply not_elem_of_nil|done].
Qed.

(** ** The hops of one destination *)

(** The identifiers [v] may forward to: closer neighbours with a number. *)
Definition closer (dist : gmap string nat) (v : string) (k : Z) : Prop :=
  exists n j, dist !! v = Some (S j) /\ A v n /\ dist !! n = Some j /\ parse_u 32 n = Some k.

Lemma hop_scan_spec dist width j ns : forall best hops,
  (forall n, n ∈ ns.*1 -> dist !! n = Some j -> is_Some (width !! n)) ->
  exists best' hops', hop_scan dist width (S j) ns best hops = Some (best', hops') /\
    forall k, k ∈ map wh_qkc_id hops' <->
      k ∈ map wh_qkc_id hops \/ exists n, n ∈ ns.*1 /\ dist !! n = Some j /\ parse_u 32 n = Some k.
Proof.
  induction ns as [|[n cap] ns IH]; intros best hops Hw; cbn [hop_scan].
  { exists best, hops. split; [done|]. intros k. split; [auto|]. by intros [?|(n & []%not_elem_of_nil & _)]. }
  rewrite fmap_cons in Hw. cbn [fst] in Hw.
  assert (Hw' : forall m, m ∈ ns.*1 -> dist !! m = Some j -> is_Some (width !! m)) by (intros m Hm; apply Hw; by right).
  replace (S j - 1)%nat with j by lia. destruct (bool_decide_reflect (dist !! n = Some j)) as [Hn|Hn]; cbn [negb].
  - destruct (Hw n) as [wn Hwn]; [by left|done|]. rewrite Hwn. set (hops1 := match parse_u 32 n with Some _ => _ | None => _ end).
    destruct (IH (fmax best (fmin cap wn)) hops1 Hw') as (b' & h' & E1 & E2). exists b', h'. split; [exact E1|].
    intros k. rewrite E2. unfold hops1. rewrite fmap_cons. cbn [fst]. destruct (parse_u 32 n) as [q|] eqn:Hq.
    + rewrite map_app, elem_of_app. cbn [map wh_qkc_id]. rewrite list_elem_of_singleton. split.
      * intros [[?| ->]|(m & Hm & ?)]; [by left|right; exists n; split_and!; [by left|done|done]|right; exists m; split; [by right|done]].
      * intros [?|(m & [->|Hm]%elem_of_cons & Hd & Hk)]; [by left; left|left; right; congruence|right; by exists m].
    + split; [intros [?|(m & Hm & ?)]; [by left|right; exists m; split; [by right|done]]|].
      intros [?|(m & [->|Hm]%elem_of_cons & Hd & Hk)]; [by left|congruence|right; by exists m].
  - destruct (IH best hops Hw') as (b' & h' & E1 & E2). exists b', h'. split; [exact E1|]. intros k. rewrite E2, fmap_cons. cbn [fst].
    split; [intros [?|(m & Hm & ?)]; [by left|right; exists m; split; [by right|done]]|].
    intros [?|(m & [->|Hm]%elem_of_cons & Hd & Hk)]; [by left|done|right; by exists m].
Qed.

(** The entries of [out] for [dst], those of [done] being written. *)
Record entries_ok (dist : gmap string nat) (done : list string) (out : Wcmp) : Prop := mkEntriesOk {
  en_hops : forall v hops, hops_at out v dst = Some hops ->
    hops <> [] /\ forall k, k ∈ map wh_qkc_id hops <-> closer dist v k;
  en_done : forall v k, v ∈ done -> closer dist v k -> is_Some (hops_at out v dst) }.

Lemma hops_at_insert out v d hops x e :
  hops_at (out_insert v d hops out) x e = if decide (x = v /\ e = d) then Some hops else hops_at out x e.
Proof.
  unfold hops_at, out_insert. destruct (decide (x = v)) as [->|Hx].
  - rewrite lookup_insert_eq. cbn [mbind option_bind]. destruct (decide (e = d)) as [->|He].
    + rewrite lookup_insert_eq, decide_True by done. done.
    + rewrite lookup_insert_ne, decide_False by naive_solver. by destruct (out !! v); cbn [from_option].
  - by rewrite lookup_insert_ne, decide_False by naive_solver.
Qed.

Lemma sort_hops_elem hops k : k ∈ map wh_qkc_id (sort_hops hops) <-> k ∈ map wh_qkc_id hops.
Proof.
  unfold sort_hops. assert (Hp : merge_sort hop_le hops ≡ₚ hops) by apply merge_sort_Permutation.
  change (map wh_qkc_id) with (fmap (M := list) wh_qkc_id). by rewrite Hp.
Qed.

Lemma sort_hops_nil hops : sort_hops hops = [] -> hops = [].
Proof. unfold sort_hops. intros E. pose proof (merge_sort_Permutation hop_le hops) as Hp. rewrite E in Hp. by apply Permutation_nil_l in Hp. Qed.

Lemma entries_step dist done out v hops :
  entries_ok dist done out -> (forall k, k ∈ map wh_qkc_id hops <-> closer dist v k) ->
  let out' := match hops with [] => out | _ => out_insert v dst (sort_hops hops) out end in
  entries_ok dist (done ++ [v]) out' /\ forall x e, e <> dst -> hops_at out' x e = hops_at out x e.
Proof.
  intros [E1 E2] Hk. destruct (decide (hops = [])) as [->|Hne]; cbv zeta.
  - split; [|done]. split; [done|]. intros x k [Hx| ->%list_elem_of_singleton]%elem_of_app Hc; [by eapply E2|].
    apply Hk in Hc. by apply not_elem_of_nil in Hc.
  - replace (match hops with [] => out | _ => _ end) with (out_insert v dst (sort_hops hops) out) by (by destruct hops). split.
    + split.
      * intros x l. rewrite hops_at_insert. destruct (decide _) as [[-> _]|_]; [|apply E1]. intros [=<-].
        split; [intros ?%sort_hops_nil; done|]. intros k. by rewrite sort_hops_elem.
      * intros x k Hx Hc. rewrite hops_at_insert. destruct (decide _) as [_|Hn]; [by eexists|].
        apply elem_of_app in Hx as [Hx| ->%list_elem_of_singleton]; [by eapply E2|naive_solver].
    + intros x e He. rewrite hops_at_insert. by rewrite decide_False by naive_solver.
Qed.

Lemma width_loop_spec dist full : levels dist [] full -> forall todo done width out,
  full = dst :: done ++ todo -> (forall x, x ∈ dst :: done -> is_Some (width !! x)) -> entries_ok dist done out ->
  exists out', width_loop adj dst dist todo width out = Some out' /\ entries_ok dist (done ++ todo) out' /\
    forall x e, e <> dst -> hops_at out' x e = hops_at out x e.
Proof.
  intros Hl. induction todo as [|v todo IH]; intros done width out Hf Hw He; cbn [width_loop].
  { exists out. by rewrite app_nil_r. }
  assert (Hin : v ∈ full) by (rewrite Hf; set_solver). assert (Hvd : v <> dst).
  { destruct (lv_first _ _ _ Hl) as (rest & Er & Hr). rewrite Hf in Er. injection Er as <-. intros ->. apply Hr. set_solver. }
  destruct (proj1 (lv_order _ _ _ Hl v) Hin) as [dv Hdv]. rewrite Hdv.
  destruct (lv_up _ _ _ Hl v dv Hdv) as [?|(y & j & -> & _ & _)]; [done|].
  destruct (hop_scan_spec dist width j (adj v) f_zero []) as (best & hops & E1 & E2).
  { intros n _ Hn. apply Hw. assert (Hnf : n ∈ full) by (apply (lv_order _ _ _ Hl); rewrite Hn; by eexists).
    rewrite Hf, app_comm_cons in Hnf. apply elem_of_app in Hnf as [?|Hnf]; [done|]. exfalso.
    pose proof (lv_sorted _ _ _ Hl) as Hs. rewrite Hf, app_comm_cons in Hs. apply StronglySorted_app_1_r in Hs.
    assert (Hle : (lvl dist v <= lvl dist n)%nat).
    { apply elem_of_cons in Hnf as [->|Hnf]; [lia|]. apply StronglySorted_inv in Hs as [_ Hs]. rewrite Forall_forall in Hs. by apply Hs. }
    unfold lvl in Hle. rewrite Hdv, Hn in Hle. cbn in Hle. lia. }
  rewrite E1. destruct (entries_step dist done out v hops He) as [S1 S2].
  { intros k. rewrite E2. cbn [map]. split.
    - intros [[]%not_elem_of_nil|(n & Hn & Hd & Hp)]. by exists n, j.
    - intros (n & i & Hi & Hn & Hd & Hp). right. exists n. split_and!; [done|congruence|done]. }
  cbv zeta in S1, S2. set (out1 := match hops with [] => _ | _ => _ end) in *. clearbody out1.
  destruct (IH (done ++ [v]) (<[v := best]> width) out1) as (out' & O1 & O2 & O3).
  - by rewrite Hf, <- app_assoc.
  - intros x Hx. rewrite lookup_insert_is_Some. destruct (decide (v = x)); [by left|right]. split; [done|]. apply Hw. set_solver.
  - done.
  - exists out'. rewrite <- app_assoc in O2. split_and!; [done|done|]. intros x e Hex. rewrite O3 by done. by apply S2.
Qed.
End levels.

(** ** The tables of a topology *)

(** The links a table of the grade may use. *)
Definition usable (t : Topology) (grade : option KeyGrade) (v n : string) : Prop :=
  linked t v n /\ (grade = Some GradeQkd -> qkd_link t v n = true).

(** Whatever hop is drawn at each node, the frame gets to [dst]. *)
Inductive arrives (w : Wcmp) (dst : string) : string -> Prop :=
  | arrives_here : arrives w dst dst
  | arrives_via v hops : hops_at w v dst = Some hops -> hops <> [] ->
      (forall h, h ∈ hops -> arrives w dst (to_string (wh_qkc_id h))) -> arrives w dst v.

Section topology_tables.
Context `{LM : Libm}.
Variable t : Topology.
Variable grade : option KeyGrade.
Hypothesis Hsync : sync t.

Lemma adj_of_usable v n : A (adj_of t grade) v n <-> usable t grade v n.
Proof.
  unfold A, adj_of, sort_by_id.
  set (L := concat _). assert (Hp : (merge_sort (fun x y => String.le x.1 y.1) L).*1 ≡ₚ L.*1) by (apply Permutation_map, merge_sort_Permutation).
  rewrite Hp. clear Hp. unfold usable, qkd_link. rewrite (sy_edge _ Hsync v n). unfold edge. subst L.
  rewrite list_elem_of_fmap. split.
  - intros ([n' cap] & -> & Hin). cbn [fst]. apply concat_elem in Hin as (l & Hl & Hin).
    apply list_elem_of_fmap in Hl as ([[a b] m] & -> & Hm). apply elem_of_map_to_list in Hm. cbn [fst snd] in Hin.
    assert (Hk : edge_key a b = (a, b)) by (apply (sy_key _ Hsync (a, b)); rewrite Hm; by eexists).
    destruct (bool_decide (grade = Some GradeQkd) && is_pqc m) eqn:Hg; [by apply not_elem_of_nil in Hin|].
    assert (Hvn : tp_edges t !! edge_key v n' = Some m).
    { apply elem_of_app in Hin as [Hin|Hin].
      - destruct (String.eqb_spec a v) as [->|]; [|by apply not_elem_of_nil in Hin]. apply list_elem_of_singleton in Hin as [= -> _]. by rewrite Hk.
      - destruct (String.eqb_spec b v) as [->|]; [|by apply not_elem_of_nil in Hin]. apply list_elem_of_singleton in Hin as [= -> _]. by rewrite edge_key_sym, Hk. }
    rewrite Hvn. split; [by eexists|]. intros Hgr. rewrite bool_decide_eq_true_2 in Hg by done. cbn [andb] in Hg. by rewrite Hg.
  - intros [[m Hm] Hg]. rewrite Hm in Hg. exists (n, capacity_keys_per_second m). split; [done|]. apply concat_elem.
    eexists. split; [apply list_elem_of_fmap; exists (edge_key v n, m); split; [reflexivity|by apply elem_of_map_to_list]|]. cbn [snd].
    destruct (bool_decide (grade = Some GradeQkd) && is_pqc m) eqn:Hgp.
    { apply andb_true_iff in Hgp as [Hgr Hp]. apply bool_decide_eq_true in Hgr. specialize (Hg Hgr). rewrite Hp in Hg. done. }
    apply elem_of_app. destruct (edge_key_cases v n) as [->| ->]; cbn [fst snd]; rewrite String.eqb_refl; [left|right]; by left.
Qed.

Lemma usable_sym v n : usable t grade v n -> usable t grade n v.
Proof. intros [H1 H2]. split; [by apply (sy_sym _ Hsync)|]. unfold qkd_link, edge in *. by rewrite edge_key_sym. Qed.

Lemma usable_nodes v n : usable t grade v n -> n ∈ wcmp_nodes t.
Proof. intros [H1 _]. unfold wcmp_nodes. apply elem_of_union_l, elem_of_union_l, elem_of_dom. by apply (linked_registered t v n Hsync). Qed.

(** The distances the tables of [dst] were built from. *)
Definition table_ok (w : Wcmp) (dst : string) : Prop :=
  exists dist order, levels (adj_of t grade) dst (wcmp_nodes t) dist [] order /\ entries_ok (adj_of t grade) dst dist (drop 1 order) w.

Lemma entries_ext dst dist done w w' : (forall v, hops_at w v dst = hops_at w' v dst) ->
  entries_ok (adj_of t grade) dst dist done w -> entries_ok (adj_of t grade) dst dist done w'.
Proof. intros E [H1 H2]. split; [intros v hops; rewrite <- E; apply H1|intros v k; rewrite <- E; apply H2]. Qed.

Lemma dst_tables_spec dst out : registered t dst -> (forall v, hops_at out v dst = None) ->
  exists out', dst_tables (adj_of t grade) (size (wcmp_nodes t)) dst out = Some out' /\ table_ok out' dst /\
    forall x e, e <> dst -> hops_at out' x e = hops_at out x e.
Proof.
  intros Hr Hout. unfold dst_tables.
  assert (Hsym : forall v n, A (adj_of t grade) v n -> A (adj_of t grade) n v) by (intros v n; rewrite !adj_of_usable; apply usable_sym).
  assert (Hnode : forall v n, A (adj_of t grade) v n -> n ∈ wcmp_nodes t) by (intros v n; rewrite adj_of_usable; apply usable_nodes).
  assert (Hd : dst ∈ wcmp_nodes t) by (by apply elem_of_union_l, elem_of_union_l, elem_of_dom).
  destruct (dist_loop_spec (adj_of t grade) dst (wcmp_nodes t) Hsym Hnode Hd (size (wcmp_nodes t)) _ _ _ (levels_start _ _ _ Hd)) as (dist & order & E1 & Hl).
  { rewrite map_size_singleton. cbn [length]. lia. }
  rewrite E1. cbn [mbind option_bind]. destruct (lv_first _ _ _ _ _ _ Hl) as (rest & Eo & _).
  destruct (width_loop_spec (adj_of t grade) dst (wcmp_nodes t) Hsym Hnode Hd dist order Hl rest [] {[dst := f_inf]} out) as (out' & O1 & O2 & O3).
  - done.
  - intros x ->%list_elem_of_singleton. rewrite lookup_singleton_eq. by eexists.
  - split; [intros v hops; by rewrite Hout|intros v k []%not_elem_of_nil].
  - exists out'. rewrite Eo. cbn [drop]. split_and!; [exact O1| |exact O3]. exists dist, order. split; [done|]. by rewrite Eo.
Qed.

Lemma all_tables_spec : forall dests out, NoDup dests -> (forall d, d ∈ dests -> registered t d) ->
  (forall v d, d ∈ dests -> hops_at out v d = None) ->
  exists out', all_tables (adj_of t grade) (size (wcmp_nodes t)) dests out = Some out' /\ (forall d, d ∈ dests -> table_ok out' d) /\
    forall x e, ~ e ∈ dests -> hops_at out' x e = hops_at out x e.
Proof.
  induction dests as [|d dests IH]; intros out Hnd Hreg Hout; cbn [all_tables].
  { exists out. split_and!; [done| |done]. by intros d ?%not_elem_of_nil. }
  apply NoDup_cons in Hnd as [Hd Hnd].
  destruct (dst_tables_spec d out) as (o1 & E1 & T1 & K1); [apply Hreg; by left|intros v; apply Hout; by left|].
  rewrite E1. cbn [mbind option_bind]. destruct (IH o1) as (o2 & E2 & T2 & K2); [done| | |].
  - intros e He. apply Hreg. by right.
  - intros v e He. rewrite K1 by (intros ->; done). apply Hout. by right.
  - exists o2. split_and!; [done| |].
    + intros e [->|He]%elem_of_cons; [|by apply T2]. destruct T1 as (dist & order & Hl & He). exists dist, order. split; [done|].
      eapply entries_ext; [|exact He]. intros v. by rewrite K2.
    + intros x e He. rewrite K2, K1; [done| |]; intros ?; apply He; [subst; by left|by right].
Qed.

Lemma wcmp_tables_spec :
  exists w, wcmp_from_topology t grade = Some w /\ (forall d, registered t d -> table_ok w d) /\
    forall v d hops, hops_at w v d = Some hops -> registered t d.
Proof.
  destruct (all_tables_spec (sorted_keys (tp_qkcs t)) ∅) as (w & E & T & K).
  - unfold sorted_keys. rewrite merge_sort_Permutation. apply NoDup_fst_map_to_list.
  - intros d. by rewrite sorted_keys_elem.
  - intros v d _. unfold hops_at. by rewrite lookup_empty.
  - exists w. split_and!; [exact E| |].
    + intros d Hd. apply T. by apply sorted_keys_elem.
    + intros v d hops Hh. destruct (decide (registered t d)) as [?|Hn]; [done|]. rewrite K in Hh by (by rewrite sorted_keys_elem).
      unfold hops_at in Hh. by rewrite lookup_empty in Hh.
Qed.

(** Identifiers that are the decimal of a [u32]. *)
Definition canonical_id (q : string) : Prop := exists k, parse_u 32 q = Some k /\ to_string k = q.
Hypothesis Hcanon : forall q, registered t q -> canonical_id q.

Lemma closer_step dst dist order v k : levels (adj_of t grade) dst (wcmp_nodes t) dist [] order -> closer (adj_of t grade) dist v k ->
  usable t grade v (to_string k) /\ parse_u 32 (to_string k) = Some k /\
    exists j, dist !! v = Some (S j) /\ dist !! to_string k = Some j.
Proof.
  intros Hl (n & j & Hv & Hn & Hd & Hp). apply adj_of_usable in Hn. destruct (Hcanon n) as (k' & Hk & Hs).
  { apply (linked_registered t v n Hsync). apply Hn. }
  assert (k' = k) as -> by congruence. rewrite Hs. eauto.
Qed.

Lemma table_arrives w dst v : registered t dst -> table_ok w dst -> rtc (usable t grade) v dst -> arrives w dst v.
Proof.
  intros Hreg (dist & order & Hl & [H1 H2]) Hr.
  assert (Hv : is_Some (dist !! v)).
  { eapply levels_reach; [|exact Hl|].
    - intros x y. rewrite !adj_of_usable. apply usable_sym.
    - eapply rtc_subrel; [|exact Hr]. intros x y. apply adj_of_usable. }
  destruct Hv as [j Hj]. clear Hr. revert v Hj. induction j as [|j IH]; intros v Hj.
  - destruct (lv_up _ _ _ _ _ _ Hl v _ Hj) as [->|(? & ? & ? & _)]; [constructor|done].
  - destruct (lv_up _ _ _ _ _ _ Hl v _ Hj) as [->|(y & i & [= <-] & Hy & Hyv)]; [constructor|].
    apply adj_of_usable, usable_sym in Hyv. destruct (Hcanon y) as (k & Hk & Hs).
    { apply (linked_registered t v y Hsync). apply Hyv. }
    assert (Hc : closer (adj_of t grade) dist v k) by (exists y, j; split_and!; [done|by apply adj_of_usable|done|done]).
    destruct (H2 v k) as [hops Hh]; [|done|].
    { destruct (lv_first _ _ _ _ _ _ Hl) as (rest & Eo & _). rewrite Eo. cbn [drop].
      assert (Hin : v ∈ order) by (apply (lv_order _ _ _ _ _ _ Hl); by eexists). rewrite Eo in Hin.
      apply elem_of_cons in Hin as [->|]; [|done]. rewrite (lv_root _ _ _ _ _ _ Hl) in Hj. done. }
    destruct (H1 v hops Hh) as [Hne Hk']. eapply arrives_via; [exact Hh|done|]. intros h Hh'. apply IH.
    assert (Hck : closer (adj_of t grade) dist v (wh_qkc_id h)) by (apply Hk'; by apply list_elem_of_fmap_2).
    destruct (closer_step _ _ _ _ _ Hl Hck) as (_ & _ & i & Hi & Hd). congruence.
Qed.
End topology_tables.

(** What the tables [w] of a grade promise. *)
Definition delivers (t : Topology) (grade : option KeyGrade) (w : Wcmp) : Prop :=
  (forall v dst hops h, hops_at w v dst = Some hops -> h ∈ hops -> usable t grade v (to_string (wh_qkc_id h))) /\
  (forall v dst, registered t dst -> rtc (usable t grade) v dst -> arrives w dst v) /\
  (forall v dst hops h, hops_at w v dst = Some hops -> h ∈ hops -> parse_u 32 (to_string (wh_qkc_id h)) = Some (wh_qkc_id h)).

Lemma tables_deliver `{Libm} t grade : sync t -> (forall q, registered t q -> canonical_id q) ->
  exists w, wcmp_from_topology t grade = Some w /\ delivers t grade w.
Proof.
  intros Hs Hcanon. destruct (wcmp_tables_spec t grade Hs) as (w & E & T & R). exists w. split; [exact E|].
  assert (Hstep : forall v dst hops h, hops_at w v dst = Some hops -> h ∈ hops ->
    usable t grade v (to_string (wh_qkc_id h)) /\ parse_u 32 (to_string (wh_qkc_id h)) = Some (wh_qkc_id h)).
  { intros v dst hops h Hh Hin. destruct (T dst (R _ _ _ Hh)) as (dist & order & Hl & [H1 _]).
    destruct (closer_step t grade Hs Hcanon dst dist order v (wh_qkc_id h) Hl) as (Hu & Hp & _); [|done].
    apply (H1 v hops Hh). by apply list_elem_of_fmap_2. }
  split_and!; [by eapply Hstep| |by eapply Hstep]. intros v dst Hr. by apply table_arrives; auto.
Qed.

(** C18: whatever the history of the topology, as long as the registered QKCs
    are named by canonical decimals, the tables of either grade are built
    without a panic, every hop in them is a link the grade may use (for the
    QKD tables, never a PQC link), and a frame at any node joined to its
    destination by such links gets there whatever hop is drawn at each node:
    there is always a hop, and no loop. *)
Theorem wcmp_tables_deliver `{Libm, HashOrder} ops grade :
  let t := st_topo (sdn_run ops) in
  (forall q, registered t q -> canonical_id q) ->
  exists w, wcmp_from_topology t grade = Some w /\
    (forall v dst hops h, hops_at w v dst = Some hops -> h ∈ hops -> usable t grade v (to_string (wh_qkc_id h))) /\
    (forall v dst, registered t dst -> rtc (usable t grade) v dst -> arrives w dst v).
Proof. 
  cbv zeta. intros Hcanon. destruct (tables_deliver _ grade (go_sync _ (sdn_run_graph ops)) Hcanon) as (w & E & H1 & H2 & _).
  by exists w.
Qed.

(** ** Weights *)

Lemma quantise_weight_range k : 1 <= quantise_weight k < 2 ^ 32.
Proof.
  unfold quantise_weight. cbv zeta. destruct (is_nan _) eqn:Hn; [unfold WCMP_MIN_WEIGHT; lia|].
  apply round_clamp_range; [exact Hn|reflexivity|reflexivity].
Qed.

Lemma hop_scan_weights dist width dv ns : forall best hops best' hops',
  Forall (fun h => 1 <= wh_weight h < 2 ^ 32) hops -> hop_scan dist width dv ns best hops = Some (best', hops') ->
  Forall (fun h => 1 <= wh_weight h < 2 ^ 32) hops'.
Proof.
  induction ns as [|[n cap] ns IH]; intros best hops best' hops' Hh; cbn [hop_scan]; [by intros [= _ <-]|].
  destruct (negb _); [by apply IH|]. destruct (width !! n); [|done]. apply IH. destruct (parse_u 32 n); [|done].
  apply Forall_app. split; [done|]. repeat constructor; apply quantise_weight_range.
Qed.

Definition weights_ok (w : Wcmp) : Prop :=
  forall v d hops h, hops_at w v d = Some hops -> h ∈ hops -> 1 <= wh_weight h < 2 ^ 32.

Lemma width_loop_weights adj dst dist order : forall width out out',
  weights_ok out -> width_loop adj dst dist order width out = Some out' -> weights_ok out'.
Proof.
  induction order as [|v order IH]; intros width out out' Hw; cbn [width_loop]; [by intros [=<-]|].
  destruct (dist !! v) as [dv|]; [|done]. destruct (hop_scan _ _ _ _ _ _) as [[best hops]|] eqn:Hs; [|done].
  apply IH. apply hop_scan_weights in Hs; [|constructor]. destruct hops as [|h0 hs]; [done|].
  set (hops := h0 :: hs) in *. clearbody hops. intros x d l h. rewrite hops_at_insert. destruct (decide _); [|apply Hw].
  intros [=<-] Hin. unfold sort_hops in Hin. rewrite merge_sort_Permutation in Hin. rewrite Forall_forall in Hs. by apply Hs.
Qed.

Lemma wcmp_weights `{Libm} t grade w : wcmp_from_topology t grade = Some w -> weights_ok w.
Proof.
  unfold wcmp_from_topology. assert (H0 : weights_ok ∅) by (intros v d hops h; unfold hops_at; by rewrite lookup_empty).
  revert H0. generalize (∅ : Wcmp). induction (sorted_keys (tp_qkcs t)) as [|d ds IH]; intros out Hout; cbn [all_tables]; [by intros [=<-]|].
  unfold dst_tables. destruct (dist_loop _ _ _ _ _) as [[dist order]|]; cbn [mbind option_bind]; [|done].
  destruct (width_loop _ _ _ _ _ _) as [o1|] eqn:Hw; cbn [mbind option_bind]; [|done]. apply IH. by eapply width_loop_weights.
Qed.

(** ** Instances *)

Abbreviation sample_topo := (st_topo (@sdn_run flat_libm map_order sample_ops)).

Lemma sample_registered q : registered sample_topo q -> q ∈ ["1"; "2"; "3"]%string.
Proof.
  unfold registered. intros Hq%elem_of_dom. rewrite <- elem_of_elements in Hq.
  assert (E : forallb (fun x => bool_decide (x ∈ ["1"; "2"; "3"]%string)) (elements (dom (tp_qkcs sample_topo))) = true) by (vm_compute; reflexivity).
  rewrite forallb_forall in E. apply list_elem_of_In in Hq. apply E in Hq. by apply bool_decide_eq_true in Hq.
Qed.

Lemma sample_canonical q : registered sample_topo q -> canonical_id q.
Proof.
  intros Hq%sample_registered. repeat (apply elem_of_cons in Hq as [->|Hq]); [exists 1|exists 2|exists 3|by apply not_elem_of_nil in Hq];
    by vm_compute.
Qed.

Lemma sample_three : registered sample_topo "3".
Proof. unfold registered. apply (bool_decide_unpack _). vm_compute. exact I. Qed.

Lemma sample_usable : usable sample_topo (Some GradeQkd) "1" "2" /\ usable sample_topo (Some GradeQkd) "2" "3".
Proof.
  assert (H1 : adjacent sample_topo "1" "2" = true) by (vm_compute; reflexivity).
  assert (H2 : adjacent sample_topo "2" "3" = true) by (vm_compute; reflexivity).
  split; split; try (by apply adjacent_linked); intros _; vm_compute; reflexivity.
Qed.

Lemma wcmp_tables_deliver_witness :
  exists w, @wcmp_from_topology flat_libm sample_topo (Some GradeQkd) = Some w /\ arrives w "3" "1".
Proof.
  pose proof (@wcmp_tables_deliver flat_libm map_order sample_ops (Some GradeQkd)) as Hd. cbv zeta in Hd.
  destruct (Hd sample_canonical) as (w & E & _ & Harr). clear Hd.
  exists w. split; [exact E|]. apply Harr; [exact sample_three|].
  exact (rtc_l _ _ _ _ (proj1 sample_usable) (rtc_once _ _ (proj2 sample_usable))).
Defined.

(** An identifier with a leading zero parses to the number of another QKC. *)
Definition zero_ops : list SdnOp := [OpQkc (sample_qkc "1" []); OpQkc (sample_qkc "2" ["01"%string]); OpQkc (sample_qkc "01" [])].

(** A QKC announced as "01" is a node of its own in the graph but its
    number is that of QKC 1: the table of its only neighbour sends frames for
    it to QKC 1, which it has no link to. *)
Theorem leading_zero_misroutes :
  let t := st_topo (@sdn_run flat_libm map_order zero_ops) in
  exists w weight, @wcmp_from_topology flat_libm t None = Some w /\
    hops_at w "2" "01" = Some [mkHop 1 weight] /\
    adjacent t "2" "01" = true /\ adjacent t "2" "1" = false.
Proof. eexists _, _. split_and!; vm_compute; reflexivity. Qed.
