(* ===== verification/ForwardingPush.v ===== *)
(** * The forwarding push (sdn/src/service.rs) and its reception (qkc/src/http_admin.rs)

    The controller turns its weighted tables into one body per QKC and posts
    it; the QKC's [post_table] authorises the caller, parses the destinations
    and replaces its [ForwardingTable], from which the relay picks the next
    hop.  This file composes the two programs: [push_table] and [push_body]
    are the body of the push loop, [push_tick] one turn of it, [post_table]
    the handler.  JSON is the identity on the values both sides share.

    Shown: once every QKC has taken its push, a frame for any destination its
    node is joined to is carried there by the tables of the QKCs on its way,
    whatever its hash, and QKD-grade frames by QKD links only; a turn is
    recorded as pushed only when every QKC accepted. *)

From Stdlib Require Import ZArith Lia String.
From stdpp Require Import sorting strings.
From S2P Require Import Prelude Text Float64 Security Routing SdnTopology SdnStore SdnGraph SdnRegistry SdnPaths SdnWcmp.

(** ** The controller's side *)

(** The body of the [for] over the QKCs: the weighted hops when the snapshot
    has them, else the next hop of the shortest path. *)
Definition push_table (t : Topology) (wcmp : Wcmp) (qkc_id : string) : gmap string (list WcmpNextHop) :=
  map_imap (fun other _ =>
    if String.eqb other qkc_id then None
    else match hops_at wcmp qkc_id other with
    | Some hops => Some hops
    | None =>
        nh ← next_hop_qkc t qkc_id other;
        qkc_id_num ← parse_u 32 nh;
        Some [SdnWcmp.mkHop qkc_id_num 1]
    end) (tp_qkcs t).

(** ** The QKC's side *)

Inductive NextHopValue := Single (qkc_id : Z) | Multi (hops : list NextHop).
Definition into_hops (v : NextHopValue) : list NextHop :=
  match v with Single qkc_id => [single qkc_id] | Multi hops => hops end.

Record TableBody := mkBody {
  tb_replace : option (gmap string NextHopValue);
  tb_replace_qkd : option (gmap string NextHopValue);
  tb_updates : option (gmap string NextHopValue);
  tb_removes : option (list string) }.

Definition FORWARDING_PUSHER : string := "sdn".

(** The identity is that of the client's certificate, absent on a plain listener. *)
Definition sdn_may_push (identity : option (option string)) : bool :=
  match identity with
  | None => true
  | Some node_id => bool_decide (node_id = Some FORWARDING_PUSHER)
  end.

Section post.
Context `{HO : HashOrder}.

Fixpoint parse_entries (raw : list (string * NextHopValue)) (out : Table) : option Table :=
  match raw with
  | [] => Some out
  | (k, v) :: raw => kk ← parse_u 32 k; parse_entries raw (<[kk := into_hops v]> out)
  end.
Definition parse_map (raw : gmap string NextHopValue) : option Table := parse_entries (hash_iter raw) ∅.

Inductive PostReply := PostForbidden | PostBadRequest | PostReplaced (size qkd_size : nat) | PostDelta (size : nat).

(** The two [if let] of the replace mode: [None] is the early return. *)
Definition post_replace (body : TableBody) (ft : ForwardingTable) : ForwardingTable * option bool :=
  let '(ft, did) := match tb_replace_qkd body with
    | None => (ft, Some false)
    | Some raw => match parse_map raw with None => (ft, None) | Some m => (ft_replace_qkd ft m, Some true) end
    end in
  match did with
  | None => (ft, None)
  | Some did_replace =>
      match tb_replace body with
      | None => (ft, Some did_replace)
      | Some raw => match parse_map raw with None => (ft, None) | Some m => (ft_replace ft m, Some true) end
      end
  end.

Definition post_table (ft : ForwardingTable) (identity : option (option string)) (body : TableBody) : ForwardingTable * PostReply :=
  if negb (sdn_may_push identity) then (ft, PostForbidden)
  else match post_replace body ft with
  | (ft, None) => (ft, PostBadRequest)
  | (ft, Some true) => (ft, PostReplaced (size (ft_table ft)) (size (ft_qkd_table ft)))
  | (ft, Some false) =>
      match parse_map (default ∅ (tb_updates body)) with
      | None => (ft, PostBadRequest)
      | Some updates =>
          match mapM (parse_u 32) (default [] (tb_removes body)) with
          | None => (ft, PostBadRequest)
          | Some removes => let ft := ft_update ft updates removes in (ft, PostDelta (size (ft_table ft)))
          end
      end
  end.
End post.

(** ** One turn of the loop *)

(** The wire value of a weighted hop. *)
Definition wire_hop (h : WcmpNextHop) : NextHop := Routing.mkHop (wh_qkc_id h) (wh_weight h).
Definition wire_table (m : gmap string (list WcmpNextHop)) : gmap string NextHopValue := (fun hops => Multi (map wire_hop hops)) <$> m.

Definition push_body (t : Topology) (wcmp wcmp_qkd : Wcmp) (dual_grade : bool) (qkc_id : string) : TableBody :=
  mkBody (Some (wire_table (push_table t wcmp qkc_id)))
    (if dual_grade then Some (wire_table (default ∅ (wcmp_qkd !! qkc_id))) else None) None None.

Record PushState := mkPush { pu_last_topo : Z; pu_last_snap_ptr : Z }.
Definition push_start : PushState := mkPush (-1) 0.

(** The bodies posted, whether the version is broadcast, and the next state;
    [accepted] says which QKCs answered with success. *)
Definition push_tick (s : PushState) (t : Topology) (wcmp wcmp_qkd : Wcmp) (snap_ptr : Z) (dual_grade : bool) (accepted : string -> bool)
  : PushState * gmap string TableBody * bool :=
  if (tp_version t =? pu_last_topo s) && (snap_ptr =? pu_last_snap_ptr s) then (s, ∅, false)
  else
    let bodies := map_imap (fun qkc_id _ => Some (push_body t wcmp wcmp_qkd dual_grade qkc_id)) (tp_qkcs t) in
    let all_ok := forallb (fun kb : string * TableBody => accepted kb.1) (map_to_list bodies) in
    (if all_ok then mkPush (tp_version t) snap_ptr else s, bodies, negb (tp_version t =? pu_last_topo s)).

(** ** Parsing canonical destinations *)

Section reception.
Context `{HO : HashOrder}.

Lemma parse_entries_lookup l : forall out,
  NoDup l.*1 -> (forall q, q ∈ l.*1 -> canonical_id q) ->
  exists m, parse_entries l out = Some m /\ forall k, parse_u 32 (to_string k) = Some k ->
    (forall v, (to_string k, v) ∈ l -> m !! k = Some (into_hops v)) /\ (~ to_string k ∈ l.*1 -> m !! k = out !! k).
Proof.
  induction l as [|[q v] l IH]; intros out Hnd Hc; cbn [parse_entries].
  { exists out. split; [done|]. intros k _. split; [by intros v ?%not_elem_of_nil|done]. }
  rewrite fmap_cons in Hnd, Hc. cbn [fst] in Hnd, Hc. apply NoDup_cons in Hnd as [Hq Hnd].
  destruct (Hc q) as (kk & Hk & Hs); [by left|]. rewrite Hk. cbn [mbind option_bind].
  destruct (IH (<[kk := into_hops v]> out) Hnd) as (m & E & Hm); [intros x Hx; apply Hc; by right|].
  exists m. split; [exact E|]. intros k Hkk. destruct (Hm k Hkk) as [M1 M2]. split.
  - intros v' [[= E1 ->]|Hin]%elem_of_cons; [|by apply M1].
    assert (k = kk) as -> by congruence. rewrite M2, lookup_insert_eq; [done|]. by rewrite E1.
  - rewrite fmap_cons. cbn [fst]. intros Hn. rewrite M2 by (intros ?; apply Hn; by right).
    rewrite lookup_insert_ne; [done|]. intros ->. apply Hn. rewrite Hs. by left.
Qed.

Lemma hash_iter_keys {B} (m : gmap string B) : (hash_iter m).*1 ≡ₚ (map_to_list m).*1.
Proof. apply Permutation_map, hash_iter_perm. Qed.

Lemma parse_map_lookup raw : (forall q, is_Some (raw !! q) -> canonical_id q) ->
  exists m, parse_map raw = Some m /\ forall k, parse_u 32 (to_string k) = Some k -> m !! k = into_hops <$> raw !! to_string k.
Proof.
  intros Hc. assert (Hkey : forall q, q ∈ (hash_iter raw).*1 <-> is_Some (raw !! q)).
  { intros q. rewrite hash_iter_keys, <- elem_of_dom. rewrite list_elem_of_fmap, elem_of_dom. split.
    - intros ([q' v] & -> & Hin%elem_of_map_to_list). by eexists.
    - intros [v Hv]. exists (q, v). split; [done|]. by apply elem_of_map_to_list. }
  destruct (parse_entries_lookup (hash_iter raw) ∅) as (m & E & Hm).
  - rewrite hash_iter_keys. apply NoDup_fst_map_to_list.
  - intros q Hq%Hkey. by apply Hc.
  - exists m. split; [exact E|]. intros k Hk. destruct (Hm k Hk) as [M1 M2].
    destruct (raw !! to_string k) as [v|] eqn:Hv; cbn [fmap option_fmap option_map].
    + apply M1, hash_iter_elem. exact Hv.
    + rewrite M2; [apply lookup_empty|]. rewrite Hkey, Hv. by intros [].
Qed.

Lemma sanitise_keep (m : Table) k hops : m !! k = Some hops -> wf_hops hops -> sanitise m !! k = Some hops.
Proof.
  intros Hm [Hne Hw]. unfold sanitise. rewrite lookup_omap, Hm. cbn [mbind option_bind].
  assert (E : List.filter (fun h => weight h >? 0) hops = hops).
  { clear -Hw. induction Hw as [|h hs Hh _ IH]; [done|]. cbn [List.filter]. rewrite IH. destruct (Z.gtb_spec (weight h) 0); [done|lia]. }
  rewrite E. by destruct hops.
Qed.

(** An accepted push leaves both tables as sent. *)
Lemma post_push ft identity t w wq dual q :
  sdn_may_push identity = true ->
  (forall o, is_Some (push_table t w q !! o) -> canonical_id o) -> (forall o, is_Some (default ∅ (wq !! q) !! o) -> canonical_id o) ->
  exists m mq, parse_map (wire_table (push_table t w q)) = Some m /\ parse_map (wire_table (default ∅ (wq !! q))) = Some mq /\
    (post_table ft identity (push_body t w wq dual q)).1 =
      mkFt (sanitise m) (if dual then sanitise mq else ft_qkd_table ft) (ft_direct ft) (ft_direct_qkd ft).
Proof.
  intros Hid H1 H2.
  destruct (parse_map_lookup (wire_table (push_table t w q))) as (m & E & _); [intros o; unfold wire_table; rewrite lookup_fmap, fmap_is_Some; apply H1|].
  destruct (parse_map_lookup (wire_table (default ∅ (wq !! q)))) as (mq & Eq & _); [intros o; unfold wire_table; rewrite lookup_fmap, fmap_is_Some; apply H2|].
  exists m, mq. split_and!; [done|done|]. unfold post_table. rewrite Hid. cbn [negb]. unfold post_replace, push_body.
  cbn [tb_replace tb_replace_qkd]. destruct dual; [rewrite Eq|]; rewrite E; done.
Qed.
End reception.

(** ** Following the tables *)

(** Whatever its hash, a frame at [v] has a next hop, over a link in [ok], from
    where it is carried to [d]. *)
Inductive carried (ok : Z -> Z -> Prop) (fts : Z -> ForwardingTable) (d : Z) (qkd_only : bool) : Z -> Prop :=
  | carried_here : carried ok fts d qkd_only d
  | carried_on v :
      (forall hash, is_Some (next_hop_graded (fts v) d hash qkd_only)) ->
      (forall hash n, next_hop_graded (fts v) d hash qkd_only = Some n -> ok v n) ->
      (forall hash n, next_hop_graded (fts v) d hash qkd_only = Some n -> carried ok fts d qkd_only n) ->
      carried ok fts d qkd_only v.

Lemma carried_by (ok : Z -> Z -> Prop) fts d qkd_only v :
  (forall hash, exists n, next_hop_graded (fts v) d hash qkd_only = Some n /\ ok v n /\ carried ok fts d qkd_only n) -> carried ok fts d qkd_only v.
Proof. intros H. apply carried_on; intros hash; [|intros n Hn..]; destruct (H hash) as (m & Hm & ? & ?); [by eexists|congruence..]. Qed.

Definition grade_of (qkd_only : bool) : option KeyGrade := if qkd_only then Some GradeQkd else None.
Definition direct_of (qkd_only : bool) (ft : ForwardingTable) : gset Z := if qkd_only then ft_direct_qkd ft else ft_direct ft.
Definition entries_of (qkd_only : bool) (ft : ForwardingTable) : Table := if qkd_only then ft_qkd_table ft else ft_table ft.

Lemma next_hop_entry ft d hash qkd_only hops : entries_of qkd_only ft !! d = Some hops -> wf_hops hops ->
  exists n, next_hop_graded ft d hash qkd_only = Some n /\
    ((n = d /\ d ∈ direct_of qkd_only ft) \/ exists h, h ∈ hops /\ qkc_id h = n).
Proof.
  intros He Hwf. destruct (pick_wf hops hash Hwf) as [_ [q Hq]]. pose proof (pick_elem _ _ _ Hq) as Hel.
  unfold next_hop_graded, next_hop, entries_of, direct_of in *. destruct qkd_only; cbn [andb].
  - rewrite bool_decide_eq_false_2 by (intros E; by rewrite E, lookup_empty in He). cbn [negb].
    destruct (bool_decide_reflect (d ∈ ft_direct_qkd ft)); [by eauto|]. rewrite He. cbn [mbind option_bind]. eauto.
  - destruct (bool_decide_reflect (d ∈ ft_direct ft)); [by eauto|]. rewrite He. cbn [mbind option_bind]. eauto.
Qed.

Section carry.
Context `{LM : Libm} `{HO : HashOrder}.
Variable t : Topology.
Variables w wq : Wcmp.
Variable identity : option (option string).
Variable dual : bool.
Variable ft0 fts : Z -> ForwardingTable.
Hypothesis Hsync : sync t.
Hypothesis Hcanon : forall q, registered t q -> canonical_id q.
Hypothesis Hw : wcmp_from_topology t None = Some w.
Hypothesis Hwq : wcmp_from_topology t (Some GradeQkd) = Some wq.
Hypothesis Hid : sdn_may_push identity = true.
(** Every registered QKC has taken its push. *)
Hypothesis Htaken : forall q k, registered t q -> parse_u 32 q = Some k ->
  fts k = (post_table (ft0 k) identity (push_body t w wq dual q)).1.

Definition table_of (qkd_only : bool) : Wcmp := if qkd_only then wq else w.

Lemma table_of_built qkd_only : wcmp_from_topology t (grade_of qkd_only) = Some (table_of qkd_only).
Proof. by destruct qkd_only. Qed.

Lemma table_of_delivers qkd_only : delivers t (grade_of qkd_only) (table_of qkd_only).
Proof.
  destruct (tables_deliver t (grade_of qkd_only) Hsync Hcanon) as (w' & E & Hd). rewrite table_of_built in E. by injection E as ->.
Qed.

Lemma table_of_dests grade x v d hops : wcmp_from_topology t grade = Some x -> hops_at x v d = Some hops -> registered t d.
Proof. destruct (wcmp_tables_spec t grade Hsync) as (w' & E & _ & R). rewrite E. intros [=<-]. apply R. Qed.

Lemma pushed_entry qkd_only q d kq kd hops :
  (qkd_only = true -> dual = true) -> registered t q -> parse_u 32 q = Some kq -> parse_u 32 d = Some kd -> to_string kd = d ->
  q <> d -> hops_at (table_of qkd_only) q d = Some hops -> wf_hops (map wire_hop hops) ->
  entries_of qkd_only (fts kq) !! kd = Some (map wire_hop hops).
Proof.
  intros Hdual Hq Hkq Hkd Hsd Hne Hh Hwf. rewrite (Htaken q kq Hq Hkq).
  destruct (post_push (ft0 kq) identity t w wq dual q Hid) as (m & mq & Em & Emq & ->).
  { intros o [hs Ho]. unfold push_table in Ho. rewrite map_lookup_imap in Ho. apply bind_Some in Ho as (qk & Ho & _). apply Hcanon. by eexists. }
  { intros o [hs Ho]. apply Hcanon, (table_of_dests (Some GradeQkd) wq q o hs Hwq). unfold hops_at. destruct (wq !! q); [exact Ho|].
    cbn [from_option] in Ho. by rewrite lookup_empty in Ho. }
  assert (Hl : forall raw m', parse_map raw = Some m' -> (forall o, is_Some (raw !! o) -> canonical_id o) -> raw !! d = Some (Multi (map wire_hop hops)) ->
    sanitise m' !! kd = Some (map wire_hop hops)).
  { intros raw m' E Hc Hr. destruct (parse_map_lookup raw Hc) as (m'' & E' & Hm). rewrite E in E'. injection E' as <-.
    apply sanitise_keep; [|done]. rewrite Hm by (by rewrite Hsd). rewrite Hsd, Hr. done. }
  pose proof (table_of_dests (grade_of qkd_only) (table_of qkd_only) q d hops (table_of_built qkd_only) Hh) as [qd Hd].
  destruct qkd_only; cbn [entries_of table_of ft_table ft_qkd_table] in *.
  - rewrite (Hdual eq_refl). eapply Hl; [exact Emq| |].
    + intros o. unfold wire_table. rewrite lookup_fmap, fmap_is_Some. intros [hs Ho]. apply Hcanon, (table_of_dests (Some GradeQkd) wq q o hs Hwq).
      unfold hops_at. destruct (wq !! q); [exact Ho|]. cbn [from_option] in Ho. by rewrite lookup_empty in Ho.
    + unfold wire_table. rewrite lookup_fmap. unfold hops_at in Hh. destruct (wq !! q); [|done]. cbn [mbind option_bind from_option] in *.
      by unfold Datatypes.id; rewrite Hh.
  - eapply Hl; [exact Em| |].
    + intros o. unfold wire_table. rewrite lookup_fmap, fmap_is_Some. intros [hs Ho]. unfold push_table in Ho. rewrite map_lookup_imap in Ho.
      apply bind_Some in Ho as (qk & Ho & _). apply Hcanon. by eexists.
    + unfold wire_table, push_table. rewrite lookup_fmap, map_lookup_imap, Hd. cbn [mbind option_bind].
      destruct (String.eqb_spec d q) as [->|_]; [done|]. by rewrite Hh.
Qed.

Lemma pushed_carries qkd_only d kd v kv :
  (qkd_only = true -> dual = true) -> parse_u 32 d = Some kd -> to_string kd = d ->
  arrives (table_of qkd_only) d v -> registered t v -> parse_u 32 v = Some kv ->
  carried (fun a b => usable t (grade_of qkd_only) (to_string a) (to_string b) \/ (b = kd /\ kd ∈ direct_of qkd_only (fts a))) fts kd qkd_only kv.
Proof.
  intros Hdual Hkd Hsd Harr. revert kv. induction Harr as [|v hops Hh Hne _ IH]; intros kv Hv Hkv.
  { assert (kv = kd) as -> by congruence. constructor. }
  destruct (decide (v = d)) as [->|Hvd]; [assert (kv = kd) as -> by congruence; constructor|].
  assert (Hwf : wf_hops (map wire_hop hops)).
  { split; [by destruct hops|]. apply Forall_fmap, Forall_forall. intros h Hin.
    pose proof (wcmp_weights t _ _ (table_of_built qkd_only) v d hops h Hh Hin). cbn. lia. }
  pose proof (pushed_entry qkd_only v d kv kd hops Hdual Hv Hkv Hkd Hsd Hvd Hh Hwf) as He. apply carried_by. intros hash.
  destruct (next_hop_entry (fts kv) kd hash qkd_only _ He Hwf) as (n & Hn & [[-> Hdir]|(h' & Hin & <-)]).
  { exists kd. split_and!; [done|by right|constructor]. }
  apply list_elem_of_fmap in Hin as (h & -> & Hin). exists (wh_qkc_id h).
  destruct (table_of_delivers qkd_only) as (Husable & _ & Hnum). pose proof (Husable v d hops h Hh Hin) as Hu.
  destruct (Hcanon v Hv) as (kv' & Hkv' & Hsv). assert (kv' = kv) as -> by congruence.
  assert (Hreg : registered t (to_string (wh_qkc_id h))) by (apply (linked_registered t v _ Hsync), Hu).
  split_and!; [exact Hn|left; by rewrite Hsv|apply (IH h Hin); [done|by eapply Hnum]].
Qed.
End carry.

(** C3: the controller and the QKCs together.  Take any history of the
    topology whose registered QKCs are named by canonical decimals, and let
    every one of them have accepted the push of the tables built from it.
    Then a frame of the full grade for any destination joined to its node is
    carried there, whatever its hash, by the tables of the QKCs it passes
    through; and with the dual-grade push a QKD-grade frame is carried along
    links that are not PQC, or to a QKD neighbour that is its destination. *)
Theorem pushed_tables_carry_frames `{Libm, HashOrder} ops w wq identity dual (ft0 fts : Z -> ForwardingTable) qkd_only v d kv kd :
  let t := st_topo (sdn_run ops) in
  (forall q, registered t q -> canonical_id q) ->
  wcmp_from_topology t None = Some w -> wcmp_from_topology t (Some GradeQkd) = Some wq -> sdn_may_push identity = true ->
  (forall q k, registered t q -> parse_u 32 q = Some k -> fts k = (post_table (ft0 k) identity (push_body t w wq dual q)).1) ->
  (qkd_only = true -> dual = true) ->
  registered t v -> registered t d -> parse_u 32 v = Some kv -> parse_u 32 d = Some kd -> rtc (usable t (grade_of qkd_only)) v d ->
  carried (fun a b => usable t (grade_of qkd_only) (to_string a) (to_string b) \/ (b = kd /\ kd ∈ direct_of qkd_only (fts a)))
    fts kd qkd_only kv.
Proof.
  cbv zeta. pose proof (go_sync _ (sdn_run_graph ops)) as Hs. set (t := st_topo (sdn_run ops)) in *. clearbody t.
  intros Hc Hw Hwq Hid Ht Hdual Hv Hd Hkv Hkd Hr. destruct (Hc d Hd) as (k & Hk & Hsd). assert (k = kd) as -> by congruence.
  destruct (table_of_delivers t w wq Hs Hc Hw Hwq qkd_only) as (_ & Harr & _).
  exact (pushed_carries t w wq identity dual ft0 fts Hs Hc Hw Hwq Hid Ht qkd_only d kd v kv Hdual Hkd Hsd (Harr v d Hd Hr) Hv Hkv).
Qed.

(** ** What is recorded as pushed *)

Record TickInput := mkTick {
  ti_topo : Topology; ti_wcmp : Wcmp; ti_wcmp_qkd : Wcmp; ti_snap_ptr : Z; ti_dual : bool; ti_accepted : string -> bool }.
Definition tick (s : PushState) (i : TickInput) : PushState * gmap string TableBody * bool :=
  push_tick s (ti_topo i) (ti_wcmp i) (ti_wcmp_qkd i) (ti_snap_ptr i) (ti_dual i) (ti_accepted i).
Definition ticks (l : list TickInput) : PushState := fold_left (fun s i => (tick s i).1.1) l push_start.

(** A turn that posted to every registered QKC and had it accepted. *)
Definition reached_all (s : PushState) (i : TickInput) : Prop :=
  forall q, registered (ti_topo i) q -> ti_accepted i q = true /\
    (tick s i).1.2 !! q = Some (push_body (ti_topo i) (ti_wcmp i) (ti_wcmp_qkd i) (ti_dual i) q).

Lemma tick_state s i : (tick s i).1.1 = s \/
  ((tick s i).1.1 = mkPush (tp_version (ti_topo i)) (ti_snap_ptr i) /\ reached_all s i).
Proof.
  unfold reached_all, tick, push_tick. destruct (_ && _); [by left|]. cbv zeta. cbn [fst snd].
  destruct (forallb _ _) eqn:Hall; [|by left]. right. split; [done|]. intros q [x Hq].
  split.
  - rewrite forallb_forall in Hall. apply (Hall (q, push_body (ti_topo i) (ti_wcmp i) (ti_wcmp_qkd i) (ti_dual i) q)).
    apply list_elem_of_In, elem_of_map_to_list. by rewrite map_lookup_imap, Hq.
  - by rewrite map_lookup_imap, Hq.
Qed.

(** The loop records a topology and a snapshot as pushed only when, in
    one turn, it posted to every registered QKC its table from them and every
    one accepted; a turn with a refusal leaves the record as it was, so that
    the next turn posts everything again. *)
Theorem pushed_only_when_all_accepted l :
  (ticks l = push_start \/ exists s i, i ∈ l /\ ticks l = mkPush (tp_version (ti_topo i)) (ti_snap_ptr i) /\ reached_all s i) /\
  forall s i q, registered (ti_topo i) q -> ti_accepted i q = false -> (tick s i).1.1 = s.
Proof.
  split.
  - unfold ticks. induction l as [|i l IH] using rev_ind; [by left|]. rewrite fold_left_app. cbn [fold_left].
    destruct (tick_state (fold_left (fun s i => (tick s i).1.1) l push_start) i) as [E|[E Hr]]; rewrite E.
    + destruct IH as [?|(s & j & Hj & ?)]; [by left|]. right. exists s, j. split; [apply elem_of_app; by left|done].
    + right. eexists _, i. split_and!; [apply elem_of_app; right; by left|done|done].
  - intros s i q Hq Hacc. destruct (tick_state s i) as [E|[_ Hr]]; [exact E|]. destruct (Hr q Hq) as [Ht _]. congruence.
Qed.

(** ** A refused body *)

(** A body whose QKD table parses and whose full table has a destination
    that is not a number is answered with 400, yet the QKD table of the QKC
    is already the new one. *)
Theorem refused_body_changes_qkd_table `{HashOrder} ft identity raw_qkd raw mq :
  sdn_may_push identity = true -> parse_map raw_qkd = Some mq -> parse_map raw = None ->
  post_table ft identity (mkBody (Some raw) (Some raw_qkd) None None) =
    (mkFt (ft_table ft) (sanitise mq) (ft_direct ft) (ft_direct_qkd ft), PostBadRequest).
Proof. intros Hid Hq Hr. unfold post_table, post_replace. rewrite Hid. cbn [negb tb_replace tb_replace_qkd]. by rewrite Hq, Hr. Qed.

(** ** Instances *)

Definition sample_wcmp (grade : option KeyGrade) : Wcmp := default ∅ (@wcmp_from_topology flat_libm sample_topo grade).
Definition sample_fts (k : Z) : ForwardingTable :=
  (@post_table map_order (ft_new ∅) (Some (Some "sdn"%string)) (push_body sample_topo (sample_wcmp None) (sample_wcmp (Some GradeQkd)) true (to_string k))).1.

Lemma sample_wcmp_built grade : @wcmp_from_topology flat_libm sample_topo grade = Some (sample_wcmp grade).
Proof.
  destruct (@tables_deliver flat_libm sample_topo grade) as (w & E & _); [apply go_sync, sdn_run_graph|exact sample_canonical|].
  unfold sample_wcmp. by rewrite E.
Qed.

Lemma sample_taken q k : registered sample_topo q -> parse_u 32 q = Some k ->
  sample_fts k = (@post_table map_order (ft_new ∅) (Some (Some "sdn"%string)) (push_body sample_topo (sample_wcmp None) (sample_wcmp (Some GradeQkd)) true q)).1.
Proof. intros Hq Hk. destruct (sample_canonical q Hq) as (k' & Hk' & Hs). assert (k' = k) as -> by congruence. unfold sample_fts. by rewrite Hs. Qed.

Lemma sample_one : registered sample_topo "1".
Proof. unfold registered. apply (bool_decide_unpack _). vm_compute. exact I. Qed.

Lemma pushed_tables_carry_frames_witness :
  carried (fun a b => usable sample_topo (grade_of true) (to_string a) (to_string b) \/ (b = 3 /\ 3 ∈ direct_of true (sample_fts a))) sample_fts 3 true 1.
Proof.
  apply (@pushed_tables_carry_frames flat_libm map_order sample_ops (sample_wcmp None) (sample_wcmp (Some GradeQkd)) (Some (Some "sdn"%string)) true
    (fun _ => ft_new ∅) sample_fts true "1" "3" 1 3 sample_canonical (sample_wcmp_built None) (sample_wcmp_built (Some GradeQkd)) eq_refl sample_taken
    (fun _ => eq_refl) sample_one sample_three eq_refl eq_refl).
  exact (rtc_l _ _ _ _ (proj1 sample_usable) (rtc_once _ _ (proj2 sample_usable))).
Defined.

Definition bad_raw : gmap string NextHopValue := {["x"%string := Single 2]}.

Lemma refused_body_changes_qkd_table_witness :
  ft_qkd_table (@post_table map_order (ft_new ∅) None (mkBody (Some bad_raw) (Some {["5"%string := Single 2]}) None None)).1 !! 5 = Some [single 2].
Proof.
  assert (Hq : exists mq, @parse_map map_order {["5"%string := Single 2]} = Some mq /\ sanitise mq !! 5 = Some [single 2])
    by (eexists; split; [vm_compute; reflexivity|vm_compute; reflexivity]).
  destruct Hq as (mq & Hq & Hm).
  rewrite (@refused_body_changes_qkd_table map_order (ft_new ∅) None {["5"%string := Single 2]} bad_raw mq eq_refl Hq eq_refl). exact Hm.
Defined.
