(* ===== verification/SdnControl.v ===== *)
(** * Presence, demand and subscribers of the controller (sdn/src/presence.rs, demand.rs, push.rs, service.rs)

    What the controller keeps beside its topology: when it last heard each
    module that announced itself, the demand each DKMS reported, and the
    streams that follow the topology.  A periodic sweep expires the modules
    and the reports nobody renews.  The maps are [DashMap]s, whose iteration
    order is not fixed: the class [MapOrder] stands for it.  Times are
    arguments: the monotonic clock of an [Instant] in nanoseconds, the wall
    clock in milliseconds.

    Shown: a sweep removes from the topology exactly the modules whose last
    announcement is older than the time to live, and the applications of the
    managers among them, and leaves every other entity as it was; a report
    that survives a sweep was renewed within its age whatever time it claims
    to have been sampled; a subscriber that reads is never dropped. *)

From Stdlib Require Import ZArith Lia String.
From stdpp Require Import sorting strings.
From S2P Require Import Prelude Text Float64 Security SdnTopology SdnStore SdnGraph SdnRegistry.

Class MapOrder (K : Type) `{Countable K} := {
  map_iter : forall A, gmap K A -> list (K * A);
  map_iter_perm : forall A (m : gmap K A), map_iter A m ≡ₚ map_to_list m }.
Arguments map_iter {K _ _ _} {A} m.

Lemma map_iter_elem {K} `{MapOrder K} {A} (m : gmap K A) k v : (k, v) ∈ map_iter m <-> m !! k = Some v.
Proof. by rewrite map_iter_perm, elem_of_map_to_list. Qed.

(** ** Presence *)

Inductive Kind := KQkc | KOrr | KDkms.
#[export] Instance Kind_eq_dec : EqDecision Kind.
Proof. solve_decision. Defined.
#[export] Instance Kind_countable : Countable Kind.
Proof.
  refine (inj_countable' (fun k => match k with KQkc => 0%nat | KOrr => 1%nat | KDkms => 2%nat end)
    (fun n => match n with 0%nat => KQkc | 1%nat => KOrr | _ => KDkms end) _).
  by intros [].
Defined.

Abbreviation Presence := (gmap (Kind * string) Z).

Definition touch (now : Z) (kind : Kind) (id : string) (p : Presence) : Presence := <[(kind, id) := now]> p.
Definition presence_forget (kind : Kind) (id : string) (p : Presence) : Presence := delete (kind, id) p.

(** [now.duration_since(seen) > ttl]; the difference saturates at zero. *)
Definition lapsed (now ttl seen : Z) : bool := ttl <? Z.max 0 (now - seen).

Definition take_expired `{!MapOrder (Kind * string)} (now ttl : Z) (p : Presence) : list (Kind * string) * Presence :=
  let stale := (filter (fun kv : Kind * string * Z => lapsed now ttl kv.2 = true) (map_iter p)).*1 in
  (stale, fold_left (fun p k => delete k p) stale p).

(** ** Demand *)

Record CommodityDemand := mkDemand {
  cd_src_dkms : string; cd_dst_dkms : string; cd_level : f64; cd_capacity : f64; cd_drain_rate : f64;
  cd_timestamp_ms : Z; cd_grade : KeyGrade }.

#[export] Instance KeyGrade_countable : Countable KeyGrade.
Proof.
  refine (inj_countable' (fun g => match g with GradeQkd => true | GradePqc => false end)
    (fun b : bool => if b then GradeQkd else GradePqc) _).
  by intros [].
Defined.

Definition remaining (d : CommodityDemand) : f64 := fmax (fsub (cd_capacity d) (cd_level d)) f_zero.

Definition MAX_MAGNITUDE : f64 := f_of_Z 1000000000.

Definition is_well_formed (d : CommodityDemand) : bool :=
  flt f_zero (cd_capacity d) && fle f_zero (cd_level d) && fle f_zero (cd_drain_rate d)
  && is_finite (cd_level d) && is_finite (cd_capacity d) && is_finite (cd_drain_rate d)
  && fle (cd_capacity d) MAX_MAGNITUDE && fle (cd_level d) MAX_MAGNITUDE && fle (cd_drain_rate d) MAX_MAGNITUDE
  && negb (String.eqb (cd_src_dkms d) "") && negb (String.eqb (cd_dst_dkms d) "")
  && negb (String.eqb (cd_src_dkms d) (cd_dst_dkms d)).

Record DemandReport := mkReport { dr_dkms_id : string; dr_entries : list CommodityDemand }.
Record IngestSummary := mkSummary { is_accepted : nat; is_errors : list string }.
Abbreviation DemandKey := (string * string * KeyGrade)%type.
Abbreviation DemandRegistry := (gmap DemandKey CommodityDemand).

Definition push_error (msg : string) (s : IngestSummary) : IngestSummary :=
  if (length (is_errors s) <? 8)%nat then mkSummary (is_accepted s) (is_errors s ++ [msg]) else s.

Definition with_timestamp (ts : Z) (d : CommodityDemand) : CommodityDemand :=
  mkDemand (cd_src_dkms d) (cd_dst_dkms d) (cd_level d) (cd_capacity d) (cd_drain_rate d) ts (cd_grade d).
Definition demand_key (d : CommodityDemand) : DemandKey := (cd_src_dkms d, cd_dst_dkms d, cd_grade d).

(** The clock is read once per accepted entry: [clock i] for the [i]th of the report. *)
Fixpoint ingest_entries (clock : nat -> Z) (i : nat) (dkms_id : string) (entries : list CommodityDemand) (r : DemandRegistry) (s : IngestSummary)
  : DemandRegistry * IngestSummary :=
  match entries with
  | [] => (r, s)
  | entry :: entries =>
      if negb (String.eqb (cd_src_dkms entry) dkms_id) then
        ingest_entries clock (S i) dkms_id entries r
          (push_error ("entry src_dkms=" ++ cd_src_dkms entry ++ " does not match report dkms_id=" ++ dkms_id)%string s)
      else if negb (is_well_formed entry) then
        ingest_entries clock (S i) dkms_id entries r
          (push_error ("malformed entry " ++ cd_src_dkms entry ++ "→" ++ cd_dst_dkms entry)%string s)
      else
        let now := clock i in
        let entry := if now <? cd_timestamp_ms entry then with_timestamp now entry else entry in
        ingest_entries clock (S i) dkms_id entries (<[demand_key entry := entry]> r) (mkSummary (S (is_accepted s)) (is_errors s))
  end.
Definition ingest (clock : nat -> Z) (report : DemandReport) (r : DemandRegistry) : DemandRegistry * IngestSummary :=
  ingest_entries clock 0 (dr_dkms_id report) (dr_entries report) r (mkSummary 0 []).

(** [i64::saturating_sub]. *)
Definition saturating_sub_i64 (a b : Z) : Z := Z.max (- 2 ^ 63) (Z.min (2 ^ 63 - 1) (a - b)).

Definition evict_older_than `{!MapOrder DemandKey} (now_ms max_age_ms : Z) (r : DemandRegistry) : DemandRegistry * nat :=
  let cutoff := saturating_sub_i64 now_ms max_age_ms in
  let stale := (filter (fun kv : DemandKey * CommodityDemand => cd_timestamp_ms kv.2 < cutoff) (map_iter r)).*1 in
  (fold_left (fun r k => delete k r) stale r, length stale).

(** The product of [u64] panics when it overflows. *)
Definition demand_ttl_ms (cfg : option Z) (presence_ttl_secs : Z) : res unit (option Z) :=
  let secs := default presence_ttl_secs cfg in
  if secs =? 0 then Ok None
  else let ms := secs * 1000 in
    if 2 ^ 64 <=? ms then Panic else Ok (Some (if ms <? 2 ^ 63 then ms else 2 ^ 63 - 1)).

(** ** The sweep *)

Record Control := mkControl { ct_store : Store; ct_presence : Presence; ct_demand : DemandRegistry }.

Definition expire_one (s : Store) (ki : Kind * string) : Store :=
  match ki.1 with
  | KQkc => (delete_qkc s ki.2).1
  | KOrr => (delete_orr s ki.2).1
  | KDkms => (delete_dkms s ki.2).1
  end.

Definition sweep `{!MapOrder (Kind * string), !MapOrder DemandKey} (ttl : Z) (demand_ttl : option Z) (now now_ms : Z) (c : Control) : Control :=
  let demand := match demand_ttl with Some age => (evict_older_than now_ms age (ct_demand c)).1 | None => ct_demand c end in
  let '(stale, presence) := take_expired now ttl (ct_presence c) in
  mkControl (fold_left expire_one stale (ct_store c)) presence demand.

(** ** Subscribers *)

Definition MAX_SUBSCRIBERS : nat := 256.
Definition CHANNEL_CAPACITY : nat := 64.

(** The sender half of a channel: whether its receiver is gone, and what waits in it. *)
Record Sender := mkSender { sn_closed : bool; sn_queue : list Z }.

Definition subscribe (g : list Sender) : list Sender * bool :=
  let g := filter (fun s => sn_closed s = false) g in
  if (MAX_SUBSCRIBERS <=? length g)%nat then (g, false) else (g ++ [mkSender false []], true).

Definition try_send (ev : Z) (s : Sender) : option Sender :=
  if sn_closed s || (CHANNEL_CAPACITY <=? length (sn_queue s))%nat then None else Some (mkSender false (sn_queue s ++ [ev])).

Definition broadcast (ev : Z) (g : list Sender) : list Sender := omap (try_send ev) g.

(** ** What a sweep does to the topology *)

(** The entity of a kind and name. *)
Definition entity (t : Topology) (ki : Kind * string) : option (Qkc + Orr + Dkms) :=
  match ki.1 with
  | KQkc => (fun q => inl (inl q)) <$> tp_qkcs t !! ki.2
  | KOrr => (fun o => inl (inr o)) <$> tp_orrs t !! ki.2
  | KDkms => inr <$> tp_dkms t !! ki.2
  end.

Lemma entity_other (k k' : Kind) (i i' : string) : (k, i) <> (k', i') -> k = k' -> i <> i'.
Proof. intros H -> ->. done. Qed.

Lemma expire_one_entity s ki kj : entity (st_topo (expire_one s ki)) kj = if decide (kj = ki) then None else entity (st_topo s) kj.
Proof.
  destruct ki as [k i], kj as [k' i']. destruct (decide ((k', i') = (k, i))) as [[= -> ->]|Hne].
  - unfold expire_one, delete_qkc, delete_orr, delete_dkms, try_mutate, try_mutate_if, entity. destruct k; cbn [fst snd].
    + destruct (tp_qkcs (st_topo s) !! i) as [q|] eqn:E; cbn; rewrite ?lookup_delete_eq, ?E; done.
    + destruct (tp_orrs (st_topo s) !! i) as [o|] eqn:E; cbn; rewrite ?lookup_delete_eq, ?E; done.
    + destruct (tp_dkms (st_topo s) !! i) as [d|] eqn:E; cbn; rewrite ?lookup_delete_eq, ?E; done.
  - pose proof (entity_other k' k i' i Hne) as Hne'. clear Hne.
    unfold expire_one, delete_qkc, delete_orr, delete_dkms, try_mutate, try_mutate_if, entity. destruct k; cbn [fst snd].
    + destruct (tp_qkcs (st_topo s) !! i); cbn; [|done]. destruct k'; [|done..]. rewrite lookup_delete_ne by naive_solver. done.
    + destruct (tp_orrs (st_topo s) !! i); cbn; [|done]. destruct k'; [done| |done]. rewrite lookup_delete_ne by naive_solver. done.
    + destruct (tp_dkms (st_topo s) !! i); cbn; [|done]. destruct k'; [done..|]. rewrite lookup_delete_ne by naive_solver. done.
Qed.

Lemma expire_one_saes s ki k x : reg_ok (st_topo s) ->
  tp_saes (st_topo (expire_one s ki)) !! k = Some x <-> tp_saes (st_topo s) !! k = Some x /\ ki <> (KDkms, sa_dkms_id x).
Proof.
  intros Hr. destruct ki as [kd i]. unfold expire_one, delete_qkc, delete_orr, delete_dkms, try_mutate, try_mutate_if. destruct kd; cbn [fst snd].
  - destruct (tp_qkcs (st_topo s) !! i); cbn; naive_solver.
  - destruct (tp_orrs (st_topo s) !! i); cbn; naive_solver.
  - destruct (tp_dkms (st_topo s) !! i) as [d|] eqn:E; cbn [res_bind fst snd st_topo bump tp_saes set_saes set_dkms].
    + rewrite map_lookup_filter_Some. cbn [snd]. naive_solver.
    + split; [|naive_solver]. intros Hk. split; [done|]. intros [= ->]. destruct (ro_sae _ Hr _ _ Hk) as [_ [y Hy]]. congruence.
Qed.

Lemma expire_one_reg s ki : reg_ok (st_topo s) -> reg_ok (st_topo (expire_one s ki)).
Proof.
  intros Hr. destruct ki as [[] i].
  - exact (@sdn_step_reg flat_libm map_order s (OpExpireQkc i) Hr).
  - exact (@sdn_step_reg flat_libm map_order s (OpExpireOrr i) Hr).
  - exact (@sdn_step_reg flat_libm map_order s (OpExpireDkms i) Hr).
Qed.

Lemma expire_all_spec l : forall s, reg_ok (st_topo s) ->
  (forall kj, entity (st_topo (fold_left expire_one l s)) kj = if decide (kj ∈ l) then None else entity (st_topo s) kj) /\
  (forall k x, tp_saes (st_topo (fold_left expire_one l s)) !! k = Some x <->
     tp_saes (st_topo s) !! k = Some x /\ ~ (KDkms, sa_dkms_id x) ∈ l).
Proof.
  induction l as [|ki l IH]; intros s Hr; cbn [fold_left].
  { split; [intros kj; by rewrite decide_False by apply not_elem_of_nil|]. intros k x. split; [|by intros [? _]].
    intros ?. split; [done|apply not_elem_of_nil]. }
  destruct (IH (expire_one s ki) (expire_one_reg s ki Hr)) as [H1 H2]. split.
  - intros kj. rewrite H1, expire_one_entity. destruct (decide (kj ∈ l)) as [Hl|Hl], (decide (kj = ki)) as [->|Hne];
      destruct (decide (_ ∈ _ :: l)) as [Hc|Hc]; try done; exfalso; rewrite elem_of_cons in Hc; tauto.
  - intros k x. rewrite H2, expire_one_saes by done. rewrite not_elem_of_cons. split; intros; intuition congruence.
Qed.

Lemma delete_all_lookup {K A} `{Countable K} (l : list K) : forall (m : gmap K A) k,
  fold_left (fun m k => delete k m) l m !! k = if decide (k ∈ l) then None else m !! k.
Proof.
  induction l as [|x l IH]; intros m k; cbn [fold_left]; [by rewrite decide_False by apply not_elem_of_nil|]. rewrite IH.
  destruct (decide (k ∈ l)), (decide (k ∈ x :: l)) as [Hc|Hc]; try done.
  - exfalso. apply Hc. by right.
  - apply elem_of_cons in Hc as [->|?]; [apply lookup_delete_eq|done].
  - apply lookup_delete_ne. intros ->. apply Hc. by left.
Qed.

Lemma stale_keys {K A} `{MapOrder K} (P : K * A -> Prop) `{!forall x, Decision (P x)} (m : gmap K A) k :
  k ∈ (filter P (map_iter m)).*1 <-> exists v, m !! k = Some v /\ P (k, v).
Proof.
  rewrite list_elem_of_fmap. split.
  - intros ([k' v] & -> & [Hp Hin]%list_elem_of_filter). exists v. by rewrite <- map_iter_elem.
  - intros (v & Hv & Hp). exists (k, v). split; [done|]. apply list_elem_of_filter. by rewrite map_iter_elem.
Qed.

(** The last announcement is older than the time to live. *)
Definition is_stale (p : Presence) (now ttl : Z) (ki : Kind * string) : Prop := exists seen, p !! ki = Some seen /\ ttl < Z.max 0 (now - seen).

(** A sweep removes from the topology exactly the modules whose last
    announcement is older than the time to live, whatever the order it visits
    them in, stops watching them, and removes the applications of the
    managers among them; every other module, in particular one that never
    announced itself, and every other application stays as it was. *)
Theorem sweep_expires_exactly `{Libm, HashOrder, !MapOrder (Kind * string), !MapOrder DemandKey} ops p dem ttl dttl now now_ms :
  let t := st_topo (sdn_run ops) in
  let c' := sweep ttl dttl now now_ms (mkControl (sdn_run ops) p dem) in
  let t' := st_topo (ct_store c') in
  (forall ki, is_stale p now ttl ki -> entity t' ki = None /\ ct_presence c' !! ki = None) /\
  (forall ki, ~ is_stale p now ttl ki -> entity t' ki = entity t ki /\ ct_presence c' !! ki = p !! ki) /\
  (forall k x, tp_saes t' !! k = Some x <-> tp_saes t !! k = Some x /\ ~ is_stale p now ttl (KDkms, sa_dkms_id x)).
Proof.
  cbv zeta. unfold sweep. cbn [ct_store ct_presence]. unfold take_expired. set (stale := (filter _ (map_iter p)).*1). cbn [ct_store ct_presence].
  assert (Hst : forall ki, ki ∈ stale <-> is_stale p now ttl ki).
  { intros ki. unfold stale. rewrite stale_keys. unfold is_stale, lapsed. cbn [snd]. setoid_rewrite Z.ltb_lt. done. }
  destruct (expire_all_spec stale (sdn_run ops) (sdn_run_reg ops)) as [H1 H2]. split_and!.
  - intros ki Hs%Hst. rewrite H1, delete_all_lookup. by rewrite !decide_True by done.
  - intros ki Hs. rewrite <- Hst in Hs. rewrite H1, delete_all_lookup. by rewrite !decide_False by done.
  - intros k x. rewrite H2, Hst. done.
Qed.

(** ** What a report lasts *)

Inductive DemandEvent := DReport (clock : nat -> Z) (r : DemandReport) | DEvict (now age : Z).
Definition demand_step `{!MapOrder DemandKey} (r : DemandRegistry) (e : DemandEvent) : DemandRegistry :=
  match e with
  | DReport clock rep => (ingest clock rep r).1
  | DEvict now age => (evict_older_than now age r).1
  end.
Definition demand_run `{!MapOrder DemandKey} (l : list DemandEvent) : DemandRegistry := fold_left demand_step l ∅.

(** An entry of a report for the key, read when the clock was at least [ts]. *)
Definition renewed (l : list DemandEvent) (key : DemandKey) (ts : Z) : Prop :=
  exists (clock : nat -> Z) (r : DemandReport) (i : nat) (entry : CommodityDemand), DReport clock r ∈ l /\ dr_entries r !! i = Some entry /\ cd_src_dkms entry = dr_dkms_id r /\
    demand_key entry = key /\ ts <= clock i.

Definition demand_ok (l : list DemandEvent) (r : DemandRegistry) : Prop :=
  forall key e, r !! key = Some e -> demand_key e = key /\ is_well_formed e = true /\ renewed l key (cd_timestamp_ms e).

Lemma ingest_entries_ok l clock rep : DReport clock rep ∈ l -> forall entries i r s,
  (forall j e, entries !! j = Some e -> dr_entries rep !! (i + j)%nat = Some e) ->
  demand_ok l r -> demand_ok l (ingest_entries clock i (dr_dkms_id rep) entries r s).1.
Proof.
  intros Hl. induction entries as [|e entries IH]; intros i r s Hpos Hok; cbn [ingest_entries]; [done|].
  assert (Hpos' : forall j e', entries !! j = Some e' -> dr_entries rep !! (S i + j)%nat = Some e').
  { intros j e' Hj. replace (S i + j)%nat with (i + S j)%nat by lia. by apply Hpos. }
  destruct (String.eqb (cd_src_dkms e) (dr_dkms_id rep)) eqn:Hsrc; cbn [negb]; [|by apply IH]. apply String.eqb_eq in Hsrc.
  destruct (is_well_formed e) eqn:Hwf; cbn [negb]; [|by apply IH]. cbv zeta. apply IH; [done|].
  set (e' := if clock i <? cd_timestamp_ms e then with_timestamp (clock i) e else e). assert (He' : demand_key e' = demand_key e /\ is_well_formed e' = true /\ cd_timestamp_ms e' <= clock i).
  { unfold e'. destruct (Z.ltb_spec (clock i) (cd_timestamp_ms e)); split_and!; try done; cbn; lia. }
  destruct He' as (Hk & Hw & Ht). intros key x. destruct (decide (key = demand_key e')) as [->|Hne].
  - rewrite lookup_insert_eq. intros [=<-]. split_and!; [done|done|]. exists clock, rep, i, e. split_and!; try done.
    rewrite <- (Hpos 0%nat e eq_refl). f_equal. lia.
  - rewrite lookup_insert_ne by done. apply Hok.
Qed.

Lemma renewed_more l l' key ts : renewed l key ts -> renewed (l ++ l') key ts.
Proof. intros (clock & r & i & e & Hin & ?). exists clock, r, i, e. split; [apply elem_of_app; by left|done]. Qed.

Lemma evict_lookup `{!MapOrder DemandKey} now age r key e : (evict_older_than now age r).1 !! key = Some e <->
  r !! key = Some e /\ saturating_sub_i64 now age <= cd_timestamp_ms e.
Proof.
  unfold evict_older_than. cbn [fst]. rewrite delete_all_lookup. destruct (decide _) as [Hs|Hs]; rewrite stale_keys in Hs; cbn [snd] in Hs.
  - destruct Hs as (v & Hv & Hlt). split; [done|]. intros [Hk Hle]. rewrite Hv in Hk. injection Hk as ->. lia.
  - split; [|by intros [? _]]. intros Hk. split; [done|]. apply Z.nlt_ge. intros Hlt. apply Hs. by exists e.
Qed.

Lemma demand_run_ok `{!MapOrder DemandKey} l : demand_ok l (demand_run l).
Proof.
  unfold demand_run. induction l as [|ev l IH] using rev_ind; [intros key e; cbn; by rewrite lookup_empty|].
  rewrite fold_left_app. cbn [fold_left]. set (r := fold_left demand_step l ∅) in *.
  assert (Hok : demand_ok (l ++ [ev]) r).
  { intros key e Hk. destruct (IH key e Hk) as (H1 & H2 & H3). split_and!; [done|done|by apply renewed_more]. }
  destruct ev as [clock rep|now age]; cbn [demand_step].
  - unfold ingest. apply ingest_entries_ok; [apply elem_of_app; right; by left|done|done].
  - intros key e [Hk _]%evict_lookup. by apply Hok.
Qed.

(** Whatever the reports claim, including samples dated in the future, an
    entry that is still in the registry after a sweep is well formed, is filed
    under its own source, destination and grade, and was reported by its
    source at a time of the controller's clock within the age the sweep
    allows: a commodity nobody renews disappears. *)
Theorem surviving_demand_was_renewed `{!MapOrder DemandKey} l now age key e :
  demand_run (l ++ [DEvict now age]) !! key = Some e ->
  demand_key e = key /\ is_well_formed e = true /\ renewed l key (saturating_sub_i64 now age).
Proof.
  unfold demand_run. rewrite fold_left_app. cbn [fold_left demand_step]. intros [Hk Hle]%evict_lookup.
  destruct (demand_run_ok l key e Hk) as (H1 & H2 & clock & r & i & x & ? & ? & ? & ? & ?). split_and!; [done|done|].
  exists clock, r, i, x. split_and!; try done. lia.
Qed.

(** ** Streams of events *)

Lemma broadcast_length ev g : (length (broadcast ev g) <= length g)%nat.
Proof. unfold broadcast. induction g as [|s g IH]; cbn [omap list_omap]; [done|]. destruct (try_send ev s); cbn [length]; lia. Qed.

(** The number of streams is bounded; a stream that is open and not full is
    never dropped, neither by a newcomer nor by an event, and gets the event;
    a newcomer is refused only when the table is full of open streams. *)
Theorem open_streams_are_kept g ev :
  ((length g <= MAX_SUBSCRIBERS)%nat -> (length (subscribe g).1 <= MAX_SUBSCRIBERS)%nat /\ (length (broadcast ev g) <= MAX_SUBSCRIBERS)%nat) /\
  (forall s, s ∈ g -> sn_closed s = false -> s ∈ (subscribe g).1) /\
  ((subscribe g).2 = false <-> (MAX_SUBSCRIBERS <= length (filter (fun s => sn_closed s = false) g))%nat) /\
  (forall s, s ∈ g -> sn_closed s = false -> (length (sn_queue s) < CHANNEL_CAPACITY)%nat -> mkSender false (sn_queue s ++ [ev]) ∈ broadcast ev g).
Proof.
  unfold subscribe. set (l := filter _ g). assert (Hl : (length l <= length g)%nat) by apply length_filter.
  destruct (Nat.leb_spec MAX_SUBSCRIBERS (length l)) as [Hm|Hm]; cbn [fst snd]; split_and!.
  - intros Hg. split; [lia|]. pose proof (broadcast_length ev g). lia.
  - intros s Hs Hc. by apply list_elem_of_filter.
  - done.
  - intros s Hs Hc Hq. apply list_elem_of_omap. exists s. split; [done|]. unfold try_send. rewrite Hc. cbn [orb].
    by destruct (Nat.leb_spec CHANNEL_CAPACITY (length (sn_queue s))); [lia|].
  - intros Hg. rewrite length_app. cbn [length]. split; [lia|]. pose proof (broadcast_length ev g). lia.
  - intros s Hs Hc. apply elem_of_app. left. by apply list_elem_of_filter.
  - split; [done|lia].
  - intros s Hs Hc Hq. apply list_elem_of_omap. exists s. split; [done|]. unfold try_send. rewrite Hc. cbn [orb].
    by destruct (Nat.leb_spec CHANNEL_CAPACITY (length (sn_queue s))); [lia|].
Qed.

(** ** Instances *)

Definition list_order (K : Type) `{Countable K} : MapOrder K :=
  {| map_iter := fun A m => map_to_list m; map_iter_perm := fun A m => reflexivity _ |}.

(** A report of the DKMS "d1" dated far in the future, taken at time 100. *)
Definition future_demand : CommodityDemand := mkDemand "d1" "d2" (f_of_Z 10) (f_of_Z 100) (f_of_Z 1) 1000000 GradeQkd.
Definition future_report : DemandEvent := DReport (fun _ => 100) (mkReport "d1" [future_demand]).

Lemma surviving_demand_was_renewed_witness :
  @demand_run (list_order DemandKey) [future_report; DEvict 150 60] !! demand_key future_demand = Some (with_timestamp 100 future_demand) /\
  renewed [future_report] (demand_key future_demand) 90 /\
  @demand_run (list_order DemandKey) [future_report; DEvict 161 60] !! demand_key future_demand = None.
Proof.
  assert (Hk : @demand_run (list_order DemandKey) [future_report; DEvict 150 60] !! demand_key future_demand = Some (with_timestamp 100 future_demand))
    by (vm_compute; reflexivity).
  split_and!; [exact Hk| |vm_compute; reflexivity].
  exact (proj2 (proj2 (@surviving_demand_was_renewed (list_order DemandKey) [future_report] 150 60 _ _ Hk))).
Defined.
