(* ===== verification/SdnHttp.v ===== *)
(** * The controller's HTTP plane (sdn/src/http_api.rs)

    The mutating routes: the three announcements, the administration of
    applications, the capacity of a link and the reports of demand.  On a
    mutual-TLS listener each request carries the identity of the client's
    certificate, on a plain one none.  A handler authorises, validates, calls
    the store and notes the presence.

    The reply is [res HttpError HttpOk]; the messages of validation errors are
    reduced to the name of the field, since they print floats.  Parsing an IP
    address or a socket address is the class [NetText].  Two handlers read the
    owner of an application from a snapshot and then change the store: they
    take the snapshot they read as an argument, so that a change in between
    can be expressed.

    Shown: a request under a certificate changes no entity, declaration, link,
    standing binding or demand but those of the certificate's own node, a binding
    that changed hands within the request apart; what the fallback address of a
    registration and the two-step owner test let through. *)

From Stdlib Require Import ZArith Lia String Ascii.
From stdpp Require Import sorting strings.
From S2P Require Import Prelude Ids Text Float64 Security SdnTopology SdnStore SdnGraph SdnRegistry SdnControl.

Class NetText := { is_ip_addr : string -> bool; is_socket_addr : string -> bool }.

(** ** Identity *)

(** [Some san] on mutual TLS, the certificate's identifier possibly missing. *)
Abbreviation Identity := (option (option string)).

Fixpoint strip_prefix (prefix s : string) : option string :=
  match prefix, s with
  | String.EmptyString, _ => Some s
  | String.String a prefix, String.String b s => if Ascii.eqb a b then strip_prefix prefix s else None
  | _, _ => None
  end.

(** [rsplit('/').next()]: what follows the last slash. *)
Fixpoint last_segment (s : string) (seg : string) : string :=
  match s with
  | String.EmptyString => seg
  | String.String c s => if Ascii.eqb c "/"%char then last_segment s s else last_segment s seg
  end.

Definition node_id_from_san (san : string) : string :=
  match strip_prefix "urn:dkms:node:" san with
  | Some rest => last_segment rest rest
  | None => match strip_prefix "dkms://" san with Some rest => last_segment rest rest | None => san end
  end.

Definition identity_authorizes (identity : Identity) (claimed_id : string) : bool :=
  match identity ≫= id with
  | None => bool_decide (identity = None)
  | Some san => String.eqb (node_id_from_san san) claimed_id
  end.

Inductive HttpError := Forbidden | Failed (code : Z) (e : SdnError).

Definition require_identity (identity : Identity) (claimed_id : string) : res HttpError unit :=
  if identity_authorizes identity claimed_id then Ok tt else Err Forbidden.

Definition require_sae_owner (identity : Identity) (dkms_id : option string) : res HttpError unit :=
  match identity with
  | None => Ok tt
  | Some _ => match dkms_id with Some id => require_identity identity id | None => Err Forbidden end
  end.

Definition sae_mutation_authorized (identity : Identity) (current_owner : option string) : res HttpError unit :=
  match current_owner with None => Ok tt | Some owner => require_identity identity owner end.

Definition link_capacity_authorized (identity : Identity) (qkc_a qkc_b : string) : res HttpError unit :=
  if bool_decide (identity = None) || identity_authorizes identity "sdn"
     || identity_authorizes identity ("qkc-" ++ qkc_a)%string || identity_authorizes identity ("qkc-" ++ qkc_b)%string
  then Ok tt else Err Forbidden.

(** ** Errors *)

Definition http_status_for (e : SdnError) : Z :=
  match e with
  | UnknownNode _ | UnknownLink _ | UnknownDkms _ | UnknownSae _ | NoPath _ _ => 404
  | SaeAlreadyRegistered _ => 409
  | BadRequest _ | TopologyError _ | AdmissionDenied _ => 400
  | AlreadyExists _ => 500
  end.
Definition err_response (e : SdnError) : HttpError := Failed (http_status_for e) e.

(** ** Validation *)

Definition MAX_LINKS_PER_QKC : Z := 256.
Definition MAX_KEYS_PER_S : f64 := f_of_Z 1000000000.

Definition check (b : bool) (what : string) : res string unit := if b then Ok tt else Err what.

Definition finite_in (v lo hi : f64) (what : string) : res string unit :=
  check (negb (negb (is_finite v) || flt v lo || flt hi v)) what.

Section handlers.
Context `{LM : Libm} `{HO : HashOrder} `{NT : NetText}.

Definition validate_host (h : HostEndpoint) : res string unit :=
  let* _ := check (is_ip_addr (hp_ip h)) "host.ip" in
  check (negb (hp_port h =? 0)) "host.port".

Definition is_numeric_id (id : string) : bool := is_valid_id id && bool_decide (is_Some (parse_u 32 id)).

Definition validate_link (l : QkcLinkAnnounce) : res string unit :=
  let* _ := check (is_numeric_id (la_neighbor_id l)) "neighbor_id" in
  let* _ := finite_in (em_r0 (la_meta l)) f_zero MAX_KEYS_PER_S "r0" in
  let* _ := finite_in (em_alpha (la_meta l)) f_zero (f_of_Z 100) "alpha" in
  let* _ := finite_in (em_pqc_capacity (la_meta l)) f_zero MAX_KEYS_PER_S "capacity_keys_per_s" in
  let* _ := check (em_distance_km (la_meta l) <=? 100000) "distance_km" in
  let* _ := match la_measured_rate l with
    | Some m => finite_in m f_zero MAX_KEYS_PER_S "measured_rate_keys_per_s"
    | None => Ok tt end in
  match la_measured_quality l with
  | Some q => check (String.length q <=? 32)%nat "measured_quality"
  | None => Ok tt
  end.

Fixpoint validate_links (ls : list QkcLinkAnnounce) : res string unit :=
  match ls with
  | [] => Ok tt
  | l :: ls => let* _ := validate_link l in validate_links ls
  end.

Definition validate_qkc_announce (reg : QkcAnnounce) : res string unit :=
  let* _ := check (is_numeric_id (qa_id reg)) "id" in
  let* _ := validate_host (qa_host reg) in
  let* _ := match qa_peer_addr reg with Some pa => check (is_socket_addr pa) "peer_addr" | None => Ok tt end in
  let* _ := check (zlen (qa_links reg) <=? MAX_LINKS_PER_QKC) "links" in
  validate_links (qa_links reg).

Definition validate_orr_announce (reg : OrrAnnounce) : res string unit :=
  let* _ := validate_host (oa_host reg) in
  check (is_valid_id (oa_id reg) && bool_decide (is_Some (parse_u 32 (oa_qkc_id reg)))) "orr_id/qkc_id".

Definition validate_dkms_announce (reg : DkmsAnnounce) : res string unit :=
  let* _ := validate_host (da_host reg) in
  let* _ := check (is_valid_id (da_id reg) && is_valid_id (da_orr_id reg)) "dkms id/orr_id" in
  let* _ := match da_peer_addr reg with Some pa => check (is_socket_addr pa) "peer_addr" | None => Ok tt end in
  check (forallb is_valid_id (da_saes reg)) "sae id".

(** ** Handlers *)

Inductive HttpOk :=
  | OkQkc (out : QkcAnnounceOutcome) | OkOrr (out : AnnounceOutcome) (peers : list OrrPeerOut)
  | OkDkms (out : AnnounceOutcome) (peers : list DkmsPeerOut)
  | Created (s : Sae) | OkBulk (os : list BulkSaeOutcome) | OkSae (s : Sae) | NoContent
  | OkCapacity (changed : bool) | OkDemand (s : IngestSummary) (partial : bool) (registry_len : nat).

Definition with_store (s : Store) (c : Control) : Control := mkControl s (ct_presence c) (ct_demand c).
Definition with_touch (now : Z) (k : Kind) (id : string) (c : Control) : Control :=
  mkControl (ct_store c) (touch now k id (ct_presence c)) (ct_demand c).

Definition bad_request {A} (r : res string A) : res HttpError A := res_map_err (fun what => err_response (BadRequest what)) r.

(** A handler runs [body] when the two tests pass. *)
Definition guarded (c : Control) (auth : res HttpError unit) (valid : res string unit) (body : Control * res HttpError HttpOk)
  : Control * res HttpError HttpOk :=
  match auth with
  | Ok _ => match bad_request valid with Ok _ => body | Err e => (c, Err e) | Panic => (c, Panic) end
  | Err e => (c, Err e)
  | Panic => (c, Panic)
  end.

Definition http_announce_qkc (identity : Identity) (now : Z) (reg : QkcAnnounce) (c : Control) : Control * res HttpError HttpOk :=
  guarded c (require_identity identity ("qkc-" ++ qa_id reg)%string) (validate_qkc_announce reg)
    (let '(s, out) := announce_qkc (ct_store c) reg in
     (with_touch now KQkc (qa_id reg) (with_store s c), Ok (OkQkc (set_peers (qkc_peers (st_topo s) (qa_id reg)) out)))).

Definition http_announce_orr (identity : Identity) (now : Z) (reg : OrrAnnounce) (c : Control) : Control * res HttpError HttpOk :=
  guarded c (require_identity identity (oa_id reg)) (validate_orr_announce reg)
    (let '(s, out) := announce_orr (ct_store c) reg in
     if an_accepted out then (with_touch now KOrr (oa_id reg) (with_store s c), Ok (OkOrr out (orr_peers (st_topo s) (oa_id reg))))
     else (with_store s c, Ok (OkOrr out []))).

Definition http_announce_dkms (identity : Identity) (now : Z) (reg : DkmsAnnounce) (c : Control) : Control * res HttpError HttpOk :=
  guarded c (require_identity identity (da_id reg)) (validate_dkms_announce reg)
    (let '(s, out) := announce_dkms (ct_store c) reg in
     if an_accepted out then (with_touch now KDkms (da_id reg) (with_store s c), Ok (OkDkms out (dkms_peers (st_topo s) (da_id reg))))
     else (with_store s c, Ok (OkDkms out []))).

Definition reply {A} (f : A -> HttpOk) (r : res SdnError A) : res HttpError HttpOk :=
  let* a := res_map_err err_response r in Ok (f a).

Definition http_register_sae (identity : Identity) (id : string) (dkms_id : option string) (target : option (string * Z)) (c : Control)
  : Control * res HttpError HttpOk :=
  guarded c (require_sae_owner identity dkms_id) (Ok tt)
    (let '(s, r) := register_sae (ct_store c) id dkms_id target in (with_store s c, reply Created r)).

(** Every item is authorised before any is registered. *)
Fixpoint bulk_authorized (identity : Identity) (items : list SaeBulkItem) : res HttpError unit :=
  match items with
  | [] => Ok tt
  | it :: items => let* _ := require_sae_owner identity (bi_dkms_id it) in bulk_authorized identity items
  end.

Definition http_register_sae_bulk (identity : Identity) (items : list SaeBulkItem) (c : Control) : Control * res HttpError HttpOk :=
  guarded c (match identity with Some _ => bulk_authorized identity items | None => Ok tt end) (Ok tt)
    (let '(s, r) := register_sae_bulk (ct_store c) items in (with_store s c, reply OkBulk r)).

Definition http_update_sae (loaded : Topology) (identity : Identity) (sae_id : string) (dkms_id : option string) (target : option (string * Z))
    (c : Control) : Control * res HttpError HttpOk :=
  guarded c (sae_mutation_authorized identity (sa_dkms_id <$> tp_saes loaded !! sae_id)) (Ok tt)
    (let '(s, r) := update_sae (ct_store c) sae_id dkms_id target in (with_store s c, reply OkSae r)).

Definition http_delete_sae (loaded : Topology) (identity : Identity) (sae_id : string) (c : Control) : Control * res HttpError HttpOk :=
  guarded c (sae_mutation_authorized identity (sa_dkms_id <$> tp_saes loaded !! sae_id)) (Ok tt)
    (let '(s, r) := delete_sae (ct_store c) sae_id in (with_store s c, reply (fun _ => NoContent) r)).

Definition http_update_link_capacity (identity : Identity) (qkc_a qkc_b : string) (kps : f64) (c : Control) : Control * res HttpError HttpOk :=
  if String.eqb qkc_a "" || String.eqb qkc_b "" then (c, Err (err_response (BadRequest "qkc_a and qkc_b are required")))
  else guarded c (link_capacity_authorized identity qkc_a qkc_b) (Ok tt)
    (let '(s, r) := update_edge_capacity_kps (ct_store c) qkc_a qkc_b kps in (with_store s c, reply OkCapacity r)).

Definition http_post_demand (identity : Identity) (clock : nat -> Z) (report : DemandReport) (c : Control) : Control * res HttpError HttpOk :=
  if String.eqb (dr_dkms_id report) "" then (c, Err (err_response (BadRequest "dkms_id is required")))
  else guarded c (require_identity identity (dr_dkms_id report)) (Ok tt)
    (let '(r, s) := ingest clock report (ct_demand c) in
     (mkControl (ct_store c) (ct_presence c) r, Ok (OkDemand s (negb (bool_decide (is_errors s = []))) (size r)))).

(** ** Requests *)

Inductive Request :=
  | RqQkc (reg : QkcAnnounce) | RqOrr (reg : OrrAnnounce) | RqDkms (reg : DkmsAnnounce)
  | RqSae (id : string) (dkms_id : option string) (target : option (string * Z))
  | RqBulk (items : list SaeBulkItem)
  | RqUpdate (id : string) (dkms_id : option string) (target : option (string * Z))
  | RqDelete (id : string)
  | RqCapacity (a b : string) (kps : f64)
  | RqDemand (report : DemandReport).

(** The routes.  A route that asks who owns an application asks the topology it
    has [loaded], which other requests may have changed since; the rest of each
    is one operation of the store, and what it notes beside. *)
Definition handle (loaded : Topology) (identity : Identity) (now : Z) (clock : nat -> Z) (rq : Request) (c : Control) : Control * res HttpError HttpOk :=
  match rq with
  | RqQkc reg => http_announce_qkc identity now reg c
  | RqOrr reg => http_announce_orr identity now reg c
  | RqDkms reg => http_announce_dkms identity now reg c
  | RqSae id d tg => http_register_sae identity id d tg c
  | RqBulk items => http_register_sae_bulk identity items c
  | RqUpdate id d tg => http_update_sae loaded identity id d tg c
  | RqDelete id => http_delete_sae loaded identity id c
  | RqCapacity a b kps => http_update_link_capacity identity a b kps c
  | RqDemand report => http_post_demand identity clock report c
  end.
End handlers.

(** ** What an announcement of a QKC touches *)

(** Only links of [me] differ. *)
Definition links_local (me : string) (t t' : Topology) : Prop :=
  tp_qkcs t' = tp_qkcs t /\ tp_declared t' = tp_declared t /\ forall a b, a <> me -> b <> me -> edge t' a b = edge t a b.

Lemma links_local_refl me t : links_local me t t.
Proof. done. Qed.
Lemma links_local_trans me t1 t2 t3 : links_local me t1 t2 -> links_local me t2 t3 -> links_local me t1 t3.
Proof. intros (?&?&H1) (?&?&H2). split_and!; [congruence|congruence|]. intros a b Ha Hb. by rewrite H2, H1. Qed.

Lemma edge_key_other me other a b : a <> me -> b <> me -> edge_key a b <> edge_key me other.
Proof. intros Ha Hb [[-> _]|[_ ->]]%edge_key_inj; done. Qed.

Lemma set_edge_local me other t m : links_local me t (set_edges <[edge_key me other := m]> t).
Proof.
  split_and!; [done|done|]. intros a b Ha Hb. unfold edge. cbn [tp_edges set_edges].
  rewrite lookup_insert_ne; [done|]. by apply not_eq_sym, edge_key_other.
Qed.

Lemma recompute_edge_local t me other out : links_local me t (recompute_edge t me other out).1.1.
Proof.
  assert (Hp : forall m o, links_local me t (place_edge t me other m o).1.1).
  { intros m o. unfold place_edge. destruct (_ || _); [done|]. set (m' := match tp_edges t !! _ with Some _ => _ | None => _ end).
    destruct (match tp_edges _ !! _ with Some _ => em_eqb _ _ | None => _ end); [done|]. cbn [fst].
    apply (links_local_trans _ _ (set_graph (fun g => adj_insert other me (adj_insert me other g)) t)); [done|apply set_edge_local]. }
  unfold recompute_edge. destruct (_ ≫= _) as [mine|], (_ ≫= _) as [theirs|]; try apply Hp.
  - destruct (em_eqb mine theirs); [apply Hp|]. destruct (tp_edges t !! _); [done|apply Hp].
  - assert (Hd : links_local me t (set_graph (adj_remove other me) (set_graph (adj_remove me other) (set_edges (delete (edge_key me other)) t)))).
    { split_and!; [done|done|]. intros a b Ha Hb. unfold edge. cbn [tp_edges set_edges set_graph].
      rewrite lookup_delete_ne; [done|]. by apply not_eq_sym, edge_key_other. }
    unfold drop_edge. by destruct (_ || _ || _).
Qed.

Lemma recompute_all_local me l : forall t out c, links_local me t (recompute_all me l (t, out, c)).1.1.
Proof.
  induction l as [|o l IH]; intros t out c; [done|]. cbn [recompute_all].
  pose proof (recompute_edge_local t me o out) as H1. destruct (recompute_edge t me o out) as [[t1 out1] c1].
  exact (links_local_trans _ _ _ _ H1 (IH t1 out1 (c || c1))).
Qed.

Lemma apply_measured_all_local `{Libm} id l : forall t c, links_local id t (apply_measured_all id l (t, c)).1.
Proof.
  induction l as [|[n k] l IH]; intros t c; [done|]. unfold apply_measured_all. cbn [fold_left fst snd].
  assert (Hr : links_local id t (apply_measured_capacity t id n k).1).
  { unfold apply_measured_capacity. destruct (negb _); [done|]. destruct (tp_edges t !! _) as [e|]; [|done].
    destruct (is_pqc e); [done|]. destruct (flt _ _); [done|apply set_edge_local]. }
  destruct (apply_measured_capacity t id n k) as [t' c']. exact (links_local_trans _ _ _ _ Hr (IH t' (c || c'))).
Qed.

(** The record, the declarations and the links of the announcing QKC. *)
Lemma announce_qkc_local `{Libm, HashOrder} s reg :
  let t := st_topo s in let t' := st_topo (announce_qkc s reg).1 in
  (forall q, q <> qa_id reg -> tp_qkcs t' !! q = tp_qkcs t !! q /\ tp_declared t' !! q = tp_declared t !! q) /\
  (forall a b, a <> qa_id reg -> b <> qa_id reg -> edge t' a b = edge t a b).
Proof.
  cbv zeta. unfold announce_qkc. destruct (record_measured _ _ _ _) as [rates measured]. set (q := mkQkc _ _ _ _).
  destruct (upsert_qkc (st_topo s) q) as [t1 c1] eqn:E1. unfold upsert_qkc in E1. injection E1 as <- _.
  unfold apply_declared_links. set (out0 := new_outcome _). clearbody out0. set (links := declared_links _ _). clearbody links.
  match goal with |- context [recompute_all ?i ?l (?t, ?o, ?c)] => pose proof (recompute_all_local i l t o c) as H2 end.
  destruct (recompute_all _ _ _) as [[t2 out2] c2]. unfold close_declarations_pointing_at.
  match goal with |- context [recompute_all ?i ?l (?t, ?o, ?c)] => pose proof (recompute_all_local i l t o c) as H3 end.
  destruct (recompute_all _ _ _) as [[t3 out3] c3].
  pose proof (apply_measured_all_local (qa_id reg) measured t3 (c1 || c2 || c3)) as H4.
  destruct (apply_measured_all _ _ _) as [t4 []]; [|done]. cbn [fst st_topo] in *.
  destruct (links_local_trans _ _ _ _ (links_local_trans _ _ _ _ H2 H3) H4) as (Eq & Ed & Ee).
  cbn [tp_qkcs tp_declared set_declared set_graph set_qkcs bump] in *. split.
  - intros x Hx. cbn [tp_qkcs tp_declared bump]. rewrite Eq, Ed. change (qk_id q) with (qa_id reg). by rewrite !lookup_insert_ne by done.
  - intros a b Ha Hb. change (edge (bump t4) a b) with (edge t4 a b). by rewrite Ee.
Qed.

(** ** What each request may touch *)

(** The modules a node's certificate speaks for: a QKC is numbered in the
    topology and named [qkc-N] in its certificate. *)
Definition own_entity (me : string) (ki : Kind * string) : Prop :=
  match ki.1 with KQkc => me = ("qkc-" ++ ki.2)%string | KOrr | KDkms => me = ki.2 end.

Record local (me : string) (t t' : Topology) : Prop := mkLocal {
  lc_entity : forall ki, ~ own_entity me ki -> entity t' ki = entity t ki;
  lc_declared : forall q, me <> ("qkc-" ++ q)%string -> tp_declared t' !! q = tp_declared t !! q;
  lc_edge : forall a b, me <> "sdn"%string -> me <> ("qkc-" ++ a)%string -> me <> ("qkc-" ++ b)%string -> edge t' a b = edge t a b;
  lc_saes : forall k x, tp_saes t !! k = Some x -> sa_dkms_id x <> me -> tp_saes t' !! k = Some x }.

Lemma local_refl me t : local me t t.
Proof. by split. Qed.
#[local] Hint Resolve local_refl : core.

Lemma qkc_name_inj q q' : ("qkc-" ++ q)%string = ("qkc-" ++ q')%string -> q = q'.
Proof. cbn. by intros [=]. Qed.

Lemma announce_qkc_own `{Libm, HashOrder} s reg : local ("qkc-" ++ qa_id reg)%string (st_topo s) (st_topo (announce_qkc s reg).1).
Proof.
  destruct (announce_qkc_local s reg) as [H1 H2]. destruct (announce_qkc_reg s reg) as (Es & Ed & Eo & _). split.
  - intros [[] i] Hi; unfold own_entity, entity in *; cbn [fst snd] in *; rewrite ?Eo, ?Ed; [|done|done].
    destruct (H1 i) as [-> _]; [|done]. intros ->. by apply Hi.
  - intros q Hq. apply H1. intros ->. by apply Hq.
  - intros a b _ Ha Hb. apply H2; intros ->; [by apply Ha|by apply Hb].
  - intros k x Hk _. by rewrite Es.
Qed.

(** The records of the other modules. *)
Definition others_same (orr dkms : string) (t t' : Topology) : Prop :=
  (forall i, i <> orr -> tp_orrs t' !! i = tp_orrs t !! i) /\ (forall i, i <> dkms -> tp_dkms t' !! i = tp_dkms t !! i).

Lemma others_same_trans o d t1 t2 t3 : others_same o d t1 t2 -> others_same o d t2 t3 -> others_same o d t1 t3.
Proof. intros [H1 H2] [H3 H4]. split; intros i Hi; [rewrite H3, H1|rewrite H4, H2]; done. Qed.

Lemma announce_orr_others s reg d : others_same (oa_id reg) d (st_topo s) (st_topo (announce_orr s reg).1).
Proof.
  unfold announce_orr. destruct (negb _); [done|]. set (o := mkOrr _ _ _).
  assert (Hu : others_same (oa_id reg) d (st_topo s) (upsert_orr (st_topo s) o).1).
  { unfold upsert_orr. destruct (negb _); [done|]. destruct (match tp_orr_by_qkc _ !! _ with Some _ => _ | None => _ end); [done|].
    split; [|done]. intros i Hi. cbn [fst tp_orrs set_orrs]. change (or_id o) with (oa_id reg). by rewrite lookup_insert_ne. }
  destruct (upsert_orr (st_topo s) o) as [t' []]; [done|done|exact Hu].
Qed.

Lemma announce_saes_others o d id l : forall t cs c, others_same o d t (announce_saes id l (t, cs, c)).1.1.
Proof.
  induction l as [|x l IH]; intros t cs c; [done|]. cbn [announce_saes].
  destruct (match tp_saes t !! x with Some _ => _ | None => _ end); [apply IH|].
  assert (Hu : others_same o d t (upsert_sae t (mkSae x id)).1) by (unfold upsert_sae; destruct (negb _); [done|]; by destruct (_ && _)).
  destruct (upsert_sae t (mkSae x id)) as [t' c']. exact (others_same_trans _ _ _ _ _ Hu (IH t' cs (c || c'))).
Qed.

Lemma announce_dkms_others s reg o : others_same o (da_id reg) (st_topo s) (st_topo (announce_dkms s reg).1).
Proof.
  unfold announce_dkms. destruct (_ <? _); [done|]. destruct (negb _); [done|]. set (d := mkDkms _ _ _ _ _).
  assert (Hu : others_same o (da_id reg) (st_topo s) (upsert_dkms (st_topo s) d).1).
  { unfold upsert_dkms. destruct (tp_orrs _ !! dk_orr_id d); [|done].
    destruct (match tp_dkms_by_qkc _ !! _ with Some _ => _ | None => _ end); [done|]. split; [done|].
    intros i Hi. cbn [fst tp_dkms set_dkms]. change (dk_id d) with (da_id reg). by rewrite lookup_insert_ne. }
  destruct (upsert_dkms (st_topo s) d) as [t' []]; [done| |];
    (set (r := announce_saes _ _ _); assert (Ha : others_same o (da_id reg) t' r.1.1) by apply announce_saes_others;
     clearbody r; destruct r as [[t'' cs] []]; [exact (others_same_trans _ _ _ _ _ Hu Ha)|done]).
Qed.

(** A change of routers and managers that leaves the network and the bindings. *)
Lemma others_local me o d t t' : net_same t t' -> others_same o d t t' -> (o = me \/ forall i, tp_orrs t' !! i = tp_orrs t !! i) ->
  (d = me \/ forall i, tp_dkms t' !! i = tp_dkms t !! i) ->
  (forall k x, tp_saes t !! k = Some x -> sa_dkms_id x <> me -> tp_saes t' !! k = Some x) -> local me t t'.
Proof.
  intros (Eq & Ed & Eg & Ee) [Ho Hd] Hom Hdm Hs. split.
  - intros [[] i] Hi; unfold own_entity, entity in *; cbn [fst snd] in *; [by rewrite Eq| |].
    + destruct Hom as [->| ->]; [|done]. by rewrite Ho by congruence.
    + destruct Hdm as [->| ->]; [|done]. by rewrite Hd by congruence.
  - intros q _. by rewrite Ed.
  - intros a b _ _ _. unfold edge. by rewrite Ee.
  - exact Hs.
Qed.

Lemma orr_dkms_same s reg i : tp_dkms (st_topo (announce_orr s reg).1) !! i = tp_dkms (st_topo s) !! i.
Proof. destruct (announce_orr_others s reg (String "x"%char i)) as [_ H]. apply H. intros E. apply (f_equal String.length) in E. cbn in E. lia. Qed.

Lemma dkms_orrs_same s reg i : tp_orrs (st_topo (announce_dkms s reg).1) !! i = tp_orrs (st_topo s) !! i.
Proof. destruct (announce_dkms_others s reg (String "x"%char i)) as [H _]. apply H. intros E. apply (f_equal String.length) in E. cbn in E. lia. Qed.

Lemma announce_orr_own s reg : local (oa_id reg) (st_topo s) (st_topo (announce_orr s reg).1).
Proof.
  apply (others_local _ (oa_id reg) (oa_id reg)); [apply announce_orr_net|apply announce_orr_others|by left|right; apply orr_dkms_same|].
  intros k x Hk _. by rewrite announce_orr_saes.
Qed.

Lemma announce_dkms_own s reg : reg_ok (st_topo s) -> local (da_id reg) (st_topo s) (st_topo (announce_dkms s reg).1).
Proof.
  intros Hr. apply (others_local _ (da_id reg) (da_id reg)); [apply announce_dkms_net|apply announce_dkms_others|right; apply dkms_orrs_same|by left|].
  intros k x Hk _. apply announce_dkms_binding; [done|]. by apply (ro_sae _ Hr).
Qed.

(** The administration of applications touches bindings only. *)
Lemma saes_local me t t' (f : gmap string Sae -> gmap string Sae) :
  t' = set_saes f t -> (forall k x, tp_saes t !! k = Some x -> sa_dkms_id x <> me -> f (tp_saes t) !! k = Some x) -> local me t t'.
Proof. intros -> Hs. split; try done. Qed.

Lemma local_bump me t t' : local me t t' -> local me t (bump t').
Proof. intros [H1 H2 H3 H4]. by split. Qed.

Lemma register_sae_own `{HashOrder} me s id d tg : local me (st_topo s) (st_topo (register_sae s id d tg).1).
Proof.
  unfold register_sae. destruct (_ && _); [done|]. apply (try_mutate_keeps (local me (st_topo s))); [intros t; apply local_bump|done|].
  intros t a. destruct (tp_saes _ !! id) eqn:E; [done|]. destruct (resolve_dkms _ _ _); [|done]. destruct (_ <=? _); [done|]. intros [=<-<-].
  eapply saes_local; [done|]. intros k x Hk _. rewrite lookup_insert_ne; [done|congruence].
Qed.

Lemma bulk_all_saes `{HashOrder} items : forall t, exists f, (bulk_all items t).1.1 = set_saes f t.
Proof.
  induction items as [|i items IH]; intros t; [exists (fun m => m); by destruct t|]. cbn [bulk_all].
  assert (H1 : exists f, (bulk_one t i).1.1 = set_saes f t).
  { unfold bulk_one. destruct (_ && _); [exists (fun m => m); by destruct t|]. destruct (tp_saes t !! _); [exists (fun m => m); by destruct t|].
    destruct (resolve_dkms _ _ _); [|exists (fun m => m); by destruct t]. destruct (_ <=? _); [exists (fun m => m); by destruct t|by eexists]. }
  destruct (bulk_one t i) as [[t1 o] c]. destruct H1 as [f E]. cbn [fst] in E. destruct (IH t1) as [g E2].
  destruct (bulk_all items t1) as [[t2 os] cs]. cbn [fst] in *. exists (fun m => g (f m)). by rewrite E2, E.
Qed.

Lemma bulk_own `{HashOrder} me s items : local me (st_topo s) (st_topo (register_sae_bulk s items).1).
Proof.
  unfold register_sae_bulk. destruct items as [|i items]; [done|]. unfold try_mutate_if.
  destruct (bulk_all_saes (i :: items) (st_topo s)) as [f Ef]. pose proof (fun k x => bulk_all_binding (i :: items) (st_topo s) k x) as Hb.
  destruct (bulk_all (i :: items) (st_topo s)) as [[t o] c]. cbn [fst] in *. subst t.
  destruct c; [apply local_bump|done]. eapply saes_local; [reflexivity|]. intros k x Hk _. exact (Hb k x Hk).
Qed.

(** Nothing but the binding of [id] differs. *)
Record binding_only (id : string) (t t' : Topology) : Prop := mkBinding {
  bo_entity : forall ki, entity t' ki = entity t ki;
  bo_declared : tp_declared t' = tp_declared t;
  bo_edge : forall a b, edge t' a b = edge t a b;
  bo_saes : forall k, k <> id -> tp_saes t' !! k = tp_saes t !! k }.

Lemma update_sae_only `{HashOrder} s id d tg : binding_only id (st_topo s) (st_topo (update_sae s id d tg).1).
Proof.
  unfold update_sae. destruct (_ && _); [done|]. apply (try_mutate_keeps (binding_only id (st_topo s))); [by intros t []|done|].
  intros t a. destruct (tp_saes _ !! id) as [cur|]; [|done]. destruct (resolve_dkms _ _ _); [|done]. destruct (_ && _); [done|]. intros [=<-<-].
  split; try done. intros k Hk. cbn [tp_saes set_saes]. by rewrite lookup_insert_ne.
Qed.

Lemma delete_sae_only s id : binding_only id (st_topo s) (st_topo (delete_sae s id).1).
Proof.
  apply (try_mutate_keeps (binding_only id (st_topo s))); [by intros t []|done|].
  intros t a. destruct (tp_saes _ !! id) as [cur|]; [|done]. intros [=<-<-].
  split; try done. intros k Hk. cbn [tp_saes set_saes]. by rewrite lookup_delete_ne.
Qed.

Lemma capacity_own `{Libm} s a b kps me :
  me = "sdn"%string \/ me = ("qkc-" ++ a)%string \/ me = ("qkc-" ++ b)%string ->
  local me (st_topo s) (st_topo (update_edge_capacity_kps s a b kps).1).
Proof.
  intros Hme. unfold update_edge_capacity_kps. destruct (_ || _); [done|]. destruct (edge _ _ _); [|done]. unfold mutate, set_edge_capacity_kps.
  destruct (flt kps f_zero); [done|]. destruct (tp_edges (st_topo s) !! edge_key a b) as [e1|]; [|done]. cbv zeta.
  destruct (flt _ _); [done|]. cbn [fst st_topo]. apply local_bump. split; try done. intros x y H1 H2 H3. unfold edge. cbn [tp_edges set_edges].
  rewrite lookup_insert_ne; [done|]. intros [[-> ->]|[-> ->]]%edge_key_inj; tauto.
Qed.

Lemma ingest_own clock dkms entries : forall i r s key, key.1.1 <> dkms -> (ingest_entries clock i dkms entries r s).1 !! key = r !! key.
Proof.
  induction entries as [|e entries IH]; intros i r s key Hk; cbn [ingest_entries]; [done|].
  destruct (String.eqb (cd_src_dkms e) dkms) eqn:Hs; cbn [negb]; [|by apply IH]. apply String.eqb_eq in Hs.
  destruct (is_well_formed e); cbn [negb]; [|by apply IH]. cbv zeta. rewrite IH by done. rewrite lookup_insert_ne; [done|].
  intros <-. apply Hk. rewrite <- Hs. by destruct (_ <? _).
Qed.

(** ** The authorisation of the routes *)

Lemma guarded_cases c auth valid body : (guarded c auth valid body).1 = c \/ (auth = Ok tt /\ (guarded c auth valid body).1 = body.1).
Proof.
  unfold guarded. destruct auth as [[]|e|]; [|by left|by left]. destruct (bad_request valid) as [[]|e|]; [|by left|by left].
  right. done.
Qed.

Lemma require_identity_ok san x : require_identity (Some (Some san)) x = Ok tt -> node_id_from_san san = x.
Proof.
  unfold require_identity, identity_authorizes. cbn [mbind option_bind id]. destruct (String.eqb_spec (node_id_from_san san) x); done.
Qed.

(** What a request of [me] leaves alone. *)
Record own_effect (me : string) (c c' : Control) : Prop := mkOwn {
  oe_topo : local me (st_topo (ct_store c)) (st_topo (ct_store c'));
  oe_presence : forall ki, ~ own_entity me ki -> ct_presence c' !! ki = ct_presence c !! ki;
  oe_demand : forall key : DemandKey, key.1.1 <> me -> ct_demand c' !! key = ct_demand c !! key }.

Lemma own_effect_refl me c : own_effect me c c.
Proof. by split. Qed.

Lemma own_guarded me c auth valid body : (auth = Ok tt -> own_effect me c body.1) -> own_effect me c (guarded c auth valid body).1.
Proof. intros Hb. destruct (guarded_cases c auth valid body) as [->|[Ha ->]]; [apply own_effect_refl|by apply Hb]. Qed.

Lemma own_store me c s : local me (st_topo (ct_store c)) (st_topo s) -> own_effect me c (with_store s c).
Proof. intros Hl. by split. Qed.

Lemma own_touch me c c' now k i : own_effect me c c' -> own_entity me (k, i) -> own_effect me c (with_touch now k i c').
Proof.
  intros [H1 H2 H3] Ho. split; [done| |done]. intros ki Hk. cbn [ct_presence with_touch]. unfold touch.
  rewrite lookup_insert_ne; [by apply H2|]. intros <-. done.
Qed.

Section requests.
Context `{LM : Libm} `{HO : HashOrder} `{NT : NetText}.
Variable san : string.
Let me := node_id_from_san san.
Let identity : Identity := Some (Some san).

Lemma own_announcements now c : reg_ok (st_topo (ct_store c)) ->
  (forall reg, own_effect me c (http_announce_qkc identity now reg c).1) /\
  (forall reg, own_effect me c (http_announce_orr identity now reg c).1) /\
  (forall reg, own_effect me c (http_announce_dkms identity now reg c).1).
Proof.
  intros Hr. split_and!; intros reg; apply own_guarded; intros Ha%require_identity_ok.
  - pose proof (announce_qkc_own (ct_store c) reg) as Hl. destruct (announce_qkc (ct_store c) reg) as [s out]. cbn [fst] in *.
    rewrite <- Ha in Hl. apply own_touch; [by apply own_store|exact Ha].
  - pose proof (announce_orr_own (ct_store c) reg) as Hl. destruct (announce_orr (ct_store c) reg) as [s out]. cbn [fst] in *.
    rewrite <- Ha in Hl. destruct (an_accepted out); [apply own_touch; [by apply own_store|exact Ha]|by apply own_store].
  - pose proof (announce_dkms_own (ct_store c) reg Hr) as Hl. destruct (announce_dkms (ct_store c) reg) as [s out]. cbn [fst] in *.
    rewrite <- Ha in Hl. destruct (an_accepted out); [apply own_touch; [by apply own_store|exact Ha]|by apply own_store].
Qed.

Lemma own_bindings c :
  (forall id d tg, own_effect me c (http_register_sae identity id d tg c).1) /\
  (forall items, own_effect me c (http_register_sae_bulk identity items c).1).
Proof.
  split; intros; apply own_guarded; intros Ha.
  - pose proof (register_sae_own me (ct_store c) id d tg) as Hl. destruct (register_sae _ _ _ _). by apply own_store.
  - pose proof (bulk_own me (ct_store c) items) as Hl. destruct (register_sae_bulk _ _). by apply own_store.
Qed.

(** A change of a binding: only that binding changes, and it was nobody's or the
    caller's when the owner was read. *)
Definition binding_effect (loaded : Topology) (id : string) (c c' : Control) : Prop :=
  (forall y, tp_saes loaded !! id = Some y -> sa_dkms_id y = me)
  /\ binding_only id (st_topo (ct_store c)) (st_topo (ct_store c')) /\ ct_presence c' = ct_presence c /\ ct_demand c' = ct_demand c.

Lemma own_mutations loaded c :
  (forall id d tg, own_effect me c (http_update_sae loaded identity id d tg c).1 \/ binding_effect loaded id c (http_update_sae loaded identity id d tg c).1) /\
  (forall id, own_effect me c (http_delete_sae loaded identity id c).1 \/ binding_effect loaded id c (http_delete_sae loaded identity id c).1).
Proof.
  assert (Hown : forall id, sae_mutation_authorized identity (sa_dkms_id <$> tp_saes loaded !! id) = Ok tt ->
    forall y, tp_saes loaded !! id = Some y -> sa_dkms_id y = me).
  { intros id Ha y Hy. rewrite Hy in Ha. cbn in Ha. by apply require_identity_ok in Ha. }
  split; intros; (edestruct guarded_cases as [E|[Ha E]]; [left; unfold http_update_sae, http_delete_sae; rewrite E; apply own_effect_refl|right]);
    (split; [exact (Hown id Ha)|]); unfold http_update_sae, http_delete_sae; rewrite E.
  - pose proof (update_sae_only (ct_store c) id d tg) as Hl. by destruct (update_sae _ _ _ _).
  - pose proof (delete_sae_only (ct_store c) id) as Hl. by destruct (delete_sae _ _).
Qed.

Lemma own_capacity a b kps c : own_effect me c (http_update_link_capacity identity a b kps c).1.
Proof.
  unfold http_update_link_capacity. destruct (_ || _); [apply own_effect_refl|]. apply own_guarded. intros Ha.
  pose proof (capacity_own (ct_store c) a b kps me) as Hl. destruct (update_edge_capacity_kps _ _ _ _). apply own_store, Hl. clear Hl.
  unfold link_capacity_authorized, identity_authorizes in Ha. cbn [mbind option_bind id identity] in Ha. fold me in Ha.
  rewrite bool_decide_eq_false_2 in Ha by done. cbn [orb] in Ha.
  destruct (String.eqb_spec me "sdn"); [by left|]. destruct (String.eqb_spec me ("qkc-" ++ a)); [by right; left|].
  destruct (String.eqb_spec me ("qkc-" ++ b)); [by right; right|]. done.
Qed.

Lemma own_demand clock report c : own_effect me c (http_post_demand identity clock report c).1.
Proof.
  unfold http_post_demand. destruct (String.eqb _ _); [apply own_effect_refl|]. apply own_guarded. intros Ha%require_identity_ok.
  unfold ingest. set (s0 := mkSummary _ _). pose proof (ingest_own clock (dr_dkms_id report) (dr_entries report) 0 (ct_demand c) s0) as Hi.
  destruct (ingest_entries _ _ _ _ _ _) as [r s]. split; [apply local_refl|done|]. intros key Hk. apply Hi. by rewrite <- Ha.
Qed.

Lemma handle_own loaded now clock rq c : reg_ok (st_topo (ct_store c)) ->
  let c' := (handle loaded identity now clock rq c).1 in
  own_effect me c c' \/ exists id, ((exists d tg, rq = RqUpdate id d tg) \/ rq = RqDelete id) /\ binding_effect loaded id c c'.
Proof.
  intros Hr. destruct (own_announcements now c Hr) as (H1 & H2 & H3). destruct (own_bindings c) as (H4 & H5).
  destruct (own_mutations loaded c) as (H6 & H7). cbv zeta.
  destruct rq as [reg|reg|reg|id d tg|items|id d tg|id|a b kps|report]; cbn [handle]; auto using own_capacity, own_demand.
  - destruct (H6 id d tg) as [?|?]; [by left|right]. exists id. eauto.
  - destruct (H7 id) as [?|?]; [by left|right]. exists id. eauto.
Qed.
End requests.

(** C15: Whatever the history, and whatever other requests did between the moment
    a request reads the owner of an application and the moment it changes the
    store, a request on the mutual-TLS listener changes nothing but what belongs
    to the node its certificate names: no other module's entry or presence, no
    other QKC's declarations, no link the node is not an end of (the controller's
    own certificate apart), and no other manager's demand.  Nor does it change
    what application is bound to another manager, unless it moves or deletes that
    binding and the owner it read was the caller, or nobody: a binding that
    changed hands in between is the one exception.  New bindings are not spoken
    of: a registration can make one to another node's manager. *)
Theorem caller_changes_only_its_own `{Libm, HashOrder, NetText} ops p dem loaded san now clock rq :
  let c := mkControl (sdn_run ops) p dem in
  let c' := (handle loaded (Some (Some san)) now clock rq c).1 in
  let t := st_topo (sdn_run ops) in let t' := st_topo (ct_store c') in
  let me := node_id_from_san san in
  (forall ki, ~ own_entity me ki -> entity t' ki = entity t ki /\ ct_presence c' !! ki = p !! ki) /\
  (forall q, me <> ("qkc-" ++ q)%string -> tp_declared t' !! q = tp_declared t !! q) /\
  (forall a b, me <> "sdn"%string -> me <> ("qkc-" ++ a)%string -> me <> ("qkc-" ++ b)%string -> edge t' a b = edge t a b) /\
  (forall key : DemandKey, key.1.1 <> me -> ct_demand c' !! key = dem !! key) /\
  (forall k x, tp_saes t !! k = Some x -> sa_dkms_id x <> me -> tp_saes t' !! k = Some x
     \/ ((exists d tg, rq = RqUpdate k d tg) \/ rq = RqDelete k) /\ forall y, tp_saes loaded !! k = Some y -> sa_dkms_id y = me).
Proof.
  cbv zeta. destruct (handle_own san loaded now clock rq (mkControl (sdn_run ops) p dem) (sdn_run_reg ops))
    as [[[E1 E2 E3 E4] E5 E6]|(id & Hrq & Hload & [B1 B2 B3 B4] & B5 & B6)].
  - split_and!; auto.
  - split_and!; [intros ki _; by rewrite B1, B5|intros q _; by rewrite B2|by auto|intros key _; by rewrite B6|].
    intros k x Hk _. destruct (decide (k = id)) as [->|Hne]; [by right|left]. by rewrite B4.
Qed.

Lemma nameless_refused x : require_identity (Some None) x = Err Forbidden.
Proof. done. Qed.

Lemma with_same_store c : with_store (ct_store c) c = c.
Proof. by destruct c. Qed.

(** A certificate without an identifier: every mutating route refuses it or
    leaves the controller as it was, if nothing happens within the request. *)
Theorem nameless_certificate_changes_nothing `{Libm, HashOrder, NetText} now clock rq c :
  (handle (st_topo (ct_store c)) (Some None) now clock rq c).1 = c.
Proof.
  destruct rq as [reg|reg|reg|id d tg|items|id d tg|id|a b kps|report]; cbn [handle];
    unfold http_announce_qkc, http_announce_orr, http_announce_dkms, http_register_sae, http_register_sae_bulk, http_update_sae,
      http_delete_sae, http_update_link_capacity, http_post_demand; rewrite ?nameless_refused; try done.
  - by destruct d.
  - destruct items as [|i items]; cbn [bulk_authorized guarded bad_request res_map_err register_sae_bulk fst]; [apply with_same_store|].
    by destruct (bi_dkms_id i).
  - destruct (tp_saes _ !! id) as [x|] eqn:E; cbn [fmap option_fmap option_map sae_mutation_authorized]; [by rewrite nameless_refused|].
    cbn [guarded bad_request res_map_err]. unfold update_sae, try_mutate, try_mutate_if. rewrite E.
    destruct (_ && _); cbn [res_bind fst]; apply with_same_store.
  - destruct (tp_saes _ !! id) as [x|] eqn:E; cbn [fmap option_fmap option_map sae_mutation_authorized]; [by rewrite nameless_refused|].
    cbn [guarded bad_request res_map_err]. unfold delete_sae, try_mutate, try_mutate_if. rewrite E. cbn [res_bind fst]. apply with_same_store.
  - by destruct (_ || _).
  - by destruct (String.eqb _ _).
Qed.

(** ** What gets through *)

(** A registration is authorised against the manager it names, but when
    that manager is not registered the binding goes to whatever manager
    stands at the address given beside it: a node can bind an application to
    another node's manager. *)
Theorem registration_can_bind_elsewhere `{Libm, HashOrder, NetText} san now clock id target d c :
  let t := st_topo (ct_store c) in let me := node_id_from_san san in
  tp_dkms t !! me = None -> tp_saes t !! id = None -> resolve_dkms t None (Some target) = Some d ->
  sae_count_for t (dk_id d) < MAX_SAES_PER_DKMS ->
  let c' := (handle (st_topo (ct_store c)) (Some (Some san)) now clock (RqSae id (Some me) (Some target)) c).1 in
  tp_saes (st_topo (ct_store c')) !! id = Some (mkSae id (dk_id d)).
Proof.
  cbv zeta. intros Hme Hid Hres Hcount. cbn [handle]. unfold http_register_sae, require_sae_owner, require_identity, identity_authorizes.
  cbn [mbind option_bind Datatypes.id]. rewrite String.eqb_refl. cbn [guarded bad_request res_map_err]. unfold register_sae.
  rewrite bool_decide_eq_false_2 by done. cbn [andb]. unfold try_mutate, try_mutate_if. rewrite Hid.
  assert (Hr : resolve_dkms (st_topo (ct_store c)) (Some (node_id_from_san san)) (Some target) = Some d).
  { unfold resolve_dkms in *. cbn [mbind option_bind] in *. by rewrite Hme. }
  rewrite Hr. destruct (Z.leb_spec MAX_SAES_PER_DKMS (sae_count_for (st_topo (ct_store c)) (dk_id d))); [lia|].
  cbn [res_bind fst snd with_store ct_store st_topo bump tp_saes set_saes]. by rewrite lookup_insert_eq.
Qed.

(** The owner of an application is read from a snapshot before the store
    is changed: an application registered in between passes the test as
    unknown, and the caller takes the binding of another manager. *)
Theorem stale_owner_test_moves_binding `{HashOrder} loaded san id cur d c :
  let t := st_topo (ct_store c) in let me := node_id_from_san san in
  tp_saes loaded !! id = None -> tp_saes t !! id = Some cur -> tp_dkms t !! me = Some d -> dk_id d = me ->
  sae_count_for t me < MAX_SAES_PER_DKMS ->
  let c' := (http_update_sae loaded (Some (Some san)) id (Some me) None c).1 in
  tp_saes (st_topo (ct_store c')) !! id = Some (mkSae id me).
Proof.
  cbv zeta. intros Hl Hid Hme Hdk Hcount. unfold http_update_sae. rewrite Hl. cbn [fmap option_fmap option_map sae_mutation_authorized guarded bad_request res_map_err].
  unfold update_sae. rewrite bool_decide_eq_false_2 by done. cbn [andb]. unfold try_mutate, try_mutate_if. rewrite Hid.
  unfold resolve_dkms. cbn [mbind option_bind]. rewrite Hme, Hdk.
  destruct (Z.leb_spec MAX_SAES_PER_DKMS (sae_count_for (st_topo (ct_store c)) (node_id_from_san san))); [lia|]. rewrite andb_false_r.
  cbn [res_bind fst snd with_store ct_store st_topo bump tp_saes set_saes]. by rewrite lookup_insert_eq.
Qed.

(** ** Instances *)

Definition any_text : NetText := {| is_ip_addr := fun _ => true; is_socket_addr := fun _ => true |}.
Definition sample_control : Control := mkControl sample_run ∅ ∅.

Lemma registration_can_bind_elsewhere_witness :
  tp_saes (st_topo (ct_store (@handle flat_libm map_order any_text (st_topo (ct_store sample_control)) (Some (Some "dkms://d9"%string)) 0 (fun _ => 0)
    (RqSae "s9" (Some "d9"%string) (Some ("10.0.0.1"%string, 20003))) sample_control).1)) !! "s9"%string = Some (mkSae "s9" (dk_id first_manager)).
Proof.
  apply (@registration_can_bind_elsewhere flat_libm map_order any_text "dkms://d9" 0 (fun _ => 0) "s9" ("10.0.0.1"%string, 20003) first_manager sample_control).
  - vm_compute. reflexivity.
  - vm_compute. reflexivity.
  - vm_compute. reflexivity.
  - apply Z.ltb_lt. vm_compute. reflexivity.
Defined.

Lemma stale_owner_test_moves_binding_witness :
  tp_saes (st_topo sample_run) !! "s1"%string = Some (mkSae "s1" "d1") /\
  tp_saes (st_topo (ct_store (@http_update_sae map_order empty_topology (Some (Some "dkms://d2"%string)) "s1" (Some "d2"%string) None
    sample_control).1)) !! "s1"%string = Some (mkSae "s1" "d2").
Proof.
  assert (H1 : tp_saes (st_topo sample_run) !! "s1"%string = Some (mkSae "s1" "d1")) by (vm_compute; reflexivity).
  split; [exact H1|].
  assert (Hd : exists d, tp_dkms (st_topo sample_run) !! "d2"%string = Some d /\ dk_id d = "d2"%string) by (eexists; split; vm_compute; reflexivity).
  destruct Hd as (d & Hd & Hdk).
  apply (@stale_owner_test_moves_binding map_order empty_topology "dkms://d2" "s1" (mkSae "s1" "d1") d sample_control);
    [reflexivity|exact H1|exact Hd|exact Hdk|apply Z.ltb_lt; vm_compute; reflexivity].
Defined.
