(* ===== verification/SdnRates.v ===== *)
(** * Commodities and rates (sdn/src/mcmcf.rs, mcf.rs, http_api.rs)

    [McmcfInputs::build] turns the topology and the demand into the inputs of
    the rate allocators, of which [RateAlloc] models two; here a solution is any
    value of [McmcfSolution].  [into_mcf_snapshot] turns a
    solution into the snapshot the rest of the controller publishes, and
    [get_rate] into what a DKMS is told about each of its peers.

    Shown: a QKD-grade commodity exists only between managers whose QKCs are
    joined by links that are not PQC, which is what the solver needs to route
    it; every ordered pair of managers at different QKCs has a commodity, of
    its natural grade at least; a flow name splits back into its two ends, so
    both ends of a flow are told the same rate; and the availability a DKMS is
    told is that of the graph. *)

From Stdlib Require Import ZArith Lia String Ascii.
From stdpp Require Import sorting strings.
From S2P Require Import Prelude Ids Text Float64 Security SdnTopology SdnStore SdnGraph SdnRegistry SdnPaths SdnWcmp SdnControl.

(** ** Inputs of the allocators *)

Definition DEFAULT_BUFFER_CAPACITY : f64 := f_of_Z 4096.

Record McmcfInputs := mkInputs {
  mi_commodities : list CommodityDemand;
  mi_edge_capacity : gmap (string * string) f64;
  mi_dkms_to_qkc : gmap string string;
  mi_pqc_edges : gset (string * string) }.

Definition grade_as_str (g : KeyGrade) : string := match g with GradeQkd => "qkd" | GradePqc => "pqc" end.

(** The order of [sort_by]: source, destination, grade. *)
Definition commodity_le (a b : CommodityDemand) : Prop :=
  match String.compare (cd_src_dkms a) (cd_src_dkms b) with
  | Lt => True
  | Gt => False
  | Eq => match String.compare (cd_dst_dkms a) (cd_dst_dkms b) with
      | Lt => True
      | Gt => False
      | Eq => String.le (grade_as_str (cd_grade a)) (grade_as_str (cd_grade b))
      end
  end.
#[export] Instance commodity_le_dec a b : Decision (commodity_le a b).
Proof. unfold commodity_le. destruct (String.compare _ _); [|apply _..]. destruct (String.compare _ _); apply _. Defined.

Definition with_grade (g : KeyGrade) (d : CommodityDemand) : CommodityDemand :=
  mkDemand (cd_src_dkms d) (cd_dst_dkms d) (cd_level d) (cd_capacity d) (cd_drain_rate d) (cd_timestamp_ms d) g.

Section build.
Context `{LM : Libm} `{HO : HashOrder}.

(** The two components agree and both exist. *)
Definition qkd_same (qkd_comp : gmap string nat) (a b : string) : bool :=
  match qkd_comp !! a, qkd_comp !! b with Some x, Some y => Nat.eqb x y | _, _ => false end.

(** The body of the inner loop over the grades. *)
Definition grade_commodity (registry : DemandRegistry) (src dst : string) (qkd_connected : bool) (grade : KeyGrade) : list CommodityDemand :=
  let natural := if qkd_connected then GradeQkd else GradePqc in
  if bool_decide (grade = GradeQkd) && negb qkd_connected then []
  else match registry !! (src, dst, grade) with
  | Some d => [with_grade grade d]
  | None => if bool_decide (grade = natural) then [mkDemand src dst f_zero DEFAULT_BUFFER_CAPACITY f_zero 0 grade] else []
  end.

(** The body of the loop over the ordered pairs. *)
Definition pair_commodities (qkd_comp : gmap string nat) (registry : DemandRegistry) (src dst : string * string) : list CommodityDemand :=
  if String.eqb src.1 dst.1 then []
  else if String.eqb src.2 dst.2 then []
  else
    let qkd_connected := qkd_same qkd_comp src.2 dst.2 in
    concat (map (grade_commodity registry src.1 dst.1 qkd_connected) [GradeQkd; GradePqc]).

Definition dkms_to_qkc (t : Topology) : gmap string string := map_imap (fun dkms_id _ => qkc_of_dkms t dkms_id) (tp_dkms t).

Definition build (t : Topology) (registry : DemandRegistry) : McmcfInputs :=
  let d2q := dkms_to_qkc t in
  let usable := filter (fun km : (string * string) * EdgeMeta => flt f_zero (capacity_keys_per_second km.2) = true) (tp_edges t) in
  let ends := hash_iter d2q in
  let commodities := concat (map (fun src => concat (map (pair_commodities (qkd_components t) registry src) ends)) ends) in
  mkInputs (merge_sort commodity_le commodities) (capacity_keys_per_second <$> usable) d2q
    (dom (filter (fun km : (string * string) * EdgeMeta => is_pqc km.2 = true) usable)).
End build.

(** ** Snapshots *)

Inductive BufferRole := EncKeys | DecKeys.
#[export] Instance BufferRole_eq_dec : EqDecision BufferRole.
Proof. solve_decision. Defined.
#[export] Instance BufferRole_countable : Countable BufferRole.
Proof.
  refine (inj_countable' (fun r => match r with EncKeys => true | DecKeys => false end) (fun b : bool => if b then EncKeys else DecKeys) _).
  by intros [].
Defined.

Definition role_as_str (r : BufferRole) : string := match r with EncKeys => "enc_keys" | DecKeys => "dec_keys" end.
Definition role_from_str (s : string) : option BufferRole :=
  if String.eqb s "enc_keys" then Some EncKeys else if String.eqb s "dec_keys" then Some DecKeys else None.

Definition flow_id (src_dkms dst_dkms : string) : string := (src_dkms ++ "->" ++ dst_dkms)%string.

(** [split_once("->")]: at the first occurrence. *)
Fixpoint split_arrow (s : string) : option (string * string) :=
  match s with
  | String c ((String d rest) as s') =>
      if Ascii.eqb c "-"%char && Ascii.eqb d ">"%char then Some (EmptyString, rest)
      else (fun lr : string * string => (String c lr.1, lr.2)) <$> split_arrow s'
  | _ => None
  end.

Record McfSnapshot := mkSnap {
  sn_rates : gmap string f64;
  sn_wcmp : Wcmp;
  sn_rates_by_dkms : gmap string (gmap (string * BufferRole) f64);
  sn_rates_by_dkms_grade : gmap string (gmap (string * BufferRole * KeyGrade) f64);
  sn_wcmp_qkd : Wcmp }.
Definition empty_snapshot : McfSnapshot := mkSnap ∅ ∅ ∅ ∅ ∅.

(** What the allocators return, less the edge flows the snapshot does not use. *)
Record McmcfSolution := mkSolution { ms_rates : gmap string f64; ms_rates_grade : gmap (string * KeyGrade) f64 }.

(** [entry(a).or_default().insert(k, v)]. *)
Definition entry_insert {K} `{Countable K} {V} (a : string) (k : K) (v : V) (m : gmap string (gmap K V)) : gmap string (gmap K V) :=
  <[a := <[k := v]> (default ∅ (m !! a))]> m.

Definition add_rate (snap : gmap string f64 * gmap string (gmap (string * BufferRole) f64)) (fr : string * f64)
  : gmap string f64 * gmap string (gmap (string * BufferRole) f64) :=
  match split_arrow fr.1 with
  | None => snap
  | Some (src, dst) => (<[fr.1 := fr.2]> snap.1, entry_insert dst (src, DecKeys) fr.2 (entry_insert src (dst, EncKeys) fr.2 snap.2))
  end.

Definition add_rate_grade (snap : gmap string (gmap (string * BufferRole * KeyGrade) f64)) (fr : (string * KeyGrade) * f64)
  : gmap string (gmap (string * BufferRole * KeyGrade) f64) :=
  match split_arrow fr.1.1 with
  | None => snap
  | Some (src, dst) => entry_insert dst (src, DecKeys, fr.1.2) fr.2 (entry_insert src (dst, EncKeys, fr.1.2) fr.2 snap)
  end.

Definition into_mcf_snapshot `{Libm, HashOrder, !MapOrder (string * KeyGrade)} (sol : McmcfSolution) (t : Topology) : option McfSnapshot :=
  let '(rates, by_dkms) := fold_left add_rate (hash_iter (ms_rates sol)) (∅, ∅) in
  let by_grade := fold_left add_rate_grade (map_iter (ms_rates_grade sol)) ∅ in
  wcmp ← wcmp_from_topology t None;
  wcmp_qkd ← wcmp_from_topology t (Some GradeQkd);
  Some (mkSnap rates wcmp by_dkms by_grade wcmp_qkd).

Definition rate_for_flow (s : McfSnapshot) (src_dkms dst_dkms : string) : f64 := default f_zero (sn_rates s !! flow_id src_dkms dst_dkms).
Definition rate_for_buffer (s : McfSnapshot) (dkms_id peer_dkms : string) (role : BufferRole) : f64 :=
  match role with EncKeys => rate_for_flow s dkms_id peer_dkms | DecKeys => rate_for_flow s peer_dkms dkms_id end.

(** ** [GET /rate/{dkms_id}] *)

Record PeerRate := mkPeerRate {
  pr_enc : f64; pr_dec : f64; pr_qkd_available : bool; pr_reachable : bool; pr_grades : list (KeyGrade * (f64 * f64)) }.

Definition group_rate (g : gmap string (f64 * f64)) (e : (string * BufferRole) * f64) : gmap string (f64 * f64) :=
  let cur := default (f_zero, f_zero) (g !! e.1.1) in
  <[e.1.1 := match e.1.2 with EncKeys => (e.2, cur.2) | DecKeys => (cur.1, e.2) end]> g.

Definition get_rate `{!MapOrder (string * BufferRole)} (t : Topology) (snap : McfSnapshot) (dkms_id : string) : option (Z * gmap string PeerRate) :=
  match tp_dkms t !! dkms_id with
  | None => None
  | Some _ =>
      let my_qkc := qkc_of_dkms t dkms_id in
      let qkd_comp := qkd_components t in
      let peers := match sn_rates_by_dkms snap !! dkms_id with
        | None => ∅
        | Some my_rates =>
            map_imap (fun peer ed =>
              let '(qkd_available, reachable) := match my_qkc, qkc_of_dkms t peer with
                | Some a, Some b => (String.eqb a b || qkd_same qkd_comp a b, bool_decide (is_Some (shortest_path_qkc t a b)))
                | _, _ => (false, false)
                end in
              let grades := match sn_rates_by_dkms_grade snap !! dkms_id with
                | None => []
                | Some mg => map (fun g => (g, (default f_zero (mg !! (peer, EncKeys, g)), default f_zero (mg !! (peer, DecKeys, g))))) [GradeQkd; GradePqc]
                end in
              Some (mkPeerRate ed.1 ed.2 qkd_available reachable grades)) (fold_left group_rate (map_iter my_rates) ∅)
        end in
      Some (tp_version t, peers)
  end.

(** ** The commodities *)

Lemma NoDup_concat_map {A B} (f : A -> list B) l : NoDup l -> (forall x, x ∈ l -> NoDup (f x)) ->
  (forall x y z, x ∈ l -> y ∈ l -> z ∈ f x -> z ∈ f y -> x = y) -> NoDup (concat (map f l)).
Proof.
  induction l as [|x l IH]; intros Hnd Hf Hinj; [constructor|]. apply NoDup_cons in Hnd as [Hx Hnd]. cbn [map concat].
  apply NoDup_app. split_and!; [apply Hf; by left| |].
  - intros z Hz Hin. apply concat_elem in Hin as (fy & (y & -> & Hy)%list_elem_of_fmap & Hzy).
    assert (x = y) as -> by (apply (Hinj x y z); [by left|by right|done|done]). done.
  - apply IH; [done|intros y Hy; apply Hf; by right|]. intros y y' z Hy Hy'. apply Hinj; by right.
Qed.

Section commodities.
Context `{HO : HashOrder}.
Variable t : Topology.
Variable registry : DemandRegistry.
Hypothesis Hsync : sync t.
Hypothesis Hkeys : forall key e, registry !! key = Some e -> demand_key e = key.

Definition comp_connected (a b : string) : bool := qkd_same (qkd_components t) a b.

Lemma comp_connected_spec a b : a <> b -> comp_connected a b = true <-> rtc (qkd_edge t) a b.
Proof.
  intros Hab. rewrite <- (qkd_connected_spec t a b Hsync). unfold qkd_connected_qkc.
  destruct (String.eqb_spec a b); [done|]. done.
Qed.

Lemma grade_commodity_elem src dst c g d : d ∈ grade_commodity registry src dst c g -> demand_key d = (src, dst, g) /\ (g = GradeQkd -> c = true).
Proof.
  unfold grade_commodity. destruct (bool_decide_reflect (g = GradeQkd)) as [->|Hg]; cbn [andb].
  - destruct c; cbn [negb]; [|by intros ?%not_elem_of_nil]. destruct (registry !! (src, dst, GradeQkd)) as [e|] eqn:E.
    + intros ->%list_elem_of_singleton. split; [|done]. apply Hkeys in E. injection E as E1 E2 _. unfold demand_key. cbn. congruence.
    + rewrite bool_decide_eq_true_2 by done. by intros ->%list_elem_of_singleton.
  - destruct (registry !! (src, dst, g)) as [e|] eqn:E.
    + intros ->%list_elem_of_singleton. split; [|done]. apply Hkeys in E. injection E as E1 E2 _. unfold demand_key. cbn. congruence.
    + destruct (bool_decide _); [|by intros ?%not_elem_of_nil]. by intros ->%list_elem_of_singleton.
Qed.

Lemma grade_commodity_nodup src dst c g : NoDup (grade_commodity registry src dst c g).
Proof.
  unfold grade_commodity. destruct (_ && _); [constructor|]. destruct (registry !! _); [apply NoDup_singleton|].
  destruct (bool_decide _); [apply NoDup_singleton|constructor].
Qed.

Lemma natural_commodity src dst c : exists d, d ∈ grade_commodity registry src dst c (if c then GradeQkd else GradePqc).
Proof.
  unfold grade_commodity. destruct c; [rewrite bool_decide_eq_true_2 by done|rewrite bool_decide_eq_false_2 by done]; cbn [andb negb].
  - destruct (registry !! _); rewrite ?bool_decide_eq_true_2 by done; eexists; by left.
  - destruct (registry !! _); rewrite ?bool_decide_eq_true_2 by done; eexists; by left.
Qed.

Lemma pair_commodities_elem src dst d : d ∈ pair_commodities (qkd_components t) registry src dst <->
  src.1 <> dst.1 /\ src.2 <> dst.2 /\ exists g, d ∈ grade_commodity registry src.1 dst.1 (comp_connected src.2 dst.2) g.
Proof.
  unfold pair_commodities. destruct (String.eqb_spec src.1 dst.1) as [->|H1]; [split; [by intros ?%not_elem_of_nil|by intros []]|].
  destruct (String.eqb_spec src.2 dst.2) as [->|H2]; [split; [by intros ?%not_elem_of_nil|by intros (_ & [] & _)]|].
  cbv zeta. rewrite concat_elem. split.
  - intros (l & (g & -> & _)%list_elem_of_fmap & Hd). split_and!; [done|done|]. by exists g.
  - intros (_ & _ & g & Hd). eexists. split; [apply list_elem_of_fmap; exists g; split; [reflexivity|]|exact Hd].
    destruct g; [by left|right; by left].
Qed.

Lemma pair_commodities_nodup src dst : NoDup (map demand_key (pair_commodities (qkd_components t) registry src dst)).
Proof.
  unfold pair_commodities. destruct (String.eqb _ _); [constructor|]. destruct (String.eqb _ _); [constructor|]. cbv zeta.
  rewrite concat_map, map_map. apply NoDup_concat_map.
  - repeat constructor; set_solver.
  - intros g _. unfold grade_commodity. destruct (_ && _); [constructor|]. destruct (registry !! _); [apply NoDup_singleton|].
    destruct (bool_decide _); [apply NoDup_singleton|constructor].
  - intros g g' z _ _ (d & -> & [Hd _]%grade_commodity_elem)%list_elem_of_fmap (d' & E & [Hd' _]%grade_commodity_elem)%list_elem_of_fmap. congruence.
Qed.

Lemma anchored d q : (d, q) ∈ hash_iter (dkms_to_qkc t) <-> qkc_of_dkms t d = Some q.
Proof.
  rewrite hash_iter_elem. unfold dkms_to_qkc. rewrite map_lookup_imap. destruct (tp_dkms t !! d) as [x|] eqn:E; cbn [mbind option_bind]; [done|].
  split; [done|]. unfold qkc_of_dkms. by rewrite E.
Qed.

Lemma all_commodities_elem d :
  d ∈ concat (map (fun src => concat (map (pair_commodities (qkd_components t) registry src) (hash_iter (dkms_to_qkc t)))) (hash_iter (dkms_to_qkc t))) <->
  exists src dst a b, qkc_of_dkms t src = Some a /\ qkc_of_dkms t dst = Some b /\ d ∈ pair_commodities (qkd_components t) registry (src, a) (dst, b).
Proof.
  rewrite concat_elem. split.
  - intros (l & ([src a] & -> & Hs%anchored)%list_elem_of_fmap & Hd). apply concat_elem in Hd as (l & ([dst b] & -> & Ht%anchored)%list_elem_of_fmap & Hd).
    by exists src, dst, a, b.
  - intros (src & dst & a & b & Hs & Ht & Hd). eexists. split.
    + apply list_elem_of_fmap. exists (src, a). split; [reflexivity|by apply anchored].
    + apply concat_elem. eexists. split; [apply list_elem_of_fmap; exists (dst, b); split; [reflexivity|by apply anchored]|exact Hd].
Qed.

Lemma all_commodities_nodup :
  NoDup (map demand_key (concat (map (fun src => concat (map (pair_commodities (qkd_components t) registry src) (hash_iter (dkms_to_qkc t))))
    (hash_iter (dkms_to_qkc t))))).
Proof.
  assert (Hnd : NoDup (hash_iter (dkms_to_qkc t))) by (rewrite hash_iter_perm; apply NoDup_map_to_list).
  assert (Hfst : forall x y, x ∈ hash_iter (dkms_to_qkc t) -> y ∈ hash_iter (dkms_to_qkc t) -> x.1 = y.1 -> x = y).
  { intros [x a] [y b] Hx%hash_iter_elem Hy%hash_iter_elem. cbn [fst]. intros ->. congruence. }
  assert (Hkey : forall src dst z, z ∈ map demand_key (pair_commodities (qkd_components t) registry src dst) -> z.1 = (src.1, dst.1)).
  { intros src dst z (d & -> & Hd)%list_elem_of_fmap. apply pair_commodities_elem in Hd as (_ & _ & g & [Hd _]%grade_commodity_elem). by rewrite Hd. }
  rewrite concat_map, map_map. apply NoDup_concat_map; [done| |].
  - intros src _. rewrite concat_map, map_map. apply NoDup_concat_map; [done|intros; apply pair_commodities_nodup|].
    intros x y z Hx Hy Hzx%Hkey Hzy%Hkey. apply Hfst; [done|done|congruence].
  - intros x y z Hx Hy Hzx Hzy. apply Hfst; [done|done|]. rewrite concat_map, map_map in Hzx, Hzy.
    apply concat_elem in Hzx as (? & (x' & -> & _)%list_elem_of_fmap & Hzx%Hkey).
    apply concat_elem in Hzy as (? & (y' & -> & _)%list_elem_of_fmap & Hzy%Hkey). congruence.
Qed.
End commodities.

(** The commodities the allocators are given, for any history of the
    topology and of the reports: one at most per source, destination and
    grade; each joins managers anchored at different QKCs, and one of QKD
    grade joins QKCs connected by links that are not PQC; and every ordered
    pair of managers at different QKCs has one of its natural grade, QKD
    exactly when such links connect it. *)
Theorem commodities_match_graph `{Libm, HashOrder, !MapOrder DemandKey} ops l :
  let t := st_topo (sdn_run ops) in let cs := mi_commodities (build t (demand_run l)) in
  NoDup (map demand_key cs) /\
  (forall d, d ∈ cs -> exists a b, qkc_of_dkms t (cd_src_dkms d) = Some a /\ qkc_of_dkms t (cd_dst_dkms d) = Some b /\ a <> b /\
     (cd_grade d = GradeQkd -> rtc (qkd_edge t) a b)) /\
  (forall src dst a b, qkc_of_dkms t src = Some a -> qkc_of_dkms t dst = Some b -> a <> b ->
     exists d, d ∈ cs /\ cd_src_dkms d = src /\ cd_dst_dkms d = dst /\ (cd_grade d = GradeQkd <-> rtc (qkd_edge t) a b)).
Proof.
  cbv zeta. pose proof (go_sync _ (sdn_run_graph ops)) as Hs. set (t := st_topo (sdn_run ops)) in *. clearbody t.
  assert (Hk : forall key e, demand_run l !! key = Some e -> demand_key e = key) by (intros key e He; by apply (demand_run_ok l key e)).
  set (reg := demand_run l) in *. clearbody reg. unfold build. cbn [mi_commodities]. set (cs := concat _).
  assert (Hp : merge_sort commodity_le cs ≡ₚ cs) by apply merge_sort_Permutation.
  change (map demand_key) with (fmap (M := list) demand_key). rewrite Hp. split_and!.
  - by apply all_commodities_nodup.
  - intros d Hd. rewrite Hp in Hd. apply all_commodities_elem in Hd as (src & dst & a & b & Ha & Hb & Hd).
    apply (pair_commodities_elem t reg) in Hd as (_ & Hab & g & [Hd Hg]%(grade_commodity_elem reg Hk)). cbn [fst snd] in *.
    injection Hd as <- <- <-. exists a, b. split_and!; [done|done|done|]. intros Hq. by apply (comp_connected_spec t Hs), Hg.
  - intros src dst a b Ha Hb Hab. assert (Hsd : src <> dst) by congruence.
    destruct (natural_commodity reg src dst (comp_connected t a b)) as [d Hd]. exists d.
    pose proof (grade_commodity_elem reg Hk _ _ _ _ _ Hd) as [Hdk _]. injection Hdk as E1 E2 E3. split_and!; [|done|done|].
    + rewrite Hp. apply all_commodities_elem. exists src, dst, a, b. split_and!; [done|done|]. apply (pair_commodities_elem t reg).
      split_and!; [done|done|by eexists].
    + rewrite E3, <- (comp_connected_spec t Hs) by done. by destruct (comp_connected t a b).
Qed.

(** ** Names of flows *)

Lemma split_arrow_skip c c' s : Ascii.eqb c' ">"%char = false ->
  split_arrow (String c (String c' s)) = (fun lr : string * string => (String c lr.1, lr.2)) <$> split_arrow (String c' s).
Proof. intros Hc. cbn [split_arrow]. by rewrite Hc, andb_false_r. Qed.

Lemma append_cons c s x : String.append (String c s) x = String c (String.append s x).
Proof. done. Qed.
Lemma append_nil x : String.append EmptyString x = x.
Proof. done. Qed.

Lemma split_arrow_flow s d : all_chars is_id_char s = true -> split_arrow (flow_id s d) = Some (s, d).
Proof.
  unfold flow_id. induction s as [|c s IH]; intros Hs; [done|]. cbn [all_chars] in Hs. apply andb_true_iff in Hs as [Hc Hs].
  specialize (IH Hs). rewrite append_cons. destruct s as [|c' s].
  - rewrite !append_cons, append_nil in *. rewrite split_arrow_skip by done. by rewrite IH.
  - assert (Hc' : Ascii.eqb c' ">"%char = false).
    { cbn [all_chars] in Hs. apply andb_true_iff in Hs as [Hc' _]. destruct (Ascii.eqb_spec c' ">"%char) as [->|]; [by vm_compute in Hc'|done]. }
    rewrite append_cons in *. rewrite split_arrow_skip by done. by rewrite IH.
Qed.

Lemma split_arrow_join : forall f s d, split_arrow f = Some (s, d) -> f = flow_id s d.
Proof.
  unfold flow_id. induction f as [|c f IH]; intros s d; [done|]. cbn [split_arrow]. destruct f as [|c' f]; [done|].
  destruct (Ascii.eqb c "-"%char && Ascii.eqb c' ">"%char) eqn:E.
  - apply andb_true_iff in E as [->%Ascii.eqb_eq ->%Ascii.eqb_eq]. by intros [= <- <-].
  - intros Hs. apply fmap_Some in Hs as ([l r] & Hs & Hlr). injection Hlr as -> ->. rewrite append_cons. f_equal. by apply IH.
Qed.

Lemma entry_lookup {K} `{Countable K} {V} a (k : K) (v : V) m b j :
  entry_insert a k v m !! b ≫= (.!! j) = if decide (b = a /\ j = k) then Some v else m !! b ≫= (.!! j).
Proof.
  unfold entry_insert. destruct (decide (b = a)) as [->|Hb].
  - rewrite lookup_insert_eq. cbn [mbind option_bind]. destruct (decide (j = k)) as [->|Hj].
    + rewrite lookup_insert_eq, decide_True by done. done.
    + rewrite lookup_insert_ne, decide_False by naive_solver. destruct (m !! a); cbn [from_option mbind option_bind]; [done|apply lookup_empty].
  - by rewrite lookup_insert_ne, decide_False by naive_solver.
Qed.

(** What the fold over the rates leaves for one flow. *)
Definition told (m : gmap string f64 * gmap string (gmap (string * BufferRole) f64)) (s d : string) (r : option f64) : Prop :=
  m.1 !! flow_id s d = r /\ m.2 !! s ≫= (.!! (d, EncKeys)) = r /\ m.2 !! d ≫= (.!! (s, DecKeys)) = r.

Lemma add_rate_told m f r s d : split_arrow (flow_id s d) = Some (s, d) ->
  (f = flow_id s d -> told (add_rate m (f, r)) s d (Some r)) /\ (f <> flow_id s d -> forall x, told m s d x -> told (add_rate m (f, r)) s d x).
Proof.
  intros Hsp. split.
  - intros ->. unfold add_rate, told. cbn [fst snd]. rewrite Hsp. cbn [fst snd]. rewrite lookup_insert_eq, !entry_lookup.
    split_and!; [done| |].
    + rewrite decide_False by (intros [_ ?]; congruence). by rewrite decide_True.
    + by rewrite decide_True.
  - intros Hf x (H1 & H2 & H3). unfold add_rate, told. cbn [fst snd]. destruct (split_arrow f) as [[s' d']|] eqn:E; [|done].
    apply split_arrow_join in E. cbn [fst snd]. rewrite lookup_insert_ne by done. rewrite !entry_lookup.
    assert (Hne : ~ (s = s' /\ d = d')) by (intros [-> ->]; done).
    split_and!; [done| |].
    + rewrite !decide_False; [done| |]; [intros [-> [= ->]]; by apply Hne|intros [_ [=]]].
    + rewrite !decide_False; [done| |]; [intros [_ [=]]|intros [-> [= ->]]; by apply Hne].
Qed.

Lemma add_rates_told l : forall m s d, split_arrow (flow_id s d) = Some (s, d) -> NoDup l.*1 ->
  (forall r, (flow_id s d, r) ∈ l -> told (fold_left add_rate l m) s d (Some r)) /\
  (~ flow_id s d ∈ l.*1 -> forall x, told m s d x -> told (fold_left add_rate l m) s d x).
Proof.
  induction l as [|[f r0] l IH]; intros m s d Hsp Hnd.
  { split; [by intros r ?%not_elem_of_nil|done]. }
  rewrite fmap_cons in *. cbn [fst] in *. apply NoDup_cons in Hnd as [Hf Hnd]. cbn [fold_left].
  destruct (IH (add_rate m (f, r0)) s d Hsp Hnd) as [I1 I2]. destruct (add_rate_told m f r0 s d Hsp) as [A1 A2]. split.
  - intros r [E|Hin]%elem_of_cons; [|by apply I1]. injection E as E1 E2. subst r0 f. apply I2; [done|by apply A1].
  - intros Hn x Hx. apply not_elem_of_cons in Hn as [H1 H2]. apply I2; [done|]. apply A2; [congruence|done].
Qed.

(** For managers named as announcements must name them, the snapshot tells
    both ends of a flow the rate the allocator gave it: the source for the
    keys it encrypts with, the destination for those it decrypts with, and
    neither when the allocator gave none. *)
Theorem both_ends_told_same_rate `{Libm, HashOrder, !MapOrder (string * KeyGrade)} sol t snap s d :
  into_mcf_snapshot sol t = Some snap -> is_valid_id s = true ->
  sn_rates_by_dkms snap !! s ≫= (.!! (d, EncKeys)) = ms_rates sol !! flow_id s d /\
  sn_rates_by_dkms snap !! d ≫= (.!! (s, DecKeys)) = ms_rates sol !! flow_id s d /\
  rate_for_buffer snap s d EncKeys = default f_zero (ms_rates sol !! flow_id s d) /\
  rate_for_buffer snap d s DecKeys = rate_for_buffer snap s d EncKeys.
Proof.
  intros Hsnap Hv. unfold is_valid_id in Hv. apply andb_true_iff in Hv as [_ Hv]. pose proof (split_arrow_flow s d Hv) as Hsp.
  assert (Hnd : NoDup (hash_iter (ms_rates sol)).*1).
  { assert (Hperm : (hash_iter (ms_rates sol)).*1 ≡ₚ (map_to_list (ms_rates sol)).*1) by (apply Permutation_map, hash_iter_perm).
    rewrite Hperm. apply NoDup_fst_map_to_list. }
  destruct (add_rates_told (hash_iter (ms_rates sol)) (∅, ∅) s d Hsp Hnd) as [T1 T2].
  unfold into_mcf_snapshot in Hsnap. destruct (fold_left add_rate (hash_iter (ms_rates sol)) (∅, ∅)) as [rates by_dkms].
  apply bind_Some in Hsnap as (w & _ & Hsnap). apply bind_Some in Hsnap as (wq & _ & Hsnap). injection Hsnap as <-.
  cbn [sn_rates_by_dkms sn_rates rate_for_buffer]. unfold rate_for_flow. cbn [sn_rates].
  assert (Ht : told (rates, by_dkms) s d (ms_rates sol !! flow_id s d)).
  { destruct (ms_rates sol !! flow_id s d) as [r|] eqn:E.
    - apply T1. by apply hash_iter_elem.
    - apply T2; [|unfold told; cbn; by rewrite !lookup_empty]. intros ([f r] & E2 & Hin%hash_iter_elem)%list_elem_of_fmap. cbn [fst] in E2. congruence. }
  destruct Ht as (Ht1 & Ht2 & Ht3). cbn [fst snd] in *. rewrite Ht1. split_and!; [exact Ht2|exact Ht3|reflexivity|reflexivity].
Qed.

(** ** What a DKMS is told *)

(** The reply to a DKMS says of each peer that QKD keys can be routed to
    it exactly when links that are not PQC join the QKCs the two are anchored
    at, and that it is reachable exactly when both QKCs are registered and any
    links join them. *)
Theorem rate_reply_matches_graph `{Libm, HashOrder, !MapOrder (string * BufferRole)} ops snap me v peers p r :
  let t := st_topo (sdn_run ops) in
  get_rate t snap me = Some (v, peers) -> peers !! p = Some r ->
  (pr_qkd_available r = true <-> exists a b, qkc_of_dkms t me = Some a /\ qkc_of_dkms t p = Some b /\ rtc (qkd_edge t) a b) /\
  (pr_reachable r = true <-> exists a b, qkc_of_dkms t me = Some a /\ qkc_of_dkms t p = Some b /\
     registered t a /\ registered t b /\ rtc (linked t) a b).
Proof.
  cbv zeta. pose proof (go_sync _ (sdn_run_graph ops)) as Hs. set (t := st_topo (sdn_run ops)) in *. clearbody t.
  unfold get_rate. destruct (tp_dkms t !! me); [|done]. intros [= _ <-].
  destruct (sn_rates_by_dkms snap !! me) as [my|]; [|by rewrite lookup_empty]. rewrite map_lookup_imap. intros Hp.
  apply bind_Some in Hp as (ed & _ & Hp).
  destruct (qkc_of_dkms t me) as [a|] eqn:Ea, (qkc_of_dkms t p) as [b|] eqn:Eb; cbv beta iota zeta in Hp; injection Hp as <-; cbn [pr_qkd_available pr_reachable].
  2, 3, 4: split; (split; [done|]); intros (? & ? & ? & ? & _); congruence.
  assert (Hab : forall (P : string -> string -> Prop), (exists x y, Some a = Some x /\ Some b = Some y /\ P x y) <-> P a b)
    by (intros P; split; [intros (? & ? & [= <-] & [= <-] & ?); done|eauto]).
  rewrite !Hab. rewrite <- (qkd_connected_spec t a b Hs), bool_decide_eq_true, shortest_path_some. split.
  - unfold qkd_connected_qkc, qkd_same. by destruct (String.eqb a b).
  - unfold registered. rewrite <- !elem_of_dom, (sy_nodes _ Hs). done.
Qed.

(** ** Instances *)

Definition sample_solution : McmcfSolution := mkSolution {["d1->d2"%string := f_of_Z 5]} ∅.
Definition sample_snapshot : McfSnapshot := mkSnap ∅ ∅ {["d1"%string := {[("d2"%string, EncKeys) := f_of_Z 5]}]} ∅ ∅.

Lemma sample_solution_snapshot : exists snap,
  @into_mcf_snapshot flat_libm map_order (list_order (string * KeyGrade)) sample_solution sample_topo = Some snap.
Proof.
  destruct (@tables_deliver flat_libm sample_topo None) as (w & E1 & _); [apply go_sync, sdn_run_graph|exact sample_canonical|].
  destruct (@tables_deliver flat_libm sample_topo (Some GradeQkd)) as (wq & E2 & _); [apply go_sync, sdn_run_graph|exact sample_canonical|].
  unfold into_mcf_snapshot. rewrite E1, E2. destruct (fold_left _ _ _). by eexists.
Qed.

Lemma both_ends_told_same_rate_witness : exists snap,
  @into_mcf_snapshot flat_libm map_order (list_order (string * KeyGrade)) sample_solution sample_topo = Some snap /\
  sn_rates_by_dkms snap !! "d2"%string ≫= (.!! ("d1"%string, DecKeys)) = Some (f_of_Z 5).
Proof.
  destruct sample_solution_snapshot as [snap Hs]. exists snap. split; [exact Hs|].
  exact (proj1 (proj2 (@both_ends_told_same_rate flat_libm map_order (list_order (string * KeyGrade)) sample_solution sample_topo snap "d1" "d2" Hs eq_refl))).
Defined.

Lemma rate_reply_matches_graph_witness : exists v peers r,
  @get_rate (list_order (string * BufferRole)) sample_topo sample_snapshot "d1" = Some (v, peers) /\ peers !! "d2"%string = Some r /\
  (pr_qkd_available r = true <->
     exists a b, qkc_of_dkms sample_topo "d1" = Some a /\ qkc_of_dkms sample_topo "d2" = Some b /\ rtc (qkd_edge sample_topo) a b).
Proof.
  assert (Hg : exists v peers r, @get_rate (list_order (string * BufferRole)) sample_topo sample_snapshot "d1" = Some (v, peers) /\
    peers !! "d2"%string = Some r) by (eexists _, _, _; split; vm_compute; reflexivity).
  destruct Hg as (v & peers & r & Hg & Hp). exists v, peers, r. split_and!; [exact Hg|exact Hp|].
  exact (proj1 (@rate_reply_matches_graph flat_libm map_order (list_order (string * BufferRole)) sample_ops sample_snapshot "d1" v peers "d2" r Hg Hp)).
Defined.
