(* ===== verification/SdnDebounce.v ===== *)
(** * The recompute debouncer (sdn/src/debounce.rs)

    [request], [flush], [cancel], [update_timing] and [shutdown] change the
    state behind the lock; the worker sleeps until the deadline of the
    sliding window and fires.  A fire runs the callback on its own thread;
    two flags keep it to one at a time.  Times are integers; how late the worker
    may wake is a parameter.

    Shown: a request is followed by a call of [spawn_fire] within the cap, one
    window and what the worker is late, which is more than the cap alone the
    documentation promises, and the bound is reached;
    in every interleaving of the flags one callback runs at most, and a
    trigger is never dropped without trace, although it may stay unserved
    until the next one. *)

From Stdlib Require Import ZArith Lia Sorted.
From S2P Require Import Prelude.

(** ** The state behind the lock *)

Record State := mkState {
  db_window : Z; db_max_wait : Z; db_pending : bool; db_cycle_start : option Z; db_last_request : option Z; db_closed : bool }.

Definition db_new (window max_wait : Z) : State := mkState window max_wait false None None false.
Definition db_clear (s : State) : State := mkState (db_window s) (db_max_wait s) false None None (db_closed s).

Inductive Asked := AskDropped | AskFire | AskNotify.

Definition request (now : Z) (s : State) : State * Asked :=
  if db_closed s then (s, AskDropped)
  else if db_window s =? 0 then (db_clear s, AskFire)
  else match db_cycle_start s with
  | Some cs =>
      if db_max_wait s <=? Z.max 0 (now - cs) then (db_clear s, AskFire)
      else (mkState (db_window s) (db_max_wait s) true (Some cs) (Some now) (db_closed s), AskNotify)
  | None => (mkState (db_window s) (db_max_wait s) true (Some now) (Some now) (db_closed s), AskNotify)
  end.

Definition flush (s : State) : State * bool := if db_pending s then (db_clear s, true) else (s, false).
Definition cancel (s : State) : State := db_clear s.
Definition update_timing (window max_wait : Z) (s : State) : State :=
  mkState window max_wait (db_pending s) (db_cycle_start s) (db_last_request s) (db_closed s).
Definition shutdown (s : State) : State := mkState (db_window s) (db_max_wait s) false None None true.

(** ** The worker *)

Inductive Wake := WakeIdle | WakeAt (deadline : Z).

(** [None]: the worker returns. *)
Definition worker_next (s : State) : option Wake :=
  if db_closed s then None
  else Some (match db_pending s, db_last_request s with
    | true, Some last => WakeAt (last + db_window s)
    | _, _ => WakeIdle
    end).

(** The deadline expired at [now]: whether it fires. *)
Definition worker_deadline (now : Z) (s : State) : option (State * bool) :=
  if db_closed s then None
  else Some (match db_pending s, db_last_request s with
    | true, Some last => if last + db_window s <=? now then (db_clear s, true) else (s, false)
    | _, _ => (s, false)
    end).

(** ** Timed runs

    Anything may be called at any time, and the worker looks at the clock whenever it
    runs; but time does not pass the deadline it sleeps to by more than [late].  What
    is kept are the instants at which [spawn_fire] is called, which is all this part
    of the code decides; what becomes of a call is [Fire] below. *)

Record Timed := mkTimed { td_now : Z; td_state : State; td_calls : list Z }.

Inductive DbMove := MTick (d : Z) | MRequest | MWorker | MFlush | MCancel | MTiming (window max_wait : Z) | MShutdown.

Definition overdue (late t : Z) (s : State) : bool := match worker_next s with Some (WakeAt d) => d + late <? t | _ => false end.

Definition db_do (late : Z) (s : Timed) (m : DbMove) : option Timed :=
  let now := td_now s in
  let call (st : State) (fire : bool) := Some (mkTimed now st (td_calls s ++ if fire then [now] else [])) in
  match m with
  | MTick d => if (d <? 0) || overdue late (now + d) (td_state s) then None else Some (mkTimed (now + d) (td_state s) (td_calls s))
  | MRequest => let '(st, r) := request now (td_state s) in call st (match r with AskFire => true | _ => false end)
  | MWorker => match worker_deadline now (td_state s) with Some (st, fire) => call st fire | None => call (td_state s) false end
  | MFlush => let '(st, fire) := flush (td_state s) in call st fire
  | MCancel => call (cancel (td_state s)) false
  | MTiming w m => call (update_timing w m (td_state s)) false
  | MShutdown => call (shutdown (td_state s)) false
  end.
Fixpoint db_run (late : Z) (s : Timed) (ms : list DbMove) : option Timed :=
  match ms with [] => Some s | m :: ms => s ← db_do late s m; db_run late s ms end.

(** Requests, flushes, the worker and the clock; the rest takes a request back or
    changes the bound. *)
Definition keeps_requests (m : DbMove) : Prop := match m with MCancel | MTiming _ _ | MShutdown => False | _ => True end.

(** ** The bound *)

Section bound.
Variables window max_wait late : Z.
Hypothesis Hw : 0 <= window.
Hypothesis Hm : 0 <= max_wait.
Hypothesis Hlate : 0 <= late.

Definition served (calls : list Z) (t : Z) : Prop := exists f, f ∈ calls /\ t <= f <= t + max_wait + window + late.

(** The request [t] waits in the open cycle, whose deadline the worker is not late
    for. *)
Definition waiting (s : Timed) (t : Z) : Prop :=
  let st := td_state s in
  db_window st = window /\ db_max_wait st = max_wait /\ db_closed st = false /\ db_pending st = true /\
  exists c l, db_cycle_start st = Some c /\ db_last_request st = Some l /\ c <= t <= l /\ l <= c + max_wait /\ l <= td_now s <= l + window + late.

Lemma served_more calls calls' t : served calls t -> served (calls ++ calls') t.
Proof. intros (f & Hf & ?). exists f. split; [apply elem_of_app; by left|done]. Qed.

Lemma served_now s t calls : waiting s t -> served (calls ++ [td_now s]) t.
Proof. intros (_ & _ & _ & _ & c & l & _ & _ & ? & ? & ?). exists (td_now s). split; [apply elem_of_app; right; by left|lia]. Qed.

(** A request at [t] is answered at once or waits. *)
Lemma request_waits (s s' : Timed) : db_window (td_state s) = window -> db_max_wait (td_state s) = max_wait -> db_closed (td_state s) = false ->
  (forall c, db_cycle_start (td_state s) = Some c -> c <= td_now s) -> db_do late s MRequest = Some s' -> served (td_calls s') (td_now s) \/ waiting s' (td_now s).
Proof.
  intros E1 E2 E3 Hc. cbn [db_do]. unfold request. rewrite E1, E2, E3.
  assert (Hnow : served (td_calls s ++ [td_now s]) (td_now s)) by (exists (td_now s); split; [apply elem_of_app; right; by left|lia]).
  destruct (window =? 0); [intros [= <-]; by left|]. destruct (db_cycle_start (td_state s)) as [c|].
  - destruct (Z.leb_spec max_wait (Z.max 0 (td_now s - c))); [intros [= <-]; by left|]. specialize (Hc c eq_refl).
    intros [= <-]. right. split_and!; [done..|]. exists c, (td_now s). cbn. split_and!; (done || lia).
  - intros [= <-]. right. split_and!; [done..|]. exists (td_now s), (td_now s). cbn. split_and!; (done || lia).
Qed.

(** And goes on waiting until it is answered. *)
Lemma move_waits m (s s' : Timed) t : keeps_requests m -> waiting s t -> db_do late s m = Some s' -> served (td_calls s') t \/ waiting s' t.
Proof.
  intros Hk Hwt. pose proof Hwt as (E1 & E2 & E3 & E4 & c & l & Ec & El & Hct & Hlc & Hnow). pose proof (served_now s t (td_calls s) Hwt) as Hsv.
  destruct m as [d| | | | | |]; cbn [keeps_requests] in Hk; try done; cbn [db_do].
  - destruct (_ || _) eqn:Eg; [done|]. apply orb_false_iff in Eg as [Hd%Z.ltb_ge Ho]. unfold overdue, worker_next in Ho. rewrite E3, E4, El, E1 in Ho. apply Z.ltb_ge in Ho.
    intros [= <-]. right. split_and!; [done..|]. exists c, l. cbn [td_state td_now]. split_and!; (done || lia).
  - unfold request. rewrite E3, E1, E2, Ec. destruct (window =? 0); [intros [= <-]; by left|]. destruct (Z.leb_spec max_wait (Z.max 0 (td_now s - c))); [intros [= <-]; by left|].
    intros [= <-]. right. split_and!; [done..|]. exists c, (td_now s). cbn. split_and!; (done || lia).
  - unfold worker_deadline. rewrite E3, E4, El, E1. destruct (_ <=? _); intros [= <-]; [by left|]. right. split_and!; [done..|]. by exists c, l.
  - unfold flush. rewrite E4. intros [= <-]. by left.
Qed.

Lemma calls_kept m (s s' : Timed) : db_do late s m = Some s' -> exists more, td_calls s' = td_calls s ++ more.
Proof.
  destruct m; cbn [db_do]; [destruct (_ || _); [done|]; intros [= <-]; exists []; by rewrite app_nil_r|destruct (request _ _)|destruct (worker_deadline _ _) as [[]|]|destruct (flush _)|..]; intros [= <-]; by eexists.
Qed.

Lemma run_waits ms t : Forall keeps_requests ms -> forall s s' : Timed, served (td_calls s) t \/ waiting s t -> db_run late s ms = Some s' -> served (td_calls s') t \/ waiting s' t.
Proof.
  induction 1 as [|m ms Hm1 _ IH]; intros s s' Hs; cbn [db_run]; [by intros [= <-]|]. intros (s1 & E1 & E2)%bind_Some. eapply IH; [|exact E2].
  destruct Hs as [Hs|Hs]; [left; destruct (calls_kept _ _ _ E1) as [more ->]; by apply served_more|by eapply move_waits].
Qed.
End bound.

(** C39: In whatever state the debouncer is, not shut down and with no cycle begun in
    the future: a request at [t] is followed by a call of [spawn_fire] no later than the
    cap, one window and [late] after it, where [late] is what the worker may be behind
    its deadline; whatever else is requested, flushed or left to the worker in between,
    and unless [cancel], [update_timing] or [shutdown] is called.  The call is what is promised:
    the callback may share it with others, wait for the one in flight or miss it
    ([Fire.trigger_left_behind]). *)
Theorem request_served_in_time late t st ms s' :
  0 <= db_window st -> 0 <= db_max_wait st -> 0 <= late -> db_closed st = false -> (forall c, db_cycle_start st = Some c -> c <= t) ->
  Forall keeps_requests ms -> db_run late (mkTimed t st []) (MRequest :: ms) = Some s' -> t + db_max_wait st + db_window st + late < td_now s' ->
  exists f, f ∈ td_calls s' /\ t <= f <= t + db_max_wait st + db_window st + late.
Proof.
  intros Hw Hm Hl Hopen Hc Hms Hrun Hend. cbn [db_run] in Hrun. apply bind_Some in Hrun as (s1 & E1 & E2).
  destruct (run_waits (db_window st) (db_max_wait st) late Hw Hl ms t Hms s1 s') as [Hs|(_ & _ & _ & _ & c & l & _ & _ & ? & ? & ?)]; [|exact E2|exact Hs|lia].
  by apply (request_waits _ _ late Hw Hm Hl (mkTimed t st [])).
Qed.

Definition busy_day : list DbMove := [MRequest; MTick 9; MRequest; MTick 9; MRequest; MTick 12; MWorker; MTick 60; MRequest; MTick 12; MWorker; MTick 60].

Lemma request_served_in_time_witness :
  exists s, db_run 3 (mkTimed 0 (db_new 10 100) []) busy_day = Some s /\ exists f, f ∈ td_calls s /\ 0 <= f <= 0 + 100 + 10 + 3.
Proof.
  destruct (db_run 3 (mkTimed 0 (db_new 10 100) []) busy_day) as [s|] eqn:E; [|vm_compute in E; discriminate]. exists s. split; [reflexivity|].
  apply (request_served_in_time 3 0 (db_new 10 100) (tail busy_day) s); [cbn; lia|cbn; lia|lia|reflexivity|done| |exact E|].
  - repeat constructor.
  - vm_compute in E. injection E as <-. vm_compute. reflexivity.
Defined.

(** With a window of 10 and a cap of 100 and a punctual worker, requests every 9
    units up to 99 are answered by one call, at 109: the cap is only looked at when a
    request arrives, so a cycle can outlast it by one window. *)
Theorem cap_is_exceeded :
  td_calls <$> db_run 0 (mkTimed 0 (db_new 10 100) []) (concat (replicate 11 [MRequest; MTick 9]) ++ [MRequest; MTick 10; MWorker]) = Some [109].
Proof. vm_compute. reflexivity. Qed.

(** ** One fire at a time *)

Module Fire.

(** Where a runner of [spawn_fire] is: about to clear the rerun flag, about to
    call the callback, inside it, about to test the flag, about to release. *)
Inductive Pc := RClear | RRun | RBusy | RCheck | RRelease.

Global Instance Pc_eq_dec : EqDecision Pc.
Proof. solve_decision. Defined.

(** [stores]: the calls that found a fire in flight and have not yet set the
    rerun flag.  [unseen] is not in the code: a call was made since the
    callback was last entered. *)
Record Flags := mkFlags { fire_inflight : bool; fire_rerun : bool; runners : list Pc; stores : nat; unseen : bool }.

Definition fire_new : Flags := mkFlags false false [] 0 false.

Inductive Act := Spawn | StoreRerun | Runner (i : nat).

Definition set_runner (i : nat) (pc : Pc) (rerun : bool) (s : Flags) : Flags :=
  mkFlags (fire_inflight s) rerun (<[i := pc]> (runners s)) (stores s) (unseen s).

(** One atomic operation of a caller or of a runner. *)
Definition spawn_fire_step (a : Act) (s : Flags) : option Flags :=
  match a with
  | Spawn =>
      if fire_inflight s then Some (mkFlags true (fire_rerun s) (runners s) (S (stores s)) true)
      else Some (mkFlags true (fire_rerun s) (runners s ++ [RClear]) (stores s) true)
  | StoreRerun =>
      match stores s with O => None | S n => Some (mkFlags (fire_inflight s) true (runners s) n (unseen s)) end
  | Runner i =>
      match runners s !! i with
      | None => None
      | Some RClear => Some (set_runner i RRun false s)
      | Some RRun => Some (mkFlags (fire_inflight s) (fire_rerun s) (<[i := RBusy]> (runners s)) (stores s) false)
      | Some RBusy => Some (set_runner i RCheck (fire_rerun s) s)
      | Some RCheck => Some (if fire_rerun s then set_runner i RClear false s else set_runner i RRelease false s)
      | Some RRelease => Some (mkFlags false (fire_rerun s) (delete i (runners s)) (stores s) (unseen s))
      end
  end.

Fixpoint fire_run (acts : list Act) (s : Flags) : option Flags :=
  match acts with [] => Some s | a :: acts => s ← spawn_fire_step a s; fire_run acts s end.

Definition busy (s : Flags) : nat := length (filter (fun pc => pc = RBusy) (runners s)).

(** ** What the flags keep *)

(** One runner while the flag is up and none otherwise; a call no callback has
    followed yet is on record: a runner is on its way to the callback, or the
    rerun flag is set or about to be. *)
Record fire_inv (s : Flags) : Prop := mkFireInv {
  fi_runners : length (runners s) = if fire_inflight s then 1%nat else 0%nat;
  fi_unseen : unseen s = true -> fire_rerun s = true \/ stores s <> 0%nat \/ RClear ∈ runners s \/ RRun ∈ runners s }.

Lemma one_runner s : fire_inv s -> runners s = [] /\ fire_inflight s = false \/ exists pc, runners s = [pc] /\ fire_inflight s = true.
Proof. intros [H _]. destruct (fire_inflight s), (runners s) as [|pc [|]]; try done; [right; by exists pc|by left]. Qed.

Lemma spawn_fire_step_inv a s s' : fire_inv s -> spawn_fire_step a s = Some s' -> fire_inv s'.
Proof.
  intros Hi Hs. pose proof (fi_unseen s Hi) as Hu.
  destruct s as [fl rr rs n u]. cbn [unseen fire_rerun stores runners] in Hu.
  destruct (one_runner _ Hi) as [[Er Ef]|(pc & Er & Ef)]; cbn in Er, Ef; subst rs fl; destruct a as [| |i]; cbn in Hs.
  - injection Hs as <-. split; [done|]. right. right. left. by left.
  - destruct n; [done|]. injection Hs as <-. split; [done|by left].
  - done.
  - injection Hs as <-. split; [done|]. cbn. auto.
  - destruct n; [done|]. injection Hs as <-. split; [done|by left].
  - destruct i as [|i]; [|done]. cbn in Hs. rewrite !list_elem_of_singleton in Hu.
    destruct pc; [| | |destruct rr|]; injection Hs as <-; split; cbn; try done; try (intros Huu; specialize (Hu Huu)); rewrite ?list_elem_of_singleton; naive_solver.
Qed.

Lemma fire_run_inv acts : forall s s', fire_inv s -> fire_run acts s = Some s' -> fire_inv s'.
Proof.
  induction acts as [|a acts IH]; cbn; intros s s' Hi Hr; [by injection Hr as <-|].
  destruct (spawn_fire_step a s) as [s1|] eqn:E; [|done]. eapply IH; [by eapply spawn_fire_step_inv|done].
Qed.

Lemma fire_new_inv : fire_inv fire_new.
Proof. by split. Qed.

(** What is left to do when nobody calls again. *)
Definition pc_left (pc : Pc) : nat := match pc with RClear => 5 | RRun => 4 | RBusy => 3 | RCheck => 2 | RRelease => 1 end.
Definition left_to_do (s : Flags) : nat := 6 * stores s + (if fire_rerun s then 5 else 0) + sum_list_with pc_left (runners s).

Lemma step_makes_progress a s s' : fire_inv s -> a <> Spawn -> spawn_fire_step a s = Some s' -> (left_to_do s' < left_to_do s)%nat.
Proof.
  intros Hi Ha Hs. destruct s as [fl rr rs n u].
  destruct (one_runner _ Hi) as [[Er Ef]|(pc & Er & Ef)]; cbn in Er, Ef; subst rs fl; destruct a as [| |i]; cbn in Hs; try done.
  1-2: destruct n; [done|]; injection Hs as <-; unfold left_to_do; cbn; destruct rr; lia.
  destruct i as [|i]; [|done]. cbn in Hs. destruct pc; [| | |destruct rr|]; injection Hs as <-; unfold left_to_do; cbn; try destruct rr; lia.
Qed.

Lemma run_makes_progress acts : forall s s', fire_inv s -> Forall (fun a => a <> Spawn) acts -> fire_run acts s = Some s' ->
  (length acts + left_to_do s' <= left_to_do s)%nat.
Proof.
  induction acts as [|a acts IH]; cbn [fire_run length]; intros s s' Hi Hn Hr; [injection Hr as <-; lia|].
  apply Forall_cons in Hn as [Ha Hn]. destruct (spawn_fire_step a s) as [s1|] eqn:E; [|done]. cbn in Hr.
  pose proof (step_makes_progress a s s1 Hi Ha E). pose proof (IH s1 s' (spawn_fire_step_inv a s s1 Hi E) Hn Hr). lia.
Qed.

(** C40: once calls to [spawn_fire] stop, the fires stop too: what any
    interleaving can still do is bounded, and where it can do nothing more no
    runner is left, every store is made and the in-flight flag is down. *)
Theorem fires_come_to_rest acts more s s' :
  fire_run acts fire_new = Some s -> Forall (fun a => a <> Spawn) more -> fire_run more s = Some s' ->
  (length more <= 10 + 6 * stores s)%nat /\
  ((forall a, a <> Spawn -> spawn_fire_step a s' = None) -> runners s' = [] /\ stores s' = 0%nat /\ fire_inflight s' = false).
Proof.
  intros Hr Hn Hm. pose proof (fire_run_inv acts _ _ fire_new_inv Hr) as Hi. pose proof (fire_run_inv more _ _ Hi Hm) as Hi'. split.
  - pose proof (run_makes_progress more s s' Hi Hn Hm) as Hp. unfold left_to_do in Hp.
    assert (sum_list_with pc_left (runners s) <= 5)%nat by (destruct (one_runner s Hi) as [[-> _]|([] & -> & _)]; cbn; lia).
    destruct (fire_rerun s); lia.
  - intros Hstuck. pose proof (Hstuck StoreRerun ltac:(done)) as Hst. pose proof (Hstuck (Runner 0) ltac:(done)) as Hr0. cbn in Hst, Hr0.
    destruct (one_runner s' Hi') as [[Er Ef]|(pc & Er & _)]; [destruct (stores s'); [by split_and!|done]|].
    rewrite Er in Hr0. destruct pc; [| | |destruct (fire_rerun s')|]; done.
Qed.

Lemma fires_come_to_rest_witness :
  exists s s', fire_run [Spawn; Runner 0; Spawn] fire_new = Some s /\
    fire_run [Runner 0; StoreRerun; Runner 0; Runner 0; Runner 0; Runner 0; Runner 0; Runner 0; Runner 0] s = Some s' /\
    runners s' = [] /\ (9 <= 10 + 6 * stores s)%nat.
Proof.
  eexists. eexists. split; [vm_compute; reflexivity|]. split; [vm_compute; reflexivity|]. split; [reflexivity|].
  refine (proj1 (fires_come_to_rest [Spawn; Runner 0; Spawn]
    [Runner 0; StoreRerun; Runner 0; Runner 0; Runner 0; Runner 0; Runner 0; Runner 0; Runner 0] _ _ eq_refl _ eq_refl)). repeat constructor; done.
Defined.

(** In every interleaving of calls to [spawn_fire] and of the fires they
    start, one callback at most is running, and once every call has finished
    its stores and no runner is left, a call not followed by a callback has
    left the rerun flag set. *)
Theorem one_callback_at_a_time acts s : fire_run acts fire_new = Some s ->
  (busy s <= 1)%nat /\ (unseen s = true -> stores s = 0%nat -> runners s = [] -> fire_rerun s = true).
Proof.
  intros Hr. pose proof (fire_run_inv acts _ _ fire_new_inv Hr) as Hi. split.
  - unfold busy. etransitivity; [apply length_filter|]. rewrite (fi_runners s Hi). destruct (fire_inflight s); lia.
  - intros Hu Hs Hn. destruct (fi_unseen s Hi Hu) as [?|[?|[Hx|Hx]]]; [done|done| |]; rewrite Hn in Hx; by apply not_elem_of_nil in Hx.
Qed.

Lemma one_callback_at_a_time_witness :
  exists s, fire_run [Spawn; Runner 0; Spawn; Runner 0; StoreRerun; Spawn] fire_new = Some s /\ (busy s <= 1)%nat.
Proof.
  eexists. split; [vm_compute; reflexivity|].
  refine (proj1 (one_callback_at_a_time [Spawn; Runner 0; Spawn; Runner 0; StoreRerun; Spawn] _ eq_refl)).
Defined.

(** A call made between the last test of the rerun flag and the release of
    the in-flight flag starts nothing and is followed by nothing: every actor
    is at rest and the call is unserved, until somebody calls again. *)
Theorem trigger_left_behind :
  exists acts s, fire_run acts fire_new = Some s /\ unseen s = true /\ stores s = 0%nat /\ runners s = [] /\ fire_inflight s = false.
Proof.
  exists [Spawn; Runner 0; Runner 0; Runner 0; Runner 0; Spawn; StoreRerun; Runner 0]. eexists. by split_and!; vm_compute.
Qed.

End Fire.
