(* ===== verification/PeerAdmission.v ===== *)
(** * Admission of requests per peer and application (dkms/src/control/sae_buffer_bucket.rs)

    A bucket of tokens for each pair of a peer and a SAE, whose limits follow
    the rate the controller assigns, the number of active SAEs and the stock
    of transport keys.  It is an instance of [PeerBuckets], the class the
    delivery service is written against.  Times are nanoseconds.

    Shown: a request is admitted only when every peer has the stock it costs,
    so that at a level that takes either grade it is refused for an empty buffer
    only where other requests took keys in between ([prepare_among] lets them in
    before every key it takes), which they can, as the stock is not reserved, and
    which a strict request needs no others for; a request moves no token of
    another SAE. *)

From Stdlib Require Import ZArith Lia String Sorted OrdersEx.
From S2P Require Import Prelude Float64 Security TransportPool PendingStore TokenBucket Delivery.

(** ** One bucket *)

Record Bucket := mkBucket { b_refill_rate : f64; b_capacity : f64; b_tokens : f64; b_last_refill : Z }.

Definition bucket_new (now : Z) (refill_rate capacity : f64) : Bucket := mkBucket refill_rate capacity capacity now.

Definition with_tokens (t : f64) (b : Bucket) : Bucket := mkBucket (b_refill_rate b) (b_capacity b) t (b_last_refill b).

Definition bucket_refill (now : Z) (b : Bucket) : Bucket :=
  let elapsed := as_secs_f64 (saturating_duration_since now (b_last_refill b)) in
  let tokens := if flt f_zero elapsed && flt f_zero (b_refill_rate b)
    then fmin (fadd (b_tokens b) (fmul elapsed (b_refill_rate b))) (b_capacity b) else b_tokens b in
  mkBucket (b_refill_rate b) (b_capacity b) tokens now.

Definition update_limits (now : Z) (refill_rate capacity : f64) (b : Bucket) : Bucket :=
  let was_uninitialized := feq (b_refill_rate b) f_zero && feq (b_capacity b) f_zero in
  let b := bucket_refill now b in
  let tokens := if was_uninitialized || flt capacity (b_tokens b) then capacity else b_tokens b in
  mkBucket refill_rate capacity tokens (b_last_refill b).

Definition bucket_consume (now : Z) (cost : f64) (b : Bucket) : Bucket * option f64 :=
  let b := bucket_refill now b in
  if fle cost (b_tokens b) then (with_tokens (fsub (b_tokens b) cost) b, None) else (b, Some (b_tokens b)).

Definition bucket_give (amount : f64) (b : Bucket) : Bucket := with_tokens (fmin (fadd (b_tokens b) amount) (b_capacity b)) b.

(** ** The manager *)

Abbreviation PeerSae := (string * string)%type.

(** [sdn_rates] is shared with the generator, which writes it. *)
Record SaeBufferBuckets := mkSbb {
  sdn_rates : gmap string f64; observation_window : Z; min_capacity : f64;
  buckets : gmap PeerSae Bucket; last_request : gmap PeerSae Z; last_eviction : option Z }.

(** [window] is the configured one, in nanoseconds, at least a second. *)
Definition sbb_new (rates : gmap string f64) (window : Z) (min_cap : f64) : SaeBufferBuckets :=
  mkSbb rates (Z.max window NANOS_PER_SEC) min_cap ∅ ∅ None.

Definition with_buckets (m : gmap PeerSae Bucket) (s : SaeBufferBuckets) : SaeBufferBuckets :=
  mkSbb (sdn_rates s) (observation_window s) (min_capacity s) m (last_request s) (last_eviction s).
Definition with_requests (m : gmap PeerSae Z) (s : SaeBufferBuckets) : SaeBufferBuckets :=
  mkSbb (sdn_rates s) (observation_window s) (min_capacity s) (buckets s) m (last_eviction s).
Definition with_eviction (t : Z) (s : SaeBufferBuckets) : SaeBufferBuckets :=
  mkSbb (sdn_rates s) (observation_window s) (min_capacity s) (buckets s) (last_request s) (Some t).

Definition idle (s : SaeBufferBuckets) (now t : Z) : bool := observation_window s <? saturating_duration_since now t.

Definition active_sae_count (s : SaeBufferBuckets) (peer : string) (now : Z) : nat :=
  (size (filter (fun kt : PeerSae * Z => kt.1.1 = peer /\ idle s now kt.2 = false) (last_request s)) `max` 1)%nat.

Definition register_request (peer sae : string) (now : Z) (s : SaeBufferBuckets) : SaeBufferBuckets :=
  with_requests (<[(peer, sae) := now]> (last_request s)) s.

Definition maybe_evict (now : Z) (s : SaeBufferBuckets) : SaeBufferBuckets :=
  let last := default (now - observation_window s - NANOS_PER_SEC) (last_eviction s) in
  if saturating_duration_since now last <? observation_window s then s
  else
    let stale := filter (fun kt : PeerSae * Z => idle s now kt.2 = true) (last_request s) in
    let keep := fun k : PeerSae => stale !! k = None in
    with_eviction now (with_buckets (filter (fun kb : PeerSae * Bucket => keep kb.1) (buckets s))
      (with_requests (filter (fun kt : PeerSae * Z => keep kt.1) (last_request s)) s)).

Record AdmitFailure := mkFailure {
  af_peer : string; af_available : f64; af_requested : f64; af_active_sae_count : nat; af_capacity : f64 }.

Definition modify (f : Bucket -> Bucket) (k : PeerSae) (m : gmap PeerSae Bucket) : gmap PeerSae Bucket := alter f k m.

Definition refund (s : SaeBufferBuckets) (peer sae : string) (amount : f64) : SaeBufferBuckets :=
  with_buckets (modify (bucket_give amount) (peer, sae) (buckets s)) s.
Definition refund_all (s : SaeBufferBuckets) (peers : list string) (sae : string) (amount : f64) : SaeBufferBuckets :=
  fold_left (fun s p => refund s p sae amount) peers s.

(** The ceiling of a bucket: what the rate can grow to, at most the stock. *)
Definition bucket_limits (s : SaeBufferBuckets) (peer : string) (active : nat) (occupancy : f64) : f64 * f64 :=
  let link_cap := default f_zero (sdn_rates s !! peer) in
  let refill := fmax (fdiv link_cap (f_of_Z (Z.of_nat active))) f_zero in
  let burst_floor := fmul refill (as_secs_f64 (observation_window s)) in
  let cap_grow := fmax (fmax burst_floor (fdiv occupancy (f_of_Z (Z.of_nat active)))) (min_capacity s) in
  (refill, fmin cap_grow occupancy).

Fixpoint admit_loop (now : Z) (sae : string) (cost : f64) (plan : list (string * nat * f64)) (consumed : list string) (s : SaeBufferBuckets)
  : SaeBufferBuckets * option AdmitFailure :=
  match plan with
  | [] => (s, None)
  | (peer, active, occupancy) :: plan =>
      let '(refill, cap) := bucket_limits s peer active occupancy in
      let b := update_limits now refill cap (default (bucket_new now f_zero f_zero) (buckets s !! (peer, sae))) in
      let s := with_buckets (<[(peer, sae) := b]> (buckets s)) s in
      if flt occupancy cost then (refund_all s consumed sae cost, Some (mkFailure peer occupancy cost active cap))
      else match bucket_consume now cost b with
      | (b, Some available) =>
          (refund_all (with_buckets (<[(peer, sae) := b]> (buckets s)) s) consumed sae cost, Some (mkFailure peer available cost active cap))
      | (b, None) => admit_loop now sae cost plan (consumed ++ [peer]) (with_buckets (<[(peer, sae) := b]> (buckets s)) s)
      end
  end.

Definition admit_plan (s : SaeBufferBuckets) (now : Z) (pool : BufferPool) (peers : list string) : list (string * nat * f64) :=
  map (fun peer => (peer, active_sae_count s peer now, f_of_Z (enc_len (for_peer pool peer)))) peers.

Definition admit_many (s : SaeBufferBuckets) (now : Z) (pool : BufferPool) (peers : list string) (sae : string) (cost : f64)
  : SaeBufferBuckets * option AdmitFailure :=
  let s := maybe_evict now s in
  let s := fold_left (fun s peer => register_request peer sae now s) peers s in
  admit_loop now sae cost (admit_plan s now pool peers) [] s.

(** The costs of the service are [u64] cast to [f64], and so are the numbers of its answer. *)
#[export] Instance sae_buffer_buckets : PeerBuckets SaeBufferBuckets := {
  try_admit_many s now pool peers sae cost :=
    let '(s, r) := admit_many s now pool peers sae (f_of_Z cost) in
    (s, (fun f => (f_as_u 64 (af_requested f), f_as_u 64 (af_available f))) <$> r);
  refund_many s peers sae cost := refund_all s peers sae (f_of_Z cost) }.

(** ** What a request touches *)

Lemma refund_all_frame peers sae amount : forall s k, (k.2 <> sae \/ k.1 ∉ peers) -> buckets (refund_all s peers sae amount) !! k = buckets s !! k.
Proof.
  induction peers as [|p peers IH]; intros s k Hk; [done|]. cbn [refund_all fold_left].
  change (buckets (refund_all (refund s p sae amount) peers sae amount) !! k = buckets s !! k).
  rewrite IH by set_solver. cbn [buckets with_buckets]. unfold modify. apply lookup_alter_ne. intros <-. cbn in Hk. set_solver.
Qed.

Lemma admit_loop_frame now sae cost plan : forall consumed s k, (k.2 <> sae \/ k.1 ∉ map (fun x => x.1.1) plan ++ consumed) ->
  buckets (admit_loop now sae cost plan consumed s).1 !! k = buckets s !! k.
Proof.
  induction plan as [|[[peer active] occ] plan IH]; intros consumed s k Hk; [done|]. cbn [admit_loop].
  assert (Hne : (peer, sae) <> k) by (intros <-; cbn in Hk; set_solver).
  destruct (bucket_limits s peer active occ) as [refill cap]. set (b := update_limits _ _ _ _).
  destruct (flt occ cost); cbn [fst].
  { rewrite refund_all_frame by (cbn [map] in Hk; set_solver). cbn [buckets with_buckets]. by rewrite lookup_insert_ne. }
  destruct (bucket_consume now cost b) as [b' [av|]]; cbn [fst].
  - rewrite refund_all_frame by (cbn [map] in Hk; set_solver). cbn [buckets with_buckets]. by rewrite !lookup_insert_ne.
  - rewrite IH by (cbn [map fst] in *; set_solver). cbn [buckets with_buckets]. by rewrite !lookup_insert_ne.
Qed.

Lemma register_all_buckets peers sae now : forall s, buckets (fold_left (fun s peer => register_request peer sae now s) peers s) = buckets s.
Proof. induction peers as [|p peers IH]; intros s; [done|]. cbn [fold_left]. by rewrite IH. Qed.

Lemma maybe_evict_lookup now s k :
  buckets (maybe_evict now s) !! k = buckets s !! k \/
  buckets (maybe_evict now s) !! k = None /\ exists t, last_request s !! k = Some t /\ observation_window s < saturating_duration_since now t.
Proof.
  unfold maybe_evict. destruct (_ <? _); [by left|]. cbn [buckets with_eviction with_buckets].
  destruct (decide (filter (fun kt : PeerSae * Z => idle s now kt.2 = true) (last_request s) !! k = None)) as [Hn|Hs].
  - left. destruct (buckets s !! k) as [b|] eqn:Hb.
    + by apply map_lookup_filter_Some_2.
    + apply map_lookup_filter_None_2. by left.
  - right. split; [apply map_lookup_filter_None_2; right; intros b _; exact Hs|].
    destruct (filter _ _ !! k) as [t|] eqn:Ht; [|done]. apply map_lookup_filter_Some in Ht as [Ht Hi]. exists t. split; [done|].
    by apply Z.ltb_lt in Hi.
Qed.

(** ** What admission promises *)

Lemma admit_loop_stock now sae cost plan : forall consumed s s', admit_loop now sae cost plan consumed s = (s', None) ->
  Forall (fun x => flt x.2 cost = false) plan.
Proof.
  induction plan as [|[[peer active] occ] plan IH]; intros consumed s s'; [constructor|]. cbn [admit_loop].
  destruct (bucket_limits s peer active occ) as [refill cap]. destruct (flt occ cost) eqn:Hf; [done|].
  destruct (bucket_consume _ _ _) as [b' [av|]]; [done|]. intros H. constructor; [done|]. by eapply IH.
Qed.

Lemma admitted_stock s now pool peers sae cost s' : 0 <= cost < 2 ^ 53 ->
  (forall p, p ∈ peers -> enc_len (for_peer pool p) < 2 ^ 53) ->
  try_admit_many s now pool peers sae cost = (s', None) -> Forall (fun p => cost <= enc_len (for_peer pool p)) peers.
Proof.
  intros Hc Hsmall. cbn [try_admit_many sae_buffer_buckets]. unfold admit_many.
  set (s0 := fold_left _ _ _). destruct (admit_loop _ _ _ _ _ _) as [s1 [f|]] eqn:E; [done|]. intros _.
  apply admit_loop_stock in E. unfold admit_plan in E. rewrite Forall_map in E. rewrite !Forall_forall in *. intros p Hp.
  specialize (E p Hp). cbn in E. rewrite f_of_Z_lt in E; [by apply Z.ltb_ge in E| |done].
  split; [|by apply Hsmall]. unfold enc_len, buf_len. pose proof (zlen_nonneg (sb_inner (pb_enc_qkd (for_peer pool p)))).
  pose proof (zlen_nonneg (sb_inner (pb_enc_pqc (for_peer pool p)))). lia.
Qed.

(** *** The groups of a request are of distinct peers *)

Definition peer_lt (a b : string) : Prop := String.compare a b = Lt.

#[local] Instance peer_lt_order : StrictOrder peer_lt.
Proof. exact String_as_OT.lt_strorder. Qed.

Lemma group_add_sorted node sae g : StronglySorted peer_lt (map fst g) -> StronglySorted peer_lt (map fst (group_add node sae g)) /\
  forall n, n ∈ map fst (group_add node sae g) -> n = node \/ n ∈ map fst g.
Proof.
  induction g as [|[n saes] g IH]; intros Hs; cbn [group_add].
  { split; [repeat constructor|]. intros n Hn. left. by apply list_elem_of_singleton in Hn. }
  apply StronglySorted_inv in Hs as [Hs Hn]. cbn [map fst] in *. destruct (String.compare node n) eqn:Hc; cbn [map fst].
  - split; [by constructor|]. intros x Hx. by right.
  - split; [|intros x Hx; apply elem_of_cons in Hx; tauto].
    constructor; [by constructor|]. constructor; [done|]. eapply Forall_impl; [exact Hn|]. intros x Hx. by transitivity n.
  - destruct (IH Hs) as [I1 I2]. split.
    + constructor; [done|]. apply Forall_forall. intros x [->|Hx]%I2.
      * unfold peer_lt. rewrite String.compare_antisym, Hc. done.
      * by rewrite Forall_forall in Hn; apply Hn.
    + intros x [->|Hx]%elem_of_cons; [right; by left|]. destruct (I2 x Hx); [by left|right; by right].
Qed.

Lemma resolve_groups_sorted resolve saes : forall g g', StronglySorted peer_lt (map fst g) ->
  resolve_groups resolve saes g = Ok g' -> StronglySorted peer_lt (map fst g').
Proof.
  induction saes as [|sae saes IH]; intros g g' Hs; cbn [resolve_groups]; [by intros [= <-]|].
  intros (node & _ & Hr)%res_bind_ok. eapply IH; [|exact Hr]. by apply group_add_sorted.
Qed.

Lemma sorted_nodup l : StronglySorted peer_lt l -> NoDup l.
Proof.
  induction 1 as [|x l _ IH Hx]; constructor; [|done]. intros Hin. rewrite Forall_forall in Hx. by apply (StrictOrder_Irreflexive x), Hx.
Qed.

Lemma plan_peers_nodup {SBB} `{PeerBuckets SBB} (d : Dkms SBB) resolve master slave req pl :
  enc_plan d resolve master slave req = Ok pl -> NoDup (map fst (pl_remote pl)).
Proof.
  unfold enc_plan. intros (_ & _ & Hp)%res_bind_ok. destruct (negb _); [done|]. apply res_bind_ok in Hp as (u & _ & Hp).
  apply res_bind_ok in Hp as (g & Hg & Hp). destruct (_ <? _); [done|]. apply res_bind_ok in Hp as (lv & _ & Hp).
  destruct (existsb _ _); [done|]. injection Hp as <-. cbn [pl_remote].
  apply resolve_groups_sorted in Hg; [|constructor]. apply sorted_nodup in Hg.
  eapply sublist_NoDup; [exact Hg|]. apply sublist_map, sublist_filter.
Qed.

(** *** A request among others

    [enc_prepare] as it is between other handlers: these take no lock in common, so that
    anything may happen to the buffers of a peer between the check of the stock and the
    first key, and before each key after it; [others] is what does, by peer and key. *)

Section Among.
Context {SBB : Type} `{PeerBuckets SBB} `{KeyDigest}.
Context (others : NodeId -> nat -> PeerBuffers -> PeerBuffers).
Implicit Types d : Dkms SBB.

Fixpoint wrap_among (peer : NodeId) (i : nat) (pb : PeerBuffers) (prefs : list KeyGrade) (keys : list SessionKey)
    (out : list Etsi020Key) (popped : list (KeyGrade * TransportKey))
    : PeerBuffers * res DkmsError (list Etsi020Key * list (KeyGrade * TransportKey)) :=
  match keys with
  | [] => (pb, Ok (out, popped))
  | k :: keys =>
      match enc_pop_pref (others peer i pb) prefs with
      | (pb, None) => (give_back popped pb, Err (TransportBufferEmpty peer))
      | (pb, Some (g, tk)) =>
          if (length (tk_bytes tk) <? TRANSPORT_KEY_BYTES)%nat then (give_back popped pb, Err Crypto) else
          match wrap_session_key (tk_bytes tk) (sk_bytes k) with
          | None => (pb, Err Crypto)
          | Some ct =>
              let ext : JsonMap :=
                <["transport_key_id"%string := VString (tk_id tk)]>
                  {["session_key_digest"%string := VString (key_digest (sk_id k) (sk_bytes k))]} in
              wrap_among peer (S i) pb prefs keys (out ++ [mkEk (sk_id k) ct (Some ext)]) (popped ++ [(g, tk)])
          end
      end
  end.

Definition envelope_among (c : DkmsConfig) (p : BufferPool) (master : SaeId) (peer : NodeId) (saes : list SaeId) (keys : list SessionKey) (prefs : list KeyGrade)
    : BufferPool * res DkmsError (ExtKeyContainer * list (KeyGrade * TransportKey)) :=
  let '(pb, r) := wrap_among peer 0 (for_peer p peer) prefs keys [] [] in
  (set_peer peer pb p,
   let* (etsi_keys, popped) := r in
   Ok (mkXc etsi_keys master saes ("https://" +:+ cf_node_id c +:+ "/kmapi/v1/ext_keys/ack")%string
         (Some {["ttl_seconds"%string := VU64 (cf_default_ttl_secs c)]}), popped)).

Fixpoint build_among d (master : SaeId) (level : option SecurityLevel) (keys : list SessionKey)
    (remote : list (NodeId * list SaeId)) (p : BufferPool) (envs : list (NodeId * ExtKeyContainer)) (popped : list popped_key)
    : BufferPool * list (NodeId * ExtKeyContainer) * list popped_key * option DkmsError :=
  match remote with
  | [] => (p, envs, popped, None)
  | (peer, saes) :: remote =>
      match envelope_among (dk_cfg d) p master peer saes keys (serve_pref (level_for d level peer)) with
      | (p, Ok (env, ks)) => build_among d master level keys remote p (envs ++ [(peer, env)]) (popped ++ map (fun gk => (peer, fst gk, snd gk)) ks)
      | (p, Err e) => (p, envs, popped, Some e)
      | (p, Panic) => (p, envs, popped, None)
      end
  end.

Definition prepare_among d (now refilled : Z) (rng : nat -> nat -> SessionKey) (master : SaeId) (req : Etsi014KeyRequest) (pl : EncPlan)
    : Dkms SBB * res DkmsError (list (NodeId * ExtKeyContainer) * list SessionKey) :=
  let peers := map fst (pl_remote pl) in
  let d := with_demand (dk_demand d ++ map (fun p => (p, pl_cost_per_peer pl)) peers) d in
  match charge d now refilled pl master (rq_number req) with
  | (d, Some e) => (d, Err e)
  | (d, None) =>
      let keys := generate_session_keys rng (rq_number req) (Z.to_nat (pl_size_bytes pl)) in
      let d := with_pending (insert_local now (dk_pending d) master (pl_local pl) keys) d in
      let '(p, envs, popped, e) := build_among d master (pl_level pl) keys (pl_remote pl) (dk_pool d) [] [] in
      match (match e with Some e => Some e | None => send_err d envs end) with
      | Some e =>
          let d := refund_peers (with_pool (put_back popped p) d) pl master peers in
          (with_pending (retract keys (dk_pending d)) d, Err e)
      | None => (with_pool p d, Ok (envs, keys))
      end
  end.

(** [took peer i] bounds what the others take of a peer before its key [i]; they may
    give back and refill too. *)
Context (took : NodeId -> nat -> nat).
Definition taken (peer : NodeId) (i n : nat) : nat := foldr Nat.add 0%nat (map (took peer) (seq i n)).
Definition take_at_most : Prop := forall peer i pb l, l <> StrictQkd -> (stock pb (serve_pref l) <= stock (others peer i pb) (serve_pref l) + took peer i)%nat.
Context (Htook : take_at_most).

Lemma wrap_among_empty peer l keys : l <> StrictQkd -> forall i pb out popped q,
  (wrap_among peer i pb (serve_pref l) keys out popped).2 = Err (TransportBufferEmpty q) -> q = peer /\ (stock pb (serve_pref l) < length keys + taken peer i (length keys))%nat.
Proof.
  intros Hl. induction keys as [|k keys IH]; intros i pb out popped q; [done|]. cbn [wrap_among length]. unfold taken. cbn [seq map foldr].
  pose proof (Htook peer i pb l Hl) as Ht. pose proof (enc_pop_pref_stock (others peer i pb) (serve_pref l) (serve_pref_nodup l)) as Hst.
  destruct (enc_pop_pref _ _) as [pb1 [[g tk]|]]; [|intros [= <-]; split; [done|lia]].
  destruct (_ <? _)%nat; [done|]. destruct (wrap_session_key _ _); [|done]. intros He. apply IH in He as [-> He]. split; [done|]. unfold taken in He. lia.
Qed.

Lemma build_among_empty d master level keys remote : forall p envs popped p' envs' popped' q, NoDup (map fst remote) ->
  (forall peer, peer ∈ map fst remote -> level_for d level peer <> StrictQkd) ->
  build_among d master level keys remote p envs popped = (p', envs', popped', Some (TransportBufferEmpty q)) ->
  q ∈ map fst remote /\ (stock (for_peer p q) (serve_pref (level_for d level q)) < length keys + taken q 0 (length keys))%nat.
Proof.
  induction remote as [|[peer saes] remote IH]; intros p envs popped p' envs' popped' q Hnd Hl; [done|]. cbn [build_among map fst].
  apply NoDup_cons in Hnd as [Hni Hnd]. unfold envelope_among.
  pose proof (wrap_among_empty peer (level_for d level peer) keys (Hl peer ltac:(by left)) 0 (for_peer p peer) [] []) as Hw.
  destruct (wrap_among _ _ _ _ _ _ _) as [pb' [[out ps]|e|]]; cbn [res_bind snd] in *; [| |done].
  - intros Hb. destruct (IH _ _ _ _ _ _ _ Hnd ltac:(intros; apply Hl; by right) Hb) as (Hin & Hst). split; [by right|].
    rewrite for_peer_set, decide_False in Hst; [done|]. by intros ->.
  - intros [= _ _ _ ->]. destruct (Hw q eq_refl) as [-> Hst]. split; [by left|exact Hst].
Qed.
End Among.

(** With nobody in between it is [enc_prepare]. *)
Lemma prepare_alone {SBB} `{PeerBuckets SBB, KeyDigest} (d : Dkms SBB) now refilled rng master req pl :
  prepare_among (fun _ _ pb => pb) d now refilled rng master req pl = enc_prepare d now refilled rng master req pl.
Proof.
  assert (Hw : forall peer prefs keys i pb out popped, wrap_among (fun _ _ pb => pb) peer i pb prefs keys out popped = wrap_loop peer pb prefs keys out popped).
  { intros peer prefs keys. induction keys as [|k keys IH]; intros i pb out popped; [done|]. cbn [wrap_among wrap_loop].
    destruct (enc_pop_pref pb prefs) as [pb1 [[g tk]|]]; [|done]. destruct (_ <? _)%nat; [done|]. destruct (wrap_session_key _ _); [|done]. apply IH. }
  assert (Hb : forall d0 lv keys remote p envs popped, build_among (fun _ _ pb => pb) d0 master lv keys remote p envs popped = build_all (d0 : Dkms SBB) master lv keys remote p envs popped).
  { intros d0 lv keys remote. induction remote as [|[peer saes] remote IH]; intros p envs popped; [done|]. cbn [build_among build_all]. unfold envelope_among, build_ext_keys_envelope. rewrite Hw.
    destruct (wrap_loop _ _ _ _ _ _) as [pb' [[out ps]|e|]]; [|done..]. apply IH. }
  unfold prepare_among, enc_prepare. destruct (charge _ _ _ _ _ _) as [d1 [e|]]; [done|]. by rewrite Hb.
Qed.

Section Prepare.
Context {SBB : Type} `{PeerBuckets SBB} `{KeyDigest}.
Implicit Types d : Dkms SBB.

Lemma either_grade_stock pb l : l <> StrictQkd -> Z.of_nat (stock pb (serve_pref l)) = enc_len pb.
Proof. intros Hl. unfold enc_len, buf_len, zlen, stock. destruct l; [done|cbn [serve_pref foldr enc]; lia..]. Qed.

Lemma plan_cost d req pl : plan_ok d req pl -> rq_number req <= pl_cost_per_peer pl < 2 ^ 53.
Proof.
  intros [Hn Hs Hr ->]. unfold compute_cost, sat_mul, u_max.
  assert (1 <= div_ceil (pl_size_bytes pl) (Z.max (cf_token_unit_bytes (dk_cfg d)) 1) <= 32).
  { pose proof (div_ceil_spec (pl_size_bytes pl) (Z.max (cf_token_unit_bytes (dk_cfg d)) 1)). unfold TRANSPORT_KEY_BYTES in Hs. nia. }
  unfold MAX_KEY_PER_REQUEST in *. set (c := div_ceil _ _) in *.
  assert (1 <= c * rq_number req <= 2048) by nia. replace (Z.max 1 1) with 1 by done. rewrite !Z.min_l by nia. nia.
Qed.
End Prepare.

(** An admitted request among others finds its keys, or they took them. *)
Lemma refused_among `{KeyDigest} others took (d : Dkms SaeBufferBuckets) s resolve master slave req pl now refilled rng q :
  take_at_most others took -> dk_adm d = PerPeer s -> enc_plan d resolve master slave req = Ok pl ->
  (forall peer, peer ∈ map fst (pl_remote pl) -> level_for d (pl_level pl) peer <> StrictQkd) ->
  (forall peer, enc_len (for_peer (dk_pool d) peer) < 2 ^ 53) ->
  (prepare_among others d now refilled rng master req pl).2 = Err (TransportBufferEmpty q) ->
  rq_number req <= enc_len (for_peer (dk_pool d) q) < rq_number req + Z.of_nat (taken took q 0 (Z.to_nat (rq_number req))).
Proof.
  intros Htook Hadm Hplan Hlevel Hsmall. pose proof (plan_peers_nodup _ _ _ _ _ _ Hplan) as Hnd.
  apply plan_is_ok in Hplan as Hok. pose proof (plan_cost d req pl Hok) as Hcost. destruct Hok as [Hnum _ _ _].
  unfold prepare_among. set (peers := map fst (pl_remote pl)) in *. unfold charge. cbn [dk_adm with_demand dk_pool]. rewrite Hadm.
  fold peers. destruct (Nat.eqb_spec (length peers) 0) as [H0|H0].
  - apply length_zero_iff_nil in H0. destruct (pl_remote pl) as [|x l]; [|done]. cbn [build_among send_err]. done.
  - pose proof (admitted_stock s now (dk_pool d) peers master (pl_cost_per_peer pl)) as Hst.
    destruct (try_admit_many _ _ _ _ _ _) as [s' [[rq av]|]]; [done|]. specialize (Hst s' ltac:(lia) ltac:(auto) eq_refl).
    set (keys := generate_session_keys _ _ _). set (d1 := with_pending _ _).
    destruct (build_among others d1 master (pl_level pl) keys (pl_remote pl) (dk_pool d1) [] []) as [[[p envs] popped] e] eqn:Hb.
    destruct e as [e|]; [|unfold send_err; destruct envs; [done|]; destruct (_ && _); done].
    intros [= ->]. apply (build_among_empty others took Htook) in Hb as (Hin & Hlt); [|exact Hnd|exact Hlevel].
    change (dk_pool d1) with (dk_pool d) in Hlt. change (level_for d1 (pl_level pl) q) with (level_for d (pl_level pl) q) in Hlt.
    rewrite Forall_forall in Hst. specialize (Hst q Hin). unfold keys in Hlt. rewrite length_generate in Hlt.
    pose proof (either_grade_stock (for_peer (dk_pool d) q) _ (Hlevel q Hin)). lia.
Qed.

Lemma nobody_takes : take_at_most (fun _ _ pb => pb) (fun _ _ => 0%nat).
Proof. intros peer i pb l _. lia. Qed.

Lemma nobody_took peer n : taken (fun _ _ => 0%nat) peer 0 n = 0%nat.
Proof. assert (Hz : forall i, taken (fun _ _ => 0%nat) peer i n = 0%nat); [|apply Hz]. unfold taken. induction n as [|n IH]; intros i; [done|]. cbn [seq map foldr]. by rewrite IH. Qed.

(** C27: With the buckets per peer and a level that takes keys of either grade, a
    request that is admitted is refused for want of the transport keys of a peer only
    where other requests took them: there were enough for it when it was admitted, and
    before it had its own the others, [took] of them before each of its keys, took all
    that was there beyond these.  When nobody takes keys in between it is never refused
    so. *)
Theorem admitted_request_finds_keys `{KeyDigest} others took (d : Dkms SaeBufferBuckets) s resolve master slave req pl now refilled rng q :
  take_at_most others took -> dk_adm d = PerPeer s -> enc_plan d resolve master slave req = Ok pl ->
  (forall peer, peer ∈ map fst (pl_remote pl) -> level_for d (pl_level pl) peer <> StrictQkd) ->
  (forall peer, enc_len (for_peer (dk_pool d) peer) < 2 ^ 53) ->
  ((prepare_among others d now refilled rng master req pl).2 = Err (TransportBufferEmpty q) ->
    rq_number req <= enc_len (for_peer (dk_pool d) q) < rq_number req + Z.of_nat (taken took q 0 (Z.to_nat (rq_number req)))) /\
  (enc_prepare d now refilled rng master req pl).2 <> Err (TransportBufferEmpty q).
Proof.
  intros Htook Hadm Hplan Hlevel Hsmall. split; [by eapply refused_among|]. rewrite <- prepare_alone. intros Hr.
  eapply (refused_among _ _ d _ _ _ _ _ _ _ _ _ _ nobody_takes) in Hr; [|done..]. rewrite nobody_took in Hr. lia.
Qed.

(** A request of one SAE leaves the tokens of every other SAE, and of peers
    it does not ask for, as they were, but for buckets nobody has used for a
    whole window, which go. *)
Theorem request_spends_its_own_tokens s now pool peers sae cost k :
  k.2 <> sae \/ k.1 ∉ peers ->
  buckets (try_admit_many s now pool peers sae cost).1 !! k = buckets s !! k \/
  buckets (try_admit_many s now pool peers sae cost).1 !! k = None /\
    exists t, last_request s !! k = Some t /\ observation_window s < saturating_duration_since now t.
Proof.
  intros Hk. cbn [try_admit_many sae_buffer_buckets]. unfold admit_many.
  set (s0 := fold_left _ _ _). pose proof (admit_loop_frame now sae (f_of_Z cost) (admit_plan s0 now pool peers) [] s0 k) as Hf.
  assert (Hp : map (fun x => x.1.1) (admit_plan s0 now pool peers) = peers) by (unfold admit_plan; rewrite map_map; apply map_id).
  rewrite Hp, app_nil_r in Hf. destruct (admit_loop _ _ _ _ _ _) as [s1 r]. cbn [fst] in *. rewrite Hf by done.
  subst s0. rewrite register_all_buckets. apply maybe_evict_lookup.
Qed.

(** ** Instances *)

(** A manager of two keys a second for its peer; its default level and its stock are given. *)
Definition metered_node (level : SecurityLevel) (qkd pqc : list TransportKey) : Dkms SaeBufferBuckets :=
  mkDkms (mkCfg "dkms-A" {[ "alice"%string := "dkms-A"%string ]} true 4 32 300 level ∅)
    (mkPool 8 {[ "dkms-B"%string := mkPb (mkBuf 8 qkd) (mkBuf 8 pqc) (mkBuf 8 []) ]})
    (pending_new 300) (PerPeer (sbb_new {[ "dkms-B"%string := f_of_Z 2 ]} (60 * NANOS_PER_SEC) (f_of_Z 1))) {[ "dkms-B"%string ]} true (fun _ => None) None [] [].

Definition metered_plan : EncPlan := mkPlan ∅ [("dkms-B", ["bob"])]%string None 32 2.

(** Somebody takes one key before each that a request takes. *)
Definition rival_takes (peer : NodeId) (i : nat) (pb : PeerBuffers) : PeerBuffers := (enc_pop_pref pb [GradeQkd; GradePqc]).1.

Lemma rival_takes_one : take_at_most rival_takes (fun _ _ => 1%nat).
Proof.
  intros peer i pb l Hl. pose proof (enc_pop_pref_stock pb [GradeQkd; GradePqc]) as Hst. unfold rival_takes.
  assert (E : forall pb', stock pb' (serve_pref l) = stock pb' [GradeQkd; GradePqc]) by (intros pb'; destruct l; [done|unfold stock; cbn [serve_pref foldr]; lia..]).
  rewrite !E. specialize (Hst ltac:(repeat constructor; set_solver)). destruct (enc_pop_pref pb _) as [pb1 [[g tk]|]]; cbn [fst]; lia.
Qed.

Lemma admitted_request_finds_keys_witness :
  (prepare_among rival_takes (metered_node QkdPrefer stockAB []) 5 0 sample_rng "alice" (ask 2) metered_plan).2 = Err (TransportBufferEmpty "dkms-B") /\
  enc_len (for_peer (dk_pool (metered_node QkdPrefer stockAB [])) "dkms-B"%string) < 4 /\
  (enc_prepare (metered_node QkdPrefer stockAB []) 5 0 sample_rng "alice" (ask 2) metered_plan).2 <> Err (TransportBufferEmpty "dkms-B").
Proof.
  assert (Hr : (prepare_among rival_takes (metered_node QkdPrefer stockAB []) 5 0 sample_rng "alice" (ask 2) metered_plan).2 = Err (TransportBufferEmpty "dkms-B")) by (vm_compute; reflexivity).
  split; [exact Hr|].
  destruct (admitted_request_finds_keys rival_takes (fun _ _ => 1%nat) (metered_node QkdPrefer stockAB []) _ to_b "alice" "bob" (ask 2) metered_plan 5 0 sample_rng "dkms-B" rival_takes_one eq_refl) as [H1 H2].
  - vm_compute. reflexivity.
  - intros peer _. by vm_compute.
  - intros peer. unfold for_peer. cbn [metered_node dk_pool bp_peers capacity_per_peer].
    destruct (decide (peer = "dkms-B"%string)) as [->|Hne]; [rewrite lookup_singleton_eq|rewrite lookup_singleton_ne by done]; by vm_compute.
  - split; [|exact H2]. destruct (H1 Hr) as [_ Hlt]. vm_compute in Hlt |- *. exact Hlt.
Defined.

(** Two SAEs are admitted on the same two keys, each by its own bucket, before either
    takes them; the one that comes second is refused. *)
Theorem two_saes_admitted_on_one_stock :
  let d := metered_node QkdPrefer stockAB [] in
  let '(d1, r1) := charge d 5 0 metered_plan "alice" 2 in
  let '(d2, r2) := charge d1 5 0 metered_plan "carol" 2 in
  r1 = None /\ r2 = None /\ enc_len (for_peer (dk_pool d) "dkms-B"%string) = 2 /\
  let keys := generate_session_keys sample_rng 2 32 in
  let '(p, _, _, e1) := build_all d2 "alice" None keys (pl_remote metered_plan) (dk_pool d2) [] [] in
  let '(_, _, _, e2) := build_all d2 "carol" None keys (pl_remote metered_plan) p [] [] in
  e1 = None /\ e2 = Some (TransportBufferEmpty "dkms-B").
Proof. vm_compute. auto. Qed.

Lemma request_spends_its_own_tokens_witness :
  let s := (try_admit_many (sbb_new {[ "dkms-B"%string := f_of_Z 2 ]} (60 * NANOS_PER_SEC) (f_of_Z 1)) 0
    (dk_pool (metered_node QkdPrefer stockAB [])) ["dkms-B"%string] "carol"%string 1).1 in
  buckets (try_admit_many s 5 (dk_pool (metered_node QkdPrefer stockAB [])) ["dkms-B"%string] "alice"%string 1).1 !! ("dkms-B", "carol")%string
  = buckets s !! ("dkms-B", "carol")%string /\ is_Some (buckets s !! ("dkms-B", "carol")%string).
Proof.
  cbv zeta. set (s := (try_admit_many _ 0 _ _ _ _).1). split; [|vm_compute; by eexists].
  destruct (request_spends_its_own_tokens s 5 (dk_pool (metered_node QkdPrefer stockAB [])) ["dkms-B"%string] "alice"%string 1 ("dkms-B", "carol")%string) as [E|[_ (t & Ht & Hlt)]];
    [by left|exact E|]. exfalso. vm_compute in Ht. injection Ht as <-. vm_compute in Hlt. discriminate.
Defined.

(** The stock the buckets look at is that of both grades: a strict request with
    keys of the other grade only is admitted and then refused for an empty
    buffer. *)
Theorem strict_request_starves_after_admission :
  let d := metered_node StrictQkd [] stockAB in
  (charge d 5 0 metered_plan "alice" 2).2 = None /\
  (enc_prepare d 5 0 sample_rng "alice" (ask 2) metered_plan).2 = Err (TransportBufferEmpty "dkms-B") /\
  enc_plan d to_b "alice" "bob" (ask 2) = Ok metered_plan.
Proof. cbv zeta. split_and!; vm_compute; reflexivity. Qed.
