(* ===== verification/DemandTracker.v ===== *)
(** * Demand of the applications (dkms/src/demand_tracker.rs)

    For each peer a counter smooths the keys asked for per window: windows
    that passed without a call are made up for at the next one.  Times are in
    milliseconds; a clock of 64 bits is taken not to reach its bounds.

    Shown: however the calls fall, the rate is the exponential average of the
    totals of the windows that have passed; the loop that catches up ends.
    Two first calls at the same time lose one of the two. *)

From Stdlib Require Import ZArith Lia Sorted String.
From S2P Require Import Prelude Float64.

Definition DEFAULT_ALPHA : f64 := f_lit 2 10.
Definition DEFAULT_WINDOW_MS : Z := 1000.

(** ** One counter *)

Record EwmaCounter := mkEwma { ew_alpha : f64; ew_window_ms : Z; ew_ewma : f64; ew_window_count : Z; ew_window_start_ms : Z }.

Definition ewma_new (alpha : f64) (window_ms now_ms : Z) : EwmaCounter := mkEwma alpha (Z.max window_ms 1) f_zero 0 now_ms.

(** [as i64]. *)
Definition as_i64 (n : Z) : Z := let m := n mod 2 ^ 64 in if m <? 2 ^ 63 then m else m - 2 ^ 64.

Definition blend (alpha : f64) (window_ms : Z) (ewma : f64) (count : Z) : f64 :=
  let sample := fdiv (fmul (f_of_Z count) (f_of_Z 1000)) (f_of_Z window_ms) in
  fadd (fmul ewma (fsub (f_of_Z 1) alpha)) (fmul sample alpha).

Definition close_window (c : EwmaCounter) : EwmaCounter :=
  mkEwma (ew_alpha c) (ew_window_ms c) (blend (ew_alpha c) (ew_window_ms c) (ew_ewma c) (ew_window_count c)) 0
    (ew_window_start_ms c + as_i64 (ew_window_ms c)).

(** The [while] loop; the fuel of [ewma_advance] is the number of windows that passed. *)
Fixpoint ewma_loop (fuel : nat) (now_ms : Z) (c : EwmaCounter) : EwmaCounter :=
  match fuel with
  | O => c
  | S fuel => if as_i64 (ew_window_ms c) <=? now_ms - ew_window_start_ms c then ewma_loop fuel now_ms (close_window c) else c
  end.
Definition windows_passed (now_ms : Z) (c : EwmaCounter) : nat := Z.to_nat ((now_ms - ew_window_start_ms c) / as_i64 (ew_window_ms c)).
Definition ewma_advance (now_ms : Z) (c : EwmaCounter) : EwmaCounter := ewma_loop (windows_passed now_ms c) now_ms c.

Definition ewma_record (count now_ms : Z) (c : EwmaCounter) : EwmaCounter :=
  let c := ewma_advance now_ms c in
  mkEwma (ew_alpha c) (ew_window_ms c) (ew_ewma c) (sat_add 64 (ew_window_count c) count) (ew_window_start_ms c).

Definition ewma_rate (now_ms : Z) (c : EwmaCounter) : EwmaCounter * f64 := let c := ewma_advance now_ms c in (c, ew_ewma c).

(** ** The tracker *)

Record DemandTracker := mkTracker { dt_counters : gmap string EwmaCounter; dt_alpha : f64; dt_window_ms : Z }.
Definition tracker_new (alpha : f64) (window_ms : Z) : DemandTracker := mkTracker ∅ alpha window_ms.

Definition with_counters (m : gmap string EwmaCounter) (t : DemandTracker) : DemandTracker := mkTracker m (dt_alpha t) (dt_window_ms t).

(** [record] is two steps when the peer is new: the counter is made, and
    later put into the map. *)
Definition record_lookup (peer : string) (count now_ms : Z) (t : DemandTracker) : DemandTracker + EwmaCounter :=
  match dt_counters t !! peer with
  | Some c => inl (with_counters (<[peer := ewma_record count now_ms c]> (dt_counters t)) t)
  | None => inr (ewma_record count now_ms (ewma_new (dt_alpha t) (dt_window_ms t) now_ms))
  end.
Definition record_insert (peer : string) (c : EwmaCounter) (t : DemandTracker) : DemandTracker :=
  with_counters (<[peer := c]> (dt_counters t)) t.
Definition tracker_record (peer : string) (count now_ms : Z) (t : DemandTracker) : DemandTracker :=
  match record_lookup peer count now_ms t with inl t => t | inr c => record_insert peer c t end.

Definition tracker_rate (peer : string) (now_ms : Z) (t : DemandTracker) : DemandTracker * f64 :=
  match dt_counters t !! peer with
  | Some c => let '(c, r) := ewma_rate now_ms c in (with_counters (<[peer := c]> (dt_counters t)) t, r)
  | None => (t, f_zero)
  end.

(** ** The average over the windows *)

Lemma filter_none {A} (P : A -> Prop) `{!forall x, Decision (P x)} l : (forall x, x ∈ l -> ~ P x) -> filter P l = [].
Proof.
  induction l as [|x l IH]; intros Hn; [done|]. rewrite filter_cons_False by (apply Hn; by left). apply IH. intros y Hy. apply Hn. by right.
Qed.

Lemma fold_left_ext_in {A B} (f g : A -> B -> A) l : forall a, (forall a b, b ∈ l -> f a b = g a b) -> fold_left f l a = fold_left g l a.
Proof.
  induction l as [|b l IH]; intros a H; [done|]. cbn. rewrite H by (by left). apply IH. intros a' b' Hb. apply H. by right.
Qed.

Section average.
Variables (alpha : f64) (window start : Z).
Hypothesis Hwindow : 1 <= window < 2 ^ 63.

(** What was asked for in the [k]th window, as the counter adds it up. *)
Definition window_total (calls : list (Z * Z)) (k : nat) : Z :=
  fold_left (fun n call => sat_add 64 n call.2) (filter (fun call : Z * Z => (call.1 - start) / window = Z.of_nat k) calls) 0.

Definition average (calls : list (Z * Z)) (n : nat) : f64 :=
  fold_left (fun e k => blend alpha window e (window_total calls k)) (seq 0 n) f_zero.

(** The counter has closed [k] windows. *)
Record tracks (calls : list (Z * Z)) (k : nat) (c : EwmaCounter) : Prop := mkTracks {
  tr_alpha : ew_alpha c = alpha; tr_window : ew_window_ms c = window;
  tr_start : ew_window_start_ms c = start + Z.of_nat k * window;
  tr_ewma : ew_ewma c = average calls k;
  tr_count : ew_window_count c = window_total calls k;
  tr_past : Forall (fun call => call.1 < start + Z.of_nat (S k) * window) calls }.

Lemma as_i64_small : as_i64 window = window.
Proof. unfold as_i64. rewrite Z.mod_small by lia. destruct (Z.ltb_spec window (2 ^ 63)); [done|lia]. Qed.

Lemma no_calls calls k : Forall (fun call => call.1 < start + Z.of_nat k * window) calls -> window_total calls k = 0.
Proof.
  intros H. unfold window_total. rewrite filter_none; [done|]. intros [t n] Hin Ht. rewrite Forall_forall in H.
  specialize (H _ Hin). cbn [fst] in *. pose proof (Z.mul_div_le (t - start) window). nia.
Qed.

Lemma tracks_close calls k c : tracks calls k c -> tracks calls (S k) (close_window c).
Proof.
  intros [H1 H2 H3 H4 H5 H6]. unfold close_window. rewrite H1, H2, as_i64_small. split; cbn [ew_alpha ew_window_ms ew_ewma ew_window_count ew_window_start_ms]; try done; [rewrite H3; lia| | |].
  - unfold average. rewrite seq_S, fold_left_app. cbn [fold_left Nat.add]. by rewrite H4, H5.
  - by rewrite no_calls.
  - eapply Forall_impl; [exact H6|]. cbn. intros x Hx. lia.
Qed.

Lemma ewma_loop_tracks calls now : forall fuel k c, tracks calls k c -> start <= now ->
  Z.of_nat k + Z.of_nat fuel = (now - start) / window -> tracks calls (k + fuel) (ewma_loop fuel now c).
Proof.
  induction fuel as [|fuel IH]; intros k c Ht Hnow Hf; [by rewrite Nat.add_0_r|]. cbn [ewma_loop].
  pose proof Ht as [H1 H2 H3 _ _ _]. rewrite H2, H3, as_i64_small. pose proof (Z.mul_div_le (now - start) window).
  rewrite (proj2 (Z.leb_le _ _)) by nia. replace (k + S fuel)%nat with (S k + fuel)%nat by lia. apply IH; [by apply tracks_close|done|lia].
Qed.

Lemma ewma_advance_tracks calls k c now : tracks calls k c -> start + Z.of_nat k * window <= now ->
  tracks calls (Z.to_nat ((now - start) / window)) (ewma_advance now c).
Proof.
  intros Ht Hnow. pose proof Ht as [H1 H2 H3 _ _ _]. unfold ewma_advance, windows_passed. rewrite H2, H3, as_i64_small.
  assert (Hq : (now - (start + Z.of_nat k * window)) / window = (now - start) / window - Z.of_nat k)
    by (replace (now - (start + Z.of_nat k * window)) with (now - start + (- Z.of_nat k) * window) by lia; rewrite Z.div_add by lia; lia).
  assert (Hk : Z.of_nat k <= (now - start) / window) by (apply Z.div_le_lower_bound; lia).
  rewrite Hq. replace (Z.to_nat ((now - start) / window)) with (k + Z.to_nat ((now - start) / window - Z.of_nat k))%nat by lia.
  apply ewma_loop_tracks; [done|nia|lia].
Qed.

Lemma window_total_snoc calls t n k : window_total (calls ++ [(t, n)]) k =
  if decide ((t - start) / window = Z.of_nat k) then sat_add 64 (window_total calls k) n else window_total calls k.
Proof.
  unfold window_total. rewrite filter_app, fold_left_app. rewrite filter_cons. cbn [fst]. by case_decide.
Qed.

Lemma average_snoc calls t n k : Z.of_nat k <= (t - start) / window -> average (calls ++ [(t, n)]) k = average calls k.
Proof.
  intros Hk. unfold average. apply fold_left_ext_in. intros e j Hj%elem_of_seq. rewrite window_total_snoc, decide_False by lia. done.
Qed.

Lemma ewma_record_tracks calls k c t n : tracks calls k c -> start + Z.of_nat k * window <= t ->
  tracks (calls ++ [(t, n)]) (Z.to_nat ((t - start) / window)) (ewma_record n t c).
Proof.
  intros Ht Hle. pose proof (ewma_advance_tracks calls k c t Ht Hle) as [H1 H2 H3 H4 H5 H6]. unfold ewma_record.
  assert (0 <= (t - start) / window) by (apply Z.div_le_lower_bound; nia).
  pose proof (Z.mul_succ_div_gt (t - start) window).
  split; cbn [ew_alpha ew_window_ms ew_ewma ew_window_count ew_window_start_ms]; [done..|by rewrite H4, average_snoc by lia| |].
  - by rewrite H5, window_total_snoc, decide_True by lia.
  - apply Forall_app. split; [done|]. constructor; [cbn; nia|constructor].
Qed.

Lemma records_track calls : forall done k c, tracks done k c -> StronglySorted Z.le (map fst calls) ->
  Forall (fun call => start + Z.of_nat k * window <= call.1) calls ->
  exists k', tracks (done ++ calls) k' (fold_left (fun c call => ewma_record call.2 call.1 c) calls c) /\
    (k' = k /\ calls = [] \/ exists l, l ∈ map fst calls /\ Z.of_nat k' = (l - start) / window).
Proof.
  induction calls as [|[t n] calls IH]; intros dn k c Ht Hs Hle; cbn [fold_left].
  { exists k. rewrite app_nil_r. auto. }
  apply Forall_cons in Hle as [Hle _]. cbn [fst snd map] in *. apply StronglySorted_inv in Hs as [Hs Hall].
  pose proof (ewma_record_tracks dn k c t n Ht Hle) as Ht1. assert (0 <= (t - start) / window) by (apply Z.div_le_lower_bound; nia).
  destruct (IH (dn ++ [(t, n)]) _ _ Ht1 Hs) as (k' & Hk' & Hcase).
  { rewrite Forall_map in Hall. eapply Forall_impl; [exact Hall|]. cbn. intros [t' n'] Hx. cbn in *. pose proof (Z.mul_div_le (t - start) window). nia. }
  rewrite <- app_assoc in Hk'. exists k'. split; [exact Hk'|]. right. destruct Hcase as [[-> ->]|(l & Hl & E)].
  - exists t. split; [by left|lia].
  - exists l. split; [by right|done].
Qed.
End average.

(** Whenever the calls of the applications and of the reporter come, the
    rate of a counter is the exponential average of what was asked for in each
    window that has passed since it was made, idle windows included. *)
Theorem rate_is_average_of_windows alpha window start calls now :
  1 <= window < 2 ^ 63 -> StronglySorted Z.le (map fst calls) -> Forall (fun call => start <= call.1 <= now) calls -> start <= now ->
  (ewma_rate now (fold_left (fun c call => ewma_record call.2 call.1 c) calls (ewma_new alpha window start))).2
  = average alpha window start calls (Z.to_nat ((now - start) / window)).
Proof.
  intros Hw Hs Hall Hnow. rewrite Forall_forall in Hall.
  assert (H0 : tracks alpha window start [] 0 (ewma_new alpha window start)) by (split; cbn; try done; lia).
  destruct (records_track alpha window start Hw calls [] 0 _ H0 Hs) as (k & Hk & Hcase).
  { apply Forall_forall. intros x Hx. specialize (Hall x Hx). lia. }
  cbn [app] in Hk. unfold ewma_rate. cbn [snd].
  assert (Hle : start + Z.of_nat k * window <= now).
  { destruct Hcase as [[-> _]|(l & ([t n] & -> & Hin)%list_elem_of_fmap & E)]; [lia|].
    specialize (Hall _ Hin). cbn [fst] in *. pose proof (Z.mul_div_le (t - start) window). nia. }
  exact (tr_ewma _ _ _ _ _ _ (ewma_advance_tracks alpha window start Hw calls k _ now Hk Hle)).
Qed.

Lemma rate_is_average_of_windows_witness :
  (ewma_rate 5500 (fold_left (fun c call => ewma_record call.2 call.1 c) [(1000, 4); (1900, 3); (4200, 10)] (ewma_new DEFAULT_ALPHA 1000 1000))).2
  = average DEFAULT_ALPHA 1000 1000 [(1000, 4); (1900, 3); (4200, 10)] 4 /\
  window_total 1000 1000 [(1000, 4); (1900, 3); (4200, 10)] 0 = 7.
Proof.
  split; [|reflexivity].
  apply (rate_is_average_of_windows DEFAULT_ALPHA 1000 1000 [(1000, 4); (1900, 3); (4200, 10)] 5500);
    [lia|cbn [map fst]; repeat constructor; lia|repeat constructor; cbn; lia|lia].
Defined.

(** Two calls that both find a peer new each make a counter, and the second
    put into the map replaces the first: its keys are never counted. *)
Theorem concurrent_first_samples_lost t peer n1 n2 now1 now2 c1 c2 :
  record_lookup peer n1 now1 t = inr c1 -> record_lookup peer n2 now2 t = inr c2 ->
  dt_counters (record_insert peer c2 (record_insert peer c1 t)) !! peer = Some c2 /\
  c2 = ewma_record n2 now2 (ewma_new (dt_alpha t) (dt_window_ms t) now2).
Proof.
  unfold record_lookup, record_insert. destruct (dt_counters t !! peer); [done|]. intros _ [= <-].
  cbn [dt_counters with_counters]. by rewrite lookup_insert_eq.
Qed.
