(* ===== verification/RateLoop.v ===== *)
(** * The loop between a DKMS and the controller (dkms/src/control/generator.rs, dkms/src/southbound/sdn_http.rs)

    A DKMS reports its demand ([build_demand_report], with the rates of
    [DemandTracker]), polls its rates ([refresh_rates]) and spends them on new
    transport keys ([tick_once]); the controller files the report ([ingest] of
    [SdnControl]) and answers the poll ([get_rate] of [SdnRates]).

    Shown: a report is taken whole and each peer's figures are what the solver
    reads; what a tick emits fits the buffers whatever the rates are; a strict
    request is refused beforehand exactly when the controller's graph has no
    path of QKD links. *)

From Stdlib Require Import ZArith Lia String.
From stdpp Require Import sorting strings.
From S2P Require Import Prelude Text Float64 Security TransportPool Delivery E2e Peers Emission DemandTracker.
From S2P Require Import SdnTopology SdnStore SdnGraph SdnRegistry SdnPaths SdnWcmp SdnControl SdnRates.

(** ** The bucket of a peer *)

Record BucketState := mkBs { bs_tokens : f64; bs_last_refill : Z }.
Definition bs_new (now : Z) : BucketState := mkBs f_zero now.

Definition refill_and_take (now : Z) (rate cap : f64) (max_take : Z) (b : BucketState) : BucketState * Z :=
  let elapsed := as_secs_f64 (saturating_duration_since now (bs_last_refill b)) in
  let tokens := fmin (fadd (bs_tokens b) (fmul elapsed rate)) cap in
  let to_take := Z.min (f_as_u 32 tokens) max_take in
  let tokens := fsub tokens (f_of_Z to_take) in
  (mkBs (if flt tokens f_zero then f_zero else tokens) now, to_take).

(** ** The generator *)

Record RateCfg := mkRateCfg { rc_default_fill_rate : f64; rc_max_fill_rate : f64; rc_bucket_cap_seconds : f64 }.
Record GenRates := mkGenRates { gr_rates_enc : gmap string f64; gr_qkd_avail : gmap string bool; gr_buckets : gmap string BucketState }.

(** One poll: the decoded reply, or nothing after an error or a timeout. *)
Definition refresh_rates (resp : option (gmap string PeerRate)) (g : GenRates) : GenRates :=
  match resp with
  | Some peers => mkGenRates (pr_enc <$> peers) (pr_qkd_available <$> peers) (gr_buckets g)
  | None => g
  end.

Definition qkd_available (g : GenRates) (peer : string) : option bool := gr_qkd_avail g !! peer.

Definition fill_rate (c : RateCfg) (g : GenRates) (peer : string) : f64 :=
  let r := fmax (default f_zero (gr_rates_enc g !! peer)) (rc_default_fill_rate c) in
  if flt f_zero (rc_max_fill_rate c) then fmin r (rc_max_fill_rate c) else r.

Section Tick.
Context {SBB : Type}.

Definition headroom (n : Node SBB) (peer : string) : Z :=
  sat_sub (g_capacity (nd_gen n)) (enc_len (for_peer (dk_pool (nd_d n)) peer) + pending_count (ack_store n) peer).

(** The decision of a tick for one peer: the bucket and what is taken. *)
Definition tick_peer (c : RateCfg) (now : Z) (n : Node SBB) (g : GenRates) (peer : string) : GenRates * Z :=
  let rate := fill_rate c g peer in
  if fle rate f_zero then (g, 0)
  else if headroom n peer =? 0 then (g, 0)
  else
    let per_tick := Z.min (g_max_tokens_per_peer_per_tick (nd_gen n)) (Z.min (headroom n peer) (u_max 32)) in
    let cap := fmax (fmul (rc_bucket_cap_seconds c) rate) (f_of_Z 2) in
    let '(b, tokens) := refill_and_take now rate cap per_tick (default (bs_new now) (gr_buckets g !! peer)) in
    (mkGenRates (gr_rates_enc g) (gr_qkd_avail g) (<[peer := b]> (gr_buckets g)), tokens).

Fixpoint tick_loop (c : RateCfg) (now : Z) (n : Node SBB) (peers : list string) (g : GenRates) (plan : list (string * Z)) : GenRates * list (string * Z) :=
  match peers with
  | [] => (g, plan)
  | peer :: peers =>
      let '(g, tokens) := tick_peer c now n g peer in
      tick_loop c now n peers g (if tokens =? 0 then plan else plan ++ [(peer, tokens)])
  end.

(** What a tick decides to emit, before the keys are drawn. *)
Definition tick_once `{HashOrder} (c : RateCfg) (now : Z) (n : Node SBB) (g : GenRates) : GenRates * list (string * Z) :=
  tick_loop c now n (hash_iter (orr_map (nd_reg n))).*1 g [].

(** ** The demand report *)

Fixpoint demand_entries (me : string) (capacity : Z) (now_ms : Z) (n : Node SBB) (g : GenRates) (peers : list string) (t : DemandTracker)
  : DemandTracker * list CommodityDemand :=
  match peers with
  | [] => (t, [])
  | peer :: peers =>
      let level := f_of_Z (enc_len (for_peer (dk_pool (nd_d n)) peer)) in
      let '(t, drain_rate) := tracker_rate peer now_ms t in
      let grade := if default true (qkd_available g peer) then GradeQkd else GradePqc in
      let '(t, rest) := demand_entries me capacity now_ms n g peers t in
      (t, mkDemand me peer level (f_of_Z capacity) drain_rate now_ms grade :: rest)
  end.

Definition build_demand_report `{HashOrder} (me : string) (now_ms : Z) (n : Node SBB) (g : GenRates) (t : DemandTracker) : DemandTracker * DemandReport :=
  let peers := filter (fun p => p <> me) (hash_iter (orr_map (nd_reg n))).*1 in
  let '(t, entries) := demand_entries me (g_capacity (nd_gen n)) now_ms n g peers t in
  (t, mkReport me entries).
End Tick.

Definition MAX_ATTEMPTS : nat := 3.
(** The attempts to post a report: [post] answers the [i]th. *)
Fixpoint post_attempts {A} (post : nat -> option A) (attempt attempts : nat) : option A :=
  match attempts with
  | O => None
  | S attempts => match post attempt with Some a => Some a | None => post_attempts post (S attempt) attempts end
  end.
Definition post_report {A} (post : nat -> option A) : option A := post_attempts post 1 MAX_ATTEMPTS.

(** ** What a tick emits *)

Lemma f_as_u_nonneg w x : 0 <= w -> 0 <= f_as_u w x.
Proof.
  intros Hw. pose proof (Z.pow_pos_nonneg 2 w). destruct x as [|[]| |[] m e]; cbn [f_as_u]; try lia.
  apply Z.min_glb; [lia|]. by apply Z.shiftl_nonneg.
Qed.

Section TickFits.
Context {SBB : Type}.
Implicit Types n : Node SBB.

(** A decision is the one of [tick_tokens], with the tokens of the bucket. *)
Lemma tick_peer_tokens c now n g peer : 0 <= g_max_tokens_per_peer_per_tick (nd_gen n) ->
  exists avail, 0 <= avail /\ (tick_peer c now n g peer).2 = tick_tokens n peer avail /\
    fill_rate c (tick_peer c now n g peer).1 = fill_rate c g /\
    ((tick_peer c now n g peer).2 <> 0 -> fle (fill_rate c g peer) f_zero = false).
Proof.
  intros Hmax. unfold tick_peer, tick_tokens. fold (headroom n peer).
  assert (Hh : 0 <= headroom n peer) by (unfold headroom, sat_sub; lia).
  destruct (fle (fill_rate c g peer) f_zero) eqn:Hr.
  { exists 0. split_and!; [done| |done|done]. cbn [snd]. destruct (Z.eqb_spec (headroom n peer) 0); [done|]. unfold u_max. lia. }
  destruct (Z.eqb_spec (headroom n peer) 0) as [H0|H0]; [by exists 0|].
  unfold refill_and_take. cbv zeta. cbn [fst snd]. eexists. split_and!; [|reflexivity|reflexivity|done]. by apply f_as_u_nonneg.
Qed.

Lemma tick_loop_plan c now n : 0 <= g_max_tokens_per_peer_per_tick (nd_gen n) -> forall peers g plan,
  exists work, work.*1 = peers /\ Forall (fun pa => 0 <= pa.2) work /\ (tick_loop c now n peers g plan).2 = plan ++ tick_plan n work /\
    Forall (fun pt => fle (fill_rate c g pt.1) f_zero = false) (tick_plan n work).
Proof.
  intros Hmax. induction peers as [|peer peers IH]; intros g plan; cbn [tick_loop].
  { exists []. split_and!; [done|constructor|by rewrite app_nil_r|constructor]. }
  destruct (tick_peer_tokens c now n g peer Hmax) as (avail & Hav & Htok & Hfr & Hpos).
  destruct (tick_peer c now n g peer) as [g' tokens]. cbn [fst snd] in *.
  destruct (IH g' (if tokens =? 0 then plan else plan ++ [(peer, tokens)])) as (work & Hw & Hnn & Hplan & Hrate).
  exists ((peer, avail) :: work). split_and!; [cbn; by rewrite Hw|by constructor| |].
  - rewrite Hplan. unfold tick_plan. cbn [map]. rewrite filter_cons. cbn [fst snd]. rewrite <- Htok.
    destruct (Z.eqb_spec tokens 0) as [Ht|Ht]; [by rewrite decide_False by tauto|]. rewrite decide_True by done. by rewrite <- app_assoc.
  - unfold tick_plan in *. cbn [map]. rewrite filter_cons. cbn [fst snd]. rewrite <- Htok, Hfr in *.
    case_decide; [constructor; [cbn [fst]; auto|]|]; exact Hrate.
Qed.
End TickFits.

(** Whatever rates the controller assigns and whatever the buckets hold, a
    tick decides to emit only to peers of the registry whose rate is above
    zero, at least one key and at most the configured number to each, and the
    keys in stock, those waiting for an ACK and the new ones fit the buffer. *)
Theorem tick_fits_buffers {SBB} `{HashOrder} (n : Node SBB) c now g peer tokens :
  0 <= g_max_tokens_per_peer_per_tick (nd_gen n) -> (peer, tokens) ∈ (tick_once c now n g).2 ->
  is_Some (orr_map (nd_reg n) !! peer) /\ fle (fill_rate c g peer) f_zero = false /\
  1 <= tokens <= g_max_tokens_per_peer_per_tick (nd_gen n) /\
  enc_len (for_peer (dk_pool (nd_d n)) peer) + pending_count (ack_store n) peer + tokens <= g_capacity (nd_gen n).
Proof.
  intros Hmax Hin. unfold tick_once in Hin.
  destruct (tick_loop_plan c now n Hmax (hash_iter (orr_map (nd_reg n))).*1 g []) as (work & Hw & Hnn & Hplan & Hrate).
  rewrite Hplan in Hin. cbn [app] in Hin. rewrite Forall_forall in Hrate. pose proof (Hrate _ Hin) as Hr. cbn [fst] in Hr.
  pose proof (tick_fits_capacity n work peer tokens Hnn Hmax Hin) as [Ht Hcap]. split_and!; [|done|lia|lia|exact Hcap].
  assert (Hp : peer ∈ work.*1).
  { unfold tick_plan in Hin. apply list_elem_of_filter in Hin as [_ ([p a] & [= -> ->] & Hpa)%list_elem_of_fmap].
    apply list_elem_of_fmap. by exists (p, a). }
  rewrite Hw in Hp. apply list_elem_of_fmap in Hp as ([p o] & -> & Hpo). apply hash_iter_elem in Hpo. by exists o.
Qed.

(** ** What the controller makes of a report *)

(** An entry as the registry keeps it: the date is not after the controller's clock. *)
Definition filed (e e' : CommodityDemand) : Prop :=
  cd_level e' = cd_level e /\ cd_capacity e' = cd_capacity e /\ cd_drain_rate e' = cd_drain_rate e /\
  demand_key e' = demand_key e /\ cd_timestamp_ms e' <= cd_timestamp_ms e.

Lemma ingest_entries_all clock id entries : forall i r s,
  Forall (fun e => cd_src_dkms e = id /\ is_well_formed e = true) entries -> NoDup (map demand_key entries) ->
  let '(r', s') := ingest_entries clock i id entries r s in
  s' = mkSummary (is_accepted s + length entries) (is_errors s) /\
  (forall e, e ∈ entries -> exists e', r' !! demand_key e = Some e' /\ filed e e') /\
  (forall k, k ∉ map demand_key entries -> r' !! k = r !! k).
Proof.
  induction entries as [|e entries IH]; intros i r s Hall Hnd; cbn [ingest_entries].
  { split_and!; [destruct s; cbn; f_equal; lia|by intros e ?%not_elem_of_nil|done]. }
  apply Forall_cons in Hall as [[Hsrc Hwf] Hall]. cbn [map] in Hnd. apply NoDup_cons in Hnd as [Hni Hnd].
  rewrite Hsrc, String.eqb_refl, Hwf. cbn [negb]. cbv zeta.
  set (e1 := if clock i <? cd_timestamp_ms e then with_timestamp (clock i) e else e).
  assert (He1 : filed e e1) by (unfold e1, filed; destruct (Z.ltb_spec (clock i) (cd_timestamp_ms e)); split_and!; try done; cbn; lia).
  assert (Hk : demand_key e1 = demand_key e) by apply He1. rewrite Hk.
  specialize (IH (S i) (<[demand_key e := e1]> r) (mkSummary (S (is_accepted s)) (is_errors s)) Hall Hnd).
  destruct (ingest_entries _ _ _ _ _ _) as [r' s']. destruct IH as (I1 & I2 & I3). split_and!.
  - rewrite I1. cbn. f_equal. lia.
  - intros e' [->|Hin]%elem_of_cons; [|by apply I2]. exists e1. split; [|done]. rewrite I3 by done. by rewrite lookup_insert_eq.
  - intros k Hk'. cbn [map] in Hk'. rewrite not_elem_of_cons in Hk'. destruct Hk' as [Hne Hk']. rewrite I3 by done.
    by rewrite lookup_insert_ne.
Qed.

Section Report.
Context {SBB : Type}.
Implicit Types n : Node SBB.

Definition report_grade (g : GenRates) (peer : string) : KeyGrade := if default true (qkd_available g peer) then GradeQkd else GradePqc.
Definition report_entry (me : string) (now_ms : Z) n (g : GenRates) (t : DemandTracker) (peer : string) : CommodityDemand :=
  mkDemand me peer (f_of_Z (enc_len (for_peer (dk_pool (nd_d n)) peer))) (f_of_Z (g_capacity (nd_gen n))) (tracker_rate peer now_ms t).2 now_ms (report_grade g peer).

Lemma tracker_rate_other peer q now_ms t : peer <> q -> (tracker_rate q now_ms (tracker_rate peer now_ms t).1).2 = (tracker_rate q now_ms t).2.
Proof.
  intros Hne. unfold tracker_rate at 2. destruct (dt_counters t !! peer) as [c|]; [|done]. cbn [ewma_rate fst].
  unfold tracker_rate. cbn [dt_counters with_counters]. rewrite lookup_insert_ne by done. destruct (dt_counters t !! q); done.
Qed.

Lemma demand_entries_map me now_ms n g peers : forall t, NoDup peers ->
  (demand_entries me (g_capacity (nd_gen n)) now_ms n g peers t).2 = map (report_entry me now_ms n g t) peers.
Proof.
  induction peers as [|peer peers IH]; intros t Hnd; [done|]. apply NoDup_cons in Hnd as [Hni Hnd]. cbn [demand_entries map].
  unfold report_entry at 1. destruct (tracker_rate peer now_ms t) as [t1 drain] eqn:Et. specialize (IH t1 Hnd).
  destruct (demand_entries _ _ _ _ _ _ t1) as [t2 rest]. cbn [snd] in *. f_equal. rewrite IH. apply map_ext_in. intros q Hq%list_elem_of_In.
  unfold report_entry. f_equal. replace t1 with (tracker_rate peer now_ms t).1 by (by rewrite Et). apply tracker_rate_other. by intros ->.
Qed.

Lemma hash_keys_nodup `{HashOrder} {A} (m : gmap string A) : NoDup (hash_iter m).*1.
Proof. rewrite hash_iter_perm. apply NoDup_fst_map_to_list. Qed.

Definition drain_ok (x : f64) : bool := fle f_zero x && is_finite x && fle x MAX_MAGNITUDE.

Lemma report_entry_wf me now_ms n g t peer : me <> ""%string -> peer <> ""%string -> peer <> me ->
  0 < g_capacity (nd_gen n) <= 10 ^ 9 -> enc_len (for_peer (dk_pool (nd_d n)) peer) <= 10 ^ 9 -> drain_ok (tracker_rate peer now_ms t).2 = true ->
  is_well_formed (report_entry me now_ms n g t peer) = true.
Proof.
  intros Hme Hp Hne Hcap Hlen Hd. unfold drain_ok in Hd. rewrite !andb_true_iff in Hd. destruct Hd as [[Hd1 Hd2] Hd3].
  assert (Hl0 : 0 <= enc_len (for_peer (dk_pool (nd_d n)) peer)) by (unfold enc_len, buf_len, zlen; lia).
  unfold is_well_formed, report_entry. cbn [cd_capacity cd_level cd_drain_rate cd_src_dkms cd_dst_dkms]. change f_zero with (f_of_Z 0).
  unfold MAX_MAGNITUDE. rewrite f_of_Z_lt, !f_of_Z_le, !f_of_Z_finite by lia. change (f_of_Z 0) with f_zero. fold MAX_MAGNITUDE.
  rewrite Hd1, Hd2, Hd3, (proj2 (Z.ltb_lt _ _)), !(proj2 (Z.leb_le _ _)) by lia. cbn [andb].
  rewrite !(proj2 (String.eqb_neq _ _)) by congruence. done.
Qed.
End Report.

(** C25: the report of a DKMS is taken whole by the controller, and for every
    peer of its registry the demand the solver reads afterwards is the stock,
    the capacity and the smoothed rate of that peer, under the grade of keys
    that can be routed to it. *)
Theorem report_is_filed {SBB} `{HashOrder} (n : Node SBB) me now_ms g t clock r :
  me <> ""%string -> orr_map (nd_reg n) !! ""%string = None -> 0 < g_capacity (nd_gen n) <= 10 ^ 9 ->
  (forall peer, is_Some (orr_map (nd_reg n) !! peer) -> enc_len (for_peer (dk_pool (nd_d n)) peer) <= 10 ^ 9 /\ drain_ok (tracker_rate peer now_ms t).2 = true) ->
  let '(r', summary) := ingest clock (build_demand_report me now_ms n g t).2 r in
  is_errors summary = [] /\
  forall peer, is_Some (orr_map (nd_reg n) !! peer) -> peer <> me ->
    exists e, r' !! (me, peer, report_grade g peer) = Some e /\ cd_level e = f_of_Z (enc_len (for_peer (dk_pool (nd_d n)) peer)) /\
      cd_capacity e = f_of_Z (g_capacity (nd_gen n)) /\ cd_drain_rate e = (tracker_rate peer now_ms t).2 /\ cd_timestamp_ms e <= now_ms.
Proof.
  intros Hme Hempty Hcap Hall. unfold build_demand_report. set (peers := filter _ _).
  assert (Hin : forall p, p ∈ peers <-> p <> me /\ is_Some (orr_map (nd_reg n) !! p)).
  { intros p. unfold peers. rewrite list_elem_of_filter. apply and_iff_compat_l. rewrite list_elem_of_fmap. split.
    - intros ([q o] & -> & Hq%hash_iter_elem). by exists o.
    - intros [o Ho]. exists (p, o). split; [done|by apply hash_iter_elem]. }
  assert (Hnd : NoDup peers) by apply NoDup_filter, hash_keys_nodup.
  pose proof (demand_entries_map me now_ms n g peers t Hnd) as He. destruct (demand_entries _ _ _ _ _ _ t) as [t1 entries].
  cbn [snd] in *. subst entries. unfold ingest. cbn [dr_dkms_id dr_entries].
  pose proof (ingest_entries_all clock me (map (report_entry me now_ms n g t) peers) 0 r (mkSummary 0 [])) as Hi.
  destruct (ingest_entries _ _ _ _ _ _) as [r' s']. destruct Hi as (-> & Hfiled & _).
  - apply Forall_map, Forall_forall. intros p [Hpm Hp]%Hin. split; [done|]. destruct (Hall p Hp) as [Hl Hd].
    apply report_entry_wf; try done. intros ->. rewrite Hempty in Hp. by destruct Hp.
  - rewrite map_map. apply (NoDup_fmap_2_strong (fun p => demand_key (report_entry me now_ms n g t p))); [|exact Hnd].
    intros p q _ _. unfold demand_key, report_entry. cbn. congruence.
  - split; [done|]. intros peer Hp Hpm. destruct (Hfiled (report_entry me now_ms n g t peer)) as (e & Hl & F1 & F2 & F3 & _ & F5).
    { apply list_elem_of_fmap. exists peer. split; [done|by apply Hin]. }
    exists e. split_and!; done.
Qed.

(** ** Strict requests *)

(** C26: after a poll, a strict request to a peer the reply names is refused
    beforehand exactly when no path of QKD links joins the two QKCs in the
    controller's graph. *)
Theorem strict_refused_iff_no_qkd_path {SBB : Type} `{Libm, HashOrder, !MapOrder (string * BufferRole)} ops snap me v peers g (d : Delivery.Dkms SBB) peer :
  let t := st_topo (sdn_run ops) in
  get_rate t snap me = Some (v, peers) -> is_Some (peers !! peer) ->
  (forall p, dk_qkd_avail d p = qkd_available (refresh_rates (Some peers) g) p) ->
  strict_unreachable d (Some StrictQkd) peer = true <->
  ~ exists a b, qkc_of_dkms t me = Some a /\ qkc_of_dkms t peer = Some b /\ rtc (qkd_edge t) a b.
Proof.
  cbv zeta. intros Hget [pr Hpr] Havail. destruct (rate_reply_matches_graph ops snap me v peers peer pr Hget Hpr) as [<- _].
  unfold strict_unreachable, level_for. cbn [default from_option]. rewrite bool_decide_eq_true_2 by done. cbn [andb].
  rewrite bool_decide_eq_true, Havail. unfold qkd_available. cbn [refresh_rates gr_qkd_avail]. rewrite lookup_fmap, Hpr. cbn.
  destruct (pr_qkd_available pr); naive_solver.
Qed.

(** ** Instances *)

Definition sample_rate_cfg : RateCfg := mkRateCfg f_zero f_zero (f_of_Z 2).
Definition sample_rates : GenRates :=
  mkGenRates {[ "dkms-B"%string := f_of_Z 10 ]} {[ "dkms-B"%string := true ]} {[ "dkms-B"%string := mkBs f_zero 0 ]}.
Definition sample_tracker : DemandTracker := tracker_record "dkms-B" 12 500 (tracker_new DEFAULT_ALPHA DEFAULT_WINDOW_MS).

Lemma tick_fits_buffers_witness :
  ("dkms-B"%string, 10) ∈ (@tick_once unit map_order sample_rate_cfg NANOS_PER_SEC emit_a sample_rates).2 /\
  enc_len (for_peer (dk_pool (nd_d emit_a)) "dkms-B") + pending_count (ack_store emit_a) "dkms-B" + 10 <= g_capacity (nd_gen emit_a).
Proof.
  assert (Hin : ("dkms-B"%string, 10) ∈ (@tick_once unit map_order sample_rate_cfg NANOS_PER_SEC emit_a sample_rates).2).
  { apply (bool_decide_unpack _). vm_compute. exact I. }
  split; [exact Hin|].
  apply (@tick_fits_buffers unit map_order emit_a sample_rate_cfg NANOS_PER_SEC sample_rates "dkms-B" 10); [vm_compute; discriminate|exact Hin].
Defined.

Lemma report_is_filed_witness : exists e,
  (ingest (fun _ => 10000) (@build_demand_report unit map_order "dkms-A" 5500 emit_a sample_rates sample_tracker).2 ∅).1 !! ("dkms-A", "dkms-B", GradeQkd)%string = Some e /\
  cd_drain_rate e = (tracker_rate "dkms-B" 5500 sample_tracker).2.
Proof.
  pose proof (@report_is_filed unit map_order emit_a "dkms-A" 5500 sample_rates sample_tracker (fun _ => 10000) ∅) as Hr.
  destruct (ingest _ _ _) as [r' summary]. destruct Hr as [_ Hf].
  - done.
  - vm_compute. reflexivity.
  - vm_compute. intuition discriminate.
  - intros peer [o Ho]. assert (Hp : peer = "dkms-B"%string).
    { destruct (decide (peer = "dkms-B"%string)) as [->|Hne]; [done|]. exfalso.
      change (orr_map (nd_reg emit_a)) with ({["dkms-B"%string := "orr_2"%string]} : gmap string string) in Ho. by rewrite lookup_singleton_ne in Ho. }
    rewrite Hp. split; [vm_compute; discriminate|vm_compute; reflexivity].
  - destruct (Hf "dkms-B"%string) as (e & He & _ & _ & Hd & _); [vm_compute; by eexists|done|]. exists e. split; [exact He|exact Hd].
Defined.

Definition polled_node (peers : gmap string PeerRate) : Delivery.Dkms unit :=
  let d := nd_d emit_a in
  Delivery.mkDkms (dk_cfg d) (dk_pool d) (dk_pending d) (dk_adm d) (dk_peers d) (dk_has_client d)
    (qkd_available (refresh_rates (Some peers) sample_rates)) (dk_ack d) (dk_demand d) (dk_corrupt d).

Lemma strict_refused_iff_no_qkd_path_witness : exists v peers,
  @get_rate (list_order (string * BufferRole)) sample_topo sample_snapshot "d1" = Some (v, peers) /\
  (strict_unreachable (polled_node peers) (Some StrictQkd) "d2" = true <->
   ~ exists a b, qkc_of_dkms sample_topo "d1" = Some a /\ qkc_of_dkms sample_topo "d2" = Some b /\ rtc (qkd_edge sample_topo) a b).
Proof.
  assert (Hg : exists v peers, @get_rate (list_order (string * BufferRole)) sample_topo sample_snapshot "d1" = Some (v, peers) /\
    is_Some (peers !! "d2"%string)) by (eexists _, _; split; [vm_compute; reflexivity|vm_compute; by eexists]).
  destruct Hg as (v & peers & Hg & Hp). exists v, peers. split; [exact Hg|].
  exact (@strict_refused_iff_no_qkd_path unit flat_libm map_order (list_order (string * BufferRole)) sample_ops sample_snapshot "d1" v peers sample_rates
    (polled_node peers) "d2" Hg Hp (fun _ => eq_refl)).
Defined.
