(* ===== verification/EtsiBinary.v ===== *)
(** * The binary form of key answers (etsi/src/binary.rs)

    What [enc_keys] and [dec_keys] answer, and the body of [dec_keys], when the
    client asks for [application/octet-stream].  A slice out of range panics.

    Shown: unpacking gives back what was packed, whatever follows it; on
    arbitrary bytes it never panics and what it returns fits the input. *)

From Stdlib Require Import ZArith Lia.
From S2P Require Import Prelude.

Definition MAGIC : bytes := [81; 75; 68; 66].
Definition VERSION : Z := 1.
Definition KEYS_HDR_LEN : Z := 11.
Definition IDS_HDR_LEN : Z := 9.

Inductive BinaryError := BadMagic | BadVersion (v : Z) | Truncated | BadUuid.

Definition key_bytes_of (key_size_bits : Z) : Z := (key_size_bits + 7) / 8.

(** ** Packing *)

Definition pack_keys (keys : list (bytes * bytes)) (key_size_bits : Z) : bytes :=
  MAGIC ++ [VERSION] ++ le_bytes 2 key_size_bits ++ le_bytes 4 (as_u 32 (zlen keys)) ++ concat (map (fun k => k.1 ++ k.2) keys).

Definition pack_key_ids (ids : list bytes) : bytes :=
  MAGIC ++ [VERSION] ++ le_bytes 4 (as_u 32 (zlen ids)) ++ concat ids.

(** ** Unpacking *)

(** [buf[a..b]]. *)
Definition slice (buf : bytes) (a b : Z) : res BinaryError bytes :=
  if (a <=? b) && (b <=? zlen buf) then Ok (take (Z.to_nat (b - a)) (drop (Z.to_nat a) buf)) else Panic.

(** [Uuid::from_slice]: sixteen bytes. *)
Definition uuid_from_slice (b : bytes) : res BinaryError bytes := if zlen b =? 16 then Ok b else Err BadUuid.

Definition check_header (buf : bytes) (hdr_len : Z) : res BinaryError unit :=
  if zlen buf <? hdr_len then Err Truncated else
  let* m := slice buf 0 4 in
  if negb (bool_decide (m = MAGIC)) then Err BadMagic else
  let* v := slice buf 4 5 in
  if negb (bool_decide (v = [VERSION])) then Err (BadVersion (nth 0 v 0)) else Ok tt.

Fixpoint unpack_keys_loop (n : nat) (buf : bytes) (key_bytes cur : Z) : res BinaryError (list (bytes * bytes)) :=
  match n with
  | O => Ok []
  | S n =>
      let* idb := slice buf cur (cur + 16) in
      let* id := uuid_from_slice idb in
      let* mat := slice buf (cur + 16) (cur + 16 + key_bytes) in
      let* rest := unpack_keys_loop n buf key_bytes (cur + 16 + key_bytes) in
      Ok ((id, mat) :: rest)
  end.

Definition unpack_keys (buf : bytes) : res BinaryError (list (bytes * bytes)) :=
  let* _ := check_header buf KEYS_HDR_LEN in
  let* bits := slice buf 5 7 in
  let key_bytes := key_bytes_of (le_val bits) in
  let* cnt := slice buf 7 11 in
  let count := le_val cnt in
  if zlen buf <? KEYS_HDR_LEN + count * (16 + key_bytes) then Err Truncated
  else unpack_keys_loop (Z.to_nat count) buf key_bytes KEYS_HDR_LEN.

Fixpoint unpack_ids_loop (n : nat) (buf : bytes) (cur : Z) : res BinaryError (list bytes) :=
  match n with
  | O => Ok []
  | S n =>
      let* idb := slice buf cur (cur + 16) in
      let* id := uuid_from_slice idb in
      let* rest := unpack_ids_loop n buf (cur + 16) in
      Ok (id :: rest)
  end.

Definition unpack_key_ids (buf : bytes) : res BinaryError (list bytes) :=
  let* _ := check_header buf IDS_HDR_LEN in
  let* cnt := slice buf 5 9 in
  let count := le_val cnt in
  if zlen buf <? IDS_HDR_LEN + count * 16 then Err Truncated
  else unpack_ids_loop (Z.to_nat count) buf IDS_HDR_LEN.

(** ** Slices *)

Lemma slice_app pre x post a b : a = zlen pre -> b = a + zlen x -> slice (pre ++ x ++ post) a b = Ok x.
Proof.
  intros -> ->. unfold slice. rewrite !zlen_app. pose proof (zlen_nonneg pre). pose proof (zlen_nonneg x). pose proof (zlen_nonneg post).
  rewrite !(proj2 (Z.leb_le _ _)) by lia. cbn [andb]. f_equal. replace (zlen pre + zlen x - zlen pre) with (zlen x) by lia.
  unfold zlen. rewrite !Nat2Z.id, drop_app_length, take_app_length. done.
Qed.

Lemma slice_in buf a b : 0 <= a <= b -> b <= zlen buf -> exists x, slice buf a b = Ok x /\ zlen x = b - a.
Proof.
  intros Hab Hb. unfold slice. rewrite !(proj2 (Z.leb_le _ _)) by lia. cbn [andb]. eexists. split; [done|].
  unfold zlen in *. rewrite length_take, length_drop. lia.
Qed.

(** ** Round trips *)

Lemma header_ok rest hdr_len : hdr_len <= 5 + zlen rest -> check_header (MAGIC ++ [VERSION] ++ rest) hdr_len = Ok tt.
Proof.
  intros Hh. unfold check_header. rewrite (proj2 (Z.ltb_ge _ _)) by (rewrite !zlen_app; change (zlen MAGIC) with 4; change (zlen [VERSION]) with 1; lia).
  rewrite (slice_app [] MAGIC ([VERSION] ++ rest)) by done. cbn [res_bind]. rewrite bool_decide_eq_true_2 by done. cbn [negb].
  by rewrite (slice_app MAGIC [VERSION] rest).
Qed.

Lemma le_val_count n : 0 <= n < 2 ^ 32 -> le_val (le_bytes 4 (as_u 32 n)) = n.
Proof. intros Hn. unfold as_u. rewrite Z.mod_small by done. apply le_val_le_bytes. exact Hn. Qed.

Lemma unpack_keys_loop_ok kb keys : 0 <= kb -> forall pre post cur,
  Forall (fun k => zlen k.1 = 16 /\ zlen k.2 = kb) keys -> cur = zlen pre ->
  unpack_keys_loop (length keys) (pre ++ concat (map (fun k => k.1 ++ k.2) keys) ++ post) kb cur = Ok keys.
Proof.
  intros Hkb. induction keys as [|[id mat] keys IH]; intros pre post cur Hall Hcur; [done|].
  apply Forall_cons in Hall as [[Hid Hm] Hall]. cbn [fst snd length map concat unpack_keys_loop] in *.
  rewrite <- !app_assoc. rewrite (slice_app pre id) by lia. cbn [res_bind]. unfold uuid_from_slice. rewrite Hid. cbn [Z.eqb Pos.eqb res_bind].
  rewrite (app_assoc pre id), (slice_app (pre ++ id) mat) by (rewrite ?zlen_app; lia). cbn [res_bind].
  rewrite (app_assoc (pre ++ id) mat), IH; [done|done|rewrite !zlen_app; lia].
Qed.

Lemma unpack_ids_loop_ok ids : forall pre post cur, Forall (fun id => zlen id = 16) ids -> cur = zlen pre ->
  unpack_ids_loop (length ids) (pre ++ concat ids ++ post) cur = Ok ids.
Proof.
  induction ids as [|id ids IH]; intros pre post cur Hall Hcur; [done|]. apply Forall_cons in Hall as [Hid Hall].
  cbn [length concat unpack_ids_loop]. rewrite <- app_assoc. rewrite (slice_app pre id) by lia. cbn [res_bind].
  unfold uuid_from_slice. rewrite Hid. cbn [Z.eqb Pos.eqb res_bind]. rewrite (app_assoc pre id), IH; [done|done|rewrite zlen_app; lia].
Qed.

Lemma zlen_keys kb keys : Forall (fun k : bytes * bytes => zlen k.1 = 16 /\ zlen k.2 = kb) keys ->
  zlen (concat (map (fun k => k.1 ++ k.2) keys)) = zlen keys * (16 + kb).
Proof. induction 1 as [|k keys [H1 H2] _ IH]; [done|]. cbn [map concat]. rewrite !zlen_app, zlen_cons. lia. Qed.

Lemma zlen_ids ids : Forall (fun id : bytes => zlen id = 16) ids -> zlen (concat ids) = zlen ids * 16.
Proof. induction 1 as [|id ids H1 _ IH]; [done|]. cbn [concat]. rewrite zlen_app, zlen_cons. lia. Qed.

(** An answer that was packed unpacks to the same identifiers and keys, and
    so does a list of identifiers, whatever bytes follow. *)
Theorem binary_roundtrip keys ids bits tail :
  0 <= bits < 2 ^ 16 -> zlen keys < 2 ^ 32 -> zlen ids < 2 ^ 32 ->
  Forall (fun k => zlen k.1 = 16 /\ zlen k.2 = key_bytes_of bits) keys -> Forall (fun id => zlen id = 16) ids ->
  unpack_keys (pack_keys keys bits ++ tail) = Ok keys /\ unpack_key_ids (pack_key_ids ids ++ tail) = Ok ids.
Proof.
  intros Hbits Hk Hi Hkeys Hids. assert (Hkb : 0 <= key_bytes_of bits) by (apply Z.div_pos; lia). pose proof (zlen_nonneg keys). pose proof (zlen_nonneg ids).
  pose proof (zlen_nonneg tail). split.
  - unfold unpack_keys, pack_keys. rewrite <- !app_assoc.
    rewrite header_ok by (rewrite !zlen_app, !zlen_le_bytes; unfold KEYS_HDR_LEN; pose proof (zlen_nonneg (concat (map (fun k => k.1 ++ k.2) keys))); lia).
    cbn [res_bind]. set (body := concat _).
    assert (E : forall x, MAGIC ++ [VERSION] ++ le_bytes 2 bits ++ x = (MAGIC ++ [VERSION]) ++ le_bytes 2 bits ++ x) by done.
    rewrite E, (slice_app (MAGIC ++ [VERSION]) (le_bytes 2 bits)) by (rewrite ?zlen_le_bytes; done). cbn [res_bind].
    rewrite (le_val_le_bytes 2) by done. set (pre := (MAGIC ++ [VERSION]) ++ le_bytes 2 bits).
    rewrite (app_assoc (MAGIC ++ [VERSION])). fold pre.
    rewrite (slice_app pre (le_bytes 4 _)) by (unfold pre; rewrite ?zlen_app, ?zlen_le_bytes; done). cbn [res_bind].
    rewrite le_val_count by lia. rewrite (proj2 (Z.ltb_ge _ _)).
    + rewrite (app_assoc pre). replace (Z.to_nat (zlen keys)) with (length keys) by (unfold zlen; lia).
      apply unpack_keys_loop_ok; [done|done|]. unfold pre. by rewrite !zlen_app, !zlen_le_bytes.
    + unfold pre. rewrite !zlen_app, !zlen_le_bytes. unfold body. rewrite (zlen_keys (key_bytes_of bits)) by done.
      change (zlen MAGIC) with 4. change (zlen [VERSION]) with 1. unfold KEYS_HDR_LEN. lia.
  - unfold unpack_key_ids, pack_key_ids. rewrite <- !app_assoc.
    rewrite header_ok by (rewrite !zlen_app, !zlen_le_bytes; unfold IDS_HDR_LEN; pose proof (zlen_nonneg (concat ids)); lia). cbn [res_bind].
    rewrite (app_assoc MAGIC), (slice_app (MAGIC ++ [VERSION]) (le_bytes 4 _)) by (rewrite ?zlen_le_bytes; done). cbn [res_bind].
    rewrite le_val_count by lia. rewrite (proj2 (Z.ltb_ge _ _)).
    + rewrite (app_assoc (MAGIC ++ [VERSION])). replace (Z.to_nat (zlen ids)) with (length ids) by (unfold zlen; lia).
      apply unpack_ids_loop_ok; [done|]. by rewrite !zlen_app, zlen_le_bytes.
    + rewrite !zlen_app, zlen_le_bytes, zlen_ids by done. change (zlen MAGIC) with 4. change (zlen [VERSION]) with 1. unfold IDS_HDR_LEN. lia.
Qed.

Lemma binary_roundtrip_witness :
  unpack_keys (pack_keys [(replicate 16 1, replicate 32 7); (replicate 16 2, replicate 32 9)] 256 ++ [1; 2; 3])
  = Ok [(replicate 16 1, replicate 32 7); (replicate 16 2, replicate 32 9)].
Proof.
  apply (binary_roundtrip [(replicate 16 1, replicate 32 7); (replicate 16 2, replicate 32 9)] [replicate 16 1] 256 [1; 2; 3]);
    [lia|done|done|repeat constructor|repeat constructor].
Defined.

(** ** Arbitrary bytes *)

Lemma check_header_safe buf h : 5 <= h -> check_header buf h <> Panic /\ (check_header buf h = Ok tt -> h <= zlen buf).
Proof.
  intros Hh. unfold check_header. destruct (Z.ltb_spec (zlen buf) h); [done|].
  destruct (slice_in buf 0 4) as (x & -> & _); [lia|lia|]. cbn [res_bind]. destruct (negb _); [done|].
  destruct (slice_in buf 4 5) as (y & -> & _); [lia|lia|]. cbn [res_bind]. destruct (negb _); done.
Qed.

Lemma unpack_keys_loop_safe n buf kb : 0 <= kb -> forall cur, 0 <= cur -> cur + Z.of_nat n * (16 + kb) <= zlen buf ->
  exists keys, unpack_keys_loop n buf kb cur = Ok keys /\ length keys = n.
Proof.
  intros Hkb. induction n as [|n IH]; intros cur Hc Hl; cbn [unpack_keys_loop]; [by eexists|].
  destruct (slice_in buf cur (cur + 16)) as (x & -> & Hx); [lia|lia|]. cbn [res_bind]. unfold uuid_from_slice.
  rewrite (proj2 (Z.eqb_eq _ _)) by lia. cbn [res_bind].
  destruct (slice_in buf (cur + 16) (cur + 16 + kb)) as (y & -> & _); [lia|lia|]. cbn [res_bind].
  destruct (IH (cur + 16 + kb)) as (keys & -> & Hn); [lia|lia|]. cbn [res_bind]. eexists. split; [done|]. cbn. lia.
Qed.

Lemma unpack_ids_loop_safe n buf : forall cur, 0 <= cur -> cur + Z.of_nat n * 16 <= zlen buf ->
  exists ids, unpack_ids_loop n buf cur = Ok ids /\ length ids = n.
Proof.
  induction n as [|n IH]; intros cur Hc Hl; cbn [unpack_ids_loop]; [by eexists|].
  destruct (slice_in buf cur (cur + 16)) as (x & -> & Hx); [lia|lia|]. cbn [res_bind]. unfold uuid_from_slice.
  rewrite (proj2 (Z.eqb_eq _ _)) by lia. cbn [res_bind].
  destruct (IH (cur + 16)) as (ids & -> & Hn); [lia|lia|]. cbn [res_bind]. eexists. split; [done|]. cbn. lia.
Qed.

Lemma le_val_nonneg l : wf_bytes l -> 0 <= le_val l.
Proof. induction 1 as [|b l Hb _ IH]; cbn; [lia|]. unfold is_u8 in Hb. lia. Qed.

Lemma slice_wf buf a b x : wf_bytes buf -> slice buf a b = Ok x -> wf_bytes x.
Proof. intros Hw. unfold slice. destruct (_ && _); [|done]. intros [= <-]. by apply Forall_take, Forall_drop. Qed.

(** On arbitrary bytes neither reader panics, and neither returns more
    entries than the input has room for. *)
Theorem binary_unpack_safe buf : wf_bytes buf ->
  unpack_keys buf <> Panic /\ unpack_key_ids buf <> Panic /\
  (forall keys, unpack_keys buf = Ok keys -> 11 + zlen keys * 16 <= zlen buf) /\
  (forall ids, unpack_key_ids buf = Ok ids -> 9 + zlen ids * 16 <= zlen buf).
Proof.
  intros Hwf.
  assert (Hk : unpack_keys buf <> Panic /\ forall keys, unpack_keys buf = Ok keys -> 11 + zlen keys * 16 <= zlen buf).
  { unfold unpack_keys. destruct (check_header_safe buf KEYS_HDR_LEN) as [Hp Ho]; [done|].
    destruct (check_header buf KEYS_HDR_LEN) as [[]|e|]; [|done|done]. specialize (Ho eq_refl). unfold KEYS_HDR_LEN in *. cbn [res_bind].
    destruct (slice_in buf 5 7) as (x & Hx & _); [lia|lia|]. destruct (slice_in buf 7 11) as (y & Hy & _); [lia|lia|]. rewrite Hx, Hy. cbn [res_bind].
    pose proof (le_val_nonneg x (slice_wf _ _ _ _ Hwf Hx)). pose proof (le_val_nonneg y (slice_wf _ _ _ _ Hwf Hy)).
    assert (0 <= key_bytes_of (le_val x)) by (apply Z.div_pos; lia). destruct (Z.ltb_spec (zlen buf) (11 + le_val y * (16 + key_bytes_of (le_val x)))); [done|].
    destruct (unpack_keys_loop_safe (Z.to_nat (le_val y)) buf (key_bytes_of (le_val x)) ltac:(done) 11) as (keys & -> & Hn); [lia|lia|].
    split; [done|]. intros ? [= <-]. unfold zlen at 1. rewrite Hn. nia. }
  assert (Hi : unpack_key_ids buf <> Panic /\ forall ids, unpack_key_ids buf = Ok ids -> 9 + zlen ids * 16 <= zlen buf).
  { unfold unpack_key_ids. destruct (check_header_safe buf IDS_HDR_LEN) as [Hp Ho]; [done|].
    destruct (check_header buf IDS_HDR_LEN) as [[]|e|]; [|done|done]. specialize (Ho eq_refl). unfold IDS_HDR_LEN in *. cbn [res_bind].
    destruct (slice_in buf 5 9) as (y & Hy & _); [lia|lia|]. rewrite Hy. cbn [res_bind]. pose proof (le_val_nonneg y (slice_wf _ _ _ _ Hwf Hy)).
    destruct (Z.ltb_spec (zlen buf) (9 + le_val y * 16)); [done|].
    destruct (unpack_ids_loop_safe (Z.to_nat (le_val y)) buf 9) as (ids & -> & Hn); [lia|lia|]. split; [done|]. intros ? [= <-]. unfold zlen at 1. rewrite Hn. lia. }
  tauto.
Qed.

Lemma binary_unpack_safe_witness : unpack_keys [81; 75; 68; 66; 1; 0; 1; 255; 255; 255; 255] <> Panic.
Proof. apply (binary_unpack_safe [81; 75; 68; 66; 1; 0; 1; 255; 255; 255; 255]). apply (bool_decide_unpack _). vm_compute. exact I. Defined.
