(* ===== verification/Utf8.v ===== *)
(** * Text as the standard library reads it

    [String::from_utf8_lossy], the characters of a string, [char::is_whitespace],
    [str::trim] and [str::find], on the bytes of the text.

    Shown: bytes below 128 pass unchanged and are one character each. *)

From Stdlib Require Import ZArith Lia.
From S2P Require Import Prelude.

Definition in_range (lo hi b : Z) : bool := (lo <=? b) && (b <=? hi).
Definition is_cont (b : Z) : bool := in_range 0x80 0xBF b.

(** The length of the sequence a first byte announces; 0 if none starts with it. *)
Definition lead_width (b : Z) : nat :=
  if b <=? 0x7F then 1 else if in_range 0xC2 0xDF b then 2 else if in_range 0xE0 0xEF b then 3 else if in_range 0xF0 0xF4 b then 4 else 0.

(** The second byte is restricted after four of the first ones. *)
Definition second_ok (b0 b1 : Z) : bool :=
  if b0 =? 0xE0 then in_range 0xA0 0xBF b1 else if b0 =? 0xED then in_range 0x80 0x9F b1
  else if b0 =? 0xF0 then in_range 0x90 0xBF b1 else if b0 =? 0xF4 then in_range 0x80 0x8F b1 else is_cont b1.

(** The first sequence of a text: how many bytes, and whether it is a character. *)
Definition first_seq (b0 : Z) (l : bytes) : nat * bool :=
  match lead_width b0, l with
  | 1%nat, _ => (1%nat, true)
  | S (S n), b1 :: l =>
      if negb (second_ok b0 b1) then (1%nat, false)
      else match n, l with
      | O, _ => (2%nat, true)
      | S n, b2 :: l =>
          if negb (is_cont b2) then (2%nat, false)
          else match n, l with
          | O, _ => (3%nat, true)
          | S _, b3 :: _ => if is_cont b3 then (4%nat, true) else (3%nat, false)
          | S _, [] => (3%nat, false)
          end
      | S _, [] => (2%nat, false)
      end
  | _, _ => (1%nat, false)
  end.

Definition REPLACEMENT : bytes := [0xEF; 0xBF; 0xBD].

Fixpoint lossy_loop (fuel : nat) (l : bytes) : bytes :=
  match fuel, l with
  | S fuel, b :: rest =>
      let '(n, ok) := first_seq b rest in
      (if ok then take n l else REPLACEMENT) ++ lossy_loop fuel (drop n l)
  | _, _ => []
  end.
Definition from_utf8_lossy (l : bytes) : bytes := lossy_loop (length l) l.

(** The characters of valid UTF-8. *)
Fixpoint chars_loop (fuel : nat) (l : bytes) : list bytes :=
  match fuel, l with
  | S fuel, b :: rest => let n := (first_seq b rest).1 in take n l :: chars_loop fuel (drop n l)
  | _, _ => []
  end.
Definition chars (l : bytes) : list bytes := chars_loop (length l) l.

Definition is_whitespace (c : bytes) : bool :=
  match c with
  | [b] => in_range 9 13 b || (b =? 32)
  | [b0; b1] => (b0 =? 0xC2) && ((b1 =? 0x85) || (b1 =? 0xA0))
  | [b0; b1; b2] =>
      (b0 =? 0xE1) && (b1 =? 0x9A) && (b2 =? 0x80)
      || (b0 =? 0xE2) && (b1 =? 0x80) && (in_range 0x80 0x8A b2 || (b2 =? 0xA8) || (b2 =? 0xA9) || (b2 =? 0xAF))
      || (b0 =? 0xE2) && (b1 =? 0x81) && (b2 =? 0x9F)
      || (b0 =? 0xE3) && (b1 =? 0x80) && (b2 =? 0x80)
  | _ => false
  end.

Fixpoint drop_whitespace (l : list bytes) : list bytes :=
  match l with c :: l' => if is_whitespace c then drop_whitespace l' else l | [] => [] end.
Definition trim (s : bytes) : bytes := concat (rev (drop_whitespace (rev (drop_whitespace (chars s))))).

(** [chars().filter(|c| !c.is_whitespace()).collect()]. *)
Definition without_whitespace (s : bytes) : bytes := concat (filter (fun c => is_whitespace c = false) (chars s)).

Fixpoint starts_with (needle s : bytes) : bool :=
  match needle, s with
  | [], _ => true
  | a :: needle, b :: s => (a =? b) && starts_with needle s
  | _ :: _, [] => false
  end.

(** [str::find]: the offset of the first occurrence. *)
Fixpoint find_sub (needle s : bytes) : option nat :=
  if starts_with needle s then Some 0%nat else match s with [] => None | _ :: s => S <$> find_sub needle s end.

(** ** ASCII *)

Definition ascii_text (s : bytes) : Prop := Forall (fun b => 0 <= b <= 127) s.

Lemma first_seq_ascii b l : 0 <= b <= 127 -> first_seq b l = (1%nat, true).
Proof. intros Hb. unfold first_seq, lead_width. by rewrite (proj2 (Z.leb_le _ _)) by lia. Qed.

Lemma lossy_ascii s : ascii_text s -> from_utf8_lossy s = s.
Proof.
  unfold from_utf8_lossy. induction 1 as [|b s Hb _ IH]; [done|]. cbn [length lossy_loop]. rewrite first_seq_ascii by done. cbn [take drop]. rewrite take_0, drop_0, IH. done.
Qed.

Lemma chars_ascii s : ascii_text s -> chars s = map (fun b => [b]) s.
Proof.
  unfold chars. induction 1 as [|b s Hb _ IH]; [done|]. cbn [length chars_loop]. rewrite first_seq_ascii by done. cbn [fst take drop map]. by rewrite take_0, drop_0, IH.
Qed.

Definition ascii_space (b : Z) : bool := in_range 9 13 b || (b =? 32).

Lemma without_whitespace_ascii s : ascii_text s -> without_whitespace s = filter (fun b => ascii_space b = false) s.
Proof.
  intros Hs. unfold without_whitespace. rewrite chars_ascii by done. clear Hs. induction s as [|b s IH]; [done|]. cbn [map].
  rewrite !filter_cons. change (is_whitespace [b]) with (ascii_space b). case_decide; cbn [concat app]; by rewrite IH.
Qed.

Lemma starts_with_app needle s : starts_with needle (needle ++ s) = true.
Proof. induction needle as [|a needle IH]; [done|]. cbn. by rewrite Z.eqb_refl, IH. Qed.

(** A text without the first byte of the needle is skipped. *)
Lemma find_sub_skip a needle pre s : a ∉ pre -> find_sub (a :: needle) (pre ++ (a :: needle) ++ s) = Some (length pre).
Proof.
  induction pre as [|b pre IH]; intros Hni.
  - pose proof (starts_with_app (a :: needle) s) as Hs. cbn [app length]. unfold find_sub. cbn [app] in Hs. by rewrite Hs.
  - apply not_elem_of_cons in Hni as [Hab Hni]. cbn [app find_sub length starts_with]. rewrite (proj2 (Z.eqb_neq _ _)) by done. cbn [andb].
    change (S <$> find_sub (a :: needle) (pre ++ (a :: needle) ++ s) = Some (S (length pre))). by rewrite IH.
Qed.
