(* ===== verification/EtsiAuth.v ===== *)
(** * Who is calling: the HTTP planes of a DKMS (dkms/src/etsi_http/auth.rs, v014.rs, v020.rs, mod.rs)

    The listener attaches the certificate rustls verified; behind a proxy that
    ends TLS, and only where the configuration says so, the certificate comes
    in a header instead.  The name in it decides for whom a request is served.
    What x509-parser says of a certificate is the class [CertParser]; bodies
    are decoded values, and the answer of a route is a status and a text.

    Shown: a certificate put into the header as nginx does is read back bit by
    bit; without the proxy option no header moves an identity; a key is handed
    out only to the SAE its certificate names, and what a refusal says does not
    tell a key that exists from one that does not; on the peer plane only the
    certificate of a registered peer changes anything. *)

From Stdlib Require Import ZArith Lia String Ascii.
From S2P Require Import Prelude Ids Text Utf8 Primitives Security TransportPool PendingStore Signing Delivery E2e Peers Emission.

(** ** Certificates *)

Inductive GeneralName := GnUri (s : string) | GnDns (s : string) | GnOther.
Inductive CertExt := ExtSan (names : list GeneralName) | ExtOther.
(** [pc_common_names]: the common names in order; [None]: not valid text. *)
Record ParsedCert := mkParsed { pc_exts : list CertExt; pc_common_names : list (option string) }.
Class CertParser := parse_cert : bytes -> option ParsedCert.

Definition gn_text (g : GeneralName) : option string := match g with GnUri s | GnDns s => Some s | GnOther => None end.
Definition is_uri (g : GeneralName) : bool := match g with GnUri _ => true | _ => false end.
Definition is_dns (g : GeneralName) : bool := match g with GnDns _ => true | _ => false end.

Fixpoint names_match (pred : GeneralName -> bool) (names : list GeneralName) : option (option string) :=
  match names with [] => None | g :: names => if pred g then Some (gn_text g) else names_match pred names end.
Fixpoint san_first_match (pred : GeneralName -> bool) (exts : list CertExt) : option string :=
  match exts with
  | [] => None
  | ExtSan names :: exts => match names_match pred names with Some r => r | None => san_first_match pred exts end
  | ExtOther :: exts => san_first_match pred exts
  end.

Definition extract_san_identifier `{CertParser} (der : bytes) : option string :=
  cert ← parse_cert der;
  match san_first_match is_uri (pc_exts cert) with
  | Some s => Some s
  | None => match san_first_match is_dns (pc_exts cert) with
    | Some s => Some s
    | None => match pc_common_names cert with cn :: _ => cn | [] => None end
    end
  end.

(** ** The header of the proxy *)

Definition hex_val (b : Z) : option Z :=
  if in_range 48 57 b then Some (b - 48) else if in_range 97 102 b then Some (10 + (b - 97)) else if in_range 65 70 b then Some (10 + (b - 65)) else None.

Fixpoint decode_percent (l : bytes) : bytes :=
  match l with
  | [] => []
  | b :: l1 =>
      match l1 with
      | h :: ((lo :: l3) as l2) =>
          if b =? 37 then
            match hex_val h, hex_val lo with
            | Some hi, Some lo => Z.lor (Z.shiftl hi 4) lo :: decode_percent l3
            | _, _ => b :: decode_percent l1
            end
          else b :: decode_percent l1
      | _ => b :: decode_percent l1
      end
  end.
Definition decode_proxy_header_value (raw : bytes) : bytes := from_utf8_lossy (decode_percent raw).

Definition b64_val (c : Z) : option Z :=
  if in_range 65 90 c then Some (c - 65) else if in_range 97 122 c then Some (26 + (c - 97))
  else if in_range 48 57 c then Some (52 + (c - 48)) else if c =? 43 then Some 62 else if c =? 47 then Some 63 else None.

Fixpoint b64_groups (l : bytes) : option bytes :=
  match l with
  | a :: b :: c :: d :: l =>
      av ← b64_val a; bv ← b64_val b;
      let first := Z.lor (Z.shiftl av 2) (Z.shiftr bv 4) in
      group ← (if c =? 61 then Some [first]
               else cv ← b64_val c;
                 let second := Z.lor (Z.shiftl (Z.land bv 15) 4) (Z.shiftr cv 2) in
                 if d =? 61 then Some [first; second]
                 else dv ← b64_val d; Some [first; second; Z.lor (Z.shiftl (Z.land cv 3) 6) dv]);
      rest ← b64_groups l; Some (group ++ rest)
  | _ => Some []
  end.
Definition base64_decode (s : bytes) : option bytes := if (length s mod 4 =? 0)%nat then b64_groups s else None.

Definition PEM_BEGIN : bytes := as_bytes "-----BEGIN CERTIFICATE-----".
Definition PEM_END : bytes := as_bytes "-----END CERTIFICATE-----".

Definition pem_to_der (pem : bytes) : option bytes :=
  start ← find_sub PEM_BEGIN pem;
  let rest := drop (start + length PEM_BEGIN) pem in
  end_off ← find_sub PEM_END rest;
  base64_decode (without_whitespace (take end_off rest)).

(** ** Identities *)

Record PeerIdentity := mkIdentity { leaf_der : option bytes; san_identifier : option string }.
Definition anonymous : PeerIdentity := mkIdentity None None.
Definition is_authenticated (p : PeerIdentity) : bool := match leaf_der p with Some _ => true | None => false end.

Section Auth.
Context `{CertParser}.

Definition of_leaf (der : bytes) : PeerIdentity := mkIdentity (Some der) (extract_san_identifier der).

(** The certificates rustls verified, the leaf first. *)
Definition from_verified (certs : option (list bytes)) : PeerIdentity :=
  match certs ≫= head with Some leaf => of_leaf leaf | None => anonymous end.

(** The value of the header as text; [None]: absent, or not visible ASCII. *)
Definition from_proxy_header (header : option bytes) : option PeerIdentity :=
  raw ← header; of_leaf <$> pem_to_der (decode_proxy_header_value raw).

Definition select_identity (from_header from_tls : option PeerIdentity) : PeerIdentity :=
  match from_header with Some i => i | None => default anonymous from_tls end.

(** [policy]: the extension of the router, whether to trust the header. *)
Definition resolve_peer_identity (policy : option bool) (tls : option PeerIdentity) (header : option bytes) : PeerIdentity :=
  select_identity (if default false policy then from_proxy_header header else None) tls.
End Auth.

(** [rsplit('/').next()]: what follows the last slash. *)
Fixpoint after_slash (s seg : string) : string :=
  match s with
  | EmptyString => seg
  | String.String c s => if Ascii.eqb c "/"%char then after_slash s s else after_slash s seg
  end.

Definition strip_known (urn scheme s : string) : string :=
  match strip_prefix urn s with
  | Some rest => rest
  | None => match strip_prefix scheme s with Some rest => after_slash rest rest | None => s end
  end.
Definition strip_known_sae_prefix (s : string) : string := strip_known "urn:dkms:sae:" "sae://" s.
Definition strip_known_dkms_prefix (s : string) : string := strip_known "urn:dkms:node:" "dkms://" s.

Definition try_new (s : string) : option string := if is_valid_id s then Some s else None.
Definition sae_id_from_san (s : string) : option SaeId := try_new (strip_known_sae_prefix s).
Definition node_id_from_san (s : string) : option NodeId := try_new (to_ascii_lowercase (strip_known_dkms_prefix s)).

Inductive AuthReject := MissingCertificate | InvalidSan | NoUsableSan.

(** The extractors of both planes: a refusal is a 401. *)
Definition extract (of_san : string -> option string) (pid : PeerIdentity) : res AuthReject string :=
  if negb (is_authenticated pid) then Err MissingCertificate
  else match san_identifier pid with
  | Some s => match of_san s with Some id => Ok id | None => Err InvalidSan end
  | None => Err NoUsableSan
  end.
Definition sae_peer (pid : PeerIdentity) : res AuthReject SaeId := extract sae_id_from_san pid.
Definition dkms_peer (pid : PeerIdentity) : res AuthReject NodeId := extract node_id_from_san pid.

(** ** Answers *)

(** The text of an error is that of the error, or fixed. *)
Inductive ErrorText := OfError (e : DkmsError) | Fixed (s : string) | OfReject (r : AuthReject).
Inductive Response (A : Type) := RespOk (a : A) | RespErr (status : Z) (text : ErrorText).
Arguments RespOk {A} a.
Arguments RespErr {A} status text.

Definition error_to_response {A} (e : DkmsError) : Response A :=
  match e with
  | Unauthenticated => RespErr 401 (OfError e)
  | Forbidden _ _ | UnknownPeerDkms _ => RespErr 403 (OfError e)
  | PendingFull _ => RespErr 503 (OfError e)
  | UnknownSae _ => RespErr 404 (OfError e)
  | BadRequest => RespErr 400 (OfError e)
  | RateLimited _ _ _ => RespErr 429 (OfError e)
  | PendingTake _ => RespErr 404 (Fixed "key not found")
  | TransportBufferEmpty _ | TransportKeyMissing _ _ => RespErr 503 (OfError e)
  | PeerUnreachable | PeerRejected _ _ | PeerAckTimeout _ | OrrSendFailed _ | SdnUnreachable | QkcUnreachable => RespErr 502 (OfError e)
  | PeerOrrMisconfig _ => RespErr 500 (OfError e)
  | SaeBindingLookupFailed _ => RespErr 404 (OfError e)
  | TlsError | Crypto | IoError | CommonError | OtherError => RespErr 500 (Fixed "internal error")
  end.

(** [None]: the process is gone. *)
Definition respond_with {A} (r : res DkmsError A) : option (Response A) :=
  match r with Ok a => Some (RespOk a) | Err e => Some (error_to_response e) | Panic => None end.

(** ** The routes *)

Section Routes.
Context {SBB : Type} `{PeerBuckets SBB} `{KeyDigest}.
Implicit Types d : Dkms SBB.
Implicit Types n : Node SBB.

(** A caller without an identity is answered before the handler runs. *)
Definition with_caller {S A} (caller : res AuthReject string) (s : S) (handler : string -> S * option (Response A)) : S * option (Response A) :=
  match caller with
  | Ok id => handler id
  | Err r => (s, Some (RespErr 401 (OfReject r)))
  | Panic => (s, None)
  end.

Definition with_path_id {S A} (path : string) (s : S) (handler : string -> S * option (Response A)) : S * option (Response A) :=
  match try_new path with Some id => handler id | None => (s, Some (error_to_response BadRequest)) end.

(** [POST] and [GET /api/v1/keys/{slave}/enc_keys]. *)
Definition route_enc_keys (pid : PeerIdentity) (now refilled : Z) (rng : nat -> nat -> SessionKey) (resolve : SaeId -> res DkmsError NodeId)
    (send : NodeId -> ExtKeyContainer -> res DkmsError (list KeyId)) (slave : string) (req : Etsi014KeyRequest) d
    : Dkms SBB * option (Response (list SessionKey)) :=
  with_caller (sae_peer pid) d (fun master => with_path_id slave d (fun slave =>
    let '(d, r) := handle_enc_keys d now refilled rng resolve send master slave req in (d, respond_with r))).

(** [POST] and [GET /api/v1/keys/{master}/dec_keys]. *)
Definition route_dec_keys (pid : PeerIdentity) (now : Z) (master : string) (ids : list KeyId) d : Dkms SBB * option (Response (list SessionKey)) :=
  with_caller (sae_peer pid) d (fun requester => with_path_id master d (fun master =>
    let '(d, r) := handle_dec_keys d now requester master ids in (d, respond_with r))).

Definition require_known_peer n (id : NodeId) : res DkmsError unit :=
  match reg_get (nd_reg n) id with Some _ => Ok tt | None => Err (UnknownPeerDkms id) end.

Definition with_known_peer {A} (pid : PeerIdentity) n (handler : NodeId -> Node SBB * option (Response A)) : Node SBB * option (Response A) :=
  with_caller (dkms_peer pid) n (fun peer =>
    match require_known_peer n peer with Err e => (n, Some (error_to_response e)) | Panic => (n, None) | Ok _ => handler peer end).

(** [POST /kmapi/v1/ext_keys]. *)
Definition route_ext_keys (pid : PeerIdentity) (now : Z) (body : ExtKeyContainer) n : Node SBB * option (Response (list KeyId)) :=
  with_known_peer pid n (fun peer =>
    let '(d, r) := handle_incoming_ext_keys (nd_d n) now peer body in (with_d d n, respond_with r)).

(** [POST /kmapi/v1/ext_keys/ack]. *)
Definition route_ext_keys_ack (pid : PeerIdentity) (ids : list KeyId) n : Node SBB * option (Response Z) :=
  with_known_peer pid n (fun peer =>
    let '(d, matched) := handle_incoming_ack (nd_d n) peer ids in (with_d d n, Some (RespOk matched))).

(** [POST /kmapi/v1/e2e/kem]; every refusal of [respond] is a 400. *)
Definition route_e2e_kem `{TextCodecs, MlKem} (pid : PeerIdentity) (now : Z) (seed : bytes) (draws : list Z) (req : KemRequest) n
    : Node SBB * option (Response KemResponse) :=
  with_known_peer pid n (fun peer =>
    let '(e, r) := respond now seed draws (nd_e2e n) peer req in
    (with_e2e e n, match r with Some (Ok resp) => Some (RespOk resp) | Some (Err _) => Some (error_to_response BadRequest) | _ => None end)).
End Routes.

(** ** What the proxy writes *)

(** The alphabet of RFC 4648 and its encoding. *)
Definition b64_char (v : Z) : Z :=
  if v <? 26 then 65 + v else if v <? 52 then 97 + (v - 26) else if v <? 62 then 48 + (v - 52) else if v =? 62 then 43 else 47.
Fixpoint b64_encode (l : bytes) : bytes :=
  match l with
  | [] => []
  | [a] => [b64_char (a / 4); b64_char (a mod 4 * 16); 61; 61]
  | [a; b] => [b64_char (a / 4); b64_char (a mod 4 * 16 + b / 16); b64_char (b mod 16 * 4); 61]
  | a :: b :: c :: l => b64_char (a / 4) :: b64_char (a mod 4 * 16 + b / 16) :: b64_char (b mod 16 * 4 + c / 64) :: b64_char (c mod 64) :: b64_encode l
  end.

(** Percent-encoding: [esc] says which bytes are escaped besides the sign itself. *)
Definition hex_char (v : Z) : Z := if v <? 10 then 48 + v else 55 + v.
Definition percent_encode (esc : Z -> bool) (s : bytes) : bytes :=
  concat (map (fun b => if (b =? 37) || esc b then [37; hex_char (b / 16); hex_char (b mod 16)] else [b]) s).

(** A check of a property of small numbers by running through them. *)
Lemma below_forall (n : nat) (P : Z -> bool) v : forallb (fun i => P (Z.of_nat i)) (seq 0 n) = true -> 0 <= v < Z.of_nat n -> P v = true.
Proof.
  intros Hall Hv. rewrite forallb_forall in Hall. rewrite <- (Z2Nat.id v) by lia. apply Hall. apply in_seq. lia.
Qed.

Lemma hex_val_char v : 0 <= v < 16 -> hex_val (hex_char v) = Some v.
Proof.
  intros Hv. pose proof (below_forall 16 (fun v => bool_decide (hex_val (hex_char v) = Some v)) v eq_refl Hv) as H. by apply bool_decide_eq_true in H.
Qed.

Lemma hex_byte b : 0 <= b < 256 -> Z.lor (Z.shiftl (b / 16) 4) (b mod 16) = b.
Proof.
  intros Hb. apply Z.eqb_eq. exact (below_forall 256 (fun b => Z.lor (Z.shiftl (b / 16) 4) (b mod 16) =? b) b eq_refl Hb).
Qed.

Lemma decode_percent_plain b l : b <> 37 -> decode_percent (b :: l) = b :: decode_percent l.
Proof. intros Hb. cbn [decode_percent]. destruct l as [|h [|lo l]]; [done|done|]. by rewrite (proj2 (Z.eqb_neq _ _)). Qed.

Lemma decode_percent_encode esc s : wf_bytes s -> decode_percent (percent_encode esc s) = s.
Proof.
  unfold percent_encode. induction 1 as [|b s Hb _ IH]; [done|]. cbn [map concat]. unfold is_u8 in Hb.
  destruct ((b =? 37) || esc b) eqn:He.
  - cbn [app decode_percent Z.eqb Pos.eqb]. rewrite !hex_val_char, hex_byte, IH by (pose proof (Z.mod_pos_bound b 16); try (pose proof (Z.div_pos b 16)); pose proof (Z.div_lt_upper_bound b 16 16); lia). done.
  - apply orb_false_iff in He as [Hne _]. apply Z.eqb_neq in Hne. cbn [app]. by rewrite decode_percent_plain, IH.
Qed.

Lemma b64_val_char v : 0 <= v < 64 -> b64_val (b64_char v) = Some v /\ b64_char v <> 61 /\ 0 <= b64_char v <= 127 /\ b64_char v <> 45 /\ ascii_space (b64_char v) = false.
Proof.
  intros Hv. pose proof (below_forall 64 (fun v => bool_decide (b64_val (b64_char v) = Some v /\ b64_char v <> 61 /\ 0 <= b64_char v <= 127 /\ b64_char v <> 45 /\
    ascii_space (b64_char v) = false)) v eq_refl Hv) as H. by apply bool_decide_eq_true in H.
Qed.

Lemma below_forall2 (n m : nat) (P : Z -> Z -> bool) v w : forallb (fun i => forallb (fun j => P (Z.of_nat i) (Z.of_nat j)) (seq 0 m)) (seq 0 n) = true ->
  0 <= v < Z.of_nat n -> 0 <= w < Z.of_nat m -> P v w = true.
Proof.
  intros Hall Hv Hw. apply (below_forall m (P v)); [|done].
  apply (below_forall n (fun v => forallb (fun j => P v (Z.of_nat j)) (seq 0 m)) v Hall Hv).
Qed.

Lemma b64_bits1 av bv : 0 <= av < 64 -> 0 <= bv < 64 -> Z.lor (Z.shiftl av 2) (Z.shiftr bv 4) = av * 4 + bv / 16.
Proof. intros Ha Hb. apply Z.eqb_eq. apply (below_forall2 64 64 (fun av bv => Z.lor (Z.shiftl av 2) (Z.shiftr bv 4) =? av * 4 + bv / 16)); [by vm_compute|done|done]. Qed.
Lemma b64_bits2 bv cv : 0 <= bv < 64 -> 0 <= cv < 64 -> Z.lor (Z.shiftl (Z.land bv 15) 4) (Z.shiftr cv 2) = bv mod 16 * 16 + cv / 4.
Proof. intros Ha Hb. apply Z.eqb_eq. apply (below_forall2 64 64 (fun bv cv => Z.lor (Z.shiftl (Z.land bv 15) 4) (Z.shiftr cv 2) =? bv mod 16 * 16 + cv / 4)); [by vm_compute|done|done]. Qed.
Lemma b64_bits3 cv dv : 0 <= cv < 64 -> 0 <= dv < 64 -> Z.lor (Z.shiftl (Z.land cv 3) 6) dv = cv mod 4 * 64 + dv.
Proof. intros Ha Hb. apply Z.eqb_eq. apply (below_forall2 64 64 (fun cv dv => Z.lor (Z.shiftl (Z.land cv 3) 6) dv =? cv mod 4 * 64 + dv)); [by vm_compute|done|done]. Qed.

(** A byte of a certificate body: printable, no sign of a marker, no space. *)
Definition plain (b : Z) : Prop := 0 <= b <= 127 /\ b <> 45 /\ ascii_space b = false.

Lemma plain_char v : 0 <= v < 64 -> plain (b64_char v).
Proof. intros Hv. by destruct (b64_val_char v Hv) as (_ & _ & ? & ? & ?). Qed.

Lemma plain_pad : plain 61.
Proof. by split_and!. Qed.

Lemma byte_parts a : 0 <= a < 256 -> 0 <= a / 4 < 64 /\ 0 <= a mod 4 < 4 /\ 0 <= a / 16 < 16 /\ 0 <= a mod 16 < 16 /\ 0 <= a / 64 < 4 /\ 0 <= a mod 64 < 64 /\
  a = a / 4 * 4 + a mod 4 /\ a = a / 16 * 16 + a mod 16 /\ a = a / 64 * 64 + a mod 64.
Proof. intros Ha. split_and!; try (apply Z.mod_pos_bound; lia); try (apply Z.div_pos; lia); try (apply Z.div_lt_upper_bound; lia); rewrite Z.mul_comm; apply Z.div_mod; lia. Qed.

Lemma mix_div x y k : 0 <= y < k -> (x * k + y) / k = x /\ (x * k + y) mod k = y.
Proof. intros Hy. rewrite Z.add_comm, Z.div_add, Z.mod_add by lia. rewrite Z.div_small, Z.mod_small by lia. lia. Qed.

Lemma b64_encode_spec : forall n l, (length l <= n)%nat -> wf_bytes l ->
  b64_groups (b64_encode l) = Some l /\ (length (b64_encode l) mod 4 = 0)%nat /\ Forall plain (b64_encode l).
Proof.
  induction n as [|n IH]; intros l Hn Hwf; [destruct l; [|cbn in Hn; lia]; split_and!; [done|done|constructor]|].
  destruct l as [|a [|b [|c l]]]; [split_and!; [done|done|constructor]| | |].
  all: unfold wf_bytes in Hwf; rewrite ?Forall_cons in Hwf; destruct_and? Hwf; unfold is_u8 in *.
  all: repeat match goal with H : 0 <= ?x < 256 |- _ => pose proof (byte_parts x H); revert H end; intros.
  - cbn [b64_encode]. split_and!; [|done|repeat first [apply Forall_cons_2|apply Forall_nil_2]; first [apply plain_char; lia|apply plain_pad]].
    cbn [b64_groups]. destruct (b64_val_char (a / 4)) as [-> _]; [lia|]. destruct (b64_val_char (a mod 4 * 16)) as [-> _]; [lia|]. cbn.
    rewrite b64_bits1 by lia. rewrite Z.div_mul by lia. do 2 f_equal. lia.
  - cbn [b64_encode]. split_and!; [|done|repeat first [apply Forall_cons_2|apply Forall_nil_2]; first [apply plain_char; lia|apply plain_pad]].
    cbn [b64_groups]. destruct (b64_val_char (a / 4)) as [-> _]; [lia|]. destruct (b64_val_char (a mod 4 * 16 + b / 16)) as [-> _]; [lia|].
    destruct (b64_val_char (b mod 16 * 4)) as (-> & H61 & _); [lia|]. cbn [mbind option_bind]. rewrite (proj2 (Z.eqb_neq _ _) H61). cbn.
    rewrite b64_bits1, b64_bits2 by lia. destruct (mix_div (a mod 4) (b / 16) 16) as [-> ->]; [lia|]. rewrite Z.div_mul by lia. do 2 f_equal; [lia|]. f_equal. lia.
  - destruct (IH l) as (I1 & I2 & I3); [cbn in Hn; lia|done|]. cbn [b64_encode]. split_and!.
    + cbn [b64_groups]. destruct (b64_val_char (a / 4)) as [-> _]; [lia|]. destruct (b64_val_char (a mod 4 * 16 + b / 16)) as [-> _]; [lia|].
      destruct (b64_val_char (b mod 16 * 4 + c / 64)) as (-> & H61 & _); [lia|]. destruct (b64_val_char (c mod 64)) as (-> & H61' & _); [lia|].
      cbn [mbind option_bind]. rewrite (proj2 (Z.eqb_neq _ _) H61), (proj2 (Z.eqb_neq _ _) H61'). cbn [mbind option_bind]. rewrite I1. cbn.
      rewrite b64_bits1, b64_bits2, b64_bits3 by lia. destruct (mix_div (a mod 4) (b / 16) 16) as [-> ->]; [lia|].
      destruct (mix_div (b mod 16) (c / 64) 4) as [-> ->]; [lia|]. f_equal. f_equal; [lia|]. f_equal; [lia|]. f_equal. lia.
    + cbn [length]. replace (S (S (S (S (length (b64_encode l)))))) with (length (b64_encode l) + 1 * 4)%nat by lia. by rewrite Nat.Div0.mod_add.
    + repeat (apply Forall_cons_2; [apply plain_char; lia|]). done.
Qed.

Lemma base64_decode_encode l : wf_bytes l -> base64_decode (b64_encode l) = Some l.
Proof. intros Hwf. unfold base64_decode. destruct (b64_encode_spec (length l) l) as (-> & -> & _); done. Qed.

(** A certificate between its markers: the lines may be broken anywhere. *)
Definition pem_of (body : bytes) : bytes := PEM_BEGIN ++ body ++ PEM_END.

Lemma pem_to_der_encode body der tail : wf_bytes der -> ascii_text body -> filter (fun b => ascii_space b = false) body = b64_encode der ->
  pem_to_der (pem_of body ++ tail) = Some der.
Proof.
  intros Hwf Hascii Hbody. unfold pem_to_der, pem_of. rewrite <- !app_assoc.
  pose proof (find_sub_skip 45 (drop 1 PEM_BEGIN) [] (body ++ PEM_END ++ tail) (not_elem_of_nil _)) as H1.
  change (45 :: drop 1 PEM_BEGIN) with PEM_BEGIN in H1. cbn [app length] in H1. rewrite H1. cbn [mbind option_bind Nat.add].
  rewrite drop_app_length. destruct (b64_encode_spec (length der) der) as (_ & _ & Hplain); [done|done|].
  assert (Hni : 45 ∉ body).
  { intros Hin. assert (Hf : 45 ∈ filter (fun b => ascii_space b = false) body) by (by apply list_elem_of_filter).
    rewrite Hbody in Hf. rewrite Forall_forall in Hplain. by destruct (Hplain _ Hf) as (_ & ? & _). }
  pose proof (find_sub_skip 45 (drop 1 PEM_END) body tail Hni) as H2. change (45 :: drop 1 PEM_END) with PEM_END in H2. rewrite H2. cbn [mbind option_bind].
  rewrite take_app_length, without_whitespace_ascii, Hbody by done. by apply base64_decode_encode.
Qed.

(** C36: a certificate that a proxy puts into the header is read back byte by
    byte, wherever the lines of its text are broken, whichever characters are
    escaped and whatever follows it, and names the caller. *)
Theorem proxy_certificate_is_read `{CertParser} esc body der tail :
  wf_bytes der -> ascii_text body -> ascii_text tail -> filter (fun b => ascii_space b = false) body = b64_encode der ->
  from_proxy_header (Some (percent_encode esc (pem_of body ++ tail))) = Some (of_leaf der).
Proof.
  intros Hwf Hb Ht Hbody. unfold from_proxy_header. cbn [mbind option_bind]. unfold decode_proxy_header_value.
  assert (Ha : ascii_text (pem_of body ++ tail)).
  { unfold ascii_text, pem_of in *. rewrite !Forall_app. split_and!; try done; apply (bool_decide_unpack _); vm_compute; exact I. }
  rewrite decode_percent_encode by (eapply Forall_impl; [exact Ha|]; unfold is_u8; cbn; lia).
  rewrite lossy_ascii by done. by erewrite pem_to_der_encode.
Qed.

(** ** Who is served *)

Section Served.
Context {SBB : Type} `{PeerBuckets SBB} `{KeyDigest}.
Implicit Types d : Dkms SBB.
Implicit Types n : Node SBB.

Lemma extract_ok of_san pid id : extract of_san pid = Ok id -> exists der s, leaf_der pid = Some der /\ san_identifier pid = Some s /\ of_san s = Some id.
Proof.
  unfold extract, is_authenticated. destruct (leaf_der pid) as [der|]; [|done]. cbn [negb]. destruct (san_identifier pid) as [s|]; [|done].
  destruct (of_san s) as [i|] eqn:E; [|done]. intros [= <-]. eauto.
Qed.

Lemma untrusted_header `{CertParser} policy tls header : default false policy = false -> resolve_peer_identity policy tls header = default anonymous tls.
Proof. intros Hp. unfold resolve_peer_identity. by rewrite Hp. Qed.

Lemma try_new_ok s id : try_new s = Some id -> id = s /\ is_valid_id id = true.
Proof. unfold try_new. destruct (is_valid_id s) eqn:E; [|done]. by intros [= <-]. Qed.

(** A key the store lets the SAE take: it is there, for that SAE, made by that
    master, not expired and not taken before. *)
Definition takeable d (now : Z) (requester master : SaeId) (k : SessionKey) : Prop :=
  exists e, ps_inner (dk_pending d) !! sk_id k = Some e /\ sk_bytes k = pe_material e /\ pe_initiator e = master /\
    now < pe_expires_at e /\ requester ∈ pe_authorized e /\ requester ∉ pe_retrieved e.

Lemma dec_keys_loop_taken now requester master ids : forall d out d' keys,
  dec_keys_loop d now requester master ids out = (d', Ok keys) ->
  exists got, keys = out ++ got /\ map sk_id got = ids /\ Forall (takeable d now requester master) got.
Proof.
  induction ids as [|id ids IH]; intros d out d' keys; cbn [dec_keys_loop].
  { intros [= _ <-]. exists []. split_and!; [by rewrite app_nil_r|done|constructor]. }
  destruct (take_for_sae_of_master (dk_pending d) now id requester (Some master)) as [s [[m i]|e|]] eqn:Ht; [|done|done].
  apply take_cases in Ht as (e & He & -> & -> & Hexp & Hauth & Hret & Hma & Hsub). intros Hloop.
  apply IH in Hloop as (got & -> & Hids & Hgot). exists (mkSk id (pe_material e) :: got). rewrite <- app_assoc. split_and!; [done|cbn; by rewrite Hids|].
  constructor.
  - exists e. cbn. split_and!; try done. by rewrite (Hma master eq_refl).
  - eapply Forall_impl; [exact Hgot|]. intros k (e' & He' & Hb & Hm & Hx & Ha & Hr). cbn [dk_pending with_pending] in He'.
    apply (lookup_weaken _ _ _ _ He') in Hsub. destruct (decide (sk_id k = id)) as [Ek|Hne].
    + rewrite Ek, lookup_insert_eq in Hsub. injection Hsub as <-. cbn in Hr. set_solver.
    + rewrite lookup_insert_ne in Hsub by done. by exists e'.
Qed.
End Served.

(** C11: with the proxy option off, whatever headers a request carries, [dec_keys]
    hands out a key only when the certificate of the connection names a SAE, and
    then each key it hands out is one that waits for that SAE, from the master
    named in the path, not expired and not handed to it before. *)
Theorem keys_go_to_the_certified_sae {SBB} `{CertParser} `{PeerBuckets SBB} (d : Dkms SBB) policy tls header now path ids d' keys :
  default false policy = false ->
  route_dec_keys (resolve_peer_identity policy tls header) now path ids d = (d', Some (RespOk keys)) ->
  exists pid san requester, tls = Some pid /\ is_Some (leaf_der pid) /\ san_identifier pid = Some san /\ sae_id_from_san san = Some requester /\
    map sk_id keys = ids /\ Forall (takeable d now requester path) keys.
Proof.
  intros Hp. rewrite untrusted_header by done. unfold route_dec_keys, with_caller, with_path_id.
  destruct (sae_peer (default anonymous tls)) as [requester|e|] eqn:Hs; [|done|done]. apply extract_ok in Hs as (der & san & Hl & Hsan & Hid).
  destruct (try_new path) as [master|] eqn:Hm; [|done]. apply try_new_ok in Hm as [-> _].
  destruct (handle_dec_keys d now requester path ids) as [d1 r] eqn:Hd. intros [= -> Hr]. destruct r as [ks|e|]; [injection Hr as ->|by destruct e|done].
  destruct tls as [pid|]; [|done]. exists pid, san, requester. unfold handle_dec_keys in Hd. destruct (authorize_local_sae d requester); [|done|done].
  apply dec_keys_loop_taken in Hd as (got & -> & Hids & Hgot). split_and!; try done; by exists der.
Qed.

(** A SAE that is served here learns from a refusal of [dec_keys] only that
    there is no key for it: the answer is the same for an identifier that does
    not exist, one of another SAE or another master, one that expired and one
    it has already taken. *)
Theorem refusals_look_alike {SBB} `{PeerBuckets SBB} (d : Dkms SBB) pid now path ids requester :
  sae_peer pid = Ok requester -> is_valid_id path = true -> authorize_local_sae d requester = Ok tt ->
  (exists keys, (route_dec_keys pid now path ids d).2 = Some (RespOk keys)) \/
  (route_dec_keys pid now path ids d).2 = Some (RespErr 404 (Fixed "key not found")).
Proof.
  intros Hs Hp Ha. unfold route_dec_keys, with_caller, with_path_id, try_new. rewrite Hs, Hp. unfold handle_dec_keys. rewrite Ha.
  assert (Hl : forall l (d0 : Dkms SBB) out, (exists d' keys, dec_keys_loop d0 now requester path l out = (d', Ok keys)) \/
    exists d' e, dec_keys_loop d0 now requester path l out = (d', Err (PendingTake e))).
  { induction l as [|id l IH]; intros d0 out; cbn [dec_keys_loop]; [left; eauto|].
    unfold take_for_sae_of_master. destruct (ps_inner (dk_pending d0) !! id); [|right; eauto]. destruct (is_expired _ _); [right; eauto|].
    destruct (negb _); [right; eauto|]. destruct (negb _); [right; eauto|]. destruct (bool_decide _); [right; eauto|]. apply IH. }
  destruct (Hl ids d []) as [(d' & keys & ->)|(d' & e & ->)]; [left; by exists keys|by right].
Qed.

Inductive PeerRequest := PqExtKeys (body : ExtKeyContainer) | PqAck (ids : list KeyId) | PqKem (seed : bytes) (draws : list Z) (req : KemRequest).

Definition handle_peer {SBB} `{PeerBuckets SBB} `{KeyDigest, TextCodecs, MlKem} (pid : PeerIdentity) (now : Z) (rq : PeerRequest) (n : Node SBB) : Node SBB :=
  match rq with
  | PqExtKeys body => (route_ext_keys pid now body n).1
  | PqAck ids => (route_ext_keys_ack pid ids n).1
  | PqKem seed draws req => (route_e2e_kem pid now seed draws req n).1
  end.

(** C12: on the peer plane, with the proxy option off, a request changes the node
    only when the certificate of the connection names a peer of the registry,
    whatever the body and the headers say. *)
Theorem strangers_change_nothing {SBB} `{CertParser} `{PeerBuckets SBB} `{KeyDigest, TextCodecs, MlKem} (n : Node SBB) policy tls header now rq :
  default false policy = false ->
  handle_peer (resolve_peer_identity policy tls header) now rq n = n \/
  exists pid san peer, tls = Some pid /\ is_Some (leaf_der pid) /\ san_identifier pid = Some san /\ node_id_from_san san = Some peer /\
    is_Some (reg_get (nd_reg n) peer).
Proof.
  intros Hp. rewrite untrusted_header by done.
  assert (Hk : forall A (h : NodeId -> Node SBB * option (Response A)), (with_known_peer (default anonymous tls) n h).1 = n \/
    exists pid san peer, tls = Some pid /\ is_Some (leaf_der pid) /\ san_identifier pid = Some san /\ node_id_from_san san = Some peer /\ is_Some (reg_get (nd_reg n) peer)).
  { intros A h. unfold with_known_peer, with_caller. destruct (dkms_peer (default anonymous tls)) as [peer|e|] eqn:Hs; [|by left|by left].
    apply extract_ok in Hs as (der & san & Hl & Hsan & Hid). unfold require_known_peer. destruct (reg_get (nd_reg n) peer) as [c|] eqn:Hr; [|by left].
    right. destruct tls as [pid|]; [|done]. exists pid, san, peer. cbn in *. rewrite Hl, Hr. split_and!; done. }
  destruct rq; apply Hk.
Qed.

(** A request for two keys of which the second is refused fails as a whole, and
    the first one is gone: asking for it again is refused. *)
Theorem failed_dec_keys_loses_keys {SBB} `{PeerBuckets SBB} (d : Dkms SBB) now requester master id1 id2 e :
  authorize_local_sae d requester = Ok tt -> ps_inner (dk_pending d) !! id1 = Some e -> ps_inner (dk_pending d) !! id2 = None ->
  is_expired now e = false -> requester ∈ pe_authorized e -> pe_initiator e = master -> requester ∉ pe_retrieved e ->
  exists d' e1 e2, handle_dec_keys d now requester master [id1; id2] = (d', Err e1) /\ (handle_dec_keys d' now requester master [id1]).2 = Err e2.
Proof.
  intros Ha H1 H2 Hx Hau Hm Hr. unfold handle_dec_keys. rewrite Ha. cbn [dec_keys_loop]. unfold take_for_sae_of_master. rewrite H1, Hx.
  rewrite (bool_decide_eq_true_2 _ Hau), (bool_decide_eq_true_2 _ Hm), (bool_decide_eq_false_2 _ Hr). cbn [negb]. cbv zeta.
  set (e' := mkPe _ _ _ _ _ _). set (s := PendingStore.mkPs _ _ _).
  assert (Hne : id1 <> id2) by congruence.
  set (s' := if is_complete e' then (remove_entry s id1).1 else s).
  assert (Hs' : ps_inner s' !! id2 = None /\ (ps_inner s' !! id1 = None \/ ps_inner s' !! id1 = Some e')).
  { assert (Es : ps_inner s = <[id1 := e']> (ps_inner (dk_pending d))) by done.
    unfold s'. destruct (is_complete e'); [unfold remove_entry; rewrite Es, lookup_insert_eq; cbn [fst ps_inner]|rewrite Es].
    - rewrite lookup_delete_ne, lookup_insert_ne, lookup_delete_eq by done. auto.
    - rewrite lookup_insert_ne, lookup_insert_eq by done. auto. }
  destruct Hs' as [Hs2 Hs1]. cbn [dk_pending with_pending]. rewrite Hs2. eexists _, _. 
  assert (Hloc : authorize_local_sae (with_pending s' (with_pending s' d)) requester = Ok tt) by exact Ha.
  destruct Hs1 as [Hs1|Hs1]; eexists; (split; [reflexivity|]); rewrite Hloc; cbn [dk_pending with_pending]; rewrite Hs1; [reflexivity|].
  change (is_expired now e') with (is_expired now e). rewrite Hx. cbn [e' pe_authorized pe_initiator pe_retrieved].
  rewrite (bool_decide_eq_true_2 _ Hau), (bool_decide_eq_true_2 _ Hm). rewrite bool_decide_eq_true_2 by set_solver. reflexivity.
Qed.

(** ** Instances *)

(** Every certificate names bob, as a SAE. *)
#[export] Instance bob_parser : CertParser := fun _ => Some (mkParsed [ExtOther; ExtSan [GnOther; GnUri "sae://org/bob"]] []).

Definition bob_identity : PeerIdentity := of_leaf [1; 2; 3].
Definition waiting_node : Dkms unit :=
  with_pending (pending_insert (dk_pending node_b) 0 "k1" "alice" {[ "bob"%string ]} [7; 8; 9] None) node_b.

Lemma proxy_certificate_is_read_witness :
  from_proxy_header (Some (percent_encode (fun b => (b <=? 32) || (b =? 43)) (pem_of ([10] ++ as_bytes "AQID+w" ++ [10] ++ as_bytes "==" ++ [10]) ++ [10])))
  = Some (of_leaf [1; 2; 3; 251]).
Proof.
  apply (proxy_certificate_is_read (fun b => (b <=? 32) || (b =? 43)) ([10] ++ as_bytes "AQID+w" ++ [10] ++ as_bytes "==" ++ [10]) [1; 2; 3; 251] [10]);
    [apply (bool_decide_unpack _); vm_compute; exact I..|vm_compute; reflexivity].
Defined.

Lemma keys_go_to_the_certified_sae_witness :
  exists d', route_dec_keys (resolve_peer_identity (Some false) (Some bob_identity) (Some (as_bytes "-----"))) 5 "alice" ["k1"%string] waiting_node
    = (d', Some (RespOk [mkSk "k1" [7; 8; 9]])) /\ Forall (takeable waiting_node 5 "bob" "alice") [mkSk "k1" [7; 8; 9]].
Proof.
  eexists. split; [vm_compute; reflexivity|].
  destruct (keys_go_to_the_certified_sae waiting_node (Some false) (Some bob_identity) (Some (as_bytes "-----")) 5 "alice" ["k1"%string] _
    [mkSk "k1" [7; 8; 9]] eq_refl eq_refl) as (pid & san & requester & [= <-] & _ & [= <-] & Hid & _ & Ht).
  vm_compute in Hid. injection Hid as <-. exact Ht.
Defined.

Lemma refusals_look_alike_witness :
  (exists keys, (route_dec_keys bob_identity 5 "alice" ["k1"; "k2"]%string waiting_node).2 = Some (RespOk keys)) \/
  (route_dec_keys bob_identity 5 "alice" ["k1"; "k2"]%string waiting_node).2 = Some (RespErr 404 (Fixed "key not found")).
Proof. apply (refusals_look_alike waiting_node bob_identity 5 "alice" ["k1"; "k2"]%string "bob"); vm_compute; reflexivity. Defined.

Lemma strangers_change_nothing_witness :
  handle_peer (resolve_peer_identity None (Some bob_identity) (Some [])) 5 (PqAck ["k1"%string]) emit_a = emit_a.
Proof.
  destruct (strangers_change_nothing emit_a None (Some bob_identity) (Some []) 5 (PqAck ["k1"%string]) eq_refl) as [E|(pid & san & peer & [= <-] & _ & [= <-] & Hid & Hr)].
  - exact E.
  - exfalso. vm_compute in Hid. discriminate Hid.
Defined.

Lemma failed_dec_keys_loses_keys_witness :
  exists d' e1 e2, handle_dec_keys waiting_node 5 "bob" "alice" ["k1"; "k2"]%string = (d', Err e1) /\ (handle_dec_keys d' 5 "bob" "alice" ["k1"%string]).2 = Err e2.
Proof.
  eapply (failed_dec_keys_loses_keys waiting_node 5 "bob" "alice" "k1" "k2"); try (vm_compute; reflexivity); apply (bool_decide_unpack _); vm_compute; exact I.
Defined.
