(* ===== verification/QkcLinks.v ===== *)
(** * The links of a QKC: configuration, construction, and the controller's list
      (qkc/src/config.rs, service.rs, sdn_client.rs)

    A QKC builds a runtime for each link of its configuration that has an
    address, announces its links to the controller, and takes from the answer the
    neighbours it should be linked with.  [QkcService] is the node of [Relay] with
    the part of each runtime [Relay] does not look at; files, the HTTP client of a
    KME and random sessions are in [LinkEnv]. *)

From Stdlib Require Import ZArith Lia String Ascii.
From stdpp Require Import strings.
From S2P Require Import Prelude Text Float64 SdnTopology SdnStore SdnGraph SdnWcmp SdnHttp.
From S2P Require Import Primitives Signing QkcTypes SecretStore FrameMac FrameAuth Routing PeerOut KeyStore Relay Handshake.

#[local] Open Scope string_scope.
#[local] Open Scope Z_scope.

(** ** Text *)

(** [rsplit_once(c)]. *)
Fixpoint rsplit_once (c : Ascii.ascii) (s : string) : option (string * string) :=
  match s with
  | EmptyString => None
  | String a r =>
      match rsplit_once c r with
      | Some (x, y) => Some (String a x, y)
      | None => if Ascii.eqb a c then Some (EmptyString, r) else None
      end
  end.

(** [rsplit(c).next()]. *)
Definition last_part (c : Ascii.ascii) (s : string) : string :=
  match rsplit_once c s with Some (_, y) => y | None => s end.

Fixpoint trim_end_matches (c : Ascii.ascii) (s : string) : string :=
  match s with
  | EmptyString => EmptyString
  | String a r =>
      match trim_end_matches c r with
      | EmptyString => if Ascii.eqb a c then EmptyString else String a EmptyString
      | r => String a r
      end
  end.

Definition COLON : Ascii.ascii := ":"%char.
Definition peer_port (peer_listen : string) : Z := default 0 (parse_u 16 (last_part COLON peer_listen)).

(** ** Configuration *)

Record ControlTlsCfg := mkTls { ct_control_plane_ca : string; ct_cert_path : string; ct_key_path : string }.

Record LinkConfig := mkLc {
  lc_neighbor_id : Z;
  lc_neighbor_peer_addr : string;
  lc_link_type : LinkType;
  lc_quditto_url : option string;
  lc_sae_id : option string;
  lc_kme_cert : option string;
  lc_kme_key : option string;
  lc_kme_ca : option string;
  lc_pqc_suite : string;
  lc_key_size_bits : Z;
  lc_pqc_rekey_keys : Z;
  lc_pqc_rekey_secs : Z;
  lc_pqc_rekey_lookahead : Z;
  lc_r0 : option f64;
  lc_alpha : option f64;
  lc_distance_km : option Z;
  lc_capacity_keys_per_s : option f64;
  lc_link_psk : option string;
  lc_pqc_auth : option PqcAuth;
  lc_peer_verify_key : option string;
  lc_frame_auth : option FrameAuthMode;
}.

Record QkcConfig := mkQc {
  qc_qkc_id : Z;
  qc_peer_listen : string;
  qc_local_listen : string;
  qc_admin_http : string;
  qc_sdn_url : option string;
  qc_advertise_ip : option string;
  qc_sdn_announce_secs : Z;
  qc_tls : option ControlTlsCfg;
  qc_sign_secret_seed : option string;
  qc_links : list LinkConfig;
}.

Definition default_pqc_suite : string := "ml-kem-768".
Definition default_rekey_keys : Z := 1000.
Definition default_rekey_secs : Z := 3600.
Definition default_rekey_lookahead : Z := 2.

Definition effective_lookahead (l : LinkConfig) : Z :=
  if (lc_pqc_rekey_keys l =? 0) && (lc_pqc_rekey_secs l =? 0) then 0 else lc_pqc_rekey_lookahead l.
Definition effective_pqc_auth (l : LinkConfig) (has_node_identity : bool) : PqcAuth :=
  match lc_pqc_auth l with Some v => v | None => if has_node_identity then PqcSign else PqcOff end.
Definition effective_frame_auth (l : LinkConfig) (has_node_identity : bool) : FrameAuthMode :=
  match lc_frame_auth l with Some v => v | None => if has_node_identity then Require else Off end.

(** The paths of the credentials for a KME: (CA, certificate, key). *)
Definition kme_client_tls (l : LinkConfig) (node_tls : option ControlTlsCfg) : option (string * string * string) :=
  match lc_kme_cert l, lc_kme_key l, lc_kme_ca l with
  | Some cert, Some key, Some ca => Some (ca, cert, key)
  | _, _, _ => (fun t => (ct_control_plane_ca t, ct_cert_path t, ct_key_path t)) <$> node_tls
  end.

Definition is_some {A} (o : option A) : bool := match o with Some _ => true | None => false end.
Definition kme_set (l : LinkConfig) : nat := length (List.filter id [is_some (lc_kme_cert l); is_some (lc_kme_key l); is_some (lc_kme_ca l)]).

(** One turn of the loop of [validate]: every refusal is a [BadRequest]. *)
Definition validate_qkc_link (cfg : QkcConfig) (l : LinkConfig) : res QkcError unit :=
  if lc_neighbor_id l =? qc_qkc_id cfg then Err BadRequest else
  if (lc_key_size_bits l =? 0) || negb (lc_key_size_bits l mod 8 =? 0) then Err BadRequest else
  match lc_link_type l with
  | Qkd =>
      if bool_decide (lc_neighbor_peer_addr l = "") then Err BadRequest else
      if negb (is_some (lc_quditto_url l)) then Err BadRequest else
      if negb (kme_set l =? 0)%nat && negb (kme_set l =? 3)%nat then Err BadRequest else Ok tt
  | Pqc =>
      if bool_decide (lc_neighbor_peer_addr l = "") && negb (is_some (qc_sdn_url cfg)) then Err BadRequest else
      if is_some (lc_quditto_url l) then Err BadRequest else
      if negb (kme_set l =? 0)%nat then Err BadRequest else
      match kem_for (lc_pqc_suite l) with Ok _ => Ok tt | _ => Err BadRequest end
  end.

Fixpoint validate_qkc_links (cfg : QkcConfig) (links : list LinkConfig) : res QkcError unit :=
  match links with
  | [] => Ok tt
  | l :: links => res_bind (validate_qkc_link cfg l) (fun _ => validate_qkc_links cfg links)
  end.
Definition validate (cfg : QkcConfig) : res QkcError unit := validate_qkc_links cfg (qc_links cfg).

(** ** Building a link *)

(** What a QKC reads from outside: the identity its certificate files give, when
    they can be read, whether a client for a KME can be made, and the random
    session a link starts with. *)
Record LinkEnv := mkEnv {
  ev_identity : option SignIdentity;
  ev_kme_client : string -> option (string * string * string) -> bool;
  ev_session : Z -> bytes;
}.

Inductive KeySrc :=
  | SrcKme (url sae_id : string) (key_size_bits : Z)
  | SrcPqc (src : PqcKeySource).

Record LinkRuntime := mkRt { rt_cfg : LinkConfig; rt_kme : KeySrc; rt_link : Link; rt_pqc : option PqcHandshake }.

Definition MIN_LINK_ROOT_BYTES : Z := 32.
Definition strong_link_root (len : Z) : bool := MIN_LINK_ROOT_BYTES <=? len.

(** Without [[tls]] there is none; with files that cannot be read neither. *)
Definition build_sign_identity (ev : LinkEnv) (cfg : QkcConfig) : option SignIdentity :=
  match qc_tls cfg with None => None | Some _ => ev_identity ev end.

Section Build.
Context `{TextCodecs, MacCrypto}.
Variable ev : LinkEnv.

(** A root that is too short is ignored. *)
Definition handshake_psk (l : LinkConfig) : option bytes :=
  k ← lc_link_psk l ≫= b64_decode; if strong_link_root (zlen k) then Some k else None.

Definition handshake_cfg (cfg : QkcConfig) (l : LinkConfig) (auth : PqcAuth) (sign_id : option SignIdentity) : HsCfg :=
  mkHsCfg (lc_pqc_suite l) (qc_qkc_id cfg) (lc_neighbor_id l) (effective_lookahead l) (handshake_psk l)
    (qc_sign_secret_seed cfg ≫= b64_decode) (lc_peer_verify_key l ≫= b64_decode) sign_id auth (lc_key_size_bits l).

Definition build_link_handshake (cfg : QkcConfig) (l : LinkConfig) (auth : PqcAuth) (sign_id : option SignIdentity)
  : PqcHandshake * SecretStore * RekeyClock :=
  let store := ss_new (effective_lookahead l) (lc_pqc_rekey_keys l) in
  (hs_new (handshake_cfg cfg l auth sign_id) store, store, clock_new (lc_pqc_rekey_keys l)).

(** The source of keys, and the handshake with its store where there is one. *)
Definition build_source (cfg : QkcConfig) (l : LinkConfig) (auth : PqcAuth) (sign_id : option SignIdentity)
  : res QkcError (KeySrc * option (PqcHandshake * SecretStore)) :=
  match lc_link_type l with
  | Qkd =>
      match lc_quditto_url l with
      | None => Err BadRequest
      | Some url =>
          if negb (ev_kme_client ev url (kme_client_tls l (qc_tls cfg))) then Err BadRequest else
          let src := SrcKme url (default (to_string (qc_qkc_id cfg)) (lc_sae_id l)) (lc_key_size_bits l) in
          if is_some sign_id || negb (bool_decide (auth = PqcOff)) then
            let '(hs, store, _) := build_link_handshake cfg l auth sign_id in Ok (src, Some (hs, store))
          else Ok (src, None)
      end
  | Pqc =>
      let '(hs, store, clock) := build_link_handshake cfg l auth sign_id in
      let clock := if qc_qkc_id cfg <? lc_neighbor_id l then Some clock else None in
      Ok (SrcPqc (source_new (lc_key_size_bits l) (effective_lookahead l) clock), Some (hs, store))
  end.

(** The root of the MAC of frames: the [link_psk], else the secrets of the handshake. *)
Definition build_frame_auth (l : LinkConfig) (mode : FrameAuthMode) (psk : option bytes) (store : option SecretStore)
  : option LinkFrameAuth :=
  match psk with
  | Some _ => auth_new mode psk (ev_session ev (lc_neighbor_id l))
  | None => (fun _ => per_epoch mode) <$> store
  end.

(** A link without a handshake has no store; its [lk_store] is never read. *)
Definition build_link (cfg : QkcConfig) (l : LinkConfig) : res QkcError LinkRuntime :=
  let sign_id := build_sign_identity ev cfg in
  let auth := effective_pqc_auth l (is_some sign_id) in
  let mode := effective_frame_auth l (is_some sign_id) in
  res_bind (build_source cfg l auth sign_id) (fun '(src, hs) =>
    let psk := lc_link_psk l ≫= b64_decode in
    if rejects_plaintext mode && negb (is_some psk) && negb (is_some hs) then Err BadRequest else
    let fa := build_frame_auth l mode psk (snd <$> hs) in
    Ok (mkRt l src (mkLink (lc_link_type l) (lc_key_size_bits l) (ks_new (qc_qkc_id cfg) (lc_neighbor_id l) (lc_key_size_bits l)) fa
                      (default (ss_new 0 0) (snd <$> hs))) (fst <$> hs))).

(** ** The service *)

Record QkcService := mkSvc { sv_cfg : QkcConfig; sv_node : Node; sv_runtimes : gmap Z LinkRuntime }.

Definition with_node (nd : Node) (rts : gmap Z LinkRuntime) (s : QkcService) : QkcService := mkSvc (sv_cfg s) nd rts.

Definition svc_link_to (s : QkcService) (id : Z) : option LinkRuntime := sv_runtimes s !! id.
Definition link_count (s : QkcService) : nat := size (sv_runtimes s).

Definition svc_add_link (s : QkcService) (l : LinkConfig) : QkcService * res QkcError bool :=
  match sv_runtimes s !! lc_neighbor_id l with
  | Some _ => (s, Ok false)
  | None =>
      match build_link (sv_cfg s) l with
      | Ok rt =>
          (with_node (Relay.add_link (sv_node s) (lc_neighbor_id l) (lc_link_type l) (Some (rt_link rt))).1
             (<[lc_neighbor_id l := rt]> (sv_runtimes s)) s, Ok true)
      | Err e => (s, Err e)
      | Panic => (s, Panic)
      end
  end.

Definition svc_remove_link (s : QkcService) (id : Z) : QkcService * bool :=
  match sv_runtimes s !! id with
  | None => (s, false)
  | Some _ => (with_node (Relay.remove_link (sv_node s) id).1 (delete id (sv_runtimes s)) s, true)
  end.

(** The loop of [new]: links without an address wait for the controller. *)
Fixpoint new_loop (cfg : QkcConfig) (links : list LinkConfig) (rts : gmap Z LinkRuntime) (direct direct_qkd : gset Z)
  : res QkcError (gmap Z LinkRuntime * gset Z * gset Z) :=
  match links with
  | [] => Ok (rts, direct, direct_qkd)
  | l :: links =>
      if bool_decide (lc_neighbor_peer_addr l = "") then new_loop cfg links rts direct direct_qkd else
      res_bind (build_link cfg l) (fun rt =>
        new_loop cfg links (<[lc_neighbor_id l := rt]> rts) ({[ lc_neighbor_id l ]} ∪ direct)
          (if is_qkd (lc_link_type l) then {[ lc_neighbor_id l ]} ∪ direct_qkd else direct_qkd))
  end.

Definition service_new (cfg : QkcConfig) : res QkcError QkcService :=
  res_bind (new_loop cfg (qc_links cfg) ∅ ∅ ∅) (fun '(rts, direct, direct_qkd) =>
    Ok (mkSvc cfg (mkNode (qc_qkc_id cfg) (rt_link <$> rts) (ft_new_with_grades direct direct_qkd) ∅ [] [] (fun _ => 0)) rts)).
End Build.

(** ** The announcer *)

Definition MAX_SDN_LINKS : nat := 64.
Definition BOOTSTRAP_RETRY : Z := 2000.

(** The link of an announcement, with the JSON names; absent fields are omitted. *)
Record LinkAnnounce := mkAnn {
  ln_neighbor_id : string; ln_link_type : LinkType; ln_r0 : option f64; ln_alpha : option f64; ln_distance_km : option Z;
  ln_pqc_capacity : option f64; ln_measured_rate : option f64; ln_measured_quality : option string }.

Record QkcPeerWire := mkPw { pw_qkc_id : string; pw_peer_addr : string; pw_link_type : string; pw_key_size_bits : Z }.
#[export] Instance QkcPeerWire_eq_dec : EqDecision QkcPeerWire.
Proof. solve_decision. Defined.

Record SdnAnnouncer := mkAnnouncer {
  sa_url : string;
  sa_id : Z;
  sa_ip : string;
  sa_port : Z;
  sa_peer_addr : string;
  sa_links : list (Z * LinkAnnounce);
  sa_period : Z;
  sa_link_defaults : LinkConfig;
  sa_local_links : gset Z;
  sa_local_cfgs : gmap Z LinkConfig;
  sa_node_identity : bool;
}.

Definition announce_template (l : LinkConfig) : Z * LinkAnnounce :=
  (lc_neighbor_id l, mkAnn (to_string (lc_neighbor_id l)) (lc_link_type l) (lc_r0 l) (lc_alpha l) (lc_distance_km l)
     (lc_capacity_keys_per_s l) None None).

Definition builtin_defaults : LinkConfig :=
  mkLc 0 "" Pqc None None None None None default_pqc_suite 256 default_rekey_keys default_rekey_secs default_rekey_lookahead
    None None None None None None None None.

Definition announce_ip (cfg : QkcConfig) : option string :=
  match qc_advertise_ip cfg with
  | Some ip => Some ip
  | None =>
      let bind_ip := default "" (fst <$> rsplit_once COLON (qc_admin_http cfg)) in
      if negb (bool_decide (bind_ip = "")) && negb (bool_decide (bind_ip = "0.0.0.0")) && negb (bool_decide (bind_ip = "[::]"))
      then Some bind_ip else None
  end.

(** [http_ok]: the HTTP client could be made. *)
Definition from_config (cfg : QkcConfig) (http_ok : bool) : option SdnAnnouncer :=
  url ← qc_sdn_url cfg;
  ip ← announce_ip cfg;
  if negb http_ok then None else
  Some (mkAnnouncer (trim_end_matches "/"%char url ++ "/register/qkc") (qc_qkc_id cfg) ip
    (default 0 (parse_u 16 (last_part COLON (qc_admin_http cfg))))
    (ip ++ ":" ++ to_string (peer_port (qc_peer_listen cfg)))
    (map announce_template (qc_links cfg)) (Z.max (qc_sdn_announce_secs cfg) 1 * 1000)
    (default builtin_defaults (head (qc_links cfg)))
    (list_to_set (map lc_neighbor_id (qc_links cfg)))
    (list_to_map (rev (map (fun l => (lc_neighbor_id l, l)) (qc_links cfg)))) (is_some (qc_tls cfg))).

(** What the estimator of a link reports: a rate and its quality. *)
Definition with_report (r : option (f64 * string)) (l : LinkAnnounce) : LinkAnnounce :=
  match r with
  | None => l
  | Some (rate, quality) => mkAnn (ln_neighbor_id l) (ln_link_type l) (ln_r0 l) (ln_alpha l) (ln_distance_km l) (ln_pqc_capacity l)
                              (Some rate) (Some quality)
  end.

(** The announcement as the controller reads it: a missing field is its default. *)
Definition sdn_type (t : LinkType) : SdnTopology.LinkType := match t with Qkd => SdnTopology.Qkd | Pqc => SdnTopology.Pqc end.
Definition wire_link (l : LinkAnnounce) : QkcLinkAnnounce :=
  SdnStore.mkLink (ln_neighbor_id l)
    (mkMeta (default 0 (ln_distance_km l)) (default default_r0 (ln_r0 l)) (default default_alpha (ln_alpha l)) default_buf_size
       (sdn_type (ln_link_type l)) default_key_size_bits (default default_pqc_capacity (ln_pqc_capacity l)) None)
    (ln_measured_rate l) (ln_measured_quality l).

(** The body of [announce_once]; [report] is [rate_report] of the link to a neighbour. *)
Definition announce_body (an : SdnAnnouncer) (report : Z -> option (f64 * string)) : QkcAnnounce :=
  mkQkcAnnounce (to_string (sa_id an)) (mkHost (sa_id an) (sa_ip an) (sa_port an)) (Some (sa_peer_addr an))
    (map (fun '(id, tpl) => wire_link (with_report (report id) tpl)) (sa_links an)).

Definition with_addr (addr : string) (l : LinkConfig) : LinkConfig :=
  mkLc (lc_neighbor_id l) addr (lc_link_type l) (lc_quditto_url l) (lc_sae_id l) (lc_kme_cert l) (lc_kme_key l) (lc_kme_ca l)
    (lc_pqc_suite l) (lc_key_size_bits l) (lc_pqc_rekey_keys l) (lc_pqc_rekey_secs l) (lc_pqc_rekey_lookahead l)
    (lc_r0 l) (lc_alpha l) (lc_distance_km l) (lc_capacity_keys_per_s l) (lc_link_psk l) (lc_pqc_auth l) (lc_peer_verify_key l) (lc_frame_auth l).

(** A link the controller asks for: the settings of [d], no material of a pair. *)
Definition sdn_link (d : LinkConfig) (id : Z) (p : QkcPeerWire) : LinkConfig :=
  mkLc id (pw_peer_addr p) Pqc None (lc_sae_id d) (lc_kme_cert d) (lc_kme_key d) (lc_kme_ca d)
    (lc_pqc_suite d) (pw_key_size_bits p) (lc_pqc_rekey_keys d) (lc_pqc_rekey_secs d) (lc_pqc_rekey_lookahead d)
    (lc_r0 d) (lc_alpha d) (lc_distance_km d) (lc_capacity_keys_per_s d) None (lc_pqc_auth d) None (lc_frame_auth d).

Section Apply.
Context `{TextCodecs, MacCrypto, NetText}.
Variable ev : LinkEnv.
Variable an : SdnAnnouncer.

(** One entry of the list; the number counts the links made for the controller.
    The outcome of [add_link] is only logged. *)
Definition apply_qkc_peer (st : QkcService * nat) (p : QkcPeerWire) : QkcService * nat :=
  let '(s, created) := st in
  match parse_u 32 (pw_qkc_id p) with
  | None => st
  | Some id =>
      if negb (bool_decide (pw_link_type p = "pqc")) then st else
      if is_some (svc_link_to s id) then st else
      if negb (is_socket_addr (pw_peer_addr p)) then st else
      match sa_local_cfgs an !! id with
      | Some local => ((svc_add_link ev s (with_addr (pw_peer_addr p) local)).1, created)
      | None =>
          if (MAX_SDN_LINKS <=? created)%nat then st
          else ((svc_add_link ev s (sdn_link (sa_link_defaults an) id p)).1, S created)
      end
  end.

Definition wanted (peers : list QkcPeerWire) : gset Z := list_to_set (omap (fun p => parse_u 32 (pw_qkc_id p)) peers).

Definition drop_unwanted (peers : list QkcPeerWire) (s : QkcService) (id : Z) : QkcService :=
  if negb (bool_decide (id ∈ wanted peers)) && negb (bool_decide (id ∈ sa_local_links an)) then (svc_remove_link s id).1 else s.

(** [apply_qkc_peers]; the keys of the map are visited in some order, which the
    removals do not depend on. *)
Definition apply_qkc_peers (peers : list QkcPeerWire) (s : QkcService) : QkcService :=
  let created := (link_count s - size (sa_local_cfgs an))%nat in
  let '(s, _) := fold_left apply_qkc_peer peers (s, created) in
  fold_left (drop_unwanted peers) (elements (dom (sv_runtimes s))) s.

(** ** The loop *)

Record AnnounceLoop := mkLoop { al_backoff : Z; al_last : option (list string * list string) }.
Definition loop_start : AnnounceLoop := mkLoop BOOTSTRAP_RETRY None.

(** One turn of [run]: the answer of the controller, or nothing; the wait before the next. *)
Definition run_turn (answer : option (list string * list string * list QkcPeerWire)) (lp : AnnounceLoop) (s : QkcService)
  : AnnounceLoop * QkcService * Z :=
  let '(last, s, converged) :=
    match answer with
    | Some (pending, conflict, peers) => (Some (pending, conflict), apply_qkc_peers peers s, match pending with [] => true | _ => false end)
    | None => (None, s, false)
    end in
  if converged then (mkLoop BOOTSTRAP_RETRY last, s, sa_period an)
  else (mkLoop (Z.min (al_backoff lp * 2) (sa_period an)) last, s, al_backoff lp).
End Apply.

(** ** Links and routing stay in step *)

(** What [service_new] reads of a validated configuration: its entries name
    themselves in the map of the announcer. *)
Definition announcer_ok (an : SdnAnnouncer) : Prop :=
  (forall id l, sa_local_cfgs an !! id = Some l -> lc_neighbor_id l = id) /\ sa_local_links an = dom (sa_local_cfgs an).

(** Every runtime is one the code built for the neighbour it is filed under, and
    [Relay] has the link, of the same type. *)
Record service_ok (ev : LinkEnv) `{TextCodecs, MacCrypto} (s : QkcService) : Prop := mkSok {
  so_match : links_match (sv_node s);
  so_built : forall id rt, sv_runtimes s !! id = Some rt -> lc_neighbor_id (rt_cfg rt) = id /\ build_link ev (sv_cfg s) (rt_cfg rt) = Ok rt;
  so_type : forall id, lk_type <$> nd_links (sv_node s) !! id = (fun rt => lc_link_type (rt_cfg rt)) <$> sv_runtimes s !! id }.

Section Consistent.
Context `{TextCodecs, MacCrypto}.
Variable ev : LinkEnv.

Lemma build_link_ok cfg l rt : build_link ev cfg l = Ok rt -> rt_cfg rt = l /\ lk_type (rt_link rt) = lc_link_type l /\ lk_bits (rt_link rt) = lc_key_size_bits l.
Proof.
  unfold build_link. destruct (build_source _ _ _ _ _) as [[src hs]|e|]; cbn [res_bind]; [|done..].
  destruct (_ && _); [done|]. by intros [= <-].
Qed.

Lemma add_link_cases s l : let s' := (svc_add_link ev s l).1 in
  s' = s \/ exists rt, sv_runtimes s !! lc_neighbor_id l = None /\ build_link ev (sv_cfg s) l = Ok rt /\
    s' = with_node (Relay.add_link (sv_node s) (lc_neighbor_id l) (lc_link_type l) (Some (rt_link rt))).1 (<[lc_neighbor_id l := rt]> (sv_runtimes s)) s.
Proof.
  unfold svc_add_link. destruct (sv_runtimes s !! lc_neighbor_id l) eqn:E; [by left|].
  destruct (build_link ev (sv_cfg s) l) as [rt|e|] eqn:Hb; [right; by exists rt|by left..].
Qed.

Lemma add_link_ok s l : service_ok ev s -> service_ok ev (svc_add_link ev s l).1.
Proof.
  intros Hs. destruct (add_link_cases s l) as [->|(rt & Hnone & Hb & ->)]; [done|]. destruct (Hs) as [Hm Hbuilt Ht].
  pose proof (build_link_ok _ _ _ Hb) as (Hc & Hty & _). pose proof (links_match_invariant (sv_node s) (lc_neighbor_id l) (rt_link rt) Hm) as (Hadd & _).
  assert (Hnl : nd_links (sv_node s) !! lc_neighbor_id l = None).
  { specialize (Ht (lc_neighbor_id l)). rewrite Hnone in Ht. by apply fmap_None in Ht. }
  split; cbn [with_node sv_node sv_runtimes sv_cfg].
  - rewrite <- Hty. exact Hadd.
  - intros id rt' [[<- <-]|[_ Hl]]%lookup_insert_Some; [by rewrite Hc|by apply Hbuilt].
  - intros id. unfold Relay.add_link. rewrite Hnl. cbn [fst with_routing set_link with_links nd_links].
    destruct (decide (id = lc_neighbor_id l)) as [->|Hne]; [by rewrite !lookup_insert_eq; cbn; rewrite Hty, Hc|].
    by rewrite !lookup_insert_ne by done.
Qed.

Lemma remove_link_ok s id : service_ok ev s -> service_ok ev (svc_remove_link s id).1.
Proof.
  intros [Hm Hbuilt Ht]. unfold svc_remove_link. destruct (sv_runtimes s !! id) as [rt|] eqn:E; [|done].
  assert (exists l, nd_links (sv_node s) !! id = Some l) as [l Hl].
  { specialize (Ht id). rewrite E in Ht. apply fmap_Some in Ht as (l & Hl & _). by exists l. }
  pose proof (links_match_invariant (sv_node s) id l Hm) as (_ & Hrem & _).
  split; cbn [with_node fst sv_node sv_runtimes sv_cfg]; [done| |].
  - intros k rt' [_ Hk]%lookup_delete_Some. by apply Hbuilt.
  - intros k. unfold Relay.remove_link. rewrite Hl. cbn [fst with_routing with_links nd_links].
    destruct (decide (k = id)) as [->|Hne]; [by rewrite !lookup_delete_eq|by rewrite !lookup_delete_ne by done].
Qed.

Lemma new_loop_ok cfg links : forall rts direct dq r,
  NoDup (map lc_neighbor_id links) -> (forall l, l ∈ links -> rts !! lc_neighbor_id l = None) ->
  direct = dom rts -> (forall id, id ∈ dq <-> exists rt, rts !! id = Some rt /\ lc_link_type (rt_cfg rt) = Qkd) ->
  (forall id rt, rts !! id = Some rt -> lc_neighbor_id (rt_cfg rt) = id /\ build_link ev cfg (rt_cfg rt) = Ok rt) ->
  new_loop ev cfg links rts direct dq = Ok r ->
  r.1.2 = dom r.1.1 /\ (forall id, id ∈ r.2 <-> exists rt, r.1.1 !! id = Some rt /\ lc_link_type (rt_cfg rt) = Qkd) /\
  (forall id rt, r.1.1 !! id = Some rt -> lc_neighbor_id (rt_cfg rt) = id /\ build_link ev cfg (rt_cfg rt) = Ok rt).
Proof.
  induction links as [|l links IH]; intros rts direct dq r Hnd Hnew Hd Hq Hb; cbn [new_loop]; [by intros [= <-]|].
  cbn [map] in Hnd. apply NoDup_cons in Hnd as [Hl Hnd]. case_bool_decide as Ha.
  { apply IH; try done. intros l' Hin. apply Hnew. by right. }
  destruct (build_link ev cfg l) as [rt|e|] eqn:Hbl; cbn [res_bind]; [|done..]. pose proof (build_link_ok _ _ _ Hbl) as (Hc & Hty & _).
  assert (Hn : rts !! lc_neighbor_id l = None) by (apply Hnew; by left). apply IH; [done| | | |].
  - intros l' Hin. rewrite lookup_insert_ne; [apply Hnew; by right|]. intros E. apply Hl. rewrite E. by apply list_elem_of_fmap_2.
  - by rewrite dom_insert_L, Hd.
  - intros id. destruct (decide (id = lc_neighbor_id l)) as [->|Hne].
    + rewrite lookup_insert_eq. assert (lc_neighbor_id l ∉ dq) by (rewrite Hq; intros (rt' & Hr & _); congruence).
      destruct (lc_link_type l) eqn:El; cbn [is_qkd]; (split; [intros Hin|intros (rt' & [= <-] & Ht)]); rewrite ?Hc in *; try congruence; [by exists rt; rewrite Hc|set_solver].
    + rewrite lookup_insert_ne by done. rewrite <- Hq. destruct (lc_link_type l); cbn [is_qkd]; set_solver.
  - intros id rt' [[<- <-]|[_ Hr]]%lookup_insert_Some; [by rewrite Hc|by apply Hb].
Qed.

Lemma service_new_ok cfg s : NoDup (map lc_neighbor_id (qc_links cfg)) -> service_new ev cfg = Ok s -> service_ok ev s /\ sv_cfg s = cfg.
Proof.
  intros Hnd. unfold service_new. destruct (new_loop _ _ _ _ _ _) as [[[rts direct] dq]|e|] eqn:E; cbn [res_bind]; [|done..]. intros [= <-].
  apply new_loop_ok in E as (Hd & Hq & Hb); [|try done..]; cbn [fst snd] in *.
  - split; [|done]. split; cbn [sv_node sv_runtimes sv_cfg nd_links nd_routing]; [| |].
    + split; cbn [nd_routing nd_links ft_direct ft_direct_qkd ft_new_with_grades]; [by rewrite dom_fmap_L|]. intros id. rewrite Hq, lookup_fmap. split.
      * intros (rt & Hr & Ht). exists (rt_link rt). rewrite Hr. split; [done|]. destruct (Hb id rt Hr) as [_ Hbl%build_link_ok]. destruct Hbl as (_ & -> & _). done.
      * intros (l & (rt & Hr & ->)%fmap_Some & Ht). exists rt. split; [done|]. destruct (Hb id rt Hr) as [_ Hbl%build_link_ok]. destruct Hbl as (_ & E & _). congruence.
    + done.
    + intros id. rewrite lookup_fmap. destruct (rts !! id) as [rt|] eqn:Hr; [|done]. cbn. destruct (Hb id rt Hr) as [_ Hbl%build_link_ok]. by destruct Hbl as (_ & -> & _).
  - intros id. rewrite lookup_empty. split; [set_solver|by intros (? & ? & _)].
Qed.
End Consistent.

(** ** What the controller can do to the links *)

(** A configuration the list [peers] can make a QKC use: its own with the address
    of the list, or the one of a link made for the controller. *)
Definition from_list `{NetText} (an : SdnAnnouncer) (peers : list QkcPeerWire) (l : LinkConfig) : Prop :=
  exists p, p ∈ peers /\ parse_u 32 (pw_qkc_id p) = Some (lc_neighbor_id l) /\ pw_link_type p = "pqc" /\ is_socket_addr (pw_peer_addr p) = true /\
    ((exists own, sa_local_cfgs an !! lc_neighbor_id l = Some own /\ l = with_addr (pw_peer_addr p) own) \/
     (sa_local_cfgs an !! lc_neighbor_id l = None /\ l = sdn_link (sa_link_defaults an) (lc_neighbor_id l) p)).

(** The links that are not of the configuration. *)
Definition foreign (an : SdnAnnouncer) (s : QkcService) : gset Z := dom (sv_runtimes s) ∖ dom (sa_local_cfgs an).

Section Power.
Context `{TextCodecs, MacCrypto, NetText}.
Variable ev : LinkEnv.
Variable an : SdnAnnouncer.
Hypothesis Han : announcer_ok an.

(** One entry leaves the service, or adds one link. *)
Lemma apply_peer_cases s c p s' c' : apply_qkc_peer ev an (s, c) p = (s', c') ->
  (s' = s /\ (c' = c \/ c' = S c /\ (c < MAX_SDN_LINKS)%nat)) \/
  exists l rt, from_list an [p] l /\ sv_runtimes s !! lc_neighbor_id l = None /\ build_link ev (sv_cfg s) l = Ok rt /\ s' = (svc_add_link ev s l).1 /\
    sv_runtimes s' = <[lc_neighbor_id l := rt]> (sv_runtimes s) /\ sv_cfg s' = sv_cfg s /\
    ((is_Some (sa_local_cfgs an !! lc_neighbor_id l) /\ c' = c) \/
     (sa_local_cfgs an !! lc_neighbor_id l = None /\ c' = S c /\ (c < MAX_SDN_LINKS)%nat)).
Proof.
  unfold apply_qkc_peer. destruct (parse_u 32 (pw_qkc_id p)) as [id|] eqn:Hid; [|intros [= <- <-]; by left; auto].
  case_bool_decide as Hty; cbn [negb]; [|intros [= <- <-]; by left; auto].
  destruct (is_some (svc_link_to s id)); [intros [= <- <-]; by left; auto|].
  destruct (is_socket_addr (pw_peer_addr p)) eqn:Ha; cbn [negb]; [|intros [= <- <-]; by left; auto].
  assert (Hin : p ∈ [p]) by by left.
  destruct (sa_local_cfgs an !! id) as [own|] eqn:Hown.
  - intros [= <- <-]. destruct Han as [Hn _]. specialize (Hn _ _ Hown).
    destruct (add_link_cases ev s (with_addr (pw_peer_addr p) own)) as [->|(rt & Hnone & Hb & E)]; [by left; auto|]. right.
    exists (with_addr (pw_peer_addr p) own), rt. cbn [with_addr lc_neighbor_id] in *. split_and!; try done; [|by rewrite E|by rewrite E|].
    + exists p. cbn [with_addr lc_neighbor_id]. rewrite Hn. split_and!; try done. left. by exists own.
    + left. rewrite Hn. split; [by exists own|done].
  - destruct (Nat.leb_spec MAX_SDN_LINKS c) as [Hc|Hc]; intros [= <- <-]; [by left; auto|].
    destruct (add_link_cases ev s (sdn_link (sa_link_defaults an) id p)) as [->|(rt & Hnone & Hb & E)]; [by left; auto|]. right.
    exists (sdn_link (sa_link_defaults an) id p), rt. cbn [sdn_link lc_neighbor_id] in *. split_and!; try done; [|by rewrite E|by rewrite E|by right].
    exists p. cbn [sdn_link lc_neighbor_id]. split_and!; try done. by right.
Qed.

(** The first loop: links are only added, each from the list, and those that
    are not of the configuration within what the counter allows. *)
Lemma apply_loop peers : forall s c s' c', fold_left (apply_qkc_peer ev an) peers (s, c) = (s', c') ->
  sv_cfg s' = sv_cfg s /\ (service_ok ev s -> service_ok ev s') /\ sv_runtimes s ⊆ sv_runtimes s' /\
  (forall id rt, sv_runtimes s' !! id = Some rt -> sv_runtimes s !! id = Some rt \/ (lc_neighbor_id (rt_cfg rt) = id /\ from_list an peers (rt_cfg rt))) /\
  (size (foreign an s') + c <= size (foreign an s) + c')%nat /\ (c' <= c `max` MAX_SDN_LINKS)%nat.
Proof.
  induction peers as [|p peers IH]; intros s c s' c'; cbn [fold_left].
  { intros [= <- <-]. split_and!; try done; [by left|lia]. }
  destruct (apply_qkc_peer ev an (s, c) p) as [s1 c1] eqn:Hp. intros (Hcfg & Hok & Hsub & Hnew & Hf & Hc)%IH.
  assert (Hcons : forall l, from_list an peers l -> from_list an (p :: peers) l).
  { intros l (q & Hq & Hrest). exists q. split; [by right|done]. }
  apply apply_peer_cases in Hp as [[-> Hc1]|(l & rt & (q & Hq & Hfrom) & Hnone & Hb & -> & Hrts & Hcfg1 & Hlocal)].
  - split_and!; [done..| |lia|lia]. intros id rt Hr. destruct (Hnew id rt Hr) as [|[? ?]]; [by left|right; auto].
  - rewrite Hrts in Hsub, Hnew. pose proof (build_link_ok _ _ _ _ Hb) as (Hcl & _).
    assert (Hfs : (size (foreign an (svc_add_link ev s l).1) + c <= size (foreign an s) + c1)%nat).
    { unfold foreign. rewrite Hrts, dom_insert_L. destruct Hlocal as [[Hl ->]|(Hl & -> & _)].
      - replace (({[lc_neighbor_id l]} ∪ dom (sv_runtimes s)) ∖ dom (sa_local_cfgs an)) with (dom (sv_runtimes s) ∖ dom (sa_local_cfgs an)); [lia|].
        apply elem_of_dom in Hl. set_solver.
      - replace (({[lc_neighbor_id l]} ∪ dom (sv_runtimes s)) ∖ dom (sa_local_cfgs an)) with ({[lc_neighbor_id l]} ∪ dom (sv_runtimes s) ∖ dom (sa_local_cfgs an)).
        + rewrite size_union_alt, size_singleton. enough (size (dom (sv_runtimes s) ∖ dom (sa_local_cfgs an) ∖ {[lc_neighbor_id l]}) <= size (dom (sv_runtimes s) ∖ dom (sa_local_cfgs an)))%nat by lia.
          apply subseteq_size. set_solver.
        + apply not_elem_of_dom in Hl. set_solver. }
    split_and!; [congruence| | | |lia|destruct Hlocal as [[_ ->]|(_ & -> & ?)]; lia].
    + intros Hs. apply Hok. by apply add_link_ok.
    + etrans; [|exact Hsub]. by apply insert_subseteq.
    + intros id rt' Hr. destruct (Hnew id rt' Hr) as [[[<- <-]|[_ Hl]]%lookup_insert_Some|[? ?]]; [|by left|right; auto].
      right. rewrite Hcl. split; [done|]. exists q. apply list_elem_of_singleton in Hq as ->. split; [by left|done].
Qed.

Definition unwanted (peers : list QkcPeerWire) (id : Z) : Prop := (id ∉ wanted peers) /\ (id ∉ sa_local_links an).

Lemma drop_unwanted_lookup peers s id k :
  sv_runtimes (drop_unwanted an peers s id) !! k = (if decide (k = id /\ unwanted peers id) then None else sv_runtimes s !! k) /\
  sv_cfg (drop_unwanted an peers s id) = sv_cfg s /\ (service_ok ev s -> service_ok ev (drop_unwanted an peers s id)).
Proof.
  unfold drop_unwanted, unwanted. repeat case_bool_decide; cbn [negb andb]; try (rewrite decide_False by tauto; done).
  split_and!; [|unfold svc_remove_link; by destruct (_ !! id)|apply remove_link_ok].
  unfold svc_remove_link. destruct (sv_runtimes s !! id) eqn:E; cbn [fst with_node sv_runtimes].
  - destruct (decide _) as [[-> _]|Hn]; [by rewrite lookup_delete_eq|]. rewrite lookup_delete_ne; [done|]. intros ->. tauto.
  - by destruct (decide _) as [[-> _]|Hn].
Qed.

Lemma drop_loop peers ids : forall s, let s' := fold_left (drop_unwanted an peers) ids s in
  sv_cfg s' = sv_cfg s /\ (service_ok ev s -> service_ok ev s') /\
  forall k, sv_runtimes s' !! k = if decide (k ∈ ids /\ unwanted peers k) then None else sv_runtimes s !! k.
Proof.
  induction ids as [|id ids IH]; intros s; cbn [fold_left].
  { split_and!; [done|done|]. intros k. rewrite decide_False; [done|]. by intros [?%elem_of_nil _]. }
  destruct (IH (drop_unwanted an peers s id)) as (Hc & Hok & Hl).
  split_and!; [rewrite Hc; by apply (drop_unwanted_lookup peers s id 0)|intros; by apply Hok, (drop_unwanted_lookup peers s id 0)|].
  intros k. rewrite Hl, (proj1 (drop_unwanted_lookup peers s id k)).
  repeat destruct (decide _); try done; exfalso; set_solver.
Qed.

(** One list, applied. *)
Lemma apply_qkc_peers_spec peers s : service_ok ev s -> let s' := apply_qkc_peers ev an peers s in
  service_ok ev s' /\ sv_cfg s' = sv_cfg s /\
  (forall id rt, sv_runtimes s !! id = Some rt -> id ∈ sa_local_links an \/ id ∈ wanted peers -> sv_runtimes s' !! id = Some rt) /\
  (forall id rt, sv_runtimes s' !! id = Some rt -> (id ∈ sa_local_links an \/ id ∈ wanted peers) /\ (sv_runtimes s !! id = Some rt \/ from_list an peers (rt_cfg rt))) /\
  (size (foreign an s') <= size (foreign an s) `max` (MAX_SDN_LINKS + size (sa_local_cfgs an)))%nat.
Proof.
  intros Hs. unfold apply_qkc_peers. destruct (fold_left (apply_qkc_peer ev an) peers _) as [s1 c1] eqn:E. apply apply_loop in E as (Hc & Hok & Hsub & Hnew & Hf & Hcap).
  pose proof (drop_loop peers (elements (dom (sv_runtimes s1))) s1) as (Hdc & Hdok & Hl). set (s' := fold_left _ (elements _) s1) in *.
  assert (Hkeep : forall id, id ∈ sa_local_links an \/ id ∈ wanted peers -> ~ unwanted peers id) by (unfold unwanted; tauto).
  split_and!; [auto|congruence| | |].
  - intros id rt Hr Hw. rewrite Hl, decide_False by (intros [_ Hu]; by apply (Hkeep id)). by apply (lookup_weaken _ _ _ _ Hr).
  - intros id rt. rewrite Hl. destruct (decide _) as [|Hn]; [done|]. intros Hr. split.
    + destruct (decide (id ∈ sa_local_links an)), (decide (id ∈ wanted peers)); try tauto. exfalso. apply Hn. split; [|done].
      apply elem_of_elements, elem_of_dom. by exists rt.
    + destruct (Hnew id rt Hr) as [|[_ ?]]; auto.
  - assert (size (foreign an s') <= size (foreign an s1))%nat as Hss.
    { apply subseteq_size. unfold foreign. intros k. rewrite !elem_of_difference, !elem_of_dom, Hl. destruct (decide _); [by intros [[] ?]|done]. }
    assert (size (dom (sv_runtimes s)) <= size (foreign an s) + size (sa_local_cfgs an))%nat as Hb.
    { rewrite <- (size_dom (D := gset Z) (sa_local_cfgs an)). unfold foreign. rewrite <- size_union by set_solver. apply subseteq_size.
      intros k Hk. destruct (decide (k ∈ dom (sa_local_cfgs an))); set_solver. }
    assert (size (foreign an s) <= size (dom (sv_runtimes s)))%nat by (apply subseteq_size; unfold foreign; set_solver).
    unfold link_count in *. rewrite size_dom in *. lia.
Qed.
End Power.

Lemma own_ids links : (map (fun l => (lc_neighbor_id l, l)) links).*1 = map lc_neighbor_id links.
Proof. induction links as [|l links IH]; [done|]. cbn. by f_equal. Qed.

Lemma from_config_ok cfg http_ok an : from_config cfg http_ok = Some an -> announcer_ok an.
Proof.
  unfold from_config. intros (url & _ & (ip & _ & E)%bind_Some)%bind_Some. destruct http_ok; [|done]. injection E as <-. split; cbn [sa_local_cfgs sa_local_links].
  - intros id l Hl%elem_of_list_to_map_2. apply list_elem_of_In, in_rev, list_elem_of_In, list_elem_of_fmap in Hl as (l' & [= -> ->] & _). done.
  - assert ((rev (map (fun l => (lc_neighbor_id l, l)) (qc_links cfg))).*1 ≡ₚ map lc_neighbor_id (qc_links cfg)) as Hp.
    { by rewrite <- Permutation_rev, own_ids. }
    apply set_eq. intros k. by rewrite elem_of_list_to_set, dom_list_to_map_L, elem_of_list_to_set, Hp.
Qed.

Lemma new_loop_dom `{TextCodecs, MacCrypto} ev cfg links : forall rts direct dq r, new_loop ev cfg links rts direct dq = Ok r ->
  forall id, is_Some (r.1.1 !! id) -> is_Some (rts !! id) \/ id ∈ map lc_neighbor_id links.
Proof.
  induction links as [|l links IH]; intros rts direct dq r; cbn [new_loop map]; [intros [= <-]; by left|].
  case_bool_decide; [intros Hr id [|]%(IH _ _ _ _ Hr id); [by left|right; by right]|].
  destruct (build_link ev cfg l) as [rt|e|]; cbn [res_bind]; [|done..]. intros Hr id [Hi|]%(IH _ _ _ _ Hr id); [|right; by right].
  destruct (decide (id = lc_neighbor_id l)) as [->|Hne]; [right; by left|left]. by rewrite lookup_insert_ne in Hi.
Qed.

(** The service after the lists of a number of answers. *)
Definition after_answers `{TextCodecs, MacCrypto, NetText} (ev : LinkEnv) (an : SdnAnnouncer) (answers : list (list QkcPeerWire)) (s : QkcService) : QkcService :=
  fold_left (fun s peers => apply_qkc_peers ev an peers s) answers s.

Lemma after_answers_ok `{TextCodecs, MacCrypto, NetText} ev cfg http_ok an s0 answers :
  NoDup (map lc_neighbor_id (qc_links cfg)) -> from_config cfg http_ok = Some an -> service_new ev cfg = Ok s0 ->
  let s := after_answers ev an answers s0 in
  service_ok ev s /\ sv_cfg s = cfg /\ (size (foreign an s) <= MAX_SDN_LINKS + size (sa_local_cfgs an))%nat.
Proof.
  intros Hnd Han Hnew. pose proof (from_config_ok _ _ _ Han) as Hok. induction answers as [|peers answers IH] using rev_ind.
  - cbn. pose proof (service_new_ok _ _ _ Hnd Hnew) as [Hs Hc]. split_and!; [done|done|].
    assert (foreign an s0 = ∅) as ->; [|rewrite size_empty; lia]. unfold foreign. apply set_eq. intros k. split; [|set_solver].
    rewrite elem_of_difference, elem_of_dom. intros [Hk Hno]. exfalso. apply Hno. destruct Hok as [_ <-].
    unfold service_new in Hnew. destruct (new_loop _ _ _ _ _ _) as [[[rts direct] dq]|e|] eqn:E; cbn [res_bind] in Hnew; [|done..]. injection Hnew as <-.
    destruct (new_loop_dom _ _ _ _ _ _ _ E k Hk) as [[]|Hin]; [done|].
    unfold from_config in Han. apply bind_Some in Han as (url & _ & (ip & _ & Ha)%bind_Some). destruct http_ok; [|done]. injection Ha as <-.
    cbn [sa_local_links]. by apply elem_of_list_to_set.
  - unfold after_answers in *. rewrite fold_left_app. cbn [fold_left]. destruct IH as (Hs & Hc & Hf).
    destruct (apply_qkc_peers_spec ev an Hok peers _ Hs) as (Hs' & Hc' & _ & _ & Hf'). split_and!; [done|congruence|lia].
Qed.

(** C16: What an untrusted controller can do with its answers.  Take a QKC started
    from a configuration that names each neighbour once, and any answers since.
    The next answer keeps every link of the configuration, and every one it
    lists, as it is: the same runtime with its keys; whatever link it makes is
    one it lists, over PQC and at a socket address, built from the
    configuration of the QKC where there is one, and without the secret or the
    key of any pair where there is not; routing and links stay in step; and the
    links that are not of the configuration never exceed the cap by more than
    the number of links of the configuration. *)
Theorem controller_cannot_touch_own_links `{TextCodecs, MacCrypto, NetText} ev cfg http_ok an s0 answers peers :
  NoDup (map lc_neighbor_id (qc_links cfg)) -> from_config cfg http_ok = Some an -> service_new ev cfg = Ok s0 ->
  let s := after_answers ev an answers s0 in let s' := apply_qkc_peers ev an peers s in
  links_match (sv_node s') /\
  (forall id rt, sv_runtimes s !! id = Some rt -> id ∈ map lc_neighbor_id (qc_links cfg) \/ id ∈ wanted peers -> sv_runtimes s' !! id = Some rt) /\
  (forall id rt, sv_runtimes s' !! id = Some rt -> sv_runtimes s !! id = None ->
     exists p, p ∈ peers /\ parse_u 32 (pw_qkc_id p) = Some id /\ pw_link_type p = "pqc" /\ is_socket_addr (pw_peer_addr p) = true /\
       build_link ev cfg (rt_cfg rt) = Ok rt /\
       ((exists own, own ∈ qc_links cfg /\ lc_neighbor_id own = id /\ rt_cfg rt = with_addr (pw_peer_addr p) own) \/
        (lc_link_type (rt_cfg rt) = Pqc /\ lc_link_psk (rt_cfg rt) = None /\ lc_peer_verify_key (rt_cfg rt) = None))) /\
  (size (dom (sv_runtimes s') ∖ list_to_set (map lc_neighbor_id (qc_links cfg)) : gset Z) <= MAX_SDN_LINKS + length (qc_links cfg))%nat.
Proof.
  intros Hnd Han Hnew. destruct (after_answers_ok ev cfg http_ok an s0 answers Hnd Han Hnew) as (Hs & Hc & Hf). cbv zeta.
  set (s := after_answers ev an answers s0) in *. pose proof (from_config_ok _ _ _ Han) as Hok.
  destruct (apply_qkc_peers_spec ev an Hok peers s Hs) as (Hs' & Hc' & Hkeep & Hfrom & Hf'). set (s' := apply_qkc_peers ev an peers s) in *.
  unfold from_config in Han. apply bind_Some in Han as (url & _ & (ip & _ & Ha)%bind_Some). destruct http_ok; [|done].
  assert (Hll : sa_local_links an = list_to_set (map lc_neighbor_id (qc_links cfg))) by by injection Ha as <-.
  assert (Hlc : sa_local_cfgs an = list_to_map (rev (map (fun l => (lc_neighbor_id l, l)) (qc_links cfg)))) by by injection Ha as <-.
  split_and!; [apply Hs'| | |].
  - intros id rt Hr Hw. apply Hkeep; [done|]. by rewrite Hll, elem_of_list_to_set.
  - intros id rt Hr Hno. destruct (Hfrom id rt Hr) as [_ [Hold|(p & Hp & Hid & Hty & Ha' & Hl)]]; [congruence|].
    destruct (so_built _ _ Hs' id rt Hr) as [Hn Hb]. rewrite Hn in *. exists p. split_and!; try done; [congruence|].
    destruct Hl as [(own & Hown & ->)|[_ ->]]; [left|by right]. exists own. split_and!; [|by apply Hok in Hown|done].
    rewrite Hlc in Hown. apply elem_of_list_to_map_2 in Hown. rewrite <- Permutation_rev in Hown. apply list_elem_of_fmap in Hown as (l' & [= -> ->] & ?). done.
  - assert (size (sa_local_cfgs an) <= length (qc_links cfg))%nat as Hlen.
    { rewrite Hlc, map_size_list_to_map by (by rewrite <- Permutation_rev, own_ids). by rewrite length_rev, length_map. }
    unfold foreign in Hf'. rewrite <- Hll, (proj2 Hok). fold (foreign an s') in *. unfold foreign in *. lia.
Qed.

(** ** Nodes

    The first declares a link to the second by its id; the second has no links. *)

#[local] Existing Instances any_text.

Definition own_link (bits : Z) : LinkConfig :=
  mkLc 2 "" Pqc None None None None None default_pqc_suite bits default_rekey_keys default_rekey_secs default_rekey_lookahead
    None None None None None None None None.
Definition node_cfg (k : Z) (links : list LinkConfig) : QkcConfig :=
  mkQc k "0.0.0.0:20000" "127.0.0.1:20001" (String.append "10.0.0." (String.append (to_string k) ":20002")) (Some "http://sdn:19002/") None 30
    (Some (mkTls "ca" "cert" "key")) None links.
Definition node_ident (k : Z) : SignIdentity := mkSignId ([k] : SigningKey) (sample_chain k (String.append "dkms://qkc-" (to_string k))) [].
Definition node_env (k : Z) : LinkEnv := mkEnv (Some (node_ident k)) (fun _ _ => true) (fun _ => [1]).
Definition node_ann (cfg : QkcConfig) : SdnAnnouncer :=
  default (mkAnnouncer "" 0 "" 0 "" [] 0 builtin_defaults ∅ ∅ false) (from_config cfg true).
Definition node_svc (k : Z) (cfg : QkcConfig) : QkcService :=
  match service_new (node_env k) cfg with Ok s => s | _ => mkSvc cfg node1 ∅ end.

Definition cfg_1 (bits : Z) : QkcConfig := node_cfg 1 [own_link bits].
Definition cfg_2 : QkcConfig := node_cfg 2 [].

Lemma node_svc_ok k cfg : NoDup (map lc_neighbor_id (qc_links cfg)) -> (match service_new (node_env k) cfg with Ok _ => true | _ => false end) = true ->
  service_ok (node_env k) (node_svc k cfg) /\ sv_cfg (node_svc k cfg) = cfg.
Proof. unfold node_svc. intros Hnd. destruct (service_new (node_env k) cfg) eqn:E; [|done..]. intros _. by apply service_new_ok. Qed.

Definition listed (k : Z) : QkcPeerWire := mkPw (to_string k) "10.0.0.9:20000" "pqc" 256.
Definition svc_1 : QkcService := node_svc 1 (cfg_1 256).

Lemma controller_cannot_touch_own_links_witness :
  let an := node_ann (cfg_1 256) in
  let s := after_answers (node_env 1) an [[listed 2; listed 3]] svc_1 in let s' := apply_qkc_peers (node_env 1) an [listed 4] s in
  is_Some (sv_runtimes s !! 2) /\ sv_runtimes s' !! 2 = sv_runtimes s !! 2 /\ links_match (sv_node s').
Proof.
  cbv zeta. set (an := node_ann (cfg_1 256)). set (s := after_answers _ _ _ _).
  assert (Hnd : NoDup (map lc_neighbor_id (qc_links (cfg_1 256)))) by (apply (bool_decide_unpack _); by vm_compute).
  assert (Hn : service_new (node_env 1) (cfg_1 256) = Ok svc_1) by reflexivity.
  assert (Hf : from_config (cfg_1 256) true = Some an) by reflexivity.
  destruct (controller_cannot_touch_own_links (node_env 1) (cfg_1 256) true an svc_1 [[listed 2; listed 3]] [listed 4] Hnd Hf Hn) as (Hm & Hkeep & _).
  assert (is_Some (sv_runtimes s !! 2)) as [rt Hr] by (vm_compute; by eexists). split_and!; [by exists rt| |exact Hm].
  rewrite Hr. apply (Hkeep 2 rt Hr). left. by left.
Defined.

(** The cap of the links made for the controller counts the links that are
    declared and not up as its own: with one of them it makes 65. *)
Theorem cap_counts_declared_links :
  let answer := map listed (seqZ 10 80) in
  let s := after_answers (node_env 1) (node_ann (cfg_1 256)) [answer; answer] svc_1 in
  size (foreign (node_ann (cfg_1 256)) s) = 65%nat.
Proof. vm_compute. reflexivity. Qed.

Definition qkd_link_to (k : Z) : LinkConfig :=
  mkLc k "10.0.0.2:20000" Qkd (Some "https://kme") None None None None default_pqc_suite 256 default_rekey_keys default_rekey_secs default_rekey_lookahead
    None None None None None None None None.

(** A configuration may name a neighbour twice.  With a QKD link and then a PQC
    link to it the node has the PQC link, and sends to the neighbour as one
    reached over QKD. *)
Theorem repeated_neighbour_is_sent_to_as_qkd :
  let cfg := node_cfg 1 [qkd_link_to 2; with_addr "10.0.0.2:20000" (own_link 256)] in
  validate cfg = Ok tt /\ exists s l, service_new (node_env 1) cfg = Ok s /\ nd_links (sv_node s) !! 2 = Some l /\ lk_type l = Pqc /\
    next_hop_graded (nd_routing (sv_node s)) 2 0 true = Some 2.
Proof. split; [reflexivity|]. do 2 eexists. split_and!; reflexivity. Qed.

Definition short_psk_link : LinkConfig :=
  mkLc 2 "10.0.0.2:20000" Pqc None None None None None default_pqc_suite 256 default_rekey_keys default_rekey_secs default_rekey_lookahead
    None None None None (Some "x") (Some PqcRequire) None (Some Require).

(** A [link_psk] below 32 bytes is ignored by the handshake, which then runs
    without authentication, and is the root of the MAC of the frames. *)
Theorem short_psk_is_used_for_frames : exists rt h fa,
  build_link (mkEnv None (fun _ _ => true) (fun _ => [1])) (node_cfg 1 []) short_psk_link = Ok rt /\
  rt_pqc rt = Some h /\ hc_psk (hs_cfg h) = None /\ lk_auth (rt_link rt) = Some fa /\ exists session key, fa_src fa = Fixed [120] session key.
Proof. do 3 eexists. split_and!; [reflexivity..|]. by do 2 eexists. Qed.
