(* ===== verification/QkcSdn.v ===== *)
(** * Links a controller makes between two QKCs (sdn/src/topology.rs, qkc/src/sdn_client.rs)

    The answer of the controller carried to the announcer of a QKC: two nodes it
    joins by a PQC edge build links whose handshakes accept each other. *)

From Stdlib Require Import ZArith Lia String.
From stdpp Require Import sorting strings.
From S2P Require Import Prelude Text Float64 SdnTopology SdnStore SdnGraph SdnWcmp SdnHttp.
From S2P Require Import Wire Primitives Signing QkcTypes SecretStore FrameMac FrameAuth Routing PeerOut KeyStore Relay Handshake SdnRegistry QkcLinks.

#[local] Open Scope string_scope.
#[local] Open Scope Z_scope.

(** The entry of an answer as it is written and read. *)
Definition wire_peer (p : QkcPeer) : QkcPeerWire :=
  mkPw (kp_qkc_id p) (kp_peer_addr p) (match kp_link_type p with SdnTopology.Qkd => "qkd" | SdnTopology.Pqc => "pqc" end) (kp_key_size_bits p).

Definition answer_for (t : Topology) (k : Z) : list QkcPeerWire := map wire_peer (qkc_peers t (to_string k)).

(** ** What the controller lists *)




Section Listed.
Context `{TextCodecs, MacCrypto, NetText}.
Variable ev : LinkEnv.
Variable an : SdnAnnouncer.
Hypothesis Han : announcer_ok an.


End Listed.

(** ** Both ends of an edge *)






Section Join.
Context `{TextCodecs, MacCrypto, NetText}.


End Join.


(** ** Two nodes

    The first declares a link to the second by its id; the second has no links. *)

#[local] Existing Instances flat_libm map_order any_text.

Definition joined_ops (bits : Z) : list SdnOp :=
  [OpQkc (announce_body (node_ann (cfg_1 bits)) (fun _ => None)); OpQkc (announce_body (node_ann cfg_2) (fun _ => None))].
Definition joined (bits : Z) : Topology := st_topo (sdn_run (joined_ops bits)).





(** The size of the keys is not announced: the first node declares 1024 bits, the
    edge says 256, and the second checks the signature of a message over other
    bytes than the first signed. *)
Theorem declared_size_is_lost :
  let sa := apply_qkc_peers (node_env 1) (node_ann (cfg_1 1024)) (answer_for (joined 1024) 1) (node_svc 1 (cfg_1 1024)) in
  let sb := apply_qkc_peers (node_env 2) (node_ann cfg_2) (answer_for (joined 1024) 2) (node_svc 2 cfg_2) in
  (rta ← sv_runtimes sa !! 2; ha ← rt_pqc rta; rtb ← sv_runtimes sb !! 1; hb ← rt_pqc rtb;
   Some (hc_key_size_bits (hs_cfg ha), hc_key_size_bits (hs_cfg hb),
         bool_decide (canonical_msg (recv_fields (hs_cfg hb) MInit 0 [1]) = canonical_msg (sent_fields (hs_cfg ha) MInit 0 [1]))))
  = Some (1024, 256, false).
Proof. vm_compute. reflexivity. Qed.
