(* ===== verification/Quditto.v ===== *)
(** * The simulated KME (quditto/src/config.rs, crypto.rs, link.rs, service.rs, server.rs)

    One process stands for both ends of a QKD link: it mints keys into a bounded
    queue, hands them out by number to the one end and by id to the other.
    [LinkBuffer] is the state, [get_status], [get_enc_keys], [get_dec_keys] and
    [post_dec_keys] the routes, [mint_tick] one tick of the minter.  The bytes of
    the generator are an argument; the two encodings of an answer carry the same
    keys. *)

From Stdlib Require Import ZArith Lia.
From S2P Require Import Prelude QkcTypes Float64.

(** ** Configuration *)

Inductive FullMode := FmDrop | FmPause.
#[export] Instance FullMode_eq_dec : EqDecision FullMode.
Proof. solve_decision. Defined.

Record RateStep := mkStep { rs_at_s : f64; rs_factor : f64 }.

Record QudittoConfig := mkQd {
  qd_r0 : f64;
  qd_alpha : f64;
  qd_distance_km : f64;
  qd_max_buffer_keys : Z;
  qd_key_size_bits : Z;
  qd_full_mode : FullMode;
  qd_block_keys : Z;
  qd_rate_step : option RateStep;
}.

(** [validate]: whether the configuration is taken. *)
Definition qd_validate (c : QudittoConfig) : bool :=
  negb (fle (qd_r0 c) f_zero) && negb (flt (qd_alpha c) f_zero) && negb (flt (qd_distance_km c) f_zero) && negb (qd_max_buffer_keys c =? 0) &&
  negb ((qd_key_size_bits c =? 0) || negb (qd_key_size_bits c mod 8 =? 0)) && negb (qd_max_buffer_keys c <? qd_block_keys c) &&
  match qd_rate_step c with
  | None => true
  | Some s => negb (flt (rs_at_s s) f_zero || negb (is_finite (rs_factor s)) || fle (rs_factor s) f_zero)
  end.

(** ** Keys *)

(** [Key::mint] on the bytes drawn: sixteen for the UUID, the rest for the key. *)
Definition mint (buf : bytes) : OtpKey :=
  let id := take 16 buf in
  let id := <[6%nat := Z.lor (Z.land (nth 6 id 0) 0x0f) 0x40]> id in
  let id := <[8%nat := Z.lor (Z.land (nth 8 id 0) 0x3f) 0x80]> id in
  mkKey id (drop 16 buf).

(** ** The buffer *)

Definition link_rate_kps `{Libm} (r0_kps alpha distance_km : f64) : f64 :=
  fmul r0_kps (powf (f_of_Z 10) (fdiv (fmul (fneg alpha) distance_km) (f_of_Z 10))).

Record Stats := mkQStats { n_generated : Z; n_dropped : Z; n_paused : Z; n_delivered_enc : Z; n_delivered_dec : Z }.
Record LinkBuffer := mkLb { lb_cfg : QudittoConfig; lb_fresh : list OtpKey; lb_delivered : gmap bytes bytes; lb_stats : Stats }.

Definition lb_new (cfg : QudittoConfig) : LinkBuffer := mkLb cfg [] ∅ (mkQStats 0 0 0 0 0).

Definition with_qstats (f : Stats -> Stats) (lb : LinkBuffer) : LinkBuffer := mkLb (lb_cfg lb) (lb_fresh lb) (lb_delivered lb) (f (lb_stats lb)).

Definition lb_push (lb : LinkBuffer) (k : OtpKey) : LinkBuffer * bool :=
  if zlen (lb_fresh lb) <? qd_max_buffer_keys (lb_cfg lb) then
    (with_qstats (fun s => mkQStats (as_u 64 (n_generated s + 1)) (n_dropped s) (n_paused s) (n_delivered_enc s) (n_delivered_dec s))
       (mkLb (lb_cfg lb) (lb_fresh lb ++ [k]) (lb_delivered lb) (lb_stats lb)), true)
  else
    (with_qstats (fun s => mkQStats (n_generated s) (as_u 64 (n_dropped s + 1)) (n_paused s) (n_delivered_enc s) (n_delivered_dec s)) lb, false).

Fixpoint enc_loop (n : nat) (fresh : list OtpKey) (delivered : gmap bytes bytes) : list OtpKey * gmap bytes bytes * list OtpKey :=
  match n, fresh with
  | S n, k :: fresh => let '(fresh, delivered, out) := enc_loop n fresh (<[key_id k := material k]> delivered) in (fresh, delivered, k :: out)
  | _, _ => (fresh, delivered, [])
  end.

Definition take_for_enc (lb : LinkBuffer) (count : Z) : LinkBuffer * list OtpKey :=
  let '(fresh, delivered, out) := enc_loop (Z.to_nat count) (lb_fresh lb) (lb_delivered lb) in
  (mkLb (lb_cfg lb) fresh delivered
     (let s := lb_stats lb in mkQStats (n_generated s) (n_dropped s) (n_paused s) (as_u 64 (n_delivered_enc s + zlen out)) (n_delivered_dec s)), out).

Definition take_for_dec (lb : LinkBuffer) (id : bytes) : LinkBuffer * option bytes :=
  match lb_delivered lb !! id with
  | None => (lb, None)
  | Some m =>
      (mkLb (lb_cfg lb) (lb_fresh lb) (delete id (lb_delivered lb))
         (let s := lb_stats lb in mkQStats (n_generated s) (n_dropped s) (n_paused s) (n_delivered_enc s) (as_u 64 (n_delivered_dec s + 1))), Some m)
  end.

Definition fresh_available (lb : LinkBuffer) : Z := zlen (lb_fresh lb).
Definition fresh_space (lb : LinkBuffer) : Z := qd_max_buffer_keys (lb_cfg lb) - zlen (lb_fresh lb).
Definition delivered_pending (lb : LinkBuffer) : Z := Z.of_nat (size (lb_delivered lb)).
Definition note_paused (n : Z) (lb : LinkBuffer) : LinkBuffer :=
  with_qstats (fun s => mkQStats (n_generated s) (n_dropped s) (as_u 64 (n_paused s + n)) (n_delivered_enc s) (n_delivered_dec s)) lb.

(** ** The minter *)

(** [(tick_ms, per_tick)]. *)
Definition cadence (rate : f64) : Z * f64 :=
  let tick_ms := if fle (f_of_Z 10) rate then 100 else Z.max (f_as_u 64 (fround (fdiv (f_of_Z 1000) rate))) 100 in
  (tick_ms, fdiv (fmul rate (f_of_Z tick_ms)) (f_of_Z 1000)).

Definition mint_block (lb : LinkBuffer) (bufs : list bytes) : LinkBuffer := fold_left (fun lb buf => (lb_push lb (mint buf)).1) bufs lb.

(** The [while] of a tick, at most [fuel] turns of it; [draw i] is the bytes of
    the block of turn [i]. *)
Fixpoint mint_loop (fuel : nat) (block : Z) (draw : nat -> list bytes) (due : f64) (lb : LinkBuffer) : LinkBuffer * f64 :=
  match fuel with
  | O => (lb, due)
  | S fuel =>
      if negb (fle (f_of_Z block) due) then (lb, due) else
      if bool_decide (qd_full_mode (lb_cfg lb) = FmPause) && (fresh_space lb <? block) then
        if flt (f_of_Z block) due then (note_paused (f_as_u 64 (fsub due (f_of_Z block))) lb, f_of_Z block) else (lb, due)
      else mint_loop fuel block draw (fsub due (f_of_Z block)) (mint_block lb (draw fuel))
  end.

Definition mint_tick (fuel : nat) (draw : nat -> list bytes) (per_tick due : f64) (lb : LinkBuffer) : LinkBuffer * f64 :=
  mint_loop fuel (Z.max (qd_block_keys (lb_cfg lb)) 1) draw (fadd due per_tick) lb.

(** ** The routes *)

Record KStatus := mkKStatus { kst_key_size : Z; kst_stored : Z; kst_max_count : Z; kst_max_per_request : Z }.

(** An answer: keys, a refusal with its status, or nothing the client can read. *)
Inductive Reply := RKeys (keys : list OtpKey) | RRejected (status : Z) | RLost.

Definition get_status (lb : LinkBuffer) : KStatus :=
  mkKStatus (qd_key_size_bits (lb_cfg lb)) (fresh_available lb) (qd_max_buffer_keys (lb_cfg lb)) 128.

Definition get_enc_keys (lb : LinkBuffer) (number size : Z) : LinkBuffer * Reply :=
  if negb (size =? qd_key_size_bits (lb_cfg lb)) then (lb, RRejected 400) else
  if number =? 0 then (lb, RRejected 400) else
  let '(lb, taken) := take_for_enc lb number in
  match taken with [] => (lb, RRejected 503) | _ => (lb, RKeys taken) end.

Definition get_dec_keys (lb : LinkBuffer) (id : bytes) : LinkBuffer * Reply :=
  match take_for_dec lb id with
  | (lb, Some m) => (lb, RKeys [mkKey id m])
  | (lb, None) => (lb, RRejected 404)
  end.

Fixpoint post_loop (ids : list bytes) (lb : LinkBuffer) : LinkBuffer * list OtpKey :=
  match ids with
  | [] => (lb, [])
  | id :: ids =>
      let '(lb, m) := take_for_dec lb id in
      let '(lb, keys) := post_loop ids lb in
      (lb, match m with Some m => mkKey id m :: keys | None => keys end)
  end.

Definition post_dec_keys (lb : LinkBuffer) (ids : list bytes) : LinkBuffer * Reply :=
  match ids with
  | [] => (lb, RRejected 400)
  | _ => let '(lb, keys) := post_loop ids lb in match keys with [] => (lb, RRejected 404) | _ => (lb, RKeys keys) end
  end.

(** ** Each key goes out once to each end *)

Inductive QOp := QMint (buf : bytes) | QEnc (number size : Z) | QDec (id : bytes) | QDecMany (ids : list bytes).

(** The buffer, and what it has handed out by number and by id. *)
Record QRun := mkQRun { qr_lb : LinkBuffer; qr_enc : list OtpKey; qr_dec : list OtpKey }.

Definition keys_of (r : Reply) : list OtpKey := match r with RKeys keys => keys | _ => [] end.

Definition q_step (r : QRun) (op : QOp) : QRun :=
  match op with
  | QMint buf => mkQRun (lb_push (qr_lb r) (mint buf)).1 (qr_enc r) (qr_dec r)
  | QEnc number size => let '(lb, a) := get_enc_keys (qr_lb r) number size in mkQRun lb (qr_enc r ++ keys_of a) (qr_dec r)
  | QDec id => let '(lb, a) := get_dec_keys (qr_lb r) id in mkQRun lb (qr_enc r) (qr_dec r ++ keys_of a)
  | QDecMany ids => let '(lb, a) := post_dec_keys (qr_lb r) ids in mkQRun lb (qr_enc r) (qr_dec r ++ keys_of a)
  end.
Definition q_run (cfg : QudittoConfig) (ops : list QOp) : QRun := fold_left q_step ops (mkQRun (lb_new cfg) [] []).

(** The ids the minter made. *)
Definition minted (ops : list QOp) : list bytes := omap (fun op => match op with QMint buf => Some (key_id (mint buf)) | _ => None end) ops.

(** [ids] are the ids minted so far. *)
Record q_inv (ids : list bytes) (r : QRun) : Prop := mkQinv {
  qi_fresh : NoDup (map key_id (lb_fresh (qr_lb r)) ++ map key_id (qr_enc r));
  qi_minted : forall k, k ∈ lb_fresh (qr_lb r) ++ qr_enc r -> key_id k ∈ ids;
  qi_dec : NoDup (map key_id (qr_dec r));
  qi_same : forall k, k ∈ qr_dec r -> k ∈ qr_enc r;
  qi_left : forall id m, lb_delivered (qr_lb r) !! id = Some m <-> mkKey id m ∈ qr_enc r /\ id ∉ map key_id (qr_dec r);
  qi_cap : zlen (lb_fresh (qr_lb r)) <= Z.max 0 (qd_max_buffer_keys (lb_cfg (qr_lb r))) }.

Lemma enc_loop_spec n : forall fresh delivered, exists out rest, fresh = out ++ rest /\ (length out <= n)%nat /\ (out = [] -> n = 0%nat \/ fresh = []) /\
  enc_loop n fresh delivered = (rest, fold_left (fun m k => <[key_id k := material k]> m) out delivered, out).
Proof.
  induction n as [|n IH]; intros fresh delivered; [exists [], fresh; split_and!; auto|]. destruct fresh as [|k fresh]; [exists [], []; split_and!; auto; cbn; lia|].
  destruct (IH fresh (<[key_id k := material k]> delivered)) as (out & rest & E & Hl & _ & Heq). exists (k :: out), rest. cbn [enc_loop]. rewrite Heq, E.
  split_and!; [done|cbn; lia|done|done].
Qed.

Lemma fold_insert_lookup (keys : list OtpKey) : forall (m : gmap bytes bytes) id, NoDup (map key_id keys) ->
  forall v, fold_left (fun m k => <[key_id k := material k]> m) keys m !! id = Some v <->
    mkKey id v ∈ keys \/ ((id ∉ map key_id keys) /\ m !! id = Some v).
Proof.
  induction keys as [|k keys IH]; intros m id Hnd v; cbn [fold_left map]; [set_solver|]. cbn [map] in Hnd. apply NoDup_cons in Hnd as [Hk Hnd].
  rewrite (IH _ _ Hnd). assert (Hin : forall v, mkKey id v ∈ keys -> id ∈ map key_id keys) by (intros v' Hv; by apply (list_elem_of_fmap_2 key_id) in Hv).
  destruct (decide (id = key_id k)) as [->|Hne].
  - rewrite lookup_insert_eq. split.
    + intros [Hv|[_ [= <-]]]; [by apply Hin in Hv|]. left. destruct k. by left.
    + intros [[<-|Hv]%elem_of_cons|[Hn _]]; [right; split; [done|done]|by apply Hin in Hv|set_solver].
  - rewrite lookup_insert_ne by done. split.
    + intros [?|[? ?]]; [left; by right|right; set_solver].
    + intros [[E|Hv]%elem_of_cons|[Hn Hm]]; [by subst|by left|right; set_solver].
Qed.

Lemma enc_step_inv ids r n sz : q_inv ids r -> q_inv ids (q_step r (QEnc n sz)).
Proof.
  intros [Hf Hm Hd Hs Hl Hc]. cbn [q_step]. unfold get_enc_keys. destruct (negb _); [cbn; rewrite app_nil_r; by split|]. destruct (n =? 0); [cbn; rewrite app_nil_r; by split|].
  unfold take_for_enc. destruct (enc_loop_spec (Z.to_nat n) (lb_fresh (qr_lb r)) (lb_delivered (qr_lb r))) as (out & rest & Eo & _ & _ & ->).
  rewrite Eo in Hf, Hm, Hc. rewrite map_app in Hf.
  assert (Hnd : NoDup (map key_id out) /\ (forall k, k ∈ map key_id out -> k ∉ map key_id (qr_enc r))).
  { apply NoDup_app in Hf as (Hor & Hx & _). apply NoDup_app in Hor as (Ho & _ & _). split; [done|]. intros k Hk. apply Hx. set_solver. }
  destruct Hnd as [Hno Hdis].
  assert (Hgoal : q_inv ids (mkQRun (mkLb (lb_cfg (qr_lb r)) rest (fold_left (fun m k => <[key_id k := material k]> m) out (lb_delivered (qr_lb r)))
    (let s := lb_stats (qr_lb r) in mkQStats (n_generated s) (n_dropped s) (n_paused s) (as_u 64 (n_delivered_enc s + zlen out)) (n_delivered_dec s)))
    (qr_enc r ++ out) (qr_dec r))).
  { split; cbn [qr_lb qr_enc qr_dec lb_fresh lb_delivered lb_cfg].
    - rewrite map_app, app_assoc. rewrite <- app_assoc in Hf. by rewrite (Permutation_app_comm _ (map key_id out)).
    - intros k Hk. apply Hm. set_solver.
    - done.
    - intros k Hk. apply elem_of_app. left. by apply Hs.
    - intros id m. rewrite (fold_insert_lookup out _ id Hno m), Hl. assert (Ho : mkKey id m ∈ out -> id ∈ map key_id out) by apply (list_elem_of_fmap_2 key_id).
      assert (He : mkKey id m ∈ qr_enc r -> id ∈ map key_id (qr_enc r)) by apply (list_elem_of_fmap_2 key_id).
      assert (Hde : id ∈ map key_id (qr_dec r) -> id ∈ map key_id (qr_enc r)).
      { intros (k & -> & Hk%Hs)%list_elem_of_fmap. by apply (list_elem_of_fmap_2 key_id). }
      rewrite elem_of_app. specialize (Hdis id). destruct (decide (id ∈ map key_id out)); intuition.
    - zsimp. pose proof (zlen_nonneg out). lia. }
  destruct out as [|k out]; exact Hgoal.
Qed.

Lemma dec_take_inv ids r id : q_inv ids r ->
  let '(lb, m) := take_for_dec (qr_lb r) id in q_inv ids (mkQRun lb (qr_enc r) (qr_dec r ++ match m with Some m => [mkKey id m] | None => [] end)).
Proof.
  intros [Hf Hm Hd Hs Hl Hc]. unfold take_for_dec. destruct (lb_delivered (qr_lb r) !! id) as [m|] eqn:E; [|rewrite app_nil_r; by split].
  apply Hl in E as [Hin Hno]. split; cbn [qr_lb qr_enc qr_dec lb_fresh lb_delivered lb_cfg]; try done.
  - rewrite map_app. apply NoDup_app. cbn. split_and!; [done|set_solver|apply NoDup_singleton].
  - intros k [Hk| ->%list_elem_of_singleton]%elem_of_app; [by apply Hs|done].
  - intros id' m'. rewrite map_app. cbn [map key_id]. rewrite lookup_delete_Some, Hl. set_solver.
Qed.

Lemma post_loop_inv ids l : forall r, q_inv ids r -> let '(lb, keys) := post_loop l (qr_lb r) in q_inv ids (mkQRun lb (qr_enc r) (qr_dec r ++ keys)).
Proof.
  induction l as [|id l IH]; intros r Hr; cbn [post_loop]; [rewrite app_nil_r; by destruct r|].
  pose proof (dec_take_inv ids r id Hr) as H1. destruct (take_for_dec (qr_lb r) id) as [lb m]. specialize (IH _ H1). cbn [qr_lb qr_enc qr_dec] in IH.
  destruct (post_loop l lb) as [lb' keys]. rewrite <- app_assoc in IH. by destruct m.
Qed.

Lemma q_run_inv cfg ops : NoDup (minted ops) -> q_inv (minted ops) (q_run cfg ops).
Proof.
  induction ops as [|op ops IH] using rev_ind.
  { intros _. split; cbn; [apply NoDup_nil_2|set_solver|apply NoDup_nil_2|set_solver| |apply Z.le_max_l]. intros id m. rewrite lookup_empty. set_solver. }
  unfold minted, q_run. rewrite omap_app, fold_left_app. fold (minted ops) (q_run cfg ops). intros Hnd.
  apply NoDup_app in Hnd as (Hops & Hdis & _). specialize (IH Hops). cbn [fold_left]. destruct op as [buf|n sz|id|l]; cbn [omap list_omap].
  - destruct IH as [Hf Hm Hd Hs Hl Hc]. cbn [q_step]. assert (Hnew : key_id (mint buf) ∉ minted ops) by (intros Hin; apply (Hdis _ Hin); by left).
    unfold lb_push. destruct (Z.ltb_spec (zlen (lb_fresh (qr_lb (q_run cfg ops)))) (qd_max_buffer_keys (lb_cfg (qr_lb (q_run cfg ops)))));
      split; cbn [fst qr_lb qr_enc qr_dec lb_fresh lb_delivered lb_cfg with_qstats]; try done.
    + rewrite map_app. cbn [map]. rewrite <- app_assoc. cbn [app]. apply NoDup_app. apply NoDup_app in Hf as (H1 & H2 & H3). split_and!; [done| |].
      * intros k Hk [->|Hk']%elem_of_cons; [|by apply (H2 k)]. apply Hnew. apply list_elem_of_fmap in Hk as (k' & -> & Hk'). apply Hm. set_solver.
      * apply NoDup_cons. split; [|done]. intros (k' & E & Hk')%list_elem_of_fmap. apply Hnew. rewrite E. apply Hm. set_solver.
    + intros k Hk. rewrite elem_of_app. destruct (decide (k ∈ lb_fresh (qr_lb (q_run cfg ops)) ++ qr_enc (q_run cfg ops))) as [Hin|Hin]; [left; by apply Hm|right].
      assert (k = mint buf) as -> by set_solver. by left.
    + zsimp. cbn [zlen length]. lia.
    + intros k Hk. rewrite elem_of_app. left. by apply Hm.
  - rewrite app_nil_r. by apply enc_step_inv.
  - rewrite app_nil_r. cbn [q_step]. unfold get_dec_keys. pose proof (dec_take_inv _ _ id IH) as H1. destruct (take_for_dec _ id) as [lb [m|]]; exact H1.
  - rewrite app_nil_r. cbn [q_step]. unfold post_dec_keys. destruct l as [|id l]; [cbn; rewrite app_nil_r; by destruct (q_run cfg ops)|].
    pose proof (post_loop_inv _ (id :: l) _ IH) as H1. destruct (post_loop (id :: l) _) as [lb keys]. by destruct keys.
Qed.

Lemma post_loop_cfg l : forall lb, lb_cfg (post_loop l lb).1 = lb_cfg lb.
Proof.
  induction l as [|id l IH]; intros lb; cbn [post_loop]; [done|]. assert (Ht : lb_cfg (take_for_dec lb id).1 = lb_cfg lb) by (unfold take_for_dec; by destruct (_ !! id)).
  destruct (take_for_dec lb id) as [lb1 m]. specialize (IH lb1). destruct (post_loop l lb1). cbn in *. congruence.
Qed.

Lemma q_run_cfg cfg ops : lb_cfg (qr_lb (q_run cfg ops)) = cfg.
Proof.
  induction ops as [|op ops IH] using rev_ind; [done|]. unfold q_run. rewrite fold_left_app. fold (q_run cfg ops). set (r := q_run cfg ops) in *. cbn [fold_left].
  destruct op as [buf|n sz|id|l]; cbn [q_step].
  - unfold lb_push. by destruct (_ <? _).
  - unfold get_enc_keys, take_for_enc. destruct (negb _); [done|]. destruct (n =? 0); [done|]. destruct (enc_loop _ _ _) as [[f d] out]. by destruct out.
  - unfold get_dec_keys, take_for_dec. by destruct (_ !! id).
  - unfold post_dec_keys. destruct l as [|id l]; [done|]. pose proof (post_loop_cfg (id :: l) (qr_lb r)) as Hd. destruct (post_loop (id :: l) _) as [lb keys]. cbn in Hd. destruct keys; cbn; congruence.
Qed.

(** The KME is a one-time source.  As long as the minter never draws an id
    twice, whatever the two ends ask for and however often: no key is handed out
    twice by number, no key twice by id, what is handed out by id is a key that
    was handed out by number, with its bytes, and every key handed out by number
    waits for its other end until it is taken; the queue keeps its bound. *)
Theorem kme_hands_out_once cfg ops : NoDup (minted ops) ->
  let r := q_run cfg ops in
  NoDup (map key_id (qr_enc r)) /\ NoDup (map key_id (qr_dec r)) /\ (forall k, k ∈ qr_dec r -> k ∈ qr_enc r) /\
  (forall k, k ∈ qr_enc r -> (key_id k ∉ map key_id (qr_dec r)) -> (get_dec_keys (qr_lb r) (key_id k)).2 = RKeys [k]) /\
  zlen (lb_fresh (qr_lb r)) <= Z.max 0 (qd_max_buffer_keys cfg).
Proof.
  intros Hnd r. destruct (q_run_inv cfg ops Hnd) as [Hf Hm Hd Hs Hl Hc]. fold r in Hf, Hm, Hd, Hs, Hl, Hc.
  assert (Hcfg : lb_cfg (qr_lb r) = cfg) by apply q_run_cfg. rewrite Hcfg in Hc. split_and!; try done; [by apply NoDup_app in Hf as (_ & _ & ?)|].
  intros k Hk Hno. unfold get_dec_keys, take_for_dec. destruct k as [id m]. cbn [key_id] in *. by rewrite (proj2 (Hl id m)) by done.
Qed.

(** ** The minter that pauses *)

Lemma mint_block_stats lb bufs : zlen bufs <= fresh_space lb ->
  n_dropped (lb_stats (mint_block lb bufs)) = n_dropped (lb_stats lb) /\ lb_fresh (mint_block lb bufs) = lb_fresh lb ++ map mint bufs /\ lb_cfg (mint_block lb bufs) = lb_cfg lb.
Proof.
  unfold mint_block, fresh_space. revert lb. induction bufs as [|buf bufs IH]; intros lb Hs; cbn [fold_left map]; [by rewrite app_nil_r|].
  change (zlen (buf :: bufs)) with (Z.of_nat (S (length bufs))) in Hs. unfold zlen in *.
  assert (Hp : (lb_push lb (mint buf)).1 = with_qstats (fun s => mkQStats (as_u 64 (n_generated s + 1)) (n_dropped s) (n_paused s) (n_delivered_enc s) (n_delivered_dec s))
     (mkLb (lb_cfg lb) (lb_fresh lb ++ [mint buf]) (lb_delivered lb) (lb_stats lb))).
  { unfold lb_push, zlen. destruct (Z.ltb_spec (Z.of_nat (length (lb_fresh lb))) (qd_max_buffer_keys (lb_cfg lb))); [done|lia]. }
  rewrite Hp. destruct (IH (with_qstats (fun s => mkQStats (as_u 64 (n_generated s + 1)) (n_dropped s) (n_paused s) (n_delivered_enc s) (n_delivered_dec s))
     (mkLb (lb_cfg lb) (lb_fresh lb ++ [mint buf]) (lb_delivered lb) (lb_stats lb)))) as (H1 & H2 & H3); cbn [with_qstats lb_cfg lb_fresh lb_stats] in *; [rewrite length_app; cbn; lia|].
  rewrite H1, H2, H3, <- app_assoc. done.
Qed.

(** With [pause] no key is made that does not fit: a tick drops nothing,
    whatever the rate, and the queue grows by whole blocks. *)
Theorem pausing_minter_drops_nothing fuel draw per_tick due lb :
  qd_full_mode (lb_cfg lb) = FmPause -> (forall i, zlen (draw i) = Z.max (qd_block_keys (lb_cfg lb)) 1) ->
  let lb' := (mint_tick fuel draw per_tick due lb).1 in
  n_dropped (lb_stats lb') = n_dropped (lb_stats lb) /\
  exists blocks, Forall (fun b => zlen b = Z.max (qd_block_keys (lb_cfg lb)) 1) blocks /\ lb_fresh lb' = lb_fresh lb ++ map mint (concat blocks).
Proof.
  unfold mint_tick. set (block := Z.max (qd_block_keys (lb_cfg lb)) 1). generalize (fadd due per_tick) as d. revert lb block.
  induction fuel as [|fuel IH]; intros lb block d Hm Hd; cbn [mint_loop]; [split; [done|]; exists []; cbn; by rewrite app_nil_r|].
  destruct (negb (fle (f_of_Z block) d)); [split; [done|]; exists []; cbn; by rewrite app_nil_r|].
  rewrite (bool_decide_eq_true_2 _ Hm). cbn [andb]. destruct (Z.ltb_spec (fresh_space lb) block) as [Hlt|Hge].
  { destruct (flt _ d); (split; [done|]; exists []; cbn; by rewrite app_nil_r). }
  destruct (mint_block_stats lb (draw fuel)) as (H1 & H2 & H3); [rewrite Hd; fold block; lia|].
  specialize (IH (mint_block lb (draw fuel)) (fsub d (f_of_Z block))). rewrite H3 in IH. fold block in IH. destruct (IH Hm Hd) as (Hn & bs & Hbs & Hf).
  split; [congruence|]. exists (draw fuel :: bs). split; [constructor; [apply Hd|done]|]. rewrite Hf, H2. cbn [concat]. by rewrite map_app, app_assoc.
Qed.
