(* ===== verification/KmeClient.v ===== *)
(** * The client of a KME (qkc/src/kme.rs)

    Where a QKC with a QKD link gets its keys.  [KmeServer] is what the client
    relies on: the three routes of ETSI 014 over a state of the server; the
    simulated KME of [Quditto] is an instance.  The errors of the HTTP library
    are [Quditto] errors here: nothing distinguishes them. *)

From Stdlib Require Import ZArith Lia.
From S2P Require Import Prelude Float64 Wire FrameMac SecretStore FrameAuth OtpCrypto Routing PeerOut KeyStore Relay Refill QkcTypes Quditto.

Class KmeServer (S : Type) := {
  srv_status : S -> option KStatus;
  srv_enc : S -> Z -> Z -> S * Reply;
  srv_dec : S -> list bytes -> S * Reply;
}.

#[export] Instance quditto_server : KmeServer LinkBuffer := {|
  srv_status lb := Some (get_status lb);
  srv_enc := get_enc_keys;
  srv_dec := post_dec_keys;
|}.

Record KmeClient := mkKme { km_key_size_bits : Z; km_max_per_request : Z; km_probed : bool; km_dec_batch : bool }.

Definition kme_new (key_size_bits : Z) : KmeClient := mkKme key_size_bits 0 false true.
Definition without_batch (c : KmeClient) : KmeClient := mkKme (km_key_size_bits c) (km_max_per_request c) (km_probed c) false.

Definition max_keys_per_request (c : KmeClient) : option Z := if km_max_per_request c =? 0 then None else Some (km_max_per_request c).

(** [probe]: the size and the batch the KME announces are adopted. *)
Definition probe (c : KmeClient) (st : option KStatus) : KmeClient :=
  match st with
  | None => c
  | Some st =>
      mkKme (if negb (kst_key_size st =? 0) && negb (kst_key_size st =? km_key_size_bits c) then kst_key_size st else km_key_size_bits c)
        (if kst_max_per_request st >? 0 then kst_max_per_request st else km_max_per_request c) true (km_dec_batch c)
  end.

(** [stock]: the level of the store, and the batch refreshed. *)
Definition kme_stock (c : KmeClient) (st : option KStatus) : KmeClient * option (Z * Z) :=
  match st with
  | None => (c, None)
  | Some st =>
      (mkKme (km_key_size_bits c) (if kst_max_per_request st >? 0 then kst_max_per_request st else km_max_per_request c) (km_probed c) (km_dec_batch c),
       Some (kst_stored st, kst_max_count st))
  end.

Section Client.
Context {S : Type} `{KmeServer S}.

Definition enc_keys_once (c : KmeClient) (s : S) (number : Z) : S * res QkcError (list OtpKey) :=
  match srv_enc s number (km_key_size_bits c) with
  | (s, RKeys keys) => (s, Ok keys)
  | (s, _) => (s, Err Quditto)
  end.

(** The [while] of [enc_keys]; every turn but the last adds a key. *)
Fixpoint enc_keys_loop (fuel : nat) (c : KmeClient) (per_request number : Z) (out : list OtpKey) (s : S) : S * res QkcError (list OtpKey) :=
  match fuel with
  | O => (s, Ok out)
  | Datatypes.S fuel =>
      if negb (as_u 32 (zlen out) <? number) then (s, Ok out) else
      match enc_keys_once c s (Z.min per_request (number - as_u 32 (zlen out))) with
      | (s, Ok []) => (s, Ok out)
      | (s, Ok keys) => enc_keys_loop fuel c per_request number (out ++ keys) s
      | (s, Err e) => match out with [] => (s, Err e) | _ => (s, Ok out) end
      | (s, Panic) => (s, Panic)
      end
  end.

Definition some_or_error (number : Z) (r : res QkcError (list OtpKey)) : res QkcError (list OtpKey) :=
  match r with Ok [] => Err (NotEnoughKeys number 0) | r => r end.

Definition kme_enc_keys (c : KmeClient) (s : S) (number : Z) : S * KmeClient * res QkcError (list OtpKey) :=
  if number =? 0 then (s, c, Ok []) else
  let c := if km_probed c then c else probe c (srv_status s) in
  let per_request := if km_max_per_request c =? 0 then number else Z.max (Z.min (km_max_per_request c) number) 1 in
  if number <=? per_request then let '(s, r) := enc_keys_once c s number in (s, c, some_or_error number r)
  else let '(s, r) := enc_keys_loop (Z.to_nat number) c per_request number [] s in (s, c, some_or_error number r).

(** The loop of [dec_keys], one request per id. *)
Fixpoint kme_dec_loop (ids : list bytes) (out : list OtpKey) (s : S) : S * res QkcError (list OtpKey) :=
  match ids with
  | [] => (s, Ok out)
  | id :: ids =>
      match srv_dec s [id] with
      | (s, RKeys keys) => kme_dec_loop ids (out ++ keys) s
      | (s, RRejected _) => (s, match out with [] => Err Quditto | _ => Ok out end)
      | (s, RLost) => (s, Err Quditto)
      end
  end.

Definition kme_dec_keys (c : KmeClient) (s : S) (ids : list bytes) : S * KmeClient * res QkcError (list OtpKey) :=
  match ids with
  | [] => (s, c, Ok [])
  | _ =>
      if (1 <? length ids)%nat && km_dec_batch c then
        match srv_dec s ids with
        | (s, RKeys keys) => (s, c, Ok keys)
        | (s, RRejected status) =>
            if status =? 400 then let '(s, r) := kme_dec_loop ids [] s in (s, without_batch c, r)
            else (s, c, Err Quditto)
        | (s, RLost) => (s, c, Err Quditto)
        end
      else let '(s, r) := kme_dec_loop ids [] s in (s, c, r)
  end.

(** ** A round of both refill workers of a QKD link *)

Definition kme_enc_turn `{MacCrypto} (c : KmeClient) (n : Z) (s : S) (l : Link) : S * KmeClient * res QkcError (Link * Frame) :=
  let '(s, c, r) := kme_enc_keys c s n in
  (s, c, let* keys := r in
         let* (ks, fa, f) := res_map_err FrameAuthErr (absorb_enc_keys (lk_keys l) (lk_auth l) (lk_store l) keys) in
         Ok (with_auth fa (lk_store l) (with_keys ks l), f)).

Definition kme_dec_turn (c : KmeClient) (s : S) (l : Link) : S * KmeClient * Link :=
  let '(ks, ids) := dec_drain (lk_keys l) in
  if (length ids =? 0)%nat then (s, c, l) else
  let '(s, c, r) := kme_dec_keys c s ids in
  (s, c, with_keys (match r with Ok keys => dec_refill_ok ks ids keys | _ => dec_refill_failed ks ids end) l).

Definition kme_round `{MacCrypto} (now : Z) (ca cb : KmeClient) (n : Z) (s : S) (la : Link) (nb : Node) (from : Z) : option (S * Link * Node) :=
  match kme_enc_turn ca n s la with
  | (s, _, Ok (la, f)) =>
      match (let* bs := write_frame f in read_frame bs) with
      | Ok (g, _) =>
          let nb := ingress now nb g in
          l ← link_to nb from;
          let '(s, _, l) := kme_dec_turn cb s l in Some (s, la, set_link from l nb)
      | _ => None
      end
  | _ => None
  end.
End Client.

(** ** The requests of the client *)

(** Every turn adds a key, so the number of keys asked for is fuel enough, with
    answers that are not of billions of keys. *)
Lemma enc_keys_loop_fuel {S} `{KmeServer S} c per number : is_u 32 number ->
  (forall s k z s' keys, srv_enc s k z = (s', RKeys keys) -> number + zlen keys < 2 ^ 32) ->
  forall fuel out s, zlen out < 2 ^ 32 -> number - zlen out <= Z.of_nat fuel ->
  forall extra, enc_keys_loop (fuel + extra) c per number out s = enc_keys_loop fuel c per number out s.
Proof.
  intros Hn Hsmall fuel. induction fuel as [|fuel IH]; intros out s Hout Hf extra; pose proof (zlen_nonneg out).
  - destruct extra as [|extra]; [done|]. cbn [enc_keys_loop Nat.add]. rewrite as_u_small by (ufold; lia).
    destruct (Z.ltb_spec (zlen out) number); [lia|done].
  - cbn [enc_keys_loop Nat.add]. rewrite as_u_small by (ufold; lia). destruct (Z.ltb_spec (zlen out) number) as [Hlt|]; [|done]. cbn [negb].
    unfold enc_keys_once. destruct (srv_enc s _ _) as [s' [keys| |]] eqn:E; [|done..]. destruct keys as [|k keys]; [done|].
    pose proof (Hsmall _ _ _ _ _ E). assert (zlen (k :: keys) = 1 + zlen keys) by (unfold zlen; cbn; lia). pose proof (zlen_nonneg keys).
    apply IH; zsimp; lia.
Qed.

(** Once the client knows how many keys a request may ask for, it asks for no
    more: nothing it does depends on how the KME would answer a bigger request. *)
Theorem requests_within_limit {S} (i1 i2 : KmeServer S) c s n :
  km_probed c = true -> 0 < km_max_per_request c -> 0 <= n ->
  (forall s k size, 1 <= k <= km_max_per_request c -> @srv_enc S i1 s k size = @srv_enc S i2 s k size) ->
  @kme_enc_keys S i1 c s n = @kme_enc_keys S i2 c s n.
Proof.
  intros Hp Hm Hn Heq. unfold kme_enc_keys. rewrite Hp. destruct (Z.eqb_spec n 0) as [|Hn0]; [done|]. destruct (Z.eqb_spec (km_max_per_request c) 0); [lia|].
  set (per := Z.max _ 1). destruct (Z.leb_spec n per) as [Hle|Hgt].
  { unfold enc_keys_once. by rewrite Heq by lia. }
  assert (Hl : forall fuel out s, @enc_keys_loop S i1 fuel c per n out s = @enc_keys_loop S i2 fuel c per n out s); [|by rewrite Hl].
  induction fuel as [|fuel IH]; intros out s0; cbn [enc_keys_loop]; [done|]. destruct (Z.ltb_spec (as_u 32 (zlen out)) n); cbn [negb]; [|done].
  unfold enc_keys_once. rewrite Heq by lia. destruct (srv_enc s0 _ _) as [s' [keys| |]]; [|done..]. destruct keys; [done|]. apply IH.
Qed.

(** ** Both ends of a QKD link get the same keys *)

Lemma post_loop_all (keys : list OtpKey) : forall lb, NoDup (map key_id keys) -> (forall k, k ∈ keys -> lb_delivered lb !! key_id k = Some (material k)) ->
  (post_loop (map key_id keys) lb).2 = keys.
Proof.
  induction keys as [|k keys IH]; intros lb Hnd Hd; [done|]. cbn [map] in *. apply NoDup_cons in Hnd as [Hk Hnd]. cbn [post_loop].
  unfold take_for_dec. rewrite (Hd k) by by left. set (lb1 := mkLb _ _ _ _). specialize (IH lb1 Hnd).
  destruct (post_loop (map key_id keys) lb1) as [lb2 out]. cbn [snd] in *. rewrite IH; [by destruct k|]. intros k' Hk'. unfold lb1. cbn [lb_delivered].
  rewrite lookup_delete_ne; [apply Hd; by right|]. intros E. apply Hk. rewrite E. by apply list_elem_of_fmap_2.
Qed.

Lemma dec_singles_all (keys : list OtpKey) : forall lb out, NoDup (map key_id keys) -> (forall k, k ∈ keys -> lb_delivered lb !! key_id k = Some (material k)) ->
  (kme_dec_loop (map key_id keys) out lb).2 = Ok (out ++ keys).
Proof.
  induction keys as [|k keys IH]; intros lb out Hnd Hd; cbn [map kme_dec_loop]; [by rewrite app_nil_r|]. cbn [map] in Hnd. apply NoDup_cons in Hnd as [Hk Hnd].
  cbn [srv_dec quditto_server post_dec_keys post_loop]. unfold take_for_dec. rewrite (Hd k) by by left. rewrite IH; [by destruct k; rewrite <- app_assoc|done|].
  intros k' Hk'. cbn [lb_delivered]. rewrite lookup_delete_ne; [apply Hd; by right|]. intros E. apply Hk. rewrite E. by apply list_elem_of_fmap_2.
Qed.

Lemma dec_keys_all (keys : list OtpKey) c lb : NoDup (map key_id keys) -> (forall k, k ∈ keys -> lb_delivered lb !! key_id k = Some (material k)) ->
  (kme_dec_keys c lb (map key_id keys)).2 = Ok keys.
Proof.
  intros Hnd Hd. unfold kme_dec_keys. destruct keys as [|k keys]; [done|]. set (l := k :: keys) in *. change (map key_id l) with (key_id k :: map key_id keys). cbv iota.
  change (key_id k :: map key_id keys) with (map key_id l). destruct (_ && _).
  - cbn [srv_dec quditto_server]. unfold post_dec_keys. change (map key_id l) with (key_id k :: map key_id keys). cbv iota. change (key_id k :: map key_id keys) with (map key_id l).
    pose proof (post_loop_all l lb Hnd Hd) as Hl. destruct (post_loop (map key_id l) lb) as [lb' out]. cbn [snd] in Hl. by subst out.
  - pose proof (dec_singles_all l lb [] Hnd Hd) as Hl. by destruct (kme_dec_loop (map key_id l) [] lb).
Qed.

(** The client has not asked this KME yet, or has adopted what it announces. *)
Definition knows (c : KmeClient) (lb : LinkBuffer) : Prop :=
  km_probed c = false \/ (km_key_size_bits c = qd_key_size_bits (lb_cfg lb) /\ (km_max_per_request c = 0 \/ km_max_per_request c = 128)).

(** A batch of the refill worker is what the KME has, up to the number asked for. *)
Lemma enc_keys_quditto c lb n : knows c lb -> 1 <= n <= 128 -> qd_key_size_bits (lb_cfg lb) <> 0 -> lb_fresh lb <> [] ->
  (kme_enc_keys c lb n).1.1 = (take_for_enc lb n).1 /\ (kme_enc_keys c lb n).2 = Ok (take_for_enc lb n).2 /\ (take_for_enc lb n).2 <> [].
Proof.
  intros Hk Hn Hsz Hf. assert (Hne : (take_for_enc lb n).2 <> []).
  { unfold take_for_enc. destruct (enc_loop_spec (Z.to_nat n) (lb_fresh lb) (lb_delivered lb)) as (out & rest & E & _ & Hz & ->). cbn [snd]. intros ->. destruct (Hz eq_refl); [lia|done]. }
  unfold kme_enc_keys. destruct (Z.eqb_spec n 0); [lia|]. set (c' := if km_probed c then c else _).
  assert (Hc : km_key_size_bits c' = qd_key_size_bits (lb_cfg lb) /\ (km_max_per_request c' = 0 \/ km_max_per_request c' = 128)).
  { unfold c'. destruct (km_probed c) eqn:Hp; [by destruct Hk as [|]; [congruence|]|]. cbn. split; [|by right].
    destruct (Z.eqb_spec (qd_key_size_bits (lb_cfg lb)) 0); [done|]. cbn. by destruct (Z.eqb_spec (qd_key_size_bits (lb_cfg lb)) (km_key_size_bits c)) as [->|]. }
  destruct Hc as [Hs Hm]. destruct (Z.leb_spec n (if km_max_per_request c' =? 0 then n else Z.max (Z.min (km_max_per_request c') n) 1)) as [_|Hgt].
  - unfold enc_keys_once. rewrite Hs. cbn [srv_enc quditto_server]. unfold get_enc_keys. rewrite Z.eqb_refl. cbn [negb]. destruct (Z.eqb_spec n 0); [lia|].
    destruct (take_for_enc lb n) as [lb' taken]. cbn [fst snd] in *. by destruct taken.
  - destruct Hm as [Hm|Hm]; rewrite Hm in Hgt; cbn in Hgt; lia.
Qed.

Lemma enc_loop_take n : forall fresh delivered,
  enc_loop n fresh delivered = (drop n fresh, fold_left (fun m k => <[key_id k := material k]> m) (take n fresh) delivered, take n fresh).
Proof. induction n as [|n IH]; intros fresh delivered; [done|]. destruct fresh as [|k fresh]; [done|]. cbn [enc_loop]. by rewrite IH. Qed.

(** The bytes of every draw are an id and a key. *)
Definition drawn_ok (op : QOp) : Prop := match op with QMint buf => (16 <= length buf)%nat /\ wf_bytes buf | _ => True end.

Lemma post_loop_fresh ids : forall lb, lb_fresh (post_loop ids lb).1 = lb_fresh lb.
Proof.
  induction ids as [|id ids IH]; intros lb; cbn [post_loop]; [done|]. assert (Ht : lb_fresh (take_for_dec lb id).1 = lb_fresh lb) by (unfold take_for_dec; by destruct (_ !! id)).
  destruct (take_for_dec lb id) as [lb1 m]. specialize (IH lb1). destruct (post_loop ids lb1). cbn in *. congruence.
Qed.

Lemma fresh_drawn cfg ops : Forall drawn_ok ops -> forall k, k ∈ lb_fresh (qr_lb (q_run cfg ops)) -> exists buf, drawn_ok (QMint buf) /\ k = mint buf.
Proof.
  induction ops as [|op ops IH] using rev_ind; [intros _ k Hk; by apply elem_of_nil in Hk|]. intros Hall k. apply Forall_app in Hall as [Hops Hop]. apply Forall_cons in Hop as [Hop _].
  specialize (IH Hops k). unfold q_run. rewrite fold_left_app. fold (q_run cfg ops). set (r := q_run cfg ops) in *. cbn [fold_left]. destruct op as [buf|n sz|id|l]; cbn [q_step].
  - unfold lb_push. destruct (_ <? _); cbn; [|done]. intros [Hk| ->%list_elem_of_singleton]%elem_of_app; [by apply IH|exists buf; split; [exact Hop|done]].
  - unfold get_enc_keys, take_for_enc. destruct (negb _); [done|]. destruct (n =? 0); [done|]. rewrite enc_loop_take.
    intros Hk. apply IH. assert (k ∈ drop (Z.to_nat n) (lb_fresh (qr_lb r))) as Hd by (destruct (take _ _); exact Hk).
    rewrite <- (take_drop (Z.to_nat n) (lb_fresh (qr_lb r))). apply elem_of_app. by right.
  - unfold get_dec_keys, take_for_dec. by destruct (_ !! id).
  - unfold post_dec_keys. destruct l as [|id l]; [done|]. pose proof (post_loop_fresh (id :: l) (qr_lb r)) as Hd.
    destruct (post_loop (id :: l) _) as [lb keys]. cbn in Hd. destruct keys; cbn; rewrite Hd; done.
Qed.

Lemma version_bits b : is_u8 b -> is_u8 (Z.lor (Z.land b 0x0f) 0x40) /\ is_u8 (Z.lor (Z.land b 0x3f) 0x80).
Proof.
  intros Hb. assert (E : forallb (fun i => let b := Z.of_nat i in (Z.lor (Z.land b 0x0f) 0x40 <? 256) && (Z.lor (Z.land b 0x3f) 0x80 <? 256)) (seq 0 256) = true) by reflexivity.
  rewrite forallb_forall in E. specialize (E (Z.to_nat b)). cbv zeta in E. ufold. rewrite Z2Nat.id in E by lia.
  destruct (andb_prop _ _ (E ltac:(apply in_seq; lia))) as [H1%Z.ltb_lt H2%Z.ltb_lt].
  split; (split; [apply Z.lor_nonneg; split; [apply Z.land_nonneg; lia|lia]|done]).
Qed.

Lemma mint_id_ok buf : drawn_ok (QMint buf) -> length (key_id (mint buf)) = 16%nat /\ wf_bytes (key_id (mint buf)).
Proof.
  intros [Hl Hw]. unfold mint. cbn [key_id]. split; [rewrite !length_insert, length_take; lia|].
  assert (Hn : forall (l : bytes) i, wf_bytes l -> is_u8 (nth i l 0)).
  { intros l i Hwl. destruct (nth_in_or_default i l 0) as [Hin| ->]; [|by vm_compute]. unfold wf_bytes in Hwl. rewrite Forall_forall in Hwl. by apply Hwl, list_elem_of_In. }
  assert (Ht : wf_bytes (take 16 buf)) by by apply Forall_take. assert (H6 := proj1 (version_bits _ (Hn _ 6%nat Ht))).
  assert (Hi : wf_bytes (<[6%nat := Z.lor (Z.land (nth 6 (take 16 buf) 0) 0x0f) 0x40]> (take 16 buf))) by by apply Forall_insert.
  apply Forall_insert; [done|]. exact (proj2 (version_bits _ (Hn _ 8%nat Hi))).
Qed.

(** C6: A QKD link and its KME.  Both ends of a link ask a KME that has minted each
    id once, and agree on authentication.  When it has keys, a refill of up to
    128 takes them, up to the number asked for, into the ring of the one end;
    the NOTIFY crosses the wire, and the worker of the other end fetches the same
    keys: every one of them is in its DEC map under its id.  The end that fetches
    may ask in one request or key by key. *)
Theorem qkd_refill_shares_keys `{MacCrypto} now a (ca cb : KmeClient) n cfg ops (la lb : Link) (nb : Node) :
  let q := qr_lb (q_run cfg ops) in
  NoDup (minted ops) -> Forall drawn_ok ops -> qd_key_size_bits cfg <> 0 -> knows ca q -> lb_fresh q <> [] -> 1 <= n <= 128 ->
  zlen (ks_enc (lk_keys la)) + n <= ENC_CAP ->
  ks_my_id (lk_keys la) = a /\ is_u 32 a /\ is_u 32 (ks_peer_id (lk_keys la)) /\ is_u 16 (ks_key_size_bits (lk_keys la)) ->
  link_to nb a = Some lb -> ks_dec_pending (lk_keys lb) = [] -> auth_ready (lk_auth la) (lk_auth lb) (lk_store la) (lk_store lb) ->
  exists q' la' nb' lb', let keys := take (Z.to_nat n) (lb_fresh q) in
    kme_round now ca cb n q la nb a = Some (q', la', nb') /\ ks_enc (lk_keys la') = ks_enc (lk_keys la) ++ keys /\
    link_to nb' a = Some lb' /\ forall k, k ∈ keys -> ks_dec (lk_keys lb') !! key_id k = Some (material k).
Proof.
  intros q Hnd Hdrawn Hbits Hk Hf Hn Hring Hids Hlink Hpend Hauth. destruct (q_run_inv cfg ops Hnd) as [Hfr _ _ _ _ _].
  assert (Hcfg : lb_cfg q = cfg) by apply q_run_cfg. rewrite <- Hcfg in Hbits. destruct (enc_keys_quditto ca q n Hk Hn Hbits Hf) as (He1 & He2 & _).
  set (keys := take (Z.to_nat n) (lb_fresh q)). assert (Hte : (take_for_enc q n).2 = keys) by (unfold take_for_enc; by rewrite enc_loop_take).
  assert (Hkn : NoDup (map key_id keys)).
  { apply NoDup_app in Hfr as [Hfr _]. fold q in Hfr. rewrite <- (take_drop (Z.to_nat n) (lb_fresh q)), map_app in Hfr. by apply NoDup_app in Hfr as [? _]. }
  assert (Hdel : forall k, k ∈ keys -> lb_delivered (take_for_enc q n).1 !! key_id k = Some (material k)).
  { intros k Hin. unfold take_for_enc. rewrite enc_loop_take. cbn [fst lb_delivered]. apply fold_insert_lookup; [done|]. left. by destruct k. }
  assert (Hwf : Forall (fun id => length id = 16%nat /\ wf_bytes id) (map key_id keys)).
  { apply Forall_forall. intros id (k & -> & Hin)%list_elem_of_fmap. destruct (fresh_drawn cfg ops Hdrawn k) as (buf & Hb & ->); [|by apply mint_id_ok].
    fold q. rewrite <- (take_drop (Z.to_nat n) (lb_fresh q)). apply elem_of_app. by left. }
  assert (Hlen : zlen keys <= n) by (unfold zlen, keys; rewrite length_take; lia).
  destruct (batch_crosses now a la lb nb keys Hwf) as (ks & fa & fb & f & bs & g & Habs & Hpush & Hw & Hr & Hing); [lia|lia|done..|].
  unfold kme_round, kme_enc_turn. destruct (kme_enc_keys ca q n) as [[q1 ca1] r] eqn:Eq. cbn [fst snd] in He1, He2. rewrite He2, Hte. cbn [res_bind]. rewrite Habs. cbn [res_bind res_map_err].
  rewrite Hw. cbn [res_bind]. rewrite Hr, Hing. unfold link_to at 1. cbn [nd_links set_link with_links]. rewrite lookup_insert_eq. cbn [mbind option_bind].
  unfold kme_dec_turn. cbn [lk_keys with_keys with_auth]. rewrite (drain_notified _ _ Hpend) by (unfold zlen in *; rewrite length_map; lia). rewrite length_map.
  destruct (Nat.eqb_spec (length keys) 0) as [Hz|_].
  { apply length_zero_iff_nil in Hz. exfalso. unfold keys in Hz. destruct (lb_fresh q), (Z.to_nat n) eqn:En; [done..|lia|done]. }
  pose proof (dec_keys_all keys cb q1 Hkn) as Hd. rewrite He1 in Hd. specialize (Hd Hdel). rewrite <- He1 in Hd. destruct (kme_dec_keys cb q1 (map key_id keys)) as [[q2 cb2] r2]. cbn [snd] in Hd. subst r2.
  eexists _, _, _, _. split_and!; [reflexivity|exact Hpush|unfold link_to; cbn [nd_links set_link with_links]; apply lookup_insert_eq|].
  intros k Hin. cbn [lk_keys with_keys dec_refill_ok dec_store with_dec ks_dec]. by apply fold_insert_all.
Qed.

(** ** What the client loses *)

(** Without batches, a request that fails on the way makes [dec_keys] forget the
    keys it was given before, which the KME does not give again. *)
Theorem lost_answer_forgets_keys {S} `{KmeServer S} c (s s1 s2 : S) id1 id2 k :
  km_dec_batch c = false -> srv_dec s [id1] = (s1, RKeys [k]) -> srv_dec s1 [id2] = (s2, RLost) ->
  kme_dec_keys c s [id1; id2] = (s2, c, Err Quditto).
Proof. intros Hb H1 H2. unfold kme_dec_keys. rewrite Hb. cbn [length Nat.ltb Nat.leb andb kme_dec_loop]. by rewrite H1, H2. Qed.

(** Without batches, one id the KME refuses ends the fetch: the keys of the ids
    after it stay at the KME, and the key store no longer awaits them. *)
Theorem refused_id_ends_the_fetch {S} `{KmeServer S} c (s s1 s2 : S) id1 id2 ids k status ks :
  km_dec_batch c = false -> srv_dec s [id1] = (s1, RKeys [k]) -> srv_dec s1 [id2] = (s2, RRejected status) ->
  kme_dec_keys c s (id1 :: id2 :: ids) = (s2, c, Ok [k]) /\
  forall id, id ∈ ids -> is_dec_announced (dec_refill_ok ks (id1 :: id2 :: ids) [k]) id = false.
Proof.
  intros Hb H1 H2. unfold kme_dec_keys. rewrite Hb, andb_false_r. cbn [kme_dec_loop]. rewrite H1, H2. split; [done|].
  intros id Hid. unfold is_dec_announced. apply bool_decide_eq_false_2. cbn. set_solver.
Qed.

(** ** A link of the simulated KME *)

Definition sample_qcfg : QudittoConfig := mkQd (f_of_Z 1000) f_zero f_zero 4 32 FmPause 2 None.
Definition sample_draw (i : Z) : bytes := replicate 16 i ++ replicate 4 (i + 100).
Definition sample_qops : list QOp := [QMint (sample_draw 1); QMint (sample_draw 2); QMint (sample_draw 3); QEnc 1 32].
Definition sample_q : LinkBuffer := qr_lb (q_run sample_qcfg sample_qops).

Lemma sample_minted : NoDup (minted sample_qops).
Proof. apply (bool_decide_unpack _). vm_compute. exact I. Qed.

Lemma qkd_refill_shares_keys_witness : exists q' la' nb' lb',
  kme_round 0 (kme_new 256) (without_batch (kme_new 32)) 100 sample_q (enc_end []) (node 2 {[ 1 := dec_end [] ]} (ft_new {[ 1 ]})) 1 = Some (q', la', nb') /\
  ks_enc (lk_keys la') = [mint (sample_draw 2); mint (sample_draw 3)] /\ link_to nb' 1 = Some lb' /\
  forall k, k ∈ [mint (sample_draw 2); mint (sample_draw 3)] -> ks_dec (lk_keys lb') !! key_id k = Some (material k).
Proof.
  apply (qkd_refill_shares_keys 0 1 (kme_new 256) (without_batch (kme_new 32)) 100 sample_qcfg sample_qops (enc_end []) (dec_end [])
    (node 2 {[ 1 := dec_end [] ]} (ft_new {[ 1 ]}))).
  - exact sample_minted.
  - repeat constructor; cbn; try lia; vm_compute; intuition discriminate.
  - done.
  - by left.
  - vm_compute. discriminate.
  - lia.
  - vm_compute. discriminate.
  - vm_compute. intuition discriminate.
  - reflexivity.
  - reflexivity.
  - split_and!; [done|vm_compute; done|]. eexists 4, sample_key. apply sample_session.
Defined.

Lemma kme_hands_out_once_witness : qr_enc (q_run sample_qcfg sample_qops) = [mint (sample_draw 1)] /\ NoDup (map key_id (qr_enc (q_run sample_qcfg sample_qops))).
Proof. split; [vm_compute; reflexivity|]. apply (kme_hands_out_once sample_qcfg sample_qops sample_minted). Defined.

(** The same buffer behind a KME that refuses to serve two keys at once. *)
Definition one_by_one : KmeServer LinkBuffer := {|
  srv_status lb := Some (mkKStatus 32 0 0 1);
  srv_enc lb n z := if n <=? 1 then get_enc_keys lb n z else (lb, RRejected 400);
  srv_dec lb ids := if (length ids <=? 1)%nat then post_dec_keys lb ids else (lb, RRejected 400);
|}.

Lemma requests_within_limit_witness :
  @kme_enc_keys LinkBuffer one_by_one (mkKme 32 1 true true) sample_q 2 = @kme_enc_keys LinkBuffer quditto_server (mkKme 32 1 true true) sample_q 2.
Proof.
  apply (requests_within_limit one_by_one quditto_server (mkKme 32 1 true true) sample_q 2); [done|by vm_compute|done|].
  intros s k z Hk. cbn in *. by destruct (Z.leb_spec k 1); [|lia].
Defined.

Lemma pausing_minter_drops_nothing_witness :
  let lb' := (mint_tick 10 (fun i => [sample_draw 7; sample_draw 8]) (f_of_Z 9) f_zero sample_q).1 in
  n_dropped (lb_stats lb') = 0 /\ zlen (lb_fresh lb') = 4.
Proof.
  destruct (pausing_minter_drops_nothing 10 (fun i => [sample_draw 7; sample_draw 8]) (f_of_Z 9) f_zero sample_q eq_refl (fun _ => eq_refl)) as [H _].
  cbv zeta. rewrite H. split; vm_compute; reflexivity.
Defined.

(** The client adopts the size of the KME and the relay goes on with the
    configured one: with 1024 bits configured and keys of 256, a payload of 100
    bytes takes one key where four are needed, and is refused. *)
Definition adopted_node : Node :=
  node 1 {[ 2 := mkLink Qkd 1024 (enc_push (ks_new 1 2 1024) [mkKey (be_bytes 16 1) (replicate 32 7); mkKey (be_bytes 16 2) (replicate 32 8)]) None sample_store ]}
    (ft_new_with_grades {[ 2 ]} {[ 2 ]}).

Theorem adopted_size_breaks_payloads :
  km_key_size_bits (probe (kme_new 1024) (Some (mkKStatus 256 10 10 128))) = 256 /\
  (forward_plaintext [] adopted_node 2 2 (replicate 100 7) 0 0 [] []).2 = Err (NotEnoughKeys 4 1) /\
  (fun l => zlen (ks_enc (lk_keys l))) <$> link_to (forward_plaintext [] adopted_node 2 2 (replicate 100 7) 0 0 [] []).1 2 = Some 1.
Proof. split_and!; vm_compute; reflexivity. Qed.
