(* ===== verification/SaeBinding.v ===== *)
(** * Where a SAE lives

    Before it sends a session key a DKMS asks which DKMS serves the SAE it is for
    (dkms/src/sae_binding.rs).  The controller answers ([get_sae_binding] of
    sdn/src/grpc_server.rs); a cache with a time to live keeps its answers, a second
    one its refusals, and an event of the controller empties both.  Lookups of one
    SAE at the same time share one question.

    The caches are the [moka] crate: class [MokaCache], with its documented
    behaviour as laws.  [resolve] is cut where it awaits, and the tasks that call
    it, the answers of the controller and its events are the moves of [sb_do]. *)

From Stdlib Require Import ZArith Lia.
From S2P Require Import Prelude Ids Float64 Security SdnTopology SdnStore SdnGraph SdnRegistry PendingStore Delivery.

#[local] Open Scope string_scope.
#[local] Open Scope Z_scope.

(** ** The cache *)

(** [moka::future::Cache] over SAEs, with a capacity and a time to live.
    [moka_entries] is what it holds, with the instant of each insertion: an entry
    is found until its time has passed; any operation may evict others, but for
    no other reason than their age while the cache is within its capacity. *)
Class MokaCache := {
  moka : Type -> Type;
  moka_new {V} : Z -> Z -> moka V;
  moka_get {V} : moka V -> Z -> SaeId -> moka V * option V;
  moka_insert {V} : moka V -> Z -> SaeId -> V -> moka V;
  moka_invalidate {V} : moka V -> SaeId -> moka V;
  moka_invalidate_all {V} : moka V -> moka V;
  moka_entries {V} : moka V -> gmap SaeId (V * Z);
  moka_cap {V} : moka V -> Z;
  moka_ttl {V} : moka V -> Z;
  moka_new_spec {V} cap ttl : moka_entries (moka_new (V := V) cap ttl) = ∅ /\ moka_cap (moka_new (V := V) cap ttl) = cap /\ moka_ttl (moka_new (V := V) cap ttl) = ttl;
  moka_get_spec {V} (c : moka V) now k :
    (moka_get c now k).2 = match moka_entries c !! k with Some (v, t) => if now <? t + moka_ttl c then Some v else None | None => None end;
  moka_get_entries {V} (c : moka V) now k : moka_entries (moka_get c now k).1 ⊆ moka_entries c;
  moka_get_keeps {V} (c : moka V) now k k' v t : Z.of_nat (size (moka_entries c)) <= moka_cap c ->
    moka_entries c !! k' = Some (v, t) -> now < t + moka_ttl c -> moka_entries (moka_get c now k).1 !! k' = Some (v, t);
  moka_insert_entries {V} (c : moka V) now k v : moka_entries (moka_insert c now k v) ⊆ <[k := (v, now)]> (moka_entries c);
  moka_insert_keeps {V} (c : moka V) now k v k' w t : Z.of_nat (size (<[k := (v, now)]> (moka_entries c))) <= moka_cap c ->
    <[k := (v, now)]> (moka_entries c) !! k' = Some (w, t) -> now < t + moka_ttl c -> moka_entries (moka_insert c now k v) !! k' = Some (w, t);
  moka_invalidate_entries {V} (c : moka V) k : moka_entries (moka_invalidate c k) ⊆ delete k (moka_entries c);
  moka_invalidate_all_entries {V} (c : moka V) : moka_entries (moka_invalidate_all c) = ∅;
  moka_get_config {V} (c : moka V) now k : moka_cap (moka_get c now k).1 = moka_cap c /\ moka_ttl (moka_get c now k).1 = moka_ttl c;
  moka_insert_config {V} (c : moka V) now k v : moka_cap (moka_insert c now k v) = moka_cap c /\ moka_ttl (moka_insert c now k v) = moka_ttl c;
  moka_invalidate_config {V} (c : moka V) k : moka_cap (moka_invalidate c k) = moka_cap c /\ moka_ttl (moka_invalidate c k) = moka_ttl c;
  moka_invalidate_all_config {V} (c : moka V) : moka_cap (moka_invalidate_all c) = moka_cap c /\ moka_ttl (moka_invalidate_all c) = moka_ttl c
}.

(** ** The resolvers *)

(** [StaticSaeResolver]: the table of the configuration, used without a controller. *)
Definition static_new : gmap SaeId NodeId := ∅.
Definition static_insert (m : gmap SaeId NodeId) (sae : SaeId) (node : NodeId) : gmap SaeId NodeId := <[sae := node]> m.
Definition static_with_entries (entries : list (SaeId * NodeId)) : gmap SaeId NodeId :=
  fold_left (fun m e => static_insert m e.1 e.2) entries static_new.
Definition static_resolve (m : gmap SaeId NodeId) (sae : SaeId) : res DkmsError NodeId :=
  match m !! sae with Some n => Ok n | None => Err (SaeBindingLookupFailed sae) end.

Inductive BindingStatus := SaeIdRequired | SaeNotRegistered | DkmsUnknown.

(** [get_sae_binding] of the controller: the DKMS and its router. *)
Definition get_sae_binding (t : Topology) (sae_id : string) : res BindingStatus (string * string) :=
  if String.eqb sae_id "" then Err SaeIdRequired
  else match tp_saes t !! sae_id with
  | None => Err SaeNotRegistered
  | Some sae =>
      match tp_dkms t !! sa_dkms_id sae with
      | None => Err DkmsUnknown
      | Some dkms => Ok (dk_id dkms, dk_orr_id dkms)
      end
  end.

(** [SdnSaeResolver::resolve]: every failure is the same; [None] is a call that
    did not reach the controller or took too long. *)
Definition sdn_resolve (answer : option (res BindingStatus (string * string))) (sae : SaeId) : res DkmsError NodeId :=
  match answer with
  | Some (Ok (dkms_id, _)) => if String.eqb dkms_id "" then Err (SaeBindingLookupFailed sae) else Ok dkms_id
  | _ => Err (SaeBindingLookupFailed sae)
  end.

(** ** The cache of bindings *)

(** Times are milliseconds. *)
Definition NEGATIVE_TTL : Z := 5000.

Section Cache.
Context `{MokaCache}.

Record SaeBindingCache := mkSbc { sbc_cache : moka NodeId; sbc_negatives : moka unit }.

Definition sbc_new (ttl_secs max_entries : Z) : SaeBindingCache :=
  mkSbc (moka_new max_entries (Z.max ttl_secs 1 * 1000)) (moka_new max_entries NEGATIVE_TTL).

(** [resolve], cut where it awaits.  First the recent failures. *)
Definition resolve_check (c : SaeBindingCache) (now : Z) (sae : SaeId) : SaeBindingCache * bool :=
  let '(n, hit) := moka_get (sbc_negatives c) now sae in (mkSbc (sbc_cache c) n, match hit with Some _ => true | None => false end).

(** [try_get_with]: an entry is the answer; without one the question is asked,
    and a good answer is kept. *)
Definition resolve_lookup (c : SaeBindingCache) (now : Z) (sae : SaeId) : SaeBindingCache * option NodeId :=
  let '(p, hit) := moka_get (sbc_cache c) now sae in (mkSbc p (sbc_negatives c), hit).
Definition resolve_store (c : SaeBindingCache) (now : Z) (sae : SaeId) (r : res DkmsError NodeId) : SaeBindingCache :=
  match r with Ok node => mkSbc (moka_insert (sbc_cache c) now sae node) (sbc_negatives c) | _ => c end.

(** After a failure: the entry is dropped, then the failure kept. *)
Definition resolve_drop (c : SaeBindingCache) (sae : SaeId) : SaeBindingCache :=
  mkSbc (moka_invalidate (sbc_cache c) sae) (sbc_negatives c).
Definition resolve_refuse (c : SaeBindingCache) (now : Z) (sae : SaeId) : SaeBindingCache :=
  mkSbc (sbc_cache c) (moka_insert (sbc_negatives c) now sae ()).

(** The error a caller sees, whatever the resolver failed with. *)
Definition resolve_error (sae : SaeId) (e : DkmsError) : DkmsError :=
  match e with SaeBindingLookupFailed s => SaeBindingLookupFailed s | _ => SaeBindingLookupFailed sae end.

Definition sbc_invalidate (c : SaeBindingCache) (sae : SaeId) : SaeBindingCache :=
  mkSbc (moka_invalidate (sbc_cache c) sae) (moka_invalidate (sbc_negatives c) sae).
Definition sbc_invalidate_all (c : SaeBindingCache) : SaeBindingCache :=
  mkSbc (moka_invalidate_all (sbc_cache c)) (moka_invalidate_all (sbc_negatives c)).

(** The whole of [resolve] with nobody else about; the flag says whether the
    resolver was asked. *)
Definition sbc_resolve (c : SaeBindingCache) (now : Z) (upstream : SaeId -> res DkmsError NodeId) (sae : SaeId)
  : SaeBindingCache * res DkmsError NodeId * bool :=
  let '(c, refused) := resolve_check c now sae in
  if refused then (c, Err (SaeBindingLookupFailed sae), false) else
  match resolve_lookup c now sae with
  | (c, Some node) => (c, Ok node, false)
  | (c, None) =>
      match upstream sae with
      | Ok node => (resolve_store c now sae (Ok node), Ok node, true)
      | Err e => (resolve_refuse (resolve_drop c sae) now sae, Err (resolve_error sae e), true)
      | Panic => (c, Panic, true)
      end
  end.

(** ** Tasks, answers and events *)

(** Where a call of [resolve] is: before the check of the failures, before the
    lookup, waiting for the question it or another call asked, before the two
    steps that follow a failure, or done, with the instant of the answer. *)
Inductive ResolveTask :=
  | TCheck (sae : SaeId) | TLookup (sae : SaeId) | TWait (sae : SaeId)
  | TDrop (sae : SaeId) (e : DkmsError) | TRefuse (sae : SaeId) (e : DkmsError)
  | TDone (sae : SaeId) (at_ : Z) (r : res DkmsError NodeId).

(** [sb_flights] are the questions under way, by the instant they were asked. *)
Record Sb := mkSb { sb_now : Z; sb_sbc : SaeBindingCache; sb_flights : gmap SaeId Z; sb_tasks : gmap nat ResolveTask }.

Inductive SbMove :=
  | MTick (dt : Z) | MArrive (i : nat) (sae : SaeId) | MRun (i : nat)
  | MAnswer (sae : SaeId) (read : Z) | MLost (sae : SaeId) | MEvent | MInvalidate (sae : SaeId).

(** [upstream] is what the resolver would answer at an instant, [delay] the time a
    question may take. *)
Context (upstream : Z -> SaeId -> res DkmsError NodeId) (delay : Z).

Definition sb_init (ttl_secs max_entries : Z) : Sb := mkSb 0 (sbc_new ttl_secs max_entries) ∅ ∅.

Definition with_task (i : nat) (t : ResolveTask) (c : SaeBindingCache) (fl : gmap SaeId Z) (s : Sb) : Sb :=
  mkSb (sb_now s) c fl (<[i := t]> (sb_tasks s)).

(** One task runs to its next await. *)
Definition run_task (s : Sb) (i : nat) (t : ResolveTask) : option Sb :=
  let c := sb_sbc s in let now := sb_now s in let fl := sb_flights s in
  match t with
  | TCheck sae =>
      let '(c, refused) := resolve_check c now sae in
      Some (with_task i (if refused then TDone sae now (Err (SaeBindingLookupFailed sae)) else TLookup sae) c fl s)
  | TLookup sae =>
      match resolve_lookup c now sae with
      | (c, Some node) => Some (with_task i (TDone sae now (Ok node)) c fl s)
      | (c, None) => Some (with_task i (TWait sae) c (match fl !! sae with Some _ => fl | None => <[sae := now]> fl end) s)
      end
  | TDrop sae e => Some (with_task i (TRefuse sae e) (resolve_drop c sae) fl s)
  | TRefuse sae e => Some (with_task i (TDone sae now (Err (resolve_error sae e))) (resolve_refuse c now sae) fl s)
  | TWait _ | TDone _ _ _ => None
  end.

(** The question is answered: every call that waits for it gets the answer. *)
Definition settle (sae : SaeId) (now : Z) (r : res DkmsError NodeId) (t : ResolveTask) : ResolveTask :=
  match t with
  | TWait sae' => if decide (sae' = sae) then match r with Err e => TDrop sae e | r => TDone sae now r end else t
  | t => t
  end.
Definition finish (s : Sb) (sae : SaeId) (r : res DkmsError NodeId) : Sb :=
  mkSb (sb_now s) (resolve_store (sb_sbc s) (sb_now s) sae r) (delete sae (sb_flights s)) (settle sae (sb_now s) r <$> sb_tasks s).

Definition sb_do (s : Sb) (m : SbMove) : option Sb :=
  match m with
  | MTick dt => if 0 <=? dt then Some (mkSb (sb_now s + dt) (sb_sbc s) (sb_flights s) (sb_tasks s)) else None
  | MArrive i sae => match sb_tasks s !! i with None => Some (with_task i (TCheck sae) (sb_sbc s) (sb_flights s) s) | Some _ => None end
  | MRun i => t ← sb_tasks s !! i; run_task s i t
  | MAnswer sae read =>
      t0 ← sb_flights s !! sae;
      if (t0 <=? read) && (read <=? sb_now s) && (sb_now s <=? t0 + delay) then Some (finish s sae (upstream read sae)) else None
  | MLost sae => _ ← sb_flights s !! sae; Some (finish s sae (Err (SaeBindingLookupFailed sae)))
  | MEvent => Some (mkSb (sb_now s) (sbc_invalidate_all (sb_sbc s)) (sb_flights s) (sb_tasks s))
  | MInvalidate sae => Some (mkSb (sb_now s) (sbc_invalidate (sb_sbc s) sae) (sb_flights s) (sb_tasks s))
  end.

Fixpoint sb_run (s : Sb) (ms : list SbMove) : option Sb :=
  match ms with [] => Some s | m :: ms => s' ← sb_do s m; sb_run s' ms end.

Lemma sb_run_ind (P : Sb -> Prop) ms : (forall s m s', P s -> sb_do s m = Some s' -> P s') ->
  forall s s', P s -> sb_run s ms = Some s' -> P s'.
Proof.
  intros Hstep. induction ms as [|m ms IH]; intros s s' Hs; cbn [sb_run]; [congruence|].
  destruct (sb_do s m) as [s1|] eqn:E; cbn; [|done]. apply IH. by eapply Hstep.
Qed.

(** ** What an answer is worth *)

(** Everything known of [sae] comes from the resolver, no earlier than [lo], but
    for the answers of the tasks in [old]. *)
Record since (ttl lo : Z) (sae : SaeId) (old : gset nat) (s : Sb) : Prop := mkSince {
  si_entry : forall v t, moka_entries (sbc_cache (sb_sbc s)) !! sae = Some (v, t) ->
    exists r, lo <= r <= t /\ t <= sb_now s /\ t - r <= delay /\ upstream r sae = Ok v;
  si_flight : forall t0, sb_flights s !! sae = Some t0 -> lo <= t0;
  si_done : forall i t v, i ∉ old -> sb_tasks s !! i = Some (TDone sae t (Ok v)) ->
    exists r, lo <= r <= t /\ t - r < ttl + delay /\ upstream r sae = Ok v;
  si_ttl : moka_ttl (sbc_cache (sb_sbc s)) = ttl;
  si_now : lo <= sb_now s
}.

(** A step that forgets entries keeps it. *)
Lemma since_shrink ttl lo sae old s c : since ttl lo sae old s ->
  moka_entries (sbc_cache c) ⊆ moka_entries (sbc_cache (sb_sbc s)) -> moka_ttl (sbc_cache c) = moka_ttl (sbc_cache (sb_sbc s)) ->
  since ttl lo sae old (mkSb (sb_now s) c (sb_flights s) (sb_tasks s)).
Proof.
  intros [He Hf Hd Ht Hn] Hsub Hcfg. constructor; cbn [sb_now sb_sbc sb_flights sb_tasks]; try done; [|congruence].
  intros v t Hv. apply He. by eapply lookup_weaken.
Qed.

(** A task moves to a state that is no answer, or to an answer that is good. *)
Lemma since_task ttl lo sae old s i t fl : since ttl lo sae old s ->
  (forall t0, fl !! sae = Some t0 -> lo <= t0) ->
  (forall u v, t = TDone sae u (Ok v) -> exists r, lo <= r <= u /\ u - r < ttl + delay /\ upstream r sae = Ok v) ->
  since ttl lo sae old (with_task i t (sb_sbc s) fl s).
Proof.
  intros [He Hf Hd Ht Hn] Hfl Hok. constructor; cbn [with_task sb_now sb_sbc sb_flights sb_tasks]; try done.
  intros j u v Hj. destruct (decide (j = i)) as [->|]; [|rewrite lookup_insert_ne by done; by apply Hd].
  rewrite lookup_insert_eq. intros [= ->]. by apply Hok.
Qed.

Lemma since_run ttl lo sae old s i t s' : since ttl lo sae old s -> run_task s i t = Some s' -> since ttl lo sae old s'.
Proof.
  intros Hs. pose proof Hs as [He Hf Hd Ht Hn]. destruct t as [x|x|x|x e|x e|x u r]; cbn [run_task]; [| |done| | |done].
  - unfold resolve_check. destruct (moka_get (sbc_negatives (sb_sbc s)) (sb_now s) x) as [n hit] eqn:E. intros [= <-].
    apply (since_task _ _ _ _ (mkSb (sb_now s) (mkSbc (sbc_cache (sb_sbc s)) n) (sb_flights s) (sb_tasks s))); [by apply since_shrink|done|by destruct hit].
  - unfold resolve_lookup. pose proof (moka_get_entries (sbc_cache (sb_sbc s)) (sb_now s) x) as Hsub.
    pose proof (moka_get_spec (sbc_cache (sb_sbc s)) (sb_now s) x) as Hg. destruct (moka_get_config (sbc_cache (sb_sbc s)) (sb_now s) x) as [_ Hc].
    destruct (moka_get (sbc_cache (sb_sbc s)) (sb_now s) x) as [p hit]. cbn [fst snd] in *.
    assert (Hs1 : since ttl lo sae old (mkSb (sb_now s) (mkSbc p (sbc_negatives (sb_sbc s))) (sb_flights s) (sb_tasks s))) by by apply since_shrink.
    destruct hit as [node|]; intros [= <-]; apply (since_task _ _ _ _ _ _ _ _ Hs1); try done.
    + intros u v [= -> <- <-]. destruct (moka_entries _ !! sae) as [[w t]|] eqn:E; [|done]. destruct (Z.ltb_spec (sb_now s) (t + moka_ttl (sbc_cache (sb_sbc s)))); [|done].
      injection Hg as <-. destruct (He _ _ eq_refl) as (r & ? & ? & ? & ?). exists r. split_and!; [lia..|done].
    + intros t0. destruct (sb_flights s !! x) eqn:E; [apply Hf|]. destruct (decide (sae = x)) as [->|]; [rewrite lookup_insert_eq|rewrite lookup_insert_ne by done; apply Hf].
      intros [= <-]. done.
  - intros [= <-]. apply (since_task _ _ _ _ (mkSb (sb_now s) (resolve_drop (sb_sbc s) x) (sb_flights s) (sb_tasks s))); [|done..].
    apply since_shrink; cbn; [done| |apply moka_invalidate_config]. etrans; [apply moka_invalidate_entries|apply delete_subseteq].
  - intros [= <-]. apply (since_task _ _ _ _ (mkSb (sb_now s) (resolve_refuse (sb_sbc s) (sb_now s) x) (sb_flights s) (sb_tasks s))); [by apply since_shrink|done..].
Qed.

Lemma since_finish ttl lo sae old s x r : 0 < ttl -> since ttl lo sae old s ->
  (x = sae -> forall v, r = Ok v -> exists u, lo <= u <= sb_now s /\ sb_now s - u <= delay /\ upstream u sae = Ok v) ->
  since ttl lo sae old (finish s x r).
Proof.
  intros Hpos [He Hf Hd Ht Hn] Hr. unfold finish. constructor; cbn [sb_now sb_sbc sb_flights sb_tasks]; [| | | |done].
  - intros v t Hv. destruct r as [node|e|]; cbn [resolve_store sbc_cache] in Hv; [|by apply He..].
    eapply lookup_weaken in Hv; [|apply moka_insert_entries]. destruct (decide (sae = x)) as [->|]; [|rewrite lookup_insert_ne in Hv by done; by apply He].
    rewrite lookup_insert_eq in Hv. injection Hv as <- <-. destruct (Hr eq_refl _ eq_refl) as (u & ? & ? & ?). exists u. split_and!; [lia..|done].
  - intros t0 H0. apply lookup_delete_Some in H0 as [_ H0]. by apply Hf.
  - intros i t v Hi. rewrite lookup_fmap. destruct (sb_tasks s !! i) as [tk|] eqn:E; cbn; [|done]. intros [= Hset].
    destruct tk as [y|y|y|y e|y e|y u q]; cbn [settle] in Hset; try done; [|apply (Hd i); congruence].
    destruct (decide (y = x)) as [->|]; [|done]. destruct r as [node|e|]; [|done..]. injection Hset as -> <- <-.
    destruct (Hr eq_refl _ eq_refl) as (u & ? & ? & ?). exists u. split_and!; [lia..|done].
  - destruct r; cbn [resolve_store sbc_cache]; [|done..]. by rewrite (proj2 (moka_insert_config _ _ _ _)).
Qed.

Lemma since_do ttl lo sae old s m s' : 0 < ttl -> since ttl lo sae old s -> sb_do s m = Some s' -> since ttl lo sae old s'.
Proof.
  intros Hpos Hs. pose proof Hs as [He Hf Hd Ht Hn]. destruct m as [dt|i x|i|x rd|x| |x]; cbn [sb_do].
  - destruct (Z.leb_spec 0 dt); [|done]. intros [= <-]. constructor; cbn; try done; [|lia].
    intros v t Hv. destruct (He _ _ Hv) as (r & ? & ? & ? & ?). exists r. split_and!; [lia..|done].
  - destruct (sb_tasks s !! i); [done|]. intros [= <-]. by apply since_task.
  - destruct (sb_tasks s !! i) as [t|]; cbn; [|done]. by apply since_run.
  - destruct (sb_flights s !! x) as [t0|] eqn:E; cbn; [|done]. destruct (_ && _) eqn:Hb; [|done]. intros [= <-].
    apply andb_prop in Hb as [[H1 H2]%andb_prop H3]. apply Z.leb_le in H1, H2, H3. apply since_finish; [done..|].
    intros -> v Hv. apply Hf in E. exists rd. split_and!; [lia..|done].
  - destruct (sb_flights s !! x) as [t0|]; cbn; [|done]. intros [= <-]. by apply since_finish.
  - intros [= <-]. apply since_shrink; cbn; [done| |apply moka_invalidate_all_config]. rewrite moka_invalidate_all_entries. apply map_empty_subseteq.
  - intros [= <-]. apply since_shrink; cbn; [done| |apply moka_invalidate_config]. etrans; [apply moka_invalidate_entries|apply delete_subseteq].
Qed.

Lemma since_init ttl_secs max sae : since (Z.max ttl_secs 1 * 1000) 0 sae ∅ (sb_init ttl_secs max).
Proof.
  destruct (moka_new_spec (V := NodeId) max (Z.max ttl_secs 1 * 1000)) as (He & _ & Ht).
  constructor; cbn [sb_init sbc_new sb_now sb_sbc sb_flights sb_tasks sbc_cache]; rewrite ?He; try done.
Qed.

Lemma since_reached ttl lo sae old s ms s' : 0 < ttl -> since ttl lo sae old s -> sb_run s ms = Some s' -> since ttl lo sae old s'.
Proof. intros Hpos. apply sb_run_ind. intros s1 m s2. by apply since_do. Qed.

(** Whatever calls, answers, failures and events there were and in whatever
    order, an answer is what the resolver said of that SAE at an instant no longer
    ago than the time to live and the time a question takes. *)
Theorem answers_are_recent ttl_secs max ms s i sae t node : sb_run (sb_init ttl_secs max) ms = Some s ->
  sb_tasks s !! i = Some (TDone sae t (Ok node)) ->
  exists r, 0 <= r <= t /\ t - r < Z.max ttl_secs 1 * 1000 + delay /\ upstream r sae = Ok node.
Proof.
  intros Hrun Hi. apply (since_reached (Z.max ttl_secs 1 * 1000) 0 sae ∅) in Hrun; [|lia|apply since_init].
  by eapply (si_done _ _ _ _ _ Hrun); [apply not_elem_of_empty|].
Qed.

(** After an event no call that starts later is told what was so before it,
    unless a question about that SAE was under way. *)
Theorem event_makes_answers_fresh ttl_secs max ms s ms' s' i sae t node : sb_run (sb_init ttl_secs max) ms = Some s ->
  sb_flights s !! sae = None -> sb_tasks s !! i = None -> sb_run s (MEvent :: ms') = Some s' ->
  sb_tasks s' !! i = Some (TDone sae t (Ok node)) -> exists r, sb_now s <= r <= t /\ upstream r sae = Ok node.
Proof.
  intros Hrun Hf Hi Hrun' Hd. cbn [sb_run sb_do mbind option_bind] in Hrun'.
  apply (since_reached (Z.max ttl_secs 1 * 1000) 0 sae ∅) in Hrun; [|lia|apply since_init].
  apply (since_reached (Z.max ttl_secs 1 * 1000) (sb_now s) sae (dom (sb_tasks s))) in Hrun'; [|lia|].
  - eapply (si_done _ _ _ _ _ Hrun') in Hd as (r & ? & _ & ?); [by exists r|]. by apply not_elem_of_dom.
  - destruct Hrun as [_ _ _ Ht _]. constructor; cbn [sb_now sb_sbc sb_flights sb_tasks sbc_invalidate_all sbc_cache].
    + intros v u. by rewrite moka_invalidate_all_entries.
    + by rewrite Hf.
    + intros j u v Hj Hs. apply not_elem_of_dom in Hj. congruence.
    + by rewrite (proj2 (moka_invalidate_all_config _)).
    + done.
Qed.

(** ** A call alone *)

(** A run that ends with the answer of task [i]. *)
Definition answers (s : Sb) (i : nat) (sae : SaeId) (fl : gmap SaeId Z) (c : SaeBindingCache) (r : res DkmsError NodeId) : Prop :=
  exists ms s', sb_run s ms = Some s' /\ sb_now s' = sb_now s /\ sb_sbc s' = c /\ sb_flights s' = fl /\
    sb_tasks s' !! i = Some (TDone sae (sb_now s) r).

Lemma answers_step s i sae fl c r m s' : sb_do s m = Some s' -> sb_now s' = sb_now s -> answers s' i sae fl c r -> answers s i sae fl c r.
Proof.
  intros Hm Hn (ms & s2 & Hrun & Hn2 & Hrest). exists (m :: ms), s2. cbn [sb_run]. rewrite Hm. cbn. rewrite <- Hn. by split_and!; try apply Hrest.
Qed.

Lemma answers_task s i sae fl c r t s' : sb_tasks s !! i = Some t -> run_task s i t = Some s' -> sb_now s' = sb_now s ->
  answers s' i sae fl c r -> answers s i sae fl c r.
Proof. intros Ht Hr. apply answers_step with (MRun i). cbn. by rewrite Ht. Qed.

Lemma answers_done s i sae t r : sb_tasks s !! i = Some (TDone sae t r) -> t = sb_now s -> answers s i sae (sb_flights s) (sb_sbc s) r.
Proof. intros Ht ->. by exists [], s. Qed.

(** The failure of a question is dropped and refused by the task that waits. *)
Lemma answers_failure s i sae e : sb_tasks s !! i = Some (TDrop sae e) ->
  answers s i sae (sb_flights s) (resolve_refuse (resolve_drop (sb_sbc s) sae) (sb_now s) sae) (Err (resolve_error sae e)).
Proof.
  intros Ht. eapply answers_task; [exact Ht|reflexivity|reflexivity|]. eapply answers_task; [cbn; by rewrite lookup_insert_eq|reflexivity|reflexivity|].
  eapply (answers_done (with_task i _ _ _ (with_task i _ _ _ s))); [|reflexivity]. cbn. by rewrite lookup_insert_eq.
Qed.

(** [sbc_resolve] is a run of the moves of one task: the same cache, the same
    answer, and no question left behind. *)
Theorem resolve_alone_is_a_run s i sae : sb_tasks s !! i = None -> sb_flights s !! sae = None -> 0 <= delay ->
  upstream (sb_now s) sae <> Panic ->
  let '(c, r, _) := sbc_resolve (sb_sbc s) (sb_now s) (upstream (sb_now s)) sae in answers s i sae (sb_flights s) c r.
Proof.
  intros Hi Hf Hd Hp. destruct (sbc_resolve _ _ _ _) as [[c r] asked] eqn:E. unfold sbc_resolve in E.
  destruct (resolve_check (sb_sbc s) (sb_now s) sae) as [c1 refused] eqn:Ec.
  eapply (answers_step _ _ _ _ _ _ (MArrive i sae)); [cbn; by rewrite Hi|reflexivity|].
  eapply answers_task; [cbn; by rewrite lookup_insert_eq|cbn [run_task with_task sb_sbc sb_now]; by rewrite Ec|reflexivity|].
  destruct refused; [injection E as <- <- <-; eapply (answers_done (with_task _ _ _ _ _)); [cbn; by rewrite lookup_insert_eq|reflexivity]|].
  destruct (resolve_lookup c1 (sb_now s) sae) as [c2 hit] eqn:El.
  destruct hit as [node|]; (eapply answers_task; [cbn; by rewrite lookup_insert_eq|cbn [run_task with_task sb_sbc sb_now]; rewrite El; reflexivity|done|]);
    [injection E as <- <- <-; eapply (answers_done (with_task _ _ _ _ _)); [cbn; by rewrite lookup_insert_eq|reflexivity]|].
  set (s3 := with_task i (TWait sae) _ _ _). assert (Hfl : sb_flights s3 = <[sae := sb_now s]> (sb_flights s)) by (cbn; by rewrite Hf).
  eapply (answers_step _ _ _ _ _ _ (MAnswer sae (sb_now s)) (finish s3 sae (upstream (sb_now s) sae))); [|done|].
  { cbn [sb_do]. rewrite Hfl, lookup_insert_eq. cbn [mbind option_bind]. change (sb_now s3) with (sb_now s). rewrite !(proj2 (Z.leb_le _ _)) by lia. done. }
  assert (Hfl2 : sb_flights (finish s3 sae (upstream (sb_now s) sae)) = sb_flights s) by (cbn [finish sb_flights]; rewrite Hfl; by apply delete_insert_id).
  assert (Htk : sb_tasks (finish s3 sae (upstream (sb_now s) sae)) !! i = Some (settle sae (sb_now s) (upstream (sb_now s) sae) (TWait sae))).
  { cbn [finish sb_tasks]. rewrite lookup_fmap. cbn [s3 with_task sb_tasks]. by rewrite lookup_insert_eq. }
  rewrite <- Hfl2. cbn [settle] in Htk. rewrite decide_True in Htk by done.
  destruct (upstream (sb_now s) sae) as [node|e|]; [| |done]; injection E as <- <- <-.
  - by eapply answers_done.
  - exact (answers_failure (finish s3 sae (Err e)) i sae e Htk).
Qed.
End Cache.

(** ** A SAE nobody serves *)

Section Refusals.
Context `{MokaCache}.

(** Calls one after another: the instant, the SAE, and what the resolver would
    say. *)
Definition resolve_all (c : SaeBindingCache) (calls : list (Z * SaeId * (SaeId -> res DkmsError NodeId))) : SaeBindingCache :=
  fold_left (fun c '(now, sae, up) => (sbc_resolve c now up sae).1.1) calls c.

(** The failures kept are of SAEs of [saes], and fit. *)
Definition neg_ok (max : Z) (saes : gset SaeId) (c : SaeBindingCache) : Prop :=
  dom (moka_entries (sbc_negatives c)) ⊆ saes /\ moka_cap (sbc_negatives c) = max /\ moka_ttl (sbc_negatives c) = NEGATIVE_TTL.

Lemma neg_size max saes c : neg_ok max saes c -> Z.of_nat (size saes) <= max -> Z.of_nat (size (moka_entries (sbc_negatives c))) <= moka_cap (sbc_negatives c).
Proof. intros (Hd & -> & _) Hs. rewrite <- size_dom. apply subseteq_size in Hd. lia. Qed.

Lemma resolve_neg_ok max saes c now up sae : neg_ok max saes c -> sae ∈ saes -> neg_ok max saes (sbc_resolve c now up sae).1.1.
Proof.
  intros (Hd & Hc & Ht) Hin. unfold sbc_resolve, resolve_check.
  destruct (moka_get_config (sbc_negatives c) now sae) as [Hc1 Ht1]. pose proof (moka_get_entries (sbc_negatives c) now sae) as He.
  destruct (moka_get (sbc_negatives c) now sae) as [n hit]. cbn [fst] in *.
  assert (Hok : forall p, neg_ok max saes (mkSbc p n)) by (intros p; split_and!; cbn; [apply subseteq_dom in He; set_solver|congruence..]).
  destruct hit; [apply Hok|]. unfold resolve_lookup. cbn [sbc_cache sbc_negatives]. destruct (moka_get (sbc_cache c) now sae) as [p [node|]]; [apply Hok|].
  destruct (up sae); cbn [fst resolve_store resolve_refuse resolve_drop sbc_cache sbc_negatives]; try apply Hok.
  destruct (moka_insert_config n now sae ()) as [Hc2 Ht2]. pose proof (moka_insert_entries n now sae ()) as Hi. apply subseteq_dom in He, Hi. rewrite dom_insert in Hi.
  split_and!; cbn; [set_solver|congruence..].
Qed.

(** A failure that is kept and not yet old is an answer, and stays. *)
Lemma resolve_refused max saes c now up sae t : neg_ok max saes c -> Z.of_nat (size saes) <= max ->
  moka_entries (sbc_negatives c) !! sae = Some ((), t) -> now < t + NEGATIVE_TTL ->
  (sbc_resolve c now up sae).1.2 = Err (SaeBindingLookupFailed sae) /\ (sbc_resolve c now up sae).2 = false.
Proof.
  intros (_ & _ & Ht) Hs He Hn. unfold sbc_resolve, resolve_check. pose proof (moka_get_spec (sbc_negatives c) now sae) as Hg.
  rewrite He, Ht, (proj2 (Z.ltb_lt _ _)) in Hg by lia. destruct (moka_get _ now sae) as [n hit]. cbn [snd] in Hg. by subst hit.
Qed.

Lemma resolve_keeps max saes c now up x sae t : neg_ok max saes c -> Z.of_nat (size saes) <= max -> x ∈ saes ->
  moka_entries (sbc_negatives c) !! sae = Some ((), t) -> now < t + NEGATIVE_TTL ->
  moka_entries (sbc_negatives (sbc_resolve c now up x).1.1) !! sae = Some ((), t).
Proof.
  intros Hok Hs Hx He Hn. pose proof Hok as (Hd & Hc & Ht). pose proof (neg_size _ _ _ Hok Hs) as Hsz.
  unfold sbc_resolve, resolve_check. pose proof (moka_get_spec (sbc_negatives c) now x) as Hg. pose proof (moka_get_entries (sbc_negatives c) now x) as Hsub.
  destruct (moka_get_config (sbc_negatives c) now x) as [Hc1 Ht1].
  pose proof (moka_get_keeps (sbc_negatives c) now x sae () t Hsz He ltac:(lia)) as Hk. destruct (moka_get (sbc_negatives c) now x) as [n hit]. cbn [fst snd] in *.
  destruct hit; [done|]. unfold resolve_lookup. cbn [sbc_cache sbc_negatives]. destruct (moka_get (sbc_cache c) now x) as [p [node|]]; [done|].
  destruct (up x); cbn [fst resolve_store resolve_refuse resolve_drop sbc_cache sbc_negatives]; try done.
  assert (x <> sae) by (intros ->; rewrite He, Ht, (proj2 (Z.ltb_lt _ _)) in Hg by lia; done).
  apply moka_insert_keeps; [|by rewrite lookup_insert_ne|lia].
  rewrite Hc1, Hc, <- size_dom, dom_insert. apply subseteq_dom in Hsub. assert (Hss : {[x]} ∪ dom (moka_entries n) ⊆ saes) by set_solver. apply subseteq_size in Hss. lia.
Qed.

(** A question that fails is kept as a failure. *)
Lemma resolve_failure_kept max saes c now up sae e : neg_ok max saes c -> Z.of_nat (size saes) <= max -> sae ∈ saes ->
  (sbc_resolve c now up sae).2 = true -> (sbc_resolve c now up sae).1.2 = Err e ->
  moka_entries (sbc_negatives (sbc_resolve c now up sae).1.1) !! sae = Some ((), now).
Proof.
  intros (Hd & Hc & Ht) Hs Hx. unfold sbc_resolve, resolve_check. pose proof (moka_get_entries (sbc_negatives c) now sae) as Hsub.
  destruct (moka_get_config (sbc_negatives c) now sae) as [Hc1 Ht1]. destruct (moka_get (sbc_negatives c) now sae) as [n hit]. cbn [fst] in *.
  destruct hit; [done|]. unfold resolve_lookup. cbn [sbc_cache sbc_negatives]. destruct (moka_get (sbc_cache c) now sae) as [p [node|]]; [done|].
  destruct (up sae); cbn [fst snd resolve_refuse resolve_drop sbc_cache sbc_negatives]; try done. intros _ _.
  apply moka_insert_keeps; [|by rewrite lookup_insert_eq|rewrite Ht1, Ht; unfold NEGATIVE_TTL; lia].
  rewrite Hc1, Hc, <- size_dom, dom_insert. apply subseteq_dom in Hsub. assert (Hss : {[sae]} ∪ dom (moka_entries n) ⊆ saes) by set_solver. apply subseteq_size in Hss. lia.
Qed.

(** A SAE that does not resolve is asked for once in five seconds: when a call
    has asked the controller and failed, every call for that SAE in the next five
    seconds fails at once without asking, whatever else is resolved in between,
    as long as the SAEs asked for fit the cache. *)
Theorem failing_sae_is_asked_rarely ttl_secs max (saes : gset SaeId) calls t up sae e calls2 t2 up2 :
  Z.of_nat (size saes) <= max -> Forall (fun '(_, x, _) => x ∈ saes) (calls ++ calls2) -> sae ∈ saes ->
  let c := resolve_all (sbc_new ttl_secs max) calls in
  (sbc_resolve c t up sae).2 = true -> (sbc_resolve c t up sae).1.2 = Err e ->
  Forall (fun '(now, _, _) => now < t + NEGATIVE_TTL) calls2 -> t2 < t + NEGATIVE_TTL ->
  let c2 := resolve_all (sbc_resolve c t up sae).1.1 calls2 in
  (sbc_resolve c2 t2 up2 sae).1.2 = Err (SaeBindingLookupFailed sae) /\ (sbc_resolve c2 t2 up2 sae).2 = false.
Proof.
  intros Hs [Hin1 Hin2]%Forall_app Hsae c Hask Hfail Hlate Ht2 c2.
  assert (Hall : forall l c0, neg_ok max saes c0 -> Forall (fun '(_, x, _) => x ∈ saes) l -> neg_ok max saes (resolve_all c0 l)).
  { induction l as [|[[n x] u] l IH]; intros c0 Hc0 Hl; [done|]. inversion_clear Hl. apply IH; [by apply resolve_neg_ok|done]. }
  assert (Hc : neg_ok max saes c).
  { apply Hall; [|done]. destruct (moka_new_spec (V := unit) max NEGATIVE_TTL) as (He & ? & ?). split_and!; cbn; [by rewrite He, dom_empty_L; apply empty_subseteq|done..]. }
  set (c1 := (sbc_resolve c t up sae).1.1) in *. assert (Hc1 : neg_ok max saes c1) by by apply resolve_neg_ok.
  assert (He1 : moka_entries (sbc_negatives c1) !! sae = Some ((), t)) by by eapply resolve_failure_kept.
  assert (Hk : forall l c0, neg_ok max saes c0 -> Forall (fun '(_, x, _) => x ∈ saes) l -> Forall (fun '(now, _, _) => now < t + NEGATIVE_TTL) l ->
     moka_entries (sbc_negatives c0) !! sae = Some ((), t) -> moka_entries (sbc_negatives (resolve_all c0 l)) !! sae = Some ((), t)).
  { induction l as [|[[n x] u] l IH]; intros c0 Hc0 Hl Hl2 He; [done|]. inversion_clear Hl. inversion_clear Hl2.
    apply IH; [by apply resolve_neg_ok|done..|]. by eapply resolve_keeps. }
  eapply resolve_refused; [apply (Hall calls2 c1)|..]; try done. by apply Hk.
Qed.
End Refusals.

(** ** The controller and the request *)

Section Controller.
Context `{MokaCache, Libm, HashOrder}.

(** [ops] are the operations the controller has done at an instant. *)
Definition bound_at (ops : Z -> list SdnOp) (r : Z) (sae : SaeId) (node : NodeId) : Prop :=
  exists b, tp_saes (st_topo (sdn_run (ops r))) !! sae = Some b /\ sa_dkms_id b = node.
Definition ask_controller (ops : Z -> list SdnOp) (r : Z) (sae : SaeId) : res DkmsError NodeId :=
  sdn_resolve (Some (get_sae_binding (st_topo (sdn_run (ops r))) sae)) sae.

Lemma controller_answer ops r sae node : ask_controller ops r sae = Ok node -> bound_at ops r sae node.
Proof.
  unfold ask_controller, get_sae_binding, sdn_resolve, bound_at. destruct (String.eqb sae ""); [done|]. pose proof (sdn_run_reg (ops r)) as Hreg.
  destruct (tp_saes _ !! sae) as [b|]; [|done]. destruct (tp_dkms _ !! sa_dkms_id b) as [d|] eqn:Ed; [|done]. destruct (String.eqb (dk_id d) ""); [done|].
  intros [= <-]. exists b. split; [done|]. symmetry. by apply (ro_dkms _ Hreg).
Qed.

(** A SAE is in the group of a DKMS. *)
Definition grouped (g : list (NodeId * list SaeId)) (node : NodeId) (sae : SaeId) : Prop := exists l, (node, l) ∈ g /\ sae ∈ l.

Lemma grouped_cons n l g node sae : grouped ((n, l) :: g) node sae <-> (node = n /\ sae ∈ l) \/ grouped g node sae.
Proof.
  unfold grouped. split.
  - intros (k & [[= -> ->]|Hk]%elem_of_cons & Hx); [by left|right; by exists k].
  - intros [[-> Hx]|(k & Hk & Hx)]; [exists l; split; [by left|done]|exists k; split; [by right|done]].
Qed.

Lemma group_add_grouped node sae g n x : grouped (group_add node sae g) n x <-> (n = node /\ x = sae) \/ grouped g n x.
Proof.
  induction g as [|[m k] g IH]; cbn [group_add]; [by rewrite grouped_cons, list_elem_of_singleton|].
  destruct (String.compare node m) eqn:E; rewrite ?grouped_cons, ?list_elem_of_singleton; [|tauto|rewrite IH; tauto].
  apply String.compare_eq_iff in E as ->. rewrite elem_of_app, list_elem_of_singleton. tauto.
Qed.

Lemma resolve_groups_grouped resolve saes : forall g g' n x, resolve_groups resolve saes g = Ok g' ->
  grouped g' n x <-> (x ∈ saes /\ resolve x = Ok n) \/ grouped g n x.
Proof.
  induction saes as [|sae saes IH]; intros g g' n x; cbn [resolve_groups]; [intros [= ->]; set_solver|].
  destruct (resolve sae) as [node|e|] eqn:E; cbn [res_bind]; [|done..]. intros Hg. rewrite (IH _ _ n x Hg), group_add_grouped, elem_of_cons. split.
  - intros [[Hx Hr]|[[-> ->]|Hx]]; tauto.
  - intros [[[->|Hx] Hr]|Hx]; [|tauto..]. rewrite E in Hr. injection Hr as ->. tauto.
Qed.

Lemma resolve_groups_all resolve saes : forall g g' x, resolve_groups resolve saes g = Ok g' -> x ∈ saes -> exists n, resolve x = Ok n.
Proof.
  induction saes as [|sae saes IH]; intros g g' x; cbn [resolve_groups]; [by intros _ ?%not_elem_of_nil|].
  destruct (resolve sae) as [node|e|] eqn:E; cbn [res_bind]; [|done..]. intros Hg [->|Hx]%elem_of_cons; [by exists node|by eapply IH].
Qed.

Lemma sort_dedup_elem l x : x ∈ sort_dedup l <-> x ∈ l.
Proof.
  assert (Hi : forall y acc, x ∈ insert_sorted y acc <-> x = y \/ x ∈ acc).
  { intros y acc. induction acc as [|z acc IH]; cbn [insert_sorted]; [set_solver|]. destruct (String.compare y z) eqn:E; [apply String.compare_eq_iff in E as ->|..]; set_solver. }
  unfold sort_dedup. enough (Hg : forall acc, x ∈ fold_left (fun a y => insert_sorted y a) l acc <-> x ∈ l \/ x ∈ acc) by (rewrite Hg; set_solver).
  induction l as [|y l IH]; intros acc; cbn [fold_left]; [set_solver|]. rewrite IH, Hi. set_solver.
Qed.

(** Where a plan puts a SAE: with the node itself, or in the group of a peer. *)
Definition placed {SBB} (d : Delivery.Dkms SBB) (pl : EncPlan) (sae : SaeId) (node : NodeId) : Prop :=
  (node = cf_node_id (dk_cfg d) /\ sae ∈ pl_local pl) \/ grouped (pl_remote pl) node sae.

(** A plan places the SAEs of the request where they resolve to, and nobody else. *)
Lemma plan_places {SBB} (d : Delivery.Dkms SBB) resolve master slave req pl : enc_plan d resolve master slave req = Ok pl ->
  (forall x, x ∈ slave :: rq_additional_saes req -> exists n, resolve x = Ok n) /\
  (forall x n, placed d pl x n <-> x ∈ slave :: rq_additional_saes req /\ resolve x = Ok n) /\
  forall x, ~ grouped (pl_remote pl) (cf_node_id (dk_cfg d)) x.
Proof.
  unfold enc_plan. destruct (authorize_local_sae d master); cbn [res_bind]; [|done..]. destruct (validate_request req); cbn [negb]; [|done].
  destruct (check_request_limits _ _); cbn [res_bind]; [|done..]. destruct (resolve_groups resolve _ []) as [groups| |] eqn:E; cbn [res_bind]; [|done..].
  destruct (_ <? _); [done|]. destruct (res_map_err _ _); cbn [res_bind]; [|done..]. destruct (existsb _ _); [done|]. intros [= <-]. cbn [pl_remote].
  assert (Hg : forall n x, grouped groups n x <-> x ∈ slave :: rq_additional_saes req /\ resolve x = Ok n).
  { intros n x. rewrite (resolve_groups_grouped _ _ _ _ n x E), sort_dedup_elem. unfold grouped. set_solver. }
  set (me := cf_node_id (dk_cfg d)). assert (Hr : forall n x, grouped (filter (fun g => g.1 <> me) groups) n x <-> n <> me /\ grouped groups n x).
  { intros n x. unfold grouped. setoid_rewrite list_elem_of_filter. cbn [fst]. naive_solver. }
  split_and!; [intros x Hx; eapply resolve_groups_all; [exact E|by rewrite sort_dedup_elem]| |intros x [Hne _]%Hr; done].
  intros x n. unfold placed. cbn [pl_local pl_remote]. fold me. rewrite Hr, <- Hg, elem_of_list_to_set, concat_elem.
  destruct (decide (n = me)) as [->|Hne]; [|tauto]. split; [|intros (l & Hl & Hx); left; split; [done|]; exists l; split; [|done]; apply list_elem_of_fmap; exists (me, l); split; [done|]; by apply list_elem_of_filter].
  intros [[_ (l & ([m k] & -> & [Hm Hk]%list_elem_of_filter)%list_elem_of_fmap & Hx)]|[Hne _]]; [|done]. cbn [fst snd] in *. subst m. by exists k.
Qed.

(** C23: From the controller to the request.  Every SAE a request is for, the slave and
    the additional ones, is placed by its plan with exactly one DKMS, locally when that
    is the node itself and in the group of that peer otherwise; nobody else is placed.
    When every answer the plan is made of was given by the cache between the instants
    [t0] and [t1], that DKMS is one the controller had the SAE bound to, before [t1] and
    no longer before [t0] than the time to live of the cache and the time a question
    takes. *)
Theorem request_goes_where_the_sae_is_bound {SBB} ops delay ttl_secs max ms s t0 t1 (d : Delivery.Dkms SBB) resolve master slave req pl :
  sb_run (ask_controller ops) delay (sb_init ttl_secs max) ms = Some s ->
  (forall x node, resolve x = Ok node -> exists i t, sb_tasks s !! i = Some (TDone x t (Ok node)) /\ t0 <= t <= t1) ->
  enc_plan d resolve master slave req = Ok pl ->
  (forall sae, sae ∈ slave :: rq_additional_saes req -> exists node, placed d pl sae node) /\
  (forall sae, ~ grouped (pl_remote pl) (cf_node_id (dk_cfg d)) sae) /\
  forall sae node, placed d pl sae node -> sae ∈ slave :: rq_additional_saes req /\ (forall node', placed d pl sae node' -> node' = node) /\
    exists r, r <= t1 /\ t0 - r < Z.max ttl_secs 1 * 1000 + delay /\ bound_at ops r sae node.
Proof.
  intros Hrun Hres (Hall & Hp & Hme)%plan_places. split_and!; [|exact Hme|].
  - intros sae Hsae. destruct (Hall sae Hsae) as [n Hn]. exists n. by apply Hp.
  - intros sae node [Hin Hr]%Hp. split_and!; [done|intros node' [_ Hr']%Hp; congruence|].
    destruct (Hres _ _ Hr) as (i & t & Hi & Ht). pose proof (since_reached (ask_controller ops) delay (Z.max ttl_secs 1 * 1000) 0 sae ∅ _ _ _ ltac:(lia) (since_init _ _ ttl_secs max sae) Hrun) as Hsince.
    destruct (si_done _ _ _ _ _ _ _ Hsince i t node) as (r & ? & ? & ?); [apply not_elem_of_empty|done|]. exists r. split_and!; [lia..|by apply controller_answer].
Qed.
End Controller.

(** ** A cache that is a map *)

Record MapCache (V : Type) := mkMc { mc_cap : Z; mc_ttl : Z; mc_map : gmap SaeId (V * Z) }.
Arguments mkMc {_} _ _ _.
Arguments mc_cap {_} _.
Arguments mc_ttl {_} _.
Arguments mc_map {_} _.

(** An entry that does not fit is not taken. *)
Definition mc_insert {V} (c : MapCache V) (now : Z) (k : SaeId) (v : V) : MapCache V :=
  let m := <[k := (v, now)]> (mc_map c) in
  mkMc (mc_cap c) (mc_ttl c) (if Z.of_nat (size m) <=? mc_cap c then m else delete k (mc_map c)).

#[export] Instance map_moka : MokaCache.
Proof.
  refine {| moka := MapCache; moka_new V cap ttl := mkMc cap ttl ∅;
    moka_get V c now k := (c, match mc_map c !! k with Some (v, t) => if now <? t + mc_ttl c then Some v else None | None => None end);
    moka_insert V := mc_insert; moka_invalidate V c k := mkMc (mc_cap c) (mc_ttl c) (delete k (mc_map c));
    moka_invalidate_all V c := mkMc (mc_cap c) (mc_ttl c) ∅; moka_entries V := mc_map; moka_cap V := mc_cap; moka_ttl V := mc_ttl |};
    try done.
  - intros V c now k v. unfold mc_insert. cbn [mc_map]. destruct (_ <=? _); [done|].
    apply map_subseteq_spec. intros j x [Hj Hx]%lookup_delete_Some. by rewrite lookup_insert_ne.
  - intros V c now k v k' w t Hs Hk _. unfold mc_insert. cbn [mc_map]. by rewrite (proj2 (Z.leb_le _ _) Hs).
Defined.

(** The answer is kept, and given to a second call a minute later less a
    moment. *)
Definition sample_calls : list SbMove :=
  [MArrive 0 "s2"; MRun 0; MRun 0; MAnswer "s2" 0; MTick 59999; MArrive 1 "s2"; MRun 1; MRun 1].
Definition moved_at_100 (t : Z) (sae : SaeId) : res DkmsError NodeId := Ok (if t <? 100 then "d1" else "d2").

Lemma answers_are_recent_witness : exists s, sb_run moved_at_100 50 (sb_init 60 16) sample_calls = Some s /\
  sb_tasks s !! 1%nat = Some (TDone "s2" 59999 (Ok "d1")) /\ exists r, 0 <= r <= 59999 /\ 59999 - r < 60 * 1000 + 50 /\ moved_at_100 r "s2" = Ok "d1".
Proof.
  assert (Hs : (fun s => sb_tasks s !! 1%nat) <$> sb_run moved_at_100 50 (sb_init 60 16) sample_calls = Some (Some (TDone "s2" 59999 (Ok "d1")))) by (vm_compute; reflexivity).
  destruct (proj1 (fmap_Some _ _ _) Hs) as (s & E & Hd). symmetry in Hd.
  exists s. split; [exact E|]. split; [exact Hd|]. exact (answers_are_recent moved_at_100 50 60 16 sample_calls s 1 "s2" 59999 "d1" E Hd).
Defined.

Definition before_event : list SbMove := take 4 sample_calls ++ [MTick 200].
Definition after_event : list SbMove := [MArrive 1 "s2"; MRun 1; MRun 1; MAnswer "s2" 200].

Lemma event_makes_answers_fresh_witness :
  exists s s', sb_run moved_at_100 50 (sb_init 60 16) before_event = Some s /\ sb_run moved_at_100 50 s (MEvent :: after_event) = Some s' /\
    sb_tasks s' !! 1%nat = Some (TDone "s2" 200 (Ok "d2")) /\ exists r, sb_now s <= r <= 200 /\ moved_at_100 r "s2" = Ok "d2".
Proof.
  assert (Hs : (fun s => (sb_flights s !! "s2", sb_tasks s !! 1%nat, (fun s' => sb_tasks s' !! 1%nat) <$> sb_run moved_at_100 50 s (MEvent :: after_event)))
    <$> sb_run moved_at_100 50 (sb_init 60 16) before_event = Some (None, None, Some (Some (TDone "s2" 200 (Ok "d2"))))) by (vm_compute; reflexivity).
  destruct (proj1 (fmap_Some _ _ _) Hs) as (s & E & Hall). symmetry in Hall. pose proof (f_equal (fun x => x.1.1) Hall) as Hf.
  pose proof (f_equal (fun x => x.1.2) Hall) as Ht. destruct (proj1 (fmap_Some _ _ _) (f_equal snd Hall)) as (s' & E' & Hd). symmetry in Hd.
  exists s, s'. split_and!; [exact E|exact E'|exact Hd|].
  exact (event_makes_answers_fresh moved_at_100 50 60 16 before_event s after_event s' 1 "s2" 200 "d2" E Hf Ht E' Hd).
Defined.

Lemma resolve_alone_is_a_run_witness : let s := sb_init 60 16 in
  let '(c, r, _) := sbc_resolve (sb_sbc s) (sb_now s) (moved_at_100 (sb_now s)) "s2" in answers moved_at_100 50 s 0 "s2" (sb_flights s) c r.
Proof. apply (resolve_alone_is_a_run moved_at_100 50 (sb_init 60 16) 0 "s2"); [reflexivity|reflexivity|lia|done]. Defined.

Definition nobody (sae : SaeId) : res DkmsError NodeId := Err (SaeBindingLookupFailed sae).

Lemma failing_sae_is_asked_rarely_witness :
  let c := resolve_all (sbc_new 60 16) [] in let c2 := resolve_all (sbc_resolve c 0 nobody "ghost").1.1 [(1000, "s1", nobody)] in
  (sbc_resolve c2 4999 (moved_at_100 0) "ghost").1.2 = Err (SaeBindingLookupFailed "ghost") /\ (sbc_resolve c2 4999 (moved_at_100 0) "ghost").2 = false.
Proof.
  apply (failing_sae_is_asked_rarely 60 16 {[ "ghost"; "s1" ]} [] 0 nobody "ghost" (SaeBindingLookupFailed "ghost") [(1000, "s1", nobody)] 4999 (moved_at_100 0));
    [by vm_compute|repeat constructor; set_solver|set_solver|reflexivity|reflexivity|repeat constructor|reflexivity].
Defined.

(** The node of the first manager asks for keys with the application of the
    second, and with one of its own. *)
Definition asking_node : Delivery.Dkms unit := sample_node "d1" "s1" "d2" [] [].
Definition ask_both : Etsi014KeyRequest := mkReq 1 256 ["s1"] None None.
Definition two_calls : list SbMove :=
  [MArrive 0 "s2"; MRun 0; MRun 0; MAnswer "s2" 0; MTick 59999; MArrive 2 "s1"; MRun 2; MRun 2; MAnswer "s1" 59999; MArrive 1 "s2"; MRun 1; MRun 1].
Definition from_answer (x : SaeId) : res DkmsError NodeId :=
  if decide (x = "s2") then Ok "d2" else if decide (x = "s1") then Ok "d1" else Err (SaeBindingLookupFailed x).

Definition plan_of_both : EncPlan := mkPlan {["s1"]} [("d2", ["s2"])] None 32 1.

Lemma request_goes_where_the_sae_is_bound_witness : exists pl,
  enc_plan asking_node from_answer "s1" "s2" ask_both = Ok pl /\ placed asking_node pl "s2" "d2" /\ placed asking_node pl "s1" "d1" /\
  exists r, r <= 59999 /\ 59999 - r < 60 * 1000 + 50 /\ @bound_at flat_libm map_order (fun _ => SdnRegistry.sample_ops) r "s2" "d2".
Proof.
  assert (Ep : enc_plan asking_node from_answer "s1" "s2" ask_both = Ok plan_of_both) by (vm_compute; reflexivity). exists plan_of_both.
  assert (H2 : placed asking_node plan_of_both "s2" "d2") by (right; exists ["s2"]; split; by left).
  assert (H1 : placed asking_node plan_of_both "s1" "d1") by (left; split; [done|]; cbn [plan_of_both pl_local]; by apply elem_of_singleton).
  split_and!; [exact Ep|exact H2|exact H1|].
  assert (Hs : (fun s => (sb_tasks s !! 1%nat, sb_tasks s !! 2%nat)) <$> sb_run (@ask_controller flat_libm map_order (fun _ => SdnRegistry.sample_ops)) 50 (sb_init 60 16) two_calls
    = Some (Some (TDone "s2" 59999 (Ok "d2")), Some (TDone "s1" 59999 (Ok "d1")))) by (vm_compute; reflexivity).
  destruct (proj1 (fmap_Some _ _ _) Hs) as (s & E & Hd). symmetry in Hd. injection Hd as Hd1 Hd2.
  refine (proj2 (proj2 (proj2 (proj2 (@request_goes_where_the_sae_is_bound map_moka flat_libm map_order unit (fun _ => SdnRegistry.sample_ops) 50 60 16 two_calls s 59999 59999 asking_node from_answer "s1" "s2" ask_both _ E _ Ep)) "s2" "d2" H2))).
  intros x node. unfold from_answer. destruct (decide (x = "s2")) as [->|]; [intros [= <-]; exists 1%nat, 59999; split; [exact Hd1|lia]|].
  destruct (decide (x = "s1")) as [->|]; [intros [= <-]; exists 2%nat, 59999; split; [exact Hd2|lia]|done].
Defined.

(** ** What the cache gets wrong *)

(** A question under way when the controller sends its event is answered with what
    was so before, and kept: for the time to live the event has no effect. *)
Theorem event_misses_a_question_under_way :
  let ms := [MArrive 0 "s2"; MRun 0; MRun 0; MTick 120; MEvent; MAnswer "s2" 50; MTick 59000; MArrive 1 "s2"; MRun 1; MRun 1] in
  (fun s => (sb_now s, sb_tasks s !! 1%nat)) <$> sb_run moved_at_100 200 (sb_init 60 16) ms = Some (59120, Some (TDone "s2" 59120 (Ok "d1"))) /\
  moved_at_100 120 "s2" = Ok "d2".
Proof. split; vm_compute; reflexivity. Qed.

(** A call that failed and is late with its clean-up drops the answer another
    call got since, and refuses the SAE for five seconds. *)
Theorem late_failure_hides_a_binding :
  let up := fun t sae => if t <? 10 then Err (SaeBindingLookupFailed sae) else Ok "d2" in
  let ms := [MArrive 0 "s2"; MRun 0; MRun 0; MAnswer "s2" 0; MTick 20; MArrive 1 "s2"; MRun 1; MRun 1; MAnswer "s2" 20; MRun 0; MRun 0; MTick 4999; MArrive 2 "s2"; MRun 2] in
  (fun s => (sb_tasks s !! 1%nat, sb_tasks s !! 2%nat)) <$> sb_run up 50 (sb_init 60 16) ms
  = Some (Some (TDone "s2" 20 (Ok "d2")), Some (TDone "s2" 5019 (Err (SaeBindingLookupFailed "s2")))).
Proof. vm_compute. reflexivity. Qed.
