(* ===== verification/Arith.v ===== *)
(** * Arithmetic the numerical code runs with

    The rate allocators of the controller and the rate estimator of a relay
    compute in [f64].  They are modelled over the class [Arith], which has two
    instances: [float_arith], the arithmetic of the language ([Float64]), is what the
    code runs with; [exact_arith], the rationals, is what it approximates, and what
    the theorems on sums, means and fairness are about. *)

From Stdlib Require Import ZArith QArith Qpower Qround Lqa Lia SpecFloat.
From S2P Require Import Prelude Float64.

(** ** The class *)

(** [nmin_all] is the fold of [min] from infinity, [nclamp] and [npow] are
    [f64::clamp] and [f64::powf], [n_secs] a duration in seconds and [n_as_u64] the
    cast; [n_of_f64] is the value of a float the program holds. *)
Class Arith := {
  num : Type;
  n_of_f64 : f64 -> num; n_of_Z : Z -> num; nlit : Z -> Z -> num; n_secs : Z -> num; n_as_u64 : num -> Z;
  nadd : num -> num -> num; nsub : num -> num -> num; nmul : num -> num -> num; ndiv : num -> num -> num;
  nlt : num -> num -> bool; nle : num -> num -> bool;
  nmax : num -> num -> num; nmin : num -> num -> num; nclamp : num -> num -> num -> num;
  nmin_all : list num -> num; nfinite : num -> bool; npow : num -> num -> num
}.

Definition nzero `{Arith} : num := n_of_Z 0.
Definition none `{Arith} : num := n_of_Z 1.

Definition float_arith `{Libm} : Arith := {|
  num := f64; n_of_f64 := fun x => x; n_of_Z := f_of_Z; nlit := f_lit; n_secs := as_secs_f64; n_as_u64 := f_as_u 64;
  nadd := fadd; nsub := fsub; nmul := fmul; ndiv := fdiv; nlt := flt; nle := fle;
  nmax := fmax; nmin := fmin; nclamp := fclamp;
  nmin_all := fun l => fold_left fmin l f_inf; nfinite := is_finite; npow := powf |}.

#[local] Open Scope Q_scope.

(** ** Rationals *)

Definition f64_value (x : f64) : Q :=
  match x with S754_finite s m e => inject_Z (cond_Zopp s (Zpos m)) * 2 ^ e | _ => 0 end.

Definition qmax (x y : Q) : Q := if Qle_bool x y then y else x.
Definition qmin (x y : Q) : Q := if Qle_bool y x then y else x.

Definition exact_arith (pow : Q -> Q -> Q) : Arith := {|
  num := Q; n_of_f64 := f64_value; n_of_Z := inject_Z; nlit := fun n d => inject_Z n / inject_Z d;
  n_secs := fun d => inject_Z d / inject_Z NANOS_PER_SEC; n_as_u64 := fun x => Z.min (2 ^ 64 - 1) (Z.max 0 (Qfloor x));
  nadd := Qplus; nsub := Qminus; nmul := Qmult; ndiv := Qdiv;
  nlt := fun x y => negb (Qle_bool y x); nle := Qle_bool;
  nmax := qmax; nmin := qmin; nclamp := fun x lo hi => qmin (qmax x lo) hi;
  nmin_all := fun l => match l with [] => 1 | x :: l => fold_left qmin l x end;
  nfinite := fun _ => true; npow := pow |}.

Lemma qle_spec x y : reflect (x <= y) (Qle_bool x y).
Proof. destruct (Qle_bool x y) eqn:E; constructor; [by apply Qle_bool_iff|]. intros ?%Qle_bool_iff. congruence. Qed.

Lemma qlt_spec x y : reflect (x < y) (negb (Qle_bool y x)).
Proof. destruct (qle_spec y x) as [Hle|Hlt]; constructor; lra. Qed.

Lemma qmax_spec x y : x <= qmax x y /\ y <= qmax x y /\ (qmax x y = x \/ qmax x y = y).
Proof. unfold qmax. destruct (qle_spec x y); split_and!; try lra; auto. Qed.

Lemma qmin_spec x y : qmin x y <= x /\ qmin x y <= y /\ (qmin x y = x \/ qmin x y = y).
Proof. unfold qmin. destruct (qle_spec y x); split_and!; try lra; auto. Qed.

(** The fold of [min] is attained and below all. *)
Lemma fold_qmin l : forall x, fold_left qmin l x <= x /\ (forall y, y ∈ l -> fold_left qmin l x <= y) /\ (fold_left qmin l x = x \/ fold_left qmin l x ∈ l).
Proof.
  induction l as [|z l IH]; intros x; cbn [fold_left]; [split_and!; [lra|by intros y ?%not_elem_of_nil|by left]|].
  destruct (IH (qmin x z)) as (H1 & H2 & H3). destruct (qmin_spec x z) as (H4 & H5 & H6). split_and!; [lra| |].
  - intros y [->|Hy]%elem_of_cons; [lra|by apply H2].
  - destruct H3 as [->|H3]; [|right; by right]. destruct H6 as [->| ->]; [by left|right; by left].
Qed.

Lemma fold_qmax l : forall x, x <= fold_left qmax l x /\ (forall y, y ∈ l -> y <= fold_left qmax l x).
Proof.
  induction l as [|z l IH]; intros x; cbn [fold_left]; [split; [lra|by intros y ?%not_elem_of_nil]|].
  destruct (IH (qmax x z)) as (H1 & H2). destruct (qmax_spec x z) as (H4 & H5 & _). split; [lra|].
  intros y [->|Hy]%elem_of_cons; [lra|by apply H2].
Qed.

Lemma qmul_le_l z x y : 0 <= z -> x <= y -> z * x <= z * y.
Proof. intros Hz Hxy. rewrite (Qmult_comm z x), (Qmult_comm z y). by apply Qmult_le_compat_r. Qed.

Lemma qdiv_nonneg r a : 0 <= r -> 0 < a -> 0 <= r / a.
Proof. intros Hr Ha. apply Qle_shift_div_l; lra. Qed.

Lemma qdiv_le_mono r a b : 0 <= r -> 0 < a -> a <= b -> r / b <= r / a.
Proof.
  intros Hr Ha Hab. pose proof (qdiv_nonneg r a Hr Ha). apply Qle_shift_div_r; [lra|]. assert (He : r == r / a * a) by (field; intros ?; lra). rewrite He at 1. nra.
Qed.

Definition qsum (l : list Q) : Q := foldr Qplus 0 l.

#[export] Instance qsum_perm : Proper ((≡ₚ) ==> Qeq) qsum.
Proof. intros l l' Hp. induction Hp; cbn; [lra|by rewrite IHHp|lra|by etrans]. Qed.

Lemma qsum_le {A} (f g : A -> Q) l : (forall x, x ∈ l -> f x <= g x) -> qsum (map f l) <= qsum (map g l).
Proof.
  induction l as [|x l IH]; intros Hl; cbn; [lra|]. assert (f x <= g x) by (apply Hl; by left).
  assert (qsum (map f l) <= qsum (map g l)) by (apply IH; intros y Hy; apply Hl; by right). unfold qsum in *. lra.
Qed.

Lemma qsum_ext {A} (f g : A -> Q) l : (forall x, x ∈ l -> f x == g x) -> qsum (map f l) == qsum (map g l).
Proof. intros Hl. apply Qle_antisym; apply qsum_le; intros x Hx; rewrite (Hl x Hx); lra. Qed.

Lemma qsum_zero {A} (f : A -> Q) l : (forall x, x ∈ l -> f x == 0) -> qsum (map f l) == 0.
Proof. intros Hl. rewrite (qsum_ext f (fun _ => 0)) by done. induction l as [|x l IH]; cbn; [lra|]. unfold qsum in IH. rewrite IH; [lra|]. intros y Hy. apply Hl. by right. Qed.

Lemma qsum_scale {A} (c : Q) (f : A -> Q) l : qsum (map (fun x => c * f x) l) == c * qsum (map f l).
Proof. induction l as [|x l IH]; cbn; [lra|]. unfold qsum in IH. rewrite IH. lra. Qed.

Lemma qsum_plus {A} (f g : A -> Q) l : qsum (map (fun x => f x + g x) l) == qsum (map f l) + qsum (map g l).
Proof. induction l as [|x l IH]; cbn; [lra|]. unfold qsum in IH. rewrite IH. lra. Qed.

