(* ===== verification/RateAlloc.v ===== *)
(** * The rate allocators of the controller (sdn/src/rates_num.rs)

    Two allocators decide how many keys per second each pair of managers may
    exchange.  The routes are fixed: the weighted tables of [SdnWcmp] split a
    commodity over the edges ([commodity_edge_fractions]).  [num_step] is a step of
    a dual decomposition with a price per edge; [maxmin_allocate] raises a common
    fraction of every demand until an edge is used up ([waterfill]).

    The code computes in [f64].  The definitions are written over the class
    [Arith]; [float_arith] is the arithmetic the controller runs with, and what the
    algorithms do in exact arithmetic is shown in [AllocFair]. *)

From Stdlib Require Import ZArith Lia SpecFloat.
From S2P Require Import Prelude Text Float64 Arith Security SdnTopology SdnStore SdnGraph SdnRegistry SdnPaths SdnWcmp SdnControl SdnRates.

Abbreviation Edge := (string * string)%type.

Inductive Allocator := AllocNum | AllocMaxmin | AllocLp.

(** [Allocator::resolve]; [env] is the variable [SDN_RATE_ALLOCATOR]. *)
Definition allocator_resolve (lower : string -> string) (env : option string) (cfg_value : string) : Allocator :=
  let v := match env with Some s => if String.eqb s "" then cfg_value else s | None => cfg_value end in
  let v := lower v in
  if String.eqb v "" || String.eqb v "num" then AllocNum
  else if String.eqb v "maxmin" then AllocMaxmin
  else if String.eqb v "lp" then AllocLp
  else AllocNum.

Section Allocators.
Context `{Arith, !MapOrder Edge}.

Record NumParams := mkNumParams { np_alpha : num; np_gamma : num; np_fill_weight : num }.
Definition num_params_default : NumParams := mkNumParams none (nlit 2 10) (nlit 1 10).

Definition PRICE_EPSILON : num := nlit 1 1000000000.
Definition OVERLOAD_CLAMP : num := n_of_Z 5.
Definition FLOW_EPSILON : num := nlit 1 1000000.
Definition T_REPLAN_SECONDS : num := n_of_Z 5.

(** ** Fractions of a commodity over the edges *)

(** The body of the loop over the hops of [v]. *)
Definition push_hop (v : string) (m total : num) (st : gmap Edge num * gmap string num * list string) (h : WcmpNextHop)
  : gmap Edge num * gmap string num * list string :=
  let '(fractions, pending, queue) := st in
  let next := to_string (wh_qkc_id h) in
  let frac := ndiv (nmul m (n_of_Z (wh_weight h))) total in
  (<[edge_key v next := nadd (default nzero (fractions !! edge_key v next)) frac]> fractions,
   <[next := nadd (default nzero (pending !! next)) frac]> pending, queue ++ [next]).

(** The loop over the queue; the fuel is the bound of the code on its steps. *)
Fixpoint frac_loop (fuel : nat) (w : Wcmp) (dst : string) (fractions : gmap Edge num) (pending : gmap string num) (queue : list string) (arrived : num)
  : gmap Edge num * num :=
  match fuel, queue with
  | S fuel, v :: queue =>
      match pending !! v with
      | None => frac_loop fuel w dst fractions pending queue arrived
      | Some m =>
          let pending := delete v pending in
          if nle m nzero then frac_loop fuel w dst fractions pending queue arrived
          else if String.eqb v dst then frac_loop fuel w dst fractions pending queue (nadd arrived m)
          else match hops_at w v dst with
          | None | Some [] => frac_loop fuel w dst fractions pending queue arrived
          | Some hops =>
              let total := fold_left (fun a h => nadd a (n_of_Z (wh_weight h))) hops nzero in
              if nle total nzero then frac_loop fuel w dst fractions pending queue arrived
              else let '(fractions, pending, queue) := fold_left (push_hop v m total) hops (fractions, pending, queue) in
                   frac_loop fuel w dst fractions pending queue arrived
          end
      end
  | _, _ => (fractions, arrived)
  end.

Definition MAX_STEPS : Z := 100000.
Definition commodity_edge_fractions (w : Wcmp) (src_qkc dst_qkc : string) : gmap Edge num * num :=
  frac_loop (Z.to_nat MAX_STEPS) w dst_qkc ∅ {[src_qkc := none]} [src_qkc] nzero.

(** ** Flows *)

Record Flow := mkFlow { fl_c : CommodityDemand; fl_fractions : gmap Edge num; fl_routable : bool }.

Definition fl_drain (f : Flow) : num := n_of_f64 (cd_drain_rate (fl_c f)).
Definition fl_remaining (f : Flow) : num := nmax (nsub (n_of_f64 (cd_capacity (fl_c f))) (n_of_f64 (cd_level (fl_c f)))) nzero.
Definition share (f : Flow) (e : Edge) : num := default nzero (fl_fractions f !! e).

Definition prepare_flow (inputs : McmcfInputs) (wcmp_full wcmp_qkd : Wcmp) (c : CommodityDemand) : list Flow :=
  match mi_dkms_to_qkc inputs !! cd_src_dkms c, mi_dkms_to_qkc inputs !! cd_dst_dkms c with
  | Some src, Some dst =>
      let table := if decide (cd_grade c = GradeQkd) then wcmp_qkd else wcmp_full in
      let '(fractions, arrived) := commodity_edge_fractions table src dst in
      [mkFlow c fractions (nlt (nlit 99 100) arrived)]
  | _, _ => []
  end.
Definition prepare_flows (inputs : McmcfInputs) (wcmp_full wcmp_qkd : Wcmp) : list Flow :=
  concat (map (prepare_flow inputs wcmp_full wcmp_qkd) (mi_commodities inputs)).

Record AllocSolution := mkAlloc { as_rates : gmap string num; as_rates_grade : gmap (string * KeyGrade) num }.

Definition assemble_one (sol : AllocSolution) (fx : Flow * num) : AllocSolution :=
  let x := if nlt fx.2 FLOW_EPSILON then nzero else fx.2 in
  let fid := flow_id (cd_src_dkms (fl_c fx.1)) (cd_dst_dkms (fl_c fx.1)) in
  mkAlloc (<[fid := nadd (default nzero (as_rates sol !! fid)) x]> (as_rates sol))
    (<[(fid, cd_grade (fl_c fx.1)) := x]> (as_rates_grade sol)).
Definition assemble (flows : list Flow) (xs : list num) : AllocSolution := fold_left assemble_one (zip flows xs) (mkAlloc ∅ ∅).

(** What the flows put on each edge: the maps [load] of [step] and [slope] of
    [waterfill]. *)
Definition add_load (m : gmap Edge num) (f : Flow) (x : num) : gmap Edge num :=
  fold_left (fun m (efr : Edge * num) => <[efr.1 := nadd (default nzero (m !! efr.1)) (nmul efr.2 x)]> m) (map_iter (fl_fractions f)) m.

Definition edge_caps (inputs : McmcfInputs) : gmap Edge num := n_of_f64 <$> mi_edge_capacity inputs.

(** ** Prices *)

Record NumState := mkNumState { ns_prices : gmap Edge num; ns_ticks : Z }.
Definition num_state_new : NumState := mkNumState ∅ 0.

Definition price_of (prices : gmap Edge num) (f : Flow) : num :=
  fold_left (fun a (efr : Edge * num) => nadd a (nmul efr.2 (default nzero (prices !! efr.1)))) (map_iter (fl_fractions f)) nzero.

Definition num_rate (p : NumParams) (prices : gmap Edge num) (f : Flow) : num :=
  if negb (fl_routable f) then nzero else
  let w := nadd (fl_drain f) (ndiv (nmul (np_fill_weight p) (fl_remaining f)) T_REPLAN_SECONDS) in
  if nle w nzero then nzero else
  let x_cap := nadd (fl_drain f) (ndiv (fl_remaining f) T_REPLAN_SECONDS) in
  let price := price_of prices f in
  if nle price PRICE_EPSILON then x_cap
  else nmin (npow (ndiv w price) (ndiv none (nmax (np_alpha p) (nlit 1 10)))) x_cap.

Definition raw_load (flows : list Flow) (xs : list num) : gmap Edge num :=
  fold_left (fun m (fx : Flow * num) => if nle fx.2 nzero then m else add_load m fx.1 fx.2) (zip flows xs) ∅.

(** The edges with more on them than they carry, by how much. *)
Definition overload_of (caps load : gmap Edge num) : gmap Edge num :=
  map_imap (fun e cap => let l := default nzero (load !! e) in if nlt nzero cap && nlt cap l then Some (ndiv l cap) else None) caps.

Definition worst_of (overload : gmap Edge num) (f : Flow) : num :=
  fold_left nmax (omap (fun efr : Edge * num => overload !! efr.1) (map_iter (fl_fractions f))) none.

Definition project (overload : gmap Edge num) (flows : list Flow) (xs : list num) : list num :=
  if decide (overload = ∅) then xs else zip_with (fun f x => ndiv x (worst_of overload f)) flows xs.

Definition new_price (p : NumParams) (load : gmap Edge num) (prices : gmap Edge num) (ec : Edge * num) : gmap Edge num :=
  if nle ec.2 nzero then prices else
  let l := default nzero (load !! ec.1) in
  let grad := nclamp (ndiv (nsub l ec.2) ec.2) (n_of_Z (-1)) OVERLOAD_CLAMP in
  <[ec.1 := nmax (nadd (default nzero (prices !! ec.1)) (nmul (np_gamma p) grad)) nzero]> prices.

(** The rates [step] publishes, before they are put together. *)
Definition published (p : NumParams) (prices caps : gmap Edge num) (flows : list Flow) : list num :=
  let xs := map (num_rate p prices) flows in
  project (overload_of caps (raw_load flows xs)) flows xs.

Definition num_step (st : NumState) (inputs : McmcfInputs) (wcmp_full wcmp_qkd : Wcmp) (p : NumParams) : NumState * AllocSolution :=
  let flows := prepare_flows inputs wcmp_full wcmp_qkd in
  let xs := map (num_rate p (ns_prices st)) flows in
  let load := raw_load flows xs in
  let caps := edge_caps inputs in
  let out := project (overload_of caps load) flows xs in
  let prices := fold_left (new_price p load) (map_iter caps) (ns_prices st) in
  (mkNumState (filter (fun ep : Edge * num => is_Some (caps !! ep.1)) prices) (ns_ticks st + 1), assemble flows out).

(** ** Progressive filling *)

Definition at_idx (l : list num) (i : nat) : num := default nzero (l !! i).

Definition wf_slope (flows : list Flow) (demand : list num) (active : list nat) : gmap Edge num :=
  fold_left (fun m i => match flows !! i with Some f => add_load m f (at_idx demand i) | None => m end) active ∅.

Definition wf_delta (t : list num) (active : list nat) (slope residual : gmap Edge num) : num :=
  fold_left (fun delta (es : Edge * num) =>
    if nlt FLOW_EPSILON es.2 then match residual !! es.1 with Some r => nmin delta (ndiv (nmax r nzero) es.2) | None => delta end else delta)
    (map_iter slope) (nmin_all (map (fun i => nsub none (at_idx t i)) active)).

Definition wf_raise (delta : num) (active : list nat) (t : list num) : list num :=
  fold_left (fun t i => alter (fun x => nadd x delta) i t) active t.
Definition wf_consume (delta : num) (slope residual : gmap Edge num) : gmap Edge num :=
  fold_left (fun res (es : Edge * num) => alter (fun r => nsub r (nmul delta es.2)) es.1 res) (map_iter slope) residual.

Definition exhausted (slope residual : gmap Edge num) (e : Edge) : bool :=
  bool_decide (is_Some (slope !! e)) && match residual !! e with Some r => nle r (nlit 1 1000000000) | None => false end.

Definition stays_active (flows : list Flow) (t : list num) (slope residual : gmap Edge num) (i : nat) : bool :=
  nlt (at_idx t i) (nsub none (nlit 1 1000000000000)) &&
  match flows !! i with Some f => negb (existsb (fun efr : Edge * num => exhausted slope residual efr.1) (map_iter (fl_fractions f))) | None => false end.

Fixpoint wf_loop (fuel : nat) (flows : list Flow) (demand : list num) (t : list num) (residual : gmap Edge num) (active : list nat)
  : option (list num * gmap Edge num) :=
  match active with
  | [] => Some (t, residual)
  | _ =>
      match fuel with
      | O => None
      | S fuel =>
          let slope := wf_slope flows demand active in
          let delta := wf_delta t active slope residual in
          if negb (nfinite delta) then Some (t, residual) else
          let '(t, residual) := if nlt nzero delta then (wf_raise delta active t, wf_consume delta slope residual) else (t, residual) in
          let active' := List.filter (stays_active flows t slope residual) active in
          if (length active' =? length active)%nat && nle delta nzero then Some (t, residual)
          else wf_loop fuel flows demand t residual active'
      end
  end.

Definition wf_start (flows : list Flow) (demand : list num) : list nat :=
  List.filter (fun i => match flows !! i with Some f => fl_routable f && nlt FLOW_EPSILON (at_idx demand i) | None => false end) (seq 0 (length flows)).
Definition waterfill (fuel : nat) (flows : list Flow) (demand : list num) (residual : gmap Edge num) : option (list num * gmap Edge num) :=
  wf_loop fuel flows demand (replicate (length flows) nzero) residual (wf_start flows demand).

Definition maxmin_rates (fuel : nat) (flows : list Flow) (caps : gmap Edge num) : option (list num) :=
  let drain := map fl_drain flows in
  let fill := map (fun f => ndiv (fl_remaining f) T_REPLAN_SECONDS) flows in
  '(t_drain, residual) ← waterfill fuel flows drain caps;
  '(t_fill, _) ← waterfill fuel flows fill residual;
  Some (map (fun i => nadd (nmul (at_idx t_drain i) (at_idx drain i)) (nmul (at_idx t_fill i) (at_idx fill i))) (seq 0 (length flows))).

Definition maxmin_allocate (fuel : nat) (inputs : McmcfInputs) (wcmp_full wcmp_qkd : Wcmp) : option AllocSolution :=
  let flows := prepare_flows inputs wcmp_full wcmp_qkd in
  assemble flows <$> maxmin_rates fuel flows (edge_caps inputs).
End Allocators.

(** ** A recomputation of the controller *)

Definition to_solution `{Libm} (s : @AllocSolution float_arith) : McmcfSolution := mkSolution (as_rates s) (as_rates_grade s).

(** [recompute_mcf_inner] of sdn/src/service.rs: the inputs of the present topology
    and demand, the allocator of the configuration, the snapshot.  [lp] is the
    linear program of [RateLp]; [None] stands for a panic, and for a filling that takes more
    than [fuel] rounds. *)
Definition recompute_mcf_inner `{Libm, HashOrder, !MapOrder Edge, !MapOrder (string * KeyGrade)} (lp : McmcfInputs -> McmcfSolution) (fuel : nat)
    (alloc : Allocator) (p : @NumParams float_arith) (st : @NumState float_arith) (t : Topology) (registry : DemandRegistry)
  : option (@NumState float_arith * McfSnapshot) :=
  let inputs := build t registry in
  '(st, sol) ← match alloc with
    | AllocLp => Some (st, lp inputs)
    | AllocNum =>
        wf ← wcmp_from_topology t None; wq ← wcmp_from_topology t (Some GradeQkd);
        let '(st, s) := @num_step float_arith _ st inputs wf wq p in Some (st, to_solution s)
    | AllocMaxmin =>
        wf ← wcmp_from_topology t None; wq ← wcmp_from_topology t (Some GradeQkd);
        s ← @maxmin_allocate float_arith _ fuel inputs wf wq; Some (st, to_solution s)
    end;
  snap ← into_mcf_snapshot sol t; Some (st, snap).

(** With the default allocator a recomputation always gives a snapshot, whatever
    the history of the topology. *)
Theorem recompute_gives_a_snapshot `{Libm, HashOrder, !MapOrder Edge, !MapOrder (string * KeyGrade)} lp fuel p st ops registry :
  is_Some (recompute_mcf_inner lp fuel AllocNum p st (st_topo (sdn_run ops)) registry).
Proof.
  pose proof (go_sync _ (sdn_run_graph ops)) as Hs. destruct (wcmp_tables_spec _ None Hs) as (wf & Ef & _), (wcmp_tables_spec _ (Some GradeQkd) Hs) as (wq & Eq & _).
  unfold recompute_mcf_inner, into_mcf_snapshot. rewrite Ef, Eq. cbn [mbind option_bind]. destruct (num_step _ _ _ _ _) as [st' s]. cbn [mbind option_bind]. destruct (fold_left _ _ _). by eexists.
Qed.

(** The capacity of a link that delivers nothing is zero, and the allocators are
    given the edges above zero only; the tables still lead over it.  The pair the
    link joins is promised the most it could use, as if nothing limited it. *)
Definition dead_link_topo : Topology := st_topo (@sdn_run flat_libm map_order (sample_ops ++ [OpCapacity "1" "2" f_zero])).

Theorem dead_link_is_promised :
  mi_edge_capacity (@build flat_libm map_order dead_link_topo ∅) !! ("1"%string, "2"%string) = None /\
  (fun r => sn_rates r.2 !! "d1->d2"%string) <$>
    @recompute_mcf_inner flat_libm map_order (list_order Edge) (list_order (string * KeyGrade)) (fun _ => mkSolution ∅ ∅) 2 AllocNum
      (@num_params_default (@float_arith flat_libm)) (@num_state_new (@float_arith flat_libm)) dead_link_topo ∅
    = Some (Some (f_lit 4096 5)) /\
  (fun r => sn_rates r.2 !! "d1->d2"%string) <$>
    @recompute_mcf_inner flat_libm map_order (list_order Edge) (list_order (string * KeyGrade)) (fun _ => mkSolution ∅ ∅) 2 AllocMaxmin
      (@num_params_default (@float_arith flat_libm)) (@num_state_new (@float_arith flat_libm)) dead_link_topo ∅
    = Some (Some (f_lit 4096 5)).
Proof. split_and!; vm_compute; reflexivity. Qed.
