(* ===== verification/AllocFair.v ===== *)
(** * What the rate allocators promise, in exact arithmetic

    [RateAlloc] over the rationals ([exact_arith]): the numbers are the values of
    the floating-point numbers the controller holds, and nothing is rounded.

    Shown: the rates a price step publishes fit every edge, whatever the prices
    are, and nobody with a route and a demand is left at zero; progressive filling
    ends after as many rounds as there are commodities, what it gives fits every
    edge up to the threshold of the code, and is max-min fair: a commodity that
    does not get its whole demand crosses an edge that is used up, on which no
    other gets a larger fraction.  At the end a case where rounding makes a round
    settle nobody. *)

From Stdlib Require Import ZArith QArith Qpower Lqa Lia SpecFloat.
From stdpp Require Import sorting.
From S2P Require Import Prelude Text Float64 Arith Security SdnTopology SdnStore SdnGraph SdnRegistry SdnPaths SdnWcmp SdnControl SdnRates RateAlloc.

#[local] Open Scope Q_scope.

Section Exact.
Context (pow : Q -> Q -> Q) `{MO : !MapOrder Edge}.
#[local] Instance EA : Arith := exact_arith pow.

(** What a map says of an edge. *)
Definition lv (m : gmap Edge Q) (e : Edge) : Q := default 0 (m !! e).

Lemma lv_Some (m : gmap Edge num) e (s : num) : m !! e = Some s -> lv m e = s.
Proof. intros Hs. exact (f_equal (from_option id (0 : Q)) Hs). Qed.
Lemma lv_None (m : gmap Edge num) e : m !! e = None -> lv m e = 0.
Proof. intros Hs. exact (f_equal (from_option id (0 : Q)) Hs). Qed.

Lemma lv_insert m e v e' : lv (<[e := v]> m) e' = if decide (e' = e) then v else lv m e'.
Proof. unfold lv. destruct (decide (e' = e)) as [->|]; [by rewrite lookup_insert_eq|by rewrite lookup_insert_ne]. Qed.

(** ** Loads *)

(** The sum of the entries of one key is its value. *)
Lemma entries_of_key (m : gmap Edge Q) e x : qsum (map (fun efr : Edge * Q => if decide (efr.1 = e) then efr.2 * x else 0) (map_iter m)) == lv m e * x.
Proof.
  rewrite (map_iter_perm _ m). unfold lv. destruct (m !! e) as [v|] eqn:E; cbn [from_option id].
  - rewrite <- (insert_delete_id m e v E) at 1. rewrite map_to_list_insert by apply lookup_delete_eq. cbn [map qsum foldr fst snd].
    rewrite decide_True by done. change (v * x + qsum (map (fun efr : Edge * Q => if decide (efr.1 = e) then efr.2 * x else 0) (map_to_list (delete e m))) == v * x). rewrite qsum_zero; [lra|].
    intros [k w] Hk%elem_of_map_to_list. cbn [fst snd]. rewrite decide_False; [lra|]. intros ->. by rewrite lookup_delete_eq in Hk.
  - rewrite qsum_zero; [lra|]. intros [k w] Hk%elem_of_map_to_list. cbn [fst snd]. rewrite decide_False; [lra|]. intros ->. congruence.
Qed.

Lemma fold_add_lv (l : list (Edge * Q)) x e : forall m, lv (fold_left (fun m (efr : Edge * Q) => <[efr.1 := lv m efr.1 + efr.2 * x]> m) l m) e
  == lv m e + qsum (map (fun efr : Edge * Q => if decide (efr.1 = e) then efr.2 * x else 0) l).
Proof.
  induction l as [|[k fr] l IH]; intros m; cbn [fold_left map qsum foldr fst snd]; [lra|]. rewrite IH, lv_insert.
  unfold qsum. destruct (decide (e = k)) as [->|Hne].
  - rewrite decide_True by done. lra.
  - rewrite decide_False by congruence. lra.
Qed.

Lemma add_load_lv m (f : Flow) x e : lv (add_load m f x) e == lv m e + share f e * x.
Proof. change (share f e) with (lv (fl_fractions f) e). rewrite <- entries_of_key. exact (fold_add_lv (map_iter (fl_fractions f)) x e m). Qed.

Lemma fold_insert_dom (g : gmap Edge Q -> Edge * Q -> Q) l e : forall m : gmap Edge Q,
  is_Some (fold_left (fun m efr => <[efr.1 := g m efr]> m) l m !! e) <-> is_Some (m !! e) \/ e ∈ l.*1.
Proof.
  induction l as [|[k fr] l IH]; intros m; cbn [fold_left]; [rewrite fmap_nil, elem_of_nil; tauto|]. rewrite IH, fmap_cons, elem_of_cons. cbn [fst].
  rewrite lookup_insert_is_Some. destruct (decide (k = e)) as [->|]; [tauto|]. assert (e <> k) by congruence. tauto.
Qed.

Lemma iter_keys (m : gmap Edge Q) e : e ∈ (map_iter m).*1 <-> is_Some (m !! e).
Proof.
  rewrite list_elem_of_fmap. split.
  - intros ([k v] & -> & Hk%map_iter_elem). by eexists.
  - intros [v Hv]. exists (e, v). split; [done|]. by apply map_iter_elem.
Qed.

Lemma add_load_dom m (f : Flow) x e : is_Some (add_load m f x !! e) <-> is_Some (m !! e) \/ is_Some (fl_fractions f !! e).
Proof. rewrite <- (iter_keys (fl_fractions f) e). exact (fold_insert_dom (fun m efr => lv m efr.1 + efr.2 * x) (map_iter (fl_fractions f)) e m). Qed.

(** What flows with these rates use of an edge. *)
Definition used (fxs : list (Flow * Q)) (e : Edge) : Q := qsum (map (fun fx => share fx.1 e * fx.2) fxs).

Definition flow_ok (f : Flow) : Prop := forall e fr, fl_fractions f !! e = Some fr -> 0 <= fr.

Lemma share_nonneg f e : flow_ok f -> 0 <= share f e.
Proof. intros Hf. unfold share. destruct (fl_fractions f !! e) as [fr|] eqn:E; cbn [from_option id]; [by eapply Hf|]. apply Qle_refl. Qed.

Lemma fold_load_lv (l : list (Flow * Q)) e : Forall (fun fx => 0 <= fx.2) l ->
  forall m, lv (fold_left (fun m (fx : Flow * Q) => if Qle_bool fx.2 0 then m else add_load m fx.1 fx.2) l m) e == lv m e + used l e.
Proof.
  intros Hl. induction Hl as [|[f x] l Hfx Hl IH]; intros m; cbn [fold_left fst snd]; [unfold used; cbn [map qsum foldr]; lra|].
  rewrite IH. unfold used. cbn [map qsum foldr fst snd] in *. destruct (qle_spec x 0) as [H0|H0]; [|rewrite add_load_lv; unfold qsum; lra].
  assert (Hz : x == 0) by lra. rewrite Hz. unfold qsum. lra.
Qed.

Lemma raw_load_used flows xs e : Forall (fun x => 0 <= x) xs -> lv (raw_load flows xs) e == used (zip flows xs) e.
Proof.
  intros Hx. assert (Hz : Forall (fun fx : Flow * Q => 0 <= fx.2) (zip flows xs)).
  { apply Forall_forall. intros [f x] Hin%elem_of_zip_r. rewrite Forall_forall in Hx. by apply Hx. }
  etrans; [exact (fold_load_lv (zip flows xs) e Hz ∅)|]. change (lv ∅ e) with 0. lra.
Qed.

(** ** A price step fits the edges *)

Definition overloaded (caps load : gmap Edge num) (e : Edge) (cap : Q) : Prop := caps !! e = Some cap /\ 0 < cap /\ cap < lv load e.

Lemma overload_lookup (caps load : gmap Edge num) e r : overload_of caps load !! e = Some r <-> exists cap, overloaded caps load e cap /\ r = lv load e / cap.
Proof.
  unfold overload_of. rewrite map_lookup_imap. unfold overloaded. destruct (caps !! e) as [cap|]; cbn [mbind option_bind]; [|split; [done|by intros (? & (? & _) & _)]].
  change (default nzero (load !! e)) with (lv load e). cbn [nlt nzero n_of_Z ndiv EA exact_arith]. change (inject_Z 0) with 0.
  destruct (qlt_spec 0 cap) as [H0|H0], (qlt_spec cap (lv load e)) as [H1|H1]; cbn [andb].
  { split; [intros [= <-]; by exists cap|by intros (c & ([= <-] & _) & ->)]. }
  all: split; [done|intros (c & ([= <-] & ? & ?) & _); by destruct H0 || by destruct H1].
Qed.

Lemma worst_of_spec overload (f : Flow) : 1 <= worst_of overload f /\ forall e r, is_Some (fl_fractions f !! e) -> overload !! e = Some r -> r <= worst_of overload f.
Proof.
  destruct (fold_qmax (omap (fun efr : Edge * Q => overload !! efr.1) (map_iter (fl_fractions f))) 1) as [H1 H2]. split; [exact H1|].
  intros e r [v Hv] Hr. apply H2. apply list_elem_of_omap. exists (e, v). split; [|done]. by apply map_iter_elem.
Qed.

Lemma used_map (flows : list Flow) (g : Flow -> Q) e : used (zip flows (map g flows)) e = qsum (map (fun f => share f e * g f) flows).
Proof. unfold used. f_equal. induction flows as [|f flows IH]; cbn [map zip zip_with fst snd]; [done|]. by rewrite IH. Qed.

(** The rates before and after the projection, flow by flow. *)
Lemma project_map overload (flows : list Flow) (r : Flow -> Q) :
  project overload flows (map r flows) = map (fun f => if decide (overload = ∅) then r f else r f / worst_of overload f) flows.
Proof.
  unfold project. destruct (decide (overload = ∅)); [done|]. induction flows as [|f flows IH]; cbn [map zip_with]; [done|]. by rewrite IH.
Qed.

(** Rates that are not negative are projected to rates that fit. *)
Lemma project_fits (caps : gmap Edge num) (flows : list Flow) (r : Flow -> Q) e cap :
  Forall flow_ok flows -> (forall f, f ∈ flows -> 0 <= r f) -> caps !! e = Some cap -> 0 < cap ->
  used (zip flows (project (overload_of caps (raw_load flows (map r flows))) flows (map r flows))) e <= cap.
Proof.
  intros Hok Hr Hcap Hpos. set (load := raw_load flows (map r flows)). set (over := overload_of caps load). rewrite project_map, used_map.
  assert (Hload : lv load e == qsum (map (fun f => share f e * r f) flows)).
  { rewrite <- used_map. apply raw_load_used. apply Forall_forall. intros x (f & -> & Hf)%list_elem_of_fmap. by apply Hr. }
  rewrite Forall_forall in Hok. set (g := fun f => if decide (over = ∅) then r f else r f / worst_of over f).
  destruct (qlt_spec cap (lv load e)) as [Hover|Hfit].
  - assert (Ho : over !! e = Some (lv load e / cap)) by (apply overload_lookup; by exists cap). set (rho := lv load e / cap) in *.
    assert (Hrho : 0 < rho) by (apply Qlt_shift_div_l; lra).
    assert (Hle : qsum (map (fun f => share f e * g f) flows) <= qsum (map (fun f => (1 / rho) * (share f e * r f)) flows)).
    { apply qsum_le. intros f Hf. unfold g. rewrite decide_False by (intros E; by rewrite E, lookup_empty in Ho).
      destruct (worst_of_spec over f) as [H1 Hw]. pose proof (Hr f Hf) as Hrf. unfold share. destruct (fl_fractions f !! e) as [fr|] eqn:Efr; cbn [from_option id].
      - pose proof (Hok f Hf e fr Efr). pose proof (qdiv_le_mono (r f) rho (worst_of over f) Hrf Hrho (Hw e rho ltac:(by eexists) Ho)) as Hd.
        assert (Hm : 1 / rho * (fr * r f) == fr * (r f / rho)) by (field; intros ?; lra). rewrite Hm. by apply qmul_le_l.
      - change nzero with 0. lra. }
    rewrite qsum_scale, <- Hload in Hle. assert (He : (1 / rho) * lv load e == cap) by (unfold rho; field; split; intros ?; lra). eapply Qle_trans; [exact Hle|]. lra.
  - apply Qle_trans with (qsum (map (fun f => @share EA f e * r f) flows)); [|rewrite <- Hload; lra].
    apply qsum_le. intros f Hf. unfold g. destruct (decide (over = ∅)); [lra|]. destruct (worst_of_spec over f) as [H1 _].
    pose proof (share_nonneg f e (Hok f Hf)). pose proof (qdiv_le_mono (r f) 1 (worst_of over f) (Hr f Hf) ltac:(lra) H1) as Hd.
    assert (Hm : r f / 1 == r f) by field. rewrite Hm in Hd. by apply qmul_le_l.
Qed.
(** ** The split of a commodity *)

(** The numbers of the code are rationals. *)
#[local] Ltac qn := change (@num EA) with Q in *; cbn [nadd nsub nmul ndiv nle nlt nmax nmin n_of_Z nlit EA exact_arith] in *; change (@nzero EA) with 0 in *.

Definition mass (m : gmap string Q) : Q := qsum (map snd (map_to_list m)).

Lemma mass_delete (m : gmap string Q) x v : m !! x = Some v -> mass m == v + mass (delete x m).
Proof.
  intros Hx. unfold mass. rewrite <- (insert_delete_id m x v Hx) at 1. rewrite map_to_list_insert by apply lookup_delete_eq. cbn [map snd qsum foldr]. unfold qsum. lra.
Qed.

Lemma mass_insert (m : gmap string Q) x y : mass (<[x := default 0 (m !! x) + y]> m) == mass m + y.
Proof.
  rewrite (mass_delete _ x (default 0 (m !! x) + y)) by apply lookup_insert_eq. rewrite delete_insert_eq.
  destruct (m !! x) as [v|] eqn:E; cbn [from_option id]; [rewrite (mass_delete m x v E); lra|]. rewrite delete_id by done. lra.
Qed.

Definition nonneg {K} `{Countable K} (m : gmap K Q) : Prop := forall k v, m !! k = Some v -> 0 <= v.

Lemma nonneg_add {K} `{Countable K} (m : gmap K Q) k y : nonneg m -> 0 <= y -> nonneg (<[k := default 0 (m !! k) + y]> m).
Proof.
  intros Hm Hy k' v. destruct (decide (k' = k)) as [->|]; [rewrite lookup_insert_eq|rewrite lookup_insert_ne by done; apply Hm].
  intros [= <-]. destruct (m !! k) as [v|] eqn:E; cbn [from_option id]; [specialize (Hm _ _ E); lra|]. lra.
Qed.

Definition next_of (h : WcmpNextHop) : string := to_string (wh_qkc_id h).
Definition weight_sum (hops : list WcmpNextHop) : Q := qsum (map (fun h => inject_Z (wh_weight h)) hops).

Lemma total_is_sum hops : forall a, fold_left (fun a h => nadd a (n_of_Z (wh_weight h))) hops a == a + weight_sum hops.
Proof.
  induction hops as [|h hops IH]; intros a; cbn [fold_left]; [unfold weight_sum; cbn [map qsum foldr]; lra|]. rewrite IH. unfold weight_sum. cbn [map qsum foldr nadd n_of_Z EA exact_arith]. unfold qsum. lra.
Qed.

(** The loop over the hops of a node. *)
Lemma push_hops v m total hops : 0 < total -> 0 <= m -> Forall (fun h => (0 <= wh_weight h)%Z) hops ->
  forall fr pe q, nonneg fr -> nonneg pe ->
  exists fr' pe' q', fold_left (push_hop v m total) hops (fr, pe, q) = (fr', pe', q') /\
  nonneg fr' /\ nonneg pe' /\ q' = q ++ map next_of hops /\ mass pe' == mass pe + m * weight_sum hops / total /\
  (forall x, is_Some (pe' !! x) <-> is_Some (pe !! x) \/ x ∈ map next_of hops) /\
  (forall e, is_Some (fr' !! e) -> is_Some (fr !! e) \/ exists h, h ∈ hops /\ e = edge_key v (next_of h)).
Proof.
  intros Ht Hm Hw. qn. induction Hw as [|h hops Hh Hw IH]; intros fr pe q Hfr Hpe; cbn [fold_left map].
  { exists fr, pe, q. split_and!; try done; [by rewrite app_nil_r|unfold weight_sum; cbn [map qsum foldr]; field; intros ?; lra|intros x; rewrite elem_of_nil; tauto|by left]. }
  unfold push_hop at 2. fold (next_of h). qn. set (frac := m * inject_Z (wh_weight h) / total).
  assert (Hfrac : 0 <= frac). { apply qdiv_nonneg; [|done]. apply Qmult_le_0_compat; [done|]. by rewrite <- (Zle_Qle 0). }
  specialize (IH _ _ (q ++ [next_of h]) (nonneg_add fr (edge_key v (next_of h)) frac Hfr Hfrac) (nonneg_add pe (next_of h) frac Hpe Hfrac)).
  destruct IH as (fr' & pe' & q' & H0 & H1 & H2 & H3 & H4 & H5 & H6). exists fr', pe', q'. split_and!; try done.
  - by rewrite H3, <- app_assoc.
  - rewrite H4, mass_insert. unfold weight_sum, frac. cbn [map qsum foldr]. unfold qsum. field. intros ?; lra.
  - intros x. rewrite H5, lookup_insert_is_Some, elem_of_cons. destruct (decide (next_of h = x)) as [->|]; [tauto|]. assert (x <> next_of h) by congruence. tauto.
  - intros e He. destruct (H6 e He) as [[<-|[_ ?]]%lookup_insert_is_Some|(h' & ? & ?)]; [right; exists h; split; [by left|done]|by left|right; exists h'; split; [by right|done]].
Qed.

(** The edges a table leads over. *)
Definition leads_over (w : Wcmp) (dst : string) (e : Edge) : Prop :=
  exists v hops h, hops_at w v dst = Some hops /\ h ∈ hops /\ e = edge_key v (next_of h).

(** Whatever the table, the shares are not negative and are of its edges. *)
Lemma frac_loop_shares w dst : weights_ok w -> forall fuel fr pe q arrived, nonneg fr -> nonneg pe -> (forall e, is_Some (fr !! e) -> leads_over w dst e) ->
  let fr' := (frac_loop fuel w dst fr pe q arrived).1 in nonneg fr' /\ forall e, is_Some (fr' !! e) -> leads_over w dst e.
Proof.
  intros Hw. induction fuel as [|fuel IH]; intros fr pe q arrived Hfr Hpe He; cbn [frac_loop]; [done|]. destruct q as [|v q]; [done|]. qn.
  destruct (pe !! v) as [m|] eqn:Em; [|by apply IH]. assert (Hdel : nonneg (delete v pe)) by (intros k x [_ Hk]%lookup_delete_Some; by eapply Hpe).
  destruct (Qle_bool m 0); [by apply IH|]. destruct (String.eqb v dst); [by apply IH|]. destruct (hops_at w v dst) as [[|h0 hs]|] eqn:Eh; [by apply IH| |by apply IH].
  set (hops := h0 :: hs) in *. set (total := fold_left _ hops 0). destruct (qle_spec total 0) as [Et|Et]; [by apply IH|].
  destruct (push_hops v m total hops) with (fr := fr) (pe := delete v pe) (q := q) as (fr' & pe' & q' & E & H1 & H2 & _ & _ & _ & H6); [| | |done..|].
  - lra.
  - by eapply Hpe.
  - apply Forall_forall. intros h Hh. specialize (Hw v dst hops h Eh Hh). lia.
  - qn. rewrite E. apply IH; [done..|]. intros e [?|(h & Hh & ->)]%H6; [by apply He|by exists v, hops, h].
Qed.

Lemma fractions_shares w src dst : weights_ok w ->
  nonneg (commodity_edge_fractions w src dst).1 /\ forall e, is_Some ((commodity_edge_fractions w src dst).1 !! e) -> leads_over w dst e.
Proof.
  intros Hw. apply frac_loop_shares; [done|by intros k v Hk%lookup_empty_Some| |by intros e [? Hk%lookup_empty_Some]].
  intros k v [_ <-]%lookup_singleton_Some. by vm_compute.
Qed.

(** The distances of a table, and a hop at every node but the destination. *)
Record split_ok (w : Wcmp) (dst : string) (dist : gmap string nat) : Prop := mkSplitOk {
  sp_step : forall v hops h, hops_at w v dst = Some hops -> h ∈ hops -> exists j, dist !! v = Some (S j) /\ dist !! next_of h = Some j;
  sp_hops : forall v j, dist !! v = Some j -> v <> dst -> exists hops, hops_at w v dst = Some hops /\ hops <> [];
  sp_weights : weights_ok w }.

Definition hops_of (w : Wcmp) (dst v : string) : nat := length (default [] (hops_at w v dst)).
(** The hops of the nodes that have not been left yet. *)
Definition budget (w : Wcmp) (dst : string) (dist : gmap string nat) (X : gset string) : nat :=
  sum_list_with (hops_of w dst) (elements (dom dist ∖ X)).

Lemma budget_spend w dst dist X v : v ∈ dom dist -> v ∉ X -> (budget w dst dist X = hops_of w dst v + budget w dst dist ({[v]} ∪ X))%nat.
Proof.
  intros Hv Hx. unfold budget. assert (Hs : dom dist ∖ X = {[v]} ∪ dom dist ∖ ({[v]} ∪ X)).
  { apply set_eq. intros y. destruct (decide (y = v)) as [->|]; set_solver. }
  rewrite Hs, elements_disj_union by set_solver. rewrite elements_singleton. cbn [app sum_list_with]. done.
Qed.

(** The queue holds one distance and then the next, and what was left is not
    closer. *)
Definition by_level (dist : gmap string nat) (q : list string) (X : gset string) : Prop :=
  exists d q1 q2, q = q1 ++ q2 /\ (forall x, x ∈ q1 -> dist !! x = Some d) /\ (forall x, x ∈ q2 -> dist !! x = Some (d - 1)%nat) /\
    forall x, x ∈ X -> exists l, dist !! x = Some l /\ (d <= l)%nat.

Lemma by_level_head dist v q X : by_level dist (v :: q) X -> exists d q1 q2, q = q1 ++ q2 /\ dist !! v = Some d /\
  (forall x, x ∈ q1 -> dist !! x = Some d) /\ (forall x, x ∈ q2 -> dist !! x = Some (d - 1)%nat) /\ forall x, x ∈ X -> exists l, dist !! x = Some l /\ (d <= l)%nat.
Proof.
  intros (d & [|y q1] & q2 & E & H1 & H2 & H3); cbn in E.
  - exists (d - 1)%nat, q, []. subst q2. split_and!; [by rewrite app_nil_r|apply H2; by left|intros x Hx; apply H2; by right|by intros x ?%not_elem_of_nil|].
    intros x Hx. destruct (H3 x Hx) as (l & ? & ?). exists l. split; [done|lia].
  - injection E as <- ->. exists d, q1, q2. split_and!; [done|apply H1; by left|intros x Hx; apply H1; by right|done|done].
Qed.

Lemma by_level_pop dist v q X : by_level dist (v :: q) X -> by_level dist q X.
Proof. intros (d & q1 & q2 & -> & Hv & H1 & H2 & H3)%by_level_head. by exists d, q1, q2. Qed.

Record splitting (w : Wcmp) (dst : string) (dist : gmap string nat) (pe : gmap string Q) (q : list string) (arrived : Q) (X : gset string) : Prop := mkSplitting {
  sg_pos : nonneg pe;
  sg_mass : mass pe + arrived == 1;
  sg_queued : forall x, is_Some (pe !! x) -> x ∈ q /\ x ∉ X;
  sg_level : by_level dist q X }.

Lemma splitting_skip w dst dist pe v q arrived X : splitting w dst dist pe (v :: q) arrived X -> pe !! v = None -> splitting w dst dist pe q arrived X.
Proof.
  intros [H1 H2 H3 H4] Hv. constructor; [done..| |by eapply by_level_pop]. intros x Hx. destruct (H3 x Hx) as [[->|?]%elem_of_cons ?]; [|done].
  rewrite Hv in Hx. by destruct Hx.
Qed.

Lemma splitting_drop w dst dist pe v m q arrived arrived' X : splitting w dst dist pe (v :: q) arrived X -> pe !! v = Some m -> m + arrived == arrived' ->
  splitting w dst dist (delete v pe) q arrived' X.
Proof.
  intros [H1 H2 H3 H4] Hv Ha. constructor.
  - intros k x [_ Hk]%lookup_delete_Some. by eapply H1.
  - rewrite (mass_delete _ _ _ Hv) in H2. lra.
  - intros x [y [Hne Hy]%lookup_delete_Some]. destruct (H3 x) as [[->|?]%elem_of_cons ?]; [by eexists|done|done].
  - by eapply by_level_pop.
Qed.

(** A node is left: its mass goes to its hops. *)
Lemma splitting_leave w dst dist pe v m hops total q arrived X fr : split_ok w dst dist -> splitting w dst dist pe (v :: q) arrived X ->
  pe !! v = Some m -> hops_at w v dst = Some hops -> total == weight_sum hops -> 0 < total -> nonneg fr ->
  exists fr' pe', fold_left (push_hop v m total) hops (fr, delete v pe, q) = (fr', pe', q ++ map next_of hops) /\ nonneg fr' /\
    splitting w dst dist pe' (q ++ map next_of hops) arrived ({[v]} ∪ X).
Proof.
  intros Hok [H1 H2 H3 H4] Hv Hh Ht Hpos Hfr. destruct (by_level_head _ _ _ _ H4) as (d & q1 & q2 & -> & Hd & L1 & L2 & L3).
  destruct (push_hops v m total hops Hpos (H1 _ _ Hv)) with (fr := fr) (pe := delete v pe) (q := q1 ++ q2) as (fr' & pe' & q' & E & P1 & P2 & -> & P4 & P5 & _).
  { apply Forall_forall. intros h Hin. pose proof (sp_weights _ _ _ Hok v dst hops h Hh Hin). lia. }
  { done. } { intros k x [_ Hk]%lookup_delete_Some. by eapply H1. }
  assert (Hnext : forall h, h ∈ hops -> dist !! next_of h = Some (d - 1)%nat /\ (1 <= d)%nat).
  { intros h Hin. destruct (sp_step _ _ _ Hok v hops h Hh Hin) as (j & E1 & E2). assert (d = S j) as -> by congruence. split; [|lia]. rewrite E2. f_equal. lia. }
  exists fr', pe'. split_and!; [exact E|done|]. constructor; [done| | |].
  - rewrite P4, <- Ht. rewrite (mass_delete _ _ _ Hv) in H2. assert (Hm : m * total / total == m) by (field; intros ?; lra). rewrite Hm. lra.
  - intros x [Hx|Hx]%P5.
    + destruct Hx as [y [Hne Hy]%lookup_delete_Some]. destruct (H3 x) as [[->|?]%elem_of_cons ?]; [by eexists|done|]. split; [apply elem_of_app; by left|set_solver].
    + split; [apply elem_of_app; by right|]. apply list_elem_of_fmap in Hx as (h & -> & Hin). destruct (Hnext h Hin) as [E1 Hd1].
      intros [Hx%elem_of_singleton|Hx]%elem_of_union; [rewrite Hx, Hd in E1; injection E1; lia|]. destruct (L3 _ Hx) as (l & E2 & ?). rewrite E1 in E2. injection E2. lia.
  - exists d, q1, (q2 ++ map next_of hops). split_and!; [by rewrite app_assoc|done| |].
    + intros x [?|(h & -> & Hin)%list_elem_of_fmap]%elem_of_app; [by apply L2|by apply Hnext].
    + intros x [->%elem_of_singleton|?]%elem_of_union; [by exists d|by apply L3].
Qed.

Lemma splitting_end w dst dist pe arrived X : splitting w dst dist pe [] arrived X -> arrived == 1.
Proof.
  intros [_ Hm Hq _]. assert (pe = ∅) as ->; [|change (mass ∅) with 0 in Hm; lra].
  apply map_eq. intros x. rewrite lookup_empty. destruct (pe !! x) eqn:E; [|done]. destruct (Hq x) as [?%not_elem_of_nil _]; [by eexists|done].
Qed.

Lemma weight_sum_pos hops : hops <> [] -> Forall (fun h => (1 <= wh_weight h < 2 ^ 32)%Z) hops -> 0 < weight_sum hops.
Proof.
  intros Hne Hw. assert (Hge : 0 <= weight_sum hops /\ (hops <> [] -> 0 < weight_sum hops)); [|tauto]. clear Hne.
  induction Hw as [|h hops Hh Hw IH]; unfold weight_sum in *; cbn [map qsum foldr]; [split; [lra|done]|].
  assert (1 <= inject_Z (wh_weight h)) by (rewrite <- (Zle_Qle 1); lia). unfold qsum in *. destruct IH as [IH _]. split; [lra|intros _; lra].
Qed.

(** With a step for every hop of the table the whole commodity arrives. *)
Lemma frac_loop_arrives w dst dist : split_ok w dst dist -> forall fuel fr pe q arrived X, nonneg fr -> splitting w dst dist pe q arrived X ->
  (length q + budget w dst dist X <= fuel)%nat -> (frac_loop fuel w dst fr pe q arrived).2 == 1.
Proof.
  intros Hok. induction fuel as [|fuel IH]; intros fr pe q arrived X Hfr Hs Hfuel.
  { destruct q as [|v q]; [by eapply splitting_end|cbn in Hfuel; lia]. }
  cbn [frac_loop]. destruct q as [|v q]; [by eapply splitting_end|].
  cbn [length] in Hfuel. qn. destruct (pe !! v) as [m|] eqn:Em; [|by apply (IH fr pe q arrived X); [done|eapply splitting_skip|lia]].
  pose proof (sg_pos _ _ _ _ _ _ _ Hs v m Em) as Hm.
  destruct (qle_spec m 0) as [Hz|Hz]; [apply (IH _ _ _ _ X); [done|eapply splitting_drop; [done..|lra]|lia]|].
  destruct (String.eqb_spec v dst) as [->|Hne]; [apply (IH _ _ _ _ X); [done|eapply splitting_drop; [done..|lra]|lia]|].
  destruct (by_level_head _ _ _ _ (sg_level _ _ _ _ _ _ _ Hs)) as (d & q1 & q2 & _ & Hd & _).
  destruct (sp_hops _ _ _ Hok v d Hd Hne) as (hops & Eh & Hhops). rewrite Eh. destruct hops as [|h0 hs] eqn:Ehops; [done|]. rewrite <- Ehops in *.
  set (total := fold_left _ hops 0). assert (Ht : total == weight_sum hops) by (unfold total; etrans; [exact (total_is_sum hops 0)|lra]).
  assert (Hpos : 0 < total). { rewrite Ht. apply weight_sum_pos; [by rewrite Ehops|]. apply Forall_forall. intros h Hh. apply (sp_weights _ _ _ Hok v dst hops h Eh Hh). }
  destruct (qle_spec total 0); [lra|]. destruct (splitting_leave w dst dist pe v m hops total q arrived X fr) as (fr' & pe' & E & Hfr' & Hs'); [done..|]. qn. rewrite E.
  apply (IH _ _ _ _ ({[v]} ∪ X)); [done..|]. rewrite length_app, length_map.
  assert (HvX : v ∉ X) by (apply (sg_queued _ _ _ _ _ _ _ Hs); by eexists).
  rewrite (budget_spend w dst dist X v) in Hfuel; [|apply elem_of_dom; by eexists|done]. unfold hops_of in Hfuel. rewrite Eh in Hfuel. cbn [from_option id] in Hfuel. lia.
Qed.

Lemma budget_bound w dst dist : (budget w dst dist ∅ <= sum_list_with (hops_of w dst) (elements (dom w)))%nat.
Proof.
  unfold budget. assert (Hs : forall l1 l2 : list string, NoDup l1 -> (forall x, x ∈ l1 -> x ∈ l2 \/ hops_of w dst x = 0%nat) ->
    (sum_list_with (hops_of w dst) l1 <= sum_list_with (hops_of w dst) l2)%nat).
  { induction l1 as [|x l1 IH]; intros l2 Hnd Hin; cbn [sum_list_with]; [lia|]. apply NoDup_cons in Hnd as [Hx Hnd].
    destruct (Hin x) as [Hx2|H0]; [by left| |rewrite H0; cbn; apply IH; [done|intros y Hy; apply Hin; by right]].
    apply elem_of_Permutation in Hx2 as [l2' Hp]. assert (Hsum : sum_list_with (hops_of w dst) l2 = (hops_of w dst x + sum_list_with (hops_of w dst) l2')%nat) by (by rewrite Hp).
    rewrite Hsum. apply Nat.add_le_mono_l, IH; [done|]. intros y Hy. destruct (Hin y) as [Hy2|?]; [by right| |by right]. rewrite Hp in Hy2.
    apply elem_of_cons in Hy2 as [->|?]; [done|by left]. }
  apply Hs; [apply NoDup_elements|]. intros x _. unfold hops_of, hops_at. destruct (w !! x) as [r|] eqn:E; cbn [mbind option_bind].
  - left. apply elem_of_elements, elem_of_dom. by eexists.
  - by right.
Qed.

(** The tables of a topology split every commodity whole. *)
Lemma table_split `{Libm} t grade w dst : sync t -> (forall q, registered t q -> canonical_id q) -> wcmp_from_topology t grade = Some w ->
  table_ok t grade w dst -> exists dist, split_ok w dst dist /\ forall v, rtc (usable t grade) v dst <-> is_Some (dist !! v).
Proof.
  intros Hs Hcanon Hw (dist & order & Hl & Hent). pose proof Hent as [H1 H2]. exists dist.
  assert (Hsym : forall x y, SdnWcmp.A (adj_of t grade) x y -> SdnWcmp.A (adj_of t grade) y x) by (intros x y; rewrite !adj_of_usable by done; by apply usable_sym).
  split; [constructor|].
  - intros v hops h Hh Hin. destruct (closer_step t grade Hs Hcanon dst dist order v (wh_qkc_id h) Hl) as (_ & _ & Hj); [|exact Hj].
    apply (H1 v hops Hh). by apply list_elem_of_fmap_2.
  - intros v j Hj Hne. destruct (lv_up _ _ _ _ _ _ Hl v _ Hj) as [->|(y & i & -> & Hy & Hyv)]; [done|].
    assert (Huv : usable t grade v y) by (apply usable_sym; [done|]; by apply adj_of_usable). destruct (Hcanon y) as (k & Hk & _).
    { apply (linked_registered t v y Hs). apply Huv. }
    destruct (H2 v k) as [hops Hh]; [| |exists hops; split; [done|]; by apply (H1 v hops Hh)].
    + destruct (lv_first _ _ _ _ _ _ Hl) as (rest & Eo & _). rewrite Eo. cbn [drop]. assert (Hin : v ∈ order) by (apply (lv_order _ _ _ _ _ _ Hl); by eexists).
      rewrite Eo in Hin. apply elem_of_cons in Hin as [->|]; done.
    + exists y, i. split_and!; [done|by apply adj_of_usable|done|done].
  - by eapply wcmp_weights.
  - intros v. split.
    + intros Hr. eapply levels_reach; [exact Hsym|exact Hl|]. eapply rtc_subrel; [|exact Hr]. intros x y. by apply adj_of_usable.
    + intros [j Hj]. revert v Hj. induction j as [|j IH]; intros v Hj; (destruct (lv_up _ _ _ _ _ _ Hl v _ Hj) as [->|(y & i & E & Hy & Hyv)]; [done|]); [done|].
      injection E as ->. eapply rtc_l; [|by apply IH]. apply usable_sym; [done|]. by apply adj_of_usable.
Qed.

Lemma max_steps_pos : exists fuel, Z.to_nat MAX_STEPS = S fuel.
Proof. exists (Z.to_nat 99999). rewrite <- Z2Nat.inj_succ by lia. f_equal. Qed.

(** A commodity has a route exactly where its two ends are joined by links of
    its grade, and is then split over such links without loss. *)
Lemma commodity_split `{Libm} t grade w src dst : sync t -> (forall q, registered t q -> canonical_id q) -> wcmp_from_topology t grade = Some w ->
  registered t dst -> (Z.of_nat (sum_list_with (hops_of w dst) (elements (dom w))) < MAX_STEPS)%Z ->
  (rtc (usable t grade) src dst -> (commodity_edge_fractions w src dst).2 == 1) /\
  (rtc (usable t grade) src dst \/ (commodity_edge_fractions w src dst).2 == 0).
Proof.
  intros Hs Hcanon Hw Hdst Hmax. destruct (wcmp_tables_spec t grade Hs) as (w' & E & T & _). assert (w' = w) as -> by congruence.
  destruct (table_split t grade w dst Hs Hcanon Hw (T dst Hdst)) as (dist & Hok & Hr). split.
  - intros Hj. apply Hr in Hj as [j Hj]. apply (frac_loop_arrives w dst dist Hok _ _ _ _ _ ∅); [by intros k v ?%lookup_empty_Some| |].
    + constructor.
      * intros k v [_ <-]%lookup_singleton_Some. by vm_compute.
      * unfold mass. rewrite map_to_list_singleton. cbn. reflexivity.
      * intros x [v [<- _]%lookup_singleton_Some]. set_solver.
      * exists j, [src], []. split_and!; [done|by intros x ->%list_elem_of_singleton|by intros x ?%not_elem_of_nil|set_solver].
    + cbn [length]. pose proof (budget_bound w dst dist). lia.
  - destruct (dist !! src) as [j|] eqn:Hd; [left; apply Hr; by eexists|right]. assert (Hno : ~ rtc (usable t grade) src dst) by (rewrite Hr, Hd; by intros [? ?]). unfold commodity_edge_fractions.
    assert (Hsrc : hops_at w src dst = None \/ hops_at w src dst = Some []).
    { destruct (hops_at w src dst) as [[|h hs]|] eqn:Eh; [by right| |by left]. destruct (sp_step _ _ _ Hok src _ h Eh) as (j & ? & _); [by left|congruence]. }
    assert (Hne : String.eqb src dst = false) by (apply String.eqb_neq; intros ->; by apply Hno).
    destruct max_steps_pos as [fuel ->]. cbn [frac_loop]. rewrite lookup_singleton_eq.
    change (nle none nzero) with false. cbn iota. rewrite Hne. destruct Hsrc as [-> | ->]; destruct fuel; reflexivity.
Qed.

(** ** The price step *)

Lemma prepared_flows inputs wf wq f : weights_ok wf -> weights_ok wq -> f ∈ prepare_flows inputs wf wq -> flow_ok f /\ fl_c f ∈ mi_commodities inputs.
Proof.
  intros Hf Hq (l & Hl & Hin)%concat_elem. apply list_elem_of_fmap in Hl as (c & -> & Hc). unfold prepare_flow in Hin.
  destruct (mi_dkms_to_qkc inputs !! cd_src_dkms c) as [src|]; [|by apply not_elem_of_nil in Hin]. destruct (mi_dkms_to_qkc inputs !! cd_dst_dkms c) as [dst|]; [|by apply not_elem_of_nil in Hin].
  set (tb := if decide _ then wq else wf) in Hin. assert (Htb : weights_ok tb) by (unfold tb; by destruct (decide _)).
  pose proof (proj1 (fractions_shares tb src dst Htb)) as Hn. destruct (commodity_edge_fractions tb src dst) as [fr arrived]. apply list_elem_of_singleton in Hin as ->.
  split; [exact Hn|done].
Qed.

Lemma remaining_nonneg (f : Flow) : 0 <= fl_remaining f.
Proof. apply (qmax_spec _ 0). Qed.

Hypothesis pow_pos : forall x y, 0 < x -> 0 < pow x y.

(** A rate is zero without a route or a weight, and otherwise positive or the most
    that is of use. *)
Lemma num_rate_cases (p : NumParams) (prices : gmap Edge num) (f : Flow) : let w := fl_drain f + np_fill_weight p * fl_remaining f / 5 in
  (fl_routable f = false \/ w <= 0) /\ num_rate p prices f = 0 \/ (0 < w /\ (0 < num_rate p prices f \/ num_rate p prices f = fl_drain f + fl_remaining f / 5)).
Proof.
  intros w. unfold num_rate. destruct (fl_routable f); cbn [negb]; [|left; split; [by left|done]]. cbn [nadd nmul ndiv nle EA exact_arith].
  change (@T_REPLAN_SECONDS EA) with 5. fold w. change (@nzero EA) with 0. destruct (qle_spec w 0) as [|Hw]; [left; split; [by right|done]|]. right. split; [lra|].
  destruct (qle_spec (price_of prices f) (@PRICE_EPSILON EA)) as [|Hp]; [by right|]. assert (0 < price_of prices f) by (assert (0 < @PRICE_EPSILON EA) by reflexivity; lra).
  match goal with |- 0 < nmin ?a ?b \/ _ => destruct (qmin_spec a b) as (_ & _ & [E | E]) end; [left|right; exact E].
  unfold nmin. cbn [EA exact_arith]. rewrite E. apply pow_pos, Qlt_shift_div_l; lra.
Qed.

Lemma num_rate_nonneg (p : NumParams) (prices : gmap Edge num) (f : Flow) : 0 <= fl_drain f -> 0 <= num_rate p prices f.
Proof.
  intros Hd. pose proof (qdiv_nonneg _ 5 (remaining_nonneg f) ltac:(lra)). destruct (num_rate_cases p prices f) as [[_ ->]|[_ [?| ->]]]; lra.
Qed.

Lemma num_rate_pos (p : NumParams) (prices : gmap Edge num) (f : Flow) : fl_routable f = true -> 0 < fl_drain f -> 0 <= np_fill_weight p -> 0 < num_rate p prices f.
Proof.
  intros Hroute Hd Hw. pose proof (remaining_nonneg f) as Hrem. pose proof (qdiv_nonneg _ 5 Hrem ltac:(lra)) as Hr.
  assert (Hfill : 0 <= np_fill_weight p * fl_remaining f / 5) by (apply qdiv_nonneg; [by apply Qmult_le_0_compat|lra]).
  destruct (num_rate_cases p prices f) as [[[?|?] _]|[_ [?| ->]]]; [congruence|lra..].
Qed.

Lemma project_pos overload (flows : list Flow) (r : Flow -> Q) i f x : flows !! i = Some f -> project overload flows (map r flows) !! i = Some x -> 0 <= r f ->
  0 <= x /\ (0 < r f -> 0 < x).
Proof.
  rewrite project_map. intros Hf Hx Hr. rewrite list_lookup_fmap, Hf in Hx. injection Hx as <-. cbv beta. case_decide; [done|].
  destruct (worst_of_spec overload f) as [Hw _]. split; [apply qdiv_nonneg; [done|lra]|]. intros H0. apply Qlt_shift_div_l; lra.
Qed.

(** What a price step publishes, for any prices: rates that fit every edge, that
    are not negative, and that are zero for nobody with a route and a demand. *)
Definition fits (caps : gmap Edge num) (flows : list Flow) (out : list Q) : Prop :=
  length out = length flows /\ (forall e cap, caps !! e = Some cap -> 0 < cap -> used (zip flows out) e <= cap) /\
  forall i f x, flows !! i = Some f -> out !! i = Some x -> 0 <= x.

Lemma num_step_fits st inputs wf wq p : weights_ok wf -> weights_ok wq -> (forall c, c ∈ mi_commodities inputs -> 0 <= f64_value (cd_drain_rate c)) ->
  let flows := prepare_flows inputs wf wq in
  exists out, (num_step st inputs wf wq p).2 = assemble flows out /\ fits (edge_caps inputs) flows out /\
    (0 <= np_fill_weight p -> forall i f x, flows !! i = Some f -> out !! i = Some x -> fl_routable f = true -> 0 < fl_drain f -> 0 < x).
Proof.
  intros Hf Hq Hd flows. assert (Hr : forall f, f ∈ flows -> 0 <= num_rate p (ns_prices st) f).
  { intros f Hin. apply num_rate_nonneg. apply Hd. by apply (prepared_flows inputs wf wq). }
  assert (Hok : Forall flow_ok flows) by (apply Forall_forall; intros f Hin; by apply (prepared_flows inputs wf wq)).
  eexists. split; [reflexivity|]. split; [split_and!|].
  - rewrite project_map. apply length_map.
  - intros e cap He Hc. exact (project_fits (edge_caps inputs) flows (num_rate p (ns_prices st)) e cap Hok Hr He Hc).
  - intros i f x Hi Hx. eapply project_pos; [exact Hi|exact Hx|]. apply Hr. by eapply list_elem_of_lookup_2.
  - intros Hw i f x Hi Hx Hroute Hdem. eapply project_pos; [exact Hi|exact Hx| |by apply num_rate_pos]. apply Hr. by eapply list_elem_of_lookup_2.
Qed.

(** ** Progressive filling *)

Definition crosses (flows : list Flow) (i : nat) (e : Edge) : Prop := exists f, flows !! i = Some f /\ is_Some (fl_fractions f !! e).
Definition share_at (flows : list Flow) (i : nat) (e : Edge) : Q := match flows !! i with Some f => share f e | None => 0 end.
(** What raising the fraction of [i] by one takes from [e]. *)
Definition takes (flows : list Flow) (demand : list num) (i : nat) (e : Edge) : Q := share_at flows i e * at_idx demand i.

Lemma slope_lv flows demand active e : lv (wf_slope flows demand active) e == qsum (map (fun i => takes flows demand i e) active).
Proof.
  unfold wf_slope. assert (Hg : forall m, lv (fold_left (fun m i => match flows !! i with Some f => add_load m f (at_idx demand i) | None => m end) active m) e
    == lv m e + qsum (map (fun i => takes flows demand i e) active)).
  { induction active as [|i active IH]; intros m; cbn [fold_left map qsum foldr]; [lra|]. etrans; [apply IH|]. unfold takes at 2, share_at.
    destruct (flows !! i) as [f|]; [rewrite add_load_lv|]; unfold qsum; lra. }
  etrans; [apply Hg|]. change (lv ∅ e) with 0. lra.
Qed.

Lemma slope_dom flows demand active e : is_Some (wf_slope flows demand active !! e) <-> exists i, i ∈ active /\ crosses flows i e.
Proof.
  unfold wf_slope. assert (Hg : forall m : gmap Edge num, is_Some (fold_left (fun m i => match flows !! i with Some f => add_load m f (at_idx demand i) | None => m end) active m !! e)
    <-> is_Some (m !! e) \/ exists i, i ∈ active /\ crosses flows i e).
  { induction active as [|i active IH]; intros m; cbn [fold_left]; [split; [by left|by intros [?|(i & ?%not_elem_of_nil & _)]]|]. rewrite IH. unfold crosses. destruct (flows !! i) as [f|] eqn:E.
    - rewrite add_load_dom. split.
      + intros [[?|?]|(j & ? & ?)]; [by left|right; exists i; split; [by left|by exists f]|right; exists j; split; [by right|done]].
      + intros [?|(j & [->|?]%elem_of_cons & g & Hg & ?)]; [by left; left|left; right; congruence|right; exists j; split; [done|by exists g]].
    - split; [intros [?|(j & ? & ?)]; [by left|right; exists j; split; [by right|done]]|].
      intros [?|(j & [->|?]%elem_of_cons & g & Hg & ?)]; [by left|congruence|right; exists j; split; [done|by exists g]]. }
  rewrite Hg, lookup_empty. split; [intros [[? ?]|?]; done|by right].
Qed.

(** How far an edge lets the fractions rise. *)
Definition limit (residual : gmap Edge num) (es : Edge * num) : option Q :=
  if nlt FLOW_EPSILON es.2 then (fun r => ndiv (nmax r nzero) es.2) <$> residual !! es.1 else None.

Lemma fold_omap {A} (step : Q -> A -> Q) (lim : A -> option Q) (l : list A) : (forall d x, step d x = match lim x with Some y => qmin d y | None => d end) ->
  forall d, fold_left step l d = fold_left qmin (omap lim l) d.
Proof. intros Hs. induction l as [|x l IH]; intros d; cbn [fold_left omap list_omap]; [done|]. rewrite Hs, IH. destruct (lim x); done. Qed.

Lemma wf_delta_eq (t : list num) (active : list nat) (slope residual : gmap Edge num) :
  wf_delta t active slope residual = fold_left qmin (omap (limit residual) (map_iter slope)) (nmin_all (map (fun i => nsub none (at_idx t i)) active)).
Proof. apply fold_omap. intros d [e s]. unfold limit. cbn [fst snd]. destruct (nlt FLOW_EPSILON s); [|done]. by destruct (residual !! e). Qed.

Lemma limit_spec (residual slope : gmap Edge num) (y : Q) : y ∈ omap (limit residual) (map_iter slope) <->
  exists e s r, slope !! e = Some s /\ (1 # 1000000) < s /\ residual !! e = Some r /\ y = qmax r 0 / s.
Proof.
  rewrite list_elem_of_omap. unfold limit. split.
  - intros ([e s] & Hin%map_iter_elem & Hy). cbn [fst snd nlt EA exact_arith] in Hy. destruct (qlt_spec (@FLOW_EPSILON EA) s) as [Hs|]; [|done].
    apply fmap_Some in Hy as (r & Hr & ->). exists e, s, r. split_and!; [done|exact Hs|done|done].
  - intros (e & s & r & Hs & Hlt & Hr & ->). exists (e, s). split; [by apply map_iter_elem|]. cbn [fst snd nlt EA exact_arith].
    destruct (qlt_spec (@FLOW_EPSILON EA) s) as [_|Hn]; [apply fmap_Some; by exists r|done].
Qed.

Lemma delta_spec (t : list num) (active : list nat) (slope residual : gmap Edge num) : active <> [] -> let d : Q := wf_delta t active slope residual in
  (forall i, i ∈ active -> d <= 1 - at_idx t i) /\ (forall e s r, slope !! e = Some s -> (1 # 1000000) < s -> residual !! e = Some r -> d <= qmax r 0 / s) /\
  ((exists i, i ∈ active /\ d = 1 - at_idx t i) \/ exists e s r, slope !! e = Some s /\ (1 # 1000000) < s /\ residual !! e = Some r /\ d = qmax r 0 / s).
Proof.
  intros Hne d. unfold d. rewrite wf_delta_eq. destruct active as [|i0 active]; [done|]. cbn [map nmin_all EA exact_arith]. set (d0 := fold_left qmin (map (fun i => nsub none (at_idx t i)) active) (nsub none (at_idx t i0))).
  assert (Hd0 : (forall i, i ∈ i0 :: active -> d0 <= 1 - at_idx t i) /\ exists i, i ∈ i0 :: active /\ d0 = 1 - at_idx t i).
  { destruct (fold_qmin (map (fun i => nsub none (at_idx t i)) active) (nsub none (at_idx t i0))) as (H1 & H2 & H3). fold d0 in H1, H2, H3. split.
    - intros i [->|Hi]%elem_of_cons; [exact H1|]. apply H2. apply list_elem_of_fmap. by exists i.
    - destruct H3 as [->|(i & -> & Hi)%list_elem_of_fmap]; [exists i0; split; [by left|done]|exists i; split; [by right|done]]. }
  destruct Hd0 as (Hmin & i & Hi & Hatt). destruct (fold_qmin (omap (limit residual) (map_iter slope)) d0) as (H1 & H2 & H3). split_and!.
  - intros j Hj. eapply Qle_trans; [exact H1|by apply Hmin].
  - intros e s r Hs Hlt Hr. apply H2, limit_spec. by exists e, s, r.
  - destruct H3 as [->|H3%limit_spec]; [left; by exists i|by right].
Qed.

Lemma raise_spec (delta : num) (active : list nat) : NoDup active -> forall t : list num, Forall (fun i => (i < length t)%nat) active ->
  length (wf_raise delta active t) = length t /\
  forall i, at_idx (wf_raise delta active t) i = if decide (i ∈ active) then at_idx t i + delta else at_idx t i.
Proof.
  unfold wf_raise. induction active as [|j active IH]; intros Hnd t Hlen; cbn [fold_left].
  { split; [done|]. intros i. rewrite decide_False by apply not_elem_of_nil. done. }
  apply NoDup_cons in Hnd as [Hj Hnd]. apply Forall_cons in Hlen as [Hlj Hlen].
  destruct (IH Hnd (alter (fun x => nadd x delta) j t)) as [L1 L2]. { eapply Forall_impl; [exact Hlen|]. intros i Hi. by rewrite length_alter. }
  split; [by rewrite L1, length_alter|]. intros i. rewrite L2. unfold at_idx. destruct (decide (i = j)) as [->|Hne].
  - rewrite decide_False by done. rewrite (decide_True (P := j ∈ j :: active)) by by left. rewrite list_lookup_alter_eq. destruct (lookup_lt_is_Some_2 t j Hlj) as [x ->]. done.
  - rewrite list_lookup_alter_ne by done. destruct (decide (i ∈ active)) as [Hi|Hi].
    + by rewrite decide_True by (by right).
    + rewrite decide_False by (intros [?|?]%elem_of_cons; done). done.
Qed.

Lemma fold_consume (delta : num) (l : list (Edge * num)) e : NoDup l.*1 -> forall res : gmap Edge num,
  fold_left (fun res (es : Edge * num) => alter (fun r => nsub r (nmul delta es.2)) es.1 res) l res !! e
  = (fun r : num => match list_to_map (M := gmap Edge num) l !! e with Some s => nsub r (nmul delta s) | None => r end) <$> res !! e.
Proof.
  induction l as [|[k s] l IH]; intros Hnd res; cbn [fold_left fst snd]; [change (list_to_map [] : gmap Edge num) with (∅ : gmap Edge num); rewrite lookup_empty; by destruct (res !! e)|].
  rewrite fmap_cons in Hnd. apply NoDup_cons in Hnd as [Hk Hnd]. rewrite IH by done. cbn [list_to_map foldr fst snd uncurry]. destruct (decide (e = k)) as [->|Hne].
  - rewrite lookup_alter_eq, lookup_insert_eq. change (foldr _ ∅ l) with (list_to_map l : gmap Edge num). rewrite (not_elem_of_list_to_map_1 l k Hk). by destruct (res !! k).
  - rewrite lookup_alter_ne, lookup_insert_ne by done. done.
Qed.

Lemma consume_spec (delta : num) (slope res : gmap Edge num) e :
  wf_consume delta slope res !! e = (fun r : num => match slope !! e with Some s => nsub r (nmul delta s) | None => r end) <$> res !! e.
Proof.
  unfold wf_consume. rewrite fold_consume by (rewrite (Permutation_map fst (map_iter_perm _ slope)); apply NoDup_fst_map_to_list).
  assert (Hl : list_to_map (map_iter slope) = slope); [|by rewrite Hl].
  rewrite <- (list_to_map_to_list slope) at 2. apply list_to_map_proper; [rewrite (Permutation_map fst (map_iter_perm _ slope)); apply NoDup_fst_map_to_list|apply map_iter_perm].
Qed.

Definition EXHAUSTED : Q := 1 # 1000000000.
Definition WHOLE : Q := 1 - (1 # 1000000000000).

Lemma stays_spec (flows : list Flow) (t : list num) (slope res : gmap Edge num) (i : nat) : stays_active flows t slope res i = true <->
  at_idx t i < WHOLE /\ exists f, flows !! i = Some f /\ forall e (r : num), is_Some (fl_fractions f !! e) -> is_Some (slope !! e) -> res !! e = Some r -> EXHAUSTED < r.
Proof.
  unfold stays_active. rewrite andb_true_iff. cbn [nlt EA exact_arith]. change (nsub none (nlit 1 1000000000000)) with WHOLE.
  destruct (qlt_spec (at_idx t i) WHOLE) as [Ht|Ht]; [|split; [by intros [? _]|by intros [? _]]]. destruct (flows !! i) as [f|]; [|split; [by intros [_ ?]|by intros (_ & f & ? & _)]].
  rewrite negb_true_iff. split.
  - intros [_ Hno]. split; [done|]. exists f. split; [done|]. intros e r [fr Hfr] [s Hs] Hr.
    assert (Hx : exhausted slope res e = false).
    { destruct (exhausted slope res e) eqn:Ex; [|done]. apply not_true_iff_false in Hno. destruct Hno.
      apply existsb_exists. exists (e, fr). split; [|done]. apply list_elem_of_In. by apply map_iter_elem. }
    unfold exhausted in Hx. rewrite bool_decide_eq_true_2, Hr in Hx by (by eexists). cbn [andb nle EA exact_arith] in Hx. change (nlit 1 1000000000) with EXHAUSTED in Hx.
    destruct (qle_spec r EXHAUSTED); [done|lra].
  - intros [_ (g & [= <-] & Hg)]. split; [done|]. apply not_true_is_false. intros ([e fr] & Hin & Hx)%existsb_exists. apply list_elem_of_In, map_iter_elem in Hin. cbn [fst] in Hx.
    unfold exhausted in Hx. apply andb_true_iff in Hx as [Hs%bool_decide_eq_true Hx]. destruct (res !! e) as [r|] eqn:Hr; [|done].
    specialize (Hg e r ltac:(by eexists) Hs Hr). cbn [nle EA exact_arith] in Hx. change (nlit 1 1000000000) with EXHAUSTED in Hx. destruct (qle_spec r EXHAUSTED); [lra|done].
Qed.

Lemma filter_drops {A} (f : A -> bool) (l : list A) x : x ∈ l -> f x = false -> (length (List.filter f l) < length l)%nat.
Proof.
  induction l as [|y l IH]; intros Hx Hf; [by apply not_elem_of_nil in Hx|]. pose proof (List.filter_length_le f l). cbn [List.filter length].
  apply elem_of_cons in Hx as [<-|Hx]; [rewrite Hf; lia|]. specialize (IH Hx Hf). destruct (f y); cbn [length]; lia.
Qed.

Section Filling.
Context (flows : list Flow) (demand : list num) (res0 : gmap Edge num).
Hypothesis Hflows : Forall flow_ok flows.

Abbreviation A0 := (wf_start flows demand).
Definition EPS : Q := 1 # 1000000.

Lemma start_spec i : i ∈ A0 <-> exists f, flows !! i = Some f /\ fl_routable f = true /\ EPS < at_idx demand i.
Proof.
  unfold wf_start. rewrite list_elem_of_In, filter_In, <- list_elem_of_In, elem_of_seq. split.
  - intros [_ Hf]. destruct (flows !! i) as [f|]; [|done]. apply andb_true_iff in Hf as [Hr Hd]. exists f. split_and!; [done..|].
    cbn [nlt EA exact_arith] in Hd. destruct (qlt_spec (@FLOW_EPSILON EA) (at_idx demand i)) as [Hlt|]; [exact Hlt|done].
  - intros (f & Hf & Hr & Hd). pose proof (lookup_lt_Some _ _ _ Hf). split; [lia|]. rewrite Hf, Hr. cbn [andb nlt EA exact_arith].
    destruct (qlt_spec (@FLOW_EPSILON EA) (at_idx demand i)); done.
Qed.

Lemma start_nodup : NoDup A0.
Proof. unfold wf_start. rewrite NoDup_ListNoDup. apply List.NoDup_filter. rewrite <- NoDup_ListNoDup. apply NoDup_seq. Qed.

Lemma takes_nonneg i e : i ∈ A0 -> 0 <= takes flows demand i e.
Proof.
  intros (f & Hf & _ & Hd)%start_spec. unfold takes, share_at. rewrite Hf. assert (flow_ok f) by (rewrite Forall_forall in Hflows; apply Hflows; by eapply list_elem_of_lookup_2).
  apply Qmult_le_0_compat; [by apply share_nonneg|]. unfold EPS in Hd. lra.
Qed.

(** What the fractions [t] take from [e]. *)
Definition usage (t : list num) (e : Edge) : Q := qsum (map (fun i => takes flows demand i e * at_idx t i) A0).

(** A commodity that is done: it has all it asked for, or an edge of it is used up
    and nobody on that edge is better off. *)
Definition settled_at (t : list num) (res : gmap Edge num) (active : list nat) (i : nat) : Prop :=
  WHOLE <= at_idx t i \/ exists e (r : num), crosses flows i e /\ res !! e = Some r /\ r <= EXHAUSTED /\
    forall k, k ∈ A0 -> crosses flows k e -> (k ∉ active) /\ at_idx t k <= at_idx t i.

Record filling (t : list num) (res : gmap Edge num) (active : list nat) (tau : Q) : Prop := mkFilling {
  fi_len : length t = length flows;
  fi_nodup : NoDup active;
  fi_sub : forall i, i ∈ active -> i ∈ A0 /\ at_idx t i == tau /\ at_idx t i < WHOLE;
  fi_range : forall i, i ∈ A0 -> 0 <= at_idx t i /\ at_idx t i <= tau;
  fi_tau : 0 <= tau /\ tau <= 1;
  fi_out : forall i, i ∉ A0 -> at_idx t i == 0;
  fi_settled : forall i, i ∈ A0 -> i ∉ active -> settled_at t res active i;
  fi_res : forall e (r0 : num), res0 !! e = Some r0 -> exists r : num, res !! e = Some r /\ r == r0 - usage t e /\ qmin r0 0 - EPS * tau <= r }.

Lemma filling_start : filling (replicate (length flows) nzero) res0 A0 0.
Proof.
  assert (Ht : forall i, at_idx (replicate (length flows) nzero) i == 0).
  { intros i. unfold at_idx. destruct (replicate (length flows) nzero !! i) as [x|] eqn:E; [|reflexivity]. apply lookup_replicate in E as [-> _]. reflexivity. }
  constructor.
  - apply length_replicate.
  - apply start_nodup.
  - intros i Hi. split_and!; [done|apply Ht|]. rewrite Ht. reflexivity.
  - intros i _. rewrite Ht. lra.
  - lra.
  - intros i _. apply Ht.
  - done.
  - intros e r0 He. exists r0. split_and!; [done| |destruct (qmin_spec r0 0); lra].
    unfold usage. rewrite qsum_zero; [lra|]. intros i _. rewrite Ht. lra.
Qed.

Lemma slope_takes (active : list nat) (e : Edge) (s : num) : (forall i, i ∈ active -> i ∈ A0) -> wf_slope flows demand active !! e = Some s -> 0 <= s /\ s == qsum (map (fun i => takes flows demand i e) active).
Proof.
  intros Hsub Hs. pose proof (slope_lv flows demand active e) as Hl. rewrite (lv_Some _ _ _ Hs) in Hl. split; [|exact Hl]. rewrite Hl.
  rewrite <- (qsum_zero (fun _ : nat => 0) active) by done. apply qsum_le. intros i Hi. by apply takes_nonneg, Hsub.
Qed.

(** Raising the active ones takes the slope from every edge. *)
Lemma usage_raise (t t1 : list num) (active : list nat) (delta : Q) e : NoDup active -> (forall i, i ∈ active -> i ∈ A0) ->
  (forall i, at_idx t1 i == if decide (i ∈ active) then at_idx t i + delta else at_idx t i) ->
  usage t1 e == usage t e + delta * qsum (map (fun i => takes flows demand i e) active).
Proof.
  intros Hnd Hsub Ht. unfold usage.
  rewrite (qsum_ext _ (fun i => takes flows demand i e * at_idx t i + delta * (if decide (i ∈ active) then takes flows demand i e else 0))).
  2: { intros i _. rewrite Ht. destruct (decide (i ∈ active)); lra. }
  rewrite qsum_plus, qsum_scale.
  assert (Hf : qsum (map (fun i => if decide (i ∈ active) then takes flows demand i e else 0) A0) == qsum (map (fun i => takes flows demand i e) active)); [|rewrite Hf; lra].
  assert (Hg : forall l, qsum (map (fun i => if decide (i ∈ active) then takes flows demand i e else 0) l) == qsum (map (fun i => takes flows demand i e) (filter (fun i => i ∈ active) l))).
  { induction l as [|i l IH]; [reflexivity|]. rewrite filter_cons. cbn [map qsum foldr]. destruct (decide (i ∈ active)); cbn [map qsum foldr]; unfold qsum in *; lra. }
  rewrite Hg. apply qsum_perm, Permutation_map. apply NoDup_Permutation; [apply NoDup_filter, start_nodup|done|]. intros i. rewrite list_elem_of_filter. split; [tauto|]. auto.
Qed.

(** One round, as the code does it. *)
Definition round_t (t : list num) (res : gmap Edge num) (active : list nat) : list num :=
  let slope := wf_slope flows demand active in let delta := wf_delta t active slope res in
  if nlt nzero delta then wf_raise delta active t else t.
Definition round_res (t : list num) (res : gmap Edge num) (active : list nat) : gmap Edge num :=
  let slope := wf_slope flows demand active in let delta := wf_delta t active slope res in
  if nlt nzero delta then wf_consume delta slope res else res.
Definition round_active (t : list num) (res : gmap Edge num) (active : list nat) : list nat :=
  List.filter (stays_active flows (round_t t res active) (wf_slope flows demand active) (round_res t res active)) active.

Section Round.
Context (t : list num) (res : gmap Edge num) (active : list nat) (tau : Q).
Hypothesis Hfill : filling t res active tau.
Hypothesis Hne : active <> [].

Abbreviation slope := (wf_slope flows demand active).
Abbreviation delta := (wf_delta t active slope res : Q).

Lemma delta_range : 0 <= delta /\ tau + delta <= 1.
Proof.
  destruct (delta_spec t active slope res Hne) as (H1 & H2 & H3). destruct active as [|i0 l] eqn:Ea; [done|]. rewrite <- Ea in *.
  destruct (fi_sub _ _ _ _ Hfill i0) as (_ & Hi & _); [rewrite Ea; by left|]. specialize (H1 i0 ltac:(rewrite Ea; by left)). split; [|lra].
  destruct H3 as [(i & Hin & ->)|(e & s & r & _ & Hs & _ & ->)].
  - destruct (fi_sub _ _ _ _ Hfill i Hin) as (_ & _ & Hlt). unfold WHOLE in Hlt. lra.
  - apply qdiv_nonneg; [apply (qmax_spec r 0)|]. unfold EPS in *. lra.
Qed.

Lemma round_t_spec i : at_idx (round_t t res active) i == if decide (i ∈ active) then at_idx t i + delta else at_idx t i.
Proof.
  unfold round_t. pose proof delta_range as [Hd _]. cbn [nlt EA exact_arith]. change (@nzero EA) with 0. destruct (qlt_spec 0 delta) as [Hlt|Hlt].
  - destruct (raise_spec delta active (fi_nodup _ _ _ _ Hfill) t) as [_ Hr]; [|rewrite Hr; destruct (decide (i ∈ active)); reflexivity].
    apply Forall_forall. intros j (Hj & _)%(fi_sub _ _ _ _ Hfill). apply start_spec in Hj as (f & Hf & _). rewrite (fi_len _ _ _ _ Hfill). by eapply lookup_lt_Some.
  - destruct (decide (i ∈ active)); [|reflexivity]. assert (delta == 0) by lra. lra.
Qed.

Lemma round_len : length (round_t t res active) = length flows.
Proof.
  unfold round_t. rewrite <- (fi_len _ _ _ _ Hfill). destruct (nlt nzero _); [|done]. apply raise_spec; [apply (fi_nodup _ _ _ _ Hfill)|].
  apply Forall_forall. intros j (Hj & _)%(fi_sub _ _ _ _ Hfill). apply start_spec in Hj as (f & Hf & _). rewrite (fi_len _ _ _ _ Hfill). by eapply lookup_lt_Some.
Qed.

Lemma round_res_spec e (r : num) : res !! e = Some r -> exists r1 : num, round_res t res active !! e = Some r1 /\ r1 == r - delta * lv slope e /\ (slope !! e = None -> r1 = r).
Proof.
  intros Hr. unfold round_res. pose proof delta_range as [Hd _]. cbn [nlt EA exact_arith]. change (@nzero EA) with 0. destruct (qlt_spec 0 delta) as [Hlt|Hlt].
  - rewrite consume_spec, Hr. cbn [fmap option_fmap option_map]. eexists. split; [reflexivity|].
    destruct (slope !! e) as [s|] eqn:Es; (split; [|done]); [rewrite (lv_Some _ _ _ Es)|rewrite (lv_None _ _ Es)]; [reflexivity|lra].
  - exists r. split_and!; [done| |done]. assert (Hz : delta == 0) by lra. rewrite Hz. lra.
Qed.

Lemma round_active_spec i : i ∈ round_active t res active <-> i ∈ active /\ stays_active flows (round_t t res active) slope (round_res t res active) i = true.
Proof. unfold round_active. by rewrite list_elem_of_In, filter_In, <- list_elem_of_In. Qed.

Lemma slope_crossed i e : i ∈ active -> crosses flows i e -> is_Some (slope !! e).
Proof. intros Hi Hc. apply slope_dom. by exists i. Qed.

(** An active commodity that does not stay has settled. *)
Lemma newly_settled i : i ∈ active -> i ∉ round_active t res active -> settled_at (round_t t res active) (round_res t res active) (round_active t res active) i.
Proof.
  intros Hi Hout. destruct (fi_sub _ _ _ _ Hfill i Hi) as (HiA & Hit & _). destruct (qlt_spec (at_idx (round_t t res active) i) WHOLE) as [Hlt|Hge]; [right|left; lra].
  assert (Hf : exists f, flows !! i = Some f) by (apply start_spec in HiA as (f & ? & _); by exists f). destruct Hf as [f Hf].
  assert (Hx : exists e (r : num), is_Some (fl_fractions f !! e) /\ round_res t res active !! e = Some r /\ r <= EXHAUSTED).
  { destruct (existsb (fun efr : Edge * num => exhausted slope (round_res t res active) efr.1) (map_iter (fl_fractions f))) eqn:Ex.
    - apply existsb_exists in Ex as ([e fr] & Hin & Hx). apply list_elem_of_In, map_iter_elem in Hin. unfold exhausted in Hx. cbn [fst] in Hx. apply andb_true_iff in Hx as [_ Hx].
      destruct (round_res t res active !! e) as [r|] eqn:Er; [|done]. exists e, r. split_and!; [by eexists|done|]. cbn [nle EA exact_arith] in Hx. change (nlit 1 1000000000) with EXHAUSTED in Hx.
      by destruct (qle_spec r EXHAUSTED).
    - destruct Hout. apply round_active_spec. split; [done|]. unfold stays_active. rewrite Hf, Ex. cbn [negb]. rewrite andb_true_r. cbn [nlt EA exact_arith].
      change (nsub none (nlit 1 1000000000000)) with WHOLE. by destruct (qlt_spec (at_idx (round_t t res active) i) WHOLE). }
  destruct Hx as (e & r & He & Hr & Hle). exists e, r. split_and!; [by exists f|done|done|]. intros k Hk Hck. split.
  - intros (Hka & Hst)%round_active_spec. apply stays_spec in Hst as (_ & g & Hg & Hno). destruct Hck as (g' & Hg' & Heg). assert (g' = g) as -> by congruence.
    specialize (Hno e r Heg (slope_crossed k e Hka ltac:(by exists g)) Hr). lra.
  - rewrite !round_t_spec. rewrite (decide_True (P := i ∈ active)) by done. destruct (fi_range _ _ _ _ Hfill k Hk). pose proof delta_range as [Hd _]. destruct (decide (k ∈ active)) as [Hka|]; [|lra].
    destruct (fi_sub _ _ _ _ Hfill k Hka) as (_ & ? & _). lra.
Qed.

(** What had settled stays settled. *)
Lemma still_settled i : i ∈ A0 -> i ∉ active -> settled_at t res active i ->
  settled_at (round_t t res active) (round_res t res active) (round_active t res active) i.
Proof.
  intros Hi Hna [Hw|(e & r & Hc & Hr & Hle & Hall)]; [left|right].
  - rewrite round_t_spec, decide_False by done. done.
  - assert (Hno : slope !! e = None). { apply eq_None_not_Some. intros (k & Hka & Hk)%slope_dom. destruct (fi_sub _ _ _ _ Hfill k Hka) as (HkA & _). by destruct (Hall k HkA Hk). }
    destruct (round_res_spec e r Hr) as (r1 & Hr1 & _ & Heq). rewrite (Heq Hno) in Hr1. exists e, r. split_and!; [done..|]. intros k Hk Hck.
    destruct (Hall k Hk Hck) as [Hka Hkt]. split; [by intros (? & _)%round_active_spec|]. rewrite !round_t_spec, !decide_False by done. done.
Qed.

(** The residual of an edge does not fall below zero by more than the threshold
    allows. *)
Lemma round_low e (r : num) low : res !! e = Some r -> low - EPS * tau <= r -> low <= 0 -> low - EPS * (tau + delta) <= r - delta * lv slope e.
Proof.
  intros Hr Hlow Hle. pose proof delta_range as [Hd _]. assert (0 < EPS) by reflexivity. assert (Hmul : 0 <= EPS * delta) by (apply Qmult_le_0_compat; lra).
  destruct (slope !! e) as [s|] eqn:Es; [rewrite (lv_Some _ _ _ Es)|rewrite (lv_None _ _ Es); lra].
  assert (Hs0 : 0 <= s) by (eapply slope_takes; [|exact Es]; intros i Hi; apply (fi_sub _ _ _ _ Hfill i Hi)).
  destruct (qlt_spec EPS s) as [Hs|Hs].
  - destruct (delta_spec t active slope res Hne) as (_ & H2 & _). specialize (H2 e s r Es Hs Hr). assert (Hds : delta * s <= qmax r 0).
    { assert (He : qmax r 0 == qmax r 0 / s * s) by (field; intros ?; lra). rewrite He. apply Qmult_le_compat_r; [done|lra]. }
    destruct (fi_tau _ _ _ _ Hfill). assert (0 <= EPS * tau) by (apply Qmult_le_0_compat; lra). unfold qmax in Hds. destruct (qle_spec r 0); lra.
  - assert (Hds : delta * s <= delta * EPS) by (apply qmul_le_l; lra). lra.
Qed.

Lemma round_filling : filling (round_t t res active) (round_res t res active) (round_active t res active) (tau + delta).
Proof.
  pose proof delta_range as [Hd0 Hd1]. destruct (fi_tau _ _ _ _ Hfill) as [Ht0 Ht1]. constructor.
  - apply round_len.
  - unfold round_active. rewrite NoDup_ListNoDup. apply List.NoDup_filter. rewrite <- NoDup_ListNoDup. apply (fi_nodup _ _ _ _ Hfill).
  - intros i (Hi & (Hlt & _)%stays_spec)%round_active_spec. destruct (fi_sub _ _ _ _ Hfill i Hi) as (HiA & Hit & _). split_and!; [done| |done].
    rewrite round_t_spec, decide_True by done. lra.
  - intros i Hi. rewrite round_t_spec. destruct (fi_range _ _ _ _ Hfill i Hi). destruct (decide (i ∈ active)); lra.
  - lra.
  - intros i Hi. rewrite round_t_spec, decide_False; [by apply (fi_out _ _ _ _ Hfill)|]. intros Hin. by destruct (fi_sub _ _ _ _ Hfill i Hin).
  - intros i Hi Hout. destruct (decide (i ∈ active)) as [Hin|Hin]; [by apply newly_settled|]. apply still_settled; [done..|]. by apply (fi_settled _ _ _ _ Hfill).
  - intros e r0 He. destruct (fi_res _ _ _ _ Hfill e r0 He) as (r & Hr & Heq & Hlow). destruct (round_res_spec e r Hr) as (r1 & Hr1 & Heq1 & _).
    exists r1. assert (Hsub : forall i, i ∈ active -> i ∈ A0) by (intros i Hi; apply (fi_sub _ _ _ _ Hfill i Hi)). split_and!; [done| |].
    + rewrite Heq1, Heq, slope_lv. rewrite (usage_raise t (round_t t res active) active delta e (fi_nodup _ _ _ _ Hfill) Hsub round_t_spec). lra.
    + rewrite Heq1. eapply round_low; [exact Hr|exact Hlow|apply (qmin_spec r0 0)].
Qed.

(** Every round settles somebody. *)
Lemma round_progress : (length (round_active t res active) < length active)%nat.
Proof.
  destruct (delta_spec t active slope res Hne) as (_ & _ & [(i & Hi & Hd)|(e & s & r & Hs & Hlt & Hr & Hd)]).
  - apply (filter_drops _ _ i Hi). apply not_true_is_false. intros (Hw & _)%stays_spec. rewrite round_t_spec, decide_True, Hd in Hw by done. unfold WHOLE in Hw. lra.
  - destruct (proj1 (slope_dom flows demand active e) (ex_intro _ s Hs)) as (i & Hi & f & Hf & Hc). apply (filter_drops _ _ i Hi). apply not_true_is_false.
    intros (_ & g & Hg & Hno)%stays_spec. assert (g = f) as -> by congruence. destruct (round_res_spec e r Hr) as (r1 & Hr1 & Heq & _).
    specialize (Hno e r1 Hc (ex_intro _ s Hs) Hr1). rewrite (lv_Some _ _ _ Hs) in Heq. assert (He : delta * s == qmax r 0) by (rewrite Hd; field; intros ?; lra).
    destruct (qmax_spec r 0) as (? & _). unfold EXHAUSTED in Hno. lra.
Qed.
End Round.

Lemma wf_loop_fills : forall fuel t res active tau, filling t res active tau -> (length active <= fuel)%nat ->
  exists t' res' tau', wf_loop fuel flows demand t res active = Some (t', res') /\ filling t' res' [] tau'.
Proof.
  induction fuel as [|fuel IH]; intros t res active tau Hfill Hlen.
  { destruct active; [|cbn in Hlen; lia]. by exists t, res, tau. }
  destruct (decide (active = [])) as [->|Hne]; [by exists t, res, tau|].
  pose proof (round_progress t res active tau Hfill Hne) as Hp. pose proof (round_filling t res active tau Hfill Hne) as Hr.
  assert (El : wf_loop (S fuel) flows demand t res active = wf_loop fuel flows demand (round_t t res active) (round_res t res active) (round_active t res active)).
  { destruct active as [|i l] eqn:Ea; [done|]. rewrite <- Ea in *. transitivity (let slope := wf_slope flows demand active in let delta := wf_delta t active slope res in
      let '(t, residual) := if nlt nzero delta then (wf_raise delta active t, wf_consume delta slope res) else (t, res) in
      let active' := List.filter (stays_active flows t slope residual) active in
      if (length active' =? length active)%nat && nle delta nzero then Some (t, residual) else wf_loop fuel flows demand t residual active'); [by rewrite Ea|].
    cbv zeta. unfold round_active, round_t, round_res in *. destruct (nlt nzero _); (rewrite (proj2 (Nat.eqb_neq _ _)) by lia); reflexivity. }
  rewrite El. apply (IH _ _ _ _ Hr). lia.
Qed.

Lemma start_length : (length A0 <= length flows)%nat.
Proof. unfold wf_start. etrans; [apply List.filter_length_le|]. by rewrite length_seq. Qed.
End Filling.

(** What a flow asks for in a pass. *)
Definition wants (flows : list Flow) (demand : list num) (i : nat) : Prop := exists f, flows !! i = Some f /\ fl_routable f = true /\ EPS < at_idx demand i.

Lemma used_seq (flows : list Flow) e : forall g : nat -> Q, used (zip flows (map g (seq 0 (length flows)))) e = qsum (map (fun i => share_at flows i e * g i) (seq 0 (length flows))).
Proof.
  unfold used. induction flows as [|f flows IH]; intros g; [done|]. cbn [length seq map zip zip_with fst snd qsum foldr]. f_equal.
  rewrite <- seq_shift, !map_map. specialize (IH (fun i => g (S i))). unfold qsum in IH. exact IH.
Qed.

(** The whole use of an edge is what those who asked take. *)
Lemma usage_used flows demand (t : list num) (g : nat -> Q) e : (forall i, i ∈ wf_start flows demand -> g i == at_idx demand i * at_idx t i) ->
  (forall i, i ∉ wf_start flows demand -> g i == 0) -> used (zip flows (map g (seq 0 (length flows)))) e == usage flows demand t e.
Proof.
  intros Hin Hout. rewrite used_seq. unfold usage. set (A := wf_start flows demand) in *.
  assert (Hg : forall l, qsum (map (fun i => share_at flows i e * g i) l) == qsum (map (fun i => takes flows demand i e * at_idx t i) (filter (fun i => i ∈ A) l))).
  { induction l as [|i l IH]; [reflexivity|]. rewrite filter_cons. cbn [map qsum foldr]. destruct (decide (i ∈ A)) as [Hi|Hi]; cbn [map qsum foldr]; unfold qsum in *.
    - rewrite IH, (Hin i Hi). unfold takes. lra.
    - rewrite IH, (Hout i Hi). lra. }
  rewrite Hg. apply qsum_perm, Permutation_map. apply NoDup_Permutation; [apply NoDup_filter, NoDup_seq|apply start_nodup|]. intros i. rewrite list_elem_of_filter, elem_of_seq. split; [tauto|].
  intros Hi. split; [done|]. apply start_spec in Hi as (f & Hf & _). apply lookup_lt_Some in Hf. lia.
Qed.

(** A pass of progressive filling: it ends within as many rounds as there are
    flows; a flow gets between nothing and all it asks for; one that does not get
    all of it crosses an edge that is used up, on which nobody who asks gets a
    larger fraction (max-min fairness); and the edges are left with what was not
    taken, no further below zero than the threshold of the code. *)
Definition fair (flows : list Flow) (demand : list num) (caps : gmap Edge num) (t : list num) (res : gmap Edge num) : Prop :=
  length t = length flows /\
  (forall i, wants flows demand i -> 0 <= at_idx t i /\ at_idx t i <= 1 /\
     (WHOLE <= at_idx t i \/ exists e (r : num), crosses flows i e /\ res !! e = Some r /\ r <= EXHAUSTED /\
        forall k, wants flows demand k -> crosses flows k e -> at_idx t k <= at_idx t i)) /\
  (forall e (r0 : num), caps !! e = Some r0 -> exists r : num, res !! e = Some r /\ qmin r0 0 - EPS <= r /\
     r == r0 - used (zip flows (map (fun i => at_idx t i * at_idx demand i) (seq 0 (length flows)))) e).

Lemma waterfill_fair fuel flows demand caps : Forall flow_ok flows -> (length flows <= fuel)%nat ->
  exists t res, waterfill fuel flows demand caps = Some (t, res) /\ fair flows demand caps t res.
Proof.
  intros Hok Hfuel. destruct (wf_loop_fills flows demand caps Hok fuel _ _ _ _ (filling_start flows demand caps)) as (t & res & tau & E & Hf).
  { pose proof (start_length flows demand). lia. }
  exists t, res. split; [exact E|]. destruct (fi_tau _ _ _ _ _ _ _ Hf) as [Ht0 Ht1]. unfold fair. split_and!.
  - apply (fi_len _ _ _ _ _ _ _ Hf).
  - intros i Hi%start_spec. destruct (fi_range _ _ _ _ _ _ _ Hf i Hi). split_and!; [done|lra|].
    destruct (fi_settled _ _ _ _ _ _ _ Hf i Hi) as [?|(e & r & Hc & Hr & Hle & Hall)]; [apply not_elem_of_nil|by left|]. right. exists e, r. split_and!; [done..|].
    intros k Hk%start_spec Hck. by apply Hall.
  - intros e r0 He. destruct (fi_res _ _ _ _ _ _ _ Hf e r0 He) as (r & Hr & Heq & Hlow). exists r. split_and!; [done| |].
    + assert (EPS * tau <= EPS * 1) by (apply qmul_le_l; [unfold EPS; lra|done]). lra.
    + rewrite (usage_used flows demand t _ e); [done| |].
      * intros i _. lra.
      * intros i Hi. rewrite (fi_out _ _ _ _ _ _ _ Hf i Hi). lra.
Qed.

(** ** The allocators on the topology and the demand of the controller *)

Lemma value_nonneg (x : f64) : fle f_zero x = true -> 0 <= f64_value x.
Proof.
  destruct x as [s|s| |s m e]; try (intros _; apply Qle_refl). destruct s; [done|]. intros _. cbn [f64_value cond_Zopp].
  apply Qmult_le_0_compat; [by rewrite <- (Zle_Qle 0)|]. apply Qpower_0_le. lra.
Qed.

Lemma built_drains `{Libm, HashOrder, !MapOrder DemandKey} t l c : c ∈ mi_commodities (build t (demand_run l)) -> 0 <= f64_value (cd_drain_rate c).
Proof.
  unfold build. cbn [mi_commodities]. rewrite merge_sort_Permutation. intros (l1 & (src & -> & _)%list_elem_of_fmap & (l2 & (dst & -> & _)%list_elem_of_fmap & Hc)%concat_elem)%concat_elem.
  unfold pair_commodities in Hc. destruct (String.eqb src.1 dst.1); [by apply not_elem_of_nil in Hc|]. destruct (String.eqb src.2 dst.2); [by apply not_elem_of_nil in Hc|].
  apply concat_elem in Hc as (l3 & (g & -> & _)%list_elem_of_fmap & Hc). unfold grade_commodity in Hc. destruct (_ && _); [by apply not_elem_of_nil in Hc|].
  destruct (demand_run l !! _) as [d|] eqn:Ed.
  - apply list_elem_of_singleton in Hc as ->. cbn [with_grade cd_drain_rate]. apply value_nonneg. destruct (demand_run_ok l _ _ Ed) as (_ & Hwf & _).
    unfold is_well_formed in Hwf. rewrite !andb_true_iff in Hwf. tauto.
  - destruct (bool_decide _); [|by apply not_elem_of_nil in Hc]. apply list_elem_of_singleton in Hc as ->. apply Qle_refl.
Qed.

(** C21: In exact rational arithmetic, where the code computes in floating point and
    rounds: for any history of the topology and of the reports, and whatever prices
    the price step starts from, the rates it computes are not negative, fit every
    edge the controller knows a positive capacity of, and are above zero for every
    commodity with a route and a drain.  These are the rates handed to [assemble],
    which publishes those below the threshold [FLOW_EPSILON] as zero. *)
Theorem published_rates_fit `{Libm, HashOrder, !MapOrder DemandKey} ops l st p wf wq :
  let t := st_topo (sdn_run ops) in let inputs := build t (demand_run l) in let flows := prepare_flows inputs wf wq in
  wcmp_from_topology t None = Some wf -> wcmp_from_topology t (Some GradeQkd) = Some wq -> 0 <= np_fill_weight p ->
  exists out, (num_step st inputs wf wq p).2 = assemble flows out /\ length out = length flows /\
    (forall e cap, edge_caps inputs !! e = Some cap -> 0 < cap -> used (zip flows out) e <= cap) /\
    forall i f x, flows !! i = Some f -> out !! i = Some x -> 0 <= x /\ (fl_routable f = true -> 0 < fl_drain f -> 0 < x).
Proof.
  intros t inputs flows Hf Hq Hw.
  destruct (num_step_fits st inputs wf wq p (wcmp_weights _ _ _ Hf) (wcmp_weights _ _ _ Hq) (built_drains t l)) as (out & E & (Hlen & Hcap & Hpos) & Hdem).
  exists out. split_and!; [exact E|done|done|]. intros i f x Hi Hx. split; [by eapply Hpos|]. by eapply Hdem.
Qed.

(** C20: The second allocator in exact rational arithmetic, where the code computes in
    floating point and rounds: for any history it ends, within as many rounds a pass
    as there are commodities.  The drains are filled first and max-min fairly on the
    capacities, the buffers then on what is left, and the rates handed to [assemble]
    do not exceed an edge by more than twice the threshold of the code.  The bound on
    the rounds is of the exact values: rounded, a round may settle nobody
    ([float_round_settles_nobody]). *)
Theorem maxmin_is_fair `{Libm, HashOrder, !MapOrder DemandKey} ops l wf wq :
  let t := st_topo (sdn_run ops) in let inputs := build t (demand_run l) in let flows := prepare_flows inputs wf wq in
  let drain := map fl_drain flows in let fill := map (fun f => ndiv (fl_remaining f) T_REPLAN_SECONDS) flows in
  wcmp_from_topology t None = Some wf -> wcmp_from_topology t (Some GradeQkd) = Some wq ->
  exists t1 res1 t2 res2 xs, maxmin_allocate (length flows) inputs wf wq = Some (assemble flows xs) /\
    fair flows drain (edge_caps inputs) t1 res1 /\ fair flows fill res1 t2 res2 /\
    xs = map (fun i => at_idx t1 i * at_idx drain i + at_idx t2 i * at_idx fill i) (seq 0 (length flows)) /\
    forall e cap, edge_caps inputs !! e = Some cap -> 0 <= cap -> used (zip flows xs) e <= cap + 2 * EPS.
Proof.
  intros t inputs flows drain fill Hf Hq.
  assert (Hok : Forall flow_ok flows) by (apply Forall_forall; intros f Hin; by apply (prepared_flows inputs wf wq _ (wcmp_weights _ _ _ Hf) (wcmp_weights _ _ _ Hq))).
  destruct (waterfill_fair (length flows) flows drain (edge_caps inputs) Hok) as (t1 & res1 & E1 & F1); [done|].
  destruct (waterfill_fair (length flows) flows fill res1 Hok) as (t2 & res2 & E2 & F2); [done|].
  exists t1, res1, t2, res2. eexists. split_and!; [|done|done|reflexivity|].
  - unfold maxmin_allocate, maxmin_rates. fold flows drain fill. rewrite E1. cbn [mbind option_bind]. rewrite E2. done.
  - intros e cap He Hc. destruct F1 as (_ & _ & F1), F2 as (_ & _ & F2). destruct (F1 e cap He) as (r1 & Hr1 & Hlow1 & Heq1). destruct (F2 e r1 Hr1) as (r2 & _ & Hlow2 & Heq2).
    rewrite used_seq in Heq1, Heq2 |- *.
    rewrite (qsum_ext _ (fun i => share_at flows i e * (at_idx t1 i * at_idx drain i) + share_at flows i e * (at_idx t2 i * at_idx fill i))) by (intros i _; lra).
    rewrite qsum_plus. assert (0 < EPS) by reflexivity. unfold qmin in *. destruct (qle_spec 0 cap), (qle_spec 0 r1); lra.
Qed.

(** A commodity has a route exactly where its ends are joined by links of its
    grade.  Then all of it arrives, over such links only: what a QKD-grade
    commodity is counted against are QKD links.  The table towards an end has to
    have fewer hops than the steps the code allows. *)
Theorem commodity_routed_iff_joined `{Libm, HashOrder} ops grade w src dst :
  let t := st_topo (sdn_run ops) in let split := commodity_edge_fractions w src dst in
  (forall q, registered t q -> canonical_id q) -> wcmp_from_topology t grade = Some w -> registered t dst ->
  (Z.of_nat (sum_list_with (hops_of w dst) (elements (dom w))) < MAX_STEPS)%Z ->
  (nlt (nlit 99 100) split.2 = true <-> rtc (usable t grade) src dst) /\ (rtc (usable t grade) src dst -> split.2 == 1) /\
  forall e, is_Some (split.1 !! e) -> exists a b, e = edge_key a b /\ usable t grade a b.
Proof.
  intros t split Hcanon Hw Hdst Hmax. unfold split. clear split. pose proof (go_sync _ (sdn_run_graph ops)) as Hs. destruct (commodity_split t grade w src dst Hs Hcanon Hw Hdst Hmax) as [Hj Hz].
  destruct (tables_deliver t grade Hs Hcanon) as (w' & E & Hu & _). assert (w' = w) as -> by congruence. split_and!; [|exact Hj|].
  - assert (Hone : forall x : Q, x == 1 -> nlt (nlit 99 100) x = true) by (intros x Hx; apply negb_true_iff, not_true_is_false; intros Hle%Qle_bool_iff; rewrite Hx in Hle; by destruct Hle).
    assert (Hzero : forall x : Q, x == 0 -> nlt (nlit 99 100) x <> true) by (intros x Hx Hn%negb_true_iff; apply not_true_iff_false in Hn; destruct Hn; apply Qle_bool_iff; rewrite Hx; done).
    split; [|intros Hr; apply Hone, Hj, Hr]. intros Hlt. destruct Hz as [?|Hz]; [done|]. by destruct (Hzero _ Hz).
  - intros e He. destruct (fractions_shares w src dst (wcmp_weights _ _ _ Hw)) as [_ Hl]. destruct (Hl e He) as (v & hops & h & Hh & Hin & ->). exists v, (next_of h). split; [done|]. by eapply Hu.
Qed.
End Exact.

(** ** Instances *)

Definition first_arg (x _ : Q) : Q := x.
Definition sample_demand : list DemandEvent :=
  [DReport (fun _ => 5%Z) (mkReport "d1" [mkDemand "d1" "d2" (f_of_Z 10) (f_of_Z 4096) (f_of_Z 3000) 5 GradeQkd])].
Abbreviation sample_inputs := (@build flat_libm map_order sample_topo (@demand_run (list_order DemandKey) sample_demand)).
Definition sample_full : Wcmp := default ∅ (@wcmp_from_topology flat_libm sample_topo None).
Definition sample_qkd : Wcmp := default ∅ (@wcmp_from_topology flat_libm sample_topo (Some GradeQkd)).

Lemma sample_tables : @wcmp_from_topology flat_libm sample_topo None = Some sample_full /\ @wcmp_from_topology flat_libm sample_topo (Some GradeQkd) = Some sample_qkd.
Proof. split; vm_compute; reflexivity. Qed.

Lemma published_rates_fit_witness :
  let EA := exact_arith first_arg in let MO := list_order Edge in
  let flows := prepare_flows sample_inputs sample_full sample_qkd in
  exists out, (num_step num_state_new sample_inputs sample_full sample_qkd num_params_default).2 = assemble flows out /\
    forall e cap, edge_caps sample_inputs !! e = Some cap -> 0 < cap -> used first_arg (zip flows out) e <= cap.
Proof.
  intros EA MO flows. destruct sample_tables as [Hf Hq].
  destruct (@published_rates_fit first_arg MO (fun x y Hx => Hx) flat_libm map_order (list_order DemandKey) sample_ops sample_demand num_state_new num_params_default sample_full sample_qkd Hf Hq)
    as (out & E & _ & Hcap & _); [by vm_compute|]. exists out. split; [exact E|exact Hcap].
Defined.

Lemma maxmin_is_fair_witness :
  let EA := exact_arith first_arg in let MO := list_order Edge in
  let flows := prepare_flows sample_inputs sample_full sample_qkd in
  exists t1 res1 xs, maxmin_allocate (length flows) sample_inputs sample_full sample_qkd = Some (assemble flows xs) /\
    fair first_arg flows (map fl_drain flows) (edge_caps sample_inputs) t1 res1.
Proof.
  intros EA MO flows. destruct sample_tables as [Hf Hq].
  destruct (@maxmin_is_fair first_arg MO flat_libm map_order (list_order DemandKey) sample_ops sample_demand sample_full sample_qkd Hf Hq)
    as (t1 & res1 & t2 & res2 & xs & E & F1 & _). exists t1, res1, xs. split; [exact E|exact F1].
Defined.

Lemma commodity_routed_iff_joined_witness :
  let EA := exact_arith first_arg in (commodity_edge_fractions sample_qkd "1" "3").2 == 1.
Proof.
  intros EA. destruct sample_tables as [_ Hq].
  destruct (@commodity_routed_iff_joined first_arg flat_libm map_order sample_ops (Some GradeQkd) sample_qkd "1" "3" sample_canonical Hq sample_three) as (_ & Hone & _); [by vm_compute|].
  apply Hone. exact (rtc_l _ _ _ _ (proj1 sample_usable) (rtc_once _ _ (proj2 sample_usable))).
Defined.

(** With two flows over an edge of 1000 and drains of 3000 and 1000, both get a
    quarter. *)
Definition sample_flow (drain : Z) : @Flow (exact_arith first_arg) :=
  @mkFlow (exact_arith first_arg) (mkDemand "d1" "d2" f_zero f_zero (f_of_Z drain) 0 GradePqc) {[ ("1"%string, "2"%string) := 1 ]} true.
Example two_flows_share : (fun r => map Qred r.1) <$> @waterfill (exact_arith first_arg) (list_order Edge) 2 [sample_flow 3000; sample_flow 1000]
  [3000; 1000] {[ ("1"%string, "2"%string) := 1000 ]} = Some [1 # 4; 1 # 4].
Proof. vm_compute. reflexivity. Qed.

(** ** What rounding does to a round

    One flow with a drain of 736172086 over an edge of 482637353: the exact round
    uses the edge up; the rounded one leaves more than the threshold on it, settles
    nobody, and a second round is needed. *)

Definition rounded_fill (fuel : nat) (cap drain : Z) : option (list f64) :=
  fst <$> @waterfill (@float_arith flat_libm) (list_order Edge) fuel
    [@mkFlow (@float_arith flat_libm) (mkDemand "d1" "d2" f_zero f_zero (f_of_Z drain) 0 GradePqc) {[ ("1"%string, "2"%string) := f_of_Z 1 ]} true]
    [f_of_Z drain] {[ ("1"%string, "2"%string) := f_of_Z cap ]}.

Theorem float_round_settles_nobody :
  rounded_fill 1 482637353 736172086 = None /\ is_Some (rounded_fill 2 482637353 736172086) /\
  is_Some (@waterfill (exact_arith first_arg) (list_order Edge) 1 [sample_flow 736172086] [736172086] {[ ("1"%string, "2"%string) := 482637353 ]}).
Proof. split_and!; [vm_compute; reflexivity|apply (bool_decide_unpack _); vm_compute; exact I..]. Qed.
