(* ===== verification/RateLp.v ===== *)
(** * The linear programs of the controller (sdn/src/mcmcf.rs)

    The third allocator is a chain of linear programs over one flow per commodity:
    the largest common share of the drains ([common_fraction_lp]), then the largest
    common fill with as little unmet drain as possible ([lambda_lp]), then what is
    left over ([eta_lp]).  An external crate solves them; the programs themselves,
    the order they are solved in, the fall-backs between them and what is read back
    are here.

    A program is its variables with their bounds, its objective and its constraints;
    a variable is its number in the order the code adds them.  [LpCrates] is what the
    three back ends answer, and nothing is assumed of it.  Shown of the programs, their
    coefficients in exact arithmetic: the points of each are exactly the multi-commodity
    flows it stands for; a point of the third is one of the second without slack; and a
    pair that no link joins leaves the whole network without its common fill. *)

From Stdlib Require Import ZArith QArith Lqa Lia SpecFloat.
From S2P Require Import Prelude Text Signing Float64 Arith Security SdnTopology SdnStore SdnGraph SdnRegistry SdnPaths SdnWcmp SdnControl SdnRates RateAlloc AllocFair.

#[local] Open Scope string_scope.
#[local] Open Scope list_scope.
#[local] Open Scope Z_scope.

(** ** Programs *)

Section Programs.
Context `{Arith}.

Abbreviation LinExpr := (list (num * nat)).
Inductive Sense := CEq | CLeq.
Record Constraint := mkCons { co_expr : LinExpr; co_sense : Sense; co_rhs : num }.
Record VarDef := mkVar { vd_id : nat; vd_min : num; vd_max : option num }.
Record Lp := mkLp { lp_vars : list VarDef; lp_obj : LinExpr; lp_cons : list Constraint }.

(** ** Arcs

    Two directed arcs per edge, and where each is in the list. *)
Definition push_edge (st : list Edge * gmap Edge nat) (ec : Edge * num) : list Edge * gmap Edge nat :=
  let '(arcs, idx) := st in
  let '(a, b) := ec.1 in
  (arcs ++ [(a, b); (b, a)], <[(b, a) := Datatypes.S (length arcs)]> (<[(a, b) := length arcs]> idx)).
Definition lp_arcs (undirected : list (Edge * num)) : list Edge * gmap Edge nat := fold_left push_edge undirected ([], ∅).
Definition lp_nodes (arcs : list Edge) : list string := elements (list_to_set (concat (map (fun ab : Edge => [ab.1; ab.2]) arcs)) : gset string).

(** What every program is built from. *)
Record LpNet := mkNet { nt_arcs : list Edge; nt_idx : gmap Edge nat; nt_nodes : list string; nt_undirected : list (Edge * num); nt_inputs : McmcfInputs }.
Definition lp_net `{!MapOrder Edge} (inputs : McmcfInputs) : LpNet :=
  let undirected := map_iter (edge_caps inputs) in
  let '(arcs, idx) := lp_arcs undirected in
  mkNet arcs idx (lp_nodes arcs) undirected inputs.

Definition c_drain (c : CommodityDemand) : num := n_of_f64 (cd_drain_rate c).
Definition c_remaining (c : CommodityDemand) : num := nmax (nsub (n_of_f64 (cd_capacity c)) (n_of_f64 (cd_level c))) nzero.

(** ** Variables and constraints *)

(** [x[k][a]], from the variable [base] on. *)
Definition xvar (base : nat) (n : LpNet) (k a : nat) : nat := (base + k * length (nt_arcs n) + a)%nat.

(** A QKD commodity is kept off an arc of a PQC edge. *)
Definition pinned (inputs : McmcfInputs) (c : CommodityDemand) (ab : Edge) : bool :=
  bool_decide (cd_grade c = GradeQkd) && bool_decide (edge_key ab.1 ab.2 ∈ mi_pqc_edges inputs).
Definition build_flow_vars (base : nat) (n : LpNet) (active : list CommodityDemand) : list VarDef :=
  concat (imap (fun k c => imap (fun a ab => mkVar (xvar base n k a) nzero (if pinned (nt_inputs n) c ab then Some nzero else None)) (nt_arcs n)) active).

(** What leaves [node] less what enters it. *)
Definition out_less_in (n : LpNet) (x : nat -> nat) (node : string) : LinExpr :=
  concat (imap (fun a (ab : Edge) => (if String.eqb ab.1 node then [(none, x a)] else []) ++ (if String.eqb ab.2 node then [(n_of_Z (-1), x a)] else [])) (nt_arcs n)).

(** The rows of a commodity: [at_src] and [at_dst] are what is added to the balance of
    its ends, and what that equals. *)
Definition conserve (n : LpNet) (x : nat -> nat) (src dst : string) (at_src at_dst : LinExpr * num) : list Constraint :=
  map (fun node =>
    if String.eqb node src then mkCons (out_less_in n x node ++ at_src.1) CEq at_src.2
    else if String.eqb node dst then mkCons (out_less_in n x node ++ at_dst.1) CEq at_dst.2
    else mkCons (out_less_in n x node) CEq nzero) (nt_nodes n).

(** Both arcs of an edge share its capacity. *)
Definition capacity_row (base : nat) (n : LpNet) (count : nat) (ec : Edge * num) : Constraint :=
  let '(a, b) := ec.1 in
  let ij := default 0%nat (nt_idx n !! (a, b)) in
  let ji := default 0%nat (nt_idx n !! (b, a)) in
  mkCons (concat (map (fun k => [(none, xvar base n k ij); (none, xvar base n k ji)]) (seq 0 count))) CLeq ec.2.

Definition end_of (n : LpNet) (dkms : string) : string := default EmptyString (mi_dkms_to_qkc (nt_inputs n) !! dkms).
Definition rows (base : nat) (n : LpNet) (active : list CommodityDemand) (at_src at_dst : nat -> CommodityDemand -> LinExpr * num) : list Constraint :=
  concat (imap (fun k c => conserve n (xvar base n k) (end_of n (cd_src_dkms c)) (end_of n (cd_dst_dkms c)) (at_src k c) (at_dst k c)) active)
  ++ map (capacity_row base n (length active)) (nt_undirected n).

Definition nneg (x : num) : num := nsub nzero x.

(** ** The three programs *)

(** [solve_common_fraction]: [t] is variable 0. *)
Definition drainers (active : list CommodityDemand) : list CommodityDemand := List.filter (fun c => nlt FLOW_EPSILON (c_drain c)) active.
Definition common_fraction_lp (n : LpNet) (drainers : list CommodityDemand) : Lp :=
  mkLp (mkVar 0 nzero (Some none) :: build_flow_vars 1 n drainers) [(none, 0%nat)]
    (rows 1 n drainers (fun _ c => ([(nneg (c_drain c), 0%nat)], nzero)) (fun _ c => ([(c_drain c, 0%nat)], nzero))).

(** [solve_lambda]: [lambda] is variable 0, the slacks come after the flows. *)
Definition LAMBDA_SLACK_PENALTY : num := n_of_Z 1000.
Definition sigma_var (n : LpNet) (active : list CommodityDemand) (k : nat) : nat := (1 + length active * length (nt_arcs n) + k)%nat.
Definition sigma_max (slack_disabled : bool) (t_floor : num) (c : CommodityDemand) : num :=
  if slack_disabled then nzero else nmul (nmax (c_drain c) nzero) (nmax (nsub none t_floor) nzero).
Definition lambda_lp (slack_disabled : bool) (n : LpNet) (active : list CommodityDemand) (t_floor : num) : Lp :=
  let sigma := sigma_var n active in
  mkLp (mkVar 0 nzero None :: build_flow_vars 1 n active
          ++ imap (fun k c => mkVar (sigma k) nzero (Some (sigma_max slack_disabled t_floor c))) active)
    ((none, 0%nat) :: imap (fun k _ => (nneg LAMBDA_SLACK_PENALTY, sigma k)) active)
    (rows 1 n active (fun k c => ([(nneg (c_remaining c), 0%nat); (none, sigma k)], c_drain c))
       (fun k c => ([(c_remaining c, 0%nat); (n_of_Z (-1), sigma k)], nneg (c_drain c)))).

(** [solve_eta]: the fill of the second program is a constant. *)
Definition eta_var (n : LpNet) (active : list CommodityDemand) (k : nat) : nat := (length active * length (nt_arcs n) + k)%nat.
Definition eta_lp (n : LpNet) (active : list CommodityDemand) (lambda_star : num) : Lp :=
  let eta := eta_var n active in
  mkLp (build_flow_vars 0 n active ++ imap (fun k c => mkVar (eta k) nzero (Some (nmax (ndiv (c_remaining c) T_REPLAN_SECONDS) nzero))) active)
    (imap (fun k _ => (none, eta k)) active)
    (rows 0 n active (fun k c => ([(n_of_Z (-1), eta k)], nadd (c_drain c) (nmul lambda_star (c_remaining c))))
       (fun k c => ([(none, eta k)], nsub (nneg (c_drain c)) (nmul lambda_star (c_remaining c))))).

(** ** Back ends *)

Inductive LpBackend := Microlp | Clarabel | Highs.
Inductive SolverStatus := StSolved | StAlmostSolved | StOther.

(** The crates: a value for every variable, or an error. *)
Class LpCrates := {
  microlp_solve : Lp -> option (nat -> num);
  highs_solve : Lp -> option (nat -> num);
  clarabel_solve : Lp -> option (SolverStatus * (nat -> num))
}.

Record LpEnv := mkLpEnv { lv_solver : option string; lv_disable_slack : option string; lv_disable_lex : option string }.
Definition env_flag (v : option string) : bool := match v with Some s => negb (String.eqb s "0") && negb (String.eqb s "") | None => false end.
Definition eq_ignore_ascii_case (a b : string) : bool := String.eqb (to_ascii_lowercase a) (to_ascii_lowercase b).
Definition lp_backend (e : LpEnv) : LpBackend :=
  match lv_solver e with
  | Some v => if eq_ignore_ascii_case v "clarabel" then Clarabel else if eq_ignore_ascii_case v "microlp" then Microlp else Highs
  | None => Highs
  end.

Definition solve_lp_clarabel `{LpCrates} (p : Lp) : option (nat -> num) :=
  match clarabel_solve p with
  | Some (StSolved, v) | Some (StAlmostSolved, v) => Some v
  | _ => None
  end.
Definition solve_lp_backend `{LpCrates} (b : LpBackend) (p : Lp) : option (nat -> num) :=
  match b with Microlp => microlp_solve p | Clarabel => solve_lp_clarabel p | Highs => highs_solve p end.

(** ** [solve] *)

Definition solve_common_fraction `{LpCrates} (b : LpBackend) (n : LpNet) (active : list CommodityDemand) : option num :=
  match drainers active with
  | [] => None
  | ds => (fun v : nat -> num => nclamp (v 0%nat) nzero none) <$> solve_lp_backend b (common_fraction_lp n ds)
  end.

Definition solve_lambda `{LpCrates} (b : LpBackend) (slack_disabled : bool) (n : LpNet) (active : list CommodityDemand) (t_floor : num) : option (num * list num) :=
  (fun v : nat -> num => (nmax (v 0%nat) nzero, imap (fun k _ => nmax (v (sigma_var n active k)) nzero) active))
  <$> solve_lp_backend b (lambda_lp slack_disabled n active t_floor).

Record EdgeFlow := mkEdgeFlow { ef_flow_id : string; ef_src_qkc : string; ef_dst_qkc : string; ef_flow : num; ef_grade : KeyGrade }.
Record Phase2Output := mkPhase2 { p2_eta : list num; p2_edge_flows : list EdgeFlow; p2_fallback : bool }.

Definition edge_flows_of (v : nat -> num) (n : LpNet) (active : list CommodityDemand) : list EdgeFlow :=
  concat (imap (fun k c => concat (imap (fun a (ab : Edge) =>
    let x := v (xvar 0 n k a) in
    if nlt FLOW_EPSILON x then [mkEdgeFlow (flow_id (cd_src_dkms c) (cd_dst_dkms c)) ab.1 ab.2 x (cd_grade c)] else []) (nt_arcs n))) active).

Definition solve_eta `{LpCrates} (b : LpBackend) (n : LpNet) (active : list CommodityDemand) (lambda_star : num) : Phase2Output :=
  match solve_lp_backend b (eta_lp n active lambda_star) with
  | Some v => mkPhase2 (imap (fun k _ => nmax (v (eta_var n active k)) nzero) active) (edge_flows_of v n active) false
  | None => mkPhase2 (replicate (length active) nzero) [] true
  end.

Record LpSolution := mkLpSol { so_lambda : num; so_edge_flows : list EdgeFlow; so_rates : AllocSolution }.

Definition add_rate_k (sol : AllocSolution) (cx : CommodityDemand * num) : AllocSolution :=
  let fid := flow_id (cd_src_dkms cx.1) (cd_dst_dkms cx.1) in
  mkAlloc (<[fid := nadd (default nzero (as_rates sol !! fid)) cx.2]> (as_rates sol)) (<[(fid, cd_grade cx.1) := cx.2]> (as_rates_grade sol)).
Definition rates_of (active : list CommodityDemand) (xs : list num) : AllocSolution := fold_left add_rate_k (zip active xs) (mkAlloc ∅ ∅).

(** [r_k]: the drain that is met, the common fill and the rest. *)
Definition r_k (lambda_star : num) (sigmas etas : list num) (k : nat) (c : CommodityDemand) : num :=
  nadd (nadd (nmax (nsub (c_drain c) (default nzero (sigmas !! k))) nzero) (nmul lambda_star (c_remaining c))) (default nzero (etas !! k)).
Definition clean (r : num) : num := if nlt (nmax r (nneg r)) FLOW_EPSILON then nzero else r.

Definition zero_rate_fallback (active : list CommodityDemand) : LpSolution :=
  mkLpSol nzero [] (rates_of active (map (fun _ => nzero) active)).

Definition active_of (inputs : McmcfInputs) : list CommodityDemand :=
  List.filter (fun c => bool_decide (is_Some (mi_dkms_to_qkc inputs !! cd_src_dkms c)) && bool_decide (is_Some (mi_dkms_to_qkc inputs !! cd_dst_dkms c))) (mi_commodities inputs).

(** The floor for the second program, a hair below the optimum of the first. *)
Definition t_floor_of `{LpCrates} (b : LpBackend) (slack_disabled : bool) (n : LpNet) (active : list CommodityDemand) : num :=
  if slack_disabled then nzero
  else match solve_common_fraction b n active with Some t => nclamp (nsub t (nlit 1 1000000)) nzero none | None => nzero end.

Definition phase1 `{LpCrates} (b : LpBackend) (slack_disabled : bool) (n : LpNet) (active : list CommodityDemand) (t_floor : num) : option (num * list num) :=
  match solve_lambda b slack_disabled n active t_floor with
  | Some v => Some v
  | None => if nlt nzero t_floor then solve_lambda b slack_disabled n active nzero else None
  end.

Definition phase2 `{LpCrates} (b : LpBackend) (lex_disabled : bool) (n : LpNet) (active : list CommodityDemand) (lambda_star : num) : Phase2Output :=
  if lex_disabled then mkPhase2 (replicate (length active) nzero) [] false else solve_eta b n active lambda_star.

Definition solve `{LpCrates, !MapOrder Edge} (e : LpEnv) (inputs : McmcfInputs) : LpSolution :=
  let active := active_of inputs in
  if (length active =? 0)%nat || bool_decide (mi_edge_capacity inputs = ∅) then mkLpSol nzero [] (mkAlloc ∅ ∅) else
  if negb (existsb (fun c => nlt nzero (c_remaining c)) active) then mkLpSol nzero [] (rates_of active (map c_drain active)) else
  let n := lp_net inputs in
  let b := lp_backend e in
  let slack_disabled := env_flag (lv_disable_slack e) in
  match phase1 b slack_disabled n active (t_floor_of b slack_disabled n active) with
  | None => zero_rate_fallback active
  | Some (lambda_star, sigmas) =>
      let lex_disabled := match b with Clarabel => true | _ => env_flag (lv_disable_lex e) end in
      let p2 := phase2 b lex_disabled n active lambda_star in
      mkLpSol lambda_star (p2_edge_flows p2) (rates_of active (imap (fun k c => clean (r_k lambda_star sigmas (p2_eta p2) k c)) active))
  end.
End Programs.

(** ** What a solution of a program is *)

Section Exact.
Context (pow : Q -> Q -> Q).
#[local] Instance EA : Arith := exact_arith pow.
#[local] Open Scope Q_scope.
#[local] Abbreviation dq := (@c_drain EA).
#[local] Abbreviation rq := (@c_remaining EA).

Definition lin (v : nat -> Q) (e : list (num * nat)) : Q := qsum (map (fun ci : num * nat => (ci.1 : Q) * v ci.2) e).
Definition row_ok (v : nat -> Q) (c : Constraint) : Prop :=
  match co_sense c with CEq => lin v (co_expr c) == co_rhs c | CLeq => lin v (co_expr c) <= co_rhs c end.
Definition var_ok (v : nat -> Q) (d : VarDef) : Prop := vd_min d <= v (vd_id d) /\ match vd_max d with Some m => v (vd_id d) <= m | None => True end.
Definition feasible (p : Lp) (v : nat -> Q) : Prop := Forall (var_ok v) (lp_vars p) /\ Forall (row_ok v) (lp_cons p).
Lemma lin_app v e e' : lin v (e ++ e') == lin v e + lin v e'.
Proof.
  unfold lin. induction e as [|ci e IH]; [symmetry; apply Qplus_0_l|]. cbn [app map qsum foldr]. rewrite <- Qplus_assoc. apply Qplus_inj_l. exact IH.
Qed.

Lemma lin_concat v es : lin v (concat es) == qsum (map (lin v) es).
Proof. induction es as [|e es IH]; cbn [concat map qsum foldr]; [reflexivity|]. rewrite lin_app, IH. reflexivity. Qed.

Lemma Forall_rows {A B} (P : B -> Prop) (f : nat -> A -> list B) l : Forall P (concat (imap f l)) <-> forall i x, l !! i = Some x -> Forall P (f i x).
Proof.
  rewrite Forall_concat, Forall_lookup. split.
  - intros Hl i x Hx. apply (Hl i). by rewrite list_lookup_imap, Hx.
  - intros Hl i x Hx. rewrite list_lookup_imap in Hx. destruct (l !! i) as [y|] eqn:E; [|done]. injection Hx as <-. by apply Hl.
Qed.

Lemma Forall_imap {A B} (P : B -> Prop) (f : nat -> A -> B) l : Forall P (imap f l) <-> forall i x, l !! i = Some x -> P (f i x).
Proof.
  rewrite Forall_lookup. split.
  - intros Hl i x Hx. apply (Hl i). by rewrite list_lookup_imap, Hx.
  - intros Hl i x Hx. rewrite list_lookup_imap in Hx. destruct (l !! i) as [y|] eqn:E; [|done]. injection Hx as <-. by apply Hl.
Qed.

(** ** Flows *)

(** An arc leaves a node, enters it, or neither. *)
Definition side (ab : Edge) (node : string) : Q := (if String.eqb ab.1 node then 1 else 0) - (if String.eqb ab.2 node then 1 else 0).
Definition net (n : LpNet) (f : nat -> Q) (node : string) : Q := qsum (imap (fun a ab => side ab node * f a) (nt_arcs n)).

Lemma lin_side v (i : nat) (b1 b2 : bool) :
  lin v ((if b1 then [(none, i)] else []) ++ (if b2 then [(n_of_Z (-1), i)] else [])) == ((if b1 then 1 else 0) - (if b2 then 1 else 0)) * v i.
Proof. rewrite lin_app. destruct b1, b2; unfold lin; cbn [map qsum foldr fst snd]; change (@none EA) with 1; change (@n_of_Z EA (-1)) with (-1); ring. Qed.

Lemma out_less_in_net n (x : nat -> nat) v node : lin v (out_less_in n x node) == net n (fun a => v (x a)) node.
Proof.
  unfold out_less_in, net. rewrite lin_concat. generalize 0%nat as i0. enough (Hg : forall (l : list Edge) (g : nat -> nat),
    qsum (map (lin v) (imap (fun a (ab : Edge) => (if String.eqb ab.1 node then [(none, x (g a))] else []) ++ (if String.eqb ab.2 node then [(n_of_Z (-1), x (g a))] else [])) l))
    == qsum (imap (fun a ab => side ab node * v (x (g a))) l)) by (intros _; exact (Hg (nt_arcs n) id)).
  induction l as [|ab l IH]; intros g; cbn [imap map qsum foldr]; [reflexivity|]. rewrite (IH (g ∘ S)). apply Qplus_inj_r.
  apply lin_side.
Qed.

Definition src_of (n : LpNet) (c : CommodityDemand) : string := end_of n (cd_src_dkms c).
Definition dst_of (n : LpNet) (c : CommodityDemand) : string := end_of n (cd_dst_dkms c).

(** A flow of [r] keys a second for a commodity, on the arcs it may use. *)
Definition carries (n : LpNet) (c : CommodityDemand) (f : nat -> Q) (r : Q) : Prop :=
  (forall a ab, nt_arcs n !! a = Some ab -> 0 <= f a /\ (pinned (nt_inputs n) c ab = true -> f a <= 0)) /\
  forall node, node ∈ nt_nodes n -> net n f node == (if String.eqb node (src_of n c) then r else if String.eqb node (dst_of n c) then - r else 0).

Definition at_arc (n : LpNet) (f : nat -> Q) (ab : Edge) : Q := f (default 0%nat (nt_idx n !! ab)).
Definition fits (n : LpNet) (count : nat) (f : nat -> nat -> Q) : Prop :=
  forall ec : Edge * num, ec ∈ nt_undirected n -> qsum (map (fun k => at_arc n (f k) ec.1 + at_arc n (f k) (ec.1.2, ec.1.1)) (seq 0 count)) <= ec.2.

Lemma flow_vars_ok base n active v : Forall (var_ok v) (build_flow_vars base n active) <->
  forall k c, active !! k = Some c -> forall a ab, nt_arcs n !! a = Some ab -> 0 <= v (xvar base n k a) /\ (pinned (nt_inputs n) c ab = true -> v (xvar base n k a) <= 0).
Proof.
  unfold build_flow_vars. rewrite Forall_rows. apply forall_proper. intros k. apply forall_proper. intros c. apply forall_proper. intros _. rewrite Forall_imap.
  apply forall_proper. intros a. apply forall_proper. intros ab. apply forall_proper. intros _. unfold var_ok. cbn [vd_min vd_id vd_max].
  destruct (pinned _ _ _); split; intros [H1 H2]; (split; [exact H1|]); auto; done.
Qed.

Lemma capacity_rows_ok base n count v : Forall (row_ok v) (map (capacity_row base n count) (nt_undirected n)) <-> fits n count (fun k a => v (xvar base n k a)).
Proof.
  rewrite Forall_map, Forall_forall. unfold fits. apply forall_proper. intros ec. apply forall_proper. intros _. unfold compose, capacity_row, at_arc. destruct ec as [[a b] cap]. unfold row_ok.
  cbn [co_sense co_expr co_rhs fst snd]. set (ij := default 0%nat _). set (ji := default 0%nat _).
  assert (E : lin v (concat (map (fun k => [(none, xvar base n k ij); (none, xvar base n k ji)]) (seq 0 count))) == qsum (map (fun k => v (xvar base n k ij) + v (xvar base n k ji)) (seq 0 count))).
  { rewrite lin_concat, map_map. apply qsum_ext. intros k _. unfold lin. cbn [map qsum foldr fst snd]. change (@none EA) with 1. ring. }
  split; intros Hle; [rewrite <- E; exact Hle|rewrite E; exact Hle].
Qed.

(** The rows of the commodities, where the terms at both ends say that [r] leaves and
    arrives. *)
Lemma rows_ok base n active v (at_src at_dst : nat -> CommodityDemand -> list (num * nat) * num) (r : nat -> CommodityDemand -> Q) :
  (forall k c, (at_src k c).2 - lin v (at_src k c).1 == r k c) -> (forall k c, (at_dst k c).2 - lin v (at_dst k c).1 == - r k c) ->
  Forall (row_ok v) (rows base n active at_src at_dst) <->
  (forall k c, active !! k = Some c -> forall node, node ∈ nt_nodes n ->
    net n (fun a => v (xvar base n k a)) node == (if String.eqb node (src_of n c) then r k c else if String.eqb node (dst_of n c) then - r k c else 0)) /\
  fits n (length active) (fun k a => v (xvar base n k a)).
Proof.
  intros Hs Hd. unfold rows. rewrite Forall_app, capacity_rows_ok, Forall_rows. apply and_iff_compat_r.
  apply forall_proper. intros k. apply forall_proper. intros c. apply forall_proper. intros _. unfold conserve. rewrite Forall_map, Forall_forall.
  apply forall_proper. intros node. apply forall_proper. intros _. unfold compose, src_of, dst_of. specialize (Hs k c). specialize (Hd k c).
  pose proof (out_less_in_net n (xvar base n k) v node) as En. set (N := net _ _ _) in *.
  destruct (String.eqb node _); [|destruct (String.eqb node _)]; unfold row_ok; cbn [co_sense co_expr co_rhs]; rewrite ?lin_app, En; [| |reflexivity]; split; intros E; lra.
Qed.

Lemma lin2 v (c1 c2 : num) i1 i2 : lin v [(c1, i1); (c2, i2)] == c1 * v i1 + c2 * v i2.
Proof. unfold lin. cbn [map qsum foldr fst snd]. ring. Qed.
Lemma lin1 v (c1 : num) i1 : lin v [(c1, i1)] == c1 * v i1.
Proof. unfold lin. cbn [map qsum foldr fst snd]. ring. Qed.

(** The rate of a commodity in the second program and in the third. *)
Definition lambda_rate (n : LpNet) (active : list CommodityDemand) (v : nat -> Q) (k : nat) (c : CommodityDemand) : Q :=
  dq c - v (sigma_var n active k) + v 0%nat * rq c.
Definition eta_rate (n : LpNet) (active : list CommodityDemand) (lambda_star : Q) (v : nat -> Q) (k : nat) (c : CommodityDemand) : Q :=
  dq c + lambda_star * rq c + v (eta_var n active k).

Lemma lambda_feasible sd n active (t : num) v : feasible (lambda_lp sd n active t) v <->
  0 <= v 0%nat /\ (forall k c, active !! k = Some c -> (0 <= v (sigma_var n active k) /\ v (sigma_var n active k) <= sigma_max sd t c) /\
    carries n c (fun a => v (xvar 1 n k a)) (lambda_rate n active v k c)) /\ fits n (length active) (fun k a => v (xvar 1 n k a)).
Proof.
  unfold feasible, lambda_lp. cbn [lp_vars lp_cons]. rewrite Forall_cons, Forall_app, flow_vars_ok, Forall_imap.
  rewrite (rows_ok 1 n active v _ _ (lambda_rate n active v)).
  2:{ intros k c. cbn [fst snd]. rewrite lin2. unfold lambda_rate, nneg. change (@none EA) with 1. change (@nsub EA) with Qminus. change (@nzero EA) with 0. ring. }
  2:{ intros k c. cbn [fst snd]. rewrite lin2. unfold lambda_rate, nneg. change (@n_of_Z EA (-1)) with (-1). change (@nsub EA) with Qminus. change (@nzero EA) with 0. ring. }
  unfold var_ok at 1 2. cbn [vd_min vd_max vd_id]. change (@nzero EA) with 0. unfold carries. split.
  - intros (([H0 _] & Hx & Hs) & Hrows & Hcap). split_and!; [done| |done]. intros k c Hk. split; [exact (Hs k c Hk)|]. split; [exact (Hx k c Hk)|exact (Hrows k c Hk)].
  - intros (H0 & Hk & Hcap). split_and!; [done|done|..|done]; intros k c Hc; apply (Hk k c Hc).
Qed.

Lemma eta_feasible n active (l : num) v : feasible (eta_lp n active l) v <->
  (forall k c, active !! k = Some c -> (0 <= v (eta_var n active k) /\ v (eta_var n active k) <= qmax (rq c / 5) 0) /\
    carries n c (fun a => v (xvar 0 n k a)) (eta_rate n active l v k c)) /\ fits n (length active) (fun k a => v (xvar 0 n k a)).
Proof.
  unfold feasible, eta_lp. cbn [lp_vars lp_cons]. rewrite Forall_app, flow_vars_ok, Forall_imap.
  rewrite (rows_ok 0 n active v _ _ (eta_rate n active l v)).
  2:{ intros k c. cbn [fst snd]. rewrite lin1. unfold eta_rate. change (@n_of_Z EA (-1)) with (-1). change (@nadd EA) with Qplus. change (@nmul EA) with Qmult. ring. }
  2:{ intros k c. cbn [fst snd]. rewrite lin1. unfold eta_rate, nneg. change (@none EA) with 1. change (@nsub EA) with Qminus. change (@nzero EA) with 0. change (@nmul EA) with Qmult. ring. }
  unfold var_ok. cbn [vd_min vd_max vd_id]. change (@nzero EA) with 0. unfold carries. split.
  - intros ((Hx & Hs) & Hrows & Hcap). split; [|done]. intros k c Hk. split; [exact (Hs k c Hk)|]. split; [exact (Hx k c Hk)|exact (Hrows k c Hk)].
  - intros (Hk & Hcap). split_and!; [..|done]; intros k c Hc; apply (Hk k c Hc).
Qed.


(** ** Two programs in a row

    A smaller rate is carried by a thinner flow. *)
Lemma carries_scale n c f r (s : Q) : 0 <= s -> carries n c f r -> carries n c (fun a => s * f a) (s * r).
Proof.
  intros Hs [Hpos Hnet]. split.
  - intros a ab Ha. destruct (Hpos a ab Ha) as [H1 H2]. split; [by apply Qmult_le_0_compat|]. intros Hp%H2. assert (s * f a <= s * 0) by by apply qmul_le_l. lra.
  - intros node Hn. assert (E : net n (fun a => s * f a) node == s * net n f node).
    { unfold net. generalize (nt_arcs n). clear. intros l. enough (Hg : forall g : nat -> nat, qsum (imap (fun a ab => side ab node * (s * f (g a))) l) == s * qsum (imap (fun a ab => side ab node * f (g a)) l)) by exact (Hg id).
      induction l as [|ab l IH]; intros g; cbn [imap qsum foldr]; [ring|]. unfold qsum in IH. rewrite (IH (g ∘ S)). unfold compose. ring. }
    rewrite E, (Hnet node Hn). destruct (String.eqb node _); [reflexivity|]. destruct (String.eqb node _); ring.
Qed.

Lemma fits_le n count f g : (forall k a ab, nt_arcs n !! a = Some ab -> (k < count)%nat -> g k a <= f k a) ->
  (forall ec : Edge * num, ec ∈ nt_undirected n -> is_Some (nt_arcs n !! default 0%nat (nt_idx n !! ec.1)) /\ is_Some (nt_arcs n !! default 0%nat (nt_idx n !! (ec.1.2, ec.1.1)))) ->
  fits n count f -> fits n count g.
Proof.
  intros Hle Harc Hf ec Hec. eapply Qle_trans; [|exact (Hf ec Hec)]. destruct (Harc ec Hec) as [[ab Hab] [ba Hba]].
  apply qsum_le. intros k Hk%elem_of_seq. unfold at_arc. apply Qplus_le_compat; [by apply (Hle k _ ab); [|lia]|by apply (Hle k _ ba); [|lia]].
Qed.

(** The third program as a solution of the second without slack: each flow is cut to
    the part that is not the rest. *)
Definition thin (lambda_star : Q) (eta : Q) (c : CommodityDemand) : Q :=
  let r := dq c + lambda_star * rq c in if Qle_bool (r + eta) 0 then 1 else r / (r + eta).

Definition drains_ok (active : list CommodityDemand) : Prop := forall c, c ∈ active -> 0 <= dq c.

Lemma c_remaining_nonneg c : 0 <= rq c.
Proof. exact (proj1 (proj2 (qmax_spec _ 0))). Qed.

Lemma rate_nonneg l c : 0 <= l -> 0 <= dq c -> 0 <= dq c + l * rq c.
Proof. intros Hl Hc. pose proof (Qmult_le_0_compat _ _ Hl (c_remaining_nonneg c)). lra. Qed.

Lemma sigma_max_nonneg sd (t : num) c : 0 <= (sigma_max sd t c : Q).
Proof. unfold sigma_max. destruct sd; [apply Qle_refl|]. apply Qmult_le_0_compat; exact (proj1 (proj2 (qmax_spec _ 0))). Qed.

Lemma thin_spec l eta c : 0 <= l -> 0 <= eta -> 0 <= dq c ->
  0 <= thin l eta c /\ thin l eta c <= 1 /\ thin l eta c * (dq c + l * rq c + eta) == dq c + l * rq c.
Proof.
  intros Hl He Hc. pose proof (rate_nonneg l c Hl Hc) as Hr. unfold thin. set (r := dq c + l * rq c) in *. cbv zeta.
  destruct (qle_spec (r + eta) 0) as [Hz|Hz]; [split_and!; lra|]. split_and!.
  - apply qdiv_nonneg; lra.
  - apply Qle_shift_div_r; lra.
  - field. lra.
Qed.

(** Variables of the second program from those of the third. *)
Definition relabel (n : LpNet) (active : list CommodityDemand) (lambda_star : Q) (v : nat -> Q) (i : nat) : Q :=
  let m := (length active * length (nt_arcs n))%nat in
  if Nat.eqb i 0 then lambda_star else if Nat.leb i m
  then match active !! ((i - 1) / length (nt_arcs n))%nat with Some c => thin lambda_star (v (eta_var n active ((i - 1) / length (nt_arcs n)))) c | None => 0 end * v (i - 1)%nat
  else 0.

Lemma relabel_x n active l v k a c ab : active !! k = Some c -> nt_arcs n !! a = Some ab ->
  relabel n active l v (xvar 1 n k a) = thin l (v (eta_var n active k)) c * v (xvar 0 n k a).
Proof.
  intros Hk Ha. pose proof (lookup_lt_Some _ _ _ Hk). pose proof (lookup_lt_Some _ _ _ Ha). unfold relabel, xvar. set (A := length (nt_arcs n)) in *.
  destruct (Nat.eqb_spec (1 + k * A + a) 0); [lia|]. destruct (Nat.leb_spec (1 + k * A + a) (length active * A)) as [_|Hgt]; [|nia].
  replace (1 + k * A + a - 1)%nat with (a + k * A)%nat by lia. rewrite Nat.div_add, Nat.div_small, Nat.add_0_l, Hk by lia. do 2 f_equal. lia.
Qed.

Lemma relabel_sigma n active l v k : relabel n active l v (sigma_var n active k) = 0.
Proof. unfold relabel, sigma_var. destruct (Nat.eqb_spec (1 + length active * length (nt_arcs n) + k) 0); [lia|]. destruct (Nat.leb_spec (1 + length active * length (nt_arcs n) + k) (length active * length (nt_arcs n))); [lia|done]. Qed.

Lemma carries_ext n c f g r r' : (forall a ab, nt_arcs n !! a = Some ab -> f a = g a) -> r == r' -> carries n c f r -> carries n c g r'.
Proof.
  intros Hfg Er [Hpos Hnet]. split; [intros a ab Ha; rewrite <- (Hfg a ab Ha); by apply Hpos|]. intros node Hn. transitivity (net n f node).
  - unfold net. assert (E : imap (fun a ab => side ab node * g a) (nt_arcs n) = imap (fun a ab => side ab node * f a) (nt_arcs n)); [|by rewrite E].
    apply list_eq. intros i. rewrite !list_lookup_imap. destruct (nt_arcs n !! i) as [ab|] eqn:E; [|done]. cbn. by rewrite (Hfg i ab E).
  - rewrite (Hnet node Hn). destruct (String.eqb node _); [exact Er|]. destruct (String.eqb node _); [by apply Qopp_comp|reflexivity].
Qed.

(** The arcs of an edge are arcs. *)
Definition net_ok (n : LpNet) : Prop :=
  forall ec : Edge * num, ec ∈ nt_undirected n -> is_Some (nt_arcs n !! default 0%nat (nt_idx n !! ec.1)) /\ is_Some (nt_arcs n !! default 0%nat (nt_idx n !! (ec.1.2, ec.1.1))).

Lemma eta_solves_lambda sd n active (t l : num) v : net_ok n -> drains_ok active -> 0 <= (l : Q) -> feasible (eta_lp n active l) v -> feasible (lambda_lp sd n active t) (relabel n active l v).
Proof.
  intros Hn Hd Hl [Hk Hfit]%eta_feasible. apply lambda_feasible. change (relabel n active l v 0%nat) with (l : Q). split_and!; [done| |].
  - intros k c Hc. rewrite relabel_sigma. destruct (Hk k c Hc) as [[He _] Hcar]. assert (Hdc : 0 <= dq c) by (apply Hd; by eapply list_elem_of_lookup_2).
    destruct (thin_spec l _ c Hl He Hdc) as (Ht0 & Ht1 & Ht). split; [split; [apply Qle_refl|apply sigma_max_nonneg]|].
    eapply carries_ext; [|..|exact (carries_scale n c _ _ _ Ht0 Hcar)].
    + intros a ab Ha. symmetry. by apply (relabel_x n active l v k a c ab).
    + unfold eta_rate, lambda_rate. rewrite relabel_sigma. change (relabel n active l v 0%nat) with (l : Q). rewrite Ht. ring.
  - eapply fits_le; [|exact Hn|exact Hfit]. intros k a ab Ha Hlt. destruct (lookup_lt_is_Some_2 active k Hlt) as [c Hc]. rewrite (relabel_x n active l v k a c ab Hc Ha).
    destruct (Hk k c Hc) as [[He _] [Hpos _]]. assert (Hdc : 0 <= dq c) by (apply Hd; by eapply list_elem_of_lookup_2).
    destruct (thin_spec l _ c Hl He Hdc) as (Ht0 & Ht1 & _). destruct (Hpos a ab Ha) as [Hx _]. assert (thin l (v (eta_var n active k)) c * v (xvar 0 n k a) <= 1 * v (xvar 0 n k a)) by by apply Qmult_le_compat_r. lra.
Qed.

(** ** Where the arcs are *)

Definition both_arcs (und : list (Edge * num)) : list Edge := concat (map (fun ec : Edge * num => [ec.1; (ec.1.2, ec.1.1)]) und).

Lemma lp_arcs_spec (und : list (Edge * num)) : (lp_arcs und).1 = both_arcs und /\
  (NoDup (both_arcs und) -> forall i ab, both_arcs und !! i = Some ab -> (lp_arcs und).2 !! ab = Some i).
Proof.
  unfold lp_arcs, both_arcs. induction und as [|[[a b] cap] und [IH1 IH2]] using rev_ind; [done|]. rewrite fold_left_app, map_app, concat_app. cbn [fold_left map concat app fst snd].
  destruct (fold_left push_edge und ([], ∅)) as [arcs idx]. cbn [fst snd] in IH1, IH2. subst arcs. cbn [push_edge fst snd]. split; [done|].
  set (old := concat _) in *. intros Hnd i ab Hi. apply NoDup_app in Hnd as (Hold & Hsep & Hnew). specialize (IH2 Hold).
  assert (Hab : (a, b) <> (b, a)) by (apply NoDup_cons in Hnew as [Hn _]; intros E; apply Hn, list_elem_of_singleton; exact E).
  apply lookup_app_Some in Hi as [Hi|[Hge Hi]].
  - pose proof (list_elem_of_lookup_2 _ _ _ Hi) as Hin. pose proof (Hsep ab Hin) as Hout. rewrite !lookup_insert_ne; [by apply IH2|..]; intros E; apply Hout; rewrite <- E; set_solver.
  - remember (i - length old)%nat as j eqn:Ej. destruct j as [|[|j]]; [injection Hi as <-|injection Hi as <-|done].
    + rewrite lookup_insert_ne by done. rewrite lookup_insert_eq. f_equal. lia.
    + rewrite lookup_insert_eq. f_equal. lia.
Qed.

Lemma both_arcs_elem und ab : ab ∈ both_arcs und <-> exists ec, ec ∈ und /\ (ab = ec.1 \/ ab = (ec.1.2, ec.1.1)).
Proof.
  unfold both_arcs. rewrite concat_elem. split.
  - intros (l & (ec & -> & Hec)%list_elem_of_fmap & Hab). exists ec. split; [done|]. set_solver.
  - intros (ec & Hec & Hab). exists [ec.1; (ec.1.2, ec.1.1)]. split; [apply list_elem_of_fmap; by exists ec|set_solver].
Qed.

Definition keys_ok (und : list (Edge * num)) : Prop := forall ec, ec ∈ und -> edge_key ec.1.1 ec.1.2 = ec.1 /\ ec.1.1 <> ec.1.2.

Lemma both_arcs_nodup und : NoDup (map fst und) -> keys_ok und -> NoDup (both_arcs und).
Proof.
  induction und as [|[[a b] cap] und IH]; intros Hnd Hk; [constructor|]. cbn [map] in Hnd. apply NoDup_cons in Hnd as [Hn Hnd]. destruct (Hk ((a, b), cap)) as [Hkey Hne]; [by left|]. cbn [fst snd] in *.
  assert (Hnew : forall ab, ab ∈ both_arcs und -> edge_key ab.1 ab.2 <> (a, b)).
  { intros ab (ec & Hec & Hab)%both_arcs_elem E. destruct (Hk ec) as [Hkey' _]; [by right|]. apply Hn. apply list_elem_of_fmap. exists ec. split; [|done]. rewrite <- E, <- Hkey'.
    destruct Hab as [->| ->]; [done|]. cbn [fst snd]. apply edge_key_sym. }
  unfold both_arcs. cbn [map concat app fst snd]. fold (both_arcs und). constructor.
  - intros [[= E _]|Hin]%elem_of_cons; [done|]. by apply (Hnew _ Hin).
  - constructor; [|apply IH; [done|]; intros ec Hec; apply Hk; by right]. intros Hin. apply (Hnew _ Hin). cbn [fst snd]. by rewrite edge_key_sym.
Qed.

Section Network.
Context `{!MapOrder Edge} (inputs : McmcfInputs).
Context (Hkeys : forall a b, is_Some (mi_edge_capacity inputs !! (a, b)) -> edge_key a b = (a, b) /\ a <> b).
Let n : LpNet := lp_net inputs.

Lemma net_parts : nt_arcs n = both_arcs (map_iter (edge_caps inputs)) /\ nt_undirected n = map_iter (edge_caps inputs) /\ nt_inputs n = inputs /\ nt_nodes n = lp_nodes (nt_arcs n) /\
  forall i ab, nt_arcs n !! i = Some ab -> nt_idx n !! ab = Some i.
Proof.
  unfold n, lp_net. destruct (lp_arcs_spec (map_iter (edge_caps inputs))) as [E1 E2]. destruct (lp_arcs _) as [arcs idx]. cbn [fst snd nt_arcs nt_idx nt_undirected nt_inputs nt_nodes] in *. subst arcs.
  split_and!; [done..|]. apply E2, both_arcs_nodup.
  - rewrite map_iter_perm. apply NoDup_fst_map_to_list.
  - intros [[a b] cap] Hec%map_iter_elem. apply (Hkeys a b). unfold edge_caps in Hec. rewrite lookup_fmap in Hec. apply fmap_Some in Hec as (x & Hx & _). by exists x.
Qed.

Lemma arc_at ab : ab ∈ nt_arcs n -> nt_arcs n !! default 0%nat (nt_idx n !! ab) = Some ab.
Proof. destruct net_parts as (_ & _ & _ & _ & Hidx). intros [i Hi]%list_elem_of_lookup. by rewrite (Hidx i ab Hi). Qed.

Lemma network_ok : net_ok n.
Proof.
  destruct net_parts as (Ea & Eu & _). intros ec Hec. rewrite Eu in Hec. split; (eexists; apply arc_at; rewrite Ea; apply both_arcs_elem; exists ec; auto).
Qed.



(** ** Pairs that no link joins *)

Context (active : list CommodityDemand) (Hdrains : drains_ok active).

Lemma nodes_nodup : NoDup (nt_nodes n).
Proof. destruct net_parts as (_ & _ & _ & -> & _). unfold lp_nodes. apply NoDup_elements. Qed.

Lemma node_of_arc ab : ab ∈ nt_arcs n -> ab.1 ∈ nt_nodes n /\ ab.2 ∈ nt_nodes n.
Proof.
  destruct net_parts as (_ & _ & _ & -> & _). intros Hab. unfold lp_nodes.
  split; apply elem_of_elements, elem_of_list_to_set, concat_elem; exists [ab.1; ab.2]; (split; [apply list_elem_of_fmap; by exists ab|set_solver]).
Qed.

Lemma sum_indicator (x : string) l : NoDup l -> qsum (map (fun y => if String.eqb x y then 1 else 0) l) == (if decide (x ∈ l) then 1 else 0).
Proof.
  induction 1 as [|y l Hy Hnd IH]; cbn [map qsum foldr]; [by rewrite decide_False by set_solver|]. unfold qsum in IH. rewrite IH. destruct (String.eqb_spec x y) as [->|Hne].
  - rewrite (decide_False (P := y ∈ l)) by done. rewrite decide_True by set_solver. reflexivity.
  - destruct (decide (x ∈ l)); [rewrite decide_True by set_solver|rewrite decide_False by set_solver]; reflexivity.
Qed.

Lemma sum_nets (f : nat -> Q) (l : list string) (arcs : list Edge) : (forall ab, ab ∈ arcs -> qsum (map (side ab) l) == 0) ->
  forall g : nat -> nat, qsum (map (fun node => qsum (imap (fun a ab => side ab node * f (g a)) arcs)) l) == 0.
Proof.
  intros Hz. induction arcs as [|ab arcs IH]; intros g; cbn [imap qsum foldr]; [by apply qsum_zero|]. rewrite (qsum_plus (fun node => side ab node * f (g 0%nat))).
  assert (E : qsum (map (fun node => side ab node * f (g 0%nat)) l) == f (g 0%nat) * qsum (map (side ab) l)) by (rewrite <- qsum_scale; apply qsum_ext; intros node _; ring).
  rewrite E, (Hz ab) by (by left). specialize (IH ltac:(intros ab' H'; apply Hz; by right) (g ∘ S)). unfold qsum, compose in *. rewrite IH. ring.
Qed.

(** Nothing flows across a line no arc crosses. *)
Lemma cut_sum c f r (P : string -> bool) : (forall ab, ab ∈ nt_arcs n -> P ab.1 = P ab.2) -> carries n c f r ->
  qsum (map (fun node => if String.eqb node (src_of n c) then r else if String.eqb node (dst_of n c) then - r else 0) (List.filter P (nt_nodes n))) == 0.
Proof.
  intros HP [_ Hnet]. set (l := List.filter P (nt_nodes n)).
  assert (Hl : forall x, x ∈ l <-> P x = true /\ x ∈ nt_nodes n) by (intros x; unfold l; rewrite !list_elem_of_In, filter_In; tauto).
  assert (Hnd : NoDup l) by (unfold l; apply NoDup_ListNoDup, List.NoDup_filter, NoDup_ListNoDup, nodes_nodup).
  rewrite <- (sum_nets f l (nt_arcs n)) with (g := id).
  - apply qsum_ext. intros node [_ Hn]%Hl. symmetry. exact (Hnet node Hn).
  - intros ab Hab. unfold side. destruct (node_of_arc ab Hab) as [H1 H2]. pose proof (HP ab Hab) as Heq.
    assert (E : qsum (map (fun node => (if String.eqb ab.1 node then 1 else 0) - (if String.eqb ab.2 node then 1 else 0)) l) ==
      qsum (map (fun node => if String.eqb ab.1 node then 1 else 0) l) + - (1) * qsum (map (fun node => if String.eqb ab.2 node then 1 else 0) l)).
    { rewrite <- qsum_scale, <- qsum_plus. apply qsum_ext. intros node _. ring. }
    rewrite E, !sum_indicator by done. destruct (decide (ab.1 ∈ l)) as [Ha|Ha], (decide (ab.2 ∈ l)) as [Hb|Hb]; rewrite Hl in Ha, Hb; try reflexivity; exfalso; rewrite Heq in Ha; tauto.
Qed.

Lemma cut_zero c f r (P : string -> bool) : (forall ab, ab ∈ nt_arcs n -> P ab.1 = P ab.2) -> carries n c f r -> P (src_of n c) = true -> P (dst_of n c) = false ->
  src_of n c ∈ nt_nodes n \/ dst_of n c ∈ nt_nodes n -> r == 0.
Proof.
  intros HP Hc Hs Hd Hends.
  assert (Hone : forall (Q0 : string -> bool) x y, (forall ab, ab ∈ nt_arcs n -> Q0 ab.1 = Q0 ab.2) -> Q0 x = true -> Q0 y = false -> x ∈ nt_nodes n ->
    forall s, qsum (map (fun node => s * (if String.eqb x node then 1 else 0)) (List.filter Q0 (nt_nodes n))) == s).
  { intros Q0 x y _ Hx _ Hin s. rewrite qsum_scale, sum_indicator by (apply NoDup_ListNoDup, List.NoDup_filter, NoDup_ListNoDup, nodes_nodup).
    rewrite decide_True by (apply list_elem_of_In, filter_In; split; [by apply list_elem_of_In|done]). ring. }
  assert (Hin : forall (Q0 : string -> bool) node, node ∈ List.filter Q0 (nt_nodes n) -> Q0 node = true) by (intros Q0 node Hn; apply list_elem_of_In, filter_In in Hn; tauto).
  destruct Hends as [Hn|Hn].
  - rewrite <- (Hone P (src_of n c) (dst_of n c) HP Hs Hd Hn r), <- (cut_sum c f r P HP Hc). apply qsum_ext. intros node Hnode%Hin. rewrite (String.eqb_sym node).
    destruct (String.eqb_spec (src_of n c) node); [ring|]. destruct (String.eqb_spec node (dst_of n c)) as [->|]; [congruence|ring].
  - set (P' := fun x => negb (P x)). assert (HP' : forall ab, ab ∈ nt_arcs n -> P' ab.1 = P' ab.2) by (intros ab Hab; unfold P'; by rewrite (HP ab Hab)).
    assert (Hz : - r == 0); [|rewrite <- (Qopp_involutive r), Hz; reflexivity].
    rewrite <- (Hone P' (dst_of n c) (src_of n c) HP' ltac:(unfold P'; by rewrite Hd) ltac:(unfold P'; by rewrite Hs) Hn (- r)), <- (cut_sum c f r P' HP' Hc). apply qsum_ext. intros node Hnode%Hin. unfold P' in Hnode.
    rewrite (String.eqb_sym (dst_of n c)). destruct (String.eqb_spec node (src_of n c)) as [->|]; [by rewrite Hs in Hnode|]. destruct (String.eqb node (dst_of n c)); ring.
Qed.

Lemma qmax_nonneg x : 0 <= x -> qmax x 0 == x.
Proof. intros Hx. unfold qmax. destruct (qle_spec x 0); lra. Qed.

Lemma sigma_below sd (t : num) c : 0 <= (t : Q) -> 0 <= dq c -> (sigma_max sd t c : Q) <= dq c.
Proof.
  intros Ht Hc. unfold sigma_max. destruct sd; [exact Hc|]. change (qmax (dq c) 0 * qmax (1 - (t : Q)) 0 <= dq c). destruct (qmax_spec (dq c) 0) as (_ & H0 & _). pose proof (qmax_nonneg _ Hc) as E.
  assert (H1 : qmax (1 - (t : Q)) 0 <= 1) by (destruct (qmax_spec (1 - (t : Q)) 0) as (_ & _ & [->| ->]); lra).
  assert (Hm : qmax (dq c) 0 * qmax (1 - (t : Q)) 0 <= qmax (dq c) 0 * 1) by by apply qmul_le_l. lra.
Qed.

(** The common fill of a program in which such a pair has room. *)
Lemma cut_lambda sd (t : num) v k c (P : string -> bool) : (forall ab, ab ∈ nt_arcs n -> P ab.1 = P ab.2) -> 0 <= (t : Q) -> feasible (lambda_lp sd n active t) v -> active !! k = Some c -> 0 < rq c ->
  P (src_of n c) = true -> P (dst_of n c) = false -> src_of n c ∈ nt_nodes n \/ dst_of n c ∈ nt_nodes n -> v 0%nat == 0.
Proof.
  intros HP Ht Hf Hk Hr Hs Hd Hends. pose proof (proj1 (lambda_feasible _ _ _ _ _) Hf) as (H0 & Hall & _). destruct (Hall k c Hk) as [[_ Hsig] Hcar].
  pose proof (cut_zero c _ _ P HP Hcar Hs Hd Hends) as Hz. assert (Hc : 0 <= dq c) by (apply Hdrains; by eapply list_elem_of_lookup_2).
  pose proof (sigma_below sd t c Ht Hc) as Hb. unfold lambda_rate in Hz. change (@num EA) with Q in Hb, Hsig, Hz.
  assert (Hle : v 0%nat * rq c <= 0) by lra. apply Qle_antisym; [|exact H0]. destruct (Qlt_le_dec 0 (v 0%nat)) as [Hlt|]; [|done].
  assert (0 < v 0%nat * rq c) by by apply Qmult_lt_0_compat. lra.
Qed.

(** ** Points of the programs and flows *)











End Network.

(** What the inputs of the controller are like. *)
Record inputs_ok (inputs : McmcfInputs) : Prop := {
  io_keys : forall a b, is_Some (mi_edge_capacity inputs !! (a, b)) -> edge_key a b = (a, b) /\ a <> b;
  io_caps : forall e x, mi_edge_capacity inputs !! e = Some x -> 0 <= f64_value x;
  io_drains : forall c, c ∈ mi_commodities inputs -> 0 <= f64_value (cd_drain_rate c)
}.

Lemma active_drains inputs : inputs_ok inputs -> drains_ok (active_of inputs).
Proof. intros Hok c Hc. apply (io_drains _ Hok). unfold active_of in Hc. apply list_elem_of_In, filter_In in Hc as [Hc _]. by apply list_elem_of_In. Qed.


Context `{!MapOrder Edge}.


(** A point of the third program gives one of the second without unmet drain, whatever
    the floor: where the network carries the extra rates it carries the fill alone. *)
Theorem third_program_needs_no_slack inputs sd (floor l : num) v : inputs_ok inputs -> 0 <= (l : Q) ->
  feasible (eta_lp (lp_net inputs) (active_of inputs) l) v ->
  exists v', feasible (lambda_lp sd (lp_net inputs) (active_of inputs) floor) v' /\ v' 0%nat = (l : Q) /\
    forall k, v' (sigma_var (lp_net inputs) (active_of inputs) k) = 0.
Proof.
  intros Hok Hl Hf. exists (relabel (lp_net inputs) (active_of inputs) l v). split_and!; [|done|apply relabel_sigma].
  apply eta_solves_lambda; [exact (network_ok inputs (io_keys _ Hok))|exact (active_drains _ Hok)|exact Hl|exact Hf].
Qed.

(** One pair that no link joins, with room in its buffer: the second program has no
    point with a common fill above zero, for any commodity of the network.  [P] is one
    side of the network. *)
Theorem cut_off_pair_stops_the_fill inputs (P : string -> bool) sd (floor : num) v k c : inputs_ok inputs ->
  (forall a b, is_Some (mi_edge_capacity inputs !! (a, b)) -> P a = P b) -> active_of inputs !! k = Some c -> 0 < (c_remaining c : Q) ->
  let src := src_of (lp_net inputs) c in let dst := dst_of (lp_net inputs) c in
  P src = true -> P dst = false -> src ∈ nt_nodes (lp_net inputs) \/ dst ∈ nt_nodes (lp_net inputs) ->
  0 <= (floor : Q) -> feasible (lambda_lp sd (lp_net inputs) (active_of inputs) floor) v -> v 0%nat == 0.
Proof.
  intros Hok HP Hk Hr src dst Hs Hd Hends Ht Hf. eapply (cut_lambda inputs (io_keys _ Hok)); [exact (active_drains _ Hok)| |exact Ht|exact Hf|exact Hk|exact Hr|exact Hs|exact Hd|exact Hends].
  intros ab Hab. destruct (net_parts inputs (io_keys _ Hok)) as (Ea & _). rewrite Ea in Hab. apply both_arcs_elem in Hab as ([[a b] cap] & Hec%map_iter_elem & Hab).
  assert (E : P a = P b) by (apply HP; unfold edge_caps in Hec; rewrite lookup_fmap in Hec; apply fmap_Some in Hec as (x & Hx & _); by exists x).
  destruct Hab as [->| ->]; [exact E|by symmetry].
Qed.

Lemma r_k_nonneg (l : num) (sigmas etas : list num) k c : 0 <= (l : Q) -> Forall (fun x : num => 0 <= (x : Q)) etas -> 0 <= (r_k l sigmas etas k c : Q).
Proof.
  intros Hl He. unfold r_k. change (@nadd EA) with Qplus. change (@nmul EA) with Qmult. pose proof (Qmult_le_0_compat _ _ Hl (c_remaining_nonneg c)) as Hx.
  assert (H0 : 0 <= (default nzero (etas !! k) : Q)).
  { destruct (etas !! k) as [x|] eqn:E; [|apply Qle_refl]. by apply (proj1 (Forall_lookup _ _) He k x E). }
  change 0 with (0 + 0 + 0). repeat apply Qplus_le_compat; [exact (proj1 (proj2 (qmax_spec _ 0)))|exact Hx|exact H0].
Qed.

Lemma rates_of_entries active xs key (x : num) : as_rates_grade (rates_of active xs) !! key = Some x -> x ∈ xs.
Proof.
  unfold rates_of. enough (Hg : forall l sol, as_rates_grade (fold_left add_rate_k l sol) !! key = Some x -> as_rates_grade sol !! key = Some x \/ x ∈ map snd l).
  { intros [Hx|Hx]%Hg; [cbn [as_rates_grade] in Hx; by rewrite lookup_empty in Hx|]. apply list_elem_of_fmap in Hx as ([c y] & -> & Hcy). cbn [snd]. by eapply elem_of_zip_r. }
  intros l. induction l as [|[c y] l IH]; intros sol Hx; [by left|]. cbn [fold_left] in Hx. apply IH in Hx as [Hx|Hx]; [|right; by right].
  unfold add_rate_k in Hx. cbn [as_rates_grade fst snd] in Hx. apply lookup_insert_Some in Hx as [[_ <-]|[_ Hx]]; [right; by left|by left].
Qed.

Lemma clean_nonneg (r : num) : 0 <= (r : Q) -> 0 <= (clean r : Q).
Proof. intros Hr. unfold clean. destruct (nlt _ _); [apply Qle_refl|exact Hr]. Qed.

Lemma etas_nonneg `{!LpCrates} b lex n active (l : num) : Forall (fun x : num => 0 <= (x : Q)) (p2_eta (phase2 b lex n active l)).
Proof.
  assert (Hz : Forall (fun x : num => 0 <= (x : Q)) (replicate (length active) nzero)) by (apply Forall_replicate, Qle_refl).
  unfold phase2, solve_eta. destruct lex; [exact Hz|]. destruct (solve_lp_backend _ _); [|exact Hz]. apply Forall_imap. intros k c _. exact (proj1 (proj2 (qmax_spec _ 0))).
Qed.

(** Whatever the back end answers, or fails to, no published rate is negative. *)
Theorem rates_never_negative `{!LpCrates} e inputs key (x : num) : inputs_ok inputs -> as_rates_grade (so_rates (solve e inputs)) !! key = Some x -> 0 <= (x : Q).
Proof.
  intros Hok. pose proof (active_drains _ Hok) as Hd. unfold solve. destruct (_ || _); [done|]. destruct (negb _).
  { cbn [so_rates]. intros (c & -> & Hc)%rates_of_entries%list_elem_of_fmap. by apply Hd. }
  destruct (phase1 _ _ _ _ _) as [[l sigmas]|] eqn:Hp.
  - cbn [so_rates]. intros Hx%rates_of_entries. revert x Hx. apply Forall_forall, Forall_imap. intros k c _. apply clean_nonneg, r_k_nonneg; [|apply etas_nonneg].
    assert (Hl : forall t, solve_lambda (lp_backend e) (env_flag (lv_disable_slack e)) (lp_net inputs) (active_of inputs) t = Some (l, sigmas) -> 0 <= (l : Q)).
    { unfold solve_lambda. intros t (v & _ & [= -> _])%fmap_Some. exact (proj1 (proj2 (qmax_spec _ 0))). }
    unfold phase1 in Hp. destruct (solve_lambda _ _ _ _ _) as [[l' s']|] eqn:E; [injection Hp as -> ->; by eapply Hl|]. destruct (nlt _ _); [by eapply Hl|done].
  - unfold zero_rate_fallback. cbn [so_rates]. intros (c & -> & _)%rates_of_entries%list_elem_of_fmap. apply Qle_refl.
Qed.
End Exact.

(** ** Two halves of a network *)

#[local] Abbreviation tiny := (EA (fun x _ => x)).
#[local] Open Scope Q_scope.

Definition row_okb (v : nat -> Q) (c : @Constraint tiny) : bool :=
  match co_sense c with CEq => Qeq_bool (lin _ v (co_expr c)) (co_rhs c) | CLeq => Qle_bool (lin _ v (co_expr c)) (co_rhs c) end.
Definition var_okb (v : nat -> Q) (d : @VarDef tiny) : bool :=
  Qle_bool (vd_min d) (v (vd_id d)) && match vd_max d with Some m => Qle_bool (v (vd_id d)) m | None => true end.

Lemma feasible_compute (p : @Lp tiny) v : forallb (var_okb v) (lp_vars p) && forallb (row_okb v) (lp_cons p) = true -> feasible _ p v.
Proof.
  rewrite andb_true_iff, !forallb_forall. intros [Hv Hc]. split; apply Forall_forall; intros x Hx%list_elem_of_In.
  - specialize (Hv x Hx). unfold var_okb in Hv. apply andb_true_iff in Hv as [H1%Qle_bool_iff H2]. split; [exact H1|]. revert H2. destruct (vd_max x); [exact (proj1 (Qle_bool_iff _ _))|done].
  - specialize (Hc x Hx). unfold row_okb in Hc. unfold row_ok. revert Hc. destruct (co_sense x); [exact (proj1 (Qeq_bool_iff _ _))|exact (proj1 (Qle_bool_iff _ _))].
Qed.

Definition split_demand : CommodityDemand := mkDemand "d1" "d3" f_zero (f_of_Z 400) f_zero 0 GradePqc.
Definition split_inputs : McmcfInputs :=
  mkInputs [split_demand] (<[("1", "2")%string := f_of_Z 100]> {[ ("3", "4")%string := f_of_Z 100 ]}) (<["d1" := "1"]> {[ "d3" := "3" ]})%string ∅.
Definition split_net : @LpNet tiny := @lp_net tiny (list_order Edge) split_inputs.
Definition left_half (q : string) : bool := String.eqb q "1" || String.eqb q "2".

Lemma split_edges a b x : mi_edge_capacity split_inputs !! (a, b) = Some x -> ((a, b) = ("1", "2")%string \/ (a, b) = ("3", "4")%string) /\ x = f_of_Z 100.
Proof. cbn [split_inputs mi_edge_capacity]. intros [[<- <-]|[_ [<- <-]%lookup_singleton_Some]]%lookup_insert_Some; auto. Qed.

Lemma split_inputs_ok : inputs_ok split_inputs.
Proof.
  constructor.
  - intros a b [x [[[= -> ->]|[= -> ->]] _]%split_edges]; by split.
  - intros [a b] x [_ ->]%split_edges. by vm_compute.
  - intros c ->%list_elem_of_singleton. apply Qle_refl.
Qed.

Lemma split_sides ab : ab ∈ nt_arcs split_net -> left_half ab.1 = left_half ab.2.
Proof. assert (E : nt_arcs split_net = [("3", "4"); ("4", "3"); ("1", "2"); ("2", "1")]%string) by (vm_compute; reflexivity). rewrite E. set_unfold. intros Hab. repeat (destruct Hab as [->|Hab]; [done|]). done. Qed.

Lemma cut_off_pair_stops_the_fill_witness :
  feasible _ (@lambda_lp tiny false split_net (active_of split_inputs) nzero) (fun _ => 0) /\
  forall v, feasible _ (@lambda_lp tiny false split_net (active_of split_inputs) nzero) v -> v 0%nat == 0.
Proof.
  split; [apply feasible_compute; vm_compute; reflexivity|]. intros v.
  apply (@cut_off_pair_stops_the_fill (fun x _ => x) (list_order Edge) split_inputs left_half false nzero v 0%nat split_demand split_inputs_ok).
  - intros a b [x [[[= -> ->]|[= -> ->]] _]%split_edges]; done.
  - by vm_compute.
  - by vm_compute.
  - by vm_compute.
  - by vm_compute.
  - left. apply (bool_decide_unpack _). vm_compute. reflexivity.
  - apply Qle_refl.
Defined.

(** A back end that answers out of bounds. *)
Definition wild_value (i : nat) : Q := if Nat.eqb i 0 then -(1) else 30.
Definition wild_point : nat -> @num tiny := wild_value.
Definition wild_crates : @LpCrates tiny :=
  {| microlp_solve := fun _ => None; clarabel_solve := fun _ => None; highs_solve := fun _ => Some wild_point |}.

Lemma rates_never_negative_witness : let crates := wild_crates in
  exists x : Q, as_rates_grade (so_rates (@solve tiny crates (list_order Edge) (mkLpEnv None None None) split_inputs)) !! ("d1->d3"%string, GradePqc) = Some x /\ 0 <= x.
Proof.
  intros crates. destruct (as_rates_grade (so_rates (@solve tiny crates (list_order Edge) (mkLpEnv None None None) split_inputs)) !! ("d1->d3"%string, GradePqc)) as [x|] eqn:E; [|vm_compute in E; discriminate E].
  exists x. split; [reflexivity|]. exact (@rates_never_negative (fun x _ => x) (list_order Edge) crates (mkLpEnv None None None) split_inputs _ x split_inputs_ok E).
Defined.

(** ** Full buffers

    When no buffer has room the drains are published as they are, and no program is
    solved: a pair that drains five thousand is promised them over a link of a
    hundred. *)
Definition full_inputs : McmcfInputs :=
  mkInputs [mkDemand "d1" "d2" (f_of_Z 400) (f_of_Z 400) (f_of_Z 5000) 0 GradePqc] {[ ("1", "2")%string := f_of_Z 100 ]} (<["d1" := "1"]> {[ "d2" := "2" ]})%string ∅.

Theorem full_buffers_skip_the_links `{Libm, !@LpCrates float_arith, !MapOrder Edge} e :
  as_rates_grade (so_rates (@solve float_arith _ _ e full_inputs)) !! ("d1->d2"%string, GradePqc) = Some (f_of_Z 5000).
Proof. vm_compute. reflexivity. Qed.

(** ** With the rest of the controller *)

Definition lp_recompute `{Libm, HashOrder, !MapOrder Edge, !MapOrder (string * KeyGrade), !@LpCrates float_arith} (e : LpEnv) :=
  recompute_mcf_inner (fun inputs => to_solution (so_rates (@solve float_arith _ _ e inputs))).

(** Whatever the back end does, the controller publishes a snapshot. *)
Theorem lp_recompute_gives_a_snapshot `{Libm, HashOrder, !MapOrder Edge, !MapOrder (string * KeyGrade), !@LpCrates float_arith} e fuel p st ops registry :
  is_Some (lp_recompute e fuel AllocLp p st (st_topo (sdn_run ops)) registry).
Proof.
  pose proof (go_sync _ (sdn_run_graph ops)) as Hs. destruct (wcmp_tables_spec _ None Hs) as (wf & Ef & _), (wcmp_tables_spec _ (Some GradeQkd) Hs) as (wq & Eq & _).
  unfold lp_recompute, recompute_mcf_inner, into_mcf_snapshot. rewrite Ef, Eq. cbn [mbind option_bind]. destruct (fold_left _ _ _). by eexists.
Qed.
