(* ===== verification/RateEstimator.v ===== *)
(** * The rate of a QKD link, measured (qkc/src/rate_estimator.rs)

    A relay does not know how fast its KME makes keys.  It polls the stock of the
    KME, counts the keys that leave it, and what the balance of an interval says was
    produced goes into windows; the estimate is the mean over the windows of the
    last half minute, and a change of level cuts the older ones off.  Intervals in
    which the stock came near its ceiling say nothing and are left out.

    [on_stock], [accept_window] and [report_at] are the code, over the class
    [Arith]; [stock_turn] is a turn of [stock_rate_loop] of qkc/src/keystore.rs, which
    polls and moves keys into the ring when the stock is near the ceiling.  [Lk] puts
    the estimator beside a KME that makes keys at an unknown rate and drops what does
    not fit.  Times are in nanoseconds. *)

From Stdlib Require Import ZArith QArith Qround Lqa Lia SpecFloat.
From S2P Require Import Prelude Text Float64 Arith Wire FrameMac QkcTypes SecretStore FrameAuth KeyStore Quditto KmeClient.

#[local] Open Scope Z_scope.

(** ** The estimator *)

Inductive RateQuality := Measured | Floor | Unavailable.
Definition quality_str (q : RateQuality) : string :=
  match q with Measured => "measured" | Floor => "floor" | Unavailable => "unavailable" end.

Definition FRESH_TTL : Z := 15 * NANOS_PER_SEC.
Definition ERR_STREAK_UNAVAILABLE : Z := 5.
Definition CEILING_GUARD_MIN : Z := 8.
Definition RUN_DOWN : Z := 3.
Definition RUN_UP : Z := 6.

(** [Instant::saturating_duration_since]. *)
Definition since (now at_ : Z) : Z := sat_sub now at_.

Section Estimator.
Context `{Arith}.

Definition WINDOW_MIN_KEYS : num := n_of_Z 256.
Definition WINDOW_MAX_SECS : num := n_of_Z 10.
Definition HORIZON_SECS : num := n_of_Z 30.
Definition SHORT_MIN_SECS : num := n_of_Z 5.
Definition SNAP_DEVIATION : num := nlit 25 100.
Definition MAX_SAMPLE_GAP_SECS : num := n_of_Z 30.

Record RateReport := mkReport { rr_keys_per_s : num; rr_quality : RateQuality; rr_age : Z }.
Record StockPoint := mkPoint { sp_stored : Z; sp_pulled_total : Z; sp_at : Z }.
Record WindowRec := mkWin { wr_keys : num; wr_secs : num; wr_at : Z }.

Record Inner := mkInner {
  in_last : option StockPoint;
  in_win_keys : num;
  in_win_secs : num;
  in_ring : list WindowRec;
  in_est : option num;
  in_last_valid_at : option Z;
  in_run_down : Z;
  in_run_up : Z;
  in_err_streak : Z;
}.
Record RateEstimator := mkRate { re_pulled : Z; re_inner : Inner }.
Definition rate_new : RateEstimator := mkRate 0 (mkInner None nzero nzero [] None None 0 0 0).

Definition with_point (p : option StockPoint) (streak : Z) (g : Inner) : Inner :=
  mkInner p (in_win_keys g) (in_win_secs g) (in_ring g) (in_est g) (in_last_valid_at g) (in_run_down g) (in_run_up g) streak.
Definition with_win (keys secs : num) (g : Inner) : Inner :=
  mkInner (in_last g) keys secs (in_ring g) (in_est g) (in_last_valid_at g) (in_run_down g) (in_run_up g) (in_err_streak g).
Definition with_ring (ring : list WindowRec) (est : option num) (valid : option Z) (down up : Z) (g : Inner) : Inner :=
  mkInner (in_last g) (in_win_keys g) (in_win_secs g) ring est valid down up (in_err_streak g).

Definition on_delivered (n : Z) (e : RateEstimator) : RateEstimator := mkRate (as_u 64 (re_pulled e + n)) (re_inner e).
Definition on_peer_drained (n : Z) (e : RateEstimator) : RateEstimator := mkRate (as_u 64 (re_pulled e + n)) (re_inner e).
Definition on_peer_drained_shortfall (n : Z) (e : RateEstimator) : RateEstimator := mkRate (sat_sub (re_pulled e) n) (re_inner e).

(** The calls the key store records. *)
Definition est_apply (e : RateEstimator) (c : est_call) : RateEstimator :=
  match c with
  | OnDelivered n => on_delivered n e
  | OnPeerDrained n => on_peer_drained n e
  | OnPeerDrainedShortfall n => on_peer_drained_shortfall n e
  end.

Definition on_stock_error (e : RateEstimator) : RateEstimator :=
  let g := re_inner e in
  mkRate (re_pulled e) (with_win nzero nzero (with_point None (sat_add 32 (in_err_streak g) 1) g)).

Definition sums (ws : list WindowRec) : num * num :=
  fold_left (fun '(k, s) w => (nadd k (wr_keys w), nadd s (wr_secs w))) ws (nzero, nzero).

(** The windows older than the horizon leave from the front. *)
Fixpoint drop_old (now : Z) (ring : list WindowRec) : list WindowRec :=
  match ring with
  | w :: rest => if nlt HORIZON_SECS (n_secs (since now (wr_at w))) then drop_old now rest else ring
  | [] => []
  end.

(** The last windows, newest first, until they cover [SHORT_MIN_SECS]. *)
Fixpoint short_span (ws : list WindowRec) (n_short : nat) (sk ss : num) : nat * num * num :=
  match ws with
  | [] => (n_short, sk, ss)
  | w :: ws =>
      let sk := nadd sk (wr_keys w) in let ss := nadd ss (wr_secs w) in
      if nle SHORT_MIN_SECS ss then (S n_short, sk, ss) else short_span ws (S n_short) sk ss
  end.

Definition level_run (g : Inner) (short long : num) : Z * Z :=
  let hi := nmul long (nadd none SNAP_DEVIATION) in
  let lo := nmul long (nsub none SNAP_DEVIATION) in
  if nlt short lo then (in_run_down g + 1, 0) else if nlt hi short then (0, in_run_up g + 1) else (0, 0).

Definition accept_window (g : Inner) (keys secs : num) (now : Z) : Inner :=
  let ring := drop_old now (in_ring g ++ [mkWin keys secs now]) in
  let '(lk, ls) := sums ring in
  if nle ls nzero then with_ring ring (in_est g) (in_last_valid_at g) (in_run_down g) (in_run_up g) g else
  let long := ndiv lk ls in
  let '(n_short, sk, ss) := short_span (rev ring) 0 nzero nzero in
  let short := if nlt nzero ss then ndiv sk ss else long in
  if nlt (nadd ss (nlit 1 1000000000)) ls then
    let '(down, up) := level_run g short long in
    if (RUN_DOWN <=? down) || (RUN_UP <=? up)
    then with_ring (drop (length ring - n_short) ring) (Some short) (Some now) 0 0 g
    else with_ring ring (Some long) (Some now) down up g
  else with_ring ring (Some long) (Some now) 0 0 g.

Definition ceiling_guard (est : option num) (dt : num) (max : Z) : Z :=
  let by_rate := n_as_u64 (match est with Some e => nmul (nmul e dt) (nlit 3 2) | None => nzero end) in
  Z.min (Z.max by_rate CEILING_GUARD_MIN) (max / 4).

(** The balance of the interval between two polls, added to the window. *)
Definition add_interval (g : Inner) (prev point : StockPoint) (dt : num) : Inner :=
  let pulled := sat_sub (sp_pulled_total point) (sp_pulled_total prev) in
  let contrib := nadd (nsub (n_of_Z (sp_stored point)) (n_of_Z (sp_stored prev))) (n_of_Z pulled) in
  let win_keys := nadd (in_win_keys g) contrib in
  let win_secs := nadd (in_win_secs g) dt in
  if nle WINDOW_MIN_KEYS win_keys || nle WINDOW_MAX_SECS win_secs then
    with_win nzero nzero (if nlt nzero win_secs then accept_window g (nmax win_keys nzero) win_secs (sp_at point) else g)
  else with_win win_keys win_secs g.

Definition on_stock (stored max now : Z) (e : RateEstimator) : RateEstimator :=
  let point := mkPoint stored (re_pulled e) now in
  let last := in_last (re_inner e) in
  let g := with_point (Some point) 0 (re_inner e) in
  mkRate (re_pulled e)
    match last with
    | None => g
    | Some prev =>
        let dt := n_secs (since now (sp_at prev)) in
        if nle dt nzero || nlt MAX_SAMPLE_GAP_SECS dt then with_win nzero nzero g else
        let guard := ceiling_guard (in_est g) dt max in
        if (max <=? sat_add 64 stored guard) || (max <=? sat_add 64 (sp_stored prev) guard) then with_win nzero nzero g
        else add_interval g prev point dt
    end.

Definition report_at (now : Z) (e : RateEstimator) : option RateReport :=
  let g := re_inner e in
  est ← in_est g; last ← in_last_valid_at g;
  let age := since now last in
  Some (mkReport est (if ERR_STREAK_UNAVAILABLE <=? in_err_streak g then Unavailable
                      else if age <=? FRESH_TTL then Measured else Floor) age).
End Estimator.

(** ** A turn of the poller *)

Definition STOCK_POLL : Z := 1000000000.
Definition STOCK_POLL_COLD : Z := 250000000.
Definition MAX_BANK_ROUNDS : nat := 16.

Section Poller.
Context `{Arith} {S : Type} `{KmeServer S} `{MacCrypto}.

(** What a turn works on: the estimator, the store, the authentication of the link
    and the frames for the outgoing queue. *)
Record Bank := mkBank { bk_est : RateEstimator; bk_keys : KeyStore; bk_auth : option LinkFrameAuth; bk_sent : list Frame }.

(** [bank_from]; [late] says which rounds take longer than [BANK_ENC_TIMEOUT]. *)
Fixpoint bank_loop (rounds : nat) (late : nat -> bool) (st : SecretStore) (max stored : Z) (c : KmeClient) (s : S) (b : Bank) : S * KmeClient * res FrameAuthError Bank :=
  match rounds with
  | O => (s, c, Ok b)
  | Datatypes.S rounds =>
      match bank_batch_size stored max (zlen (ks_enc (bk_keys b))) ENC_CAP with
      | None => (s, c, Ok b)
      | Some batch =>
          let '(s, c, r) := kme_enc_keys c s batch in
          if late rounds then (s, c, Ok b) else
          match r with
          | Ok keys =>
              match absorb_enc_keys (bk_keys b) (bk_auth b) st keys with
              | Ok (ks, fa, f) =>
                  let b := mkBank (on_delivered (zlen keys) (bk_est b)) ks fa (bk_sent b ++ [f]) in
                  if zlen keys <? batch then (s, c, Ok b) else bank_loop rounds late st max (sat_sub stored (zlen keys)) c s b
              | Err e => (s, c, Err e)
              | Panic => (s, c, Panic)
              end
          | _ => (s, c, Ok b)
          end
      end
  end.
Definition bank_from (late : nat -> bool) (st : SecretStore) (stock : Z * Z) (c : KmeClient) (s : S) (b : Bank) : S * KmeClient * res FrameAuthError Bank :=
  bank_loop MAX_BANK_ROUNDS late st stock.2 stock.1 c s b.

(** A turn of [stock_rate_loop] at [now] for a source with a store, and how long it
    sleeps; [up] says whether the status could be read. *)
Definition stock_turn (now : Z) (up : bool) (late : nat -> bool) (st : SecretStore) (c : KmeClient) (s : S) (b : Bank) : S * KmeClient * res FrameAuthError (Bank * Z) :=
  let '(c, stock) := kme_stock c (if up then srv_status s else None) in
  let '(s, c, r) :=
    match stock with
    | Some stock => bank_from late st stock c s (mkBank (on_stock stock.1 stock.2 now (bk_est b)) (bk_keys b) (bk_auth b) (bk_sent b))
    | None => (s, c, Ok (mkBank (on_stock_error (bk_est b)) (bk_keys b) (bk_auth b) (bk_sent b)))
    end in
  (s, c, let* b := r in Ok (b, if bool_decide (is_Some (report_at now (bk_est b))) then STOCK_POLL else STOCK_POLL_COLD)).

(** A batch that is no longer than what was asked for fits the ring. *)
Lemma bank_batch_fits (ks : KeyStore) stored max batch (keys : list OtpKey) : bank_batch_size stored max (zlen (ks_enc ks)) ENC_CAP = Some batch -> zlen keys <= batch ->
  ks_enc (enc_push ks keys) = ks_enc ks ++ keys.
Proof.
  unfold bank_batch_size, BANK_RING_HEADROOM, sat_sub. intros Hb Hk. destruct (_ || _); [done|]. destruct (Z.leb_spec (Z.max 0 (ENC_CAP - zlen (ks_enc ks))) 512); [done|].
  destruct (_ && _); [|done]. injection Hb as <-. destruct (enc_push_app ks keys) as (l & -> & _ & _ & _ & _ & _ & Hfit). destruct Hfit as [-> _]; [lia|done].
Qed.

(** What banking takes from the KME is in the ring and is counted; [kme_enc_keys]
    gives no more than it was asked for. *)
Lemma bank_keeps_keys late st max : (forall c s n s' c' keys, kme_enc_keys c s n = (s', c', Ok keys) -> zlen keys <= n) ->
  forall rounds stored c s b s' c' b', is_u 64 (re_pulled (bk_est b)) -> bank_loop rounds late st max stored c s b = (s', c', Ok b') ->
  exists l, ks_enc (bk_keys b') = ks_enc (bk_keys b) ++ l /\ re_pulled (bk_est b') = as_u 64 (re_pulled (bk_est b) + zlen l).
Proof.
  intros Hsrv. induction rounds as [|rounds IH]; intros stored c s b s' c' b' Hu; cbn [bank_loop];
    (assert (Hstop : forall s0 c0, (s0, c0, Ok (E := FrameAuthError) b) = (s', c', Ok b') ->
       exists l, ks_enc (bk_keys b') = ks_enc (bk_keys b) ++ l /\ re_pulled (bk_est b') = as_u 64 (re_pulled (bk_est b) + zlen l));
     [intros s0 c0 [= _ _ <-]; exists []; rewrite app_nil_r, zlen_nil, Z.add_0_r; split; [done|by rewrite as_u_small]|]); [apply Hstop|].
  destruct (bank_batch_size _ _ _ _) as [batch|] eqn:Eb; [|apply Hstop]. destruct (kme_enc_keys c s batch) as [[s1 c1] r] eqn:Ek.
  destruct (late rounds); [apply Hstop|]. destruct r as [keys|e|]; [|apply Hstop..]. pose proof (bank_batch_fits (bump n_refills_enc 1 (with_est (OnDelivered (zlen keys)) (bk_keys b))) _ _ _ keys Eb (Hsrv _ _ _ _ _ _ Ek)) as Hfit.
  unfold absorb_enc_keys. destruct (send_notify _ _ _ _) as [[fa f]|e|]; [|done..]. cbn [res_bind].
  cbv zeta. set (ks1 := with_enc_seq _ _). set (b1 := mkBank _ ks1 _ _).
  assert (E1 : ks_enc (bk_keys b1) = ks_enc (bk_keys b) ++ keys) by exact Hfit.
  assert (E2 : re_pulled (bk_est b1) = as_u 64 (re_pulled (bk_est b) + zlen keys)) by done.
  destruct (zlen keys <? batch).
  - intros [= _ _ <-]. exists keys. by rewrite E1, E2.
  - intros (l & -> & ->)%IH; [|rewrite E2; by apply as_u_range]. exists (keys ++ l). rewrite E1, E2, app_assoc, zlen_app. split; [done|].
    unfold as_u. rewrite Zplus_mod_idemp_l. f_equal. lia.
Qed.
End Poller.

(** ** The estimator beside its KME

    [made t] is how many keys the KME has made by time [t]; the store holds [max], and
    what is made above that is lost.  A key leaves the store ([LTake]) and is counted
    later, when the answer with it or the NOTIFY of the peer arrives ([LCount]), or
    never, when that answer is lost; the status is read at the KME ([LStatus]) and
    handed to the estimator later ([LPoll]).  Anything may happen in between, but a poll
    is taken only where

    - it is [STOCK_POLL_COLD] at least and [gap] at most after the one before;
    - the store has not grown by more than [w] keys since its status was read;
    - what this status and the count differ by from what is in the store and has left
      it, [deviation], is within [w] of what it was at the poll before. *)

Section Link.
Context `{Arith} (made : Z -> Z) (max gap w : Z).

(** [lk_taken] are the keys that have left the store, [lk_seen] the last status and
    [lk_off] the deviation at the last poll. *)
Record Lk := mkLk { lk_now : Z; lk_stock : Z; lk_taken : Z; lk_lost : Z; lk_polled : Z; lk_seen : Z; lk_off : Z; lk_rate : RateEstimator }.
Definition lk_start (t0 stock : Z) : Lk := mkLk t0 stock 0 0 t0 stock 0 rate_new.

Inductive LkMove := LTick (d : Z) | LTake (n : Z) | LCount (mine : bool) (n : Z) | LStatus | LPoll | LPollFails.

Definition deviation (s : Lk) : Z := lk_seen s + re_pulled (lk_rate s) - (lk_stock s + lk_taken s).

Definition lk_do (s : Lk) (m : LkMove) : option Lk :=
  match m with
  | LTick d =>
      if d <? 0 then None else
      let stock := lk_stock s + (made (lk_now s + d) - made (lk_now s)) in
      Some (mkLk (lk_now s + d) (Z.min stock max) (lk_taken s) (lk_lost s + (stock - Z.min stock max)) (lk_polled s) (lk_seen s) (lk_off s) (lk_rate s))
  | LTake n =>
      if (n <? 0) || (lk_stock s <? n) then None else
      Some (mkLk (lk_now s) (lk_stock s - n) (lk_taken s + n) (lk_lost s) (lk_polled s) (lk_seen s) (lk_off s) (lk_rate s))
  | LCount mine n =>
      if (n <? 0) || (lk_taken s - re_pulled (lk_rate s) <? n) then None else
      Some (mkLk (lk_now s) (lk_stock s) (lk_taken s) (lk_lost s) (lk_polled s) (lk_seen s) (lk_off s) ((if mine then on_delivered else on_peer_drained) n (lk_rate s)))
  | LStatus => Some (mkLk (lk_now s) (lk_stock s) (lk_taken s) (lk_lost s) (lk_polled s) (lk_stock s) (lk_off s) (lk_rate s))
  | LPoll =>
      if (lk_now s - lk_polled s <? STOCK_POLL_COLD) || (gap <? lk_now s - lk_polled s) || (lk_seen s + w <? lk_stock s)
         || match in_last (re_inner (lk_rate s)) with Some _ => w <? Z.abs (deviation s - lk_off s) | None => false end then None else
      Some (mkLk (lk_now s) (lk_stock s) (lk_taken s) (lk_lost s) (lk_now s) (lk_seen s) (deviation s) (on_stock (lk_seen s) max (lk_now s) (lk_rate s)))
  | LPollFails => Some (mkLk (lk_now s) (lk_stock s) (lk_taken s) (lk_lost s) (lk_now s) (lk_seen s) (lk_off s) (on_stock_error (lk_rate s)))
  end.
Fixpoint lk_run (s : Lk) (ms : list LkMove) : option Lk := match ms with [] => Some s | m :: ms => s ← lk_do s m; lk_run s ms end.

(** Nothing is lost to the ceiling before there is a first estimate. *)
Definition quiet_start (s : Lk) (ms : list LkMove) : Prop :=
  forall k s', lk_run s (take k ms) = Some s' -> in_est (re_inner (lk_rate s')) = None -> lk_lost s' = 0.
End Link.

(** ** Means of windows, in exact arithmetic *)

Section Exact.
Context (pow : Q -> Q -> Q).
#[local] Instance EA : Arith := exact_arith pow.
#[local] Open Scope Q_scope.

(** Keys that came at between [lo] and [hi] a second. *)
Definition within (lo hi keys secs : Q) : Prop := lo * secs <= keys /\ keys <= hi * secs.
Definition win_ok (lo hi : Q) (w : WindowRec) : Prop := 0 < wr_secs w /\ within lo hi (wr_keys w) (wr_secs w).

Lemma within_add lo hi k s k' s' : within lo hi k s -> within lo hi k' s' -> within lo hi (k + k') (s + s').
Proof. unfold within. intros [? ?] [? ?]. split; lra. Qed.

Lemma within_mean lo hi k s : 0 < s -> within lo hi k s -> lo <= k / s /\ k / s <= hi.
Proof. intros Hs [Hl Hh]. split; [by apply Qle_shift_div_l|by apply Qle_shift_div_r]. Qed.

Lemma sums_within lo hi ws : Forall (win_ok lo hi) ws -> ws <> [] -> within lo hi (sums ws).1 (sums ws).2 /\ 0 < (sums ws).2.
Proof.
  unfold sums. intros Hws Hne. assert (Hacc : within lo hi 0 0) by (split; lra). change (@nzero EA) with 0.
  cut (forall k s : Q, within lo hi k s -> 0 <= s ->
    within lo hi (fold_left (fun '(k, s) w => (nadd k (wr_keys w), nadd s (wr_secs w))) ws (k, s)).1 (fold_left (fun '(k, s) w => (nadd k (wr_keys w), nadd s (wr_secs w))) ws (k, s)).2 /\
    s + (match ws with [] => 0 | w :: _ => wr_secs w end) <= (fold_left (fun '(k, s) w => (nadd k (wr_keys w), nadd s (wr_secs w))) ws (k, s)).2).
  { intros Hcut. destruct (Hcut 0 0 Hacc) as [H1 H2]; [lra|]. split; [exact H1|]. destruct ws as [|w ws]; [done|]. apply Forall_cons in Hws as [[? _] _]. eapply Qlt_le_trans; [|exact H2]. lra. }
  clear Hne Hacc. induction Hws as [|w ws [Hp Hw] Hws IH]; intros k s Hk Hs; [cbn [fold_left fst snd]; split; [done|lra]|]. cbn [fold_left].
  destruct (IH (k + wr_keys w) (s + wr_secs w)) as [H1 H2]; [by apply within_add|lra|]. split; [exact H1|].
  eapply Qle_trans; [|exact H2]. destruct Hws as [|w' ws' [? _] _]; lra.
Qed.

Lemma short_within lo hi ws : Forall (win_ok lo hi) ws -> forall n (k s : Q), within lo hi k s -> 0 <= s -> (ws = [] -> 0 < s) ->
  within lo hi (short_span ws n k s).1.2 (short_span ws n k s).2 /\ 0 < (short_span ws n k s).2.
Proof.
  intros Hws. induction Hws as [|w ws [Hp Hw] Hws IH]; intros n k s Hk Hs Hne; cbn [short_span].
  { cbn [fst snd]. split; [done|by apply Hne]. }
  assert (Hk' : within lo hi (k + wr_keys w) (s + wr_secs w)) by by apply within_add. change (@nadd EA) with Qplus.
  destruct (nle _ _); [cbn [fst snd]; split; [done|lra]|]. apply IH; [done|lra|intros _; lra].
Qed.

Lemma drop_old_ok lo hi now ring w : Forall (win_ok lo hi) (ring ++ [w]) -> wr_at w = now -> Forall (win_ok lo hi) (drop_old now (ring ++ [w])) /\ drop_old now (ring ++ [w]) <> [].
Proof.
  intros Hws Hat. induction ring as [|w' ring IH]; cbn [app drop_old] in *.
  - unfold since, sat_sub. rewrite Hat, Z.sub_diag. change (nlt _ _) with false. cbv iota. done.
  - destruct (nlt _ _); [|done]. apply IH. by apply Forall_cons in Hws as [_ ?].
Qed.

Lemma accept_window_ok lo hi g (keys secs : Q) now : Forall (win_ok lo hi) (in_ring g) -> 0 < secs -> within lo hi keys secs ->
  let g' := accept_window g keys secs now in
  Forall (win_ok lo hi) (in_ring g') /\ in_last g' = in_last g /\ exists e : Q, in_est g' = Some e /\ lo <= e /\ e <= hi.
Proof.
  intros Hring Hs Hw. unfold accept_window. set (ring := drop_old now _).
  destruct (drop_old_ok lo hi now (in_ring g) (@mkWin EA keys secs now)) as [Hok Hne]; [apply Forall_app; split; [done|apply Forall_singleton; by split]|done|].
  fold ring in Hok, Hne. destruct (sums_within lo hi ring Hok Hne) as [Hl Hlp]. destruct (sums ring) as [lk ls]. cbn [fst snd] in Hl, Hlp.
  assert (Hle : nle ls nzero = false) by (change (Qle_bool ls 0 = false); destruct (qle_spec ls 0); [lra|done]). rewrite Hle. cbv zeta.
  destruct (short_within lo hi (rev ring) (List.Forall_rev Hok) 0 0 0) as [Hsh Hsp]; [split; lra|lra|by intros ?%(f_equal (@rev _)); rewrite rev_involutive in *|].
  change (@nzero EA) with 0 in *. destruct (short_span (rev ring) 0 0 0) as [[n_short sk] ss]. cbn [fst snd] in Hsh, Hsp.
  assert (Hlt : nlt (0 : Q) ss = true) by (change (negb (Qle_bool ss 0) = true); destruct (qle_spec ss 0); [lra|done]). rewrite Hlt.
  pose proof (within_mean _ _ _ _ Hlp Hl) as Hm. pose proof (within_mean _ _ _ _ Hsp Hsh) as Hm'.
  destruct (nlt _ ls); [|cbn; split_and!; [done..|eexists; split; [reflexivity|exact Hm]]].
  destruct (level_run _ _ _) as [down up]. destruct (_ || _); cbn; split_and!; try done; try (by apply Forall_drop); eexists; split; [reflexivity|exact Hm'|reflexivity|exact Hm].
Qed.

(** The windows and the estimate are of such rates; the open window is, but for a lower
    bound [lo0] that may be below zero where the others stop at zero. *)
Definition inner_ok (lo0 lo hi : Q) (g : Inner) : Prop :=
  (0 <= in_win_secs g /\ within lo0 hi (in_win_keys g) (in_win_secs g)) /\ Forall (win_ok lo hi) (in_ring g) /\
  forall e : num, in_est g = Some e -> lo <= e /\ e <= hi.

Lemma within_zero lo hi : within lo hi 0 0.
Proof. split; lra. Qed.

Lemma inner_reset lo0 lo hi g p streak : inner_ok lo0 lo hi g -> inner_ok lo0 lo hi (with_win nzero nzero (with_point p streak g)).
Proof. intros (_ & Hr & He). split_and!; [by apply Qle_refl|apply within_zero|done|done]. Qed.

Lemma add_interval_ok lo0 lo hi g prev point (dt : num) : lo = 0 \/ lo = lo0 -> 0 <= hi -> inner_ok lo0 lo hi g -> 0 < dt ->
  within lo0 hi (inject_Z (sp_stored point) - inject_Z (sp_stored prev) + inject_Z (sat_sub (sp_pulled_total point) (sp_pulled_total prev))) dt ->
  inner_ok lo0 lo hi (add_interval g prev point dt) /\ in_last (add_interval g prev point dt) = in_last g.
Proof.
  intros Hlo Hhi ((Hs & Hw) & Hr & He) Hdt Hc. unfold add_interval. cbv zeta. set (contrib := nadd (nsub _ _) _).
  change (within lo0 hi contrib dt) in Hc. pose proof (within_add _ _ _ _ _ _ Hw Hc) as Hsum.
  change (@nadd EA) with Qplus in *. set (k := (in_win_keys g + contrib)%Q) in *. set (t := (in_win_secs g + dt)%Q) in *.
  assert (Ht : 0 < t) by (unfold t; lra). destruct (_ || _); [|split; [split_and!; [by apply Qlt_le_weak|apply Hsum..|done|done]|done]].
  assert (Hlt : nlt nzero t = true) by (change (negb (Qle_bool t 0) = true); destruct (qle_spec t 0); [lra|done]). rewrite Hlt.
  destruct (accept_window_ok lo hi g (qmax k 0) t (sp_at point) Hr Ht) as (Hr' & Hl' & e & He' & Hee).
  { destruct Hsum as [H1 H2]. destruct (qmax_spec k 0) as (H3 & H0 & _). assert (0 <= hi * t) by (apply Qmult_le_0_compat; lra). split.
    - destruct Hlo as [->| ->]; [rewrite Qmult_0_l|]; lra.
    - destruct (qmax_spec k 0) as (_ & _ & [-> | ->]); lra. }
  change (@nmax EA k nzero) with (qmax k 0). split; [|exact Hl']. split_and!; [by apply Qle_refl|apply within_zero..|exact Hr'|].
  intros e' Hq. cbn [with_win in_est] in Hq. rewrite He' in Hq. injection Hq as <-. done.
Qed.

Lemma on_stock_last stored max now e pt : in_last (re_inner (on_stock stored max now e)) = Some pt -> pt = mkPoint stored (re_pulled e) now.
Proof.
  unfold on_stock. cbn [re_inner]. destruct (in_last (re_inner e)) as [prev|]; [|by intros [= <-]]. cbv zeta. destruct (_ || _); [by intros [= <-]|].
  destruct (_ || _); [by intros [= <-]|]. unfold add_interval. destruct (_ || _); [|by intros [= <-]]. destruct (nlt _ _); [|by intros [= <-]].
  cbn [with_win in_last]. unfold accept_window. destruct (sums _). destruct (nle _ _); [by intros [= <-]|]. destruct (short_span _ _ _ _) as [[]].
  destruct (nlt _ _); [|by intros [= <-]]. destruct (level_run _ _ _). destruct (_ || _); by intros [= <-].
Qed.

Lemma on_stock_inner lo0 lo hi stored max now e : lo = 0 \/ lo = lo0 -> 0 <= hi -> is_u 64 max -> inner_ok lo0 lo hi (re_inner e) ->
  (forall prev, in_last (re_inner e) = Some prev -> (sp_stored prev + ceiling_guard (in_est (re_inner e)) (n_secs (since now (sp_at prev))) max < max)%Z ->
    0 < n_secs (since now (sp_at prev)) /\
    within lo0 hi (inject_Z stored - inject_Z (sp_stored prev) + inject_Z (sat_sub (re_pulled e) (sp_pulled_total prev))) (n_secs (since now (sp_at prev)))) ->
  inner_ok lo0 lo hi (re_inner (on_stock stored max now e)).
Proof.
  intros Hlo Hhi Hmax Hok Hint. unfold on_stock. cbn [re_inner]. destruct (in_last (re_inner e)) as [prev|]; [|exact Hok]. cbv zeta.
  destruct (_ || _); [by apply inner_reset|]. destruct (_ || _) eqn:Ec; [by apply inner_reset|]. apply orb_false_iff in Ec as [_ Hroom%Z.leb_gt].
  destruct (Hint prev eq_refl) as [Hdt Hc].
  { revert Hroom. unfold sat_add, u_max. cbn [with_point in_est]. unfold is_u in Hmax. lia. }
  by apply add_interval_ok.
Qed.
(** *** What the balance of an interval says *)

Section Balance.
Context (made : Z -> Z) (max gap w : Z) (a hi : Q).
Context (Hmono : forall t t', (t <= t')%Z -> (made t <= made t')%Z).
Context (Hrate : forall t t', (t + STOCK_POLL_COLD <= t')%Z -> within a hi (inject_Z (made t' - made t)) (n_secs (t' - t))).
Context (Hhi : 0 <= hi) (Hmax : is_u 64 max) (Hw : (0 <= w)%Z).

(** The rates an interval can show: [w] keys in a quarter of a second off. *)
Definition top : Q := hi + 4 * inject_Z w.
Definition bottom : Q := a - 4 * inject_Z w.

(** The store since the last poll: what was there and was made is still there, was
    taken or was lost; a loss means that there was no room for all that was made. *)
Definition balanced (s : Lk) (pt : StockPoint) : Prop :=
  sp_at pt = lk_polled s /\ (lk_polled s <= lk_now s /\ sp_pulled_total pt <= re_pulled (lk_rate s) /\ sp_pulled_total pt - lk_off s <= lk_taken s + w /\
  exists l, 0 <= l <= lk_lost s /\ l <= made (lk_now s) - made (sp_at pt) /\
    lk_stock s + lk_taken s + l = sp_stored pt + sp_pulled_total pt - lk_off s + (made (lk_now s) - made (sp_at pt)) /\
    (0 < l -> max < sp_stored pt + w + (made (lk_now s) - made (sp_at pt))))%Z.

Record tracks (lo0 lo : Q) (t0 s0 : Z) (s : Lk) : Prop := {
  tk_stock : (0 <= lk_stock s <= max /\ 0 <= lk_lost s)%Z;
  tk_pulled : (0 <= re_pulled (lk_rate s) <= lk_taken s /\ lk_stock s + lk_taken s <= s0 + made (lk_now s) - made t0)%Z;
  tk_last : forall pt, in_last (re_inner (lk_rate s)) = Some pt -> balanced s pt;
  tk_inner : inner_ok lo0 lo top (re_inner (lk_rate s))
}.

(** A bound from below holds where no production is lost unseen: it is zero, or the
    true one and the guard against the ceiling is wide enough. *)
Definition observable (lo0 lo : Q) (s : Lk) : Prop :=
  lo0 = - (4) * inject_Z w /\ lo = 0 \/
  lo0 = bottom /\ lo = bottom /\ top <= (3 # 2) * bottom /\ hi * n_secs gap + inject_Z w <= inject_Z max / 4 /\ (in_est (re_inner (lk_rate s)) = None -> lk_lost s = 0%Z).

Lemma w_nonneg : 0 <= inject_Z w.
Proof. change 0 with (inject_Z 0). by rewrite <- Zle_Qle. Qed.

Lemma top_nonneg : 0 <= top.
Proof. unfold top. pose proof w_nonneg. lra. Qed.

Lemma floor_ge (m : Z) (x : Q) : inject_Z m <= x -> (m <= Qfloor x)%Z.
Proof. intros Hm%Qfloor_resp_le. by rewrite Qfloor_Z in Hm. Qed.

Lemma secs_pos d : (0 < d)%Z -> 0 < n_secs d.
Proof. intros Hd. apply Qlt_shift_div_l; [done|]. rewrite Qmult_0_l. change 0 with (inject_Z 0). by rewrite <- Zlt_Qlt. Qed.

Lemma secs_mono d d' : (d <= d')%Z -> n_secs d <= n_secs d'.
Proof. intros Hd. apply Qmult_le_compat_r; [by rewrite <- Zle_Qle|done]. Qed.

Lemma cold_secs d : (STOCK_POLL_COLD <= d)%Z -> inject_Z w <= 4 * inject_Z w * n_secs d.
Proof.
  intros Hd%secs_mono. change (n_secs STOCK_POLL_COLD) with (inject_Z 250000000 / inject_Z 1000000000) in Hd. pose proof w_nonneg as H0.
  assert (Hq : 1 # 4 <= n_secs d) by (eapply Qle_trans; [|exact Hd]; by vm_compute). assert (4 * inject_Z w * (1 # 4) <= 4 * inject_Z w * n_secs d) by (apply qmul_le_l; [lra|exact Hq]). lra.
Qed.

(** Outside the guard nothing was lost. *)
Lemma guard_wide (s : Lk) pt (e : num) : top <= (3 # 2) * bottom -> hi * n_secs gap + inject_Z w <= inject_Z max / 4 -> bottom <= e ->
  (STOCK_POLL_COLD <= lk_now s - sp_at pt <= gap)%Z -> (sp_stored pt + ceiling_guard (Some e) (n_secs (lk_now s - sp_at pt)) max < max)%Z ->
  (sp_stored pt + w + (made (lk_now s) - made (sp_at pt)) <= max)%Z.
Proof.
  intros Hb Hg He [Hd1 Hd2] Hroom. set (dt := (lk_now s - sp_at pt)%Z) in *. set (m := (made (lk_now s) - made (sp_at pt))%Z).
  assert (Hdt : 0 < n_secs dt) by (apply secs_pos; unfold STOCK_POLL_COLD in Hd1; lia).
  destruct (Hrate (sp_at pt) (lk_now s)) as [_ Hm]; [lia|]. fold dt m in Hm. pose proof (cold_secs dt Hd1) as Hc.
  assert (Hm1 : inject_Z (w + m) <= e * n_secs dt * (inject_Z 3 / inject_Z 2)).
  { assert (top * n_secs dt <= (3 # 2) * e * n_secs dt) by (apply Qmult_le_compat_r; lra). change (inject_Z 3 / inject_Z 2) with (3 # 2). unfold top in *. rewrite inject_Z_plus. lra. }
  assert (Hm2 : inject_Z (w + m) <= inject_Z max / 4).
  { rewrite inject_Z_plus. eapply Qle_trans; [|exact Hg]. assert (hi * n_secs dt <= hi * n_secs gap) by by apply qmul_le_l, secs_mono. lra. }
  apply floor_ge in Hm1. assert (4 * (w + m) <= max)%Z.
  { rewrite Zle_Qle, inject_Z_mult. apply (Qle_trans _ (inject_Z 4 * (inject_Z max / 4))); [by apply qmul_le_l|]. apply Qle_lteq. right. unfold Qdiv. change (/ 4) with (1 # 4). change (inject_Z 4) with 4. ring. }
  unfold ceiling_guard in Hroom. cbn [n_as_u64 EA exact_arith nmul nlit] in Hroom.
  assert (w + m <= max / 4)%Z by (apply Z.div_le_lower_bound; lia). unfold is_u in Hmax. lia.
Qed.

(** The balance of an interval whose ends are off by [w] keys at most. *)
Lemma interval_ok lo0 lo t0 s0 (s : Lk) pt : tracks lo0 lo t0 s0 s -> observable lo0 lo s -> in_last (re_inner (lk_rate s)) = Some pt ->
  (Z.abs (deviation s - lk_off s) <= w)%Z ->
  (STOCK_POLL_COLD <= lk_now s - sp_at pt <= gap)%Z -> (sp_stored pt + ceiling_guard (in_est (re_inner (lk_rate s))) (n_secs (lk_now s - sp_at pt)) max < max)%Z ->
  within lo0 top (inject_Z (lk_seen s) - inject_Z (sp_stored pt) + inject_Z (sat_sub (re_pulled (lk_rate s)) (sp_pulled_total pt))) (n_secs (lk_now s - sp_at pt)).
Proof.
  intros Ht Hobs Hl Hdev Hd Hroom. destruct (tk_last _ _ _ _ _ Ht pt Hl) as (_ & _ & Hp & _ & l & Hl0 & Hl1 & Hbal & Hfull).
  destruct (Hrate (sp_at pt) (lk_now s)) as [Hr1 Hr2]; [lia|]. set (m := (made (lk_now s) - made (sp_at pt))%Z) in *. pose proof (cold_secs _ (proj1 Hd)) as Hc.
  set (x := (deviation s - lk_off s)%Z) in *. assert (Hx1 : inject_Z x <= inject_Z w) by (rewrite <- Zle_Qle; lia). assert (Hx2 : - inject_Z w <= inject_Z x) by (rewrite <- inject_Z_opp, <- Zle_Qle; lia).
  assert (E : inject_Z (lk_seen s) - inject_Z (sp_stored pt) + inject_Z (sat_sub (re_pulled (lk_rate s)) (sp_pulled_total pt)) == inject_Z (m - l) + inject_Z x).
  { rewrite <- inject_Z_plus. unfold sat_sub. rewrite Z.max_r by lia. replace (m - l + x)%Z with (lk_seen s - sp_stored pt + (re_pulled (lk_rate s) - sp_pulled_total pt))%Z by (unfold x, deviation; lia).
    unfold Z.sub. rewrite !inject_Z_plus, !inject_Z_opp. lra. }
  assert (Hml : inject_Z (m - l) <= inject_Z m) by (rewrite <- Zle_Qle; lia).
  unfold within. rewrite E. split; [|unfold top; lra].
  destruct Hobs as [(-> & ->)|(-> & -> & Hb & Hg & Hnone)].
  - assert (0 <= inject_Z (m - l)) by (change 0 with (inject_Z 0); rewrite <- Zle_Qle; lia). lra.
  - assert (l = 0%Z) as ->; [|rewrite Z.sub_0_r; unfold bottom; lra]. destruct (in_est (re_inner (lk_rate s))) as [e|] eqn:He; [|specialize (Hnone eq_refl); lia].
    destruct (proj2 (proj2 (tk_inner _ _ _ _ _ Ht)) e He) as [Ha _]. pose proof (guard_wide s pt e Hb Hg Ha Hd Hroom) as Hfit. fold m in Hfit. lia.
Qed.

Lemma observable_lo lo0 lo (s : Lk) : observable lo0 lo s -> lo = 0 \/ lo = lo0.
Proof. intros [(_ & ->)|(-> & -> & _)]; auto. Qed.

Lemma poll_keeps lo0 lo t0 s0 (s s' : Lk) : tracks lo0 lo t0 s0 s -> observable lo0 lo s -> lk_do made max gap w s LPoll = Some s' -> tracks lo0 lo t0 s0 s'.
Proof.
  intros Ht Hobs. cbn [lk_do]. destruct (_ || _) eqn:Eg; [done|]. apply orb_false_iff in Eg as [[[Hd1%Z.ltb_ge Hd2%Z.ltb_ge]%orb_false_iff Hfresh%Z.ltb_ge]%orb_false_iff Hdev]. intros [= <-].
  destruct Ht as [Hst Hpl Hlast Hin] eqn:Et. clear Et. constructor; cbn [lk_now lk_stock lk_taken lk_lost lk_polled lk_seen lk_off lk_rate re_pulled on_stock]; [done..| |].
  - intros pt Hpt. assert (pt = mkPoint (lk_seen s) (re_pulled (lk_rate s)) (lk_now s)) as -> by (revert Hpt; apply on_stock_last).
    unfold balanced. cbn [lk_now lk_stock lk_taken lk_lost lk_polled lk_seen lk_off lk_rate re_pulled on_stock sp_at sp_stored sp_pulled_total]. unfold deviation. split_and!; try lia. exists 0%Z. split_and!; lia.
  - apply (on_stock_inner lo0 lo top _ _ _ _ (observable_lo _ _ _ Hobs) top_nonneg Hmax); [done|]. intros prev Hprev Hroom. destruct (Hlast prev Hprev) as (Hat & Hle & _).
    rewrite Hprev in Hdev. apply Z.ltb_ge in Hdev. assert (Es : since (lk_now s) (sp_at prev) = (lk_now s - sp_at prev)%Z) by (unfold since, sat_sub; lia). rewrite Es in *.
    split; [apply secs_pos; unfold STOCK_POLL_COLD in Hd1; lia|]. eapply (interval_ok lo0 lo t0 s0 s prev); [exact Ht|done|done|done|lia|done].
Qed.

Lemma tick_keeps lo0 lo t0 s0 (s s' : Lk) d : tracks lo0 lo t0 s0 s -> lk_do made max gap w s (LTick d) = Some s' -> tracks lo0 lo t0 s0 s'.
Proof.
  intros [[Hst Hlo] Hpl Hlast Hin]. cbn [lk_do]. destruct (Z.ltb_spec d 0); [done|]. intros [= <-]. pose proof (Hmono (lk_now s) (lk_now s + d) ltac:(lia)).
  constructor; cbn [lk_now lk_stock lk_taken lk_lost lk_polled lk_seen lk_off lk_rate]; [lia..| |done].
  intros pt (Hat & Hle & Hpp & Hoff & l & H1 & H2 & H3 & H4)%Hlast. unfold balanced. cbn [lk_now lk_stock lk_taken lk_lost lk_polled lk_off lk_rate].
  split_and!; [done|lia..|]. set (over := (lk_stock s + (made (lk_now s + d) - made (lk_now s)) - Z.min (lk_stock s + (made (lk_now s + d) - made (lk_now s))) max)%Z).
  exists (l + over)%Z. split_and!; lia.
Qed.

(** One move; [pulled] stays within its width while all that was ever there does. *)
Lemma move_keeps lo0 lo t0 s0 (s s' : Lk) m : tracks lo0 lo t0 s0 s -> observable lo0 lo s -> lk_do made max gap w s m = Some s' ->
  (s0 + made (lk_now s) - made t0 < 2 ^ 64)%Z -> tracks lo0 lo t0 s0 s'.
Proof.
  intros Ht Hobs Hdo Hsmall. destruct m as [d|n|mine n| | |]; [by eapply tick_keeps| | | |by eapply poll_keeps|]; cbn [lk_do] in Hdo.
  - destruct (_ || _) eqn:En; [done|]. apply orb_false_iff in En as [Hn%Z.ltb_ge Hn'%Z.ltb_ge]. injection Hdo as <-. destruct Ht as [[Hst Hlo] Hpl Hlast Hin].
    constructor; cbn [lk_now lk_stock lk_taken lk_lost lk_polled lk_seen lk_off lk_rate]; [lia..| |done].
    intros pt (Hat & Hle & Hpp & Hoff & l & H1 & H2 & H3 & H4)%Hlast. split_and!; [done|cbn; lia..|]. exists l. cbn. split_and!; lia.
  - destruct (_ || _) eqn:En; [done|]. apply orb_false_iff in En as [Hn%Z.ltb_ge Hn'%Z.ltb_ge]. injection Hdo as <-. destruct Ht as [[Hst Hlo] Hpl Hlast Hin].
    set (e := (if mine then on_delivered else on_peer_drained) n (lk_rate s)). assert (Ep : re_pulled e = (re_pulled (lk_rate s) + n)%Z).
    { transitivity (as_u 64 (re_pulled (lk_rate s) + n)); [by destruct mine|]. apply as_u_small. unfold is_u. lia. }
    assert (Ei : re_inner e = re_inner (lk_rate s)) by by destruct mine.
    constructor; cbn [lk_now lk_stock lk_taken lk_lost lk_polled lk_seen lk_off lk_rate]; rewrite ?Ep, ?Ei; [lia..| |done].
    intros pt (Hat & Hle & Hpp & Hoff & l & H1 & H2 & H3 & H4)%Hlast. unfold balanced. cbn [lk_now lk_stock lk_taken lk_lost lk_polled lk_off lk_rate]. rewrite Ep.
    split_and!; [done|lia..|]. exists l. split_and!; lia.
  - injection Hdo as <-. destruct Ht as [Hst Hpl Hlast Hin]. constructor; done.
  - injection Hdo as <-. destruct Ht as [Hst Hpl Hlast Hin]. constructor; [done..|by apply inner_reset].
Qed.

Lemma now_grows (s s' : Lk) m : lk_do made max gap w s m = Some s' -> (lk_now s <= lk_now s')%Z.
Proof.
  destruct m as [d|n|mine n| | |]; cbn [lk_do]; [destruct (Z.ltb_spec d 0); [done|]|destruct (_ || _); [done|]..| |destruct (_ || _); [done|]|]; intros [= <-]; cbn [lk_now]; lia.
Qed.

Lemma run_grows ms : forall s s' : Lk, lk_run made max gap w s ms = Some s' -> (lk_now s <= lk_now s')%Z.
Proof.
  induction ms as [|m ms IH]; intros s s'; cbn [lk_run]; [intros [= <-]; lia|]. intros (s1 & E1%now_grows & E2%IH)%bind_Some. lia.
Qed.

Lemma run_keeps lo0 lo t0 s0 ms : forall s s' : Lk, tracks lo0 lo t0 s0 s -> lk_run made max gap w s ms = Some s' -> (s0 + made (lk_now s') - made t0 < 2 ^ 64)%Z ->
  (forall k s1, lk_run made max gap w s (take k ms) = Some s1 -> observable lo0 lo s1) -> tracks lo0 lo t0 s0 s'.
Proof.
  induction ms as [|m ms IH]; intros s s' Ht Hrun Hsmall Hobs; cbn [lk_run] in Hrun; [by injection Hrun as <-|].
  apply bind_Some in Hrun as (s1 & E1 & E2). pose proof (now_grows _ _ _ E1). pose proof (run_grows _ _ _ E2). pose proof (Hmono (lk_now s) (lk_now s') ltac:(lia)).
  apply (IH s1); [|done..|].
  - eapply move_keeps; [exact Ht|by apply (Hobs 0%nat)|exact E1|lia].
  - intros k s2 Hk. apply (Hobs (S k)). cbn [take lk_run]. by rewrite E1.
Qed.

Lemma start_tracks lo0 lo t0 s0 : (0 <= s0 <= max)%Z -> tracks lo0 lo t0 s0 (lk_start t0 s0).
Proof.
  intros Hs. constructor; cbn [lk_start lk_now lk_stock lk_taken lk_lost lk_rate rate_new re_pulled re_inner in_last]; [lia..|done|].
  split_and!; [by apply Qle_refl|apply within_zero..|constructor|done].
Qed.

(** C24: The KME makes between [a] and [hi] keys a second over any stretch as long as
    the shortest between two polls, in blocks or one by one; the estimator starts
    knowing nothing.  Keys leave the store at any time and are counted at any later
    one or never, the status is read at any time before it is used, polls fail, and the
    store runs full.  Where what a poll misses, the keys under way and the age of its
    status, moves a balance by [w] keys at most (the conditions of [LPoll]), the rate
    reported is never above [hi] by more than the four times [w] a second that [w]
    keys are in the quarter of a second between two polls, and never negative.  If in
    addition the store did not overflow before the first estimate, [hi] and [a], each
    off by as much, differ by half at most, and what is made up to the next poll is no
    more than a quarter of the store, it is never below [a] less that much: no
    production was lost unseen.  All of it in exact arithmetic, where the code uses
    doubles. *)
Theorem report_is_the_rate t0 s0 ms s now r : (0 <= s0 <= max)%Z -> lk_run made max gap w (lk_start t0 s0) ms = Some s -> (s0 + made (lk_now s) - made t0 < 2 ^ 64)%Z ->
  report_at now (lk_rate s) = Some r ->
  (0 <= rr_keys_per_s r /\ rr_keys_per_s r <= hi + 4 * inject_Z w) /\
  (hi + 4 * inject_Z w <= (3 # 2) * (a - 4 * inject_Z w) -> hi * n_secs gap + inject_Z w <= inject_Z max / 4 -> quiet_start made max gap w (lk_start t0 s0) ms ->
   a - 4 * inject_Z w <= rr_keys_per_s r).
Proof.
  intros Hs0 Hrun Hsmall Hrep. unfold report_at in Hrep. apply bind_Some in Hrep as (e & He & (last & _ & [= <-])%bind_Some). cbn [rr_keys_per_s].
  split; [|intros Hb Hg Hq].
  - apply (proj2 (proj2 (tk_inner _ _ _ _ _ (run_keeps _ 0 t0 s0 ms _ s (start_tracks _ 0 t0 s0 Hs0) Hrun Hsmall (fun _ _ _ => or_introl (conj eq_refl eq_refl))))) e He).
  - apply (proj2 (proj2 (tk_inner _ _ _ _ _ (run_keeps bottom bottom t0 s0 ms _ s (start_tracks bottom bottom t0 s0 Hs0) Hrun Hsmall
      (fun k s1 E => or_intror (conj eq_refl (conj eq_refl (conj Hb (conj Hg (Hq k s1 E))))))))) e He).
Qed.
End Balance.
End Exact.

(** ** Witnesses *)

(** A thousand keys a second, one every millisecond. *)
Definition every_ms (t : Z) : Z := t / 1000000.
Definition sample_polls : list LkMove := [LTick 1000000000; LStatus; LPoll; LTick 500000000; LTake 500; LTick 500000000; LTake 20; LCount true 500; LStatus; LPoll].

Lemma rate_of_Z (lo hi d m : Z) : lo * d <= 1000000000 * m <= hi * d -> within (inject_Z lo) (inject_Z hi) (inject_Z m) (inject_Z d / inject_Z NANOS_PER_SEC).
Proof.
  intros [Hl Hh]. assert (E : forall x, (inject_Z x * (inject_Z d / inject_Z NANOS_PER_SEC) == inject_Z (x * d) / inject_Z NANOS_PER_SEC)%Q) by (intros x; rewrite inject_Z_mult; field; done).
  assert (P : (0 < inject_Z NANOS_PER_SEC)%Q) by done.
  split; rewrite E; [apply Qle_shift_div_r|apply Qle_shift_div_l]; try done; rewrite <- inject_Z_mult, <- Zle_Qle; unfold NANOS_PER_SEC; lia.
Qed.

Lemma every_ms_mono t t' : t <= t' -> every_ms t <= every_ms t'.
Proof. intros Ht. by apply Z.div_le_mono. Qed.

Lemma every_ms_rate t t' : t + STOCK_POLL_COLD <= t' ->
  within (inject_Z 996) (inject_Z 1004) (inject_Z (every_ms t' - every_ms t)) (inject_Z (t' - t) / inject_Z NANOS_PER_SEC).
Proof.
  unfold STOCK_POLL_COLD, every_ms. intros Ht. apply rate_of_Z. pose proof (Z.div_mod t 1000000). pose proof (Z.div_mod t' 1000000).
  pose proof (Z.mod_pos_bound t 1000000). pose proof (Z.mod_pos_bound t' 1000000). lia.
Qed.

Definition sample_run (ms : list LkMove) : option (@Lk (exact_arith (fun x _ => x))) := lk_run every_ms 8192 1100000000 25 (lk_start 0 100) ms.

Lemma sample_ends : exists s r, sample_run sample_polls = Some s /\ report_at 2000000000 (lk_rate s) = Some r /\ lk_now s = 2000000000.
Proof.
  assert (E : (s ← sample_run sample_polls; r ← report_at 2000000000 (lk_rate s); Some (lk_now s)) = Some 2000000000) by (vm_compute; reflexivity).
  apply bind_Some in E as (s & Es & (r & Er & [= Hn])%bind_Some). exists s, r. split; [exact Es|]. split; [exact Er|exact Hn].
Qed.

Lemma sample_quiet k s : sample_run (take k sample_polls) = Some s -> in_est (re_inner (lk_rate s)) = None -> lk_lost s = 0.
Proof.
  assert (Hall : Forall (fun ms => match sample_run ms with Some s => lk_lost s = 0 | None => True end) (map (fun k => take k sample_polls) (seq 0 11))).
  { cbn [seq map]. repeat (constructor; [vm_compute; done|]). constructor. }
  assert (Hin : take k sample_polls ∈ map (fun k => take k sample_polls) (seq 0 11)).
  { apply list_elem_of_fmap. exists (min k 10). split; [|apply elem_of_seq; lia]. destruct (Nat.le_ge_cases k 10) as [Hk|Hk]; [by rewrite Nat.min_l|]. rewrite Nat.min_r by done. rewrite !take_ge by (cbn; lia). done. }
  rewrite Forall_forall in Hall. specialize (Hall _ Hin). cbv beta in Hall. intros E _. rewrite E in Hall. exact Hall.
Qed.

Lemma report_is_the_rate_witness :
  let EA := exact_arith (fun x _ => x) in
  exists s r, sample_run sample_polls = Some s /\ report_at 2000000000 (lk_rate s) = Some r /\ (inject_Z 896 <= rr_keys_per_s r /\ rr_keys_per_s r <= inject_Z 1104)%Q.
Proof.
  intros EA. pose proof (report_is_the_rate (fun x _ => x) every_ms 8192 1100000000 25 (inject_Z 996) (inject_Z 1004) every_ms_mono every_ms_rate ltac:(done) ltac:(done) ltac:(done)) as Hthm.
  assert (Hlate : every_ms 2000000000 = 2000) by (vm_compute; reflexivity). assert (Hb : (inject_Z 1004 + 4 * inject_Z 25 <= (3 # 2) * (inject_Z 996 - 4 * inject_Z 25))%Q) by done.
  assert (Hg : (inject_Z 1004 * n_secs 1100000000 + inject_Z 25 <= inject_Z 8192 / 4)%Q) by done.
  destruct sample_ends as (s & r & Es & Er & Hnow). exists s, r. split; [exact Es|]. split; [exact Er|].
  assert (Hsmall : 100 + every_ms (lk_now s) - every_ms 0 < 2 ^ 64) by (rewrite Hnow, Hlate; reflexivity).
  destruct (Hthm 0 100 sample_polls s 2000000000 r ltac:(lia) Es Hsmall Er) as [[_ Hhi] Hlo]. split; [exact (Hlo Hb Hg sample_quiet)|exact Hhi].
Defined.

(** ** What the estimator is not meant to do *)

(** The neighbour announces a thousand keys that do not exist.  The count is taken
    back when the KME refuses them, but a poll came before: the interval with the
    false keys has been measured, and the one with the correction counts nothing
    rather than less.  The relay reports a thousand keys a second of a KME that
    makes none. *)
Theorem invented_keys_raise_the_rate `{Libm} :
  let e := on_peer_drained_shortfall 1000 (on_stock 100 8192 1000000000 (on_peer_drained 1000 (on_stock 100 8192 0 (@rate_new float_arith)))) in
  let e := on_stock 100 8192 2000000000 e in
  re_pulled e = 0 /\ (fun r => (rr_keys_per_s r, rr_quality r)) <$> report_at 2000000000 e = Some (f_of_Z 1000, Measured).
Proof. intros e0 e. vm_compute. done. Qed.

(** Before the first estimate the guard is eight keys wide whatever the rate: the
    store fills, drops 308 keys of 1500 and is drained again between two polls that
    are far from the ceiling, and the relay measures 1192. *)
Definition fifteen_hundred (t : Z) : Z := t * 1500 / 1000000000.

Theorem overflow_between_polls_is_not_seen `{Libm} :
  (s ← @lk_run float_arith fifteen_hundred 8192 1100000000 0 (lk_start 0 5500) [LTick 1000000000; LStatus; LPoll; LTick 1000000000; LTake 1000; LCount true 1000; LStatus; LPoll];
   r ← report_at 2000000000 (lk_rate s); Some (lk_lost s, fifteen_hundred (lk_now s) - fifteen_hundred 1000000000, rr_keys_per_s r)) = Some (308, 1500, f_of_Z 1192).
Proof. vm_compute. reflexivity. Qed.
