(* ===== verification/SaeList.v ===== *)
(** * The additional SAEs of a request (etsi/src/v014/key_request.rs)

    A key request may name further SAEs in three places: two fields of its body and a
    header.  Each can be a JSON list, a text with separators, a text that is a JSON
    list, or an object that holds one of these; [normalize_sae_list] makes a list of
    names of any of them, and [resolved_additional_slave_sae_ids] puts the three
    together.  The result is [rq_additional_saes] of the request in [Delivery].

    Shown: whatever comes in, the names that come out are trimmed, not empty and each
    there once, in the order of their first occurrence, and all that were named are
    there; and a list written with commas is read back.  Text is ASCII; reading and
    printing JSON is the class [JsonText] (serde_json). *)

From Stdlib Require Import ZArith Lia String Ascii.
From S2P Require Import Prelude Text OrrService.

#[local] Open Scope string_scope.
#[local] Open Scope list_scope.

(** A number is kept as its text. *)
Inductive Json :=
  | JNull
  | JBool (b : bool)
  | JNumber (text : string)
  | JString (s : string)
  | JArray (l : list Json)
  | JObject (m : list (string * Json)).

Class JsonText := {
  json_text : Json -> string;
  json_parse : string -> option Json;
  json_parse_array : forall s v, json_parse (String "[" s) = Some v -> exists l, v = JArray l
}.

Definition starts_with (c : ascii) (s : string) : bool := match s with String d _ => Ascii.eqb d c | EmptyString => false end.
Fixpoint ends_with (c : ascii) (s : string) : bool :=
  match s with EmptyString => false | String d EmptyString => Ascii.eqb d c | String _ s => ends_with c s end.

Definition is_sep (c : ascii) : bool := existsb (Ascii.eqb c) [","; ";"; " "; "009"; "010"; "013"]%char.

(** [split] on any separator. *)
Fixpoint split_seps (s : string) : list string :=
  match s with
  | EmptyString => [EmptyString]
  | String c s =>
      if is_sep c then EmptyString :: split_seps s
      else match split_seps s with w :: ws => String c w :: ws | [] => [String c EmptyString] end
  end.
Definition split_csv_like (s : string) : list Json := map JString (List.filter (fun p => negb (String.eqb p "")) (split_seps s)).

Section Normalize.
Context `{JsonText}.

Definition normalize_single_sae (v : Json) : option string :=
  let t := trim (match v with JString s => s | JNumber n => n | JNull => "" | v => json_text v end) in
  match v with JNull => None | _ => if String.eqb t "" then None else Some t end.

(** Pushed unless it was seen; what was seen is what was pushed. *)
Definition push_unique (out : list string) (s : string) : list string := if bool_decide (s ∈ out) then out else out ++ [s].

Definition normalize_items (raw_values : list Json) : list string :=
  fold_left (fun out v => match normalize_single_sae v with Some sae => push_unique out sae | None => out end) raw_values [].

Definition object_get (m : list (string * Json)) (key : string) : option Json := snd <$> List.find (fun kv => String.eqb kv.1 key) m.
Definition known_key (m : list (string * Json)) : option Json :=
  match object_get m "additional_saes", object_get m "additional_slave_SAE_IDs", object_get m "values" with
  | Some v, _, _ => Some v
  | None, Some v, _ => Some v
  | None, None, v => v
  end.

Fixpoint normalize_sae_list (fuel : nat) (value : Json) : option (list string) :=
  match fuel with
  | O => None
  | S fuel =>
      match value with
      | JNull => Some []
      | JArray arr => Some (normalize_items arr)
      | JObject m => match known_key m with Some v => normalize_sae_list fuel v | None => Some (normalize_items []) end
      | JString s =>
          let text := trim s in
          if String.eqb text "" then Some (normalize_items [])
          else if starts_with "[" text && ends_with "]" text then
            match json_parse text with Some parsed => normalize_sae_list fuel parsed | None => Some (normalize_items (split_csv_like text)) end
          else Some (normalize_items (split_csv_like text))
      | other => Some (normalize_items [other])
      end
  end.

(** [deserialize_sae_list]: the two fields of the body. *)
Definition deserialize_sae_list (fuel : nat) (v : Json) : option (option (list string)) :=
  (fun l => match l with [] => None | _ => Some l end) <$> normalize_sae_list fuel v.

Definition append_unique (combined values : list string) : list string :=
  fold_left (fun out v => let t := trim v in if String.eqb t "" then out else push_unique out t) values combined.

Definition resolved_additional_slave_sae_ids (fuel : nat) (slave_sae_ids additional_saes : option (list string)) (header_value : option Json) : option (list string) :=
  let combined := append_unique (append_unique [] (default [] slave_sae_ids)) (default [] additional_saes) in
  match header_value with
  | Some h => append_unique combined <$> normalize_sae_list fuel h
  | None => Some combined
  end.

(** ** Trimming *)

Lemma trim_end_idem s : trim_end (trim_end s) = trim_end s.
Proof.
  induction s as [|c s IH]; [done|]. cbn [trim_end]. destruct (trim_end s) as [|d t] eqn:E; [destruct (is_blank c) eqn:Eb; cbn; by rewrite ?Eb|].
  cbn [trim_end]. cbn [trim_end] in IH. by rewrite IH.
Qed.

(** Does not begin with a blank. *)
Definition tight (s : string) : Prop := match s with String c _ => is_blank c = false | EmptyString => True end.
Lemma trim_start_tight s : tight (trim_start s).
Proof. induction s as [|c s IH]; [done|]. cbn [trim_start]. destruct (is_blank c) eqn:E; [done|exact E]. Qed.
Lemma tight_trim_start s : tight s -> trim_start s = s.
Proof. destruct s as [|c s]; [done|]. cbn. by intros ->. Qed.
Lemma tight_trim_end s : tight s -> tight (trim_end s).
Proof. destruct s as [|c s]; [done|]. intros Hc. cbn [trim_end]. destruct (trim_end s); [by rewrite Hc|exact Hc]. Qed.

Lemma trim_idem s : trim (trim s) = trim s.
Proof. unfold trim. rewrite (tight_trim_start (trim_end _)) by apply tight_trim_end, trim_start_tight. apply trim_end_idem. Qed.

Fixpoint no_blank (s : string) : bool := match s with EmptyString => true | String c s => negb (is_blank c) && no_blank s end.
Lemma trim_no_blank s : no_blank s = true -> trim s = s.
Proof.
  intros Hs. unfold trim. rewrite tight_trim_start by (destruct s as [|c s]; [done|]; cbn in *; apply andb_true_iff in Hs as [Hs _]; by apply negb_true_iff).
  induction s as [|c s IH]; [done|]. cbn [no_blank trim_end] in *. apply andb_true_iff in Hs as [Hb%negb_true_iff Hs]. rewrite (IH Hs). destruct s; [by rewrite Hb|done].
Qed.

(** ** Lists without repetition *)

Definition pushes (out l : list string) : list string := fold_left push_unique l out.

Lemma pushes_spec l : forall out, NoDup out ->
  NoDup (pushes out l) /\ (forall s, s ∈ pushes out l <-> s ∈ out \/ s ∈ l) /\ exists add, pushes out l = out ++ add /\ sublist add l.
Proof.
  unfold pushes. induction l as [|x l IH]; intros out Hout; cbn [fold_left].
  { split_and!; [done|set_solver|]. exists []. by rewrite app_nil_r. }
  assert (Hn : NoDup (push_unique out x)) by (unfold push_unique; destruct (bool_decide_reflect (x ∈ out)); [done|]; apply NoDup_app; split_and!; [done|set_solver|apply NoDup_singleton]).
  destruct (IH _ Hn) as (H1 & H2 & add & E & Hsub). split_and!; [done| |].
  - intros s. rewrite H2. unfold push_unique. destruct (bool_decide_reflect (x ∈ out)); set_solver.
  - rewrite E. unfold push_unique. destruct (bool_decide_reflect (x ∈ out)); [exists add; split; [done|by constructor]|]. exists (x :: add). rewrite <- app_assoc. split; [done|by constructor].
Qed.

Lemma pushes_app out a b : pushes (pushes out a) b = pushes out (a ++ b).
Proof. unfold pushes. by rewrite fold_left_app. Qed.

Lemma normalize_items_pushes vs : normalize_items vs = pushes [] (omap normalize_single_sae vs).
Proof. unfold normalize_items, pushes. generalize (@nil string). induction vs as [|v vs IH]; intros out; [done|]. cbn [fold_left omap list_omap]. rewrite IH. by destruct (normalize_single_sae v). Qed.

Lemma append_unique_pushes out vs : append_unique out vs = pushes out (List.filter (fun t => negb (String.eqb t "")) (map trim vs)).
Proof. unfold append_unique, pushes. revert out. induction vs as [|v vs IH]; intros out; [done|]. cbn [fold_left map List.filter]. rewrite IH. by destruct (String.eqb (trim v) ""). Qed.

(** A name as it is passed on. *)
Definition tidy (s : string) : Prop := s <> "" /\ trim s = s.

Lemma single_tidy v s : normalize_single_sae v = Some s -> tidy s.
Proof.
  unfold normalize_single_sae. set (t := trim _). assert (Ht : trim t = t) by apply trim_idem. intros Hs.
  assert (Hts : (if String.eqb t "" then None else Some t) = Some s) by (by destruct v). destruct (String.eqb_spec t ""); [done|]. injection Hts as <-. done.
Qed.

Lemma items_ok vs : NoDup (normalize_items vs) /\ Forall tidy (normalize_items vs).
Proof.
  rewrite normalize_items_pushes. destruct (pushes_spec (omap normalize_single_sae vs) [] (NoDup_nil_2)) as (H1 & H2 & _). split; [done|]. apply Forall_forall. intros s [?|Hs]%H2; [by apply not_elem_of_nil in H0|].
  apply list_elem_of_omap in Hs as (v & _ & Hv). by eapply single_tidy.
Qed.

(** ** How deep a value is nested in objects *)

Fixpoint depth (v : Json) : nat := match v with JObject m => S (list_max (map (fun kv => depth kv.2) m)) | _ => 0 end%nat.

Lemma known_key_depth m v : known_key m = Some v -> (depth v < depth (JObject m))%nat.
Proof.
  assert (Hget : forall key, object_get m key = Some v -> (depth v < depth (JObject m))%nat).
  { intros key. unfold object_get. intros (kv & [Hin _]%find_some & ->)%fmap_Some. cbn [depth]. apply Nat.lt_succ_r. pose proof (proj1 (list_max_le (map (fun kv => depth kv.2) m) _) (Nat.le_refl _)) as Hall.
    rewrite List.Forall_forall in Hall. apply Hall, in_map_iff. by exists kv. }
  unfold known_key. destruct (object_get m "additional_saes") as [w|] eqn:E1; [intros [= ->]; eauto|]. destruct (object_get m "additional_slave_SAE_IDs") as [w|] eqn:E2; [intros [= ->]; eauto|]. eauto.
Qed.

Lemma starts_bracket s : starts_with "[" s = true -> exists r, s = String "[" r.
Proof. destruct s as [|c s]; [done|]. cbn. intros ->%Ascii.eqb_eq. by exists s. Qed.

(** Whatever is given, reading it ends, and gives names that are trimmed, not empty
    and there once. *)
Theorem normalize_gives_names fuel v : (depth v + 2 <= fuel)%nat -> exists out, normalize_sae_list fuel v = Some out /\ NoDup out /\ Forall tidy out.
Proof.
  revert v. induction fuel as [|fuel IH]; intros v Hf; [lia|].
  assert (Hdone : forall vs, exists out, Some (normalize_items vs) = Some out /\ NoDup out /\ Forall tidy out) by (intros vs; eexists; split; [done|apply items_ok]).
  destruct v as [|b|t|s|arr|m]; cbn [normalize_sae_list]; try apply Hdone.
  - apply (Hdone []).
  - cbv zeta. destruct (String.eqb _ _); [apply Hdone|]. destruct (_ && _) eqn:Eb; [|apply Hdone]. apply andb_true_iff in Eb as [(r & E)%starts_bracket _]. rewrite E.
    destruct (json_parse (String "[" r)) as [w|] eqn:Ep; [|apply Hdone]. destruct (json_parse_array _ _ Ep) as [l ->]. destruct fuel as [|fuel]; [cbn in Hf; lia|]. apply Hdone.
  - destruct (known_key m) as [w|] eqn:Ek; [|apply Hdone]. apply IH. pose proof (known_key_depth _ _ Ek). lia.
Qed.

(** The SAEs a request is for: every name of the two fields and the header, once, in
    the order of the first mention, and nothing else. *)
Theorem resolved_saes_are_those_named fuel slaves more header : (match header with Some h => depth h + 2 | None => 0 end <= fuel)%nat ->
  exists hs out, (match header with Some h => normalize_sae_list fuel h = Some hs | None => hs = [] end) /\
    resolved_additional_slave_sae_ids fuel slaves more header = Some out /\ NoDup out /\
    (forall s, s ∈ out <-> s <> "" /\ s ∈ map trim (default [] slaves ++ default [] more ++ hs)) /\ sublist out (map trim (default [] slaves ++ default [] more ++ hs)).
Proof.
  intros Hf. set (ne := List.filter (fun t => negb (String.eqb t ""))).
  assert (Hall : forall hs, let out := append_unique (append_unique (append_unique [] (default [] slaves)) (default [] more)) hs in NoDup out /\
    (forall s, s ∈ out <-> s <> "" /\ s ∈ map trim (default [] slaves ++ default [] more ++ hs)) /\ sublist out (map trim (default [] slaves ++ default [] more ++ hs))).
  { intros hs. rewrite !append_unique_pushes. set (l := map trim (default [] slaves ++ default [] more ++ hs)).
    assert (Ep : pushes (pushes (pushes [] (ne (map trim (default [] slaves)))) (ne (map trim (default [] more)))) (ne (map trim hs)) = pushes [] (ne l)).
    { unfold l, ne. rewrite !map_app, !List.filter_app, !pushes_app. by rewrite <- ?app_assoc. }
    unfold ne in Ep at 1 2 3. rewrite Ep. destruct (pushes_spec (ne l) [] NoDup_nil_2) as (H1 & H2 & add & E & Hsub). split_and!; [done| |].
    - intros s. rewrite H2. unfold ne. rewrite !list_elem_of_In, filter_In, negb_true_iff, String.eqb_neq. set_solver.
    - rewrite E. cbn [app]. etrans; [exact Hsub|]. unfold ne. clear. induction l as [|x l IH]; [constructor|]. cbn [List.filter]. destruct (negb _); by constructor. }
  unfold resolved_additional_slave_sae_ids. destruct header as [h|].
  - destruct (normalize_gives_names fuel h Hf) as (hs & E & _). exists hs. eexists. split; [exact E|]. rewrite E. split; [reflexivity|]. apply Hall.
  - exists [], (append_unique (append_unique [] (default [] slaves)) (default [] more)). split_and!; [done|done|apply (Hall [])..].
Qed.

(** ** Names written with commas *)

(** A name without separators or blanks. *)
Fixpoint plain (s : string) : bool := match s with EmptyString => true | String c s => negb (is_sep c) && negb (is_blank c) && plain s end.

Lemma split_plain s : plain s = true -> split_seps s = [s].
Proof. induction s as [|c s IH]; [done|]. cbn [plain split_seps]. intros [[Hc%negb_true_iff _]%andb_true_iff Hs]%andb_true_iff. by rewrite Hc, IH. Qed.

Lemma split_plain_comma s rest : plain s = true -> split_seps (String.append s (String "," rest)) = s :: split_seps rest.
Proof.
  induction s as [|c s IH]; [done|]. cbn [plain]. intros [[Hc%negb_true_iff _]%andb_true_iff Hs]%andb_true_iff.
  change (String.append (String c s) (String "," rest)) with (String c (String.append s (String "," rest))). cbn [split_seps]. by rewrite Hc, IH.
Qed.

Lemma plain_no_blank s : plain s = true -> no_blank s = true.
Proof. induction s as [|c s IH]; [done|]. cbn [plain no_blank]. intros [[_ ->]%andb_true_iff Hs]%andb_true_iff. by apply IH. Qed.

Lemma no_blank_append a b : no_blank (String.append a b) = no_blank a && no_blank b.
Proof. induction a as [|c a IH]; [done|]. change (String.append (String c a) b) with (String c (String.append a b)). cbn [no_blank]. by rewrite IH, andb_assoc. Qed.

Lemma joined names : names <> [] -> Forall (fun s => plain s = true) names -> split_seps (String.concat "," names) = names /\ no_blank (String.concat "," names) = true.
Proof.
  intros Hne Hall. induction Hall as [|s names Hs Hall IH]; [done|]. destruct names as [|s' names]; [split; [by apply split_plain|by apply plain_no_blank]|].
  destruct IH as [E1 E2]; [done|]. change (String.concat "," (s :: s' :: names)) with (String.append s (String "," (String.concat "," (s' :: names)))). split.
  - rewrite split_plain_comma by done. by rewrite E1.
  - rewrite no_blank_append, plain_no_blank by done. cbn [no_blank]. by rewrite E2.
Qed.

Lemma pushes_fresh l : forall out, NoDup (out ++ l) -> pushes out l = out ++ l.
Proof.
  unfold pushes. induction l as [|x l IH]; intros out Hnd; cbn [fold_left]; [by rewrite app_nil_r|]. unfold push_unique. rewrite bool_decide_eq_false_2.
  - rewrite IH; rewrite <- app_assoc; done.
  - apply NoDup_app in Hnd as (_ & Hsep & _). intros Hx. apply (Hsep x Hx). by left.
Qed.

Lemma items_of_names names : NoDup names -> Forall (fun s => plain s = true /\ s <> "") names -> normalize_items (map JString names) = names.
Proof.
  intros Hnd Hall. rewrite normalize_items_pushes. assert (E : omap normalize_single_sae (map JString names) = names); [|by rewrite E, pushes_fresh].
  clear Hnd. induction Hall as [|s names [Hs Hne] Hall IH]; [done|]. cbn [map omap list_omap]. unfold normalize_single_sae at 1. rewrite trim_no_blank by by apply plain_no_blank.
  destruct (String.eqb_spec s ""); [done|]. by rewrite IH.
Qed.

(** Different names, joined by commas into the header: these are the SAEs. *)
Theorem comma_list_is_read fuel names : names <> [] -> NoDup names -> Forall (fun s => plain s = true /\ s <> "") names -> starts_with "[" (String.concat "," names) = false ->
  resolved_additional_slave_sae_ids (S fuel) None None (Some (JString (String.concat "," names))) = Some names.
Proof.
  intros Hne Hnd Hall Hb. assert (Hp : Forall (fun s => plain s = true) names) by (eapply Forall_impl; [exact Hall|]; cbn; tauto). destruct (joined names Hne Hp) as [E1 E2].
  assert (Hf : List.filter (fun p => negb (String.eqb p "")) names = names).
  { clear -Hall. induction Hall as [|s names [_ Hs] Hall IH]; [done|]. cbn [List.filter]. destruct (String.eqb_spec s ""); [done|]. cbn [negb]. by rewrite IH. }
  unfold resolved_additional_slave_sae_ids. cbn [normalize_sae_list]. rewrite (trim_no_blank _ E2), Hb. cbn [andb].
  destruct (String.eqb_spec (String.concat "," names) "") as [Hz|_].
  { exfalso. rewrite Hz in E1. cbn in E1. subst names. apply Forall_inv in Hall as [_ Hx]. done. }
  unfold split_csv_like. rewrite E1, Hf, items_of_names by done. cbn [fmap option_fmap option_map default]. f_equal. rewrite append_unique_pushes. cbn [append_unique fold_left].
  assert (Et : map trim names = names) by (clear -Hp; induction Hp as [|s names Hs Hp IH]; [done|]; cbn [map]; by rewrite IH, trim_no_blank by by apply plain_no_blank).
  rewrite Et, Hf. by apply pushes_fresh.
Qed.
End Normalize.

(** ** Witnesses *)

(** A reader that knows one text. *)
Definition one_text : JsonText.
Proof.
  refine {| json_text := fun _ => "?"; json_parse := fun s => if String.eqb s "[1,2]" then Some (JArray [JNumber "1"; JNumber "2"]) else None |}.
  intros s v. destruct (String.eqb _ _); [|done]. intros [= <-]. by eexists.
Defined.

Lemma resolved_saes_are_those_named_witness : exists out,
  @resolved_additional_slave_sae_ids one_text 3 (Some ["a"; " b "]) None (Some (JObject [("values", JString " [1,2] ")])) = Some out /\ NoDup out /\ "b" ∈ out.
Proof.
  destruct (@resolved_saes_are_those_named one_text 3 (Some ["a"; " b "]) None (Some (JObject [("values", JString " [1,2] ")]))) as (hs & out & Eh & E & Hnd & Hin & _); [cbn; lia|].
  exists out. split; [exact E|]. split; [exact Hnd|]. apply Hin. split; [done|]. vm_compute in Eh. injection Eh as <-. apply (bool_decide_unpack _). vm_compute. reflexivity.
Defined.

Lemma comma_list_is_read_witness : @resolved_additional_slave_sae_ids one_text 1 None None (Some (JString "alice,bob")) = Some ["alice"; "bob"].
Proof.
  apply (@comma_list_is_read one_text 0 ["alice"; "bob"]); [done|apply (bool_decide_unpack _); vm_compute; reflexivity| |done].
  repeat (constructor; [by split|]). constructor.
Defined.

(** As the tests of the crate have it. *)
Example three_names : @resolved_additional_slave_sae_ids one_text 2 (Some ["x"]) (Some ["y"; "x"]) (Some (JString "alice, bob ; charlie")) = Some ["x"; "y"; "alice"; "bob"; "charlie"].
Proof. vm_compute. reflexivity. Qed.
