(* ===== verification/OrrLink.v ===== *)
(** * The connection of a router to its QKC (orr/src/qkc_link.rs)

    One task supervises one TCP connection: it connects with a growing delay, runs a
    session, throws away what is queued when a session breaks, and connects again.
    A session has a reader task of its own; the supervisor looks at the handle of
    that task and at the queue, the handle first.  A handle that has given its result
    must not be looked at again: that is a panic of the runtime, which ends the
    process.

    [ql_do] is one step of any of the tasks: a producer that queues a frame, the
    reader, the supervisor.  What leaves the queue is recorded with what became of
    it. *)

From Stdlib Require Import ZArith Lia.
From S2P Require Import Prelude Wire.

Definition SEND_QUEUE_CAPACITY : Z := 4096.
Definition BACKOFF_MIN : Z := 200.
Definition BACKOFF_MAX : Z := 5000.

(** The handle of the reader: running, finished, or finished and asked. *)
Inductive Handle := HRunning | HFinished | HTaken.

(** Where the supervisor is: about to connect, asleep, in the loop of [run_session],
    after that loop with [reader_done], emptying the queue, or gone. *)
Inductive SupPhase := Connecting | Asleep | InSession | SessionOver (reader_done : bool) | Emptying | Panicked.

Record QkcLink := mkQl {
  ql_queue : list Frame;
  ql_backoff : Z;
  ql_phase : SupPhase;
  ql_reader : Handle;
  ql_accepted : list Frame;
  ql_out : list (Frame * bool);
  ql_read : list Frame;
  ql_delivered : list Frame;
}.
Definition ql_spawn : QkcLink := mkQl [] BACKOFF_MIN Connecting HTaken [] [] [] [].

Definition ql_phased (p : SupPhase) (h : Handle) (l : QkcLink) : QkcLink :=
  mkQl (ql_queue l) (ql_backoff l) p h (ql_accepted l) (ql_out l) (ql_read l) (ql_delivered l).
Definition ql_backed (b : Z) (l : QkcLink) : QkcLink :=
  mkQl (ql_queue l) b (ql_phase l) (ql_reader l) (ql_accepted l) (ql_out l) (ql_read l) (ql_delivered l).
(** The front of the queue leaves it, written or not. *)
Definition ql_popped (f : Frame) (q : list Frame) (written : bool) (l : QkcLink) : QkcLink :=
  mkQl q (ql_backoff l) (ql_phase l) (ql_reader l) (ql_accepted l) (ql_out l ++ [(f, written)]) (ql_read l) (ql_delivered l).

(** Looking at the handle: whether the reader has finished; [None] is the panic. *)
Definition poll_handle (h : Handle) : option (Handle * bool) :=
  match h with HRunning => Some (HRunning, false) | HFinished => Some (HTaken, true) | HTaken => None end.
(** [abort] and [await]: the result of the task, whatever it is. *)
Definition abort_and_wait (h : Handle) : option Handle :=
  match h with HTaken => None | _ => Some HTaken end.

Inductive ReadEvent := GotFrame (f : Frame) (listening : bool) | GotEof | GotError.
Inductive QlStep := QSend (f : Frame) | QConnect (ok : bool) | QWake | QRead (e : ReadEvent) | QTurn (written : bool) | QCleanUp | QEmpty.

(** A frame from the QKC: only deliveries are passed on, and a closed channel ends the
    reader. *)
Definition reader_step (e : ReadEvent) (l : QkcLink) : QkcLink :=
  match e with
  | GotFrame f listening =>
      let l := mkQl (ql_queue l) (ql_backoff l) (ql_phase l) (ql_reader l) (ql_accepted l) (ql_out l) (ql_read l ++ [f]) (ql_delivered l) in
      if negb (kind f =? FRAME_LOCAL_DELIVER) then l
      else if listening then mkQl (ql_queue l) (ql_backoff l) (ql_phase l) (ql_reader l) (ql_accepted l) (ql_out l) (ql_read l) (ql_delivered l ++ [f])
      else ql_phased (ql_phase l) HFinished l
  | GotEof | GotError => ql_phased (ql_phase l) HFinished l
  end.

Definition ql_do (l : QkcLink) (s : QlStep) : option QkcLink :=
  match s, ql_phase l with
  | QSend f, _ =>
      if zlen (ql_queue l) <? SEND_QUEUE_CAPACITY
      then Some (mkQl (ql_queue l ++ [f]) (ql_backoff l) (ql_phase l) (ql_reader l) (ql_accepted l ++ [f]) (ql_out l) (ql_read l) (ql_delivered l)) else None
  | QConnect true, Connecting => Some (ql_phased InSession HRunning (ql_backed BACKOFF_MIN l))
  | QConnect false, Connecting => Some (ql_phased Asleep (ql_reader l) (ql_backed (Z.min (ql_backoff l * 2) BACKOFF_MAX) l))
  | QWake, Asleep => Some (ql_phased Connecting (ql_reader l) l)
  | QRead e, _ => match ql_reader l with HRunning => Some (reader_step e l) | _ => None end
  | QTurn written, InSession =>
      match poll_handle (ql_reader l) with
      | None => Some (ql_phased Panicked (ql_reader l) l)
      | Some (h, true) => Some (ql_phased (SessionOver true) h l)
      | Some (h, false) =>
          match ql_queue l with
          | [] => None
          | f :: q => Some (ql_popped f q written (ql_phased (if written then InSession else SessionOver false) h l))
          end
      end
  | QCleanUp, SessionOver true => Some (ql_phased Emptying (ql_reader l) l)
  | QCleanUp, SessionOver false =>
      match abort_and_wait (ql_reader l) with Some h => Some (ql_phased Emptying h l) | None => Some (ql_phased Panicked (ql_reader l) l) end
  | QEmpty, Emptying =>
      match ql_queue l with
      | [] => Some (ql_phased Asleep (ql_reader l) l)
      | f :: q => Some (ql_popped f q false l)
      end
  | _, _ => None
  end.
Fixpoint ql_run (l : QkcLink) (ss : list QlStep) : option QkcLink := match ss with [] => Some l | s :: ss => l ← ql_do l s; ql_run l ss end.

(** The handle is looked at only while it has not given its result. *)
Definition handle_ok (p : SupPhase) (h : Handle) : Prop :=
  match p with
  | InSession | SessionOver false => h <> HTaken
  | Panicked => False
  | _ => h = HTaken
  end.

Record ql_ok (l : QkcLink) : Prop := {
  qo_handle : handle_ok (ql_phase l) (ql_reader l);
  qo_order : ql_accepted l = map fst (ql_out l) ++ ql_queue l;
  qo_bound : zlen (ql_queue l) <= SEND_QUEUE_CAPACITY;
  qo_backoff : BACKOFF_MIN <= ql_backoff l <= BACKOFF_MAX;
  qo_delivered : sublist (ql_delivered l) (filter (fun f => kind f = FRAME_LOCAL_DELIVER) (ql_read l))
}.

Lemma popped_ok l f q w p h : ql_ok l -> ql_queue l = f :: q -> handle_ok p h -> ql_ok (ql_popped f q w (ql_phased p h l)).
Proof.
  intros [Hh Ho Hb Hk Hd] Eq Hp. constructor; cbn [ql_popped ql_phased ql_queue ql_backoff ql_phase ql_reader ql_accepted ql_out ql_read ql_delivered]; [done| | |done|done].
  - rewrite Ho, Eq, map_app, <- app_assoc. done.
  - rewrite Eq, zlen_cons in Hb. lia.
Qed.

Lemma phased_ok l p h : ql_ok l -> handle_ok p h -> ql_ok (ql_phased p h l).
Proof. by intros [Hh Ho Hb Hk Hd] Hp. Qed.

Lemma backed_ok l b : ql_ok l -> BACKOFF_MIN <= b <= BACKOFF_MAX -> ql_ok (ql_backed b l).
Proof. by intros [Hh Ho Hb Hk Hd] Hr. Qed.

Lemma reader_ok e l : ql_ok l -> ql_reader l = HRunning -> ql_ok (reader_step e l).
Proof.
  intros Hok Hr. pose proof Hok as [Hh Ho Hb Hk Hd]. assert (Hf : handle_ok (ql_phase l) HFinished) by (rewrite Hr in Hh; destruct (ql_phase l) as [| | |[]| |]; done).
  destruct e as [f []| |]; cbn [reader_step]; [| |by apply phased_ok..]; destruct (Z.eqb_spec (kind f) FRAME_LOCAL_DELIVER) as [Ek|Ek]; cbn [negb];
    constructor; cbn [ql_phased ql_queue ql_backoff ql_phase ql_reader ql_accepted ql_out ql_read ql_delivered]; try done; rewrite filter_app.
  - rewrite filter_cons_True by done. by apply sublist_app.
  - by apply sublist_inserts_r.
  - by apply sublist_inserts_r.
  - by apply sublist_inserts_r.
Qed.

Lemma ql_step_ok l s l' : ql_ok l -> ql_do l s = Some l' -> ql_ok l'.
Proof.
  intros Hok. pose proof Hok as [Hh Ho Hb Hk Hd]. destruct s as [f|[]| |e|written| |]; cbn [ql_do].
  - destruct (Z.ltb_spec (zlen (ql_queue l)) SEND_QUEUE_CAPACITY); [|done]. intros [= <-]. constructor; cbn [ql_queue ql_backoff ql_phase ql_reader ql_accepted ql_out ql_read ql_delivered]; try done.
    + by rewrite Ho, app_assoc.
    + rewrite zlen_app, zlen_cons, zlen_nil. lia.
  - destruct (ql_phase l); try done. intros [= <-]. apply phased_ok; [apply backed_ok; [done|by vm_compute]|done].
  - destruct (ql_phase l); try done. intros [= <-]. apply phased_ok; [apply backed_ok; [done|unfold BACKOFF_MIN, BACKOFF_MAX in *; lia]|exact Hh].
  - destruct (ql_phase l); try done. intros [= <-]. by apply phased_ok.
  - destruct (ql_reader l) eqn:Er; try done. destruct (ql_phase l); intros [= <-]; by apply reader_ok.
  - destruct (ql_phase l); try done. destruct (ql_reader l) eqn:Er; cbn [poll_handle]; [|intros [= <-]; by apply phased_ok|done].
    destruct (ql_queue l) as [|f q] eqn:Eq; [done|]. intros [= <-]. apply popped_ok; [done|done|]. by destruct written.
  - destruct (ql_phase l) as [| | |[]| |]; try done; [intros [= <-]; by apply phased_ok|]. destruct (ql_reader l); cbn [abort_and_wait]; [intros [= <-]; by apply phased_ok..|done].
  - destruct (ql_phase l) eqn:Ep; try done. destruct (ql_queue l) as [|f q] eqn:Eq; intros [= <-]; [by apply phased_ok|].
    change (ql_popped f q false l) with (ql_popped f q false (ql_phased (ql_phase l) (ql_reader l) l)). apply popped_ok; [done|done|]. by rewrite Ep.
Qed.

(** Whatever the network and the QKC do: the supervisor never looks at a handle
    twice, so it goes on; every frame that was queued leaves the queue in its turn or
    is still there, behind those that were before it; the queue and the delay stay
    within their bounds; and only deliveries reach the router, in the order the QKC
    sent them. *)
Theorem qkc_link_goes_on ss l : ql_run ql_spawn ss = Some l ->
  ql_phase l <> Panicked /\ ql_accepted l = map fst (ql_out l) ++ ql_queue l /\ zlen (ql_queue l) <= SEND_QUEUE_CAPACITY /\ BACKOFF_MIN <= ql_backoff l <= BACKOFF_MAX /\
  sublist (ql_delivered l) (filter (fun f => kind f = FRAME_LOCAL_DELIVER) (ql_read l)).
Proof.
  assert (Hrun : forall l0, ql_ok l0 -> ql_run l0 ss = Some l -> ql_ok l).
  { induction ss as [|s ss IH]; intros l0 H0; cbn [ql_run]; [by intros [= <-]|]. intros (l1 & E & Hr)%bind_Some. eapply IH; [|exact Hr]. by eapply ql_step_ok. }
  intros [Hh Ho Hb Hk Hd]%Hrun; [|by constructor]. split_and!; [|done..|lia|lia|done]. intros Ep. by rewrite Ep in Hh.
Qed.

(** A session that lasts writes what is queued, in order. *)
Theorem session_writes_the_queue l : ql_phase l = InSession -> ql_reader l = HRunning ->
  exists l', ql_run l (replicate (length (ql_queue l)) (QTurn true)) = Some l' /\ ql_queue l' = [] /\ ql_phase l' = InSession /\ ql_out l' = ql_out l ++ map (fun f => (f, true)) (ql_queue l).
Proof.
  remember (ql_queue l) as q eqn:Eq. revert l Eq. induction q as [|f q IH]; intros l Eq Hp Hr; cbn [length replicate ql_run map].
  { exists l. by rewrite app_nil_r. }
  cbn [ql_do]. rewrite Hp, Hr. cbn [poll_handle]. rewrite <- Eq. cbn [mbind option_bind].
  destruct (IH (ql_popped f q true (ql_phased InSession HRunning l))) as (l' & E & Hq & Hp' & Ho); [done..|]. exists l'. split_and!; [exact E|done|done|]. rewrite Ho. cbn. by rewrite <- app_assoc.
Qed.

(** ** Witnesses *)

Definition d_frame : Frame := Frame_empty FRAME_LOCAL_DELIVER.
Definition broken_session : list QlStep :=
  [QSend (Frame_empty 1); QConnect false; QWake; QConnect true; QRead (GotFrame d_frame true); QTurn true; QSend (Frame_empty 2); QRead GotEof; QTurn true; QCleanUp; QEmpty; QEmpty; QWake].

Lemma qkc_link_goes_on_witness : exists l, ql_run ql_spawn broken_session = Some l /\ ql_phase l <> Panicked /\ ql_out l = [(Frame_empty 1, true); (Frame_empty 2, false)].
Proof.
  destruct (ql_run ql_spawn broken_session) as [l|] eqn:E; [|by vm_compute in E]. exists l. split; [done|]. split; [exact (proj1 (qkc_link_goes_on broken_session l E))|].
  vm_compute in E. injection E as <-. reflexivity.
Defined.

Definition up_link : QkcLink := mkQl [Frame_empty 1; Frame_empty 2] BACKOFF_MIN InSession HRunning [Frame_empty 1; Frame_empty 2] [] [] [].
Lemma session_writes_the_queue_witness : exists l', ql_run up_link [QTurn true; QTurn true] = Some l' /\ ql_out l' = [(Frame_empty 1, true); (Frame_empty 2, true)].
Proof. destruct (session_writes_the_queue up_link eq_refl eq_refl) as (l' & E & _ & _ & Ho). exists l'. split; [exact E|exact Ho]. Defined.

(** The header of the file says that frames queued while the connection is down are
    sent in the next session.  Those that are queued when a session breaks are not:
    they are thrown away before the supervisor sleeps. *)
Theorem queued_frame_is_thrown_away :
  (fun l => (ql_phase l, ql_queue l, ql_out l)) <$> ql_run ql_spawn [QConnect true; QRead GotEof; QSend d_frame; QTurn true; QCleanUp; QEmpty; QEmpty] = Some (Asleep, [], [(d_frame, false)]).
Proof. reflexivity. Qed.
